(* ===== verification/_CoqProject ===== *)
-Q . S2P
Prelude.v
JsMap.v
JsNumber.v
JsString.v
SlidingWindow.v
RollingRpm.v
CircuitBreaker.v
AccountSemaphore.v
AdmissionCost.v
FairQueue.v
Adaptation.v
AdmissionController.v
WorkflowFSM.v
BoundedMap.v
AccountBuckets.v
QuotaInflight.v
QuotaShare.v
FairShare.v
RateLimitSemaphore.v
ModelLockout.v
ComboCooldown.v
RoundRobin.v
ComboSteps.v
ComboGraph.v
ThinkTags.v
RegExp.v
RouteGuard.v
DashboardUrls.v
Classify.v
Authz.v
ShuffleDeck.v
IpFilter.v
RequestDedup.v
Json.v
LruCache.v
JsonSize.v
ToolPairs.v
ContextManager.v
XaiCap.v
ResourcePressure.v
ComboErrors.v
ComboLoop.v
ComboLoopFacts.v
StreamHelpers.v
MarkdownBoundary.v
InvokeBlocks.v
DsmlToolCalls.v
SystemPreamble.v
ToolShim.v
ToolNames.v
ClaudeProtocol.v
OpenaiToClaude.v
OpenaiToClaudeFacts.v
OpenaiToClaudeTools.v
ClaudeToOpenai.v
ClaudeToOpenaiFacts.v
TranslatorRoundTrip.v
Patterns.v
ErrorRules.v
RotationConfig.v
ErrorTexts.v
ProviderRules.v
AccountFallback.v
AccountFallbackFacts.v
ProviderCooldown.v
RetryDelays.v
Classify429.v
ProviderBreakers.v
