(* ===== verification/Prelude.v ===== *)
(** * RedRouter, verified

    RedRouter (formerly OmniRoute) is a router for language-model APIs.  A
    request names a model or a combo, an ordered or weighted set of models; the
    router admits it under load control, expands the combo into targets, chooses
    an account for each target, takes the slots that account's limits allow,
    calls the upstream service, classifies a failure and moves on to the next
    target, and post-processes the answer's stream.  This development models the
    parts of that path that keep state or decide, in the files under
    [open-sse/services], [open-sse/utils] and [src/], and proves what makes each
    of them correct.

    ** How the parts interact

    Every request first passes the authorisation pipeline: the peer is read from
    the stamp the server put on it, the path is decoded and brought to its
    canonical form, classified (route classes over the route guard's tables and
    the dashboard's address table), and the policy of its class admits a subject
    or refuses; the trusted headers are written anew.

    A chat request then enters through the adaptive admission controller (the cost
    estimator prices it, the fair queue orders it, the adaptation loop moves the
    limit).  Identical requests in flight share one call (request
    deduplication).  A combo is read from its stored form (combo steps),
    expanded (combo expansion) and ordered by a strategy: weights, round robin,
    shuffle decks or quota share.  Before a target is called the router consults
    the circuit breaker of its provider, the model lockouts of its account, the
    account semaphore, the rate-limit semaphore and the request-rate gates; a
    failure is classified by its status, text and headers (account fallback), which says
    how long the account rests and whether another is tried, under the operator's
    rotation rules; it feeds the breaker of its connection or provider, the cooldown
    tracker and the lockouts, and when every target is locked
    the combo may wait for the earliest cooldown.  Quota buckets, the in-flight
    counter and the fair-share decision feed the quota-share strategy.  A
    conversation too long for its model is compressed (images, tool output,
    reasoning, then the oldest messages) and its tool calls and results are paired
    anew.  The tools of a request to Claude Code's own upstream are renamed on the way out
    and renamed back on the way in.  The answer's reasoning tags are split off by the
    think-tag parser; a stream of OpenAI chunks becomes the events of a Claude client,
    with the tool calls that models write as text found and lifted out, and a stream of
    Claude events becomes the chunks of an OpenAI client; whole answers may come from a
    cache.  Samples of the host's memory drive a severity
    that heavy endpoints obey.

    ** The files, in dependency order

    - [Prelude]: record update, tactics, lemmas on lists and integers, [reach],
      the reflexive and transitive closure by labels used by every step relation.
    - [JsMap]: the ECMAScript Map, a list of bindings in insertion order, with
      [mget], [mset], [mdel]; [mwf] says keys are distinct.
    - [JsNumber]: ECMAScript numbers as IEEE doubles (SpecFloat) where the code
      computes with fractions, and the conversions to exact integers.
    - [JsString]: the string functions the code uses, on ASCII text.
    - [SlidingWindow] ([services/slidingWindowLimiter.ts]) and [RollingRpm]
      ([services/rollingRpmGate.ts]): request-rate limits.
    - [CircuitBreaker] ([src/shared/utils/circuitBreaker.ts]).
    - [AccountSemaphore] ([services/accountSemaphore.ts]) and
      [RateLimitSemaphore] ([services/rateLimitSemaphore.ts],
      [combo/quotaShareConcurrency.ts]): concurrency limits.
    - [AdmissionCost], [FairQueue], [Adaptation], [AdmissionController]
      ([services/admission/]: cost.ts, config.ts, types.ts, queue.ts,
      adaptation.ts, controller.ts).
    - [WorkflowFSM] ([services/workflowFSM.ts]).
    - [BoundedMap], [AccountBuckets], [FairShare] ([src/lib/quota/]), [QuotaInflight],
      [QuotaShare] ([services/combo/quotaShareInflight.ts, quotaShareStrategy.ts]).
    - [ModelLockout] (the lockout part of [services/accountFallback.ts] and its
      leaves), [ComboCooldown] ([combo/comboCooldownRetry.ts] and the loop that
      uses it), [RoundRobin] ([combo/rrState.ts, roundRobinCombo.ts]).
    - [ComboSteps] ([src/lib/combos/steps.ts]: the stored form; its type [json]
      serves later files) and [ComboGraph] ([combo/comboStructure.ts],
      [combo/targetSorters.ts] and the predicates they call).
    - [ThinkTags] ([open-sse/utils/thinkTagParser.ts]), [ShuffleDeck]
      ([src/shared/utils/shuffleDeck.ts]), [IpFilter] ([services/ipFilter.ts]),
      [RequestDedup] ([services/requestDedup.ts]).
    - [RegExp] (the language's regular expressions, as a matcher on syntax trees),
      [RouteGuard] ([src/server/authz/routeGuard.ts] and the tables it reads),
      [DashboardUrls] ([src/shared/constants/dashboardUrls.ts] and the navigation
      model behind it), [Classify] ([src/server/authz/classify.ts] and the public
      routes), [Authz] ([src/server/authz/]: peer stamp, headers, policies,
      pipeline).
    - [Json] (induction over JSON values), [LruCache] ([src/lib/cacheLayer.ts],
      [src/lib/retainedSize.ts]), [JsonSize] ([open-sse/utils/jsonSize.ts]),
      [ToolPairs] and [ContextManager] ([services/contextManager.ts]), [XaiCap]
      ([services/xaiMessageCap.ts]), [ResourcePressure]
      ([open-sse/utils/resourcePressurePolicy.ts]).
    - [ComboErrors] ([combo/comboErrorAggregation.ts, unavailableRetryGate.ts]),
      [ComboLoop] and [ComboLoopFacts] ([combo/comboAttemptLoop.ts]: the loop, and
      its theorems).
    - [StreamHelpers], [MarkdownBoundary], [InvokeBlocks], [DsmlToolCalls],
      [SystemPreamble] ([open-sse/utils/] and [translator/helpers/]: what the stream
      translator calls), [ToolShim] ([translator/helpers/toolCallShim.ts]), [ToolNames]
      ([services/claudeCodeToolRemapper.ts]), [ClaudeProtocol] (the grammar of events a
      client accepts: a specification, not code), [OpenaiToClaude]
      ([translator/response/openai-to-claude.ts]) with [OpenaiToClaudeFacts] and
      [OpenaiToClaudeTools] (its theorems), [ClaudeToOpenai] with [ClaudeToOpenaiFacts]
      ([translator/response/claude-to-openai.ts]), [TranslatorRoundTrip] (the two
      composed).
    - [Patterns] (regular expressions searched in a text, parsed from the code's own
      source text), [ErrorRules] ([open-sse/config/errorConfig.ts]), [RotationConfig]
      ([services/rotationConfig.ts]), [ErrorTexts] (the signals and patterns of error
      texts), [ProviderRules] ([open-sse/config/providerErrorRules.ts]),
      [AccountFallback] with [AccountFallbackFacts] ([services/accountFallback.ts]:
      [checkFallbackError] and the account state).
    - [ProviderCooldown] ([services/providerCooldownTracker.ts]: cooldowns across
      requests, with the profiles of constants.ts), [RetryDelays]
      ([services/retryAfterJson.ts]) and [Classify429]
      ([src/shared/utils/classify429.ts]), [ProviderBreakers] (the wrappers of
      accountFallback.ts that feed the breakers of providers and connections, composing
      [CircuitBreaker], [ProviderCooldown] and [Classify429]).

    ** How code becomes a model

    A class or a module with mutable state is a Record of its fields; a method is
    a function from the state, the arguments and the values the method reads from
    its environment (the clock, the random draws) to the new state and the
    result.  Guards and early returns are those of the code, in its order.  What
    runs between two awaits of one asynchronous function is one step; a promise
    is an entry of a log of settlements, a timer an entry of a registry of armed
    timers, so that every interleaving of calls, timers and aborts is a sequence
    of labels, and invariants are proved over all of them by induction.  Objects
    that are shared by reference (gates captured by timers, leases, promises)
    live in a heap or are numbered.  Thrown errors are values.

    Numbers that only ever hold integers below 2^53 (times in milliseconds,
    counts, costs) are [Z]; numbers with fractions are doubles, or exact rationals
    where a file says so (weights of a combo, and a second instance of the deficit
    round robin for its proportionality theorem).  Bit operations carry their
    32-bit wrap-around.  Maps keep insertion order because the code evicts by it.

    ** What the theorems show

    - Bounds under concurrency: [enforce_cost_bound], [semaphore_concurrency],
      [rate_semaphore_bound], [halfOpen_probe_bound], [admission_accounting] hold in
      every reachable state of the step relations.
    - Nothing waits for ever: [no_stranded_waiter], [waiter_not_stranded],
      [dedup_answers_all], [loop_never_hangs], [stream_completed].
    - The attempt loop: [first_answer_returned], [gives_up_last],
      [targets_in_order]; what it answers: [client_blamed_uniformly].
    - Streams: [protocol_conformant] (the translator refines the grammar of events a
      Claude client reads, [ClaudeProtocol]), [text_preserved],
      [tool_arguments_delivered], [chunks_conformant] (the same for the translator in
      the other direction, whatever events it reads), [translation_roundtrip] (the two
      translators composed give content, reasoning and calls back), [tags_split],
      [think_stream_invariant].
    - Tool names: [cloak_distinct], [cloak_roundtrip].
    - Locks keep: [lock_holds], [server_error_isolated], [pressure_hysteresis].
    - Agreement with a reference: [expansion_complete], [validate_dag_spec],
      [cidr_spec], [jsonLength_exact], [lru_evicts_least_recent].
    - Failures of accounts: [cooled_account_returns], [account_backoff_escalates],
      [refused_spares_account], [cooldown_capped], [permanent_iff_deactivated],
      [exhausted_iff_reason], [announced_reset_read]; [rotation_threshold] (the counters
      refine the full history).
    - Providers and connections: [provider_window_exact] (the pruned and capped samples
      refine the full history), [connection_backoff], [spaced_failures_open],
      [connection_failure_isolated], [burst_counts_once], [probe_success_closes];
      announced waits: [retry_hint_bounded], [classify429_decides].
    - Workflows: [workflow_done_gated].
    - Fairness: [drr_proportional], [quota_share_dispatch].
    - Conversations that are cut stay well formed: [purified_calls_answered],
      [repaired_results_called].
    - Authorisation: [spawn_surface_closed], [management_needs_credential],
      [area_never_public]; tenants stay apart: [dedup_tenant_isolation].
    Witnesses instantiate each theorem at a concrete history; the Findings section
    at the end of a file holds concrete runs in which the code differs from what
    its comments say or from what it evidently means.

    ** Fuel

    Recursion that is not structural has fuel, and each bound is proved enough:
    the expansion of a combo recurses over the levels left below the code's own
    depth limit, the walk over composite tiers has one unit per tier (a visited
    tier ends it), the tag splitter one per character of its buffer, the drains of
    the semaphores one per waiting request, the eviction of the cache one per
    entry; the extractors of tool calls written as text have the length of the text, the
    search for a free alias one more than the names in use, the loop of the system
    preamble stripper a bound beyond which it provably never ends.  The search for
    how many messages to keep shrinks a count by a floating-point factor; that its
    fuel is enough is checked for every count up to 4000 by evaluation.

    ** Parameters

    Code outside the sources, or out of the scope of a file, is an argument of the
    definitions: the provider registry, model parsing and visibility, the random
    generator (with its documented range), SHA-256 of the JSON text (with its
    length), [net.isIP], the next local midnight, [Date.parse],
    the verdicts of sessions, keys and settings that the policies consult, the
    check of a browser's origin.
    So are JSON.parse and JSON.stringify, the text of the clock and the random ids of the
    stream translator, in the attempt loop what a task answers and when, and
    in the classification of failures the provider registry and profiles, the parsers of
    retry hints that need calendar or decimal arithmetic, and the counters of one vendor;
    in the cooldowns of providers the environment (whole numbers), the default settings
    and Date.parse.

    ** Not modelled

    The calls themselves (executors, stream plumbing, the translators between other
    pairs of formats), the database,
    the dashboard pages and the bodies of the API routes, the command line and the desktop shell, the
    provider tables, token refresh and the quota fetchers are input and output, or
    tables, or orchestration of asynchronous calls into those; the manifest lists
    them with the reason for each.  The rate limit manager wraps a package that is
    not part of the sources.  Inside modelled files what is left out is said at
    the top of the file: log lines, metrics callbacks and helpers for tests.
@PLAN@ *)
From stdpp Require Export base list option numbers strings sets pretty.
From Stdlib Require Export ZArith Lia.
From Stdlib Require Import QArith.
From Stdlib Require Import Sorting.Sorted.

#[global] Open Scope Z_scope.
#[global] Unset Printing Records.

(** ** Record update

    [r <| f := v |>] is the record [r] with field [f] replaced, the shape of a
    JavaScript field assignment on an object whose previous value is dead.
    A record type becomes updatable by an [Eta] instance. *)

Class Eta (R : Type) := eta : R -> R.
Class Setter {R T : Type} (proj : R -> T) := set_field : (T -> T) -> R -> R.

Ltac solve_setter :=
  lazymatch goal with
  | |- @Setter ?R ?T ?proj =>
      let i := constr:(_ : Eta R) in
      let e := eval hnf in i in
      lazymatch eval pattern proj in e with
      | ?s _ =>
          let r := eval cbv beta in (fun (f : T -> T) => s (fun r => f (proj r))) in
          exact r
      end
  end.

#[export] Hint Extern 1 (Setter _) => solve_setter : typeclass_instances.

Declare Scope rr_scope.
Delimit Scope rr_scope with rr.
Notation "r <| f := v |>" := (set_field (proj := f) (fun _ => v) r)
  (at level 1, f at next level, left associativity) : rr_scope.
#[global] Open Scope rr_scope.

(** ** Tactics *)

(** Case analysis on the first [if] or boolean [match] of the goal or of a
    hypothesis, keeping the equation. *)
Ltac case_if :=
  match goal with
  | |- context [if ?b then _ else _] =>
      lazymatch type of b with bool => destruct b eqn:? | _ => destruct b end
  end.

Ltac case_if_in H :=
  match type of H with
  | context [if ?b then _ else _] =>
      lazymatch type of b with bool => destruct b eqn:? | _ => destruct b end
  end.

(** Boolean hypotheses to propositions over [Z] and [nat]. *)
Ltac to_prop :=
  repeat match goal with
  | H : (_ && _)%bool = true |- _ => apply andb_true_iff in H; destruct H
  | H : (_ || _)%bool = false |- _ => apply orb_false_iff in H; destruct H
  | H : negb _ = true |- _ => apply negb_true_iff in H
  | H : negb _ = false |- _ => apply negb_false_iff in H
  | H : (_ <=? _)%Z = true |- _ => apply Z.leb_le in H
  | H : (_ <=? _)%Z = false |- _ => apply Z.leb_gt in H
  | H : (_ <? _)%Z = true |- _ => apply Z.ltb_lt in H
  | H : (_ <? _)%Z = false |- _ => apply Z.ltb_ge in H
  | H : (_ >=? _)%Z = true |- _ => rewrite Z.geb_leb in H; apply Z.leb_le in H
  | H : (_ >=? _)%Z = false |- _ => rewrite Z.geb_leb in H; apply Z.leb_gt in H
  | H : (_ >? _)%Z = true |- _ => rewrite Z.gtb_ltb in H; apply Z.ltb_lt in H
  | H : (_ >? _)%Z = false |- _ => rewrite Z.gtb_ltb in H; apply Z.ltb_ge in H
  | H : (_ =? _)%Z = true |- _ => apply Z.eqb_eq in H
  | H : (_ =? _)%Z = false |- _ => apply Z.eqb_neq in H
  end.

(** Arithmetic after turning boolean tests into propositions. *)
Ltac blia := to_prop; lia.

(** The lemmas that close the routine goals of the development. *)
Create HintDb rr discriminated.

(** ** JavaScript values *)

(** Truthiness of a [number | null]: [0] and [null] are falsy. *)
Definition truthyNum (o : option Z) : bool :=
  match o with Some t => negb (t =? 0) | None => false end.

(** [a || d] on a [number | undefined]. *)
Definition numOr (o : option Z) (d : Z) : Z :=
  match o with Some t => if t =? 0 then d else t | None => d end.

(** [a ?? d]. *)
Definition orElse {A} (o : option A) (d : A) : A :=
  match o with Some a => a | None => d end.

(** [Math.ceil (a / b)] for integers, [b] positive. *)
Definition ceilDiv (a b : Z) : Z := - ((- a) / b).

Definition MAX_SAFE_INTEGER : Z := 9007199254740991.

(** A [number] that need not be an integer: a finite value, or [NaN] and the
    infinities, which the code only ever tests with [Number.isFinite]. *)
Inductive jsnum := Fin (q : Q) | NonFinite.

(** [Math.trunc] of a finite number. *)
Definition truncQ (q : Q) : Z := Z.quot (Qnum q) (Zpos (Qden q)).

Lemma truthyNum_Some o : truthyNum o = true -> exists t, o = Some t /\ t <> 0.
Proof. destruct o as [t|]; simpl; [|done]. intros H; to_prop. eauto. Qed.

Lemma ceilDiv_spec a b : 0 < b -> b * (ceilDiv a b - 1) < a <= b * ceilDiv a b.
Proof.
  intros Hb. unfold ceilDiv.
  pose proof (Z.div_mod (- a) b ltac:(lia)). pose proof (Z.mod_pos_bound (- a) b Hb). nia.
Qed.

(** ** Sums and maxima over lists *)

Definition sumZ (l : list Z) : Z := foldr Z.add 0 l.

Lemma sumZ_app l1 l2 : sumZ (l1 ++ l2) = sumZ l1 + sumZ l2.
Proof. induction l1 as [|x l1 IH]; simpl; [done|]. rewrite IH. lia. Qed.

Lemma sumZ_Permutation l1 l2 : l1 ≡ₚ l2 -> sumZ l1 = sumZ l2.
Proof. induction 1; simpl; lia. Qed.

Lemma sumZ_nonneg l : Forall (fun x => 0 <= x) l -> 0 <= sumZ l.
Proof. induction 1; simpl; lia. Qed.

Lemma sumZ_pos_elem l : 0 < sumZ l -> exists x, x ∈ l /\ 0 < x.
Proof.
  induction l as [|y l IH]; simpl; [lia|]. intros H. destruct (Z.lt_ge_cases 0 y).
  - exists y. split; [by left|done].
  - destruct IH as (x & ? & ?); [lia|]. exists x. split; [by right|done].
Qed.

Lemma sumZ_cons x l : sumZ (x :: l) = x + sumZ l.
Proof. done. Qed.

(** ** Reachability of a step relation *)

Section Reach.
Context {S L : Type} (step : S -> L -> S -> Prop).

Inductive reach (s0 : S) : list L -> S -> Prop :=
| reach_refl : reach s0 [] s0
| reach_step s ls l s' : reach s0 ls s -> step s l s' -> reach s0 (ls ++ [l]) s'.

(** An invariant that holds at the start and is kept by every step holds at
    every reachable state. *)
Lemma reach_invariant (I : S -> Prop) s0 ls s :
  I s0 -> (forall s l s', I s -> step s l s' -> I s') -> reach s0 ls s -> I s.
Proof. intros H0 Hstep. induction 1; eauto. Qed.

Lemma reach_trans s0 ls1 s1 ls2 s2 :
  reach s0 ls1 s1 -> reach s1 ls2 s2 -> reach s0 (ls1 ++ ls2) s2.
Proof.
  intros H1. induction 1 as [|s ls l s' H IH Hs]; [by rewrite app_nil_r|].
  rewrite app_assoc. econstructor; eauto.
Qed.
End Reach.

(** ** Stable sorting: [Array.prototype.sort] with a numeric key *)

Section SortOn.
Context {A : Type} (key : A -> Z).

Fixpoint insertOn (x : A) (l : list A) : list A :=
  match l with
  | [] => [x]
  | y :: l' => if key x <=? key y then x :: l else y :: insertOn x l'
  end.

Definition sortOn (l : list A) : list A := foldr insertOn [] l.

Definition leOn (x y : A) : Prop := key x <= key y.

Lemma insertOn_perm x l : insertOn x l ≡ₚ x :: l.
Proof.
  induction l as [|y l IH]; simpl; [done|].
  case_if; [done|]. rewrite IH. apply Permutation_swap.
Qed.

Lemma sortOn_perm l : sortOn l ≡ₚ l.
Proof. induction l as [|x l IH]; simpl; [done|]. by rewrite insertOn_perm, IH. Qed.

Lemma insertOn_sorted x l : StronglySorted leOn l -> StronglySorted leOn (insertOn x l).
Proof.
  induction 1 as [|y l Hs IH Hf]; simpl; [repeat constructor|].
  case_if; to_prop.
  - repeat constructor; auto.
    eapply Forall_impl; [exact Hf|]. unfold leOn; intros; lia.
  - constructor; [done|]. rewrite insertOn_perm. constructor; [unfold leOn; lia|done].
Qed.

Lemma sortOn_sorted l : StronglySorted leOn (sortOn l).
Proof. induction l; simpl; [constructor|by apply insertOn_sorted]. Qed.

(** Elements with equal keys keep their order. *)
Lemma insertOn_stable k x l :
  filter (fun y => key y = k) (insertOn x l) = filter (fun y => key y = k) (x :: l).
Proof.
  induction l as [|y l IH]; [done|]. simpl. case_if; [done|]. to_prop.
  rewrite (filter_cons _ y), IH, !filter_cons. repeat case_decide; try done; lia.
Qed.

Lemma sortOn_stable k l :
  filter (fun y => key y = k) (sortOn l) = filter (fun y => key y = k) l.
Proof.
  induction l as [|x l IH]; simpl; [done|].
  rewrite insertOn_stable, !filter_cons, IH. done.
Qed.
End SortOn.

(** [Array.prototype.sort] with a comparison: stable, by the boolean order. *)
Section SortBy.
Context {A : Type} (le : A -> A -> bool).

Fixpoint insertBy (x : A) (l : list A) : list A :=
  match l with
  | [] => [x]
  | y :: l' => if le x y then x :: l else y :: insertBy x l'
  end.

Definition sortBy (l : list A) : list A := foldr insertBy [] l.

Lemma insertBy_perm x l : insertBy x l ≡ₚ x :: l.
Proof.
  induction l as [|y l IH]; simpl; [done|].
  case_if; [done|]. rewrite IH. apply Permutation_swap.
Qed.

Lemma sortBy_perm l : sortBy l ≡ₚ l.
Proof. induction l as [|x l IH]; simpl; [done|]. by rewrite insertBy_perm, IH. Qed.

Hypothesis le_total : forall x y, le x y = false -> le y x = true.
Hypothesis le_trans : forall x y z, le x y = true -> le y z = true -> le x z = true.

Lemma insertBy_sorted x l :
  StronglySorted (fun a b => le a b = true) l ->
  StronglySorted (fun a b => le a b = true) (insertBy x l).
Proof.
  induction 1 as [|y l Hs IH Hf]; simpl; [repeat constructor|]. case_if.
  - repeat constructor; [done..|]. eapply Forall_impl; [exact Hf|]; simpl; eauto.
  - constructor; [done|]. rewrite insertBy_perm. constructor; [by apply le_total|done].
Qed.

Lemma sortBy_sorted l : StronglySorted (fun a b => le a b = true) (sortBy l).
Proof. induction l; simpl; [constructor|by apply insertBy_sorted]. Qed.
End SortBy.

(** The keys of an object sorted with the default order, on code units. *)
Definition sortStrings : list string -> list string := sortBy String.leb.

(** ** Generic list facts *)

(** [Array.prototype.findIndex]. *)
Fixpoint findIndex {A} (p : A -> bool) (l : list A) : option nat :=
  match l with
  | [] => None
  | x :: l' => if p x then Some 0%nat else S <$> findIndex p l'
  end.

(** [Array.prototype.splice (i, 1)]. *)
Definition removeAt {A} (i : nat) (l : list A) : list A := take i l ++ drop (S i) l.

Lemma findIndex_Some {A} (p : A -> bool) l i :
  findIndex p l = Some i -> exists x, l !! i = Some x /\ p x = true.
Proof.
  revert i. induction l as [|x l IH]; simpl; intros i H; [done|].
  destruct (p x) eqn:E; simplify_eq; [exists x; done|].
  destruct (findIndex p l) as [j|]; simplify_eq/=. eauto.
Qed.

Lemma findIndex_None {A} (p : A -> bool) l :
  findIndex p l = None <-> Forall (fun x => p x = false) l.
Proof.
  induction l as [|x l IH]; simpl; [done|].
  rewrite Forall_cons. destruct (p x); [split; [done|intros [? ?]; done]|].
  rewrite fmap_None, IH. split; [auto|by intros [? ?]].
Qed.

Lemma removeAt_perm {A} (l : list A) i x :
  l !! i = Some x -> l ≡ₚ x :: removeAt i l.
Proof.
  intros H. unfold removeAt. rewrite <- (take_drop_middle l i x H) at 1.
  by rewrite Permutation_middle.
Qed.

Lemma removeAt_sublist {A} (l : list A) i : sublist (removeAt i l) l.
Proof.
  unfold removeAt. rewrite <- (take_drop i l) at 3.
  apply sublist_app; [done|]. rewrite <- Nat.add_1_r, <- drop_drop. apply sublist_drop.
Qed.

Lemma length_removeAt {A} (l : list A) i :
  (i < length l)%nat -> length (removeAt i l) = (length l - 1)%nat.
Proof.
  intros H. destruct (lookup_lt_is_Some_2 l i H) as [x Hx].
  apply removeAt_perm, Permutation_length in Hx. simpl in Hx. lia.
Qed.

Lemma filter_id {A} (P : A -> Prop) `{forall x, Decision (P x)} (l : list A) :
  (forall x, x ∈ l -> P x) -> base.filter P l = l.
Proof.
  induction l as [|x l IH]; intros HP; [done|].
  rewrite filter_cons_True by (apply HP; left). f_equal. apply IH. intros y Hy. apply HP. by right.
Qed.

Lemma filter_none {A} (P : A -> Prop) `{forall x, Decision (P x)} (l : list A) :
  (forall x, x ∈ l -> ~ P x) -> base.filter P l = [].
Proof.
  induction l as [|x l IH]; intros HP; [done|].
  rewrite filter_cons_False by (apply HP; left). apply IH. intros y Hy. apply HP. by right.
Qed.

Lemma filter_ext_elem {A} (P Q : A -> Prop) `{forall x, Decision (P x)} `{forall x, Decision (Q x)}
    (l : list A) :
  (forall x, x ∈ l -> P x <-> Q x) -> base.filter P l = base.filter Q l.
Proof.
  induction l as [|x l IH]; intros HP; [done|]. rewrite !filter_cons.
  rewrite IH by (intros y Hy; apply HP; by right).
  pose proof (HP x ltac:(left)). repeat case_decide; try done; tauto.
Qed.

Lemma sublist_filter_mono {A} (P : A -> Prop) `{!forall x, Decision (P x)} (l1 l2 : list A) :
  sublist l1 l2 -> sublist (base.filter P l1) (base.filter P l2).
Proof.
  induction 1 as [|x l1 l2 Hs IH|x l1 l2 Hs IH]; [done|..]; rewrite !filter_cons; case_decide; by try constructor.
Qed.

Lemma filter_complement_perm {A} (P : A -> Prop) `{!forall x, Decision (P x)} (l : list A) :
  base.filter P l ++ base.filter (fun x => ~ P x) l ≡ₚ l.
Proof.
  induction l as [|x l IH]; [done|]. rewrite !filter_cons. destruct (decide (P x)) as [HP|HP].
  - rewrite decide_False by tauto. simpl. by rewrite IH.
  - rewrite decide_True by done. rewrite <- Permutation_middle. by rewrite IH.
Qed.

Lemma removeAt_filter {A} `{EqDecision A} (l : list A) i x :
  NoDup l -> l !! i = Some x -> removeAt i l = base.filter (fun y => y <> x) l.
Proof.
  intros Hnd Hx. unfold removeAt. pose proof (take_drop_middle _ _ _ Hx) as Hq.
  remember (take i l) as l1 eqn:E1. remember (drop (S i) l) as l2 eqn:E2.
  rewrite <- Hq in Hnd |- *. rewrite filter_app, filter_cons_False by auto.
  apply NoDup_app in Hnd as (_ & Hd & Hn). apply NoDup_cons in Hn as [Hni _].
  f_equal; symmetry; apply filter_id; intros y Hy ->; [|done].
  apply (Hd _ Hy). by left.
Qed.

#[export] Hint Resolve removeAt_sublist sortOn_perm sortOn_sorted : rr.
