(* ===== verification/JsMap.v ===== *)
(** * Insertion-ordered maps: the JavaScript [Map] and [Set]

    A [Map] iterates over its keys in the order of their first insertion; [set]
    on a present key keeps its place, [delete] followed by [set] moves it to the
    end.  Eviction policies of the router depend on that order, so maps are
    association lists here and not extensional finite maps. *)
From S2P Require Import Prelude.

Abbreviation jsmap K V := (list (K * V)).

Section Defs.
Context {K V : Type} `{EqDecision K}.
Implicit Types (m : jsmap K V) (k : K) (v : V).

Fixpoint mget k m : option V :=
  match m with
  | [] => None
  | (k', v) :: m' => if decide (k = k') then Some v else mget k m'
  end.

Definition mhas k m : bool := match mget k m with Some _ => true | None => false end.

Fixpoint mset k v m : jsmap K V :=
  match m with
  | [] => [(k, v)]
  | (k', v') :: m' => if decide (k = k') then (k, v) :: m' else (k', v') :: mset k v m'
  end.

Fixpoint mdel k m : jsmap K V :=
  match m with
  | [] => []
  | (k', v') :: m' => if decide (k = k') then m' else (k', v') :: mdel k m'
  end.

Definition mkeys m : list K := m.*1.
Definition mvals m : list V := m.*2.
Definition msize m : Z := Z.of_nat (length m).

(** [map.keys().next().value]. *)
Definition mfirst m : option K := fst <$> head m.

(** Deleting, during one iteration, every entry that satisfies [p]. *)
Definition mprune (p : K -> V -> bool) m : jsmap K V :=
  base.filter (fun kv => p kv.1 kv.2 = false) m.

Definition mwf m : Prop := NoDup (mkeys m).
End Defs.

Section Laws.
Context {K V : Type} `{EqDecision K}.
Implicit Types (m : jsmap K V) (k : K) (v : V).

Lemma mkeys_cons k v m : mkeys ((k, v) :: m) = k :: mkeys m.
Proof. done. Qed.

Lemma length_mkeys m : length (mkeys m) = length m.
Proof. apply length_fmap. Qed.

Lemma mget_mset_eq k v m : mget k (mset k v m) = Some v.
Proof. induction m as [|[k' v'] m IH]; simpl; repeat case_decide; simpl; repeat case_decide; done. Qed.

Lemma mget_mset_ne k k' v m : k <> k' -> mget k (mset k' v m) = mget k m.
Proof.
  intros Hne. induction m as [|[k2 v2] m IH]; simpl.
  - by rewrite decide_False.
  - repeat case_decide; simpl; repeat case_decide; congruence.
Qed.

Lemma mget_mset k k' v m : mget k (mset k' v m) = if decide (k = k') then Some v else mget k m.
Proof. case_decide; subst; [apply mget_mset_eq|by apply mget_mset_ne]. Qed.

Lemma mget_Some_elem k v m : mget k m = Some v -> (k, v) ∈ m.
Proof.
  induction m as [|[k' v'] m IH]; simpl; [done|]. case_decide; intros; simplify_eq.
  - constructor.
  - constructor. auto.
Qed.

Lemma mget_None k m : mget k m = None <-> k ∉ mkeys m.
Proof.
  induction m as [|[k' v'] m IH]; simpl; [set_solver|]. case_decide; set_solver.
Qed.

Lemma mget_elem k v m : mwf m -> (k, v) ∈ m -> mget k m = Some v.
Proof.
  unfold mwf. induction m as [|[k' v'] m IH]; [set_solver|].
  cbn [mkeys fmap list_fmap fst]. intros [Hni Hnd]%NoDup_cons.
  rewrite elem_of_cons. intros [Heq|Hin]; simpl; case_decide; simplify_eq; try done; eauto.
  exfalso. apply Hni. apply (list_elem_of_fmap_2 fst m (k', v)); done.
Qed.

Lemma mhas_spec k m : mhas k m = true <-> k ∈ mkeys m.
Proof.
  unfold mhas. destruct (mget k m) eqn:E; split; intros; try done.
  - apply mget_Some_elem in E. by apply (list_elem_of_fmap_2 fst m (k, v)).
  - by apply mget_None in E.
Qed.

Lemma mkeys_mset k v m :
  mkeys (mset k v m) = if mhas k m then mkeys m else mkeys m ++ [k].
Proof.
  unfold mhas. induction m as [|[k' v'] m IH]; simpl; [done|].
  case_decide; subst; simpl; [done|]. unfold mkeys in *. simpl. rewrite IH.
  by destruct (mget k m).
Qed.

Lemma mset_new k v m : mhas k m = false -> mset k v m = m ++ [(k, v)].
Proof.
  unfold mhas. induction m as [|[k' v'] m IH]; simpl; [done|].
  case_decide; [done|]. intros Hn. simpl. by rewrite IH.
Qed.

Lemma mwf_mset k v m : mwf m -> mwf (mset k v m).
Proof.
  unfold mwf. rewrite mkeys_mset. destruct (mhas k m) eqn:E; [done|].
  intros Hnd. apply NoDup_app. split; [done|]. split; [|apply NoDup_singleton].
  intros x Hx ->%list_elem_of_singleton. apply mhas_spec in Hx. congruence.
Qed.

Lemma mdel_perm k v m : mget k m = Some v -> m ≡ₚ (k, v) :: mdel k m.
Proof.
  induction m as [|[k' v'] m IH]; simpl; [done|]. case_decide; intros; simplify_eq; [done|].
  rewrite IH at 1 by done. apply Permutation_swap.
Qed.

Lemma mdel_absent k m : mget k m = None -> mdel k m = m.
Proof. induction m as [|[k' v'] m IH]; simpl; [done|]. case_decide; intros; [done|]. by rewrite IH. Qed.

Lemma mdel_sublist k m : sublist (mdel k m) m.
Proof. induction m as [|[k' v'] m IH]; simpl; [done|]. case_decide; by constructor. Qed.

Lemma mget_mdel_ne k k' m : k <> k' -> mget k (mdel k' m) = mget k m.
Proof.
  intros Hne. induction m as [|[k2 v2] m IH]; simpl; [done|].
  repeat case_decide; simpl; repeat case_decide; congruence.
Qed.

Lemma mkeys_sublist m1 m2 : sublist m1 m2 -> sublist (mkeys m1) (mkeys m2).
Proof. apply fmap_sublist. Qed.

Lemma mwf_sublist m1 m2 : sublist m1 m2 -> mwf m2 -> mwf m1.
Proof. intros Hs Hwf. eapply sublist_NoDup; [exact Hwf|]. by apply mkeys_sublist. Qed.

Lemma mwf_mdel k m : mwf m -> mwf (mdel k m).
Proof. apply mwf_sublist, mdel_sublist. Qed.

Lemma mget_mdel_eq k m : mwf m -> mget k (mdel k m) = None.
Proof.
  intros Hwf. destruct (mget k m) as [v|] eqn:E; [|by rewrite mdel_absent].
  apply mget_None. pose proof (mdel_perm _ _ _ E) as HP.
  unfold mwf, mkeys in Hwf. rewrite HP in Hwf. apply NoDup_cons in Hwf as [Hn _]. done.
Qed.

Lemma mget_mdel k k' m :
  mwf m -> mget k (mdel k' m) = if decide (k = k') then None else mget k m.
Proof. intros. case_decide; subst; [by apply mget_mdel_eq|by apply mget_mdel_ne]. Qed.

Lemma length_mset k v m :
  length (mset k v m) = if mhas k m then length m else S (length m).
Proof.
  pose proof (f_equal length (mkeys_mset k v m)) as Hl. unfold mkeys in Hl.
  destruct (mhas k m); rewrite ?length_app, !length_fmap in Hl; simpl in Hl; lia.
Qed.

Lemma length_mdel_has k v m : mget k m = Some v -> length m = S (length (mdel k m)).
Proof. intros Hd%mdel_perm%Permutation_length. done. Qed.

Lemma length_mdel_le k m : (length (mdel k m) <= length m)%nat.
Proof. apply sublist_length, mdel_sublist. Qed.

Lemma mset_perm k v v' m : mget k m = Some v -> mset k v' m ≡ₚ (k, v') :: mdel k m.
Proof.
  induction m as [|[k' v2] m IH]; simpl; [done|]. case_decide; intros; simplify_eq; [done|].
  rewrite IH by done. apply Permutation_swap.
Qed.

Lemma mwf_mprune p m : mwf m -> mwf (mprune p m).
Proof. apply mwf_sublist, sublist_filter. Qed.

Lemma mget_mprune p k m :
  mwf m -> mget k (mprune p m) = match mget k m with
                                 | Some v => if p k v then None else Some v
                                 | None => None end.
Proof.
  intros Hwf. unfold mprune. destruct (mget k m) as [v|] eqn:E.
  - apply mget_Some_elem in E. destruct (p k v) eqn:P.
    + apply mget_None. unfold mkeys. intros [[k2 v2] [Hk Hin]]%list_elem_of_fmap.
      apply list_elem_of_filter in Hin as [HP Hin]. simplify_eq/=.
      apply mget_elem in Hin, E; [|done..]. congruence.
    + apply mget_elem; [by apply (mwf_mprune p)|]. by apply list_elem_of_filter.
  - apply mget_None in E. apply mget_None. contradict E.
    eapply elem_of_sublist; [exact E|]. apply mkeys_sublist, sublist_filter.
Qed.

Lemma mget_app k m1 m2 :
  mget k (m1 ++ m2) = match mget k m1 with Some v => Some v | None => mget k m2 end.
Proof. induction m1 as [|[k' v'] m1 IH]; simpl; [done|]. by case_decide. Qed.

Lemma mwf_nil : mwf (@nil (K * V)).
Proof. apply NoDup_nil_2. Qed.

Lemma Forall_mset P k v m : Forall P m -> P (k, v) -> Forall P (mset k v m).
Proof.
  induction 1 as [|[k' v'] m HP Hm IH]; simpl; intros; [by constructor|].
  case_decide; constructor; auto.
Qed.

Lemma Forall_mdel P k m : Forall P m -> Forall P (mdel k m).
Proof. rewrite !Forall_forall. intros HF x Hx. apply HF. eapply elem_of_sublist; [exact Hx|apply mdel_sublist]. Qed.

Lemma mset_id k v m : mget k m = Some v -> mset k v m = m.
Proof.
  induction m as [|[k' v'] m IH]; simpl; [done|]. case_decide; intros; simplify_eq; [done|]. by rewrite IH.
Qed.

Lemma mset_mset k v v' m : mset k v (mset k v' m) = mset k v m.
Proof.
  induction m as [|[k' v2] m IH]; simpl; [by rewrite decide_True|]. case_decide; simpl.
  - by rewrite decide_True.
  - rewrite decide_False by done. by rewrite IH.
Qed.

(** Sums over the values of a map. *)
Lemma sum_mset (f : V -> Z) k v m :
  sumZ (f <$> mvals (mset k v m)) =
  sumZ (f <$> mvals m) + f v - match mget k m with Some v0 => f v0 | None => 0 end.
Proof.
  unfold mvals. destruct (mget k m) as [v0|] eqn:E.
  - pose proof (mset_perm k v0 v m E) as H1. pose proof (mdel_perm k v0 m E) as H2.
    apply (fmap_Permutation snd), (fmap_Permutation f), sumZ_Permutation in H1, H2. simpl in H1, H2. lia.
  - rewrite mset_new by (unfold mhas; by rewrite E). rewrite !fmap_app, sumZ_app. simpl. lia.
Qed.
End Laws.

#[export] Hint Resolve mwf_mset mwf_mdel mwf_nil mwf_mprune mdel_sublist Forall_mset Forall_mdel : rr.
Create Rewrite HintDb rrw.
#[export] Hint Rewrite @mget_mset_eq : rrw.
