(* ===== verification/JsNumber.v ===== *)
(** * Numbers of the language: IEEE 754 doubles and the [Number] predicates

    Most quantities of the router are integers far below 2^53 and are modelled
    as [Z].  Where the code computes with fractions (averages, ratios, factors)
    the model uses the doubles of [SpecFloat] with the binary64 parameters, so
    that rounding is the one the program sees. *)
From S2P Require Import Prelude.
From Stdlib Require Export SpecFloat.

Notation double := spec_float.

Definition prec64 : Z := 53.
Definition emax64 : Z := 1024.

Definition dAdd : double -> double -> double := SFadd prec64 emax64.
Definition dSub : double -> double -> double := SFsub prec64 emax64.
Definition dMul : double -> double -> double := SFmul prec64 emax64.
Definition dDiv : double -> double -> double := SFdiv prec64 emax64.
Definition dLt : double -> double -> bool := SFltb.
Definition dLe : double -> double -> bool := SFleb.

(** The double nearest to an integer. *)
Definition dOfZ (z : Z) : double := binary_normalize prec64 emax64 z 0 false.

(** The literal [n / d] written in decimal, e.g. [0.8] is [dec 8 10]: division
    is correctly rounded, as is the reading of a literal. *)
Definition dec (n d : Z) : double := dDiv (dOfZ n) (dOfZ d).

Definition dZero : double := dOfZ 0.
Definition dOne : double := dOfZ 1.

(** [Number.isFinite]. *)
Definition dFinite (f : double) : bool :=
  match f with S754_zero _ | S754_finite _ _ _ => true | _ => false end.

Definition dSigned (s : bool) (m : positive) : Z := if s then Zneg m else Zpos m.

(** [Math.floor] and [Math.ceil], [None] when the argument is not finite. *)
Definition dFloor (f : double) : option Z :=
  match f with
  | S754_zero _ => Some 0
  | S754_finite s m e => Some (Z.shiftl (dSigned s m) e)
  | _ => None
  end.

Definition dCeil (f : double) : option Z :=
  match f with
  | S754_zero _ => Some 0
  | S754_finite s m e => Some (- Z.shiftl (- dSigned s m) e)
  | _ => None
  end.

(** The integer a double is equal to, if any. *)
Definition dInteger (f : double) : option Z :=
  match dFloor f, dCeil f with
  | Some a, Some b => if a =? b then Some a else None
  | _, _ => None
  end.

(** [Number.isSafeInteger], with the integer. *)
Definition safeInteger (f : double) : option Z :=
  match dInteger f with
  | Some z => if Z.abs z <=? MAX_SAFE_INTEGER then Some z else None
  | None => None
  end.

(** [Math.min] and [Math.max] of two numbers that are not [NaN]. *)
Definition dMin (a b : double) : double := if dLt b a then b else a.
Definition dMax (a b : double) : double := if dLt a b then b else a.

(** A value of type [unknown]. *)
Inductive jsval := JUndefined | JNull | JNumber (f : double) | JOther.

Definition jsInt (z : Z) : jsval := JNumber (dOfZ z).

(** [v ?? d]. *)
Definition nullish (v d : jsval) : jsval :=
  match v with JUndefined | JNull => d | _ => v end.

Definition isUndefined (v : jsval) : bool := match v with JUndefined => true | _ => false end.

(** ** Computations that may throw *)

Inductive throws (A : Type) := Ret (a : A) | Throw (name message : string).
Arguments Ret {A} a.
Arguments Throw {A} name message.

Definition throws_bind {A B} (f : A -> throws B) (m : throws A) : throws B :=
  match m with Ret a => f a | Throw n e => Throw n e end.
#[export] Instance throws_mbind : MBind throws := @throws_bind.
#[export] Instance throws_mret : MRet throws := @Ret.

Definition RangeError {A} (m : string) : throws A := Throw "RangeError" m.

Lemma throws_bind_Ret {A B} (f : A -> throws B) m b :
  m ≫= f = Ret b -> exists a, m = Ret a /\ f a = Ret b.
Proof. destruct m; simpl; [eauto|done]. Qed.

(** ** Facts *)

Lemma safeInteger_bound f z : safeInteger f = Some z -> - MAX_SAFE_INTEGER <= z <= MAX_SAFE_INTEGER.
Proof.
  unfold safeInteger. destruct (dInteger f) as [x|]; [|done].
  case_if; intros; simplify_eq. blia.
Qed.

(** The sign of a rounded result is the sign it was rounded with. *)
Definition signOf (f : double) : option bool :=
  match f with
  | S754_zero s | S754_infinity s | S754_finite s _ _ => Some s
  | S754_nan => None
  end.

Lemma binary_round_aux_sign p e s m ex l :
  signOf (binary_round_aux p e s m ex l) = Some s \/ binary_round_aux p e s m ex l = S754_nan.
Proof.
  unfold binary_round_aux. destruct (shr_fexp p e m ex l) as [mrs' e'].
  destruct (shr_fexp p e (round_nearest_even (shr_m mrs') (loc_of_shr_record mrs')) e' loc_Exact) as [mrs'' e''].
  destruct (shr_m mrs''); simpl; auto. destruct (e'' <=? e - p); auto.
Qed.

Lemma dDiv_nonneg a b :
  signOf a = Some false -> signOf b = Some false ->
  signOf (dDiv a b) = Some false \/ dDiv a b = S754_nan.
Proof.
  unfold dDiv. destruct a as [sa|sa| |sa ma ea], b as [sb|sb| |sb mb eb]; simpl; intros; simplify_eq; auto.
  destruct (SFdiv_core_binary prec64 emax64 (Z.pos ma) ea (Z.pos mb) eb) as [[mz ez] lz].
  apply binary_round_aux_sign.
Qed.

Lemma dCeil_nonneg f z : signOf f = Some false -> dCeil f = Some z -> 0 <= z.
Proof.
  destruct f as [s|s| |s m e]; simpl; intros; simplify_eq; [lia|].
  cbn [dSigned]. assert (Z.shiftl (- Z.pos m) e < 0) by (apply Z.shiftl_neg; lia). lia.
Qed.

(** Integers below 2^53 are doubles. *)
Example dOfZ_safe : map (fun z => dInteger (dOfZ z)) [0; 1; -7; 16384; MAX_SAFE_INTEGER]
  = map Some [0; 1; -7; 16384; MAX_SAFE_INTEGER].
Proof. vm_compute. reflexivity. Qed.

(** ** Rounding: scaling an integer by a factor below one does not raise it *)

Section Rounding.

Lemma digits2_pos_spec p :
  2 ^ (Zpos (digits2_pos p) - 1) <= Zpos p < 2 ^ Zpos (digits2_pos p).
Proof.
  induction p as [p IH|p IH|]; [| |simpl; lia].
  all: change (digits2_pos _) with (Pos.succ (digits2_pos p)); rewrite Pos2Z.inj_succ.
  all: revert IH; generalize (digits2_pos p); intros d IH.
  all: replace (Z.succ (Zpos d) - 1) with (Z.succ (Zpos d - 1)) by lia.
  all: rewrite (Z.pow_succ_r 2 (Zpos d - 1)), (Z.pow_succ_r 2 (Zpos d)) by lia; lia.
Qed.

Lemma Zdigits2_lt m d : 0 <= m -> 0 <= d -> m < 2 ^ d -> Zdigits2 m <= d.
Proof.
  intros Hm Hd Hlt. destruct m as [|p|p]; simpl; [lia| |lia].
  pose proof (digits2_pos_spec p) as [Hlo _].
  assert (2 ^ (Zpos (digits2_pos p) - 1) < 2 ^ d) as H by lia.
  apply Z.pow_lt_mono_r_iff in H; lia.
Qed.

Lemma iter_pos_nat {A} (f : A -> A) p x : iter_pos f p x = Nat.iter (Pos.to_nat p) f x.
Proof.
  revert x. induction p as [p IH|p IH|]; intros x; simpl iter_pos; [| |done].
  - rewrite !IH, <- Nat.iter_add, <- Nat.iter_succ_r. f_equal. lia.
  - rewrite !IH, <- Nat.iter_add. f_equal. lia.
Qed.

(** After [k] right shifts: the quotient, and flags that are set only when
    something was lost. *)
Definition shifted (p : Z) (k : nat) (r : shr_record) : Prop :=
  shr_m r = p / 2 ^ Z.of_nat k /\
  (shr_r r = true \/ shr_s r = true -> p mod 2 ^ Z.of_nat k <> 0).

Lemma shr_1_spec p k r : 0 <= p -> shifted p k r -> shifted p (S k) (shr_1 r).
Proof.
  intros Hp [Hm Hf]. unfold shifted. rewrite Nat2Z.inj_succ, Z.pow_succ_r by lia.
  rewrite (Z.mul_comm 2), <- Z.div_div, <- Hm by lia.
  rewrite Z.rem_mul_r by lia. rewrite <- Hm.
  pose proof (Z.mod_pos_bound p (2 ^ Z.of_nat k) ltac:(lia)) as Hb.
  assert (0 <= shr_m r) as Hm0 by (rewrite Hm; apply Z.div_pos; lia).
  assert (Hk : 0 < 2 ^ Z.of_nat k) by lia.
  destruct r as [m rr ss]; cbn [shr_m shr_r shr_s] in *.
  destruct m as [|[q|q|]|q]; try lia; cbn [shr_1 shr_m shr_r shr_s].
  - split; [done|]. rewrite orb_true_iff, Z.mul_0_r, Z.add_0_r. intros [?|H]; [done|]. auto.
  - rewrite Pos2Z.inj_xI. split; [Z.to_euclidean_division_equations; lia|]. intros _.
    replace ((2 * Zpos q + 1) mod 2) with 1 by (Z.to_euclidean_division_equations; lia). lia.
  - rewrite Pos2Z.inj_xO. split; [Z.to_euclidean_division_equations; lia|]. rewrite orb_true_iff.
    replace ((2 * Zpos q) mod 2) with 0 by (Z.to_euclidean_division_equations; lia).
    rewrite Z.mul_0_r, Z.add_0_r. intros [?|H]; [done|]. auto.
  - split; [done|]. intros _. change (1 mod 2) with 1. lia.
Qed.

Lemma shr_iter_spec p k : 0 <= p -> shifted p k (Nat.iter k shr_1 (Build_shr_record p false false)).
Proof.
  intros Hp. induction k as [|k IH]; simpl.
  - split; simpl; [by rewrite Z.div_1_r|by intros [?|?]].
  - by apply shr_1_spec.
Qed.

Lemma shr_spec p e n :
  0 <= p ->
  let '(r, e') := shr (Build_shr_record p false false) e n in
  exists k, shifted p k r /\ e' = e + Z.of_nat k /\ Z.of_nat k = Z.max 0 n.
Proof.
  intros Hp. unfold shr. destruct n as [|n|n].
  - exists 0%nat. split; [exact (shr_iter_spec p 0 Hp)|lia].
  - exists (Pos.to_nat n). rewrite iter_pos_nat. split; [by apply shr_iter_spec|lia].
  - exists 0%nat. split; [exact (shr_iter_spec p 0 Hp)|lia].
Qed.

(** Rounding a quotient stays below any integer bound of the exact value. *)
Lemma round_le p k r N :
  0 <= p -> shifted p k r -> p <= N * 2 ^ Z.of_nat k ->
  0 <= round_nearest_even (shr_m r) (loc_of_shr_record r) <= N.
Proof.
  intros Hp [Hm Hf] Hle. assert (Hk : 0 < 2 ^ Z.of_nat k) by lia.
  assert (0 <= shr_m r) as Hm0 by (rewrite Hm; apply Z.div_pos; lia).
  pose proof (Z.div_mod p (2 ^ Z.of_nat k) ltac:(lia)) as Hdm. rewrite <- Hm in Hdm.
  pose proof (Z.mod_pos_bound p (2 ^ Z.of_nat k) Hk).
  destruct (shr_r r || shr_s r) eqn:E.
  - apply orb_true_iff in E. specialize (Hf E). assert (shr_m r + 1 <= N) by nia.
    destruct r as [m [] []]; cbn in *; try case_if; lia.
  - apply orb_false_iff in E as [E1 E2]. destruct r as [m rr ss]; cbn in *; subst. simpl. nia.
Qed.

Lemma shiftl_le m e n : e <= 0 -> m <= n * 2 ^ (- e) -> Z.shiftl m e <= n.
Proof.
  intros He Hm. rewrite Z.shiftl_div_pow2 by lia.
  apply Z.div_le_upper_bound; lia.
Qed.

Lemma binary_round_aux_le p e n z :
  0 < p -> e <= 0 -> 0 <= n < 2 ^ 53 -> p <= n * 2 ^ (- e) ->
  dFloor (binary_round_aux prec64 emax64 false p e loc_Exact) = Some z -> z <= n.
Proof.
  intros Hp He Hn Hle. unfold binary_round_aux, shr_fexp. cbn [shr_record_of_loc].
  assert (Hfe : forall m e, 0 <= m -> e <= 0 -> m <= n * 2 ^ (- e) ->
    e + Z.max 0 (fexp prec64 emax64 (Zdigits2 m + e) - e) <= 0).
  { intros m e0 Hm He0 Hmle. assert (Zdigits2 m <= 53 - e0).
    { apply Zdigits2_lt; [done|lia|]. replace (53 - e0) with (53 + - e0) by lia.
      rewrite Z.pow_add_r by lia. assert (0 < 2 ^ (- e0)) by lia. nia. }
    unfold fexp, emin, prec64, emax64. lia. }
  pose proof (shr_spec p e (fexp prec64 emax64 (Zdigits2 p + e) - e) ltac:(lia)) as H1.
  destruct (shr _ e _) as [r1 e1]. destruct H1 as (k1 & Hs1 & -> & Hk1).
  pose proof (Hfe p e ltac:(lia) He Hle) as He1. rewrite <- Hk1 in He1.
  set (e1 := e + Z.of_nat k1) in *. clear Hk1.
  assert (Hpk : p <= n * 2 ^ (- e1) * 2 ^ Z.of_nat k1).
  { rewrite <- Z.mul_assoc, <- Z.pow_add_r by (subst e1; lia). by replace (- e1 + Z.of_nat k1) with (- e) by (subst e1; lia). }
  destruct (round_le p k1 r1 _ ltac:(lia) Hs1 Hpk) as [HM0 HM].
  set (M := round_nearest_even (shr_m r1) (loc_of_shr_record r1)) in *.
  pose proof (shr_spec M e1 (fexp prec64 emax64 (Zdigits2 M + e1) - e1) HM0) as H2.
  destruct (shr _ e1 _) as [r2 e2]. destruct H2 as (k2 & [Hm2 _] & -> & Hk2).
  pose proof (Hfe M e1 HM0 He1 HM) as He2. rewrite <- Hk2 in He2.
  assert (Hle2 : shr_m r2 <= n * 2 ^ (- (e1 + Z.of_nat k2))).
  { rewrite Hm2. apply Z.div_le_upper_bound; [lia|].
    rewrite Z.mul_comm, <- Z.mul_assoc, <- Z.pow_add_r by lia.
    by replace (- (e1 + Z.of_nat k2) + Z.of_nat k2) with (- e1) by lia. }
  destruct (shr_m r2) as [|q|q] eqn:Eq; simpl; [intros; simplify_eq; lia| |done].
  case_if; [|done]. simpl. intros; simplify_eq. by apply shiftl_le.
Qed.

Lemma digits2_iter_xO q d : Zpos (digits2_pos (Pos.iter xO q d)) = Zpos (digits2_pos q) + Zpos d.
Proof.
  induction d as [|d IH] using Pos.peano_ind; [simpl; lia|].
  rewrite Pos.iter_succ. simpl digits2_pos. rewrite Pos2Z.inj_succ, IH. lia.
Qed.

Lemma iter_xO q d : Zpos (Pos.iter xO q d) = Zpos q * 2 ^ Zpos d.
Proof.
  induction d as [|d IH] using Pos.peano_ind; [simpl; lia|].
  rewrite Pos.iter_succ, Pos2Z.inj_xO, IH, Pos2Z.inj_succ, Z.pow_succ_r by lia. lia.
Qed.

(** A mantissa of 53 bits is not rounded. *)
Lemma binary_round_aux_exact m e :
  Zpos (digits2_pos m) = 53 -> -1074 <= e <= 971 ->
  binary_round_aux prec64 emax64 false (Zpos m) e loc_Exact = S754_finite false m e.
Proof.
  intros Hd He. unfold binary_round_aux, shr_fexp. cbn [shr_record_of_loc Zdigits2]. rewrite Hd.
  assert (fexp prec64 emax64 (53 + e) - e = 0) as ->
    by (unfold fexp, emin, prec64, emax64; lia).
  cbn [shr shr_m loc_of_shr_record round_nearest_even shr_record_of_loc Zdigits2]. rewrite Hd.
  assert (fexp prec64 emax64 (53 + e) - e = 0) as ->
    by (unfold fexp, emin, prec64, emax64; lia).
  cbn [shr shr_m]. by rewrite (proj2 (Z.leb_le e (emax64 - prec64)) ltac:(unfold emax64, prec64; lia)).
Qed.

(** Integers below 2^53 are represented exactly. *)
Lemma dOfZ_exact n :
  0 < n < 2 ^ 53 ->
  exists m e, dOfZ n = S754_finite false m e /\ e <= 0 /\ Zpos m = n * 2 ^ (- e).
Proof.
  intros Hn. destruct n as [|q|q]; [lia| |lia]. unfold dOfZ, binary_normalize, binary_round.
  pose proof (digits2_pos_spec q) as [Hlo Hhi].
  assert (Hd : Zpos (digits2_pos q) <= 53).
  { assert (2 ^ (Zpos (digits2_pos q) - 1) < 2 ^ 53) as H by lia. apply Z.pow_lt_mono_r_iff in H; lia. }
  assert (Hf : fexp prec64 emax64 (Zpos (digits2_pos q) + 0) = Zpos (digits2_pos q) - 53)
    by (unfold fexp, emin, prec64, emax64; lia).
  rewrite Hf. unfold shl_align. rewrite Z.sub_0_r.
  destruct (Zpos (digits2_pos q) - 53) as [|d|d] eqn:E; [|lia|].
  - exists q, 0. rewrite binary_round_aux_exact by lia. split_and!; [done|lia|simpl; lia].
  - exists (Pos.iter xO q d), (Zneg d). rewrite binary_round_aux_exact; [| |lia].
    + split_and!; [done|lia|]. rewrite iter_xO. by simpl Z.opp.
    + rewrite digits2_iter_xO. lia.
Qed.

(** A positive double that is at most one. *)
Definition atMostOne (f : double) : Prop :=
  exists m e, f = S754_finite false m e /\ e <= 0 /\ Zpos m <= 2 ^ (- e).

Lemma dMul_atMostOne n f z :
  0 < n < 2 ^ 53 -> atMostOne f -> dFloor (dMul (dOfZ n) f) = Some z -> z <= n.
Proof.
  intros Hn (mf & ef & -> & Hef & Hmf) Hz.
  destruct (dOfZ_exact n Hn) as (m & e & Hm & He & Hme). unfold dMul, SFmul in Hz.
  rewrite Hm in Hz. cbn [xorb] in Hz.
  apply (binary_round_aux_le _ _ n) in Hz; [done|lia|lia|lia|].
  rewrite Pos2Z.inj_mul, Hme. replace (- (e + ef)) with (- e + - ef) by lia.
  rewrite Z.pow_add_r by lia. rewrite <- Z.mul_assoc. apply Z.mul_le_mono_nonneg_l; [lia|].
  apply Z.mul_le_mono_nonneg_l; lia.
Qed.

(** A number the language can produce. *)
Definition isDouble (f : double) : Prop := valid_binary prec64 emax64 f = true.

Lemma isDouble_below_one f :
  isDouble f -> dFinite f = true -> dLe f dZero = false -> dLe dOne f = false -> atMostOne f.
Proof.
  unfold isDouble. destruct f as [s|s| |s m e]; try done. intros Hv _ Hpos Hone.
  destruct s; [done|]. exists m, e. split; [done|].
  cbn [valid_binary bounded] in Hv. apply andb_true_iff in Hv as [Hc Hb].
  unfold canonical_mantissa in Hc. apply Z.eqb_eq in Hc.
  pose proof (digits2_pos_spec m) as [_ Hhi].
  assert (Hd : Zpos (digits2_pos m) <= 53) by (unfold fexp, emin, prec64, emax64 in Hc; lia).
  assert (dOne = S754_finite false 4503599627370496 (-52)) as H1 by (vm_compute; reflexivity).
  unfold dLe, SFleb in Hone. rewrite H1 in Hone. cbn [SFcompare] in Hone.
  destruct (Z.compare_spec (-52) e) as [He|He|He]; [| done|].
  - subst e. split; [lia|]. change (2 ^ (- -52)) with 4503599627370496.
    destruct (Pos.compare_cont Eq 4503599627370496 m) eqn:Ecmp; try done.
    change (Pos.compare 4503599627370496 m = Gt) in Ecmp.
    apply Pos.compare_gt_iff, Pos.lt_le_incl in Ecmp. exact Ecmp.
  - split; [lia|]. assert (2 ^ Zpos (digits2_pos m) <= 2 ^ (- e)) by (apply Z.pow_le_mono_r; lia). lia.
Qed.
End Rounding.
