(* ===== verification/JsString.v ===== *)
(** * Strings as the code uses them

    The methods of JavaScript strings that the router calls, on ASCII text:
    [toLowerCase], [includes], [trim], [split] on one character and [join], and
    [Number] of a string. *)
From Stdlib Require Import String Ascii QArith_base.
From S2P Require Import Prelude.
#[local] Open Scope string_scope.

Definition lowerAscii (c : ascii) : ascii :=
  let n := N_of_ascii c in
  if (65 <=? n)%N && (n <=? 90)%N then ascii_of_N (n + 32) else c.

Fixpoint toLowerCase (s : string) : string :=
  match s with
  | EmptyString => EmptyString
  | String c s => String (lowerAscii c) (toLowerCase s)
  end.

Definition upperAscii (c : ascii) : ascii :=
  let n := N_of_ascii c in
  if (N.leb 97 n && N.leb n 122)%bool then ascii_of_N (n - 32) else c.

Fixpoint toUpperCase (s : string) : string :=
  match s with
  | EmptyString => EmptyString
  | String c s => String (upperAscii c) (toUpperCase s)
  end.

(** [s.includes(part)]. *)
Fixpoint includes (s part : string) : bool :=
  String.prefix part s || match s with EmptyString => false | String _ s => includes s part end.

Definition isEmpty (s : string) : bool := match s with EmptyString => true | _ => false end.

(** White space: tab, line feed, vertical tab, form feed, carriage return, space. *)
Definition isSpace (c : ascii) : bool :=
  let n := N_of_ascii c in ((9 <=? n)%N && (n <=? 13)%N) || (n =? 32)%N.

Fixpoint trimStart (s : string) : string :=
  match s with
  | String c s' => if isSpace c then trimStart s' else s
  | EmptyString => EmptyString
  end.

Fixpoint trimEnd (s : string) : string :=
  match s with
  | EmptyString => EmptyString
  | String c s' =>
      match trimEnd s' with
      | EmptyString => if isSpace c then EmptyString else String c EmptyString
      | t => String c t
      end
  end.

Definition trim (s : string) : string := trimEnd (trimStart s).

(** [s.slice(s.indexOf(c) + 1)], [None] when [c] does not occur. *)
Fixpoint afterFirst (sep : ascii) (s : string) : option string :=
  match s with
  | EmptyString => None
  | String c s => if Ascii.eqb c sep then Some s else afterFirst sep s
  end.

(** [s.split(sep)]; never empty. *)
Fixpoint split (sep : ascii) (s : string) : list string :=
  match s with
  | EmptyString => [EmptyString]
  | String c s =>
      if Ascii.eqb c sep then EmptyString :: split sep s
      else match split sep s with
           | w :: ws => String c w :: ws
           | [] => [String c EmptyString]
           end
  end.

Definition join (sep : string) (ws : list string) : string := String.concat sep ws.

(** The text before and after the first [sep]. *)
Fixpoint splitFirst (sep : ascii) (s : string) : option (string * string) :=
  match s with
  | EmptyString => None
  | String c s => if Ascii.eqb c sep then Some (EmptyString, s)
                  else match splitFirst sep s with Some (a, b) => Some (String c a, b) | None => None end
  end.

(** ** [Number] of a string

    The decimal, hexadecimal, octal and binary literals of the language.  The
    result is the exact rational; a magnitude that rounds to infinity, and a text
    that is no literal, are not finite. *)

#[local] Open Scope Z_scope.

Definition digitValue (base : Z) (c : ascii) : option Z :=
  let n := Z.of_N (N_of_ascii (lowerAscii c)) in
  let d := if (48 <=? n)%Z && (n <=? 57)%Z then n - 48 else if (97 <=? n)%Z && (n <=? 122)%Z then n - 87 else base in
  if d <? base then Some d else None.

(** The value of the leading digits, how many there are, and the rest. *)
Fixpoint readDigits (base acc : Z) (count : Z) (s : string) : Z * Z * string :=
  match s with
  | EmptyString => (acc, count, s)
  | String c s' =>
      match digitValue base c with
      | Some d => readDigits base (acc * base + d) (count + 1) s'
      | None => (acc, count, s)
      end
  end.

Definition readSign (s : string) : bool * string :=
  match s with
  | String "-" s => (true, s)
  | String "+" s => (false, s)
  | _ => (false, s)
  end.

(** [m * 10 ^ e]. *)
Definition scale10 (m e : Z) : jsnum :=
  let q := if e <? 0 then Qmake m (Z.to_pos (10 ^ (- e))) else inject_Z (m * 10 ^ e) in
  if Z.abs (Qnum q) <? (2 ^ 1024 - 2 ^ 970) * Zpos (Qden q) then Fin q else NonFinite.

Definition readDecimal (s : string) : jsnum :=
  let '(negative, s) := readSign s in
  let '(whole, n1, s) := readDigits 10 0 0 s in
  let '(m, n2, s) := match s with String "." s => readDigits 10 whole 0 s | _ => (whole, 0, s) end in
  let m := if negative then - m else m in
  if n1 + n2 =? 0 then NonFinite
  else
    match s with
    | EmptyString => scale10 m (- n2)
    | String c s =>
        if Ascii.eqb (lowerAscii c) "e" then
          let '(negative, s) := readSign s in
          let '(e, n3, s) := readDigits 10 0 0 s in
          if (n3 =? 0) || negb (isEmpty s) then NonFinite
          else scale10 m ((if negative then - e else e) - n2)
        else NonFinite
    end.

Definition readRadix (base : Z) (s : string) : jsnum :=
  let '(m, n, s) := readDigits base 0 0 s in
  if (n =? 0) || negb (isEmpty s) then NonFinite else scale10 m 0.

Definition numberOfString (s : string) : jsnum :=
  match trim s with
  | EmptyString => Fin (inject_Z 0)
  | String "0" (String c s') as t =>
      match lowerAscii c with
      | "x"%char => readRadix 16 s'
      | "o"%char => readRadix 8 s'
      | "b"%char => readRadix 2 s'
      | _ => readDecimal t
      end
  | t => readDecimal t
  end.

Example numberOfString_examples :
  numberOfString " 12.5 " = Fin (Qmake 125 10) /\ numberOfString "0x1F" = Fin (inject_Z 31) /\
  numberOfString "-3e2" = Fin (inject_Z (-300)) /\ numberOfString "1e400" = NonFinite /\ numberOfString "12px" = NonFinite.
Proof. by vm_compute. Qed.

(** ** Lemmas *)

Fixpoint occurs (c : ascii) (s : string) : bool :=
  match s with
  | EmptyString => false
  | String d s => Ascii.eqb d c || occurs c s
  end.

Lemma split_ne sep s : split sep s <> [].
Proof. destruct s as [|c s]; simpl; [done|]. case_if; [done|]. by destruct (split sep s). Qed.

Lemma split_app sep a s :
  occurs sep a = false -> split sep (a +:+ String sep s) = a :: split sep s.
Proof.
  induction a as [|c a IH]; simpl.
  - intros _. by rewrite Ascii.eqb_refl.
  - intros [Hc Ha]%orb_false_iff. rewrite Hc. change (String.append a (String sep s)) with (a +:+ String sep s).
    by rewrite IH.
Qed.

Lemma join_split sep s : join (String sep EmptyString) (split sep s) = s.
Proof.
  induction s as [|c s IH]; simpl; [done|].
  destruct (Ascii.eqb_spec c sep) as [->|Hne].
  - unfold join in *. pose proof (split_ne sep s). cbn [String.concat].
    destruct (split sep s) as [|w ws] eqn:E; [done|]. by rewrite IH.
  - destruct (split sep s) as [|w ws] eqn:E; [by apply split_ne in E|].
    unfold join in *. destruct ws as [|w2 ws]; simpl in *; by rewrite <- IH.
Qed.

Lemma append_inj_l a s t : a +:+ s = a +:+ t -> s = t.
Proof. induction a as [|c a IH]; simpl; [done|]. intros [= H]. by apply IH. Qed.

Lemma append_assoc a b c : (a +:+ b) +:+ c = a +:+ (b +:+ c).
Proof. induction a as [|x a IH]; [done|]. exact (f_equal (String x) IH). Qed.

Lemma append_nil_r s : s +:+ EmptyString = s.
Proof. induction s as [|c s IH]; [done|]. exact (f_equal (String c) IH). Qed.

Lemma append_length a b : String.length (a +:+ b) = (String.length a + String.length b)%nat.
Proof. induction a as [|x a IH]; [done|]. exact (f_equal S IH). Qed.

Lemma append_inj_r a b x y : String.length x = String.length y -> a +:+ x = b +:+ y -> a = b /\ x = y.
Proof.
  revert b. induction a as [|c a IH]; intros [|d b] Hl H.
  - by split.
  - apply (f_equal String.length) in H. rewrite !append_length in H. cbn in H. lia.
  - apply (f_equal String.length) in H. rewrite !append_length in H. cbn in H. lia.
  - injection H as <- H. destruct (IH b Hl H) as [-> ->]. by split.
Qed.

Lemma occurs_append k a b : occurs k (a +:+ b) = occurs k a || occurs k b.
Proof. induction a as [|c a IH]; [done|]. change (Ascii.eqb c k || occurs k (a +:+ b) = Ascii.eqb c k || occurs k a || occurs k b). by rewrite IH, orb_assoc. Qed.

Lemma prefix_append p s : String.prefix p (p +:+ s) = true.
Proof.
  induction p as [|c p IH]; simpl; [by destruct s|]. destruct (ascii_dec c c); [apply IH|done].
Qed.

(** *** Trimming *)

Definition startsOk (s : string) : Prop :=
  match s with EmptyString => True | String c _ => isSpace c = false end.

Lemma trimStart_ok s : startsOk (trimStart s).
Proof. induction s as [|c s IH]; simpl; [done|]. by case_if. Qed.

Lemma trimStart_id s : startsOk s -> trimStart s = s.
Proof. destruct s as [|c s]; simpl; [done|]. by intros ->. Qed.

Lemma trimEnd_start s : startsOk s -> startsOk (trimEnd s).
Proof. destruct s as [|c s]; simpl; [done|]. intros H. destruct (trimEnd s); [by rewrite H|done]. Qed.

Lemma trimEnd_idem s : trimEnd (trimEnd s) = trimEnd s.
Proof.
  induction s as [|c s IH]; simpl; [done|].
  destruct (trimEnd s) as [|d t] eqn:E; [destruct (isSpace c) eqn:Hc; simpl; by rewrite ?Hc|].
  change (trimEnd (String c (String d t))) with
    (match trimEnd (String d t) with EmptyString => if isSpace c then EmptyString else String c EmptyString | t => String c t end).
  by rewrite IH.
Qed.

Lemma trim_idem s : trim (trim s) = trim s.
Proof.
  unfold trim. rewrite (trimStart_id (trimEnd (trimStart s))) by apply trimEnd_start, trimStart_ok. apply trimEnd_idem.
Qed.

(** A nonempty string that [trim] leaves alone. *)
Definition trimmed (s : string) : Prop := trim s = s /\ s <> EmptyString.

Lemma trimmed_trim s : isEmpty (trim s) = false -> trimmed (trim s).
Proof. intros H. split; [apply trim_idem|]. by destruct (trim s). Qed.

Lemma trimmed_parts s : trimmed s <-> startsOk s /\ trimEnd s = s /\ s <> EmptyString.
Proof.
  split.
  - intros [H Hne]. assert (startsOk s) as Hs by (rewrite <- H; apply trimEnd_start, trimStart_ok).
    unfold trim in H. by rewrite trimStart_id in H.
  - intros (Hs & He & Hne). split; [|done]. unfold trim. by rewrite trimStart_id.
Qed.

Lemma trimEnd_append a b : trimEnd b = b -> b <> EmptyString -> trimEnd (a +:+ b) = a +:+ b.
Proof.
  intros Hb Hne. induction a as [|c a IH]; [done|]. change (String c a +:+ b) with (String c (a +:+ b)). simpl.
  rewrite IH. by destruct a, b.
Qed.

Lemma trimmed_append a b : trimmed a -> trimEnd b = b -> b <> EmptyString -> trimmed (a +:+ b).
Proof.
  intros (Hs & _ & Hna)%trimmed_parts Hb Hne. apply trimmed_parts. split_and!.
  - by destruct a.
  - by apply trimEnd_append.
  - by destruct a.
Qed.

Fixpoint noSpace (s : string) : bool :=
  match s with EmptyString => true | String c s => negb (isSpace c) && noSpace s end.

Lemma noSpace_trimmed s : noSpace s = true -> s <> EmptyString -> trimmed s.
Proof.
  intros H Hne. apply trimmed_parts. split_and!; [destruct s; simpl in *; by to_prop| |done]. clear Hne.
  induction s as [|c s IH]; simpl in *; [done|]. to_prop. rewrite IH by done. destruct s; [|done].
  by destruct (isSpace c).
Qed.

Lemma splitFirst_app sep a s : occurs sep a = false -> splitFirst sep (a +:+ String sep s) = Some (a, s).
Proof.
  induction a as [|c a IH]; simpl.
  - intros _. by rewrite Ascii.eqb_refl.
  - intros [Hc Ha]%orb_false_iff. rewrite Hc. change (String.append a (String sep s)) with (a +:+ String sep s).
    by rewrite IH.
Qed.

Lemma splitFirst_Some sep s a b : splitFirst sep s = Some (a, b) -> s = a +:+ String sep b /\ occurs sep a = false.
Proof.
  revert a. induction s as [|c s IH]; intros a; simpl; [done|]. destruct (Ascii.eqb_spec c sep) as [->|Hne].
  - by intros [= <- <-].
  - destruct (splitFirst sep s) as [[a' b']|]; [|done]. intros [= <- <-]. destruct (IH _ eq_refl) as [-> Ho].
    split; [done|]. simpl. rewrite Ho. by destruct (Ascii.eqb_spec c sep).
Qed.
