(* ===== verification/SlidingWindow.v ===== *)
(** * Sliding-window limiter: [open-sse/services/slidingWindowLimiter.ts]

    A limiter keeps, for each key, the timestamps of the requests it granted in
    the trailing window.  [tryAcquireMany] is all-or-nothing over several keys and
    hands out a lease that can be given back.  The main theorem is the claim of
    the file's header: no trailing window ever holds more granted requests than
    its cap. *)
From S2P Require Import Prelude JsMap.

Record RateLimitWindow := mkWindow { requests : Z; windowMs : Z }.
Record RateLimitScope := mkScope { skey : string; window : RateLimitWindow }.
Record Hit := mkHit { hid : N; timestamp : Z }.

(** What a lease remembers: a key and a hit id for each scope. *)
Definition SlidingWindowLease := list (string * N).

(** [openLeases]: the leases whose [released] flag is not set. *)
Record Limiter := mkLimiter {
  hits : jsmap string (list Hit);
  nextHitId : N;
  openLeases : list SlidingWindowLease;
}.

#[export] Instance Limiter_eta : Eta Limiter := fun x => mkLimiter (hits x) (nextHitId x) (openLeases x).

Record MultiAcquireResult := mkResult {
  allowed : bool;
  retryAfterMs : Z;
  lease : option SlidingWindowLease;
}.

Definition MAX_KEYS : Z := 5000.

Definition newLimiter : Limiter := mkLimiter [] 1%N [].

(** [set]: an empty list deletes the key; a new key at the ceiling evicts the
    key that was inserted first. *)
Definition setHits (key : string) (live : list Hit) (m : jsmap string (list Hit)) : jsmap string (list Hit) :=
  match live with
  | [] => mdel key m
  | _ =>
      let m := if negb (mhas key m) && (msize m >=? MAX_KEYS)
               then match mfirst m with Some oldest => mdel oldest m | None => m end
               else m in
      mset key live m
  end.

Definition isActive (s : RateLimitScope) : bool :=
  (requests (window s) >? 0) && (windowMs (window s) >? 0).

Record Prepared := mkPrepared { pkey : string; plive : list Hit; pretry : Z }.

Definition liveAfter (cutoff : Z) (hs : list Hit) : list Hit :=
  base.filter (fun h => (timestamp h >? cutoff) = true) hs.

Definition prepare (now : Z) (m : jsmap string (list Hit)) (s : RateLimitScope) : Prepared :=
  let cutoff := now - windowMs (window s) in
  let live := match mget (skey s) m with Some previous => liveAfter cutoff previous | None => [] end in
  let retry :=
    if Z.of_nat (length live) >=? requests (window s)
    then match live with h :: _ => Z.max 0 (timestamp h + windowMs (window s) - now) | [] => 0 end
    else 0 in
  mkPrepared (skey s) live retry.

Definition storeAll (ps : list Prepared) (m : jsmap string (list Hit)) : jsmap string (list Hit) :=
  foldl (fun m p => setHits (pkey p) (plive p) m) m ps.

(** Record one hit per prepared scope; the entries of the lease. *)
Fixpoint record (now : Z) (ps : list Prepared) (st : Limiter) : Limiter * SlidingWindowLease :=
  match ps with
  | [] => (st, [])
  | p :: ps =>
      let i := nextHitId st in
      let st := st <| nextHitId := (i + 1)%N |>
                   <| hits := setHits (pkey p) (plive p ++ [mkHit i now]) (hits st) |> in
      let '(st, entries) := record now ps st in
      (st, (pkey p, i) :: entries)
  end.

Definition tryAcquireMany (now : Z) (scopes : list RateLimitScope) (st : Limiter)
    : Limiter * MultiAcquireResult :=
  let activeScopes := base.filter (fun s => isActive s = true) scopes in
  match activeScopes with
  | [] => (st, mkResult true 0 None)
  | _ =>
      let prepared := prepare now (hits st) <$> activeScopes in
      let retry := foldl (fun mx p => Z.max mx (pretry p)) 0 prepared in
      let st := st <| hits := storeAll prepared (hits st) |> in
      if retry >? 0 then (st, mkResult false retry None)
      else
        let '(st, entries) := record now prepared st in
        (st <| openLeases := openLeases st ++ [entries] |>, mkResult true 0 (Some entries))
  end.

Definition tryAcquire (now : Z) (key : string) (w : RateLimitWindow) (st : Limiter) : Limiter * (bool * Z) :=
  let '(st, r) := tryAcquireMany now [mkScope key w] st in (st, (allowed r, retryAfterMs r)).

Definition dropHit (m : jsmap string (list Hit)) (e : string * N) : jsmap string (list Hit) :=
  match mget e.1 m with
  | None => m
  | Some live =>
      match base.filter (fun h => hid h <> e.2) live with
      | [] => mdel e.1 m
      | remaining => mset e.1 remaining m
      end
  end.

Definition release (l : SlidingWindowLease) (st : Limiter) : Limiter :=
  if bool_decide (l ∈ openLeases st) then
    st <| openLeases := base.filter (fun l' => l' <> l) (openLeases st) |>
       <| hits := foldl dropHit (hits st) l |>
  else st.

Definition reset (key : option string) (st : Limiter) : Limiter :=
  match key with
  | None => st <| hits := [] |>
  | Some key => st <| hits := mdel key (hits st) |>
  end.

(** ** What is stored under a key *)

Section Stored.
Implicit Types (m : jsmap string (list Hit)) (key k : string).

Definition kept k m : list Hit := orElse (mget k m) [].

(** The map is a Map, and its keys are among [K]. *)
Definition within (K : list string) m : Prop := mwf m /\ forall k, k ∈ mkeys m -> k ∈ K.

Lemma kept_mdel k key m : mwf m -> kept k (mdel key m) = if decide (k = key) then [] else kept k m.
Proof. intros Hwf. unfold kept. rewrite mget_mdel by done. by case_decide. Qed.

Lemma kept_mset k key hs m : kept k (mset key hs m) = if decide (k = key) then hs else kept k m.
Proof. unfold kept. rewrite mget_mset. by case_decide. Qed.

Lemma within_mdel K key m : within K m -> within K (mdel key m).
Proof.
  intros [Hwf Hk]. split; [by apply mwf_mdel|]. intros k Hin. apply Hk.
  eapply elem_of_sublist; [exact Hin|]. apply mkeys_sublist, mdel_sublist.
Qed.

Lemma within_mset K key hs m : key ∈ K -> within K m -> within K (mset key hs m).
Proof.
  intros HK [Hwf Hk]. split; [by apply mwf_mset|]. intros k. rewrite mkeys_mset.
  case_if; [apply Hk|]. rewrite elem_of_app, list_elem_of_singleton. intros [?| ->]; auto.
Qed.

(** Below the ceiling nothing is evicted. *)
Lemma no_eviction K key m :
  within K m -> key ∈ K -> Z.of_nat (length K) <= MAX_KEYS ->
  negb (mhas key m) && (msize m >=? MAX_KEYS) = false.
Proof.
  intros [Hwf Hk] HK HL. destruct (mhas key m) eqn:Hm; [done|]. simpl.
  assert (length (key :: mkeys m) <= length K)%nat as Hlen.
  { apply submseteq_length, NoDup_submseteq.
    - apply NoDup_cons. split; [|done]. intros Hin. apply mhas_spec in Hin. congruence.
    - intros k [->|Hin]%elem_of_cons; auto. }
  simpl in Hlen. rewrite length_mkeys in Hlen. unfold msize. rewrite Z.geb_leb. apply Z.leb_gt. lia.
Qed.

Lemma setHits_spec K key live m :
  within K m -> key ∈ K -> Z.of_nat (length K) <= MAX_KEYS ->
  within K (setHits key live m) /\
  forall k, kept k (setHits key live m) = if decide (k = key) then live else kept k m.
Proof.
  intros Hw HK HL. unfold setHits. destruct live as [|h live].
  - split; [by apply within_mdel|]. intros k. rewrite kept_mdel by apply Hw. by case_decide.
  - rewrite (no_eviction K key m) by done. split; [by apply within_mset|]. intros k. apply kept_mset.
Qed.

Lemma storeAll_spec K ps m :
  within K m -> Forall (fun p => pkey p ∈ K) ps -> Z.of_nat (length K) <= MAX_KEYS ->
  NoDup (pkey <$> ps) ->
  within K (storeAll ps m) /\
  (forall p, p ∈ ps -> kept (pkey p) (storeAll ps m) = plive p) /\
  (forall k, k ∉ (pkey <$> ps) -> kept k (storeAll ps m) = kept k m).
Proof.
  intros Hw Hk HL. unfold storeAll. revert m Hw. induction Hk as [|p ps Hp Hps IH]; intros m Hw Hnd; simpl.
  { split_and!; [done| |done]. intros p Hp. by apply elem_of_nil in Hp. }
  rewrite fmap_cons, NoDup_cons in Hnd. destruct Hnd as [Hni Hnd].
  destruct (setHits_spec K (pkey p) (plive p) m Hw Hp HL) as [Hw1 G1].
  destruct (IH _ Hw1 Hnd) as (Hw2 & G2 & G3). split_and!; [done| |].
  - intros q [->|Hq]%elem_of_cons; [|auto]. rewrite G3 by done. rewrite G1. by case_decide.
  - intros k Hk. rewrite elem_of_cons in Hk. rewrite G3 by tauto. rewrite G1. case_decide; [subst; tauto|done].
Qed.

Lemma liveAfter_le c1 c2 hs : c1 <= c2 -> liveAfter c2 (liveAfter c1 hs) = liveAfter c2 hs.
Proof.
  intros Hle. unfold liveAfter. induction hs as [|h hs IH]; simpl; [done|].
  rewrite !filter_cons. destruct (decide ((timestamp h >? c1) = true)) as [H1|H1].
  - rewrite filter_cons. by destruct (decide _); rewrite IH.
  - rewrite (decide_False (P := (timestamp h >? c2) = true)); [done|].
    intros H2. apply H1. rewrite Z.gtb_ltb, Z.ltb_lt in *. lia.
Qed.

Lemma liveAfter_app c hs1 hs2 : liveAfter c (hs1 ++ hs2) = liveAfter c hs1 ++ liveAfter c hs2.
Proof. apply filter_app. Qed.

Lemma pretry_pos now m s :
  isActive s = true ->
  pretry (prepare now m s) <= 0 <-> Z.of_nat (length (plive (prepare now m s))) < requests (window s).
Proof.
  unfold isActive. intros Ha. to_prop. unfold prepare. simpl.
  set (live := match mget (skey s) m with Some previous => _ | None => [] end).
  assert (Forall (fun h => timestamp h > now - windowMs (window s)) live) as Hl.
  { subst live. destruct (mget (skey s) m); [|by constructor]. apply Forall_forall. intros h Hh.
    apply list_elem_of_filter in Hh as [Hh _]. to_prop. lia. }
  destruct (Z.geb_spec (Z.of_nat (length live)) (requests (window s))).
  - destruct Hl as [|h live' Hh Hl]; simpl in *; [lia|]. lia.
  - lia.
Qed.
End Stored.

(** ** Histories with a ghost log of what was granted *)

Inductive swOp :=
| OpAcquire (now : Z) (scopes : list RateLimitScope)
| OpRelease (l : SlidingWindowLease)
| OpReset (key : option string).

(** The log holds the hits that were granted and neither given back nor reset. *)
Record Sys := mkSys { lim : Limiter; clock : Z; log : list (string * Hit) }.

Definition ofKey (k : string) (lg : list (string * Hit)) : list Hit :=
  snd <$> base.filter (fun kh => kh.1 = k) lg.

(** The hits a call recorded, read off the lease it returned. *)
Definition grantedNow (now : Z) (r : MultiAcquireResult) : list (string * Hit) :=
  match lease r with Some l => (fun '(k, i) => (k, mkHit i now)) <$> l | None => [] end.

Definition notIn (l : SlidingWindowLease) (kh : string * Hit) : Prop := (kh.1, hid kh.2) ∉ l.
#[export] Instance notIn_dec l kh : Decision (notIn l kh) := ltac:(unfold notIn; apply _).

Definition survives (key : option string) (kh : string * Hit) : bool :=
  match key with Some k => negb (bool_decide (kh.1 = k)) | None => false end.

Inductive swStep : Sys -> swOp -> Sys -> Prop :=
| sw_acquire s now scopes :
    clock s <= now ->
    swStep s (OpAcquire now scopes)
      (mkSys (tryAcquireMany now scopes (lim s)).1 now
             (log s ++ grantedNow now (tryAcquireMany now scopes (lim s)).2))
| sw_release s l :
    swStep s (OpRelease l)
      (mkSys (release l (lim s)) (clock s)
             (if bool_decide (l ∈ openLeases (lim s)) then base.filter (notIn l) (log s) else log s))
| sw_reset s key :
    swStep s (OpReset key)
      (mkSys (reset key (lim s)) (clock s)
             (base.filter (fun kh => survives key kh = true) (log s))).

(** The discipline of the callers: one window for each key, no key twice in a
    call, and no more keys than the limiter holds. *)
Record Disciplined (K : list string) (W : string -> RateLimitWindow) (scopes : list RateLimitScope) : Prop := {
  d_windows : Forall (fun s => window s = W (skey s)) scopes;
  d_keys : Forall (fun s => skey s ∈ K) scopes;
  d_nodup : NoDup (skey <$> scopes);
}.

Definition disciplined K W (o : swOp) : Prop :=
  match o with OpAcquire _ scopes => Disciplined K W scopes | _ => True end.

Section Bound.
Context (K : list string) (W : string -> RateLimitWindow).
Context (Hceiling : Z.of_nat (length K) <= MAX_KEYS).

Definition inWindow (t w : Z) (hs : list Hit) : nat :=
  length (base.filter (fun h => (t - w <? timestamp h) && (timestamp h <=? t) = true) hs).

Record SInv (s : Sys) : Prop := {
  si_within : within K (hits (lim s));
  si_past : Forall (fun kh => timestamp kh.2 <= clock s) (log s);
  si_kept : forall k, let c := clock s - windowMs (W k) in
    liveAfter c (kept k (hits (lim s))) = liveAfter c (ofKey k (log s));
  si_bound : forall k t, 0 < requests (W k) -> 0 < windowMs (W k) ->
    Z.of_nat (inWindow t (windowMs (W k)) (ofKey k (log s))) <= requests (W k);
}.

Lemma ofKey_app k l1 l2 : ofKey k (l1 ++ l2) = ofKey k l1 ++ ofKey k l2.
Proof. unfold ofKey. by rewrite filter_app, fmap_app. Qed.

Lemma ofKey_filter k (P : string * Hit -> Prop) `{!forall x, Decision (P x)} lg :
  ofKey k (base.filter P lg) = base.filter (fun h => P (k, h)) (ofKey k lg).
Proof.
  unfold ofKey. induction lg as [|[k' h] lg IH]; [done|]. rewrite !filter_cons. cbn [fst].
  destruct (decide (k' = k)) as [->|Hne].
  - cbn [fmap list_fmap snd]. rewrite filter_cons. destruct (decide (P (k, h))) as [HP|HP].
    + rewrite filter_cons. cbn [fst]. rewrite decide_True by done. cbn. by rewrite IH.
    + by rewrite IH.
  - destruct (decide (P (k', h))) as [HP|HP]; [|done]. rewrite filter_cons. cbn [fst].
    by rewrite decide_False.
Qed.

Lemma filter_swap {A} (P Q : A -> Prop) `{!forall x, Decision (P x), !forall x, Decision (Q x)} (l : list A) :
  base.filter P (base.filter Q l) = base.filter Q (base.filter P l).
Proof.
  induction l as [|x l IH]; [done|]. rewrite !filter_cons.
  destruct (decide (P x)) as [HP|HP], (decide (Q x)) as [HQ|HQ]; rewrite ?filter_cons;
    rewrite ?(decide_True (P := P x)), ?(decide_True (P := Q x)), ?(decide_False (P := P x)), ?(decide_False (P := Q x))
    by done; by rewrite IH.
Qed.

Lemma filter_mono_length {A} (P Q : A -> Prop) `{!forall x, Decision (P x), !forall x, Decision (Q x)} (l : list A) :
  (forall x, P x -> Q x) -> (length (base.filter P l) <= length (base.filter Q l))%nat.
Proof.
  intros HPQ. induction l as [|x l IH]; [done|]. rewrite !filter_cons.
  destruct (decide (P x)) as [HP|HP]; [rewrite decide_True by auto; simpl; lia|].
  destruct (decide (Q x)); simpl; lia.
Qed.

Lemma inWindow_filter t w (P : Hit -> Prop) `{!forall x, Decision (P x)} l :
  (inWindow t w (base.filter P l) <= inWindow t w l)%nat.
Proof. unfold inWindow. rewrite filter_swap. apply length_filter. Qed.

Lemma inWindow_snoc t w l h :
  inWindow t w (l ++ [h]) =
  (inWindow t w l + if ((t - w <? timestamp h) && (timestamp h <=? t))%Z then 1 else 0)%nat.
Proof.
  unfold inWindow. rewrite filter_app, length_app, filter_cons, filter_nil. f_equal. by destruct (_ && _).
Qed.

Lemma inWindow_live t w now l :
  now <= t -> (inWindow t w l <= length (liveAfter (now - w) l))%nat.
Proof. intros Hle. apply filter_mono_length. intros h Hh. to_prop. rewrite Z.gtb_ltb, Z.ltb_lt. lia. Qed.

Lemma SInv_new : SInv (mkSys newLimiter 0 []).
Proof. split; [split; [apply mwf_nil|intros k Hk; by apply elem_of_nil in Hk]|done|done|]. intros k t Hr _. change (0 <= requests (W k)). lia. Qed.

(** Another state that keeps the same recent hits, at a later time. *)
Lemma SInv_same st st' c now lg :
  SInv (mkSys st c lg) -> c <= now -> within K (hits st') ->
  (forall k, let b := now - windowMs (W k) in
     liveAfter b (kept k (hits st')) = liveAfter b (kept k (hits st))) ->
  SInv (mkSys st' now lg).
Proof.
  intros [H1 H2 H3 H4] Hc Hw Hk. simpl in *. split; simpl; [done| |..|done].
  - eapply Forall_impl; [exact H2|]. simpl. lia.
  - intros k. rewrite Hk.
    rewrite <- (liveAfter_le (c - windowMs (W k)) (now - windowMs (W k)) (kept k (hits st))) by lia.
    rewrite H3. apply liveAfter_le. lia.
Qed.

(** What a prepared scope is, for the log [lg]. *)
Definition Ready now lg (p : Prepared) : Prop :=
  pkey p ∈ K /\ plive p = liveAfter (now - windowMs (W (pkey p))) (ofKey (pkey p) lg) /\
  Z.of_nat (length (plive p)) < requests (W (pkey p)).

Lemma SInv_hit st now lg p i :
  SInv (mkSys st now lg) -> Ready now lg p ->
  SInv (mkSys (st <| nextHitId := (i + 1)%N |> <| hits := setHits (pkey p) (plive p ++ [mkHit i now]) (hits st) |>)
          now (lg ++ [(pkey p, mkHit i now)])).
Proof.
  intros [H1 H2 H3 H4] (Hk & Hp & Hlt). simpl in *.
  destruct (setHits_spec K (pkey p) (plive p ++ [mkHit i now]) (hits st) H1 Hk Hceiling) as [Hw G].
  split; simpl; [done|apply Forall_app; split; [done|]; by repeat constructor|..].
  - intros k. rewrite G, ofKey_app, liveAfter_app, <- H3. unfold ofKey at 1. rewrite filter_cons. cbn [fst].
    destruct (decide (k = pkey p)) as [->|Hne].
    + rewrite decide_True by done. cbn [filter list_filter fmap list_fmap snd].
      rewrite Hp, liveAfter_app, liveAfter_le by lia. by rewrite <- H3.
    + rewrite decide_False by done. by rewrite app_nil_r.
  - intros k t Hr Hw0. rewrite ofKey_app. unfold ofKey at 2. rewrite filter_cons. cbn [fst].
    destruct (decide (pkey p = k)) as [<-|Hne]; [|rewrite app_nil_r; by apply H4].
    cbn [filter list_filter fmap list_fmap snd]. rewrite inWindow_snoc. cbn [timestamp].
    case_if; [|rewrite Nat.add_0_r; by apply H4]. to_prop.
    pose proof (inWindow_live t (windowMs (W (pkey p))) now (ofKey (pkey p) lg) ltac:(lia)).
    rewrite <- Hp in *. lia.
Qed.

Lemma SInv_record ps st now lg :
  SInv (mkSys st now lg) -> Forall (Ready now lg) ps -> NoDup (pkey <$> ps) ->
  SInv (mkSys (record now ps st).1 now (lg ++ ((fun '(k, i) => (k, mkHit i now)) <$> (record now ps st).2))).
Proof.
  revert st lg. induction ps as [|p ps IH]; intros st lg I Hps Hnd; simpl; [by rewrite app_nil_r|].
  apply Forall_cons in Hps as [Hp Hps]. rewrite fmap_cons, NoDup_cons in Hnd. destruct Hnd as [Hni Hnd].
  pose proof (SInv_hit _ _ _ _ (nextHitId st) I Hp) as I1.
  set (st1 := (_ <| hits := _ |>)) in *. specialize (IH st1 _ I1).
  destruct (record now ps st1) as [st2 es]. simpl in *. rewrite <- app_assoc in IH. apply IH; [|done].
  apply Forall_forall. intros q Hq. rewrite Forall_forall in Hps. destruct (Hps q Hq) as (A & B & C).
  split_and!; [done| |done]. rewrite ofKey_app. unfold ofKey at 2. rewrite filter_cons. cbn [fst].
  rewrite decide_False; [by rewrite app_nil_r|]. intros Heq. apply Hni. rewrite Heq. by apply list_elem_of_fmap_2.
Qed.

Lemma foldl_max_le (f : Prepared -> Z) ps a :
  a <= foldl (fun mx p => Z.max mx (f p)) a ps /\
  Forall (fun p => f p <= foldl (fun mx p => Z.max mx (f p)) a ps) ps.
Proof.
  revert a. induction ps as [|p ps IH]; intros a; simpl; [split; [lia|constructor]|].
  destruct (IH (Z.max a (f p))) as [H1 H2]. split; [lia|]. constructor; [lia|done].
Qed.

Lemma foldl_max_in (f : Prepared -> Z) ps a :
  foldl (fun mx p => Z.max mx (f p)) a ps = a \/
  exists p, p ∈ ps /\ foldl (fun mx p => Z.max mx (f p)) a ps = f p.
Proof.
  revert a. induction ps as [|p ps IH]; intros a; simpl; [by left|].
  destruct (IH (Z.max a (f p))) as [->|(q & Hq & ->)].
  - destruct (Z.max_spec a (f p)) as [[_ ->]|[_ ->]]; [right; exists p; split; [by left|done]|by left].
  - right. exists q. split; [by right|done].
Qed.

Lemma setHits_sub key live m k h :
  mwf m -> mwf (setHits key live m) /\
  (h ∈ kept k (setHits key live m) -> h ∈ kept k m \/ (k = key /\ h ∈ live)).
Proof.
  intros Hwf. unfold setHits. destruct live as [|h0 live].
  - split; [by apply mwf_mdel|]. rewrite kept_mdel by done. case_decide; [intros H1; by apply elem_of_nil in H1|by left].
  - set (m' := if negb (mhas key m) && (msize m >=? MAX_KEYS) then _ else m).
    assert (mwf m' /\ (h ∈ kept k m' -> h ∈ kept k m)) as [Hwf' Hsub].
    { subst m'. case_if; [|done]. destruct (mfirst m) as [o|]; [|done]. split; [by apply mwf_mdel|].
      rewrite kept_mdel by done. case_decide; [intros H'; by apply elem_of_nil in H'|done]. }
    split; [by apply mwf_mset|]. rewrite kept_mset. case_decide; [by right|left; auto].
Qed.

Lemma storeAll_sub ps m k h :
  mwf m -> h ∈ kept k (storeAll ps m) ->
  h ∈ kept k m \/ exists p, p ∈ ps /\ pkey p = k /\ h ∈ plive p.
Proof.
  unfold storeAll. revert m. induction ps as [|p ps IH]; intros m Hwf; simpl; [by left|].
  destruct (setHits_sub (pkey p) (plive p) m k h Hwf) as [Hwf1 Hsub]. intros Hh.
  destruct (IH _ Hwf1 Hh) as [H|(q & Hq & Hk & Hin)].
  - destruct (Hsub H) as [|[-> ?]]; [by left|]. right. exists p. split_and!; [by left|done|done].
  - right. exists q. split_and!; [by right|done|done].
Qed.

Lemma SInv_acquire st c now scopes lg :
  SInv (mkSys st c lg) -> c <= now -> Disciplined K W scopes ->
  SInv (mkSys (tryAcquireMany now scopes st).1 now (lg ++ grantedNow now (tryAcquireMany now scopes st).2)).
Proof.
  intros I Hc [HW HK Hnd]. unfold tryAcquireMany.
  set (act := base.filter (fun s => isActive s = true) scopes).
  assert (Forall (fun s => isActive s = true /\ window s = W (skey s) /\ skey s ∈ K) act) as Hact.
  { apply Forall_forall. intros s Hs. apply list_elem_of_filter in Hs as [Ha Hs].
    rewrite Forall_forall in HW, HK. auto. }
  assert (NoDup (skey <$> act)) as Hnd2.
  { eapply sublist_NoDup; [exact Hnd|]. apply fmap_sublist, sublist_filter. }
  destruct act as [|s0 act0] eqn:Eact.
  { simpl. rewrite app_nil_r. apply (SInv_same st st c); [done..|apply I|done]. }
  rewrite <- Eact in *. clear Eact s0 act0.
  set (prepared := prepare now (hits st) <$> act). set (retry := foldl _ 0 prepared).
  set (st1 := st <| hits := storeAll prepared (hits st) |>). cbv zeta.
  assert (pkey <$> prepared = skey <$> act) as Hkeys.
  { subst prepared. rewrite <- list_fmap_compose. by apply list_fmap_ext. }
  assert (forall s, plive (prepare now (hits st) s) = liveAfter (now - windowMs (window s)) (kept (skey s) (hits st)))
    as Hlive by (intros s; unfold prepare, kept; simpl; by destruct (mget _ _)).
  destruct (storeAll_spec K prepared (hits st)) as (Hw & G1 & G2); [apply I| |done|by rewrite Hkeys|].
  { subst prepared. apply Forall_fmap. eapply Forall_impl; [exact Hact|]. simpl. tauto. }
  assert (SInv (mkSys st1 now lg)) as I1.
  { apply (SInv_same st st1 c); [done..|]. intros k. cbv zeta. simpl.
    destruct (decide (k ∈ (skey <$> act))) as [Hin|Hin].
    - apply list_elem_of_fmap in Hin as (s & -> & Hs).
      change (skey s) with (pkey (prepare now (hits st) s)) at 2. rewrite G1 by (by apply list_elem_of_fmap_2).
      rewrite Hlive. rewrite Forall_forall in Hact. destruct (Hact s Hs) as (_ & -> & _). apply liveAfter_le. lia.
    - rewrite G2; [done|]. by rewrite Hkeys. }
  destruct (foldl_max_le pretry prepared 0) as [_ Hmax]. fold retry in Hmax.
  assert (retry <= 0 -> Forall (Ready now lg) prepared) as Hready.
  { intros Hle. subst prepared. rewrite Forall_fmap in Hmax. apply Forall_fmap.
    apply Forall_forall. intros s Hs. rewrite Forall_forall in Hact, Hmax.
    destruct (Hact s Hs) as (Ha & Hws & HKs). pose proof (Hmax s Hs) as Hp. cbn [compose] in Hp.
    split_and!; [done|cbn [compose]; rewrite Hlive, Hws|].
    - destruct I as [_ _ H3 _]. specialize (H3 (skey s)). cbn [lim hits clock log] in H3.
      change (pkey (prepare now (hits st) s)) with (skey s).
      rewrite <- (liveAfter_le (c - windowMs (W (skey s))) _ (kept _ _)) by lia.
      rewrite H3. apply liveAfter_le. lia.
    - change (pkey (prepare now (hits st) s)) with (skey s). rewrite <- Hws. apply pretry_pos; [done|].
      unfold compose in *. lia. }
  case_if; [simpl; by rewrite app_nil_r|]. to_prop.
  pose proof (SInv_record prepared st1 now lg I1) as Hrec.
  destruct (record now prepared st1) as [st2 es]. unfold grantedNow. cbn [fst snd lease] in *.
  assert (SInv (mkSys st2 now (lg ++ ((fun '(k, i) => (k, mkHit i now)) <$> es)))) as I2
    by (apply Hrec; [auto|by rewrite Hkeys]).
  apply (SInv_same st2 _ now); [done|done|apply I2|done].
Qed.

Lemma dropHit_spec e m :
  within K m -> within K (dropHit m e) /\
  forall k, kept k (dropHit m e) = base.filter (fun h => (k, hid h) <> e) (kept k m).
Proof.
  intros Hw. destruct e as [k0 i]. unfold dropHit. cbn [fst snd].
  assert (forall k h, k <> k0 -> (k, hid h) <> (k0, i)) as Hne by (intros; congruence).
  assert (forall hs : list Hit, base.filter (fun h => (k0, hid h) <> (k0, i)) hs = base.filter (fun h => hid h <> i) hs) as Heq.
  { intros hs. apply filter_ext_elem. intros h _. split; intros H E; apply H; congruence. }
  destruct (mget k0 m) as [live|] eqn:Hm.
  - assert (k0 ∈ K) as Hk0 by (apply Hw, mhas_spec; unfold mhas; by rewrite Hm).
    assert (kept k0 m = live) as Hkept by (unfold kept; by rewrite Hm).
    destruct (base.filter (fun h => hid h <> i) live) as [|h hs] eqn:Hf.
    + split; [by apply within_mdel|]. intros k. rewrite kept_mdel by apply Hw. case_decide as Hd.
      * subst k. by rewrite Heq, Hkept, Hf.
      * symmetry. apply filter_id. intros h _. by apply Hne.
    + split; [by apply within_mset|]. intros k. rewrite kept_mset. case_decide as Hd.
      * subst k. by rewrite Heq, Hkept, Hf.
      * symmetry. apply filter_id. intros h' _. by apply Hne.
  - split; [done|]. intros k. destruct (decide (k = k0)) as [->|Hd].
    + unfold kept. by rewrite Hm.
    + symmetry. apply filter_id. intros h _. by apply Hne.
Qed.

Lemma dropAll_spec l m :
  within K m -> within K (foldl dropHit m l) /\
  forall k, kept k (foldl dropHit m l) = base.filter (fun h => notIn l (k, h)) (kept k m).
Proof.
  revert m. induction l as [|e l IH]; intros m Hw; simpl.
  - split; [done|]. intros k. symmetry. apply filter_id. intros h _. unfold notIn. simpl. apply not_elem_of_nil.
  - destruct (dropHit_spec e m Hw) as [Hw1 G1]. destruct (IH _ Hw1) as [Hw2 G2]. split; [done|].
    intros k. rewrite G2, G1, list_filter_filter. apply filter_ext_elem. intros h _.
    unfold notIn. cbn [fst snd]. rewrite not_elem_of_cons. tauto.
Qed.

(** Dropping the same hits from the store and from the log. *)
Lemma SInv_drop (P : string * Hit -> Prop) `{!forall x, Decision (P x)} st st' c lg :
  SInv (mkSys st c lg) -> within K (hits st') ->
  (forall k, kept k (hits st') = base.filter (fun h => P (k, h)) (kept k (hits st))) ->
  SInv (mkSys st' c (base.filter P lg)).
Proof.
  intros [H1 H2 H3 H4] Hw Hk. simpl in *. split; simpl; [done| |..].
  - apply Forall_forall. intros kh Hkh. apply list_elem_of_filter in Hkh as [_ Hkh]. by rewrite Forall_forall in H2; apply H2.
  - intros k. rewrite Hk, ofKey_filter. unfold liveAfter. rewrite filter_swap, (filter_swap _ _ (ofKey k lg)).
    f_equal. apply H3.
  - intros k t Hr Hwin. rewrite ofKey_filter.
    pose proof (inWindow_filter t (windowMs (W k)) (fun h => P (k, h)) (ofKey k lg)).
    specialize (H4 k t Hr Hwin). lia.
Qed.

Lemma SInv_step s o s' : SInv s -> disciplined K W o -> swStep s o s' -> SInv s'.
Proof.
  intros I Hd Hst. destruct Hst as [s now scopes Hc|s l|s key]; destruct s as [st c lg]; simpl in *.
  - by apply SInv_acquire with c.
  - unfold release. case_bool_decide; [|done]. simpl.
    destruct (dropAll_spec l (hits st)) as [Hw G]; [apply I|]. by apply (SInv_drop (notIn l) st).
  - assert (within K (hits st)) as Hw by apply I. destruct key as [k0|]; simpl.
    + apply (SInv_drop (fun kh => survives (Some k0) kh = true) st); [done|by apply within_mdel|].
      intros k. simpl. rewrite kept_mdel by apply Hw. case_decide as Hk; subst.
      * symmetry. apply filter_none. intros h _. by rewrite bool_decide_true.
      * symmetry. apply filter_id. intros h _. by rewrite bool_decide_false.
    + apply (SInv_drop (fun kh => survives None kh = true) st); [done|..].
      * split; [apply mwf_nil|]. intros k Hk. by apply elem_of_nil in Hk.
      * intros k. symmetry. by apply filter_none.
Qed.
End Bound.

(** ** Properties *)

(** The sliding window.  Whatever the callers do, as long as they use one
    window per key and no more keys than the limiter holds, no trailing window of
    any key ever contains more granted (and not returned) requests than its cap:
    for every instant [t], at most [requests] of them lie in
    [(t - windowMs, t]]. *)
Theorem window_never_exceeded K W ls s k t :
  Z.of_nat (length K) <= MAX_KEYS ->
  reach swStep (mkSys newLimiter 0 []) ls s -> Forall (disciplined K W) ls ->
  0 < requests (W k) -> 0 < windowMs (W k) ->
  Z.of_nat (inWindow t (windowMs (W k)) (ofKey k (log s))) <= requests (W k).
Proof.
  intros HL Hr Hls. apply (si_bound K W). induction Hr as [|s ls o s' Hr IH Hst]; [apply SInv_new|].
  apply Forall_app in Hls as [Hls Ho]. apply Forall_cons_1 in Ho as [Ho _].
  eapply SInv_step; [done|by apply IH|done|done].
Qed.

(** A refusal is exact and charges nothing.  When the scopes of a call are
    refused, the wait it reports is positive and is the wait of a scope whose
    window is full; no scope's window changes beyond forgetting expired hits, and
    no lease is handed out. *)
Theorem refusal_charges_nothing now scopes st st' r :
  tryAcquireMany now scopes st = (st', r) -> allowed r = false ->
  0 < retryAfterMs r /\ lease r = None /\ nextHitId st' = nextHitId st /\
  (exists s, s ∈ scopes /\ retryAfterMs r = pretry (prepare now (hits st) s) /\
     requests (window s) <= Z.of_nat (length (plive (prepare now (hits st) s)))) /\
  forall k h, mwf (hits st) -> h ∈ kept k (hits st') -> h ∈ kept k (hits st).
Proof.
  unfold tryAcquireMany. set (act := base.filter (fun s => isActive s = true) scopes).
  destruct act as [|s0 act0] eqn:Eact; [intros; by simplify_eq|]. rewrite <- Eact in *. clear Eact s0 act0.
  set (prepared := prepare now (hits st) <$> act). set (retry := foldl _ 0 prepared). cbv zeta.
  destruct (Z.gtb_spec retry 0) as [Hp|Hp]; [|destruct (record _ _ _); intros; by simplify_eq].
  intros Heq Hr. simplify_eq. cbn [allowed retryAfterMs lease] in *. split_and!; [done|done|done|..].
  - destruct (foldl_max_in pretry prepared 0) as [H|(q & Hq & Hmax)]; [by subst retry; lia|].
    apply list_elem_of_fmap in Hq as (s & -> & Hs). exists s. apply list_elem_of_filter in Hs as [Ha Hs].
    fold retry in Hmax. split_and!; [done|done|]. apply Z.nlt_ge. intros Hlt.
    apply (pretry_pos now (hits st) s Ha) in Hlt. lia.
  - intros k h Hwf. subst prepared. cbn [hits set_field]. generalize (storeAll_sub (prepare now (hits st) <$> act) (hits st) k h Hwf).
    intros H Hh. destruct (H Hh) as [H0|(p & Hp2 & <- & Hin)]; [done|].
    apply list_elem_of_fmap in Hp2 as (s & -> & Hs). revert Hin. unfold prepare, kept. simpl.
    destruct (mget (skey s) (hits st)) as [hs|]; simpl; [|intros H2; by apply elem_of_nil in H2].
    intros H2. by apply list_elem_of_filter in H2 as [_ H2].
Qed.

(** ** Witnesses *)

Definition exWindow : RateLimitWindow := mkWindow 2 1000.
Definition exScope : RateLimitScope := mkScope "global" exWindow.

Definition exSys (s : Sys) (now : Z) : Sys :=
  mkSys (tryAcquireMany now [exScope] (lim s)).1 now
        (log s ++ grantedNow now (tryAcquireMany now [exScope] (lim s)).2).

Definition exStart : Sys := mkSys newLimiter 0 [].

(** Two grants at 100 and 600, a refusal at 900. *)
Definition exThree : Sys := exSys (exSys (exSys exStart 100) 600) 900.

Lemma exThree_reach :
  reach swStep exStart ((([] ++ [OpAcquire 100 [exScope]]) ++ [OpAcquire 600 [exScope]]) ++ [OpAcquire 900 [exScope]]) exThree.
Proof.
  repeat (eapply reach_step; [|apply sw_acquire; vm_compute; discriminate]). apply reach_refl.
Qed.

Lemma exDisciplined now : disciplined ["global"%string] (fun _ => exWindow) (OpAcquire now [exScope]).
Proof. split; repeat constructor; set_solver. Qed.

Lemma window_never_exceeded_witness :
  length (log exThree) = 2%nat /\ Z.of_nat (inWindow 900 1000 (ofKey "global" (log exThree))) <= 2.
Proof.
  split; [vm_compute; reflexivity|].
  refine (window_never_exceeded ["global"%string] (fun _ => exWindow) _ exThree "global" 900 _ exThree_reach _ _ _);
    [vm_compute; discriminate|repeat constructor; set_solver|vm_compute; reflexivity|vm_compute; reflexivity].
Defined.

Lemma refusal_charges_nothing_witness :
  0 < retryAfterMs (tryAcquireMany 900 [exScope] (lim exThree)).2.
Proof.
  refine (proj1 (refusal_charges_nothing 900 [exScope] (lim exThree) (tryAcquireMany 900 [exScope] (lim exThree)).1
    (tryAcquireMany 900 [exScope] (lim exThree)).2 _ _)); vm_compute; reflexivity.
Defined.
