(* ===== verification/RollingRpm.v ===== *)
(** * Rolling RPM gate: [open-sse/services/rollingRpmGate.ts]

    The gate turns the configured and learned limits of a request into scopes of
    the sliding-window limiter and makes the request wait until all of them have
    room.  One turn of the loop of [acquire] is [attempt]; between two turns the
    request sleeps and other calls may change the gate.  A turn is synchronous:
    the clock is read once for all of it. *)
From Stdlib Require Import String.
From S2P Require Import Prelude JsMap JsString SlidingWindow.

#[local] Open Scope Z_scope.

Inductive QueueTimeoutReason := local_queue | upstream_cooldown.

(** The callbacks of the gate. *)
Record RollingRpmGateOptions := mkOptions {
  getGlobalRpm : option Z;
  getProviderWindow : string -> option RateLimitWindow;
  getConnectionRpm : string -> option Z;
  getLimiterKey : string -> string -> option string -> string;
}.

Record LearnedHeaderWindow := mkLearned { lwindow : RateLimitWindow; expiresAt : Z }.

Record Gate := mkGate {
  limiter : Limiter;
  blockedUntil : jsmap string Z;
  learnedHeaderWindows : jsmap string LearnedHeaderWindow;
}.

#[export] Instance Gate_eta : Eta Gate := fun x =>
  mkGate (limiter x) (blockedUntil x) (learnedHeaderWindows x).

Definition newGate : Gate := mkGate newLimiter [] [].

Definition WINDOW_MS : Z := 60000.

(** [s.endsWith(suffix)]. *)
Definition endsWith (s suffix : string) : bool :=
  (String.length suffix <=? String.length s)%nat &&
  String.eqb (String.substring (String.length s - String.length suffix) (String.length suffix) s) suffix.

Definition keyContainsConnection (key connectionId : string) : bool :=
  let marker := (":" +:+ connectionId)%string in
  endsWith key marker || includes key (marker +:+ ":").

Section Gate.
Context (options : RollingRpmGateOptions).
Implicit Types (g : Gate) (provider connectionId : string) (model : option string) (now : Z).

Definition headerKeyOf provider connectionId model : string :=
  "header:" +:+ getLimiterKey options provider connectionId model.

Definition blockOf (key : string) g : Z := orElse (mget key (blockedUntil g)) 0.

Definition baseScopes provider connectionId : list RateLimitScope :=
  match getGlobalRpm options with
  | Some rpm => if rpm >? 0 then [mkScope "global" (mkWindow rpm WINDOW_MS)] else []
  | None => []
  end ++
  match getProviderWindow options provider with
  | Some w => [mkScope ("provider:" +:+ provider) w]
  | None => []
  end ++
  match getConnectionRpm options connectionId with
  | Some rpm =>
      if rpm >? 0
      then [mkScope ("provider-account:" +:+ provider +:+ ":" +:+ connectionId) (mkWindow rpm WINDOW_MS)]
      else []
  | None => []
  end.

Definition getScopes now provider connectionId model g : Gate * list RateLimitScope :=
  let scopes := baseScopes provider connectionId in
  let headerKey := headerKeyOf provider connectionId model in
  let headerBlockedUntil := blockOf headerKey g in
  let headerRemainingMs := headerBlockedUntil - now in
  if headerRemainingMs >? 0 then (g, scopes ++ [mkScope headerKey (mkWindow 1 headerRemainingMs)])
  else
    let g := if headerBlockedUntil >? 0 then g <| blockedUntil := mdel headerKey (blockedUntil g) |> else g in
    match mget headerKey (learnedHeaderWindows g) with
    | Some w =>
        if expiresAt w >? now then (g, scopes ++ [mkScope headerKey (lwindow w)])
        else (g <| learnedHeaderWindows := mdel headerKey (learnedHeaderWindows g) |>, scopes)
    | None => (g, scopes)
    end.

(** The blocks of the scopes: the latest one in force; past ones are deleted. *)
Definition scopeBlock now (acc : Gate * Z) (s : RateLimitScope) : Gate * Z :=
  let '(g, until) := acc in
  let b := blockOf (skey s) g in
  if b >? now then (g, Z.max until b)
  else if b >? 0 then (g <| blockedUntil := mdel (skey s) (blockedUntil g) |>, until)
  else (g, until).

Definition scopeBlocks now (scopes : list RateLimitScope) g : Gate * Z :=
  foldl (scopeBlock now) (g, 0) scopes.

Inductive Outcome :=
| Granted (l : option SlidingWindowLease)
| TimedOut (reason : QueueTimeoutReason)
| AbortError
| Sleep (ms : Z).

(** How long a wait of [want] ms may last. *)
Definition boundedWait (maxWaitMs startedAt now want : Z) (reason : QueueTimeoutReason) : Outcome :=
  let remainingMs := if maxWaitMs >? 0 then maxWaitMs - (now - startedAt) else want in
  if (maxWaitMs >? 0) && (remainingMs <=? 0) then TimedOut reason
  else Sleep (Z.min want (if maxWaitMs >? 0 then remainingMs else want)).

(** One turn of the loop of [acquire]. *)
Definition attempt (aborted : bool) now provider connectionId model (maxWaitMs startedAt : Z) g
    : Gate * Outcome :=
  if aborted then (g, AbortError)
  else
    let blockKey := getLimiterKey options provider connectionId model in
    let '(g, scopes) := getScopes now provider connectionId model g in
    if (match scopes with [] => true | _ => false end) && (blockOf blockKey g <=? now) then (g, Granted None)
    else
      let blocked := blockOf blockKey g in
      let g := if blocked <=? now then g <| blockedUntil := mdel blockKey (blockedUntil g) |> else g in
      let '(g, scopeBlockedUntil) := scopeBlocks now scopes g in
      let forcedWaitMs := Z.max 0 (Z.max (blocked - now) (scopeBlockedUntil - now)) in
      if forcedWaitMs =? 0 then
        let '(l, result) := tryAcquireMany now scopes (limiter g) in
        let g := g <| limiter := l |> in
        if allowed result then (g, Granted (lease result))
        else (g, boundedWait maxWaitMs startedAt now (Z.max 1 (retryAfterMs result)) local_queue)
      else (g, boundedWait maxWaitMs startedAt now forcedWaitMs upstream_cooldown).

(** [acquire]: before the loop, a request without a scope or a block returns at
    once.  [wake i] is the time of turn [i + 1], [interfere] what others do to the
    gate meanwhile, and [abortedAt] tells at which turns the signal is aborted.
    [None] means that the turns given by [fuel] were not enough. *)
Fixpoint acquireLoop (fuel : nat) (wake : Z -> Z -> Z) (interfere : Z -> Gate -> Gate) (abortedAt : Z -> bool)
    now provider connectionId model (maxWaitMs startedAt : Z) g : option (Gate * Outcome) :=
  match fuel with
  | O => None
  | S fuel =>
      match attempt (abortedAt now) now provider connectionId model maxWaitMs startedAt g with
      | (g, Sleep ms) =>
          let now := wake now ms in
          acquireLoop fuel wake interfere abortedAt now provider connectionId model maxWaitMs startedAt
            (interfere now g)
      | (g, o) => Some (g, o)
      end
  end.

Definition acquire (fuel : nat) wake interfere abortedAt now provider connectionId model (maxWaitMs startedAt : Z) g
    : option (Gate * Outcome) :=
  let blockKey := getLimiterKey options provider connectionId model in
  let '(g, scopes) := getScopes now provider connectionId model g in
  if (match scopes with [] => true | _ => false end) && (blockOf blockKey g <=? now) then Some (g, Granted None)
  else acquireLoop fuel wake interfere abortedAt now provider connectionId model maxWaitMs startedAt g.

Definition block now provider connectionId model (retryAfterMs : Z) g : Gate :=
  if retryAfterMs >? 0 then
    g <| blockedUntil := mset (getLimiterKey options provider connectionId model) (now + retryAfterMs) (blockedUntil g) |>
  else g.

Definition learnHeaderWindow provider connectionId model (reqs windowMs expires : Z) g : Gate :=
  let key := headerKeyOf provider connectionId model in
  if reqs <=? 0 then
    g <| learnedHeaderWindows := mdel key (learnedHeaderWindows g) |>
      <| blockedUntil := mset key expires (blockedUntil g) |>
  else
    g <| blockedUntil := mdel key (blockedUntil g) |>
      <| learnedHeaderWindows := mset key (mkLearned (mkWindow reqs windowMs) expires) (learnedHeaderWindows g) |>.

Definition clearLearnedHeaderWindow provider connectionId model g : Gate :=
  let key := headerKeyOf provider connectionId model in
  g <| learnedHeaderWindows := mdel key (learnedHeaderWindows g) |>
    <| blockedUntil := mdel key (blockedUntil g) |>.

Definition clearConnection connectionId g : Gate :=
  g <| blockedUntil := mprune (fun key _ => keyContainsConnection key connectionId) (blockedUntil g) |>
    <| learnedHeaderWindows := mprune (fun key _ => keyContainsConnection key connectionId) (learnedHeaderWindows g) |>.

Definition resetGate g : Gate :=
  g <| limiter := SlidingWindow.reset None (limiter g) |> <| blockedUntil := [] |> <| learnedHeaderWindows := [] |>.

Definition cleanupExpired now g : Gate :=
  g <| blockedUntil := mprune (fun _ expires => expires <=? now) (blockedUntil g) |>
    <| learnedHeaderWindows := mprune (fun _ w => expiresAt w <=? now) (learnedHeaderWindows g) |>.
End Gate.

(** ** Lemmas *)

Section Facts.
Context (options : RollingRpmGateOptions).
Implicit Types (g : Gate) (provider connectionId : string) (model : option string) (now : Z).

Lemma boundedWait_spec maxWaitMs startedAt now want reason :
  0 < want ->
  match boundedWait maxWaitMs startedAt now want reason with
  | Sleep ms => 0 < ms <= want /\ (0 < maxWaitMs -> now + ms <= startedAt + maxWaitMs)
  | TimedOut r => r = reason /\ 0 < maxWaitMs <= now - startedAt
  | _ => False
  end.
Proof.
  intros Hw. unfold boundedWait. destruct (Z.gtb_spec maxWaitMs 0) as [Hm|Hm]; simpl.
  - destruct (Z.leb_spec (maxWaitMs - (now - startedAt)) 0); [split; [done|lia]|split; lia].
  - split; lia.
Qed.

(** The keys of the scopes of one request never collide. *)
Lemma baseScopes_keys provider connectionId s :
  s ∈ baseScopes options provider connectionId -> ~ exists k : string, skey s = ("header:" +:+ k)%string.
Proof.
  unfold baseScopes. rewrite !elem_of_app. intros [H|[H|H]] [k Hk].
  - destruct (getGlobalRpm options); [case_if_in H|]; (apply list_elem_of_singleton in H as -> || by apply elem_of_nil in H);
      discriminate Hk.
  - destruct (getProviderWindow options provider); (apply list_elem_of_singleton in H as -> || by apply elem_of_nil in H);
      discriminate Hk.
  - destruct (getConnectionRpm options connectionId); [case_if_in H|];
      (apply list_elem_of_singleton in H as -> || by apply elem_of_nil in H); discriminate Hk.
Qed.

Lemma baseScopes_nodup provider connectionId : NoDup (skey <$> baseScopes options provider connectionId).
Proof.
  unfold baseScopes. destruct (getGlobalRpm options) as [r|]; [case_if|];
    (destruct (getProviderWindow options provider));
    (destruct (getConnectionRpm options connectionId); [case_if|]); simpl;
    repeat (apply NoDup_cons; split; [set_unfold; intuition discriminate|]); apply NoDup_nil_2.
Qed.

Lemma getScopes_nodup now provider connectionId model g :
  NoDup (skey <$> (getScopes options now provider connectionId model g).2).
Proof.
  pose proof (baseScopes_nodup provider connectionId) as Hn.
  assert (forall w, NoDup (skey <$> baseScopes options provider connectionId ++ [mkScope (headerKeyOf options provider connectionId model) w]))
    as Hh.
  { intros w. rewrite fmap_app. apply NoDup_app. split_and!; [done| |apply NoDup_singleton].
    intros k (s & -> & Hs)%list_elem_of_fmap Hk. apply (baseScopes_keys _ _ _ Hs).
    apply list_elem_of_singleton in Hk. eauto. }
  unfold getScopes. case_if; [apply Hh|]. cbv zeta.
  destruct (mget _ _); [case_if; [apply Hh|done]|done].
Qed.

Lemma scopeBlocks_spec now scopes g :
  limiter (scopeBlocks now scopes g).1 = limiter g /\
  ((scopeBlocks now scopes g).2 <= now -> 0 <= now -> mwf (blockedUntil g) ->
   forall s, s ∈ scopes -> blockOf (skey s) g <= now).
Proof.
  unfold scopeBlocks.
  cut (forall until, limiter (foldl (scopeBlock now) (g, until) scopes).1 = limiter g /\ until <= (foldl (scopeBlock now) (g, until) scopes).2 /\
    ((foldl (scopeBlock now) (g, until) scopes).2 <= now -> 0 <= now -> mwf (blockedUntil g) ->
     forall s, s ∈ scopes -> blockOf (skey s) g <= now)).
  { intros H. destruct (H 0) as (A & _ & B). done. }
  revert g. induction scopes as [|s scopes IH]; intros g until; cbn [foldl scopeBlock].
  { split_and!; [done|simpl; lia|]. intros _ _ _ s Hs. by apply elem_of_nil in Hs. }
  cbv zeta. destruct (Z.gtb_spec (blockOf (skey s) g) now) as [Hb|Hb].
  - destruct (IH g (Z.max until (blockOf (skey s) g))) as (A & B & C). split_and!; [done|lia|].
    intros Hle. exfalso. lia.
  - destruct (Z.gtb_spec (blockOf (skey s) g) 0) as [Hz|Hz].
    + destruct (IH (g <| blockedUntil := mdel (skey s) (blockedUntil g) |>) until) as (A & B & C).
      split_and!; [done|lia|]. intros Hle H0 Hwf s' [->|Hs']%elem_of_cons; [lia|].
      specialize (C Hle H0 (mwf_mdel _ _ Hwf) s' Hs'). unfold blockOf in *. simpl in C.
      rewrite mget_mdel in C by done. case_decide as Hd; [|done]. rewrite Hd. lia.
    + destruct (IH g until) as (A & B & C). split_and!; [done|lia|].
      intros Hle H0 Hwf s' [->|Hs']%elem_of_cons; [lia|]. by apply C.
Qed.

Lemma getScopes_frame now provider connectionId model g :
  limiter (getScopes options now provider connectionId model g).1 = limiter g /\
  (mwf (blockedUntil g) -> mwf (blockedUntil (getScopes options now provider connectionId model g).1)) /\
  (mwf (blockedUntil g) -> 0 <= now -> forall k,
     blockOf k (getScopes options now provider connectionId model g).1 <= now -> blockOf k g <= now).
Proof.
  unfold getScopes. cbv zeta. case_if; [done|].
  set (hk := headerKeyOf options provider connectionId model) in *.
  assert (forall g', limiter g' = limiter g -> (blockedUntil g' = blockedUntil g \/
      blockedUntil g' = mdel hk (blockedUntil g) /\ blockOf hk g <= now) ->
    limiter g' = limiter g /\ (mwf (blockedUntil g) -> mwf (blockedUntil g')) /\
    (mwf (blockedUntil g) -> 0 <= now -> forall k, blockOf k g' <= now -> blockOf k g <= now)) as H.
  { intros g' Hl Hb. unfold blockOf in *. destruct Hb as [->|[-> Hle]]; [done|]. split_and!; [done|by apply mwf_mdel|].
    intros Hwf H0 k. rewrite mget_mdel by done. case_decide as Hd; [subst; intros; lia|done]. }
  to_prop. apply H; destruct (mget hk _); repeat case_if; simpl; auto with lia.
  all: right; split; [done|lia].
Qed.

(** What one turn does to a request that is not aborted. *)
Lemma attempt_cases now provider connectionId model maxWaitMs startedAt g g' o :
  attempt options false now provider connectionId model maxWaitMs startedAt g = (g', o) ->
  match o with
  | Sleep ms => 0 < ms /\ (0 < maxWaitMs -> now + ms <= startedAt + maxWaitMs)
  | TimedOut _ => 0 < maxWaitMs <= now - startedAt
  | AbortError => False
  | Granted _ => True
  end.
Proof.
  unfold attempt. cbv zeta. destruct (getScopes _ _ _ _ _ g) as [g1 scopes]. case_if; [by intros; simplify_eq|].
  destruct (scopeBlocks _ _ _) as [g2 u]. case_if.
  - destruct (tryAcquireMany _ _ _) as [l r]. case_if; [by intros; simplify_eq|]. intros Hres. simplify_eq.
    pose proof (boundedWait_spec maxWaitMs startedAt now (Z.max 1 (retryAfterMs r)) local_queue ltac:(lia)).
    destruct (boundedWait _ _ _ _ _); intuition lia.
  - to_prop. intros Hres. simplify_eq.
    pose proof (boundedWait_spec maxWaitMs startedAt now
      (Z.max 0 (Z.max (blockOf (getLimiterKey options provider connectionId model) g1 - now) (u - now)))
      upstream_cooldown ltac:(lia)).
    destruct (boundedWait _ _ _ _ _); intuition lia.
Qed.
End Facts.

(** ** Properties *)

(** A grant respects every block and every window.  If a turn grants a
    request, its signal is not aborted, neither the request's own key nor the key
    of any of its scopes is blocked, no scope is charged twice, and, when it has a
    scope, the limiter had room in all of them and charged them together. *)
Theorem rpm_grant_respects_limits options aborted now provider connectionId model maxWaitMs startedAt g g' l :
  mwf (blockedUntil g) -> 0 <= now ->
  attempt options aborted now provider connectionId model maxWaitMs startedAt g = (g', Granted l) ->
  let scopes := (getScopes options now provider connectionId model g).2 in
  aborted = false /\
  blockOf (getLimiterKey options provider connectionId model) g <= now /\
  (forall s, s ∈ scopes -> blockOf (skey s) g <= now) /\
  NoDup (skey <$> scopes) /\
  (scopes <> [] ->
     allowed (tryAcquireMany now scopes (limiter g)).2 = true /\
     lease (tryAcquireMany now scopes (limiter g)).2 = l /\
     limiter g' = (tryAcquireMany now scopes (limiter g)).1).
Proof.
  intros Hwf H0. pose proof (getScopes_nodup options now provider connectionId model g) as Hnd.
  destruct (getScopes_frame options now provider connectionId model g) as (L1 & W1 & B1). unfold attempt.
  destruct aborted; [done|]. destruct (getScopes options now provider connectionId model g) as [g1 scopes].
  cbn [fst snd] in *. cbv zeta. set (bk := getLimiterKey options provider connectionId model).
  destruct ((match scopes with [] => true | _ => false end) && (blockOf bk g1 <=? now)) eqn:Hempty.
  { to_prop. intros _. destruct scopes; [|done]. split_and!; [done|auto| |done|done].
    intros s Hs. by apply elem_of_nil in Hs. }
  set (g2 := if blockOf bk g1 <=? now then _ else g1).
  assert (limiter g2 = limiter g1 /\ mwf (blockedUntil g2) /\
    (blockOf bk g1 <= now -> forall k, blockOf k g2 <= now -> blockOf k g1 <= now)) as (L2 & W2 & B2).
  { subst g2. specialize (W1 Hwf). case_if; [|done]. split_and!; [done|by apply mwf_mdel|]. intros Hle k.
    unfold blockOf in *. simpl. rewrite mget_mdel by done. case_decide as Hd; [subst; intros; lia|done]. }
  destruct (scopeBlocks_spec now scopes g2) as (L3 & B3).
  destruct (scopeBlocks now scopes g2) as [g3 u]. cbn [fst snd] in *.
  destruct (Z.eqb_spec (Z.max 0 (Z.max (blockOf bk g1 - now) (u - now))) 0) as [Hf|Hf].
  - assert (blockOf bk g1 <= now) as Hbk by lia. rewrite L3, L2, L1.
    destruct (tryAcquireMany now scopes (limiter g)) as [lm r]. destruct (allowed r) eqn:Ha.
    + intros Hres. simplify_eq. split_and!; [done|auto| |done|done].
      intros s Hs. apply B1; [done|done|]. apply B2; [done|]. apply B3; [lia|done|done|done].
    + unfold boundedWait. case_if; done.
  - unfold boundedWait. case_if; done.
Qed.

(** A bounded wait ends.  With a positive [maxWaitMs] and timers that never
    fire early, [acquire]'s loop ends after at most one turn per remaining
    millisecond (and one more), whatever others do to the gate between its turns. *)
Theorem rpm_wait_terminates options wake interfere abortedAt now provider connectionId model maxWaitMs startedAt g fuel :
  0 < maxWaitMs -> (forall t ms, t + ms <= wake t ms) ->
  startedAt + maxWaitMs - now < Z.of_nat fuel ->
  (0 < fuel)%nat ->
  exists g' o, acquireLoop options fuel wake interfere abortedAt now provider connectionId model maxWaitMs startedAt g
    = Some (g', o) /\ match o with Sleep _ => False | _ => True end.
Proof.
  intros Hm Hwake. revert now g. induction fuel as [|fuel IH]; intros now g Hf Hpos; [lia|].
  cbn [acquireLoop].
  destruct (abortedAt now); [exists g, AbortError; done|].
  destruct (attempt options false now provider connectionId model maxWaitMs startedAt g) as [g1 o] eqn:Ha.
  pose proof (attempt_cases _ _ _ _ _ _ _ _ _ _ Ha) as Hc.
  destruct o as [l|r| |ms]; [by eexists _, _|by eexists _, _|done|]. destruct Hc as [Hms Hd]. pose proof (Hwake now ms).
  apply IH; specialize (Hd Hm); lia.
Qed.

(** ** Witnesses *)

Definition exOptions : RollingRpmGateOptions :=
  mkOptions (Some 2) (fun _ => None) (fun _ => None)
    (fun provider connection _ => provider +:+ ":" +:+ connection)%string.

Definition exGateFull : Gate :=
  let turn g now := (attempt exOptions false now "openai" "c1" None 500 now g).1 in
  turn (turn newGate 1000) 1200.

Lemma rpm_grant_respects_limits_witness :
  blockOf "openai:c1" newGate <= 1000.
Proof.
  refine (proj1 (proj2 (rpm_grant_respects_limits exOptions false 1000 "openai" "c1" None 500 1000 newGate
    (attempt exOptions false 1000 "openai" "c1" None 500 1000 newGate).1 (Some [("global"%string, 1%N)]) mwf_nil _ _)));
    vm_compute; [discriminate|reflexivity].
Defined.

Lemma rpm_wait_terminates_witness :
  exists g' o, acquireLoop exOptions 600 Z.add (fun _ g => g) (fun _ => false) 1300 "openai" "c1" None 500 1300 exGateFull
    = Some (g', o) /\ match o with Sleep _ => False | _ => True end.
Proof. apply rpm_wait_terminates; [lia|intros; lia|lia|lia]. Defined.

Example ex_timeout :
  snd <$> acquireLoop exOptions 600 Z.add (fun _ g => g) (fun _ => false) 1300 "openai" "c1" None 500 1300 exGateFull
  = Some (TimedOut local_queue).
Proof. vm_compute. reflexivity. Qed.
