(* ===== verification/CircuitBreaker.v ===== *)
(** * Provider circuit breaker ([src/shared/utils/circuitBreaker.ts])

    The class [CircuitBreaker] as a record and its methods as functions on a
    [Cell], the breaker beside the part of the world it touches: the persisted
    rows and the notifications it sends.  [execute] suspends while the wrapped
    call runs, so it is two steps, [executeEnter] and [executeSettle], between
    which other steps may happen.  [Date.now()] is the argument [now], one
    reading per synchronous step.  The second half models the module's registry
    of breakers. *)
From S2P Require Import Prelude JsMap.

(** ** Data *)

Inductive CircuitState := CLOSED | DEGRADED | OPEN | HALF_OPEN.
Inductive FailureKind := rate_limit | quota_exhausted | transient.
Inductive CircuitBreakerResultOutcome := success | failure | ignore.

#[export] Instance CircuitState_eq_dec : EqDecision CircuitState.
Proof. solve_decision. Defined.
#[export] Instance FailureKind_eq_dec : EqDecision FailureKind.
Proof. solve_decision. Defined.

(** What a user callback did: it returned a value or it threw. *)
Inductive attempt (A : Type) := Returned (a : A) | Threw.
Arguments Returned {A} a.
Arguments Threw {A}.

(** The templates of the [reason] strings. *)
Inductive TransitionReason :=
| ManualReset | SuccessRecovery | ProbeSuccess | Recovery | TimeoutElapsed
| ProbeFailed (cycle : Z)
| ElevatedFailures (count limit : Z)
| KindReason (kind : FailureKind)
| NoReason.

Record TransitionRecord := mkTransitionRecord {
  tr_from : CircuitState;
  tr_to : CircuitState;
  tr_timestamp : Z;
  tr_failureCount : Z;
  tr_reason : TransitionReason }.

Record FailureKindThresholds := mkFailureKindThresholds {
  threshold : option Z;
  kt_cooldown : option Z;
  immediateOpen : bool }.

(** A row of [domain_circuit_breakers].  The state column is a string, and the
    optional columns are what the JSON of the options holds. *)
Record Saved := mkSaved {
  s_state : string;
  s_failureCount : Z;
  s_lastFailureTime : option Z;
  s_lastFailureKind : option string;
  s_openCycleCount : option Z;
  s_kindFailureCounts : option (jsmap FailureKind Z) }.

Inductive Event :=
| NotifyCircuitTransition (name : string) (old new : CircuitState) (reason : TransitionReason)
| OnStateChange (name : string) (old new : CircuitState).

(** The world: the persisted rows, whether the database answers, and what was
    notified, newest first. *)
Record World := mkWorld {
  w_rows : jsmap string Saved;
  w_up : bool;
  w_log : list Event }.
#[export] Instance World_eta : Eta World := fun w => mkWorld (w_rows w) (w_up w) (w_log w).

Definition stateString (s : CircuitState) : string :=
  match s with
  | CLOSED => "CLOSED" | DEGRADED => "DEGRADED" | OPEN => "OPEN" | HALF_OPEN => "HALF_OPEN"
  end.

Definition parseState (s : string) : option CircuitState :=
  if decide (s = "CLOSED"%string) then Some CLOSED
  else if decide (s = "DEGRADED"%string) then Some DEGRADED
  else if decide (s = "OPEN"%string) then Some OPEN
  else if decide (s = "HALF_OPEN"%string) then Some HALF_OPEN
  else None.

Definition kindString (k : FailureKind) : string :=
  match k with
  | rate_limit => "rate_limit" | quota_exhausted => "quota_exhausted" | transient => "transient"
  end.

Definition parseKind (s : string) : option FailureKind :=
  if decide (s = "rate_limit"%string) then Some rate_limit
  else if decide (s = "quota_exhausted"%string) then Some quota_exhausted
  else if decide (s = "transient"%string) then Some transient
  else None.

Definition maxTransitionHistory : nat := 20.

Section Breaker.
(** Errors thrown by the wrapped calls. *)
Context {E : Type}.

Record CircuitBreakerOptions := mkOptions {
  o_failureThreshold : option Z;
  o_resetTimeout : option Z;
  o_halfOpenRequests : option Z;
  o_onStateChange : bool;
  o_isFailure : option (E -> bool);
  o_cooldownByKind : option (jsmap FailureKind Z);
  o_classifyError : option (E -> attempt (option FailureKind));
  o_kindThresholds : option (jsmap FailureKind FailureKindThresholds);
  o_degradationThreshold : option Z;
  o_maxBackoffMultiplier : option Z;
  o_backoffEscalationCount : option Z }.

Definition noOptions : CircuitBreakerOptions :=
  mkOptions None None None false None None None None None None None.

Record CircuitBreaker := mkBreaker {
  cb_name : string;
  failureThreshold : Z;
  resetTimeout : Z;
  halfOpenRequests : Z;
  onStateChange : bool;
  isFailure : E -> bool;
  cooldownByKind : jsmap FailureKind Z;
  classifyError : option (E -> attempt (option FailureKind));
  kindThresholds : jsmap FailureKind FailureKindThresholds;
  degradationThreshold : Z;
  maxBackoffMultiplier : Z;
  backoffEscalationCount : Z;
  state : CircuitState;
  failureCount : Z;
  successCount : Z;
  lastFailureTime : option Z;
  lastFailureKind : option FailureKind;
  halfOpenAllowed : Z;
  halfOpenProbeStartedAt : option Z;
  halfOpenProbeGeneration : Z;
  kindFailureCounts : jsmap FailureKind Z;
  openCycleCount : Z;
  transitionHistory : list TransitionRecord }.

#[export] Instance CircuitBreaker_eta : Eta CircuitBreaker := fun b =>
  mkBreaker (cb_name b) (failureThreshold b) (resetTimeout b) (halfOpenRequests b)
    (onStateChange b) (isFailure b) (cooldownByKind b) (classifyError b) (kindThresholds b)
    (degradationThreshold b) (maxBackoffMultiplier b) (backoffEscalationCount b)
    (state b) (failureCount b) (successCount b) (lastFailureTime b) (lastFailureKind b)
    (halfOpenAllowed b) (halfOpenProbeStartedAt b) (halfOpenProbeGeneration b)
    (kindFailureCounts b) (openCycleCount b) (transitionHistory b).

Record Cell := mkCell { brk : CircuitBreaker; wld : World }.
#[export] Instance Cell_eta : Eta Cell := fun c => mkCell (brk c) (wld c).

(** ** Persistence *)

Definition savedOf (b : CircuitBreaker) : Saved :=
  mkSaved (stateString (state b)) (failureCount b) (lastFailureTime b)
    (kindString <$> lastFailureKind b) (Some (openCycleCount b)) (Some (kindFailureCounts b)).

Definition persistToDb (c : Cell) : Cell :=
  if w_up (wld c)
  then c <| wld := (wld c) <| w_rows := mset (cb_name (brk c)) (savedOf (brk c)) (w_rows (wld c)) |> |>
  else c.

Definition restoreFromDb (w : World) (b : CircuitBreaker) : CircuitBreaker :=
  if w_up w then
    match mget (cb_name b) (w_rows w) with
    | None => b
    | Some saved =>
        let b := match parseState (s_state saved) with
                 | Some st => b <| state := st |> | None => b end in
        let b := b <| failureCount := s_failureCount saved |>
                   <| lastFailureTime := s_lastFailureTime saved |> in
        let b := match s_lastFailureKind saved with
                 | Some k => match parseKind k with
                             | Some kd => b <| lastFailureKind := Some kd |> | None => b end
                 | None => b end in
        let b := b <| openCycleCount := orElse (s_openCycleCount saved) 0 |>
                   <| kindFailureCounts := orElse (s_kindFailureCounts saved) [] |> in
        if decide (state b = HALF_OPEN)
        then b <| halfOpenAllowed := halfOpenRequests b |> else b
    end
  else b.

Definition newCircuitBreaker (name : string) (o : CircuitBreakerOptions) (w : World)
    : CircuitBreaker :=
  let ft := orElse (o_failureThreshold o) 5 in
  restoreFromDb w
    (mkBreaker name ft
       (orElse (o_resetTimeout o) 30000)
       (orElse (o_halfOpenRequests o) 1)
       (o_onStateChange o)
       (orElse (o_isFailure o) (fun _ => true))
       (orElse (o_cooldownByKind o) [])
       (o_classifyError o)
       (orElse (o_kindThresholds o) [])
       (orElse (o_degradationThreshold o) (ceilDiv (ft * 60) 100))
       (orElse (o_maxBackoffMultiplier o) 16)
       (orElse (o_backoffEscalationCount o) 3)
       CLOSED 0 0 None None 0 None 0 [] 0 []).

(** ** Timeouts *)

Definition effectiveResetTimeout (b : CircuitBreaker) : Z :=
  if openCycleCount b <=? backoffEscalationCount b then resetTimeout b
  else
    let escalationFactor := 2 ^ (openCycleCount b - backoffEscalationCount b) in
    Z.min (resetTimeout b * escalationFactor) (resetTimeout b * maxBackoffMultiplier b).

Definition effectiveCooldown (b : CircuitBreaker) : Z :=
  let baseTimeout := effectiveResetTimeout b in
  match lastFailureKind b with
  | Some k =>
      match mget k (cooldownByKind b) with
      | Some override =>
          if 0 <=? override then
            if openCycleCount b <=? backoffEscalationCount b then override
            else
              let escalationFactor := 2 ^ (openCycleCount b - backoffEscalationCount b) in
              Z.min (override * escalationFactor) (override * maxBackoffMultiplier b)
          else baseTimeout
      | None => baseTimeout
      end
  | None => baseTimeout
  end.

Definition shouldAttemptReset (now : Z) (b : CircuitBreaker) : bool :=
  match lastFailureTime b with
  | Some t => if t =? 0 then true else effectiveCooldown b <=? now - t
  | None => true
  end.

Definition timeUntilReset (now : Z) (b : CircuitBreaker) : Z :=
  match (if decide (state b = HALF_OPEN) then halfOpenProbeStartedAt b else None) with
  | Some p => Z.max 0 (resetTimeout b - (now - p))
  | None =>
      match lastFailureTime b with
      | Some t => if t =? 0 then 0 else Z.max 0 (effectiveCooldown b - (now - t))
      | None => 0
      end
  end.

(** ** Transitions *)

Definition pushHistory (r : TransitionRecord) (h : list TransitionRecord) :=
  let h := h ++ [r] in
  if (maxTransitionHistory <? length h)%nat then tail h else h.

Definition transition (now : Z) (newState : CircuitState) (reason : TransitionReason)
    (c : Cell) : Cell :=
  let b := brk c in
  let oldState := state b in
  let b := b <| state := newState |> in
  let b := if decide (newState = HALF_OPEN)
           then b <| halfOpenAllowed := halfOpenRequests b |> else b in
  let b := b <| halfOpenProbeGeneration := halfOpenProbeGeneration b + 1 |>
             <| halfOpenProbeStartedAt := None |> in
  let b := b <| transitionHistory :=
                pushHistory (mkTransitionRecord oldState newState now (failureCount b) reason)
                  (transitionHistory b) |> in
  let w := wld c in
  let w := w <| w_log := NotifyCircuitTransition (cb_name b) oldState newState reason :: w_log w |> in
  let w := if onStateChange b && bool_decide (oldState <> newState)
           then w <| w_log := OnStateChange (cb_name b) oldState newState :: w_log w |> else w in
  mkCell b w.

Definition refreshOpenState (now : Z) (c : Cell) : Cell :=
  let b := brk c in
  if bool_decide (state b = OPEN) && shouldAttemptReset now b then
    persistToDb (transition now HALF_OPEN TimeoutElapsed c)
  else
    match halfOpenProbeStartedAt b with
    | Some p =>
        if bool_decide (state b = HALF_OPEN) && (halfOpenAllowed b <=? 0)
           && (resetTimeout b <=? now - p)
        then c <| brk := b <| halfOpenAllowed := halfOpenRequests b |>
                           <| halfOpenProbeStartedAt := None |>
                           <| halfOpenProbeGeneration := halfOpenProbeGeneration b + 1 |> |>
        else c
    | None => c
    end.

Definition openCircuit (now : Z) (kind : option FailureKind) (c : Cell) : Cell :=
  transition now OPEN (match kind with Some k => KindReason k | None => NoReason end) c.

(** The part of [_onFailure] that follows the counting: the kind thresholds,
    which return before the row is written. *)
Definition kindThresholdReached (b : CircuitBreaker) (kind : FailureKind) : bool :=
  match mget kind (kindThresholds b) with
  | Some kc =>
      let kindCount := numOr (mget kind (kindFailureCounts b)) 0 in
      (immediateOpen kc && (numOr (threshold kc) 1 <=? kindCount))
      || (numOr (threshold kc) (failureThreshold b) <=? kindCount)
  | None => false
  end.

Definition countFailure (now : Z) (kind : option FailureKind) (b : CircuitBreaker)
    : CircuitBreaker :=
  let b := b <| failureCount := failureCount b + 1 |>
             <| lastFailureTime := Some now |>
             <| lastFailureKind := kind |> in
  match kind with
  | Some k => b <| kindFailureCounts :=
                   mset k (numOr (mget k (kindFailureCounts b)) 0 + 1) (kindFailureCounts b) |>
  | None => b
  end.

Definition totalFailureTransition (now : Z) (kind : option FailureKind) (c : Cell) : Cell :=
  let b := brk c in
  match state b with
  | OPEN => c
  | HALF_OPEN =>
      let b := b <| openCycleCount := openCycleCount b + 1 |> in
      transition now OPEN (ProbeFailed (openCycleCount b)) (c <| brk := b |>)
  | DEGRADED =>
      if failureThreshold b <=? failureCount b then openCircuit now kind c else c
  | CLOSED =>
      if failureThreshold b <=? failureCount b then openCircuit now kind c
      else if degradationThreshold b <=? failureCount b
      then transition now DEGRADED (ElevatedFailures (failureCount b) (failureThreshold b)) c
      else c
  end.

Definition onFailure (now : Z) (kind : option FailureKind) (c : Cell) : Cell :=
  let c := c <| brk := countFailure now kind (brk c) |> in
  if match kind with Some k => kindThresholdReached (brk c) k | None => false end
  then openCircuit now kind c
  else persistToDb (totalFailureTransition now kind c).

Definition onSuccess (now : Z) (c : Cell) : Cell :=
  let b := brk c in
  persistToDb
    match state b with
    | OPEN =>
        let c := transition now CLOSED SuccessRecovery c in
        c <| brk := (brk c) <| failureCount := 0 |> <| successCount := 0 |>
               <| lastFailureTime := None |> <| lastFailureKind := None |>
               <| openCycleCount := 0 |> <| kindFailureCounts := [] |> |>
    | HALF_OPEN =>
        let c := transition now CLOSED ProbeSuccess
                   (c <| brk := b <| successCount := successCount b + 1 |> |>) in
        c <| brk := (brk c) <| failureCount := 0 |> <| lastFailureKind := None |>
               <| openCycleCount := 0 |> <| kindFailureCounts := [] |> |>
    | _ =>
        let b := b <| failureCount := Z.max 0 (failureCount b - 1) |> in
        let c := c <| brk := b |> in
        if bool_decide (state b = DEGRADED) && (failureCount b <=? degradationThreshold b)
        then transition now CLOSED Recovery c else c
    end.

(** ** The public interface *)

Definition reset (now : Z) (c : Cell) : Cell :=
  let c := transition now CLOSED ManualReset c in
  persistToDb
    (c <| brk := (brk c) <| failureCount := 0 |> <| successCount := 0 |>
           <| lastFailureTime := None |> <| lastFailureKind := None |>
           <| openCycleCount := 0 |> <| kindFailureCounts := [] |> |>).

Definition canExecute (now : Z) (c : Cell) : Cell * bool :=
  let c := refreshOpenState now c in
  (c, match state (brk c) with
      | CLOSED | DEGRADED => true
      | OPEN => false
      | HALF_OPEN => 0 <? halfOpenAllowed (brk c)
      end).

Definition getRetryAfterMs (now : Z) (c : Cell) : Cell * Z :=
  let c := refreshOpenState now c in
  (c, match state (brk c) with
      | CLOSED | DEGRADED => 0
      | _ => timeUntilReset now (brk c)
      end).

Record CircuitBreakerStatus := mkStatus {
  st_name : string;
  st_state : CircuitState;
  st_failureCount : Z;
  st_lastFailureTime : option Z;
  st_retryAfterMs : Z;
  st_lastFailureKind : option FailureKind;
  st_openCycleCount : Z;
  st_kindFailureCounts : jsmap FailureKind Z;
  st_degradationThreshold : Z;
  st_effectiveResetTimeout : Z;
  st_transitionHistory : list TransitionRecord }.

Definition getStatus (now : Z) (c : Cell) : Cell * CircuitBreakerStatus :=
  let c := refreshOpenState now c in
  let '(c, retryAfter) := getRetryAfterMs now c in
  let b := brk c in
  (c, mkStatus (cb_name b) (state b) (failureCount b) (lastFailureTime b) retryAfter
        (lastFailureKind b) (openCycleCount b) (kindFailureCounts b) (degradationThreshold b)
        (effectiveResetTimeout b) (transitionHistory b)).

(** [execute], up to the call of [fn]: the breaker rejects, or it lets the
    call start and remembers the probe generation. *)
Inductive EnterResult :=
| OpenError (stateSeen : CircuitState) (retryAfterMs : Z)
| Entered (probeGeneration : option Z).

Definition executeEnter (now : Z) (c : Cell) : Cell * EnterResult :=
  let c := refreshOpenState now c in
  let b := brk c in
  match state b with
  | OPEN => (c, OpenError OPEN (timeUntilReset now b))
  | HALF_OPEN =>
      if halfOpenAllowed b <=? 0 then (c, OpenError HALF_OPEN (timeUntilReset now b))
      else
        (c <| brk := b <| halfOpenAllowed := halfOpenAllowed b - 1 |>
                       <| halfOpenProbeStartedAt :=
                            Some (orElse (halfOpenProbeStartedAt b) now) |> |>,
         Entered (Some (halfOpenProbeGeneration b)))
  | _ => (c, Entered None)
  end.

(** How the call ended: it resolved, with what [classifyResult] said when one
    was given, or it threw. *)
Inductive CallEnd :=
| Resolved (classified : option (attempt CircuitBreakerResultOutcome))
| Rejected (error : E).

Definition recordResolvedResult (now : Z)
    (classified : option (attempt CircuitBreakerResultOutcome)) (c : Cell) : Cell :=
  let outcome := match classified with Some (Returned o) => o | _ => success end in
  match outcome with
  | failure => onFailure now None c
  | success => onSuccess now c
  | ignore => c
  end.

Definition isCurrentProbe (b : CircuitBreaker) (probeGeneration : option Z) : bool :=
  match probeGeneration with
  | None => true
  | Some g => g =? halfOpenProbeGeneration b
  end.

Definition executeSettle (now : Z) (probeGeneration : option Z) (e : CallEnd) (c : Cell) : Cell :=
  if isCurrentProbe (brk c) probeGeneration then
    match e with
    | Resolved classified => recordResolvedResult now classified c
    | Rejected error =>
        if isFailure (brk c) error then
          let kind := match classifyError (brk c) with
                      | Some f => match f error with Returned k => k | Threw => None end
                      | None => None
                      end in
          onFailure now kind c
        else c
    end
  else c.
End Breaker.

Arguments CircuitBreakerOptions E : clear implicits.
Arguments CircuitBreaker E : clear implicits.
Arguments Cell E : clear implicits.
Arguments CallEnd E : clear implicits.

(** ** The registry of breakers *)

Definition MAX_REGISTRY_SIZE : Z := 500.
Definition IDLE_EVICT_MS : Z := 30 * 60 * 1000.

Definition deleteRow (name : string) (w : World) : World :=
  if w_up w then w <| w_rows := mdel name (w_rows w) |> else w.

Section Registry.
Context {E : Type}.

Record Registry := mkRegistry { reg : jsmap string (CircuitBreaker E); rworld : World }.
#[export] Instance Registry_eta : Eta Registry := fun r => mkRegistry (reg r) (rworld r).

(** [getStatus] of every breaker of the map, in order; it refreshes them. *)
Fixpoint statuses (now : Z) (m : jsmap string (CircuitBreaker E)) (w : World)
    : jsmap string (CircuitBreaker E) * World * list (string * CircuitBreakerStatus) :=
  match m with
  | [] => ([], w, [])
  | (name, b) :: m' =>
      let '(c, st) := getStatus now (mkCell b w) in
      let '(m'', w', sts) := statuses now m' (wld c) in
      ((name, brk c) :: m'', w', (name, st) :: sts)
  end.

(** One tick of the sweep timer. *)
Fixpoint sweepEntries (now : Z) (m : jsmap string (CircuitBreaker E)) (w : World)
    : jsmap string (CircuitBreaker E) * World :=
  match m with
  | [] => ([], w)
  | (name, b) :: m' =>
      let '(c, st) := getStatus now (mkCell b w) in
      if bool_decide (st_state st = CLOSED) && (st_failureCount st =? 0)
         && (negb (truthyNum (st_lastFailureTime st))
             || (IDLE_EVICT_MS <? now - orElse (st_lastFailureTime st) 0))
      then sweepEntries now m' (deleteRow name (wld c))
      else let '(m'', w') := sweepEntries now m' (wld c) in ((name, brk c) :: m'', w')
  end.

Definition registrySweep (now : Z) (r : Registry) : Registry :=
  let '(m, w) := sweepEntries now (reg r) (rworld r) in mkRegistry m w.

Definition isCold (st : CircuitBreakerStatus) : bool :=
  bool_decide (st_state st = CLOSED) && (st_failureCount st =? 0).

Definition evictOne (r : Registry) (name : string) : Registry :=
  mkRegistry (mdel name (reg r)) (deleteRow name (rworld r)).

Definition evictColdBreakersIfNeeded (now : Z) (r : Registry) : Registry :=
  if msize (reg r) <? MAX_REGISTRY_SIZE then r
  else
    let '(m, w, sts) := statuses now (reg r) (rworld r) in
    let candidates :=
      (fun ns => (ns.1, numOr (st_lastFailureTime ns.2) 0))
        <$> base.filter (fun ns => isCold ns.2 = true) sts in
    let sorted := sortOn snd candidates in
    let target := msize m - MAX_REGISTRY_SIZE + 1 in
    fold_left evictOne (fst <$> take (Z.to_nat target) sorted) (mkRegistry m w).

Definition mergeInto {K V} `{EqDecision K} (m : jsmap K V) (o : option (jsmap K V)) : jsmap K V :=
  match o with Some m' => fold_left (fun acc kv => mset kv.1 kv.2 acc) m' m | None => m end.

Definition applyOptions (o : CircuitBreakerOptions E) (c : Cell E) : Cell E :=
  let b := brk c in
  let b := b <| failureThreshold := orElse (o_failureThreshold o) (failureThreshold b) |>
             <| resetTimeout := orElse (o_resetTimeout o) (resetTimeout b) |> in
  let b := match o_halfOpenRequests o with
           | Some n =>
               let b := b <| halfOpenRequests := n |> in
               if decide (state b = HALF_OPEN)
               then b <| halfOpenAllowed := Z.min (halfOpenAllowed b) (halfOpenRequests b) |> else b
           | None => b
           end in
  let b := if o_onStateChange o then b <| onStateChange := true |> else b in
  let b := b <| isFailure := orElse (o_isFailure o) (isFailure b) |>
             <| cooldownByKind := mergeInto (cooldownByKind b) (o_cooldownByKind o) |> in
  let b := match o_classifyError o with
           | Some f => b <| classifyError := Some f |> | None => b end in
  let b := b <| kindThresholds := mergeInto (kindThresholds b) (o_kindThresholds o) |>
             <| degradationThreshold := orElse (o_degradationThreshold o) (degradationThreshold b) |>
             <| maxBackoffMultiplier := orElse (o_maxBackoffMultiplier o) (maxBackoffMultiplier b) |>
             <| backoffEscalationCount :=
                  orElse (o_backoffEscalationCount o) (backoffEscalationCount b) |> in
  persistToDb (c <| brk := b |>).

Definition getCircuitBreaker (now : Z) (name : string) (options : option (CircuitBreakerOptions E))
    (r : Registry) : Registry :=
  let r := if mhas name (reg r) then r
           else
             let r := evictColdBreakersIfNeeded now r in
             r <| reg := mset name
                           (newCircuitBreaker name (orElse options noOptions) (rworld r)) (reg r) |> in
  match options, mget name (reg r) with
  | Some o, Some b =>
      let c := applyOptions o (mkCell b (rworld r)) in
      mkRegistry (mset name (brk c) (reg r)) (wld c)
  | _, _ => r
  end.

Definition getAllCircuitBreakerStatuses (now : Z) (r : Registry)
    : Registry * list CircuitBreakerStatus :=
  let r := if w_up (rworld r)
           then fold_left (fun r name =>
                  if mhas name (reg r) then r else getCircuitBreaker now name None r)
                (mkeys (w_rows (rworld r))) r
           else r in
  let '(m, w, sts) := statuses now (reg r) (rworld r) in
  (mkRegistry m w, snd <$> sts).

Definition resetAllCircuitBreakers (now : Z) (r : Registry) : Registry :=
  let w := fold_left (fun w nb => wld (reset now (mkCell (snd nb) w))) (reg r) (rworld r) in
  mkRegistry [] (if w_up w then w <| w_rows := [] |> else w).
End Registry.

Arguments Registry E : clear implicits.

(** ** How an operation moves the probe gate

    An operation either leaves the probe gate alone or starts a new probe
    generation, with all its probes still to give out. *)
Section Gate.
Context {E : Type}.
Implicit Types (b : CircuitBreaker E) (c : Cell E).

Definition sameGate b b' : Prop :=
  state b' = state b /\ halfOpenAllowed b' = halfOpenAllowed b /\
  halfOpenProbeStartedAt b' = halfOpenProbeStartedAt b /\
  halfOpenProbeGeneration b' = halfOpenProbeGeneration b.

Definition newGate b b' : Prop :=
  halfOpenProbeGeneration b < halfOpenProbeGeneration b' /\
  (state b' = HALF_OPEN -> halfOpenAllowed b' = halfOpenRequests b').

Definition evolves b b' : Prop :=
  halfOpenRequests b' = halfOpenRequests b /\ resetTimeout b' = resetTimeout b /\
  (sameGate b b' \/ newGate b b').

Lemma evolves_refl b : evolves b b.
Proof. unfold evolves, sameGate. auto 10. Qed.

Lemma persistToDb_brk c : brk (persistToDb c) = brk c.
Proof. unfold persistToDb. by destruct (w_up (wld c)). Qed.

Lemma transition_evolves now s r c b :
  sameGate b (brk c) -> halfOpenRequests (brk c) = halfOpenRequests b ->
  resetTimeout (brk c) = resetTimeout b ->
  evolves b (brk (transition now s r c)).
Proof.
  intros (_ & _ & _ & Hg) Hr Ht. unfold transition, evolves, newGate.
  destruct (decide (s = HALF_OPEN)); simpl; repeat split; try done; right; split; try lia; done.
Qed.

Lemma refreshOpenState_evolves now c : evolves (brk c) (brk (refreshOpenState now c)).
Proof.
  unfold refreshOpenState. case_if.
  - rewrite persistToDb_brk. apply transition_evolves; unfold sameGate; done.
  - destruct (halfOpenProbeStartedAt (brk c)) as [p|]; [|apply evolves_refl].
    case_if; [|apply evolves_refl]. unfold evolves, newGate. simpl.
    repeat split; right; split; [lia|done].
Qed.

Lemma countFailure_same now k b :
  sameGate b (countFailure now k b) /\
  halfOpenRequests (countFailure now k b) = halfOpenRequests b /\
  resetTimeout (countFailure now k b) = resetTimeout b.
Proof. unfold sameGate, countFailure. destruct k; simpl; auto 10. Qed.

Lemma totalFailureTransition_evolves now k c b :
  sameGate b (brk c) -> halfOpenRequests (brk c) = halfOpenRequests b ->
  resetTimeout (brk c) = resetTimeout b ->
  evolves b (brk (totalFailureTransition now k c)).
Proof.
  intros HS Hr Ht.
  assert (evolves b (brk c)) by (unfold evolves; auto).
  unfold totalFailureTransition, openCircuit.
  destruct (state (brk c)); repeat case_if; auto using transition_evolves.
Qed.

Lemma onFailure_evolves now k c : evolves (brk c) (brk (onFailure now k c)).
Proof.
  destruct (countFailure_same now k (brk c)) as (HS & Hr & Ht).
  unfold onFailure, openCircuit. case_if.
  - by apply transition_evolves.
  - rewrite persistToDb_brk. by apply totalFailureTransition_evolves.
Qed.

Lemma onSuccess_evolves now c : evolves (brk c) (brk (onSuccess now c)).
Proof.
  assert (Hgate : sameGate (brk c) (brk c)) by (by unfold sameGate).
  unfold onSuccess. rewrite persistToDb_brk.
  destruct (state (brk c)) eqn:Hs; [case_if|case_if| |].
  1, 3: by apply transition_evolves.
  1, 2: simpl; unfold evolves, sameGate; simpl; auto 10.
  all: simpl; unfold evolves, newGate; simpl; split_and!; [done..|right; split; [lia|done]].
Qed.

Lemma executeSettle_evolves now g e c : evolves (brk c) (brk (executeSettle now g e c)).
Proof.
  unfold executeSettle, recordResolvedResult. case_if; [|apply evolves_refl].
  destruct e as [cl|err]; repeat case_match;
    auto using onFailure_evolves, onSuccess_evolves, evolves_refl.
Qed.

Lemma reset_evolves now c : evolves (brk c) (brk (reset now c)).
Proof.
  unfold reset. rewrite persistToDb_brk. unfold evolves, newGate. simpl.
  repeat split; right; split; [lia|done].
Qed.
End Gate.

#[export] Hint Resolve evolves_refl refreshOpenState_evolves onFailure_evolves onSuccess_evolves
  executeSettle_evolves reset_evolves : rr.

(** ** Concurrent calls through one breaker *)
Section Concurrent.
Context {E : Type}.

(** The breaker and the calls in flight, each with the probe generation it
    was started in. *)
Record Sys := mkSys { cell : Cell E; inflight : list (option Z) }.

Inductive Label :=
| LEnter (now : Z) | LSettle (i : nat) (now : Z) (e : CallEnd E)
| LQuery (now : Z) | LReset (now : Z).

Inductive sysStep : Sys -> Label -> Sys -> Prop :=
| step_enter s now c g :
    executeEnter now (cell s) = (c, Entered g) ->
    sysStep s (LEnter now) (mkSys c (inflight s ++ [g]))
| step_reject s now c st ra :
    executeEnter now (cell s) = (c, OpenError st ra) ->
    sysStep s (LEnter now) (mkSys c (inflight s))
| step_settle s i now e g :
    inflight s !! i = Some g ->
    sysStep s (LSettle i now e) (mkSys (executeSettle now g e (cell s)) (removeAt i (inflight s)))
| step_query s now :
    sysStep s (LQuery now) (mkSys (refreshOpenState now (cell s)) (inflight s))
| step_reset s now :
    sysStep s (LReset now) (mkSys (reset now (cell s)) (inflight s)).

(** The calls in flight that are probes of the current generation. *)
Definition currentProbes (s : Sys) : list (option Z) :=
  base.filter (fun g => g = Some (halfOpenProbeGeneration (brk (cell s)))) (inflight s).

Definition gateInv (s : Sys) : Prop :=
  let b := brk (cell s) in
  0 <= halfOpenRequests b /\
  Forall (fun g => from_option (fun x => x <= halfOpenProbeGeneration b) True g) (inflight s) /\
  (state b = HALF_OPEN ->
     0 <= halfOpenAllowed b /\
     halfOpenAllowed b + Z.of_nat (length (currentProbes s)) <= halfOpenRequests b /\
     (halfOpenAllowed b < halfOpenRequests b -> halfOpenProbeStartedAt b <> None)).

Lemma no_newer_probes g l :
  Forall (fun o => from_option (fun x => x <= g) True o) l ->
  forall g', g < g' -> base.filter (fun o => o = Some g') l = [].
Proof.
  induction 1 as [|o l Ho _ IH]; intros g' Hlt; [done|].
  rewrite filter_cons. case_decide; [subst; simpl in Ho; lia|]. auto.
Qed.

Lemma gateInv_evolves c c' l :
  gateInv (mkSys c l) -> evolves (brk c) (brk c') -> gateInv (mkSys c' l).
Proof.
  unfold gateInv, currentProbes. simpl. intros (H0 & Hf & Hh) (Hr & _ & [HS|HN]).
  - destruct HS as (Hst & Ha & Hp & Hg). rewrite Hst, Ha, Hp, Hg, Hr. auto.
  - destruct HN as (Hg & Ha). rewrite Hr. split; [done|]. split.
    + eapply Forall_impl; [exact Hf|]. intros [x|]; simpl; [lia|done].
    + intros Hst. rewrite (Ha Hst), (no_newer_probes _ _ Hf _ Hg), Hr. simpl. lia.
Qed.

Lemma gateInv_sublist c l l' : gateInv (mkSys c l) -> sublist l' l -> gateInv (mkSys c l').
Proof.
  unfold gateInv, currentProbes. simpl. intros (H0 & Hf & Hh) Hs.
  split; [done|]. split.
  - rewrite Forall_forall in *. intros x Hx. apply Hf. by eapply elem_of_sublist.
  - intros Hst. destruct (Hh Hst) as (? & ? & ?). split; [done|]. split; [|done].
    assert (length (base.filter (fun g => g = Some (halfOpenProbeGeneration (brk c))) l')
            <= length (base.filter (fun g => g = Some (halfOpenProbeGeneration (brk c))) l))%nat.
    { apply sublist_length. clear -Hs. induction Hs; [done| |]; rewrite !filter_cons;
        repeat case_decide; try constructor; auto; done. }
    lia.
Qed.

Lemma executeEnter_gate now c c' g l :
  executeEnter now c = (c', Entered g) -> gateInv (mkSys c l) -> gateInv (mkSys c' (l ++ [g])).
Proof.
  unfold executeEnter. intros He Hi.
  pose proof (gateInv_evolves _ _ _ Hi (refreshOpenState_evolves now c)) as Hr.
  set (c1 := refreshOpenState now c) in *. clearbody c1.
  destruct Hr as (H0 & Hf & Hh). unfold gateInv, currentProbes in *. simpl in *.
  destruct (state (brk c1)) eqn:Hs; try done; simplify_eq; simpl.
  1, 2: rewrite Hs; split; [done|]; split; [|done];
    apply Forall_app; split; [done|repeat constructor].
  destruct (halfOpenAllowed (brk c1) <=? 0) eqn:Ha; simplify_eq; simpl. to_prop.
  destruct (Hh eq_refl) as (? & ? & ?). split; [done|]. split.
  { apply Forall_app; split; [done|]. repeat constructor. simpl. lia. }
  intros _. rewrite filter_app, length_app. simpl.
  rewrite filter_cons_True by done. simpl. split; [lia|]. split; [lia|done].
Qed.

Lemma gateInv_step s l s' : gateInv s -> sysStep s l s' -> gateInv s'.
Proof.
  destruct s as [c l0]. intros Hi Hstep. inversion Hstep; subst; simpl in *.
  - eauto using executeEnter_gate.
  - assert (brk c0 = brk (refreshOpenState now c)) as Hb.
    { unfold executeEnter in *. repeat case_match; simplify_eq; done. }
    eapply gateInv_evolves; [exact Hi|]. rewrite Hb. auto with rr.
  - eapply gateInv_sublist; [|apply removeAt_sublist]. eapply gateInv_evolves; eauto with rr.
  - eapply gateInv_evolves; eauto with rr.
  - eapply gateInv_evolves; eauto with rr.
Qed.

(** A breaker just built, with nothing in flight. *)
Definition initialSys (name : string) (o : CircuitBreakerOptions E) (w : World) : Sys :=
  mkSys (mkCell (newCircuitBreaker name o w) w) [].

Lemma newCircuitBreaker_gate name (o : CircuitBreakerOptions E) w :
  let b := newCircuitBreaker name o w in
  halfOpenRequests b = orElse (o_halfOpenRequests o) 1 /\
  (state b = HALF_OPEN -> halfOpenAllowed b = halfOpenRequests b) /\
  halfOpenProbeStartedAt b = None.
Proof.
  unfold newCircuitBreaker, restoreFromDb. destruct (w_up w); [|by repeat split].
  simpl. destruct (mget name (w_rows w)) as [sv|]; [|by repeat split].
  destruct (parseState (s_state sv)) as [[]|]; destruct (s_lastFailureKind sv) as [k|];
    simpl; try destruct (parseKind k); simpl; repeat split; done.
Qed.

Lemma gateInv_initial name (o : CircuitBreakerOptions E) w :
  0 <= orElse (o_halfOpenRequests o) 1 -> gateInv (initialSys name o w).
Proof.
  intros H. destruct (newCircuitBreaker_gate name o w) as (Hr & Ha & _).
  unfold gateInv, currentProbes. simpl. rewrite Hr. split; [done|]. split; [constructor|].
  intros Hs. rewrite (Ha Hs), Hr. simpl. lia.
Qed.
End Concurrent.

(** ** Properties *)

Section Properties.
Context {E : Type}.
Implicit Types (b : CircuitBreaker E) (c : Cell E) (o : CircuitBreakerOptions E).

Lemma sysStep_halfOpenRequests s l s' :
  @sysStep E s l s' -> halfOpenRequests (brk (cell s')) = halfOpenRequests (brk (cell s)).
Proof.
  inversion 1; subst; simpl in *;
    try (match goal with |- context [brk (?op)] =>
           assert (evolves (brk (cell s)) (brk op)) as (-> & _) by auto with rr end; done).
  all: unfold executeEnter in *;
    destruct (refreshOpenState_evolves now (cell s)) as (Hr & _);
    repeat case_match; simplify_eq; simpl; done.
Qed.

Lemma reach_gate name o w ls s :
  0 <= orElse (o_halfOpenRequests o) 1 ->
  reach sysStep (initialSys name o w) ls s ->
  gateInv s /\ halfOpenRequests (brk (cell s)) = orElse (o_halfOpenRequests o) 1.
Proof.
  intros H0. apply (reach_invariant sysStep (fun s =>
    gateInv s /\ halfOpenRequests (brk (cell s)) = orElse (o_halfOpenRequests o) 1)).
  - split; [by apply gateInv_initial|]. by destruct (newCircuitBreaker_gate name o w).
  - intros s1 l s2 [Hi Hq] Hstep. split; [by eapply gateInv_step|].
    by rewrite (sysStep_halfOpenRequests _ _ _ Hstep).
Qed.

(** C8. Half-open probing is bounded.  Whatever calls start, settle, are queried or reset
    in whatever order, while the breaker is HALF_OPEN at most [halfOpenRequests] calls of
    the current probe generation are in flight.  The allowance is renewed when probes
    hang for the reset timeout; the probes given up then may still be in flight, beside
    those of the new generation, but their outcome no longer touches the breaker. *)
Theorem halfOpen_probe_bound name o w ls s :
  0 <= orElse (o_halfOpenRequests o) 1 ->
  reach sysStep (initialSys name o w) ls s ->
  state (brk (cell s)) = HALF_OPEN ->
  Z.of_nat (length (currentProbes s)) <= orElse (o_halfOpenRequests o) 1 /\
  forall i g now e, inflight s !! i = Some (Some g) -> g <> halfOpenProbeGeneration (brk (cell s)) ->
    executeSettle now (Some g) e (cell s) = cell s.
Proof.
  intros H0 Hreach Hst.
  destruct (reach_gate _ _ _ _ _ H0 Hreach) as [(_ & _ & Hh) Hr].
  destruct (Hh Hst) as (? & ? & _). split; [lia|].
  intros i g now e _ Hg. unfold executeSettle, isCurrentProbe. by rewrite (proj2 (Z.eqb_neq _ _) Hg).
Qed.

(** No permanent lockout.  From every reachable state of a breaker that
    gives out at least one probe there is an instant after which it lets a
    call through, even when every probe in flight is lost for ever. *)
Theorem breaker_recovers name o w ls s :
  0 < orElse (o_halfOpenRequests o) 1 ->
  reach sysStep (initialSys name o w) ls s ->
  exists T, forall now, T <= now -> (canExecute now (cell s)).2 = true.
Proof.
  intros H0 Hreach.
  destruct (reach_gate _ _ _ _ _ (Z.lt_le_incl _ _ H0) Hreach) as [(_ & _ & Hh) Hr].
  destruct s as [[b w'] fl]; simpl in *. unfold canExecute, refreshOpenState. simpl.
  destruct (state b) eqn:Hs; simpl.
  - exists 0. intros now _. by destruct (halfOpenProbeStartedAt b); simpl; rewrite Hs.
  - exists 0. intros now _. by destruct (halfOpenProbeStartedAt b); simpl; rewrite Hs.
  - exists (orElse (lastFailureTime b) 0 + effectiveCooldown b). intros now Hnow.
    assert (shouldAttemptReset now b = true) as ->.
    { unfold shouldAttemptReset. destruct (lastFailureTime b) as [t|]; simpl in *; [|done].
      case_if; [done|]. apply Z.leb_le. lia. }
    rewrite persistToDb_brk. simpl. apply Z.ltb_lt. lia.
  - destruct (Hh eq_refl) as (Ha & _ & Hp).
    destruct (Z.ltb_spec 0 (halfOpenAllowed b)) as [Hpos|Hz].
    + exists 0. intros now _. destruct (halfOpenProbeStartedAt b); simpl.
      * rewrite (proj2 (Z.leb_gt (halfOpenAllowed b) 0)) by lia. simpl. rewrite Hs. by apply Z.ltb_lt.
      * rewrite Hs. by apply Z.ltb_lt.
    + destruct (halfOpenProbeStartedAt b) as [p|] eqn:Hpp; [|exfalso; apply Hp; [lia|done]].
      exists (p + resetTimeout b). intros now Hnow.
      rewrite (proj2 (Z.leb_le (halfOpenAllowed b) 0)) by lia.
      rewrite (proj2 (Z.leb_le (resetTimeout b) (now - p))) by lia.
      simpl. rewrite Hs. apply Z.ltb_lt. lia.
Qed.

(** What an OPEN breaker does with a call: until the effective cooldown
    has passed since the last failure it rejects it, changing nothing and
    announcing exactly the remaining time; from then on it turns HALF_OPEN and
    lets the call through as the first probe of a new generation. *)
Theorem executeEnter_open now c t :
  state (brk c) = OPEN -> lastFailureTime (brk c) = Some t -> t <> 0 ->
  0 < halfOpenRequests (brk c) ->
  let cd := effectiveCooldown (brk c) in
  (now - t < cd -> executeEnter now c = (c, OpenError OPEN (cd - (now - t)))) /\
  (cd <= now - t ->
     exists c', executeEnter now c = (c', Entered (Some (halfOpenProbeGeneration (brk c) + 1))) /\
       state (brk c') = HALF_OPEN /\
       halfOpenAllowed (brk c') = halfOpenRequests (brk c) - 1 /\
       halfOpenProbeStartedAt (brk c') = Some now).
Proof.
  intros Hs Ht Hne Hq cd.
  assert (Hsar : shouldAttemptReset now (brk c) = (cd <=? now - t)).
  { unfold shouldAttemptReset. rewrite Ht, (proj2 (Z.eqb_neq t 0)) by done. done. }
  split; intros Hlt.
  - assert (refreshOpenState now c = c) as Hr.
    { unfold refreshOpenState. rewrite Hsar, (proj2 (Z.leb_gt cd (now - t))) by lia.
      rewrite andb_false_r, Hs. by destruct (halfOpenProbeStartedAt (brk c)). }
    unfold executeEnter. rewrite Hr, Hs. unfold timeUntilReset. rewrite Hs. simpl.
    rewrite Ht, (proj2 (Z.eqb_neq t 0)) by done. do 2 f_equal. fold cd. lia.
  - unfold executeEnter, refreshOpenState.
    rewrite Hsar, Hs, (proj2 (Z.leb_le cd (now - t))) by lia. simpl.
    rewrite persistToDb_brk. simpl.
    rewrite (proj2 (Z.leb_gt (halfOpenRequests (brk c)) 0)) by lia.
    eexists. split; done.
Qed.

(** The cooldown of the last failure's kind before escalation. *)
Definition cooldownBase b : Z :=
  match lastFailureKind b with
  | Some k => match mget k (cooldownByKind b) with
              | Some ov => if 0 <=? ov then ov else resetTimeout b
              | None => resetTimeout b end
  | None => resetTimeout b
  end.

(** The escalation both cooldown formulas share. *)
Definition escalate (base esc cap cycles : Z) : Z :=
  if cycles <=? esc then base else Z.min (base * 2 ^ (cycles - esc)) (base * cap).

Lemma effectiveCooldown_escalate b :
  effectiveCooldown b =
  escalate (cooldownBase b) (backoffEscalationCount b) (maxBackoffMultiplier b) (openCycleCount b).
Proof.
  unfold effectiveCooldown, cooldownBase, effectiveResetTimeout, escalate.
  repeat (case_match; try done).
Qed.

Lemma escalate_bounds base esc cap n :
  0 <= base -> 1 <= cap -> base <= escalate base esc cap n <= base * cap.
Proof.
  intros Hb Hc. unfold escalate. case_if; to_prop; [nia|].
  pose proof (Z.pow_pos_nonneg 2 (n - esc) ltac:(lia) ltac:(lia)).
  split; [|apply Z.le_min_r]. apply Z.min_glb; nia.
Qed.

Lemma escalate_mono base esc cap n m :
  0 <= base -> 1 <= cap -> n <= m -> escalate base esc cap n <= escalate base esc cap m.
Proof.
  intros Hb Hc Hnm. pose proof (escalate_bounds base esc cap m Hb Hc).
  unfold escalate in *. repeat case_if; to_prop; try lia.
  pose proof (Z.pow_le_mono_r 2 (n - esc) (m - esc) ltac:(lia) ltac:(lia)).
  apply Z.min_glb; [|apply Z.le_min_r]. etransitivity; [apply Z.le_min_l|]. nia.
Qed.

(** The adaptive cooldown lies between its base (the reset timeout, or the
    override of the failure kind) and the base times the backoff cap, and it
    never shrinks as the breaker goes through more open cycles. *)
Theorem effectiveCooldown_bounds b n :
  0 <= resetTimeout b -> 1 <= maxBackoffMultiplier b -> openCycleCount b <= n ->
  cooldownBase b <= effectiveCooldown b <= cooldownBase b * maxBackoffMultiplier b /\
  effectiveCooldown b <= effectiveCooldown (b <| openCycleCount := n |>).
Proof.
  intros Hr Hm Hn.
  assert (0 <= cooldownBase b) by (unfold cooldownBase; repeat case_match; blia).
  rewrite !effectiveCooldown_escalate. split; [by apply escalate_bounds|].
  change (cooldownBase (b <| openCycleCount := n |>)) with (cooldownBase b).
  by apply escalate_mono.
Qed.

(** *** A run of failures *)

(** Unclassified failures at the given instants. *)
Definition failAt c (times : list Z) : Cell E :=
  foldl (fun c now => onFailure now None c) c times.

(** The state a run of [n] failures leads to. *)
Definition stateAfterFailures b (n : Z) : CircuitState :=
  if failureThreshold b <=? n then OPEN
  else if degradationThreshold b <=? n then DEGRADED else CLOSED.

Lemma failAt_step now c :
  degradationThreshold (brk c) <= failureThreshold (brk c) ->
  state (brk c) = stateAfterFailures (brk c) (failureCount (brk c)) ->
  let b' := brk (onFailure now None c) in
  failureCount b' = failureCount (brk c) + 1 /\
  state b' = stateAfterFailures (brk c) (failureCount (brk c) + 1) /\
  failureThreshold b' = failureThreshold (brk c) /\
  degradationThreshold b' = degradationThreshold (brk c) /\
  openCycleCount b' = openCycleCount (brk c).
Proof.
  intros Hd Hs. unfold onFailure. rewrite persistToDb_brk. unfold totalFailureTransition.
  simpl. destruct (state (brk c)) eqn:Es; unfold stateAfterFailures in *;
    repeat case_if_in Hs; try discriminate; repeat case_if; to_prop; simpl;
    rewrite ?Es; done || lia.
Qed.

(** Progressive degradation: a run of [n] failures from a quiet CLOSED
    breaker leaves it CLOSED below the degradation threshold, DEGRADED from
    there and OPEN from the failure threshold on, with every failure counted. *)
Theorem consecutive_failures_open c times :
  state (brk c) = CLOSED -> failureCount (brk c) = 0 ->
  0 < degradationThreshold (brk c) <= failureThreshold (brk c) ->
  let n := Z.of_nat (length times) in
  failureCount (brk (failAt c times)) = n /\
  state (brk (failAt c times)) = stateAfterFailures (brk c) n.
Proof.
  intros Hs Hf Hd n. unfold n, failAt. clear n.
  assert (Hbase : state (brk c) = stateAfterFailures (brk c) (failureCount (brk c))).
  { rewrite Hs, Hf. unfold stateAfterFailures. repeat case_if; to_prop; done || lia. }
  assert (Hgen : forall times c,
    degradationThreshold (brk c) <= failureThreshold (brk c) ->
    state (brk c) = stateAfterFailures (brk c) (failureCount (brk c)) ->
    let c' := foldl (fun c now => onFailure now None c) c times in
    failureCount (brk c') = failureCount (brk c) + Z.of_nat (length times) /\
    state (brk c') = stateAfterFailures (brk c) (failureCount (brk c) + Z.of_nat (length times))).
  { clear. induction times as [|now times IH]; simpl; intros c Hd Hs.
    - rewrite Z.add_0_r. done.
    - destruct (failAt_step now c Hd Hs) as (H1 & H2 & H3 & H4 & _).
      destruct (IH (onFailure now None c)) as (IH1 & IH2).
      + by rewrite H3, H4.
      + rewrite H2, H1. unfold stateAfterFailures. by rewrite H3, H4.
      + rewrite IH1, IH2, H1. split; [lia|].
        unfold stateAfterFailures. rewrite H3, H4.
        by replace (failureCount (brk c) + 1 + Z.of_nat (length times))
          with (failureCount (brk c) + Z.pos (Pos.of_succ_nat (length times))) by lia. }
  destruct (Hgen times c ltac:(lia) Hbase) as [-> ->]. rewrite Hf. split; [lia|]. f_equal; lia.
Qed.

(** *** Persistence *)

Lemma parseState_stateString s : parseState (stateString s) = Some s.
Proof. by destruct s. Qed.

Lemma parseKind_kindString k : parseKind (kindString k) = Some k.
Proof. by destruct k. Qed.

(** The row of the breaker holds what the breaker holds. *)
Definition rowCurrent c : Prop :=
  mget (cb_name (brk c)) (w_rows (wld c)) = Some (savedOf (brk c)).

Lemma persistToDb_current c : w_up (wld c) = true -> rowCurrent (persistToDb c).
Proof. intros Hup. unfold rowCurrent, persistToDb. rewrite Hup. simpl. apply mget_mset_eq. Qed.

Lemma transition_up now s r c : w_up (wld (transition now s r c)) = w_up (wld c).
Proof. unfold transition. simpl. by case_if. Qed.

Lemma totalFailureTransition_up now k c :
  w_up (wld (totalFailureTransition now k c)) = w_up (wld c).
Proof.
  unfold totalFailureTransition, openCircuit.
  destruct (state (brk c)); repeat case_if; rewrite ?transition_up; done.
Qed.

Lemma onFailure_current now k c :
  w_up (wld c) = true ->
  (forall k', k = Some k' -> kindThresholdReached (countFailure now k (brk c)) k' = false) ->
  rowCurrent (onFailure now k c).
Proof.
  intros Hup Hk. unfold onFailure. case_if.
  - destruct k as [k'|]; [|done]. simpl in *. rewrite (Hk k' eq_refl) in *. done.
  - apply persistToDb_current. by rewrite totalFailureTransition_up.
Qed.

Lemma onSuccess_current now c : w_up (wld c) = true -> rowCurrent (onSuccess now c).
Proof.
  intros Hup. unfold onSuccess. apply persistToDb_current.
  destruct (state (brk c)); try case_if; simpl; try case_if; simpl; done.
Qed.

Lemma reset_current now c : w_up (wld c) = true -> rowCurrent (reset now c).
Proof. intros Hup. unfold reset. apply persistToDb_current. simpl. by case_if. Qed.

(** What a restart keeps of a breaker. *)
Definition sameAfterRestart b b' : Prop :=
  state b' = state b /\ failureCount b' = failureCount b /\
  lastFailureTime b' = lastFailureTime b /\ lastFailureKind b' = lastFailureKind b /\
  openCycleCount b' = openCycleCount b /\ kindFailureCounts b' = kindFailureCounts b.

Lemma restart_current c o :
  w_up (wld c) = true -> rowCurrent c ->
  sameAfterRestart (brk c) (newCircuitBreaker (cb_name (brk c)) o (wld c)).
Proof.
  intros Hup Hrow. unfold newCircuitBreaker, restoreFromDb. rewrite Hup. simpl.
  unfold rowCurrent in Hrow. rewrite Hrow. unfold savedOf. simpl.
  rewrite parseState_stateString.
  unfold sameAfterRestart.
  destruct (lastFailureKind (brk c)) as [k|]; simpl; [rewrite parseKind_kindString|];
    simpl; case_if; simpl; done.
Qed.

(** Restart safety.  With the database up, the breaker rebuilt after a
    process restart has the state, the counts, the failure kind and the cycle
    count the old one had after any success, reset, or failure that does not
    reach a kind threshold. *)
Theorem restart_restores now k c o c' :
  w_up (wld c) = true ->
  c' = onSuccess now c \/ c' = reset now c \/
    (c' = onFailure now k c /\
     forall k', k = Some k' -> kindThresholdReached (countFailure now k (brk c)) k' = false) ->
  w_up (wld c') = true ->
  sameAfterRestart (brk c') (newCircuitBreaker (cb_name (brk c')) o (wld c')).
Proof.
  intros Hup [->|[->|[-> Hk]]] Hup'; apply restart_current; auto using
    onSuccess_current, reset_current, onFailure_current.
Qed.

(** The exception: a failure that reaches a kind threshold opens the
    breaker without writing its row, so the opening is lost by a restart, and
    it leaves the cycle count alone even when it was a failed probe. *)
Theorem kind_threshold_open_not_persisted now k c :
  kindThresholdReached (countFailure now (Some k) (brk c)) k = true ->
  let c' := onFailure now (Some k) c in
  state (brk c') = OPEN /\ w_rows (wld c') = w_rows (wld c) /\
  openCycleCount (brk c') = openCycleCount (brk c).
Proof.
  intros Hk. unfold onFailure. cbv zeta.
  change (brk (c <| brk := countFailure now (Some k) (brk c) |>))
    with (countFailure now (Some k) (brk c)).
  rewrite Hk. unfold openCircuit, transition. simpl. split_and!; [done|by case_if|done].
Qed.

(** *** The registry *)

Lemma refresh_brk_world now b w w' :
  brk (refreshOpenState now (mkCell b w)) = brk (refreshOpenState now (mkCell b w')).
Proof.
  unfold refreshOpenState. simpl. case_if; [by rewrite !persistToDb_brk|].
  destruct (halfOpenProbeStartedAt b); [|done]. by case_if.
Qed.

Lemma refreshOpenState_cases now c :
  refreshOpenState now c = c \/
  (state (brk (refreshOpenState now c)) <> OPEN /\
   halfOpenProbeStartedAt (brk (refreshOpenState now c)) = None).
Proof.
  unfold refreshOpenState. case_if.
  - right. by rewrite persistToDb_brk.
  - destruct (halfOpenProbeStartedAt (brk c)) as [p|] eqn:Hp; [|by left].
    case_if; [right; simpl|by left].
    apply andb_true_iff in Heqb0 as [[Hs%bool_decide_eq_true _]%andb_true_iff _].
    by rewrite Hs.
Qed.

Lemma refresh_inert now c :
  state (brk c) <> OPEN -> halfOpenProbeStartedAt (brk c) = None -> refreshOpenState now c = c.
Proof.
  intros Hs Hp. unfold refreshOpenState. rewrite Hp, (bool_decide_false _ Hs). done.
Qed.

Lemma refresh_idem now c : refreshOpenState now (refreshOpenState now c) = refreshOpenState now c.
Proof.
  destruct (refreshOpenState_cases now c) as [He|[Hs Hp]]; [by rewrite !He|by apply refresh_inert].
Qed.

Lemma getStatus_view now b w :
  let c := refreshOpenState now (mkCell b w) in
  (getStatus now (mkCell b w)).1 = c /\
  isCold (getStatus now (mkCell b w)).2 =
    bool_decide (state (brk c) = CLOSED) && (failureCount (brk c) =? 0).
Proof. unfold getStatus, getRetryAfterMs, isCold. simpl. by rewrite refresh_idem. Qed.

Lemma refresh_closed now b w :
  state (brk (refreshOpenState now (mkCell b w))) = CLOSED ->
  refreshOpenState now (mkCell b w) = mkCell b w.
Proof.
  unfold refreshOpenState. simpl. case_if; [by rewrite persistToDb_brk|].
  destruct (halfOpenProbeStartedAt b); [|done].
  destruct (state b) eqn:Hs; simpl; try done. case_if; simpl; [by rewrite Hs|done].
Qed.
End Properties.

Section RegistryProperties.
Context {E : Type}.
Implicit Types (b : CircuitBreaker E) (r : Registry E) (m : jsmap string (CircuitBreaker E)).

Definition coldBreaker b : Prop := state b = CLOSED /\ failureCount b = 0.

Lemma isCold_spec now b w :
  isCold (getStatus now (mkCell b w)).2 = true <-> coldBreaker b.
Proof.
  destruct (getStatus_view now b w) as [_ ->]. rewrite andb_true_iff, bool_decide_eq_true, Z.eqb_eq.
  split.
  - intros [Hs Hf]. pose proof (refresh_closed now b w Hs) as He. rewrite He in Hs, Hf. done.
  - intros [Hs Hf]. assert (refreshOpenState now (mkCell b w) = mkCell b w) as ->; [|done].
    unfold refreshOpenState. simpl. rewrite Hs. simpl. by destruct (halfOpenProbeStartedAt b).
Qed.

Lemma statuses_spec now m w m' w' sts :
  statuses now m w = (m', w', sts) ->
  mkeys m' = mkeys m /\
  Forall2 (fun nb ns => ns.1 = nb.1 /\ (isCold ns.2 = true <-> coldBreaker nb.2)) m sts.
Proof.
  revert w m' w' sts. induction m as [|[n b] m IH]; cbn [statuses]; intros w m' w' sts Hst.
  { simplify_eq. split; [done|constructor]. }
  destruct (getStatus now (mkCell b w)) as [c st] eqn:Hg.
  destruct (statuses now m (wld c)) as [[m1 w1] sts1] eqn:Hs. simplify_eq.
  destruct (IH _ _ _ _ Hs) as [Hk HF]. split; [by rewrite !mkeys_cons, Hk|].
  constructor; [|done]. split; [done|]. simpl. rewrite <- (isCold_spec now b w), Hg. done.
Qed.

Lemma mget_evictOne_ne r n names :
  n ∉ names -> mget n (reg (fold_left evictOne names r)) = mget n (reg r).
Proof.
  revert r. induction names as [|n' names IH]; simpl; intros r Hn; [done|].
  rewrite IH by set_solver. unfold evictOne. simpl. apply mget_mdel_ne. set_solver.
Qed.

Lemma length_evictOne r names :
  NoDup names -> names ⊆ mkeys (reg r) ->
  (length (reg (fold_left evictOne names r)) + length names = length (reg r))%nat.
Proof.
  revert r. induction names as [|n names IH]; simpl; intros r Hnd Hsub; [lia|].
  apply NoDup_cons in Hnd as [Hn Hnd].
  assert (n ∈ mkeys (reg r)) as Hin by set_solver.
  apply mhas_spec in Hin. unfold mhas in Hin. destruct (mget n (reg r)) as [b|] eqn:Hg; [|done].
  pose proof (length_mdel_has _ _ _ Hg) as Hlen.
  assert (length (reg (fold_left evictOne names (evictOne r n))) + length names =
          length (mdel n (reg r)))%nat; [|simpl in *; lia].
  apply IH; [done|]. intros x Hx. unfold evictOne. simpl.
  apply mhas_spec. unfold mhas. rewrite mget_mdel_ne by set_solver.
  assert (mhas x (reg r) = true) by (apply mhas_spec; set_solver). done.
Qed.

(** The names the eviction picks are names of cold breakers, each once. *)
Lemma evict_names now r :
  mwf (reg r) -> MAX_REGISTRY_SIZE <= msize (reg r) ->
  exists names m w,
    evictColdBreakersIfNeeded now r = fold_left evictOne names (mkRegistry m w) /\
    mkeys m = mkeys (reg r) /\ NoDup names /\
    (forall n, n ∈ names -> exists b, mget n (reg r) = Some b /\ coldBreaker b) /\
    ((exists n b, (n, b) ∈ reg r /\ coldBreaker b) -> names <> []).
Proof.
  intros Hwf Hmax. unfold evictColdBreakersIfNeeded.
  rewrite (proj2 (Z.ltb_ge _ _) Hmax).
  destruct (statuses now (reg r) (rworld r)) as [[m w] sts] eqn:Hst.
  destruct (statuses_spec _ _ _ _ _ _ Hst) as [Hk HF].
  set (cands := (fun ns : string * CircuitBreakerStatus =>
    (ns.1, numOr (st_lastFailureTime ns.2) 0)) <$> base.filter (fun ns => isCold ns.2 = true) sts).
  set (n := Z.to_nat (msize m - MAX_REGISTRY_SIZE + 1)).
  exists (fst <$> take n (sortOn snd cands)), m, w. split; [done|]. split; [done|].
  assert (Hsts : sts.*1 = mkeys (reg r)).
  { clear -HF. induction HF as [|[n' b'] [n2 st] ? ? [Hn _] _ IH]; [done|].
    simpl in Hn. subst n2. rewrite mkeys_cons, <- IH. done. }
  assert (Hc1 : cands.*1 = (base.filter (fun ns => isCold ns.2 = true) sts).*1).
  { unfold cands. rewrite <- list_fmap_compose. done. }
  assert (Hsub : sublist (fst <$> take n (sortOn snd cands)) (sortOn snd cands).*1).
  { apply fmap_sublist, sublist_take. }
  assert (Hperm : (sortOn snd cands).*1 ≡ₚ cands.*1) by (by rewrite sortOn_perm).
  split; [|split].
  - eapply sublist_NoDup; [|exact Hsub]. rewrite Hperm, Hc1.
    eapply sublist_NoDup; [|apply fmap_sublist, sublist_filter]. by rewrite Hsts.
  - intros x Hx. eapply elem_of_sublist in Hx; [|exact Hsub]. rewrite Hperm, Hc1 in Hx.
    apply list_elem_of_fmap in Hx as ([x' st] & -> & [Hcold Hin]%list_elem_of_filter).
    apply list_elem_of_lookup in Hin as [i Hi].
    destruct (Forall2_lookup_r _ _ _ _ _ HF Hi) as ([x2 b] & Hb & Hxx & Hiff). simpl in *. subst x2.
    exists b. split; [|by apply Hiff]. apply mget_elem; [done|]. by eapply list_elem_of_lookup_2.
  - intros (x & b & Hin & Hcold). apply list_elem_of_lookup in Hin as [i Hi].
    destruct (Forall2_lookup_l _ _ _ _ _ HF Hi) as ([x2 st] & Hst2 & Hxx & Hiff). simpl in *.
    assert (Hlen : length (sortOn snd cands) <> 0%nat).
    { rewrite (Permutation_length (sortOn_perm snd cands)). unfold cands. rewrite length_fmap.
      intros H0%length_zero_iff_nil.
      assert ((x2, st) ∈ base.filter (fun ns => isCold ns.2 = true) sts) as Habs.
      { apply list_elem_of_filter. split; [by apply Hiff|]. by eapply list_elem_of_lookup_2. }
      rewrite H0 in Habs. set_solver. }
    assert (n <> 0%nat).
    { unfold n. assert (msize m = msize (reg r)) as ->; [|lia].
      unfold msize. apply (f_equal length) in Hk. unfold mkeys in Hk. rewrite !length_fmap in Hk. lia. }
    destruct (sortOn snd cands), n; simpl in *; done.
Qed.

(** Eviction is safe: whatever the registry holds, making room removes
    only breakers that are CLOSED with no failure counted, and one such breaker
    is enough to keep the registry within its cap when a new one is created. *)
Theorem eviction_safe now name o r :
  mwf (reg r) ->
  (forall n b, mget n (reg r) = Some b ->
     mget n (reg (evictColdBreakersIfNeeded now r)) = None -> coldBreaker b) /\
  (msize (reg r) <= MAX_REGISTRY_SIZE ->
   (exists n b, (n, b) ∈ reg r /\ coldBreaker b) ->
   msize (reg (getCircuitBreaker now name o r)) <= MAX_REGISTRY_SIZE).
Proof.
  intros Hwf. split.
  - intros n b Hg Hnone. destruct (Z.ltb_spec (msize (reg r)) MAX_REGISTRY_SIZE) as [Hlt|Hge].
    { unfold evictColdBreakersIfNeeded in Hnone.
      rewrite (proj2 (Z.ltb_lt _ _) Hlt) in Hnone. congruence. }
    destruct (evict_names now r Hwf Hge) as (names & m & w & He & Hk & _ & Hcold & _).
    destruct (decide (n ∈ names)) as [Hin|Hni].
    + destruct (Hcold n Hin) as (b' & Hg' & Hc). by simplify_eq.
    + exfalso. rewrite He, mget_evictOne_ne in Hnone by done. apply mget_None in Hnone.
      simpl in Hnone. rewrite Hk in Hnone. apply Hnone, mhas_spec. unfold mhas. by rewrite Hg.
  - intros Hle Hex.
    assert (Hins : forall r1 : Registry E,
      length (reg (match o, mget name (reg r1) with
                   | Some o', Some b =>
                       let c := applyOptions o' (mkCell b (rworld r1)) in
                       mkRegistry (mset name (brk c) (reg r1)) (wld c)
                   | _, _ => r1 end)) = length (reg r1)).
    { intros r1. destruct o as [o'|]; [|done]. destruct (mget name (reg r1)) as [b|] eqn:Hg; [|done].
      simpl. rewrite length_mset. unfold mhas. by rewrite Hg. }
    unfold getCircuitBreaker, msize. rewrite Hins.
    destruct (mhas name (reg r)) eqn:Hh; [by unfold msize in Hle|].
    simpl. rewrite length_mset. unfold msize in *.
    destruct (Z.ltb_spec (msize (reg r)) MAX_REGISTRY_SIZE) as [Hlt|Hge].
    { unfold evictColdBreakersIfNeeded. rewrite (proj2 (Z.ltb_lt _ _) Hlt), Hh.
      unfold msize in Hlt. lia. }
    destruct (evict_names now r Hwf Hge) as (names & m & w & -> & Hk & Hnd & Hcold & Hne).
    assert (names ⊆ mkeys (reg (mkRegistry m w))).
    { simpl. rewrite Hk. intros x Hx. destruct (Hcold x Hx) as (b & Hg & _).
      apply mhas_spec. unfold mhas. by rewrite Hg. }
    pose proof (length_evictOne (mkRegistry m w) names Hnd H) as Hl. simpl in Hl.
    assert (length m = length (reg r)) as Hm.
    { apply (f_equal length) in Hk. unfold mkeys in Hk. by rewrite !length_fmap in Hk. }
    specialize (Hne Hex). destruct names as [|x names]; [done|]. simpl in *.
    case_if; clear -Hl Hm Hle; lia.
Qed.
End RegistryProperties.

(** ** The properties at concrete inputs *)

Definition exOptions : CircuitBreakerOptions unit := noOptions.
Definition exHalfOpenRow : Saved := mkSaved "HALF_OPEN" 5 (Some 1000) None None None.
Definition exWorld : World := mkWorld [("p"%string, exHalfOpenRow)] true [].
Definition exEmptyWorld : World := mkWorld [] true [].
Definition exFresh : Cell unit := mkCell (newCircuitBreaker "q" exOptions exEmptyWorld) exEmptyWorld.
Definition exOpen : Cell unit := failAt exFresh [1; 2; 3; 4; 5].

Lemma enter_reach {E} (s : Sys (E := E)) now g :
  (executeEnter now (cell s)).2 = Entered g ->
  reach sysStep s [LEnter now] (mkSys (executeEnter now (cell s)).1 (inflight s ++ [g])).
Proof.
  intros He. apply (reach_step sysStep s s [] (LEnter now)); [apply reach_refl|].
  apply step_enter. destruct (executeEnter now (cell s)); simpl in *; by rewrite He.
Qed.

Definition exStart : Sys := initialSys "p" exOptions exWorld.
Definition exProbing : Sys :=
  mkSys (executeEnter 2000 (cell exStart)).1 (inflight exStart ++ [Some 0]).

Lemma exProbing_reach : reach sysStep exStart [LEnter 2000] exProbing.
Proof. unfold exProbing. apply enter_reach. vm_compute. reflexivity. Qed.

Lemma halfOpen_probe_bound_witness : Z.of_nat (length (currentProbes exProbing)) <= 1.
Proof.
  apply (halfOpen_probe_bound "p" exOptions exWorld [LEnter 2000] exProbing);
    [vm_compute; discriminate|exact exProbing_reach|vm_compute; reflexivity].
Defined.

Lemma breaker_recovers_witness :
  exists T, forall now, T <= now -> (canExecute now (cell exProbing)).2 = true.
Proof.
  apply (breaker_recovers "p" exOptions exWorld [LEnter 2000] exProbing);
    [vm_compute; reflexivity|exact exProbing_reach].
Defined.

Lemma executeEnter_open_witness :
  executeEnter 10 exOpen = (exOpen, OpenError OPEN 29995).
Proof.
  apply (executeEnter_open 10 exOpen 5); [reflexivity|reflexivity|lia|vm_compute; reflexivity|].
  vm_compute. reflexivity.
Defined.

Lemma effectiveCooldown_bounds_witness :
  cooldownBase (brk exOpen) <= effectiveCooldown (brk exOpen)
    <= cooldownBase (brk exOpen) * 16.
Proof.
  apply (effectiveCooldown_bounds (brk exOpen) 7); vm_compute; discriminate.
Defined.

Lemma consecutive_failures_open_witness : state (brk (failAt exFresh [10; 20; 30])) = DEGRADED.
Proof.
  apply (consecutive_failures_open exFresh [10; 20; 30]);
    [reflexivity|reflexivity|vm_compute; split; [reflexivity|discriminate]].
Defined.

Lemma restart_restores_witness :
  sameAfterRestart (brk (onSuccess 9 exOpen))
    (newCircuitBreaker "q" exOptions (wld (onSuccess 9 exOpen))).
Proof.
  apply (restart_restores 9 None exOpen exOptions (onSuccess 9 exOpen));
    [reflexivity|left; reflexivity|reflexivity].
Defined.

Definition exKindOptions : CircuitBreakerOptions unit :=
  mkOptions None None None false None None None
    (Some [(rate_limit, mkFailureKindThresholds (Some 2) None false)]) None None None.
Definition exKind : Cell unit :=
  mkCell (newCircuitBreaker "k" exKindOptions exEmptyWorld) exEmptyWorld.
Definition exKindOnce : Cell unit := onSuccess 2 (onFailure 1 (Some rate_limit) exKind).

Lemma kind_threshold_open_not_persisted_witness :
  let c' := onFailure 3 (Some rate_limit) exKindOnce in
  state (brk c') = OPEN /\ w_rows (wld c') = w_rows (wld exKindOnce) /\
  openCycleCount (brk c') = openCycleCount (brk exKindOnce).
Proof.
  apply (kind_threshold_open_not_persisted 3 rate_limit exKindOnce). reflexivity.
Defined.

Definition exRegistry : Registry unit :=
  getCircuitBreaker 1 "q" None (mkRegistry [] exEmptyWorld).

Lemma eviction_safe_witness :
  msize (reg (getCircuitBreaker 2 "r" None exRegistry)) <= MAX_REGISTRY_SIZE.
Proof.
  apply (eviction_safe 2 "r" None exRegistry).
  - vm_compute. repeat constructor. set_solver.
  - vm_compute. discriminate.
  - eexists "q"%string, _. split; [left|]. split; reflexivity.
Defined.

(** A breaker that is CLOSED with no failure counted is not the same as a new
    one, against what the comment on the eviction says: the per-kind counts
    survive successes, so the next failure can open it at once. *)
Theorem cold_breaker_is_not_fresh :
  coldBreaker (brk exKindOnce) /\
  state (brk (onFailure 3 (Some rate_limit) exKindOnce)) = OPEN /\
  state (brk (onFailure 3 (Some rate_limit) exKind)) = CLOSED.
Proof. vm_compute. auto. Qed.
