(* ===== verification/AccountSemaphore.v ===== *)
(** * Account semaphore: [open-sse/services/accountSemaphore.ts]

    Hierarchical in-process admission: a request takes one slot of every gate it
    names (global, provider, account) or none, waiting requests form one FIFO
    over all gates.  The module state is the map [gates], the set
    [queuedRequests] and the two heaps the closures of the code share with their
    callers: the requests (their [settled] flag, timer and abort listener) and
    the release functions handed out, called leases here.  Each exported
    function, timer and listener is a step of [semStep]. *)
From S2P Require Import Prelude JsMap.
From Stdlib Require Import QArith_base.
#[local] Open Scope Z_scope.

(** ** Data *)

Record AccountGate := mkGate {
  running : Z;
  maxConcurrency : Z;
  queue : list nat;
  blockedUntil : option Z;
  cleanupTimer : bool;
}.

Record AcquireRequest := mkRequest {
  keys : list string;
  timer : bool;
  abortListener : bool;
  settled : bool;
}.

(** A release function: the keys it closes over and its [released] flag. *)
Record Lease := mkLease { leaseKeys : list string; released : bool }.

Inductive SemaphoreError :=
| SemError (code message : string)
| AbortError.

Inductive Settlement := Granted | RejectedWith (e : SemaphoreError).

Record State := mkState {
  gates : jsmap string AccountGate;
  queuedRequests : list nat;
  requests : jsmap nat AcquireRequest;
  leases : jsmap nat Lease;
  settlements : list (nat * Settlement);
  strayTimers : list string;
  nextId : nat;
}.

#[export] Instance AccountGate_eta : Eta AccountGate := fun x =>
  mkGate (running x) (maxConcurrency x) (queue x) (blockedUntil x) (cleanupTimer x).
#[export] Instance AcquireRequest_eta : Eta AcquireRequest := fun x =>
  mkRequest (keys x) (timer x) (abortListener x) (settled x).
#[export] Instance Lease_eta : Eta Lease := fun x => mkLease (leaseKeys x) (released x).
#[export] Instance State_eta : Eta State := fun x =>
  mkState (gates x) (queuedRequests x) (requests x) (leases x) (settlements x)
    (strayTimers x) (nextId x).

Definition emptyState : State := mkState [] [] [] [] [] [] 0%nat.

Definition DEFAULT_TIMEOUT_MS : Z := 30000.
Definition DEFAULT_MAX_QUEUE_SIZE : Z := 20.

#[local] Open Scope Z_scope.

Definition buildAccountSemaphoreKey (provider accountKey : string) : string :=
  provider +:+ ":" +:+ accountKey.

Definition isBypassed (m : option jsnum) : bool :=
  match m with
  | None | Some NonFinite => true
  | Some (Fin q) => Qle_bool q 0
  end.

(** ** Gates *)

(** [const gate = gates.get(k); if (gate) ...]: a mutation of a present gate. *)
Definition updGate (k : string) (f : AccountGate -> AccountGate) (s : State) : State :=
  match mget k (gates s) with
  | Some g => s <| gates := mset k (f g) (gates s) |>
  | None => s
  end.

Definition updGates (ks : list string) (f : AccountGate -> AccountGate) (s : State) : State :=
  foldl (fun s k => updGate k f s) s ks.

Definition ensureGate (k : string) (m : Z) (s : State) : State :=
  match mget k (gates s) with
  | Some g => s <| gates := mset k (g <| maxConcurrency := m |>) (gates s) |>
  | None => s <| gates := mset k (mkGate 0 m [] None false) (gates s) |>
  end.

(** [isBlocked] clears an expired block as a side effect. *)
Definition isBlocked (now : Z) (g : AccountGate) : AccountGate * bool :=
  if negb (truthyNum (blockedUntil g)) then (g, false)
  else if orElse (blockedUntil g) 0 <=? now then (g <| blockedUntil := None |>, false)
  else (g, true).

Definition clearCleanupTimer (g : AccountGate) : AccountGate := g <| cleanupTimer := false |>.

Definition cleanupGateIfIdle (now : Z) (k : string) (s : State) : State :=
  match mget k (gates s) with
  | None => s
  | Some g =>
      if (running g >? 0) || negb (Z.of_nat (length (queue g)) =? 0) then s
      else
        let '(g, blocked) := isBlocked now g in
        let s := s <| gates := mset k g (gates s) |> in
        if blocked then s else s <| gates := mdel k (gates s) |>
  end.

Definition scheduleCleanup (g : AccountGate) : AccountGate := g <| cleanupTimer := true |>.

Definition scheduleIfIdle (g : AccountGate) : AccountGate :=
  if (running g =? 0) && (Z.of_nat (length (queue g)) =? 0) then scheduleCleanup g else g.

(** ** Requests *)

Definition updRequest (id : nat) (f : AcquireRequest -> AcquireRequest) (s : State) : State :=
  match mget id (requests s) with
  | Some r => s <| requests := mset id (f r) (requests s) |>
  | None => s
  end.

Definition requestKeys (s : State) (id : nat) : list string :=
  match mget id (requests s) with Some r => keys r | None => [] end.

Definition isSettled (s : State) (id : nat) : bool :=
  match mget id (requests s) with Some r => settled r | None => true end.

Definition dequeue (id : nat) (g : AccountGate) : AccountGate :=
  match findIndex (Nat.eqb id) (queue g) with
  | Some i => g <| queue := removeAt i (queue g) |>
  | None => g
  end.

Definition removeRequest (id : nat) (s : State) : State :=
  let s := s <| queuedRequests := base.filter (fun i => i <> id) (queuedRequests s) |> in
  let s := updRequest id (fun r => r <| timer := false |> <| abortListener := false |>) s in
  updGates (requestKeys s id) (fun g => scheduleIfIdle (dequeue id g)) s.

(** [keys.every(...)] over a test that may clear an expired block. *)
Fixpoint everyKey (test : string -> State -> State * bool) (ks : list string) (s : State)
    : State * bool :=
  match ks with
  | [] => (s, true)
  | k :: ks => let '(s, ok) := test k s in if ok then everyKey test ks s else (s, false)
  end.

Definition blockedAt (now : Z) (k : string) (g : AccountGate) (s : State) : State * bool :=
  let '(g, blocked) := isBlocked now g in (s <| gates := mset k g (gates s) |>, blocked).

Definition isHead (id : nat) (g : AccountGate) : bool :=
  match queue g with id' :: _ => Nat.eqb id id' | [] => false end.

Definition canAcquire (now : Z) (id : nat) (s : State) : State * bool :=
  everyKey (fun k s =>
    match mget k (gates s) with
    | None => (s, false)
    | Some g =>
        let '(s, blocked) := blockedAt now k g s in
        if blocked then (s, false)
        else (s, (running g <? maxConcurrency g) && isHead id g)
    end) (requestKeys s id) s.

Definition settle (id : nat) (o : Settlement) (s : State) : State :=
  s <| settlements := settlements s ++ [(id, o)] |>.

Definition takeSlots (ks : list string) (s : State) : State :=
  updGates ks (fun g => g <| running := running g + 1 |>) s.

(** [request.resolve(createCompositeReleaseFn(request.keys))]. *)
Definition handOut (id : nat) (ks : list string) (s : State) : State :=
  settle id Granted (s <| leases := mset id (mkLease ks false) (leases s) |>).

Definition grantRequest (id : nat) (s : State) : State :=
  let s := updRequest id (fun r => r <| settled := true |>) s in
  let s := removeRequest id s in
  let s := takeSlots (requestKeys s id) s in
  handOut id (requestKeys s id) s.

(** ** Draining *)

(** One pass over [queuedRequests]: the first admissible request is granted and
    the loop breaks. *)
Fixpoint drainPass (now : Z) (ids : list nat) (s : State) : State * bool :=
  match ids with
  | [] => (s, false)
  | id :: ids =>
      if isSettled s id then drainPass now ids s
      else
        let '(s, ok) := canAcquire now id s in
        if ok then (grantRequest id s, true) else drainPass now ids s
  end.

Fixpoint drainLoop (fuel : nat) (now : Z) (s : State) : State :=
  match fuel with
  | O => s
  | S fuel =>
      let '(s, progressed) := drainPass now (queuedRequests s) s in
      if progressed then drainLoop fuel now s else s
  end.

(** Every pass that makes progress takes one request off the queue. *)
Definition drainQueues (now : Z) (s : State) : State :=
  drainLoop (S (length (queuedRequests s))) now s.

(** The release function of lease [id]. *)
Definition releaseLease (now : Z) (id : nat) (s : State) : State :=
  match mget id (leases s) with
  | None => s
  | Some l =>
      if released l then s
      else
        let s := s <| leases := mset id (l <| released := true |>) (leases s) |> in
        let s := updGates (leaseKeys l)
                   (fun g => if running g >? 0 then g <| running := running g - 1 |> else g) s in
        let s := drainQueues now s in
        updGates (leaseKeys l) scheduleIfIdle s
  end.

(** ** Acquiring *)

Record SemaphoreRequirement := mkRequirement { rkey : string; rmax : option jsnum }.

(** The gates a request needs, each with its truncated limit; a key named twice
    keeps the smaller limit. *)
Definition enabledOf (reqs : list SemaphoreRequirement) : jsmap string Z :=
  foldl (fun m r =>
    match rmax r with
    | Some (Fin q) =>
        if isBypassed (rmax r) then m
        else
          let limit := truncQ q in
          mset (rkey r) (Z.min (orElse (mget (rkey r) m) limit) limit) m
    | _ => m
    end) [] reqs.

Definition queueLength (s : State) (k : string) : Z :=
  match mget k (gates s) with Some g => Z.of_nat (length (queue g)) | None => 0 end.

Definition findQueueRejection (ks : list string) (maxQueueSize : Z) (failFast : bool)
    (s : State) : option SemaphoreError :=
  if failFast then
    Some (SemError "SEMAPHORE_QUEUE_FULL"
            ("Semaphore busy (fail-fast) for " +:+ orElse (head ks) "undefined"))
  else if maxQueueSize <=? 0 then None
  else
    match List.find (fun k => maxQueueSize <=? queueLength s k) ks with
    | Some k =>
        Some (SemError "SEMAPHORE_QUEUE_FULL"
                ("Semaphore queue full (" +:+ pretty maxQueueSize +:+ ") for " +:+ k))
    | None => None
    end.

Definition canAcquireImmediately (now : Z) (ks : list string) (s : State) : State * bool :=
  everyKey (fun k s =>
    match mget k (gates s) with
    | None => (s, false)
    | Some g =>
        if (Z.of_nat (length (queue g)) =? 0) && (running g <? maxConcurrency g) then
          let '(s, blocked) := blockedAt now k g s in (s, negb blocked)
        else (s, false)
    end) ks s.

(** What the call returns: a promise already settled, or a pending one. *)
Inductive AcquireResult :=
| NoopRelease | Leased (id : nat) | AcquireRejected (e : SemaphoreError) | Waiting (id : nat).

Record AcquireManyOptions := mkAcquireOptions {
  ao_signal : option bool;  (* an AbortSignal and whether it is aborted *)
  ao_maxQueueSize : Z;
  ao_failFast : bool;
}.

Definition defaultAcquireOptions : AcquireManyOptions :=
  mkAcquireOptions None DEFAULT_MAX_QUEUE_SIZE false.

Definition ensureGates (enabled : jsmap string Z) (ks : list string) (s : State) : State :=
  foldl (fun s k => updGate k clearCleanupTimer (ensureGate k (orElse (mget k enabled) 0) s)) s ks.

Definition enqueueRequest (id : nat) (ks : list string) (listen : bool) (s : State) : State :=
  let s := s <| requests := mset id (mkRequest ks true listen false) (requests s) |> in
  let s := s <| queuedRequests := queuedRequests s ++ [id] |> in
  updGates ks (fun g => g <| queue := queue g ++ [id] |>) s.

Definition acquireMany (now : Z) (reqs : list SemaphoreRequirement) (o : AcquireManyOptions)
    (s : State) : State * AcquireResult :=
  let enabled := enabledOf reqs in
  if msize enabled =? 0 then (s, NoopRelease)
  else
    match ao_signal o with
    | Some true => (s, AcquireRejected AbortError)
    | _ =>
        let ks := sortStrings (mkeys enabled) in
        let s := ensureGates enabled ks s in
        let '(s, now_) := canAcquireImmediately now ks s in
        let id := nextId s in
        if now_ then
          let s := s <| nextId := S id |> in
          (handOut id ks (takeSlots ks s), Leased id)
        else
          match findQueueRejection ks (ao_maxQueueSize o) (ao_failFast o) s with
          | Some e => (s, AcquireRejected e)
          | None =>
              let s := s <| nextId := S id |> in
              let listen := match ao_signal o with Some _ => true | None => false end in
              (drainQueues now (enqueueRequest id ks listen s), Waiting id)
          end
    end.

Definition acquire (now : Z) (key : string) (m : option jsnum) (o : AcquireManyOptions)
    (s : State) : State * AcquireResult :=
  acquireMany now [mkRequirement key m] o s.

(** The timer and the abort listener of a waiting request. *)
Definition expireRequest (now : Z) (id : nat) (e : SemaphoreError) (s : State) : State :=
  if isSettled s id then s
  else
    let s := updRequest id (fun r => r <| settled := true |>) s in
    let s := removeRequest id s in
    drainQueues now (settle id (RejectedWith e) s).

Definition timeoutError (timeoutMs : Z) (ks : list string) : SemaphoreError :=
  SemError "SEMAPHORE_TIMEOUT"
    ("Semaphore timeout after " +:+ pretty timeoutMs +:+ "ms for " +:+ String.concat "," ks).

(** ** Administration *)

(** The argument of [markBlocked]: a date or a date string, already in
    milliseconds ([None] for [NaN]), or a delay ([None] when not finite). *)
Inductive BlockUntil := UntilDate (ms : option Z) | UntilDelay (ms : option Z).

Definition untilMs (now : Z) (u : BlockUntil) : option Z :=
  match u with
  | UntilDate ms => ms
  | UntilDelay ms => (fun d => now + Z.max 0 d) <$> ms
  end.

Definition markBlocked (now : Z) (k : string) (u : BlockUntil) (s : State) : State :=
  match untilMs now u with
  | None => s
  | Some t =>
      if t <=? now then s
      else
        let m := match mget k (gates s) with Some g => maxConcurrency g | None => 1 end in
        updGate k (fun g => clearCleanupTimer g <| blockedUntil := Some t |>) (ensureGate k m s)
  end.

Definition unblock (now : Z) (k : string) (s : State) : State :=
  match mget k (gates s) with
  | None => s
  | Some _ =>
      let s := updGate k (fun g => g <| blockedUntil := None |>) s in
      cleanupGateIfIdle now k (drainQueues now s)
  end.

Definition statsOf (s : State) : list (string * (Z * Z * Z * option Z)) :=
  (fun '(k, g) => (k, (running g, Z.of_nat (length (queue g)), maxConcurrency g,
                       if truthyNum (blockedUntil g) then blockedUntil g else None)))
  <$> gates s.

Definition isAccountSemaphoreFull (now : Z) (provider accountKey : string) (m : option jsnum)
    (s : State) : State * bool :=
  match m with
  | Some (Fin cap) =>
      if isBypassed m then (s, false)
      else
        let k := buildAccountSemaphoreKey provider accountKey in
        match mget k (gates s) with
        | None => (s, false)
        | Some g =>
            if Qle_bool cap (inject_Z (running g)) then (s, true) else blockedAt now k g s
        end
  | _ => (s, false)
  end.

Definition rejectAll (ids : list nat) (e : SemaphoreError) (s : State) : State :=
  foldl (fun s id => settle id (RejectedWith e) s) s ids.

(** Settle and unqueue every request of a list that is not settled yet. *)
Fixpoint cancelAll (ids : list nat) (s : State) : State * list nat :=
  match ids with
  | [] => (s, [])
  | id :: ids =>
      if isSettled s id then cancelAll ids s
      else
        let s := updRequest id (fun r => r <| settled := true |>) s in
        let '(s, rejections) := cancelAll ids (removeRequest id s) in (s, id :: rejections)
  end.

Definition reset (now : Z) (k : string) (s : State) : State :=
  match mget k (gates s) with
  | None => s
  | Some g =>
      let s := updGate k clearCleanupTimer s in
      let '(s, rejections) := cancelAll (queue g) s in
      let stray := match mget k (gates s) with
                   | Some g => if cleanupTimer g then [k] else []
                   | None => [] end in
      let s := s <| gates := mdel k (gates s) |> <| strayTimers := strayTimers s ++ stray |> in
      let e := SemError "SEMAPHORE_RESET" ("Semaphore reset for " +:+ k) in
      drainQueues now (rejectAll rejections e s)
  end.

Definition resetAll (s : State) : State :=
  let '(s, rejections) := cancelAll (queuedRequests s) s in
  let s := s <| gates := [] |> <| queuedRequests := [] |> in
  rejectAll rejections (SemError "SEMAPHORE_RESET" "Semaphore reset") s.

(** A cleanup timer fires. *)
Definition cleanupFires (now : Z) (k : string) (s : State) : State :=
  cleanupGateIfIdle now k (updGate k clearCleanupTimer s).

(** ** Steps of the module *)

Inductive Label :=
| LAcquire (now : Z) (reqs : list SemaphoreRequirement) (o : AcquireManyOptions)
| LRelease (now : Z) (id : nat)
| LTimeout (now timeoutMs : Z) (id : nat)
| LAbort (now : Z) (id : nat)
| LMarkBlocked (now : Z) (k : string) (u : BlockUntil)
| LUnblock (now : Z) (k : string)
| LFullQuery (now : Z) (provider accountKey : string) (m : option jsnum)
| LReset (now : Z) (k : string)
| LResetAll
| LCleanup (now : Z) (k : string)
| LStrayCleanup (now : Z) (k : string).

Inductive semStep : State -> Label -> State -> Prop :=
| sem_acquire s now reqs o :
    semStep s (LAcquire now reqs o) (acquireMany now reqs o s).1
| sem_release s now id : semStep s (LRelease now id) (releaseLease now id s)
| sem_timeout s now ms id r :
    mget id (requests s) = Some r -> timer r = true ->
    semStep s (LTimeout now ms id) (expireRequest now id (timeoutError ms (keys r)) s)
| sem_abort s now id r :
    mget id (requests s) = Some r -> abortListener r = true ->
    semStep s (LAbort now id) (expireRequest now id AbortError s)
| sem_block s now k u : semStep s (LMarkBlocked now k u) (markBlocked now k u s)
| sem_unblock s now k : semStep s (LUnblock now k) (unblock now k s)
| sem_full s now p a m :
    semStep s (LFullQuery now p a m) (isAccountSemaphoreFull now p a m s).1
| sem_reset s now k : semStep s (LReset now k) (reset now k s)
| sem_resetAll s : semStep s LResetAll (resetAll s)
| sem_cleanup s now k g :
    mget k (gates s) = Some g -> cleanupTimer g = true ->
    semStep s (LCleanup now k) (cleanupFires now k s)
| sem_stray s now k i :
    strayTimers s !! i = Some k ->
    semStep s (LStrayCleanup now k)
      (cleanupGateIfIdle now k (s <| strayTimers := removeAt i (strayTimers s) |>)).

Definition isResetLabel (l : Label) : bool :=
  match l with LReset _ _ | LResetAll => true | _ => false end.

(** A label that names no limit above [L k] for gate [k]. *)
Definition limitsBelow (L : string -> Z) (l : Label) : Prop :=
  match l with
  | LAcquire _ reqs _ => forall k m, mget k (enabledOf reqs) = Some m -> m <= L k
  | _ => True
  end.

(** Leases handed out and not released that hold a slot of [k]. *)
Definition holds (k : string) (l : Lease) : Z :=
  if negb (released l) && bool_decide (k ∈ leaseKeys l) then 1 else 0.

Definition heldBy (k : string) (s : State) : Z := sumZ (holds k <$> mvals (leases s)).

Definition runningAt (k : string) (s : State) : Z :=
  match mget k (gates s) with Some g => running g | None => 0 end.

(** Whether a queued request could be granted now. *)
Definition admissible (now : Z) (s : State) (id : nat) : bool :=
  forallb (fun k =>
    match mget k (gates s) with
    | None => false
    | Some g => negb (isBlocked now g).2 && ((running g <? maxConcurrency g) && isHead id g)
    end) (requestKeys s id).

(** ** Lemmas on gates *)

Section Gates.
Implicit Types (s : State) (k : string) (f : AccountGate -> AccountGate).

Lemma updGate_rest k f s : updGate k f s = s <| gates := gates (updGate k f s) |>.
Proof. unfold updGate. destruct (mget k (gates s)); by destruct s. Qed.

Lemma updGates_rest ks f s : updGates ks f s = s <| gates := gates (updGates ks f s) |>.
Proof.
  unfold updGates. revert s. induction ks as [|k ks IH]; intros s; simpl; [by destruct s|].
  rewrite IH at 1. rewrite updGate_rest at 1. done.
Qed.

Lemma mget_updGate k' k f s :
  mget k' (gates (updGate k f s)) =
  (if decide (k' = k) then f else fun g => g) <$> mget k' (gates s).
Proof.
  unfold updGate. destruct (mget k (gates s)) as [g|] eqn:E; simpl.
  - rewrite mget_mset. case_decide; subst; [by rewrite E|]. by destruct (mget k' (gates s)).
  - case_decide; subst; [by rewrite E|]. by destruct (mget k' (gates s)).
Qed.

Lemma mget_updGates k ks f s :
  NoDup ks ->
  mget k (gates (updGates ks f s)) =
  (if decide (k ∈ ks) then f else fun g => g) <$> mget k (gates s).
Proof.
  intros Hnd. unfold updGates. revert s.
  induction Hnd as [|k' ks Hni Hnd IH]; intros s; simpl.
  - by destruct (mget k (gates s)).
  - rewrite IH, mget_updGate, <- option_fmap_compose.
    destruct (mget k (gates s)) as [g|]; [|done]. simpl. f_equal.
    repeat case_decide; set_solver.
Qed.

Lemma mkeys_updGate k f s : mkeys (gates (updGate k f s)) = mkeys (gates s).
Proof.
  unfold updGate. destruct (mget k (gates s)) eqn:E; [|done]. simpl.
  rewrite mkeys_mset. unfold mhas. by rewrite E.
Qed.

Lemma mkeys_updGates ks f s : mkeys (gates (updGates ks f s)) = mkeys (gates s).
Proof.
  unfold updGates. revert s. induction ks as [|k ks IH]; intros s; simpl; [done|].
  by rewrite IH, mkeys_updGate.
Qed.

Lemma updRequest_rest id h s : updRequest id h s = s <| requests := requests (updRequest id h s) |>.
Proof. unfold updRequest. destruct (mget id (requests s)); by destruct s. Qed.

(** [updGates] and [updRequest] leave every other field alone. *)
Lemma updRequest_fields id h s :
  gates (updRequest id h s) = gates s /\ queuedRequests (updRequest id h s) = queuedRequests s /\
  leases (updRequest id h s) = leases s /\ settlements (updRequest id h s) = settlements s /\
  strayTimers (updRequest id h s) = strayTimers s /\ nextId (updRequest id h s) = nextId s.
Proof. by rewrite updRequest_rest. Qed.

Lemma mget_updRequest id id' h s :
  mget id' (requests (updRequest id h s)) =
  (if decide (id' = id) then h else fun r => r) <$> mget id' (requests s).
Proof.
  unfold updRequest. destruct (mget id (requests s)) as [g|] eqn:E; simpl.
  - rewrite mget_mset. case_decide; subst; [by rewrite E|]. by destruct (mget id' (requests s)).
  - case_decide; subst; [by rewrite E|]. by destruct (mget id' (requests s)).
Qed.

Lemma requestKeys_updRequest id id' h s :
  (forall r, keys (h r) = keys r) -> requestKeys (updRequest id h s) id' = requestKeys s id'.
Proof.
  intros Hh. unfold requestKeys. rewrite mget_updRequest.
  destruct (mget id' (requests s)); simpl; [|done]. case_decide; [apply Hh|done].
Qed.

Lemma isBlocked_gate now g : (isBlocked now g).1 = g \/ (isBlocked now g).1 = g <| blockedUntil := None |>.
Proof. unfold isBlocked. repeat case_if; auto. Qed.

Lemma isBlocked_idem now g : (isBlocked now (isBlocked now g).1).2 = (isBlocked now g).2.
Proof.
  unfold isBlocked at 2 3. destruct (negb (truthyNum (blockedUntil g))) eqn:E; simpl.
  - unfold isBlocked. by rewrite E.
  - destruct (orElse (blockedUntil g) 0 <=? now) eqn:E2; simpl; [done|].
    unfold isBlocked. by rewrite E, E2.
Qed.

Lemma dequeue_queue id g : NoDup (queue g) -> queue (dequeue id g) = base.filter (fun i => i <> id) (queue g).
Proof.
  intros Hnd. unfold dequeue. destruct (findIndex (Nat.eqb id) (queue g)) as [i|] eqn:E; simpl.
  - apply findIndex_Some in E as (x & Hx & ->%Nat.eqb_eq). by apply removeAt_filter.
  - apply findIndex_None in E. symmetry. apply filter_id.
    intros y Hy ->. rewrite Forall_forall in E. apply E in Hy.
    by rewrite Nat.eqb_refl in Hy.
Qed.
End Gates.

(** ** Tests that clear expired blocks *)

Section Clears.
Context (now : Z).
Implicit Types (s : State) (k : string).

(** All a test can see of a gate at [now]. *)
Definition gview (g : AccountGate) : Z * Z * list nat * bool :=
  (running g, maxConcurrency g, queue g, (isBlocked now g).2).

(** [s'] is [s] up to expired blocks. *)
Definition clears s s' : Prop :=
  s' = s <| gates := gates s' |> /\ mkeys (gates s') = mkeys (gates s) /\
  forall k, gview <$> mget k (gates s') = gview <$> mget k (gates s).

Lemma clears_refl s : clears s s.
Proof. split; [by destruct s|done]. Qed.

Lemma clears_trans s1 s2 s3 : clears s1 s2 -> clears s2 s3 -> clears s1 s3.
Proof.
  intros (H1 & H2 & H3) (G1 & G2 & G3). split; [|split].
  - rewrite G1. rewrite H1. done.
  - congruence.
  - intros k. by rewrite G3, H3.
Qed.

Lemma isBlocked_view g : gview (isBlocked now g).1 = gview g.
Proof.
  unfold gview. rewrite isBlocked_idem.
  destruct (isBlocked_gate now g) as [-> | ->]; done.
Qed.

Lemma blockedAt_clears k g s : mget k (gates s) = Some g -> clears s (blockedAt now k g s).1.
Proof.
  intros Hg. unfold blockedAt. pose proof (isBlocked_view g) as Hv.
  destruct (isBlocked now g) as [g' b]; simpl in *. split; [done|]. split; simpl.
  - rewrite mkeys_mset. unfold mhas. by rewrite Hg.
  - intros k'. rewrite mget_mset. case_decide; subst; [|done]. rewrite Hg. simpl. by rewrite Hv.
Qed.

Lemma blockedAt_snd k g s : (blockedAt now k g s).2 = (isBlocked now g).2.
Proof. unfold blockedAt. by destruct (isBlocked now g). Qed.

Lemma everyKey_spec test p ks s :
  (forall k s, clears s (test k s).1 /\ (test k s).2 = p k s) ->
  (forall k s s', clears s s' -> p k s' = p k s) ->
  clears s (everyKey test ks s).1 /\ (everyKey test ks s).2 = forallb (fun k => p k s) ks.
Proof.
  intros Ht Hp. revert s. induction ks as [|k ks IH]; intros s; simpl; [auto using clears_refl|].
  destruct (Ht k s) as [Hc Hr]. destruct (test k s) as [s1 ok]; simpl in *. rewrite <- Hr.
  destruct ok; simpl; [|done]. destruct (IH s1) as [Hc1 Hr1].
  split; [by eapply clears_trans|]. rewrite Hr1.
  clear -Hp Hc. induction ks as [|k' ks IH']; simpl; [done|]. by rewrite (Hp k' s s1 Hc), IH'.
Qed.

Lemma clears_mget s s' k :
  clears s s' ->
  match mget k (gates s), mget k (gates s') with
  | Some g, Some g' => gview g' = gview g
  | None, None => True
  | _, _ => False
  end.
Proof.
  intros (_ & _ & Hk). specialize (Hk k).
  destruct (mget k (gates s)), (mget k (gates s')); cbn [fmap option_fmap option_map] in Hk; congruence || done.
Qed.

Ltac view_case s s' k :=
  pose proof (clears_mget s s' k) as Hv; destruct (mget k (gates s)) as [g|] eqn:?,
    (mget k (gates s')) as [g'|] eqn:?; specialize (Hv ltac:(eassumption)); try done;
  unfold gview in Hv; injection Hv as Hr Hm Hq Hb.

Lemma canAcquire_spec id s :
  clears s (canAcquire now id s).1 /\ (canAcquire now id s).2 = admissible now s id.
Proof.
  apply (everyKey_spec _ (fun k s =>
    match mget k (gates s) with
    | None => false
    | Some g => negb (isBlocked now g).2 && ((running g <? maxConcurrency g) && isHead id g)
    end)).
  - intros k s1. destruct (mget k (gates s1)) as [g|] eqn:Hg; [|auto using clears_refl].
    pose proof (blockedAt_clears k g s1 Hg) as Hc. pose proof (blockedAt_snd k g s1) as Hb.
    destruct (blockedAt now k g s1) as [s2 []]; simpl in *; by rewrite <- Hb.
  - intros k s1 s2 Hc. view_case s1 s2 k. unfold isHead. by rewrite Hr, Hm, Hq, Hb.
Qed.

Lemma canAcquireImmediately_spec ks s :
  clears s (canAcquireImmediately now ks s).1 /\
  (canAcquireImmediately now ks s).2 =
  forallb (fun k => match mget k (gates s) with
    | None => false
    | Some g => (Z.of_nat (length (queue g)) =? 0) && (running g <? maxConcurrency g)
                && negb (isBlocked now g).2 end) ks.
Proof.
  apply (everyKey_spec _ (fun k s => match mget k (gates s) with
    | None => false
    | Some g => (Z.of_nat (length (queue g)) =? 0) && (running g <? maxConcurrency g)
                && negb (isBlocked now g).2 end)).
  - intros k s1. destruct (mget k (gates s1)) as [g|] eqn:Hg; [|auto using clears_refl].
    case_if; simpl; [|auto using clears_refl].
    pose proof (blockedAt_clears k g s1 Hg) as Hc. pose proof (blockedAt_snd k g s1) as Hb.
    destruct (blockedAt now k g s1) as [s2 []]; simpl in *; by rewrite <- Hb.
  - intros k s1 s2 Hc. view_case s1 s2 k. by rewrite Hr, Hm, Hq, Hb.
Qed.

Lemma admissible_clears s s' id : clears s s' -> admissible now s' id = admissible now s id.
Proof.
  intros Hc. unfold admissible, requestKeys. destruct (Hc) as (He & _). rewrite He. simpl.
  assert (Hk : requests s' = requests s) by (rewrite He; done).
  generalize (match mget id (requests s) with Some r => keys r | None => [] end) as ks.
  induction ks as [|k ks IH]; simpl; [done|]. rewrite IH. f_equal.
  view_case s s' k. unfold isHead. by rewrite Hr, Hm, Hq, Hb.
Qed.

Lemma drainPass_spec ids s :
  match drainPass now ids s with
  | (s', false) => clears s s' /\ forall id, id ∈ ids -> isSettled s id = false -> admissible now s id = false
  | (s', true) => exists s1 id l1 l2,
      ids = l1 ++ id :: l2 /\ clears s s1 /\ s' = grantRequest id s1 /\
      isSettled s id = false /\ admissible now s id = true /\
      forall i, i ∈ l1 -> isSettled s i = false -> admissible now s i = false
  end.
Proof.
  revert s. induction ids as [|id ids IH]; intros s; simpl.
  - split; [apply clears_refl|]. intros i Hi. by apply elem_of_nil in Hi.
  - destruct (isSettled s id) eqn:Hs.
    + specialize (IH s). destruct (drainPass now ids s) as [s' []].
      * destruct IH as (s1 & i & l1 & l2 & -> & Hc & He & Hi & Ha & Hn).
        exists s1, i, (id :: l1), l2. split_and!; try done.
        intros j [->|Hj]%elem_of_cons; [congruence|auto].
      * destruct IH as [Hc Hn]. split; [done|].
        intros j [->|Hj]%elem_of_cons; [congruence|auto].
    + destruct (canAcquire_spec id s) as [Hc Ha].
      destruct (canAcquire now id s) as [s1 ok]; simpl in *. subst ok.
      destruct (admissible now s id) eqn:Had.
      * exists s1, id, [], ids. split_and!; try done. intros j Hj. by apply elem_of_nil in Hj.
      * specialize (IH s1).
        assert (Hset : forall i, isSettled s1 i = isSettled s i).
        { intros i. destruct Hc as (He & _). rewrite He. done. }
        destruct (drainPass now ids s1) as [s' []].
        -- destruct IH as (s2 & i & l1 & l2 & -> & Hc2 & He & Hi & Ha & Hn).
           exists s2, i, (id :: l1), l2. rewrite Hset in Hi. rewrite (admissible_clears s s1) in Ha by done.
           split_and!; try done; [by eapply clears_trans|].
           intros j [->|Hj]%elem_of_cons ?; [done|].
           rewrite <- (admissible_clears s s1) by done. apply Hn; [done|by rewrite Hset].
        -- destruct IH as [Hc2 Hn]. split; [by eapply clears_trans|].
           intros j [->|Hj]%elem_of_cons ?; [done|].
           rewrite <- (admissible_clears s s1) by done. apply Hn; [done|by rewrite Hset].
Qed.
End Clears.

(** ** The queues: one FIFO, seen through every gate *)

Record Inv (s : State) : Prop := {
  inv_wf : mwf (gates s);
  inv_nodup : NoDup (queuedRequests s);
  inv_request : forall id, id ∈ queuedRequests s ->
    isSettled s id = false /\ NoDup (requestKeys s id) /\ (id < nextId s)%nat;
  inv_gate : forall id k, id ∈ queuedRequests s -> k ∈ requestKeys s id ->
    is_Some (mget k (gates s));
  inv_queue : forall k g, mget k (gates s) = Some g ->
    queue g = base.filter (fun id => k ∈ requestKeys s id) (queuedRequests s);
  inv_unsettled : forall id, isSettled s id = false -> id ∈ queuedRequests s;
  inv_requests_fresh : forall id, is_Some (mget id (requests s)) -> (id < nextId s)%nat;
  inv_settled : forall id, id ∈ (settlements s).*1 ->
    (id < nextId s)%nat /\ id ∉ queuedRequests s;
  inv_once : NoDup (settlements s).*1;
  inv_leases : forall id l, mget id (leases s) = Some l ->
    id ∈ (settlements s).*1 /\ NoDup (leaseKeys l);
}.

Section Invariant.
Implicit Types (s : State) (k : string).

Lemma Inv_empty : Inv emptyState.
Proof. split; simpl; try (intros; set_solver); try apply NoDup_nil_2; intros; done. Qed.

Lemma Inv_gates s s' :
  Inv s -> s' = s <| gates := gates s' |> -> mwf (gates s') ->
  (forall k, queue <$> mget k (gates s') = queue <$> mget k (gates s)) -> Inv s'.
Proof.
  intros I He Hwf Hq. destruct s as [gs qs rs ls ss st n], s' as [gs' qs' rs' ls' ss' st' n'].
  unfold set_field in He. simpl in *. injection He as -> -> -> -> -> ->.
  destruct I; split; try done; simpl in *.
  - intros id k Hid Hk. destruct (inv_gate0 id k Hid Hk) as [g Hg].
    specialize (Hq k). rewrite Hg in Hq. destruct (mget k gs'); [eauto|done].
  - intros k g Hg. specialize (Hq k). rewrite Hg in Hq.
    destruct (mget k gs) as [g0|] eqn:Hg0; simpl in Hq; [|done].
    injection Hq as ->. by apply inv_queue0.
Qed.

Lemma Inv_clears now s s' : Inv s -> clears now s s' -> Inv s'.
Proof.
  intros I Hc. pose proof Hc as (He & Hk & _). apply (Inv_gates s); auto.
  - unfold mwf. rewrite Hk. apply I.
  - intros k. pose proof (clears_mget now s s' k Hc).
    destruct (mget k (gates s)), (mget k (gates s')); try done. simpl. unfold gview in *. congruence.
Qed.

Lemma Inv_updGates ks f s :
  NoDup ks -> (forall g, queue (f g) = queue g) -> Inv s -> Inv (updGates ks f s).
Proof.
  intros Hnd Hf I. apply (Inv_gates s); [done|apply updGates_rest| |].
  - unfold mwf. rewrite mkeys_updGates. apply I.
  - intros k. rewrite mget_updGates by done.
    destruct (mget k (gates s)); simpl; [|done]. case_decide; by rewrite ?Hf.
Qed.

Lemma Inv_updGate k f s : (forall g, queue (f g) = queue g) -> Inv s -> Inv (updGate k f s).
Proof. apply (Inv_updGates [k]). apply NoDup_singleton. Qed.

(** Settling a queued request and taking it off every queue. *)
Definition unqueue (id : nat) (s : State) : State :=
  removeRequest id (updRequest id (fun r => r <| settled := true |>) s).

Lemma unqueue_eq id s :
  let s1 := updRequest id (fun r => r <| timer := false |> <| abortListener := false |>)
     (updRequest id (fun r => r <| settled := true |>)
        (s <| queuedRequests := base.filter (fun i => i <> id) (queuedRequests s) |>)) in
  unqueue id s = updGates (requestKeys s id) (fun g => scheduleIfIdle (dequeue id g)) s1.
Proof.
  unfold unqueue, removeRequest. simpl.
  rewrite (updRequest_rest id (fun r => r <| settled := true |>)
    (s <| queuedRequests := base.filter (λ i, i ≠ id) (queuedRequests s) |>)).
  rewrite (updRequest_rest id (fun r => r <| settled := true |>) s).
  rewrite requestKeys_updRequest by done.
  assert (requests (updRequest id (fun r => r <| settled := true |>)
    (s <| queuedRequests := base.filter (λ i, i ≠ id) (queuedRequests s) |>)) =
    requests (updRequest id (fun r => r <| settled := true |>) s)) as ->.
  { unfold updRequest. simpl. by destruct (mget id (requests s)). }
  f_equal. rewrite <- (requestKeys_updRequest id id (fun r => r <| settled := true |>) s) by done.
  done.
Qed.

Record unqueued (id : nat) (s s' : State) : Prop := {
  uq_queued : queuedRequests s' = base.filter (fun i => i <> id) (queuedRequests s);
  uq_keys : forall i, requestKeys s' i = requestKeys s i;
  uq_settled : forall i, isSettled s' i = if decide (i = id) then true else isSettled s i;
  uq_some : forall i, is_Some (mget i (requests s')) -> is_Some (mget i (requests s));
  uq_gates : mkeys (gates s') = mkeys (gates s);
  uq_gate : forall k, mget k (gates s') =
    (if decide (k ∈ requestKeys s id) then fun g => scheduleIfIdle (dequeue id g) else fun g => g)
    <$> mget k (gates s);
  uq_leases : leases s' = leases s;
  uq_settlements : settlements s' = settlements s;
  uq_next : nextId s' = nextId s;
}.

Lemma unqueue_spec id s : NoDup (requestKeys s id) -> unqueued id s (unqueue id s).
Proof.
  intros Hnd. rewrite unqueue_eq. simpl.
  rewrite updGates_rest. set (gs := gates (updGates _ _ _)).
  match goal with |- unqueued _ _ (set_field _ (updRequest _ ?h2 (updRequest _ ?h1 ?s0))) =>
    destruct (updRequest_fields id h1 s0) as (Hg1 & Hq1 & Hl1 & Ht1 & _ & Hn1);
    destruct (updRequest_fields id h2 (updRequest id h1 s0)) as (Hg2 & Hq2 & Hl2 & Ht2 & _ & Hn2)
  end.
  split; try done.
  - simpl. by rewrite Hq2, Hq1.
  - intros i. unfold requestKeys. simpl. rewrite !mget_updRequest. simpl.
    destruct (mget i (requests s)); simpl; [|done]. by repeat case_decide.
  - intros i. unfold isSettled. simpl. rewrite !mget_updRequest. simpl.
    destruct (mget i (requests s)); simpl; repeat case_decide; done.
  - intros i. simpl. rewrite !mget_updRequest. simpl. by destruct (mget i (requests s)).
  - subst gs. simpl. rewrite mkeys_updGates. by rewrite Hg2, Hg1.
  - intros k. subst gs. simpl. rewrite mget_updGates by done.
    by rewrite Hg2, Hg1.
  - simpl. by rewrite Hl2, Hl1.
  - simpl. by rewrite Ht2, Ht1.
  - simpl. by rewrite Hn2, Hn1.
Qed.

Lemma scheduleIfIdle_same g :
  queue (scheduleIfIdle g) = queue g /\ running (scheduleIfIdle g) = running g /\
  maxConcurrency (scheduleIfIdle g) = maxConcurrency g.
Proof. unfold scheduleIfIdle. by case_if. Qed.

Lemma dequeue_same id g :
  running (dequeue id g) = running g /\ maxConcurrency (dequeue id g) = maxConcurrency g.
Proof. unfold dequeue. by destruct (findIndex _ _). Qed.

Lemma Inv_unqueue id s : Inv s -> id ∈ queuedRequests s -> Inv (unqueue id s).
Proof.
  intros I Hid. destruct (inv_request _ I _ Hid) as (Hs & Hnd & Hlt).
  destruct (unqueue_spec id s Hnd) as [Uq Uk Us Uo Ug Ugk Ul Ut Un].
  assert (Hin : forall i, i ∈ queuedRequests (unqueue id s) <-> i <> id /\ i ∈ queuedRequests s).
  { intros i. rewrite Uq. by rewrite list_elem_of_filter. }
  split.
  - unfold mwf. rewrite Ug. apply I.
  - rewrite Uq. apply NoDup_filter, I.
  - intros i [Hne Hi]%Hin. rewrite Us, Uk, Un, decide_False by done. by apply I.
  - intros i k [Hne Hi]%Hin. rewrite Uk, Ugk. intros Hk.
    destruct (inv_gate _ I i k Hi Hk) as [g ->]. eauto.
  - intros k g. rewrite Ugk, fmap_Some, Uq. intros (g0 & Hg0 & ->).
    pose proof (inv_queue _ I _ _ Hg0) as Hq.
    rewrite (filter_ext_elem (fun i => k ∈ requestKeys (unqueue id s) i)
      (fun i => k ∈ requestKeys s i)) by (intros i _; by rewrite Uk).
    case_decide as Hk.
    + destruct (scheduleIfIdle_same (dequeue id g0)) as (-> & _).
      rewrite dequeue_queue by (rewrite Hq; apply NoDup_filter, I). rewrite Hq.
      rewrite !list_filter_filter. apply list_filter_iff. intros i; tauto.
    + rewrite Hq, list_filter_filter. apply filter_ext_elem.
      intros i _. split; [|tauto]. intros Hi. split; [done|]. intros ->. done.
  - intros i. rewrite Us. case_decide; [done|]. intros Hi. apply Hin. split; [done|]. by apply I.
  - intros i Hi. rewrite Un. by apply (inv_requests_fresh _ I), Uo.
  - intros i. rewrite Ut, Un. intros Hi. destruct (inv_settled _ I i Hi).
    split; [done|]. rewrite Hin. tauto.
  - rewrite Ut. apply I.
  - rewrite Ul, Ut. apply I.
Qed.

Lemma Inv_settle id o s :
  Inv s -> (id < nextId s)%nat -> id ∉ queuedRequests s -> id ∉ (settlements s).*1 ->
  Inv (settle id o s).
Proof.
  intros I Hlt Hnq Hns. destruct I; split; simpl; try done.
  - intros i. rewrite fmap_app, elem_of_app. simpl. rewrite list_elem_of_singleton.
    intros [Hi| ->]; auto.
  - rewrite fmap_app. apply NoDup_app. split; [done|]. split; [|apply NoDup_singleton].
    intros i Hi ->%list_elem_of_singleton. done.
  - intros i l Hl. rewrite fmap_app, elem_of_app. destruct (inv_leases0 i l Hl); auto.
Qed.

Lemma Inv_handOut id ks s :
  Inv s -> (id < nextId s)%nat -> id ∉ queuedRequests s -> id ∉ (settlements s).*1 ->
  NoDup ks -> Inv (handOut id ks s).
Proof.
  intros I Hlt Hnq Hns Hnd. unfold handOut.
  destruct (Inv_settle id Granted s I Hlt Hnq Hns). split; simpl in *; try done.
  intros i l. rewrite mget_mset. case_decide; intros; simplify_eq.
  - split; [|done]. rewrite fmap_app, elem_of_app. simpl. rewrite list_elem_of_singleton. auto.
  - by apply inv_leases0.
Qed.

Lemma grantRequest_eq id s :
  grantRequest id s =
  handOut id (requestKeys s id) (takeSlots (requestKeys s id) (unqueue id s)).
Proof.
  unfold grantRequest. fold (unqueue id s).
  assert (Hk : requestKeys (unqueue id s) id = requestKeys s id).
  { rewrite unqueue_eq. simpl. rewrite updGates_rest. unfold requestKeys. simpl.
    rewrite !mget_updRequest. simpl.
    destruct (mget id (requests s)); simpl; [|done]. by repeat case_decide. }
  rewrite Hk. f_equal. unfold takeSlots. rewrite updGates_rest. unfold requestKeys at 1. simpl.
  fold (requestKeys (unqueue id s) id). by rewrite Hk.
Qed.

Lemma Inv_grantRequest id s : Inv s -> id ∈ queuedRequests s -> Inv (grantRequest id s).
Proof.
  intros I Hid. rewrite grantRequest_eq. destruct (inv_request _ I _ Hid) as (Hs & Hnd & Hlt).
  destruct (unqueue_spec id s Hnd) as [Uq Uk Us Uo Ug Ugk Ul Ut Un].
  apply Inv_handOut; [apply Inv_updGates; [done..|by apply Inv_unqueue]|..|done];
    unfold takeSlots; rewrite updGates_rest; simpl.
  - by rewrite Un.
  - rewrite Uq, list_elem_of_filter. tauto.
  - rewrite Ut. intros Hin. by destruct (inv_settled _ I _ Hin).
Qed.

(** What draining does, without fuel: grants, each to the first request of the
    queue that can be admitted, until none can. *)
Inductive drains (now : Z) : State -> list nat -> State -> Prop :=
| drains_done s s' :
    clears now s s' -> Forall (fun id => admissible now s id = false) (queuedRequests s) ->
    drains now s [] s'
| drains_grant s s1 id ids l1 l2 s' :
    clears now s s1 -> queuedRequests s = l1 ++ id :: l2 ->
    Forall (fun id => admissible now s id = false) l1 -> admissible now s id = true ->
    drains now (grantRequest id s1) ids s' -> drains now s (id :: ids) s'.

Lemma queued_grantRequest id s :
  NoDup (requestKeys s id) ->
  queuedRequests (grantRequest id s) = base.filter (fun i => i <> id) (queuedRequests s).
Proof.
  intros Hnd. rewrite grantRequest_eq. simpl. unfold takeSlots. rewrite updGates_rest. simpl.
  by apply unqueue_spec.
Qed.

Lemma drainLoop_drains fuel now s :
  Inv s -> (length (queuedRequests s) < fuel)%nat -> exists ids, drains now s ids (drainLoop fuel now s).
Proof.
  revert s. induction fuel as [|fuel IH]; intros s I Hf; [lia|]. simpl.
  pose proof (drainPass_spec now (queuedRequests s) s) as Hp.
  assert (Hu : forall i, i ∈ queuedRequests s -> isSettled s i = false) by (intros; by apply I).
  destruct (drainPass now (queuedRequests s) s) as [s' []].
  - destruct Hp as (s1 & id & l1 & l2 & Hq & Hc & -> & Hs & Ha & Hn).
    assert (Hid : id ∈ queuedRequests s) by (rewrite Hq; set_solver).
    pose proof (Inv_clears _ _ _ I Hc) as I1.
    assert (Hq1 : queuedRequests s1 = queuedRequests s) by (destruct Hc as (-> & _); done).
    assert (Hid1 : id ∈ queuedRequests s1) by (by rewrite Hq1).
    destruct (IH (grantRequest id s1)) as [ids Hd].
    + by apply Inv_grantRequest.
    + rewrite queued_grantRequest by (by apply I1). rewrite Hq1.
      pose proof (length_filter_lt (fun i => i <> id) (queuedRequests s) id Hid). naive_solver lia.
    + exists (id :: ids). econstructor; eauto. apply Forall_forall. intros i Hi.
      apply Hn; [done|]. apply Hu. rewrite Hq. set_solver.
  - destruct Hp as [Hc Hn]. exists []. constructor; [done|]. apply Forall_forall. auto.
Qed.

Lemma drainQueues_drains now s : Inv s -> exists ids, drains now s ids (drainQueues now s).
Proof. intros I. apply drainLoop_drains; [done|lia]. Qed.

(** Rule for what draining keeps. *)
Lemma drains_keep (P : State -> Prop) now s ids s' :
  (forall s s', Inv s -> P s -> clears now s s' -> P s') ->
  (forall s id, Inv s -> P s -> id ∈ queuedRequests s -> admissible now s id = true ->
     P (grantRequest id s)) ->
  drains now s ids s' -> Inv s -> P s -> Inv s' /\ P s'.
Proof.
  intros Hcl Hgr. induction 1 as [s s' Hc|s s1 id ids l1 l2 s' Hc Hq _ Ha _ IH]; intros I HP.
  - split; [by eapply Inv_clears|by eapply Hcl].
  - assert (I1 : Inv s1) by (by eapply Inv_clears).
    assert (Hid : id ∈ queuedRequests s1) by (destruct Hc as (-> & _); simpl; rewrite Hq; set_solver).
    apply IH; [by apply Inv_grantRequest|]. apply Hgr; [done| |done|].
    + by apply (Hcl s).
    + by rewrite (admissible_clears now s s1).
Qed.

Lemma Inv_drainQueues now s : Inv s -> Inv (drainQueues now s).
Proof.
  intros I. destruct (drainQueues_drains now s I) as [ids Hd].
  by apply (drains_keep (fun _ => True)  now s ids).
Qed.

(** Of two waiting requests that share a gate, only the earlier can be
    admitted. *)
Lemma admissible_first now s id l1 l2 :
  Inv s -> queuedRequests s = l1 ++ id :: l2 -> admissible now s id = true ->
  forall id', id' ∈ l1 -> requestKeys s id' ## requestKeys s id.
Proof.
  intros I Hq Ha id' Hin k Hk' Hk. unfold admissible in Ha.
  rewrite forallb_forall in Ha. specialize (Ha k ltac:(by apply list_elem_of_In)). simpl in Ha.
  destruct (mget k (gates s)) as [g|] eqn:Hg; [|done]. to_prop.
  unfold isHead in *. rewrite (inv_queue _ I _ _ Hg), Hq, filter_app in *.
  destruct (base.filter (λ i, k ∈ requestKeys s i) l1) as [|x l] eqn:Hf; simpl in *.
  - apply filter_nil_not_elem_of with (x := id') in Hf; [|done]. done.
  - assert (Hx : x ∈ l1).
    { assert (x ∈ base.filter (λ i, k ∈ requestKeys s i) l1) as Hx by (rewrite Hf; left).
      by apply list_elem_of_filter in Hx as [_ Hx]. }
    apply Nat.eqb_eq in H1. subst x. pose proof (inv_nodup _ I) as Hnd. rewrite Hq in Hnd.
    apply NoDup_app in Hnd as (_ & Hd & _). apply (Hd id Hx). left.
Qed.
End Invariant.

Create HintDb sem discriminated.
#[local] Hint Resolve Inv_clears Inv_updGates Inv_updGate Inv_drainQueues Inv_unqueue : sem.

(** ** Every step keeps the queues *)

Section InvariantSteps.
Implicit Types (s : State) (k : string).

Lemma Inv_mset k g g' s :
  Inv s -> mget k (gates s) = Some g -> queue g' = queue g ->
  Inv (s <| gates := mset k g' (gates s) |>).
Proof.
  intros I Hg Hq. apply (Inv_gates s); [done|done|apply mwf_mset, I|].
  intros k'. simpl. rewrite mget_mset. case_decide; subst; [|done]. rewrite Hg. simpl. by rewrite Hq.
Qed.

Lemma unwanted s k :
  Inv s -> (mget k (gates s) = None \/ exists g, mget k (gates s) = Some g /\ queue g = []) ->
  forall id, id ∈ queuedRequests s -> k ∉ requestKeys s id.
Proof.
  intros I Hg id Hid Hk. destruct (inv_gate _ I id k Hid Hk) as [g Hg'].
  destruct Hg as [Hg|(g2 & Hg & Hq)]; rewrite Hg in Hg'; [done|]. simplify_eq.
  rewrite (inv_queue _ I _ _ Hg) in Hq.
  by apply filter_nil_not_elem_of with (x := id) in Hq.
Qed.

Lemma Inv_mdel k s :
  Inv s -> (forall id, id ∈ queuedRequests s -> k ∉ requestKeys s id) ->
  Inv (s <| gates := mdel k (gates s) |>).
Proof.
  intros I Hun. pose proof (inv_wf _ I) as Hwf. destruct I; split; try done; simpl.
  - by apply mwf_mdel.
  - intros id k' Hid Hk'. rewrite mget_mdel by done. case_decide; subst; [by destruct (Hun id)|].
    by apply (inv_gate0 id).
  - intros k' g. rewrite mget_mdel by done. case_decide; [done|]. apply inv_queue0.
Qed.

Lemma Inv_ensureGate k m s : Inv s -> Inv (ensureGate k m s).
Proof.
  intros I. unfold ensureGate. destruct (mget k (gates s)) as [g|] eqn:Hg.
  - by apply (Inv_mset k g).
  - pose proof (unwanted s k I (or_introl Hg)) as Hun.
    destruct I; split; try done; simpl.
    + by apply mwf_mset.
    + intros id k' Hid Hk'. rewrite mget_mset. case_decide; [eauto|]. by apply (inv_gate0 id).
    + intros k' g. rewrite mget_mset. case_decide; subst; [|apply inv_queue0].
      intros; simplify_eq/=. symmetry. by apply filter_none.
Qed.

Lemma Inv_ensureGates en ks s : Inv s -> Inv (ensureGates en ks s).
Proof.
  unfold ensureGates. revert s. induction ks as [|k ks IH]; intros s I; simpl; [done|].
  apply IH, Inv_updGate; [done|]. by apply Inv_ensureGate.
Qed.

Lemma Inv_cleanupGateIfIdle now k s : Inv s -> Inv (cleanupGateIfIdle now k s).
Proof.
  intros I. unfold cleanupGateIfIdle. destruct (mget k (gates s)) as [g|] eqn:Hg; [|done].
  destruct (running g >? 0) eqn:Hr; simpl; [done|].
  destruct (Z.of_nat (length (queue g)) =? 0) eqn:Hq; simpl; [|done]. to_prop.
  assert (Hq0 : queue g = []) by (destruct (queue g); [done|simpl in *; lia]).
  pose proof (isBlocked_gate now g) as Hb. destruct (isBlocked now g) as [g' b]; simpl in Hb.
  assert (Hq' : queue g' = queue g) by (by destruct Hb as [-> | ->]).
  assert (Inv (s <| gates := mset k g' (gates s) |>)) as I' by (by apply (Inv_mset k g)).
  destruct b; [done|]. apply (Inv_mdel k _ I'). simpl. intros id Hid.
  apply (unwanted s); eauto.
Qed.

Lemma Inv_blockedAt now k g s : Inv s -> mget k (gates s) = Some g -> Inv (blockedAt now k g s).1.
Proof. intros I Hg. apply (Inv_clears now s); [done|]. by apply blockedAt_clears. Qed.

Lemma Inv_releaseLease now id s : Inv s -> Inv (releaseLease now id s).
Proof.
  intros I. unfold releaseLease. destruct (mget id (leases s)) as [l|] eqn:Hl; [|done].
  destruct (released l); [done|]. destruct (inv_leases _ I id l Hl) as [Hin Hnd].
  apply Inv_updGates; [done|apply scheduleIfIdle_same|]. apply Inv_drainQueues, Inv_updGates; [done| |].
  - intros g. by case_if.
  - destruct I; split; try done; simpl. intros id' l'. rewrite mget_mset.
    case_decide; intros; simplify_eq; [done|]. by apply inv_leases0.
Qed.

Lemma Inv_nextId s n : Inv s -> (nextId s <= n)%nat -> Inv (s <| nextId := n |>).
Proof.
  intros I Hn. destruct I; split; try done; simpl.
  - intros id Hid. destruct (inv_request0 id Hid) as (? & ? & ?). repeat split; try done. lia.
  - intros id Hid. specialize (inv_requests_fresh0 id Hid). lia.
  - intros id Hid. destruct (inv_settled0 id Hid). split; [lia|done].
Qed.

Lemma ensureGate_present k k' m s :
  k = k' \/ is_Some (mget k (gates s)) -> is_Some (mget k (gates (ensureGate k' m s))).
Proof.
  intros H. unfold ensureGate. destruct (mget k' (gates s)) eqn:Hg; simpl; rewrite mget_mset;
    case_decide; eauto; destruct H; congruence || done.
Qed.

Lemma ensureGates_present en ks k s :
  k ∈ ks \/ is_Some (mget k (gates s)) -> is_Some (mget k (gates (ensureGates en ks s))).
Proof.
  unfold ensureGates. revert s. induction ks as [|k' ks IH]; intros s H; simpl.
  - destruct H as [H|H]; [by apply elem_of_nil in H|done].
  - apply IH. rewrite elem_of_cons in H.
    destruct H as [[->|H]|H]; [right|by left|right]; rewrite mget_updGate; apply fmap_is_Some;
      apply ensureGate_present; auto.
Qed.

Lemma Inv_enqueueRequest id ks listen s :
  Inv s -> NoDup ks -> (forall k, k ∈ ks -> is_Some (mget k (gates s))) -> nextId s = id ->
  Inv (enqueueRequest id ks listen (s <| nextId := S id |>)).
Proof.
  intros I Hnd Hg Hid. unfold enqueueRequest. simpl. rewrite updGates_rest. simpl.
  assert (Hfresh : mget id (requests s) = None).
  { destruct (mget id (requests s)) as [r|] eqn:E; [|done].
    pose proof (inv_requests_fresh _ I id (mk_is_Some _ _ E)). lia. }
  assert (Hnq : id ∉ queuedRequests s) by (intros Hq; destruct (inv_request _ I id Hq) as (_&_&?); lia).
  assert (Hk : forall i, requestKeys s i = match mget i (requests s) with Some r => keys r | None => [] end) by done.
  split; simpl.
  - unfold mwf. rewrite mkeys_updGates. apply I.
  - apply NoDup_app. split; [apply I|]. split; [|apply NoDup_singleton].
    intros i Hi ->%list_elem_of_singleton. done.
  - unfold isSettled, requestKeys. simpl. intros i. rewrite elem_of_app, list_elem_of_singleton, !mget_mset.
    case_decide; subst; simpl; [intros _; repeat split; [done|lia]|].
    intros [Hi|?]; [|done]. destruct (inv_request _ I i Hi) as (? & ? & ?). repeat split; try done. lia.
  - intros i k. unfold requestKeys. simpl. rewrite elem_of_app, list_elem_of_singleton, mget_mset.
    rewrite mget_updGates by done. simpl. rewrite fmap_is_Some.
    case_decide; subst; simpl; [auto|]. intros [Hi|?]; [|done]. by apply I.
  - intros k g. rewrite mget_updGates by done. simpl. rewrite fmap_Some. intros (g0 & Hg0 & ->).
    rewrite filter_app.
    replace (base.filter _ (queuedRequests s)) with (queue g0).
    2:{ rewrite (inv_queue _ I _ _ Hg0). apply filter_ext_elem. intros i Hi.
        unfold requestKeys. simpl. rewrite mget_mset_ne; [done|]. intros ->. done. }
    rewrite filter_cons. unfold requestKeys. simpl. rewrite mget_mset_eq. simpl.
    repeat case_decide; simpl; by rewrite ?app_nil_r.
  - intros i. unfold isSettled. simpl. rewrite mget_mset, elem_of_app, list_elem_of_singleton.
    case_decide; subst; [auto|]. intros Hi. left. by apply I.
  - intros i. rewrite mget_mset. case_decide; subst; [lia|]. intros Hi.
    pose proof (inv_requests_fresh _ I i Hi). lia.
  - intros i Hi. destruct (inv_settled _ I i Hi). rewrite elem_of_app, list_elem_of_singleton.
    split; [lia|]. intros [?|?]; [done|lia].
  - apply I.
  - apply I.
Qed.

Lemma takeSlots_Inv ks s : NoDup ks -> Inv s -> Inv (takeSlots ks s).
Proof. intros Hnd I. unfold takeSlots. by apply Inv_updGates. Qed.

(** Requests cancelled together: off the queues, settled afterwards. *)
Record cancelled (ids : list nat) s s' (rej : list nat) : Prop := {
  ca_inv : Inv s';
  ca_nodup : NoDup rej;
  ca_rej : forall id, id ∈ rej ->
    (id < nextId s')%nat /\ (id ∉ queuedRequests s') /\ (id ∉ (settlements s').*1);
  ca_gone : forall id, id ∈ ids -> id ∉ queuedRequests s';
  ca_queued : queuedRequests s' ⊆ queuedRequests s;
  ca_keys : forall id, requestKeys s' id = requestKeys s id;
  ca_rest : leases s' = leases s /\ settlements s' = settlements s /\ nextId s' = nextId s;
  ca_sub : forall id, id ∈ rej -> id ∈ queuedRequests s;
}.

Lemma cancelAll_spec ids s :
  Inv s -> cancelled ids s (cancelAll ids s).1 (cancelAll ids s).2.
Proof.
  revert s. induction ids as [|id ids IH]; intros s I; simpl.
  { split; simpl; try done; try (intros; set_solver). apply NoDup_nil_2. }
  destruct (isSettled s id) eqn:Hs.
  - destruct (IH s I). split; try done.
    intros i [->|Hi]%elem_of_cons; [|by apply ca_gone0].
    intros Hq. apply ca_queued0 in Hq. destruct (inv_request _ I id Hq). congruence.
  - pose proof (inv_unsettled _ I id Hs) as Hid.
    destruct (inv_request _ I id Hid) as (_ & Hnd & Hlt).
    fold (unqueue id s).
    pose proof (Inv_unqueue id s I Hid) as I1. destruct (IH _ I1) as [Ci Cn Cr Cg Cq Ck Cs Csub].
    destruct (unqueue_spec id s Hnd) as [Uq Uk Us Uo Ug Ugk Ul Ut Un].
    destruct (cancelAll ids (unqueue id s)) as [s' rej]; simpl in *.
    assert (Hnot : id ∉ queuedRequests (unqueue id s)) by (rewrite Uq, list_elem_of_filter; tauto).
    destruct Cs as (C1 & C2 & C3).
    split; simpl; try done.
    + apply NoDup_cons. split; [|done]. intros Hin. by apply Hnot, Csub.
    + intros i [->|Hi]%elem_of_cons; [|by apply Cr]. rewrite C2, C3, Ut, Un. repeat split; [done|auto|].
      intros Hin. by destruct (inv_settled _ I _ Hin).
    + intros i [->|Hi]%elem_of_cons; [auto|by apply Cg].
    + etrans; [exact Cq|]. rewrite Uq. intros i. rewrite list_elem_of_filter. tauto.
    + intros i. by rewrite Ck, Uk.
    + repeat split; congruence.
    + intros i [->|Hi]%elem_of_cons; [done|]. apply Csub in Hi. rewrite Uq in Hi.
      by apply list_elem_of_filter in Hi as [_ Hi].
Qed.

Lemma cancelAll_keep (P : State -> Prop) ids s :
  (forall s id, Inv s -> P s -> id ∈ queuedRequests s -> P (unqueue id s)) ->
  Inv s -> P s -> P (cancelAll ids s).1.
Proof.
  intros Hu. revert s. induction ids as [|id ids IH]; intros s I HP; simpl; [done|].
  destruct (isSettled s id) eqn:Hs; [by apply IH|]. fold (unqueue id s).
  pose proof (inv_unsettled _ I id Hs) as Hid.
  specialize (IH (unqueue id s) (Inv_unqueue id s I Hid) (Hu s id I HP Hid)).
  by destruct (cancelAll ids (unqueue id s)).
Qed.

Lemma rejectAll_same e ids s :
  rejectAll ids e s = s <| settlements := settlements (rejectAll ids e s) |> /\
  settlements (rejectAll ids e s) = settlements s ++ ((fun id => (id, RejectedWith e)) <$> ids).
Proof.
  unfold rejectAll. revert s. induction ids as [|id ids IH]; intros s; simpl.
  - split; [by destruct s|]. by rewrite app_nil_r.
  - destruct (IH (settle id (RejectedWith e) s)) as [H1 H2]. rewrite H1, H2. simpl.
    split; [done|]. by rewrite <- app_assoc.
Qed.

Lemma Inv_rejectAll ids e s :
  Inv s -> NoDup ids ->
  (forall id, id ∈ ids -> (id < nextId s)%nat /\ (id ∉ queuedRequests s) /\ (id ∉ (settlements s).*1)) ->
  Inv (rejectAll ids e s).
Proof.
  unfold rejectAll. intros I Hnd. revert s I. induction Hnd as [|id ids Hni Hnd IH]; intros s I H; simpl; [done|].
  apply IH.
  - apply Inv_settle; [done|apply H; left..].
  - intros i Hi. destruct (H i) as (? & ? & ?); [by right|]. simpl. repeat split; [done..|].
    rewrite fmap_app, elem_of_app. simpl. rewrite list_elem_of_singleton. intros [?| ->]; done.
Qed.

Lemma Inv_stray s l : Inv s -> Inv (s <| strayTimers := l |>).
Proof. intros []. by split. Qed.

Lemma Inv_cancel id o s : isSettled s id = false -> Inv s -> Inv (settle id o (unqueue id s)).
Proof.
  intros Hs I. pose proof (inv_unsettled _ I id Hs) as Hid.
  destruct (inv_request _ I id Hid) as (_ & Hnd & Hlt).
  destruct (unqueue_spec id s Hnd) as [Uq Uk Us Uo Ug Ugk Ul Ut Un].
  apply Inv_settle; [by apply Inv_unqueue|by rewrite Un|..].
  - rewrite Uq, list_elem_of_filter. tauto.
  - rewrite Ut. intros Hin. by destruct (inv_settled _ I _ Hin).
Qed.

Lemma Inv_expireRequest now id e s : Inv s -> Inv (expireRequest now id e s).
Proof.
  intros I. unfold expireRequest. destruct (isSettled s id) eqn:Hs; [done|].
  by apply Inv_drainQueues, Inv_cancel.
Qed.

Lemma Inv_reset_mid k g s s1 rej e st :
  Inv s -> mget k (gates s) = Some g ->
  cancelled (queue g) (updGate k clearCleanupTimer s) s1 rej ->
  Inv (rejectAll rej e (s1 <| gates := mdel k (gates s1) |> <| strayTimers := st |>)).
Proof.
  intros I Hg [Ci Cn Cr Cg Cq Ck Cs _].
  assert (Hun : forall id, id ∈ queuedRequests s1 -> k ∉ requestKeys s1 id).
  { intros id Hid Hk. apply (Cg id); [|done]. rewrite (inv_queue _ I _ _ Hg).
    apply list_elem_of_filter. split.
    - rewrite Ck in Hk. revert Hk. by rewrite updGate_rest.
    - apply Cq in Hid. revert Hid. by rewrite updGate_rest. }
  apply Inv_rejectAll; [by apply Inv_stray, Inv_mdel|exact Cn|exact Cr].
Qed.

Lemma Inv_reset now k s : Inv s -> Inv (reset now k s).
Proof.
  intros I. unfold reset. destruct (mget k (gates s)) as [g|] eqn:Hg; [|done].
  assert (Inv (updGate k clearCleanupTimer s)) as I1 by (by apply Inv_updGate).
  pose proof (cancelAll_spec (queue g) _ I1) as C.
  destruct (cancelAll (queue g) (updGate k clearCleanupTimer s)) as [s1 rej]. simpl in C.
  by apply Inv_drainQueues, (Inv_reset_mid k g s).
Qed.

Lemma Inv_resetAll s : Inv s -> Inv (resetAll s).
Proof.
  intros I. unfold resetAll. pose proof (cancelAll_spec (queuedRequests s) s I) as C.
  destruct (cancelAll (queuedRequests s) s) as [s1 rej]. destruct C as [Ci Cn Cr Cg Cq Ck Cs Csub].
  simpl in *.
  assert (Hq : queuedRequests s1 = []).
  { destruct (queuedRequests s1) as [|x l]; [done|]. exfalso.
    apply (Cg x); [apply Cq|]; left. }
  assert (Inv (s1 <| gates := [] |> <| queuedRequests := [] |>)) as I2.
  { clear -Ci Hq. destruct Ci; rewrite Hq in *. split; simpl; try done.
    - apply mwf_nil.
    - intros id k Hid. by apply elem_of_nil in Hid. }
  apply Inv_rejectAll; [done|done|]. intros id Hid. destruct (Cr id Hid) as (? & ? & ?).
  split_and!; try done. simpl. apply not_elem_of_nil.
Qed.

Lemma enabledOf_keys reqs : NoDup (mkeys (enabledOf reqs)).
Proof.
  change (mwf (enabledOf reqs)). unfold enabledOf.
  generalize (@mwf_nil string Z). generalize (@nil (string * Z)).
  induction reqs as [|r reqs IH]; intros m Hm; simpl; [done|]. apply IH.
  destruct (rmax r) as [[q|]|]; [|done|done]. case_if; [done|]. by apply mwf_mset.
Qed.

Lemma sortedKeys reqs k :
  NoDup (sortStrings (mkeys (enabledOf reqs))) /\
  (k ∈ sortStrings (mkeys (enabledOf reqs)) <-> is_Some (mget k (enabledOf reqs))).
Proof.
  unfold sortStrings. rewrite sortBy_perm. split; [apply enabledOf_keys|].
  rewrite <- mhas_spec. unfold mhas. destruct (mget k (enabledOf reqs)); split; intros; eauto; try done.
Qed.

(** [acquireMany] in three cases: refused before any change of the queues,
    granted at once, or queued. *)
Lemma acquireMany_cases now reqs o s (Q : State -> AcquireResult -> Prop) :
  let ks := sortStrings (mkeys (enabledOf reqs)) in
  let s1 := ensureGates (enabledOf reqs) ks s in
  Q s NoopRelease -> Q s (AcquireRejected AbortError) ->
  (forall s2 e, clears now s1 s2 -> Q s2 (AcquireRejected e)) ->
  (forall s2, clears now s1 s2 ->
     (forall k g, k ∈ ks -> mget k (gates s2) = Some g -> running g < maxConcurrency g) ->
     Q (handOut (nextId s2) ks (takeSlots ks (s2 <| nextId := S (nextId s2) |>))) (Leased (nextId s2))) ->
  (forall s2 listen, clears now s1 s2 ->
     Q (drainQueues now (enqueueRequest (nextId s2) ks listen (s2 <| nextId := S (nextId s2) |>)))
       (Waiting (nextId s2))) ->
  Q (acquireMany now reqs o s).1 (acquireMany now reqs o s).2.
Proof.
  intros ks s1 Hnoop Habort Hrej Hgrant Hwait. unfold acquireMany. fold ks s1. case_if; [done|].
  destruct (canAcquireImmediately_spec now ks s1) as [Hc Hr].
  destruct (canAcquireImmediately now ks s1) as [s2 ok]; simpl in *.
  assert (Hgo : Q (if ok then (handOut (nextId s2) ks (takeSlots ks (s2 <| nextId := S (nextId s2) |>)),
                               Leased (nextId s2))
     else match findQueueRejection ks (ao_maxQueueSize o) (ao_failFast o) s2 with
        | Some e => (s2, AcquireRejected e)
        | None =>
            (drainQueues now (enqueueRequest (nextId s2) ks
               match ao_signal o with Some _ => true | None => false end
               (s2 <| nextId := S (nextId s2) |>)), Waiting (nextId s2))
        end).1 (if ok then (handOut (nextId s2) ks (takeSlots ks (s2 <| nextId := S (nextId s2) |>)),
                               Leased (nextId s2))
     else match findQueueRejection ks (ao_maxQueueSize o) (ao_failFast o) s2 with
        | Some e => (s2, AcquireRejected e)
        | None =>
            (drainQueues now (enqueueRequest (nextId s2) ks
               match ao_signal o with Some _ => true | None => false end
               (s2 <| nextId := S (nextId s2) |>)), Waiting (nextId s2))
        end).2).
  { destruct ok; simpl.
    - apply Hgrant; [done|]. intros k g Hk Hg. symmetry in Hr. rewrite forallb_forall in Hr.
      specialize (Hr k ltac:(by apply list_elem_of_In)). simpl in Hr.
      pose proof (clears_mget _ _ _ k Hc) as Hv. rewrite Hg in Hv.
      destruct (mget k (gates s1)) as [g1|]; [|done]. unfold gview in Hv. to_prop.
      injection Hv as -> -> _ _. done.
    - destruct (findQueueRejection _ _ _ _) as [e|]; simpl; [by apply Hrej|by apply Hwait]. }
  destruct (ao_signal o) as [[]|]; [done|exact Hgo|exact Hgo].
Qed.

Lemma Inv_acquireMany now reqs o s : Inv s -> Inv (acquireMany now reqs o s).1.
Proof.
  intros I. set (ks := sortStrings (mkeys (enabledOf reqs))).
  assert (Hnd : NoDup ks) by (apply (sortedKeys reqs ""%string)).
  assert (Hclear : forall s2, clears now (ensureGates (enabledOf reqs) ks s) s2 ->
    Inv s2 /\ forall k, k ∈ ks -> is_Some (mget k (gates s2))).
  { intros s2 Hc. split; [eapply Inv_clears; [|exact Hc]; by apply Inv_ensureGates|].
    intros k Hk. pose proof (clears_mget _ _ _ k Hc) as Hv.
    destruct (ensureGates_present (enabledOf reqs) ks k s (or_introl Hk)) as [g Hg].
    rewrite Hg in Hv. destruct (mget k (gates s2)); [eauto|done]. }
  apply (acquireMany_cases now reqs o s (fun s _ => Inv s)); try done.
  - intros s2 _ Hc. by apply Hclear.
  - intros s2 Hc _. destruct (Hclear s2 Hc) as [I2 _].
    assert (Hn : nextId s2 ∉ queuedRequests s2).
    { intros Hq. destruct (inv_request _ I2 _ Hq) as (_ & _ & ?). lia. }
    assert (Ht : nextId s2 ∉ (settlements s2).*1).
    { intros Hq. destruct (inv_settled _ I2 _ Hq). lia. }
    apply Inv_handOut; [apply takeSlots_Inv; [done|apply Inv_nextId; [done|lia]]|..|done];
      unfold takeSlots; rewrite updGates_rest; simpl; [lia|done|done].
  - intros s2 listen Hc. destruct (Hclear s2 Hc) as [I2 Hp].
    by apply Inv_drainQueues, Inv_enqueueRequest.
Qed.

Lemma Inv_step s l s' : Inv s -> semStep s l s' -> Inv s'.
Proof.
  intros I. destruct 1.
  - by apply Inv_acquireMany.
  - by apply Inv_releaseLease.
  - by apply Inv_expireRequest.
  - by apply Inv_expireRequest.
  - unfold markBlocked. destruct (untilMs now u); [|done]. case_if; [done|].
    apply Inv_updGate; [done|]. by apply Inv_ensureGate.
  - unfold unblock. destruct (mget k (gates s)); [|done].
    by apply Inv_cleanupGateIfIdle, Inv_drainQueues, Inv_updGate.
  - unfold isAccountSemaphoreFull. destruct m as [[q|]|]; simpl; [|done|done]. case_if; [done|].
    destruct (mget _ (gates s)) eqn:Hg; [|done]. case_if; [done|]. by apply Inv_blockedAt.
  - by apply Inv_reset.
  - by apply Inv_resetAll.
  - unfold cleanupFires. by apply Inv_cleanupGateIfIdle, Inv_updGate.
  - by apply Inv_cleanupGateIfIdle, Inv_stray.
Qed.

Lemma Inv_reach ls s : reach semStep emptyState ls s -> Inv s.
Proof. apply reach_invariant; [apply Inv_empty|]. apply Inv_step. Qed.
End InvariantSteps.

(** ** Slots: what is running is what was handed out *)

Section Slots.
Context (L : string -> Z).
Hypothesis L_pos : forall k, 1 <= L k.
Implicit Types (s : State) (k : string).

Record Slots s : Prop := {
  slots_eq : forall k, heldBy k s = runningAt k s;
  slots_max : forall k g, mget k (gates s) = Some g -> maxConcurrency g <= L k;
  slots_run : forall k, runningAt k s <= L k;
}.

Lemma holds_bound k l : 0 <= holds k l <= 1.
Proof. unfold holds. case_if; lia. Qed.

Lemma heldBy_nonneg k s : 0 <= heldBy k s.
Proof.
  unfold heldBy. apply sumZ_nonneg. apply Forall_fmap, Forall_forall. intros l _. apply holds_bound.
Qed.

Lemma heldBy_mset k id l s :
  heldBy k (s <| leases := mset id l (leases s) |>) =
  heldBy k s + holds k l - match mget id (leases s) with Some l0 => holds k l0 | None => 0 end.
Proof. apply sum_mset. Qed.

(** Updates that keep the running counts and do not raise a limit. *)
Lemma Slots_gates s s' :
  Slots s -> leases s' = leases s ->
  (forall k, runningAt k s' = runningAt k s) ->
  (forall k g, mget k (gates s') = Some g -> maxConcurrency g <= L k) -> Slots s'.
Proof.
  intros [He Hm Hr] Hl Hra Hm'. split; [|done|].
  - intros k. unfold heldBy. rewrite Hl, Hra. apply He.
  - intros k. rewrite Hra. apply Hr.
Qed.

Lemma Slots_updGates ks f s :
  NoDup ks -> (forall g, running (f g) = running g /\ maxConcurrency (f g) = maxConcurrency g) ->
  Slots s -> Slots (updGates ks f s).
Proof.
  intros Hnd Hf S. apply (Slots_gates s); [done|by rewrite updGates_rest| |].
  - intros k. unfold runningAt. rewrite mget_updGates by done.
    destruct (mget k (gates s)) as [g|]; simpl; [|done]. case_decide; [apply Hf|done].
  - intros k g. rewrite mget_updGates by done. rewrite fmap_Some. intros (g0 & Hg0 & ->).
    pose proof (slots_max _ S k g0 Hg0). pose proof (Hf g0). case_decide; lia.
Qed.

Lemma Slots_updGate k f s :
  (forall g, running (f g) = running g /\ maxConcurrency (f g) = maxConcurrency g) ->
  Slots s -> Slots (updGate k f s).
Proof. apply (Slots_updGates [k]), NoDup_singleton. Qed.

Lemma Slots_clears now s s' : Slots s -> clears now s s' -> Slots s'.
Proof.
  intros S Hc. apply (Slots_gates s); [done|by destruct Hc as (-> & _)|..].
  - intros k. pose proof (clears_mget _ _ _ k Hc) as Hv. unfold runningAt.
    destruct (mget k (gates s)), (mget k (gates s')); try done. unfold gview in Hv. congruence.
  - intros k g Hg. pose proof (clears_mget _ _ _ k Hc) as Hv. rewrite Hg in Hv.
    destruct (mget k (gates s)) as [g0|] eqn:Hg0; [|done].
    pose proof (slots_max _ S k g0 Hg0). unfold gview in Hv. injection Hv. lia.
Qed.

Lemma Slots_unqueue id s : Inv s -> id ∈ queuedRequests s -> Slots s -> Slots (unqueue id s).
Proof.
  intros I Hid S. destruct (inv_request _ I _ Hid) as (_ & Hnd & _).
  destruct (unqueue_spec id s Hnd) as [Uq Uk Us Uo Ug Ugk Ul Ut Un].
  assert (Hf : forall g, running (scheduleIfIdle (dequeue id g)) = running g /\
                         maxConcurrency (scheduleIfIdle (dequeue id g)) = maxConcurrency g).
  { intros g. destruct (scheduleIfIdle_same (dequeue id g)) as (_ & -> & ->). apply dequeue_same. }
  apply (Slots_gates s); [done|done|..].
  - intros k. unfold runningAt. rewrite Ugk. destruct (mget k (gates s)); simpl; [|done].
    case_decide; [apply Hf|done].
  - intros k g. rewrite Ugk, fmap_Some. intros (g0 & Hg0 & ->).
    pose proof (slots_max _ S k g0 Hg0). pose proof (Hf g0). case_decide; lia.
Qed.

Lemma Slots_settle id o s : Slots s -> Slots (settle id o s).
Proof. intros [He Hm Hr]. by split. Qed.

(** Handing out a lease for gates that all have room. *)
Lemma Slots_handOut id ks s :
  NoDup ks -> mget id (leases s) = None -> Slots s ->
  (forall k, k ∈ ks -> exists g, mget k (gates s) = Some g /\ running g < maxConcurrency g) ->
  Slots (handOut id ks (takeSlots ks s)).
Proof.
  intros Hnd Hid S Hroom. unfold handOut. apply Slots_settle.
  assert (Hl : leases (takeSlots ks s) = leases s) by (unfold takeSlots; by rewrite updGates_rest).
  assert (Hg : forall k, mget k (gates (takeSlots ks s)) =
    (if decide (k ∈ ks) then fun g => g <| running := running g + 1 |> else fun g => g)
    <$> mget k (gates s)) by (intros k; apply mget_updGates, Hnd).
  assert (Hr : forall k, runningAt k (takeSlots ks s) =
                         runningAt k s + if decide (k ∈ ks) then 1 else 0).
  { intros k. unfold runningAt. rewrite Hg. case_decide as Hk.
    - destruct (Hroom k Hk) as (g & -> & _). done.
    - destruct (mget k (gates s)); simpl; lia. }
  split.
  - intros k. rewrite heldBy_mset, Hl, Hid. unfold heldBy. rewrite Hl. fold (heldBy k s).
    rewrite (slots_eq _ S k). unfold runningAt at 2. simpl. fold (runningAt k (takeSlots ks s)).
    rewrite Hr. unfold holds. simpl. case_decide as Hk.
    + rewrite bool_decide_true by done. lia.
    + rewrite bool_decide_false by done. lia.
  - intros k g. simpl. rewrite Hg, fmap_Some. intros (g0 & Hg0 & ->).
    pose proof (slots_max _ S k g0 Hg0). by case_decide.
  - intros k. unfold runningAt at 1. simpl. fold (runningAt k (takeSlots ks s)). rewrite Hr.
    pose proof (slots_run _ S k). case_decide as Hk; [|lia].
    destruct (Hroom k Hk) as (g & Hg0 & Hlt). pose proof (slots_max _ S k g Hg0).
    unfold runningAt. rewrite Hg0. lia.
Qed.

Lemma admissible_room now s id k :
  admissible now s id = true -> k ∈ requestKeys s id ->
  exists g, mget k (gates s) = Some g /\ running g < maxConcurrency g.
Proof.
  intros Ha Hk. unfold admissible in Ha. rewrite forallb_forall in Ha.
  specialize (Ha k ltac:(by apply list_elem_of_In)). simpl in Ha.
  destruct (mget k (gates s)) as [g|]; [|done]. to_prop. eauto.
Qed.

Lemma not_settled_lease id s : Inv s -> id ∉ (settlements s).*1 -> mget id (leases s) = None.
Proof.
  intros I Hn. destruct (mget id (leases s)) as [l|] eqn:E; [|done].
  by destruct (inv_leases _ I id l E).
Qed.

Lemma Slots_grantRequest now id s :
  Inv s -> Slots s -> id ∈ queuedRequests s -> admissible now s id = true -> Slots (grantRequest id s).
Proof.
  intros I S Hid Ha. rewrite grantRequest_eq. destruct (inv_request _ I _ Hid) as (_ & Hnd & _).
  destruct (unqueue_spec id s Hnd) as [Uq Uk Us Uo Ug Ugk Ul Ut Un].
  apply Slots_handOut; [done| |by apply Slots_unqueue|].
  - rewrite Ul. apply not_settled_lease; [done|]. intros Hin. by destruct (inv_settled _ I _ Hin).
  - intros k Hk. destruct (admissible_room _ _ _ _ Ha Hk) as (g & Hg & Hlt).
    rewrite Ugk, Hg, decide_True by done. eexists; split; [done|].
    destruct (scheduleIfIdle_same (dequeue id g)) as (_ & -> & ->).
    by destruct (dequeue_same id g) as [-> ->].
Qed.

Lemma Slots_drainQueues now s : Inv s -> Slots s -> Slots (drainQueues now s).
Proof.
  intros I S. destruct (drainQueues_drains now s I) as [ids Hd].
  apply (drains_keep Slots now s ids); [..|done|done|done].
  - intros s1 s2 _. apply Slots_clears.
  - intros s1 id. apply Slots_grantRequest.
Qed.

Lemma Slots_ensureGate k m s : m <= L k -> Slots s -> Slots (ensureGate k m s).
Proof.
  intros Hm S. apply (Slots_gates s); [done|unfold ensureGate; by destruct (mget k (gates s))|..].
  - intros k'. unfold runningAt, ensureGate. destruct (mget k (gates s)) as [g|] eqn:Hg; simpl;
      rewrite mget_mset; case_decide; subst; by rewrite ?Hg.
  - intros k' g'. unfold ensureGate. destruct (mget k (gates s)) as [g|] eqn:Hg; simpl;
      rewrite mget_mset; case_decide; subst; try apply (slots_max _ S); intros; by simplify_eq/=.
Qed.

Lemma Slots_ensureGates en ks s :
  (forall k, k ∈ ks -> exists m, mget k en = Some m /\ m <= L k) -> Slots s -> Slots (ensureGates en ks s).
Proof.
  unfold ensureGates. revert s. induction ks as [|k ks IH]; intros s Hm S; simpl; [done|].
  apply IH; [intros; apply Hm; by right|]. apply Slots_updGate; [done|].
  destruct (Hm k) as (m & -> & Hle); [left|]. by apply Slots_ensureGate.
Qed.

Lemma Slots_mset_gate k g g' s :
  Slots s -> mget k (gates s) = Some g -> running g' = running g -> maxConcurrency g' = maxConcurrency g ->
  Slots (s <| gates := mset k g' (gates s) |>).
Proof.
  intros S Hg Hr Hm. apply (Slots_gates s); [done|done|..].
  - intros k'. unfold runningAt. simpl. rewrite mget_mset. case_decide; subst; by rewrite ?Hg.
  - intros k' g0. simpl. rewrite mget_mset. case_decide; subst; [|apply S].
    intros; simplify_eq. rewrite Hm. by apply S.
Qed.

Lemma Slots_cleanup now k s : Inv s -> Slots s -> Slots (cleanupGateIfIdle now k s).
Proof.
  intros I S. unfold cleanupGateIfIdle. destruct (mget k (gates s)) as [g|] eqn:Hg; [|done].
  destruct (running g >? 0) eqn:Hr; simpl; [done|].
  destruct (Z.of_nat (length (queue g)) =? 0) eqn:Hq; simpl; [|done]. to_prop.
  assert (H0 : running g = 0).
  { pose proof (heldBy_nonneg k s) as Hh. rewrite (slots_eq _ S) in Hh.
    unfold runningAt in Hh. rewrite Hg in Hh. lia. }
  pose proof (isBlocked_gate now g) as Hb. destruct (isBlocked now g) as [g' b]; simpl in Hb.
  assert (Slots (s <| gates := mset k g' (gates s) |>)) as S'
    by (by apply (Slots_mset_gate k g); destruct Hb as [-> | ->]).
  destruct b; [done|]. apply (Slots_gates _ _ S'); [done|..].
  - intros k'. unfold runningAt. simpl. rewrite mget_mdel by apply mwf_mset, I.
    rewrite mget_mset. case_decide; [|done]. by destruct Hb as [-> | ->].
  - intros k' g0. simpl. rewrite mget_mdel by apply mwf_mset, I. case_decide; [done|]. apply S'.
Qed.

Lemma Slots_releaseLease now id s : Inv s -> Slots s -> Slots (releaseLease now id s).
Proof.
  intros I S. pose proof (Inv_releaseLease now id s I) as I'. revert I'. unfold releaseLease.
  destruct (mget id (leases s)) as [l|] eqn:Hl; [|done].
  destruct (released l) eqn:Hrel; [done|]. destruct (inv_leases _ I id l Hl) as [Hin Hnd]. intros _.
  apply Slots_updGates; [done|intros g; apply scheduleIfIdle_same|].
  set (s1 := s <| leases := mset id (l <| released := true |>) (leases s) |>).
  set (f := fun g : AccountGate => if running g >? 0 then g <| running := running g - 1 |> else g).
  assert (Inv s1) as I1.
  { destruct I; split; try done; simpl. intros id' l'. rewrite mget_mset.
    case_decide; intros; simplify_eq; [done|]. by apply inv_leases0. }
  apply Slots_drainQueues; [apply Inv_updGates; [done|intros g; unfold f; by case_if|done]|].
  assert (Hlease : leases (updGates (leaseKeys l) f s1) = leases s1) by (by rewrite updGates_rest).
  assert (Hheld : forall k, heldBy k s1 = heldBy k s - holds k l).
  { intros k. unfold s1. rewrite heldBy_mset, Hl. unfold holds at 1. simpl. lia. }
  assert (Hrun : forall k, runningAt k (updGates (leaseKeys l) f s1) = runningAt k s - holds k l).
  { intros k. unfold runningAt. rewrite mget_updGates by done. simpl.
    pose proof (heldBy_nonneg k s1) as Hn. rewrite Hheld, (slots_eq _ S k) in Hn.
    unfold runningAt, holds in *. rewrite Hrel in *. simpl in *.
    case_decide as Hk; rewrite ?bool_decide_true in * by done; rewrite ?bool_decide_false in * by done.
    - destruct (mget k (gates s)) as [g|]; simpl; [|lia]. unfold f. case_if; simpl; blia.
    - destruct (mget k (gates s)); simpl; lia. }
  split.
  - intros k. unfold heldBy. rewrite Hlease. fold (heldBy k s1). rewrite Hheld, Hrun.
    by rewrite (slots_eq _ S).
  - intros k g. rewrite mget_updGates by done. rewrite fmap_Some. intros (g0 & Hg0 & ->).
    pose proof (slots_max _ S k g0 Hg0). case_decide; [|done]. unfold f. by case_if.
  - intros k. rewrite Hrun. pose proof (slots_run _ S k). pose proof (holds_bound k l). lia.
Qed.

Lemma Slots_expireRequest now id e s : Inv s -> Slots s -> Slots (expireRequest now id e s).
Proof.
  intros I S. unfold expireRequest. destruct (isSettled s id) eqn:Hs; [done|].
  apply Slots_drainQueues; [by apply Inv_cancel|].
  apply Slots_settle, Slots_unqueue; [done|by apply I|done].
Qed.

Lemma Slots_acquireMany now reqs o s :
  Inv s -> (forall k m, mget k (enabledOf reqs) = Some m -> m <= L k) ->
  Slots s -> Slots (acquireMany now reqs o s).1.
Proof.
  intros I HL S. set (ks := sortStrings (mkeys (enabledOf reqs))).
  assert (Hnd : NoDup ks) by (apply (sortedKeys reqs ""%string)).
  assert (Hclear : forall s2, clears now (ensureGates (enabledOf reqs) ks s) s2 ->
    Inv s2 /\ Slots s2 /\ forall k, k ∈ ks -> is_Some (mget k (gates s2))).
  { intros s2 Hc. split; [eapply Inv_clears; [|exact Hc]; by apply Inv_ensureGates|]. split.
    - eapply Slots_clears; [|exact Hc]. apply Slots_ensureGates; [|done].
      intros k Hk. apply (sortedKeys reqs k) in Hk as [m Hm]. exists m. eauto.
    - intros k Hk. pose proof (clears_mget _ _ _ k Hc) as Hv.
      destruct (ensureGates_present (enabledOf reqs) ks k s (or_introl Hk)) as [g Hg].
      rewrite Hg in Hv. destruct (mget k (gates s2)); [eauto|done]. }
  assert (Hnext : forall s n, Slots s -> Slots (s <| nextId := n |>)) by (intros ? ? []; by split).
  apply (acquireMany_cases now reqs o s (fun s _ => Slots s)); try done.
  - intros s2 _ Hc. by apply Hclear.
  - intros s2 Hc Hroom. destruct (Hclear s2 Hc) as (I2 & S2 & Hp).
    apply Slots_handOut; [done| |by apply Hnext|].
    + simpl. apply not_settled_lease; [done|]. intros Hin. destruct (inv_settled _ I2 _ Hin). lia.
    + simpl. intros k Hk. destruct (Hp k Hk) as [g Hg]. eauto.
  - intros s2 listen Hc. destruct (Hclear s2 Hc) as (I2 & S2 & Hp).
    apply Slots_drainQueues; [by apply Inv_enqueueRequest|].
    unfold enqueueRequest. apply Slots_updGates; [done|done|].
    destruct S2 as [? ? ?]. by split.
Qed.

Lemma Slots_step s l s' :
  isResetLabel l = false -> limitsBelow L l -> Inv s -> Slots s -> semStep s l s' -> Slots s'.
Proof.
  intros Hnr HL I S Hst. destruct Hst; simpl in *; try done.
  - by apply Slots_acquireMany.
  - by apply Slots_releaseLease.
  - by apply Slots_expireRequest.
  - by apply Slots_expireRequest.
  - unfold markBlocked. destruct (untilMs now u); [|done]. case_if; [done|].
    apply Slots_updGate; [done|]. apply Slots_ensureGate; [|done].
    destruct (mget k (gates s)) as [g|] eqn:Hg; [by apply (slots_max _ S k g)|done].
  - unfold unblock. destruct (mget k (gates s)); [|done].
    assert (Inv (updGate k (λ g : AccountGate, g <| blockedUntil := None |>) s)) by (by apply Inv_updGate).
    apply Slots_cleanup; [by apply Inv_drainQueues|]. apply Slots_drainQueues; [done|].
    by apply Slots_updGate.
  - unfold isAccountSemaphoreFull. destruct m as [[q|]|]; simpl; [|done|done]. case_if; [done|].
    destruct (mget _ (gates s)) eqn:Hg; [|done]. case_if; [done|].
    eapply Slots_clears; [done|]. by apply blockedAt_clears.
  - unfold cleanupFires. apply Slots_cleanup; [by apply Inv_updGate|]. by apply Slots_updGate.
  - apply Slots_cleanup; [by apply Inv_stray|]. destruct S; by split.
Qed.

Lemma Slots_reach ls s :
  Forall (fun l => isResetLabel l = false /\ limitsBelow L l) ls ->
  reach semStep emptyState ls s -> Inv s /\ Slots s.
Proof.
  intros Hls Hr. revert Hls.
  induction Hr as [|s ls l s' Hr IH Hs]; intros Hls.
  - split; [apply Inv_empty|]. split; try done. intros k. unfold runningAt. simpl.
    pose proof (L_pos k). lia.
  - apply Forall_app in Hls as [Hls [[Hn HL] _]%Forall_cons]. destruct (IH Hls) as [I S].
    split; [by eapply Inv_step|by eapply Slots_step].
Qed.
End Slots.

(** ** No promise is lost *)

Section Pending.
Implicit Types (s : State) (k : string).

(** Every request is settled or still waits, apart from those in [rej]. *)
Definition Pending (rej : list nat) s : Prop :=
  forall id, (id < nextId s)%nat -> id ∈ (settlements s).*1 \/ id ∈ queuedRequests s \/ id ∈ rej.

Lemma Pending_same rej s s' :
  nextId s' = nextId s -> settlements s' = settlements s -> queuedRequests s' = queuedRequests s ->
  Pending rej s -> Pending rej s'.
Proof. intros Hn Ht Hq HP id. rewrite Hn, Ht, Hq. apply HP. Qed.

Lemma Pending_updGates rej ks f s : Pending rej s -> Pending rej (updGates ks f s).
Proof. apply Pending_same; by rewrite updGates_rest. Qed.

Lemma Pending_updGate rej k f s : Pending rej s -> Pending rej (updGate k f s).
Proof. apply (Pending_updGates _ [k]). Qed.

Lemma Pending_clears rej now s s' : clears now s s' -> Pending rej s -> Pending rej s'.
Proof. intros (-> & _). by apply Pending_same. Qed.

Lemma Pending_unqueue rej id s :
  NoDup (requestKeys s id) -> Pending rej s -> Pending (id :: rej) (unqueue id s).
Proof.
  intros Hnd HP i. destruct (unqueue_spec id s Hnd) as [Uq _ _ _ _ _ _ Ut Un].
  rewrite Un, Ut, Uq, list_elem_of_filter, elem_of_cons. intros Hi.
  destruct (HP i Hi) as [?|[?|?]]; [auto| |auto]. destruct (decide (i = id)); auto.
Qed.

Lemma Pending_settle rej id o s : Pending (id :: rej) s -> Pending rej (settle id o s).
Proof.
  intros HP i Hi. specialize (HP i Hi). simpl in *.
  rewrite fmap_app, elem_of_app, elem_of_cons in *. simpl. rewrite list_elem_of_singleton. naive_solver.
Qed.

Lemma Pending_rejectAll ids e s : Pending ids s -> Pending [] (rejectAll ids e s).
Proof.
  unfold rejectAll. revert s. induction ids as [|id ids IH]; intros s HP; simpl; [done|].
  by apply IH, Pending_settle.
Qed.

Lemma Pending_cancelAll ids s :
  Inv s -> Pending [] s -> Pending (cancelAll ids s).2 (cancelAll ids s).1.
Proof.
  revert s. induction ids as [|id ids IH]; intros s I HP; simpl; [done|].
  destruct (isSettled s id) eqn:Hs; [by apply IH|]. fold (unqueue id s).
  pose proof (inv_unsettled _ I id Hs) as Hid. destruct (inv_request _ I id Hid) as (_ & Hnd & Hlt).
  assert (Hgen : forall rej s, Inv s -> Pending rej s ->
    forall i, (i < nextId (cancelAll ids s).1)%nat ->
    i ∈ (settlements (cancelAll ids s).1).*1 \/ i ∈ queuedRequests (cancelAll ids s).1 \/
    i ∈ (cancelAll ids s).2 \/ i ∈ rej).
  { clear. induction ids as [|id ids IH]; intros rej s I HP i; simpl.
    - intros Hi. destruct (HP i Hi) as [?|[?|?]]; auto.
    - destruct (isSettled s id) eqn:Hs; [by apply IH|]. fold (unqueue id s).
      pose proof (inv_unsettled _ I id Hs) as Hid. destruct (inv_request _ I id Hid) as (_ & Hnd & _).
      specialize (IH (id :: rej) (unqueue id s) (Inv_unqueue id s I Hid) (Pending_unqueue _ _ _ Hnd HP) i).
      destruct (cancelAll ids (unqueue id s)) as [s' r]; simpl in *.
      rewrite !elem_of_cons in *. intros Hi. specialize (IH Hi). tauto. }
  specialize (Hgen [id] (unqueue id s) (Inv_unqueue id s I Hid) (Pending_unqueue _ _ _ Hnd HP)).
  destruct (cancelAll ids (unqueue id s)) as [s' r]; simpl in *. intros i Hi.
  specialize (Hgen i Hi). rewrite list_elem_of_singleton in Hgen. rewrite elem_of_cons. tauto.
Qed.

Lemma Pending_grantRequest id s :
  Inv s -> id ∈ queuedRequests s -> Pending [] s -> Pending [] (grantRequest id s).
Proof.
  intros I Hid HP. rewrite grantRequest_eq. destruct (inv_request _ I _ Hid) as (_ & Hnd & _).
  apply Pending_settle. eapply Pending_same; [done..|]. by apply Pending_updGates, Pending_unqueue.
Qed.

Lemma Pending_drainQueues now s : Inv s -> Pending [] s -> Pending [] (drainQueues now s).
Proof.
  intros I HP. destruct (drainQueues_drains now s I) as [ids Hd].
  apply (drains_keep (Pending []) now s ids); [..|done|done|done].
  - intros s1 s2 _ HP1 Hc. by apply (Pending_clears _ now s1).
  - intros s1 id I1 HP1 Hid _. by apply Pending_grantRequest.
Qed.

Lemma Pending_ensureGates rej en ks s : Pending rej s -> Pending rej (ensureGates en ks s).
Proof.
  unfold ensureGates. revert s. induction ks as [|k ks IH]; intros s HP; simpl; [done|].
  apply IH, Pending_updGate. unfold ensureGate. by destruct (mget k (gates s)).
Qed.

Lemma Pending_cleanup now k s : Pending [] s -> Pending [] (cleanupGateIfIdle now k s).
Proof.
  intros HP. unfold cleanupGateIfIdle. destruct (mget k (gates s)) as [g|]; [|done].
  case_if; [done|]. destruct (isBlocked now g) as [g' []]; done.
Qed.

Lemma Pending_acquireMany now reqs o s :
  Inv s -> Pending [] s -> Pending [] (acquireMany now reqs o s).1.
Proof.
  intros I HP. set (ks := sortStrings (mkeys (enabledOf reqs))).
  assert (Hnd : NoDup ks) by (apply (sortedKeys reqs ""%string)).
  assert (Hclear : forall s2, clears now (ensureGates (enabledOf reqs) ks s) s2 ->
    Inv s2 /\ Pending [] s2 /\ forall k, k ∈ ks -> is_Some (mget k (gates s2))).
  { intros s2 Hc. split; [eapply Inv_clears; [|exact Hc]; by apply Inv_ensureGates|]. split.
    - eapply Pending_clears; [exact Hc|]. by apply Pending_ensureGates.
    - intros k Hk. pose proof (clears_mget _ _ _ k Hc) as Hv.
      destruct (ensureGates_present (enabledOf reqs) ks k s (or_introl Hk)) as [g Hg].
      rewrite Hg in Hv. destruct (mget k (gates s2)); [eauto|done]. }
  assert (Hnext : forall s n, Pending [] s -> n = nextId s -> Pending [n] (s <| nextId := S n |>)).
  { intros s0 n H0 -> i Hi. simpl in *. destruct (decide (i = nextId s0)); [subst; right; right; left|].
    destruct (H0 i ltac:(lia)) as [?|[?|?%elem_of_nil]]; auto. done. }
  apply (acquireMany_cases now reqs o s (fun s _ => Pending [] s)); try done.
  - intros s2 _ Hc. by apply Hclear.
  - intros s2 Hc _. destruct (Hclear s2 Hc) as (I2 & P2 & Hp).
    apply Pending_settle. eapply Pending_same; [done..|]. by apply Pending_updGates, Hnext.
  - intros s2 listen Hc. destruct (Hclear s2 Hc) as (I2 & P2 & Hp). apply Pending_drainQueues.
    + by apply Inv_enqueueRequest.
    + unfold enqueueRequest. apply Pending_updGates. intros i. simpl. intros Hi.
      destruct (Hnext s2 _ P2 eq_refl i Hi) as [?|[?|?]]; simpl in *; rewrite elem_of_app; auto.
Qed.

Lemma Pending_step s l s' : Inv s -> Pending [] s -> semStep s l s' -> Pending [] s'.
Proof.
  intros I HP Hst.
  assert (Hexp : forall now id e, Pending [] (expireRequest now id e s)).
  { intros now id e. unfold expireRequest. destruct (isSettled s id) eqn:Hs; [done|].
    fold (unqueue id s). pose proof (inv_unsettled _ I id Hs) as Hid.
    destruct (inv_request _ I id Hid) as (_ & Hnd & _).
    apply Pending_drainQueues; [by apply Inv_cancel|]. by apply Pending_settle, Pending_unqueue. }
  destruct Hst; try done.
  - by apply Pending_acquireMany.
  - unfold releaseLease. destruct (mget id (leases s)) as [l|] eqn:Hl; [|done].
    destruct (released l) eqn:Hr; [done|]. destruct (inv_leases _ I id l Hl) as [Hin Hnd].
    apply Pending_updGates, Pending_drainQueues; [|by apply Pending_updGates].
    apply Inv_updGates; [done|intros g; by case_if|].
    destruct I; split; try done; simpl. intros id' l'. rewrite mget_mset.
    case_decide; intros; simplify_eq; [done|]. by apply inv_leases0.
  - unfold markBlocked. destruct (untilMs now u); [|done]. case_if; [done|].
    apply Pending_updGate. unfold ensureGate. by destruct (mget k (gates s)).
  - unfold unblock. destruct (mget k (gates s)); [|done].
    apply Pending_cleanup, Pending_drainQueues; [by apply Inv_updGate|by apply Pending_updGate].
  - unfold isAccountSemaphoreFull. destruct m as [[q|]|]; simpl; [|done|done]. case_if; [done|].
    destruct (mget _ (gates s)) eqn:Hg; [|done]. case_if; [done|].
    eapply Pending_clears; [|done]. by apply blockedAt_clears.
  - pose proof (Inv_reset now k s I) as I'. revert I'. unfold reset.
    destruct (mget k (gates s)) as [g|] eqn:Hg; [|done].
    assert (Inv (updGate k clearCleanupTimer s)) as I1 by (by apply Inv_updGate).
    pose proof (cancelAll_spec (queue g) _ I1) as C.
    pose proof (Pending_cancelAll (queue g) _ I1 (Pending_updGate [] k _ s HP)) as HC.
    destruct (cancelAll (queue g) (updGate k clearCleanupTimer s)) as [s1 rej]. intros _.
    set (e := SemError "SEMAPHORE_RESET" ("Semaphore reset for " +:+ k)). simpl in C, HC.
    apply Pending_drainQueues; [by apply (Inv_reset_mid k g s)|]. by apply Pending_rejectAll.
  - unfold resetAll. pose proof (cancelAll_spec (queuedRequests s) s I) as C.
    pose proof (Pending_cancelAll (queuedRequests s) s I HP) as HC.
    destruct (cancelAll (queuedRequests s) s) as [s1 rej]. simpl in C, HC.
    apply Pending_rejectAll. intros i Hi. simpl in *. destruct (HC i Hi) as [?|[Hq|?]]; auto.
    exfalso. apply (ca_gone _ _ _ _ C i); [by apply (ca_queued _ _ _ _ C)|done].
  - unfold cleanupFires. by apply Pending_cleanup, Pending_updGate.
  - by apply Pending_cleanup.
Qed.
End Pending.

(** ** Properties *)

(** C2. Bounded concurrency, all or nothing.  In every history without [reset],
    where no request names a limit above [L k] for gate [k], the running count
    of every gate is exactly the number of release functions handed out for it
    and not called yet, and it never exceeds [L k]; a request that only waits
    holds no slot of any gate. *)
Theorem semaphore_concurrency (L : string -> Z) ls s :
  (forall k, 1 <= L k) ->
  Forall (fun l => isResetLabel l = false /\ limitsBelow L l) ls ->
  reach semStep emptyState ls s ->
  (forall k, heldBy k s = runningAt k s /\ heldBy k s <= L k) /\
  (forall id, id ∈ queuedRequests s -> mget id (leases s) = None).
Proof.
  intros HL Hls Hr. destruct (Slots_reach L HL ls s Hls Hr) as [I S]. split.
  - intros k. rewrite (slots_eq _ _ S). split; [done|apply S].
  - intros id Hid. apply not_settled_lease; [done|]. intros Hin. by destruct (inv_settled _ I _ Hin).
Qed.

(** Draining is FIFO and complete.  From every reachable state, [drainQueues]
    grants one request after the other, each time the first of the queue that
    can be admitted, and stops only when no waiting request can be admitted (so
    the loop terminates with nothing left to do); and a request is admitted only
    when no earlier waiting request shares one of its gates. *)
Theorem semaphore_drain_fifo now ls s :
  reach semStep emptyState ls s ->
  (exists ids, drains now s ids (drainQueues now s)) /\
  (forall id, id ∈ queuedRequests (drainQueues now s) -> admissible now (drainQueues now s) id = false) /\
  (forall l1 id l2 id', queuedRequests s = l1 ++ id :: l2 -> admissible now s id = true ->
     id' ∈ l1 -> requestKeys s id' ## requestKeys s id).
Proof.
  intros Hr. pose proof (Inv_reach _ _ Hr) as I.
  destruct (drainQueues_drains now s I) as [ids Hd]. split; [by exists ids|]. split.
  - clear Hr I. induction Hd as [s1 s2 Hc Hf|]; [|done]. intros id Hid.
    rewrite (admissible_clears now s1 s2) by done. rewrite Forall_forall in Hf. apply Hf.
    revert Hid. by destruct Hc as (-> & _).
  - intros l1 id l2 id' Hq Ha. by apply (admissible_first now s id l1 l2).
Qed.

(** No promise is lost or settled twice.  In every history, [reset] included,
    each request accepted so far is settled exactly once or still in the queue,
    never both, and a waiting request stands in the queue of every gate it
    names. *)
Theorem semaphore_settles_once ls s :
  reach semStep emptyState ls s ->
  NoDup (settlements s).*1 /\
  (forall id, (id < nextId s)%nat <-> id ∈ (settlements s).*1 \/ id ∈ queuedRequests s) /\
  (forall id, id ∈ (settlements s).*1 -> id ∉ queuedRequests s) /\
  (forall id k, id ∈ queuedRequests s -> k ∈ requestKeys s id ->
     exists g, mget k (gates s) = Some g /\ id ∈ queue g).
Proof.
  intros Hr. assert (Inv s /\ Pending [] s) as [I HP].
  { eapply (reach_invariant semStep (fun s => Inv s /\ Pending [] s)); [| |exact Hr].
    - split; [apply Inv_empty|]. intros i Hi. simpl in Hi. lia.
    - intros s1 l s2 [I1 P1] Hs. split; [by eapply Inv_step|by eapply Pending_step]. }
  split; [apply I|]. split; [|split].
  - intros id. split.
    + intros Hi. destruct (HP id Hi) as [?|[?|?%elem_of_nil]]; auto. done.
    + intros [Hin|Hin]; [by apply (inv_settled _ I)|by apply (inv_request _ I)].
  - intros id Hin. by apply (inv_settled _ I).
  - intros id k Hid Hk. destruct (inv_gate _ I id k Hid Hk) as [g Hg]. exists g. split; [done|].
    rewrite (inv_queue _ I _ _ Hg). by apply list_elem_of_filter.
Qed.

(** ** Histories *)

Definition oneSlot (k : string) : SemaphoreRequirement := mkRequirement k (Some (Fin 1)).

(** [a] is taken, a second request for [a] and [b] waits, [a] is released. *)
Definition exLabels : list Label :=
  [LAcquire 0 [oneSlot "a"] defaultAcquireOptions;
   LAcquire 1 [oneSlot "b"; oneSlot "a"] defaultAcquireOptions].

Definition ex1 : State := (acquireMany 0 [oneSlot "a"] defaultAcquireOptions emptyState).1.
Definition ex2 : State := (acquireMany 1 [oneSlot "b"; oneSlot "a"] defaultAcquireOptions ex1).1.

Lemma ex_reach : reach semStep emptyState exLabels ex2.
Proof.
  apply (reach_step _ _ ex1 [_] (LAcquire 1 _ _)); [|apply sem_acquire].
  apply (reach_step _ _ emptyState [] (LAcquire 0 _ _)); [apply reach_refl|apply sem_acquire].
Qed.

Example ex2_waits :
  queuedRequests ex2 = [1%nat] /\ heldBy "a" ex2 = 1 /\ heldBy "b" ex2 = 0 /\
  queuedRequests (releaseLease 2 0 ex2) = [] /\ heldBy "b" (releaseLease 2 0 ex2) = 1.
Proof. by vm_compute. Qed.

Lemma semaphore_concurrency_witness : heldBy "a" ex2 = runningAt "a" ex2 /\ heldBy "a" ex2 <= 1.
Proof.
  apply (semaphore_concurrency (fun _ => 1) exLabels ex2); [done| |exact ex_reach].
  constructor; [split; [done|]|constructor; [split; [done|]|constructor]];
    intros k m; simpl; repeat case_decide; intros; by simplify_eq.
Defined.

Lemma semaphore_drain_fifo_witness : exists ids, drains 2 ex2 ids (drainQueues 2 ex2).
Proof. apply (semaphore_drain_fifo 2 exLabels ex2), ex_reach. Defined.

Lemma semaphore_settles_once_witness : NoDup (settlements ex2).*1.
Proof. apply (semaphore_settles_once exLabels ex2), ex_reach. Defined.

(** After [reset], the release function of an older lease frees a slot of the
    recreated gate, and a third request is admitted beside the second: two live
    leases on a gate of one slot. *)
Definition resetHistory : State :=
  let s := (acquire 0 "a" (Some (Fin 1)) defaultAcquireOptions emptyState).1 in
  let s := reset 1 "a" s in
  let s := (acquire 2 "a" (Some (Fin 1)) defaultAcquireOptions s).1 in
  let s := releaseLease 3 0 s in
  (acquire 4 "a" (Some (Fin 1)) defaultAcquireOptions s).1.

Theorem reset_oversubscribes : heldBy "a" resetHistory = 2 /\ runningAt "a" resetHistory = 1.
Proof. by vm_compute. Qed.

(** A request queued behind a block stays queued when the block has expired:
    nothing is armed to drain the queue, although it could be admitted. *)
Definition blockHistory : State :=
  (acquire 1 "a" (Some (Fin 1)) defaultAcquireOptions
     (markBlocked 0 "a" (UntilDelay (Some 100)) emptyState)).1.

Theorem expired_block_not_drained :
  queuedRequests blockHistory = [0%nat] /\ admissible 200 blockHistory 0 = true /\
  cleanupTimer <$> mget "a"%string (gates blockHistory) = Some false.
Proof. by vm_compute. Qed.
