(* ===== verification/AdmissionCost.v ===== *)
(** * Admission cost and configuration

    [open-sse/services/admission/cost.ts] (a bounded request cost from request
    features), [config.ts] (validation of the controller's configuration) and
    the constants and data of [types.ts].  Configuration values arrive untyped
    and are [jsval]s here; every check that fails throws a [RangeError]. *)
From S2P Require Import Prelude JsNumber.

#[local] Open Scope Z_scope.

(** ** types.ts *)

Definition MAX_ADMISSION_WINDOW_MS : Z := 86400000.
Definition MAX_ADMISSION_COST_OR_LIMIT : Z := MAX_SAFE_INTEGER / MAX_ADMISSION_WINDOW_MS.

Inductive AdmissionMode := off | shadow | enforce.

Inductive AdmissionPressure := normal | high | critical.

Inductive AdmissionReleaseOutcome :=
| success | upstream_error | timeout | local_reject | cancelled.

Record AdmissionCostFeatures := mkFeatures {
  bodyBytes : jsval;
  estimatedInputTokens : jsval;
  messageCount : jsval;
  toolCount : jsval;
  requestedFanout : jsval;
  streaming : option bool;
}.

(** A configuration: validated numbers, or what the caller supplied. *)
Record CostConfig (N : Type) := mkCostConfig {
  baseCost : N;
  bodyBytesPerUnit : N;
  tokensPerUnit : N;
  messagesPerUnit : N;
  toolsPerUnit : N;
  fanoutPerUnit : N;
  streamingClassCost : N;
  nonStreamingClassCost : N;
  maxRequestCost : N;
}.
Arguments mkCostConfig {N}.
Arguments baseCost {N}.
Arguments bodyBytesPerUnit {N}.
Arguments tokensPerUnit {N}.
Arguments messagesPerUnit {N}.
Arguments toolsPerUnit {N}.
Arguments fanoutPerUnit {N}.
Arguments streamingClassCost {N}.
Arguments nonStreamingClassCost {N}.
Arguments maxRequestCost {N}.

Definition AdmissionCostConfig : Type := CostConfig Z.

Definition DEFAULT_ADMISSION_COST_CONFIG : AdmissionCostConfig :=
  mkCostConfig 1 16384 1024 32 8 1 1 2 1000.

(** ** cost.ts *)

Definition finiteNonNegative (v : jsval) : double :=
  match v with
  | JNumber f => if negb (dFinite f) || dLt f dZero then dZero else dMin f (dOfZ MAX_SAFE_INTEGER)
  | _ => dZero
  end.

Definition positiveSafeInteger (name : string) (v : jsval) (max : Z) : throws Z :=
  let bad := RangeError (name +:+ " must be a positive safe integer") in
  match v with
  | JNumber f =>
      match safeInteger f with
      | Some z =>
          if z <=? 0 then bad
          else if z >? max then RangeError (name +:+ " must be <= " +:+ pretty max)
          else Ret z
      | None => bad
      end
  | _ => bad
  end.

Definition requirePositiveSafeInteger (name : string) (v : jsval) : throws Z :=
  positiveSafeInteger name v MAX_ADMISSION_COST_OR_LIMIT.

Definition noCostConfig : CostConfig jsval :=
  mkCostConfig JUndefined JUndefined JUndefined JUndefined JUndefined JUndefined JUndefined
    JUndefined JUndefined.

(** The keys are validated in the order of [COST_CONFIG_KEYS]. *)
Definition resolveCostConfig (partial : CostConfig jsval) : throws AdmissionCostConfig :=
  let d := DEFAULT_ADMISSION_COST_CONFIG in
  let get name (f : forall N, CostConfig N -> N) :=
    requirePositiveSafeInteger name (nullish (f _ partial) (jsInt (f _ d))) in
  a ← get "baseCost"%string (@baseCost);
  b ← get "bodyBytesPerUnit"%string (@bodyBytesPerUnit);
  c ← get "tokensPerUnit"%string (@tokensPerUnit);
  e ← get "messagesPerUnit"%string (@messagesPerUnit);
  f ← get "toolsPerUnit"%string (@toolsPerUnit);
  g ← get "fanoutPerUnit"%string (@fanoutPerUnit);
  h ← get "streamingClassCost"%string (@streamingClassCost);
  i ← get "nonStreamingClassCost"%string (@nonStreamingClassCost);
  j ← get "maxRequestCost"%string (@maxRequestCost);
  Ret (mkCostConfig a b c e f g h i j).

(** [None] is an infinite amount. *)
Definition unitsFrom (amount : double) (quantum : Z) : option Z :=
  if dLe amount dZero then Some 0 else dCeil (dDiv amount (dOfZ quantum)).

Definition addBounded (total : Z) (contribution : option Z) (maximum : Z) : Z :=
  match contribution with
  | None => maximum
  | Some c => if c >=? maximum - total then maximum else total + c
  end.

Fixpoint addContributions (total maximum : Z) (l : list (option Z)) : Z :=
  match l with
  | [] => total
  | c :: l =>
      let total := addBounded total c maximum in
      if total =? maximum then total else addContributions total maximum l
  end.

Definition contributions (features : AdmissionCostFeatures) (cfg : AdmissionCostConfig)
    : list (option Z) :=
  [unitsFrom (finiteNonNegative (bodyBytes features)) (bodyBytesPerUnit cfg);
   unitsFrom (finiteNonNegative (estimatedInputTokens features)) (tokensPerUnit cfg);
   unitsFrom (finiteNonNegative (messageCount features)) (messagesPerUnit cfg);
   unitsFrom (finiteNonNegative (toolCount features)) (toolsPerUnit cfg);
   unitsFrom (dMax dOne (finiteNonNegative (requestedFanout features))) (fanoutPerUnit cfg);
   Some (match streaming features with
         | Some false => nonStreamingClassCost cfg
         | _ => streamingClassCost cfg end)].

Definition estimateAdmissionCost (features : AdmissionCostFeatures) (config : CostConfig jsval)
    : throws Z :=
  cfg ← resolveCostConfig config;
  let total := Z.min (baseCost cfg) (maxRequestCost cfg) in
  Ret (addContributions total (maxRequestCost cfg) (contributions features cfg)).

Definition normalizeRequestCost (cost : jsval) (maxRequestCost : jsval) : throws Z :=
  max ← requirePositiveSafeInteger "maxRequestCost" maxRequestCost;
  value ← requirePositiveSafeInteger "request cost" cost;
  Ret (Z.min value max).

(** ** config.ts *)

Record AdaptationParams := mkParams {
  p_minLimit : Z;
  p_maxLimit : Z;
  p_windowMs : Z;
  shortLatencyAlpha : double;
  longLatencyAlpha : double;
  increaseStep : Z;
  decreaseFactor : double;
  criticalDecreaseFactor : double;
  highUtilizationThreshold : double;
  lowUtilizationThreshold : double;
  latencyGradientThreshold : double;
  maxIncreasePerWindow : Z;
}.

(** The [mode] of the input: undefined, one of the three, or something else. *)
Inductive InputMode := ModeUndefined | ModeIs (m : AdmissionMode) | ModeOther.

Record AdaptiveAdmissionConfig := mkAdmissionConfig {
  i_mode : InputMode;
  i_minLimit : jsval;
  i_maxLimit : jsval;
  i_initialLimit : jsval;
  i_maxQueueCount : jsval;
  i_maxQueueCost : jsval;
  i_defaultMaxWaitMs : jsval;
  i_windowMs : jsval;
  i_shortLatencyAlpha : jsval;
  i_longLatencyAlpha : jsval;
  i_increaseStep : jsval;
  i_decreaseFactor : jsval;
  i_criticalDecreaseFactor : jsval;
  i_highUtilizationThreshold : jsval;
  i_lowUtilizationThreshold : jsval;
  i_latencyGradientThreshold : jsval;
  i_maxIncreasePerWindow : jsval;
  i_cost : CostConfig jsval;
  i_virtualLanes : bool;
}.

Record ValidatedConfig := mkValidated {
  mode : AdmissionMode;
  minLimit : Z;
  maxLimit : Z;
  initialLimit : Z;
  maxQueueCount : Z;
  maxQueueCost : Z;
  defaultMaxWaitMs : Z;
  windowMs : Z;
  adaptation : AdaptationParams;
  costConfig : AdmissionCostConfig;
  virtualLanes : bool;
}.

(** Same checks as the one of cost.ts, with the bound as an argument. *)
Definition requirePositiveInt (name : string) (v : jsval) (max : Z) : throws Z :=
  positiveSafeInteger name v max.

Definition requireUnitInterval (name : string) (v : jsval) (fallback : double) : throws double :=
  match v with
  | JUndefined => Ret fallback
  | JNumber f =>
      if negb (dFinite f) || dLe f dZero || dLt dOne f then
        RangeError (name +:+ " must be in (0, 1]")
      else Ret f
  | _ => RangeError (name +:+ " must be in (0, 1]")
  end.

Definition requireDecreaseFactor (name : string) (v : jsval) (fallback : double) : throws double :=
  match v with
  | JUndefined => Ret fallback
  | JNumber f =>
      if negb (dFinite f) || dLe f dZero || dLe dOne f then
        RangeError (name +:+ " must be in (0, 1)")
      else Ret f
  | _ => RangeError (name +:+ " must be in (0, 1)")
  end.

Definition resolveMode (m : InputMode) : throws AdmissionMode :=
  match m with
  | ModeUndefined => Ret shadow
  | ModeIs m => Ret m
  | ModeOther => RangeError "mode must be off|shadow|enforce"
  end.

Definition optionalInt (name : string) (v : jsval) (fallback max : Z) : throws Z :=
  if isUndefined v then Ret fallback else requirePositiveInt name v max.

Definition resolveAdaptationParams (input : AdaptiveAdmissionConfig) (minLimit maxLimit windowMs : Z)
    : throws AdaptationParams :=
  let MAX := MAX_ADMISSION_COST_OR_LIMIT in
  decrease ← requireDecreaseFactor "decreaseFactor" (i_decreaseFactor input) (dec 8 10);
  critical ← requireDecreaseFactor "criticalDecreaseFactor" (i_criticalDecreaseFactor input) (dec 5 10);
  step ← optionalInt "increaseStep" (i_increaseStep input) 1 MAX;
  maxStep ← optionalInt "maxIncreasePerWindow" (i_maxIncreasePerWindow input) step MAX;
  short ← requireUnitInterval "shortLatencyAlpha" (i_shortLatencyAlpha input) (dec 5 10);
  long ← requireUnitInterval "longLatencyAlpha" (i_longLatencyAlpha input) (dec 1 10);
  high ← requireUnitInterval "highUtilizationThreshold" (i_highUtilizationThreshold input) (dec 7 10);
  low ← requireUnitInterval "lowUtilizationThreshold" (i_lowUtilizationThreshold input) (dec 3 10);
  if dLt decrease critical then
    RangeError "criticalDecreaseFactor must be <= decreaseFactor"
  else if dLe high low then
    RangeError "lowUtilizationThreshold must be < highUtilizationThreshold"
  else if dLe short long then
    RangeError "shortLatencyAlpha must be > longLatencyAlpha"
  else
    gradient ← requireUnitInterval "latencyGradientThreshold" (i_latencyGradientThreshold input)
                 (dec 25 100);
    Ret (mkParams minLimit maxLimit windowMs short long step decrease critical high low gradient maxStep).

Definition validateConfig (input : AdaptiveAdmissionConfig) : throws ValidatedConfig :=
  let MAX := MAX_ADMISSION_COST_OR_LIMIT in
  minLimit ← requirePositiveInt "minLimit" (i_minLimit input) MAX;
  maxLimit ← requirePositiveInt "maxLimit" (i_maxLimit input) MAX;
  if minLimit >? maxLimit then RangeError "minLimit must be <= maxLimit"
  else
    initialLimit ← requirePositiveInt "initialLimit" (i_initialLimit input) MAX;
    maxQueueCount ← requirePositiveInt "maxQueueCount" (i_maxQueueCount input) MAX_SAFE_INTEGER;
    maxQueueCost ← requirePositiveInt "maxQueueCost" (i_maxQueueCost input) MAX;
    windowMs ← optionalInt "windowMs" (i_windowMs input) 1000 MAX_ADMISSION_WINDOW_MS;
    defaultMaxWaitMs ← optionalInt "defaultMaxWaitMs" (i_defaultMaxWaitMs input) 5000
                         MAX_ADMISSION_WINDOW_MS;
    costConfig ← resolveCostConfig (i_cost input);
    mode ← resolveMode (i_mode input);
    params ← resolveAdaptationParams input minLimit maxLimit windowMs;
    Ret (mkValidated mode minLimit maxLimit initialLimit maxQueueCount maxQueueCost
           defaultMaxWaitMs windowMs params costConfig (i_virtualLanes input)).

(** ** Lemmas *)

Lemma positiveSafeInteger_Ret name v max z : positiveSafeInteger name v max = Ret z -> 0 < z <= max.
Proof.
  unfold positiveSafeInteger. destruct v as [| |f|]; try done.
  destruct (safeInteger f) as [x|]; [|done]. repeat case_if; intros; simplify_eq. blia.
Qed.

Lemma optionalInt_Ret name v fallback max z :
  0 < fallback <= max -> optionalInt name v fallback max = Ret z -> 0 < z <= max.
Proof.
  unfold optionalInt, requirePositiveInt. intros Hf. case_if; [intros; by simplify_eq|].
  apply positiveSafeInteger_Ret.
Qed.

(** Inversion of a chain of binds that returned. *)
Ltac ret_inv :=
  repeat match goal with
  | H : (_ ≫= _) = Ret _ |- _ =>
      let a := fresh "a" in let Ha := fresh "Ha" in
      apply throws_bind_Ret in H as (a & Ha & H)
  | H : (if ?b then RangeError _ else _) = Ret _ |- _ => destruct b eqn:?; [discriminate H|]
  | H : Ret _ = Ret _ |- _ => injection H as <-
  end.

Definition inRange (z : Z) : Prop := 0 < z <= MAX_ADMISSION_COST_OR_LIMIT.

Definition costConfigOk (c : AdmissionCostConfig) : Prop :=
  inRange (baseCost c) /\ inRange (bodyBytesPerUnit c) /\ inRange (tokensPerUnit c) /\
  inRange (messagesPerUnit c) /\ inRange (toolsPerUnit c) /\ inRange (fanoutPerUnit c) /\
  inRange (streamingClassCost c) /\ inRange (nonStreamingClassCost c) /\
  inRange (maxRequestCost c).

Lemma resolveCostConfig_ok partial c : resolveCostConfig partial = Ret c -> costConfigOk c.
Proof.
  unfold resolveCostConfig, requirePositiveSafeInteger. intros H. ret_inv.
  repeat match goal with H : positiveSafeInteger _ _ _ = Ret _ |- _ => apply positiveSafeInteger_Ret in H end.
  unfold costConfigOk, inRange. cbn. lia.
Qed.

(** The sign of a positive integer is kept. *)
Lemma dOfZ_sign q : 0 < q -> signOf (dOfZ q) = Some false \/ dOfZ q = S754_nan.
Proof.
  intros Hq. unfold dOfZ, binary_normalize. destruct q as [|p|p]; [lia| |lia].
  unfold binary_round. destruct (shl_align _ _ _) as [m e]. apply binary_round_aux_sign.
Qed.

Definition notNegative (f : double) : Prop := signOf f = Some false \/ f = S754_zero true.

Lemma finiteNonNegative_spec v : notNegative (finiteNonNegative v).
Proof.
  assert (Hz : notNegative dZero) by (left; reflexivity).
  destruct v as [| |f|]; simpl; [done..| |done].
  destruct (negb (dFinite f) || dLt f dZero) eqn:E; [done|]. to_prop.
  assert (notNegative f) as Hf.
  { destruct f as [[]|[]| |[] m e]; simpl in *; try done; first [by left|by right]. }
  unfold dMin. destruct (dLt _ f); [|done]. left. vm_compute. reflexivity.
Qed.

Lemma unitsFrom_nonneg f q z : notNegative f -> 0 < q -> unitsFrom f q = Some z -> 0 <= z.
Proof.
  intros Hf Hq. unfold unitsFrom. destruct (dLe f dZero) eqn:Hle; [intros; by simplify_eq|].
  destruct Hf as [Hf| ->]; [|done].
  destruct (dOfZ_sign q Hq) as [Hs|Hs].
  - destruct (dDiv_nonneg f (dOfZ q) Hf Hs) as [H| ->]; [|done]. by apply dCeil_nonneg.
  - rewrite Hs. by destruct f.
Qed.

(** The sum of contributions, capped: what the loop with its early exit and its
    overflow guard computes. *)
Definition cappedSum (start maximum : Z) (l : list (option Z)) : Z :=
  match mapM (fun c => c) l with
  | Some zs => Z.min maximum (start + sumZ zs)
  | None => maximum
  end.

Lemma addContributions_spec total maximum l :
  total <= maximum -> Forall (fun c => forall z, c = Some z -> 0 <= z) l ->
  addContributions total maximum l = cappedSum total maximum l.
Proof.
  unfold cappedSum. intros Ht Hl. revert total Ht.
  induction Hl as [|c l Hc Hl IH]; intros total Ht; simpl; [lia|].
  assert (Hpos : forall zs, mapM (fun c => c) l = Some zs -> 0 <= sumZ zs).
  { intros zs Hzs. apply sumZ_nonneg. apply mapM_Some in Hzs.
    clear -Hl Hzs. induction Hzs; inversion Hl; subst; constructor; eauto. }
  destruct c as [c|]; simpl.
  - specialize (Hc c eq_refl). destruct (c >=? maximum - total) eqn:E; to_prop.
    + rewrite Z.eqb_refl. destruct (mapM _ l) as [zs|]; simpl; [|done].
      specialize (Hpos zs eq_refl). lia.
    + destruct (total + c =? maximum) eqn:E2; [blia|]. rewrite IH by lia.
      destruct (mapM _ l) as [zs|]; simpl; [|done]. lia.
  - by rewrite Z.eqb_refl.
Qed.

Lemma contributions_nonneg features cfg :
  costConfigOk cfg -> Forall (fun c => forall z, c = Some z -> 0 <= z) (contributions features cfg).
Proof.
  intros (? & ? & ? & ? & ? & ? & ? & ? & ?). unfold inRange in *.
  assert (Hmax : notNegative (dMax dOne (finiteNonNegative (requestedFanout features)))).
  { unfold dMax. case_if; [apply finiteNonNegative_spec|left; vm_compute; reflexivity]. }
  repeat constructor; intros z; try (apply unitsFrom_nonneg; [apply finiteNonNegative_spec|lia]).
  - apply unitsFrom_nonneg; [done|lia].
  - destruct (streaming features) as [[]|]; intros; simplify_eq; lia.
Qed.

Lemma costConfig_pos cfg : costConfigOk cfg -> 0 < maxRequestCost cfg /\ 0 < baseCost cfg.
Proof. unfold costConfigOk, inRange. lia. Qed.

Lemma cappedSum_bounds start maximum l :
  Forall (fun c => forall z, c = Some z -> 0 <= z) l -> 1 <= start -> 1 <= maximum ->
  1 <= cappedSum start maximum l <= maximum /\
  cappedSum (Z.min start maximum) maximum l = cappedSum start maximum l.
Proof.
  intros Hl Hs Hm. unfold cappedSum. destruct (mapM (fun c => c) l) as [zs|] eqn:E; [|lia].
  assert (0 <= sumZ zs).
  { apply sumZ_nonneg. apply mapM_Some in E. revert Hl.
    induction E; inversion 1; subst; constructor; eauto. }
  lia.
Qed.

Lemma estimate_eq features config c :
  estimateAdmissionCost features config = Ret c ->
  exists cfg, resolveCostConfig config = Ret cfg /\
    c = cappedSum (baseCost cfg) (maxRequestCost cfg) (contributions features cfg).
Proof.
  unfold estimateAdmissionCost. intros H.
  apply throws_bind_Ret in H as (cfg & Hcfg & H). cbv zeta in H.
  match type of H with Ret ?x = Ret _ => assert (c = x) as -> by congruence end. clear H.
  exists cfg. pose proof (resolveCostConfig_ok _ _ Hcfg) as Hok.
  pose proof (contributions_nonneg features cfg Hok) as Hnn. apply costConfig_pos in Hok as [Hm Hb].
  rewrite addContributions_spec by (done || lia).
  by destruct (cappedSum_bounds (baseCost cfg) (maxRequestCost cfg) _ Hnn ltac:(lia) ltac:(lia)) as [_ ->].
Qed.

Lemma estimate_bounds features cfg :
  costConfigOk cfg ->
  1 <= cappedSum (baseCost cfg) (maxRequestCost cfg) (contributions features cfg) <= maxRequestCost cfg.
Proof.
  intros Hok. pose proof (contributions_nonneg features cfg Hok) as Hnn.
  apply costConfig_pos in Hok as [Hm Hb]. apply cappedSum_bounds; done || lia.
Qed.

Lemma normalizeRequestCost_pos cost max c : normalizeRequestCost cost max = Ret c -> 0 < c.
Proof.
  unfold normalizeRequestCost, requirePositiveSafeInteger. intros H. ret_inv.
  apply positiveSafeInteger_Ret in Ha, Ha0. lia.
Qed.

(** What validation establishes of each field. *)
Record ConfigOk (c : ValidatedConfig) : Prop := {
  ok_min : 0 < minLimit c;
  ok_minmax : minLimit c <= maxLimit c <= MAX_ADMISSION_COST_OR_LIMIT;
  ok_initial : 0 < initialLimit c;
  ok_queueCount : 0 < maxQueueCount c <= MAX_SAFE_INTEGER;
  ok_queueCost : 0 < maxQueueCost c <= MAX_ADMISSION_COST_OR_LIMIT;
  ok_window : 0 < windowMs c <= MAX_ADMISSION_WINDOW_MS;
  ok_wait : 0 < defaultMaxWaitMs c <= MAX_ADMISSION_WINDOW_MS;
  ok_cost : costConfigOk (costConfig c);
  ok_pmin : p_minLimit (adaptation c) = minLimit c;
  ok_pmax : p_maxLimit (adaptation c) = maxLimit c;
  ok_step : 0 < increaseStep (adaptation c);
  ok_maxStep : 0 < maxIncreasePerWindow (adaptation c);
  ok_decrease : atMostOne (decreaseFactor (adaptation c));
  ok_critical : atMostOne (criticalDecreaseFactor (adaptation c));
}.

(** The factors of an input are numbers the language can produce. *)
Definition jsDouble (v : jsval) : Prop := match v with JNumber f => isDouble f | _ => True end.

Definition validInput (input : AdaptiveAdmissionConfig) : Prop :=
  jsDouble (i_decreaseFactor input) /\ jsDouble (i_criticalDecreaseFactor input).

Lemma requireDecreaseFactor_ok name v fallback f :
  jsDouble v -> atMostOne fallback -> requireDecreaseFactor name v fallback = Ret f -> atMostOne f.
Proof.
  intros Hv Hf. unfold requireDecreaseFactor. destruct v as [| |g|]; try done; [intros; by simplify_eq|].
  destruct (dFinite g) eqn:Hfin; [|done]. destruct (dLe g dZero) eqn:Hpos; [done|].
  destruct (dLe dOne g) eqn:Hone; [done|]. cbn [negb orb].
  intros H. injection H as <-. by apply isDouble_below_one.
Qed.

Lemma resolveAdaptationParams_ok input mn mx w p :
  validInput input -> resolveAdaptationParams input mn mx w = Ret p ->
  p_minLimit p = mn /\ p_maxLimit p = mx /\ 0 < increaseStep p /\ 0 < maxIncreasePerWindow p /\
  atMostOne (decreaseFactor p) /\ atMostOne (criticalDecreaseFactor p).
Proof.
  unfold resolveAdaptationParams. intros [Hv1 Hv2] H. ret_inv. cbn.
  apply requireDecreaseFactor_ok in Ha; [|done|].
  2:{ apply isDouble_below_one; vm_compute; reflexivity. }
  apply requireDecreaseFactor_ok in Ha0; [|done|].
  2:{ apply isDouble_below_one; vm_compute; reflexivity. }
  apply optionalInt_Ret in Ha1; [|vm_compute; split; [done|discriminate]].
  apply optionalInt_Ret in Ha2; [|done]. split_and!; done || lia.
Qed.

Lemma validateConfig_ok input c : validInput input -> validateConfig input = Ret c -> ConfigOk c.
Proof.
  unfold validateConfig. intros Hv H. ret_inv. cbn. to_prop.
  apply resolveAdaptationParams_ok in Ha8 as (? & ? & ? & ? & ? & ?); [|done]. apply resolveCostConfig_ok in Ha6.
  apply optionalInt_Ret in Ha4; [|vm_compute; split; [done|discriminate]].
  apply optionalInt_Ret in Ha5; [|vm_compute; split; [done|discriminate]].
  unfold requirePositiveInt in *.
  repeat match goal with H : positiveSafeInteger _ _ _ = Ret _ |- _ => apply positiveSafeInteger_Ret in H end.
  split; cbn; done || lia.
Qed.

(** ** Properties *)

(** The cost estimate is a bounded sum.  For every request, however large,
    negative, fractional or malformed its features are, the estimate is the base
    cost plus the contributions of its features, capped at the configured
    maximum: the early exit and the overflow guard of the loop change nothing.
    It is at least 1 and at most [maxRequestCost]. *)
Theorem estimate_is_capped_sum features config c :
  estimateAdmissionCost features config = Ret c ->
  exists cfg, resolveCostConfig config = Ret cfg /\
    c = cappedSum (baseCost cfg) (maxRequestCost cfg) (contributions features cfg) /\
    1 <= c <= maxRequestCost cfg.
Proof.
  intros H. destruct (estimate_eq _ _ _ H) as (cfg & Hcfg & ->). exists cfg.
  pose proof (estimate_bounds features cfg (resolveCostConfig_ok _ _ Hcfg)). done.
Qed.

(** A configuration that passes validation is usable: every limit and
    window is positive, [minLimit <= maxLimit], the decrease factors are at most
    one, and a whole window at the
    largest cost or limit stays a safe integer, so that the products of costs
    and milliseconds of the controller are exact. *)
Theorem validateConfig_sound input c :
  validInput input -> validateConfig input = Ret c ->
  0 < minLimit c /\ minLimit c <= maxLimit c /\ 0 < initialLimit c /\ 0 < maxQueueCount c /\
  0 < maxQueueCost c /\ 0 < windowMs c /\ 0 < defaultMaxWaitMs c /\
  costConfigOk (costConfig c) /\
  maxLimit c * windowMs c <= MAX_SAFE_INTEGER /\
  maxQueueCost c * defaultMaxWaitMs c <= MAX_SAFE_INTEGER /\
  p_minLimit (adaptation c) = minLimit c /\ p_maxLimit (adaptation c) = maxLimit c /\
  0 < increaseStep (adaptation c) /\ 0 < maxIncreasePerWindow (adaptation c) /\
  atMostOne (decreaseFactor (adaptation c)) /\ atMostOne (criticalDecreaseFactor (adaptation c)).
Proof.
  intros Hv H. destruct (validateConfig_ok _ _ Hv H).
  assert (HMAX : MAX_ADMISSION_COST_OR_LIMIT * MAX_ADMISSION_WINDOW_MS <= MAX_SAFE_INTEGER)
    by (vm_compute; discriminate).
  split_and!; try done; try lia; nia.
Qed.

Definition exFeatures : AdmissionCostFeatures :=
  mkFeatures (jsInt 100000) (jsInt 5000) (jsInt 40) JNull JUndefined (Some false).

Example ex_cost : estimateAdmissionCost exFeatures noCostConfig = Ret 18.
Proof. vm_compute. reflexivity. Qed.

Lemma estimate_is_capped_sum_witness :
  exists cfg, resolveCostConfig noCostConfig = Ret cfg /\
    18 = cappedSum (baseCost cfg) (maxRequestCost cfg) (contributions exFeatures cfg) /\
    1 <= 18 <= maxRequestCost cfg.
Proof. apply (estimate_is_capped_sum exFeatures noCostConfig 18). vm_compute. reflexivity. Defined.

(** The input of a controller with limits 4 and 10 and everything else
    defaulted. *)
Definition exInput : AdaptiveAdmissionConfig :=
  mkAdmissionConfig (ModeIs enforce) (jsInt 4) (jsInt 10) (jsInt 8) (jsInt 5) (jsInt 20)
    JUndefined JUndefined JUndefined JUndefined JUndefined JUndefined JUndefined JUndefined
    JUndefined JUndefined JUndefined noCostConfig false.

Definition exConfig : ValidatedConfig :=
  mkValidated enforce 4 10 8 5 20 5000 1000
    (mkParams 4 10 1000 (dec 5 10) (dec 1 10) 1 (dec 8 10) (dec 5 10) (dec 7 10) (dec 3 10)
       (dec 25 100) 1)
    DEFAULT_ADMISSION_COST_CONFIG false.

Lemma validateConfig_sound_witness : 0 < minLimit exConfig.
Proof. apply (validateConfig_sound exInput exConfig); [done|]. vm_compute. reflexivity. Defined.
