(* ===== verification/FairQueue.v ===== *)
(** * Fair cost queue: [open-sse/services/admission/queue.ts]

    A bounded queue of weighted requests, one bucket per tenant, served round
    robin from a cursor, with a reservation for a head that was passed over too
    often.  An entry is an object shared with its bucket: the counter
    [skipCount] is updated in place. *)
From S2P Require Import Prelude JsMap.

#[local] Open Scope Z_scope.

Definition MAX_UNFITTABLE_SKIPS : Z := 2.

Section Queue.
Context {T : Type}.

(** A missing [skipCount] counts as 0 everywhere in the code.  The handle
    [timerId] of an entry's deadline timer is kept by the controller, in its
    registry of armed timers. *)
Record QueueEntry := mkEntry {
  id : string;
  tenantKey : string;
  cost : Z;
  enqueuedAtMs : Z;
  deadlineMs : Z;
  payload : T;
  skipCount : Z;
}.

Record FairCostQueue := mkQueue {
  maxCount : Z;
  maxCost : Z;
  buckets : jsmap string (list QueueEntry);
  order : list string;
  cursor : nat;
  count : Z;
  totalCost : Z;
}.

#[export] Instance QueueEntry_eta : Eta QueueEntry := fun x =>
  mkEntry (id x) (tenantKey x) (cost x) (enqueuedAtMs x) (deadlineMs x) (payload x) (skipCount x).
#[export] Instance FairCostQueue_eta : Eta FairCostQueue := fun x =>
  mkQueue (maxCount x) (maxCost x) (buckets x) (order x) (cursor x) (count x) (totalCost x).

Definition newQueue (maxCount maxCost : Z) : FairCostQueue :=
  mkQueue maxCount maxCost [] [] 0 0 0.

Definition canAccept (entryCost : Z) (q : FairCostQueue) : bool :=
  if negb (Z.abs entryCost <=? MAX_SAFE_INTEGER) || (entryCost <=? 0) then false
  else if count q >=? maxCount q then false
  else if entryCost >? maxCost q - totalCost q then false
  else true.

Definition enqueue (entry : QueueEntry) (q : FairCostQueue) : FairCostQueue * bool :=
  if negb (canAccept (cost entry) q) then (q, false)
  else
    let q := match mget (tenantKey entry) (buckets q) with
             | Some _ => q
             | None => q <| buckets := mset (tenantKey entry) [] (buckets q) |>
                         <| order := order q ++ [tenantKey entry] |>
             end in
    let bucket := orElse (mget (tenantKey entry) (buckets q)) [] in
    (q <| buckets := mset (tenantKey entry) (bucket ++ [entry]) (buckets q) |>
       <| count := count q + 1 |> <| totalCost := totalCost q + cost entry |>, true).

(** [this.buckets.get(this.order[idx])?.[0]]. *)
Definition headAt (q : FairCostQueue) (idx : nat) : option QueueEntry :=
  tenant ← order q !! idx; bucket ← mget tenant (buckets q); head bucket.

Definition slot (q : FairCostQueue) (i : nat) : nat := Nat.modulo (cursor q + i) (length (order q)).

Definition slots (q : FairCostQueue) : list nat := slot q <$> seq 0 (length (order q)).

(** The oldest head that was passed over [MAX_UNFITTABLE_SKIPS] times. *)
Definition findReserved (q : FairCostQueue) : option (nat * QueueEntry) :=
  foldl (fun reserved idx =>
    match headAt q idx with
    | None => reserved
    | Some entry =>
        if skipCount entry >=? MAX_UNFITTABLE_SKIPS then
          match reserved with
          | Some (_, r) => if enqueuedAtMs entry <? enqueuedAtMs r then Some (idx, entry) else reserved
          | None => Some (idx, entry)
          end
        else reserved
    end) None (slots q).

Definition takeAt (idx : nat) (q : FairCostQueue) : FairCostQueue * option QueueEntry :=
  match order q !! idx with
  | None => (q, None)
  | Some tenant =>
      match mget tenant (buckets q) with
      | Some (entry :: bucket) =>
          let q := q <| count := count q - 1 |> <| totalCost := totalCost q - cost entry |> in
          let q :=
            match bucket with
            | [] =>
                let order' := removeAt idx (order q) in
                q <| buckets := mdel tenant (buckets q) |> <| order := order' |>
                  <| cursor := if Nat.eqb (length order') 0 then 0%nat
                               else Nat.modulo idx (length order') |>
            | _ =>
                q <| buckets := mset tenant bucket (buckets q) |>
                  <| cursor := Nat.modulo (idx + 1) (length (order q)) |>
            end in
          (q, Some (entry <| skipCount := 0 |>))
      | _ => (q, None)
      end
  end.

(** [skipped.skipCount = (skipped.skipCount ?? 0) + 1] on the head at [idx]. *)
Definition bumpHead (q : FairCostQueue) (idx : nat) : FairCostQueue :=
  match order q !! idx with
  | None => q
  | Some tenant =>
      match mget tenant (buckets q) with
      | Some (entry :: bucket) =>
          q <| buckets := mset tenant (entry <| skipCount := skipCount entry + 1 |> :: bucket) (buckets q) |>
      | _ => q
      end
  end.

Fixpoint scanFit (max : Z) (slots bypassed : list nat) (q : FairCostQueue)
    : FairCostQueue * option QueueEntry :=
  match slots with
  | [] => (q, None)
  | idx :: slots =>
      match headAt q idx with
      | None => scanFit max slots bypassed q
      | Some entry =>
          if cost entry >? max then scanFit max slots (bypassed ++ [idx]) q
          else takeAt idx (foldl bumpHead q bypassed)
      end
  end.

Definition dequeue (max : Z) (q : FairCostQueue) : FairCostQueue * option QueueEntry :=
  if count q =? 0 then (q, None)
  else
    match findReserved q with
    | Some (idx, entry) => if cost entry >? max then (q, None) else takeAt idx q
    | None => scanFit max (slots q) [] q
    end.

Definition peek (q : FairCostQueue) : option QueueEntry :=
  if count q =? 0 then None
  else foldr (fun idx rest => match headAt q idx with Some e => Some e | None => rest end)
         None (slots q).

Fixpoint removeFrom (i : string) (ti : nat) (tenants : list string) (q : FairCostQueue)
    : FairCostQueue * option QueueEntry :=
  match tenants with
  | [] => (q, None)
  | tenant :: tenants =>
      match mget tenant (buckets q) with
      | None => removeFrom i (S ti) tenants q
      | Some bucket =>
          match findIndex (fun e => bool_decide (id e = i)) bucket with
          | None => removeFrom i (S ti) tenants q
          | Some idx =>
              match bucket !! idx with
              | None => (q, None)
              | Some entry =>
                  let bucket := removeAt idx bucket in
                  let q := q <| count := count q - 1 |> <| totalCost := totalCost q - cost entry |> in
                  let q :=
                    match bucket with
                    | [] =>
                        let order' := removeAt ti (order q) in
                        let n := length order' in
                        q <| buckets := mdel tenant (buckets q) |> <| order := order' |>
                          <| cursor := if Nat.eqb n 0 then 0%nat
                                       else if Nat.ltb ti (cursor q) then (cursor q - 1)%nat
                                       else if Nat.leb n (cursor q) then 0%nat
                                       else cursor q |>
                    | _ => q <| buckets := mset tenant bucket (buckets q) |>
                    end in
                  (q, Some entry)
              end
          end
      end
  end.

Definition removeById (i : string) (q : FairCostQueue) : FairCostQueue * option QueueEntry :=
  removeFrom i 0 (order q) q.

Fixpoint drainLoop (fuel : nat) (q : FairCostQueue) : FairCostQueue * list QueueEntry :=
  match fuel with
  | O => (q, [])
  | S fuel =>
      match dequeue MAX_SAFE_INTEGER q with
      | (q, None) => (q, [])
      | (q, Some e) => let '(q, out) := drainLoop fuel q in (q, e :: out)
      end
  end.

(** One iteration per entry and one to see the queue empty. *)
Definition drain (q : FairCostQueue) : FairCostQueue * list QueueEntry :=
  let '(q, out) := drainLoop (S (Z.to_nat (count q))) q in (q <| cursor := 0%nat |>, out).

End Queue.

Arguments QueueEntry : clear implicits.
Arguments FairCostQueue : clear implicits.

(** ** Invariant *)

Section Invariant.
Context {T : Type}.
Implicit Types (q : FairCostQueue T) (e : QueueEntry T) (b : list (QueueEntry T)).

Definition entries q : list (QueueEntry T) := concat (mvals (buckets q)).

Definition costOf (l : list (QueueEntry T)) : Z := sumZ (cost <$> l).

Definition entryOk (t : string) e : Prop := tenantKey e = t /\ 0 < cost e <= MAX_SAFE_INTEGER.

Definition bucketOk (tb : string * list (QueueEntry T)) : Prop :=
  tb.2 <> [] /\ Forall (entryOk tb.1) tb.2.

Record QInv q : Prop := {
  q_order : order q = mkeys (buckets q);
  q_wf : mwf (buckets q);
  q_buckets : Forall bucketOk (buckets q);
  q_count : count q = Z.of_nat (length (entries q));
  q_cost : totalCost q = costOf (entries q);
  q_maxCount : count q <= Z.max 0 (maxCount q);
  q_maxCost : totalCost q <= Z.max 0 (maxCost q);
  q_cursor : (cursor q < length (order q))%nat \/ cursor q = 0%nat;
}.

Lemma costOf_app l1 l2 : costOf (l1 ++ l2) = costOf l1 + costOf l2.
Proof. unfold costOf. by rewrite fmap_app, sumZ_app. Qed.

Lemma costOf_perm l1 l2 : l1 ≡ₚ l2 -> costOf l1 = costOf l2.
Proof. intros H. apply sumZ_Permutation. by rewrite H. Qed.

Lemma concat_perm {A} (l1 l2 : list (list A)) : l1 ≡ₚ l2 -> concat l1 ≡ₚ concat l2.
Proof.
  induction 1 as [|x l1 l2 _ IH|x y l|l1 l2 l3 _ IH1 _ IH2]; simpl; [done|by rewrite IH| |by etrans].
  rewrite !app_assoc. by rewrite (Permutation_app_comm x y).
Qed.

Lemma entries_split t b (m : jsmap string (list (QueueEntry T))) :
  mget t m = Some b -> concat (mvals m) ≡ₚ b ++ concat (mvals (mdel t m)).
Proof.
  intros Hm. apply mdel_perm in Hm. unfold mvals.
  exact (concat_perm _ _ (fmap_Permutation snd _ _ Hm)).
Qed.

Lemma entries_mset t b b' (m : jsmap string (list (QueueEntry T))) :
  mget t m = Some b -> concat (mvals (mset t b' m)) ≡ₚ b' ++ concat (mvals (mdel t m)).
Proof.
  intros Hm. apply (mset_perm _ _ b') in Hm. unfold mvals.
  exact (concat_perm _ _ (fmap_Permutation snd _ _ Hm)).
Qed.

Lemma mget_bucket q t b : QInv q -> mget t (buckets q) = Some b -> b <> [] /\ Forall (entryOk t) b.
Proof.
  intros I Hm. apply mget_Some_elem in Hm.
  pose proof (q_buckets _ I) as Hb. rewrite Forall_forall in Hb. exact (Hb _ Hm).
Qed.

Lemma QInv_new mc mk : QInv (newQueue mc mk).
Proof. split; simpl; try done; try lia; apply mwf_nil. Qed.

(** Replacing a bucket by another non-empty one. *)
Lemma QInv_setBucket q t b b' :
  QInv q -> mget t (buckets q) = Some b -> b' <> [] -> Forall (entryOk t) b' ->
  count q + Z.of_nat (length b') - Z.of_nat (length b) <= Z.max 0 (maxCount q) ->
  totalCost q + costOf b' - costOf b <= Z.max 0 (maxCost q) ->
  QInv (q <| buckets := mset t b' (buckets q) |>
          <| count := count q + Z.of_nat (length b') - Z.of_nat (length b) |>
          <| totalCost := totalCost q + costOf b' - costOf b |>).
Proof.
  intros I Hm Hne Hok Hc Hk. destruct I as [Io Iw Ib Ic Ik Imc Imk Icur].
  split; simpl; try done.
  - rewrite mkeys_mset. unfold mhas. by rewrite Hm.
  - by apply mwf_mset.
  - by apply Forall_mset.
  - unfold entries in *. simpl. rewrite (entries_mset _ _ _ _ Hm), Ic, (entries_split _ _ _ Hm).
    rewrite !length_app. lia.
  - unfold entries in *. simpl.
    rewrite (costOf_perm _ _ (entries_mset _ _ b' _ Hm)), Ik, (costOf_perm _ _ (entries_split _ _ _ Hm)).
    rewrite !costOf_app. lia.
Qed.

Lemma mkeys_mdel_lookup t (m : jsmap string (list (QueueEntry T))) i :
  mwf m -> mkeys m !! i = Some t -> mkeys (mdel t m) = removeAt i (mkeys m).
Proof.
  revert i. induction m as [|[t' b] m IH]; intros i Hwf Hi; [done|].
  rewrite mkeys_cons in Hi |- *. unfold mwf in Hwf. rewrite mkeys_cons in Hwf.
  apply NoDup_cons in Hwf as [Hni Hnd]. simpl. case_decide as Hd.
  - destruct i as [|i]; [done|]. simpl in Hi. apply list_elem_of_lookup_2 in Hi. by subst.
  - destruct i as [|i]; simpl in Hi; [by simplify_eq|]. rewrite mkeys_cons.
    by rewrite (IH i Hnd Hi).
Qed.

(** Deleting a bucket together with its place in the order. *)
Lemma QInv_delBucket q t b i c :
  QInv q -> mget t (buckets q) = Some b -> order q !! i = Some t ->
  ((c < length (removeAt i (order q)))%nat \/ c = 0%nat) ->
  QInv (q <| buckets := mdel t (buckets q) |> <| order := removeAt i (order q) |> <| cursor := c |>
          <| count := count q - Z.of_nat (length b) |>
          <| totalCost := totalCost q - costOf b |>).
Proof.
  intros I Hm Hi Hcur. destruct (mget_bucket q t b I Hm) as [_ Hb].
  destruct I as [Io Iw Ib Ic Ik Imc Imk Icur].
  assert (0 <= costOf b).
  { apply sumZ_nonneg, Forall_fmap. eapply Forall_impl; [exact Hb|]. intros e [_ ?]. simpl. lia. }
  split; simpl; try done.
  - rewrite Io in *. symmetry. by apply mkeys_mdel_lookup.
  - by apply mwf_mdel.
  - by apply Forall_mdel.
  - unfold entries in *. simpl. rewrite Ic, (entries_split _ _ _ Hm), length_app. lia.
  - unfold entries in *. simpl. rewrite Ik, (costOf_perm _ _ (entries_split _ _ _ Hm)), costOf_app. lia.
  - lia.
  - lia.
Qed.

Lemma QInv_enqueue e q : QInv q -> QInv (enqueue e q).1.
Proof.
  intros I. unfold enqueue. destruct (canAccept (cost e) q) eqn:Ha; simpl; [|done].
  unfold canAccept in Ha. repeat case_if_in Ha; try done. to_prop.
  destruct (mget (tenantKey e) (buckets q)) as [b|] eqn:Hm; simpl.
  - rewrite Hm. simpl. destruct (mget_bucket q _ b I Hm) as [Hne Hok].
    eapply eq_ind; [apply (QInv_setBucket q _ b (b ++ [e]) I Hm)|].
    + by destruct b.
    + apply Forall_app. split; [done|]. repeat constructor; lia.
    + rewrite length_app. simpl. lia.
    + rewrite costOf_app. unfold costOf at 2. simpl. lia.
    + rewrite length_app, costOf_app. unfold costOf at 2. simpl.
      unfold set_field. simpl. f_equal; lia.
  - rewrite mget_mset_eq. simpl.
    destruct I as [Io Iw Ib Ic Ik Imc Imk Icur].
    assert (Hnew : mset (tenantKey e) [e] (mset (tenantKey e) [] (buckets q)) = buckets q ++ [(tenantKey e, [e])]).
    { rewrite (mset_new _ []) by (unfold mhas; by rewrite Hm).
      clear -Hm. induction (buckets q) as [|[k v] m IH]; simpl in *; [by rewrite decide_True|].
      case_decide; [done|]. by rewrite IH. }
    rewrite Hnew. split; simpl.
    + rewrite Io. unfold mkeys. by rewrite fmap_app.
    + unfold mwf, mkeys. rewrite fmap_app. apply NoDup_app. split; [done|].
      split; [|apply NoDup_singleton]. intros x Hx ->%list_elem_of_singleton.
      by apply mget_None in Hm.
    + apply Forall_app. split; [done|]. repeat constructor; simpl; [done|lia..].
    + unfold entries, mvals in *. simpl. rewrite fmap_app, concat_app, length_app. simpl. lia.
    + unfold entries, mvals in *. simpl. rewrite fmap_app, concat_app, costOf_app. simpl.
      unfold costOf at 2. simpl. lia.
    + lia.
    + lia.
    + rewrite length_app. simpl. lia.
Qed.

Lemma costOf_cons e l : costOf (e :: l) = cost e + costOf l.
Proof. done. Qed.

Lemma QInv_bumpHead q i : QInv q -> QInv (bumpHead q i).
Proof.
  intros I. unfold bumpHead. destruct (order q !! i) as [t|]; [|done].
  destruct (mget t (buckets q)) as [[|e b]|] eqn:Hm; [done| |done].
  destruct (mget_bucket q _ _ I Hm) as [_ Hok].
  eapply eq_ind; [apply (QInv_setBucket q t _ (e <| skipCount := skipCount e + 1 |> :: b) I Hm)|].
  - done.
  - apply Forall_cons in Hok as [? ?]. by constructor.
  - simpl. pose proof (q_maxCount _ I). lia.
  - rewrite !costOf_cons. simpl. pose proof (q_maxCost _ I). lia.
  - rewrite !costOf_cons. unfold set_field. simpl. f_equal; lia.
Qed.

Lemma QInv_cursor q c :
  QInv q -> ((c < length (order q))%nat \/ c = 0%nat) -> QInv (q <| cursor := c |>).
Proof. intros [] Hc; by split. Qed.

Lemma modulo_lt a n : (n <> 0 -> Nat.modulo a n < n)%nat.
Proof. apply Nat.mod_upper_bound. Qed.

Lemma QInv_takeAt idx q : QInv q -> QInv (takeAt idx q).1.
Proof.
  intros I. unfold takeAt. destruct (order q !! idx) as [t|] eqn:Hi; [|done].
  destruct (mget t (buckets q)) as [[|e b]|] eqn:Hm; [done| |done]. simpl.
  destruct (mget_bucket q _ _ I Hm) as [_ Hok].
  pose proof (lookup_lt_Some _ _ _ Hi) as Hlt.
  destruct b as [|e2 b]; simpl.
  - eapply eq_ind; [apply (QInv_delBucket q t [e] idx
      (if Nat.eqb (length (removeAt idx (order q))) 0 then 0%nat
       else Nat.modulo idx (length (removeAt idx (order q)))) I Hm Hi)|].
    + destruct (Nat.eqb_spec (length (removeAt idx (order q))) 0); [by right|left]. by apply modulo_lt.
    + rewrite costOf_cons. unfold set_field. simpl. f_equal; unfold costOf; simpl; lia.
  - pose proof (QInv_setBucket q t _ (e2 :: b) I Hm ltac:(done)) as I2.
    apply Forall_cons in Hok as [[_ He] Hok]. pose proof (q_maxCount _ I). pose proof (q_maxCost _ I).
    specialize (I2 Hok ltac:(simpl; lia) ltac:(rewrite !costOf_cons; lia)).
    eapply eq_ind; [apply (QInv_cursor _ (Nat.modulo (idx + 1) (length (order q))) I2)|].
    + left. apply modulo_lt. simpl. lia.
    + rewrite !costOf_cons. unfold set_field. simpl. f_equal; lia.
Qed.

Lemma QInv_scanFit max ixs bypassed q : QInv q -> QInv (scanFit max ixs bypassed q).1.
Proof.
  intros I. revert bypassed. induction ixs as [|i ixs IH]; intros bypassed; simpl; [done|].
  destruct (headAt q i); [|done]. case_if; [done|]. apply QInv_takeAt.
  clear -I. revert q I. induction bypassed as [|j l IH]; intros q I; simpl; [done|].
  by apply IH, QInv_bumpHead.
Qed.

Lemma QInv_dequeue max q : QInv q -> QInv (dequeue max q).1.
Proof.
  intros I. unfold dequeue. case_if; [done|]. destruct (findReserved q) as [[i e]|].
  - case_if; [done|]. by apply QInv_takeAt.
  - by apply QInv_scanFit.
Qed.

Lemma costOf_removeAt b i e :
  b !! i = Some e -> costOf b = cost e + costOf (removeAt i b).
Proof. intros H. apply removeAt_perm in H. by rewrite (costOf_perm _ _ H). Qed.

Lemma QInv_removeFrom i q ts pre :
  QInv q -> order q = pre ++ ts -> QInv (removeFrom i (length pre) ts q).1.
Proof.
  intros I. revert pre. induction ts as [|t ts IH]; intros pre Ho; simpl; [done|].
  assert (QInv (removeFrom i (S (length pre)) ts q).1) as Hnext.
  { replace (S (length pre)) with (length (pre ++ [t])) by (rewrite length_app; simpl; lia).
    apply IH. by rewrite <- app_assoc. }
  destruct (mget t (buckets q)) as [b|] eqn:Hm; [|done].
  destruct (findIndex _ b) as [j|] eqn:Hj; [|done].
  destruct (b !! j) as [e|] eqn:He; [|done]. cbn zeta.
  destruct (mget_bucket q _ _ I Hm) as [_ Hok].
  pose proof (length_removeAt b j (lookup_lt_Some _ _ _ He)) as Hlen.
  pose proof (costOf_removeAt _ _ _ He) as Hcost.
  pose proof (lookup_lt_Some _ _ _ He) as Hlt.
  assert (Hi : order q !! length pre = Some t) by (by rewrite Ho, list_lookup_middle).
  assert (0 < cost e) by (rewrite Forall_forall in Hok; apply (Hok e), list_elem_of_lookup_2 with j, He).
  destruct (removeAt j b) as [|e2 b'] eqn:Hr; simpl.
  - eapply eq_ind; [apply (QInv_delBucket q t b (length pre)
      (let n := length (removeAt (length pre) (order q)) in
       if Nat.eqb n 0 then 0%nat else if Nat.ltb (length pre) (cursor q) then (cursor q - 1)%nat
       else if Nat.leb n (cursor q) then 0%nat else cursor q) I Hm Hi)|].
    + cbn zeta. pose proof (length_removeAt (order q) _ (lookup_lt_Some _ _ _ Hi)) as Hl.
      pose proof (q_cursor _ I). pose proof (lookup_lt_Some _ _ _ Hi). rewrite Hl.
      destruct (Nat.eqb_spec (length (order q) - 1) 0); [by right|].
      destruct (Nat.ltb_spec (length pre) (cursor q)); [lia|].
      destruct (Nat.leb_spec (length (order q) - 1) (cursor q)); lia.
    + unfold set_field. simpl. rewrite Hcost. unfold costOf at 1. simpl in Hlen. simpl.
      f_equal; lia.
  - pose proof (QInv_setBucket q t _ (e2 :: b') I Hm ltac:(done)) as I2.
    pose proof (q_maxCount _ I). pose proof (q_maxCost _ I).
    assert (Hok' : Forall (entryOk t) (e2 :: b')).
    { rewrite (removeAt_perm _ _ _ He), Hr in Hok. by apply Forall_cons in Hok as [_ Hok]. }
    specialize (I2 Hok' ltac:(lia) ltac:(lia)).
    eapply eq_ind; [exact I2|]. unfold set_field. simpl. f_equal; simpl in Hlen; lia.
Qed.

Lemma QInv_removeById i q : QInv q -> QInv (removeById i q).1.
Proof. intros I. by apply (QInv_removeFrom i q (order q) []). Qed.

Lemma QInv_drainLoop fuel q : QInv q -> QInv (drainLoop fuel q).1.
Proof.
  revert q. induction fuel as [|fuel IH]; intros q I; simpl; [done|].
  pose proof (QInv_dequeue MAX_SAFE_INTEGER q I) as Id.
  destruct (dequeue MAX_SAFE_INTEGER q) as [q1 [e|]]; simpl in *; [|done].
  specialize (IH q1 Id). by destruct (drainLoop fuel q1).
Qed.
End Invariant.

(** ** What the operations do *)

Section Function.
Context {T : Type}.
Implicit Types (q : FairCostQueue T) (e h : QueueEntry T) (t : string).

Definition strip e : QueueEntry T := e <| skipCount := 0 |>.

(** The entries waiting for a tenant, oldest first. *)
Definition bucketOf q t : list (QueueEntry T) := orElse (mget t (buckets q)) [].

(** The same queue up to the pass-over counters. *)
Definition sameButSkips q q' : Prop :=
  order q' = order q /\ cursor q' = cursor q /\ count q' = count q /\
  forall t, strip <$> bucketOf q' t = strip <$> bucketOf q t.

Lemma sameButSkips_refl q : sameButSkips q q.
Proof. done. Qed.

Lemma sameButSkips_trans q1 q2 q3 : sameButSkips q1 q2 -> sameButSkips q2 q3 -> sameButSkips q1 q3.
Proof. intros (A1&A2&A3&A4) (B1&B2&B3&B4). split_and!; congruence. Qed.

Lemma headAt_bucket q i h :
  headAt q i = Some h -> exists t l, order q !! i = Some t /\ mget t (buckets q) = Some (h :: l).
Proof.
  unfold headAt. destruct (order q !! i) as [t|]; [|done]. simpl.
  destruct (mget t (buckets q)) as [[|x l]|] eqn:Hm; simpl; intros; simplify_eq. eauto.
Qed.

Lemma headAt_tenant q i h : QInv q -> headAt q i = Some h -> order q !! i = Some (tenantKey h).
Proof.
  intros I Hh. destruct (headAt_bucket _ _ _ Hh) as (t & l & Ht & Hm).
  destruct (mget_bucket q t _ I Hm) as [_ Hok]. by apply Forall_cons in Hok as [[-> _] _].
Qed.

Lemma bumpHead_same q i : sameButSkips q (bumpHead q i).
Proof.
  unfold bumpHead. destruct (order q !! i) as [t|]; [|done].
  destruct (mget t (buckets q)) as [[|e b]|] eqn:Hm; [done| |done].
  split_and!; try done. intros t'. unfold bucketOf. simpl. rewrite mget_mset.
  case_decide; subst; [|done]. by rewrite Hm.
Qed.

Lemma bumpHeads_same ixs q : sameButSkips q (foldl bumpHead q ixs).
Proof.
  revert q. induction ixs as [|i ixs IH]; intros q; simpl; [done|].
  eapply sameButSkips_trans; [apply bumpHead_same|apply IH].
Qed.

Lemma QInv_bumpHeads ixs q : QInv q -> QInv (foldl bumpHead q ixs).
Proof. revert q. induction ixs as [|i ixs IH]; intros q I; simpl; [done|]. by apply IH, QInv_bumpHead. Qed.

Lemma headAt_same q q' i h :
  sameButSkips q q' -> headAt q i = Some h -> exists h', headAt q' i = Some h' /\ strip h' = strip h.
Proof.
  intros (Ho & _ & _ & Hb) Hh. destruct (headAt_bucket _ _ _ Hh) as (t & l & Ht & Hm).
  specialize (Hb t). unfold bucketOf in Hb. rewrite Hm in Hb. simpl in Hb.
  unfold headAt. rewrite Ho, Ht. simpl. destruct (mget t (buckets q')) as [[|x l']|]; simpl in *; [done| |done].
  exists x. split; [done|]. congruence.
Qed.

(** Taking the head of a tenant: its bucket loses its first entry, every other
    bucket is unchanged, and the cursor moves to the next tenant. *)
Lemma takeAt_spec q i h :
  QInv q -> headAt q i = Some h ->
  (takeAt i q).2 = Some (strip h) /\
  count (takeAt i q).1 = count q - 1 /\
  forall t, bucketOf q t = (if decide (t = tenantKey h) then [h] else []) ++ bucketOf (takeAt i q).1 t.
Proof.
  intros I Hh. pose proof (headAt_tenant q i h I Hh) as Ht.
  destruct (headAt_bucket _ _ _ Hh) as (t0 & l & Ht0 & Hm). simplify_eq.
  unfold takeAt. rewrite Ht, Hm. simpl. split; [done|].
  split; [by destruct l|]. intros t. unfold bucketOf. destruct l as [|e2 l]; simpl.
  - case_decide as Hd; subst; [|by rewrite mget_mdel_ne].
    by rewrite Hm, mget_mdel_eq by apply I.
  - rewrite mget_mset. case_decide as Hd; subst; [|done]. by rewrite Hm.
Qed.

Lemma scanFit_spec max ixs bypassed q :
  QInv q ->
  match scanFit max ixs bypassed q with
  | (q', None) => q' = q /\ forall i h, i ∈ ixs -> headAt q i = Some h -> max < cost h
  | (q', Some e) => exists i h q1, i ∈ ixs /\ headAt q i = Some h /\ cost h <= max /\ QInv q1 /\
      sameButSkips q q1 /\ q' = (takeAt i q1).1 /\ Some e = (takeAt i q1).2
  end.
Proof.
  intros I. revert bypassed. induction ixs as [|i ixs IH]; intros bypassed; simpl.
  - split; [done|]. intros i h Hi. by apply elem_of_nil in Hi.
  - destruct (headAt q i) as [h|] eqn:Hh.
    + destruct (cost h >? max) eqn:Hc; to_prop.
      * specialize (IH (bypassed ++ [i])). destruct (scanFit max ixs _ q) as [q' [e|]].
        -- destruct IH as (j & h' & q1 & Hj & ?). exists j, h', q1. split; [by right|done].
        -- destruct IH as [-> Hn]. split; [done|]. intros j h' [->|Hj]%elem_of_cons; [|by apply Hn].
           intros; simplify_eq. lia.
      * destruct (headAt_same q _ i h (bumpHeads_same bypassed q) Hh) as (h1 & Hh1 & Hs).
        destruct (takeAt_spec _ i h1 (QInv_bumpHeads bypassed q I) Hh1) as (He & _).
        destruct (takeAt i (foldl bumpHead q bypassed)) as [q' r] eqn:E. simpl in He. subst r.
        exists i, h, (foldl bumpHead q bypassed). rewrite E.
        split_and!; try done; [left|by apply QInv_bumpHeads|apply bumpHeads_same].
    + specialize (IH bypassed). destruct (scanFit max ixs bypassed q) as [q' [e|]].
      * destruct IH as (j & h' & q1 & Hj & ?). exists j, h', q1. split; [by right|done].
      * destruct IH as [-> Hn]. split; [done|]. intros j h' [->|Hj]%elem_of_cons; [congruence|by apply Hn].
Qed.

Definition aged h : Prop := MAX_UNFITTABLE_SKIPS <= skipCount h.

Lemma findReserved_spec q :
  match findReserved q with
  | Some (i, r) => i ∈ slots q /\ headAt q i = Some r /\ aged r /\
      forall j h, j ∈ slots q -> headAt q j = Some h -> aged h -> enqueuedAtMs r <= enqueuedAtMs h
  | None => forall j h, j ∈ slots q -> headAt q j = Some h -> ~ aged h
  end.
Proof.
  unfold findReserved. set (f := fun (reserved : option (nat * QueueEntry T)) idx => _).
  cut (forall l pre acc, slots q = pre ++ l ->
    (match acc with
     | Some (i, r) => i ∈ pre /\ headAt q i = Some r /\ aged r /\
         forall j h, j ∈ pre -> headAt q j = Some h -> aged h -> enqueuedAtMs r <= enqueuedAtMs h
     | None => forall j h, j ∈ pre -> headAt q j = Some h -> ~ aged h
     end) ->
    match foldl f acc l with
    | Some (i, r) => i ∈ slots q /\ headAt q i = Some r /\ aged r /\
        forall j h, j ∈ slots q -> headAt q j = Some h -> aged h -> enqueuedAtMs r <= enqueuedAtMs h
    | None => forall j h, j ∈ slots q -> headAt q j = Some h -> ~ aged h
    end).
  { intros H. apply (H (slots q) [] None); [done|]. intros j h Hj. by apply elem_of_nil in Hj. }
  induction l as [|i l IH]; intros pre acc Hs Hacc; simpl.
  { rewrite app_nil_r in Hs. by rewrite Hs. }
  apply (IH (pre ++ [i])); [by rewrite <- app_assoc|].
  unfold f. destruct (headAt q i) as [h|] eqn:Hh.
  - destruct (skipCount h >=? MAX_UNFITTABLE_SKIPS) eqn:Ha; to_prop.
    + destruct acc as [[j r]|].
      * destruct Hacc as (Hj & Hr & Hag & Hall). destruct (enqueuedAtMs h <? enqueuedAtMs r) eqn:He; to_prop.
        -- split_and!; try done; [set_solver|].
           intros k g Hk Hg Hga. apply elem_of_app in Hk as [Hk|Hk].
           ++ specialize (Hall k g Hk Hg Hga). lia.
           ++ apply list_elem_of_singleton in Hk. simplify_eq. lia.
        -- split_and!; try done; [set_solver|].
           intros k g Hk Hg Hga. apply elem_of_app in Hk as [Hk|Hk]; [by apply (Hall k)|].
           apply list_elem_of_singleton in Hk. simplify_eq. lia.
      * split_and!; try done; [set_solver|].
        intros k g Hk Hg Hga. apply elem_of_app in Hk as [Hk|Hk]; [by destruct (Hacc k g)|].
        apply list_elem_of_singleton in Hk. simplify_eq. lia.
    + assert (Hna : ~ aged h) by (unfold aged; lia).
      destruct acc as [[j r]|].
      * destruct Hacc as (Hj & Hr & Hag & Hall). split_and!; try done; [set_solver|].
        intros k g Hk Hg Hga. apply elem_of_app in Hk as [Hk|Hk]; [by apply (Hall k)|].
        apply list_elem_of_singleton in Hk. by simplify_eq.
      * intros k g Hk Hg. apply elem_of_app in Hk as [Hk|Hk]; [by apply (Hacc k)|].
        apply list_elem_of_singleton in Hk. by simplify_eq.
  - destruct acc as [[j r]|].
    + destruct Hacc as (Hj & Hr & Hag & Hall). split_and!; try done; [set_solver|].
      intros k g Hk Hg Hga. apply elem_of_app in Hk as [Hk|Hk]; [by apply (Hall k)|].
      apply list_elem_of_singleton in Hk. by simplify_eq.
    + intros k g Hk Hg. apply elem_of_app in Hk as [Hk|Hk]; [by apply (Hacc k)|].
      apply list_elem_of_singleton in Hk. by simplify_eq.
Qed.

(** Every position of the order is visited. *)
Lemma slots_all q j : QInv q -> (j < length (order q))%nat -> j ∈ slots q.
Proof.
  intros I Hj. unfold slots. apply list_elem_of_fmap.
  assert (Hc : (cursor q < length (order q))%nat) by (destruct (q_cursor _ I); lia).
  destruct (le_lt_dec (cursor q) j) as [Hle|Hlt].
  - exists (j - cursor q)%nat. split; [|apply elem_of_seq; lia].
    unfold slot. replace (cursor q + (j - cursor q))%nat with j by lia.
    by rewrite Nat.mod_small.
  - exists (j + length (order q) - cursor q)%nat. split; [|apply elem_of_seq; lia].
    unfold slot. replace (cursor q + (j + length (order q) - cursor q))%nat
      with (j + 1 * length (order q))%nat by lia.
    by rewrite Nat.Div0.mod_add, Nat.mod_small.
Qed.

Lemma headAt_slot q j h : QInv q -> headAt q j = Some h -> j ∈ slots q.
Proof.
  intros I Hh. apply slots_all; [done|]. destruct (headAt_bucket _ _ _ Hh) as (t & l & Ht & _).
  by apply lookup_lt_Some in Ht.
Qed.

Lemma count_zero q j : QInv q -> count q = 0 -> headAt q j = None.
Proof.
  intros I Hc. destruct (headAt q j) as [h|] eqn:Hh; [|done].
  destruct (headAt_bucket _ _ _ Hh) as (t & l & _ & Hm). pose proof (q_count _ I) as Hq.
  unfold entries in Hq. rewrite (entries_split _ _ _ Hm) in Hq. simpl in Hq. lia.
Qed.
End Function.

(** ** Properties *)

Section Properties.
Context {T : Type}.
Implicit Types (q : FairCostQueue T) (e h : QueueEntry T) (t : string).

Lemma dequeue_cases max q :
  QInv q ->
  match dequeue max q with
  | (q', Some e) => exists i h q1, headAt q i = Some h /\ cost h <= max /\ QInv q1 /\
      sameButSkips q q1 /\ q' = (takeAt i q1).1 /\ Some e = (takeAt i q1).2 /\
      (exists h1, headAt q1 i = Some h1 /\ strip h1 = strip h) /\
      match findReserved q with Some (j, r) => i = j /\ h = r | None => True end
  | (q', None) => q' = q /\
      ((forall i h, headAt q i = Some h -> max < cost h) \/
       exists i h, findReserved q = Some (i, h) /\ max < cost h)
  end.
Proof.
  intros I. unfold dequeue. destruct (Z.eqb_spec (count q) 0) as [Hz|Hz].
  { split; [done|]. left. intros i h. by rewrite count_zero. }
  pose proof (findReserved_spec q) as Hr. destruct (findReserved q) as [[i r]|] eqn:Hres.
  - destruct Hr as (_ & Hh & _). destruct (cost r >? max) eqn:Hc; to_prop.
    + split; [done|]. right. eauto.
    + destruct (takeAt_spec q i r I Hh) as (He & _).
      destruct (takeAt i q) as [q' o] eqn:E. simpl in He. subst o.
      exists i, r, q. rewrite E. split_and!; eauto; done.
  - pose proof (scanFit_spec max (slots q) [] q I) as Hs.
    destruct (scanFit max (slots q) [] q) as [q' [e|]].
    + destruct Hs as (i & h & q1 & Hi & Hh & Hc & I1 & Hsame & -> & He).
      exists i, h, q1. split_and!; try done. by apply (headAt_same q).
    + destruct Hs as [-> Hn]. split; [done|]. left. intros i h Hh.
      apply (Hn i); [by apply headAt_slot with h|done].
Qed.

Lemma takeAt_same q q1 i h h1 t :
  QInv q1 -> sameButSkips q q1 -> headAt q1 i = Some h1 -> strip h1 = strip h ->
  strip <$> bucketOf q t =
  (if decide (t = tenantKey h) then [strip h] else []) ++ (strip <$> bucketOf (takeAt i q1).1 t).
Proof.
  intros I1 (_ & _ & _ & Hb) Hh1 Hs. destruct (takeAt_spec q1 i h1 I1 Hh1) as (_ & _ & Ht).
  rewrite <- Hb, Ht, fmap_app. assert (tenantKey h1 = tenantKey h) as <-.
  { apply (f_equal tenantKey) in Hs. done. }
  case_decide; simpl; [by rewrite Hs|done].
Qed.

(** Histories of a queue. *)
Inductive queueOp := OpEnqueue (e : QueueEntry T) | OpDequeue (max : Z) | OpRemove (i : string) | OpDrain.

Definition applyOp (q : FairCostQueue T) (o : queueOp) : FairCostQueue T :=
  match o with
  | OpEnqueue e => (enqueue e q).1
  | OpDequeue max => (dequeue max q).1
  | OpRemove i => (removeById i q).1
  | OpDrain => (drain q).1
  end.

Lemma QInv_drain q : QInv q -> QInv (drain q).1.
Proof.
  intros I. unfold drain. pose proof (QInv_drainLoop (S (Z.to_nat (count q))) q I) as Id.
  destruct (drainLoop _ q) as [q' out]. apply QInv_cursor; [done|by right].
Qed.

Lemma QInv_applyOp q o : QInv q -> QInv (applyOp q o).
Proof.
  intros I. destruct o; simpl.
  - by apply QInv_enqueue.
  - by apply QInv_dequeue.
  - by apply QInv_removeById.
  - by apply QInv_drain.
Qed.

Lemma bumpHeads_caps ixs q :
  maxCount (foldl bumpHead q ixs) = maxCount q /\ maxCost (foldl bumpHead q ixs) = maxCost q.
Proof.
  revert q. induction ixs as [|i ixs IH]; intros q; simpl; [done|].
  destruct (IH (bumpHead q i)) as [-> ->]. unfold bumpHead.
  destruct (order q !! i); [|done]. by destruct (mget _ _) as [[]|].
Qed.

Lemma takeAt_caps i q : maxCount (takeAt i q).1 = maxCount q /\ maxCost (takeAt i q).1 = maxCost q.
Proof.
  unfold takeAt. destruct (order q !! i); [|done]. destruct (mget _ _) as [[|e [|]]|]; done.
Qed.

Lemma dequeue_caps max q : maxCount (dequeue max q).1 = maxCount q /\ maxCost (dequeue max q).1 = maxCost q.
Proof.
  unfold dequeue. case_if; [done|]. destruct (findReserved q) as [[i e]|].
  - case_if; [done|]. apply takeAt_caps.
  - generalize (@nil nat). induction (slots q) as [|i ixs IH]; intros bp; simpl; [done|].
    destruct (headAt q i); [|apply IH]. case_if; [apply IH|].
    destruct (takeAt_caps i (foldl bumpHead q bp)) as [-> ->]. apply bumpHeads_caps.
Qed.

Lemma drain_caps q : maxCount (drain q).1 = maxCount q /\ maxCost (drain q).1 = maxCost q.
Proof.
  unfold drain. generalize (S (Z.to_nat (count q))). intros fuel.
  assert (maxCount (drainLoop fuel q).1 = maxCount q /\ maxCost (drainLoop fuel q).1 = maxCost q) as H.
  { revert q. induction fuel as [|fuel IH]; intros q; simpl; [done|].
    pose proof (dequeue_caps MAX_SAFE_INTEGER q) as Hd.
    destruct (dequeue MAX_SAFE_INTEGER q) as [q1 [e|]]; simpl in *; [|done].
    specialize (IH q1). destruct (drainLoop fuel q1); simpl in *. destruct IH, Hd. split; congruence. }
  by destruct (drainLoop fuel q).
Qed.

Lemma enqueue_caps e q : maxCount (enqueue e q).1 = maxCount q /\ maxCost (enqueue e q).1 = maxCost q.
Proof. unfold enqueue. case_if; [done|]. simpl. by destruct (mget _ _). Qed.

Lemma removeById_caps i q :
  maxCount (removeById i q).1 = maxCount q /\ maxCost (removeById i q).1 = maxCost q.
Proof.
  unfold removeById. generalize 0%nat. induction (order q) as [|t ts IH]; intros n; simpl; [done|].
  destruct (mget t (buckets q)) as [b|]; [|done]. destruct (findIndex _ b) as [j|]; [|done].
  destruct (b !! j); [|done]. by destruct (removeAt j b).
Qed.

Lemma applyOp_caps q o : maxCount (applyOp q o) = maxCount q /\ maxCost (applyOp q o) = maxCost q.
Proof. destruct o; simpl; auto using enqueue_caps, dequeue_caps, removeById_caps, drain_caps. Qed.

(** The counters and caps of the queue.  Whatever sequence of enqueue,
    dequeue, removal and drain is run on a new queue, the order lists exactly
    the tenants that have entries, no bucket is empty, [size] and [totalCost]
    are the number and the cost of the entries stored and within the two caps,
    and the cursor points into the order. *)
Theorem queue_counters (mc mk : Z) (ops : list queueOp) :
  let q := foldl applyOp (newQueue mc mk) ops in
  order q = mkeys (buckets q) /\ NoDup (order q) /\
  (forall t b, mget t (buckets q) = Some b -> b <> []) /\
  count q = Z.of_nat (length (entries q)) /\ totalCost q = costOf (entries q) /\
  count q <= Z.max 0 mc /\ totalCost q <= Z.max 0 mk /\
  ((cursor q < length (order q))%nat \/ cursor q = 0%nat).
Proof.
  assert (Hcap : forall ops q, maxCount q = mc -> maxCost q = mk ->
    maxCount (foldl applyOp q ops) = mc /\ maxCost (foldl applyOp q ops) = mk).
  { induction ops0 as [|o ops0 IH]; intros q H1 H2; simpl; [done|].
    destruct (applyOp_caps q o) as [E1 E2]. apply IH; congruence. }
  assert (QInv (foldl applyOp (newQueue mc mk) ops)) as I.
  { generalize (QInv_new (T := T) mc mk). generalize (newQueue (T := T) mc mk).
    clear. induction ops as [|o ops IH]; intros q I; simpl; [done|]. by apply IH, QInv_applyOp. }
  cbn zeta. destruct (Hcap ops (newQueue mc mk) eq_refl eq_refl) as [E1 E2].
  pose proof (q_maxCount _ I). pose proof (q_maxCost _ I).
  split_and!; try apply I; try congruence.
  - rewrite (q_order _ I). apply I.
  - intros t b Hm. by apply (mget_bucket _ t b I Hm).
Qed.
Lemma dequeue_function max q :
  QInv q ->
  match dequeue max q with
  | (q', Some e) => cost e <= max /\ skipCount e = 0 /\ count q' = count q - 1 /\
      forall t, strip <$> bucketOf q t =
        (if decide (t = tenantKey e) then [e] else []) ++ (strip <$> bucketOf q' t)
  | (q', None) => q' = q /\
      ((forall i h, headAt q i = Some h -> max < cost h) \/
       exists i h, headAt q i = Some h /\ aged h /\ max < cost h)
  end.
Proof.
  intros I. pose proof (dequeue_cases max q I) as Hd. destruct (dequeue max q) as [q' [e|]].
  - destruct Hd as (i & h & q1 & Hh & Hc & I1 & Hs & -> & He & (h1 & Hh1 & Hst) & _).
    destruct (takeAt_spec q1 i h1 I1 Hh1) as (He1 & Hcnt & _). rewrite He1, Hst in He. injection He as ->.
    destruct Hs as (Ho & Hcu & Hq & Hb). split_and!; [done..|lia|].
    intros t. by apply (takeAt_same q q1 i h h1).
  - destruct Hd as [-> Hn]. split; [done|]. destruct Hn as [Hn|(i & h & Hr & Hc)]; [by left|right].
    pose proof (findReserved_spec q) as Hs. rewrite Hr in Hs. destruct Hs as (_ & Hh & Ha & _). eauto.
Qed.

(** What a dequeue returns.  An entry that is returned fits the capacity
    asked for and was the oldest of its tenant; it is removed and every other
    entry keeps its place in the line of its tenant (only pass-over counters
    change).  Nothing is returned, and nothing changes, only when no tenant has
    a head that fits or when an aged head that does not fit holds the
    reservation.  With no aged head, the tenant at the cursor is served first if
    its head fits. *)
Theorem dequeue_spec max q :
  QInv q ->
  match dequeue max q with
  | (q', Some e) => cost e <= max /\ skipCount e = 0 /\ count q' = count q - 1 /\
      forall t, strip <$> bucketOf q t =
        (if decide (t = tenantKey e) then [e] else []) ++ (strip <$> bucketOf q' t)
  | (q', None) => q' = q /\
      ((forall i h, headAt q i = Some h -> max < cost h) \/
       exists i h, headAt q i = Some h /\ aged h /\ max < cost h)
  end /\
  (forall h, (forall j g, headAt q j = Some g -> ~ aged g) ->
     headAt q (cursor q) = Some h -> cost h <= max -> (dequeue max q).2 = Some (strip h)).
Proof.
  intros I. split; [by apply dequeue_function|]. intros h Hna Hh Hc. unfold dequeue.
  destruct (Z.eqb_spec (count q) 0) as [Hz|_]; [by rewrite count_zero in Hh|].
  pose proof (findReserved_spec q) as Hr.
  destruct (findReserved q) as [[i r]|]; [destruct Hr as (_ & Hi & Ha & _); by destruct (Hna i r)|].
  destruct (headAt_bucket _ _ _ Hh) as (t & l & Ht & _). apply lookup_lt_Some in Ht.
  unfold slots. destruct (length (order q)) as [|n] eqn:Hn; [lia|]. simpl.
  assert (slot q 0 = cursor q) as ->.
  { unfold slot. rewrite Nat.add_0_r, Nat.mod_small by lia. done. }
  rewrite Hh. destruct (cost h >? max) eqn:E; [blia|]. by apply takeAt_spec.
Qed.

(** Bounded bypass.  Once a tenant's head was passed over twice, no other
    head overtakes it: a dequeue returns nothing or an entry that was itself
    passed over twice and has waited at least as long. *)
Theorem reservation_holds max q i h e q' :
  QInv q -> headAt q i = Some h -> MAX_UNFITTABLE_SKIPS <= skipCount h ->
  dequeue max q = (q', Some e) ->
  exists j g, headAt q j = Some g /\ MAX_UNFITTABLE_SKIPS <= skipCount g /\ e = strip g /\
    enqueuedAtMs e <= enqueuedAtMs h.
Proof.
  intros I Hh Ha Hd. pose proof (dequeue_cases max q I) as Hc. rewrite Hd in Hc.
  destruct Hc as (j & g & q1 & Hg & Hcost & I1 & Hs & -> & He & (g1 & Hg1 & Hst) & Hres).
  pose proof (findReserved_spec q) as Hr. destruct (findReserved q) as [[k r]|].
  - destruct Hres as [-> ->]. destruct Hr as (_ & _ & Hag & Hall). exists k, r. split_and!; try done.
    + destruct (takeAt_spec q1 k g1 I1 Hg1) as (He1 & _). rewrite He1, Hst in He. by injection He.
    + destruct (takeAt_spec q1 k g1 I1 Hg1) as (He1 & _). rewrite He1, Hst in He.
      assert (e = strip r) as -> by congruence. apply (Hall i h); [|done|done].
      by apply headAt_slot with h.
  - destruct (Hr i h); [by apply headAt_slot with h|done|done].
Qed.

(** A queue that is not empty has a head. *)
Lemma nonempty_head q : QInv q -> count q <> 0 -> exists i h, headAt q i = Some h.
Proof.
  intros I Hc. pose proof (q_count _ I) as Hq. unfold entries in Hq.
  destruct (buckets q) as [|[t b] m] eqn:Hm; [simpl in Hq; lia|].
  assert (mget t (buckets q) = Some b) as Hg by (rewrite Hm; simpl; by rewrite decide_True).
  destruct (mget_bucket q t b I Hg) as [Hne _]. destruct b as [|h b]; [done|].
  exists 0%nat, h. unfold headAt. rewrite (q_order _ I), Hm. simpl. by rewrite decide_True.
Qed.

Lemma head_cost q i h : QInv q -> headAt q i = Some h -> cost h <= MAX_SAFE_INTEGER.
Proof.
  intros I Hh. destruct (headAt_bucket _ _ _ Hh) as (t & l & _ & Hm).
  destruct (mget_bucket q t _ I Hm) as [_ Hok]. apply Forall_cons in Hok as [[_ ?] _]. lia.
Qed.

Lemma count_nonneg q : QInv q -> 0 <= count q.
Proof. intros I. rewrite (q_count _ I). lia. Qed.

Lemma drainLoop_spec fuel q :
  QInv q -> (Z.to_nat (count q) < fuel)%nat ->
  count (drainLoop fuel q).1 = 0 /\
  forall t, base.filter (fun e => tenantKey e = t) (drainLoop fuel q).2 = strip <$> bucketOf q t.
Proof.
  revert q. induction fuel as [|fuel IH]; intros q I Hf; [lia|]. simpl.
  pose proof (dequeue_function MAX_SAFE_INTEGER q I) as Hd. pose proof (count_nonneg q I).
  pose proof (QInv_dequeue MAX_SAFE_INTEGER q I) as Id.
  destruct (dequeue MAX_SAFE_INTEGER q) as [q1 [e|]]; simpl in Id.
  - destruct Hd as (_ & _ & Hcnt & Hb). pose proof (count_nonneg q1 Id).
    destruct (IH q1 Id ltac:(lia)) as [H1 H2]. destruct (drainLoop fuel q1) as [q2 out]; simpl in *.
    split; [done|]. intros t. rewrite filter_cons, H2, Hb.
    case_decide; case_decide; simpl; congruence.
  - destruct Hd as [-> Hn]. simpl. destruct (Z.eq_dec (count q) 0) as [Hz|Hz].
    + split; [done|]. intros t. unfold bucketOf. destruct (mget t (buckets q)) as [[|h b]|] eqn:Hm; try done.
      exfalso. pose proof (q_count _ I) as Hq. unfold entries in Hq.
      rewrite (entries_split _ _ _ Hm) in Hq. simpl in Hq. lia.
    + exfalso. destruct (nonempty_head q I Hz) as (i & h & Hh). pose proof (head_cost q i h I Hh).
      destruct Hn as [Hn|(j & g & Hg & _ & Hc)]; [specialize (Hn i h Hh); lia|].
      pose proof (head_cost q j g I Hg). lia.
Qed.

Lemma count_zero_empty q : QInv q -> count q = 0 -> buckets q = [] /\ order q = [] /\ totalCost q = 0.
Proof.
  intros I Hz. assert (Hm : buckets q = []).
  { destruct (buckets q) as [|[t b] m] eqn:Hm; [done|]. exfalso.
    assert (mget t (buckets q) = Some b) as Hg by (rewrite Hm; simpl; by rewrite decide_True).
    destruct (mget_bucket q t b I Hg) as [Hne _]. pose proof (q_count _ I) as Hq.
    unfold entries in Hq. rewrite Hm in Hq. destruct b; [done|]. simpl in Hq. lia. }
  rewrite (q_order _ I), (q_cost _ I). unfold entries. by rewrite Hm.
Qed.

(** Draining empties the queue, whatever it holds and whoever holds a
    reservation, and returns for each tenant exactly its waiting entries in
    their order. *)
Theorem drain_complete q :
  QInv q ->
  buckets (drain q).1 = [] /\ order (drain q).1 = [] /\ count (drain q).1 = 0 /\
  totalCost (drain q).1 = 0 /\
  forall t, base.filter (fun e => tenantKey e = t) (drain q).2 = strip <$> bucketOf q t.
Proof.
  intros I. unfold drain. pose proof (drainLoop_spec (S (Z.to_nat (count q))) q I ltac:(lia)) as [H1 H2].
  pose proof (QInv_drainLoop (S (Z.to_nat (count q))) q I) as Id.
  destruct (drainLoop _ q) as [q' out]; simpl in *.
  destruct (count_zero_empty q' Id H1) as (? & ? & ?). done.
Qed.
End Properties.

(** ** Examples *)

Definition exEntry (i t : string) (c at_ : Z) : QueueEntry unit :=
  mkEntry i t c at_ 1000 tt 0.

(** A heavy request of tenant [a] before two light ones of [b] and [c]. *)
Definition exQueue : FairCostQueue unit :=
  foldl (fun q e => (enqueue e q).1) (newQueue 10 100)
    [exEntry "1" "a" 9 0; exEntry "2" "b" 1 1; exEntry "3" "c" 1 2; exEntry "4" "b" 1 3;
     exEntry "5" "c" 1 4].

Lemma exQueue_inv : QInv exQueue.
Proof. unfold exQueue, foldl. repeat apply QInv_enqueue. apply QInv_new. Qed.

(** With capacity 1 the heavy head is passed over twice and then blocks. *)
Definition exAged : FairCostQueue unit := (dequeue 1 (dequeue 1 (dequeue 1 exQueue).1).1).1.

Lemma exAged_inv : QInv exAged.
Proof. unfold exAged. apply QInv_dequeue, QInv_dequeue, QInv_dequeue, exQueue_inv. Qed.

Lemma dequeue_spec_witness :
  cost (exEntry "2" "b" 1 1) <= 1 /\ count (dequeue 1 exQueue).1 = 4 /\ (dequeue 1 exAged).1 = exAged.
Proof.
  pose proof (dequeue_spec 1 exQueue exQueue_inv) as H.
  pose proof (dequeue_spec 1 exAged exAged_inv) as H2. vm_compute in H, H2 |- *.
  destruct H as [(H & _) _], H2 as [(H2 & _) _]. split_and!; done.
Defined.

Definition exAgedHead : QueueEntry unit := (exEntry "1" "a" 9 0) <| skipCount := 2 |>.

Lemma reservation_holds_witness :
  exists j g, headAt exAged j = Some g /\ MAX_UNFITTABLE_SKIPS <= skipCount g /\
    exEntry "1" "a" 9 0 = strip g /\ enqueuedAtMs (exEntry "1" "a" 9 0) <= enqueuedAtMs exAgedHead.
Proof.
  apply (reservation_holds 9 exAged 0 exAgedHead
    (exEntry "1" "a" 9 0)
    (dequeue 9 exAged).1 exAged_inv); vm_compute; [reflexivity|discriminate|reflexivity].
Defined.

Lemma drain_complete_witness : count (drain exAged).1 = 0.
Proof. apply (drain_complete exAged exAged_inv). Defined.
