(* ===== verification/Adaptation.v ===== *)
(** * Limit adaptation: [open-sse/services/admission/adaptation.ts]

    The feedback window of the admission controller: latency averages, the
    utilization integral, and the adjustment of the limit when a window closes.
    Averages, factors and ratios are doubles; limits, costs and times are
    integers. A number that is the result of a floored product is an
    [option Z], [None] standing for [NaN]. *)
From S2P Require Import Prelude JsNumber AdmissionCost.

#[local] Open Scope Z_scope.

Record AdaptationState := mkAdaptation {
  currentLimit : Z;
  recoveryCeiling : Z;
  shortLatencyEwma : double;
  longLatencyEwma : double;
  pressure : AdmissionPressure;
  windowActiveCostIntegral : Z;
  windowCompleted : Z;
  windowLatencySamples : Z;
  windowStartMs : Z;
  freezeGrowth : bool;
  criticalDecreaseConsumed : bool;
  utilization : double;
}.

#[export] Instance AdaptationState_eta : Eta AdaptationState := fun x =>
  mkAdaptation (currentLimit x) (recoveryCeiling x) (shortLatencyEwma x) (longLatencyEwma x)
    (pressure x) (windowActiveCostIntegral x) (windowCompleted x) (windowLatencySamples x)
    (windowStartMs x) (freezeGrowth x) (criticalDecreaseConsumed x) (utilization x).

Definition clampLimit (value : option Z) (minLimit maxLimit : Z) : Z :=
  match value with
  | None => minLimit
  | Some v => Z.min maxLimit (Z.max minLimit v)
  end.

Definition createAdaptationState (initialLimit minLimit maxLimit nowMs : Z) : AdaptationState :=
  mkAdaptation (clampLimit (Some initialLimit) minLimit maxLimit)
    (clampLimit (Some initialLimit) minLimit maxLimit) dZero dZero normal 0 0 0 nowMs false false dZero.

Definition noteLatency (latencyMs : double) (params : AdaptationParams) (st : AdaptationState)
    : AdaptationState :=
  let sample := if dFinite latencyMs && dLe dZero latencyMs then latencyMs else dZero in
  let st := st <| windowLatencySamples := windowLatencySamples st + 1 |> in
  let sa := shortLatencyAlpha params in
  let la := longLatencyAlpha params in
  if dLe (shortLatencyEwma st) dZero && dLe (longLatencyEwma st) dZero then
    st <| shortLatencyEwma := sample |> <| longLatencyEwma := sample |>
  else
    st <| shortLatencyEwma :=
            dAdd (dMul sa sample) (dMul (dSub dOne sa) (shortLatencyEwma st)) |>
       <| longLatencyEwma :=
            dAdd (dMul la sample) (dMul (dSub dOne la) (longLatencyEwma st)) |>.

Definition noteOutcome (outcome : AdmissionReleaseOutcome) (st : AdaptationState) : AdaptationState :=
  match outcome with
  | upstream_error | timeout => st <| freezeGrowth := true |>
  | _ => st
  end.

Definition severity (p : AdmissionPressure) : Z :=
  match p with normal => 0 | high => 1 | critical => 2 end.

Definition setPressure (p : AdmissionPressure) (st : AdaptationState) : AdaptationState :=
  if severity p >? severity (pressure st) then st <| pressure := p |> else st.

Definition isCritical (p : AdmissionPressure) : bool := match p with critical => true | _ => false end.

(** [Math.floor (next * factor)]. *)
Definition scaleLimit (next : Z) (factor : double) : option Z := dFloor (dMul (dOfZ next) factor).

Definition growthStep (params : AdaptationParams) : Z :=
  Z.min (increaseStep params) (maxIncreasePerWindow params).

Definition applyIdleRecovery (st : AdaptationState) (params : AdaptationParams) (next : option Z)
    : option Z :=
  if negb (isCritical (pressure st)) && negb (freezeGrowth st) && (windowCompleted st =? 0)
     && (currentLimit st <? recoveryCeiling st) then
    (fun n => Z.min (recoveryCeiling st) (n + growthStep params)) <$> next
  else next.

Definition windowUtilization (params : AdaptationParams) (nowMs : Z) (st : AdaptationState) : double :=
  let elapsed := Z.max 1 (Z.min (p_windowMs params) (nowMs - windowStartMs st)) in
  let avgActive := dDiv (dOfZ (windowActiveCostIntegral st)) (dOfZ elapsed) in
  let util := if currentLimit st >? 0 then dDiv avgActive (dOfZ (currentLimit st)) else dZero in
  dMax dZero (dMin dOne util).

Definition latencyGradient (st : AdaptationState) : double :=
  if dLt dZero (longLatencyEwma st) then
    dDiv (dSub (shortLatencyEwma st) (longLatencyEwma st)) (longLatencyEwma st)
  else dZero.

(** The limit before idle recovery. *)
Definition nextLimit (params : AdaptationParams) (st : AdaptationState) : option Z :=
  match pressure st with
  | critical =>
      if negb (criticalDecreaseConsumed st) then
        scaleLimit (currentLimit st) (criticalDecreaseFactor params)
      else Some (currentLimit st)
  | p =>
      if match p with high => true | _ => false end
         || ((windowLatencySamples st >? 0)
             && dLe (latencyGradientThreshold params) (latencyGradient st)) then
        scaleLimit (currentLimit st) (decreaseFactor params)
      else if negb (freezeGrowth st)
              && dLe (highUtilizationThreshold params) (utilization st)
              && (windowCompleted st >? 0) then
        Some (currentLimit st + growthStep params)
      else Some (currentLimit st)
  end.

Definition closeAdaptationWindow (params : AdaptationParams) (nowMs : Z) (st : AdaptationState)
    : AdaptationState :=
  let st := st <| utilization := windowUtilization params nowMs st |> in
  let next := nextLimit params st in
  let '(st, next) :=
    if dLe (utilization st) (lowUtilizationThreshold params) then
      let st := st <| shortLatencyEwma := longLatencyEwma st |> in
      (st, applyIdleRecovery st params next)
    else (st, next) in
  st <| currentLimit := clampLimit next (p_minLimit params) (p_maxLimit params) |>
     <| windowActiveCostIntegral := 0 |> <| windowCompleted := 0 |>
     <| windowLatencySamples := 0 |> <| windowStartMs := nowMs |>
     <| freezeGrowth := false |> <| criticalDecreaseConsumed := false |>
     <| pressure := normal |>.

Definition sampleActiveIntegral (activeCost dtMs : Z) (st : AdaptationState) : AdaptationState :=
  if (dtMs <=? 0) || (activeCost <=? 0) then st
  else
    let bounded := Z.min activeCost (currentLimit st) in
    let contribution :=
      if dtMs >? MAX_SAFE_INTEGER / bounded then MAX_SAFE_INTEGER else bounded * dtMs in
    st <| windowActiveCostIntegral :=
            if contribution >=? MAX_SAFE_INTEGER - windowActiveCostIntegral st then MAX_SAFE_INTEGER
            else windowActiveCostIntegral st + contribution |>.

(** ** Properties *)

Section Properties.
Context (params : AdaptationParams).
Implicit Types (st : AdaptationState).

Definition limitOk st : Prop := p_minLimit params <= currentLimit st <= p_maxLimit params.

Lemma clampLimit_bounds v mn mx : mn <= mx -> mn <= clampLimit v mn mx <= mx.
Proof. destruct v; simpl; lia. Qed.

Lemma limitOk_close nowMs st :
  p_minLimit params <= p_maxLimit params -> limitOk (closeAdaptationWindow params nowMs st).
Proof.
  intros Hp. unfold limitOk, closeAdaptationWindow. case_if; simpl; by apply clampLimit_bounds.
Qed.

(** Multiplicative decrease decreases. *)
Lemma scaleLimit_le next f z :
  0 < next < 2 ^ 53 -> atMostOne f -> scaleLimit next f = Some z -> z <= next.
Proof. apply dMul_atMostOne. Qed.

Lemma sampleActiveIntegral_spec activeCost dtMs st :
  0 < currentLimit st -> 0 <= windowActiveCostIntegral st <= MAX_SAFE_INTEGER ->
  windowActiveCostIntegral (sampleActiveIntegral activeCost dtMs st) =
  Z.min MAX_SAFE_INTEGER
    (windowActiveCostIntegral st + Z.max 0 (Z.min activeCost (currentLimit st)) * Z.max 0 dtMs).
Proof.
  intros Hl Hi. unfold sampleActiveIntegral. case_if; [simpl; apply orb_true_iff in Heqb; destruct Heqb; to_prop; nia|].
  to_prop. simpl. set (c := Z.min activeCost (currentLimit st)).
  assert (Hc : 0 < c) by lia.
  replace (Z.max 0 c) with c by lia. replace (Z.max 0 dtMs) with dtMs by lia.
  pose proof (Z.mul_div_le MAX_SAFE_INTEGER c Hc).
  pose proof (Z.mul_succ_div_gt MAX_SAFE_INTEGER c Hc).
  destruct (Z.gtb_spec dtMs (MAX_SAFE_INTEGER / c)) as [Hd|Hd].
  - assert (MAX_SAFE_INTEGER < c * dtMs) by nia. case_if; blia.
  - assert (c * dtMs <= MAX_SAFE_INTEGER) by nia. case_if; blia.
Qed.

(** The utilization integral is exact.  Sampling adds the active cost,
    capped at the limit, times the elapsed time, saturating at the largest safe
    integer: neither the division guard nor the addition guard loses anything,
    and within one validated window at full load no saturation happens. *)
Theorem sample_integral_exact activeCost dtMs st :
  0 < currentLimit st -> 0 <= windowActiveCostIntegral st <= MAX_SAFE_INTEGER ->
  windowActiveCostIntegral (sampleActiveIntegral activeCost dtMs st) =
    Z.min MAX_SAFE_INTEGER
      (windowActiveCostIntegral st + Z.max 0 (Z.min activeCost (currentLimit st)) * Z.max 0 dtMs) /\
  (currentLimit st * p_windowMs params <= MAX_SAFE_INTEGER ->
   forall spent, 0 <= spent -> spent + dtMs <= p_windowMs params ->
     windowActiveCostIntegral st <= currentLimit st * spent ->
     windowActiveCostIntegral (sampleActiveIntegral activeCost dtMs st) =
       windowActiveCostIntegral st + Z.max 0 (Z.min activeCost (currentLimit st)) * Z.max 0 dtMs).
Proof.
  intros Hl Hi. split; [by apply sampleActiveIntegral_spec|].
  intros Hw spent Hs Hd Hb. rewrite sampleActiveIntegral_spec by done.
  assert (Z.max 0 (Z.min activeCost (currentLimit st)) * Z.max 0 dtMs <= currentLimit st * Z.max 0 dtMs)
    by (apply Z.mul_le_mono_nonneg_r; lia).
  assert (currentLimit st * spent + currentLimit st * Z.max 0 dtMs <= MAX_SAFE_INTEGER \/ dtMs < 0)
    by (destruct (Z_lt_le_dec dtMs 0); [by right|left; nia]).
  destruct H0; [lia|]. replace (Z.max 0 dtMs) with 0 in * by lia. lia.
Qed.

Lemma idle_recovery_spec st n :
  applyIdleRecovery st params (Some n) = Some n \/
  (freezeGrowth st = false /\ windowCompleted st = 0 /\ currentLimit st < recoveryCeiling st /\
   applyIdleRecovery st params (Some n) = Some (Z.min (recoveryCeiling st) (n + growthStep params))).
Proof. unfold applyIdleRecovery. case_if; [right|by left]. to_prop. done. Qed.

(** The limit after closing, as the clamp of one of two proposals. *)
Lemma close_limit nowMs st :
  let s1 := st <| utilization := windowUtilization params nowMs st |> in
  exists next, currentLimit (closeAdaptationWindow params nowMs st)
    = clampLimit next (p_minLimit params) (p_maxLimit params) /\
  (next = nextLimit params s1 \/
   next = applyIdleRecovery (s1 <| shortLatencyEwma := longLatencyEwma s1 |>) params (nextLimit params s1)).
Proof.
  intros s1. unfold closeAdaptationWindow. fold s1. case_if; cbn [currentLimit set_field];
    eexists; (split; [reflexivity|auto]).
Qed.

Lemma nextLimit_normal st :
  pressure st = normal ->
  (windowLatencySamples st = 0 \/ dLe (latencyGradientThreshold params) (latencyGradient st) = false) ->
  nextLimit params st = Some (currentLimit st) \/
  (nextLimit params st = Some (currentLimit st + growthStep params) /\ freezeGrowth st = false /\
   0 < windowCompleted st).
Proof.
  intros Hp Hg. unfold nextLimit. rewrite Hp. simpl.
  assert ((windowLatencySamples st >? 0) && dLe (latencyGradientThreshold params) (latencyGradient st) = false) as ->
    by (apply andb_false_iff; destruct Hg as [-> | ->]; auto).
  case_if; [right|auto]. to_prop. split_and!; done || lia.
Qed.

(** Growth is slow and needs a healthy window.  Closing a window keeps the
    limit within its bounds; when the window saw no high or critical pressure
    and no latency gradient, the limit does not fall and rises by at most one
    step per reason (high utilization with completed work, or idle recovery up
    to the recovery ceiling), and not at all when an upstream error or timeout
    froze growth. A critical window never raises the limit. The window state is
    reset for the next one. *)
Theorem close_window_growth nowMs st :
  limitOk st -> recoveryCeiling st <= p_maxLimit params -> 0 <= growthStep params ->
  0 < p_minLimit params -> p_maxLimit params < 2 ^ 53 -> atMostOne (criticalDecreaseFactor params) ->
  let st' := closeAdaptationWindow params nowMs st in
  limitOk st' /\
  (pressure st = normal ->
   (windowLatencySamples st = 0 \/ dLe (latencyGradientThreshold params) (latencyGradient st) = false) ->
   currentLimit st <= currentLimit st' <= currentLimit st + growthStep params /\
   (freezeGrowth st = true -> currentLimit st' = currentLimit st)) /\
  (pressure st = critical -> currentLimit st' <= currentLimit st) /\
  pressure st' = normal /\ windowActiveCostIntegral st' = 0 /\ windowCompleted st' = 0 /\
  freezeGrowth st' = false.
Proof.
  intros Hl Hc Hg Hmin Hmax Hcrit st'. unfold limitOk in *. subst st'.
  split; [apply limitOk_close; lia|]. split; [|split].
  - intros Hp Hgr. destruct (close_limit nowMs st) as (next & -> & Hnext).
    set (s1 := st <| utilization := windowUtilization params nowMs st |>) in *.
    pose proof (nextLimit_normal s1 Hp Hgr) as Hn.
    pose proof (idle_recovery_spec (s1 <| shortLatencyEwma := longLatencyEwma s1 |>)) as Hrec.
    change (currentLimit s1) with (currentLimit st) in Hn.
    change (freezeGrowth s1) with (freezeGrowth st) in Hn.
    change (windowCompleted s1) with (windowCompleted st) in Hn.
    destruct Hn as [Hn|(Hn & Hf & Hw)]; rewrite Hn in Hnext;
      destruct Hnext as [-> | ->]; simpl in Hrec |- *;
      try match goal with |- context [applyIdleRecovery _ _ (Some ?n)] =>
        destruct (Hrec n) as [-> | (? & ? & ? & ->)] end; simpl; split; intros; try lia; congruence.
  - intros Hp. destruct (close_limit nowMs st) as (next & -> & Hnext).
    set (s1 := st <| utilization := windowUtilization params nowMs st |>) in *.
    assert (Hn : match nextLimit params s1 with Some z => z <= currentLimit st | None => True end).
    { unfold nextLimit. change (pressure s1) with (pressure st). rewrite Hp. case_if; [|simpl; lia].
      destruct (scaleLimit _ _) as [z|] eqn:Hz; [|done].
      apply (scaleLimit_le (currentLimit st)) in Hz; [done|lia|done]. }
    assert (next = nextLimit params s1) as ->.
    { destruct Hnext as [-> | ->]; [done|]. unfold applyIdleRecovery.
      change (pressure (s1 <| shortLatencyEwma := longLatencyEwma s1 |>)) with (pressure st). by rewrite Hp. }
    destruct (nextLimit params s1); simpl; lia.
  - unfold closeAdaptationWindow. by case_if.
Qed.
End Properties.

(** ** Examples *)

Definition exParams : AdaptationParams := adaptation exConfig.

(** 800 cost milliseconds of 1000 at limit 8, then a window with latency that
    triples. *)
Definition exBusy : AdaptationState :=
  (sampleActiveIntegral 8 800 (createAdaptationState 8 4 10 0)) <| windowCompleted := 3 |>.

Definition exSlow : AdaptationState :=
  noteLatency (dOfZ 3000) exParams (noteLatency (dOfZ 100) exParams exBusy).

Example ex_grows : currentLimit (closeAdaptationWindow exParams 1000 exBusy) = 9.
Proof. vm_compute. reflexivity. Qed.

Example ex_shrinks : currentLimit (closeAdaptationWindow exParams 1000 exSlow) = 6.
Proof. vm_compute. reflexivity. Qed.

Lemma sample_integral_exact_witness : windowActiveCostIntegral exBusy = 6400.
Proof.
  change exBusy with ((sampleActiveIntegral 8 800 (createAdaptationState 8 4 10 0)) <| windowCompleted := 3 |>).
  refine (proj1 (sample_integral_exact exParams 8 800 (createAdaptationState 8 4 10 0) _ _));
    vm_compute; [reflexivity|split; discriminate].
Defined.

Lemma close_window_growth_witness :
  limitOk exParams (closeAdaptationWindow exParams 1000 exBusy).
Proof.
  apply (close_window_growth exParams 1000 exBusy);
    [vm_compute; split; discriminate|vm_compute; discriminate..|reflexivity|reflexivity|].
  apply isDouble_below_one; vm_compute; reflexivity.
Defined.
