(* ===== verification/AdmissionController.v ===== *)
(** * Adaptive admission controller: [open-sse/services/admission/controller.ts]

    The controller admits weighted requests under a limit that adapts to
    latency and pressure.  It ties together the configuration ([AdmissionCost]),
    the feedback window ([Adaptation]) and the fair queue ([FairQueue]); lanes
    are one such queue per tenant.  Promises, timers and abort listeners live in
    registries of the state, and each public method or callback is one function
    of the state and of the environment of the call. *)
From S2P Require Import Prelude JsMap JsNumber AdmissionCost FairQueue Adaptation.

#[local] Open Scope Z_scope.

Definition ADMISSION_LANE_TTL_MS : Z := 60000.
Definition ADMISSION_LANE_MAX_SESSIONS : Z := 1000.

(** ** Data *)

Inductive AdmissionRejectCode :=
| ADMISSION_OVERSIZED | ADMISSION_QUEUE_FULL | ADMISSION_DEADLINE | ADMISSION_ABORTED
| ADMISSION_LANE_EVICTED | ADMISSION_SHUTDOWN | ADMISSION_UNAVAILABLE.

Inductive VirtualDisposition := VActive | VQueued | VRejected | VNone.

Inductive ShadowDecision := would_admit | would_queue | would_reject.

(** A record is in [active] exactly while it is not released. *)
Record ActiveLeaseRecord := mkLeaseRecord {
  l_cost : Z;
  admittedAtMs : Z;
  virtualDisposition : VirtualDisposition;
}.

(** The promise of a queued request is settled through its entry's id. *)
Record QueuedPayload := mkPayload { signal : option nat }.

Record Lane := mkLane { lqueue : FairCostQueue QueuedPayload; lastUsedMs : Z }.

Inductive Settlement := ResolvedWith (lease : string) | RejectedWith (code : AdmissionRejectCode) (message : string).

Record Controller := mkController {
  config : ValidatedConfig;
  adapt : AdaptationState;
  queue : FairCostQueue QueuedPayload;
  virtualQueue : FairCostQueue string;
  lanes : jsmap string Lane;
  laneEvictionTimer : bool;
  active : jsmap string ActiveLeaseRecord;
  activeCost : Z;
  virtualActiveCost : Z;
  virtualActiveCount : Z;
  lastSampleMs : Z;
  windowTimer : bool;
  shutDown : bool;
  admittedCount : Z;
  rejectedCount : Z;
  wouldAdmitCount : Z;
  wouldQueueCount : Z;
  wouldRejectCount : Z;
  leaseSeq : N;
  deadlineTimers : list string;
  abortListeners : list (string * nat);
  settlements : list (string * Settlement);
}.

#[export] Instance ActiveLeaseRecord_eta : Eta ActiveLeaseRecord := fun x =>
  mkLeaseRecord (l_cost x) (admittedAtMs x) (virtualDisposition x).
#[export] Instance Lane_eta : Eta Lane := fun x => mkLane (lqueue x) (lastUsedMs x).
#[export] Instance Controller_eta : Eta Controller := fun x =>
  mkController (config x) (adapt x) (queue x) (virtualQueue x) (lanes x) (laneEvictionTimer x)
    (active x) (activeCost x) (virtualActiveCost x) (virtualActiveCount x) (lastSampleMs x)
    (windowTimer x) (shutDown x) (admittedCount x) (rejectedCount x) (wouldAdmitCount x)
    (wouldQueueCount x) (wouldRejectCount x) (leaseSeq x) (deadlineTimers x) (abortListeners x)
    (settlements x).

(** The environment of one synchronous call: the clock and the abort signals. *)
Record Env := mkEnv { now : Z; aborted : nat -> bool }.

Record AdmissionRequest := mkAdmissionRequest {
  r_cost : jsval;
  r_features : option AdmissionCostFeatures;
  r_tenantKey : option string;
  r_maxWaitMs : jsval;
  r_signal : option nat;
  r_pressure : option AdmissionPressure;
}.

Inductive AcquireResult :=
| AdmittedNow (lease : string) (cost : Z) (shadow : option ShadowDecision)
| Queued (entry : string)
| RejectedNow (code : AdmissionRejectCode) (message : string).

(** ** Small helpers *)

Definition saturateSnapshotNumber (v : Z) : Z :=
  if v <=? 0 then 0 else if v >=? MAX_SAFE_INTEGER then MAX_SAFE_INTEGER else v.

Definition addSaturated (total delta : Z) : Z :=
  if delta <=? 0 then saturateSnapshotNumber total
  else if total >=? MAX_SAFE_INTEGER - delta then MAX_SAFE_INTEGER
  else total + delta.

Definition modeIs (m : AdmissionMode) (c : Controller) : bool :=
  match mode (config c), m with
  | off, off | shadow, shadow | enforce, enforce => true
  | _, _ => false
  end.

Definition isNormal (p : AdmissionPressure) : bool := match p with normal => true | _ => false end.

Definition nextId (prefix : string) (c : Controller) : Controller * string :=
  let n := (leaseSeq c + 1)%N in
  (c <| leaseSeq := n |>, prefix +:+ "-" +:+ pretty n).

Definition settle (i : string) (o : Settlement) (c : Controller) : Controller :=
  c <| settlements := settlements c ++ [(i, o)] |>.

Definition limit (c : Controller) : Z := currentLimit (adapt c).

(** ** Sampling *)

Definition sampleIntegral (env : Env) (c : Controller) : Controller :=
  let dt := now env - lastSampleMs c in
  if dt >? 0 then
    let activeForIntegral := if activeCost c >=? limit c then limit c else activeCost c in
    c <| adapt := sampleActiveIntegral activeForIntegral dt (adapt c) |> <| lastSampleMs := now env |>
  else c.

(** ** Admission *)

Definition admitNow (env : Env) (cost : Z) (d : VirtualDisposition) (c : Controller)
    : Controller * string :=
  let c := sampleIntegral env c in
  let '(c, i) := nextId "lease" c in
  (c <| active := mset i (mkLeaseRecord cost (now env) d) (active c) |>
     <| activeCost := activeCost c + cost |>
     <| admittedCount := admittedCount c + 1 |>, i).

(** Mode [off]: no accounting, the lease is born released. *)
Definition admitVirtual (c : Controller) : Controller * string :=
  let '(c, i) := nextId "lease" c in
  (c <| admittedCount := admittedCount c + 1 |>, i).

Definition reject (code : AdmissionRejectCode) (message : string) (c : Controller)
    : Controller * AcquireResult :=
  (c <| rejectedCount := rejectedCount c + 1 |>, RejectedNow code message).

Definition clearEntryTimer (i : string) (c : Controller) : Controller :=
  c <| deadlineTimers := base.filter (fun j => j <> i) (deadlineTimers c) |>.

Definition detachAbort (i : string) (c : Controller) : Controller :=
  c <| abortListeners := base.filter (fun jl => jl.1 <> i) (abortListeners c) |>.

Definition failQueued (i : string) (code : AdmissionRejectCode) (message : string) (c : Controller)
    : Controller :=
  let c := detachAbort i (clearEntryTimer i c) in
  let c := settle i (RejectedWith code message) c in
  c <| rejectedCount := rejectedCount c + 1 |>.

(** ** Lanes *)

Definition removeEmptyLane (key : string) (c : Controller) : Controller :=
  match mget key (lanes c) with
  | Some lane => if count (lqueue lane) =? 0 then c <| lanes := mdel key (lanes c) |> else c
  | None => c
  end.

Definition clearLaneEviction (c : Controller) : Controller := c <| laneEvictionTimer := false |>.
Definition armLaneEviction (c : Controller) : Controller := c <| laneEvictionTimer := true |>.

Definition failAll (code : AdmissionRejectCode) (message : string)
    (es : list (QueueEntry QueuedPayload)) (c : Controller) : Controller :=
  foldl (fun c e => failQueued (id e) code message c) c es.

(** Drain and reject all pending entries of a lane, then drop it. *)
Definition deleteLane (key : string) (c : Controller) : Controller :=
  match mget key (lanes c) with
  | None => c
  | Some lane =>
      let c := failAll ADMISSION_LANE_EVICTED "connection lane evicted" (drain (lqueue lane)).2 c in
      c <| lanes := mdel key (lanes c) |>
  end.

Definition oldestLaneKey (c : Controller) : option string :=
  fst <$> foldl (fun (oldest : option (string * Z)) '(key, lane) =>
    match oldest with
    | Some (_, oldestMs) => if lastUsedMs lane <=? oldestMs then Some (key, lastUsedMs lane) else oldest
    | None => Some (key, lastUsedMs lane)
    end) None (lanes c).

(** An empty key is falsy and evicts nothing. *)
Definition getOrCreateLane (env : Env) (key : string) (c : Controller) : Controller * Lane :=
  let '(c, lane) :=
    match mget key (lanes c) with
    | Some lane => (c, lane)
    | None =>
        let c :=
          if msize (lanes c) >=? ADMISSION_LANE_MAX_SESSIONS then
            match oldestLaneKey c with
            | Some k => if bool_decide (k = ""%string) then c else deleteLane k c
            | None => c
            end
          else c in
        (c, mkLane (newQueue (maxQueueCount (config c)) (maxQueueCost (config c))) (now env))
    end in
  let lane := lane <| lastUsedMs := now env |> in
  (c <| lanes := mset key lane (lanes c) |>, lane).

Definition evictIdleLanes (env : Env) (c : Controller) : Controller :=
  let keys := mkeys (base.filter (fun kl => ADMISSION_LANE_TTL_MS <= now env - lastUsedMs kl.2) (lanes c)) in
  let c := foldl (fun c k => deleteLane k c) c keys in
  if msize (lanes c) >? 0 then armLaneEviction c else clearLaneEviction c.

Definition laneTotalQueuedCost (c : Controller) : Z :=
  foldl (fun total lane => addSaturated total (totalCost (lqueue lane))) 0 (mvals (lanes c)).

Definition laneTotalQueuedCount (c : Controller) : Z :=
  foldl (fun n lane => addSaturated n (count (lqueue lane))) 0 (mvals (lanes c)).

(** ** Dispatch *)

(** An entry that was dequeued: rejected if its request was aborted or its
    deadline passed, admitted otherwise; tells whether it was admitted. *)
Definition settleEntry (env : Env) (e : QueueEntry QueuedPayload) (c : Controller) : Controller * bool :=
  let c := detachAbort (id e) (clearEntryTimer (id e) c) in
  if match signal (payload e) with Some s => aborted env s | None => false end then
    (settle (id e) (RejectedWith ADMISSION_ABORTED "request aborted while queued") c
       <| rejectedCount := rejectedCount c + 1 |>, false)
  else if now env >=? deadlineMs e then
    (settle (id e) (RejectedWith ADMISSION_DEADLINE "admission wait deadline exceeded") c
       <| rejectedCount := rejectedCount c + 1 |>, false)
  else
    let '(c, lease) := admitNow env (cost e) VNone c in
    (settle (id e) (ResolvedWith lease) c, true).

(** The loop of [dispatch]; the flag tells that it returned from the function
    before its end. Each iteration takes an entry: the fuel is their number. *)
Fixpoint dispatchLoop (fuel : nat) (env : Env) (c : Controller) : Controller * bool :=
  match fuel with
  | O => (c, count (queue c) >? 0)
  | S fuel =>
      if count (queue c) >? 0 then
        let available := limit c - activeCost c in
        if available <=? 0 then (c, true)
        else
          match dequeue available (queue c) with
          | (q, None) => (c <| queue := q |>, true)
          | (q, Some e) => dispatchLoop fuel env (settleEntry env e (c <| queue := q |>)).1
          end
      else (c, false)
  end.

(** The loop over one lane: stops after one admission, when nothing fits, when
    the lane is empty, or (with the flag) when no capacity is left. *)
Fixpoint laneLoop (fuel : nat) (env : Env) (key : string) (c : Controller) : Controller * bool :=
  match fuel with
  | O => (c, false)
  | S fuel =>
      match mget key (lanes c) with
      | None => (c, false)
      | Some lane =>
          if count (lqueue lane) >? 0 then
            let available := limit c - activeCost c in
            if available <=? 0 then (c, true)
            else
              let '(q, r) := dequeue available (lqueue lane) in
              let c := c <| lanes := mset key (lane <| lqueue := q |>) (lanes c) |> in
              match r with
              | None => (c, false)
              | Some e =>
                  let '(c, admitted) := settleEntry env e c in
                  if admitted then (c, false) else laneLoop fuel env key c
              end
          else (c, false)
      end
  end.

Definition laneFuel (key : string) (c : Controller) : nat :=
  match mget key (lanes c) with Some lane => S (Z.to_nat (count (lqueue lane))) | None => O end.

Fixpoint dispatchKeys (env : Env) (keys : list string) (c : Controller) : Controller :=
  match keys with
  | [] => c
  | key :: keys =>
      match mget key (lanes c) with
      | None => dispatchKeys env keys c
      | Some _ =>
          let '(c, stop) := laneLoop (laneFuel key c) env key c in
          if stop then c else dispatchKeys env keys (removeEmptyLane key c)
      end
  end.

Definition dispatchLanes (env : Env) (c : Controller) : Controller :=
  if shutDown c || negb (modeIs enforce c) then c
  else if msize (lanes c) =? 0 then c
  else dispatchKeys env (mkeys (lanes c)) c.

Definition dispatch (env : Env) (c : Controller) : Controller :=
  if shutDown c || negb (modeIs enforce c) then c
  else
    let '(c, returned) := dispatchLoop (S (Z.to_nat (count (queue c)))) env c in
    if returned then c else dispatchLanes env c.

(** ** The virtual accounting of shadow mode *)

Fixpoint dispatchVirtualLoop (fuel : nat) (c : Controller) : Controller :=
  match fuel with
  | O => c
  | S fuel =>
      if count (virtualQueue c) >? 0 then
        let available := limit c - virtualActiveCost c in
        if available <=? 0 then c
        else
          match dequeue available (virtualQueue c) with
          | (q, None) => c <| virtualQueue := q |>
          | (q, Some e) =>
              let c := c <| virtualQueue := q |> in
              match mget (payload e) (active c) with
              | None => dispatchVirtualLoop fuel c
              | Some r =>
                  dispatchVirtualLoop fuel
                    (c <| active := mset (payload e) (r <| virtualDisposition := VActive |>) (active c) |>
                       <| virtualActiveCost := addSaturated (virtualActiveCost c) (l_cost r) |>
                       <| virtualActiveCount := addSaturated (virtualActiveCount c) 1 |>)
              end
          end
      else c
  end.

Definition dispatchVirtual (c : Controller) : Controller :=
  dispatchVirtualLoop (Z.to_nat (count (virtualQueue c))) c.

Definition releaseVirtual (i : string) (r : ActiveLeaseRecord) (c : Controller) : Controller :=
  let c :=
    match virtualDisposition r with
    | VActive =>
        c <| virtualActiveCost := virtualActiveCost c - l_cost r |>
          <| virtualActiveCount := virtualActiveCount c - 1 |>
    | VQueued => c <| virtualQueue := (removeById i (virtualQueue c)).1 |>
    | _ => c
    end in
  dispatchVirtual c.

Definition existingEntry (i : string) (r : ActiveLeaseRecord) : QueueEntry string :=
  mkEntry i "_existing" (l_cost r) (admittedAtMs r) MAX_SAFE_INTEGER i 0.

Definition rebuildOne (c : Controller) (ir : string * ActiveLeaseRecord) : Controller :=
  let '(i, r) := ir in
  let setD d c := c <| active := mset i (r <| virtualDisposition := d |>) (active c) |> in
  if l_cost r >? limit c then setD VRejected c
  else if l_cost r <=? limit c - virtualActiveCost c then
    setD VActive c
      <| virtualActiveCost := addSaturated (virtualActiveCost c) (l_cost r) |>
      <| virtualActiveCount := addSaturated (virtualActiveCount c) 1 |>
  else
    match enqueue (existingEntry i r) (virtualQueue c) with
    | (q, true) => setD VQueued (c <| virtualQueue := q |>)
    | (_, false) => setD VRejected c
    end.

Definition rebuildVirtualState (enable : bool) (c : Controller) : Controller :=
  let c := c <| virtualQueue := newQueue (maxQueueCount (config c)) (maxQueueCost (config c)) |>
             <| virtualActiveCost := 0 |> <| virtualActiveCount := 0 |>
             <| active := (fun '(i, r) => (i, r <| virtualDisposition := VNone |>)) <$> active c |> in
  if enable then foldl rebuildOne c (active c) else c.

(** ** Release *)

Record ReleaseMeta := mkMeta { m_latencyMs : option double; m_pressure : option AdmissionPressure }.

Definition noMeta : ReleaseMeta := mkMeta None None.

Definition releaseLease (env : Env) (i : string) (outcome : AdmissionReleaseOutcome) (meta : ReleaseMeta)
    (c : Controller) : Controller :=
  match mget i (active c) with
  | None => c
  | Some r =>
      let c := sampleIntegral env c in
      let c := c <| active := mdel i (active c) |> <| activeCost := activeCost c - l_cost r |> in
      let latency := orElse (m_latencyMs meta) (dOfZ (Z.max 0 (now env - admittedAtMs r))) in
      let a := noteOutcome outcome (noteLatency latency (adaptation (config c)) (adapt c)) in
      let a := a <| windowCompleted := windowCompleted a + 1 |> in
      let a := match m_pressure meta with Some p => setPressure p a | None => a end in
      let c := releaseVirtual i r (c <| adapt := a |>) in
      dispatch env c
  end.

(** ** Waiting *)

Definition tenantOf (request : AdmissionRequest) : string :=
  match r_tenantKey request with
  | Some t => if bool_decide (t = ""%string) then "_default" else t
  | None => "_default"
  end.

Definition enqueueRequest (env : Env) (request : AdmissionRequest) (cost : Z) (c : Controller)
    : Controller * throws AcquireResult :=
  let '(c, i) := nextId "q" c in
  match normalizeRequestCost (nullish (r_maxWaitMs request) (jsInt (defaultMaxWaitMs (config c))))
          (jsInt MAX_ADMISSION_WINDOW_MS) with
  | Throw n m => (c, Throw n m)
  | Ret maxWait =>
      let deadlineMs := Z.min MAX_SAFE_INTEGER (now env + maxWait) in
      let tenant := tenantOf request in
      let entry := mkEntry i tenant cost (now env) deadlineMs (mkPayload (r_signal request)) 0 in
      let '(c, queued) :=
        if negb (bool_decide (tenant = "_default"%string)) && virtualLanes (config c) then
          let '(c, lane) := getOrCreateLane env tenant c in
          match enqueue entry (lqueue lane) with
          | (q, true) =>
              (armLaneEviction (c <| lanes := mset tenant (lane <| lqueue := q |>) (lanes c) |>), true)
          | (_, false) => (removeEmptyLane tenant c, false)
          end
        else
          let '(q, ok) := enqueue entry (queue c) in (c <| queue := q |>, ok) in
      if negb queued then
        let message := (if negb (bool_decide (tenant = "_default"%string)) && virtualLanes (config c)
                        then "admission lane queue is full" else "admission queue is full")%string in
        let '(c, r) := reject ADMISSION_QUEUE_FULL message c in (c, Ret r)
      else
        let c := dispatch env c in
        let c := c <| deadlineTimers := deadlineTimers c ++ [i] |> in
        let c := match r_signal request with
                 | Some s => c <| abortListeners := abortListeners c ++ [(i, s)] |>
                 | None => c
                 end in
        (dispatch env c, Ret (Queued i))
  end.

Fixpoint removeFromLanes (i : string) (keys : list string) (c : Controller)
    : Controller * option (QueueEntry QueuedPayload) :=
  match keys with
  | [] => (c, None)
  | key :: keys =>
      match mget key (lanes c) with
      | None => removeFromLanes i keys c
      | Some lane =>
          let '(q, r) := removeById i (lqueue lane) in
          let c := c <| lanes := mset key (lane <| lqueue := q |>) (lanes c) |> in
          match r with
          | Some e => (removeEmptyLane (tenantKey e) c, Some e)
          | None => removeFromLanes i keys c
          end
      end
  end.

Definition expireEntry (env : Env) (i : string) (code : AdmissionRejectCode) (message : string)
    (c : Controller) : Controller :=
  let '(q, r) := removeById i (queue c) in
  let '(c, r) :=
    match r with
    | Some e => (c <| queue := q |>, Some e)
    | None => removeFromLanes i (mkeys (lanes c)) c
    end in
  match r with
  | None => c
  | Some e => dispatch env (failQueued (id e) code message c)
  end.

(** ** The public methods *)

Definition shouldAdmitSolo (cost : Z) (c : Controller) : bool :=
  (cost <=? maxLimit (config c)) && (msize (active c) =? 0) && (count (queue c) =? 0)
  && (laneTotalQueuedCount c =? 0) && isNormal (pressure (adapt c)).

(** The validated quanta, passed to the estimator as numbers. *)
Definition costInput (c : AdmissionCostConfig) : CostConfig jsval :=
  mkCostConfig (jsInt (baseCost c)) (jsInt (bodyBytesPerUnit c)) (jsInt (tokensPerUnit c))
    (jsInt (messagesPerUnit c)) (jsInt (toolsPerUnit c)) (jsInt (fanoutPerUnit c))
    (jsInt (streamingClassCost c)) (jsInt (nonStreamingClassCost c)) (jsInt (maxRequestCost c)).

Definition resolveCost (request : AdmissionRequest) (c : Controller) : throws Z :=
  if negb (isUndefined (r_cost request)) then
    normalizeRequestCost (r_cost request) (jsInt (maxRequestCost (costConfig (config c))))
  else
    match r_features request with
    | Some f => estimateAdmissionCost f (costInput (costConfig (config c)))
    | None => Ret 1
    end.

Definition virtualEntry (env : Env) (i : string) (request : AdmissionRequest) (cost : Z) : QueueEntry string :=
  mkEntry i (tenantOf request) cost (now env) MAX_SAFE_INTEGER i 0.

Definition acquireShadow (env : Env) (request : AdmissionRequest) (cost lim : Z) (c : Controller)
    : Controller * AcquireResult :=
  let '(c, decision, d) :=
    if (cost >? lim) || negb (Z.abs cost <=? MAX_SAFE_INTEGER) then
      (c <| wouldRejectCount := wouldRejectCount c + 1 |>, would_reject, VRejected)
    else if virtualActiveCost c + cost <=? lim then
      (c <| virtualActiveCost := addSaturated (virtualActiveCost c) cost |>
         <| virtualActiveCount := addSaturated (virtualActiveCount c) 1 |>
         <| wouldAdmitCount := addSaturated (wouldAdmitCount c) 1 |>, would_admit, VActive)
    else if canAccept cost (virtualQueue c) then
      (c <| wouldQueueCount := wouldQueueCount c + 1 |>, would_queue, VQueued)
    else (c <| wouldRejectCount := wouldRejectCount c + 1 |>, would_reject, VRejected) in
  let '(c, i) := admitNow env cost d c in
  let c := match d with
           | VQueued => c <| virtualQueue := (enqueue (virtualEntry env i request cost) (virtualQueue c)).1 |>
           | _ => c
           end in
  (c, AdmittedNow i cost (Some decision)).

Definition acquire (env : Env) (request : AdmissionRequest) (c : Controller)
    : Controller * throws AcquireResult :=
  let ret '(c, r) := (c, Ret r) in
  if shutDown c then ret (reject ADMISSION_SHUTDOWN "admission controller is shut down" c)
  else if match r_signal request with Some s => aborted env s | None => false end then
    ret (reject ADMISSION_ABORTED "request aborted before acquire" c)
  else
    let c := match r_pressure request with
             | Some p => c <| adapt := setPressure p (adapt c) |>
             | None => c end in
    match resolveCost request c with
    | Throw n m => (c, Throw n m)
    | Ret cost =>
        match mode (config c) with
        | off => let '(c, i) := admitVirtual c in (c, Ret (AdmittedNow i cost None))
        | shadow => ret (acquireShadow env request cost (limit c) c)
        | enforce =>
            if cost >? limit c then
              if shouldAdmitSolo cost c then
                let '(c, i) := admitNow env cost VNone c in (c, Ret (AdmittedNow i cost None))
              else ret (reject ADMISSION_OVERSIZED "request cost exceeds max budget" c)
            else if (count (queue c) =? 0) && (activeCost c + cost <=? limit c) then
              let '(c, i) := admitNow env cost VNone c in (c, Ret (AdmittedNow i cost None))
            else if negb (canAccept cost (queue c)) then
              ret (reject ADMISSION_QUEUE_FULL "admission queue is full" c)
            else enqueueRequest env request cost c
        end
    end.

Definition armWindowTimer (c : Controller) : Controller :=
  c <| windowTimer := negb (shutDown c || modeIs off c) |>.

Definition newController (env : Env) (input : AdaptiveAdmissionConfig) : throws Controller :=
  cfg ← validateConfig input;
  Ret (armWindowTimer
    (mkController cfg
       (createAdaptationState (initialLimit cfg) (minLimit cfg) (maxLimit cfg) (now env))
       (newQueue (maxQueueCount cfg) (maxQueueCost cfg))
       (newQueue (maxQueueCount cfg) (maxQueueCost cfg))
       [] false [] 0 0 0 (now env) false false 0 0 0 0 0 0%N [] [] [])).

Definition observePressure (env : Env) (p : AdmissionPressure) (c : Controller) : Controller :=
  let c := c <| adapt := setPressure p (adapt c) |> in
  match p with
  | critical =>
      if negb (criticalDecreaseConsumed (adapt c)) then
        let scaled := scaleLimit (limit c) (criticalDecreaseFactor (adaptation (config c))) in
        let c := c <| adapt := (adapt c)
                        <| currentLimit := Z.max (minLimit (config c)) (orElse scaled (minLimit (config c))) |>
                        <| criticalDecreaseConsumed := true |> |> in
        dispatchVirtual (dispatch env c)
      else c
  | _ => c
  end.

Definition tick (env : Env) (c : Controller) : Controller :=
  let c := evictIdleLanes env (sampleIntegral env c) in
  let c := c <| adapt := closeAdaptationWindow (adaptation (config c)) (now env) (adapt c) |> in
  dispatchVirtual (dispatch env c).

(** The window timer ticks and arms itself again. *)
Definition windowFires (env : Env) (c : Controller) : Controller :=
  let c := tick env c in c <| windowTimer := negb (shutDown c || modeIs off c) |>.

Definition allLaneEntries (c : Controller) : list (QueueEntry QueuedPayload) :=
  concat ((fun lane => (drain (lqueue lane)).2) <$> mvals (lanes c)).

Definition shutdown (c : Controller) : Controller :=
  if shutDown c then c
  else
    let c := c <| shutDown := true |> <| windowTimer := false |> in
    let message := "admission controller shut down"%string in
    let '(q, drained) := drain (queue c) in
    let c := failAll ADMISSION_SHUTDOWN message drained (c <| queue := q |>) in
    let c := failAll ADMISSION_SHUTDOWN message (allLaneEntries c) c in
    clearLaneEviction (c <| lanes := [] |>).

(** What [updateConfig] does with one drained entry. *)
Definition requeue (env : Env) (c : Controller) (e : QueueEntry QueuedPayload) : Controller :=
  if negb (modeIs enforce c) then
    let c := detachAbort (id e) (clearEntryTimer (id e) c) in
    let '(c, lease) := admitNow env (cost e) VNone c in settle (id e) (ResolvedWith lease) c
  else if cost e >? limit c then
    failQueued (id e) ADMISSION_OVERSIZED "request cost exceeds max budget after config update" c
  else
    match enqueue e (queue c) with
    | (q, true) => c <| queue := q |>
    | (_, false) => failQueued (id e) ADMISSION_QUEUE_FULL "queue capacity reduced" c
    end.

Definition updateConfig (env : Env) (input : AdaptiveAdmissionConfig) (c : Controller)
    : Controller * throws unit :=
  match validateConfig input with
  | Throw n m => (c, Throw n m)
  | Ret next =>
      let c := sampleIntegral env c in
      let a := (adapt c)
        <| currentLimit := Z.min (maxLimit next) (Z.max (minLimit next) (limit c)) |>
        <| recoveryCeiling := clampLimit (Some (initialLimit next)) (minLimit next) (maxLimit next) |>
        <| windowStartMs := now env |> <| windowActiveCostIntegral := 0 |>
        <| windowCompleted := 0 |> <| windowLatencySamples := 0 |> <| freezeGrowth := false |>
        <| criticalDecreaseConsumed := false |> <| pressure := normal |> in
      let drained := (drain (queue c)).2 ++ allLaneEntries c in
      let c := c <| config := next |> <| adapt := a |> <| lastSampleMs := now env |>
                 <| queue := newQueue (maxQueueCount next) (maxQueueCost next) |>
                 <| lanes := [] |> in
      let c := foldl (requeue env) (clearLaneEviction c) drained in
      let c := armWindowTimer (rebuildVirtualState (modeIs shadow c) c) in
      (if modeIs enforce c then dispatch env c else c, Ret tt)
  end.

Record AdmissionSnapshot := mkSnapshot {
  s_mode : AdmissionMode;
  s_limits : Z * Z * Z;                    (* currentLimit, minLimit, maxLimit *)
  s_active : Z * Z;                        (* activeCost, activeCount *)
  s_queued : Z * Z;
  s_virtualActive : Z * Z;
  s_virtualQueued : Z * Z;
  s_virtualLanes : bool;
  s_lanes : Z * Z * Z;                     (* laneCount, laneQueuedCost, laneQueuedCount *)
  s_laneTenants : list (string * Z * Z);
  s_counts : Z * Z * Z * Z * Z;            (* admitted, rejected, would-admit, -queue, -reject *)
  s_window : double * double * double;     (* the two latency averages, utilization *)
  s_pressure : AdmissionPressure;
  s_shutdown : bool;
}.

Definition snapshot (env : Env) (c : Controller) : Controller * AdmissionSnapshot :=
  let c := sampleIntegral env c in
  let sat := saturateSnapshotNumber in
  (c, mkSnapshot (mode (config c)) (limit c, minLimit (config c), maxLimit (config c))
        (sat (activeCost c), sat (msize (active c)))
        (sat (totalCost (queue c)), sat (count (queue c)))
        (sat (virtualActiveCost c), sat (virtualActiveCount c))
        (sat (totalCost (virtualQueue c)), sat (count (virtualQueue c)))
        (virtualLanes (config c))
        (sat (msize (lanes c)), sat (laneTotalQueuedCost c), sat (laneTotalQueuedCount c))
        ((fun '(k, lane) => (k, sat (count (lqueue lane)), sat (totalCost (lqueue lane)))) <$> lanes c)
        (sat (admittedCount c), sat (rejectedCount c), sat (wouldAdmitCount c),
         sat (wouldQueueCount c), sat (wouldRejectCount c))
        (shortLatencyEwma (adapt c), longLatencyEwma (adapt c), utilization (adapt c))
        (pressure (adapt c)) (shutDown c)).

(** ** The invariant of the controller *)

(** The part of the state that accounting depends on. *)
Definition core (c : Controller) :=
  (config c, limit c, (queue c, virtualQueue c, lanes c), (active c, activeCost c), (shutDown c, leaseSeq c)).

Definition leaseId (n : N) : string := "lease" +:+ "-" +:+ pretty n.

Definition lanesOk (m : jsmap string Lane) : Prop :=
  mwf m /\ Forall (fun kl => QInv (lqueue kl.2)) m.

Record CInv (c : Controller) : Prop := {
  ci_config : ConfigOk (config c);
  ci_limit : minLimit (config c) <= limit c <= maxLimit (config c);
  ci_wf : mwf (active c);
  ci_cost : activeCost c = sumZ (l_cost <$> mvals (active c));
  ci_pos : Forall (fun ir => 0 < l_cost ir.2) (active c);
  ci_ids : forall i, i ∈ mkeys (active c) -> exists n, (n <= leaseSeq c)%N /\ i = leaseId n;
  ci_queue : QInv (queue c);
  ci_vqueue : QInv (virtualQueue c);
  ci_lanes : lanesOk (lanes c);
  ci_shut : shutDown c = true -> count (queue c) = 0 /\ lanes c = [];
}.

Lemma limit_small : MAX_ADMISSION_COST_OR_LIMIT < 2 ^ 53.
Proof. vm_compute. reflexivity. Qed.

(** The costs of the active leases, before and after an update of one. *)
Lemma costs_mdel i r (m : jsmap string ActiveLeaseRecord) :
  mget i m = Some r ->
  sumZ (l_cost <$> mvals m) = l_cost r + sumZ (l_cost <$> mvals (mdel i m)).
Proof.
  intros Hr. pose proof (mdel_perm _ _ _ Hr) as HP. unfold mvals.
  exact (sumZ_Permutation _ _ (fmap_Permutation l_cost _ _ (fmap_Permutation snd _ _ HP))).
Qed.

Lemma costs_mset i r r' (m : jsmap string ActiveLeaseRecord) :
  mget i m = Some r ->
  sumZ (l_cost <$> mvals (mset i r' m)) = l_cost r' + sumZ (l_cost <$> mvals (mdel i m)).
Proof.
  intros Hr. pose proof (mset_perm _ _ r' _ Hr) as HP. unfold mvals.
  exact (sumZ_Permutation _ _ (fmap_Permutation l_cost _ _ (fmap_Permutation snd _ _ HP))).
Qed.

Section Invariant.
Implicit Types (c : Controller) (env : Env).

Lemma CInv_core c c' : core c' = core c -> CInv c -> CInv c'.
Proof.
  unfold core. intros H []. injection H as H1 H2 H3 H4 H5 H6 H7 H8 H9.
  split; rewrite ?H1, ?H2, ?H3, ?H4, ?H5, ?H6, ?H7, ?H8, ?H9; done.
Qed.

Lemma leaseId_inj n m : leaseId n = leaseId m -> n = m.
Proof. unfold leaseId. intros H. simpl in H. by simplify_eq. Qed.

Lemma sample_core env c : core (sampleIntegral env c) = core c.
Proof.
  unfold sampleIntegral. case_if; [|done]. unfold sampleActiveIntegral. by case_if.
Qed.

Lemma CInv_setQueue c q :
  CInv c -> QInv q -> (shutDown c = true -> count q = 0) -> CInv (c <| queue := q |>).
Proof. intros [] Hq Hs. split; try done. simpl. intros H. split; [auto|by apply ci_shut0]. Qed.

Lemma CInv_setLanes c m :
  CInv c -> lanesOk m -> (shutDown c = true -> m = []) -> CInv (c <| lanes := m |>).
Proof. intros [] Hq Hs. split; try done. simpl. intros H. split; [by apply ci_shut0|auto]. Qed.

Lemma CInv_setVirtual c q : CInv c -> QInv q -> CInv (c <| virtualQueue := q |>).
Proof. intros [] Hq. by split. Qed.

(** What an admission changes. *)
Lemma admit_core env cost d c :
  core (admitNow env cost d c).1 =
    (config c, limit c, (queue c, virtualQueue c, lanes c),
     (mset (leaseId (leaseSeq c + 1)) (mkLeaseRecord cost (now env) d) (active c), activeCost c + cost),
     (shutDown c, (leaseSeq c + 1)%N)) /\
  (admitNow env cost d c).2 = leaseId (leaseSeq c + 1).
Proof.
  pose proof (sample_core env c) as Hs. unfold core in Hs. injection Hs as H1 H2 H3 H4 H5 H6 H7 H8 H9.
  unfold admitNow. revert H1 H2 H3 H4 H5 H6 H7 H8 H9. generalize (sampleIntegral env c). intros c1 ?????????.
  split; [|transitivity (leaseId (leaseSeq c1 + 1)); [reflexivity|congruence]].
  transitivity (config c1, limit c1, (queue c1, virtualQueue c1, lanes c1),
    (mset (leaseId (leaseSeq c1 + 1)) (mkLeaseRecord cost (now env) d) (active c1), activeCost c1 + cost),
    (shutDown c1, (leaseSeq c1 + 1)%N)); [reflexivity|congruence].
Qed.

Lemma fresh_lease c : CInv c -> mget (leaseId (leaseSeq c + 1)) (active c) = None.
Proof.
  intros I. apply mget_None. intros Hin. destruct (ci_ids _ I _ Hin) as (n & Hn & He).
  apply leaseId_inj in He. lia.
Qed.

Lemma CInv_admit env cost d c : CInv c -> 0 < cost -> CInv (admitNow env cost d c).1.
Proof.
  intros I Hc. pose proof (fresh_lease c I) as Hf.
  destruct (admit_core env cost d c) as [Hcore _]. revert Hcore.
  generalize (admitNow env cost d c).1. intros c' Hcore. unfold core in Hcore.
  injection Hcore as H1 H2 H3 H4 H5 H6 H7 H8 H9. destruct I.
  split; rewrite ?H1, ?H2, ?H3, ?H4, ?H5, ?H6, ?H7, ?H8, ?H9; try done.
  - by apply mwf_mset.
  - rewrite mset_new by (unfold mhas; by rewrite Hf). unfold mvals. rewrite !fmap_app, sumZ_app.
    rewrite ci_cost0. simpl. unfold mvals. lia.
  - by apply Forall_mset.
  - intros i. rewrite mkeys_mset. unfold mhas. rewrite Hf. rewrite elem_of_app, list_elem_of_singleton.
    intros [Hi| ->]; [|exists (leaseSeq c + 1)%N; split; [lia|done]].
    destruct (ci_ids0 i Hi) as (n & ? & ->). exists n. split; [lia|done].
Qed.

Lemma failQueued_core i code m c : core (failQueued i code m c) = core c.
Proof. done. Qed.

Lemma failAll_core code m es c : core (failAll code m es c) = core c.
Proof.
  unfold failAll. revert c. induction es as [|e es IH]; intros c; simpl; [done|].
  by rewrite IH, failQueued_core.
Qed.

(** A dequeued entry is settled without accounting, or admitted. *)
Lemma settleEntry_cases env e c :
  core (settleEntry env e c).1 = core c /\ (settleEntry env e c).2 = false \/
  core (settleEntry env e c).1 = core (admitNow env (cost e) VNone c).1 /\ (settleEntry env e c).2 = true.
Proof.
  unfold settleEntry. cbn zeta. case_if; [left; done|]. case_if; [left; done|]. right.
  set (c1 := detachAbort (id e) (clearEntryTimer (id e) c)).
  assert (core c1 = core c) as Hc1 by done.
  assert (now_eq : core (admitNow env (cost e) VNone c1).1 = core (admitNow env (cost e) VNone c).1).
  { destruct (admit_core env (cost e) VNone c1) as [-> _].
    destruct (admit_core env (cost e) VNone c) as [-> _]. done. }
  destruct (admitNow env (cost e) VNone c1) as [c2 i]. split; [exact now_eq|done].
Qed.

Lemma CInv_settleEntry env e c : CInv c -> 0 < cost e -> CInv (settleEntry env e c).1.
Proof.
  intros I Hc. destruct (settleEntry_cases env e c) as [[H _]|[H _]].
  - by apply (CInv_core c).
  - apply (CInv_core (admitNow env (cost e) VNone c).1); [done|by apply CInv_admit].
Qed.

Lemma dequeue_cost {T} max (q q' : FairCostQueue T) e :
  QInv q -> dequeue max q = (q', Some e) -> QInv q' /\ 0 < cost e <= max /\ count q' = count q - 1.
Proof.
  intros I Hd. pose proof (dequeue_cases max q I) as Hc. pose proof (QInv_dequeue max q I) as Iq.
  rewrite Hd in Hc, Iq. destruct Hc as (i & h & q1 & Hh & Hle & I1 & Hs & -> & He & (h1 & Hh1 & Hst) & _).
  destruct (takeAt_spec q1 i h1 I1 Hh1) as (He1 & Hcnt & _). rewrite He1, Hst in He. injection He as ->.
  destruct (headAt_bucket _ _ _ Hh) as (t & l & _ & Hm).
  destruct (mget_bucket q t _ I Hm) as [_ Hok]. apply Forall_cons in Hok as [[_ ?] _].
  destruct Hs as (_ & _ & Hq & _). split; [done|]. split; [simpl; lia|lia].
Qed.

Lemma settleEntry_shut env e c : shutDown (settleEntry env e c).1 = shutDown c.
Proof.
  destruct (settleEntry_cases env e c) as [[H _]|[H _]].
  - unfold core in H. by injection H.
  - destruct (admit_core env (cost e) VNone c) as [Ha _]. rewrite Ha in H. unfold core in H. by injection H.
Qed.

Lemma CInv_dispatchLoop fuel env c :
  CInv c -> shutDown c = false -> CInv (dispatchLoop fuel env c).1 /\ shutDown (dispatchLoop fuel env c).1 = false.
Proof.
  revert c. induction fuel as [|fuel IH]; intros c I Hs; simpl; [done|].
  case_if; [|done]. case_if; [done|].
  destruct (dequeue (limit c - activeCost c) (queue c)) as [q [e|]] eqn:Hd.
  - destruct (dequeue_cost _ _ _ _ (ci_queue _ I) Hd) as (Iq & He & _).
    apply IH; [|by rewrite settleEntry_shut].
    apply CInv_settleEntry; [|lia]. apply CInv_setQueue; [done|done|]. by rewrite Hs.
  - pose proof (QInv_dequeue (limit c - activeCost c) (queue c) (ci_queue _ I)) as Iq. rewrite Hd in Iq.
    simpl. split; [|done]. apply CInv_setQueue; [done|done|]. by rewrite Hs.
Qed.

Lemma lanesOk_mset key lane m : lanesOk m -> QInv (lqueue lane) -> lanesOk (mset key lane m).
Proof. intros [Hw Hf] Hq. split; [by apply mwf_mset|]. by apply Forall_mset. Qed.

Lemma lanesOk_mdel key m : lanesOk m -> lanesOk (mdel key m).
Proof. intros [Hw Hf]. split; [by apply mwf_mdel|]. by apply Forall_mdel. Qed.

Lemma lanesOk_mget key lane m : lanesOk m -> mget key m = Some lane -> QInv (lqueue lane).
Proof.
  intros [Hw Hf] Hm. apply mget_Some_elem in Hm. rewrite Forall_forall in Hf. exact (Hf _ Hm).
Qed.

Lemma CInv_laneLoop fuel env key c :
  CInv c -> shutDown c = false ->
  CInv (laneLoop fuel env key c).1 /\ shutDown (laneLoop fuel env key c).1 = false.
Proof.
  revert c. induction fuel as [|fuel IH]; intros c I Hs; simpl; [done|].
  destruct (mget key (lanes c)) as [lane|] eqn:Hl; [|done]. case_if; [|done]. case_if; [done|].
  pose proof (lanesOk_mget _ _ _ (ci_lanes _ I) Hl) as Il.
  pose proof (QInv_dequeue (limit c - activeCost c) _ Il) as Iq.
  destruct (dequeue (limit c - activeCost c) (lqueue lane)) as [q r] eqn:Hd. simpl in Iq.
  assert (CInv (c <| lanes := mset key (lane <| lqueue := q |>) (lanes c) |>)) as I1.
  { apply CInv_setLanes; [done|apply lanesOk_mset; [apply I|done]|]. by rewrite Hs. }
  destruct r as [e|]; [|done].
  destruct (dequeue_cost _ _ _ _ Il Hd) as (_ & He & _).
  pose proof (CInv_settleEntry env e _ I1 ltac:(lia)) as I2.
  pose proof (settleEntry_shut env e (c <| lanes := mset key (lane <| lqueue := q |>) (lanes c) |>)) as Hs2.
  destruct (settleEntry env e _) as [c2 adm]; simpl in *. rewrite Hs in Hs2. destruct adm; [done|by apply IH].
Qed.

Lemma removeEmptyLane_core key c :
  exists m, core (removeEmptyLane key c) = core (c <| lanes := m |>) /\
    (m = lanes c \/ m = mdel key (lanes c)).
Proof.
  unfold removeEmptyLane. destruct (mget key (lanes c)) as [lane|]; [case_if|].
  - exists (mdel key (lanes c)). auto.
  - exists (lanes c). auto.
  - exists (lanes c). auto.
Qed.

Lemma CInv_removeEmptyLane key c : CInv c -> CInv (removeEmptyLane key c).
Proof.
  intros I. unfold removeEmptyLane. destruct (mget key (lanes c)) as [lane|] eqn:Hl; [|done].
  case_if; [|done]. apply CInv_setLanes; [done|apply lanesOk_mdel, I|].
  intros Hs. destruct (ci_shut _ I Hs) as [_ Hn]. by rewrite Hn.
Qed.

Lemma CInv_dispatchKeys env keys c : CInv c -> shutDown c = false -> CInv (dispatchKeys env keys c).
Proof.
  revert c. induction keys as [|key keys IH]; intros c I Hs; simpl; [done|].
  destruct (mget key (lanes c)); [|by apply IH].
  destruct (CInv_laneLoop (laneFuel key c) env key c I Hs) as [I1 Hs1].
  destruct (laneLoop (laneFuel key c) env key c) as [c1 stop]; simpl in *.
  destruct stop; [done|]. apply IH; [by apply CInv_removeEmptyLane|].
  unfold removeEmptyLane. destruct (mget key (lanes c1)); [case_if|]; done.
Qed.

Lemma CInv_dispatch env c : CInv c -> CInv (dispatch env c).
Proof.
  intros I. unfold dispatch. generalize (S (Z.to_nat (count (queue c)))). intros fuel.
  destruct (shutDown c) eqn:Hs; simpl; [done|]. case_if; [done|].
  destruct (CInv_dispatchLoop fuel env c I Hs) as [I1 Hs1].
  destruct (dispatchLoop fuel env c) as [c1 ret]; simpl in *. destruct ret; [done|].
  unfold dispatchLanes. case_if; [done|]. case_if; [done|]. by apply CInv_dispatchKeys.
Qed.

Lemma CInv_setDisposition i r d c :
  CInv c -> mget i (active c) = Some r ->
  CInv (c <| active := mset i (r <| virtualDisposition := d |>) (active c) |>).
Proof.
  intros I Hr. destruct I. split; try done; simpl.
  - by apply mwf_mset.
  - by rewrite ci_cost0, (costs_mset _ _ _ _ Hr), (costs_mdel _ _ _ Hr).
  - apply Forall_mset; [done|]. apply mget_Some_elem in Hr. rewrite Forall_forall in ci_pos0.
    exact (ci_pos0 _ Hr).
  - intros j. rewrite mkeys_mset. unfold mhas. rewrite Hr. apply ci_ids0.
Qed.

Lemma CInv_dispatchVirtual c : CInv c -> CInv (dispatchVirtual c).
Proof.
  unfold dispatchVirtual. generalize (Z.to_nat (count (virtualQueue c))). intros fuel.
  revert c. induction fuel as [|fuel IH]; intros c I; simpl; [done|]. case_if; [|done]. case_if; [done|].
  pose proof (QInv_dequeue (limit c - virtualActiveCost c) _ (ci_vqueue _ I)) as Iq.
  destruct (dequeue (limit c - virtualActiveCost c) (virtualQueue c)) as [q [e|]]; simpl in *.
  - destruct (mget (payload e) (active c)) as [r|] eqn:Hr; apply IH; [|by apply CInv_setVirtual].
    pose proof (CInv_setDisposition _ r VActive (c <| virtualQueue := q |>)
      (CInv_setVirtual _ _ I Iq) Hr) as I1.
    refine (CInv_core _ _ _ I1). reflexivity.
  - by apply CInv_setVirtual.
Qed.

(** ** Frames: what dispatching can change *)

Definition calm c c' : Prop :=
  config c' = config c /\ limit c' = limit c /\ shutDown c' = shutDown c /\
  activeCost c' <= Z.max (activeCost c) (limit c).

Lemma calm_refl c : calm c c.
Proof. unfold calm. split_and!; done || lia. Qed.

Lemma calm_trans c1 c2 c3 : calm c1 c2 -> calm c2 c3 -> calm c1 c3.
Proof. intros (A1&A2&A3&A4) (B1&B2&B3&B4). unfold calm. split_and!; try congruence. lia. Qed.

Lemma calm_core c c' : core c' = core c -> calm c c'.
Proof.
  unfold core. intros H. injection H as H1 H2 H3 H4 H5 H6 H7 H8 H9.
  unfold calm. split_and!; try done. lia.
Qed.

Lemma calm_settleEntry env e c :
  cost e <= limit c - activeCost c -> calm c (settleEntry env e c).1.
Proof.
  intros Hc. destruct (settleEntry_cases env e c) as [[H _]|[H _]]; [by apply calm_core|].
  destruct (admit_core env (cost e) VNone c) as [Ha _]. rewrite Ha in H.
  unfold core in H. injection H as H1 H2 H3 H4 H5 H6 H7 H8 H9.
  unfold calm. split_and!; try done. lia.
Qed.

Lemma settleEntry_queue env e c :
  queue (settleEntry env e c).1 = queue c /\ lanes (settleEntry env e c).1 = lanes c.
Proof.
  destruct (settleEntry_cases env e c) as [[H _]|[H _]].
  - unfold core in H. by injection H.
  - destruct (admit_core env (cost e) VNone c) as [Ha _]. rewrite Ha in H. unfold core in H. by injection H.
Qed.

(** No entry of the shared queue could be dispatched. *)
Definition saturated c : Prop :=
  count (queue c) = 0 \/ limit c <= activeCost c \/
  (dequeue (limit c - activeCost c) (queue c)).2 = None.

Lemma dispatchLoop_spec fuel env c :
  CInv c -> shutDown c = false -> count (queue c) < Z.of_nat fuel ->
  calm c (dispatchLoop fuel env c).1 /\ saturated (dispatchLoop fuel env c).1 /\
  ((dispatchLoop fuel env c).2 = false -> count (queue (dispatchLoop fuel env c).1) = 0).
Proof.
  revert c. induction fuel as [|fuel IH]; intros c I Hs Hf; simpl.
  { pose proof (count_nonneg _ (ci_queue _ I)). lia. }
  pose proof (count_nonneg _ (ci_queue _ I)) as Hnn.
  destruct (Z.gtb_spec (count (queue c)) 0) as [Hc|Hc].
  2:{ split_and!; [apply calm_refl|left; simpl; lia|intros; simpl; lia]. }
  destruct (Z.leb_spec (limit c - activeCost c) 0) as [Ha|Ha].
  { split_and!; [apply calm_refl|right; left; simpl; lia|done]. }
  destruct (dequeue (limit c - activeCost c) (queue c)) as [q [e|]] eqn:Hd.
  - destruct (dequeue_cost _ _ _ _ (ci_queue _ I) Hd) as (Iq & He & Hcnt).
    assert (CInv (c <| queue := q |>)) as I1 by (apply CInv_setQueue; [done|done|]; by rewrite Hs).
    pose proof (CInv_settleEntry env e _ I1 ltac:(lia)) as I2.
    pose proof (calm_settleEntry env e (c <| queue := q |>)) as Hcalm.
    destruct (settleEntry_queue env e (c <| queue := q |>)) as [Hq _].
    destruct (IH (settleEntry env e (c <| queue := q |>)).1) as (C & S & F); [done|by rewrite settleEntry_shut| |].
    + rewrite Hq. simpl. lia.
    + split_and!; [|done|done]. eapply calm_trans; [|exact C].
      eapply calm_trans; [|apply Hcalm; change (cost e <= limit c - activeCost c); lia].
      unfold calm. split_and!; try done. simpl. lia.
  - pose proof (dequeue_cases (limit c - activeCost c) _ (ci_queue _ I)) as Hn. rewrite Hd in Hn.
    destruct Hn as [-> _]. simpl. split_and!; [|right; right|done].
    + unfold calm. split_and!; try done. simpl. lia.
    + change ((dequeue (limit c - activeCost c) (queue c)).2 = None). by rewrite Hd.
Qed.

Lemma laneLoop_calm fuel env key c :
  CInv c -> shutDown c = false ->
  calm c (laneLoop fuel env key c).1 /\ queue (laneLoop fuel env key c).1 = queue c.
Proof.
  revert c. induction fuel as [|fuel IH]; intros c I Hs; simpl; [split; [apply calm_refl|done]|].
  destruct (mget key (lanes c)) as [lane|] eqn:Hl; [|split; [apply calm_refl|done]].
  case_if; [|split; [apply calm_refl|done]]. case_if; [split; [apply calm_refl|done]|].
  pose proof (lanesOk_mget _ _ _ (ci_lanes _ I) Hl) as Il.
  pose proof (QInv_dequeue (limit c - activeCost c) _ Il) as Iq.
  destruct (dequeue (limit c - activeCost c) (lqueue lane)) as [q r] eqn:Hd. simpl in Iq.
  set (c1 := c <| lanes := mset key (lane <| lqueue := q |>) (lanes c) |>).
  assert (CInv c1) as I1.
  { apply CInv_setLanes; [done|apply lanesOk_mset; [apply I|done]|]. by rewrite Hs. }
  assert (calm c c1) as C1 by (unfold calm; split_and!; try done; simpl; lia).
  destruct r as [e|]; [|done].
  destruct (dequeue_cost _ _ _ _ Il Hd) as (_ & He & _).
  pose proof (CInv_settleEntry env e _ I1 ltac:(lia)) as I2.
  pose proof (calm_settleEntry env e c1 ltac:(change (cost e <= limit c - activeCost c); lia)) as C2.
  destruct (settleEntry_queue env e c1) as [Hq _].
  pose proof (settleEntry_shut env e c1) as Hs2.
  destruct (settleEntry env e c1) as [c2 adm]; simpl in *. rewrite Hs in Hs2. destruct adm.
  - split; [exact (calm_trans _ _ _ C1 C2)|done].
  - destruct (IH c2 I2 Hs2) as [C3 Hq3]. split; [|congruence].
    exact (calm_trans _ _ _ (calm_trans _ _ _ C1 C2) C3).
Qed.

Lemma removeEmptyLane_calm key c :
  calm c (removeEmptyLane key c) /\ queue (removeEmptyLane key c) = queue c.
Proof.
  unfold removeEmptyLane. destruct (mget key (lanes c)); [case_if|]; (split; [|done]); try apply calm_refl.
  unfold calm. split_and!; try done. simpl. lia.
Qed.

Lemma dispatchKeys_calm env keys c :
  CInv c -> shutDown c = false ->
  calm c (dispatchKeys env keys c) /\ queue (dispatchKeys env keys c) = queue c.
Proof.
  revert c. induction keys as [|key keys IH]; intros c I Hs; simpl; [split; [apply calm_refl|done]|].
  destruct (mget key (lanes c)); [|by apply IH].
  destruct (CInv_laneLoop (laneFuel key c) env key c I Hs) as [I1 Hs1].
  destruct (laneLoop_calm (laneFuel key c) env key c I Hs) as [C1 Q1].
  destruct (laneLoop (laneFuel key c) env key c) as [c1 stop]; simpl in *.
  destruct stop; [done|]. destruct (removeEmptyLane_calm key c1) as [C2 Q2].
  destruct (IH (removeEmptyLane key c1)) as [C3 Q3].
  - by apply CInv_removeEmptyLane.
  - destruct C2 as (_ & _ & -> & _). done.
  - split; [|congruence]. exact (calm_trans _ _ _ C1 (calm_trans _ _ _ C2 C3)).
Qed.

Lemma dispatch_calm env c : CInv c -> calm c (dispatch env c).
Proof.
  intros I. unfold dispatch. destruct (shutDown c) eqn:Hs; cbn [orb]; [apply calm_refl|].
  case_if; [apply calm_refl|].
  destruct (CInv_dispatchLoop (S (Z.to_nat (count (queue c)))) env c I Hs) as [I1 Hs1].
  destruct (dispatchLoop_spec (S (Z.to_nat (count (queue c)))) env c I Hs) as (C1 & _ & _).
  { pose proof (count_nonneg _ (ci_queue _ I)). lia. }
  destruct (dispatchLoop (S (Z.to_nat (count (queue c)))) env c) as [c1 ret]. cbn [fst snd] in *.
  destruct ret; [done|]. unfold dispatchLanes. case_if; [done|]. case_if; [done|].
  eapply calm_trans; [exact C1|]. by apply dispatchKeys_calm.
Qed.

Lemma saturated_empty c : count (queue c) = 0 -> saturated c.
Proof. by left. Qed.

Lemma dispatch_saturated env c :
  CInv c -> shutDown c = false -> modeIs enforce c = true -> saturated (dispatch env c).
Proof.
  intros I Hs Hm. unfold dispatch. rewrite Hs, Hm. cbn [orb negb].
  destruct (CInv_dispatchLoop (S (Z.to_nat (count (queue c)))) env c I Hs) as [I1 Hs1].
  destruct (dispatchLoop_spec (S (Z.to_nat (count (queue c)))) env c I Hs) as (C1 & S1 & F1).
  { pose proof (count_nonneg _ (ci_queue _ I)). lia. }
  destruct (dispatchLoop (S (Z.to_nat (count (queue c)))) env c) as [c1 ret]. cbn [fst snd] in *.
  destruct ret; [done|]. unfold dispatchLanes. case_if; [done|]. case_if; [done|].
  apply saturated_empty. destruct (dispatchKeys_calm env (mkeys (lanes c1)) c1 I1 Hs1) as [_ ->]. auto.
Qed.
End Invariant.

(** ** Every method keeps the invariant *)

Section Methods.
Implicit Types (c : Controller) (env : Env).

Lemma CInv_setAdapt a c :
  CInv c -> minLimit (config c) <= currentLimit a <= maxLimit (config c) -> CInv (c <| adapt := a |>).
Proof. intros [] Ha. by split. Qed.

Lemma setPressure_limit p a : currentLimit (setPressure p a) = currentLimit a.
Proof. unfold setPressure. by case_if. Qed.

Lemma CInv_setPressure p c : CInv c -> CInv (c <| adapt := setPressure p (adapt c) |>).
Proof. intros I. apply CInv_setAdapt; [done|]. rewrite setPressure_limit. apply I. Qed.

Lemma noteLatency_limit l p a : currentLimit (noteLatency l p a) = currentLimit a.
Proof. unfold noteLatency. cbv zeta. destruct (dLe _ _ && dLe _ _); done. Qed.

Lemma noteOutcome_limit o a : currentLimit (noteOutcome o a) = currentLimit a.
Proof. by destruct o. Qed.

Lemma CInv_sample env c : CInv c -> CInv (sampleIntegral env c).
Proof. apply CInv_core, sample_core. Qed.

Lemma resolveCost_pos request c cost : CInv c -> resolveCost request c = Ret cost -> 0 < cost.
Proof.
  intros I. unfold resolveCost. case_if; [apply normalizeRequestCost_pos|].
  destruct (r_features request) as [f|]; [|intros; by simplify_eq].
  intros H. destruct (estimate_eq _ _ _ H) as (cfg & Hcfg & ->).
  pose proof (estimate_bounds f cfg (resolveCostConfig_ok _ _ Hcfg)). lia.
Qed.

Lemma CInv_acquireShadow env request cost lim c :
  CInv c -> 0 < cost -> CInv (acquireShadow env request cost lim c).1.
Proof.
  intros I Hc. unfold acquireShadow.
  set (pre := if (cost >? lim) || _ then _ else _).
  assert (core pre.1.1 = core c) as Hpre.
  { subst pre. repeat case_if; done. }
  destruct pre as [[c1 dec] d]. simpl in Hpre.
  pose proof (CInv_core _ _ Hpre I) as I1. pose proof (CInv_admit env cost d c1 I1 Hc) as I2.
  destruct (admitNow env cost d c1) as [c2 i]. simpl in *.
  destruct d; simpl; try done. apply CInv_setVirtual; [done|]. apply QInv_enqueue, I2.
Qed.

(** Deleting lanes and settling their entries touches no account. *)
Lemma deleteLane_core key c :
  core (deleteLane key c) = core (c <| lanes := mdel key (lanes c) |>) \/ core (deleteLane key c) = core c.
Proof.
  unfold deleteLane. destruct (mget key (lanes c)) as [lane|]; [left|by right].
  set (c1 := failAll _ _ _ c). pose proof (failAll_core ADMISSION_LANE_EVICTED "connection lane evicted"
    (drain (lqueue lane)).2 c) as H. fold c1 in H. unfold core in *. simpl.
  injection H as H1 H2 H3 H4 H5 H6 H7 H8 H9. unfold limit in *. simpl. congruence.
Qed.

Lemma CInv_deleteLane key c : CInv c -> CInv (deleteLane key c).
Proof.
  intros I. destruct (deleteLane_core key c) as [H|H]; apply (CInv_core _ _ H); [|done].
  apply CInv_setLanes; [done|apply lanesOk_mdel, I|].
  intros Hs. destruct (ci_shut _ I Hs) as [_ Hn]. by rewrite Hn.
Qed.

Lemma deleteLane_calm key c :
  calm c (deleteLane key c) /\ queue (deleteLane key c) = queue c /\
  activeCost (deleteLane key c) = activeCost c.
Proof.
  destruct (deleteLane_core key c) as [H|H]; unfold core in H; injection H as H1 H2 H3 H4 H5 H6 H7 H8 H9;
    unfold calm; unfold limit in *; simpl in *; split_and!; try done; lia.
Qed.

Lemma CInv_evictIdleLanes env c : CInv c -> CInv (evictIdleLanes env c).
Proof.
  intros I. unfold evictIdleLanes.
  assert (CInv (foldl (fun c k => deleteLane k c) c
    (mkeys (base.filter (fun kl => ADMISSION_LANE_TTL_MS <= now env - lastUsedMs kl.2) (lanes c))))) as I1.
  { generalize (mkeys (base.filter (fun kl => ADMISSION_LANE_TTL_MS <= now env - lastUsedMs kl.2) (lanes c))).
    intros ks. revert c I. induction ks as [|k ks IH]; intros c I; simpl; [done|].
    by apply IH, CInv_deleteLane. }
  case_if; (eapply CInv_core; [|exact I1]); done.
Qed.

Lemma CInv_getOrCreateLane env key c :
  CInv c -> shutDown c = false ->
  CInv (getOrCreateLane env key c).1 /\ shutDown (getOrCreateLane env key c).1 = false /\
  QInv (lqueue (getOrCreateLane env key c).2) /\
  queue (getOrCreateLane env key c).1 = queue c /\ calm c (getOrCreateLane env key c).1 /\
  activeCost (getOrCreateLane env key c).1 = activeCost c.
Proof.
  intros I Hs. unfold getOrCreateLane.
  set (pre := match mget key (lanes c) with Some lane => _ | None => _ end).
  assert (CInv pre.1 /\ shutDown pre.1 = false /\ QInv (lqueue pre.2) /\ queue pre.1 = queue c /\
          calm c pre.1 /\ activeCost pre.1 = activeCost c) as Hpre.
  { subst pre. destruct (mget key (lanes c)) as [lane|] eqn:Hl.
    - simpl. split_and!; try done; [by apply (lanesOk_mget key _ _ (ci_lanes _ I))|apply calm_refl].
    - simpl. pose proof (QInv_new (T := QueuedPayload)).
      case_if; [destruct (oldestLaneKey c) as [k|]; [case_if|]|]; split_and!;
        try done; try apply calm_refl; try apply deleteLane_calm; [by apply CInv_deleteLane|].
      destruct (deleteLane_calm k c) as [(_ & _ & -> & _) _]. done. }
  destruct pre as [c1 lane]. cbn [fst snd] in Hpre |- *. destruct Hpre as (I1 & Hs1 & Q1 & E1 & C1 & A1).
  split_and!; try done.
  - apply CInv_setLanes; [done|apply lanesOk_mset; [apply I1|done]|]. by rewrite Hs1.
Qed.

Lemma CInv_enqueueRequest env request cost c :
  CInv c -> shutDown c = false -> CInv (enqueueRequest env request cost c).1.
Proof.
  intros I Hs. unfold enqueueRequest. cbn [nextId fst snd].
  set (c0 := (c <| leaseSeq := (leaseSeq c + 1)%N |>)).
  assert (CInv c0) as I0.
  { destruct I; split; try done. intros i Hi. destruct (ci_ids0 i Hi) as (n & ? & ->).
    exists n. split; [simpl; lia|done]. }
  destruct (normalizeRequestCost _ _) as [maxWait|]; [|done]. cbv zeta.
  set (entry := mkEntry _ _ _ _ _ _ _).
  set (pre := if negb _ && virtualLanes _ then _ else _).
  assert (CInv pre.1) as Hpre.
  { subst pre. case_if.
    - destruct (CInv_getOrCreateLane env (tenantOf request) c0 I0 Hs) as (I1 & Hs1 & Q1 & _).
      destruct (getOrCreateLane env (tenantOf request) c0) as [c1 lane]. cbn [fst snd] in *.
      pose proof (QInv_enqueue entry _ Q1) as Q2. destruct (enqueue entry (lqueue lane)) as [q []]; simpl in *.
      + eapply CInv_core; [|apply (CInv_setLanes c1 (mset (tenantOf request) (lane <| lqueue := q |>) (lanes c1)) I1);
          [apply lanesOk_mset; [apply I1|done]|by rewrite Hs1]]. done.
      + by apply CInv_removeEmptyLane.
    - pose proof (QInv_enqueue entry _ (ci_queue _ I0)) as Q2.
      destruct (enqueue entry (queue c0)) as [q ok]; simpl in *.
      apply CInv_setQueue; [done|done|]. change (shutDown c = true -> count q = 0). by rewrite Hs. }
  destruct pre as [c1 queued]. cbn [fst snd] in Hpre |- *. case_if; cbn [reject fst snd].
  - eapply CInv_core; [|exact Hpre]. done.
  - apply CInv_dispatch. destruct (r_signal request); (eapply CInv_core; [|apply CInv_dispatch, Hpre]; done).
Qed.

Lemma CInv_acquire env request c : CInv c -> CInv (acquire env request c).1.
Proof.
  intros I. unfold acquire. destruct (shutDown c) eqn:Hs; [by eapply CInv_core; [|exact I]|].
  destruct (match r_signal request with Some s => aborted env s | None => false end);
    [by eapply CInv_core; [|exact I]|]. cbv zeta.
  set (c1 := match r_pressure request with Some p => _ | None => c end).
  assert (CInv c1 /\ shutDown c1 = false) as [I1 Hs1]
    by (subst c1; destruct (r_pressure request); [split; [by apply CInv_setPressure|done]|done]).
  destruct (resolveCost request c1) as [cost|] eqn:Hcost; [|done].
  pose proof (resolveCost_pos _ _ _ I1 Hcost) as Hpos.
  destruct (mode (config c1)).
  - unfold admitVirtual. cbn [nextId fst]. destruct I1; split; try done.
    intros i Hi. destruct (ci_ids0 i Hi) as (n & ? & ->). exists n. split; [simpl; lia|done].
  - pose proof (CInv_acquireShadow env request cost (limit c1) c1 I1 Hpos) as H.
    by destruct (acquireShadow env request cost (limit c1) c1).
  - pose proof (CInv_admit env cost VNone c1 I1 Hpos) as Ha.
    case_if; [case_if|case_if; [|case_if]].
    + by destruct (admitNow env cost VNone c1).
    + eapply CInv_core; [|exact I1]. done.
    + by destruct (admitNow env cost VNone c1).
    + eapply CInv_core; [|exact I1]. done.
    + by apply CInv_enqueueRequest.
Qed.

Lemma CInv_releaseVirtual i r c : CInv c -> CInv (releaseVirtual i r c).
Proof.
  intros I. unfold releaseVirtual. apply CInv_dispatchVirtual.
  destruct (virtualDisposition r); try done; [eapply CInv_core; [|exact I]; done|].
  apply CInv_setVirtual; [done|]. apply QInv_removeById, I.
Qed.

Lemma dispatchVirtual_frame c :
  config (dispatchVirtual c) = config c /\ activeCost (dispatchVirtual c) = activeCost c /\
  shutDown (dispatchVirtual c) = shutDown c /\ limit (dispatchVirtual c) = limit c /\
  queue (dispatchVirtual c) = queue c.
Proof.
  unfold dispatchVirtual. generalize (Z.to_nat (count (virtualQueue c))). intros fuel.
  revert c. induction fuel as [|fuel IH]; intros c; simpl; [done|]. case_if; [|done]. case_if; [done|].
  destruct (dequeue _ _) as [q [e|]]; [|done].
  destruct (mget _ _); match goal with |- context [dispatchVirtualLoop fuel ?x] =>
    destruct (IH x) as (-> & -> & -> & -> & ->) end; done.
Qed.

(** The state in which [releaseLease] dispatches. *)
Lemma releaseLease_eq env i outcome meta c r :
  CInv c -> mget i (active c) = Some r ->
  exists c1, releaseLease env i outcome meta c = dispatch env c1 /\ CInv c1 /\
    config c1 = config c /\ activeCost c1 = activeCost c - l_cost r /\ shutDown c1 = shutDown c.
Proof.
  intros I Hr. unfold releaseLease. rewrite Hr. cbv zeta.
  set (c1 := sampleIntegral env c). assert (core c1 = core c) as Hc1 by apply sample_core.
  assert (active c1 = active c) as Hact by (unfold core in Hc1; by injection Hc1).
  pose proof (CInv_core _ _ Hc1 I) as I1.
  set (a := match m_pressure meta with Some p => _ | None => _ end).
  assert (currentLimit a = limit c1) as Ha.
  { subst a. destruct (m_pressure meta); rewrite ?setPressure_limit; cbn [currentLimit set_field];
      by rewrite noteOutcome_limit, noteLatency_limit. }
  set (c2 := c1 <| active := mdel i (active c1) |> <| activeCost := activeCost c1 - l_cost r |>).
  assert (CInv c2) as I2.
  { rewrite <- Hact in Hr. pose proof (mdel_perm _ _ _ Hr) as HP. destruct I1; split; try done; simpl.
    - by apply mwf_mdel.
    - rewrite ci_cost0, (costs_mdel _ _ _ Hr). lia.
    - by apply Forall_mdel.
    - intros j Hj. apply ci_ids0. eapply elem_of_sublist; [exact Hj|]. apply mkeys_sublist, mdel_sublist. }
  exists (releaseVirtual i r (c2 <| adapt := a |>)).
  assert (CInv (c2 <| adapt := a |>)) as I3.
  { apply CInv_setAdapt; [done|]. rewrite Ha. apply I2. }
  split; [done|]. split; [by apply CInv_releaseVirtual|].
  unfold releaseVirtual. destruct (dispatchVirtual_frame (match virtualDisposition r with
    | VActive => (c2 <| adapt := a |>) <| virtualActiveCost := virtualActiveCost (c2 <| adapt := a |>) - l_cost r |>
          <| virtualActiveCount := virtualActiveCount (c2 <| adapt := a |>) - 1 |>
    | VQueued => (c2 <| adapt := a |>) <| virtualQueue := (removeById i (virtualQueue (c2 <| adapt := a |>))).1 |>
    | _ => c2 <| adapt := a |>
    end)) as (-> & -> & -> & _).
  unfold core in Hc1. injection Hc1 as H1 H2 H3 H4 H5 H6 H7 H8 H9.
  destruct (virtualDisposition r); simpl; split_and!; congruence.
Qed.

Lemma CInv_releaseLease env i outcome meta c : CInv c -> CInv (releaseLease env i outcome meta c).
Proof.
  intros I. destruct (mget i (active c)) as [r|] eqn:Hr.
  - destruct (releaseLease_eq env i outcome meta c r I Hr) as (c1 & -> & I1 & _). by apply CInv_dispatch.
  - unfold releaseLease. by rewrite Hr.
Qed.

Lemma removeFrom_count {T} i ti ts (q : FairCostQueue T) :
  count (removeFrom i ti ts q).1 <= count q.
Proof.
  revert ti. induction ts as [|t ts IH]; intros ti; simpl; [done|].
  destruct (mget t (buckets q)) as [b|]; [|done]. destruct (findIndex _ b) as [j|]; [|done].
  destruct (b !! j); [|done]. destruct (removeAt j b); simpl; lia.
Qed.

Lemma removeFromLanes_spec i keys c :
  CInv c ->
  CInv (removeFromLanes i keys c).1 /\ calm c (removeFromLanes i keys c).1 /\
  queue (removeFromLanes i keys c).1 = queue c /\ activeCost (removeFromLanes i keys c).1 = activeCost c.
Proof.
  revert c. induction keys as [|key keys IH]; intros c I; simpl; [split_and!; done || apply calm_refl|].
  destruct (mget key (lanes c)) as [lane|] eqn:Hl; [|by apply IH].
  pose proof (QInv_removeById i _ (lanesOk_mget _ _ _ (ci_lanes _ I) Hl)) as Iq.
  destruct (removeById i (lqueue lane)) as [q r]. simpl in Iq.
  set (c1 := c <| lanes := mset key (lane <| lqueue := q |>) (lanes c) |>).
  assert (CInv c1) as I1.
  { apply CInv_setLanes; [done|apply lanesOk_mset; [apply I|done]|].
    intros Hs. destruct (ci_shut _ I Hs) as [_ Hn]. by rewrite Hn in Hl. }
  assert (calm c c1) as C1 by (unfold calm; split_and!; try done; simpl; lia).
  destruct r as [e|].
  - cbn [fst]. destruct (removeEmptyLane_calm (tenantKey e) c1) as [C2 Q2].
    split_and!; [by apply CInv_removeEmptyLane|exact (calm_trans _ _ _ C1 C2)|done|].
    unfold removeEmptyLane. destruct (mget (tenantKey e) (lanes c1)); [case_if|]; done.
  - destruct (IH c1 I1) as (I2 & C2 & Q2 & A2). split_and!; [done|exact (calm_trans _ _ _ C1 C2)|done|done].
Qed.

(** Either nothing but lanes is touched, or the method ends in [dispatch]. *)
Lemma expireEntry_cases env i code m c :
  CInv c ->
  exists c1, CInv c1 /\ calm c c1 /\ activeCost c1 = activeCost c /\
    (expireEntry env i code m c = dispatch env c1 \/ (expireEntry env i code m c = c1 /\ queue c1 = queue c)).
Proof.
  intros I. unfold expireEntry. pose proof (QInv_removeById i _ (ci_queue _ I)) as Iq.
  pose proof (removeFrom_count i 0 (order (queue c)) (queue c)) as Hcnt.
  fold (removeById i (queue c)) in Hcnt.
  destruct (removeById i (queue c)) as [q [e|]]; cbn [fst snd] in *.
  - exists (failQueued (id e) code m (c <| queue := q |>)). split_and!; [| |done|by left].
    + eapply CInv_core; [apply failQueued_core|]. apply CInv_setQueue; [done|done|].
      intros Hs. destruct (ci_shut _ I Hs) as [Hz _].
      pose proof (count_nonneg _ Iq). simpl in *. lia.
    + unfold calm. split_and!; try done. simpl. lia.
  - destruct (removeFromLanes_spec i (mkeys (lanes c)) c I) as (I1 & C1 & Q1 & A1).
    destruct (removeFromLanes i (mkeys (lanes c)) c) as [c1 [e|]]; cbn [fst] in *.
    + exists (failQueued (id e) code m c1). split_and!; [|exact C1|exact A1|by left].
      eapply CInv_core; [apply failQueued_core|done].
    + exists c1. split_and!; try done. by right.
Qed.

Lemma CInv_expireEntry env i code m c : CInv c -> CInv (expireEntry env i code m c).
Proof.
  intros I. destruct (expireEntry_cases env i code m c I) as (c1 & I1 & _ & _ & [-> | [-> _]]); [|done].
  by apply CInv_dispatch.
Qed.

Lemma observe_cases env p c :
  CInv c ->
  exists c1, CInv c1 /\ config c1 = config c /\ shutDown c1 = shutDown c /\ activeCost c1 = activeCost c /\
    queue c1 = queue c /\
    (observePressure env p c = dispatchVirtual (dispatch env c1) \/
     (observePressure env p c = c1 /\ limit c1 = limit c)).
Proof.
  intros I. pose proof (CInv_setPressure p c I) as I1. unfold observePressure. cbv zeta.
  set (c1 := c <| adapt := setPressure p (adapt c) |>) in *.
  assert (limit c1 = limit c) as Hl by apply setPressure_limit.
  destruct p; [exists c1; split_and!; try done; right; done..|].
  case_if; [|exists c1; split_and!; try done; right; done].
  eexists (c1 <| adapt := _ |>). split_and!; [|done..|left; reflexivity].
  apply CInv_setAdapt; [done|]. cbn [currentLimit set_field].
  pose proof (ok_minmax _ (ci_config _ I)). change (config c1) with (config c).
  destruct (scaleLimit _ _) as [z|] eqn:Hz; cbn [orElse].
  - pose proof (ci_limit _ I). pose proof (ok_min _ (ci_config _ I)).
    apply scaleLimit_le in Hz; [lia| |apply (ok_critical _ (ci_config _ I))].
    rewrite Hl. split; [lia|]. eapply Z.le_lt_trans; [|apply limit_small]. lia.
  - lia.
Qed.

Lemma CInv_observe env p c : CInv c -> CInv (observePressure env p c).
Proof.
  intros I. destruct (observe_cases env p c I) as (c1 & I1 & _ & _ & _ & _ & [-> | [-> _]]); [|done].
  by apply CInv_dispatchVirtual, CInv_dispatch.
Qed.

Lemma evictIdleLanes_frame env c :
  config (evictIdleLanes env c) = config c /\ limit (evictIdleLanes env c) = limit c /\
  shutDown (evictIdleLanes env c) = shutDown c /\ activeCost (evictIdleLanes env c) = activeCost c /\
  queue (evictIdleLanes env c) = queue c.
Proof.
  unfold evictIdleLanes.
  generalize (mkeys (base.filter (fun kl => ADMISSION_LANE_TTL_MS <= now env - lastUsedMs kl.2) (lanes c))).
  intros ks.
  assert (forall c0, config (foldl (fun c k => deleteLane k c) c0 ks) = config c0 /\
    limit (foldl (fun c k => deleteLane k c) c0 ks) = limit c0 /\
    shutDown (foldl (fun c k => deleteLane k c) c0 ks) = shutDown c0 /\
    activeCost (foldl (fun c k => deleteLane k c) c0 ks) = activeCost c0 /\
    queue (foldl (fun c k => deleteLane k c) c0 ks) = queue c0) as H.
  { induction ks as [|k ks IH]; intros c0; simpl; [done|].
    destruct (IH (deleteLane k c0)) as (-> & -> & -> & -> & ->).
    destruct (deleteLane_calm k c0) as [(-> & -> & -> & _) [-> ->]]. done. }
  specialize (H c). case_if; exact H.
Qed.

(** The state in which [tick] dispatches. *)
Lemma tick_eq env c :
  CInv c -> exists c1, tick env c = dispatchVirtual (dispatch env c1) /\ CInv c1 /\
    config c1 = config c /\ shutDown c1 = shutDown c /\ activeCost c1 = activeCost c.
Proof.
  intros I. unfold tick. cbv zeta. set (c1 := evictIdleLanes env (sampleIntegral env c)).
  assert (CInv c1) as I1 by (apply CInv_evictIdleLanes, CInv_sample, I).
  pose proof (sample_core env c) as Hs. unfold core in Hs.
  injection Hs as H1 H2 H3 H4 H5 H6 H7 H8 H9.
  destruct (evictIdleLanes_frame env (sampleIntegral env c)) as (E1 & E2 & E3 & E4 & E5).
  eexists. split; [reflexivity|]. split; [|split_and!; [exact (eq_trans E1 H1)|exact (eq_trans E3 H8)|exact (eq_trans E4 H7)]].
  apply CInv_setAdapt; [done|]. pose proof (ci_config _ I1) as Hok.
  rewrite <- (ok_pmin _ Hok), <- (ok_pmax _ Hok).
  apply limitOk_close. rewrite (ok_pmin _ Hok), (ok_pmax _ Hok). apply Hok.
Qed.

Lemma CInv_tick env c : CInv c -> CInv (tick env c).
Proof.
  intros I. destruct (tick_eq env c I) as (c1 & -> & I1 & _). by apply CInv_dispatchVirtual, CInv_dispatch.
Qed.

Lemma drain_count {T} (q : FairCostQueue T) : QInv q -> count (drain q).1 = 0.
Proof.
  intros I. unfold drain. pose proof (drainLoop_spec (S (Z.to_nat (count q))) q I ltac:(lia)) as [H _].
  by destruct (drainLoop _ q).
Qed.

Lemma drain_empty {T} (q : FairCostQueue T) : count q = 0 -> (drain q).2 = [].
Proof.
  intros Hz. unfold drain, drainLoop. rewrite Hz. simpl. unfold dequeue. by rewrite Hz.
Qed.

Lemma drain_costs {T} (q : FairCostQueue T) : QInv q -> Forall (fun e => 0 < cost e) (drain q).2.
Proof.
  intros I. unfold drain. generalize (S (Z.to_nat (count q))). intros fuel.
  assert (Forall (fun e => 0 < cost e) (drainLoop fuel q).2) as H.
  { revert q I. induction fuel as [|fuel IH]; intros q I; simpl; [constructor|].
    destruct (dequeue MAX_SAFE_INTEGER q) as [q1 [e|]] eqn:Hd; [|constructor].
    destruct (dequeue_cost _ _ _ _ I Hd) as (I1 & He & _). specialize (IH q1 I1).
    destruct (drainLoop fuel q1). constructor; [lia|done]. }
  by destruct (drainLoop fuel q).
Qed.

Lemma allLaneEntries_costs c : CInv c -> Forall (fun e => 0 < cost e) (allLaneEntries c).
Proof.
  intros I. unfold allLaneEntries. destruct (ci_lanes _ I) as [_ Hl].
  induction Hl as [|[k lane] m Hq Hl IH]; simpl; [constructor|].
  apply Forall_app. split; [by apply drain_costs|done].
Qed.

Lemma CInv_shutdown c : CInv c -> CInv (shutdown c).
Proof.
  intros I. unfold shutdown. destruct (shutDown c); [done|]. cbv zeta.
  pose proof (QInv_drain (queue c) (ci_queue _ I)) as Iq.
  pose proof (drain_count (queue c) (ci_queue _ I)) as Hz.
  change (queue ((c <| shutDown := true |>) <| windowTimer := false |>)) with (queue c).
  destruct (drain (queue c)) as [q drained]. cbn [fst snd] in *.
  set (c1 := failAll _ _ (allLaneEntries _) _).
  assert (core c1 = core ((c <| shutDown := true |>) <| queue := q |>)) as Hc1.
  { subst c1. rewrite !failAll_core. done. }
  unfold core in Hc1. injection Hc1 as H1 H2 H3 H4 H5 H6 H7 H8 H9.
  destruct I. split; unfold limit in *; simpl; rewrite ?H1, ?H2, ?H3, ?H4, ?H5, ?H6, ?H7, ?H8, ?H9; try done.
  split; [apply mwf_nil|by constructor].
Qed.

Lemma CInv_requeue env c e :
  CInv c -> shutDown c = false -> 0 < cost e ->
  CInv (requeue env c e) /\ shutDown (requeue env c e) = false /\ config (requeue env c e) = config c.
Proof.
  intros I Hs Hc. unfold requeue. case_if.
  - cbv zeta. set (c1 := detachAbort (id e) (clearEntryTimer (id e) c)).
    assert (CInv c1) as I1 by (eapply CInv_core; [|exact I]; done).
    pose proof (CInv_admit env (cost e) VNone c1 I1 Hc) as I2.
    destruct (admit_core env (cost e) VNone c1) as [Ha _].
    destruct (admitNow env (cost e) VNone c1) as [c2 i]. cbn [fst] in *. unfold core in Ha.
    injection Ha as H1 H2 H3 H4 H5 H6 H7 H8 H9. split_and!; [|exact (eq_trans H8 Hs)|exact H1].
    eapply CInv_core; [|exact I2]. done.
  - case_if; [split_and!; [|done..]; eapply CInv_core; [apply failQueued_core|done]|].
    pose proof (QInv_enqueue e (queue c) (ci_queue _ I)) as Iq.
    destruct (enqueue e (queue c)) as [q []]; cbn [fst] in *.
    + split_and!; [|done..]. apply CInv_setQueue; [done|done|]. by rewrite Hs.
    + split_and!; [|done..]. eapply CInv_core; [apply failQueued_core|done].
Qed.

Lemma CInv_requeueAll env es c :
  CInv c -> (shutDown c = true -> es = []) -> Forall (fun e => 0 < cost e) es ->
  CInv (foldl (requeue env) c es) /\ shutDown (foldl (requeue env) c es) = shutDown c /\
  config (foldl (requeue env) c es) = config c.
Proof.
  intros I Hs Hes. revert c I Hs. induction Hes as [|e es He Hes IH]; intros c I Hs; simpl; [done|].
  destruct (shutDown c) eqn:E; [by specialize (Hs eq_refl)|].
  destruct (CInv_requeue env c e I E He) as (I1 & S1 & C1).
  destruct (IH _ I1) as (I2 & S2 & C2); [congruence|]. split_and!; congruence || done.
Qed.

Lemma CInv_rebuildOne c i r :
  CInv c -> mget i (active c) = Some r ->
  CInv (rebuildOne c (i, r)) /\ config (rebuildOne c (i, r)) = config c /\
  shutDown (rebuildOne c (i, r)) = shutDown c /\
  forall j, j <> i -> mget j (active (rebuildOne c (i, r))) = mget j (active c).
Proof.
  intros I Hr. unfold rebuildOne. cbv zeta.
  case_if; [|case_if; [|destruct (enqueue (existingEntry i r) (virtualQueue c)) as [q []] eqn:He]].
  - split_and!; [by apply CInv_setDisposition|done|done|]. intros j Hj. simpl. by apply mget_mset_ne.
  - split_and!; [|done|done|].
    + eapply CInv_core; [|apply (CInv_setDisposition i r VActive c I Hr)]. done.
    + intros j Hj. simpl. by apply mget_mset_ne.
  - pose proof (QInv_enqueue (existingEntry i r) _ (ci_vqueue _ I)) as Iq. rewrite He in Iq.
    split_and!; [|done|done|].
    + eapply CInv_core; [|apply (CInv_setDisposition i r VQueued _ (CInv_setVirtual c q I Iq) Hr)]. done.
    + intros j Hj. simpl. by apply mget_mset_ne.
  - split_and!; [by apply CInv_setDisposition|done|done|]. intros j Hj. simpl. by apply mget_mset_ne.
Qed.

Lemma CInv_rebuild b c :
  CInv c -> CInv (rebuildVirtualState b c) /\ config (rebuildVirtualState b c) = config c /\
  shutDown (rebuildVirtualState b c) = shutDown c.
Proof.
  intros I. unfold rebuildVirtualState. cbv zeta.
  set (reset := fun '(i, r) => (i, r <| virtualDisposition := VNone |>) : string * ActiveLeaseRecord).
  set (c1 := _ <| active := reset <$> active c |>).
  assert (mkeys (active c1) = mkeys (active c)) as Hk.
  { subst c1. simpl. unfold mkeys. rewrite <- list_fmap_compose. apply list_fmap_ext. by intros ? [? ?] ?. }
  assert (CInv c1) as I1.
  { destruct I. split; try done.
    - unfold mwf. rewrite Hk. done.
    - simpl. rewrite ci_cost0. f_equal. unfold mvals. rewrite <- !list_fmap_compose.
      apply list_fmap_ext. by intros ? [? ?] ?.
    - simpl. apply Forall_fmap. eapply Forall_impl; [exact ci_pos0|]. by intros [? ?].
    - rewrite Hk. done.
    - apply QInv_new. }
  destruct b; [|done].
  cut (forall l c0, CInv c0 -> NoDup l.*1 -> (forall i r, (i, r) ∈ l -> mget i (active c0) = Some r) ->
    CInv (foldl rebuildOne c0 l) /\ config (foldl rebuildOne c0 l) = config c0 /\
    shutDown (foldl rebuildOne c0 l) = shutDown c0).
  { intros H. apply (H (active c1) c1 I1); [apply I1|].
    intros i r Hin. by apply mget_elem; [apply I1|]. }
  induction l as [|[i r] l IH]; intros c0 I0 Hnd Hl; cbn [foldl]; [done|].
  rewrite fmap_cons in Hnd. cbn [fst] in Hnd.
  apply NoDup_cons in Hnd as [Hni Hnd].
  destruct (CInv_rebuildOne c0 i r I0 (Hl i r ltac:(left))) as (I2 & C2 & S2 & G2).
  destruct (IH _ I2 Hnd) as (I3 & C3 & S3).
  - intros j r' Hj. rewrite G2; [apply Hl; by right|]. intros ->. apply Hni.
    by apply (list_elem_of_fmap_2 fst l (i, r')).
  - split_and!; congruence || done.
Qed.

(** The state in which [updateConfig] may dispatch. *)
Lemma updateConfig_eq env input c next :
  CInv c -> validInput input -> validateConfig input = Ret next ->
  exists c1, (updateConfig env input c).1 = (if modeIs enforce c1 then dispatch env c1 else c1) /\
    CInv c1 /\ config c1 = next /\ shutDown c1 = shutDown c.
Proof.
  intros I Hv Hnext. unfold updateConfig. rewrite Hnext. cbv zeta.
  pose proof (CInv_sample env c I) as Is. pose proof (sample_core env c) as Hs.
  set (cs := sampleIntegral env c) in *. unfold core in Hs. injection Hs as H1 H2 H3 H4 H5 H6 H7 H8 H9.
  set (drained := (drain (queue cs)).2 ++ allLaneEntries cs).
  set (a := (adapt cs) <| currentLimit := _ |> <| recoveryCeiling := _ |> <| windowStartMs := _ |>
    <| windowActiveCostIntegral := _ |> <| windowCompleted := _ |> <| windowLatencySamples := _ |>
    <| freezeGrowth := _ |> <| criticalDecreaseConsumed := _ |> <| pressure := _ |>).
  set (c0 := clearLaneEviction _).
  pose proof (validateConfig_ok _ _ Hv Hnext) as Hok.
  assert (CInv c0) as I0.
  { destruct Is. split; try done.
    - subst c0 a. unfold limit. simpl. pose proof (ok_minmax _ Hok). lia.
    - apply QInv_new.
    - split; [apply mwf_nil|by constructor]. }
  assert (shutDown c0 = shutDown c) as S0 by (rewrite <- H8; done).
  destruct (CInv_requeueAll env drained c0 I0) as (I1 & S1 & C1).
  { rewrite S0, <- H8. intros Hsh. destruct (ci_shut _ Is Hsh) as [Hz Hn].
    subst drained. rewrite drain_empty by done. unfold allLaneEntries. by rewrite Hn. }
  { apply Forall_app. split; [apply drain_costs, Is|by apply allLaneEntries_costs]. }
  set (c2 := foldl (requeue env) c0 drained) in *.
  destruct (CInv_rebuild (modeIs shadow c2) c2 I1) as (I3 & C3 & S3).
  exists (armWindowTimer (rebuildVirtualState (modeIs shadow c2) c2)).
  split; [by case_if|]. split; [eapply CInv_core; [|exact I3]; done|].
  change (config (rebuildVirtualState (modeIs shadow c2) c2) = next /\
          shutDown (rebuildVirtualState (modeIs shadow c2) c2) = shutDown c).
  rewrite C3, C1, S3, S1. done.
Qed.

Lemma CInv_updateConfig env input c : validInput input -> CInv c -> CInv (updateConfig env input c).1.
Proof.
  intros Hv I. destruct (validateConfig input) as [next|n m] eqn:Hnext.
  - destruct (updateConfig_eq env input c next I Hv Hnext) as (c1 & -> & I1 & _).
    case_if; [by apply CInv_dispatch|done].
  - unfold updateConfig. by rewrite Hnext.
Qed.

Lemma CInv_new env input c : validInput input -> newController env input = Ret c -> CInv c.
Proof.
  intros Hv H. unfold newController in H. apply throws_bind_Ret in H as (cfg & Hcfg & H).
  injection H as <-. pose proof (validateConfig_ok _ _ Hv Hcfg) as Hok. split; try done.
  - unfold limit. simpl. pose proof (ok_minmax _ Hok). lia.
  - apply mwf_nil.
  - intros i Hi. by apply elem_of_nil in Hi.
  - apply QInv_new.
  - apply QInv_new.
  - split; [apply mwf_nil|by constructor].
Qed.
End Methods.

(** ** Histories *)

Inductive Label :=
| LAcquire (env : Env) (request : AdmissionRequest)
| LRelease (env : Env) (lease : string) (outcome : AdmissionReleaseOutcome) (meta : ReleaseMeta)
| LDeadline (env : Env) (entry : string)
| LAbort (env : Env) (entry : string)
| LUpdate (env : Env) (input : AdaptiveAdmissionConfig)
| LObserve (env : Env) (p : AdmissionPressure)
| LTick (env : Env)
| LWindowTimer (env : Env)
| LLaneTimer (env : Env)
| LShutdown
| LSnapshot (env : Env).

(** A step: a method call, or a timer or abort listener that is armed. *)
Inductive ctlStep : Controller -> Label -> Controller -> Prop :=
| ctl_acquire c env request : ctlStep c (LAcquire env request) (acquire env request c).1
| ctl_release c env i outcome meta : ctlStep c (LRelease env i outcome meta) (releaseLease env i outcome meta c)
| ctl_deadline c env i :
    i ∈ deadlineTimers c ->
    ctlStep c (LDeadline env i)
      (expireEntry env i ADMISSION_DEADLINE "admission wait deadline exceeded" c)
| ctl_abort c env i s :
    (i, s) ∈ abortListeners c -> aborted env s = true ->
    ctlStep c (LAbort env i) (expireEntry env i ADMISSION_ABORTED "request aborted while queued" c)
| ctl_update c env input : validInput input -> ctlStep c (LUpdate env input) (updateConfig env input c).1
| ctl_observe c env p : ctlStep c (LObserve env p) (observePressure env p c)
| ctl_tick c env : ctlStep c (LTick env) (tick env c)
| ctl_window c env : windowTimer c = true -> ctlStep c (LWindowTimer env) (windowFires env c)
| ctl_lanes c env : laneEvictionTimer c = true -> ctlStep c (LLaneTimer env) (evictIdleLanes env c)
| ctl_shutdown c : ctlStep c LShutdown (shutdown c)
| ctl_snapshot c env : ctlStep c (LSnapshot env) (snapshot env c).1.

Definition isUpdate (l : Label) : bool := match l with LUpdate _ _ => true | _ => false end.

Section Histories.
Implicit Types (c : Controller) (env : Env).

Lemma CInv_window env c : CInv c -> CInv (windowFires env c).
Proof. intros I. eapply CInv_core; [|apply CInv_tick, I]. done. Qed.

Lemma CInv_step c l c' : CInv c -> ctlStep c l c' -> CInv c'.
Proof.
  intros I. destruct 1.
  - by apply CInv_acquire.
  - by apply CInv_releaseLease.
  - by apply CInv_expireEntry.
  - by apply CInv_expireEntry.
  - by apply CInv_updateConfig.
  - by apply CInv_observe.
  - by apply CInv_tick.
  - by apply CInv_window.
  - by apply CInv_evictIdleLanes.
  - by apply CInv_shutdown.
  - by apply CInv_sample.
Qed.

Lemma enqueueRequest_cases env request cost c :
  CInv c -> shutDown c = false ->
  exists c1, CInv c1 /\ calm c c1 /\
    ((enqueueRequest env request cost c).1 = dispatch env c1 \/
     ((enqueueRequest env request cost c).1 = c1 /\ queue c1 = queue c /\ activeCost c1 = activeCost c)).
Proof.
  intros I Hs. pose proof (CInv_enqueueRequest env request cost c I Hs) as Hres.
  unfold enqueueRequest in *. cbn [nextId fst snd] in *.
  set (c0 := (c <| leaseSeq := (leaseSeq c + 1)%N |>)) in *.
  assert (CInv c0) as I0.
  { destruct I; split; try done. intros i Hi. destruct (ci_ids0 i Hi) as (n & ? & ->).
    exists n. split; [simpl; lia|done]. }
  assert (calm c c0) as C0 by (unfold calm; split_and!; try done; simpl; lia).
  destruct (normalizeRequestCost _ _) as [maxWait|]; [|exists c0; split_and!; try done; by right].
  cbv zeta in *. set (entry := mkEntry _ _ _ _ _ _ _) in *.
  set (pre := if negb _ && virtualLanes _ then _ else _) in *.
  assert (CInv pre.1 /\ calm c pre.1 /\ (pre.2 = false -> queue pre.1 = queue c /\ activeCost pre.1 = activeCost c))
    as (Ip & Cp & Fp).
  { clear Hres. subst pre. case_if.
    - destruct (CInv_getOrCreateLane env (tenantOf request) c0 I0 Hs) as (I1 & Hs1 & Q1 & E1 & K1 & A1).
      destruct (getOrCreateLane env (tenantOf request) c0) as [c1 lane]. cbn [fst snd] in *.
      pose proof (QInv_enqueue entry _ Q1) as Q2. destruct (enqueue entry (lqueue lane)) as [q []]; cbn [fst snd] in *.
      + split_and!; [|exact (calm_trans _ _ _ C0 K1)|done].
        eapply CInv_core; [|apply (CInv_setLanes c1 (mset (tenantOf request) (lane <| lqueue := q |>) (lanes c1)) I1);
          [apply lanesOk_mset; [apply I1|done]|by rewrite Hs1]]. done.
      + destruct (removeEmptyLane_calm (tenantOf request) c1) as [K2 E2].
        split_and!; [by apply CInv_removeEmptyLane|exact (calm_trans _ _ _ (calm_trans _ _ _ C0 K1) K2)|].
        intros _. split; [exact (eq_trans E2 E1)|]. transitivity (activeCost c1); [|exact A1]. unfold removeEmptyLane.
        destruct (mget (tenantOf request) (lanes c1)); [case_if|]; done.
    - pose proof (QInv_enqueue entry _ (ci_queue _ I0)) as Q2.
      assert ((enqueue entry (queue c0)).2 = false -> (enqueue entry (queue c0)).1 = queue c0) as Hsame
        by (unfold enqueue; case_if; done).
      destruct (enqueue entry (queue c0)) as [q ok]; cbn [fst snd] in *. split_and!.
      + apply CInv_setQueue; [done|done|]. change (shutDown c = true -> count q = 0). by rewrite Hs.
      + unfold calm. split_and!; try done. simpl. lia.
      + intros ->. split; [by apply Hsame|done]. }
  destruct pre as [c1 queued]. cbn [fst snd] in *. destruct queued; cbn [negb reject fst snd] in *.
  - eexists. split; [|split; [|left; reflexivity]].
    + destruct (r_signal request); (eapply CInv_core; [|apply CInv_dispatch, Ip]; done).
    + apply (calm_trans _ _ _ Cp), (calm_trans _ _ _ (dispatch_calm env c1 Ip)).
      destruct (r_signal request); unfold calm; split_and!; try done; simpl; lia.
  - eexists. split; [exact Hres|]. split; [|right; split; [reflexivity|by apply Fp]].
    apply (calm_trans _ _ _ Cp). unfold calm. split_and!; try done. simpl. lia.
Qed.

Definition bounded c : Prop := activeCost c <= maxLimit (config c).

Lemma bounded_calm c c' : CInv c -> calm c c' -> bounded c -> bounded c'.
Proof.
  intros I (E1 & _ & _ & E4) Hb. unfold bounded in *. rewrite E1. pose proof (ci_limit _ I). lia.
Qed.

Lemma saturated_same c c' :
  queue c' = queue c -> limit c' = limit c -> activeCost c' = activeCost c -> saturated c -> saturated c'.
Proof. unfold saturated. by intros -> -> ->. Qed.

Lemma admit_fields env cost d c :
  config (admitNow env cost d c).1 = config c /\ queue (admitNow env cost d c).1 = queue c /\
  activeCost (admitNow env cost d c).1 = activeCost c + cost.
Proof.
  destruct (admit_core env cost d c) as [H _]. unfold core in H.
  injection H as H1 H2 H3 H4 H5 H6 H7 H8 H9. done.
Qed.

Lemma solo_idle c cost : CInv c -> shouldAdmitSolo cost c = true ->
  cost <= maxLimit (config c) /\ activeCost c = 0 /\ count (queue c) = 0.
Proof.
  intros I. unfold shouldAdmitSolo. intros H. to_prop. split_and!; [done| |done].
  rewrite (ci_cost _ I). destruct (active c); [done|]. unfold msize in *. simpl in *. lia.
Qed.

(** What [acquire] does in enforce mode. *)
Lemma acquire_enforce env request c :
  CInv c -> mode (config c) = enforce ->
  let c' := (acquire env request c).1 in
  config c' = config c /\ (bounded c -> bounded c') /\
  (shutDown c = false -> saturated c -> saturated c').
Proof.
  intros I Hm. unfold acquire. destruct (shutDown c) eqn:Hs.
  { split_and!; done. }
  destruct (match r_signal request with Some s => aborted env s | None => false end); [split_and!; done|].
  cbv zeta. set (c1 := match r_pressure request with Some p => _ | None => c end).
  assert (CInv c1 /\ config c1 = config c /\ shutDown c1 = false /\ queue c1 = queue c /\
          limit c1 = limit c /\ activeCost c1 = activeCost c) as (I1 & E1 & S1 & Q1 & L1 & A1).
  { subst c1. destruct (r_pressure request); [|done].
    split_and!; try done; [by apply CInv_setPressure|apply setPressure_limit]. }
  assert (bounded c -> bounded c1) as B1 by (unfold bounded; congruence).
  assert (saturated c -> saturated c1) as Sat1 by (by apply saturated_same).
  destruct (resolveCost request c1) as [cost|] eqn:Hcost; [|done].
  rewrite E1, Hm. destruct (admit_fields env cost VNone c1) as (F1 & F2 & F3).
  case_if; [case_if|case_if; [|case_if]].
  - destruct (solo_idle c1 cost I1 Heqb0) as (Hle & Hz & Hq).
    destruct (admitNow env cost VNone c1) as [c2 i]. cbn [fst] in *. unfold bounded. split_and!; [congruence| |].
    + intros _. rewrite F1, F3. lia.
    + intros _ _. left. congruence.
  - split_and!; done.
  - to_prop. destruct (admitNow env cost VNone c1) as [c2 i]. cbn [fst] in *. unfold bounded. split_and!; [congruence| |].
    + intros _. rewrite F1, F3. pose proof (ci_limit _ I1). lia.
    + intros _ _. left. congruence.
  - split_and!; done.
  - destruct (enqueueRequest_cases env request cost c1 I1 S1) as (c2 & I2 & K2 & Hres).
    pose proof (dispatch_calm env c2 I2) as Kd.
    assert (modeIs enforce c2 = true) as Hm2.
    { unfold modeIs. destruct K2 as (-> & _). by rewrite E1, Hm. }
    assert (shutDown c2 = false) as S2 by (destruct K2 as (_ & _ & -> & _); done).
    destruct Hres as [-> | (-> & Eq & Ea)].
    + split_and!.
      * destruct Kd as (-> & _). destruct K2 as (-> & _). done.
      * intros Hb. apply (bounded_calm c2); [done|done|]. apply (bounded_calm c1); auto.
      * intros _ _. by apply dispatch_saturated.
    + split_and!.
      * destruct K2 as (-> & _). done.
      * intros Hb. apply (bounded_calm c1); auto.
      * intros _ Hsat. apply (saturated_same c1); [done| |done|auto]. by destruct K2 as (_ & -> & _).
Qed.

Lemma acquire_config env request c : CInv c -> config (acquire env request c).1 = config c.
Proof.
  intros I. destruct (mode (config c)) eqn:Hm; [| |by apply acquire_enforce];
    (unfold acquire; destruct (shutDown c); [done|]; case_if; [done|]; cbv zeta;
     set (c1 := match r_pressure request with Some p => _ | None => c end);
     assert (config c1 = config c) as E1 by (subst c1; by destruct (r_pressure request));
     destruct (resolveCost request c1) as [cost|]; [rewrite E1, Hm|done]).
  - done.
  - rewrite <- E1. unfold acquireShadow. set (pre := if (cost >? limit c1) || _ then _ else _).
    assert (config pre.1.1 = config c1) as Hpre by (subst pre; repeat case_if; done).
    destruct pre as [[c2 dec] d]. destruct (admit_fields env cost d c2) as (F1 & _).
    destruct (admitNow env cost d c2) as [c3 i]. cbn [fst] in *. rewrite <- Hpre, <- F1. by destruct d.
Qed.

Lemma failAll_config code m es c : config (failAll code m es c) = config c.
Proof. pose proof (failAll_core code m es c) as H. unfold core in H. by injection H. Qed.

Lemma shutdown_frame c :
  config (shutdown c) = config c /\ shutDown (shutdown c) = true /\ activeCost (shutdown c) = activeCost c.
Proof.
  unfold shutdown. destruct (shutDown c) eqn:Hs; [done|]. cbv zeta.
  match goal with |- context [drain ?q] => destruct (drain q) as [q' ds] end.
  set (c0 := (_ <| queue := q' |>)). set (c1 := failAll _ _ (allLaneEntries _) _).
  assert (core c1 = core c0) as Hc by (subst c1; by rewrite !failAll_core).
  unfold core in Hc. injection Hc as H1 H2 H3 H4 H5 H6 H7 H8 H9. done.
Qed.

(** What a step other than an update of the configuration keeps in enforce mode. *)
Definition goodStep c c' : Prop :=
  config c' = config c /\ (bounded c -> bounded c') /\ (shutDown c' = false -> saturated c -> saturated c').

Lemma good_same c c' :
  config c' = config c -> queue c' = queue c -> limit c' = limit c -> activeCost c' = activeCost c ->
  goodStep c c'.
Proof.
  intros E Q L A. split_and!; [done|unfold bounded; by rewrite E, A|]. intros _. by apply saturated_same.
Qed.

Lemma good_dispatch env c c1 :
  CInv c1 -> mode (config c) = enforce -> config c1 = config c -> activeCost c1 <= activeCost c ->
  goodStep c (dispatch env c1).
Proof.
  intros I1 Hm E Ha. pose proof (dispatch_calm env c1 I1) as K. destruct K as (K1 & K2 & K3 & K4).
  split_and!; [congruence| |].
  - unfold bounded. rewrite K1, E. pose proof (ci_limit _ I1) as Hl. rewrite E in Hl. lia.
  - rewrite K3. intros Hs _. apply dispatch_saturated; [done..|]. unfold modeIs. by rewrite E, Hm.
Qed.

Lemma good_dispatchVirtual c c1 : goodStep c c1 -> goodStep c (dispatchVirtual c1).
Proof.
  destruct (dispatchVirtual_frame c1) as (F1 & F2 & F3 & F4 & F5). intros (G1 & G2 & G3).
  split_and!; [congruence|unfold bounded; by rewrite F1, F2|]. rewrite F3. intros Hs Hsat.
  by apply (saturated_same c1), G3.
Qed.

Lemma good_sample env c : goodStep c (sampleIntegral env c).
Proof. pose proof (sample_core env c) as H. unfold core in H. by apply good_same; injection H. Qed.

Lemma good_tick env c : CInv c -> mode (config c) = enforce -> goodStep c (tick env c).
Proof.
  intros I Hm. destruct (tick_eq env c I) as (c1 & -> & I1 & E1 & _ & A1).
  apply good_dispatchVirtual, good_dispatch; try done. lia.
Qed.

Lemma good_expire env i code m c : CInv c -> mode (config c) = enforce -> goodStep c (expireEntry env i code m c).
Proof.
  intros I Hm. destruct (expireEntry_cases env i code m c I) as (c1 & I1 & (K1 & K2 & _) & A1 & [->|[-> Q1]]).
  - apply good_dispatch; try done. lia.
  - by apply good_same.
Qed.

Lemma good_step c l c' :
  CInv c -> mode (config c) = enforce -> ctlStep c l c' -> isUpdate l = false -> goodStep c c'.
Proof.
  intros I Hm. destruct 1; intros Hu; try discriminate Hu.
  - destruct (acquire_enforce env request c I Hm) as (A1 & A2 & A3). split_and!; [done..|].
    destruct (shutDown c) eqn:Hs; [|auto]. intros Hs' Hsat. unfold acquire in *. by rewrite Hs in *.
  - destruct (mget i (active c)) as [r|] eqn:Hr.
    + destruct (releaseLease_eq env i outcome meta c r I Hr) as (c1 & -> & I1 & E1 & A1 & _).
      apply good_dispatch; try done. pose proof (mget_Some_elem _ _ _ Hr) as Hin.
      pose proof (ci_pos _ I) as Hp. rewrite Forall_forall in Hp. specialize (Hp _ Hin). simpl in Hp. lia.
    + unfold releaseLease. rewrite Hr. by apply good_same.
  - by apply good_expire.
  - by apply good_expire.
  - destruct (observe_cases env p c I) as (c1 & I1 & E1 & _ & A1 & Q1 & [->|[-> L1]]); [|by apply good_same].
    apply good_dispatchVirtual, good_dispatch; try done. lia.
  - by apply good_tick.
  - exact (good_tick env c I Hm).
  - destruct (evictIdleLanes_frame env c) as (E1 & E2 & E3 & E4 & E5). by apply good_same.
  - destruct (shutdown_frame c) as (E1 & E2 & E3). split_and!; [done|unfold bounded; by rewrite E1, E3|].
    by rewrite E2.
  - apply good_sample.
Qed.
End Histories.

(** ** Properties *)

(** C32. Accounting.  In every reachable state the active cost is the sum of the
    costs of the leases that are out, every lease has its own id, the adaptive
    limit stays between the configured bounds, the shared queue, the virtual
    queue and each lane account exactly for the entries they hold, and after a
    shutdown nothing is queued. *)
Theorem admission_accounting env input c0 ls c :
  validInput input -> newController env input = Ret c0 -> reach ctlStep c0 ls c ->
  activeCost c = sumZ (l_cost <$> mvals (active c)) /\
  NoDup (mkeys (active c)) /\
  minLimit (config c) <= limit c <= maxLimit (config c) /\
  (count (queue c) = Z.of_nat (length (entries (queue c))) /\
   totalCost (queue c) = costOf (entries (queue c))) /\
  totalCost (virtualQueue c) = costOf (entries (virtualQueue c)) /\
  (forall key lane, mget key (lanes c) = Some lane ->
     count (lqueue lane) = Z.of_nat (length (entries (lqueue lane)))) /\
  (shutDown c = true -> entries (queue c) = [] /\ lanes c = []).
Proof.
  intros Hv H0 Hr.
  assert (CInv c) as I.
  { apply (reach_invariant _ CInv _ _ _ (CInv_new _ _ _ Hv H0)) in Hr; [done|]. intros. by eapply CInv_step. }
  split_and!; [apply I|apply I|apply I|apply I|apply I|apply I|apply I| |].
  - intros key lane Hl. apply (lanesOk_mget _ _ _ (ci_lanes _ I) Hl).
  - intros Hs. destruct (ci_shut _ I Hs) as [Hz Hn]. split; [|done].
    pose proof (q_count _ (ci_queue _ I)). destruct (entries (queue c)); [done|]. simpl in *. lia.
Qed.

Definition enforcing c : Prop := mode (config c) = enforce.

Lemma reach_enforcing c0 ls c :
  CInv c0 -> enforcing c0 -> reach ctlStep c0 ls c -> Forall (fun l => isUpdate l = false) ls ->
  (bounded c0 -> bounded c) /\ config c = config c0 /\ CInv c.
Proof.
  intros I0 Hm Hr. induction Hr as [|s ls l s' Hr IH Hst]; intros Hls; [done|].
  apply Forall_app in Hls as [Hls Hl]. apply Forall_cons_1 in Hl as [Hl _].
  destruct IH as (Hb & Hc & I); [done|].
  destruct (good_step s l s' I) as (G1 & G2 & _); [by rewrite Hc|done|done|].
  split_and!; [auto|congruence|by eapply CInv_step].
Qed.

(** C1. The budget is enforced.  As long as the configuration is not replaced,
    an enforcing controller never has more cost in flight than [maxLimit],
    whatever arrives, whatever the pressure does to the adaptive limit, and even
    when an oversized request is admitted alone. *)
Theorem enforce_cost_bound env input c0 ls c :
  validInput input -> newController env input = Ret c0 -> mode (config c0) = enforce ->
  reach ctlStep c0 ls c -> Forall (fun l => isUpdate l = false) ls ->
  activeCost c <= maxLimit (config c0).
Proof.
  intros Hv H0 Hm Hr Hls. pose proof (CInv_new _ _ _ Hv H0) as I0.
  destruct (reach_enforcing _ _ _ I0 Hm Hr Hls) as (Hb & Hc & _).
  rewrite <- Hc. apply Hb. unfold bounded. pose proof (ok_min _ (ci_config _ I0)). pose proof (ok_minmax _ (ci_config _ I0)).
  unfold newController in H0. apply throws_bind_Ret in H0 as (cfg & _ & H0). injection H0 as <-. cbn [activeCost config armWindowTimer set_field] in *. lia.
Qed.

Lemma expireEntry_config env i code m c : CInv c ->
  config (expireEntry env i code m c) = config c /\
  (shutDown (expireEntry env i code m c) = false -> shutDown c = false).
Proof.
  intros I. destruct (expireEntry_cases env i code m c I) as (c1 & I1 & (K1 & _ & K3 & _) & _ & [->|[-> _]]).
  - destruct (dispatch_calm env c1 I1) as (-> & _ & -> & _). by rewrite K1, K3.
  - by rewrite K1, K3.
Qed.

Lemma tick_config env c : CInv c ->
  config (tick env c) = config c /\ (shutDown (tick env c) = false -> shutDown c = false).
Proof.
  intros I. destruct (tick_eq env c I) as (c1 & -> & I1 & E1 & S1 & _).
  destruct (dispatchVirtual_frame (dispatch env c1)) as (-> & _ & -> & _).
  destruct (dispatch_calm env c1 I1) as (-> & _ & -> & _). by rewrite E1, S1.
Qed.

Lemma step_config c l c' : CInv c -> ctlStep c l c' -> isUpdate l = false ->
  config c' = config c /\ (shutDown c' = false -> shutDown c = false).
Proof.
  intros I Hst. destruct Hst; intros Hu; try discriminate Hu.
  - split; [by apply acquire_config|]. unfold acquire. destruct (shutDown c) eqn:Hs; [|done]. intros Hs1. exact (eq_trans (eq_sym Hs) Hs1).
  - destruct (mget i (active c)) as [r|] eqn:Hr; [|unfold releaseLease; by rewrite Hr].
    destruct (releaseLease_eq env i outcome meta c r I Hr) as (c1 & -> & I1 & E1 & _ & S1).
    destruct (dispatch_calm env c1 I1) as (K1 & _ & K3 & _). rewrite K1, K3, S1. done.
  - by apply expireEntry_config.
  - by apply expireEntry_config.
  - destruct (observe_cases env p c I) as (c1 & I1 & E1 & S1 & _ & _ & [->|[-> _]]); [|by rewrite E1, S1].
    destruct (dispatchVirtual_frame (dispatch env c1)) as (-> & _ & -> & _).
    destruct (dispatch_calm env c1 I1) as (-> & _ & -> & _). by rewrite E1, S1.
  - by apply tick_config.
  - exact (tick_config env c I).
  - destruct (evictIdleLanes_frame env c) as (-> & _ & -> & _). done.
  - destruct (shutdown_frame c) as (-> & -> & _). done.
  - pose proof (sample_core env c) as H. unfold core in H. injection H as H1 _ _ _ _ _ _ H8 _.
    split; [exact H1|intros Hs; exact (eq_trans (eq_sym H8) Hs)].
Qed.

(** C30. No waiter is stranded.  In every reachable state of an enforcing
    controller that is not shut down, no queued request could be dispatched: the
    queue is empty, no capacity is left, or a dispatch with the capacity that is
    left would take nothing. *)
Theorem no_stranded_waiter env input c0 ls c :
  validInput input -> newController env input = Ret c0 -> reach ctlStep c0 ls c ->
  mode (config c) = enforce -> shutDown c = false ->
  entries (queue c) = [] \/ limit c <= activeCost c \/
  (dequeue (limit c - activeCost c) (queue c)).2 = None.
Proof.
  intros Hv H0 Hr.
  assert (CInv c /\ (mode (config c) = enforce -> shutDown c = false -> saturated c)) as [I Hsat].
  { apply (reach_invariant ctlStep (fun c => CInv c /\
      (mode (config c) = enforce -> shutDown c = false -> saturated c)) c0 ls c); try done.
    - split; [by eapply CInv_new|]. intros _ _. left. unfold newController in H0.
      apply throws_bind_Ret in H0 as (cfg & _ & H0). by injection H0 as <-.
    - clear. intros c l c' [I Hsat] Hst. split; [by eapply CInv_step|]. intros Hm Hs.
      destruct (isUpdate l) eqn:Hu.
      + destruct Hst; try discriminate Hu. destruct (validateConfig input) as [next|n m] eqn:Hn.
        * destruct (updateConfig_eq env input c next) as (c1 & Heq & I1 & E1 & S1); [done..|].
          rewrite Heq in *. destruct (modeIs enforce c1) eqn:Hm1.
          -- apply dispatch_saturated; [done| |done].
             destruct (dispatch_calm env c1 I1) as (_ & _ & K3 & _). congruence.
          -- unfold modeIs in Hm1. by rewrite Hm in Hm1.
        * unfold updateConfig in *. rewrite Hn in *. auto.
      + destruct (step_config _ _ _ I Hst Hu) as [E S]. rewrite E in Hm.
        destruct (good_step c l c' I Hm Hst Hu) as (_ & _ & G). auto. }
  intros Hm Hs. destruct (Hsat Hm Hs) as [Hz|[H|H]]; [left|by right; left|by right; right].
  pose proof (q_count _ (ci_queue _ I)). destruct (entries (queue c)); [done|]. simpl in *. lia.
Qed.

(** Shutdown is final.  After [shutdown] the queue and the lanes are empty
    and stay empty, and every later request is rejected with
    [ADMISSION_SHUTDOWN] without changing an account. *)
Theorem shutdown_terminal env input c0 ls c ls' c' env' request :
  validInput input -> newController env input = Ret c0 -> reach ctlStep c0 ls c ->
  reach ctlStep (shutdown c) ls' c' ->
  entries (queue c') = [] /\ lanes c' = [] /\
  (acquire env' request c').2 = Ret (RejectedNow ADMISSION_SHUTDOWN "admission controller is shut down") /\
  activeCost (acquire env' request c').1 = activeCost c'.
Proof.
  intros Hv H0 Hr Hr'.
  assert (CInv c) as I.
  { apply (reach_invariant _ CInv _ _ _ (CInv_new _ _ _ Hv H0)) in Hr; [done|]. intros. by eapply CInv_step. }
  assert (CInv c' /\ shutDown c' = true) as [I' Hs'].
  { apply (reach_invariant ctlStep (fun c => CInv c /\ shutDown c = true) _ _ _) in Hr'; [done| |].
    - split; [by apply CInv_shutdown|]. apply shutdown_frame.
    - clear. intros c l c' [I Hs] Hst. split; [by eapply CInv_step|].
      destruct (isUpdate l) eqn:Hu.
      + destruct Hst; try discriminate Hu. destruct (validateConfig input) as [next|n m] eqn:Hn.
        * destruct (updateConfig_eq env input c next) as (c1 & -> & I1 & E1 & S1); [done..|].
          case_if; [|congruence]. destruct (dispatch_calm env c1 I1) as (_ & _ & K3 & _). congruence.
        * unfold updateConfig. by rewrite Hn.
      + destruct (shutDown c') eqn:Hs'; [done|].
        destruct (step_config _ _ _ I Hst Hu) as [_ S]. rewrite S in Hs; done. }
  destruct (ci_shut _ I' Hs') as [Hz Hn]. split_and!; [|done|..].
  - pose proof (q_count _ (ci_queue _ I')). destruct (entries (queue c')); [done|]. simpl in *. lia.
  - unfold acquire. by rewrite Hs'.
  - unfold acquire. by rewrite Hs'.
Qed.

(** Admission decides by the code's order.  An enforcing controller admits a
    request at once only when it fits and nobody waits in the shared queue, or,
    above the adaptive limit, alone on an idle controller and within [maxLimit]. *)
Theorem enforce_admission_guard env request c lease cost :
  CInv c -> mode (config c) = enforce ->
  (acquire env request c).2 = Ret (AdmittedNow lease cost None) ->
  resolveCost request c = Ret cost /\
  activeCost (acquire env request c).1 = activeCost c + cost /\
  ((entries (queue c) = [] /\ activeCost c + cost <= limit c) \/
   (limit c < cost <= maxLimit (config c) /\ activeCost c = 0 /\ entries (queue c) = [])).
Proof.
  intros I Hm. unfold acquire. destruct (shutDown c) eqn:Hs; [done|]. case_if; [done|]. cbv zeta.
  set (c1 := match r_pressure request with Some p => _ | None => c end).
  assert (CInv c1 /\ config c1 = config c /\ shutDown c1 = false /\ queue c1 = queue c /\
          limit c1 = limit c /\ activeCost c1 = activeCost c) as (I1 & E1 & S1 & Q1 & L1 & A1).
  { subst c1. destruct (r_pressure request); [|done].
    split_and!; try done; [by apply CInv_setPressure|apply setPressure_limit]. }
  destruct (resolveCost request c1) as [cost'|] eqn:Hcost; [|done]. rewrite E1, Hm.
  assert (resolveCost request c = Ret cost') as Hcost' by (unfold resolveCost in *; by rewrite E1 in Hcost).
  destruct (admit_fields env cost' VNone c1) as (F1 & F2 & F3).
  assert (count (queue c) = 0 -> entries (queue c) = []) as Hempty.
  { intros Hz. pose proof (q_count _ (ci_queue _ I)). destruct (entries (queue c)); [done|]. simpl in *. lia. }
  destruct (admitNow env cost' VNone c1) as [c2 i]. cbn [fst snd] in *.
  case_if; [case_if; [|done]|case_if; [|case_if; [done|]]].
  - cbn [fst snd]. intros [= -> ->]. destruct (solo_idle c1 cost I1) as (Hle & Hz & Hq); [done|].
    to_prop. split_and!; [done|congruence|]. right.
    rewrite <- A1, <- L1, <- E1. split_and!; [lia|done..|]. apply Hempty. congruence.
  - cbn [fst snd]. intros [= -> ->]. to_prop. split_and!; [done|congruence|]. left.
    split; [apply Hempty; congruence|]. rewrite <- A1, <- L1. lia.
  - intros H. exfalso. revert H. unfold enqueueRequest. destruct (nextId "q" c1) as [c3 i3].
    destruct (normalizeRequestCost _ _); [|done]. cbv zeta.
    match goal with |- context [if ?b then _ else _] => destruct b end.
    + destruct (getOrCreateLane _ _ _) as [c4 lane]. destruct (enqueue _ _) as [q []]; done.
    + destruct (enqueue _ _) as [q []]; done.
Qed.

(** The modes that only observe never refuse and never delay: unless the
    controller is shut down, the request was aborted before it came or its cost
    is not a cost, an [off] or [shadow] controller hands out a lease at once;
    in [off] mode no account changes. *)
Theorem observing_modes_admit env request c :
  mode (config c) <> enforce -> shutDown c = false ->
  match r_signal request with Some s => aborted env s = false | None => True end ->
  r_pressure request = None ->
  forall cost, resolveCost request c = Ret cost ->
  exists lease shadowed, (acquire env request c).2 = Ret (AdmittedNow lease cost shadowed) /\
    (mode (config c) = off -> shadowed = None /\
       activeCost (acquire env request c).1 = activeCost c /\ active (acquire env request c).1 = active c) /\
    (mode (config c) = shadow -> shadowed <> None /\
       activeCost (acquire env request c).1 = activeCost c + cost).
Proof.
  intros Hm Hs Hsig Hp cost Hcost. unfold acquire. rewrite Hs.
  replace (match r_signal request with Some s => aborted env s | None => false end) with false
    by (destruct (r_signal request); done).
  cbv zeta. rewrite Hp, Hcost. destruct (mode (config c)) eqn:E; [| |done].
  - cbn. eexists _, None. split_and!; done.
  - unfold acquireShadow. set (pre := if (cost >? limit c) || _ then _ else _).
    assert (activeCost pre.1.1 = activeCost c) as Hpre by (subst pre; repeat case_if; done).
    destruct pre as [[c2 dec] d]. destruct (admit_fields env cost d c2) as (_ & _ & F3).
    destruct (admitNow env cost d c2) as [c3 i]. cbn [fst snd] in *. exists i, (Some dec).
    split_and!; [done|done|]. intros _. split; [done|]. rewrite <- Hpre, <- F3. by destruct d.
Qed.

(** ** Witnesses *)

Definition exEnv : Env := mkEnv 1000 (fun _ => false).

Definition exStart : Controller :=
  ltac:(let r := eval vm_compute in (newController exEnv exInput) in match r with Ret ?c => exact c end).

Definition exRequest (cost : Z) (tenant : option string) : AdmissionRequest :=
  mkAdmissionRequest (jsInt cost) None tenant JUndefined None None.

Definition exInputWith (m : AdmissionMode) (lanes : bool) : AdaptiveAdmissionConfig :=
  mkAdmissionConfig (ModeIs m) (jsInt 4) (jsInt 10) (jsInt 8) (jsInt 5) (jsInt 20)
    JUndefined JUndefined JUndefined JUndefined JUndefined JUndefined JUndefined JUndefined
    JUndefined JUndefined JUndefined noCostConfig lanes.

Definition exShadow : Controller :=
  ltac:(let r := eval vm_compute in (newController exEnv (exInputWith shadow false)) in match r with Ret ?c => exact c end).

(** Two requests of cost 6 under a limit of 8: the second waits. *)
Definition exBusy : Controller :=
  (acquire exEnv (exRequest 6 None) (acquire exEnv (exRequest 6 None) exStart).1).1.

Lemma exBusy_reach :
  reach ctlStep exStart ([] ++ [LAcquire exEnv (exRequest 6 None)] ++ [LAcquire exEnv (exRequest 6 None)]) exBusy.
Proof.
  rewrite app_assoc. eapply reach_step; [|apply ctl_acquire].
  eapply (reach_step ctlStep exStart exStart []); [apply reach_refl|apply ctl_acquire].
Qed.

Lemma exInput_valid : validInput exInput.
Proof. done. Qed.

Lemma exStart_new : newController exEnv exInput = Ret exStart.
Proof. vm_compute. reflexivity. Qed.

Lemma admission_accounting_witness :
  activeCost exBusy = 6 /\ count (queue exBusy) = 1 /\
  activeCost exBusy = sumZ (l_cost <$> mvals (active exBusy)).
Proof.
  split_and!; [vm_compute; reflexivity|vm_compute; reflexivity|].
  exact (proj1 (admission_accounting exEnv exInput exStart _ exBusy exInput_valid exStart_new exBusy_reach)).
Defined.

Lemma enforce_cost_bound_witness : activeCost exBusy <= 10.
Proof.
  refine (enforce_cost_bound exEnv exInput exStart _ exBusy exInput_valid exStart_new eq_refl exBusy_reach _).
  repeat constructor.
Defined.

Lemma no_stranded_waiter_witness :
  entries (queue exBusy) = [] \/ limit exBusy <= activeCost exBusy \/
  (dequeue (limit exBusy - activeCost exBusy) (queue exBusy)).2 = None.
Proof.
  refine (no_stranded_waiter exEnv exInput exStart _ exBusy exInput_valid exStart_new exBusy_reach _ _);
    vm_compute; reflexivity.
Defined.

Lemma shutdown_terminal_witness :
  (acquire exEnv (exRequest 1 None) (shutdown exBusy)).2
  = Ret (RejectedNow ADMISSION_SHUTDOWN "admission controller is shut down").
Proof.
  destruct (shutdown_terminal exEnv exInput exStart _ exBusy [] (shutdown exBusy) exEnv (exRequest 1 None)
    exInput_valid exStart_new exBusy_reach (reach_refl _ _)) as (_ & _ & H & _).
  exact H.
Defined.

Lemma enforce_admission_guard_witness :
  entries (queue exStart) = [] /\ activeCost exStart + 6 <= limit exStart \/
  (limit exStart < 6 <= maxLimit (config exStart) /\ activeCost exStart = 0 /\ entries (queue exStart) = []).
Proof.
  refine (proj2 (proj2 (enforce_admission_guard exEnv (exRequest 6 None) exStart "lease-1" 6
    (CInv_new exEnv exInput exStart exInput_valid exStart_new) _ _))); vm_compute; reflexivity.
Defined.

Lemma observing_modes_admit_witness :
  exists lease shadowed,
    (acquire exEnv (exRequest 6 None) exShadow).2
    = Ret (AdmittedNow lease 6 shadowed).
Proof.
  destruct (observing_modes_admit exEnv (exRequest 6 None) exShadow
    ltac:(discriminate) eq_refl I eq_refl 6 ltac:(vm_compute; reflexivity)) as (l & s & H & _).
  exists l, s. exact H.
Defined.

(** ** Findings *)

Definition exLanes : Controller :=
  ltac:(let r := eval vm_compute in (newController exEnv (exInputWith enforce true)) in match r with Ret ?c => exact c end).

Definition acquired env request c : Controller := (acquire env request c).1.

(** With virtual lanes the shared queue stays empty, so a newer direct arrival
    passes a request that waits in a lane although the comment above the direct
    admission says that it joins the queue. *)
Lemma lane_waiter_is_bypassed :
  let c := acquired exEnv (exRequest 5 (Some "a"%string)) (acquired exEnv (exRequest 6 None) exLanes) in
  laneTotalQueuedCount c = 1 /\
  (acquire exEnv (exRequest 2 (Some "b"%string)) c).2 = Ret (AdmittedNow "lease-3" 2 None).
Proof. vm_compute. done. Qed.

(** One dispatch admits at most one request of a lane, though its comment says
    that it dispatches as many as the capacity allows: here both waiting
    requests fit after the release and one still waits. *)
Lemma lane_entry_left_waiting :
  let c := acquired exEnv (exRequest 2 (Some "a"%string))
             (acquired exEnv (exRequest 2 (Some "a"%string)) (acquired exEnv (exRequest 8 None) exLanes)) in
  let c' := releaseLease exEnv "lease-1" success noMeta c in
  laneTotalQueuedCount c = 2 /\ activeCost c' = 2 /\ limit c' = 8 /\ laneTotalQueuedCount c' = 1.
Proof. vm_compute. done. Qed.

(** A request with [maxWaitMs] 0, the non-blocking probe of the per-target hook,
    is not rejected at once when the controller is busy: [acquire] throws. *)
Lemma zero_wait_throws :
  exists n m, (acquire exEnv (mkAdmissionRequest (jsInt 6) None None (jsInt 0) None None)
    (acquired exEnv (exRequest 6 None) exStart)).2 = Throw n m.
Proof. eexists _, _. vm_compute. reflexivity. Qed.
