(* ===== verification/WorkflowFSM.v ===== *)
(** * Workflow FSM: [open-sse/services/workflowFSM.ts]

    A workflow is a record that its owner advances with the result of each phase;
    the transition table decides the next phase by the risk, the last verdict and
    the retry counters.  The clock of a call is its argument [now].  The theorems
    show which phases a run to [done] must have gone through, that every run of
    [advance] ends, and that no retry counter passes its maximum. *)
From Stdlib Require Import String Ascii.
From S2P Require Import Prelude JsMap JsString.

#[local] Open Scope Z_scope.

Inductive Phase :=
| classify | plan | plan_review | execute | code_review | quality_review | security | test
| output_review | done_ | failed | paused.

Inductive RiskLevel := low | medium | high.

Inductive Verdict := approve | approve_with_notes | request_changes | reject | block.

#[export] Instance Phase_eq_dec : EqDecision Phase.
Proof. solve_decision. Defined.
#[export] Instance RiskLevel_eq_dec : EqDecision RiskLevel.
Proof. solve_decision. Defined.
#[export] Instance Verdict_eq_dec : EqDecision Verdict.
Proof. solve_decision. Defined.

Record PhaseRecord := mkRecord {
  phase : Phase;
  enteredAt : Z;
  exitedAt : option Z;
  verdict : option Verdict;
  provider : option string;
  model : option string;
  retryCount : Z;
  notes : option string;
}.

Record WorkflowContext := mkContext {
  wid : string;
  currentPhase : Phase;
  risk : RiskLevel;
  lastVerdict : option Verdict;
  retries : jsmap Phase Z;
  maxRetries : Z;
  testsPass : bool;
  history : list PhaseRecord;
  createdAt : Z;
  metadata : jsmap string string;
}.

#[export] Instance PhaseRecord_eta : Eta PhaseRecord := fun x =>
  mkRecord (phase x) (enteredAt x) (exitedAt x) (verdict x) (provider x) (model x) (retryCount x) (notes x).
#[export] Instance WorkflowContext_eta : Eta WorkflowContext := fun x =>
  mkContext (wid x) (currentPhase x) (risk x) (lastVerdict x) (retries x) (maxRetries x) (testsPass x)
    (history x) (createdAt x) (metadata x).

(** ** Classification *)

Definition HIGH_KEYWORDS : list string :=
  ["schema"; "migration"; "deploy"; "delete"; "drop"; "env"; "database"; "refactor"; "security"; "auth";
   "production"; "secrets"; "credentials"; "permission"]%string.

Definition MED_KEYWORDS : list string :=
  ["endpoint"; "feature"; "service"; "model"; "api"; "integration"; "webhook"; "middleware"; "route"]%string.

Definition classifyRisk (desc : string) : RiskLevel :=
  let l := toLowerCase desc in
  if existsb (includes l) HIGH_KEYWORDS then high
  else if existsb (includes l) MED_KEYWORDS then medium
  else low.

(** ** The transition table *)

(** [PHASE_ORDER.indexOf]; [None] is -1. *)
Definition phaseIndex (p : Phase) : option Z :=
  match p with
  | classify => Some 0 | plan => Some 1 | plan_review => Some 2 | execute => Some 3
  | code_review => Some 4 | quality_review => Some 5 | security => Some 6 | test => Some 7
  | output_review => Some 8 | done_ | failed | paused => None
  end.

Record Transition := mkTransition {
  t_from : Phase;
  t_to : Phase;
  condition : WorkflowContext -> bool;
  description : string;
}.

Definition retriesOf (p : Phase) (c : WorkflowContext) : Z := orElse (mget p (retries c)) 0.

Definition verdictIs (v : Verdict) (c : WorkflowContext) : bool := bool_decide (lastVerdict c = Some v).
Definition riskIs (r : RiskLevel) (c : WorkflowContext) : bool := bool_decide (risk c = r).
Definition approved (c : WorkflowContext) : bool := verdictIs approve c || verdictIs approve_with_notes c.
Definition refused (c : WorkflowContext) : bool := verdictIs reject c || verdictIs request_changes c.

Definition T : list Transition := [
  mkTransition classify plan (riskIs high) "High risk -> full planning";
  mkTransition classify execute (riskIs medium) "Medium risk -> skip planner";
  mkTransition classify execute (riskIs low) "Low risk -> direct execute";
  mkTransition plan plan_review (fun _ => true) "Plan -> review";
  mkTransition plan_review execute approved "Plan approved -> execute";
  mkTransition plan_review plan (fun c => refused c && (retriesOf plan c <? maxRetries c))
    "Plan rejected -> retry";
  mkTransition plan_review failed (fun c => refused c && (retriesOf plan c >=? maxRetries c))
    "Plan rejected max retries";
  mkTransition execute code_review (fun c => negb (riskIs low c)) "Non-low -> code review";
  mkTransition execute test (riskIs low) "Low -> skip reviews";
  mkTransition code_review quality_review approved "Code approved -> quality";
  mkTransition code_review execute (fun c => refused c && (retriesOf execute c <? maxRetries c))
    "Code rejected -> re-execute";
  mkTransition code_review failed (fun c => refused c && (retriesOf execute c >=? maxRetries c))
    "Code rejected max retries";
  mkTransition quality_review security (riskIs high) "High -> security audit";
  mkTransition quality_review test (fun c => negb (riskIs high c)) "Non-high -> skip security";
  mkTransition security failed (verdictIs block) "Security BLOCK -> failed";
  mkTransition security test (fun c => negb (verdictIs block c)) "Security passed -> test";
  mkTransition test output_review testsPass "Tests pass -> output review";
  mkTransition test execute (fun c => negb (testsPass c) && (retriesOf execute c <? maxRetries c))
    "Tests fail -> re-execute";
  mkTransition test failed (fun c => negb (testsPass c) && (retriesOf execute c >=? maxRetries c))
    "Tests fail max retries";
  mkTransition output_review done_ (fun _ => true) "Output reviewed -> done"
].

(** ** Operations *)

Definition riskName (r : RiskLevel) : string :=
  match r with low => "low" | medium => "medium" | high => "high" end.

Definition createWorkflow (now : Z) (i desc : string) (max : option Z) (meta : option (jsmap string string))
    : WorkflowContext :=
  let r := classifyRisk desc in
  mkContext i classify r None [] (orElse max 3) false
    [mkRecord classify now None None None None 0 (Some ("Risk: " +:+ riskName r))] now (orElse meta []).

Record Result := mkResult {
  r_verdict : option Verdict;
  r_testsPass : option bool;
  r_provider : option string;
  r_model : option string;
  r_notes : option string;
}.

Definition noResult : Result := mkResult None None None None None.

(** Apply [f] to the last element, if there is one. *)
Fixpoint onLast {A} (f : A -> A) (l : list A) : list A :=
  match l with
  | [] => []
  | [x] => [f x]
  | x :: l => x :: onLast f l
  end.

(** The part of [advance] before the loop: note the result, close the record. *)
Definition noteResult (now : Z) (r : Result) (c : WorkflowContext) : WorkflowContext :=
  let c := match r_verdict r with Some v => c <| lastVerdict := Some v |> | None => c end in
  let c := match r_testsPass r with Some b => c <| testsPass := b |> | None => c end in
  c <| history := onLast (fun cur => cur
         <| exitedAt := Some now |> <| verdict := r_verdict r |> <| provider := r_provider r |>
         <| model := r_model r |> <| notes := r_notes r |>) (history c) |>.

Definition enterPhase (now : Z) (p : Phase) (count : Z) (note : string) (c : WorkflowContext) : WorkflowContext :=
  c <| currentPhase := p |>
    <| history := history c ++ [mkRecord p now None None None None count (Some note)] |>.

Definition isRetry (t : Transition) : bool :=
  match phaseIndex (t_from t), phaseIndex (t_to t) with
  | Some fi, Some ti => ti <=? fi
  | _, _ => false
  end.

Definition takeTransition (now : Z) (t : Transition) (c : WorkflowContext) : WorkflowContext :=
  let c := if isRetry t then c <| retries := mset (t_to t) (retriesOf (t_to t) c + 1) (retries c) |> else c in
  enterPhase now (t_to t) (retriesOf (t_to t) c) (description t) c.

Fixpoint firstTransition (ts : list Transition) (c : WorkflowContext) : option Transition :=
  match ts with
  | [] => None
  | t :: ts =>
      if bool_decide (t_from t = currentPhase c) && condition t c then Some t else firstTransition ts c
  end.

Definition advance (now : Z) (r : Result) (c : WorkflowContext) : WorkflowContext * option Phase :=
  let c := noteResult now r c in
  match firstTransition T c with
  | Some t => (takeTransition now t c, Some (t_to t))
  | None => (c, None)
  end.

Definition pause (now : Z) (reason : string) (c : WorkflowContext) : WorkflowContext :=
  enterPhase now paused 0 reason c.

Definition resume (now : Z) (p : Phase) (c : WorkflowContext) : WorkflowContext :=
  let c := c <| history := onLast (fun cur => cur <| exitedAt := Some now |>) (history c) |> in
  enterPhase now p (retriesOf p c) "Resumed" c.

Definition isTerminated (c : WorkflowContext) : bool :=
  match currentPhase c with done_ | failed => true | _ => false end.

Definition getPhaseSequence (c : WorkflowContext) : list Phase := phase <$> history c.

Definition isSystem (p : Phase) : bool :=
  match p with classify | paused | done_ | failed => true | _ => false end.

Definition getLLMCallCount (c : WorkflowContext) : Z :=
  Z.of_nat (List.length (base.filter (fun r => negb (isSystem (phase r)) && bool_decide (exitedAt r <> None) = true) (history c))).

(** ** The table, by phase *)

Lemma onLast_fmap {A B} (g : A -> B) (f : A -> A) l :
  (forall x, g (f x) = g x) -> g <$> onLast f l = g <$> l.
Proof.
  intros Hg. induction l as [|x [|y l] IH]; [done|cbn; by rewrite Hg|].
  change (onLast f (x :: y :: l)) with (x :: onLast f (y :: l)). rewrite !fmap_cons. f_equal. exact IH.
Qed.

Lemma noteResult_frame now r c :
  currentPhase (noteResult now r c) = currentPhase c /\ risk (noteResult now r c) = risk c /\
  retries (noteResult now r c) = retries c /\ maxRetries (noteResult now r c) = maxRetries c /\
  getPhaseSequence (noteResult now r c) = getPhaseSequence c.
Proof.
  unfold noteResult. destruct (r_verdict r), (r_testsPass r); split_and!; try done; by apply onLast_fmap.
Qed.

(** Everything [advance] can do. *)
Lemma advance_cases now r c :
  let c1 := noteResult now r c in
  (exists t, t ∈ T /\ t_from t = currentPhase c /\ condition t c1 = true /\
     advance now r c = (takeTransition now t c1, Some (t_to t))) \/
  advance now r c = (c1, None).
Proof.
  cbv zeta. unfold advance. set (c1 := noteResult now r c).
  destruct (firstTransition T c1) as [t|] eqn:Hf; [left|by right].
  assert (t ∈ T /\ t_from t = currentPhase c1 /\ condition t c1 = true) as (A & B & C).
  { revert Hf. generalize T. induction l as [|t0 l IH]; simpl; [done|]. case_if.
    - intros [= <-]. apply andb_true_iff in Heqb as [H1%bool_decide_eq_true H2]. split_and!; [by left|done|done].
    - intros H. destruct (IH H) as (? & ? & ?). split_and!; [by right|done|done]. }
  exists t. split_and!; [done| |done|done]. rewrite B. apply noteResult_frame.
Qed.

(** One case per row of the table. *)
Ltac by_row Ht :=
  unfold T in Ht; repeat (apply elem_of_cons in Ht as [->|Ht]; [|]); try (by apply elem_of_nil in Ht).

(** ** Termination *)

Definition rank (p : Phase) : Z := orElse (phaseIndex p) 9.

Definition left_ (p : Phase) (c : WorkflowContext) : Z := Z.max 0 (maxRetries c - retriesOf p c).

(** Every transition moves forward or spends a retry. *)
Definition measure (c : WorkflowContext) : Z :=
  10 * (left_ plan c + left_ execute c) + (9 - rank (currentPhase c)).

Lemma rank_bounds p : 0 <= rank p <= 9.
Proof. destruct p; vm_compute; split; discriminate. Qed.

Lemma takeTransition_frame now t c :
  currentPhase (takeTransition now t c) = t_to t /\ maxRetries (takeTransition now t c) = maxRetries c /\
  risk (takeTransition now t c) = risk c /\ testsPass (takeTransition now t c) = testsPass c /\
  getPhaseSequence (takeTransition now t c) = getPhaseSequence c ++ [t_to t] /\
  forall p, retriesOf p (takeTransition now t c) =
    retriesOf p c + (if isRetry t then if decide (p = t_to t) then 1 else 0 else 0).
Proof.
  unfold takeTransition, enterPhase, getPhaseSequence, retriesOf. case_if; simpl; rewrite fmap_app; split_and!; try done.
  - intros p. rewrite mget_mset. case_decide; subst; simpl; lia.
  - intros p. lia.
Qed.

Lemma condition_retry t c :
  t ∈ T -> condition t c = true -> isRetry t = true ->
  (t_to t = plan \/ t_to t = execute) /\ retriesOf (t_to t) c < maxRetries c.
Proof.
  intros Ht Hc Hr. by_row Ht; vm_compute in Hr; try discriminate Hr; simpl in *; to_prop; auto.
Qed.

Lemma rank_forward t : t ∈ T -> isRetry t = false -> rank (t_from t) < rank (t_to t).
Proof. intros Ht Hr. by_row Ht; vm_compute in Hr |- *; try discriminate Hr; reflexivity. Qed.

Lemma measure_nonneg c : 0 <= measure c.
Proof. unfold measure, left_. pose proof (rank_bounds (currentPhase c)). lia. Qed.

Lemma measure_noteResult now r c : measure (noteResult now r c) = measure c.
Proof.
  destruct (noteResult_frame now r c) as (A & _ & B & C & _). unfold measure, left_, retriesOf. by rewrite A, B, C.
Qed.

Lemma advance_measure now r c c' p : advance now r c = (c', Some p) -> measure c' < measure c.
Proof.
  intros Ha. destruct (advance_cases now r c) as [(t & Ht & Hf & Hc & Heq)|Heq]; rewrite Heq in Ha; [|done].
  simplify_eq. set (c1 := noteResult now r c) in *. rewrite <- (measure_noteResult now r c). fold c1.
  assert (currentPhase c1 = t_from t) as Hf1 by (rewrite Hf; apply noteResult_frame).
  destruct (takeTransition_frame now t c1) as (A & B & _ & _ & _ & R).
  unfold measure, left_. rewrite A, B, !R, Hf1.
  destruct (isRetry t) eqn:Hr.
  - destruct (condition_retry t c1 Ht Hc Hr) as [Hto Hlt].
    pose proof (rank_bounds (t_from t)). pose proof (rank_bounds (t_to t)).
    destruct Hto as [Hto|Hto]; rewrite Hto in *; repeat case_decide; try done; lia.
  - pose proof (rank_forward t Ht Hr). lia.
Qed.

(** Advance through a list of results; the number of transitions taken. *)
Fixpoint advanceAll (rs : list (Z * Result)) (c : WorkflowContext) : WorkflowContext * Z :=
  match rs with
  | [] => (c, 0)
  | (now, r) :: rs =>
      let '(c, p) := advance now r c in
      let '(c, n) := advanceAll rs c in
      (c, n + match p with Some _ => 1 | None => 0 end)
  end.

Lemma advanceAll_measure rs c : (advanceAll rs c).2 + measure (advanceAll rs c).1 <= measure c.
Proof.
  revert c. induction rs as [|[now r] rs IH]; intros c; simpl; [lia|].
  destruct (advance now r c) as [c1 p] eqn:Ha. specialize (IH c1).
  destruct (advanceAll rs c1) as [c2 n]. simpl in *. destruct p as [p|].
  - pose proof (advance_measure _ _ _ _ _ Ha). lia.
  - destruct (advance_cases now r c) as [(t & _ & _ & _ & Heq)|Heq]; rewrite Heq in Ha; simplify_eq.
    rewrite measure_noteResult in IH. lia.
Qed.

(** ** The gates *)

(** The phases a run has passed since its last [execute] (or [plan]), by risk. *)
Definition gates (r : RiskLevel) (p : Phase) : list Phase :=
  let reviews := match r with low => [] | medium => [code_review; quality_review]
                            | high => [code_review; quality_review; security] end in
  match p with
  | plan_review => [plan; plan_review]
  | execute => [execute]
  | code_review => [execute; code_review]
  | quality_review => [execute; code_review; quality_review]
  | security => [execute; code_review; quality_review; security]
  | test => execute :: reviews ++ [test]
  | output_review => execute :: reviews ++ [test; output_review]
  | done_ => execute :: reviews ++ [test; output_review; done_]
  | p => [p]
  end.

(** Which phases a risk level allows before its end. *)
Definition allowed (r : RiskLevel) (p : Phase) : bool :=
  match p, r with
  | (plan | plan_review | security), high => true
  | (plan | plan_review | security), _ => false
  | (code_review | quality_review), low => false
  | paused, _ => false
  | _, _ => true
  end.

Record Gated (c : WorkflowContext) : Prop := {
  g_gates : exists pre, getPhaseSequence c = pre ++ gates (risk c) (currentPhase c);
  g_plan : risk c = high -> currentPhase c <> classify -> currentPhase c <> plan ->
    sublist [plan; plan_review] (getPhaseSequence c);
  g_allowed : allowed (risk c) (currentPhase c) = true;
}.

(** Which rows the conditions leave open at a risk level. *)
Definition rowRisk (r : RiskLevel) (from to : Phase) : bool :=
  match from, to with
  | classify, plan | quality_review, security => bool_decide (r = high)
  | classify, _ | quality_review, _ => negb (bool_decide (r = high))
  | execute, code_review => negb (bool_decide (r = low))
  | execute, _ => bool_decide (r = low)
  | _, _ => true
  end.

Lemma condition_risk t c : t ∈ T -> condition t c = true -> rowRisk (risk c) (t_from t) (t_to t) = true.
Proof.
  intros Ht Hc. by_row Ht; cbn [t_from t_to condition rowRisk] in *; try done;
    unfold riskIs in Hc; destruct (risk c); done.
Qed.

Definition rowOk (r : RiskLevel) (t : Transition) : bool :=
  negb (rowRisk r (t_from t) (t_to t)) || negb (allowed r (t_from t)) ||
  (bool_decide (gates r (t_to t) `suffix_of` gates r (t_from t) ++ [t_to t]) && allowed r (t_to t)).

Lemma rows_ok r t : t ∈ T -> rowRisk r (t_from t) (t_to t) = true -> allowed r (t_from t) = true ->
  gates r (t_to t) `suffix_of` gates r (t_from t) ++ [t_to t] /\ allowed r (t_to t) = true.
Proof.
  intros Ht H1 H2. assert (forallb (rowOk r) T = true) as H by (destruct r; vm_compute; reflexivity).
  rewrite forallb_forall in H. specialize (H t (proj1 (list_elem_of_In _ _) Ht)). unfold rowOk in H.
  rewrite H1, H2 in H. cbn [negb orb] in H. apply andb_true_iff in H as [H%bool_decide_eq_true ?]. done.
Qed.

Lemma Gated_take now t c :
  t ∈ T -> t_from t = currentPhase c -> condition t c = true -> Gated c -> Gated (takeTransition now t c).
Proof.
  intros Ht Hf Hc [(pre & Hg) Hp Ha]. rewrite <- Hf in *.
  destruct (takeTransition_frame now t c) as (A & _ & B & C & D & _).
  destruct (rows_ok (risk c) t Ht (condition_risk t c Ht Hc) Ha) as [(k & Hk) Hall].
  split; rewrite ?A, ?B, ?C, ?D; [|intros Hr Hn1 Hn2|done].
  - exists (pre ++ k). by rewrite Hg, <- !app_assoc, Hk.
  - assert (t_from t = classify \/ t_from t = plan \/ t_from t <> classify /\ t_from t <> plan) as [E|[E|[E1 E2]]]
      by (destruct (t_from t); auto; right; right; done).
    + pose proof (condition_risk t c Ht Hc) as Hrr. rewrite Hr, E in Hrr. by_row Ht; try discriminate E; done.
    + assert (t_to t = plan_review) as -> by (by_row Ht; try discriminate E; done).
      rewrite Hg, E. cbn [gates]. rewrite <- app_assoc. apply sublist_inserts_l. done.
    + by apply sublist_inserts_r, Hp.
Qed.

Lemma Gated_note now r c : Gated c -> Gated (noteResult now r c).
Proof.
  intros [Hg Hp Ha]. destruct (noteResult_frame now r c) as (A & B & _ & _ & E). by split; rewrite ?A, ?B, ?E.
Qed.

Lemma Gated_advance now r c : Gated c -> Gated (advance now r c).1.
Proof.
  intros I. pose proof (Gated_note now r c I) as I1.
  destruct (advance_cases now r c) as [(t & Ht & Hf & Hc & ->)| ->]; simpl; [|done].
  apply Gated_take; try done. rewrite Hf. symmetry. apply noteResult_frame.
Qed.

Lemma Gated_all rs c : Gated c -> Gated (advanceAll rs c).1.
Proof.
  revert c. induction rs as [|[now r] rs IH]; intros c I; simpl; [done|].
  pose proof (Gated_advance now r c I) as I1. destruct (advance now r c) as [c1 p]. simpl in I1.
  specialize (IH c1 I1). by destruct (advanceAll rs c1).
Qed.

Lemma Gated_create now i d m meta : Gated (createWorkflow now i d m meta).
Proof. split; [by exists []|done|]. simpl. by destruct (classifyRisk d). Qed.

Lemma risk_all rs c : risk (advanceAll rs c).1 = risk c.
Proof.
  revert c. induction rs as [|[now r] rs IH]; intros c; simpl; [done|].
  destruct (advance now r c) as [c1 p] eqn:Ha. specialize (IH c1). destruct (advanceAll rs c1) as [c2 n]. simpl in *.
  rewrite IH. destruct (advance_cases now r c) as [(t & _ & _ & _ & Heq)|Heq]; rewrite Heq in Ha; simplify_eq;
    [|apply noteResult_frame].
  destruct (takeTransition_frame now t (noteResult now r c)) as (_ & _ & -> & _). apply noteResult_frame.
Qed.

Definition retriesOk (c : WorkflowContext) : Prop := forall p, retriesOf p c <= Z.max 0 (maxRetries c).

Lemma retriesOk_all rs c : retriesOk c -> retriesOk (advanceAll rs c).1 /\ maxRetries (advanceAll rs c).1 = maxRetries c.
Proof.
  revert c. induction rs as [|[now r] rs IH]; intros c I; simpl; [done|].
  destruct (noteResult_frame now r c) as (_ & _ & N1 & N2 & _). set (c1 := noteResult now r c) in *.
  assert (retriesOk c1) as I1 by (intros p; unfold retriesOf; rewrite N1, N2; apply I).
  assert (retriesOk (advance now r c).1 /\ maxRetries (advance now r c).1 = maxRetries c) as [I2 E2].
  { destruct (advance_cases now r c) as [(t & Ht & _ & Hc & ->)| ->]; cbn [fst]; fold c1; [|done].
    fold c1 in Hc.
    destruct (takeTransition_frame now t c1) as (_ & B & _ & _ & _ & R). split; [|by rewrite B].
    intros p. rewrite R, B. specialize (I1 p). destruct (isRetry t) eqn:Hr; [|lia].
    destruct (condition_retry t c1 Ht Hc Hr) as [_ Hlt]. case_decide; subst; lia. }
  destruct (advance now r c) as [c2 o]. simpl in *. destruct (IH c2 I2) as [I3 E3].
  destruct (advanceAll rs c2). simpl in *. split; [done|congruence].
Qed.

(** The phases and verdicts for which the table has no row. *)
Definition stuckAt (p : Phase) (v : option Verdict) : bool :=
  match p with
  | done_ | failed | paused => true
  | plan_review | code_review => match v with None | Some block => true | _ => false end
  | _ => false
  end.

Definition isNone {A} (o : option A) : bool := match o with None => true | Some _ => false end.

Lemma firstTransition_none c : isNone (firstTransition T c) = stuckAt (currentPhase c) (lastVerdict c).
Proof.
  assert (forall x y, (x <? y) = negb (x >=? y)) as Hlt.
  { intros x y. destruct (Z.ltb_spec x y), (Z.geb_spec x y); try done; lia. }
  unfold T. cbn [firstTransition t_from condition]. unfold approved, refused, verdictIs, riskIs. rewrite !Hlt.
  generalize (retriesOf plan c >=? maxRetries c), (retriesOf execute c >=? maxRetries c), (risk c), (testsPass c).
  intros b1 b2 rk tp. destruct (currentPhase c); try reflexivity.
  all: try (destruct rk; reflexivity).
  all: try (destruct tp, b2; reflexivity).
  all: destruct (lastVerdict c) as [[]|]; try reflexivity.
  all: destruct b1, b2; reflexivity.
Qed.

(** ** Properties *)

(** C28. No phase is skipped.  A workflow that [advance] alone brought to [done]
    ended with one uninterrupted pass through the phases its risk asks for: from
    its last [execute] on, a high-risk one went through code review, quality
    review, security, test and output review, a medium-risk one through the same
    without security, a low-risk one through test and output review; and a
    high-risk one was planned and had its plan reviewed.  ([resume] may put a workflow
    anywhere: a run with [pause] and [resume] has no such guarantee.) *)
Theorem workflow_done_gated now i desc max meta rs c n :
  advanceAll rs (createWorkflow now i desc max meta) = (c, n) -> currentPhase c = done_ ->
  risk c = classifyRisk desc /\
  (exists pre, getPhaseSequence c = pre ++ gates (risk c) done_) /\
  (risk c = high -> sublist [plan; plan_review] (getPhaseSequence c)).
Proof.
  intros Hr Hd. pose proof (Gated_all rs _ (Gated_create now i desc max meta)) as [Hg Hp _].
  pose proof (risk_all rs (createWorkflow now i desc max meta)) as Hrisk.
  rewrite Hr in *. cbn [fst] in *. rewrite Hd in *. split_and!; [done|done|]. intros Hh. by apply Hp.
Qed.

(** Every workflow ends.  However long it is driven, a workflow takes at most
    [20 * maxRetries + 9] transitions, and no retry counter passes [maxRetries]. *)
Theorem workflow_terminates now i desc max meta rs c n :
  advanceAll rs (createWorkflow now i desc max meta) = (c, n) ->
  n <= 20 * Z.max 0 (orElse max 3) + 9 /\
  forall p, retriesOf p c <= Z.max 0 (orElse max 3).
Proof.
  intros Hr. set (c0 := createWorkflow now i desc max meta) in *.
  pose proof (advanceAll_measure rs c0) as Hm. pose proof (measure_nonneg c).
  destruct (retriesOk_all rs c0) as [Hok Hmax]; [intros p; unfold retriesOf; simpl; lia|].
  rewrite Hr in *. cbn [fst snd] in *. split.
  - assert (measure c0 = 10 * (left_ plan c0 + left_ execute c0) + 9) as Hc0 by done.
    unfold left_, retriesOf in Hc0. simpl in Hc0. lia.
  - intros p. specialize (Hok p). by rewrite Hmax in Hok.
Qed.

(** When [advance] returns null.  It finds no transition exactly when the
    workflow is done, failed or paused, or when a plan or code review has as its
    last verdict neither an approval nor a refusal, that is none at all or
    [block]; the context then only notes the result. *)
Theorem advance_null_iff now r c :
  (advance now r c).2 = None <->
  currentPhase c = done_ \/ currentPhase c = failed \/ currentPhase c = paused \/
  ((currentPhase c = plan_review \/ currentPhase c = code_review) /\
   match r_verdict r with Some v => v = block | None => lastVerdict c = None \/ lastVerdict c = Some block end).
Proof.
  unfold advance. destruct (noteResult_frame now r c) as (Hp & _).
  assert (lastVerdict (noteResult now r c) = match r_verdict r with Some v => Some v | None => lastVerdict c end) as Hv
    by (unfold noteResult; by destruct (r_verdict r), (r_testsPass r)).
  pose proof (firstTransition_none (noteResult now r c)) as Hn. rewrite Hp, Hv in Hn.
  transitivity (stuckAt (currentPhase c) (match r_verdict r with Some v => Some v | None => lastVerdict c end) = true).
  - rewrite <- Hn. by destruct (firstTransition T (noteResult now r c)).
  - clear. destruct (currentPhase c), (r_verdict r) as [[]|], (lastVerdict c) as [[]|]; simpl; intuition congruence.
Qed.

(** ** Witnesses *)

Definition exApprove : Result := mkResult (Some approve) (Some true) None None None.

Definition exRun (desc : string) (n : nat) : WorkflowContext * Z :=
  advanceAll (repeat (0, exApprove) n) (createWorkflow 0 "w" desc None None).

Lemma workflow_done_gated_witness :
  risk (exRun "Deploy the database" 9).1 = high /\
  sublist [plan; plan_review] (getPhaseSequence (exRun "Deploy the database" 9).1).
Proof.
  split; [vm_compute; reflexivity|].
  destruct (workflow_done_gated 0 "w" "Deploy the database" None None (repeat (0, exApprove) 9)
    (exRun "Deploy the database" 9).1 (exRun "Deploy the database" 9).2) as (_ & _ & H);
    [vm_compute; reflexivity|vm_compute; reflexivity|].
  apply H. vm_compute. reflexivity.
Defined.

Lemma workflow_terminates_witness : (exRun "fix a typo" 50).2 <= 20 * 3 + 9.
Proof.
  refine (proj1 (workflow_terminates 0 "w" "fix a typo" None None (repeat (0, exApprove) 50)
    (exRun "fix a typo" 50).1 (exRun "fix a typo" 50).2 _)). vm_compute. reflexivity.
Defined.

(** ** Findings *)

(** The verdict of an earlier phase is kept: after the plan was approved, a code
    review that reports no verdict passes. *)
Lemma stale_verdict_passes_review :
  let c := (exRun "Deploy the database" 4).1 in
  currentPhase c = code_review /\ (advance 0 noResult c).2 = Some quality_review.
Proof. vm_compute. done. Qed.

(** A low-risk workflow also goes through the output review. *)
Lemma low_risk_output_review :
  getPhaseSequence (exRun "fix a typo" 9).1 = [classify; execute; test; output_review; done_].
Proof. vm_compute. reflexivity. Qed.

(** [block] ends a security audit but leaves a code review without a transition. *)
Lemma blocked_review_is_stuck :
  let c := (exRun "Deploy the database" 4).1 in
  (advance 0 (mkResult (Some block) None None None None) c).2 = None.
Proof. vm_compute. reflexivity. Qed.
