(* ===== verification/BoundedMap.v ===== *)
(** * Bounded maps: [src/lib/quota/boundedMap.ts]

    A Map with a cap for the in-process quota caches.  Above the cap the first
    entry that [shouldEvict] gives up is evicted, in the order of the Map: recency
    of use for [lru], time of writing for [ttl].  Protected entries are never
    evicted; the map grows past its cap instead. *)
From S2P Require Import Prelude JsMap.

Inductive BoundedMapPolicy := lru | ttl.

Record Entry (V : Type) := mkEntry { value : V; ts : Z }.
Arguments mkEntry {V}.
Arguments value {V}.
Arguments ts {V}.

Record BoundedMapOptions (V : Type) := mkOptions {
  limit : Z;
  policy : BoundedMapPolicy;
  ttlMs : Z;
  shouldEvict : V -> string -> Z -> bool;
  logIntervalMs : Z;
}.
Arguments mkOptions {V}.
Arguments limit {V}.
Arguments policy {V}.
Arguments ttlMs {V}.
Arguments shouldEvict {V}.
Arguments logIntervalMs {V}.

Definition DEFAULT_LOG_INTERVAL_MS : Z := 60000.

(** The default of [shouldEvict]. *)
Definition evictAny {V} (_ : V) (_ : string) (_ : Z) : bool := true.

(** A log line: the size of the map, the evictions and the overflows it reports. *)
Record LogLine := mkLogLine { logSize : Z; logEvicted : Z; logOverflow : Z }.

(** [lastLogAt] is [None] for minus infinity. *)
Record BMap (V : Type) := mkBMap {
  inner : jsmap string (Entry V);
  evictions : Z;
  overflowInserts : Z;
  pendingEvictions : Z;
  pendingOverflows : Z;
  lastLogAt : option Z;
  logged : list LogLine;
}.
Arguments mkBMap {V}.
Arguments inner {V}.
Arguments evictions {V}.
Arguments overflowInserts {V}.
Arguments pendingEvictions {V}.
Arguments pendingOverflows {V}.
Arguments lastLogAt {V}.
Arguments logged {V}.

#[export] Instance BMap_eta V : Eta (BMap V) := fun x =>
  mkBMap (inner x) (evictions x) (overflowInserts x) (pendingEvictions x) (pendingOverflows x) (lastLogAt x) (logged x).

Section BoundedMap.
Context {V : Type} (o : BoundedMapOptions V).
Implicit Types (b : BMap V) (key k : string) (e : Entry V) (nowMs : Z).

Definition newMap : BMap V := mkBMap [] 0 0 0 0 None [].

Definition expires : bool := match policy o with ttl => ttlMs o >? 0 | lru => false end.

Definition maybeLog nowMs b : BMap V :=
  if (pendingEvictions b =? 0) && (pendingOverflows b =? 0) then b
  else if match lastLogAt b with Some t => nowMs - t <? logIntervalMs o | None => false end then b
  else b <| lastLogAt := Some nowMs |>
         <| logged := logged b ++ [mkLogLine (msize (inner b)) (pendingEvictions b) (pendingOverflows b)] |>
         <| pendingEvictions := 0 |> <| pendingOverflows := 0 |>.

Definition isExpired e nowMs : bool := expires && (nowMs - ts e >? ttlMs o).

Definition sweepExpired nowMs b : BMap V :=
  b <| inner := mprune (fun _ e => isExpired e nowMs) (inner b) |>.

Definition findVictim nowMs (m : jsmap string (Entry V)) : option string :=
  fst <$> List.find (fun '(k, e) => shouldEvict o (value e) k nowMs) m.

(** Each turn of the loop removes an entry: their number is enough fuel. *)
Fixpoint makeRoomLoop (fuel : nat) nowMs b : BMap V :=
  if msize (inner b) >=? limit o then
    match findVictim nowMs (inner b), fuel with
    | Some victim, S fuel =>
        makeRoomLoop fuel nowMs
          (b <| inner := mdel victim (inner b) |> <| evictions := evictions b + 1 |>
             <| pendingEvictions := pendingEvictions b + 1 |>)
    | _, _ => b <| overflowInserts := overflowInserts b + 1 |> <| pendingOverflows := pendingOverflows b + 1 |>
    end
  else b.

Definition makeRoom nowMs b : BMap V :=
  if msize (inner b) <? limit o then b
  else
    let b := if expires then sweepExpired nowMs b else b in
    maybeLog nowMs (makeRoomLoop (length (inner b)) nowMs b).

Definition get key nowMs b : BMap V * option V :=
  match mget key (inner b) with
  | None => (b, None)
  | Some e =>
      if isExpired e nowMs then (b <| inner := mdel key (inner b) |>, None)
      else
        let b := match policy o with
                 | lru => b <| inner := mset key e (mdel key (inner b)) |>
                 | ttl => b end in
        (b, Some (value e))
  end.

Definition set key (v : V) nowMs b : BMap V :=
  let b := if mhas key (inner b) then b <| inner := mdel key (inner b) |> else makeRoom nowMs b in
  b <| inner := mset key (mkEntry v nowMs) (inner b) |>.

Definition delete key b : BMap V * bool := (b <| inner := mdel key (inner b) |>, mhas key (inner b)).

Definition clear b : BMap V := b <| inner := [] |>.

Definition size b : Z := msize (inner b).

Definition keys b : list string := mkeys (inner b).

Definition iterate nowMs b : list (string * V) :=
  (fun '(k, e) => (k, value e)) <$> base.filter (fun ke => isExpired ke.2 nowMs = false) (inner b).

(** ** Lemmas *)

Lemma findVictim_Some nowMs m k :
  findVictim nowMs m = Some k -> exists e, (k, e) ∈ m /\ shouldEvict o (value e) k nowMs = true.
Proof.
  unfold findVictim. destruct (List.find _ m) as [[k' e]|] eqn:Hf; [|done]. intros [= <-].
  apply List.find_some in Hf as [Hin Hs]. exists e. split; [by apply list_elem_of_In|done].
Qed.

Lemma findVictim_None nowMs m k e :
  findVictim nowMs m = None -> (k, e) ∈ m -> shouldEvict o (value e) k nowMs = false.
Proof.
  unfold findVictim. destruct (List.find _ m) as [[k' e']|] eqn:Hf; [done|]. intros _ Hin.
  by apply (List.find_none _ _ Hf (k, e)), list_elem_of_In.
Qed.

Definition protected nowMs (m : jsmap string (Entry V)) : Prop :=
  forall k e, (k, e) ∈ m -> shouldEvict o (value e) k nowMs = false.

(** What evicting guarantees about the map [m'] left of [m]. *)
Record Evicted nowMs (m m' : jsmap string (Entry V)) : Prop := {
  ev_sub : sublist m' m;
  ev_keep : forall k e, (k, e) ∈ m -> shouldEvict o (value e) k nowMs = false -> isExpired e nowMs = false ->
    (k, e) ∈ m';
  ev_room : msize m' < limit o \/ protected nowMs m';
}.

Lemma mdel_elem k k' e (m : jsmap string (Entry V)) : (k, e) ∈ m -> k <> k' -> (k, e) ∈ mdel k' m.
Proof.
  induction m as [|[k2 e2] m IH]; [intros H; by apply elem_of_nil in H|]. simpl.
  rewrite elem_of_cons. intros [[= <- <-]|H] Hne; case_decide; subst; try done; [by left|by right; auto].
Qed.

Lemma mwf_unique k e e' (m : jsmap string (Entry V)) : mwf m -> (k, e) ∈ m -> (k, e') ∈ m -> e = e'.
Proof. intros Hwf H1 H2. apply mget_elem in H1, H2; [congruence|done..]. Qed.

Lemma makeRoomLoop_spec fuel nowMs b :
  mwf (inner b) -> (length (inner b) <= fuel)%nat ->
  Evicted nowMs (inner b) (inner (makeRoomLoop fuel nowMs b)).
Proof.
  revert b. induction fuel as [|fuel IH]; intros b Hwf Hlen; simpl.
  - destruct (inner b) as [|x m] eqn:Hb; [|simpl in Hlen; lia].
    destruct (Z.geb_spec (msize (@nil (string * Entry V))) (limit o)); simpl; rewrite Hb; split; try done; [|by left].
    right. intros k e Hin. by apply elem_of_nil in Hin.
  - destruct (Z.geb_spec (msize (inner b)) (limit o)); [|split; [done|done|by left]].
    destruct (findVictim nowMs (inner b)) as [v|] eqn:Hv.
    + destruct (findVictim_Some _ _ _ Hv) as (ev & Hin & Hs).
      pose proof (length_mdel_has v ev (inner b) (mget_elem _ _ _ Hwf Hin)) as Hl.
      destruct (IH (b <| inner := mdel v (inner b) |> <| evictions := evictions b + 1 |>
        <| pendingEvictions := pendingEvictions b + 1 |>)) as [E1 E2 E3]; [by apply mwf_mdel|simpl; lia|].
      split; [|intros k e Hke Hp Hx|done].
      * etrans; [exact E1|apply mdel_sublist].
      * apply E2; [|done|done]. apply mdel_elem; [done|]. intros ->.
        rewrite (mwf_unique _ _ _ _ Hwf Hke Hin) in Hp. congruence.
    + split; [done|done|right]. intros k e. apply findVictim_None. done.
Qed.

Lemma maybeLog_inner nowMs b : inner (maybeLog nowMs b) = inner b.
Proof. unfold maybeLog. by repeat case_if. Qed.

Lemma makeRoom_spec nowMs b : mwf (inner b) -> Evicted nowMs (inner b) (inner (makeRoom nowMs b)).
Proof.
  intros Hwf. unfold makeRoom. destruct (Z.ltb_spec (msize (inner b)) (limit o)); [split; [done|done|by left]|].
  rewrite maybeLog_inner. set (b1 := if expires then sweepExpired nowMs b else b).
  assert (mwf (inner b1) /\ sublist (inner b1) (inner b) /\
    forall k e, (k, e) ∈ inner b -> isExpired e nowMs = false -> (k, e) ∈ inner b1) as (Hwf1 & Hsub & Hkeep).
  { subst b1. case_if; [|done]. simpl. split_and!; [by apply mwf_mprune|apply sublist_filter|].
    intros k e Hin Hx. by apply list_elem_of_filter. }
  destruct (makeRoomLoop_spec (length (inner b1)) nowMs b1 Hwf1 ltac:(lia)) as [E1 E2 E3].
  split; [by etrans|auto|done].
Qed.

Lemma mwf_set key v nowMs b : mwf (inner b) -> mwf (inner (set key v nowMs b)).
Proof.
  intros Hwf. unfold set. cbn [inner set_field]. apply mwf_mset. case_if; [by apply mwf_mdel|].
  by eapply mwf_sublist, Hwf; apply makeRoom_spec.
Qed.

Lemma mwf_get key nowMs b : mwf (inner b) -> mwf (inner (get key nowMs b).1).
Proof.
  intros Hwf. unfold get. destruct (mget key (inner b)) as [e|]; [|done]. case_if; [by apply mwf_mdel|].
  destruct (policy o); simpl; [|done]. by apply mwf_mset, mwf_mdel.
Qed.

(** An entry survives a [get] of any key, unless it expired. *)
Lemma get_keeps k key e nowMs b :
  mwf (inner b) -> mget k (inner b) = Some e -> isExpired e nowMs = false ->
  mget k (inner (get key nowMs b).1) = Some e.
Proof.
  intros Hwf Hk Hx. unfold get. destruct (mget key (inner b)) as [e'|] eqn:Hkey; [|done].
  destruct (isExpired e' nowMs) eqn:Hx'; simpl.
  - rewrite mget_mdel_ne; [done|]. intros ->. congruence.
  - destruct (policy o); [|done]. simpl. rewrite mget_mset, mget_mdel by done. repeat case_decide; congruence.
Qed.

(** A protected, unexpired entry survives a [set] of another key. *)
Lemma set_keeps k key v e nowMs b :
  mwf (inner b) -> mget k (inner b) = Some e -> k <> key ->
  shouldEvict o (value e) k nowMs = false -> isExpired e nowMs = false ->
  mget k (inner (set key v nowMs b)) = Some e.
Proof.
  intros Hwf Hk Hne Hp Hx. unfold set. simpl. rewrite mget_mset_ne by done. case_if.
  - simpl. by rewrite mget_mdel_ne.
  - destruct (makeRoom_spec nowMs b Hwf) as [E1 E2 _]. apply mget_elem; [by apply (mwf_sublist _ _ E1)|].
    apply E2; [by apply mget_Some_elem|done|done].
Qed.
End BoundedMap.

(** ** Properties *)

(** The cap of a bounded map.  Writing a new key leaves the map within its
    cap (of at least one), unless every other entry left is protected from
    eviction; in either case no protected, unexpired entry is lost, and what was
    written is what the next read finds. *)
Theorem bounded_map_set {V} (o : BoundedMapOptions V) key v nowMs (b : BMap V) :
  mwf (inner b) -> mget key (inner b) = None -> 1 <= limit o ->
  let b' := set o key v nowMs b in
  (size b' <= limit o \/
   forall k e, mget k (inner b') = Some e -> k <> key -> shouldEvict o (value e) k nowMs = false) /\
  (forall k e, mget k (inner b) = Some e -> shouldEvict o (value e) k nowMs = false ->
     isExpired o e nowMs = false -> mget k (inner b') = Some e) /\
  (forall k e, mget k (inner b') = Some e -> k <> key -> mget k (inner b) = Some e) /\
  (0 <= ttlMs o -> (get o key nowMs b').2 = Some v).
Proof.
  intros Hwf Hnew Hlim b'. pose proof (makeRoom_spec o nowMs b Hwf) as [E1 E2 E3].
  assert (inner b' = mset key (mkEntry v nowMs) (inner (makeRoom o nowMs b))) as Hb'.
  { subst b'. unfold set, mhas. by rewrite Hnew. }
  pose proof (mwf_sublist _ _ E1 Hwf) as Hwf1.
  split_and!.
  - destruct E3 as [E3|E3]; [left|right].
    + unfold size. rewrite Hb'. unfold msize in *. rewrite length_mset. case_if; lia.
    + intros k e. rewrite Hb'. intros Hk Hne. rewrite mget_mset_ne in Hk by done.
      by apply E3, mget_Some_elem.
  - intros k e Hk Hp Hx. apply set_keeps; try done. intros ->. congruence.
  - intros k e. rewrite Hb'. intros Hk Hne. rewrite mget_mset_ne in Hk by done.
    apply mget_elem; [done|]. eapply elem_of_sublist; [|exact E1]. by apply mget_Some_elem.
  - intros Ht. unfold get. rewrite Hb', mget_mset_eq. unfold isExpired. simpl.
    replace (nowMs - nowMs >? ttlMs o) with false by (symmetry; rewrite Z.gtb_ltb; apply Z.ltb_ge; lia).
    by rewrite andb_false_r.
Qed.

(** The least recently used goes first.  Under the [lru] policy with no
    protected entries, a new key at the cap evicts exactly the entry that was read
    or written longest ago, the first of the Map, and a read moves its entry to
    the end. *)
Theorem lru_order {V} (o : BoundedMapOptions V) key v nowMs (b : BMap V) k0 e0 m :
  policy o = lru -> (forall v k t, shouldEvict o v k t = true) ->
  inner b = (k0, e0) :: m -> mwf (inner b) -> msize (inner b) = limit o -> mget key (inner b) = None ->
  inner (set o key v nowMs b) = m ++ [(key, mkEntry v nowMs)] /\
  forall k e, mget k (inner b) = Some e ->
    inner (get o k nowMs b).1 = mdel k (inner b) ++ [(k, e)].
Proof.
  intros Hpol Hev Hb Hwf Hsize Hnew. split.
  - unfold set, mhas, makeRoom, expires. rewrite Hnew, Hpol. cbn [inner set_field].
    destruct (Z.ltb_spec (msize (inner b)) (limit o)); [lia|]. rewrite maybeLog_inner, Hb. cbn [length makeRoomLoop].
    destruct (Z.geb_spec (msize (inner b)) (limit o)); [|lia].
    rewrite Hb. unfold findVictim. cbn [List.find]. rewrite Hev. cbn [fmap option_fmap option_map fst].
    cbn [mdel]. rewrite decide_True by done. rewrite Hb in Hsize, Hnew. unfold msize in *. simpl in Hsize.
    assert (forall n, inner (makeRoomLoop o n nowMs (b <| inner := m |> <| evictions := evictions b + 1 |>
      <| pendingEvictions := pendingEvictions b + 1 |>)) = m) as Hr.
    { intros n. destruct n; simpl; destruct (Z.geb_spec (Z.of_nat (length m)) (limit o)); unfold msize; try lia.
      all: replace (Z.of_nat (length m) >=? limit o) with false by (symmetry; rewrite Z.geb_leb; apply Z.leb_gt; lia); done. }
    rewrite Hr. apply mset_new. unfold mhas. simpl in Hnew. case_decide; [done|]. by rewrite Hnew.
  - intros k e Hk. unfold get. rewrite Hk. unfold isExpired, expires. rewrite Hpol. cbn [andb fst inner set_field].
    apply mset_new. unfold mhas. by rewrite mget_mdel_eq.
Qed.

(** ** Witnesses *)

Definition exOptions : BoundedMapOptions Z := mkOptions 2 lru 0 (fun v _ _ => v <? 10) 60000.
Definition exLru : BoundedMapOptions Z := mkOptions 2 lru 0 evictAny 60000.

Definition exMap (o : BoundedMapOptions Z) (v1 v2 : Z) : BMap Z :=
  set o "b" v2 2 (set o "a" v1 1 newMap).

Lemma bounded_map_set_witness :
  size (set exOptions "c" 30 3 (exMap exOptions 10 20)) = 3 /\
  mget "a" (inner (set exOptions "c" 30 3 (exMap exOptions 10 20))) = Some (mkEntry 10 1).
Proof.
  split; [vm_compute; reflexivity|].
  refine (proj1 (proj2 (bounded_map_set exOptions "c" 30 3 (exMap exOptions 10 20) _ _ _)) "a" (mkEntry 10 1) _ _ _);
    [apply (bool_decide_unpack _); vm_compute; exact I|vm_compute..]; done.
Defined.

Lemma lru_order_witness :
  inner (set exLru "c" 30 3 (get exLru "a" 3 (exMap exLru 1 2)).1) = [("a", mkEntry 1 1); ("c", mkEntry 30 3)]%string.
Proof.
  refine (proj1 (lru_order exLru "c" 30 3 (get exLru "a" 3 (exMap exLru 1 2)).1 "b" (mkEntry 2 2)
    [("a"%string, mkEntry 1 1)] _ _ _ _ _ _)); [done|done|vm_compute; reflexivity| |vm_compute; reflexivity|vm_compute; reflexivity].
  apply (bool_decide_unpack _). vm_compute. exact I.
Defined.
