(* ===== verification/AccountBuckets.v ===== *)
(** * Saturation buckets: [src/lib/quota/accountBuckets.ts]

    One bucket per connection and quota window, stored only while the window is
    saturated, in a bounded map that protects live entries.  A read past the
    reset of a window clears it. *)
From Stdlib Require Import String Ascii.
From S2P Require Import Prelude JsMap JsNumber JsString BoundedMap.

#[local] Open Scope Z_scope.

Record BucketEntry := mkBucket { saturated : bool; resetsAtMs : Z }.

(** [used] may be any value; [resetAt] is the string's [Date.parse]: [None] for a
    null or an empty string, [Some None] for an invalid date. *)
Record UsageQuotaSlim := mkQuota { used : jsval; resetAt : option (option Z) }.

Definition SATURATION_THRESHOLD_PCT : Z := 100.
Definition ACCOUNT_BUCKETS_SOFT_CAP : Z := 4096.

Definition staleBucket (e : BucketEntry) (_ : string) (nowMs : Z) : bool :=
  (resetsAtMs e >? 0) && (nowMs >=? resetsAtMs e).

Definition bucketOptions : BoundedMapOptions BucketEntry :=
  mkOptions ACCOUNT_BUCKETS_SOFT_CAP lru 0 staleBucket DEFAULT_LOG_INTERVAL_MS.

Definition Buckets := BMap BucketEntry.

Definition noBuckets : Buckets := newMap.

Definition storeKey (connectionId windowKey : string) : string := connectionId +:+ "::" +:+ windowKey.

Definition parseResetAtMs (r : option (option Z)) : Z :=
  match r with
  | Some (Some ms) => if ms >? 0 then ms else 0
  | _ => 0
  end.

Definition isBucketSaturated (connectionId windowKey : string) (nowMs : Z) (b : Buckets) : Buckets * bool :=
  if isEmpty connectionId || isEmpty windowKey then (b, false)
  else
    let key := storeKey connectionId windowKey in
    match get bucketOptions key nowMs b with
    | (b, None) => (b, false)
    | (b, Some e) =>
        if (resetsAtMs e >? 0) && (nowMs >=? resetsAtMs e) then ((delete key b).1, false)
        else (b, saturated e)
    end.

(** [Number.isFinite(usedPct) && usedPct >= 100]. *)
Definition reachesThreshold (usedPct : double) : bool :=
  match usedPct with
  | SpecFloat.S754_zero _ | SpecFloat.S754_finite _ _ _ => dLe (dOfZ SATURATION_THRESHOLD_PCT) usedPct
  | _ => false
  end.

Definition recordUsage (connectionId windowKey : string) (usedPct : double) (reset : option (option Z))
    (nowMs : Z) (b : Buckets) : Buckets :=
  if isEmpty connectionId || isEmpty windowKey then b
  else
    let key := storeKey connectionId windowKey in
    let resetsAt := parseResetAtMs reset in
    if (resetsAt >? 0) && (nowMs >=? resetsAt) then (delete key b).1
    else if negb (reachesThreshold usedPct) then (delete key b).1
    else set bucketOptions key (mkBucket true resetsAt) nowMs b.

Definition processQuotaEntry (connectionId windowKey : string) (e : option UsageQuotaSlim) (nowMs : Z)
    (b : Buckets) : Buckets :=
  match e with
  | Some q =>
      match used q with
      | JNumber u => recordUsage connectionId windowKey u (resetAt q) nowMs b
      | _ => b
      end
  | None => b
  end.

(** [/^weekly (.+) \(7d\)$/] : the model between the prefix and the suffix. *)
Definition stripPrefix (p s : string) : option string :=
  if String.prefix p s then Some (String.substring (String.length p) (String.length s - String.length p) s) else None.

Definition stripSuffix (p s : string) : option string :=
  let n := (String.length s - String.length p)%nat in
  if (String.length p <=? String.length s)%nat && String.eqb (String.substring n (String.length p) s) p
  then Some (String.substring 0 n s) else None.

Definition isLineBreak (c : ascii) : bool := (N_of_ascii c =? 10)%N || (N_of_ascii c =? 13)%N.

Definition weeklyModel (key : string) : option string :=
  match stripPrefix "weekly " key ≫= stripSuffix " (7d)" with
  | Some m => if isEmpty m || existsb isLineBreak (String.list_ascii_of_string m) then None else Some m
  | None => None
  end.

Definition updateAccountBuckets (connectionId : string) (quotas : option (jsmap string (option UsageQuotaSlim)))
    (nowMs : Z) (b : Buckets) : Buckets :=
  match quotas with
  | None => b
  | Some quotas =>
      if isEmpty connectionId then b
      else
        let b := processQuotaEntry connectionId "5h" (mjoin (mget "session (5h)"%string quotas)) nowMs b in
        let b := processQuotaEntry connectionId "7d" (mjoin (mget "weekly (7d)"%string quotas)) nowMs b in
        foldl (fun b '(key, e) =>
          match weeklyModel key with
          | Some m => processQuotaEntry connectionId ("7d:" +:+ m) e nowMs b
          | None => b
          end) b quotas
  end.

Example ex_weekly : weeklyModel "weekly designer (7d)" = Some "designer"%string.
Proof. reflexivity. Qed.

(** ** Histories of the store *)

Inductive bucketOp :=
| BRead (connectionId windowKey : string) (nowMs : Z)
| BRecord (connectionId windowKey : string) (usedPct : double) (reset : option (option Z)) (nowMs : Z).

Definition applyBucketOp (b : Buckets) (o : bucketOp) : Buckets :=
  match o with
  | BRead c w t => (isBucketSaturated c w t b).1
  | BRecord c w u r t => recordUsage c w u r t b
  end.

Definition opTime (o : bucketOp) : Z := match o with BRead _ _ t | BRecord _ _ _ _ t => t end.

(** The operation does not record the bucket [key]. *)
Definition otherKey (key : string) (o : bucketOp) : Prop :=
  match o with BRead _ _ _ => True | BRecord c w _ _ _ => storeKey c w <> key end.

Section Facts.
Implicit Types (b : Buckets).

Lemma noExpiry e t : isExpired bucketOptions e t = false.
Proof. done. Qed.

(** A bucket that is not past its reset survives every operation on others. *)
Lemma applyBucketOp_keeps key e b o :
  mwf (inner b) -> mget key (inner b) = Some e -> otherKey key o ->
  staleBucket (value e) key (opTime o) = false ->
  mwf (inner (applyBucketOp b o)) /\ mget key (inner (applyBucketOp b o)) = Some e.
Proof.
  intros Hwf Hk Ho Hlive. destruct o as [c w t|c w u r t]; simpl in *.
  - unfold isBucketSaturated. case_if; [done|].
    pose proof (mwf_get bucketOptions (storeKey c w) t b Hwf) as Hwf1.
    pose proof (get_keeps bucketOptions key (storeKey c w) e t b Hwf Hk (noExpiry e t)) as Hk1.
    assert (key = storeKey c w -> (get bucketOptions (storeKey c w) t b).2 = Some (value e)) as Hv
      by (intros <-; unfold get; by rewrite Hk).
    destruct (get bucketOptions (storeKey c w) t b) as [b1 [e1|]]; cbn [fst snd] in *; [|done].
    destruct ((resetsAtMs e1 >? 0) && (t >=? resetsAtMs e1)) eqn:Hx; [|done]. simpl.
    split; [by apply mwf_mdel|]. rewrite mget_mdel_ne; [done|]. intros Heq. specialize (Hv Heq). simplify_eq.
    unfold staleBucket in Hlive. congruence.
  - unfold recordUsage. case_if; [done|].
    assert (mwf (inner (delete (storeKey c w) b).1) /\ mget key (inner (delete (storeKey c w) b).1) = Some e) as Hdel.
    { split; [by apply mwf_mdel|]. simpl. rewrite mget_mdel_ne; [done|]. intros ->. by apply Ho. }
    case_if; [done|]. case_if; [done|]. split; [by apply mwf_set|]. by apply set_keeps.
Qed.

(** What a read of a stored entry reports. *)
Definition bucketAnswer (nowMs : Z) (e : option (Entry BucketEntry)) : bool :=
  match e with
  | Some e => negb (staleBucket (value e) "" nowMs) && saturated (value e)
  | None => false
  end.

Lemma isBucketSaturated_value c w t b :
  (isBucketSaturated c w t b).2 =
  negb (isEmpty c || isEmpty w) && bucketAnswer t (mget (storeKey c w) (inner b)).
Proof.
  unfold isBucketSaturated. case_if; [done|]. unfold get, bucketAnswer, staleBucket.
  destruct (mget (storeKey c w) (inner b)) as [e|]; [|done]. rewrite noExpiry. simpl. by case_if.
Qed.

(** A read changes no later answer at the same time. *)
Lemma isBucketSaturated_frame c w t b :
  mwf (inner b) -> mwf (inner (isBucketSaturated c w t b).1) /\
  forall k, bucketAnswer t (mget k (inner (isBucketSaturated c w t b).1)) = bucketAnswer t (mget k (inner b)).
Proof.
  intros Hwf. unfold isBucketSaturated. case_if; [done|]. unfold get.
  destruct (mget (storeKey c w) (inner b)) as [e|] eqn:He; [|done]. rewrite noExpiry. cbn [policy bucketOptions].
  set (b1 := b <| inner := _ |>).
  assert (mwf (inner b1) /\ forall k, mget k (inner b1) = mget k (inner b)) as [Hwf1 Hk].
  { subst b1. simpl. split; [by apply mwf_mset, mwf_mdel|]. intros k. rewrite mget_mset, mget_mdel by done.
    case_decide; congruence. }
  destruct ((resetsAtMs (value e) >? 0) && (t >=? resetsAtMs (value e))) eqn:Hx; cbn [fst]; [|split; [done|intros; by rewrite Hk]].
  simpl. split; [by apply mwf_mdel|]. intros k. change (mset (storeKey c w) e (mdel (storeKey c w) (inner b))) with (inner b1).
  rewrite mget_mdel by done. case_decide as Hd; [|by rewrite Hk]. subst k. rewrite He. simpl. unfold staleBucket. by rewrite Hx.
Qed.
End Facts.

(** ** Properties *)

(** Saturation is never forgotten.  A bucket that was recorded as saturated is
    still reported as saturated at every later read before its reset (at every
    later read, if the reset is unknown), whatever other buckets are read or
    recorded meanwhile and however many there are; and once the reset has passed
    a read reports it as free. *)
Theorem saturation_not_forgotten connectionId windowKey usedPct reset t0 b ops t :
  isEmpty connectionId = false -> isEmpty windowKey = false -> mwf (inner b) ->
  reachesThreshold usedPct = true ->
  let key := storeKey connectionId windowKey in
  let resets := parseResetAtMs reset in
  Forall (fun o => otherKey key o /\ (resets = 0 \/ opTime o < resets)) ops ->
  resets = 0 \/ t0 < resets ->
  let b' := foldl applyBucketOp (recordUsage connectionId windowKey usedPct reset t0 b) ops in
  ((resets = 0 \/ t < resets) -> (isBucketSaturated connectionId windowKey t b').2 = true) /\
  (0 < resets <= t -> (isBucketSaturated connectionId windowKey t b').2 = false).
Proof.
  intros Hc Hw Hwf Hu key resets Hops H0. cbv zeta.
  assert (forall t', resets = 0 \/ t' < resets -> (resets >? 0) && (t' >=? resets) = false) as Hlive.
  { intros t' Ht. apply andb_false_iff. rewrite Z.gtb_ltb, Z.geb_leb, Z.ltb_ge, Z.leb_gt. lia. }
  set (e := BoundedMap.mkEntry (mkBucket true resets) t0).
  assert (mwf (inner (recordUsage connectionId windowKey usedPct reset t0 b)) /\
          mget key (inner (recordUsage connectionId windowKey usedPct reset t0 b)) = Some e) as [Hwf1 Hk1].
  { unfold recordUsage. rewrite Hc, Hw, Hu. cbn [orb negb]. fold resets. rewrite (Hlive t0 H0).
    split; [by apply mwf_set|]. unfold set. apply mget_mset_eq. }
  assert (mget key (inner (foldl applyBucketOp (recordUsage connectionId windowKey usedPct reset t0 b) ops)) = Some e) as Hk.
  { revert Hwf1 Hk1. generalize (recordUsage connectionId windowKey usedPct reset t0 b).
    induction Hops as [|op ops [Ho Ht] Hops IH]; intros b0 Hwf0 Hk0; simpl; [done|].
    destruct (applyBucketOp_keeps key e b0 op) as [Hw2 Hk2]; try done; [by apply Hlive|]. by apply IH. }
  unfold isBucketSaturated. rewrite Hc, Hw. cbn [orb]. fold key. unfold get. rewrite Hk, noExpiry. simpl.
  split; intros Ht; [by rewrite Hlive|].
  replace ((resets >? 0) && (t >=? resets)) with true; [done|]. symmetry.
  apply andb_true_iff. rewrite Z.gtb_ltb, Z.geb_leb, Z.ltb_lt, Z.leb_le. lia.
Qed.

Lemma saturation_not_forgotten_witness :
  (isBucketSaturated "c1" "5h" 900
    (foldl applyBucketOp (recordUsage "c1" "5h" (dOfZ 100) (Some (Some 1000)) 0 noBuckets)
      [BRecord "c2" "5h" (dOfZ 100) None 100])).2 = true.
Proof.
  refine (proj1 (saturation_not_forgotten "c1" "5h" (dOfZ 100) (Some (Some 1000)) 0 noBuckets
    [BRecord "c2" "5h" (dOfZ 100) None 100] 900 eq_refl eq_refl mwf_nil _ _ _) _);
    [vm_compute; reflexivity| |right; vm_compute; reflexivity|right; vm_compute; reflexivity].
  apply Forall_cons. split; [|constructor]. split; [vm_compute; discriminate|right; vm_compute; reflexivity].
Defined.
