(* ===== verification/QuotaInflight.v ===== *)
(** * In-flight counters: [open-sse/services/combo/quotaShareInflight.ts]

    Each request in flight on a connection is a lease, an expiry time in the
    connection's list; the count of a connection is the length of that list after
    the expired leases are dropped.  A release does not say which lease it ends,
    and the theorems say how far that inference can be trusted. *)
From S2P Require Import Prelude JsMap.

Definition DEFAULT_LEASE_MS : Z := 120000.
Definition MAX_LEASES_PER_CONNECTION : nat := 4096.

Abbreviation Inflight := (jsmap string (list Z)).

Definition liveLeases (nowMs : Z) (leases : list Z) : list Z := base.filter (fun e => nowMs < e) leases.

(** [retireExpired] on every slot, dropping the empty ones. *)
Definition pruneExpired (nowMs : Z) (m : Inflight) : Inflight :=
  base.filter (fun kl => kl.2 <> []) ((fun '(k, l) => (k, liveLeases nowMs l)) <$> m).

Definition incrementInflight (connectionId : string) (leaseMs nowMs : Z) (m : Inflight) : Inflight * Z :=
  if bool_decide (connectionId = ""%string) then (m, 0)
  else
    let m := pruneExpired nowMs m in
    let leases := orElse (mget connectionId m) [] ++ [nowMs + leaseMs] in
    let leases := if (MAX_LEASES_PER_CONNECTION <? length leases)%nat then tail leases else leases in
    (mset connectionId leases m, Z.of_nat (length leases)).

(** [lastIndexWhere]; [None] is -1. *)
Fixpoint lastIndexWhere (p : Z -> bool) (l : list Z) : option nat :=
  match l with
  | [] => None
  | x :: l =>
      match lastIndexWhere p l with
      | Some i => Some (S i)
      | None => if p x then Some 0%nat else None
      end
  end.

(** [leases.splice(i, 1)]. *)
Definition spliceOne (i : nat) (l : list Z) : list Z := firstn i l ++ skipn (S i) l.

(** [leases.pop()]. *)
Definition popLast (l : list Z) : list Z := removelast l.

Definition retireOne (nowMs : Z) (leases : list Z) : list Z :=
  match lastIndexWhere (fun e => e <=? nowMs) leases with
  | Some i => spliceOne i leases
  | None => popLast leases
  end.

Definition decrementInflight (connectionId : string) (nowMs : Z) (m : Inflight) : Inflight :=
  if bool_decide (connectionId = ""%string) then m
  else
    match mget connectionId m with
    | None => m
    | Some leases =>
        match liveLeases nowMs (retireOne nowMs leases) with
        | [] => mdel connectionId m
        | leases => mset connectionId leases m
        end
    end.

(** The slot keeps its key even when its last lease expired. *)
Definition getInflight (connectionId : string) (nowMs : Z) (m : Inflight) : Inflight * Z :=
  if bool_decide (connectionId = ""%string) then (m, 0)
  else
    match mget connectionId m with
    | None => (m, 0)
    | Some leases => let l := liveLeases nowMs leases in (mset connectionId l m, Z.of_nat (length l))
    end.

(** ** What is recorded for a connection *)

Section Counts.
Implicit Types (m : Inflight) (c : string).

Definition leasesOf c m : list Z := orElse (mget c m) [].

(** The count a read at [nowMs] reports. *)
Definition countOf c nowMs m : nat := length (liveLeases nowMs (leasesOf c m)).

Lemma getInflight_value c nowMs m : c <> ""%string -> (getInflight c nowMs m).2 = Z.of_nat (countOf c nowMs m).
Proof.
  intros Hc. unfold getInflight, countOf, leasesOf. rewrite bool_decide_false by done. by destruct (mget c m).
Qed.

Lemma liveLeases_app t l1 l2 : liveLeases t (l1 ++ l2) = liveLeases t l1 ++ liveLeases t l2.
Proof. apply filter_app. Qed.

Lemma liveLeases_later t t' l : t <= t' -> liveLeases t' (liveLeases t l) = liveLeases t' l.
Proof.
  intros Hle. unfold liveLeases. rewrite list_filter_filter. apply filter_ext_elem. intros x _. lia.
Qed.

Lemma mwf_prune t m : mwf m -> mwf (pruneExpired t m).
Proof.
  intros Hwf. unfold pruneExpired. eapply mwf_sublist; [apply sublist_filter|].
  unfold mwf, mkeys in *. rewrite <- list_fmap_compose.
  rewrite (list_fmap_ext _ fst); [done|]. by intros ? [? ?] ?.
Qed.

Lemma leasesOf_prune c t m : mwf m -> leasesOf c (pruneExpired t m) = liveLeases t (leasesOf c m).
Proof.
  unfold leasesOf, pruneExpired. induction m as [|[k l] m IH]; intros Hwf; [done|].
  apply NoDup_cons in Hwf as [Hni Hwf]. specialize (IH Hwf). cbn [fst] in Hni.
  rewrite fmap_cons, filter_cons. cbn [snd]. simpl mget. destruct (decide (c = k)) as [->|Hne].
  - assert (mget k (base.filter (fun kl => kl.2 <> []) ((fun '(k, l) => (k, liveLeases t l)) <$> m)) = None) as Hn.
    { apply mget_None. intros Hin. apply Hni. unfold mkeys in *.
      apply list_elem_of_fmap in Hin as ([k' l'] & -> & Hin). apply list_elem_of_filter in Hin as [_ Hin].
      apply list_elem_of_fmap in Hin as ([k2 l2] & [= -> ->] & Hin). by apply (list_elem_of_fmap_2 fst m (k2, l2)). }
    destruct (decide (liveLeases t l <> [])) as [Hl|Hl]; simpl.
    + by rewrite decide_True.
    + change (list (string * list Z)) with (jsmap string (list Z)) in *. rewrite Hn. simpl.
      destruct (liveLeases t l); [done|]. exfalso. by apply Hl.
  - destruct (decide (liveLeases t l <> [])) as [Hl|Hl]; simpl; [by rewrite decide_False|done].
Qed.
End Counts.

(** ** Histories *)

Inductive inflightOp := IInc (c : string) (t : Z) | IDec (c : string) (t : Z) | IGet (c : string) (t : Z).

(** Production calls use the default lease. *)
Definition applyInflight (m : Inflight) (o : inflightOp) : Inflight :=
  match o with
  | IInc c t => (incrementInflight c DEFAULT_LEASE_MS t m).1
  | IDec c t => decrementInflight c t m
  | IGet c t => (getInflight c t m).1
  end.

Definition inflightTime (o : inflightOp) : Z := match o with IInc _ t | IDec _ t | IGet _ t => t end.

(** The expiries of the increments of [c], and the numbers of its increments and
    decrements. *)
Definition expiries (c : string) (ops : list inflightOp) : list Z :=
  omap (fun o => match o with IInc c' t => if decide (c' = c) then Some (t + DEFAULT_LEASE_MS) else None
                            | _ => None end) ops.

Definition incs (c : string) (ops : list inflightOp) : nat := length (expiries c ops).

Definition isDec (c : string) (o : inflightOp) : bool :=
  match o with IDec c' _ => bool_decide (c' = c) | _ => false end.

Definition decs (c : string) (ops : list inflightOp) : nat := length (base.filter (fun o => isDec c o = true) ops).

Section Histories.
Implicit Types (m : Inflight) (c : string) (ops : list inflightOp).

Lemma spliceOne_sublist i l : sublist (spliceOne i l) l.
Proof.
  unfold spliceOne. revert i. induction l as [|x l IH]; intros [|i]; simpl; [done|done|by constructor|].
  constructor. apply IH.
Qed.

Lemma popLast_sublist l : sublist (popLast l) l.
Proof.
  unfold popLast. induction l as [|x [|y l] IH]; [done|by constructor|].
  change (removelast (x :: y :: l)) with (x :: removelast (y :: l)). by constructor.
Qed.

Lemma retireOne_sublist t l : sublist (retireOne t l) l.
Proof. unfold retireOne. destruct (lastIndexWhere _ l); [apply spliceOne_sublist|apply popLast_sublist]. Qed.

Lemma live_sublist t l : sublist (liveLeases t l) l.
Proof. apply sublist_filter. Qed.

Lemma leasesOf_mset c c' l m : leasesOf c (mset c' l m) = if decide (c = c') then l else leasesOf c m.
Proof. unfold leasesOf. rewrite mget_mset. by case_decide. Qed.

Lemma leasesOf_mdel c c' m : mwf m -> leasesOf c (mdel c' m) = if decide (c = c') then [] else leasesOf c m.
Proof. intros Hwf. unfold leasesOf. rewrite mget_mdel by done. by case_decide. Qed.

Lemma increment_leases c c' t m :
  c <> ""%string -> mwf m -> let m' := (incrementInflight c DEFAULT_LEASE_MS t m).1 in
  mwf m' /\ leasesOf c' m' =
    if decide (c' = c) then
      let l := liveLeases t (leasesOf c m) ++ [t + DEFAULT_LEASE_MS] in
      if (MAX_LEASES_PER_CONNECTION <? length l)%nat then tail l else l
    else liveLeases t (leasesOf c' m).
Proof.
  intros Hc Hwf. unfold incrementInflight. rewrite bool_decide_false by done. cbn [fst].
  split; [by apply mwf_mset, mwf_prune|]. rewrite leasesOf_mset.
  change (orElse (mget c (pruneExpired t m)) []) with (leasesOf c (pruneExpired t m)).
  by rewrite !leasesOf_prune.
Qed.

Lemma decrement_leases c c' t m :
  c <> ""%string -> mwf m -> let m' := decrementInflight c t m in
  mwf m' /\ leasesOf c' m' =
    if decide (c' = c) then liveLeases t (retireOne t (leasesOf c m)) else leasesOf c' m.
Proof.
  intros Hc Hwf. unfold decrementInflight. rewrite bool_decide_false by done. unfold leasesOf at 2.
  destruct (mget c m) as [l|] eqn:Hl; simpl.
  - destruct (liveLeases t (retireOne t l)) as [|x l'] eqn:Hr; simpl.
    + split; [by apply mwf_mdel|]. by rewrite leasesOf_mdel.
    + split; [by apply mwf_mset|]. apply leasesOf_mset.
  - split; [done|]. case_decide; [|done]. subst. unfold leasesOf. by rewrite Hl.
Qed.

Lemma get_leases c c' t m :
  c <> ""%string -> mwf m -> let m' := (getInflight c t m).1 in
  mwf m' /\ leasesOf c' m' = if decide (c' = c) then liveLeases t (leasesOf c m) else leasesOf c' m.
Proof.
  intros Hc Hwf. unfold getInflight. rewrite bool_decide_false by done. unfold leasesOf at 2.
  destruct (mget c m) as [l|] eqn:Hl; simpl.
  - split; [by apply mwf_mset|]. apply leasesOf_mset.
  - split; [done|]. case_decide; [|done]. subst. unfold leasesOf. by rewrite Hl.
Qed.

Lemma apply_empty m o : match o with IInc c _ | IDec c _ | IGet c _ => c = ""%string end -> applyInflight m o = m.
Proof. destruct o; intros ->; done. Qed.

Lemma expiries_app c l1 l2 : expiries c (l1 ++ l2) = expiries c l1 ++ expiries c l2.
Proof. apply omap_app. Qed.

Lemma sublist_tail {A} (l : list A) : sublist (tail l) l.
Proof. destruct l; [done|by constructor]. Qed.

Lemma apply_sublist c m o l :
  c <> ""%string -> mwf m -> sublist (leasesOf c m) l ->
  mwf (applyInflight m o) /\ sublist (leasesOf c (applyInflight m o)) (l ++ expiries c [o]).
Proof.
  intros Hc Hwf Hs. assert (forall l', sublist l' (leasesOf c m) -> sublist l' (l ++ expiries c [o])) as Hless.
  { intros l' H. etrans; [exact H|]. etrans; [exact Hs|]. by apply sublist_inserts_r. }
  destruct (decide (match o with IInc c _ | IDec c _ | IGet c _ => c end = ""%string)) as [He|He].
  { rewrite apply_empty by (destruct o; done). auto. }
  destruct o as [c' t|c' t|c' t]; simpl in He |- *.
  - destruct (increment_leases c' c t m He Hwf) as [W L]. split; [exact W|]. rewrite L. case_decide.
    + subst. cbn. rewrite decide_True by done. cbn.
      assert (sublist (liveLeases t (leasesOf c' m) ++ [t + DEFAULT_LEASE_MS]) (l ++ [t + DEFAULT_LEASE_MS])).
      { apply sublist_app; [|done]. etrans; [apply live_sublist|done]. }
      case_if; [|done]. etrans; [apply sublist_tail|done].
    + apply Hless, live_sublist.
  - destruct (decrement_leases c' c t m He Hwf) as [W L]. split; [exact W|]. rewrite L. case_decide; [|by apply Hless].
    subst. apply Hless. etrans; [apply live_sublist|apply retireOne_sublist].
  - destruct (get_leases c' c t m He Hwf) as [W L]. split; [exact W|]. rewrite L. case_decide; [|by apply Hless].
    subst. apply Hless, live_sublist.
Qed.

(** Nothing is expired: the leases are all later than every operation. *)
Lemma live_all t now l : t <= now -> Forall (fun e => now < e) l -> liveLeases t l = l.
Proof. intros Hle Hl. apply filter_id. intros x Hx. rewrite Forall_forall in Hl. specialize (Hl x Hx). lia. Qed.

Lemma lastIndexWhere_none p l : Forall (fun x => p x = false) l -> lastIndexWhere p l = None.
Proof. induction 1 as [|x l Hx Hl IH]; simpl; [done|]. by rewrite IH, Hx. Qed.

Lemma retireOne_live t now l : t <= now -> Forall (fun e => now < e) l -> retireOne t l = popLast l.
Proof.
  intros Hle Hl. unfold retireOne. rewrite lastIndexWhere_none; [done|].
  eapply Forall_impl; [exact Hl|]. simpl. intros x Hx. apply Z.leb_gt. lia.
Qed.

Lemma popLast_length l : length (popLast l) = (length l - 1)%nat.
Proof.
  unfold popLast. induction l as [|x [|y l] IH]; [done|done|].
  change (removelast (x :: y :: l)) with (x :: removelast (y :: l)). simpl in *. lia.
Qed.

Lemma popLast_Forall (P : Z -> Prop) l : Forall P l -> Forall P (popLast l).
Proof.
  rewrite !Forall_forall. intros H x Hx. apply H. eapply elem_of_sublist; [exact Hx|apply popLast_sublist].
Qed.

Lemma decs_app c l1 l2 : decs c (l1 ++ l2) = (decs c l1 + decs c l2)%nat.
Proof. unfold decs. by rewrite filter_app, length_app. Qed.

Lemma incs_app c l1 l2 : incs c (l1 ++ l2) = (incs c l1 + incs c l2)%nat.
Proof. unfold incs. by rewrite expiries_app, length_app. Qed.

Lemma decs_one c o :
  decs c [o] = match o with IDec c' _ => if decide (c' = c) then 1%nat else 0%nat | _ => 0%nat end.
Proof.
  unfold decs. rewrite filter_cons, filter_nil. destruct o as [c' t|c' t|c' t]; simpl; try done.
  destruct (decide (c' = c)); [by rewrite bool_decide_true|by rewrite bool_decide_false].
Qed.

Lemma incs_one c o :
  incs c [o] = match o with IInc c' _ => if decide (c' = c) then 1%nat else 0%nat | _ => 0%nat end.
Proof. unfold incs, expiries. destruct o as [c' t|c' t|c' t]; simpl; [by case_decide|done..]. Qed.

(** The counter of [c] is exact while nothing of it expires. *)
Definition Exact now c ops m : Prop :=
  mwf m /\ Forall (fun e => now < e) (leasesOf c m) /\ (length (leasesOf c m) + decs c ops = incs c ops)%nat.

Lemma Exact_step now c ops m o :
  c <> ""%string -> Exact now c ops m -> inflightTime o <= now -> Forall (fun e => now < e) (expiries c [o]) ->
  (decs c (ops ++ [o]) <= incs c (ops ++ [o]))%nat -> (incs c (ops ++ [o]) <= MAX_LEASES_PER_CONNECTION)%nat ->
  Exact now c (ops ++ [o]) (applyInflight m o).
Proof.
  intros Hc (Hwf & Hl & Hn) Ht He Hle Hmax. unfold Exact. rewrite decs_app, incs_app, decs_one, incs_one in *.
  destruct (decide (match o with IInc c _ | IDec c _ | IGet c _ => c end = ""%string)) as [He0|He0].
  { rewrite apply_empty by (destruct o; done). split_and!; [done|done|].
    destruct o; simpl in He0; subst; try (rewrite decide_False by congruence); lia. }
  destruct o as [c' t|c' t|c' t]; simpl in He0, Ht |- *.
  - destruct (increment_leases c' c t m He0 Hwf) as [W L]. split; [exact W|]. rewrite L.
    destruct (decide (c = c')) as [<-|Hne]; [rewrite decide_True in * by done|rewrite (decide_False (P := c' = c)) in * by congruence].
    + rewrite (live_all t now) by done. cbv zeta. rewrite length_app. cbn [length].
      rewrite (proj2 (Nat.ltb_ge _ _)) by lia. unfold expiries in He. simpl in He. rewrite decide_True in He by done.
      split; [by apply Forall_app|]. rewrite length_app. simpl. lia.
    + rewrite (live_all t now) by done. split; [done|lia].
  - destruct (decrement_leases c' c t m He0 Hwf) as [W L]. split; [exact W|]. rewrite L.
    destruct (decide (c = c')) as [<-|Hne]; [rewrite decide_True in * by done|rewrite (decide_False (P := c' = c)) in * by congruence; split; [done|lia]].
    rewrite (retireOne_live t now), (live_all t now) by (done || by apply popLast_Forall).
    split; [by apply popLast_Forall|]. rewrite popLast_length. lia.
  - destruct (get_leases c' c t m He0 Hwf) as [W L]. split; [exact W|]. rewrite L.
    case_decide; [subst; rewrite (live_all t now) by done|]; (split; [done|lia]).
Qed.
End Histories.

(** ** Properties *)

(** A lost release cannot inflate a counter for long.  Whatever sequence of
    increments, decrements and reads happened, the count of a connection at any
    time is at most the number of its increments of the last lease period. *)
Theorem inflight_leak_bounded c ops now :
  c <> ""%string ->
  (getInflight c now (foldl applyInflight [] ops)).2 <=
  Z.of_nat (length (base.filter (fun e => now < e) (expiries c ops))).
Proof.
  intros Hc. rewrite getInflight_value by done. apply inj_le.
  assert (mwf (foldl applyInflight [] ops) /\ sublist (leasesOf c (foldl applyInflight [] ops)) (expiries c ops)) as [_ Hs].
  { induction ops as [|o ops IH] using rev_ind; [split; [apply mwf_nil|done]|].
    rewrite foldl_app, expiries_app. destruct IH. by apply apply_sublist. }
  unfold countOf, liveLeases. by apply sublist_length, sublist_filter_mono.
Qed.

(** The counter is exact in time.  If no lease of a connection has expired by
    [now] and no more of its requests were released than were started, the count
    at [now] is the number of started minus released requests. *)
Theorem inflight_exact c ops now :
  c <> ""%string -> Forall (fun o => inflightTime o <= now) ops -> Forall (fun e => now < e) (expiries c ops) ->
  (forall k, decs c (take k ops) <= incs c (take k ops))%nat -> (incs c ops <= MAX_LEASES_PER_CONNECTION)%nat ->
  (getInflight c now (foldl applyInflight [] ops)).2 = Z.of_nat (incs c ops) - Z.of_nat (decs c ops).
Proof.
  intros Hc Ht He Hpre Hmax. rewrite getInflight_value by done.
  assert (Exact now c ops (foldl applyInflight [] ops)) as (_ & Hl & Hn).
  { induction ops as [|o ops IH] using rev_ind; [split; [apply mwf_nil|done]|].
    rewrite foldl_app. apply Forall_app in Ht as [Ht Hto]. rewrite expiries_app in He. apply Forall_app in He as [He Heo].
    apply Exact_step; [done| |by apply Forall_cons_1 in Hto as [? _]|done| |done].
    - apply IH; [done|done| |rewrite incs_app in Hmax; lia].
      intros k. destruct (decide (k <= length ops)%nat) as [Hk|Hk].
      + specialize (Hpre k). by rewrite take_app_le in Hpre.
      + specialize (Hpre (length ops)). rewrite take_app_length in Hpre. rewrite take_ge by lia. done.
    - specialize (Hpre (length (ops ++ [o]))). by rewrite take_ge in Hpre by lia. }
  unfold countOf. rewrite (live_all now now) by (done || lia). lia.
Qed.

(** ** Witnesses *)

Definition exOps : list inflightOp := [IInc "c1" 0; IInc "c1" 10; IDec "c1" 500; IInc "c2" 600]%string.

Lemma inflight_leak_bounded_witness :
  (getInflight "c1" 120005 (foldl applyInflight [] exOps)).2 <=
  Z.of_nat (length (base.filter (fun e => 120005 < e) (expiries "c1" exOps))).
Proof. apply inflight_leak_bounded. discriminate. Defined.

Lemma inflight_exact_witness : (getInflight "c1" 700 (foldl applyInflight [] exOps)).2 = 1.
Proof.
  refine (inflight_exact "c1" exOps 700 _ _ _ _ _).
  - discriminate.
  - repeat constructor; vm_compute; discriminate.
  - repeat constructor; vm_compute; reflexivity.
  - intros k. destruct k as [|[|[|[|k]]]]; [..|rewrite take_ge by (simpl; lia)]; vm_compute; lia.
  - apply Nat.leb_le. vm_compute. reflexivity.
Defined.

(** ** Findings *)

(** A request that settles after its lease has expired and been pruned takes the
    lease of another request: the connection counts as idle while one runs. *)
Lemma late_release_takes_neighbour :
  let m := foldl applyInflight [] [IInc "c1" 0; IInc "c1" 121000]%string in
  (getInflight "c1" 121500 m).2 = 1 /\
  (getInflight "c1" 121500 (applyInflight m (IDec "c1" 121400))).2 = 0.
Proof. vm_compute. done. Qed.
