(* ===== verification/QuotaShare.v ===== *)
(** * Quota-share selection: [open-sse/services/combo/quotaShareStrategy.ts]

    The selection demotes targets whose quota windows are saturated, then those at
    their concurrency cap, shares the rest by deficit round robin, and settles the
    choice between the two best by their load.  Numbers are abstract ([Num]): the
    selection runs on doubles, and the proportionality theorem is about its
    instance at exact rationals. *)
From Stdlib Require Import QArith Lqa Setoid.
From Stdlib Require Import String.
From S2P Require Import Prelude JsMap JsNumber JsString BoundedMap AccountBuckets QuotaInflight.

#[local] Open Scope Z_scope.

(** The operations of [number] that the strategy uses. *)
Class Num (T : Type) := {
  nzero : T;
  none : T;
  nadd : T -> T -> T;
  nsub : T -> T -> T;
  ndiv : T -> T -> T;
  nltb : T -> T -> bool;
  nleb : T -> T -> bool;
  nisZero : T -> bool;
  nfinite : T -> bool;
  nofNat : nat -> T;
}.

#[export] Instance Num_double : Num double := {
  nzero := dOfZ 0;
  none := dOfZ 1;
  nadd := dAdd;
  nsub := dSub;
  ndiv := dDiv;
  nltb := dLt;
  nleb := dLe;
  nisZero := fun f => match f with SpecFloat.S754_zero _ => true | _ => false end;
  nfinite := fun f => match f with SpecFloat.S754_zero _ | SpecFloat.S754_finite _ _ _ => true | _ => false end;
  nofNat := fun n => dOfZ (Z.of_nat n);
}.

Definition Qltb (a b : Q) : bool := negb (Qle_bool b a).

#[export] Instance Num_Q : Num Q := {
  nzero := 0%Q;
  none := 1%Q;
  nadd := Qplus;
  nsub := Qminus;
  ndiv := Qdiv;
  nltb := Qltb;
  nleb := Qle_bool;
  nisZero := fun q => Qeq_bool q 0;
  nfinite := fun _ => true;
  nofNat := fun n => inject_Z (Z.of_nat n);
}.

#[export] Instance Q_eq_decision : EqDecision Q.
Proof. solve_decision. Defined.

#[export] Instance double_eq_decision : EqDecision double.
Proof. solve_decision. Defined.

(** What the strategy reads of a resolved target; [weight] [None] is undefined. *)
Record ComboTarget (T : Type) := mkTarget {
  executionKey : string;
  connectionId : option string;
  weight : option T;
}.
Arguments mkTarget {T}.
Arguments executionKey {T}.
Arguments connectionId {T}.
Arguments weight {T}.

Record QSState (T : Type) := mkQS {
  drr : jsmap string (jsmap string T);
  inflight : Inflight;
  buckets : Buckets;
  handles : list nat;
  nextHandle : nat;
}.
Arguments mkQS {T}.
Arguments drr {T}.
Arguments inflight {T}.
Arguments buckets {T}.
Arguments handles {T}.
Arguments nextHandle {T}.

#[export] Instance QSState_eta T : Eta (QSState T) := fun x =>
  mkQS (drr x) (inflight x) (buckets x) (handles x) (nextHandle x).

Definition MAX_DRR_COMBOS : Z := 200.

Section QuotaShare.
Context {T : Type} `{Num T} `{EqDecision T}.
Implicit Types (ts : list (ComboTarget T)) (t : ComboTarget T) (nowMs : Z).

#[export] Instance ComboTarget_eq_dec : EqDecision (ComboTarget T).
Proof. solve_decision. Defined.

Definition connOf t : string := orElse (connectionId t) ""%string.

(** ** Gating *)

(** [bareModelName]: what follows the first slash, if there is one. *)
Definition bareModelName (s : string) : string :=
  match String.index 0 "/" s with
  | Some i => String.substring (S i) (String.length s - S i) s
  | None => s
  end.

(** Short-circuit disjunction of the three windows. *)
Definition targetSaturated (modelName : string) nowMs t (b : Buckets) : Buckets * bool :=
  let c := connOf t in
  if isEmpty c then (b, false)
  else
    let '(b, s) := isBucketSaturated c "5h" nowMs b in
    if s then (b, true)
    else
      let '(b, s) := isBucketSaturated c "7d" nowMs b in
      if s then (b, true)
      else if isEmpty modelName then (b, false)
      else isBucketSaturated c ("7d:" +:+ modelName) nowMs b.

Fixpoint unsaturated (modelName : string) nowMs ts (b : Buckets) : Buckets * list (ComboTarget T) :=
  match ts with
  | [] => (b, [])
  | t :: ts =>
      let '(b, s) := targetSaturated modelName nowMs t b in
      let '(b, l) := unsaturated modelName nowMs ts b in
      (b, if s then l else t :: l)
  end.

Definition filterEligibleBySaturation ts (modelStr : string) nowMs (b : Buckets) : Buckets * list (ComboTarget T) :=
  let '(b, eligible) := unsaturated (bareModelName modelStr) nowMs ts b in
  (b, match eligible with [] => ts | _ => eligible end).

(** The caps: connection to [maxConcurrent], which may be null or not positive. *)
Definition Caps := jsmap string (option T).

Definition resolveConnectionCap (c : string) (caps : Caps) : option T :=
  if isEmpty c then None
  else
    match mjoin (mget c caps) with
    | Some cap => if negb (nfinite cap) || nleb cap nzero then None else Some cap
    | None => None
    end.

Fixpoint splitByCap (caps : Caps) nowMs ts (m : Inflight)
    : Inflight * list (ComboTarget T) * list (ComboTarget T) :=
  match ts with
  | [] => (m, [], [])
  | t :: ts =>
      match resolveConnectionCap (connOf t) caps with
      | None => let '(m, room, full) := splitByCap caps nowMs ts m in (m, t :: room, full)
      | Some cap =>
          let '(m, n) := getInflight (connOf t) nowMs m in
          let '(m, room, full) := splitByCap caps nowMs ts m in
          if nleb cap (nofNat (Z.to_nat n)) then (m, room, t :: full) else (m, t :: room, full)
      end
  end.

Definition partitionByConcurrencyCap ts (caps : option Caps) nowMs (m : Inflight)
    : Inflight * list (ComboTarget T) * list (ComboTarget T) :=
  match caps with
  | None | Some [] => (m, ts, [])
  | Some caps =>
      let '(m, room, full) := splitByCap caps nowMs ts m in
      match room with [] => (m, ts, []) | _ => (m, room, full) end
  end.

(** ** Deficit round robin *)

Definition getDrrDeficits (combo : string) (d : jsmap string (jsmap string T))
    : jsmap string (jsmap string T) * jsmap string T :=
  match mget combo d with
  | Some deficits => (d, deficits)
  | None =>
      let d := if msize d >=? MAX_DRR_COMBOS
               then match mfirst d with Some oldest => mdel oldest d | None => d end else d in
      (mset combo [] d, [])
  end.

Definition normalizeWeight (w : option T) : T :=
  match w with
  | Some w => if nisZero w then nzero else if nfinite w && nltb nzero w then w else none
  | None => none
  end.

Definition deficitOf (k : string) (deficits : jsmap string T) : T := orElse (mget k deficits) nzero.

Definition addQuantum (deficits : jsmap string T) (tq : ComboTarget T * T) : jsmap string T :=
  mset (executionKey tq.1) (nadd (deficitOf (executionKey tq.1) deficits) tq.2) deficits.

(** The quantum of each target. *)
Definition quanta ts : list T :=
  let weights := normalizeWeight ∘ weight <$> ts in
  let weightedTotal := foldl nadd nzero weights in
  let unweighted := nleb weightedTotal nzero in
  let totalWeight := if unweighted then nofNat (length ts) else weightedTotal in
  (fun w => ndiv (if unweighted then none else w) totalWeight) <$> weights.

(** The target with the largest deficit; ties keep the input order. *)
Definition pickLargest (deficits : jsmap string T) t0 ts : ComboTarget T * T :=
  foldl (fun '(winner, best) t =>
    let d := deficitOf (executionKey t) deficits in
    if nltb best d then (t, d) else (winner, best)) (t0, deficitOf (executionKey t0) deficits) ts.

Definition applyDrr ts (combo : string) (d : jsmap string (jsmap string T))
    : jsmap string (jsmap string T) * list (ComboTarget T) :=
  match ts with
  | [] | [_] => (d, ts)
  | t0 :: others =>
      let '(d, deficits) := getDrrDeficits combo d in
      let deficits := foldl addQuantum deficits (zip ts (quanta ts)) in
      let '(winner, best) := pickLargest deficits t0 others in
      let deficits := mset (executionKey winner) (nsub best none) deficits in
      (mset combo deficits d, winner :: base.filter (fun t => executionKey t <> executionKey winner) ts)
  end.

(** ** Selection *)

(** Whether the runner-up is less loaded. *)
Definition pickByInflightP2C t1 t2 nowMs (m : Inflight) : Inflight * bool :=
  let '(m, l1) := getInflight (connOf t1) nowMs m in
  let '(m, l2) := getInflight (connOf t2) nowMs m in
  (m, l2 <? l1).

(** The callback that releases the winner's slot. *)
Record Release := mkRelease { rid : nat; rconn : string; rnow : Z }.

Definition selectQuotaShareTarget ts (combo modelStr : string) nowMs (caps : option Caps) (s : QSState T)
    : QSState T * (option (ComboTarget T) * list (ComboTarget T) * option Release) :=
  match ts with
  | [] => (s, (None, [], None))
  | _ =>
      let '(b, eligible) := filterEligibleBySaturation ts modelStr nowMs (buckets s) in
      let saturatedDeprioritized := base.filter (fun t => t ∉ eligible) ts in
      let '(m, withRoom, atCap) := partitionByConcurrencyCap eligible caps nowMs (inflight s) in
      let '(d, ordered) := applyDrr withRoom combo (drr s) in
      let '(m, winnerRest) :=
        match ordered with
        | t1 :: t2 :: more =>
            let '(m, swap) := pickByInflightP2C t1 t2 nowMs m in
            (m, if swap then Some (t2, t1 :: more) else Some (t1, t2 :: more))
        | [t1] => (m, Some (t1, []))
        | [] => (m, None)
        end in
      match winnerRest with
      | None => (s <| buckets := b |> <| inflight := m |> <| drr := d |>, (None, [], None))
      | Some (winner, rest) =>
          let c := connOf winner in
          let m := if isEmpty c then m else (incrementInflight c DEFAULT_LEASE_MS nowMs m).1 in
          let r := mkRelease (nextHandle s) c nowMs in
          (s <| buckets := b |> <| inflight := m |> <| drr := d |>
             <| handles := nextHandle s :: handles s |> <| nextHandle := S (nextHandle s) |>,
           (Some winner, [winner] ++ rest ++ atCap ++ saturatedDeprioritized, Some r))
      end
  end.

(** The idempotent callback: it uses the clock of the selection. *)
Definition release (r : Release) (s : QSState T) : QSState T :=
  if bool_decide (rid r ∈ handles s) then
    s <| handles := base.filter (fun i => i <> rid r) (handles s) |>
      <| inflight := if isEmpty (rconn r) then inflight s else decrementInflight (rconn r) (rnow r) (inflight s) |>
  else s.

(** ** Lemmas on the gates *)

(** The answer of [targetSaturated] as a function of the store. *)
Definition saturatedIn (modelName : string) nowMs (b : Buckets) t : bool :=
  let c := connOf t in
  negb (isEmpty c) &&
  ((isBucketSaturated c "5h" nowMs b).2 || (isBucketSaturated c "7d" nowMs b).2 ||
   (negb (isEmpty modelName) && (isBucketSaturated c ("7d:" +:+ modelName) nowMs b).2)).

Definition sameAnswers nowMs (b b' : Buckets) : Prop :=
  forall c w, (isBucketSaturated c w nowMs b').2 = (isBucketSaturated c w nowMs b).2.

Lemma read_same c w nowMs (b : Buckets) :
  mwf (inner b) -> mwf (inner (isBucketSaturated c w nowMs b).1) /\
  sameAnswers nowMs b (isBucketSaturated c w nowMs b).1.
Proof.
  intros Hwf. destruct (isBucketSaturated_frame c w nowMs b Hwf) as [Hw Hf]. split; [done|].
  intros c' w'. by rewrite !isBucketSaturated_value, Hf.
Qed.

Lemma sameAnswers_trans nowMs b1 b2 b3 : sameAnswers nowMs b1 b2 -> sameAnswers nowMs b2 b3 -> sameAnswers nowMs b1 b3.
Proof. intros H1 H2 c w. by rewrite H2. Qed.

Lemma targetSaturated_spec mn nowMs t b :
  mwf (inner b) -> mwf (inner (targetSaturated mn nowMs t b).1) /\
  sameAnswers nowMs b (targetSaturated mn nowMs t b).1 /\
  (targetSaturated mn nowMs t b).2 = saturatedIn mn nowMs b t.
Proof.
  intros Hwf. unfold targetSaturated, saturatedIn. destruct (isEmpty (connOf t)); [done|]. cbn [negb andb].
  destruct (read_same (connOf t) "5h" nowMs b Hwf) as [W1 A1].
  destruct (isBucketSaturated (connOf t) "5h" nowMs b) as [b1 s1]. cbn [fst snd] in *. destruct s1; [done|].
  destruct (read_same (connOf t) "7d" nowMs b1 W1) as [W2 A2]. rewrite <- (A1 (connOf t) "7d"%string).
  destruct (isBucketSaturated (connOf t) "7d" nowMs b1) as [b2 s2]. cbn [fst snd] in *.
  pose proof (sameAnswers_trans _ _ _ _ A1 A2) as A12. destruct s2; [done|].
  destruct (isEmpty mn); [done|]. cbn [negb andb orb]. rewrite <- A12.
  destruct (read_same (connOf t) ("7d:" +:+ mn) nowMs b2 W2) as [W3 A3]. split_and!; [done| |done].
  by eapply sameAnswers_trans.
Qed.

Lemma saturatedIn_same mn nowMs b b' t : sameAnswers nowMs b b' -> saturatedIn mn nowMs b' t = saturatedIn mn nowMs b t.
Proof. intros Ha. unfold saturatedIn. by rewrite !Ha. Qed.

Lemma unsaturated_spec mn nowMs ts b :
  mwf (inner b) -> (unsaturated mn nowMs ts b).2 = base.filter (fun t => saturatedIn mn nowMs b t = false) ts.
Proof.
  revert b. induction ts as [|t ts IH]; intros b Hwf; simpl; [done|].
  destruct (targetSaturated_spec mn nowMs t b Hwf) as (W & A & S).
  destruct (targetSaturated mn nowMs t b) as [b1 s]. cbn [fst snd] in *. specialize (IH b1 W).
  destruct (unsaturated mn nowMs ts b1) as [b2 l]. cbn [fst snd] in *. subst.
  rewrite filter_cons. rewrite (filter_ext_elem _ (fun t => saturatedIn mn nowMs b t = false)).
  - destruct (saturatedIn mn nowMs b t); case_decide; done.
  - intros t' _. by rewrite (saturatedIn_same mn nowMs b b1 t' A).
Qed.

Definition atCapIn (caps : Caps) nowMs (m : Inflight) t : bool :=
  match resolveConnectionCap (connOf t) caps with
  | Some cap => nleb cap (nofNat (Z.to_nat (getInflight (connOf t) nowMs m).2))
  | None => false
  end.

Lemma getInflight_frame c c' nowMs m :
  (getInflight c' nowMs (getInflight c nowMs m).1).2 = (getInflight c' nowMs m).2.
Proof.
  unfold getInflight. destruct (bool_decide (c = "")); [reflexivity|].
  destruct (mget c m) as [l|] eqn:Hl; [|reflexivity]. cbn [fst].
  destruct (bool_decide (c' = "")); [reflexivity|]. rewrite mget_mset. case_decide; [|by destruct (mget c' m)]. subst. rewrite Hl. simpl.
  f_equal. by rewrite liveLeases_later.
Qed.

Lemma splitByCap_spec caps nowMs ts m :
  (splitByCap caps nowMs ts m).1.2 = base.filter (fun t => atCapIn caps nowMs m t = false) ts /\
  (splitByCap caps nowMs ts m).2 = base.filter (fun t => atCapIn caps nowMs m t = true) ts.
Proof.
  revert m. induction ts as [|t ts IH]; intros m; simpl; [done|]. rewrite !filter_cons.
  assert (atCapIn caps nowMs m t = match resolveConnectionCap (connOf t) caps with
    | Some cap => nleb cap (nofNat (Z.to_nat (getInflight (connOf t) nowMs m).2)) | None => false end) as Hat by done.
  rewrite !Hat. clear Hat. destruct (resolveConnectionCap (connOf t) caps) as [cap|] eqn:Hc.
  - pose proof (getInflight_frame (connOf t)) as Hf. specialize (IH (getInflight (connOf t) nowMs m).1).
    destruct (getInflight (connOf t) nowMs m) as [m1 n] eqn:Hg. cbn [fst snd] in *.
    destruct (splitByCap caps nowMs ts m1) as [[m2 room] full]. cbn [fst snd] in *. destruct IH as [-> ->].
    assert (forall t', atCapIn caps nowMs m1 t' = atCapIn caps nowMs m t') as Hsame.
    { intros t'. unfold atCapIn. destruct (resolveConnectionCap (connOf t') caps); [|done].
      specialize (Hf (connOf t') nowMs m). rewrite Hg in Hf. cbn [fst] in Hf. by rewrite Hf. }
    rewrite (filter_ext_elem (fun t => atCapIn caps nowMs m1 t = false) (fun t => atCapIn caps nowMs m t = false))
      by (intros; by rewrite Hsame).
    rewrite (filter_ext_elem (fun t => atCapIn caps nowMs m1 t = true) (fun t => atCapIn caps nowMs m t = true))
      by (intros; by rewrite Hsame).
    case_if; repeat case_decide; done.
  - specialize (IH m). destruct (splitByCap caps nowMs ts m) as [[m2 room] full]. cbn [fst snd] in *.
    destruct IH as [-> ->]. done.
Qed.

(** ** Lemmas on the order *)

Lemma pickLargest_in (def : jsmap string T) t0 ts : (pickLargest def t0 ts).1 ∈ t0 :: ts.
Proof.
  unfold pickLargest. generalize (deficitOf (executionKey t0) def). revert t0.
  induction ts as [|t ts IH]; intros t0 best; cbn [foldl]; [by left|].
  cbv zeta. case_if; match goal with |- (foldl _ (?w, ?d) _).1 ∈ _ => specialize (IH w d) end;
    rewrite !elem_of_cons in *; tauto.
Qed.

Lemma filter_self ts t :
  NoDup (executionKey <$> ts) -> t ∈ ts ->
  t :: base.filter (fun t' => executionKey t' <> executionKey t) ts ≡ₚ ts.
Proof.
  induction ts as [|t' ts IH]; intros Hnd Hin; [by apply elem_of_nil in Hin|].
  rewrite fmap_cons, NoDup_cons in Hnd. destruct Hnd as [Hni Hnd]. rewrite filter_cons.
  apply elem_of_cons in Hin as [->|Hin].
  - rewrite decide_False by (intros HH; by apply HH). rewrite filter_id; [done|].
    intros x Hx He. apply Hni. rewrite <- He. by apply list_elem_of_fmap_2.
  - rewrite decide_True by (intros He; apply Hni; rewrite He; by apply list_elem_of_fmap_2).
    rewrite <- (IH Hnd Hin) at 2. apply Permutation_swap.
Qed.

Lemma applyDrr_perm ts combo d : NoDup (executionKey <$> ts) -> (applyDrr ts combo d).2 ≡ₚ ts.
Proof.
  intros Hnd. unfold applyDrr. destruct ts as [|t0 [|t1 ts]]; [done|done|].
  destruct (getDrrDeficits combo d) as [d1 deficits]. set (def := foldl _ deficits _).
  pose proof (pickLargest_in def t0 (t1 :: ts)) as Hin.
  destruct (pickLargest def t0 (t1 :: ts)) as [w best]. cbn [fst snd] in *. by apply filter_self.
Qed.

Lemma demoted_perm (l el : list (ComboTarget T)) (P : ComboTarget T -> bool) :
  el = l \/ el = base.filter (fun t => P t = false) l ->
  el ++ base.filter (fun t => t ∉ el) l ≡ₚ l.
Proof.
  intros [->| ->].
  - rewrite filter_none; [by rewrite app_nil_r|]. intros x Hx Hn. done.
  - rewrite (filter_ext_elem (fun t => t ∉ base.filter (fun t => P t = false) l) (fun t => ~ (P t = false))).
    + apply filter_complement_perm.
    + intros x Hx. rewrite list_elem_of_filter. tauto.
Qed.

Lemma filterEligible_spec ts modelStr nowMs b :
  mwf (inner b) ->
  let free := base.filter (fun t => saturatedIn (bareModelName modelStr) nowMs b t = false) ts in
  (filterEligibleBySaturation ts modelStr nowMs b).2 = match free with [] => ts | _ => free end.
Proof.
  intros Hwf free. unfold filterEligibleBySaturation. pose proof (unsaturated_spec (bareModelName modelStr) nowMs ts b Hwf) as Hu.
  destruct (unsaturated (bareModelName modelStr) nowMs ts b) as [b1 el]. simpl in *. by subst.
Qed.

Lemma partition_spec ts caps nowMs m :
  let r := partitionByConcurrencyCap ts caps nowMs m in
  let full t := match caps with Some caps => atCapIn caps nowMs m t | None => false end in
  r.1.2 ++ r.2 ≡ₚ ts /\
  (ts <> [] -> r.1.2 <> []) /\
  (forall t, t ∈ ts -> full t = false -> forall w, w ∈ r.1.2 -> full w = false).
Proof.
  cbv zeta. unfold partitionByConcurrencyCap. destruct caps as [[|c caps]|]; cbn [fst snd].
  - rewrite app_nil_r. split_and!; [done|done|]. intros t _ _ w _. unfold atCapIn, resolveConnectionCap. by case_if.
  - destruct (splitByCap_spec (c :: caps) nowMs ts m) as [H1 H2].
    destruct (splitByCap (c :: caps) nowMs ts m) as [[m1 room] full]. cbn [fst snd] in *.
    destruct room as [|r0 room'] eqn:Hroom; cbn [fst snd].
    + rewrite app_nil_r. split_and!; [done|done|]. intros t Ht Hf. exfalso.
      apply (elem_of_nil t). rewrite H1. by apply list_elem_of_filter.
    + rewrite H1, H2. split_and!; [|by rewrite <- H1|].
      * rewrite (filter_ext_elem (fun t => atCapIn (c :: caps) nowMs m t = true)
          (fun t => ~ (atCapIn (c :: caps) nowMs m t = false))); [apply filter_complement_perm|].
        intros x _. by destruct (atCapIn (c :: caps) nowMs m x).
      * intros t _ _ w Hw. by apply list_elem_of_filter in Hw as [? _].
  - rewrite app_nil_r. done.
Qed.
End QuotaShare.

(** ** Properties of the selection *)

(** The selection never loses a target and respects its gates.  For targets
    with distinct execution keys the dispatch list is a permutation of the targets
    led by the winner; if some target's windows have room the winner is not
    saturated; and if some unsaturated target is below its concurrency cap, the
    winner is one of those. *)
Theorem quota_share_dispatch {T} `{Num T, EqDecision T} (ts : list (ComboTarget T)) combo modelStr nowMs caps s s' w ordered r :
  selectQuotaShareTarget ts combo modelStr nowMs caps s = (s', (w, ordered, r)) ->
  ts <> [] -> NoDup (executionKey <$> ts) -> mwf (inner (buckets s)) ->
  let saturatedT t := saturatedIn (bareModelName modelStr) nowMs (buckets s) t in
  let fullT t := match caps with Some caps => atCapIn caps nowMs (inflight s) t | None => false end in
  exists winner,
    w = Some winner /\ head ordered = Some winner /\ ordered ≡ₚ ts /\
    (forall t, t ∈ ts -> saturatedT t = false -> saturatedT winner = false) /\
    (forall t, t ∈ ts -> saturatedT t = false -> fullT t = false -> saturatedT winner = false /\ fullT winner = false).
Proof.
  intros Hsel Hne Hnd Hwf saturatedT fullT. unfold selectQuotaShareTarget in Hsel.
  destruct ts as [|t0 ts0] eqn:Ets; [done|]. rewrite <- Ets in *.
  pose proof (filterEligible_spec ts modelStr nowMs (buckets s) Hwf) as Hel. cbv zeta in Hel.
  destruct (filterEligibleBySaturation ts modelStr nowMs (buckets s)) as [b eligible]. cbn [snd] in Hel.
  assert (eligible = ts \/ eligible = base.filter (fun t => saturatedT t = false) ts) as Hcases.
  { subst eligible. fold saturatedT. destruct (base.filter _ ts); auto. }
  assert (forall t, t ∈ ts -> saturatedT t = false -> eligible = base.filter (fun t => saturatedT t = false) ts) as Hfree.
  { intros t Ht Hs. subst eligible. assert (t ∈ base.filter (fun t => saturatedT t = false) ts) as Hin by by apply list_elem_of_filter.
    fold saturatedT. destruct (base.filter _ ts); [by apply elem_of_nil in Hin|done]. }
  pose proof (demoted_perm ts eligible saturatedT Hcases) as Hp1.
  assert (eligible <> []) as Hnel.
  { rewrite Hel. case_match; congruence. }
  destruct (partition_spec eligible caps nowMs (inflight s)) as (Hp2 & Hrne & Hfull). cbv zeta in Hfull.
  destruct (partitionByConcurrencyCap eligible caps nowMs (inflight s)) as [[m room] full]. cbn [fst snd] in *.
  specialize (Hrne Hnel).
  assert (NoDup (executionKey <$> room)) as Hndr.
  { assert (NoDup (executionKey <$> eligible)) as H1.
    { destruct Hcases as [->| ->]; [done|]. eapply sublist_NoDup; [exact Hnd|]. apply fmap_sublist, sublist_filter. }
    rewrite <- Hp2, fmap_app in H1. by apply NoDup_app in H1 as [? _]. }
  pose proof (applyDrr_perm room combo (drr s) Hndr) as Hp3.
  destruct (applyDrr room combo (drr s)) as [d ord]. cbn [snd] in Hp3.
  assert (exists winner rest, winner :: rest ≡ₚ ord /\ w = Some winner /\
    ordered = [winner] ++ rest ++ full ++ base.filter (fun t => t ∉ eligible) ts) as (winner & rest & Hp4 & -> & ->).
  { destruct ord as [|t1 [|t2 more]].
    - apply Permutation_nil_l in Hp3. by rewrite Hp3 in Hrne.
    - simplify_eq. by eexists _, _.
    - destruct (pickByInflightP2C t1 t2 nowMs m) as [m2 []]; simplify_eq; eexists _, _; (split; [|done]); [apply Permutation_swap|done]. }
  exists winner. assert (winner ∈ room) as Hwin by (rewrite <- Hp3, <- Hp4; by left).
  assert (winner ∈ eligible) as Hwel by (rewrite <- Hp2; apply elem_of_app; by left).
  split_and!; [done|done| | |].
  - change ([winner] ++ rest ++ full ++ base.filter (fun t => t ∉ eligible) ts)
      with ((winner :: rest) ++ full ++ base.filter (fun t => t ∉ eligible) ts).
    rewrite Hp4, Hp3, app_assoc, Hp2. exact Hp1.
  - intros t Ht Hs. rewrite (Hfree t Ht Hs) in Hwel. by apply list_elem_of_filter in Hwel as [? _].
  - intros t Ht Hs Hf. split.
    + rewrite (Hfree t Ht Hs) in Hwel. by apply list_elem_of_filter in Hwel as [? _].
    + apply (Hfull t); [|done|done]. rewrite (Hfree t Ht Hs). by apply list_elem_of_filter.
Qed.

(** ** Deficit round robin at exact rationals *)

Section Drr.
Implicit Types (ts : list (ComboTarget Q)) (t : ComboTarget Q) (def : jsmap string Q).

#[local] Open Scope Q_scope.

Definition sumQ (l : list Q) : Q := foldr Qplus 0 l.

Lemma foldl_sumQ l a : foldl Qplus a l == a + sumQ l.
Proof.
  revert a. induction l as [|x l IH]; intros a; simpl; [ring|]. rewrite IH. ring.
Qed.

Lemma sumQ_cons x l : sumQ (x :: l) = x + sumQ l.
Proof. done. Qed.

Lemma sumQ_ext {A} (f g : A -> Q) l : (forall x, x ∈ l -> f x == g x) -> sumQ (f <$> l) == sumQ (g <$> l).
Proof.
  induction l as [|x l IH]; intros Hfg; [reflexivity|]. rewrite !fmap_cons, !sumQ_cons.
  rewrite (Hfg x) by left. rewrite IH; [reflexivity|]. intros y Hy. apply Hfg. by right.
Qed.

Lemma sumQ_add {A} (f g : A -> Q) l : sumQ ((fun x => f x + g x) <$> l) == sumQ (f <$> l) + sumQ (g <$> l).
Proof. induction l as [|x l IH]; [simpl; ring|]. rewrite !fmap_cons, !sumQ_cons, IH. ring. Qed.

Lemma sumQ_scale {A} (f : A -> Q) c l : sumQ ((fun x => f x * c) <$> l) == sumQ (f <$> l) * c.
Proof. induction l as [|x l IH]; [simpl; ring|]. rewrite !fmap_cons, !sumQ_cons, IH. ring. Qed.

(** The sum changes by what one member changes. *)
Lemma sumQ_update {A} `{EqDecision A} (f : A -> Q) (w : A) c l :
  NoDup l -> w ∈ l -> sumQ ((fun x => f x + (if decide (x = w) then c else 0)) <$> l) == sumQ (f <$> l) + c.
Proof.
  induction l as [|x l IH]; intros Hnd Hw; [by apply elem_of_nil in Hw|].
  apply NoDup_cons in Hnd as [Hni Hnd]. rewrite !fmap_cons, !sumQ_cons. apply elem_of_cons in Hw as [->|Hw].
  - rewrite decide_True by done.
    assert (sumQ ((fun y => f y + (if decide (y = x) then c else 0)) <$> l) == sumQ (f <$> l)) as E.
    { apply sumQ_ext. intros y Hy. rewrite decide_False; [ring|]. intros ->. done. }
    rewrite E. ring.
  - rewrite decide_False by (intros ->; done). rewrite IH by done. ring.
Qed.

Lemma sumQ_gt l : Forall (fun x => - (1) < x) l -> l <> [] -> - inject_Z (Z.of_nat (length l)) < sumQ l.
Proof.
  induction 1 as [|x l Hx Hl IH]; intros Hne; [done|]. cbn [length]. rewrite sumQ_cons.
  rewrite Nat2Z.inj_succ, <- Z.add_1_r, inject_Z_plus. change (inject_Z 1) with 1.
  destruct l as [|y l].
  - change (inject_Z (Z.of_nat (length (@nil Q)))) with 0. change (sumQ []) with 0. lra.
  - specialize (IH ltac:(done)). lra.
Qed.

(** A positive sum has a positive term. *)
Lemma sumQ_pos l : 0 < sumQ l -> exists x, x ∈ l /\ 0 < x.
Proof.
  induction l as [|x l IH]; simpl; [intros H; lra|]. intros Hs. destruct (Qlt_le_dec 0 x) as [Hx|Hx].
  - exists x. split; [by left|done].
  - destruct IH as (y & Hy & Hp); [unfold sumQ in *; lra|]. exists y. split; [by right|done].
Qed.

Definition weightOf t : Q := normalizeWeight (weight t).

Definition totalWeight ts : Q := foldl Qplus 0 (weightOf <$> ts).

(** The share of a target: its weight over the total, or an equal part when no
    target has weight. *)
Definition share ts t : Q :=
  if Qle_bool (totalWeight ts) 0 then 1 / inject_Z (Z.of_nat (length ts)) else weightOf t / totalWeight ts.

Lemma quanta_share ts : quanta ts = share ts <$> ts.
Proof.
  unfold quanta. cbv zeta. rewrite <- list_fmap_compose. apply list_fmap_ext. intros i t _.
  unfold share, compose. cbn [nleb Num_Q nzero none ndiv nofNat nadd].
  change (foldl Qplus 0 ((fun x : ComboTarget Q => normalizeWeight (weight x)) <$> ts)) with (totalWeight ts).
  by destruct (Qle_bool (totalWeight ts) 0).
Qed.

Lemma weightOf_nonneg t : 0 <= weightOf t.
Proof.
  unfold weightOf, normalizeWeight. destruct (weight t) as [w|]; [|cbn; lra].
  cbn [nisZero nfinite nltb nzero none Num_Q]. case_if; [lra|]. case_if; [|lra].
  cbn [andb] in *. unfold Qltb in *. to_prop. apply Qlt_le_weak, Qnot_le_lt. intros H%Qle_bool_iff. congruence.
Qed.

Lemma totalWeight_sum ts : totalWeight ts == sumQ (weightOf <$> ts).
Proof. unfold totalWeight. rewrite foldl_sumQ. ring. Qed.

Lemma length_pos {A} (l : list A) : l <> [] -> 0 < inject_Z (Z.of_nat (length l)).
Proof. destruct l; [done|]. intros _. change 0 with (inject_Z 0). rewrite <- Zlt_Qlt. simpl. lia. Qed.

Lemma totalWeight_pos ts : Qle_bool (totalWeight ts) 0 = false -> 0 < totalWeight ts.
Proof. intros Hb. apply Qnot_le_lt. intros H%Qle_bool_iff. congruence. Qed.

Lemma share_nonneg ts t : ts <> [] -> 0 <= share ts t.
Proof.
  intros Hne. unfold share. destruct (Qle_bool (totalWeight ts) 0) eqn:Hb.
  - apply Qle_shift_div_l; [by apply length_pos|]. lra.
  - pose proof (weightOf_nonneg t). apply Qle_shift_div_l; [by apply totalWeight_pos|]. lra.
Qed.

Lemma sumQ_const {A} (l : list A) c : sumQ ((fun _ => c) <$> l) == inject_Z (Z.of_nat (length l)) * c.
Proof.
  induction l as [|x l IH]; [simpl; ring|]. rewrite fmap_cons, sumQ_cons, IH. cbn [length].
  rewrite Nat2Z.inj_succ, <- Z.add_1_r, inject_Z_plus. ring.
Qed.

Lemma share_sum ts : ts <> [] -> sumQ (share ts <$> ts) == 1.
Proof.
  intros Hne. unfold share. destruct (Qle_bool (totalWeight ts) 0) eqn:Hb.
  - rewrite sumQ_const. pose proof (length_pos ts Hne). field. lra.
  - pose proof (totalWeight_pos ts Hb) as Hp. rewrite (sumQ_scale weightOf (/ totalWeight ts)), <- totalWeight_sum.
    field. lra.
Qed.

(** *** One round *)

Lemma deficitOf_mset k k' x def : deficitOf k (mset k' x def) = if decide (k = k') then x else deficitOf k def.
Proof. unfold deficitOf. rewrite mget_mset. by case_decide. Qed.

Lemma addQuanta_spec ts (g : ComboTarget Q -> Q) def k :
  NoDup (executionKey <$> ts) ->
  (forall t, t ∈ ts -> executionKey t = k -> deficitOf k (foldl addQuantum def (zip ts (g <$> ts))) = deficitOf k def + g t) /\
  (k ∉ executionKey <$> ts -> deficitOf k (foldl addQuantum def (zip ts (g <$> ts))) = deficitOf k def).
Proof.
  revert def. induction ts as [|t ts IH]; intros def Hnd; [split; [intros t Ht; by apply elem_of_nil in Ht|done]|].
  rewrite fmap_cons, NoDup_cons in Hnd. destruct Hnd as [Hni Hnd]. cbn [fmap list_fmap zip zip_with foldl].
  destruct (IH (addQuantum def (t, g t)) Hnd) as [IH1 IH2].
  assert (forall k, deficitOf k (addQuantum def (t, g t)) =
    if decide (k = executionKey t) then deficitOf (executionKey t) def + g t else deficitOf k def) as Hadd
    by (intros k0; unfold addQuantum; cbn [fst snd]; by rewrite deficitOf_mset).
  split.
  - intros t' Ht' Hk. apply elem_of_cons in Ht' as [->|Ht'].
    + unfold fmap in *. rewrite IH2 by (by rewrite <- Hk). rewrite Hadd, decide_True by done. by subst.
    + unfold fmap in *. rewrite (IH1 t') by done. rewrite Hadd, decide_False; [done|].
      intros He. apply Hni. rewrite <- He, <- Hk. by apply list_elem_of_fmap_2.
  - intros Hk. rewrite not_elem_of_cons in Hk. unfold fmap in *. rewrite IH2 by tauto. by rewrite Hadd, decide_False by tauto.
Qed.

Lemma Qltb_true a b : Qltb a b = true -> a < b.
Proof. unfold Qltb. intros H. to_prop. apply Qnot_le_lt. intros Hle%Qle_bool_iff. congruence. Qed.

Lemma Qltb_false a b : Qltb a b = false -> b <= a.
Proof. unfold Qltb. intros H. to_prop. by apply Qle_bool_iff. Qed.

Lemma pickLargest_max def t0 ts :
  let r := pickLargest def t0 ts in
  r.2 = deficitOf (executionKey r.1) def /\ forall t, t ∈ t0 :: ts -> deficitOf (executionKey t) def <= r.2.
Proof.
  cbv zeta. unfold pickLargest. cbn [nltb Num_Q].
  cut (forall best, best = deficitOf (executionKey t0) def ->
    (foldl (fun '(winner, best) t => let d := deficitOf (executionKey t) def in
       if Qltb best d then (t, d) else (winner, best)) (t0, best) ts).2 =
      deficitOf (executionKey (foldl (fun '(winner, best) t => let d := deficitOf (executionKey t) def in
       if Qltb best d then (t, d) else (winner, best)) (t0, best) ts).1) def /\
    forall t, t ∈ t0 :: ts -> deficitOf (executionKey t) def <=
      (foldl (fun '(winner, best) t => let d := deficitOf (executionKey t) def in
       if Qltb best d then (t, d) else (winner, best)) (t0, best) ts).2).
  { intros H. by apply H. }
  revert t0. induction ts as [|t ts IH]; intros t0 best Hb; cbn [foldl fst snd].
  - split; [done|]. intros t Ht. apply list_elem_of_singleton in Ht as ->. subst. lra.
  - cbv zeta in *. destruct (Qltb best (deficitOf (executionKey t) def)) eqn:Hlt.
    + destruct (IH t (deficitOf (executionKey t) def) eq_refl) as [A B]. split; [done|].
      intros t' Ht'. apply elem_of_cons in Ht' as [->|Ht']; [|by apply B].
      apply Qltb_true in Hlt. specialize (B t ltac:(by left)). subst. lra.
    + destruct (IH t0 best Hb) as [A B]. split; [done|].
      intros t' Ht'. rewrite !elem_of_cons in Ht'. destruct Ht' as [->|[->|Ht']].
      * apply B. by left.
      * apply Qltb_false in Hlt. specialize (B t0 ltac:(by left)). subst. lra.
      * apply B. by right.
Qed.

Definition deficits (combo : string) (d : jsmap string (jsmap string Q)) : jsmap string Q := orElse (mget combo d) [].

Definition D (combo : string) (d : jsmap string (jsmap string Q)) t : Q := deficitOf (executionKey t) (deficits combo d).

Lemma key_inj ts t t' : NoDup (executionKey <$> ts) -> t ∈ ts -> t' ∈ ts -> executionKey t = executionKey t' -> t = t'.
Proof.
  intros Hnd H1 H2 He. apply list_elem_of_lookup in H1 as [i Hi]. apply list_elem_of_lookup in H2 as [j Hj].
  assert (i = j) as ->; [|congruence]. eapply NoDup_lookup; [exact Hnd| |]; rewrite list_lookup_fmap.
  - by rewrite Hi.
  - rewrite Hj. simpl. by rewrite He.
Qed.

(** One round: everyone earns the share, the winner, who had the most, pays 1. *)
Lemma drr_round ts combo d :
  NoDup (executionKey <$> ts) -> (2 <= length ts)%nat ->
  exists w, w ∈ ts /\ head (applyDrr ts combo d).2 = Some w /\
    (forall t, t ∈ ts -> D combo (applyDrr ts combo d).1 t == D combo d t + share ts t + (if decide (t = w) then - (1) else 0)) /\
    (forall t, t ∈ ts -> D combo d t + share ts t <= D combo d w + share ts w).
Proof.
  intros Hnd Hlen. unfold applyDrr. destruct ts as [|t0 [|t1 ts0]] eqn:Ets; [simpl in Hlen; lia..|]. rewrite <- Ets in *.
  assert (exists d1, getDrrDeficits combo d = (d1, deficits combo d)) as [d1 ->].
  { unfold getDrrDeficits, deficits. destruct (mget combo d); simpl; eauto. }
  rewrite quanta_share. set (def := foldl addQuantum _ _).
  assert (forall t, t ∈ ts -> deficitOf (executionKey t) def = D combo d t + share ts t) as Hdef.
  { intros t Ht. by apply addQuanta_spec. }
  pose proof (pickLargest_in def t0 (t1 :: ts0)) as Hin. pose proof (pickLargest_max def t0 (t1 :: ts0)) as Hmax.
  rewrite <- Ets in Hin, Hmax. cbv zeta in Hmax.
  destruct (pickLargest def t0 (t1 :: ts0)) as [w best]. cbn [fst snd] in *. destruct Hmax as [-> Hmax].
  exists w. split_and!; [done|done| |].
  - intros t Ht. unfold D at 1, deficits at 1. rewrite mget_mset_eq. cbn [orElse]. rewrite deficitOf_mset.
    destruct (decide (t = w)) as [->|Hne].
    + rewrite decide_True by done. rewrite Hdef by done. cbn [nsub none Num_Q]. ring.
    + rewrite decide_False by (intros He; apply Hne; by apply (key_inj ts)). rewrite Hdef by done. ring.
  - intros t Ht. rewrite <- !Hdef by done. by apply Hmax.
Qed.

(** *** Many rounds *)

(** [n] rounds for one combo; the winners, latest first. *)
Fixpoint drrRounds (n : nat) ts (combo : string) (d : jsmap string (jsmap string Q))
    : jsmap string (jsmap string Q) * list (ComboTarget Q) :=
  match n with
  | O => (d, [])
  | S n =>
      let '(d, ws) := drrRounds n ts combo d in
      let '(d, l) := applyDrr ts combo d in
      (d, match l with w :: _ => w :: ws | [] => ws end)
  end.

Definition wins t (ws : list (ComboTarget Q)) : Q := inject_Z (Z.of_nat (length (base.filter (fun w => w = t) ws))).

Lemma wins_cons t w ws : wins t (w :: ws) == wins t ws + (if decide (t = w) then 1 else 0).
Proof.
  unfold wins. rewrite filter_cons. destruct (decide (w = t)) as [->|Hne].
  - rewrite decide_True by done. cbn [length]. rewrite Nat2Z.inj_succ, <- Z.add_1_r, inject_Z_plus. reflexivity.
  - rewrite decide_False by congruence. ring.
Qed.

Record Fair ts combo (n : nat) (d : jsmap string (jsmap string Q)) (ws : list (ComboTarget Q)) : Prop := {
  f_sum : sumQ (D combo d <$> ts) == 0;
  f_low : forall t, t ∈ ts -> - (1) < D combo d t;
  f_acc : forall t, t ∈ ts -> D combo d t == inject_Z (Z.of_nat n) * share ts t - wins t ws;
}.

Lemma Fair_rounds ts combo d n :
  NoDup (executionKey <$> ts) -> (2 <= length ts)%nat -> mget combo d = None ->
  Fair ts combo n (drrRounds n ts combo d).1 (drrRounds n ts combo d).2.
Proof.
  intros Hnd Hlen Hnew. assert (NoDup ts) as Hnd' by by eapply NoDup_fmap_1.
  assert (ts <> []) as Hne by (destruct ts; [simpl in Hlen; lia|done]).
  induction n as [|n IH]; cbn [drrRounds fst snd].
  - assert (forall t, D combo d t = 0) as H0 by (intros t; unfold D, deficits; by rewrite Hnew).
    split; [|intros t _; rewrite H0; lra|intros t _; rewrite H0; unfold wins; cbn; ring].
    rewrite (sumQ_ext _ (fun _ => 0)), sumQ_const; [ring|]. intros t _. by rewrite H0.
  - destruct (drrRounds n ts combo d) as [d1 ws]. cbn [fst snd] in IH. destruct IH as [Hs Hl Ha].
    destruct (drr_round ts combo d1 Hnd Hlen) as (w & Hw & Hhead & HD & Hmax).
    destruct (applyDrr ts combo d1) as [d2 l]. cbn [fst snd] in *. destruct l as [|w' l]; [done|]. injection Hhead as ->.
    assert (sumQ ((fun t => D combo d1 t + share ts t) <$> ts) == 1) as Hone.
    { rewrite (sumQ_add (D combo d1) (share ts)), Hs, share_sum by done. ring. }
    split.
    + rewrite (sumQ_ext _ (fun t => (D combo d1 t + share ts t) + (if decide (t = w) then - (1) else 0))) by done.
      rewrite (sumQ_update (fun t => D combo d1 t + share ts t)) by done. rewrite Hone. ring.
    + intros t Ht. rewrite HD by done. specialize (Hl t Ht). pose proof (share_nonneg ts t Hne).
      destruct (decide (t = w)) as [->|_]; [|lra].
      destruct (sumQ_pos ((fun t => D combo d1 t + share ts t) <$> ts)) as (x & Hx & Hp); [rewrite Hone; lra|].
      apply list_elem_of_fmap in Hx as (t' & -> & Ht'). specialize (Hmax t' Ht'). lra.
    + intros t Ht. rewrite HD, Ha, wins_cons by done. rewrite Nat2Z.inj_succ, <- Z.add_1_r, inject_Z_plus.
      change (inject_Z 1) with 1. destruct (decide (t = w)); ring.
Qed.
End Drr.

(** C40. Proportional service.  Over any number of rounds of a fresh combo, the
    number of times a target wins the round robin differs from its share of the
    rounds by less than one above and by less than the number of its rivals below:
    no target is starved and none is favoured beyond its weight. *)
Theorem drr_proportional (ts : list (ComboTarget Q)) combo d n t :
  NoDup (executionKey <$> ts) -> (2 <= length ts)%nat -> mget combo d = None -> t ∈ ts ->
  let '(_, ws) := drrRounds n ts combo d in
  (inject_Z (Z.of_nat n) * share ts t - inject_Z (Z.of_nat (length ts - 1)) < wins t ws
   < inject_Z (Z.of_nat n) * share ts t + 1)%Q.
Proof.
  intros Hnd Hlen Hnew Ht. pose proof (Fair_rounds ts combo d n Hnd Hlen Hnew) as [Hs Hl Ha].
  destruct (drrRounds n ts combo d) as [d1 ws]. cbn [fst snd] in *. specialize (Ha t Ht). pose proof (Hl t Ht) as Hlt.
  apply list_elem_of_split in Ht as (l1 & l2 & ->).
  assert (Forall (fun x => - (1) < x)%Q (D combo d1 <$> l1 ++ l2)) as Hrest.
  { apply Forall_fmap, Forall_forall. intros t' Ht'. apply Hl. rewrite elem_of_app in *. rewrite elem_of_cons. tauto. }
  assert (sumQ (D combo d1 <$> l1 ++ t :: l2) == D combo d1 t + sumQ (D combo d1 <$> l1 ++ l2))%Q as Hsplit.
  { clear. induction l1 as [|x l1 IH]; [reflexivity|]. change ((x :: l1) ++ t :: l2) with (x :: (l1 ++ t :: l2)).
    change ((x :: l1) ++ l2) with (x :: (l1 ++ l2)). rewrite !fmap_cons, !sumQ_cons, IH. ring. }
  rewrite length_app in Hlen. cbn [length] in Hlen.
  assert (D combo d1 <$> l1 ++ l2 <> []) as Hne.
  { intros He%(f_equal length). rewrite length_fmap, length_app in He. simpl in He. lia. }
  pose proof (sumQ_gt _ Hrest Hne) as Hgt. rewrite length_fmap, length_app in Hgt.
  replace (length (l1 ++ t :: l2) - 1)%nat with (length l1 + length l2)%nat by (rewrite length_app; simpl; lia).
  set (k := inject_Z (Z.of_nat (length l1 + length l2))) in *. split; lra.
Qed.

(** ** Witnesses *)

Definition exTargets : list (ComboTarget Q) :=
  [mkTarget "a" (Some "c1") (Some 3%Q); mkTarget "b" (Some "c2") (Some 1%Q)]%string.

Lemma drr_proportional_witness :
  (inject_Z 8 * (3 / 4) - 1 < wins (mkTarget "a" (Some "c1") (Some 3%Q)) (drrRounds 8 exTargets "pool" []).2
   < inject_Z 8 * (3 / 4) + 1)%Q.
Proof.
  pose proof (drr_proportional exTargets "pool" [] 8 (mkTarget "a" (Some "c1") (Some 3%Q))
    ltac:(apply (bool_decide_unpack _); vm_compute; exact I) ltac:(simpl; lia) eq_refl ltac:(left)) as H.
  destruct (drrRounds 8 exTargets "pool" []) as [d ws]. exact H.
Defined.

Definition exDouble : list (ComboTarget double) :=
  [mkTarget "a" (Some "c1") (Some (dOfZ 3)); mkTarget "b" (Some "c2") None; mkTarget "c" None (Some (dOfZ 0))]%string.

Definition exQS : QSState double :=
  mkQS [] [] (recordUsage "c1" "5h" (dOfZ 100) None 0 noBuckets) [] 0.

Lemma quota_share_dispatch_witness :
  exists winner, winner ∈ exDouble /\
    saturatedIn "opus" 10 (buckets exQS) winner = false /\
    (selectQuotaShareTarget exDouble "pool" "anthropic/opus" 10 None exQS).2.1.1 = Some winner.
Proof.
  destruct (quota_share_dispatch exDouble "pool" "anthropic/opus" 10 None exQS
    (selectQuotaShareTarget exDouble "pool" "anthropic/opus" 10 None exQS).1
    (selectQuotaShareTarget exDouble "pool" "anthropic/opus" 10 None exQS).2.1.1
    (selectQuotaShareTarget exDouble "pool" "anthropic/opus" 10 None exQS).2.1.2
    (selectQuotaShareTarget exDouble "pool" "anthropic/opus" 10 None exQS).2.2)
    as (winner & Hw & Hh & Hp & Hs & _).
  - vm_compute. reflexivity.
  - discriminate.
  - apply (bool_decide_unpack _). vm_compute. exact I.
  - apply (bool_decide_unpack _). vm_compute. exact I.
  - exists winner. split_and!; [|apply (Hs (mkTarget "b" (Some "c2"%string) None)); [right; left|vm_compute; reflexivity]|exact Hw].
    rewrite <- Hp. by apply head_Some_elem_of.
Defined.
