(* ===== verification/FairShare.v ===== *)
(** * Fair-share decision: [src/lib/quota/fairShare.ts]

    One request of an API key against every dimension of a quota pool.  Amounts
    are doubles.  The loop with its early returns is shown equal to a reference
    decision that looks for the first dimension with a reason to block. *)
From S2P Require Import Prelude JsMap JsNumber.

#[local] Open Scope Z_scope.

Inductive QuotaUnit := percent | requests | tokens | usd.
Inductive QuotaWindow := w5h | hourly | daily | weekly | monthly.

(** A policy read from the database need not be one of the three. *)
Inductive Policy := hard | soft | burst | unknown (s : string).

#[export] Instance QuotaUnit_eq_dec : EqDecision QuotaUnit.
Proof. solve_decision. Defined.

Record DimensionKey := mkKey { poolId : string; unit_ : QuotaUnit; window : QuotaWindow }.

Record FairShareDimension := mkDim {
  key : DimensionKey;
  limit : double;
  consumedTotal : double;
  globalUsedPercent : double;
}.

Record FairShareAllocation := mkAlloc {
  weight : double;
  capValue : option double;
  capUnit : option QuotaUnit;
  policy : Policy;
}.

Record FairShareInput := mkInput {
  dimensions : list FairShareDimension;
  allocation : FairShareAllocation;
  consumedByThisKey : jsmap string double;
  saturationThreshold : double;
}.

Inductive BlockReason := fair_share | cap_absolute | global_saturated.

(** [penalized] is [true] or absent. *)
Inductive FairShareDecision := Allow (penalized : bool) | Block (reason : BlockReason).

Definition unitName (u : QuotaUnit) : string :=
  match u with percent => "percent" | requests => "requests" | tokens => "tokens" | usd => "usd" end.

Definition windowName (w : QuotaWindow) : string :=
  match w with w5h => "5h" | hourly => "hourly" | daily => "daily" | weekly => "weekly" | monthly => "monthly" end.

Definition dimensionKeyString (k : DimensionKey) : string :=
  poolId k +:+ ":" +:+ unitName (unit_ k) +:+ ":" +:+ windowName (window k).

Definition normalizePolicy (p : Policy) : Policy := match p with unknown _ => hard | p => p end.

(** [a >= b]. *)
Definition dGe (a b : double) : bool := dLe b a.

Definition fairShareOf (a : FairShareAllocation) (d : FairShareDimension) : double :=
  dMul (dDiv (weight a) (dOfZ 100)) (limit d).

Definition consumedOf (input : FairShareInput) (d : FairShareDimension) : double :=
  orElse (mget (dimensionKeyString (key d)) (consumedByThisKey input)) (dOfZ 0).

(** The body of the loop: a block, or whether the dimension penalizes. *)
Definition decideDimension (input : FairShareInput) (effectivePolicy : Policy) (d : FairShareDimension)
    : FairShareDecision :=
  let a := allocation input in
  let consumed := consumedOf input d in
  let fairShare := fairShareOf a d in
  if match capValue a with
     | Some cap => bool_decide (capUnit a = Some (unit_ (key d))) && dGe consumed cap
     | None => false end
  then Block cap_absolute
  else if dGe (consumedTotal d) (limit d) then Block global_saturated
  else
    let isStrict := dGe (globalUsedPercent d) (saturationThreshold input) in
    if isStrict then
      match effectivePolicy with
      | hard => if dGe consumed fairShare then Block fair_share else Allow false
      | soft => Allow (dGe consumed fairShare)
      | _ => Allow false
      end
    else
      match effectivePolicy with
      | hard => if dGe consumed (limit d) then Block global_saturated else Allow false
      | soft => Allow (dGe consumed fairShare)
      | _ => Allow false
      end.

Fixpoint decideLoop (input : FairShareInput) (p : Policy) (ds : list FairShareDimension) (anyPenalized : bool)
    : FairShareDecision :=
  match ds with
  | [] => Allow anyPenalized
  | d :: ds =>
      match decideDimension input p d with
      | Block r => Block r
      | Allow b => decideLoop input p ds (b || anyPenalized)
      end
  end.

Definition decideFairShare (input : FairShareInput) : FairShareDecision :=
  match dimensions input with
  | [] => Allow false
  | ds => decideLoop input (normalizePolicy (policy (allocation input))) ds false
  end.

(** ** The reference decision *)

(** Why a dimension blocks, by the rules of the header: the absolute cap, the
    global limit, and under the hard policy the fair share while the pool is
    saturated and the whole limit while it is not. *)
Definition blocks (input : FairShareInput) (d : FairShareDimension) : option BlockReason :=
  let a := allocation input in
  let isHard := match policy a with soft | burst => false | _ => true end in
  let strict := dGe (globalUsedPercent d) (saturationThreshold input) in
  if match capValue a with Some cap => bool_decide (capUnit a = Some (unit_ (key d))) && dGe (consumedOf input d) cap
                         | None => false end then Some cap_absolute
  else if dGe (consumedTotal d) (limit d) then Some global_saturated
  else if isHard && strict && dGe (consumedOf input d) (fairShareOf a d) then Some fair_share
  else if isHard && negb strict && dGe (consumedOf input d) (limit d) then Some global_saturated
  else None.

Definition penalizes (input : FairShareInput) (d : FairShareDimension) : bool :=
  match policy (allocation input) with
  | soft => dGe (consumedOf input d) (fairShareOf (allocation input) d)
  | _ => false
  end.

Fixpoint firstBlock (input : FairShareInput) (ds : list FairShareDimension) : option BlockReason :=
  match ds with
  | [] => None
  | d :: ds => match blocks input d with Some r => Some r | None => firstBlock input ds end
  end.

Definition reference (input : FairShareInput) : FairShareDecision :=
  match firstBlock input (dimensions input) with
  | Some r => Block r
  | None => Allow (existsb (penalizes input) (dimensions input))
  end.

Lemma decideDimension_spec input d :
  decideDimension input (normalizePolicy (policy (allocation input))) d =
  match blocks input d with Some r => Block r | None => Allow (penalizes input d) end.
Proof.
  unfold decideDimension, blocks, penalizes. cbv zeta.
  destruct (match capValue (allocation input) with Some _ => _ | None => _ end); [done|].
  destruct (dGe (consumedTotal d) (limit d)); [done|].
  destruct (dGe (globalUsedPercent d) (saturationThreshold input)), (policy (allocation input)); simpl;
    try (destruct (dGe (consumedOf input d) (fairShareOf (allocation input) d)); done);
    try (destruct (dGe (consumedOf input d) (limit d)); done); done.
Qed.

(** The decision loop and its reference agree.  For every pool and key the
    early-returning loop blocks exactly when some dimension has a reason to, with
    the reason of the first such dimension, and otherwise allows, penalized
    exactly when the policy is soft and some dimension is past its fair share; an
    unknown policy is treated as hard. *)
Theorem fair_share_reference input : decideFairShare input = reference input.
Proof.
  unfold decideFairShare, reference. destruct (dimensions input) as [|d0 ds0] eqn:E; [done|]. rewrite <- E. clear E d0 ds0.
  assert (forall ds b, decideLoop input (normalizePolicy (policy (allocation input))) ds b =
    match firstBlock input ds with Some r => Block r | None => Allow (b || existsb (penalizes input) ds) end) as H.
  { induction ds as [|d ds IH]; intros b; simpl; [by rewrite orb_false_r|]. rewrite decideDimension_spec.
    destruct (blocks input d); [done|]. rewrite IH. destruct (firstBlock input ds); [done|].
    f_equal. by destruct b, (penalizes input d). }
  apply H.
Qed.

(** A pool at 60% with a soft key past its share of 10%: allowed, penalized. *)
Definition exPool (p : Policy) : FairShareInput :=
  mkInput [mkDim (mkKey "p1" tokens daily) (dOfZ 1000) (dOfZ 600) (dec 6 10)]
    (mkAlloc (dOfZ 10) None None p) [("p1:tokens:daily"%string, dOfZ 150)] (dec 5 10).

Example ex_soft : decideFairShare (exPool soft) = Allow true.
Proof. vm_compute. reflexivity. Qed.

Example ex_unknown : decideFairShare (exPool (unknown "sof")) = Block fair_share.
Proof. vm_compute. reflexivity. Qed.
