(* ===== verification/RateLimitSemaphore.v ===== *)
(** * Rate-limit semaphore: [open-sse/services/rateLimitSemaphore.ts]

    A concurrency limit per model, with a FIFO queue and a pause while the model
    is rate-limited.  Timers capture the gate objects themselves while the map
    [gates] may have dropped or replaced them, so the gates live in a heap and
    the map holds references.  Each exported function and each timer is a step;
    the per-connection gate of the quota-share dispatch,
    [combo/quotaShareConcurrency.ts], is its client at the end of the file. *)
From S2P Require Import Prelude JsMap.

(** ** Data *)

Record ModelGate := mkModelGate {
  running : Z;
  max : Z;
  queue : list nat;
  rateLimitedUntil : option Z;
}.

(** What the closures of a queued item hold: its gate and whether its timer is armed. *)
Record QueueItem := mkItem { itemModel : string; itemGate : nat; itemTimeoutMs : Z; itemTimer : bool }.

(** The closure of [createReleaseFn]. *)
Record ReleaseFn := mkReleaseFn { relModel : string; relDone : bool }.

(** The drain scheduled by [markRateLimited]. *)
Record Cooldown := mkCooldown { coolModel : string; coolGate : nat; coolDue : Z }.

Inductive SemError := QueueFull (maxQueueSize : Z) (model : string) | Timeout (timeoutMs : Z) (model : string) | Reset.

Inductive Settled := Resolved | RejectedBy (e : SemError).

Record Sem := mkSem {
  gates : jsmap string nat;
  heap : jsmap nat ModelGate;
  items : jsmap nat QueueItem;
  releases : jsmap nat ReleaseFn;
  cooldowns : list Cooldown;
  settled : list (nat * Settled);
  nextId : nat;
}.

#[export] Instance ModelGate_eta : Eta ModelGate := fun x =>
  mkModelGate (running x) (max x) (queue x) (rateLimitedUntil x).
#[export] Instance QueueItem_eta : Eta QueueItem := fun x =>
  mkItem (itemModel x) (itemGate x) (itemTimeoutMs x) (itemTimer x).
#[export] Instance ReleaseFn_eta : Eta ReleaseFn := fun x => mkReleaseFn (relModel x) (relDone x).
#[export] Instance Sem_eta : Eta Sem := fun x =>
  mkSem (gates x) (heap x) (items x) (releases x) (cooldowns x) (settled x) (nextId x).

Definition emptySem : Sem := mkSem [] [] [] [] [] [] 0%nat.

Definition DEFAULT_MAX_CONCURRENCY : Z := 3.
Definition COOLDOWN_BUFFER_MS : Z := 50.

(** ** Operations *)

Definition setGate (gid : nat) (g : ModelGate) (s : Sem) : Sem := s <| heap := mset gid g (heap s) |>.

(** The gate object the map names for a model. *)
Definition gateRef (model : string) (s : Sem) : option (nat * ModelGate) :=
  gid ← mget model (gates s); g ← mget gid (heap s); Some (gid, g).

Definition getGate (model : string) (maxConcurrency : option Z) (s : Sem) : Sem * nat :=
  let m := orElse maxConcurrency DEFAULT_MAX_CONCURRENCY in
  match gateRef model s with
  | Some (gid, g) => (setGate gid (g <| max := m |>) s, gid)
  | None =>
      let gid := nextId s in
      ((setGate gid (mkModelGate 0 m [] None) s) <| gates := mset model gid (gates s) |> <| nextId := S gid |>, gid)
  end.

Definition isRateLimited (now : Z) (g : ModelGate) : ModelGate * bool :=
  if negb (truthyNum (rateLimitedUntil g)) then (g, false)
  else if now >=? orElse (rateLimitedUntil g) 0 then (g <| rateLimitedUntil := None |>, false)
  else (g, true).

Definition idle (g : ModelGate) : bool := (running g =? 0) && (Z.of_nat (length (queue g)) =? 0).

Definition dropGate (model : string) (s : Sem) : Sem := s <| gates := mdel model (gates s) |>.

Definition clearItemTimer (id : nat) (s : Sem) : Sem :=
  match mget id (items s) with
  | Some i => s <| items := mset id (i <| itemTimer := false |>) (items s) |>
  | None => s
  end.

(** A promise resolved with a fresh release function. *)
Definition resolveWith (id : nat) (model : string) (s : Sem) : Sem :=
  s <| releases := mset id (mkReleaseFn model false) (releases s) |>
    <| settled := settled s ++ [(id, Resolved)] |>.

(** The loop of [drainQueue]; every turn shortens the queue. *)
Fixpoint drainLoop (fuel : nat) (now : Z) (model : string) (gid : nat) (g : ModelGate) (s : Sem) : Sem * ModelGate :=
  match queue g, fuel with
  | id :: q, S fuel =>
      if running g <? max g then
        let '(g, limited) := isRateLimited now g in
        if limited then (s, g)
        else
          let g := g <| queue := q |> <| running := running g + 1 |> in
          drainLoop fuel now model gid g (resolveWith id model (clearItemTimer id s))
      else (s, g)
  | _, _ => (s, g)
  end.

Definition drainQueue (now : Z) (model : string) (s : Sem) : Sem :=
  match gateRef model s with
  | None => s
  | Some (gid, g) =>
      let '(s, g) := drainLoop (length (queue g)) now model gid g s in
      let s := setGate gid g s in
      if idle g then dropGate model s else s
  end.

(** Calling release function [id]. *)
Definition release (now : Z) (id : nat) (s : Sem) : Sem :=
  match mget id (releases s) with
  | None => s
  | Some r =>
      if relDone r then s
      else
        let s := s <| releases := mset id (r <| relDone := true |>) (releases s) |> in
        match gateRef (relModel r) s with
        | Some (gid, g) =>
            if running g >? 0 then
              let g := g <| running := running g - 1 |> in
              let s := setGate gid g s in
              if idle g then dropGate (relModel r) s else drainQueue now (relModel r) s
            else s
        | None => s
        end
  end.

Record AcquireOptions := mkOptions {
  maxConcurrency : option Z;
  timeoutMs : option Z;
  maxQueueSize : option Z;
}.

Definition DEFAULT_TIMEOUT_MS : Z := 30000.

(** What [acquire] returns: a resolved promise, a rejected one, or a pending one. *)
Inductive AcquireResult := Slot (id : nat) | Refused (e : SemError) | Pending (id : nat).

Definition acquire (now : Z) (model : string) (o : AcquireOptions) (s : Sem) : Sem * AcquireResult :=
  let '(s, gid) := getGate model (maxConcurrency o) s in
  let g := orElse (mget gid (heap s)) (mkModelGate 0 0 [] None) in
  let id := nextId s in
  let '(g, blocked) := if running g <? max g then isRateLimited now g else (g, true) in
  let s := setGate gid g s in
  if negb blocked then
    let s := (setGate gid (g <| running := running g + 1 |>) s) <| nextId := S id |> in
    (resolveWith id model s, Slot id)
  else
    match match maxQueueSize o with
          | Some n => if (0 <=? n) && (n <=? Z.of_nat (length (queue g))) then Some n else None
          | None => None
          end with
    | Some n => (if idle g then dropGate model s else s, Refused (QueueFull n model))
    | None =>
        let s := (setGate gid (g <| queue := queue g ++ [id] |>) s) <| nextId := S id |> in
        (s <| items := mset id (mkItem model gid (orElse (timeoutMs o) DEFAULT_TIMEOUT_MS) true) (items s) |>, Pending id)
    end.

Definition dequeue (id : nat) (g : ModelGate) : ModelGate :=
  match findIndex (Nat.eqb id) (queue g) with
  | Some i => g <| queue := removeAt i (queue g) |>
  | None => g
  end.

(** The timeout of a waiting item. *)
Definition itemTimesOut (id : nat) (s : Sem) : Sem :=
  match mget id (items s) with
  | None => s
  | Some i =>
      if itemTimer i then
        let s := clearItemTimer id s in
        let s := match mget (itemGate i) (heap s) with
                 | Some g => setGate (itemGate i) (dequeue id g) s
                 | None => s
                 end in
        s <| settled := settled s ++ [(id, RejectedBy (Timeout (itemTimeoutMs i) (itemModel i)))] |>
      else s
  end.

Definition markRateLimited (now : Z) (model : string) (cooldownMs : Z) (s : Sem) : Sem :=
  let '(s, gid) := getGate model ((fun '(_, g) => max g) <$> gateRef model s) s in
  let s := match mget gid (heap s) with
           | Some g => setGate gid (g <| rateLimitedUntil := Some (now + cooldownMs) |>) s
           | None => s
           end in
  s <| cooldowns := cooldowns s ++ [mkCooldown model gid (now + (cooldownMs + COOLDOWN_BUFFER_MS))] |>.

(** The callback [markRateLimited] schedules, at position [n] of the pending ones. *)
Definition cooldownFires (now : Z) (n : nat) (s : Sem) : Sem :=
  match cooldowns s !! n with
  | None => s
  | Some c =>
      let s := s <| cooldowns := removeAt n (cooldowns s) |> in
      match mget (coolGate c) (heap s) with
      | Some g =>
          if truthyNum (rateLimitedUntil g) && (now >=? orElse (rateLimitedUntil g) 0) then
            drainQueue now (coolModel c) (setGate (coolGate c) (g <| rateLimitedUntil := None |>) s)
          else s
      | None => s
      end
  end.

Record StatsEntry := mkStats { sRunning : Z; sQueued : Z; sMax : Z; sLimitedUntil : option Z }.

(** [getStats]; the date is the number it formats, absent when falsy. *)
Definition getStats (s : Sem) : list (string * StatsEntry) :=
  omap (fun '(model, _) =>
    match gateRef model s with
    | Some (_, g) =>
        Some (model, mkStats (running g) (Z.of_nat (length (queue g))) (max g)
          (if truthyNum (rateLimitedUntil g) then rateLimitedUntil g else None))
    | None => None
    end) (gates s).

Definition rejectItem (s : Sem) (id : nat) : Sem :=
  (clearItemTimer id s) <| settled := settled s ++ [(id, RejectedBy Reset)] |>.

Definition resetAll (s : Sem) : Sem :=
  (foldl (fun s '(model, _) =>
    match gateRef model s with
    | Some (_, g) => foldl rejectItem s (queue g)
    | None => s
    end) s (gates s)) <| gates := [] |>.

(** ** The quota-share slot: [combo/quotaShareConcurrency.ts] *)

Definition quotaShareConcurrencyKey (connectionId : string) : string := "qsconn:" +:+ connectionId.

(** The outcome of the call: [NoLimit] and [FailOpen] are the two ways to return
    [null], the second after the warning; [AwaitSlot] waits in the queue. *)
Inductive SlotResult := NoLimit | GotSlot (id : nat) | FailOpen | AwaitSlot (id : nat).

Definition acquireQuotaShareConcurrencySlot (now : Z) (connectionId : option string) (cap : option Z)
    (queueTimeoutMs maxQueue : Z) (s : Sem) : Sem * SlotResult :=
  let c := orElse connectionId ""%string in
  match cap with
  | None => (s, NoLimit)
  | Some cap =>
      if bool_decide (c = ""%string) || (cap <=? 0) then (s, NoLimit)
      else
        match acquire now (quotaShareConcurrencyKey c) (mkOptions (Some cap) (Some queueTimeoutMs) (Some maxQueue)) s with
        | (s, Slot id) => (s, GotSlot id)
        | (s, Refused _) => (s, FailOpen)
        | (s, Pending id) => (s, AwaitSlot id)
        end
  end.

(** How a pending slot call ends once its promise is settled. *)
Definition slotSettled (s : Sem) (id : nat) : option SlotResult :=
  match List.find (fun '(i, _) => Nat.eqb i id) (settled s) with
  | Some (_, Resolved) => Some (GotSlot id)
  | Some (_, RejectedBy _) => Some FailOpen
  | None => None
  end.

(** ** Histories *)

Inductive Op :=
| OAcquire (model : string) (o : AcquireOptions)
| ORelease (id : nat)
| OItemTimeout (id : nat)
| OMark (model : string) (cooldownMs : Z)
| OCooldown (n : nat)
| OReset.

Definition apply (now : Z) (op : Op) (s : Sem) : Sem :=
  match op with
  | OAcquire model o => (acquire now model o s).1
  | ORelease id => release now id s
  | OItemTimeout id => itemTimesOut id s
  | OMark model ms => markRateLimited now model ms s
  | OCooldown n => cooldownFires now n s
  | OReset => resetAll s
  end.

(** A timer fires at its due time at the earliest. *)
Definition allowed (now : Z) (op : Op) (s : Sem) : Prop :=
  match op with
  | OCooldown n => match cooldowns s !! n with Some c => coolDue c <= now | None => True end
  | _ => True
  end.

Definition semStep (s : Sem) (l : Z * Op) (s' : Sem) : Prop := allowed l.1 l.2 s /\ s' = apply l.1 l.2 s.

Definition run (ls : list (Z * Op)) (s : Sem) : Sem := foldl (fun s '(now, op) => apply now op s) s ls.

(** A list of operations is a history when each is allowed where it stands. *)
Fixpoint allowedAll (ls : list (Z * Op)) (s : Sem) : Prop :=
  match ls with
  | [] => True
  | (now, op) :: ls => allowed now op s /\ allowedAll ls (apply now op s)
  end.

Lemma run_reach ls s : allowedAll ls s -> reach semStep s ls (run ls s).
Proof.
  revert s. induction ls as [|[now op] ls IH]; intros s; [constructor|]. intros [Ha Hls].
  change ((now, op) :: ls) with ([(now, op)] ++ ls). eapply reach_trans; [|by apply IH].
  apply (reach_step _ _ s []); [constructor|done].
Qed.

(** The limits asked for model [m] lie in [1, L m], cooldowns end after the epoch,
    and [resetAll], for tests, is not called. *)
Definition within (L : string -> Z) (l : Z * Op) : Prop :=
  match l.2 with
  | OAcquire model o => 1 <= orElse (maxConcurrency o) DEFAULT_MAX_CONCURRENCY <= L model
  | OMark _ ms => 0 < l.1 + ms
  | OReset => False
  | _ => True
  end.

Definition holds (m : string) (r : ReleaseFn) : Z :=
  if bool_decide (relModel r = m) && negb (relDone r) then 1 else 0.

(** The slots of [m]: release functions handed out and not called yet. *)
Definition heldBy (m : string) (s : Sem) : Z := sumZ (holds m <$> mvals (releases s)).

(** Item [id] waits in gate [gid] of model [m]. *)
Definition armed (m : string) (gid id : nat) (s : Sem) : Prop :=
  exists i, mget id (items s) = Some i /\ itemTimer i = true /\ itemModel i = m /\ itemGate i = gid.

Definition timed (m : string) (gid : nat) (u : Z) (cs : list Cooldown) : Prop :=
  exists c, c ∈ cs /\ coolModel c = m /\ coolGate c = gid /\ u <= coolDue c.

(** ** Invariant *)

Record GOk (L : Z) (m : string) (gid : nat) (g : ModelGate) (cs : list Cooldown) : Prop := {
  g_running : 0 <= running g;
  g_limit : running g <= L \/ running g = 0;
  g_max : 1 <= max g;
  g_maxL : max g <= L \/ (running g = 0 /\ queue g = []);
  g_nodup : NoDup (queue g);
  g_timed : forall u, rateLimitedUntil g = Some u -> u <> 0 -> timed m gid u cs;
}.

Record Inv (L : string -> Z) (s : Sem) : Prop := {
  i_ref : forall m gid, mget m (gates s) = Some gid -> is_Some (mget gid (heap s));
  i_inj : forall m m' gid, mget m (gates s) = Some gid -> mget m' (gates s) = Some gid -> m = m';
  i_wf : mwf (gates s);
  i_heap : forall gid g, mget gid (heap s) = Some g -> (gid < nextId s)%nat;
  i_items : forall id i, mget id (items s) = Some i -> (id < nextId s)%nat;
  i_rels : forall id r, mget id (releases s) = Some r -> (id < nextId s)%nat;
  i_cool : forall c, c ∈ cooldowns s -> (coolGate c < nextId s)%nat /\
             forall m, mget m (gates s) = Some (coolGate c) -> coolModel c = m;
  i_ok : forall m gid g, gateRef m s = Some (gid, g) -> GOk (L m) m gid g (cooldowns s);
  i_count : forall m, heldBy m s = match gateRef m s with Some (_, g) => running g | None => 0 end;
  i_relwf : mwf (releases s);
  i_unserved : forall id i, mget id (items s) = Some i -> itemTimer i = true -> mget id (releases s) = None;
  i_armed : forall m gid id, armed m gid id s <-> exists g, gateRef m s = Some (gid, g) /\ id ∈ queue g;
}.

Lemma gateRef_Some m s gid g :
  gateRef m s = Some (gid, g) <-> mget m (gates s) = Some gid /\ mget gid (heap s) = Some g.
Proof.
  unfold gateRef. destruct (mget m (gates s)) as [gid'|]; simpl; [|naive_solver].
  destruct (mget gid' (heap s)) eqn:E; simpl; naive_solver.
Qed.

Lemma gateRef_None L m s : Inv L s -> gateRef m s = None -> mget m (gates s) = None.
Proof.
  intros I. unfold gateRef. destruct (mget m (gates s)) as [gid|] eqn:E; [|done]. simpl.
  destruct (i_ref _ _ I _ _ E) as [g ->]. done.
Qed.

Lemma RL_held_mset m id r s rs :
  releases s = mset id r rs ->
  heldBy m s = sumZ (holds m <$> mvals rs) + holds m r - match mget id rs with Some r0 => holds m r0 | None => 0 end.
Proof. intros E. unfold heldBy. rewrite E. apply sum_mset. Qed.

Lemma RL_empty L : Inv L emptySem.
Proof.
  split; try done; [apply mwf_nil|intros c Hc; by apply elem_of_nil in Hc|apply mwf_nil|].
  intros m gid id. split; [by intros (i & ? & _)|by intros (g & ? & _)].
Qed.

(** A gate with waiters has a slot out, or waits for the end of a cooldown. *)
Definition served (g : ModelGate) : Prop :=
  queue g = [] \/ 1 <= running g \/ truthyNum (rateLimitedUntil g) = true.

Definition Served (s : Sem) : Prop := forall m gid g, gateRef m s = Some (gid, g) -> served g.

Definition Frame (m : string) (s s' : Sem) : Prop := forall m', m' <> m -> gateRef m' s' = gateRef m' s.

Lemma Served_frame m s s' :
  Served s -> Frame m s s' -> (forall gid g, gateRef m s' = Some (gid, g) -> served g) -> Served s'.
Proof.
  intros S F Hm m' gid g. destruct (decide (m' = m)) as [->|Hne]; [apply Hm|]. rewrite F by done. apply S.
Qed.

(** A change of one gate and of the requests of its model. *)
Lemma Inv_update L m gid g g' s s' :
  Inv L s -> gateRef m s = Some (gid, g) ->
  gates s' = gates s -> cooldowns s' = cooldowns s -> (nextId s <= nextId s')%nat ->
  mget gid (heap s') = Some g' -> (forall k, k <> gid -> mget k (heap s') = mget k (heap s)) ->
  (forall id i, mget id (items s') = Some i -> (id < nextId s')%nat) ->
  (forall id r, mget id (releases s') = Some r -> (id < nextId s')%nat) ->
  mwf (releases s') ->
  (forall id i, mget id (items s') = Some i -> itemTimer i = true -> mget id (releases s') = None) ->
  GOk (L m) m gid g' (cooldowns s) ->
  heldBy m s' = running g' -> (forall m', m' <> m -> heldBy m' s' = heldBy m' s) ->
  (forall id, armed m gid id s' <-> id ∈ queue g') ->
  (forall m' gid' id, (m', gid') <> (m, gid) -> armed m' gid' id s' <-> armed m' gid' id s) ->
  Inv L s' /\ gateRef m s' = Some (gid, g') /\ Frame m s s'.
Proof.
  intros I [Hm Hg]%gateRef_Some Egs Ecs Hn Hg' Hother Hits Hrels Hrwf Huns Hok Hheld Hheld' Harm Harm'.
  assert (Frame m s s') as Hframe.
  { intros m' Hne. unfold gateRef. rewrite Egs. destruct (mget m' (gates s)) as [k|] eqn:E; [|done]. simpl.
    rewrite Hother; [done|]. intros ->. by apply Hne, (i_inj _ _ I _ _ gid). }
  assert (gateRef m s' = Some (gid, g')) as Hself by (apply gateRef_Some; by rewrite Egs).
  split; [|done]. split; try done.
  - intros m' k. rewrite Egs. intros Hk. destruct (decide (k = gid)) as [->|Hne]; [by rewrite Hg'|].
    rewrite Hother by done. by apply (i_ref _ _ I m').
  - rewrite Egs. apply (i_inj _ _ I).
  - rewrite Egs. apply I.
  - intros k x Hx. destruct (decide (k = gid)) as [->|Hne].
    + pose proof (i_heap _ _ I _ _ Hg). lia.
    + rewrite Hother in Hx by done. pose proof (i_heap _ _ I _ _ Hx). lia.
  - intros c. rewrite Ecs, Egs. intros Hc. destruct (i_cool _ _ I c Hc). split; [lia|done].
  - intros m' k x. rewrite Ecs. destruct (decide (m' = m)) as [->|Hne].
    + rewrite Hself. intros [= <- <-]. done.
    + rewrite Hframe by done. apply (i_ok _ _ I).
  - intros m'. destruct (decide (m' = m)) as [->|Hne]; [by rewrite Hself|].
    rewrite Hframe, Hheld' by done. apply (i_count _ _ I).
  - intros m' k id. destruct (decide ((m', k) = (m, gid))) as [[= -> ->]|Hne].
    + rewrite Harm, Hself. naive_solver.
    + rewrite Harm' by done. rewrite (i_armed _ _ I). destruct (decide (m' = m)) as [->|Hne'].
      * rewrite Hself. split; intros (x & Hx & _); [|naive_solver].
        apply gateRef_Some in Hx as [Hx _]. rewrite Hm in Hx. naive_solver.
      * by rewrite Hframe.
Qed.

(** A change of the gate alone that keeps its running count and its queue. *)
Lemma Inv_setGate L m gid g g' s :
  Inv L s -> gateRef m s = Some (gid, g) -> running g' = running g -> queue g' = queue g ->
  GOk (L m) m gid g' (cooldowns s) ->
  Inv L (setGate gid g' s) /\ gateRef m (setGate gid g' s) = Some (gid, g') /\ Frame m s (setGate gid g' s).
Proof.
  intros I Hg Hr Hq Hok. eapply (Inv_update L m gid g g' s); try done; simpl.
  - apply mget_mset_eq.
  - intros k Hk. by apply mget_mset_ne.
  - apply I.
  - apply I.
  - apply I.
  - apply I.
  - rewrite Hr. change (heldBy m (setGate gid g' s)) with (heldBy m s). by rewrite (i_count _ _ I m), Hg.
  - intros id. change (armed m gid id (setGate gid g' s)) with (armed m gid id s).
    rewrite (i_armed _ _ I), Hg, Hq. naive_solver.
Qed.

Lemma isRateLimited_spec now g g' b :
  isRateLimited now g = (g', b) ->
  running g' = running g /\ max g' = max g /\ queue g' = queue g /\
  (b = true -> g' = g /\ exists u, rateLimitedUntil g = Some u /\ u <> 0 /\ now < u) /\
  (b = false -> truthyNum (rateLimitedUntil g') = false /\
     forall u, rateLimitedUntil g = Some u -> u <> 0 -> u <= now).
Proof.
  unfold isRateLimited. destruct (truthyNum (rateLimitedUntil g)) eqn:E; simpl.
  - destruct (truthyNum_Some _ E) as (u & Hu & Hne). rewrite Hu. simpl.
    destruct (Z.geb_spec now u); intros [= <- <-]; (split_and!; [done..| |]); try done.
    + intros _. split; [done|]. intros. simplify_eq. lia.
    + intros _. split; [done|]. exists u. split_and!; [done..|lia].
  - intros [= <- <-]. split_and!; try done. intros _. split; [done|].
    intros u Hu Hne. rewrite Hu in E. simpl in E. to_prop. done.
Qed.

Lemma truthy_none u o : truthyNum o = false -> o = Some u -> u <> 0 -> False.
Proof. intros H -> Hne. simpl in H. to_prop. lia. Qed.

(** A slot handed to [id]: the first of the queue, or a new request. *)
Lemma Inv_grant L m gid g g' id s s' :
  Inv L s -> gateRef m s = Some (gid, g) ->
  gates s' = gates s -> cooldowns s' = cooldowns s -> (nextId s <= nextId s')%nat -> (id < nextId s')%nat ->
  mget gid (heap s') = Some g' -> (forall k, k <> gid -> mget k (heap s') = mget k (heap s)) ->
  mget id (releases s) = None -> releases s' = mset id (mkReleaseFn m false) (releases s) ->
  items s' = items (clearItemTimer id s) ->
  running g' = running g + 1 -> max g' = max g -> running g < max g -> max g <= L m -> truthyNum (rateLimitedUntil g') = false ->
  queue g' = base.filter (fun j => j <> id) (queue g) ->
  (forall m' k, armed m' k id s -> m' = m /\ k = gid) ->
  Inv L s' /\ gateRef m s' = Some (gid, g') /\ Frame m s s'.
Proof.
  intros I Hg Egs Ecs Hn Hid Hg' Hoth Hnew Erel Eits Hr Hm Hlt HmL Hlim Hq Hown.
  pose proof (i_ok _ _ I _ _ _ Hg) as [O1 O2 O3 O4 O5 O6].
  assert (forall j i, mget j (items s') = Some i -> exists i0, mget j (items s) = Some i0 /\
    itemModel i = itemModel i0 /\ itemGate i = itemGate i0 /\ itemTimer i = itemTimer i0 && bool_decide (j <> id)) as Hits.
  { intros j i. rewrite Eits. unfold clearItemTimer. destruct (mget id (items s)) as [i0|] eqn:E; simpl.
    - rewrite mget_mset. case_decide as Hj; [subst; intros [= <-]; exists i0|].
      + rewrite bool_decide_false by tauto. simpl. by rewrite andb_false_r.
      + intros Hi. exists i. rewrite bool_decide_true by done. by rewrite andb_true_r.
    - intros Hi. exists i. rewrite bool_decide_true by congruence. by rewrite andb_true_r. }
  assert (forall j i0, mget j (items s) = Some i0 -> exists i, mget j (items s') = Some i /\
    itemModel i = itemModel i0 /\ itemGate i = itemGate i0 /\ itemTimer i = itemTimer i0 && bool_decide (j <> id)) as Hits'.
  { intros j i0 Hj. rewrite Eits. unfold clearItemTimer. destruct (mget id (items s)) as [i1|] eqn:E; simpl.
    - rewrite mget_mset. case_decide as Hj'; [subst|].
      + eexists; split; [done|]. simplify_eq. rewrite bool_decide_false by tauto. simpl. by rewrite andb_false_r.
      + exists i0. rewrite bool_decide_true by done. by rewrite andb_true_r.
    - exists i0. rewrite bool_decide_true by congruence. by rewrite andb_true_r. }
  assert (forall m' k j, armed m' k j s' <-> armed m' k j s /\ j <> id) as Harm.
  { intros m' k j. split.
    - intros (i & Hi & Ht & <- & <-). destruct (Hits _ _ Hi) as (i0 & ? & -> & -> & Ht0). rewrite Ht0 in Ht.
      to_prop. split; [by exists i0|]. by eapply bool_decide_eq_true_1.
    - intros [(i0 & Hi & Ht & <- & <-) Hne]. destruct (Hits' _ _ Hi) as (i & ? & ? & ? & Ht0).
      exists i. split_and!; [done| |done..]. rewrite Ht0, Ht. simpl. by apply bool_decide_eq_true_2. }
  eapply (Inv_update L m gid g g' s); try done.
  - intros j i Hi. destruct (Hits _ _ Hi) as (i0 & Hi0 & _). pose proof (i_items _ _ I _ _ Hi0). lia.
  - intros j r. rewrite Erel, mget_mset. case_decide; [subst; lia|]. intros Hj. pose proof (i_rels _ _ I _ _ Hj). lia.
  - rewrite Erel. by apply mwf_mset, I.
  - intros j i Hi Ht. destruct (Hits _ _ Hi) as (i0 & Hi0 & _ & _ & Ht0). rewrite Ht0 in Ht. to_prop.
    rewrite Erel, mget_mset_ne; [|by eapply bool_decide_eq_true_1]. by apply (i_unserved _ _ I _ i0).
  - split; rewrite ?Hr, ?Hm; try lia.
    + rewrite Hq. by apply NoDup_filter.
    + intros u Hu Hne. destruct (truthy_none _ _ Hlim Hu Hne).
  - rewrite (RL_held_mset m id _ s' _ Erel), Hnew. fold (heldBy m s). rewrite (i_count _ _ I m), Hg. unfold holds. simpl.
    rewrite bool_decide_true by done. simpl. lia.
  - intros m' Hne. rewrite (RL_held_mset m' id _ s' _ Erel), Hnew. fold (heldBy m' s). unfold holds. simpl.
    rewrite bool_decide_false by congruence. simpl. lia.
  - intros j. rewrite Harm, (i_armed _ _ I), Hg, Hq, list_elem_of_filter. naive_solver.
  - intros m' k j Hne. rewrite Harm. split; [tauto|]. intros Ha. split; [done|]. intros ->.
    destruct (Hown _ _ Ha). congruence.
Qed.

Lemma Inv_drop L m gid g s :
  Inv L s -> gateRef m s = Some (gid, g) -> idle g = true ->
  Inv L (dropGate m s) /\ gateRef m (dropGate m s) = None /\ Frame m s (dropGate m s).
Proof.
  intros I Hg Hidle. unfold idle in Hidle. to_prop.
  assert (forall m', mget m' (gates (dropGate m s)) = if decide (m' = m) then None else mget m' (gates s)) as Hget.
  { intros m'. apply mget_mdel, I. }
  assert (forall m' k, mget m' (gates (dropGate m s)) = Some k -> m' <> m /\ mget m' (gates s) = Some k) as Hsub.
  { intros m' k. rewrite Hget. by case_decide. }
  assert (gateRef m (dropGate m s) = None) as Hm by (unfold gateRef; rewrite Hget; by rewrite decide_True).
  assert (Frame m s (dropGate m s)) as F.
  { intros m' Hne. unfold gateRef. rewrite Hget. by rewrite decide_False. }
  split; [|done]. split; simpl; try apply I.
  - intros m' k [_ Hk]%Hsub. by apply (i_ref _ _ I m').
  - intros m1 m2 k [_ Hk1]%Hsub [_ Hk2]%Hsub. by apply (i_inj _ _ I _ _ k).
  - apply mwf_mdel, I.
  - intros c Hc. destruct (i_cool _ _ I c Hc) as [? Hcool]. split; [done|]. intros m' [_ Hk]%Hsub. auto.
  - intros m' k x. destruct (decide (m' = m)) as [->|Hne]; [by rewrite Hm|]. rewrite F by done. apply I.
  - intros m'. change (heldBy m' (dropGate m s)) with (heldBy m' s). rewrite (i_count _ _ I).
    destruct (decide (m' = m)) as [->|Hne]; [rewrite Hm, Hg|by rewrite F]. lia.
  - intros m' k id. change (armed m' k id (dropGate m s)) with (armed m' k id s). rewrite (i_armed _ _ I).
    destruct (decide (m' = m)) as [->|Hne]; [rewrite Hm, Hg|by rewrite F].
    split; [|by intros (x & ? & _)]. intros (x & [= <- <-] & Hin). destruct (queue g); [|simpl in *; lia].
    by apply elem_of_nil in Hin.
Qed.

Lemma setGate_self m gid g s : gateRef m s = Some (gid, g) -> setGate gid g s = s.
Proof.
  intros [_ Hg]%gateRef_Some. unfold setGate. destruct s. cbn in *. by rewrite (mset_id _ _ _ Hg).
Qed.

(** What a drained gate looks like: nobody waits, or no slot is free, or the pause lasts. *)
Definition drained (now : Z) (g : ModelGate) : Prop :=
  queue g = [] \/ max g <= running g \/ exists u, rateLimitedUntil g = Some u /\ u <> 0 /\ now < u.

Lemma drained_served L m gid cs now g : GOk L m gid g cs -> drained now g -> served g.
Proof.
  intros O [?|[?|(u & Hu & Hne & _)]]; [by left|right; left|right; right].
  - pose proof (g_max _ _ _ _ _ O). lia.
  - rewrite Hu. simpl. by apply negb_true_iff, Z.eqb_neq.
Qed.

Lemma drainLoop_Inv L now m gid fuel g s :
  Inv L (setGate gid g s) -> mget m (gates s) = Some gid -> (length (queue g) <= fuel)%nat ->
  let r := drainLoop fuel now m gid g s in
  Inv L (setGate gid r.2 r.1) /\ gates r.1 = gates s /\ heap r.1 = heap s /\ max r.2 = max g /\ drained now r.2 /\
  cooldowns r.1 = cooldowns s.
Proof.
  revert g s. induction fuel as [|fuel IH]; intros g s I Hm Hlen; simpl.
  { destruct (queue g) eqn:Hq; [|simpl in Hlen; lia]. simpl. split_and!; try done. by left. }
  destruct (queue g) as [|id q] eqn:Hq; [simpl; split_and!; try done; by left|].
  assert (gateRef m (setGate gid g s) = Some (gid, g)) as Hg.
  { apply gateRef_Some. split; [done|]. apply mget_mset_eq. }
  pose proof (i_ok _ _ I _ _ _ Hg) as O.
  destruct (Z.ltb_spec (running g) (max g)) as [Hlt|Hge]; [|simpl; split_and!; try done; by right; left].
  destruct (isRateLimited now g) as [g1 b] eqn:Hl.
  destruct (isRateLimited_spec _ _ _ _ Hl) as (Hr & Hmx & Hqq & Hb1 & Hb2). destruct b.
  { destruct (Hb1 eq_refl) as [-> Hu]. simpl. split_and!; try done. by right; right. }
  destruct (Hb2 eq_refl) as [Hf _]. set (g2 := g1 <| queue := q |> <| running := running g1 + 1 |>).
  set (s2 := resolveWith id m (clearItemTimer id s)).
  assert (id ∈ queue g) as Hin by (rewrite Hq; by left).
  assert (armed m gid id (setGate gid g s)) as (i & Hi & Ht & Him & Hig) by (apply (i_armed _ _ I); eauto).
  pose proof (g_nodup _ _ _ _ _ O) as Hnd. rewrite Hq in Hnd. apply NoDup_cons in Hnd as [Hni Hnd].
  assert (gates s2 = gates s /\ heap s2 = heap s /\ cooldowns s2 = cooldowns s /\ nextId s2 = nextId s /\
    items s2 = items (clearItemTimer id s) /\ releases s2 = mset id (mkReleaseFn m false) (releases s)) as (E1 & E2 & E3 & E4 & E5 & E6).
  { subst s2. unfold resolveWith, clearItemTimer. cbn. by destruct (mget id (items s)). }
  destruct (Inv_grant L m gid g g2 id (setGate gid g s) (setGate gid g2 s2) I Hg) as (I2 & Hg2 & F2);
    cbn [setGate set_field gates cooldowns nextId releases items heap]; rewrite ?E1, ?E2, ?E3, ?E4, ?E5, ?E6; try done.
  - apply (i_items _ _ I _ _ Hi).
  - apply mget_mset_eq.
  - intros k Hk. by rewrite !mget_mset_ne.
  - apply (i_unserved _ _ I _ _ Hi Ht).
  - unfold clearItemTimer. cbn. by destruct (mget id (items s)).
  - subst g2. cbn. lia.
  - destruct (g_maxL _ _ _ _ _ O) as [?|[_ Hn]]; [done|congruence].
  - subst g2. cbn. rewrite Hq. rewrite filter_cons_False by tauto. symmetry. apply filter_id. by intros j Hj ->.
  - intros m' k (i' & Hi' & _ & <- & <-). cbn in Hi, Hi'. by simplify_eq.
  - destruct (IH g2 s2 I2) as (J1 & J2 & J3 & J4 & J5 & J6); [by rewrite E1|subst g2; cbn; simpl in Hlen; lia|].
    split_and!; [done|congruence|congruence| |done|congruence]. rewrite J4. subst g2. cbn. done.
Qed.

(** After [drainQueue] the gate is drained, or was idle and is gone. *)
Lemma drainQueue_Inv L now m s :
  Inv L s -> let s' := drainQueue now m s in
  Inv L s' /\ Frame m s s' /\ forall gid g, gateRef m s' = Some (gid, g) -> drained now g.
Proof.
  intros I s'. subst s'. unfold drainQueue. destruct (gateRef m s) as [[gid g]|] eqn:Hg; [|split; [done|]; split; [done|]].
  2: { intros gid g. by rewrite Hg. }
  pose proof Hg as [Hm Hh]%gateRef_Some.
  destruct (drainLoop_Inv L now m gid (length (queue g)) g s) as (I1 & E1 & E2 & _ & D & _); [by rewrite (setGate_self m)|done|lia|].
  destruct (drainLoop _ now m gid g s) as [s1 g1]. cbn [fst snd] in *.
  assert (gateRef m (setGate gid g1 s1) = Some (gid, g1)) as Hg1.
  { apply gateRef_Some. simpl. rewrite E1. split; [done|]. apply mget_mset_eq. }
  assert (Frame m s (setGate gid g1 s1)) as F1.
  { intros m' Hne. unfold gateRef. simpl. rewrite E1, E2. destruct (mget m' (gates s)) as [k|] eqn:Hk; [|done]. simpl.
    rewrite mget_mset_ne; [done|]. intros ->. by apply Hne, (i_inj _ _ I _ _ gid). }
  destruct (idle g1) eqn:Hi.
  - destruct (Inv_drop _ _ _ _ _ I1 Hg1 Hi) as (I2 & N2 & F2). split; [done|]. split.
    + intros m' Hne. by rewrite F2, F1.
    + intros k x. by rewrite N2.
  - split; [done|]. split; [done|]. intros k x. rewrite Hg1. by intros [= <- <-].
Qed.

Lemma served_of_drained L now m s :
  Inv L s -> (forall gid g, gateRef m s = Some (gid, g) -> drained now g) ->
  forall gid g, gateRef m s = Some (gid, g) -> served g.
Proof. intros I D gid g Hg. eapply drained_served; [by apply (i_ok _ _ I)|]. by eapply D. Qed.

Lemma Served_drain L now m s0 s :
  Inv L s -> Served s0 -> Frame m s0 s -> Inv L (drainQueue now m s) /\ Served (drainQueue now m s).
Proof.
  intros I S F. destruct (drainQueue_Inv L now m s I) as (I' & F' & D). split; [done|].
  apply (Served_frame m s0); [done| |by eapply served_of_drained]. intros m' Hne. by rewrite F', F.
Qed.

Definition OK L s : Prop := Inv L s /\ Served s.

Lemma getGate_OK L m mc s :
  OK L s -> 1 <= orElse mc DEFAULT_MAX_CONCURRENCY ->
  (orElse mc DEFAULT_MAX_CONCURRENCY <= L m \/ mc = max <$> (snd <$> gateRef m s)) ->
  let r := getGate m mc s in
  OK L r.1 /\ exists g, gateRef m r.1 = Some (r.2, g) /\ max g = orElse mc DEFAULT_MAX_CONCURRENCY /\
    cooldowns r.1 = cooldowns s /\ rateLimitedUntil g = (match gateRef m s with Some (_, g0) => rateLimitedUntil g0 | None => None end) /\
    releases r.1 = releases s /\ Frame m s r.1.
Proof.
  intros [I S] H1 HL. unfold getGate. destruct (gateRef m s) as [[gid g]|] eqn:Hg; cbn [fst snd].
  - pose proof (i_ok _ _ I _ _ _ Hg) as O.
    destruct (Inv_setGate L m gid g (g <| max := orElse mc DEFAULT_MAX_CONCURRENCY |>) s I Hg) as (I' & Hg' & F'); try done.
    { destruct O as [O1 O2 O3 O4 O5 O6]. split; try done. cbn. destruct HL as [?| ->]; [by left|]. done. }
    split; [split; [done|]|].
    + apply (Served_frame m s); [done..|]. intros k x. rewrite Hg'. intros [= <- <-]. by destruct (S m gid g Hg) as [?|[?|?]]; [left|right; left|right; right].
    + eexists. split_and!; [exact Hg'|done..].
  - pose proof (gateRef_None _ _ _ I Hg) as Hm.
    set (g0 := mkModelGate 0 (orElse mc DEFAULT_MAX_CONCURRENCY) [] None).
    set (s' := (setGate (nextId s) g0 s) <| gates := mset m (nextId s) (gates s) |> <| nextId := Datatypes.S (nextId s) |>).
    assert (forall m', mget m' (gates s') = if decide (m' = m) then Some (nextId s) else mget m' (gates s)) as Hgt by (intros; apply mget_mset).
    assert (forall k, mget k (heap s') = if decide (k = nextId s) then Some g0 else mget k (heap s)) as Hhp by (intros; apply mget_mset).
    assert (forall m' k, mget m' (gates s) = Some k -> (k < nextId s)%nat) as Hlt.
    { intros m' k Hk. destruct (i_ref _ _ I _ _ Hk) as [x Hx]. by apply (i_heap _ _ I _ _ Hx). }
    assert (gateRef m s' = Some (nextId s, g0)) as Hg'.
    { apply gateRef_Some. rewrite Hgt, Hhp. by rewrite !decide_True. }
    assert (Frame m s s') as F.
    { intros m' Hne. unfold gateRef. rewrite Hgt, decide_False by done. destruct (mget m' (gates s)) as [k|] eqn:Hk; [|done].
      simpl. rewrite Hhp, decide_False; [done|]. specialize (Hlt _ _ Hk). lia. }
    split; [split|].
    + split.
      * intros m' k. rewrite Hgt, Hhp. case_decide; [intros [= <-]; by rewrite decide_True|]. intros Hk.
        case_decide; [done|]. by apply (i_ref _ _ I m').
      * intros m1 m2 k. rewrite !Hgt. repeat case_decide; subst; [done| | |apply (i_inj _ _ I)];
          intros Ha Hb; simplify_eq; match goal with Hk : mget _ (gates s) = Some _ |- _ => specialize (Hlt _ _ Hk); lia end.
      * apply mwf_mset, I.
      * intros k x. rewrite Hhp. cbn. case_decide; [lia|]. intros Hx%(i_heap _ _ I). lia.
      * intros k x Hx%(i_items _ _ I). cbn. lia.
      * intros k x Hx%(i_rels _ _ I). cbn. lia.
      * intros c Hc. destruct (i_cool _ _ I c Hc) as [Hc1 Hc2]. cbn. split; [lia|]. intros m'.
        change (mset m (nextId s) (gates s)) with (gates s'). rewrite Hgt. case_decide; [intros [= ?]; lia|]. apply Hc2.
      * intros m' k x. destruct (decide (m' = m)) as [->|Hne].
        -- rewrite Hg'. intros [= <- <-]. subst g0. split; cbn; [lia|by right|done|by right|constructor|done].
        -- rewrite F by done. apply I.
      * intros m'. change (heldBy m' s') with (heldBy m' s). rewrite (i_count _ _ I).
        destruct (decide (m' = m)) as [->|Hne]; [by rewrite Hg, Hg'|by rewrite F].
      * apply I.
      * apply I.
      * intros m' k id. change (armed m' k id s') with (armed m' k id s). rewrite (i_armed _ _ I).
        destruct (decide (m' = m)) as [->|Hne]; [rewrite Hg, Hg'|by rewrite F].
        split; intros (x & ? & Hx); [done|]. simplify_eq. cbn in Hx. by apply elem_of_nil in Hx.
    + apply (Served_frame m s); [done..|]. intros k x. rewrite Hg'. intros [= <- <-]. by left.
    + exists g0. split_and!; done.
Qed.

Lemma fresh_not_armed L m k s : Inv L s -> ~ armed m k (nextId s) s.
Proof. intros I (i & Hi & _). apply (i_items _ _ I) in Hi. lia. Qed.

Lemma fresh_not_queued L m gid g s : Inv L s -> gateRef m s = Some (gid, g) -> nextId s ∉ queue g.
Proof. intros I Hg Hin. apply (fresh_not_armed L m gid s I), (i_armed _ _ I). eauto. Qed.

Lemma fresh_item L s : Inv L s -> mget (nextId s) (items s) = None.
Proof. intros I. destruct (mget _ _) eqn:E; [|done]. apply (i_items _ _ I) in E. lia. Qed.

Lemma fresh_release L s : Inv L s -> mget (nextId s) (releases s) = None.
Proof. intros I. destruct (mget _ _) eqn:E; [|done]. apply (i_rels _ _ I) in E. lia. Qed.

(** The fast path: a new request takes a free slot. *)
Lemma fastPath_OK L m gid g g1 now s :
  OK L s -> gateRef m s = Some (gid, g) -> max g <= L m -> running g < max g -> isRateLimited now g = (g1, false) ->
  OK L (resolveWith (nextId s) m
    ((setGate gid (g1 <| running := running g1 + 1 |>) (setGate gid g1 s)) <| nextId := S (nextId s) |>)).
Proof.
  intros [I S] Hg HmL Hlt Hl. destruct (isRateLimited_spec _ _ _ _ Hl) as (Hr & Hmx & Hqq & _ & Hb2).
  destruct (Hb2 eq_refl) as [Hf _]. set (s' := resolveWith _ _ _).
  assert (heap s' = mset gid (g1 <| running := running g1 + 1 |>) (heap s)) as Hheap by (subst s'; cbn; apply mset_mset).
  destruct (Inv_grant L m gid g (g1 <| running := running g1 + 1 |>) (nextId s) s s' I Hg) as (I' & Hg' & F');
    subst s'; rewrite ?Hheap; try done; cbn; try lia.
  - apply mget_mset_eq.
  - intros k Hk. by apply mget_mset_ne.
  - by eapply fresh_release.
  - unfold clearItemTimer. by rewrite (fresh_item _ _ I).
  - rewrite Hqq. symmetry. apply filter_id. intros j Hj ->. by eapply fresh_not_queued.
  - intros m' k Ha. by destruct (fresh_not_armed _ _ _ _ I Ha).
  - split; [done|]. apply (Served_frame m s); [done..|]. intros k x. rewrite Hg'. intros [= <- <-].
    right; left. cbn. pose proof (g_running _ _ _ _ _ (i_ok _ _ I _ _ _ Hg)). lia.
Qed.

(** The slow path: the request joins the queue. *)
Lemma enqueue_OK L m gid g now tmo s :
  OK L s -> gateRef m s = Some (gid, g) -> max g <= L m ->
  max g <= running g \/ (exists u, rateLimitedUntil g = Some u /\ u <> 0 /\ now < u) ->
  let s1 := (setGate gid (g <| queue := queue g ++ [nextId s] |>) s) <| nextId := S (nextId s) |> in
  OK L (s1 <| items := mset (nextId s) (mkItem m gid tmo true) (items s1) |>).
Proof.
  intros [I S] Hg HmL Hwait s1. set (id := nextId s) in *. set (s' := s1 <| items := _ |>).
  pose proof (i_ok _ _ I _ _ _ Hg) as O. set (g' := g <| queue := queue g ++ [id] |>) in *.
  assert (served g') as Hs.
  { destruct Hwait as [?|(u & Hu & Hne & _)]; [right; left|right; right].
    - pose proof (g_max _ _ _ _ _ O). subst g'. cbn. lia.
    - subst g'. cbn. rewrite Hu. simpl. by apply negb_true_iff, Z.eqb_neq. }
  assert (forall j, mget j (items s') = if decide (j = id) then Some (mkItem m gid tmo true) else mget j (items s)) as Hits.
  { intros j. apply mget_mset. }
  assert (forall m' k j, armed m' k j s' <-> armed m' k j s \/ (m' = m /\ k = gid /\ j = id)) as Harm.
  { intros m' k j. unfold armed. rewrite Hits. case_decide as Hj; subst.
    - split; [naive_solver|]. intros [(i & Hi & _)|(-> & -> & _)]; [|naive_solver].
      subst id. rewrite (fresh_item _ _ I) in Hi. done.
    - split; [by left|]. intros [?|(_ & _ & ?)]; [done|congruence]. }
  destruct (Inv_update L m gid g g' s s' I Hg) as (I' & Hg' & F'); try done.
  - subst s' s1 id. cbn. lia.
  - subst s' s1. cbn. apply mget_mset_eq.
  - intros k Hk. subst s' s1. cbn. by apply mget_mset_ne.
  - intros j i. rewrite Hits. subst s' s1 id. cbn. case_decide; [intros; lia|]. intros Hj%(i_items _ _ I). lia.
  - intros j r Hj%(i_rels _ _ I). subst s' s1 id. cbn. lia.
  - apply I.
  - intros j i. rewrite Hits. subst s' s1. cbn. case_decide; subst; [|apply (i_unserved _ _ I)].
    intros _ _. by eapply fresh_release.
  - destruct O as [O1 O2 O3 O4 O5 O6]. split; try done; subst g'; cbn; [by left|].
    apply NoDup_app. split; [done|]. split; [|apply NoDup_singleton].
    intros j Hj ->%list_elem_of_singleton. by eapply fresh_not_queued.
  - change (heldBy m s') with (heldBy m s). rewrite (i_count _ _ I m), Hg. done.
  - intros j. rewrite Harm, (i_armed _ _ I), Hg. subst g'. cbn. rewrite elem_of_app, list_elem_of_singleton. naive_solver.
  - intros m' k j Hne. rewrite Harm. naive_solver.
  - split; [done|]. apply (Served_frame m s); [done..|]. intros k x. rewrite Hg'. by intros [= <- <-].
Qed.

Lemma Served_drop L m gid g s :
  OK L s -> gateRef m s = Some (gid, g) -> idle g = true -> OK L (dropGate m s).
Proof.
  intros [I S] Hg Hi. destruct (Inv_drop _ _ _ _ _ I Hg Hi) as (I' & N & F). split; [done|].
  apply (Served_frame m s); [done..|]. intros k x. by rewrite N.
Qed.

Lemma acquire_OK L now m o s :
  OK L s -> 1 <= orElse (maxConcurrency o) DEFAULT_MAX_CONCURRENCY <= L m -> OK L (acquire now m o s).1.
Proof.
  intros HOK [H1 HL]. unfold acquire.
  destruct (getGate_OK L m (maxConcurrency o) s HOK H1 (or_introl HL)) as (HOK1 & g & Hg & Hm & _).
  destruct (getGate m (maxConcurrency o) s) as [s1 gid]. cbn [fst snd] in *.
  pose proof Hg as [_ Hh]%gateRef_Some. rewrite Hh. cbn [orElse].
  assert (max g <= L m) as HmL by lia.
  assert (forall gb, gb = (if running g <? max g then isRateLimited now g else (g, true)) ->
    (running g < max g /\ isRateLimited now g = (gb.1, false) /\ gb.2 = false) \/
    (gb = (g, true) /\ (max g <= running g \/ exists u, rateLimitedUntil g = Some u /\ u <> 0 /\ now < u))) as Hcase.
  { intros gb ->. destruct (Z.ltb_spec (running g) (max g)); [|by right; split; [|left]].
    destruct (isRateLimited now g) as [g1 b] eqn:Hl. destruct (isRateLimited_spec _ _ _ _ Hl) as (_ & _ & _ & Hb & _).
    destruct b; [right|by left]. destruct (Hb eq_refl) as [-> Hu]. by split; [|right]. }
  specialize (Hcase _ eq_refl). destruct (if running g <? max g then _ else _) as [g1 b].
  destruct Hcase as [(Hlt & Hl & Hb)|[[= -> ->] Hwait]]; cbn [fst snd] in *.
  - subst b. cbn [negb]. by eapply fastPath_OK.
  - cbn [negb]. rewrite (setGate_self _ _ _ _ Hg). destruct (match maxQueueSize o with Some _ => _ | None => _ end).
    + cbn [fst]. destruct (idle g) eqn:Hi; [by eapply Served_drop|done].
    + by eapply enqueue_OK.
Qed.

Lemma RL_held_nonneg m s : 0 <= heldBy m s.
Proof.
  unfold heldBy. apply sumZ_nonneg, Forall_fmap, Forall_forall. intros r _. unfold holds. simpl. case_if; lia.
Qed.

Lemma holds_done m r : holds m (r <| relDone := true |>) = 0.
Proof. unfold holds. cbn. by rewrite andb_false_r. Qed.

Lemma holds_open m r : relModel r = m -> relDone r = false -> holds m r = 1.
Proof. intros <- Hd. unfold holds. by rewrite bool_decide_true, Hd. Qed.

Lemma holds_other m r : m <> relModel r -> holds m r = 0.
Proof. intros Hne. unfold holds. by rewrite bool_decide_false by congruence. Qed.

(** A release function not called yet stands for one running slot of the current gate. *)
Lemma release_gate L id r s :
  Inv L s -> mget id (releases s) = Some r -> relDone r = false ->
  exists gid g, gateRef (relModel r) s = Some (gid, g) /\ 1 <= running g.
Proof.
  intros I Hr Hd. pose proof (RL_held_mset (relModel r) id (r <| relDone := true |>)
    (s <| releases := mset id (r <| relDone := true |>) (releases s) |>) (releases s) eq_refl) as E.
  rewrite Hr in E. fold (heldBy (relModel r) s) in E. rewrite holds_done, holds_open in E by done.
  pose proof (RL_held_nonneg (relModel r) (s <| releases := mset id (r <| relDone := true |>) (releases s) |>)).
  rewrite (i_count _ _ I) in E. destruct (gateRef (relModel r) s) as [[gid g]|]; [|lia]. exists gid, g. split; [done|lia].
Qed.

Lemma release_Inv L now id r s :
  OK L s -> mget id (releases s) = Some r -> relDone r = false ->
  exists s1 gid g, gateRef (relModel r) s = Some (gid, g) /\ Inv L s1 /\ Frame (relModel r) s s1 /\
    gateRef (relModel r) s1 = Some (gid, g <| running := running g - 1 |>) /\
    release now id s = if idle (g <| running := running g - 1 |>) then dropGate (relModel r) s1 else drainQueue now (relModel r) s1.
Proof.
  intros [I S] Hr Hd. set (m := relModel r). destruct (release_gate L id r s I Hr Hd) as (gid & g & Hg & H1). fold m in Hg.
  set (g' := g <| running := running g - 1 |>). set (s0 := s <| releases := mset id (r <| relDone := true |>) (releases s) |>).
  exists (setGate gid g' s0), gid, g. split; [done|].
  assert (release now id s = if idle g' then dropGate m (setGate gid g' s0) else drainQueue now m (setGate gid g' s0)) as Hrel.
  { unfold release. rewrite Hr, Hd. fold s0 m. change (gateRef m s0) with (gateRef m s). rewrite Hg.
    rewrite (proj2 (Z.gtb_lt (running g) 0)) by lia. done. }
  rewrite Hrel. pose proof (i_ok _ _ I _ _ _ Hg) as [O1 O2 O3 O4 O5 O6].
  destruct (Inv_update L m gid g g' s (setGate gid g' s0) I Hg) as (I' & Hg' & F'); try done.
  - apply mget_mset_eq.
  - intros k Hk. cbn. by apply mget_mset_ne.
  - apply I.
  - intros j x. cbn. rewrite mget_mset. case_decide; [subst; intros _; by apply (i_rels _ _ I _ r)|apply (i_rels _ _ I)].
  - apply mwf_mset, I.
  - intros j i Hi Ht. cbn. rewrite mget_mset_ne; [by apply (i_unserved _ _ I _ i)|].
    intros ->. rewrite (i_unserved _ _ I _ _ Hi Ht) in Hr. done.
  - split; try done; subst g'; cbn; try lia.
  - rewrite (RL_held_mset m id (r <| relDone := true |>) (setGate gid g' s0) (releases s) eq_refl), Hr. fold (heldBy m s).
    rewrite (i_count _ _ I). rewrite Hg, holds_done, holds_open by done. cbn. lia.
  - intros m' Hne. rewrite (RL_held_mset m' id (r <| relDone := true |>) (setGate gid g' s0) (releases s) eq_refl), Hr. fold (heldBy m' s).
    rewrite holds_done, holds_other by done. lia.
  - intros j. change (armed m gid j (setGate gid g' s0)) with (armed m gid j s).
    rewrite (i_armed _ _ I). rewrite Hg. subst g'. cbn. naive_solver.
Qed.

Lemma release_OK L now id s : OK L s -> OK L (release now id s).
Proof.
  intros HOK. unfold release at 1. destruct (mget id (releases s)) as [r|] eqn:Hr; [|done].
  destruct (relDone r) eqn:Hd; [done|].
  destruct (release_Inv L now id r s HOK Hr Hd) as (s1 & gid & g & Hg & I1 & F1 & Hg1 & E).
  unfold release in E. rewrite Hr, Hd in E. rewrite E. destruct (idle _) eqn:Hi.
  - destruct (Inv_drop _ _ _ _ _ I1 Hg1 Hi) as (I' & N & F). split; [done|].
    apply (Served_frame (relModel r) s); [apply HOK| |]; [intros m' Hne; by rewrite F, F1|]. intros k x. by rewrite N.
  - apply (Served_drain L now (relModel r) s); [done|apply HOK|done].
Qed.

Lemma dequeue_filter id g : NoDup (queue g) ->
  dequeue id g = g <| queue := base.filter (fun j => j <> id) (queue g) |>.
Proof.
  intros Hnd. unfold dequeue. destruct (findIndex (Nat.eqb id) (queue g)) as [i|] eqn:E.
  - apply findIndex_Some in E as (x & Hx & ->%Nat.eqb_eq). f_equal. by rewrite (removeAt_filter _ _ _ Hnd Hx).
  - apply findIndex_None in E. rewrite filter_id; [by destruct g|]. intros j Hj ->.
    eapply Forall_forall in E; [|exact Hj]. by rewrite Nat.eqb_refl in E.
Qed.

Lemma itemTimesOut_OK L id s : OK L s -> OK L (itemTimesOut id s).
Proof.
  intros [I S]. unfold itemTimesOut. destruct (mget id (items s)) as [i|] eqn:Hi; [|done]. destruct (itemTimer i) eqn:Ht; [|done].
  assert (armed (itemModel i) (itemGate i) id s) as Ha by (by exists i).
  apply (i_armed _ _ I) in Ha as (g & Hg & Hin). pose proof Hg as [_ Hh]%gateRef_Some.
  unfold clearItemTimer. rewrite Hi. set (s1 := s <| items := _ |>). change (heap s1) with (heap s). rewrite Hh.
  pose proof (i_ok _ _ I _ _ _ Hg) as [O1 O2 O3 O4 O5 O6]. rewrite dequeue_filter by done.
  set (g' := g <| queue := _ |>). set (s' := set_field _ _).
  assert (forall j, mget j (items s') = if decide (j = id) then Some (i <| itemTimer := false |>) else mget j (items s)) as Hits.
  { intros j. apply mget_mset. }
  assert (forall m' k j, armed m' k j s' <-> armed m' k j s /\ j <> id) as Harm.
  { intros m' k j. unfold armed. rewrite Hits. case_decide as Hj; subst; [|tauto].
    split; [intros (x & [= <-] & Hx & _); done|tauto]. }
  destruct (Inv_update L (itemModel i) (itemGate i) g g' s s' I Hg) as (I' & Hg' & F'); try done.
  - subst s'. cbn. apply mget_mset_eq.
  - intros k Hk. subst s'. cbn. by apply mget_mset_ne.
  - intros j x. rewrite Hits. case_decide; [subst; intros _; by apply (i_items _ _ I _ i)|apply (i_items _ _ I)].
  - apply I.
  - apply I.
  - intros j x. rewrite Hits. case_decide; [intros [= <-]; done|apply (i_unserved _ _ I)].
  - split; try done; subst g'; cbn; [|by apply NoDup_filter].
    destruct O4 as [?|[? Hq]]; [by left|]. rewrite Hq in Hin. by apply elem_of_nil in Hin.
  - change (heldBy (itemModel i) s') with (heldBy (itemModel i) s). by rewrite (i_count _ _ I), Hg.
  - intros j. rewrite Harm, (i_armed _ _ I), Hg. subst g'. cbn. rewrite list_elem_of_filter. naive_solver.
  - intros m' k j Hne. rewrite Harm. split; [tauto|]. intros Ha. split; [done|]. intros ->.
    destruct Ha as (x & Hx & _ & <- & <-). congruence.
  - split; [done|]. apply (Served_frame (itemModel i) s); [done..|]. intros k x. rewrite Hg'. intros [= <- <-].
    destruct (S _ _ _ Hg) as [Hq|?]; [left|by right]. subst g'. cbn. by rewrite Hq.
Qed.

Lemma timed_mono m gid u cs cs' : (forall c, c ∈ cs -> c ∈ cs') -> timed m gid u cs -> timed m gid u cs'.
Proof. intros Hsub (c & Hc & ?). exists c. auto. Qed.

(** A change of the pending cooldowns that keeps those the gates wait for. *)
Lemma Inv_cooldowns L s cs :
  Inv L s ->
  (forall c, c ∈ cs -> (coolGate c < nextId s)%nat /\ forall m, mget m (gates s) = Some (coolGate c) -> coolModel c = m) ->
  (forall m gid g u, gateRef m s = Some (gid, g) -> rateLimitedUntil g = Some u -> u <> 0 -> timed m gid u cs) ->
  Inv L (s <| cooldowns := cs |>).
Proof.
  intros [] Hc Ht. split; try done. intros m gid g Hg. destruct (i_ok0 m gid g Hg). split; try done.
  intros u. by apply (Ht m gid g u).
Qed.

Lemma markRateLimited_OK L now m ms s : 0 < now + ms -> OK L s -> OK L (markRateLimited now m ms s).
Proof.
  intros Hpos HOK. unfold markRateLimited. set (mc := (fun '(_, g) => max g) <$> gateRef m s).
  assert (mc = max <$> (snd <$> gateRef m s)) as Hmc by (subst mc; by destruct (gateRef m s) as [[? ?]|]).
  assert (1 <= orElse mc DEFAULT_MAX_CONCURRENCY) as H1.
  { subst mc. destruct (gateRef m s) as [[gid g]|] eqn:Hg; [|done]. apply (i_ok _ _ (proj1 HOK) _ _ _ Hg). }
  destruct (getGate_OK L m mc s HOK H1 (or_intror Hmc)) as ([I1 S1] & g & Hg & _ & _ & _).
  destruct (getGate m mc s) as [s1 gid]. cbn [fst snd] in *. pose proof Hg as [Hm Hh]%gateRef_Some. rewrite Hh.
  set (c := mkCooldown _ _ _). set (g' := g <| rateLimitedUntil := _ |>).
  pose proof (i_heap _ _ I1 _ _ Hh) as Hlt.
  assert (Inv L (s1 <| cooldowns := cooldowns s1 ++ [c] |>)) as I2.
  { apply Inv_cooldowns; [done| |].
    - intros c'. rewrite elem_of_app, list_elem_of_singleton. intros [Hc| ->]; [by apply (i_cool _ _ I1)|].
      split; [done|]. intros m' Hm'. cbn in *. by apply (i_inj _ _ I1 _ _ gid).
    - intros m' k x u Hx Hu Hne. eapply timed_mono; [|by apply (g_timed _ _ _ _ _ (i_ok _ _ I1 _ _ _ Hx))].
      intros c' Hc'. apply elem_of_app. by left. }
  destruct (Inv_setGate L m gid g g' (s1 <| cooldowns := cooldowns s1 ++ [c] |>) I2) as (I3 & Hg3 & F3); try done.
  - destruct (i_ok _ _ I2 m gid g Hg) as [O1 O2 O3 O4 O5 O6]. split; try done. subst g'. cbn. intros u [= <-] _.
    exists c. split_and!; [apply elem_of_app; right; by apply list_elem_of_singleton|done|done|].
    subst c. cbn. unfold COOLDOWN_BUFFER_MS. lia.
  - change (OK L (setGate gid g' (s1 <| cooldowns := cooldowns s1 ++ [c] |>))). split; [done|].
    apply (Served_frame m s1); [done|done|]. intros k x. rewrite Hg3. intros [= <- <-].
    right; right. subst g'. cbn. apply negb_true_iff, Z.eqb_neq. lia.
Qed.

Lemma Inv_setStale L k g s :
  Inv L s -> (forall m, mget m (gates s) <> Some k) -> is_Some (mget k (heap s)) ->
  Inv L (setGate k g s) /\ forall m, gateRef m (setGate k g s) = gateRef m s.
Proof.
  intros I Hst [g0 Hk].
  assert (forall m, gateRef m (setGate k g s) = gateRef m s) as F.
  { intros m. unfold gateRef. cbn. destruct (mget m (gates s)) as [j|] eqn:Hj; [|done]. simpl.
    rewrite mget_mset_ne; [done|]. intros ->. by apply (Hst m). }
  split; [|done]. split; try apply I.
  - intros m j Hj. cbn. rewrite mget_mset_ne; [by apply (i_ref _ _ I m)|]. intros ->. by apply (Hst m).
  - intros j x. cbn. rewrite mget_mset. case_decide; [subst; intros _; by apply (i_heap _ _ I _ g0)|apply (i_heap _ _ I)].
  - intros m j x. rewrite F. apply (i_ok _ _ I).
  - intros m. rewrite F. apply (i_count _ _ I).
  - intros m j id. rewrite F. apply (i_armed _ _ I).
Qed.

(** A cooldown timer clears the pause of its gate, or leaves every gate as it is. *)
Lemma cooldownFires_split L now n c s :
  OK L s -> cooldowns s !! n = Some c -> coolDue c <= now ->
  exists s1, Inv L s1 /\ Frame (coolModel c) s s1 /\
    (cooldownFires now n s = drainQueue now (coolModel c) s1 \/ (cooldownFires now n s = s1 /\ Served s1 /\
       forall g u, gateRef (coolModel c) s = Some (coolGate c, g) -> rateLimitedUntil g = Some u -> u <> 0 -> now < u)) /\
    (gateRef (coolModel c) s1 = gateRef (coolModel c) s \/
     exists gid g u, gateRef (coolModel c) s = Some (gid, g) /\ rateLimitedUntil g = Some u /\ u <= now).
Proof.
  intros [I S] Hn Hdue. unfold cooldownFires. rewrite Hn. set (cs := removeAt n (cooldowns s)). set (s1 := s <| cooldowns := cs |>).
  change (heap s1) with (heap s).
  assert (c ∈ cooldowns s) as Hc by (by apply list_elem_of_lookup_2 in Hn).
  assert (forall c', c' ∈ cs -> c' ∈ cooldowns s) as Hsub by (intros c' Hc'; eapply elem_of_sublist; [exact Hc'|apply removeAt_sublist]).
  assert (forall c', c' ∈ cooldowns s -> c' <> c -> c' ∈ cs) as Hkeep.
  { intros c' Hin Hne. rewrite (removeAt_perm _ _ _ Hn), elem_of_cons in Hin. by destruct Hin. }
  destruct (i_cool _ _ I c Hc) as [_ Hmod].
  assert (forall st gs, Inv L st -> gates st = gates s -> nextId st = nextId s -> cooldowns st = cooldowns s ->
    (forall m gid g, gateRef m st = Some (gid, g) -> gid = coolGate c ->
       forall u, rateLimitedUntil g = Some u -> u <> 0 -> now < u) -> gs = cs -> Inv L (st <| cooldowns := gs |>)) as Hdrop.
  { intros st gs Ist Eg En Ec Hlim ->. apply Inv_cooldowns; [done| |].
    - intros c' Hc'. rewrite En, Eg. by apply (i_cool _ _ I), Hsub.
    - intros m gid g u Hg Hu Hne. destruct (g_timed _ _ _ _ _ (i_ok _ _ Ist _ _ _ Hg) u Hu Hne) as (c' & Hc' & Hm' & Hg' & Hle).
      exists c'. split; [|done]. rewrite Ec in Hc'. apply Hkeep; [done|]. intros ->.
      specialize (Hlim m gid g Hg (eq_sym Hg') u Hu Hne). lia. }
  destruct (mget (coolGate c) (heap s)) as [g|] eqn:Hh.
  - destruct (truthyNum (rateLimitedUntil g) && (now >=? orElse (rateLimitedUntil g) 0)) eqn:Hcl.
    + apply andb_true_iff in Hcl as [(u & Hu & Hne)%truthyNum_Some Hge]. rewrite Hu in Hge. cbn [orElse] in Hge. to_prop.
      set (g' := g <| rateLimitedUntil := None |>).
      change (setGate (coolGate c) g' s1) with ((setGate (coolGate c) g' s) <| cooldowns := cs |>).
      exists ((setGate (coolGate c) g' s) <| cooldowns := cs |>).
      destruct (decide (mget (coolModel c) (gates s) = Some (coolGate c))) as [Hcur|Hst].
      * assert (gateRef (coolModel c) s = Some (coolGate c, g)) as Hg by (by apply gateRef_Some).
        pose proof (i_ok _ _ I _ _ _ Hg) as [O1 O2 O3 O4 O5 O6].
        destruct (Inv_setGate L (coolModel c) (coolGate c) g g' s I Hg) as (I2 & Hg2 & F2); [done|done|by split|].
        split; [|split; [done|split; [by left|right; by exists (coolGate c), g, u]]].
        apply Hdrop; try done. intros m gid x Hx -> w Hw _. pose proof Hx as [Hxm _]%gateRef_Some.
        change (gates (setGate (coolGate c) g' s)) with (gates s) in Hxm. rewrite (Hmod m Hxm) in Hg2. rewrite Hx in Hg2. by injection Hg2 as ->.
      * assert (forall m, mget m (gates s) <> Some (coolGate c)) as Hst'.
        { intros m Hm. apply Hst. by rewrite (Hmod m Hm). }
        destruct (Inv_setStale L (coolGate c) g' s I Hst') as [I2 F2]; [by rewrite Hh|].
        split; [|split; [intros m _; apply F2|split; [by left|left; apply F2]]].
        apply Hdrop; try done. intros m gid x [Hx _]%gateRef_Some ->. by destruct (Hst' m).
    + assert (forall m x u, gateRef m s = Some (coolGate c, x) -> rateLimitedUntil x = Some u -> u <> 0 -> now < u) as Hlim.
      { intros m x u [_ Hx]%gateRef_Some Hu Hne. rewrite Hh in Hx. injection Hx as <-.
        rewrite Hu in Hcl. cbn [orElse truthyNum] in Hcl. rewrite (proj2 (Z.eqb_neq u 0) Hne) in Hcl. cbn in Hcl. to_prop. lia. }
      exists s1. split; [|split; [done|split; [right; split_and!; [done..|apply Hlim]|by left]]].
      apply (Hdrop s cs); try done. intros m gid x Hx -> u. by apply (Hlim m).
  - exists s1. split; [|split; [done|split; [right; split_and!; [done..|]|by left]]].
    2: { intros x u [_ Hx]%gateRef_Some. by rewrite Hh in Hx. }
    apply (Hdrop s cs); try done. intros m gid x [_ Hx]%gateRef_Some ->. by rewrite Hh in Hx.
Qed.

Lemma cooldownFires_OK L now n s : allowed now (OCooldown n) s -> OK L s -> OK L (cooldownFires now n s).
Proof.
  intros Ha HOK. simpl in Ha. destruct (cooldowns s !! n) as [c|] eqn:Hn; [|unfold cooldownFires; by rewrite Hn].
  destruct (cooldownFires_split L now n c s HOK Hn Ha) as (s1 & I1 & F1 & [-> |(-> & S1 & _)] & _); [|done].
  apply (Served_drain L now _ s); [done|apply HOK|done].
Qed.

Lemma OK_step L s l s' : OK L s -> within L l -> semStep s l s' -> OK L s'.
Proof.
  destruct l as [now op]. intros HOK Hw [Ha ->]. destruct op; unfold within in Hw; cbn [fst snd apply] in *.
  - by apply acquire_OK.
  - by apply release_OK.
  - by apply itemTimesOut_OK.
  - by apply markRateLimited_OK.
  - by apply cooldownFires_OK.
  - done.
Qed.

Lemma OK_reach L ls s : Forall (within L) ls -> reach semStep emptySem ls s -> OK L s.
Proof.
  intros HF Hr. induction Hr as [|s ls l s' Hr IH Hs].
  - split; [apply RL_empty|]. by intros m gid g Hg.
  - apply Forall_app in HF as [HF [Hl _]%Forall_cons_1]. eapply OK_step; eauto.
Qed.

(** ** A paused gate *)

Definition pausedUntil (now : Z) (m : string) (s : Sem) : Prop :=
  exists gid g u, gateRef m s = Some (gid, g) /\ rateLimitedUntil g = Some u /\ u <> 0 /\ now < u.

Lemma isRateLimited_paused now g u :
  rateLimitedUntil g = Some u -> u <> 0 -> now < u -> isRateLimited now g = (g, true).
Proof.
  intros Hu Hne Hlt. unfold isRateLimited. rewrite Hu. cbn [truthyNum orElse].
  rewrite (proj2 (Z.eqb_neq u 0) Hne). cbn. destruct (Z.geb_spec now u); [lia|done].
Qed.

Lemma drainQueue_paused now m s : pausedUntil now m s -> releases (drainQueue now m s) = releases s.
Proof.
  intros (gid & g & u & Hg & Hu & Hne & Hlt). unfold drainQueue. rewrite Hg.
  assert (drainLoop (length (queue g)) now m gid g s = (s, g)) as ->.
  { destruct (queue g) eqn:Hq; simpl; rewrite Hq; [done|]. case_if; [|done]. by rewrite (isRateLimited_paused _ _ _ Hu). }
  cbn. case_if; done.
Qed.

Lemma getGate_releases m mc s : releases (getGate m mc s).1 = releases s.
Proof. unfold getGate. by destruct (gateRef m s) as [[? ?]|]. Qed.

Lemma markRateLimited_releases now m ms s : releases (markRateLimited now m ms s) = releases s.
Proof.
  unfold markRateLimited. pose proof (getGate_releases m ((fun '(_, g) => max g) <$> gateRef m s) s) as E.
  destruct (getGate _ _ s) as [s1 gid]. cbn [fst] in E. by destruct (mget gid (heap s1)).
Qed.

Lemma itemTimesOut_releases id s : releases (itemTimesOut id s) = releases s.
Proof.
  unfold itemTimesOut, clearItemTimer. destruct (mget id (items s)) as [i|]; [|done]. destruct (itemTimer i); [|done].
  cbn. by destruct (mget _ (heap s)).
Qed.

Lemma acquire_releases L now m o s :
  OK L s -> within L (now, OAcquire m o) ->
  releases (acquire now m o s).1 = releases s \/
  (~ pausedUntil now m s /\ exists id, mget id (releases s) = None /\
   releases (acquire now m o s).1 = mset id (mkReleaseFn m false) (releases s)).
Proof.
  intros HOK [H1 HL]. unfold acquire. cbn [fst snd] in *.
  destruct (getGate_OK L m (maxConcurrency o) s HOK H1 (or_introl HL)) as ([I1 _] & g & Hg & _ & _ & Hlim & Hrel & _).
  destruct (getGate m (maxConcurrency o) s) as [s1 gid]. cbn [fst snd] in *.
  pose proof Hg as [_ Hh]%gateRef_Some. rewrite Hh. cbn [orElse].
  destruct (if running g <? max g then isRateLimited now g else (g, true)) as [g1 b] eqn:Hb. destruct b; cbn [negb].
  - left. destruct (match maxQueueSize o with Some _ => _ | None => _ end); [cbn; by case_if|done].
  - right. case_if_in Hb; [|done]. split.
    + intros (gid0 & g0 & u & Hg0 & Hu & Hne & Hlt). rewrite Hg0 in Hlim. rewrite (isRateLimited_paused now g u) in Hb; [done|congruence|done..].
    + exists (nextId s1). rewrite <- Hrel. split; [by eapply fresh_release|done].
Qed.

(** ** Properties *)

(** C7. Bounded concurrency per model.  In every history where the limits asked
    for a model are at least one and at most [L], the slots handed out and not
    released are exactly the running count of the model's gate and never exceed
    [L], whatever gates are dropped and recreated and in whatever order releases,
    timeouts, cooldowns and acquisitions come; a request that waits has no slot. *)
Theorem rate_semaphore_bound (L : string -> Z) ls s m :
  (forall m, 0 <= L m) -> Forall (within L) ls -> reach semStep emptySem ls s ->
  heldBy m s = match gateRef m s with Some (_, g) => running g | None => 0 end /\ heldBy m s <= L m /\
  forall id gid, armed m gid id s -> mget id (releases s) = None.
Proof.
  intros HL HF Hr. destruct (OK_reach L ls s HF Hr) as [I _]. split; [apply (i_count _ _ I)|]. split.
  - rewrite (i_count _ _ I). specialize (HL m). destruct (gateRef m s) as [[gid g]|] eqn:Hg; [|done].
    destruct (g_limit _ _ _ _ _ (i_ok _ _ I _ _ _ Hg)); lia.
  - intros id gid (i & Hi & Ht & _). by apply (i_unserved _ _ I _ i).
Qed.

(** C31. No waiter is stranded.  In every such history a request that waits for a
    model stands in the queue of the model's current gate, and either some slot
    of the model is still out, whose release drains the queue, or the gate is
    paused and the timer of its cooldown is pending, whose firing drains it;
    drained means that nobody waits, no slot is free, or a pause lasts. *)
Theorem waiter_not_stranded (L : string -> Z) ls s id m gid :
  Forall (within L) ls -> reach semStep emptySem ls s -> armed m gid id s ->
  exists g, gateRef m s = Some (gid, g) /\ id ∈ queue g /\
  ((exists rid r, mget rid (releases s) = Some r /\ relModel r = m /\ relDone r = false /\
     forall now gid' g', gateRef m (release now rid s) = Some (gid', g') -> drained now g') \/
   (exists n c u, cooldowns s !! n = Some c /\ coolModel c = m /\ coolGate c = gid /\
     rateLimitedUntil g = Some u /\ u <= coolDue c /\
     forall now gid' g', coolDue c <= now -> gateRef m (cooldownFires now n s) = Some (gid', g') -> drained now g')).
Proof.
  intros HF Hr Ha. destruct (OK_reach L ls s HF Hr) as [I S]. apply (i_armed _ _ I) in Ha as (g & Hg & Hin).
  exists g. split; [done|]. split; [done|]. destruct (S m gid g Hg) as [Hq|[Hrun|(u & Hu & Hne)%truthyNum_Some]].
  - rewrite Hq in Hin. by apply elem_of_nil in Hin.
  - left. assert (exists rid r, mget rid (releases s) = Some r /\ relModel r = m /\ relDone r = false) as (rid & r & Hrel & Hm & Hd).
    { pose proof (i_count _ _ I m) as Hc. rewrite Hg in Hc. unfold heldBy in Hc. destruct (sumZ_pos_elem (holds m <$> mvals (releases s))) as (x & Hx & Hpos); [lia|].
      apply list_elem_of_fmap in Hx as (r & -> & Hx). apply list_elem_of_fmap in Hx as ([rid r'] & -> & Hx).
      exists rid, r'. apply mget_elem in Hx; [|apply I]. unfold holds in Hpos. cbn in Hpos. case_if_in Hpos; [|lia]. to_prop.
      split_and!; [done|by eapply bool_decide_eq_true_1|done]. }
    exists rid, r. split_and!; try done. intros now gid' g'.
    destruct (release_Inv L now rid r s (conj I S) Hrel Hd) as (s1 & gid1 & g1 & _ & I1 & _ & Hg1 & ->). rewrite Hm in *.
    destruct (idle _) eqn:Hi; [by rewrite (proj1 (proj2 (Inv_drop _ _ _ _ _ I1 Hg1 Hi)))|].
    apply (drainQueue_Inv L now m s1 I1).
  - right. destruct (g_timed _ _ _ _ _ (i_ok _ _ I _ _ _ Hg) u Hu Hne) as (c & Hc & Hm & Hcg & Hle).
    apply list_elem_of_lookup_1 in Hc as [n Hn]. exists n, c, u. split_and!; try done. intros now gid' g' Hdue.
    destruct (cooldownFires_split L now n c s (conj I S) Hn Hdue) as (s1 & I1 & _ & [-> |(_ & _ & Hlim)] & _).
    + rewrite Hm. apply (drainQueue_Inv L now m s1 I1).
    + rewrite Hm, Hcg in Hlim. specialize (Hlim g u Hg Hu Hne). lia.
Qed.

(** A paused gate grants nothing.  While the gate of a model exists and its
    cooldown has not ended, no operation hands out a slot of that model. *)
Theorem paused_gate_grants_nothing (L : string -> Z) ls s now op s' m :
  Forall (within L) ls -> reach semStep emptySem ls s -> pausedUntil now m s ->
  within L (now, op) -> semStep s (now, op) s' -> heldBy m s' <= heldBy m s.
Proof.
  intros HF Hr Hp Hw [Ha ->]. pose proof (OK_reach L ls s HF Hr) as HOK. cbn [fst snd] in *.
  destruct op as [m' o|id|id|m' ms|n|]; cbn [apply].
  - destruct (acquire_releases L now m' o s HOK Hw) as [E|(Hn & id & Hid & E)]; [unfold heldBy; rewrite E; lia|].
    rewrite (RL_held_mset m id _ _ _ E), Hid. fold (heldBy m s). rewrite holds_other; [lia|]. by intros ->.
  - destruct (mget id (releases s)) as [r|] eqn:Hr'; [|unfold release; rewrite Hr'; lia].
    destruct (relDone r) eqn:Hd; [unfold release; rewrite Hr', Hd; lia|].
    destruct (release_Inv L now id r s HOK Hr' Hd) as (s1 & gid & g & Hg & I1 & F1 & Hg1 & ->).
    destruct (decide (m = relModel r)) as [->|Hne].
    + assert (heldBy (relModel r) s1 <= heldBy (relModel r) s) as Hle.
      { rewrite (i_count _ _ I1), Hg1, (i_count _ _ (proj1 HOK)), Hg. cbn. lia. }
      destruct (idle _); [done|]. unfold heldBy at 1. rewrite drainQueue_paused; [done|].
      destruct Hp as (gid2 & g2 & u & Hg2 & ?). rewrite Hg2 in Hg. injection Hg as -> ->. by eexists _, _, u.
    + destruct (idle _) eqn:Hi.
      * destruct (Inv_drop _ _ _ _ _ I1 Hg1 Hi) as (I2 & _ & F2). rewrite (i_count _ _ I2), F2, F1, <- (i_count _ _ (proj1 HOK)) by done. lia.
      * destruct (drainQueue_Inv L now (relModel r) s1 I1) as (I2 & F2 & _). rewrite (i_count _ _ I2), F2, F1, <- (i_count _ _ (proj1 HOK)) by done. lia.
  - unfold heldBy. rewrite itemTimesOut_releases. lia.
  - unfold heldBy. rewrite markRateLimited_releases. lia.
  - cbn in Ha. destruct (cooldowns s !! n) as [c|] eqn:Hn; [|unfold cooldownFires; rewrite Hn; lia].
    destruct (cooldownFires_split L now n c s HOK Hn Ha) as (s1 & I1 & F1 & Hres & Hgr).
    destruct Hp as (gid & g & u & Hg & Hu & Hne & Hlt).
    assert (gateRef m s1 = Some (gid, g)) as Hg1.
    { destruct (decide (m = coolModel c)) as [->|Hnm]; [|by rewrite F1].
      destruct Hgr as [->|(gid' & g' & u' & Hg' & Hu' & Hle)]; [done|]. rewrite Hg in Hg'. simplify_eq. lia. }
    assert (heldBy m s1 = heldBy m s) as <- by (by rewrite (i_count _ _ I1), (i_count _ _ (proj1 HOK)), Hg, Hg1).
    destruct Hres as [-> |[-> _]]; [|lia]. destruct (decide (m = coolModel c)) as [->|Hnm].
    + unfold heldBy. rewrite drainQueue_paused; [lia|]. by exists gid, g, u.
    + destruct (drainQueue_Inv L now (coolModel c) s1 I1) as (I2 & F2 & _).
      rewrite (i_count _ _ I2), F2, <- (i_count _ _ I1) by done. lia.
  - done.
Qed.

(** ** Witnesses *)

Definition exOpts (n : Z) : AcquireOptions := mkOptions (Some n) None None.

(** One slot, a second request that waits, a pause, a third model untouched. *)
Definition exOps : list (Z * Op) :=
  [(1000, OAcquire "a" (exOpts 1)); (1001, OAcquire "a" (exOpts 1)); (1002, OMark "a" 500); (1003, OAcquire "b" (exOpts 2))].

Definition exRun : Sem := run exOps emptySem.

Lemma exRun_reach : reach semStep emptySem exOps exRun.
Proof. apply run_reach. vm_compute. done. Qed.

Lemma exRun_within : Forall (within (fun _ => 2)) exOps.
Proof. repeat constructor; vm_compute; congruence. Qed.

Lemma rate_semaphore_bound_witness : heldBy "a" exRun = 1 /\ heldBy "a" exRun <= 2.
Proof.
  split; [vm_compute; reflexivity|].
  exact (proj1 (proj2 (rate_semaphore_bound (fun _ => 2) exOps exRun "a" ltac:(done) exRun_within exRun_reach))).
Defined.

Lemma waiter_not_stranded_witness : exists g, gateRef "a" exRun = Some (0%nat, g) /\ 2%nat ∈ queue g.
Proof.
  destruct (waiter_not_stranded (fun _ => 2) exOps exRun 2 "a" 0 exRun_within exRun_reach) as (g & Hg & Hin & _).
  - exists (mkItem "a" 0 30000 true). vm_compute. done.
  - exists g. done.
Defined.

Lemma paused_gate_grants_nothing_witness : heldBy "a" (release 1100 1 exRun) <= heldBy "a" exRun.
Proof.
  refine (paused_gate_grants_nothing (fun _ => 2) exOps exRun 1100 (ORelease 1) _ "a" exRun_within exRun_reach _ I (conj I eq_refl)).
  exists 0%nat, (mkModelGate 1 1 [2%nat] (Some 1502)), 1502. split; [vm_compute; reflexivity|]. split_and!; done.
Defined.

(** ** Findings *)

(** Releasing the last slot drops the gate together with its pause: the next
    request is served at once, 499 ms before the cooldown ends. *)
Definition forgetHistory : Sem :=
  let s := (acquire 1000 "a" (exOpts 1) emptySem).1 in
  let s := markRateLimited 1001 "a" 500 s in
  release 1002 1 s.

Lemma cooldown_forgotten :
  pausedUntil 1002 "a" (markRateLimited 1001 "a" 500 (acquire 1000 "a" (exOpts 1) emptySem).1) /\
  (acquire 1002 "a" (exOpts 1) forgetHistory).2 = Slot 3.
Proof.
  split; [|vm_compute; reflexivity]. exists 0%nat, (mkModelGate 1 1 [] (Some 1501)), 1501.
  split; [vm_compute; reflexivity|done].
Qed.

(** Between the end of a cooldown and its timer 50 ms later a new request
    overtakes the one that waits, and the timer then finds nothing to do: two of
    the three slots stay free beside a waiting request. *)
Definition overtakeHistory : Sem :=
  let s := markRateLimited 1000 "a" 500 emptySem in
  let s := (acquire 1100 "a" (exOpts 3) s).1 in
  let s := (acquire 1510 "a" (exOpts 3) s).1 in
  cooldownFires 1550 0 s.

Lemma waiter_overtaken :
  gateRef "a" overtakeHistory = Some (0%nat, mkModelGate 1 3 [1%nat] None) /\
  settled overtakeHistory = [(2%nat, Resolved)] /\ cooldowns overtakeHistory = [].
Proof. vm_compute. done. Qed.
