(* ===== verification/ModelLockout.v ===== *)
(** * Model lockouts: [open-sse/services/accountFallback.ts] and its parts

    A failed model of a connection is locked for a while: by its quota family, by
    its bare name (not found), or by the exact tuple, each a key shape of one map.
    A second map counts consecutive failures for the backoff.  The definitions
    follow the lockout section of [accountFallback.ts], with
    [accountFallback/exactModelLock.ts], [accountFallback/lockoutEviction.ts],
    [config/codexQuotaScopes.ts] and [antigravityQuotaFamily.ts]; [now] is the
    clock of a call.  Alias resolution against the provider registry and the next
    local midnight are arguments. *)
From Stdlib Require Import String Ascii.
From S2P Require Import Prelude JsMap JsString.
#[local] Open Scope Z_scope.

(** ** Quota scopes *)

Definition CODEX_SCOPE_PATTERNS : list (string * string) :=
  [("codex-spark", "spark"); ("spark", "spark"); ("bengalfox", "spark"); ("codex", "codex"); ("gpt-5", "codex")]%string.

Definition getCodexModelScope (model : string) : string :=
  let lower := toLowerCase model in
  match List.find (fun '(pattern, _) => includes lower pattern) CODEX_SCOPE_PATTERNS with
  | Some (_, scope) => scope
  | None => "codex"
  end.

Inductive AntigravityQuotaFamily := gemini | claude | other.

Definition normalizeModelId (model : string) : string := toLowerCase (trim model).

(** [.replace(/^(antigravity|agy)\//, "")]. *)
Definition dropProviderPrefix (s : string) : string :=
  if String.prefix "antigravity/" s then String.substring 12 (String.length s - 12) s
  else if String.prefix "agy/" s then String.substring 4 (String.length s - 4) s
  else s.

Definition getAntigravityQuotaFamily (model : string) : AntigravityQuotaFamily :=
  let normalized := dropProviderPrefix (normalizeModelId model) in
  let bare := orElse (afterFirst "/" normalized) normalized in
  if String.prefix "gemini-" bare || includes bare "/gemini-" || includes bare "gemini" then gemini
  else if String.prefix "claude-" bare || String.prefix "cloud-" bare || includes bare "/claude-" ||
          includes bare "/cloud-" || includes bare "anthropic" then claude
  else other.

Definition familyName (f : AntigravityQuotaFamily) : string :=
  match f with gemini => "gemini" | claude => "claude" | other => "other" end.

(** [None] is null. *)
Definition getQuotaScopedModelForProvider (provider model : string) : option string :=
  if isEmpty model then None
  else if negb (String.eqb provider "antigravity") && negb (String.eqb provider "agy") then Some model
  else
    match getAntigravityQuotaFamily model with
    | other => Some model
    | family => Some ("family:" +:+ familyName family)
    end.

(** ** State *)

Record ModelLockoutEntry := mkEntry {
  reason : string;
  until : Z;
  lockedAt : Z;
  failureCount : Z;
  lastFailureAt : Z;
  resetAfterMs : Z;
}.

Record ModelFailureState := mkFailure {
  f_count : Z;
  f_lastFailureAt : Z;
  f_resetAfterMs : Z;
  f_lastCooldownMs : option Z;
}.

Record Lockouts := mkLockouts {
  modelLockouts : jsmap string ModelLockoutEntry;
  modelFailureState : jsmap string ModelFailureState;
  cleanupTimer : bool;
}.

#[export] Instance ModelLockoutEntry_eta : Eta ModelLockoutEntry := fun x =>
  mkEntry (reason x) (until x) (lockedAt x) (failureCount x) (lastFailureAt x) (resetAfterMs x).
#[export] Instance ModelFailureState_eta : Eta ModelFailureState := fun x =>
  mkFailure (f_count x) (f_lastFailureAt x) (f_resetAfterMs x) (f_lastCooldownMs x).
#[export] Instance Lockouts_eta : Eta Lockouts := fun x =>
  mkLockouts (modelLockouts x) (modelFailureState x) (cleanupTimer x).

Definition noLockouts : Lockouts := mkLockouts [] [] false.

(** [Partial<ModelLockoutEntry>]: the fields a caller may give. *)
Record Metadata := mkMeta { m_failureCount : option Z; m_lastFailureAt : option Z; m_resetAfterMs : option Z }.

Definition noMetadata : Metadata := mkMeta None None None.

(** The fields of a provider profile that the lockouts read. *)
Record ProviderProfile := mkProfile {
  baseCooldownMs : option Z;
  maxBackoffSteps : option Z;
  resetTimeoutMs : option Z;
}.

Inductive LockoutScope := exact | quota_family.

Record LockoutOptions := mkLockOptions {
  exactCooldownMs : option Z;
  maxCooldownMs : option Z;
  scope : option LockoutScope;
  exactCooldownIsUpstreamReset : bool;
}.

#[export] Instance LockoutOptions_eta : Eta LockoutOptions := fun x =>
  mkLockOptions (exactCooldownMs x) (maxCooldownMs x) (scope x) (exactCooldownIsUpstreamReset x).

Definition BACKOFF_BASE : Z := 1000.
Definition BACKOFF_MAX : Z := 2 * 60 * 1000.
Definition BACKOFF_MAX_LEVEL : Z := 15.
Definition COOLDOWN_TRANSIENT_INITIAL : Z := 5 * 1000.
Definition DEFAULT_FAILURE_WINDOW_MS : Z := 30 * 60 * 1000.
Definition MODEL_LOCKOUT_EVICTION_CAP : Z := 1000.

Definition calculateBackoffCooldown (level : Z) : Z :=
  Z.min (BACKOFF_BASE * 2 ^ (Z.max 0 level)) BACKOFF_MAX.

Definition getQuotaCooldown (backoffLevel : Z) : Z := calculateBackoffCooldown backoffLevel.

(** ** Cooldowns *)

Definition getFailureWindowMs (profile : option ProviderProfile) : Z :=
  match profile ≫= resetTimeoutMs with
  | Some configured => if configured >? 0 then configured else DEFAULT_FAILURE_WINDOW_MS
  | None => DEFAULT_FAILURE_WINDOW_MS
  end.

(** [fallbackCooldownMs] is [None] when it is not finite. *)
Definition getModelLockBaseCooldown (status : Z) (fallbackCooldownMs : option Z) (profile : option ProviderProfile) : Z :=
  let byProfile :=
    match profile ≫= baseCooldownMs with
    | Some b => if b >=? 0 then Some b else None
    | None => None
    end in
  let last := orElse byProfile (if status =? 429 then getQuotaCooldown 0 else COOLDOWN_TRANSIENT_INITIAL) in
  match fallbackCooldownMs with
  | Some c => if c >? 0 then c else last
  | None => last
  end.

Definition getScaledCooldown (base : Z) (count maxBackoffLevel : Z) : Z :=
  let safeBase := if base >? 0 then base else 1000 in
  let exponent := Z.min (Z.max 0 (count - 1)) (Z.max 0 maxBackoffLevel) in
  safeBase * 2 ^ exponent.

Definition selectLockoutCooldownMs (parsed base : Z) (useExponentialBackoff : bool) : Z :=
  if parsed >? base then parsed else if useExponentialBackoff then 0 else base.

Definition capScaledCooldownMs (cooldown : Z) (maxMs : option Z) (fallbackMaxMs : Z) : Z :=
  Z.min cooldown (match maxMs with Some m => if m >? 0 then m else fallbackMaxMs | None => fallbackMaxMs end).

(** ** Keys *)

Definition QUOTA_FAMILY_LOCKOUT_STATUSES : list Z := [402; 403; 404; 429].

Definition resolveLockoutScope (status : Z) (explicit : option LockoutScope) : LockoutScope :=
  match explicit with
  | Some s => s
  | None => if bool_decide (status ∈ QUOTA_FAMILY_LOCKOUT_STATUSES) then quota_family else exact
  end.

Definition buildExactModelLockKey (canonicalProvider connectionId model : string) : string :=
  canonicalProvider +:+ ":" +:+ connectionId +:+ ":exact:" +:+ toLowerCase (trim model).

(** [Array.from(new Set([a, b, c]))]. *)
Definition collectModelLockKeys (familyKey notFoundKey exactKey : string) : list string :=
  foldl (fun acc k => if bool_decide (k ∈ acc) then acc else acc ++ [k]) [] [familyKey; notFoundKey; exactKey].

Record ParsedKey := mkParsed { p_provider : string; p_connectionId : option string; p_model : string; p_scope : LockoutScope }.

(** A key with one part only has no connection id. *)
Definition parseModelLockKey (key : string) : ParsedKey :=
  let parts := split ":" key in
  let modelParts := skipn 2 parts in
  let '(sc, modelParts) :=
    match modelParts with
    | w :: ws => if String.eqb w "exact" then (exact, ws) else (quota_family, modelParts)
    | [] => (quota_family, [])
    end in
  mkParsed (orElse (parts !! 0%nat) ""%string) (parts !! 1%nat) (join ":" modelParts) sc.

Section Lockouts.
(** [resolveProviderId] looks an alias up in the provider registry; [nextMidnight]
    is the next local midnight after an instant. *)
Context (resolveProviderId : string -> string) (nextMidnight : Z -> Z).
Implicit Types (provider connectionId model key : string) (now : Z) (s : Lockouts).

(** The cache of [resolveProviderId] holds its own results. *)
Definition getCanonicalLockProvider provider : string := resolveProviderId provider.

Definition getModelLockKey provider connectionId model (why : option string) (status : option Z) : string :=
  let canonicalProvider := getCanonicalLockProvider provider in
  let lockModel :=
    if bool_decide (why = Some "not_found"%string) || bool_decide (status = Some 404) then model
    else if String.eqb canonicalProvider "codex" then getCodexModelScope model
    else match getQuotaScopedModelForProvider canonicalProvider model with
         | Some m => if isEmpty m then model else m
         | None => model
         end in
  canonicalProvider +:+ ":" +:+ connectionId +:+ ":" +:+ lockModel.

Definition buildExactKey provider connectionId model : string :=
  buildExactModelLockKey (getCanonicalLockProvider provider) connectionId model.

Definition getModelLockKeys provider connectionId model : list string :=
  collectModelLockKeys (getModelLockKey provider connectionId model None None)
    (getModelLockKey provider connectionId model (Some "not_found"%string) (Some 404))
    (buildExactKey provider connectionId model).

(** ** Operations *)

Definition cleanupModelLockKey key now s : Lockouts :=
  let s := match mget key (modelLockouts s) with
           | Some e => if now >? until e then s <| modelLockouts := mdel key (modelLockouts s) |> else s
           | None => s
           end in
  match mget key (modelFailureState s) with
  | None => s
  | Some f =>
      if now - f_lastFailureAt f <=? f_resetAfterMs f + orElse (f_lastCooldownMs f) 0 then s
      else if mhas key (modelLockouts s) then s
      else s <| modelFailureState := mdel key (modelFailureState s) |>
  end.

Definition evictLockoutOverflow (cap now : Z) s : Lockouts :=
  let s :=
    if msize (modelLockouts s) >? cap then
      let overflow := msize (modelLockouts s) - cap in
      let evictable := firstn (Z.to_nat overflow)
        (mkeys (base.filter (fun ke => until ke.2 <= now) (modelLockouts s))) in
      foldl (fun s key => s <| modelLockouts := mdel key (modelLockouts s) |>
                            <| modelFailureState := mdel key (modelFailureState s) |>) s evictable
    else s in
  if msize (modelFailureState s) >? cap then
    let overflow := msize (modelFailureState s) - cap in
    foldl (fun s key => if mhas key (modelLockouts s) then s
                        else s <| modelFailureState := mdel key (modelFailureState s) |>)
      s (firstn (Z.to_nat overflow) (mkeys (modelFailureState s)))
  else s.

(** One tick of the cleanup timer. *)
Definition sweep now s : Lockouts :=
  let s := foldl (fun s key => cleanupModelLockKey key now s) s (mkeys (modelLockouts s)) in
  let s := foldl (fun s key => cleanupModelLockKey key now s) s (mkeys (modelFailureState s)) in
  evictLockoutOverflow MODEL_LOCKOUT_EVICTION_CAP now s.

Definition ensureCleanupTimer s : Lockouts := s <| cleanupTimer := true |>.

(** The truthiness test [metadata.failureCount && ...]. *)
Definition raisesCount (meta : Metadata) (existing : ModelLockoutEntry) : option Z :=
  match m_failureCount meta with
  | Some n => if negb (n =? 0) && (n >? failureCount existing) then Some n else None
  | None => None
  end.

Definition raiseEntry (e : ModelLockoutEntry) (n : Z) (meta : Metadata) : ModelLockoutEntry :=
  e <| failureCount := n |> <| lastFailureAt := orElse (m_lastFailureAt meta) (lastFailureAt e) |>
    <| resetAfterMs := orElse (m_resetAfterMs meta) (resetAfterMs e) |>.

Definition freshEntry (existing : option ModelLockoutEntry) (why : string) (cooldownMs now : Z) (meta : Metadata) : ModelLockoutEntry :=
  mkEntry why (now + cooldownMs) now
    (orElse (m_failureCount meta) (orElse (failureCount <$> existing) 1))
    (orElse (m_lastFailureAt meta) now)
    (orElse (m_resetAfterMs meta) (orElse (resetAfterMs <$> existing) 0)).

(** [computeExactModelLockEntry], and the same merge written out in [lockModel]. *)
Definition computeExactModelLockEntry (existing : option ModelLockoutEntry) (why : string) (cooldownMs now : Z)
    (meta : Metadata) : option ModelLockoutEntry :=
  match existing with
  | Some e =>
      if until e >? now + cooldownMs then
        match raisesCount meta e with Some n => Some (raiseEntry e n meta) | None => None end
      else Some (freshEntry existing why cooldownMs now meta)
  | None => Some (freshEntry None why cooldownMs now meta)
  end.

Definition writeLock key (why : string) (cooldownMs now : Z) (meta : Metadata) s : Lockouts :=
  let s := cleanupModelLockKey key now (ensureCleanupTimer s) in
  match computeExactModelLockEntry (mget key (modelLockouts s)) why cooldownMs now meta with
  | Some e => s <| modelLockouts := mset key e (modelLockouts s) |>
  | None => s
  end.

Definition lockModel provider connectionId model (why : string) (cooldownMs now : Z) (meta : Metadata) s : Lockouts :=
  if isEmpty model then s
  else writeLock (getModelLockKey provider connectionId model (Some why) None) why cooldownMs now meta s.

Definition lockExactModel provider connectionId model (why : string) (cooldownMs now : Z) (meta : Metadata) s : Lockouts :=
  if isEmpty model then s
  else writeLock (buildExactKey provider connectionId model) why cooldownMs now meta s.

Definition getMsUntilTomorrow now : Z :=
  let ms := nextMidnight now - now in
  if (ms >? 0) && (ms <=? 25 * 60 * 60 * 1000) then ms else 24 * 60 * 60 * 1000.

Record LockoutResult := mkResult { r_cooldownMs : Z; r_failureCount : Z; r_resetAfterMs : Z }.

Definition positive (o : option Z) : option Z :=
  match o with Some m => if m >? 0 then Some m else None | None => None end.

(** The key of the failure count. *)
Definition failureKey provider connectionId model (why : string) (status : Z) (sc : LockoutScope) : string :=
  match sc with
  | exact => buildExactKey provider connectionId model
  | quota_family => getModelLockKey provider connectionId model (Some why) (Some status)
  end.

Definition nextFailureCount (previous : option ModelFailureState) now : Z :=
  match previous with
  | Some f =>
      if now - f_lastFailureAt f <=? f_resetAfterMs f + orElse (f_lastCooldownMs f) 0 then f_count f + 1 else 1
  | None => 1
  end.

Definition cooldownFor (o : LockoutOptions) (base count : Z) (profile : option ProviderProfile) : Z :=
  let maxMs := positive (maxCooldownMs o) in
  match positive (exactCooldownMs o) with
  | Some e =>
      match maxMs with
      | Some m => if exactCooldownIsUpstreamReset o then e else Z.min e m
      | None => e
      end
  | None =>
      Z.min (getScaledCooldown base count (orElse (profile ≫= maxBackoffSteps) BACKOFF_MAX_LEVEL))
        (orElse maxMs BACKOFF_MAX)
  end.

Definition recordModelLockoutFailure provider connectionId model (why : string) (status : Z)
    (fallbackCooldownMs : option Z) (profile : option ProviderProfile) (o : LockoutOptions) now s
    : Lockouts * LockoutResult :=
  let sc := resolveLockoutScope status (scope o) in
  let key := failureKey provider connectionId model why status sc in
  let s := cleanupModelLockKey key now (ensureCleanupTimer s) in
  let o :=
    match exactCooldownMs o with
    | None => if String.eqb why "quota_exhausted" then o <| exactCooldownMs := Some (getMsUntilTomorrow now) |> else o
    | Some _ => o
    end in
  let resetMs := getFailureWindowMs profile in
  let count := nextFailureCount (mget key (modelFailureState s)) now in
  let base := getModelLockBaseCooldown status fallbackCooldownMs profile in
  let cooldownMs := cooldownFor o base count profile in
  let s := s <| modelFailureState := mset key (mkFailure count now resetMs (Some cooldownMs)) (modelFailureState s) |> in
  let meta := mkMeta (Some count) (Some now) (Some resetMs) in
  let lock := match sc with exact => lockExactModel | quota_family => lockModel end in
  (lock provider connectionId model why cooldownMs now meta s, mkResult cooldownMs count resetMs).

Definition clearKeys (keys : list string) s : Lockouts * bool :=
  foldl (fun '(s, cleared) key =>
    (s <| modelLockouts := mdel key (modelLockouts s) |> <| modelFailureState := mdel key (modelFailureState s) |>,
     mhas key (modelFailureState s) || (mhas key (modelLockouts s) || cleared))) (s, false) keys.

Definition clearModelLock provider connectionId model s : Lockouts * bool :=
  if isEmpty model then (s, false) else clearKeys (getModelLockKeys provider connectionId model) s.

Record DecayResult := mkDecay { d_cleared : bool; d_newFailureCount : Z }.

Record DecayAcc := mkDecayAcc { seen : Z; dropped : Z; largest : Z }.

Definition decayKey '(m, a) key : jsmap string ModelFailureState * DecayAcc :=
  match mget key m with
  | None => (m, a)
  | Some f =>
      let next := f_count f / 2 in
      if next =? 0 then (mdel key m, mkDecayAcc (seen a + 1) (dropped a + 1) (largest a))
      else (mset key (f <| f_count := next |>) m, mkDecayAcc (seen a + 1) (dropped a) (Z.max (largest a) next))
  end.

Definition decayFailureCounts (keys : list string) (m : jsmap string ModelFailureState) : jsmap string ModelFailureState * DecayResult :=
  let '(m, a) := foldl decayKey (m, mkDecayAcc 0 0 0) keys in
  (m, mkDecay ((seen a >? 0) && (dropped a =? seen a)) (largest a)).

Definition decayModelFailureCount provider connectionId model s : Lockouts * DecayResult :=
  if isEmpty model then (s, mkDecay false 0)
  else
    let '(m, r) := decayFailureCounts (getModelLockKeys provider connectionId model) (modelFailureState s) in
    (s <| modelFailureState := m |>, r).

Definition clearAllModelLockouts s : Lockouts := s <| modelLockouts := [] |> <| modelFailureState := [] |>.

Fixpoint isAnyKeyLocked (keys : list string) now s : Lockouts * bool :=
  match keys with
  | [] => (s, false)
  | key :: keys =>
      let s := cleanupModelLockKey key now s in
      if mhas key (modelLockouts s) then (s, true) else isAnyKeyLocked keys now s
  end.

Definition isModelLocked provider connectionId model now s : Lockouts * bool :=
  if isEmpty model then (s, false) else isAnyKeyLocked (getModelLockKeys provider connectionId model) now s.

(** The entry with the most time left, the first of equals. *)
Definition findLatestLockEntry (keys : list string) now s : Lockouts * option ModelLockoutEntry :=
  let '(s, es) := foldl (fun '(s, es) key =>
    let s := cleanupModelLockKey key now s in (s, es ++ option_list (mget key (modelLockouts s)))) (s, []) keys in
  (s, head (sortOn (fun e => - until e) es)).

Record LockoutInfo := mkInfo { i_reason : string; i_remainingMs : Z; i_lockedAt : Z; i_failureCount : Z }.

Definition infoOf now (e : ModelLockoutEntry) : LockoutInfo :=
  mkInfo (reason e) (until e - now) (lockedAt e) (failureCount e).

Definition getModelLockoutInfo provider connectionId model now s : Lockouts * option LockoutInfo :=
  if isEmpty model then (s, None)
  else
    let '(s, e) := findLatestLockEntry (getModelLockKeys provider connectionId model) now s in
    (s, infoOf now <$> e).

Definition getAllModelLockouts now s : Lockouts * list (ParsedKey * LockoutInfo) :=
  let s := foldl (fun s key => cleanupModelLockKey key now s) s (mkeys (modelLockouts s)) in
  (s, (fun '(key, e) => (parseModelLockKey key, infoOf now e)) <$> modelLockouts s).

Definition classifyLockoutReason (status : Z) : string :=
  if status =? 429 then "rate_limit" else if status =? 403 then "quota_exhausted" else "unknown".
End Lockouts.

(** ** The key shapes of a model *)

Lemma collect_in a b c k : k ∈ collectModelLockKeys a b c <-> k = a \/ k = b \/ k = c.
Proof.
  unfold collectModelLockKeys. simpl.
  repeat (case_bool_decide; simpl in * ); repeat rewrite ?elem_of_app, ?elem_of_cons, ?elem_of_nil in *; naive_solver.
Qed.

(** ** What an operation keeps *)

Section Keeps.
Context (resolveProviderId : string -> string) (nextMidnight : Z -> Z).
Implicit Types (s : Lockouts) (now : Z) (k key : string).

Definition wf s : Prop := mwf (modelLockouts s) /\ mwf (modelFailureState s).

(** Key [k] is locked until [u] at least. *)
Definition lockedUntil k (u : Z) s : Prop := exists e, mget k (modelLockouts s) = Some e /\ u <= until e.

(** The state of an operation that keeps every lock still active at [now]. *)
Record Keeps now s s' : Prop := {
  k_wf : wf s -> wf s';
  k_locks : wf s -> forall k u, now < u -> lockedUntil k u s -> lockedUntil k u s';
}.

Lemma Keeps_refl now s : Keeps now s s.
Proof. by split. Qed.

Lemma Keeps_trans now s1 s2 s3 : Keeps now s1 s2 -> Keeps now s2 s3 -> Keeps now s1 s3.
Proof. intros [W1 K1] [W2 K2]. split; auto. Qed.

Lemma Keeps_foldl {A} now (f : Lockouts -> A -> Lockouts) (l : list A) s :
  (forall s x, Keeps now s (f s x)) -> Keeps now s (foldl f s l).
Proof.
  intros Hf. revert s. induction l as [|x l IH]; intros s; simpl; [apply Keeps_refl|].
  eapply Keeps_trans; [apply Hf|apply IH].
Qed.

(** Entries of the lockout map the operation drops are expired; other changes extend. *)
Lemma Keeps_locks now s s' :
  (wf s -> wf s') ->
  (wf s -> forall k e, mget k (modelLockouts s) = Some e -> now < until e ->
     exists e', mget k (modelLockouts s') = Some e' /\ until e <= until e') -> Keeps now s s'.
Proof.
  intros Hwf H. split; [done|]. intros W k u Hu (e & He & Hle).
  destruct (H W k e He ltac:(lia)) as (e' & He' & ?). exists e'. split; [done|lia].
Qed.

Lemma Keeps_same now s s' :
  modelLockouts s' = modelLockouts s -> (mwf (modelFailureState s) -> mwf (modelFailureState s')) -> Keeps now s s'.
Proof.
  intros E W. apply Keeps_locks; [intros [? ?]; split; [by rewrite E|auto]|]. intros _ k e He _. rewrite E. by exists e.
Qed.

Lemma cleanup_lock key now s :
  wf s -> forall k, mget k (modelLockouts (cleanupModelLockKey key now s)) =
    match mget k (modelLockouts s) with
    | Some e => if decide (k = key) then if now >? until e then None else Some e else Some e
    | None => None
    end.
Proof.
  intros [W _] k. unfold cleanupModelLockKey.
  set (s1 := match mget key (modelLockouts s) with Some _ => _ | None => _ end).
  assert (forall s2, modelLockouts s2 = modelLockouts s1 -> mget k (modelLockouts s2) =
    match mget k (modelLockouts s) with
    | Some e => if decide (k = key) then if now >? until e then None else Some e else Some e
    | None => None end) as H.
  { intros s2 ->. subst s1. destruct (mget key (modelLockouts s)) as [e|] eqn:He.
    - destruct (now >? until e) eqn:Hn; cbn.
      + rewrite mget_mdel by done. case_decide; [subst; by rewrite He, Hn|by destruct (mget k (modelLockouts s))].
      + case_decide; [subst; by rewrite He, Hn|by destruct (mget k (modelLockouts s))].
    - case_decide; [subst; by rewrite He|by destruct (mget k (modelLockouts s))]. }
  destruct (mget key (modelFailureState s1)) as [f|]; [|by apply H]. case_if; [by apply H|]. case_if; [by apply H|]. by apply H.
Qed.

Lemma cleanup_wf key now s : wf s -> wf (cleanupModelLockKey key now s).
Proof.
  intros [W1 W2]. unfold cleanupModelLockKey.
  set (s1 := match mget key (modelLockouts s) with Some _ => _ | None => _ end).
  assert (wf s1) as [W3 W4].
  { subst s1. destruct (mget key (modelLockouts s)) as [e|]; [|done]. case_if; [|done]. split; [by apply mwf_mdel|done]. }
  destruct (mget key (modelFailureState s1)) as [f|]; [|done]. case_if; [done|]. case_if; [done|].
  split; [done|by apply mwf_mdel].
Qed.

Lemma cleanup_keeps key now s : Keeps now s (cleanupModelLockKey key now s).
Proof.
  apply Keeps_locks; [apply cleanup_wf|]. intros W k e He Hlt. exists e. split; [|lia].
  rewrite cleanup_lock, He by done. case_decide; [|done].
  replace (now >? until e) with false by (symmetry; rewrite Z.gtb_ltb; apply Z.ltb_ge; lia). done.
Qed.

Lemma evict_keeps cap now s : Keeps now s (evictLockoutOverflow cap now s).
Proof.
  unfold evictLockoutOverflow. cbv zeta.
  set (s1 := if msize (modelLockouts s) >? cap then _ else s).
  apply (Keeps_trans now s s1).
  - subst s1. case_if; [|apply Keeps_refl]. set (ks := firstn _ _).
    assert (wf s -> forall k e, k ∈ ks -> mget k (modelLockouts s) = Some e -> until e <= now) as Hks.
    { intros [W _] k e Hk He. subst ks. apply elem_of_take in Hk as (i & Hk & _). apply list_elem_of_lookup_2 in Hk.
      apply list_elem_of_fmap in Hk as ([k' e'] & -> & [Hu Hin]%list_elem_of_filter).
      apply mget_elem in Hin; [|done]. cbn in *. congruence. }
    clearbody ks. split.
    + generalize s. clear Hks. induction ks as [|k ks IH]; intros t Ht; simpl; [done|]. apply IH.
      destruct Ht. split; by apply mwf_mdel.
    + intros W k u Hu (e & He & Hle).
      assert (forall t, mget k (modelLockouts t) = Some e -> wf t -> lockedUntil k u
        (foldl (fun s key => s <| modelLockouts := mdel key (modelLockouts s) |>
                              <| modelFailureState := mdel key (modelFailureState s) |>) t ks)) as H; [|by apply H].
      assert (k ∉ ks) as Hni by (intros Hin; specialize (Hks W k e Hin He); lia). clear Hks He W.
      induction ks as [|k' ks IH]; intros t Ht [W1 W2]; simpl; [by exists e|].
      apply IH; [set_solver| |by split; apply mwf_mdel]. cbn. rewrite mget_mdel_ne; [done|set_solver].
  - case_if; [|apply Keeps_refl]. apply Keeps_foldl. intros t key. case_if; [apply Keeps_refl|].
    apply Keeps_same; [done|]. apply mwf_mdel.
Qed.

Lemma sweep_keeps now s : Keeps now s (sweep now s).
Proof.
  unfold sweep. eapply Keeps_trans; [|apply evict_keeps].
  eapply Keeps_trans; apply (Keeps_foldl (A := string)); intros; apply cleanup_keeps.
Qed.

Lemma computeExact_until existing why cd now meta e' :
  computeExactModelLockEntry existing why cd now meta = Some e' ->
  now + cd <= until e' /\ forall e, existing = Some e -> until e <= until e'.
Proof.
  unfold computeExactModelLockEntry. destruct existing as [e|]; [|intros [= <-]; cbn; split; [lia|done]].
  destruct (Z.gtb_spec (until e) (now + cd)).
  - destruct (raisesCount meta e); [|done]. intros [= <-]. cbn. split; [lia|]. intros ? [= ->]. lia.
  - intros [= <-]. cbn. split; [lia|]. intros ? [= ->]. lia.
Qed.

Lemma writeLock_keeps key why cd now meta s : Keeps now s (writeLock key why cd now meta s).
Proof.
  unfold writeLock. cbv zeta. set (s1 := cleanupModelLockKey key now (ensureCleanupTimer s)).
  apply (Keeps_trans now s s1); [apply (Keeps_trans now s (ensureCleanupTimer s)); [by apply Keeps_same|apply cleanup_keeps]|].
  destruct (computeExactModelLockEntry _ why cd now meta) as [e'|] eqn:E; [|apply Keeps_refl].
  apply computeExact_until in E as [_ E]. apply Keeps_locks.
  - intros [W1 W2]. split; [by apply mwf_mset|done].
  - intros _ k e He _. cbn. rewrite mget_mset. case_decide; [subst|by exists e]. exists e'. split; [done|]. by apply E.
Qed.

(** A written key is locked for the cooldown. *)
Lemma writeLock_locks key why cd now meta s : wf s -> lockedUntil key (now + cd) (writeLock key why cd now meta s).
Proof.
  intros W. unfold writeLock. cbv zeta. set (s1 := cleanupModelLockKey key now (ensureCleanupTimer s)).
  destruct (computeExactModelLockEntry _ why cd now meta) as [e'|] eqn:E.
  - apply computeExact_until in E as [E _]. exists e'. split; [apply mget_mset_eq|done].
  - unfold computeExactModelLockEntry in E. destruct (mget key (modelLockouts s1)) as [e|] eqn:He; [|done].
    destruct (Z.gtb_spec (until e) (now + cd)); [|done]. exists e. split; [done|lia].
Qed.

Lemma isAnyKeyLocked_keeps keys now s : Keeps now s (isAnyKeyLocked keys now s).1.
Proof.
  revert s. induction keys as [|k keys IH]; intros s; simpl; [apply Keeps_refl|].
  case_if; [apply cleanup_keeps|]. eapply Keeps_trans; [apply cleanup_keeps|apply IH].
Qed.

Lemma findLatest_keeps keys now s : Keeps now s (findLatestLockEntry keys now s).1.
Proof.
  unfold findLatestLockEntry.
  assert (forall t es, Keeps now t (foldl (fun '(s, es) key => let s := cleanupModelLockKey key now s in
    (s, es ++ option_list (mget key (modelLockouts s)))) (t, es) keys).1) as H.
  { induction keys as [|k keys IH]; intros t es; simpl; [apply Keeps_refl|].
    eapply Keeps_trans; [apply cleanup_keeps|apply IH]. }
  specialize (H s []). by destruct (foldl _ (s, []) keys).
Qed.

(** ** Histories *)

(** Every operation but the two that clear locks on purpose. *)
Inductive LockOp :=
| OLock (provider connectionId model why : string) (cooldownMs : Z) (meta : Metadata)
| OLockExact (provider connectionId model why : string) (cooldownMs : Z) (meta : Metadata)
| ORecord (provider connectionId model why : string) (status : Z) (fallbackMs : option Z)
    (profile : option ProviderProfile) (o : LockoutOptions)
| ODecay (provider connectionId model : string)
| OIsLocked (provider connectionId model : string)
| OInfo (provider connectionId model : string)
| OAll
| OSweep.

Definition applyLock (s : Lockouts) (l : Z * LockOp) : Lockouts :=
  let now := l.1 in
  match l.2 with
  | OLock p c m why cd meta => lockModel resolveProviderId p c m why cd now meta s
  | OLockExact p c m why cd meta => lockExactModel resolveProviderId p c m why cd now meta s
  | ORecord p c m why st fb pr o => (recordModelLockoutFailure resolveProviderId nextMidnight p c m why st fb pr o now s).1
  | ODecay p c m => (decayModelFailureCount resolveProviderId p c m s).1
  | OIsLocked p c m => (isModelLocked resolveProviderId p c m now s).1
  | OInfo p c m => (getModelLockoutInfo resolveProviderId p c m now s).1
  | OAll => (getAllModelLockouts now s).1
  | OSweep => sweep now s
  end.

Lemma lockModel_keeps p c m why cd now meta s : Keeps now s (lockModel resolveProviderId p c m why cd now meta s).
Proof. unfold lockModel. case_if; [apply Keeps_refl|apply writeLock_keeps]. Qed.

Lemma lockExactModel_keeps p c m why cd now meta s : Keeps now s (lockExactModel resolveProviderId p c m why cd now meta s).
Proof. unfold lockExactModel. case_if; [apply Keeps_refl|apply writeLock_keeps]. Qed.

Lemma decayKey_wf m a key : mwf m -> mwf (decayKey (m, a) key).1.
Proof.
  intros W. simpl. destruct (mget key m) as [f|]; [|done]. case_if; simpl; [by apply mwf_mdel|by apply mwf_mset].
Qed.

Lemma decay_wf keys m a : mwf m -> mwf (foldl decayKey (m, a) keys).1.
Proof.
  revert m a. induction keys as [|k keys IH]; intros m a W; [done|]. cbn [foldl].
  pose proof (decayKey_wf m a k W). destruct (decayKey (m, a) k) as [m' a']. by apply IH.
Qed.

Lemma record_keeps p c m why st fb pr o now s :
  Keeps now s (recordModelLockoutFailure resolveProviderId nextMidnight p c m why st fb pr o now s).1.
Proof.
  unfold recordModelLockoutFailure. cbv zeta. cbn [fst].
  set (key := failureKey _ _ _ _ _ _ _). set (o' := match exactCooldownMs o with Some _ => _ | None => _ end).
  set (s1 := cleanupModelLockKey key now (ensureCleanupTimer s)).
  apply (Keeps_trans now s s1); [apply (Keeps_trans now s (ensureCleanupTimer s)); [by apply Keeps_same|apply cleanup_keeps]|].
  set (s2 := s1 <| modelFailureState := _ |>). apply (Keeps_trans now s1 s2); [apply Keeps_same; [done|]; apply mwf_mset|].
  destruct (resolveLockoutScope st (scope o)); [apply lockExactModel_keeps|apply lockModel_keeps].
Qed.

Lemma applyLock_keeps s l : Keeps l.1 s (applyLock s l).
Proof.
  destruct l as [now op]. unfold applyLock. cbn [fst snd].
  destruct op as [p c m why cd meta|p c m why cd meta|p c m why st fb pr o|p c m|p c m|p c m| |].
  - apply lockModel_keeps.
  - apply lockExactModel_keeps.
  - apply record_keeps.
  - unfold decayModelFailureCount. case_if; [apply Keeps_refl|]. unfold decayFailureCounts.
    pose proof (decay_wf (getModelLockKeys resolveProviderId p c m) (modelFailureState s) (mkDecayAcc 0 0 0)) as W.
    destruct (foldl decayKey _ _) as [m' a']. cbn in *. by apply Keeps_same.
  - unfold isModelLocked. case_if; [apply Keeps_refl|apply isAnyKeyLocked_keeps].
  - unfold getModelLockoutInfo. case_if; [apply Keeps_refl|].
    pose proof (findLatest_keeps (getModelLockKeys resolveProviderId p c m) now s) as K.
    by destruct (findLatestLockEntry _ now s).
  - unfold getAllModelLockouts. cbn [fst]. apply (Keeps_foldl (A := string)). intros; apply cleanup_keeps.
  - apply sweep_keeps.
Qed.

Lemma run_keeps ops s k u :
  wf s -> lockedUntil k u s -> Forall (fun l => l.1 < u) ops ->
  wf (foldl applyLock s ops) /\ lockedUntil k u (foldl applyLock s ops).
Proof.
  revert s. induction ops as [|l ops IH]; intros s W Hk HF; [done|]. apply Forall_cons in HF as [Hl HF]. simpl.
  pose proof (applyLock_keeps s l) as [Kw Kl]. apply IH; [auto|apply Kl; auto; lia|done].
Qed.

(** ** Keys *)

(** The key under which a failure locks its model. *)
Definition lockKey p c m why st sc : string :=
  match resolveLockoutScope st sc with
  | exact => buildExactKey resolveProviderId p c m
  | quota_family => getModelLockKey resolveProviderId p c m (Some why) None
  end.

Lemma lockKey_checked p c m why st sc : lockKey p c m why st sc ∈ getModelLockKeys resolveProviderId p c m.
Proof.
  unfold lockKey, getModelLockKeys. apply collect_in. destruct (resolveLockoutScope st sc); [by right; right|].
  unfold getModelLockKey. destruct (decide (why = "not_found"%string)) as [->|Hne].
  - right; left. rewrite !bool_decide_true by done. done.
  - left. rewrite (bool_decide_false (Some why = _)) by congruence. done.
Qed.

Lemma record_locks p c m why st fb pr o now s :
  wf s -> isEmpty m = false ->
  let r := recordModelLockoutFailure resolveProviderId nextMidnight p c m why st fb pr o now s in
  lockedUntil (lockKey p c m why st (scope o)) (now + r_cooldownMs r.2) r.1.
Proof.
  intros W Hm. unfold recordModelLockoutFailure. cbv zeta. cbn [fst snd r_cooldownMs].
  set (key := failureKey _ _ _ _ _ _ _). set (o' := match exactCooldownMs o with Some _ => _ | None => _ end).
  set (s1 := cleanupModelLockKey key now (ensureCleanupTimer s)).
  assert (wf s1) as W1 by (by apply cleanup_wf).
  assert (forall m', mwf m' -> wf (s1 <| modelFailureState := m' |>)) as W2 by (intros m' Hm'; split; [apply W1|done]).
  unfold lockKey. destruct (resolveLockoutScope st (scope o)); [unfold lockExactModel|unfold lockModel]; rewrite Hm;
    apply writeLock_locks, W2, mwf_mset, W1.
Qed.

Lemma isAnyKeyLocked_true keys now k s :
  wf s -> k ∈ keys -> lockedUntil k now s -> (isAnyKeyLocked keys now s).2 = true.
Proof.
  revert s. induction keys as [|k' keys IH]; intros s W Hin Hk; [by apply elem_of_nil in Hin|]. cbn [isAnyKeyLocked].
  assert (lockedUntil k now (cleanupModelLockKey k' now s)) as Hk'.
  { destruct Hk as (e & He & Hle). exists e. split; [|done]. rewrite cleanup_lock, He by done. case_decide; [|done].
    replace (now >? until e) with false by (symmetry; rewrite Z.gtb_ltb; apply Z.ltb_ge; lia). done. }
  destruct (mhas k' (modelLockouts (cleanupModelLockKey k' now s))) eqn:Hh; [done|].
  apply elem_of_cons in Hin as [->|Hin]; [|apply IH; [by apply cleanup_wf|done|done]].
  destruct Hk' as (e & He & _). unfold mhas in Hh. by rewrite He in Hh.
Qed.

(** The answer of [isModelLocked], without its side effects. *)
Definition activeAt now s k : bool :=
  match mget k (modelLockouts s) with Some e => now <=? until e | None => false end.

Lemma cleanup_active key now s k : wf s -> activeAt now (cleanupModelLockKey key now s) k = activeAt now s k.
Proof.
  intros W. unfold activeAt. rewrite cleanup_lock by done. destruct (mget k (modelLockouts s)) as [e|]; [|done].
  case_decide; [|done]. destruct (Z.gtb_spec now (until e)); [|done]. symmetry. apply Z.leb_gt. lia.
Qed.

Lemma isAnyKeyLocked_value keys now s : wf s -> (isAnyKeyLocked keys now s).2 = existsb (activeAt now s) keys.
Proof.
  revert s. induction keys as [|k keys IH]; intros s W; [done|]. cbn [isAnyKeyLocked existsb].
  set (s1 := cleanupModelLockKey k now s). assert (wf s1) by (by apply cleanup_wf).
  assert (mhas k (modelLockouts s1) = activeAt now s k) as ->.
  { subst s1. unfold mhas, activeAt. rewrite cleanup_lock by done. destruct (mget k (modelLockouts s)) as [e|]; [|done].
    rewrite decide_True by done. destruct (Z.gtb_spec now (until e)); [symmetry; apply Z.leb_gt; lia|].
    symmetry. apply Z.leb_le. lia. }
  destruct (activeAt now s k); [done|]. cbn [orb]. rewrite IH by done.
  clear IH. subst s1. induction keys as [|k2 keys IH]; simpl; [done|]. by rewrite cleanup_active, IH.
Qed.
End Keeps.

(** ** Key shapes *)

Section Shapes.
Context (resolveProviderId : string -> string) (nextMidnight : Z -> Z).
Implicit Types (p c m why : string) (s : Lockouts).

Definition keyOf (cp c x : string) : string := cp +:+ ":" +:+ c +:+ ":" +:+ x.

Definition lockModelOf p m (why : option string) (st : option Z) : string :=
  if bool_decide (why = Some "not_found"%string) || bool_decide (st = Some 404) then m
  else if String.eqb (resolveProviderId p) "codex" then getCodexModelScope m
  else match getQuotaScopedModelForProvider (resolveProviderId p) m with
       | Some m' => if isEmpty m' then m else m'
       | None => m
       end.

Lemma getModelLockKey_shape p c m (why : option string) st :
  getModelLockKey resolveProviderId p c m why st = keyOf (resolveProviderId p) c (lockModelOf p m why st).
Proof. done. Qed.

Lemma exactKey_shape cp c m : buildExactModelLockKey cp c m = keyOf cp c ("exact:" +:+ toLowerCase (trim m)).
Proof. done. Qed.

Lemma keyOf_inj cp c x y : keyOf cp c x = keyOf cp c y -> x = y.
Proof.
  unfold keyOf. by intros ?%append_inj_l%append_inj_l%append_inj_l%append_inj_l.
Qed.

Definition familyScopes : list string := ["codex"; "spark"; "family:gemini"; "family:claude"]%string.

(** A lock is stored under the model itself or under the name of a family. *)
Lemma lockModelOf_cases p m (why : option string) st : lockModelOf p m why st = m \/ lockModelOf p m why st ∈ familyScopes.
Proof.
  unfold lockModelOf. case_if; [by left|]. case_if.
  - right. unfold getCodexModelScope. destruct (List.find _ CODEX_SCOPE_PATTERNS) as [[pat sc]|] eqn:E; [|left].
    apply List.find_some in E as [Hin _]. simpl in Hin.
    repeat (destruct Hin as [[= <- <-]|Hin]; [apply (bool_decide_unpack _); vm_compute; exact I|]). done.
  - unfold getQuotaScopedModelForProvider. case_if; [by left|]. case_if; [case_if; by left|].
    destruct (getAntigravityQuotaFamily m); cbn [isEmpty String.append];
      [right; apply (bool_decide_unpack _); vm_compute; exact I..|case_if; by left].
Qed.

Lemma lockModelOf_not_exact p m (why : option string) st :
  String.prefix "exact:" m = false -> String.prefix "exact:" (lockModelOf p m why st) = false.
Proof.
  intros Hm. destruct (lockModelOf_cases p m why st) as [->|Hin]; [done|].
  unfold familyScopes in Hin. rewrite !elem_of_cons, elem_of_nil in Hin.
  destruct Hin as [->|[->|[->|[->|[]]]]]; reflexivity.
Qed.

(** No key of another model is the exact key of [m]. *)
Lemma keys_not_exact p c m m2 k :
  String.prefix "exact:" m2 = false -> toLowerCase (trim m2) <> toLowerCase (trim m) ->
  k ∈ getModelLockKeys resolveProviderId p c m2 -> k <> buildExactKey resolveProviderId p c m.
Proof.
  intros Hp Hne Hk. unfold getModelLockKeys in Hk. apply collect_in in Hk.
  assert (forall (why : option string) (st : option Z), getModelLockKey resolveProviderId p c m2 why st <> buildExactKey resolveProviderId p c m) as Hf.
  { intros why st. rewrite getModelLockKey_shape. unfold buildExactKey, getCanonicalLockProvider. rewrite exactKey_shape.
    intros E%keyOf_inj. pose proof (lockModelOf_not_exact p m2 why st Hp) as Hx. rewrite E, prefix_append in Hx. done. }
  destruct Hk as [-> | [-> | ->]]; [apply Hf..|]. unfold buildExactKey, getCanonicalLockProvider. rewrite !exactKey_shape.
  intros E%keyOf_inj%append_inj_l. by apply Hne.
Qed.

Lemma writeLock_frame key why cd now meta s k :
  wf s -> k <> key -> mget k (modelLockouts (writeLock key why cd now meta s)) = mget k (modelLockouts s).
Proof.
  intros W Hne. unfold writeLock. cbv zeta. set (s1 := cleanupModelLockKey key now (ensureCleanupTimer s)).
  assert (mget k (modelLockouts s1) = mget k (modelLockouts s)) as E.
  { subst s1. rewrite cleanup_lock by done. change (modelLockouts (ensureCleanupTimer s)) with (modelLockouts s).
    case_decide; [done|]. by destruct (mget k (modelLockouts s)). }
  destruct (computeExactModelLockEntry _ why cd now meta); [|done]. cbn. by rewrite mget_mset_ne.
Qed.

Lemma record_exact_frame p c m why st fb pr o now s k :
  wf s -> resolveLockoutScope st (scope o) = exact -> k <> buildExactKey resolveProviderId p c m ->
  mget k (modelLockouts (recordModelLockoutFailure resolveProviderId nextMidnight p c m why st fb pr o now s).1) =
  mget k (modelLockouts s).
Proof.
  intros W Hsc Hne. unfold recordModelLockoutFailure. cbv zeta. rewrite Hsc. cbn [fst failureKey].
  set (s1 := cleanupModelLockKey _ now (ensureCleanupTimer s)). assert (wf s1) as W1 by (by apply cleanup_wf).
  assert (mget k (modelLockouts s1) = mget k (modelLockouts s)) as E.
  { subst s1. rewrite cleanup_lock by done. change (modelLockouts (ensureCleanupTimer s)) with (modelLockouts s).
    case_decide; [done|]. by destruct (mget k (modelLockouts s)). }
  unfold lockExactModel. case_if; [done|].
  rewrite writeLock_frame; [done| |done]. split; [apply W1|]. apply mwf_mset, W1.
Qed.

Lemma split_cons sep (s w : string) ws : split sep s = w :: ws -> s = w \/ String.prefix (w +:+ String sep "") s = true.
Proof.
  intros E. pose proof (join_split sep s) as J. rewrite E in J. unfold join in J. destruct ws as [|w2 ws].
  - left. by rewrite <- J.
  - right. rewrite <- J. change (String.concat (String sep "") (w :: w2 :: ws)) with
      (w +:+ (String sep "" +:+ String.concat (String sep "") (w2 :: ws))).
    rewrite <- append_assoc. apply prefix_append.
Qed.

Lemma parse_keyOf cp c x :
  occurs ":" cp = false -> occurs ":" c = false ->
  parseModelLockKey (keyOf cp c x) =
  match split ":" x with
  | w :: ws => if String.eqb w "exact" then mkParsed cp (Some c) (join ":" ws) exact
               else mkParsed cp (Some c) x quota_family
  | [] => mkParsed cp (Some c) "" quota_family
  end.
Proof.
  intros Hp Hc. unfold parseModelLockKey, keyOf.
  change (cp +:+ ":" +:+ c +:+ ":" +:+ x) with (cp +:+ String ":" (c +:+ String ":" x)). rewrite !split_app by done.
  cbn [skipn lookup list_lookup orElse]. destruct (split ":" x) as [|w ws] eqn:E; [done|].
  cbn [drop]. destruct (String.eqb w "exact"); [done|]. rewrite <- E. by rewrite (join_split ":" x).
Qed.
End Shapes.

(** ** Backoff *)

Section Backoff.
Context (resolveProviderId : string -> string) (nextMidnight : Z -> Z).
Context (p c m why : string) (st : Z) (fb : option Z) (pr : option ProviderProfile) (o : LockoutOptions).
Implicit Types (s : Lockouts) (now t : Z).

Definition fkey : string := failureKey resolveProviderId p c m why st (resolveLockoutScope st (scope o)).
Definition window : Z := getFailureWindowMs pr.

(** The [n]-th cooldown of a streak: the base doubled [n - 1] times, capped. *)
Definition nthCooldown (n : Z) : Z :=
  Z.min (getScaledCooldown (getModelLockBaseCooldown st fb pr) n (orElse (pr ≫= maxBackoffSteps) BACKOFF_MAX_LEVEL))
    (orElse (positive (maxCooldownMs o)) BACKOFF_MAX).

Fixpoint recordAll (ts : list Z) s : list LockoutResult :=
  match ts with
  | [] => []
  | t :: ts =>
      let '(s, r) := recordModelLockoutFailure resolveProviderId nextMidnight p c m why st fb pr o t s in
      r :: recordAll ts s
  end.

(** Each failure comes within the window that follows the [n]-th cooldown. *)
Fixpoint streak (n : Z) (last : Z) (ts : list Z) : Prop :=
  match ts with
  | [] => True
  | t :: ts => t - last <= window + nthCooldown n /\ streak (n + 1) t ts
  end.

Lemma window_pos : 0 < window.
Proof.
  unfold window, getFailureWindowMs. destruct (pr ≫= resetTimeoutMs); [|done]. case_if; [blia|done].
Qed.

Lemma nthCooldown_pos n : 0 < nthCooldown n.
Proof.
  unfold nthCooldown, getScaledCooldown. apply Z.min_glb_lt.
  - apply Z.mul_pos_pos; [case_if; blia|]. apply Z.pow_pos_nonneg; lia.
  - unfold positive. destruct (maxCooldownMs o); [case_if; cbn; [blia|done]|done].
Qed.

(** A cleanup within the window keeps the failure count. *)
Lemma cleanup_failure key now s k f :
  mget k (modelFailureState s) = Some f ->
  (k <> key \/ now - f_lastFailureAt f <= f_resetAfterMs f + orElse (f_lastCooldownMs f) 0) ->
  mwf (modelFailureState s) -> mget k (modelFailureState (cleanupModelLockKey key now s)) = Some f.
Proof.
  intros Hf Hk W. unfold cleanupModelLockKey.
  set (s1 := match mget key (modelLockouts s) with Some _ => _ | None => _ end).
  assert (modelFailureState s1 = modelFailureState s) as E.
  { subst s1. destruct (mget key (modelLockouts s)); [|done]. by case_if. }
  destruct (mget key (modelFailureState s1)) as [f'|] eqn:Hf'; [|by rewrite E].
  destruct (Z.leb_spec (now - f_lastFailureAt f') (f_resetAfterMs f' + orElse (f_lastCooldownMs f') 0)); [by rewrite E|].
  case_if; [by rewrite E|]. cbn. rewrite E in Hf' |- *. destruct Hk as [Hk|Hk]; [by rewrite mget_mdel_ne|].
  destruct (decide (k = key)) as [->|Hne]; [|by rewrite mget_mdel_ne]. rewrite Hf in Hf'. simplify_eq. lia.
Qed.

Lemma cleanup_no_failure key now s k :
  mget k (modelFailureState s) = None -> mwf (modelFailureState s) ->
  mget k (modelFailureState (cleanupModelLockKey key now s)) = None.
Proof.
  intros Hf W. unfold cleanupModelLockKey.
  set (s1 := match mget key (modelLockouts s) with Some _ => _ | None => _ end).
  assert (modelFailureState s1 = modelFailureState s) as E.
  { subst s1. destruct (mget key (modelLockouts s)); [|done]. by case_if. }
  destruct (mget key (modelFailureState s1)) as [f'|] eqn:Hf'; [|by rewrite E].
  case_if; [by rewrite E|]. case_if; [by rewrite E|]. cbn. rewrite E. rewrite mget_mdel by done. by case_decide.
Qed.

Lemma record_streak n last t s :
  (why = "quota_exhausted"%string -> exactCooldownMs o <> None) -> positive (exactCooldownMs o) = None -> wf s ->
  (mget fkey (modelFailureState s) = None /\ n = 0 \/
   mget fkey (modelFailureState s) = Some (mkFailure n last window (Some (nthCooldown n))) /\ t - last <= window + nthCooldown n) ->
  let r := recordModelLockoutFailure resolveProviderId nextMidnight p c m why st fb pr o t s in
  r.2 = mkResult (nthCooldown (n + 1)) (n + 1) window /\ wf r.1 /\
  mget fkey (modelFailureState r.1) = Some (mkFailure (n + 1) t window (Some (nthCooldown (n + 1)))).
Proof.
  intros Hq Hex W Hst r.
  assert (wf r.1) as Wr by (apply (record_keeps resolveProviderId nextMidnight); exact W).
  subst r. unfold recordModelLockoutFailure in *. cbv zeta in *. cbn [fst snd] in *. fold fkey in Wr |- *.
  set (s1 := cleanupModelLockKey fkey t (ensureCleanupTimer s)) in *.
  assert (match exactCooldownMs o with
          | Some _ => o
          | None => if String.eqb why "quota_exhausted" then o <| exactCooldownMs := Some (getMsUntilTomorrow nextMidnight t) |> else o
          end = o) as Ho.
  { destruct (exactCooldownMs o) eqn:E; [done|]. destruct (String.eqb_spec why "quota_exhausted"); [by destruct Hq|done]. }
  rewrite Ho in *. clear Ho. fold window in Wr |- *.
  assert (nextFailureCount (mget fkey (modelFailureState s1)) t = n + 1) as Hn.
  { subst s1. destruct Hst as [[Hf ->]|[Hf Hle]].
    - rewrite cleanup_no_failure; [done|done|apply W].
    - erewrite cleanup_failure; [|exact Hf|right; exact Hle|apply W]. unfold nextFailureCount. cbn.
      destruct (Z.leb_spec (t - last) (window + nthCooldown n)); [done|lia]. }
  rewrite Hn in *.
  assert (cooldownFor o (getModelLockBaseCooldown st fb pr) (n + 1) pr = nthCooldown (n + 1)) as Hc.
  { unfold cooldownFor. by rewrite Hex. }
  rewrite Hc in *. split; [done|]. split; [done|].
  set (f := mkFailure (n + 1) t window (Some (nthCooldown (n + 1)))).
  set (s2 := s1 <| modelFailureState := mset fkey f (modelFailureState s1) |>).
  assert (forall key cd meta, mget fkey (modelFailureState (writeLock key why cd t meta s2)) = Some f) as Hw.
  { intros key cd meta. unfold writeLock. cbv zeta. set (s3 := cleanupModelLockKey key t (ensureCleanupTimer s2)).
    assert (mget fkey (modelFailureState s3) = Some f) as H3.
    { apply cleanup_failure; [apply mget_mset_eq| |].
      - right. subst f. cbn. pose proof window_pos. pose proof (nthCooldown_pos (n + 1)). lia.
      - apply mwf_mset. apply (cleanup_wf fkey t (ensureCleanupTimer s)), W. }
    by destruct (computeExactModelLockEntry _ why cd t meta). }
  destruct (resolveLockoutScope st (scope o)); [unfold lockExactModel|unfold lockModel]; (case_if; [apply mget_mset_eq|apply Hw]).
Qed.
End Backoff.

(** ** Decay *)

Section Decay.
Implicit Types (m : jsmap string ModelFailureState) (keys : list string).

Definition halved (f : ModelFailureState) : option ModelFailureState :=
  if f_count f / 2 =? 0 then None else Some (f <| f_count := f_count f / 2 |>).

Lemma decayKey_get m a key k :
  mwf m -> mget k (decayKey (m, a) key).1 = if decide (k = key) then mget k m ≫= halved else mget k m.
Proof.
  intros W. simpl. destruct (mget key m) as [f|] eqn:Hf.
  - unfold halved. case_decide as Hk; [subst|].
    + rewrite Hf. cbn. destruct (f_count f / 2 =? 0); cbn; [by apply mget_mdel_eq|by apply mget_mset_eq].
    + destruct (f_count f / 2 =? 0); cbn; [by apply mget_mdel_ne|by apply mget_mset_ne].
  - case_decide; [subst; by rewrite Hf|done].
Qed.

Lemma decay_get m a keys k :
  mwf m -> NoDup keys -> mget k (foldl decayKey (m, a) keys).1 = if decide (k ∈ keys) then mget k m ≫= halved else mget k m.
Proof.
  revert m a. induction keys as [|key keys IH]; intros m a W Hnd.
  - rewrite decide_False; [done|]. apply not_elem_of_nil.
  - apply NoDup_cons in Hnd as [Hni Hnd]. cbn [foldl].
    pose proof (decayKey_get m a key k W) as E. pose proof (decayKey_wf m a key W) as W'.
    destruct (decayKey (m, a) key) as [m' a']. cbn [fst] in *. rewrite IH, E by done.
    destruct (decide (k = key)) as [->|Hne].
    + rewrite decide_False by done. rewrite (decide_True (P := key ∈ key :: keys)); [done|by left].
    + destruct (decide (k ∈ keys)); [rewrite decide_True by by right|rewrite decide_False by set_solver]; done.
Qed.

Lemma collect_NoDup a b c : NoDup (collectModelLockKeys a b c).
Proof.
  unfold collectModelLockKeys. simpl.
  repeat (case_bool_decide; simpl in * ); repeat (apply NoDup_cons; split); try apply NoDup_nil_2; set_solver.
Qed.
End Decay.

(** ** Properties *)

Section Properties.
Context (resolveProviderId : string -> string) (nextMidnight : Z -> Z).

(** C11. A lock holds for its cooldown.  After a recorded failure of a model,
    whatever other failures, locks, decays, queries, cleanup ticks and evictions
    follow for any model, the model counts as locked until the cooldown the
    failure returned has passed. *)
Theorem lock_holds p c m why st fb pr o t0 s ops t :
  let r := recordModelLockoutFailure resolveProviderId nextMidnight p c m why st fb pr o t0 s in
  wf s -> isEmpty m = false -> t < t0 + r_cooldownMs r.2 ->
  Forall (fun l => l.1 < t0 + r_cooldownMs r.2) ops ->
  (isModelLocked resolveProviderId p c m t (foldl (applyLock resolveProviderId nextMidnight) r.1 ops)).2 = true.
Proof.
  intros r W Hm Ht Hops. pose proof (record_locks resolveProviderId nextMidnight p c m why st fb pr o t0 s W Hm) as Hl.
  assert (wf r.1) as Wr by (by apply (record_keeps resolveProviderId nextMidnight p c m why st fb pr o t0 s)).
  destruct (run_keeps resolveProviderId nextMidnight ops r.1 _ _ Wr Hl Hops) as [W' Hl'].
  unfold isModelLocked. rewrite Hm. eapply isAnyKeyLocked_true; [done|apply lockKey_checked|].
  destruct Hl' as (e & He & Hle). exists e. split; [exact He|]. fold r in Hle. lia.
Qed.

(** A server error stays with its model.  A failure that says nothing about the
    account's quota (a status other than 402, 403, 404 and 429, without an explicit
    scope) changes the answer of [isModelLocked] for no other model of the
    connection, at any time. *)
Theorem server_error_isolated p c m m2 why st fb pr o now s t :
  wf s -> scope o = None -> st ∉ QUOTA_FAMILY_LOCKOUT_STATUSES ->
  String.prefix "exact:" m2 = false -> toLowerCase (trim m2) <> toLowerCase (trim m) ->
  (isModelLocked resolveProviderId p c m2 t
     (recordModelLockoutFailure resolveProviderId nextMidnight p c m why st fb pr o now s).1).2 =
  (isModelLocked resolveProviderId p c m2 t s).2.
Proof.
  intros W Hsc Hst Hp Hne.
  assert (resolveLockoutScope st (scope o) = exact) as Hex by (unfold resolveLockoutScope; by rewrite Hsc, bool_decide_false).
  unfold isModelLocked. case_if; [done|].
  rewrite !isAnyKeyLocked_value; [|done|by apply (record_keeps resolveProviderId nextMidnight p c m why st fb pr o now s)].
  assert (forall k, k ∈ getModelLockKeys resolveProviderId p c m2 -> k <> buildExactKey resolveProviderId p c m) as Hk.
  { intros k. by apply keys_not_exact. }
  induction (getModelLockKeys resolveProviderId p c m2) as [|k keys IH]; [done|]. cbn [existsb].
  rewrite IH by (intros k' Hk'; apply Hk; by right). f_equal. unfold activeAt.
  rewrite record_exact_frame; [done..|]. apply Hk. by left.
Qed.

(** The backoff escalates.  Failures that each come within the failure window
    after the previous cooldown get, in order, the cooldowns
    min(base * 2^(i-1), cap) with the exponent bounded by the profile's steps,
    whatever the cleanup of expired locks removes in between. *)
Theorem backoff_escalates p c m why st fb pr o t ts s :
  (why = "quota_exhausted"%string -> exactCooldownMs o <> None) -> positive (exactCooldownMs o) = None -> wf s ->
  mget (fkey resolveProviderId p c m why st o) (modelFailureState s) = None ->
  streak st fb pr o 1 t ts ->
  recordAll resolveProviderId nextMidnight p c m why st fb pr o (t :: ts) s =
  (fun i => mkResult (nthCooldown st fb pr o (Z.of_nat i)) (Z.of_nat i) (window pr)) <$> seq 1 (S (length ts)).
Proof.
  intros Hq Hex W Hnone Hts.
  assert (forall n last ts s, wf s -> streak st fb pr o (Z.of_nat n) last ts ->
    mget (fkey resolveProviderId p c m why st o) (modelFailureState s) =
      Some (mkFailure (Z.of_nat n) last (window pr) (Some (nthCooldown st fb pr o (Z.of_nat n)))) ->
    recordAll resolveProviderId nextMidnight p c m why st fb pr o ts s =
    (fun i => mkResult (nthCooldown st fb pr o (Z.of_nat i)) (Z.of_nat i) (window pr)) <$> seq (S n) (length ts)) as H.
  { clear s W Hnone Hts t ts. intros n last ts. revert n last. induction ts as [|t ts IH]; intros n last s W Hts Hf; [done|].
    destruct Hts as [Hle Hts].
    destruct (record_streak resolveProviderId nextMidnight p c m why st fb pr o (Z.of_nat n) last t s Hq Hex W) as (Hr & W' & Hf'); [by right|].
    cbn [recordAll length seq fmap list_fmap].
    destruct (recordModelLockoutFailure resolveProviderId nextMidnight p c m why st fb pr o t s) as [s' r]. cbn [fst snd] in *.
    replace (Z.of_nat n + 1) with (Z.of_nat (S n)) in * by lia. rewrite Hr. f_equal. by apply (IH (S n) t). }
  destruct (record_streak resolveProviderId nextMidnight p c m why st fb pr o 0 0 t s Hq Hex W) as (Hr & W' & Hf'); [by left|].
  cbn [recordAll seq fmap list_fmap].
  destruct (recordModelLockoutFailure resolveProviderId nextMidnight p c m why st fb pr o t s) as [s' r]. cbn [fst snd] in *.
  rewrite Hr. f_equal. by apply (H 1%nat t).
Qed.

(** Success walks the backoff back.  A failure count below 2^n is forgotten
    after n successes, under whichever key shape of the model it is stored. *)
Theorem decay_clears p c m n s k f :
  wf s -> isEmpty m = false -> n <> 0%nat ->
  k ∈ getModelLockKeys resolveProviderId p c m -> mget k (modelFailureState s) = Some f ->
  0 <= f_count f < 2 ^ Z.of_nat n ->
  mget k (modelFailureState (Nat.iter n (fun s => (decayModelFailureCount resolveProviderId p c m s).1) s)) = None.
Proof.
  intros W Hm Hn0 Hk Hf Hn. set (decay := fun s => (decayModelFailureCount resolveProviderId p c m s).1).
  assert (forall s, wf s -> wf (decay s) /\ mget k (modelFailureState (decay s)) = mget k (modelFailureState s) ≫= halved) as Hd.
  { clear s W Hf. intros s [W1 W2]. subst decay. unfold decayModelFailureCount. cbn beta. rewrite Hm. unfold decayFailureCounts.
    pose proof (decay_get (modelFailureState s) (mkDecayAcc 0 0 0) _ k W2 (collect_NoDup _ _ _ : NoDup (getModelLockKeys resolveProviderId p c m))) as E.
    pose proof (decay_wf (getModelLockKeys resolveProviderId p c m) (modelFailureState s) (mkDecayAcc 0 0 0) W2) as W3.
    destruct (foldl decayKey _ _) as [m' a']. cbn in *. rewrite decide_True in E by done. done. }
  assert (forall n, wf (Nat.iter n decay s) /\ forall f', mget k (modelFailureState (Nat.iter n decay s)) = Some f' ->
    f_count f' = f_count f / 2 ^ Z.of_nat n /\ (n <> 0%nat -> f_count f' <> 0)) as H.
  { clear n Hn Hn0. induction n as [|n [IHw IH]]; [split; [done|]; intros f'; simpl; rewrite Hf; intros [= <-]; split; [by rewrite Z.div_1_r|done]|].
    simpl. destruct (Hd _ IHw) as [Hw Hg]. split; [done|]. intros f'. rewrite Hg.
    destruct (mget k (modelFailureState (Nat.iter n decay s))) as [f0|]; [|done]. cbn. unfold halved.
    destruct (IH f0 eq_refl) as [IHf _]. destruct (Z.eqb_spec (f_count f0 / 2) 0); [done|]. intros [= <-]. cbn. split; [|done].
    rewrite IHf, Z.div_div by lia. f_equal. rewrite Nat2Z.inj_succ, Z.pow_succ_r by lia. lia. }
  destruct (H n) as [_ H']. destruct (mget k (modelFailureState (Nat.iter n decay s))) as [f'|]; [|done].
  destruct (H' f' eq_refl) as [E Hnz].
  rewrite Z.div_small in E by lia. by destruct Hnz.
Qed.

(** Lock keys parse back.  For a provider and a connection without a colon,
    [parseModelLockKey] recovers the provider, the connection, the scope and the
    model from the exact key (trimmed and in lower case), and the model or the
    family name from any other key, whatever colons the model has. *)
Theorem lock_key_roundtrip p c m (why : option string) st :
  occurs ":" (resolveProviderId p) = false -> occurs ":" c = false ->
  m <> "exact"%string -> String.prefix "exact:" m = false ->
  parseModelLockKey (buildExactKey resolveProviderId p c m) =
    mkParsed (resolveProviderId p) (Some c) (toLowerCase (trim m)) exact /\
  exists x, (x = m \/ x ∈ familyScopes) /\
    parseModelLockKey (getModelLockKey resolveProviderId p c m why st) = mkParsed (resolveProviderId p) (Some c) x quota_family.
Proof.
  intros Hp Hc Hne Hpre. split.
  - unfold buildExactKey, getCanonicalLockProvider. rewrite exactKey_shape, parse_keyOf by done.
    change ("exact:" +:+ toLowerCase (trim m)) with ("exact" +:+ String ":" (toLowerCase (trim m))).
    rewrite split_app by done. cbn. by rewrite (join_split ":").
  - pose proof (lockModelOf_cases resolveProviderId p m why st) as Hx.
    pose proof (lockModelOf_not_exact resolveProviderId p m why st Hpre) as Hx'.
    rewrite getModelLockKey_shape. set (x := lockModelOf resolveProviderId p m why st) in *. exists x. split; [done|].
    rewrite parse_keyOf by done. destruct (split ":" x) as [|w ws] eqn:E; [by apply split_ne in E|].
    destruct (String.eqb_spec w "exact") as [->|]; [|done]. exfalso.
    destruct (split_cons _ _ _ _ E) as [Hxe|Hxp]; [|change ("exact" +:+ String ":" "") with "exact:"%string in Hxp; congruence].
    destruct Hx as [Hx|Hx]; [congruence|]. rewrite Hxe in Hx.
    unfold familyScopes in Hx. rewrite !elem_of_cons, elem_of_nil in Hx. naive_solver.
Qed.
End Properties.

(** ** Witnesses *)

Definition exOptions : LockoutOptions := mkLockOptions None (Some 600000) None false.
Definition exRecord (now : Z) (s : Lockouts) : Lockouts * LockoutResult :=
  recordModelLockoutFailure (fun p => p) (fun now => now + 3600000) "openai" "c1" "gpt-4o" "unknown" 503 (Some 5000) None
    exOptions now s.

Lemma noLockouts_wf : wf noLockouts.
Proof. split; apply mwf_nil. Qed.

Lemma lock_holds_witness :
  (isModelLocked (fun p => p) "openai" "c1" "gpt-4o" 5999
     (foldl (applyLock (fun p => p) (fun now => now + 3600000)) (exRecord 1000 noLockouts).1
        [(2000, OSweep); (3000, ORecord "openai" "c1" "gpt-4o" "unknown" 503 (Some 1000) None exOptions)])).2 = true.
Proof.
  refine (lock_holds (fun p => p) (fun now => now + 3600000) "openai" "c1" "gpt-4o" "unknown" 503 (Some 5000) None
    exOptions 1000 noLockouts _ 5999 noLockouts_wf eq_refl _ _); [vm_compute; reflexivity|].
  repeat constructor; vm_compute; reflexivity.
Defined.

Lemma server_error_isolated_witness :
  (isModelLocked (fun p => p) "openai" "c1" "gpt-4o-mini" 1001 (exRecord 1000 noLockouts).1).2 = false.
Proof.
  refine (eq_trans (server_error_isolated (fun p => p) (fun now => now + 3600000) "openai" "c1" "gpt-4o" "gpt-4o-mini"
    "unknown" 503 (Some 5000) None exOptions 1000 noLockouts 1001 noLockouts_wf eq_refl _ eq_refl _) eq_refl).
  - apply (bool_decide_unpack _). vm_compute. exact I.
  - vm_compute. discriminate.
Defined.

Lemma backoff_escalates_witness :
  r_cooldownMs <$> recordAll (fun p => p) (fun now => now + 3600000) "openai" "c1" "gpt-4o" "unknown" 503 (Some 5000) None
    exOptions [1000; 7000; 20000] noLockouts = [5000; 10000; 20000].
Proof.
  refine (eq_trans (f_equal (fmap r_cooldownMs) (backoff_escalates (fun p => p) (fun now => now + 3600000) "openai" "c1" "gpt-4o"
    "unknown" 503 (Some 5000) None exOptions 1000 [7000; 20000] noLockouts _ eq_refl noLockouts_wf eq_refl _)) _);
    [discriminate|repeat split; vm_compute; discriminate|vm_compute; reflexivity].
Defined.

Lemma decay_clears_witness :
  mget "openai:c1:exact:gpt-4o"%string (modelFailureState
    (Nat.iter 2 (fun s => (decayModelFailureCount (fun p => p) "openai" "c1" "gpt-4o" s).1)
      (exRecord 7000 (exRecord 1000 noLockouts).1).1)) = None.
Proof.
  refine (decay_clears (fun p => p) "openai" "c1" "gpt-4o" 2 (exRecord 7000 (exRecord 1000 noLockouts).1).1
    "openai:c1:exact:gpt-4o" (mkFailure 2 7000 1800000 (Some 10000)) _ eq_refl _ _ eq_refl _).
  - split; apply (bool_decide_unpack _); vm_compute; exact I.
  - discriminate.
  - apply (bool_decide_unpack _). vm_compute. exact I.
  - vm_compute. split; [discriminate|reflexivity].
Defined.

Lemma lock_key_roundtrip_witness :
  parseModelLockKey "openrouter:c1:exact:meta/llama:free" = mkParsed "openrouter" (Some "c1"%string) "meta/llama:free" exact.
Proof.
  refine (proj1 (lock_key_roundtrip (fun p => p) "openrouter" "c1" "Meta/Llama:free" None None eq_refl eq_refl _ eq_refl)).
  discriminate.
Defined.

(** ** Findings *)

(** A 404 recorded with the reason [classifyLockoutReason] gives it locks the whole
    quota family: the failure count is kept under the bare model, but the lock is
    written without the status, under the family key. *)
Lemma not_found_status_locks_family :
  let s := (recordModelLockoutFailure (fun p => p) (fun now => now) "codex" "c1" "gpt-5.6-missing"
    (classifyLockoutReason 404) 404 (Some 5000) None exOptions 1000 noLockouts).1 in
  mkeys (modelLockouts s) = ["codex:c1:codex"]%string /\ mkeys (modelFailureState s) = ["codex:c1:gpt-5.6-missing"]%string /\
  (isModelLocked (fun p => p) "codex" "c1" "gpt-5.1" 1001 s).2 = true.
Proof. vm_compute. done. Qed.

(** The eviction of failure counts counts the entries it keeps: with a cap of one
    and the oldest of two entries locked, nothing is evicted although the other
    entry is not locked. *)
Lemma eviction_counts_kept_entries :
  let f := mkFailure 1 0 1000 None in
  let s := mkLockouts [("a"%string, mkEntry "r" 5000 0 1 0 1000)] [("a"%string, f); ("b"%string, f)] true in
  evictLockoutOverflow 1 2000 s = s.
Proof. vm_compute. done. Qed.
