(* ===== verification/ComboCooldown.v ===== *)
(** * Waiting out a cooldown: [open-sse/services/combo/comboCooldownRetry.ts]

    When every target of a combo failed, the dispatch loop may wait for a short
    lock to end and try again.  This file has the policy, the lookup the loop
    gives it (the model lockouts of the targets), and the bookkeeping of the loop
    in [comboAttemptLoop.ts]: its attempts and its budget of waiting time.  A
    value of unknown type is an option: [None] is not a string, or not a finite
    number. *)
From Stdlib Require Import String Ascii Sorting.Sorted.
From S2P Require Import Prelude JsMap JsString ModelLockout.
#[local] Open Scope Z_scope.

Definition COMBO_COOLDOWN_NON_RETRYABLE_REASONS : list string :=
  ["quota_exhausted"; "auth_error"; "not_found"; "not_found_local"]%string.

Definition COMBO_COOLDOWN_RETRYABLE_REASONS : list string :=
  ["rate_limit"; "rate_limited"; "transient"; "overloaded"; "server_error"; "circuit_open"]%string.

Record ComboCooldownWaitSettings := mkSettings {
  enabled : bool;
  maxWaitMs : Z;
  maxAttempts : Z;
  budgetMs : Z;
}.

Definition toFiniteWaitMs (value : option Z) : Z :=
  match value with Some v => if v >? 0 then v else 0 | None => 0 end.

Definition isRetryableComboCooldownReason (r : option string) : bool :=
  match r with
  | None => false
  | Some r =>
      if isEmpty r then false
      else if bool_decide (r ∈ COMBO_COOLDOWN_NON_RETRYABLE_REASONS) then false
      else bool_decide (r ∈ COMBO_COOLDOWN_RETRYABLE_REASONS)
  end.

Definition shouldWaitForComboCooldown (r : option string) (wait : option Z) (attempt budgetLeftMs : Z)
    (settings : ComboCooldownWaitSettings) : bool * Z :=
  let waitMs := toFiniteWaitMs wait in
  (enabled settings && isRetryableComboCooldownReason r && (waitMs >? 0) && (waitMs <=? maxWaitMs settings) &&
   (attempt <? maxAttempts settings) && (budgetLeftMs >=? waitMs), waitMs).

Record ComboCooldownLockInfo := mkLockInfo { lockReason : option string; lockRemainingMs : option Z }.

Record ComboCooldownTarget := mkTarget {
  t_provider : option string;
  t_connectionId : option string;
  t_modelStr : option string;
}.

Record CooldownDecision := mkDecision { d_wait : bool; d_waitMs : Z; d_reason : option string }.

Definition noWait : CooldownDecision := mkDecision false 0 None.

Definition COMBO_COOLDOWN_WAIT_MARGIN_MS : Z := 50.

(** The lock with the least time left so far. *)
Record Best := mkBest { b_reason : option string; b_remainingMs : Z }.

Section Decision.
(** The lookup may change its own state [S]. *)
Context {S : Type} (lookupLock : S -> string -> string -> ComboCooldownTarget -> S * option ComboCooldownLockInfo).

Definition considerTarget (acc : S * option Best) (target : ComboCooldownTarget) : S * option Best :=
  let '(s, best) := acc in
  let provider := orElse (t_provider target) ""%string in
  if isEmpty provider then (s, best)
  else
    let '(s, info) := lookupLock s provider (orElse (t_connectionId target) ""%string) target in
    match info with
    | None => (s, best)
    | Some info =>
        let remainingMs := orElse (lockRemainingMs info) 0 in
        if remainingMs <=? 0 then (s, best)
        else
          match best with
          | Some b => if remainingMs <? b_remainingMs b then (s, Some (mkBest (lockReason info) remainingMs)) else (s, best)
          | None => (s, Some (mkBest (lockReason info) remainingMs))
          end
    end.

(** [hint] is [computeWaitMs(earliestRetryAfter)]. *)
Definition resolveComboCooldownWaitDecision (targets : list ComboCooldownTarget) (hint : option Z)
    (attempt budgetLeftMs : Z) (settings : ComboCooldownWaitSettings) (s : S) : S * CooldownDecision :=
  if negb (enabled settings) then (s, noWait)
  else
    let '(s, best) := foldl considerTarget (s, None) targets in
    match best with
    | None => (s, noWait)
    | Some best =>
        let hintWaitMs := toFiniteWaitMs hint in
        let waitMs := Z.max (b_remainingMs best) hintWaitMs + COMBO_COOLDOWN_WAIT_MARGIN_MS in
        let '(wait, ms) := shouldWaitForComboCooldown (b_reason best) (Some waitMs) attempt budgetLeftMs settings in
        (s, mkDecision wait ms (b_reason best))
    end.
End Decision.

Definition resolveCircuitOpenWaitDecision (skippedForCircuitOpen : bool) (retryAfter : option Z)
    (attempt budgetLeftMs : Z) (settings : ComboCooldownWaitSettings) : CooldownDecision :=
  if negb (enabled settings) || negb skippedForCircuitOpen then noWait
  else
    let retryAfterMs := toFiniteWaitMs retryAfter in
    if retryAfterMs <=? 0 then noWait
    else
      let '(wait, ms) := shouldWaitForComboCooldown (Some "circuit_open"%string)
        (Some (retryAfterMs + COMBO_COOLDOWN_WAIT_MARGIN_MS)) attempt budgetLeftMs settings in
      mkDecision wait ms (Some "circuit_open"%string).

(** ** The dispatch loop *)

(** The counters of one request, and one decision's effect on them. *)
Record WaitState := mkWaitState { attemptNo : Z; budgetLeft : Z }.

Definition startWaits (settings : ComboCooldownWaitSettings) : WaitState := mkWaitState 0 (budgetMs settings).

Definition afterDecision (d : CooldownDecision) (w : WaitState) : WaitState :=
  if d_wait d then mkWaitState (attemptNo w + 1) (Z.max 0 (budgetLeft w - d_waitMs d)) else w.

Section Loop.
Context (resolveProviderId : string -> string) (parseModel : string -> string).

(** The lookup of the loop: the lock of the target's own model. *)
Definition lookupModelLock (now : Z) (s : Lockouts) (provider connectionId : string) (target : ComboCooldownTarget)
    : Lockouts * option ComboCooldownLockInfo :=
  let rawModel := parseModel (orElse (t_modelStr target) ""%string) in
  if isEmpty rawModel then (s, None)
  else
    let '(s, info) := getModelLockoutInfo resolveProviderId provider connectionId rawModel now s in
    (s, (fun i => mkLockInfo (Some (i_reason i)) (Some (i_remainingMs i))) <$> info).

Definition decideWait (now : Z) (targets : list ComboCooldownTarget) (hint : option Z) (w : WaitState)
    (settings : ComboCooldownWaitSettings) (s : Lockouts) : Lockouts * CooldownDecision :=
  resolveComboCooldownWaitDecision (lookupModelLock now) targets hint (attemptNo w) (budgetLeft w) settings s.
End Loop.

(** ** Lemmas *)

Lemma shouldWait_true r wait attempt budget settings ms :
  shouldWaitForComboCooldown r wait attempt budget settings = (true, ms) ->
  (exists x, r = Some x /\ x ∈ COMBO_COOLDOWN_RETRYABLE_REASONS /\ x ∉ COMBO_COOLDOWN_NON_RETRYABLE_REASONS) /\
  ms = toFiniteWaitMs wait /\ 0 < ms <= maxWaitMs settings /\ attempt < maxAttempts settings /\ ms <= budget.
Proof.
  unfold shouldWaitForComboCooldown. cbv zeta. intros [= H <-]. to_prop. split; [|split; [done|lia]].
  unfold isRetryableComboCooldownReason in *. destruct r as [x|]; [|done]. destruct (isEmpty x); [done|].
  case_bool_decide; [done|]. exists x. by case_bool_decide.
Qed.

(** The lookups of one decision only drop expired entries. *)
Definition shrinks (s s' : Lockouts) : Prop :=
  forall k e, mget k (modelLockouts s') = Some e -> mget k (modelLockouts s) = Some e.

Lemma cleanup_shrinks key now s : wf s -> shrinks s (cleanupModelLockKey key now s).
Proof.
  intros W k e. rewrite cleanup_lock by done. destruct (mget k (modelLockouts s)) as [e'|]; [|done].
  case_decide; [|by intros [= ->]]. case_if; [done|by intros [= ->]].
Qed.

Definition lockStep (now : Z) '(s, es) (key : string) : Lockouts * list ModelLockoutEntry :=
  let s := cleanupModelLockKey key now s in (s, es ++ option_list (mget key (modelLockouts s))).

Lemma lockSteps_spec now keys s es :
  wf s -> let r := foldl (lockStep now) (s, es) keys in
  wf r.1 /\ shrinks s r.1 /\ es ⊆ r.2 /\ forall k e, k ∈ keys -> mget k (modelLockouts r.1) = Some e -> e ∈ r.2.
Proof.
  revert s es. induction keys as [|key keys IH]; intros s es W; cbn [foldl].
  { split_and!; [done|by intros ? ?|done|]. intros k e Hk. by apply elem_of_nil in Hk. }
  cbn [lockStep]. set (s1 := cleanupModelLockKey key now s). set (es1 := es ++ _).
  destruct (IH s1 es1 (cleanup_wf key now s W)) as (W' & Hs & Hsub & Hin). split_and!; [done| | |].
  - intros k e Hk. by apply (cleanup_shrinks key now s W), Hs.
  - intros e He. apply Hsub. apply elem_of_app. by left.
  - intros k e [->|Hk]%elem_of_cons He; [|by apply (Hin k)]. apply Hsub, elem_of_app. right.
    rewrite (Hs _ _ He). by left.
Qed.

(** The entry found is the one that ends last. *)
Lemma findLatest_spec keys now s s' oe :
  wf s -> findLatestLockEntry keys now s = (s', oe) ->
  wf s' /\ shrinks s s' /\
  forall k e', k ∈ keys -> mget k (modelLockouts s') = Some e' -> exists e, oe = Some e /\ until e' <= until e.
Proof.
  intros W. unfold findLatestLockEntry. pose proof (lockSteps_spec now keys s [] W) as H.
  change (foldl _ (s, []) keys) with (foldl (lockStep now) (s, []) keys).
  destruct (foldl (lockStep now) (s, []) keys) as [s1 es]. cbn [fst snd] in H. destruct H as (W1 & Hs & _ & Hin).
  intros [= -> <-]. split; [done|]. split; [done|]. intros k e' Hk He'. specialize (Hin k e' Hk He').
  pose proof (sortOn_perm (fun e => - until e) es) as Hp. pose proof (sortOn_sorted (fun e => - until e) es) as Hso.
  rewrite <- Hp in Hin. destruct (sortOn _ es) as [|e l]; [by apply elem_of_nil in Hin|]. exists e. split; [done|].
  apply elem_of_cons in Hin as [->|Hin]; [done|]. apply StronglySorted_inv in Hso as [_ Hf].
  rewrite Forall_forall in Hf. specialize (Hf e' Hin). unfold leOn in Hf. lia.
Qed.

(** ** The best lock *)

Section Decided.
Context (resolveProviderId : string -> string) (parseModel : string -> string).
Implicit Types (t : ComboCooldownTarget).

Definition targetModel t : string := parseModel (orElse (t_modelStr t) ""%string).

(** Whether the model of a target is locked at an instant. *)
Definition targetLocked (now : Z) (s : Lockouts) t : bool :=
  (isModelLocked resolveProviderId (orElse (t_provider t) ""%string) (orElse (t_connectionId t) ""%string) (targetModel t) now s).2.

(** No entry of the target's model outlasts [u]. *)
Definition endsBy (u : Z) (s : Lockouts) t : Prop :=
  forall k e, k ∈ getModelLockKeys resolveProviderId (orElse (t_provider t) ""%string) (orElse (t_connectionId t) ""%string) (targetModel t) ->
    mget k (modelLockouts s) = Some e -> until e <= u.

Lemma endsBy_shrinks u s s' t : shrinks s s' -> endsBy u s t -> endsBy u s' t.
Proof. intros Hs H k e Hk He. apply (H k); [done|by apply Hs]. Qed.

Lemma endsBy_unlocked u now s t : wf s -> endsBy u s t -> u < now -> targetLocked now s t = false.
Proof.
  intros W H Hlt. unfold targetLocked, isModelLocked. case_if; [done|]. rewrite isAnyKeyLocked_value by done.
  apply not_true_iff_false. intros (k & Hk & Ha)%existsb_exists. apply list_elem_of_In in Hk.
  unfold activeAt in Ha. destruct (mget k (modelLockouts s)) as [e|] eqn:E; [|done]. to_prop. specialize (H k e Hk E). lia.
Qed.

Lemma lookup_spec now s t s' oi :
  wf s -> lookupModelLock resolveProviderId parseModel now s (orElse (t_provider t) ""%string) (orElse (t_connectionId t) ""%string) t = (s', oi) ->
  wf s' /\ shrinks s s' /\
  forall i, oi = Some i -> exists e r, lockReason i = Some r /\ lockRemainingMs i = Some (until e - now) /\ endsBy (until e) s' t.
Proof.
  intros W. unfold lookupModelLock. fold (targetModel t). destruct (isEmpty (targetModel t)) eqn:Hm.
  { intros [= <- <-]. split; [done|]. split; [by intros ? ?|done]. }
  unfold getModelLockoutInfo. rewrite Hm.
  destruct (findLatestLockEntry _ now s) as [s1 oe] eqn:Hf. destruct (findLatest_spec _ _ _ _ _ W Hf) as (W1 & Hs & Hl).
  destruct oe as [e|]; cbn; intros [= <- <-]; (split; [done|]; split; [done|]); [|done].
  intros i [= <-]. exists e, (reason e). split_and!; [done|done|]. intros k e' Hk He'.
  destruct (Hl k e' Hk He') as (e2 & [= <-] & ?). done.
Qed.

Definition bestOk (now : Z) (ts : list ComboCooldownTarget) (s : Lockouts) (ob : option Best) : Prop :=
  match ob with
  | None => True
  | Some b => 0 < b_remainingMs b /\ (exists r, b_reason b = Some r) /\
              exists t, t ∈ ts /\ endsBy (now + b_remainingMs b) s t
  end.

Lemma considerTargets_spec now ts done_ s ob :
  wf s -> bestOk now done_ s ob ->
  let r := foldl (considerTarget (lookupModelLock resolveProviderId parseModel now)) (s, ob) ts in
  wf r.1 /\ bestOk now (done_ ++ ts) r.1 r.2.
Proof.
  revert done_ s ob. induction ts as [|t ts IH]; intros done_ s ob W Hb; cbn [foldl]; [by rewrite app_nil_r|].
  replace (done_ ++ t :: ts) with ((done_ ++ [t]) ++ ts) by (by rewrite <- app_assoc).
  assert (forall s' ob', shrinks s s' -> bestOk now done_ s ob' -> bestOk now (done_ ++ [t]) s' ob') as Hmono.
  { intros s' [b|] Hs; [|done]. intros (H0 & Hr & t0 & Hin & He). split; [done|]. split; [done|]. exists t0.
    split; [apply elem_of_app; by left|by eapply endsBy_shrinks]. }
  cbn [considerTarget]. destruct (isEmpty (orElse (t_provider t) ""%string)); [apply IH; [done|apply Hmono; [by intros ? ?|done]]|].
  destruct (lookupModelLock _ _ now s _ _ t) as [s' oi] eqn:Hl. destruct (lookup_spec _ _ _ _ _ W Hl) as (W' & Hs & Hi).
  destruct oi as [i|]; [|by apply IH, Hmono]. destruct (Hi i eq_refl) as (e & r & Hr & Hrem & He). rewrite Hrem. cbn [orElse].
  destruct (Z.leb_spec (until e - now) 0); [by apply IH, Hmono|].
  assert (bestOk now (done_ ++ [t]) s' (Some (mkBest (lockReason i) (until e - now)))) as Hnew.
  { cbn. split; [lia|]. split; [by exists r|]. exists t. split; [apply elem_of_app; right; by left|].
    by replace (now + (until e - now)) with (until e) by lia. }
  destruct ob as [b|]; [|by apply IH]. case_if; [by apply IH|by apply IH, Hmono].
Qed.

(** The wait clears the lock it waits for.  When the loop decides to wait, the
    reason is one of the transient ones and never an exhausted quota, an
    authentication error or a missing model; the wait is within the ceiling and
    the remaining budget, and after it, if nothing fails in between, the model of
    some target is no longer locked. *)
Theorem cooldown_wait_unlocks now targets hint w settings s :
  wf s -> let r := decideWait resolveProviderId parseModel now targets hint w settings s in
  d_wait r.2 = true ->
  (exists x, d_reason r.2 = Some x /\ x ∈ COMBO_COOLDOWN_RETRYABLE_REASONS /\ x ∉ COMBO_COOLDOWN_NON_RETRYABLE_REASONS) /\
  0 < d_waitMs r.2 <= maxWaitMs settings /\ d_waitMs r.2 <= budgetLeft w /\
  exists t, t ∈ targets /\ targetLocked (now + d_waitMs r.2) r.1 t = false.
Proof.
  intros W. cbv zeta. unfold decideWait, resolveComboCooldownWaitDecision. destruct (negb (enabled settings)); [done|].
  pose proof (considerTargets_spec now targets [] s None W I) as H. cbn [app] in H.
  destruct (foldl _ (s, None) targets) as [s' ob]. cbn [fst snd] in H. destruct H as [W' Hb].
  destruct ob as [b|]; [|done]. destruct Hb as (H0 & _ & t & Hin & He).
  destruct (shouldWaitForComboCooldown _ _ _ _ _) as [wait ms] eqn:E. cbn [fst snd d_wait d_waitMs d_reason]. intros ->.
  apply shouldWait_true in E as (Hr & Hms & Hle & _ & Hbud). split; [done|]. split; [done|]. split; [done|].
  exists t. split; [done|]. eapply endsBy_unlocked; [done|exact He|].
  assert (toFiniteWaitMs (Some (Z.max (b_remainingMs b) (toFiniteWaitMs hint) + COMBO_COOLDOWN_WAIT_MARGIN_MS)) =
    Z.max (b_remainingMs b) (toFiniteWaitMs hint) + COMBO_COOLDOWN_WAIT_MARGIN_MS) as Hfin.
  { unfold toFiniteWaitMs at 1. unfold COMBO_COOLDOWN_WAIT_MARGIN_MS. destruct (Z.gtb_spec (Z.max (b_remainingMs b) (toFiniteWaitMs hint) + 50) 0); [done|lia]. }
  rewrite Hms, Hfin. unfold COMBO_COOLDOWN_WAIT_MARGIN_MS. lia.
Qed.

(** ** The waits of one request *)

(** A decision made with the counters [w]. *)
Inductive madeWith (settings : ComboCooldownWaitSettings) (w : WaitState) : CooldownDecision -> Prop :=
| made_lock now targets hint s :
    madeWith settings w (decideWait resolveProviderId parseModel now targets hint w settings s).2
| made_circuit skipped retryAfter :
    madeWith settings w (resolveCircuitOpenWaitDecision skipped retryAfter (attemptNo w) (budgetLeft w) settings).

(** The waits of a request so far, with its counters. *)
Inductive waited (settings : ComboCooldownWaitSettings) : list Z -> WaitState -> Prop :=
| waited_start : waited settings [] (startWaits settings)
| waited_more ws w d :
    waited settings ws w -> madeWith settings w d -> d_wait d = true ->
    waited settings (ws ++ [d_waitMs d]) (afterDecision d w).

Lemma made_bounds settings w d :
  madeWith settings w d -> d_wait d = true ->
  0 < d_waitMs d <= maxWaitMs settings /\ attemptNo w < maxAttempts settings /\ d_waitMs d <= budgetLeft w.
Proof.
  intros [now targets hint s|skipped retryAfter].
  - unfold decideWait, resolveComboCooldownWaitDecision. destruct (negb (enabled settings)); [done|].
    destruct (foldl _ (s, None) targets) as [s' [b|]]; [|done].
    destruct (shouldWaitForComboCooldown _ _ _ _ _) as [wait ms] eqn:E. cbn. intros ->. by apply shouldWait_true in E as (_ & _ & ? & ? & ?).
  - unfold resolveCircuitOpenWaitDecision. case_if; [done|]. case_if; [done|].
    destruct (shouldWaitForComboCooldown _ _ _ _ _) as [wait ms] eqn:E. cbn. intros ->. by apply shouldWait_true in E as (_ & _ & ? & ? & ?).
Qed.

(** Waiting ends.  However often the dispatch of a request fails, whatever the
    locks and breakers say each time, the request waits at most [maxAttempts]
    times, each time at most [maxWaitMs], and in total at most [budgetMs]. *)
Theorem cooldown_waits_bounded settings ws w :
  0 <= maxAttempts settings -> 0 <= budgetMs settings -> waited settings ws w ->
  Z.of_nat (length ws) <= maxAttempts settings /\ sumZ ws <= budgetMs settings /\
  Forall (fun ms => 0 < ms <= maxWaitMs settings) ws.
Proof.
  intros HA HB Hw.
  assert (attemptNo w = Z.of_nat (length ws) /\ sumZ ws + budgetLeft w = budgetMs settings /\ 0 <= budgetLeft w /\
    Z.of_nat (length ws) <= maxAttempts settings /\ Forall (fun ms => 0 < ms <= maxWaitMs settings) ws) as (_ & ? & ? & ? & ?);
    [|split_and!; [done|lia|done]].
  induction Hw as [|ws w d Hw IH Hm Hd]; [cbn; split_and!; [done..|constructor]|].
  destruct IH as (IA & IB & IC & ID & IE). destruct (made_bounds _ _ _ Hm Hd) as (? & ? & ?).
  unfold afterDecision. rewrite Hd. cbn [attemptNo budgetLeft]. rewrite length_app, sumZ_app. cbn [length sumZ foldr].
  split_and!; [lia|lia|lia|lia|]. apply Forall_app. split; [done|]. constructor; [done|apply Forall_nil_2].
Qed.
End Decided.

(** ** Witnesses *)

Definition exSettings : ComboCooldownWaitSettings := mkSettings true 10000 2 12000.
Definition exTargets : list ComboCooldownTarget :=
  [mkTarget (Some "openai"%string) (Some "c1"%string) (Some "gpt-4o"%string)].

(** One target, locked for five seconds by a rate limit. *)
Definition exLocked : Lockouts :=
  lockModel (fun p => p) "openai" "c1" "gpt-4o" "rate_limit" 5000 1000 noMetadata noLockouts.

Definition exDecision : Lockouts * CooldownDecision :=
  decideWait (fun p => p) (fun m => m) 2000 exTargets None (startWaits exSettings) exSettings exLocked.

Lemma exLocked_wf : wf exLocked.
Proof. split; apply (bool_decide_unpack _); vm_compute; exact I. Qed.

Lemma cooldown_wait_unlocks_witness :
  exDecision.2 = mkDecision true 4050 (Some "rate_limit"%string) /\ d_waitMs exDecision.2 <= budgetLeft (startWaits exSettings).
Proof.
  split; [vm_compute; reflexivity|].
  exact (proj1 (proj2 (proj2 (cooldown_wait_unlocks (fun p => p) (fun m => m) 2000 exTargets None (startWaits exSettings)
    exSettings exLocked exLocked_wf eq_refl)))).
Defined.

Lemma cooldown_waits_bounded_witness : sumZ [d_waitMs exDecision.2] <= 12000.
Proof.
  refine (proj1 (proj2 (cooldown_waits_bounded (fun p => p) (fun m => m) exSettings [d_waitMs exDecision.2]
    (afterDecision exDecision.2 (startWaits exSettings)) _ _ _))); [done|done|].
  apply (waited_more _ _ exSettings [] (startWaits exSettings) exDecision.2); [constructor|apply made_lock|reflexivity].
Defined.
