(* ===== verification/RoundRobin.v ===== *)
(** * Round-robin state: [open-sse/services/combo/rrState.ts]

    A combo remembers a counter and a sticky target: a batch of [stickyLimit]
    successes goes to one target before the rotation moves on.  The last two
    operations are the pointer updates of [roundRobinCombo.ts] at the start of a
    request and when a target has served it.  Targets are their execution keys. *)
From Stdlib Require Import QArith_base Qround.
From S2P Require Import Prelude JsMap.
#[local] Open Scope Z_scope.

Definition MAX_RR_COUNTERS : Z := 500.

Record Sticky := mkSticky { executionKey : string; successCount : Z }.

Record RRState := mkRR {
  rrCounters : jsmap string Z;
  rrStickyTargets : jsmap string Sticky;
  weightedStickyTargets : jsmap string Sticky;
}.

#[export] Instance RRState_eta : Eta RRState := fun x =>
  mkRR (rrCounters x) (rrStickyTargets x) (weightedStickyTargets x).

Definition emptyRR : RRState := mkRR [] [] [].

(** The argument is [Number(value)]. *)
Definition clampStickyRoundRobinTargetLimit (numericValue : jsnum) : Z :=
  match numericValue with
  | NonFinite => 1
  | Fin q => Z.min (Z.max (Qfloor q) 1) 1000
  end.

(** The settings, already through [Number]; [None] is undefined or null. *)
Definition resolveComboStickyRoundRobinLimit (perCombo comboSticky global : option jsnum) : Z :=
  match perCombo with
  | Some v => clampStickyRoundRobinTargetLimit v
  | None =>
      match comboSticky with
      | Some v => clampStickyRoundRobinTargetLimit v
      | None => clampStickyRoundRobinTargetLimit (orElse global NonFinite)
      end
  end.

Section Rotation.
Implicit Types (combo key : string) (targets : list string) (s : RRState).

Definition counterOf combo s : Z := numOr (mget combo (rrCounters s)) 0.

(** The start index and the counter; with no targets the index is not a number. *)
Definition getStickyRoundRobinStartIndex combo targets (stickyLimit : Z) s : option Z * Z :=
  let n := Z.of_nat (length targets) in
  let counter := counterOf combo s in
  let rotated := if n =? 0 then None else Some (Z.rem counter n) in
  match mget combo (rrStickyTargets s) with
  | Some sticky =>
      match findIndex (String.eqb (executionKey sticky)) targets with
      | Some i =>
          if (stickyLimit >? 1) && (successCount sticky <? stickyLimit) then (Some (Z.of_nat i), counter)
          else (rotated, counter)
      | None => (rotated, counter)
      end
  | None => (rotated, counter)
  end.

Definition successesOn key (sticky : option Sticky) : Z :=
  match sticky with
  | Some st => if String.eqb (executionKey st) key then successCount st + 1 else 1
  | None => 1
  end.

Definition recordStickyRoundRobinSuccess combo key (stickyLimit : Z) targets s : RRState :=
  let count := successesOn key (mget combo (rrStickyTargets s)) in
  if count >=? stickyLimit then
    let next := match findIndex (String.eqb key) targets with
                | Some i => Z.of_nat i + 1
                | None => counterOf combo s + 1
                end in
    s <| rrCounters := mset combo next (rrCounters s) |> <| rrStickyTargets := mdel combo (rrStickyTargets s) |>
  else s <| rrStickyTargets := mset combo (mkSticky key count) (rrStickyTargets s) |>.

Definition getStickyWeightedExecutionKey combo (stickyLimit : Z) s : option string :=
  match mget combo (weightedStickyTargets s) with
  | None => None
  | Some sticky =>
      if (stickyLimit <=? 1) || (successCount sticky >=? stickyLimit) then None else Some (executionKey sticky)
  end.

Definition recordStickyWeightedSuccess combo key (stickyLimit : Z) s : RRState :=
  let count := successesOn key (mget combo (weightedStickyTargets s)) in
  if count >=? stickyLimit then s <| weightedStickyTargets := mdel combo (weightedStickyTargets s) |>
  else s <| weightedStickyTargets := mset combo (mkSticky key count) (weightedStickyTargets s) |>.

(** ** A request of the round-robin combo *)

Definition evictOldest combo s : RRState :=
  if negb (mhas combo (rrCounters s)) && negb (mhas combo (rrStickyTargets s)) && (msize (rrCounters s) >=? MAX_RR_COUNTERS) then
    match mfirst (rrCounters s) with
    | Some oldest =>
        s <| rrCounters := mdel oldest (rrCounters s) |> <| rrStickyTargets := mdel oldest (rrStickyTargets s) |>
    | None => s
    end
  else s.

Definition beginRequest combo targets (stickyLimit : Z) s : RRState * option Z :=
  let s := evictOldest combo s in
  let s := if mhas combo (rrCounters s) then s else s <| rrCounters := mset combo 0 (rrCounters s) |> in
  let '(startIndex, counter) := getStickyRoundRobinStartIndex combo targets stickyLimit s in
  (if stickyLimit <=? 1 then s <| rrCounters := mset combo (counter + 1) (rrCounters s) |> else s, startIndex).

(** The target at [modelIndex] served the request. *)
Definition servedRequest combo (modelIndex : nat) targets (stickyLimit : Z) s : RRState :=
  if stickyLimit >? 1 then
    match targets !! modelIndex with
    | Some key => recordStickyRoundRobinSuccess combo key stickyLimit targets s
    | None => s
    end
  else s <| rrCounters := mset combo (Z.of_nat modelIndex + 1) (rrCounters s) |>.
End Rotation.

(** ** The rotation *)

Section Fairness.
Context (combo : string) (targets : list string) (L : Z).
Context (Hnd : NoDup targets) (Hk : targets <> []) (HL : 1 <= L).
Implicit Types (s : RRState) (i : Z).

Notation k := (Z.of_nat (length targets)).

(** The state after [i] requests, each served by the target it started at. *)
Definition After i s : Prop :=
  mwf (rrStickyTargets s) /\
  (mhas combo (rrCounters s) = true \/ i = 0 /\ msize (rrCounters s) < MAX_RR_COUNTERS) /\
  if i mod L =? 0 then mget combo (rrStickyTargets s) = None /\ 0 <= counterOf combo s /\ counterOf combo s mod k = (i / L) mod k
  else exists key, targets !! Z.to_nat ((i / L) mod k) = Some key /\
         mget combo (rrStickyTargets s) = Some (mkSticky key (i mod L)).

Lemma k_pos : 0 < k.
Proof. destruct targets; [done|]. simpl. lia. Qed.

Lemma findIndex_lookup j key :
  targets !! j = Some key -> findIndex (String.eqb key) targets = Some j.
Proof.
  intros Hj. destruct (findIndex (String.eqb key) targets) as [j'|] eqn:E.
  - apply findIndex_Some in E as (x & Hx & ->%String.eqb_eq). f_equal. by eapply NoDup_lookup.
  - apply findIndex_None in E. rewrite Forall_forall in E. specialize (E key (list_elem_of_lookup_2 _ _ _ Hj)).
    by rewrite String.eqb_refl in E.
Qed.

Lemma start_index j : 0 <= j -> exists key, targets !! Z.to_nat (j mod k) = Some key.
Proof.
  intros Hj. apply lookup_lt_is_Some_2. pose proof (Z.mod_pos_bound j k k_pos). lia.
Qed.

Lemma counterOf_mset combo' c s :
  counterOf combo (s <| rrCounters := mset combo' c (rrCounters s) |>) = if decide (combo = combo') then c else counterOf combo s.
Proof.
  unfold counterOf, numOr. cbn. rewrite mget_mset. case_decide; [|done]. by destruct (Z.eqb_spec c 0).
Qed.

(** One request, served by the target it starts at. *)
Definition request s : RRState * Z :=
  let '(s, start) := beginRequest combo targets L s in
  let j := Z.to_nat (orElse start 0) in
  (servedRequest combo j targets L s, orElse start 0).

Lemma begin_spec i s :
  0 <= i -> After i s ->
  let r := beginRequest combo targets L s in
  r.2 = Some ((i / L) mod k) /\ mwf (rrStickyTargets r.1) /\ mhas combo (rrCounters r.1) = true /\
  rrStickyTargets r.1 = rrStickyTargets s /\ (1 < L -> i mod L = 0 -> counterOf combo r.1 mod k = (i / L) mod k).
Proof.
  intros Hi (W & Hc & Hst). unfold beginRequest.
  assert (evictOldest combo s = s) as ->.
  { unfold evictOldest. destruct Hc as [Hc|[_ Hc]]; [by rewrite Hc|]. case_if; [|done]. to_prop. lia. }
  set (s1 := if mhas combo (rrCounters s) then s else _).
  assert (rrStickyTargets s1 = rrStickyTargets s /\ counterOf combo s1 = counterOf combo s /\ mhas combo (rrCounters s1) = true) as (E1 & E2 & E3).
  { subst s1. destruct (mhas combo (rrCounters s)) eqn:Hh; [done|]. split; [done|]. split.
    - rewrite counterOf_mset, decide_True by done. unfold counterOf, mhas in *. by destruct (mget combo (rrCounters s)).
    - unfold mhas. cbn. by rewrite mget_mset_eq. }
  assert (getStickyRoundRobinStartIndex combo targets L s1 = (Some ((i / L) mod k), counterOf combo s)) as ->.
  { unfold getStickyRoundRobinStartIndex. rewrite E1, E2. destruct (Z.eqb_spec (i mod L) 0) as [H0|H0].
    - destruct Hst as (-> & Hpos & Hmod). pose proof k_pos. rewrite (proj2 (Z.eqb_neq k 0)) by lia.
      f_equal. f_equal. rewrite Z.rem_mod_nonneg by lia. done.
    - destruct Hst as (key & Hkey & ->). cbn [executionKey successCount]. rewrite (findIndex_lookup _ _ Hkey).
      pose proof (Z.mod_pos_bound i L ltac:(lia)). pose proof (Z.mod_pos_bound (i / L) k k_pos).
      rewrite (proj2 (Z.gtb_lt L 1)) by lia. rewrite (proj2 (Z.ltb_lt _ _)) by lia. cbn [andb]. f_equal. f_equal. lia. }
  cbn [fst snd]. split; [done|]. destruct (Z.leb_spec L 1).
  - split_and!; [change (mwf (rrStickyTargets s1)); by rewrite E1|unfold mhas; cbn; by rewrite mget_mset_eq|exact E1|lia].
  - split_and!; [by rewrite E1|done|done|]. intros _ H0. rewrite E2.
    destruct (Z.eqb_spec (i mod L) 0); [apply Hst|lia].
Qed.

Lemma request_spec i s :
  0 <= i -> After i s -> (request s).2 = (i / L) mod k /\ After (i + 1) (request s).1.
Proof.
  intros Hi HA. pose proof HA as (W & _ & Hst). destruct (begin_spec i s Hi HA) as (Hs & W' & Hc & Est & Hcnt).
  unfold request. destruct (beginRequest combo targets L s) as [s1 start]. cbn [fst snd] in *. subst start. cbn [orElse].
  split; [done|]. set (j := (i / L) mod k) in *. pose proof (Z.mod_pos_bound (i / L) k k_pos) as Hj. fold j in Hj.
  destruct (start_index (i / L)) as [key Hkey]; [apply Z.div_pos; lia|]. fold j in Hkey.
  pose proof (Z.mod_pos_bound i L ltac:(lia)) as Hm. pose proof (Z.div_mod i L ltac:(lia)) as Hdm.
  assert ((i mod L = L - 1 /\ (i + 1) mod L = 0 /\ (i + 1) / L = i / L + 1) \/
          (i mod L < L - 1 /\ (i + 1) mod L = i mod L + 1 /\ (i + 1) / L = i / L)) as Hnext.
  { destruct (Z.eq_dec (i mod L) (L - 1)); [left|right]; (split; [lia|]).
    - split; [symmetry; apply (Z.mod_unique_pos _ _ (i / L + 1)); lia|symmetry; apply (Z.div_unique_pos _ _ _ 0); lia].
    - split; [symmetry; apply (Z.mod_unique_pos _ _ (i / L)); lia|symmetry; apply (Z.div_unique_pos _ _ _ (i mod L + 1)); lia]. }
  assert ((j + 1) mod k = (i / L + 1) mod k) as Hj1.
  { subst j. rewrite Z.add_mod_idemp_l; [done|]. pose proof k_pos. lia. }
  unfold servedRequest. destruct (Z.gtb_spec L 1).
  - rewrite Hkey. unfold recordStickyRoundRobinSuccess. rewrite Est.
    assert (successesOn key (mget combo (rrStickyTargets s)) = i mod L + 1) as ->.
    { destruct (Z.eqb_spec (i mod L) 0) as [H0|H0].
      - destruct Hst as (-> & _). cbn. lia.
      - destruct Hst as (key' & Hkey' & ->). fold j in Hkey'. rewrite Hkey in Hkey'. injection Hkey' as <-. cbn. by rewrite String.eqb_refl. }
    rewrite (findIndex_lookup _ _ Hkey). destruct Hnext as [(H1 & H2 & H3)|(H1 & H2 & H3)].
    + rewrite (proj2 (Z.geb_le _ _)) by lia. split; [cbn; by apply mwf_mdel|]. split; [left; unfold mhas; cbn; by rewrite mget_mset_eq|].
      rewrite H2. cbn [Z.eqb]. split; [cbn; by apply mget_mdel_eq|]. unfold counterOf. cbn. rewrite mget_mset_eq. unfold numOr.
      rewrite (proj2 (Z.eqb_neq _ _)) by lia. split; [lia|]. rewrite H3, <- Hj1. f_equal. lia.
    + destruct (Z.geb_spec (i mod L + 1) L); [lia|]. split; [cbn; rewrite ?Est; by apply mwf_mset|]. split; [by left|].
      rewrite H2, (proj2 (Z.eqb_neq _ _)) by lia. exists key. rewrite H3. split; [done|]. cbn. by rewrite mget_mset_eq.
  - assert (L = 1) as HL1 by lia. split; [cbn; by rewrite ?Est|]. split; [left; unfold mhas; cbn; by rewrite mget_mset_eq|].
    destruct Hnext as [(H1 & H2 & H3)|(H1 & _)]; [|lia]. rewrite H2. cbn [Z.eqb]. split.
    + cbn. rewrite ?Est. rewrite HL1, Z.mod_1_r in Hst. by destruct Hst.
    + rewrite counterOf_mset, decide_True by done. split; [lia|]. rewrite H3, <- Hj1. f_equal. lia.
Qed.

Fixpoint requests (n : nat) s : list Z :=
  match n with
  | O => []
  | S n => let '(s, start) := request s in start :: requests n s
  end.

Lemma requests_spec n i s :
  0 <= i -> After i s -> requests n s = (fun m => ((i + Z.of_nat m) / L) mod k) <$> seq 0 n.
Proof.
  revert i s. induction n as [|n IH]; intros i s Hi HA; [done|]. cbn [requests seq fmap list_fmap].
  destruct (request_spec i s Hi HA) as [Hs HA']. destruct (request s) as [s' start]. cbn [fst snd] in *. subst start.
  f_equal; [by rewrite Z.add_0_r|]. rewrite (IH (i + 1)) by (done || lia). rewrite <- fmap_S_seq, <- list_fmap_compose.
  apply list_fmap_ext. intros _ m _. cbn. f_equal. f_equal. lia.
Qed.
End Fairness.

(** Round robin in batches.  While every request is served by the target it
    starts at, request number m of a fresh combo starts at target (m / L) mod k:
    each of the k targets gets L requests in a row, in cyclic order. *)
Theorem round_robin_batches combo targets L n s :
  NoDup targets -> targets <> [] -> 1 <= L ->
  mwf (rrStickyTargets s) -> mget combo (rrStickyTargets s) = None -> mget combo (rrCounters s) = None ->
  msize (rrCounters s) < MAX_RR_COUNTERS ->
  requests combo targets L n s = (fun m => (Z.of_nat m / L) mod Z.of_nat (length targets)) <$> seq 0 n.
Proof.
  intros Hnd Hk HL W Hst Hc Hsize. rewrite (requests_spec combo targets L Hnd Hk HL n 0 s); [done|done|].
  split; [done|]. split; [right; done|]. rewrite Z.mod_0_l by lia. cbn [Z.eqb]. split; [done|].
  unfold counterOf. rewrite Hc. cbn. split; [done|]. by rewrite Z.div_0_l by lia.
Qed.

(** Failover advances past the server.  Without stickiness, when the target at
    index j served a request, wherever it had started, the next request starts at
    the target after j, in cyclic order. *)
Lemma round_robin_failover combo targets L s j :
  L <= 1 -> (j < length targets)%nat ->
  mget combo (rrStickyTargets s) = None ->
  (beginRequest combo targets L (servedRequest combo j targets L s)).2 =
  Some ((Z.of_nat j + 1) mod Z.of_nat (length targets)).
Proof.
  intros HL Hj Hst. unfold servedRequest. destruct (Z.gtb_spec L 1) as [|_]; [lia|].
  set (s1 := s <| rrCounters := _ |>).
  assert (mhas combo (rrCounters s1) = true) as Hh by (unfold mhas; cbn; by rewrite mget_mset_eq).
  assert (counterOf combo s1 = Z.of_nat j + 1) as Hc by (subst s1; rewrite counterOf_mset; by rewrite decide_True).
  unfold beginRequest, evictOldest. rewrite Hh. cbn [negb andb]. rewrite Hh.
  unfold getStickyRoundRobinStartIndex. change (rrStickyTargets s1) with (rrStickyTargets s). rewrite Hst, Hc.
  rewrite (proj2 (Z.eqb_neq _ 0)) by lia. cbn [snd]. rewrite Z.rem_mod_nonneg by lia. done.
Qed.

(** ** Witnesses *)

Lemma round_robin_batches_witness : requests "c" ["a"; "b"; "c"]%string 2 8 emptyRR = [0; 0; 1; 1; 2; 2; 0; 0].
Proof.
  refine (eq_trans (round_robin_batches "c" ["a"; "b"; "c"]%string 2 8 emptyRR _ _ _ _ _ _ _) eq_refl);
    [apply (bool_decide_unpack _); vm_compute; exact I|done|done|apply mwf_nil|done|done|done].
Defined.
