(* ===== verification/ComboSteps.v ===== *)
(** * Combo steps: [src/lib/combos/steps.ts]

    A combo lists its steps in a stored JSON record: a model, a reference to
    another combo, or a provider with a pattern, written in the old string form
    or as an object.  [normalizeComboStep] reads either form; the repository
    normalises a combo when it is written and again whenever it is read, so the
    normal form has to be a fixed point.  A step is an Inductive with a Record
    per kind; [asValue] is the same step seen as a JSON value. *)
From Stdlib Require Import String Ascii QArith_base.
From S2P Require Import Prelude JsMap JsString.
#[local] Open Scope string_scope.
#[local] Open Scope Z_scope.

(** ** JSON values *)

Inductive json :=
| VNull
| VBool (b : bool)
| VNum (n : jsnum)
| VStr (s : string)
| VArr (l : list json)
| VObj (fields : jsmap string json).

(** [value[k]]; [None] is undefined. *)
Definition field (k : string) (v : json) : option json :=
  match v with VObj fs => mget k fs | _ => None end.

Definition isRecord (v : json) : bool := match v with VObj _ => true | _ => false end.

Definition kindIs (k : string) (v : json) : bool :=
  match field "kind" v with Some (VStr s) => String.eqb s k | _ => false end.

(** [a || b] on strings that are never empty. *)
Definition orOpt {A} (a b : option A) : option A := match a with Some _ => a | None => b end.

Definition toTrimmedString (v : option json) : option string :=
  match v with Some (VStr s) => if isEmpty (trim s) then None else Some (trim s) | _ => None end.

Definition minQ (a b : Q) : Q := if Qle_bool a b then a else b.
Definition maxQ (a b : Q) : Q := if Qle_bool a b then b else a.

Definition toWeight (v : option json) : Q :=
  let parsed := match v with
                | Some (VNum n) => n
                | Some (VStr s) => if isEmpty (trim s) then Fin (inject_Z 0) else numberOfString s
                | _ => Fin (inject_Z 0)
                end in
  match parsed with
  | NonFinite => inject_Z 0
  | Fin q => maxQ (inject_Z 0) (minQ (inject_Z 100) q)
  end.

(** ** Steps *)

(** [connectionId] may be absent, null or a string; an absent list is empty. *)
Record ComboModelStep := mkModelStep {
  m_id : string;
  m_model : string;
  m_providerId : option string;
  m_connectionId : option (option string);
  m_allowedConnectionIds : list string;
  m_weight : Q;
  m_label : option string;
  m_prompt : option string;
  m_tags : list string;
  m_fallbackOnlyOnQuotaExhaustion : bool;
}.

Record ComboRefStep := mkRefStep {
  r_id : string;
  r_comboName : string;
  r_weight : Q;
  r_label : option string;
  r_fallbackOnlyOnQuotaExhaustion : bool;
}.

Record ComboProviderWildcardStep := mkWildcardStep {
  w_id : string;
  w_providerId : string;
  w_modelPattern : string;
  w_connectionId : option (option string);
  w_allowedConnectionIds : list string;
  w_weight : Q;
  w_label : option string;
}.

Inductive ComboStep :=
| Model (s : ComboModelStep)
| ComboRef (s : ComboRefStep)
| ProviderWildcard (s : ComboProviderWildcardStep).

Definition stepId (s : ComboStep) : string :=
  match s with Model s => m_id s | ComboRef s => r_id s | ProviderWildcard s => w_id s end.

(** A collection of combos: null, an array, an object with [combos], or an
    iterable of names. *)
Inductive ComboCollectionLike :=
| NoCombos
| ComboArray (l : list json)
| ComboHolder (combos : option json)
| ComboNames (l : list string).

Record NormalizeComboStepOptions := mkOptions {
  o_comboName : option string;
  o_index : option Z;
  o_allCombos : ComboCollectionLike;
}.

Definition noOptions : NormalizeComboStepOptions := mkOptions None None NoCombos.

Definition nameOf (combo : json) : option string :=
  match combo with VStr _ => toTrimmedString (Some combo) | _ => toTrimmedString (field "name" combo) end.

Definition collectComboNames (allCombos : ComboCollectionLike) : list string :=
  match allCombos with
  | NoCombos => []
  | ComboNames l => omap (fun s => toTrimmedString (Some (VStr s))) l
  | ComboHolder (Some (VArr l)) => omap nameOf l
  | ComboHolder _ => []
  | ComboArray l => omap nameOf l
  end.

Definition parseProviderId (model : string) : option string :=
  match splitFirst "/" (trim model) with
  | None | Some (EmptyString, _) => None
  | Some (p, _) => if isEmpty (trim p) then None else Some (trim p)
  end.

(** The provider and the pattern. *)
Definition parseProviderWildcardPattern (target : string) : option (string * string) :=
  match splitFirst "/" (trim target) with
  | None | Some (EmptyString, _) => None
  | Some (p, rest) => if isEmpty (trim p) || negb (includes (trim rest) "*") then None else Some (trim p, trim rest)
  end.

Definition toFullModelString (model : string) (providerId : option string) : string :=
  let trimmedModel := trim model in
  if includes trimmedModel "/" then trimmedModel
  else match toTrimmedString (VStr <$> providerId) with
       | Some p => p +:+ "/" +:+ trimmedModel
       | None => trimmedModel
       end.

(** ** Generated step ids *)

Definition slugChar (c : ascii) : bool :=
  let n := N_of_ascii c in ((97 <=? n)%N && (n <=? 122)%N) || ((48 <=? n)%N && (n <=? 57)%N).

(** [replace(/[^a-z0-9]+/g, "-")]. *)
Fixpoint squash (s : string) : string :=
  match s with
  | EmptyString => EmptyString
  | String c s =>
      if slugChar c then String c (squash s)
      else match squash s with String "-" _ as t => t | t => String "-" t end
  end.

Fixpoint dashesStart (s : string) : string :=
  match s with String "-" s => dashesStart s | _ => s end.

Fixpoint dashesEnd (s : string) : string :=
  match s with
  | EmptyString => EmptyString
  | String c s =>
      match dashesEnd s with
      | EmptyString => if Ascii.eqb c "-" then EmptyString else String c EmptyString
      | t => String c t
      end
  end.

Definition slugify (value : string) : string :=
  let slug := dashesEnd (dashesStart (squash (toLowerCase value))) in
  if isEmpty slug then "step" else slug.

Inductive StepKind := KModel | KComboRef | KProviderWildcard.

Definition kindSlug (k : StepKind) : string :=
  match k with KComboRef => "ref" | KProviderWildcard => "wildcard" | KModel => "model" end.

Definition buildStepId (kind : StepKind) (comboName : option string) (index : Z) (seed : string) : string :=
  String.substring 0 200
    (join "-" [slugify (orElse comboName "combo"); kindSlug kind; pretty (index + 1); slugify seed]).

(** ** Reading a step *)

Definition shouldTreatAsComboRef (target : string) (providerId : option string) (options : NormalizeComboStepOptions) : bool :=
  match providerId with
  | Some _ => false
  | None =>
      bool_decide (target ∈ collectComboNames (o_allCombos options)) ||
      bool_decide (Some target = toTrimmedString (VStr <$> o_comboName options))
  end.

Definition getComboStepWeight (value : json) : Q :=
  if isRecord value then toWeight (field "weight" value) else inject_Z 0.

(** The provider an object names, or its model's prefix. *)
Definition providerOf (value : json) (model : string) : option string :=
  orOpt (toTrimmedString (field "providerId" value))
    (orOpt (toTrimmedString (field "provider" value)) (parseProviderId model)).

Definition getComboModelString (value : json) : option string :=
  match value with
  | VStr _ => toTrimmedString (Some value)
  | VObj _ =>
      if kindIs "combo-ref" value then None
      else match toTrimmedString (field "model" value) with
           | None => None
           | Some rawModel => Some (toFullModelString rawModel (providerOf value rawModel))
           end
  | _ => None
  end.

Definition getComboModelProvider (value : json) : option string :=
  match value with
  | VStr s => parseProviderId s
  | VObj _ =>
      if kindIs "combo-ref" value then None
      else providerOf value (orElse (toTrimmedString (field "model" value)) "")
  | _ => None
  end.

Definition implicitPinAllowlist (connectionId : option string) (allowedConnectionIds : option (list string)) : option (list string) :=
  let pin := match connectionId with Some s => trim s | None => "" end in
  match allowedConnectionIds with
  | Some (_ :: _) => allowedConnectionIds
  | _ => if negb (isEmpty pin) then Some [pin]
         else match allowedConnectionIds with Some _ => Some [] | None => None end
  end.

Definition comboPinAllowlist (isCombo : bool) (forcedConnectionId : option string) (allowedConnectionIds : option (list string))
    : option (list string) :=
  if negb isCombo then allowedConnectionIds else implicitPinAllowlist forcedConnectionId allowedConnectionIds.

Definition getComboStepTarget (value : json) (options : NormalizeComboStepOptions) : option string :=
  match value with
  | VStr _ => toTrimmedString (Some value)
  | VObj _ =>
      if kindIs "combo-ref" value then toTrimmedString (field "comboName" value)
      else if kindIs "provider-wildcard" value then
        let modelPattern := orElse (toTrimmedString (field "modelPattern" value)) "*" in
        match toTrimmedString (field "providerId" value) with
        | Some p => Some (p +:+ "/" +:+ modelPattern)
        | None => None
        end
      else
        match toTrimmedString (field "model" value) with
        | None => None
        | Some rawModel =>
            let providerId := providerOf value rawModel in
            if negb (kindIs "model" value) && shouldTreatAsComboRef rawModel providerId options then Some rawModel
            else Some (toFullModelString rawModel providerId)
        end
  | _ => None
  end.

Definition readConnectionId (value : json) : option (option string) :=
  match field "connectionId" value with
  | Some VNull => Some None
  | f => Some <$> toTrimmedString f
  end.

(** The trimmed strings of an array. *)
Definition readStrings (v : option json) : list string :=
  match v with Some (VArr l) => omap (fun x => toTrimmedString (Some x)) l | _ => [] end.

Definition readFlag (v : option json) : bool := match v with Some (VBool b) => b | _ => false end.

Definition connectionSuffix (c : option (option string)) : string :=
  match c with Some (Some c) => ":" +:+ c | _ => "" end.

Definition normalizeString (target : string) (options : NormalizeComboStepOptions) : ComboStep :=
  let comboName := toTrimmedString (VStr <$> o_comboName options) in
  let index := orElse (o_index options) 0 in
  if shouldTreatAsComboRef target None options then
    ComboRef (mkRefStep (buildStepId KComboRef comboName index target) target (inject_Z 0) None false)
  else
    match parseProviderWildcardPattern target with
    | Some (providerId, modelPattern) =>
        ProviderWildcard (mkWildcardStep (buildStepId KProviderWildcard comboName index (providerId +:+ "/" +:+ modelPattern))
          providerId modelPattern None [] (inject_Z 0) None)
    | None =>
        Model (mkModelStep (buildStepId KModel comboName index target) target (parseProviderId target) None []
          (inject_Z 0) None None [] false)
    end.

Definition wildcardStep (value : json) (options : NormalizeComboStepOptions) (providerId modelPattern : string) : ComboStep :=
  let connectionId := readConnectionId value in
  ProviderWildcard (mkWildcardStep
    (orElse (toTrimmedString (field "id" value))
       (buildStepId KProviderWildcard (toTrimmedString (VStr <$> o_comboName options)) (orElse (o_index options) 0)
          (providerId +:+ "/" +:+ modelPattern +:+ connectionSuffix connectionId)))
    providerId modelPattern connectionId (readStrings (field "allowedConnectionIds" value))
    (toWeight (field "weight" value)) (toTrimmedString (field "label" value))).

Definition normalizeComboStep (value : json) (options : NormalizeComboStepOptions) : option ComboStep :=
  let comboName := toTrimmedString (VStr <$> o_comboName options) in
  let index := orElse (o_index options) 0 in
  match value with
  | VStr _ => (fun target => normalizeString target options) <$> toTrimmedString (Some value)
  | VObj _ =>
      let explicitId := toTrimmedString (field "id" value) in
      let weight := toWeight (field "weight" value) in
      let label := toTrimmedString (field "label" value) in
      let prompt := toTrimmedString (field "prompt" value) in
      let fallbackOnly := readFlag (field "fallbackOnlyOnQuotaExhaustion" value) in
      if kindIs "combo-ref" value then
        match toTrimmedString (field "comboName" value) with
        | None => None
        | Some ref =>
            Some (ComboRef (mkRefStep (orElse explicitId (buildStepId KComboRef comboName index ref)) ref weight label fallbackOnly))
        end
      else if kindIs "provider-wildcard" value then
        match providerOf value (orElse (toTrimmedString (field "model" value)) "") with
        | None => None
        | Some providerId =>
            Some (wildcardStep value options providerId (orElse (toTrimmedString (field "modelPattern" value)) "*"))
        end
      else
        match toTrimmedString (field "model" value) with
        | None => None
        | Some rawModel =>
            let providerId := providerOf value rawModel in
            match parseProviderWildcardPattern rawModel with
            | Some (providerId, modelPattern) => Some (wildcardStep value options providerId modelPattern)
            | None =>
                if negb (kindIs "model" value) && shouldTreatAsComboRef rawModel providerId options then
                  Some (ComboRef (mkRefStep (orElse explicitId (buildStepId KComboRef comboName index rawModel))
                    rawModel weight label false))
                else
                  let model := toFullModelString rawModel providerId in
                  let connectionId := readConnectionId value in
                  Some (Model (mkModelStep
                    (orElse explicitId (buildStepId KModel comboName index (model +:+ connectionSuffix connectionId)))
                    model providerId connectionId (readStrings (field "allowedConnectionIds" value)) weight label prompt
                    (readStrings (field "tags" value)) fallbackOnly))
            end
        end
  | _ => None
  end.

(** ** The step as a value *)

Definition optField (k : string) (v : option json) : jsmap string json :=
  match v with Some v => [(k, v)] | None => [] end.

Definition strField (k : string) (v : option string) : jsmap string json := optField k (VStr <$> v).

Definition listField (k : string) (l : list string) : jsmap string json :=
  match l with [] => [] | _ => [(k, VArr (VStr <$> l))] end.

Definition flagField (k : string) (b : bool) : jsmap string json := if b then [(k, VBool true)] else [].

Definition connectionValue (c : option (option string)) : option json :=
  (fun c => match c with Some s => VStr s | None => VNull end) <$> c.

Definition asValue (s : ComboStep) : json :=
  VObj match s with
  | Model s =>
      [("id", VStr (m_id s)); ("kind", VStr "model"); ("model", VStr (m_model s))] ++
      strField "providerId" (m_providerId s) ++ optField "connectionId" (connectionValue (m_connectionId s)) ++
      [("weight", VNum (Fin (m_weight s)))] ++ strField "label" (m_label s) ++ strField "prompt" (m_prompt s) ++
      listField "tags" (m_tags s) ++ listField "allowedConnectionIds" (m_allowedConnectionIds s) ++
      flagField "fallbackOnlyOnQuotaExhaustion" (m_fallbackOnlyOnQuotaExhaustion s)
  | ComboRef s =>
      [("id", VStr (r_id s)); ("kind", VStr "combo-ref"); ("comboName", VStr (r_comboName s));
       ("weight", VNum (Fin (r_weight s)))] ++ strField "label" (r_label s) ++
      flagField "fallbackOnlyOnQuotaExhaustion" (r_fallbackOnlyOnQuotaExhaustion s)
  | ProviderWildcard s =>
      [("id", VStr (w_id s)); ("kind", VStr "provider-wildcard"); ("providerId", VStr (w_providerId s));
       ("modelPattern", VStr (w_modelPattern s))] ++ optField "connectionId" (connectionValue (w_connectionId s)) ++
      [("weight", VNum (Fin (w_weight s)))] ++ strField "label" (w_label s) ++
      listField "allowedConnectionIds" (w_allowedConnectionIds s)
  end.

(** ** Combos *)

Definition normalizeComboModels (models : option json) (comboName : option string) (allCombos : ComboCollectionLike)
    : list ComboStep :=
  match models with
  | Some (VArr l) => omap id (imap (fun i v => normalizeComboStep v (mkOptions comboName (Some (Z.of_nat i)) allCombos)) l)
  | _ => []
  end.

Definition COMBO_SCHEMA_VERSION : Z := 2.

Definition normalizeComboRecord (combo : jsmap string json) (allCombos : ComboCollectionLike) : jsmap string json :=
  let comboName := toTrimmedString (mget "name" combo) in
  mset "models" (VArr (asValue <$> normalizeComboModels (mget "models" combo) comboName allCombos))
    (mset "version" (VNum (Fin (inject_Z COMBO_SCHEMA_VERSION))) combo).

(** ** Lemmas *)

Definition optTrimmed (o : option string) : Prop := match o with Some s => trimmed s | None => True end.

Lemma toTrimmedString_trimmed v s : toTrimmedString v = Some s -> trimmed s.
Proof.
  destruct v as [[| | |x| |]|]; try done. cbn [toTrimmedString]. case_if; [done|]. intros [= <-]. by apply trimmed_trim.
Qed.

Lemma toTrimmedString_opt v : optTrimmed (toTrimmedString v).
Proof. destruct (toTrimmedString v) eqn:E; [by eapply toTrimmedString_trimmed|done]. Qed.

Lemma toTrimmedString_id s : trimmed s -> toTrimmedString (Some (VStr s)) = Some s.
Proof. intros [H Hne]. cbn. rewrite H. by destruct s. Qed.

Lemma toTrimmedString_fmap o : optTrimmed o -> toTrimmedString (VStr <$> o) = o.
Proof. destruct o; [apply toTrimmedString_id|done]. Qed.

Lemma orElse_trimmed o s : optTrimmed o -> trimmed s -> trimmed (orElse o s).
Proof. by destruct o. Qed.

Lemma orOpt_trimmed a b : optTrimmed a -> optTrimmed b -> optTrimmed (orOpt a b).
Proof. by destruct a. Qed.

Lemma parseProviderId_trimmed m : optTrimmed (parseProviderId m).
Proof.
  unfold parseProviderId. destruct (splitFirst "/" (trim m)) as [[[|c p] r]|]; [done| |done].
  case_if; [done|]. by apply trimmed_trim.
Qed.

Lemma parseProviderWildcardPattern_trimmed t p r :
  parseProviderWildcardPattern t = Some (p, r) -> trimmed p /\ trimmed r.
Proof.
  unfold parseProviderWildcardPattern. destruct (splitFirst "/" (trim t)) as [[[|c a] b]|]; [done| |done].
  case_if; [done|]. intros [= <- <-]. to_prop. split; [by apply trimmed_trim|]. split; [apply trim_idem|].
  intros E. by rewrite E in *.
Qed.

Lemma providerOf_trimmed v m : optTrimmed (providerOf v m).
Proof. repeat apply orOpt_trimmed; try apply toTrimmedString_opt. apply parseProviderId_trimmed. Qed.

Lemma readConnectionId_trimmed v c : readConnectionId v = Some (Some c) -> trimmed c.
Proof.
  unfold readConnectionId. intros H. apply (toTrimmedString_trimmed (field "connectionId" v)).
  destruct (field "connectionId" v) as [[| | |s| |]|]; try done. revert H. destruct (toTrimmedString _); [|done]. by intros [= ->].
Qed.

Lemma readStrings_trimmed v : Forall trimmed (readStrings v).
Proof.
  destruct v as [[| | | |l|]|]; try constructor. apply Forall_forall. intros s.
  cbn [readStrings]. rewrite list_elem_of_omap. intros (x & _ & H). by eapply toTrimmedString_trimmed.
Qed.

Definition weightOk (q : Q) : Prop := toWeight (Some (VNum (Fin q))) = q.

Lemma toWeight_ok v : weightOk (toWeight v).
Proof.
  assert (forall n, weightOk (match n with NonFinite => inject_Z 0 | Fin q => maxQ (inject_Z 0) (minQ (inject_Z 100) q) end)) as H.
  { intros [q|]; [|done]. unfold weightOk, toWeight, maxQ, minQ. destruct (Qle_bool (inject_Z 100) q) eqn:E1; [done|].
    destruct (Qle_bool (inject_Z 0) q) eqn:E2; [|done]. by rewrite E1, E2. }
  apply H.
Qed.

(** *** Generated ids *)

Lemma slugChar_noSpace c : slugChar c || Ascii.eqb c "-" = true -> isSpace c = false.
Proof. destruct c as [[] [] [] [] [] [] [] []]; vm_compute; congruence. Qed.

Fixpoint sluggish (s : string) : bool :=
  match s with EmptyString => true | String c s => (slugChar c || Ascii.eqb c "-") && sluggish s end.

Lemma sluggish_noSpace s : sluggish s = true -> noSpace s = true.
Proof. induction s as [|c s IH]; cbn [sluggish noSpace]; [done|]. intros H. to_prop. by rewrite slugChar_noSpace, IH. Qed.

Lemma squash_sluggish s : sluggish (squash s) = true.
Proof.
  induction s as [|c s IH]; cbn [squash]; [done|]. destruct (slugChar c) eqn:E; [cbn; by rewrite E|].
  destruct (squash s) as [|[[] [] [] [] [] [] [] []] t]; done.
Qed.

Lemma dashesStart_sluggish s : sluggish s = true -> sluggish (dashesStart s) = true.
Proof.
  induction s as [|[[] [] [] [] [] [] [] []] s IH]; cbn [dashesStart]; done.
Qed.

Lemma dashesEnd_sluggish s : sluggish s = true -> sluggish (dashesEnd s) = true.
Proof.
  induction s as [|c s IH]; cbn [dashesEnd]; [done|]. intros H. cbn [sluggish] in H. apply andb_true_iff in H as [H1 H2]. specialize (IH H2).
  destruct (dashesEnd s) as [|d t]; [destruct (Ascii.eqb c "-"); [done|]; cbn [sluggish]; rewrite orb_false_r in H1; by rewrite ?orb_false_r, H1|].
  change ((slugChar c || Ascii.eqb c "-") && sluggish (String d t) = true). by rewrite IH, H1.
Qed.

Lemma slugify_spec s : sluggish (slugify s) = true /\ slugify s <> EmptyString.
Proof.
  unfold slugify. set (t := dashesEnd _). assert (sluggish t = true) by apply dashesEnd_sluggish, dashesStart_sluggish, squash_sluggish.
  destruct t; [done|]. by split.
Qed.

Lemma noSpace_app a b : noSpace (a +:+ b) = noSpace a && noSpace b.
Proof. induction a as [|c a IH]; [done|]. change (String c a +:+ b) with (String c (a +:+ b)). cbn. by rewrite IH, andb_assoc. Qed.

Lemma noSpace_pretty_N n : noSpace (pretty (n : N)) = true.
Proof.
  assert (forall x s, noSpace s = true -> noSpace (pretty_N_go x s) = true) as H.
  { intros x. induction (N.lt_wf_0 x) as [x _ IH]. intros s Hs. destruct (decide (x = 0)%N) as [->|Hx]; [by rewrite pretty_N_go_0|].
    rewrite pretty_N_go_step by lia. apply IH; [apply N.div_lt; lia|]. cbn [noSpace]. rewrite Hs, andb_true_r.
    pose proof (N.mod_lt x 10 ltac:(lia)) as Hlt. revert Hlt. generalize (x mod 10)%N. intros d Hlt.
    destruct d as [|[[[|[]|]|[|[]|]|]|[[|[]|]|[|[]|]|]|]]; try reflexivity; lia. }
  unfold pretty, pretty_N. case_decide; [done|]. by apply H.
Qed.

Lemma noSpace_pretty_Z z : noSpace (pretty (z : Z)) = true.
Proof. destruct z as [|p|p]; [done|apply noSpace_pretty_N|]. cbn. apply noSpace_pretty_N. Qed.

Lemma noSpace_substring n s : noSpace s = true -> noSpace (String.substring 0 n s) = true.
Proof.
  revert n. induction s as [|c s IH]; intros [|n]; cbn; try done. intros H. to_prop. rewrite IH by done. by rewrite andb_true_r, H.
Qed.

Lemma buildStepId_trimmed k c i seed : trimmed (buildStepId k c i seed).
Proof.
  unfold buildStepId. destruct (slugify_spec (orElse c "combo")) as [H1 H1'], (slugify_spec seed) as [H2 _].
  apply sluggish_noSpace in H1, H2. unfold join. cbn [String.concat].
  destruct (slugify (orElse c "combo")) as [|d a]; [done|]. apply noSpace_trimmed; [|done].
  apply noSpace_substring. repeat (rewrite noSpace_app; apply andb_true_iff; split); try done; [by destruct k|apply noSpace_pretty_Z].
Qed.

(** *** Model strings *)

Lemma trimEnd_trimmed s : trimmed s -> trimEnd s = s.
Proof. by intros (_ & ? & _)%trimmed_parts. Qed.

Lemma trimmed_sep p m : trimmed p -> trimmed m -> trimmed (p +:+ "/" +:+ m).
Proof.
  intros Hp Hm. apply trimmed_append; [done| |done]. apply (trimEnd_append "/"); [by apply trimEnd_trimmed|apply Hm].
Qed.

Lemma includes_char c s : includes s (String c EmptyString) = occurs c s.
Proof.
  induction s as [|d s IH]; [done|]. cbn [includes occurs String.prefix]. rewrite IH.
  destruct (ascii_dec c d) as [->|Hne]; [rewrite Ascii.eqb_refl; by destruct s|].
  destruct (Ascii.eqb_spec d c); [congruence|done].
Qed.

Lemma occurs_app c a b : occurs c (a +:+ b) = occurs c a || occurs c b.
Proof. induction a as [|d a IH]; [done|]. change (String d a +:+ b) with (String d (a +:+ b)). cbn. by rewrite IH, orb_assoc. Qed.

Lemma toFullModelString_spec m p :
  trimmed m -> optTrimmed p ->
  let r := toFullModelString m p in
  trimmed r /\ toFullModelString r p = r /\ (p = None -> r = m).
Proof.
  intros [Hm Hne] Hp. unfold toFullModelString. rewrite Hm, toTrimmedString_fmap by done. cbv zeta.
  destruct (includes m "/") eqn:E; [rewrite Hm, E; by split_and!|].
  destruct p as [p|]; [|rewrite Hm, E; by split_and!].
  destruct (trimmed_sep p m Hp) as [Hr Hne']; [done|]. rewrite Hr. split; [done|]. split; [|done].
  rewrite includes_char. rewrite !occurs_app. cbn. by rewrite orb_true_r.
Qed.

(** *** The normal form is a fixed point *)

#[local] Arguments buildStepId : simpl never.
#[local] Arguments toWeight : simpl never.
#[local] Arguments toTrimmedString : simpl never.
#[local] Arguments toFullModelString : simpl never.
#[local] Arguments parseProviderId : simpl never.
#[local] Arguments parseProviderWildcardPattern : simpl never.
#[local] Arguments readStrings : simpl never.
#[local] Arguments readConnectionId : simpl never.
#[local] Arguments trim : simpl never.

Definition canonical (s : ComboStep) : Prop :=
  match s with
  | Model s =>
      trimmed (m_id s) /\ trimmed (m_model s) /\ optTrimmed (m_providerId s) /\
      toFullModelString (m_model s) (m_providerId s) = m_model s /\
      (m_providerId s = None -> parseProviderId (m_model s) = None) /\
      (forall c, m_connectionId s = Some (Some c) -> trimmed c) /\ Forall trimmed (m_allowedConnectionIds s) /\
      weightOk (m_weight s) /\ optTrimmed (m_label s) /\ optTrimmed (m_prompt s) /\ Forall trimmed (m_tags s)
  | ComboRef s => trimmed (r_id s) /\ trimmed (r_comboName s) /\ weightOk (r_weight s) /\ optTrimmed (r_label s)
  | ProviderWildcard s =>
      trimmed (w_id s) /\ trimmed (w_providerId s) /\ trimmed (w_modelPattern s) /\
      (forall c, w_connectionId s = Some (Some c) -> trimmed c) /\ Forall trimmed (w_allowedConnectionIds s) /\
      weightOk (w_weight s) /\ optTrimmed (w_label s)
  end.

Lemma canonical_wildcard v o p m :
  trimmed p -> trimmed m -> canonical (wildcardStep v o p m).
Proof.
  intros Hp Hm. cbn. split_and!; try done; [| |apply readStrings_trimmed|apply toWeight_ok|apply toTrimmedString_opt].
  - apply orElse_trimmed; [apply toTrimmedString_opt|apply buildStepId_trimmed].
  - intros c. apply readConnectionId_trimmed.
Qed.

Lemma providerOf_None v m : providerOf v m = None -> parseProviderId m = None.
Proof. unfold providerOf, orOpt. by repeat case_match. Qed.

Lemma canonical_string t o : trimmed t -> canonical (normalizeString t o).
Proof.
  intros Ht. unfold normalizeString. case_if; [cbn; split_and!; [apply buildStepId_trimmed|done..]|].
  destruct (parseProviderWildcardPattern t) as [[p m]|] eqn:E.
  - destruct (parseProviderWildcardPattern_trimmed _ _ _ E). cbn. split_and!; try done; apply buildStepId_trimmed.
  - cbn. pose proof (parseProviderId_trimmed t).
    assert (toFullModelString t (parseProviderId t) = t).
    { unfold toFullModelString. rewrite (proj1 Ht), toTrimmedString_fmap by done. destruct (includes t "/") eqn:Ei; [done|].
      unfold parseProviderId. rewrite (proj1 Ht). destruct (splitFirst "/" t) as [[a b]|] eqn:Es; [|done].
      apply splitFirst_Some in Es as [-> _]. rewrite includes_char, occurs_app in Ei. cbn in Ei. by rewrite orb_true_r in Ei. }
    split_and!; try done; apply buildStepId_trimmed.
Qed.

Lemma normalized_canonical v o s : normalizeComboStep v o = Some s -> canonical s.
Proof.
  destruct v as [| | |x| |fs]; try done; unfold normalizeComboStep.
  - destruct (toTrimmedString (Some (VStr x))) as [t|] eqn:E; [|done]. intros [= <-]. by eapply canonical_string, toTrimmedString_trimmed.
  - set (v := VObj fs). clearbody v. destruct (kindIs "combo-ref" v).
    { destruct (toTrimmedString (field "comboName" v)) as [r|] eqn:E; [|done]. intros [= <-]. cbn.
      split_and!; [apply orElse_trimmed; [apply toTrimmedString_opt|apply buildStepId_trimmed]|by eapply toTrimmedString_trimmed|apply toWeight_ok|apply toTrimmedString_opt]. }
    destruct (kindIs "provider-wildcard" v).
    { destruct (providerOf _ _) as [p|] eqn:E; [|done]. intros [= <-]. apply canonical_wildcard.
      - pose proof (providerOf_trimmed v (orElse (toTrimmedString (field "model" v)) "")) as H. by rewrite E in H.
      - apply orElse_trimmed; [apply toTrimmedString_opt|by split]. }
    destruct (toTrimmedString (field "model" v)) as [m|] eqn:Em; [|done]. apply toTrimmedString_trimmed in Em.
    destruct (parseProviderWildcardPattern m) as [[p q]|] eqn:Ew.
    { intros [= <-]. apply parseProviderWildcardPattern_trimmed in Ew as []. by apply canonical_wildcard. }
    case_if; intros [= <-]; cbn.
    { split_and!; [apply orElse_trimmed; [apply toTrimmedString_opt|apply buildStepId_trimmed]|done|apply toWeight_ok|apply toTrimmedString_opt]. }
    destruct (toFullModelString_spec m (providerOf v m) Em (providerOf_trimmed v m)) as (H1 & H2 & H3).
    split_and!; try done; try apply toTrimmedString_opt; try apply readStrings_trimmed; try apply toWeight_ok; try apply providerOf_trimmed.
    + apply orElse_trimmed; [apply toTrimmedString_opt|apply buildStepId_trimmed].
    + intros Hn. rewrite H3 by done. by eapply providerOf_None.
    + intros c. apply readConnectionId_trimmed.
Qed.

(** *** Reading a canonical step back *)

Lemma mget_optField k k' v : mget k (optField k' v) = if String.eqb k k' then v else None.
Proof.
  destruct v as [v|]; cbn; [|by case_if]. destruct (String.eqb_spec k k') as [->|]; [by rewrite decide_True|by rewrite decide_False].
Qed.

Lemma mget_listField_eq k l : mget k (listField k l) = match l with [] => None | _ => Some (VArr (VStr <$> l)) end.
Proof. destruct l; [done|]. cbn. by rewrite decide_True. Qed.

Lemma mget_listField_ne k k' l : String.eqb k k' = false -> mget k (listField k' l) = None.
Proof. intros H. destruct l; [done|]. cbn. rewrite decide_False; [done|]. by apply String.eqb_neq. Qed.

Lemma mget_flagField k k' b : mget k (flagField k' b) = if String.eqb k k' then (if b then Some (VBool true) else None) else None.
Proof.
  destruct b; cbn; [|by case_if]. destruct (String.eqb_spec k k') as [->|]; [by rewrite decide_True|by rewrite decide_False].
Qed.

Lemma trimmed_strings l : Forall trimmed l -> omap (fun x => toTrimmedString (Some x)) (VStr <$> l) = l.
Proof. induction 1 as [|x l Hx _ IH]; [done|]. cbn. by rewrite toTrimmedString_id, IH. Qed.

Lemma mget_field k k' (v : json) m : mget k ((k', v) :: m) = if String.eqb k k' then Some v else mget k m.
Proof. cbn. destruct (String.eqb_spec k k') as [->|]; [by rewrite decide_True|by rewrite decide_False]. Qed.

(** Look a field of a step up. *)
Ltac look_up :=
  unfold field, asValue, strField;
  repeat first [rewrite mget_field | rewrite mget_listField_eq | rewrite mget_app | rewrite mget_optField | rewrite mget_flagField | rewrite mget_listField_ne by reflexivity
               | progress cbn [app String.eqb Ascii.eqb Bool.eqb]].

Ltac look := look_up; repeat case_match; done.

Lemma model_fields s :
  let v := asValue (Model s) in
  field "id" v = Some (VStr (m_id s)) /\ field "kind" v = Some (VStr "model") /\ field "model" v = Some (VStr (m_model s)) /\
  field "providerId" v = VStr <$> m_providerId s /\ field "provider" v = None /\
  field "connectionId" v = connectionValue (m_connectionId s) /\ field "weight" v = Some (VNum (Fin (m_weight s))) /\
  field "label" v = VStr <$> m_label s /\ field "prompt" v = VStr <$> m_prompt s /\
  readFlag (field "fallbackOnlyOnQuotaExhaustion" v) = m_fallbackOnlyOnQuotaExhaustion s.
Proof. cbv zeta. split_and!; look. Qed.

Lemma ref_fields s :
  let v := asValue (ComboRef s) in
  field "id" v = Some (VStr (r_id s)) /\ field "kind" v = Some (VStr "combo-ref") /\
  field "comboName" v = Some (VStr (r_comboName s)) /\ field "weight" v = Some (VNum (Fin (r_weight s))) /\
  field "label" v = VStr <$> r_label s /\ readFlag (field "fallbackOnlyOnQuotaExhaustion" v) = r_fallbackOnlyOnQuotaExhaustion s.
Proof. cbv zeta. split_and!; look. Qed.

Lemma wildcard_fields s :
  let v := asValue (ProviderWildcard s) in
  field "id" v = Some (VStr (w_id s)) /\ field "kind" v = Some (VStr "provider-wildcard") /\
  field "providerId" v = Some (VStr (w_providerId s)) /\ field "modelPattern" v = Some (VStr (w_modelPattern s)) /\
  field "connectionId" v = connectionValue (w_connectionId s) /\ field "weight" v = Some (VNum (Fin (w_weight s))) /\
  field "label" v = VStr <$> w_label s.
Proof. cbv zeta. split_and!; look. Qed.

Lemma readStrings_list l : Forall trimmed l ->
  readStrings (match l with [] => None | _ => Some (VArr (VStr <$> l)) end) = l.
Proof. intros H. destruct l as [|x l]; [done|]. exact (trimmed_strings _ H). Qed.

Lemma model_lists s :
  Forall trimmed (m_tags s) -> Forall trimmed (m_allowedConnectionIds s) ->
  readStrings (field "tags" (asValue (Model s))) = m_tags s /\
  readStrings (field "allowedConnectionIds" (asValue (Model s))) = m_allowedConnectionIds s.
Proof.
  intros Ht Ha. rewrite <- (readStrings_list _ Ht), <- (readStrings_list _ Ha).
  split; f_equal; look.
Qed.

Lemma wildcard_list s :
  Forall trimmed (w_allowedConnectionIds s) ->
  readStrings (field "allowedConnectionIds" (asValue (ProviderWildcard s))) = w_allowedConnectionIds s.
Proof. intros Ha. rewrite <- (readStrings_list _ Ha). f_equal. look. Qed.

Lemma readConnectionId_value v c :
  field "connectionId" v = connectionValue c -> (forall x, c = Some (Some x) -> trimmed x) -> readConnectionId v = c.
Proof.
  unfold readConnectionId. intros -> H. destruct c as [[x|]|]; [|done..]. cbn. by rewrite toTrimmedString_id by (by apply H).
Qed.

Lemma kindIs_value k k' v : field "kind" v = Some (VStr k) -> kindIs k' v = String.eqb k k'.
Proof. unfold kindIs. by intros ->. Qed.

(** A model step that does not read as a provider wildcard. *)
Definition settled (s : ComboStep) : Prop :=
  match s with Model s => parseProviderWildcardPattern (m_model s) = None | _ => True end.

Lemma canonical_fixed s o : canonical s -> settled s -> normalizeComboStep (asValue s) o = Some s.
Proof.
  destruct s as [s|s|s]; cbn [canonical settled].
  - intros (Hi & Hm & Hp & Hfull & Hparse & Hc & Ha & Hw & Hl & Hpr & Ht) Hset.
    pose proof (model_fields s) as (Fi & Fk & Fm & Fp & Fpr & Fc & Fw & Fl & Fpt & Ff). destruct (model_lists s Ht Ha) as [Ft Fa].
    unfold normalizeComboStep. change (asValue (Model s)) with (VObj match asValue (Model s) with VObj f => f | _ => [] end) at 1.
    cbv iota. rewrite !(kindIs_value _ _ _ Fk). cbn [String.eqb Ascii.eqb Bool.eqb negb andb].
    rewrite Fm, toTrimmedString_id by done. rewrite Hset.
    assert (providerOf (asValue (Model s)) (m_model s) = m_providerId s) as ->.
    { unfold providerOf. rewrite Fp, toTrimmedString_fmap, Fpr by done. destruct (m_providerId s); [done|]. by apply Hparse. }
    rewrite Hfull, Fi, toTrimmedString_id, Fw, Hw, Fl, Fpt, (toTrimmedString_fmap (m_label s)), (toTrimmedString_fmap (m_prompt s)), Ft, Fa, Ff by done.
    rewrite (readConnectionId_value _ _ Fc) by done. by destruct s.
  - intros (Hi & Hn & Hw & Hl) _. pose proof (ref_fields s) as (Fi & Fk & Fn & Fw & Fl & Ff).
    unfold normalizeComboStep. change (asValue (ComboRef s)) with (VObj match asValue (ComboRef s) with VObj f => f | _ => [] end) at 1.
    cbv iota. rewrite !(kindIs_value _ _ _ Fk). cbn [String.eqb Ascii.eqb Bool.eqb].
    rewrite Fn, Fi, !toTrimmedString_id, Fw, Hw, Fl, (toTrimmedString_fmap (r_label s)), Ff by done. by destruct s.
  - intros (Hi & Hp & Hm & Hc & Ha & Hw & Hl) _. pose proof (wildcard_fields s) as (Fi & Fk & Fp & Fm & Fc & Fw & Fl).
    pose proof (wildcard_list s Ha) as Fa.
    unfold normalizeComboStep. change (asValue (ProviderWildcard s)) with (VObj match asValue (ProviderWildcard s) with VObj f => f | _ => [] end) at 1.
    cbv iota. rewrite !(kindIs_value _ _ _ Fk). cbn [String.eqb Ascii.eqb Bool.eqb].
    unfold providerOf, wildcardStep. rewrite Fp, Fm, Fi, !toTrimmedString_id, Fw, Hw, Fl, (toTrimmedString_fmap (w_label s)), Fa by done. cbn [orOpt orElse].
    rewrite (readConnectionId_value _ _ Fc) by done. by destruct s.
Qed.

Lemma normalizeComboModels_canonical models name all s :
  s ∈ normalizeComboModels models name all -> canonical s.
Proof.
  destruct models as [[| | | |l|]|]; cbn [normalizeComboModels]; try (intros H; by apply elem_of_nil in H).
  rewrite list_elem_of_omap. intros (x & Hx & Hid). cbn in Hid. subst x.
  apply list_elem_of_lookup_1 in Hx as [i Hx]. apply list_lookup_imap_Some in Hx as (v & _ & Hv).
  by eapply normalized_canonical.
Qed.

Lemma imap_Some {A B} (f : nat -> A -> option B) (g : A -> B) l :
  (forall i x, x ∈ l -> f i x = Some (g x)) -> omap id (imap f l) = g <$> l.
Proof.
  revert f. induction l as [|x l IH]; intros f H; [done|]. rewrite imap_cons. cbn.
  rewrite H by (by left). cbn. f_equal. apply IH. intros i y Hy. apply H. by right.
Qed.

Lemma canonical_steps steps name all :
  Forall canonical steps -> Forall settled steps ->
  normalizeComboModels (Some (VArr (asValue <$> steps))) name all = steps.
Proof.
  rewrite !Forall_forall. intros Hc Hs. cbn [normalizeComboModels]. rewrite imap_fmap.
  rewrite (imap_Some _ (fun s => s)); [apply list_fmap_id|]. intros i s Hin. exact (canonical_fixed s _ (Hc s Hin) (Hs s Hin)).
Qed.

(** The normal form is a fixed point.  A combo record that was normalised and
    stored reads back unchanged, whatever combos exist by then, provided no model
    step of it reads as a provider wildcard. *)
Theorem normalize_fixed_point combo all all' :
  let stored := normalizeComboRecord combo all in
  Forall settled (normalizeComboModels (mget "models" combo) (toTrimmedString (mget "name" combo)) all) ->
  normalizeComboRecord stored all' = stored.
Proof.
  cbv zeta. unfold normalizeComboRecord at 2 3. set (steps := normalizeComboModels _ _ _). intros Hset.
  assert (Forall canonical steps) as Hcan by (apply Forall_forall; intros s; apply normalizeComboModels_canonical).
  set (stored := mset "models" (VArr (asValue <$> steps)) (mset "version" _ combo)).
  assert (mget "models" stored = Some (VArr (asValue <$> steps))) as Hm by apply mget_mset_eq.
  assert (mget "version" stored = Some (VNum (Fin (inject_Z COMBO_SCHEMA_VERSION)))) as Hv.
  { subst stored. rewrite mget_mset_ne by done. apply mget_mset_eq. }
  clearbody stored. unfold normalizeComboRecord. rewrite Hm, canonical_steps by done.
  rewrite (mset_id _ _ _ Hv). by apply mset_id.
Qed.

(** ** Witnesses *)

Definition exRecord : jsmap string json :=
  [("name", VStr "fast");
   ("models", VArr [VStr " openai/gpt-4o "; VStr "cheap"; VStr "anthropic/claude-*";
      VObj [("model", VStr "o3"); ("provider", VStr "openai"); ("weight", VStr "250"); ("connectionId", VNull)]])].

Lemma normalize_fixed_point_witness :
  length (normalizeComboModels (mget "models" exRecord) (Some "fast") (ComboNames ["cheap"])) = 4%nat /\
  normalizeComboRecord (normalizeComboRecord exRecord (ComboNames ["cheap"])) NoCombos =
  normalizeComboRecord exRecord (ComboNames ["cheap"]).
Proof.
  split; [vm_compute; reflexivity|]. apply (normalize_fixed_point exRecord (ComboNames ["cheap"]) NoCombos).
  repeat constructor.
Defined.

(** ** Findings *)

(** A model given with its provider beside it, whose name has a star but no slash,
    is stored as a model step; the next reading turns it into a wildcard step. *)
Definition starModel : json := VObj [("model", VStr "gpt*"); ("providerId", VStr "openai")].

Lemma star_model_reread :
  (exists s, normalizeComboStep starModel noOptions = Some (Model s) /\ m_model s = "openai/gpt*") /\
  forall s, normalizeComboStep starModel noOptions = Some s ->
    exists w, normalizeComboStep (asValue s) noOptions = Some (ProviderWildcard w) /\ w_modelPattern w = "gpt*".
Proof.
  split; [eexists; split; vm_compute; reflexivity|]. intros s [= <-]. eexists; split; vm_compute; reflexivity.
Qed.

(** The flag that keeps a step for exhausted quotas is dropped when the object
    names a combo in its [model], and kept when it names it in [comboName]. *)
Lemma fallback_flag_dropped :
  let flag := ("fallbackOnlyOnQuotaExhaustion", VBool true) in
  let o := mkOptions None None (ComboNames ["cheap"]) in
  (fun s => match s with ComboRef r => r_fallbackOnlyOnQuotaExhaustion r | _ => true end)
    <$> normalizeComboStep (VObj [("model", VStr "cheap"); flag]) o = Some false /\
  (fun s => match s with ComboRef r => r_fallbackOnlyOnQuotaExhaustion r | _ => false end)
    <$> normalizeComboStep (VObj [("kind", VStr "combo-ref"); ("comboName", VStr "cheap"); flag]) o = Some true.
Proof. by vm_compute. Qed.
