(* ===== verification/ComboGraph.v ===== *)
(** * Combo expansion: [open-sse/services/combo/comboStructure.ts]

    A combo may refer to other combos.  Before it runs, its steps are normalised,
    ordered by its composite tiers, and its references are replaced by the targets
    of the combos they name, down to a maximal depth.  This file also has the
    weighted selection of [targetSorters.ts] and the depth limits of
    [comboPredicates.ts].

    The depth is counted down: a function at depth [d] has [maxDepth + 1 - d]
    levels left, and [depth > maxDepth] is no level left, so the recursion is
    structural and needs no fuel. *)
From Stdlib Require Import String Ascii QArith Qround Lqa.
From S2P Require Import Prelude JsMap JsString JsNumber ComboSteps.
#[local] Open Scope string_scope.
#[local] Open Scope list_scope.
#[local] Open Scope Z_scope.

(** ** Limits *)

Definition MAX_COMBO_DEPTH : Z := 3.
Definition MAX_COMBO_DEPTH_HARD_CAP : Z := 10.
Definition MAX_GLOBAL_ATTEMPTS : Z := 30.
Definition MAX_GLOBAL_ATTEMPTS_HARD_CAP : Z := 200.

(** The argument is [Number(value)]. *)
Definition clampComboDepth (value : jsnum) : Z :=
  match value with
  | NonFinite => MAX_COMBO_DEPTH
  | Fin q => if Qfloor q <? 1 then MAX_COMBO_DEPTH else Z.min (Qfloor q) MAX_COMBO_DEPTH_HARD_CAP
  end.

Definition clampGlobalAttempts (value : jsnum) : Z :=
  match value with
  | NonFinite => MAX_GLOBAL_ATTEMPTS
  | Fin q => if Qfloor q <? 1 then MAX_GLOBAL_ATTEMPTS else Z.min (Qfloor q) MAX_GLOBAL_ATTEMPTS_HARD_CAP
  end.

(** ** Combos *)

Record ComboLike := mkCombo {
  name : string;
  models : list json;
  config : option json;
}.

Definition toComboLike (combo : json) : ComboLike :=
  mkCombo (orElse (toTrimmedString (field "name" combo)) "")
    match field "models" combo with Some (VArr l) => l | _ => [] end
    match field "config" combo with Some (VObj fs) => Some (VObj fs) | _ => None end.

Definition getCombosArray (allCombos : ComboCollectionLike) : list ComboLike :=
  match allCombos with
  | ComboArray l | ComboHolder (Some (VArr l)) => toComboLike <$> l
  | _ => []
  end.

(** The normalised combos, as the collection that step normalisation reads. *)
Definition comboArray (combos : list ComboLike) : ComboCollectionLike :=
  ComboArray ((fun c => VObj [("name", VStr (name c))]) <$> combos).

Definition findCombo (n : string) (combos : list ComboLike) : option ComboLike :=
  List.find (fun c => String.eqb (name c) n) combos.

(** ** Runtime steps *)

Record ResolvedComboTarget := mkTarget {
  t_stepId : string;
  t_executionKey : string;
  t_modelStr : string;
  t_provider : string;
  t_providerId : option string;
  t_connectionId : option string;
  t_allowedConnectionIds : list string;
  t_weight : Q;
  t_label : option string;
  t_prompt : option string;
  t_fallbackOnlyOnQuotaExhaustion : bool;
}.

Record ComboRefUnit := mkRef {
  u_stepId : string;
  u_executionKey : string;
  u_comboName : string;
  u_weight : Q;
  u_label : option string;
  u_fallbackOnlyOnQuotaExhaustion : bool;
}.

Inductive ComboRuntimeStep :=
| RModel (t : ResolvedComboTarget)
| RRef (r : ComboRefUnit).

Definition runtimeStepId (s : ComboRuntimeStep) : string :=
  match s with RModel t => t_stepId t | RRef r => u_stepId r end.

Definition runtimeKey (s : ComboRuntimeStep) : string :=
  match s with RModel t => t_executionKey t | RRef r => u_executionKey r end.

Definition runtimeWeight (s : ComboRuntimeStep) : Q :=
  match s with RModel t => t_weight t | RRef r => u_weight r end.

Definition asTarget (s : ComboRuntimeStep) : option ResolvedComboTarget :=
  match s with RModel t => Some t | RRef _ => None end.

Definition buildExecutionKey (path : list string) (id : string) : string := join ">" (path ++ [id]).

Definition resolveComboTargetModelStr (modelStr : string) : string :=
  match splitFirst "/" modelStr with
  | Some (prefix, rest) => if String.eqb prefix "opencode" then "oc/" +:+ rest else modelStr
  | None => modelStr
  end.

Section Structure.
(** [parsedProvider m] is [parsed.provider || parsed.providerAlias] for
    [parsed = parseModel(m)]; [isVisible m p] is [isComboModelVisible(m, p)] with
    the hidden models of the request. *)
Context (parsedProvider : string -> option string) (isVisible : string -> string -> bool).

Definition getTargetProvider (modelStr : string) (providerId : option string) : string :=
  orElse (orOpt providerId (parsedProvider modelStr)) "unknown".

Definition normalizeRuntimeStep (entry : json) (comboName : string) (index : Z) (allCombos : ComboCollectionLike)
    (path : list string) : option ComboRuntimeStep :=
  match normalizeComboStep entry (mkOptions (Some comboName) (Some index) allCombos) with
  | None => None
  | Some (ComboRef s) =>
      Some (RRef (mkRef (r_id s) (buildExecutionKey path (r_id s)) (r_comboName s) (r_weight s) (r_label s)
        (r_fallbackOnlyOnQuotaExhaustion s)))
  | Some (ProviderWildcard s) => None
  | Some (Model s) =>
      match getComboModelString (asValue (Model s)) with
      | None => None
      | Some declaredModelStr =>
          let modelStr := resolveComboTargetModelStr declaredModelStr in
          let connectionId := match m_connectionId s with Some (Some c) => toTrimmedString (Some (VStr c)) | _ => None end in
          let allowed := match m_allowedConnectionIds s with [] => None | l => Some l end in
          Some (RModel (mkTarget (m_id s) (buildExecutionKey path (m_id s)) modelStr
            (getTargetProvider modelStr (m_providerId s)) (m_providerId s) connectionId
            (orElse (implicitPinAllowlist connectionId allowed) []) (m_weight s) (m_label s) (m_prompt s)
            (m_fallbackOnlyOnQuotaExhaustion s)))
      end
  end.

Definition isComboTargetVisible (target : ResolvedComboTarget) : bool :=
  isVisible (t_modelStr target) (orElse (t_providerId target) (t_provider target)).

Definition filterVisibleComboTargets (targets : list ResolvedComboTarget) : list ResolvedComboTarget :=
  List.filter isComboTargetVisible targets.

Definition getTopLevelRuntimeSteps (combo : ComboLike) (allCombos : ComboCollectionLike) (path : list string)
    : list ComboRuntimeStep :=
  omap id (imap (fun i entry => normalizeRuntimeStep entry (name combo) (Z.of_nat i) allCombos path) (models combo)).

(** ** Composite tiers *)

Record Tier := mkTier { tierStepId : string; fallbackTier : option string }.

Definition readTier (e : string * json) : option (string * Tier) :=
  let '(tierName, rawTier) := e in
  if negb (isRecord rawTier) then None
  else
    match toTrimmedString (Some (VStr tierName)), toTrimmedString (field "stepId" rawTier) with
    | Some n, Some id => Some (n, mkTier id (toTrimmedString (field "fallbackTier" rawTier)))
    | _, _ => None
    end.

Definition tierMap (tiers : jsmap string json) : jsmap string Tier :=
  foldl (fun m '(n, t) => mset n t m) [] (omap readTier tiers).

(** [ordered.push(id)], once; the set of seen ids has the ids pushed. *)
Definition pushNew (ordered : list string) (id : string) : list string :=
  if decide (id ∈ ordered) then ordered else ordered ++ [id].

Fixpoint walkTiers (fuel : nat) (entries : jsmap string Tier) (currentTier : option string)
    (visited ordered : list string) : list string :=
  match fuel, currentTier with
  | S fuel, Some tier =>
      match mget tier entries with
      | Some entry =>
          if decide (tier ∈ visited) then ordered
          else walkTiers fuel entries (fallbackTier entry) (tier :: visited) (pushNew ordered (tierStepId entry))
      | None => ordered
      end
  | _, _ => ordered
  end.

(** The default tier and the tiers of a combo that has both. *)
Definition compositeTiersOf (combo : ComboLike) : option (string * jsmap string Tier) :=
  match config combo ≫= field "compositeTiers" with
  | Some (VObj _ as compositeTiers) =>
      match toTrimmedString (field "defaultTier" compositeTiers), field "tiers" compositeTiers with
      | Some defaultTier, Some (VObj tiers) => Some (defaultTier, tierMap tiers)
      | _, _ => None
      end
  | _ => None
  end.

Definition getCompositeTierStepOrder (combo : ComboLike) : list string :=
  match compositeTiersOf combo with
  | Some (defaultTier, tierEntries) =>
      let ordered := walkTiers (S (length tierEntries)) tierEntries (Some defaultTier) [] [] in
      foldl (fun ordered entry => pushNew ordered (tierStepId entry)) ordered (mvals tierEntries)
  | None => []
  end.

Definition hasCompositeTierRuntimeOrder (combo : ComboLike) : bool :=
  negb (bool_decide (getCompositeTierStepOrder combo = [])).

(** The step unless one with its id was pushed. *)
Definition pushStep (ordered : list ComboRuntimeStep) (step : ComboRuntimeStep) : list ComboRuntimeStep :=
  if decide (runtimeStepId step ∈ runtimeStepId <$> ordered) then ordered else ordered ++ [step].

Definition stepsById (steps : list ComboRuntimeStep) : jsmap string ComboRuntimeStep :=
  foldl (fun m step => mset (runtimeStepId step) step m) [] steps.

Definition orderByIds (orderedStepIds : list string) (steps : list ComboRuntimeStep) : list ComboRuntimeStep :=
  let byStepId := stepsById steps in
  let ordered := foldl (fun ordered id => match mget id byStepId with Some step => pushStep ordered step | None => ordered end)
                   [] orderedStepIds in
  foldl pushStep ordered steps.

Definition orderRuntimeStepsByCompositeTiers (steps : list ComboRuntimeStep) (combo : ComboLike) : list ComboRuntimeStep :=
  match getCompositeTierStepOrder combo with
  | [] => steps
  | orderedStepIds => orderByIds orderedStepIds steps
  end.

Definition getOrderedTopLevelRuntimeSteps (combo : ComboLike) (allCombos : ComboCollectionLike) (path : list string)
    : list ComboRuntimeStep :=
  orderRuntimeStepsByCompositeTiers (getTopLevelRuntimeSteps combo allCombos path) combo.

(** ** Expansion *)

(** [resolve] expands the nested combo, one level deeper. *)
Definition expandRuntimeStep (resolve : ComboLike -> list string -> list string -> list ResolvedComboTarget)
    (combos : list ComboLike) (visited path : list string) (step : ComboRuntimeStep) : list ResolvedComboTarget :=
  match step with
  | RModel t => [t]
  | RRef r =>
      match findCombo (u_comboName r) combos with
      | None => []
      | Some nestedCombo =>
          if decide (u_comboName r ∈ visited) then [] else resolve nestedCombo visited (path ++ [u_stepId r])
      end
  end.

Fixpoint resolveNestedComboTargets (levels : nat) (combos : list ComboLike) (combo : ComboLike) (visited path : list string)
    : list ResolvedComboTarget :=
  match levels with
  | O =>
      omap asTarget (omap id
        (imap (fun i entry => normalizeRuntimeStep entry (name combo) (Z.of_nat i) NoCombos path) (models combo)))
  | S levels =>
      if decide (name combo ∈ visited) then []
      else
        flat_map (expandRuntimeStep (resolveNestedComboTargets levels combos) combos (name combo :: visited) path)
          (getOrderedTopLevelRuntimeSteps combo (comboArray combos) path)
  end.

(** The models of an entry without looking at other combos. *)
Definition entryModel (entry : json) : string := orElse (getComboStepTarget entry noOptions) "".

Fixpoint forEach {A} (f : A -> throws unit) (l : list A) : throws unit :=
  match l with
  | [] => Ret tt
  | x :: l => _ ← f x; forEach f l
  end.

Definition quoted (s : string) : string := let q := String (ascii_of_N 34) EmptyString in q +:+ s +:+ q.

Fixpoint validateComboDAG (levels : nat) (maxDepth : Z) (combos : list ComboLike) (visited : list string) (comboName : string)
    : throws unit :=
  match levels with
  | O => Throw "Error" ("Max combo nesting depth (" +:+ pretty maxDepth +:+ ") exceeded at " +:+ quoted comboName)
  | S levels =>
      if decide (comboName ∈ visited) then Throw "Error" ("Circular combo reference detected: " +:+ comboName)
      else
        match findCombo comboName combos with
        | None => Ret tt
        | Some combo =>
            forEach (fun entry =>
              let modelName := entryModel entry in
              match findCombo modelName combos with
              | Some _ => validateComboDAG levels maxDepth combos (comboName :: visited) modelName
              | None => Ret tt
              end) (models combo)
        end
  end.

Fixpoint resolveNestedComboModels (levels : nat) (combos : list ComboLike) (combo : ComboLike) (visited : list string)
    : list string :=
  match levels with
  | O => entryModel <$> models combo
  | S levels =>
      if decide (name combo ∈ visited) then []
      else
        flat_map (fun entry =>
          let modelName := entryModel entry in
          match findCombo modelName combos with
          | Some nestedCombo => resolveNestedComboModels levels combos nestedCombo (name combo :: visited)
          | None => [modelName]
          end) (models combo)
  end.

(** The levels left at depth zero. *)
Definition levelsOf (maxDepth : Z) : nat := S (Z.to_nat maxDepth).

Definition getComboFromData (modelStr : string) (combos : list ComboLike) : option ComboLike :=
  match findCombo modelStr combos with
  | Some combo => match models combo with [] => None | _ => Some combo end
  | None => None
  end.

Definition resolveComboTargets (combo : ComboLike) (allCombos : option (list ComboLike)) (maxDepth : Z) : list ResolvedComboTarget :=
  filterVisibleComboTargets
    match allCombos with
    | Some combos => resolveNestedComboTargets (levelsOf maxDepth) combos combo [] []
    | None => omap asTarget (getOrderedTopLevelRuntimeSteps combo NoCombos [])
    end.

Inductive NestedComboMode := flatten | execute.

Definition resolveComboRuntimeUnits (combo : ComboLike) (allCombos : option (list ComboLike)) (mode : NestedComboMode)
    (maxDepth : Z) : throws (list ComboRuntimeStep) :=
  match mode, allCombos with
  | execute, Some combos =>
      _ ← validateComboDAG (levelsOf maxDepth) maxDepth combos [] (name combo);
      Ret (List.filter (fun unit => match unit with RRef _ => true | RModel t => isComboTargetVisible t end)
        (getOrderedTopLevelRuntimeSteps combo (comboArray combos) []))
  | _, _ => Ret (RModel <$> resolveComboTargets combo allCombos maxDepth)
  end.

(** ** Weighted steps *)

Definition dedupeTargetsByExecutionKey (targets : list ResolvedComboTarget) : list ResolvedComboTarget :=
  foldl (fun kept t => if decide (t_executionKey t ∈ t_executionKey <$> kept) then kept else kept ++ [t]) [] targets.

Definition collectionOf (allCombos : option (list ComboLike)) : ComboCollectionLike :=
  match allCombos with Some combos => comboArray combos | None => NoCombos end.

Definition resolveWeightedStepGroups (combo : ComboLike) (allCombos : option (list ComboLike))
    : list (ComboRuntimeStep * list ResolvedComboTarget) :=
  List.filter (fun group => negb (bool_decide (group.2 = [])))
    ((fun step =>
        (step, filterVisibleComboTargets
           match allCombos with
           | None => option_list (asTarget step)
           | Some combos =>
               expandRuntimeStep (resolveNestedComboTargets (Z.to_nat MAX_COMBO_DEPTH) combos) combos [name combo] [] step
           end))
       <$> getOrderedTopLevelRuntimeSteps combo (collectionOf allCombos) []).
End Structure.

Section Weighted.
Context {T : Type} (weight : T -> Q).

Definition sumQ (l : list Q) : Q := foldr Qplus 0%Q l.

(** The loop that subtracts the weights from [random]. *)
Fixpoint pickWeighted (random : Q) (targets : list T) : option T :=
  match targets with
  | [] => None
  | target :: rest =>
      let random := (random - weight target)%Q in
      if Qle_bool random 0 then Some target else pickWeighted random rest
  end.

(** [uniform] is [secureRandomFloat()], [randomInt n] is [secureRandomInt(n)]. *)
Definition selectWeightedTarget (uniform : Q) (randomInt : nat -> nat) (targets : list T) : option T :=
  match targets with
  | [] => None
  | _ =>
      let totalWeight := sumQ (weight <$> targets) in
      if Qle_bool totalWeight 0 then targets !! randomInt (length targets)
      else match pickWeighted (uniform * totalWeight)%Q targets with
           | Some target => Some target
           | None => last targets
           end
  end.

Definition orderTargetsForWeightedFallback (key : T -> string) (targets : list T) (selectedExecutionKey : string)
    (preserveExistingOrder : bool) : list T :=
  let selected := List.find (fun t => String.eqb (key t) selectedExecutionKey) targets in
  let rest := List.filter (fun t => negb (String.eqb (key t) selectedExecutionKey)) targets in
  let rest := if preserveExistingOrder then rest else sortBy (fun a b => Qle_bool (weight b) (weight a)) rest in
  option_list selected ++ rest.
End Weighted.

Section WeightedTargets.
Context (parsedProvider : string -> option string) (isVisible : string -> string -> bool).

(** The ordered targets, the selected step and the ordered steps. *)
Definition resolveWeightedTargets (uniform : Q) (randomInt : nat -> nat) (combo : ComboLike) (allCombos : option (list ComboLike))
    (preferredExecutionKey : option string) (eligibleExecutionKeys : option (list string))
    : list ResolvedComboTarget * option ComboRuntimeStep * list ComboRuntimeStep :=
  let topLevelSteps := List.filter (fun step =>
    match eligibleExecutionKeys with Some keys => bool_decide (runtimeKey step ∈ keys) | None => true end)
    (getOrderedTopLevelRuntimeSteps parsedProvider combo (collectionOf allCombos) []) in
  let preferredStep := match preferredExecutionKey with
                       | Some k => List.find (fun s => String.eqb (runtimeKey s) k) topLevelSteps
                       | None => None
                       end in
  match orOpt preferredStep (selectWeightedTarget runtimeWeight uniform randomInt topLevelSteps) with
  | None => ([], None, [])
  | Some selectedStep =>
      let orderedSteps := orderTargetsForWeightedFallback runtimeWeight runtimeKey topLevelSteps (runtimeKey selectedStep)
                            (hasCompositeTierRuntimeOrder combo) in
      let targetsByStep := foldl (fun m '(step, ts) => mset (runtimeKey step) ts m) []
                             (resolveWeightedStepGroups parsedProvider isVisible combo allCombos) in
      let expandedTargets := flat_map (fun step => orElse (mget (runtimeKey step) targetsByStep) []) orderedSteps in
      (dedupeTargetsByExecutionKey expandedTargets, Some selectedStep, orderedSteps)
  end.
End WeightedTargets.

(** ** References *)

Section References.
Context (combos : list ComboLike).

(** An entry of the combo named [a] names the combo [b]. *)
Definition refersTo (a b : string) : Prop :=
  exists c entry, findCombo a combos = Some c /\ entry ∈ models c /\ entryModel entry = b /\ findCombo b combos <> None.

(** A chain of [n] references. *)
Inductive refPath : nat -> string -> string -> Prop :=
| path_here a : refPath 0 a a
| path_step n a b c : refersTo a b -> refPath n b c -> refPath (S n) a c.

Lemma refPath_app n m a b c : refPath n a b -> refPath m b c -> refPath (n + m) a c.
Proof. induction 1 as [|n a b b' H _ IH]; [done|]. intros Hm. eapply path_step; [done|]. by apply IH. Qed.

Lemma refPath_snoc n a b c : refPath n a b -> refersTo b c -> refPath (S n) a c.
Proof.
  intros Hp Hr. replace (S n) with (n + 1)%nat by lia. eapply refPath_app; [done|].
  eapply path_step; [done|constructor].
Qed.

Lemma refPath_pump k a m : refPath k a a -> refPath (m * k) a a.
Proof. intros H. induction m as [|m IH]; [constructor|]. by apply (refPath_app k (m * k) a a a). Qed.

Lemma forEach_Ret {A} (f : A -> throws unit) l : forEach f l = Ret tt <-> forall x, x ∈ l -> f x = Ret tt.
Proof.
  induction l as [|x l IH]; cbn [forEach].
  - split; [|done]. intros _ x Hx. by apply elem_of_nil in Hx.
  - split.
    + intros ([] & Hx & Hl)%throws_bind_Ret. intros y [->|Hy]%elem_of_cons; [done|]. by apply IH.
    + intros H. rewrite (H x) by (by left). cbn. apply IH. intros y Hy. apply H. by right.
Qed.

(** One level of the validation. *)
Lemma validate_S levels maxDepth visited a :
  validateComboDAG (S levels) maxDepth combos visited a = Ret tt <->
  ((a ∉ visited) /\ forall b, refersTo a b -> validateComboDAG levels maxDepth combos (a :: visited) b = Ret tt).
Proof.
  cbn [validateComboDAG]. case_decide as Hv; [split; [done|by intros []]|].
  destruct (findCombo a combos) as [c|] eqn:Hc.
  - rewrite forEach_Ret. split.
    + intros H. split; [done|]. intros b (c' & e & Hc' & He & <- & Hb). simplify_eq. specialize (H e He). cbn zeta in H.
      by destruct (findCombo (entryModel e) combos).
    + intros [_ H] e He. cbn zeta. destruct (findCombo (entryModel e) combos) eqn:Hb; [|done].
      apply H. exists c, e. split_and!; [done|done|done|]. by rewrite Hb.
  - split; [|done]. intros _. split; [done|]. intros b (c & e & Hc' & _). congruence.
Qed.

Lemma validate_paths levels maxDepth visited a n b :
  validateComboDAG levels maxDepth combos visited a = Ret tt -> refPath n a b -> (n < levels)%nat.
Proof.
  revert visited a n. induction levels as [|levels IH]; intros visited a n; [done|].
  intros [_ H]%validate_S Hp. destruct Hp as [|n a c b Hr Hp]; [lia|]. specialize (IH _ _ _ (H _ Hr) Hp). lia.
Qed.

Lemma paths_validate r maxDepth levels visited a d :
  (forall n b, refPath n r b -> (n < d + levels)%nat) ->
  refPath d r a -> (forall v, v ∈ visited -> exists k, (0 < k)%nat /\ refPath k v a) ->
  validateComboDAG levels maxDepth combos visited a = Ret tt.
Proof.
  revert visited a d. induction levels as [|levels IH]; intros visited a d Hmax Hd Hv.
  { specialize (Hmax _ _ Hd). lia. }
  apply validate_S. split.
  - intros Hin. destruct (Hv a Hin) as (k & Hk & Hcycle).
    pose proof (Hmax _ _ (refPath_app _ _ _ _ _ Hd (refPath_pump k a (S levels) Hcycle))). nia.
  - intros b Hr. apply (IH _ _ (S d)).
    + intros n b' Hn. specialize (Hmax _ _ Hn). lia.
    + by eapply refPath_snoc.
    + intros v [->|Hin]%elem_of_cons.
      * exists 1%nat. split; [lia|]. eapply path_step; [done|constructor].
      * destruct (Hv v Hin) as (k & Hk & Hp). exists (S k). split; [lia|]. by eapply refPath_snoc.
Qed.

(** C36. What the validation accepts.  A combo is valid when no chain of references
    from it is longer than the maximal depth; in particular no cycle is reachable
    from it. *)
Theorem validate_dag_spec maxDepth a :
  validateComboDAG (levelsOf maxDepth) maxDepth combos [] a = Ret tt <->
  forall n b, refPath n a b -> (n <= Z.to_nat maxDepth)%nat.
Proof.
  split.
  - intros H n b Hp. pose proof (validate_paths _ _ _ _ _ _ H Hp). unfold levelsOf in *. lia.
  - intros H. apply (paths_validate a _ _ _ _ 0).
    + intros n b Hp. specialize (H n b Hp). unfold levelsOf. lia.
    + constructor.
    + intros v Hv. by apply elem_of_nil in Hv.
Qed.

(** ** Full expansion *)

(** The expansion with no guard against depth or cycles. *)
Fixpoint expandModels (fuel : nat) (combo : ComboLike) : list string :=
  match fuel with
  | O => []
  | S fuel =>
      flat_map (fun entry => match findCombo (entryModel entry) combos with
                             | Some nested => expandModels fuel nested
                             | None => [entryModel entry]
                             end) (models combo)
  end.

Lemma findCombo_name n c : findCombo n combos = Some c -> name c = n.
Proof. intros [_ H]%find_some. by apply String.eqb_eq. Qed.

Lemma flat_map_eq {A B} (f g : A -> list B) l : (forall x, x ∈ l -> f x = g x) -> flat_map f l = flat_map g l.
Proof. intros H. induction l as [|x l IH]; [done|]. cbn. rewrite H by (by left). f_equal. apply IH. intros y Hy. apply H. by right. Qed.

Lemma validated_ref levels maxDepth visited c e nested :
  validateComboDAG (S levels) maxDepth combos visited (name c) = Ret tt -> findCombo (name c) combos = Some c ->
  e ∈ models c -> findCombo (entryModel e) combos = Some nested ->
  validateComboDAG levels maxDepth combos (name c :: visited) (name nested) = Ret tt /\
  findCombo (name nested) combos = Some nested /\ name nested = entryModel e.
Proof.
  intros [_ H]%validate_S Hc He Hn. rewrite (findCombo_name _ _ Hn). split_and!; [|done|done].
  apply H. exists c, e. split_and!; [done..|]. by rewrite Hn.
Qed.

Lemma models_expanded levels maxDepth visited c fuel :
  validateComboDAG levels maxDepth combos visited (name c) = Ret tt -> findCombo (name c) combos = Some c ->
  (levels <= fuel)%nat -> resolveNestedComboModels levels combos c visited = expandModels fuel c.
Proof.
  revert visited c fuel. induction levels as [|levels IH]; intros visited c fuel Hok Hc Hf; [done|].
  destruct fuel as [|fuel]; [lia|]. cbn [resolveNestedComboModels expandModels].
  rewrite decide_False by (by apply validate_S in Hok as []). apply flat_map_eq. intros e He. cbn zeta.
  destruct (findCombo (entryModel e) combos) as [nested|] eqn:Hn; [|done].
  destruct (validated_ref _ _ _ _ _ _ Hok Hc He Hn) as (Hok' & Hn' & _). apply IH; [done|done|lia].
Qed.
End References.

(** ** The order of composite tiers *)

Notation ids steps := (runtimeStepId <$> steps).

Lemma pushStep_perm done_ step :
  runtimeStepId step ∉ ids done_ -> pushStep done_ step ≡ₚ step :: done_.
Proof. intros H. unfold pushStep. rewrite decide_False by done. by rewrite Permutation_app_comm. Qed.

Lemma pushSteps_new steps done_ :
  NoDup (ids steps) -> (forall s, s ∈ steps -> runtimeStepId s ∉ ids done_) -> foldl pushStep done_ steps = done_ ++ steps.
Proof.
  revert done_. induction steps as [|s steps IH]; intros done_ Hnd Hnew; cbn [foldl]; [by rewrite app_nil_r|].
  apply NoDup_cons in Hnd as [Hs Hnd]. unfold pushStep at 2. rewrite decide_False by (apply Hnew; by left).
  rewrite IH; [by rewrite <- app_assoc|done|]. intros s' Hs'. rewrite fmap_app, elem_of_app. intros [H|H].
  - apply (Hnew s'); [by right|done].
  - cbn in H. apply list_elem_of_singleton in H. apply Hs. rewrite <- H. by apply list_elem_of_fmap_2.
Qed.

(** Pushing some of [steps]: a duplicate-free part of them, and the rest can be
    pushed after. *)
Definition partOf (steps done_ : list ComboRuntimeStep) : Prop :=
  NoDup (ids done_) /\ done_ ⊆ steps.

Lemma pushStep_part steps done_ s : partOf steps done_ -> s ∈ steps -> partOf steps (pushStep done_ s).
Proof.
  intros [Hnd Hsub] Hs. unfold pushStep. case_decide as Hin; [done|]. split.
  - rewrite fmap_app. apply NoDup_app. split_and!; [done| |apply NoDup_singleton].
    intros x Hx Hx'. apply list_elem_of_singleton in Hx'. by subst x.
  - intros x [Hx|Hx]%elem_of_app; [by apply Hsub|]. apply list_elem_of_singleton in Hx. by subst x.
Qed.

Lemma pushSteps_part steps l done_ : partOf steps done_ -> l ⊆ steps -> partOf steps (foldl pushStep done_ l).
Proof.
  revert done_. induction l as [|s l IH]; intros done_ Hp Hl; [done|]. cbn. apply IH.
  - apply pushStep_part; [done|]. apply Hl. by left.
  - intros x Hx. apply Hl. by right.
Qed.

Lemma pushSteps_all l done_ s : s ∈ l \/ runtimeStepId s ∈ ids done_ -> runtimeStepId s ∈ ids (foldl pushStep done_ l).
Proof.
  revert done_. induction l as [|x l IH]; intros done_ H; cbn [foldl].
  - destruct H as [H|H]; [by apply elem_of_nil in H|done].
  - apply IH. unfold pushStep. destruct H as [[->|H]%elem_of_cons|H]; [right|by left|right]; case_decide; [done| |done|];
      rewrite fmap_app, elem_of_app; [right; by left|by left].
Qed.

Lemma same_id_step steps s s' :
  NoDup (ids steps) -> s ∈ steps -> s' ∈ steps -> runtimeStepId s = runtimeStepId s' -> s = s'.
Proof.
  intros Hnd [i Hi]%list_elem_of_lookup_1 [j Hj]%list_elem_of_lookup_1 Hid.
  assert (i = j) as ->; [|congruence]. eapply NoDup_lookup; [exact Hnd| |]; rewrite list_lookup_fmap; [by rewrite Hi|by rewrite Hj, Hid].
Qed.

Lemma part_perm steps done_ :
  NoDup (ids steps) -> partOf steps done_ -> (forall s, s ∈ steps -> runtimeStepId s ∈ ids done_) -> done_ ≡ₚ steps.
Proof.
  intros Hnd [Hd Hsub] Hall. apply NoDup_Permutation; [by eapply NoDup_fmap_1|by eapply NoDup_fmap_1|].
  intros s. split; [apply Hsub|]. intros Hs. destruct (list_elem_of_fmap_1 _ _ _ (Hall s Hs)) as (s' & Hid & Hs').
  assert (s = s') as -> by (apply (same_id_step steps); [done|done|by apply Hsub|done]). done.
Qed.

Lemma stepsById_spec steps id s : mget id (stepsById steps) = Some s -> s ∈ steps /\ runtimeStepId s = id.
Proof.
  unfold stepsById. revert id s.
  induction steps as [|x steps IH] using rev_ind; intros id s; [done|]. rewrite foldl_app. cbn [foldl]. rewrite mget_mset. case_decide as Hid.
  - intros [= ->]. split; [apply elem_of_app; right; by left|done].
  - intros Hm. destruct (IH _ _ Hm). split; [apply elem_of_app; by left|done].
Qed.

Lemma stepsById_has steps s : s ∈ steps -> exists s', mget (runtimeStepId s) (stepsById steps) = Some s'.
Proof.
  unfold stepsById. induction steps as [|x steps IH] using rev_ind; [intros H; by apply elem_of_nil in H|].
  intros Hs. rewrite foldl_app. cbn [foldl]. rewrite mget_mset. case_decide as Hid; [by eexists|].
  apply elem_of_app in Hs as [Hs|Hs]; [by apply IH|]. apply list_elem_of_singleton in Hs. by subst.
Qed.

(** The first pass of the ordering. *)
Definition pushById (steps : list ComboRuntimeStep) (ordered : list ComboRuntimeStep) (id : string) : list ComboRuntimeStep :=
  match mget id (stepsById steps) with Some step => pushStep ordered step | None => ordered end.

Lemma pushByIds_part steps l done_ : partOf steps done_ -> partOf steps (foldl (pushById steps) done_ l).
Proof.
  revert done_. induction l as [|id l IH]; intros done_ H; [done|]. cbn. apply IH. unfold pushById.
  destruct (mget id (stepsById steps)) as [s|] eqn:E; [|done]. apply stepsById_spec in E as []. by apply pushStep_part.
Qed.

Lemma orderByIds_spec l steps :
  partOf steps (orderByIds l steps) /\ forall s, s ∈ steps -> runtimeStepId s ∈ ids (orderByIds l steps).
Proof.
  unfold orderByIds. fold (pushById steps). set (first := foldl _ [] l).
  assert (partOf steps first) as Hp by (apply pushByIds_part; split; [constructor|set_solver]). split.
  - by apply pushSteps_part.
  - intros s Hs. apply pushSteps_all. by left.
Qed.

Lemma ordered_steps_in combo steps s : s ∈ orderRuntimeStepsByCompositeTiers steps combo -> s ∈ steps.
Proof.
  unfold orderRuntimeStepsByCompositeTiers. destruct (getCompositeTierStepOrder combo); [done|]. apply orderByIds_spec.
Qed.

Lemma ordered_steps_perm combo steps :
  NoDup (ids steps) -> orderRuntimeStepsByCompositeTiers steps combo ≡ₚ steps.
Proof.
  intros Hnd. unfold orderRuntimeStepsByCompositeTiers. destruct (getCompositeTierStepOrder combo) as [|id l]; [done|].
  destruct (orderByIds_spec (id :: l) steps). by apply part_perm.
Qed.

(** The walk ends by itself: a tier is visited once, so more fuel changes nothing. *)
Lemma walkTiers_fuel fuel extra entries tier visited ordered :
  NoDup visited -> visited ⊆ mkeys entries -> (length entries < fuel + length visited)%nat ->
  walkTiers (fuel + extra) entries tier visited ordered = walkTiers fuel entries tier visited ordered.
Proof.
  revert tier visited ordered. induction fuel as [|fuel IH]; intros tier visited ordered Hnd Hsub Hlt.
  { pose proof (submseteq_length _ _ (NoDup_submseteq _ _ Hnd Hsub)) as H. rewrite length_mkeys in H. lia. }
  cbn [walkTiers Nat.add]. destruct tier as [tier|]; [|done]. destruct (mget tier entries) as [entry|] eqn:E; [|done].
  case_decide; [done|]. apply IH; [by constructor| |cbn; lia]. intros x [->|Hx]%elem_of_cons; [|by apply Hsub].
  apply mhas_spec. unfold mhas. by rewrite E.
Qed.

Lemma pushNew_prefix ordered id : exists rest, pushNew ordered id = ordered ++ rest.
Proof. unfold pushNew. case_decide; [exists []; by rewrite app_nil_r|by eexists]. Qed.

Lemma walkTiers_prefix fuel entries tier visited ordered : exists rest, walkTiers fuel entries tier visited ordered = ordered ++ rest.
Proof.
  revert tier visited ordered. induction fuel as [|fuel IH]; intros tier visited ordered; [exists []; by rewrite app_nil_r|].
  cbn. destruct tier as [tier|]; [|exists []; by rewrite app_nil_r].
  destruct (mget tier entries) as [entry|]; [|exists []; by rewrite app_nil_r]. case_decide; [exists []; by rewrite app_nil_r|].
  destruct (IH (fallbackTier entry) (tier :: visited) (pushNew ordered (tierStepId entry))) as [rest ->].
  destruct (pushNew_prefix ordered (tierStepId entry)) as [r ->]. rewrite <- app_assoc. by eexists.
Qed.

Lemma pushNews_prefix {A} (f : A -> string) l ordered :
  exists rest, foldl (fun ordered x => pushNew ordered (f x)) ordered l = ordered ++ rest.
Proof.
  revert ordered. induction l as [|x l IH]; intros ordered; cbn [foldl]; [exists []; by rewrite app_nil_r|].
  destruct (IH (pushNew ordered (f x))) as [rest ->]. destruct (pushNew_prefix ordered (f x)) as [r ->].
  rewrite <- app_assoc. by eexists.
Qed.

Lemma tier_order_head combo d entries e :
  compositeTiersOf combo = Some (d, entries) -> mget d entries = Some e ->
  exists rest, getCompositeTierStepOrder combo = tierStepId e :: rest.
Proof.
  intros Hc He. unfold getCompositeTierStepOrder. rewrite Hc. cbn [walkTiers]. rewrite He. rewrite decide_False by (apply not_elem_of_nil).
  destruct (walkTiers_prefix (length entries) entries (fallbackTier e) [d] (pushNew [] (tierStepId e))) as [r1 ->].
  destruct (pushNews_prefix tierStepId (mvals entries) (pushNew [] (tierStepId e) ++ r1)) as [r2 ->]. by eexists.
Qed.

Lemma pushByIds_prefix steps l done_ : exists rest, foldl (pushById steps) done_ l = done_ ++ rest.
Proof.
  revert done_. induction l as [|id l IH]; intros done_; cbn [foldl]; [exists []; by rewrite app_nil_r|].
  destruct (IH (pushById steps done_ id)) as [r ->]. unfold pushById, pushStep.
  destruct (mget id (stepsById steps)); [case_decide|]; [by eexists| |by eexists]. rewrite <- app_assoc. by eexists.
Qed.

Lemma pushSteps_prefix l done_ : exists rest, foldl pushStep done_ l = done_ ++ rest.
Proof.
  revert done_. induction l as [|s l IH]; intros done_; cbn [foldl]; [exists []; by rewrite app_nil_r|].
  destruct (IH (pushStep done_ s)) as [r ->]. unfold pushStep. case_decide; [by eexists|]. rewrite <- app_assoc. by eexists.
Qed.

(** Composite tiers reorder and lose nothing.  When the steps of a combo have
    distinct ids, ordering them by its tiers permutes them, and the step of the
    default tier comes first. *)
Theorem composite_order combo steps d entries e s :
  NoDup (ids steps) -> compositeTiersOf combo = Some (d, entries) -> mget d entries = Some e ->
  s ∈ steps -> runtimeStepId s = tierStepId e ->
  orderRuntimeStepsByCompositeTiers steps combo ≡ₚ steps /\ head (orderRuntimeStepsByCompositeTiers steps combo) = Some s.
Proof.
  intros Hnd Hc He Hs Hid. split; [by apply ordered_steps_perm|].
  destruct (tier_order_head _ _ _ _ Hc He) as [l Hl]. unfold orderRuntimeStepsByCompositeTiers. rewrite Hl.
  unfold orderByIds. fold (pushById steps). cbn [foldl].
  assert (pushById steps [] (tierStepId e) = [s]) as ->.
  { unfold pushById. rewrite <- Hid. destruct (stepsById_has steps s Hs) as [s' Hs']. rewrite Hs'.
    apply stepsById_spec in Hs' as [Hin' Hid']. unfold pushStep. rewrite decide_False by (apply not_elem_of_nil). cbn. f_equal.
    by apply (same_id_step steps). }
  destruct (pushByIds_prefix steps l [s]) as [r1 ->]. by destruct (pushSteps_prefix steps ([s] ++ r1)) as [r2 ->].
Qed.

(** ** Full expansion of the targets *)

Section Expansion.
Context (parsedProvider : string -> option string) (combos : list ComboLike).

Notation steps_of c path := (getOrderedTopLevelRuntimeSteps parsedProvider c (comboArray combos) path).

(** The expansion with no guard against depth or cycles. *)
Fixpoint expandTargets (fuel : nat) (combo : ComboLike) (path : list string) : list ResolvedComboTarget :=
  match fuel with
  | O => []
  | S fuel =>
      flat_map (fun step => match step with
                            | RModel t => [t]
                            | RRef r => match findCombo (u_comboName r) combos with
                                        | Some nested => expandTargets fuel nested (path ++ [u_stepId r])
                                        | None => []
                                        end
                            end) (steps_of combo path)
  end.

(** A reference that runs is one that the validation sees. *)
Lemma ref_entry entry n i all path r :
  normalizeRuntimeStep parsedProvider entry n i all path = Some (RRef r) -> entryModel entry = u_comboName r.
Proof.
  unfold normalizeRuntimeStep. destruct (normalizeComboStep entry _) as [[s|s|s]|] eqn:E; [by destruct (getComboModelString _)| |done..].
  intros [= <-]. cbn [u_comboName]. revert E. unfold normalizeComboStep, entryModel, getComboStepTarget.
  destruct entry as [| | |x| |fs]; try done.
  - destruct (toTrimmedString (Some (VStr x))) as [t|]; [|done]. cbn [fmap option_fmap option_map]. intros [= H]. revert H. unfold normalizeString.
    case_if; [by intros [= <-]|]. by destruct (parseProviderWildcardPattern t) as [[]|].
  - generalize (VObj fs) as v. intros v. destruct (kindIs "combo-ref" v).
    { destruct (toTrimmedString (field "comboName" v)); [|done]. by intros [= <-]. }
    destruct (kindIs "provider-wildcard" v); [by destruct (providerOf v _)|].
    destruct (toTrimmedString (field "model" v)) as [m|] eqn:Em; [|done].
    destruct (parseProviderWildcardPattern m) as [[]|]; [done|]. case_if; [|done]. intros [= <-]. cbn [r_comboName]. to_prop.
    destruct (providerOf v m); [done|]. cbn. rewrite andb_false_r. cbn. unfold toFullModelString.
    apply toTrimmedString_trimmed in Em as [-> _]. by case_if.
Qed.

Lemma top_ref combo all path r :
  RRef r ∈ getOrderedTopLevelRuntimeSteps parsedProvider combo all path ->
  exists entry, entry ∈ models combo /\ entryModel entry = u_comboName r.
Proof.
  intros H%ordered_steps_in. unfold getTopLevelRuntimeSteps in H. apply list_elem_of_omap in H as (x & Hx & Hid). cbn in Hid. subst x.
  apply list_elem_of_lookup_1 in Hx as [i Hx]. apply list_lookup_imap_Some in Hx as (e & He & Hr).
  exists e. split; [by eapply list_elem_of_lookup_2|]. symmetry in Hr. by eapply ref_entry.
Qed.

Lemma targets_expanded levels maxDepth visited c path fuel :
  validateComboDAG levels maxDepth combos visited (name c) = Ret tt -> findCombo (name c) combos = Some c ->
  (levels <= fuel)%nat -> resolveNestedComboTargets parsedProvider levels combos c visited path = expandTargets fuel c path.
Proof.
  revert visited c path fuel. induction levels as [|levels IH]; intros visited c path fuel Hok Hc Hf; [done|].
  destruct fuel as [|fuel]; [lia|]. cbn [resolveNestedComboTargets expandTargets].
  rewrite decide_False by (by apply validate_S in Hok as []). apply flat_map_eq. intros [t|r] Hs; [done|]. cbn [expandRuntimeStep].
  destruct (top_ref _ _ _ _ Hs) as (e & He & Hm). rewrite <- Hm.
  destruct (findCombo (entryModel e) combos) as [nested|] eqn:Hn; [|done].
  destruct (validated_ref _ _ _ _ _ _ _ Hok Hc He Hn) as (Hok' & Hn' & Hname). rewrite decide_False.
  - apply IH; [done|done|lia].
  - rewrite <- Hname. destruct levels; [done|]. by apply validate_S in Hok' as [].
Qed.

(** C29. A valid combo is expanded in full.  When the validation accepts a combo,
    neither the depth limit nor the cycle guard cuts its expansion: the targets,
    and the models of the older interface, are those of the expansion without
    guards, to any depth from the limit on. *)
Theorem expansion_complete maxDepth c fuel :
  findCombo (name c) combos = Some c -> validateComboDAG (levelsOf maxDepth) maxDepth combos [] (name c) = Ret tt ->
  (Z.to_nat maxDepth < fuel)%nat ->
  resolveNestedComboTargets parsedProvider (levelsOf maxDepth) combos c [] [] = expandTargets fuel c [] /\
  resolveNestedComboModels (levelsOf maxDepth) combos c [] = expandModels combos fuel c.
Proof.
  intros Hc Hok Hf. split.
  - eapply targets_expanded; [done|done|unfold levelsOf; lia].
  - eapply models_expanded; [done|done|unfold levelsOf; lia].
Qed.
End Expansion.

(** ** Execution keys *)

Lemma split_plain sep s : occurs sep s = false -> split sep s = [s].
Proof. induction s as [|c s IH]; [done|]. cbn. intros [-> H]%orb_false_iff. by rewrite IH. Qed.

Lemma split_join sep ws :
  ws <> [] -> Forall (fun w => occurs sep w = false) ws -> split sep (join (String sep EmptyString) ws) = ws.
Proof.
  induction ws as [|w ws IH]; [done|]. intros _ [Hw Hws]%Forall_cons. destruct ws as [|w2 ws]; [by apply split_plain|].
  change (join (String sep EmptyString) (w :: w2 :: ws)) with (w +:+ String sep (join (String sep EmptyString) (w2 :: ws))).
  rewrite split_app by done. f_equal. by apply IH.
Qed.

Notation keys ts := (t_executionKey <$> ts).

Lemma flat_map_keys (f : ComboRuntimeStep -> list ResolvedComboTarget) L path :
  NoDup (ids L) ->
  (forall s, s ∈ L -> NoDup (keys (f s)) /\
     forall t, t ∈ f s -> exists rest, split ">" (t_executionKey t) = path ++ runtimeStepId s :: rest) ->
  NoDup (keys (flat_map f L)).
Proof.
  induction L as [|s L IH]; intros Hnd H; [constructor|]. cbn [flat_map]. apply NoDup_cons in Hnd as [Hs Hnd].
  rewrite fmap_app. apply NoDup_app. split_and!; [apply H; by left| |apply IH; [done|]; intros s' Hs'; apply H; by right].
  intros k (t & -> & Ht)%list_elem_of_fmap_1 (t' & Hk & Ht')%list_elem_of_fmap_1.
  apply list_elem_of_In, in_flat_map in Ht' as (s' & Hs' & Ht'). apply list_elem_of_In in Hs', Ht'.
  destruct (H s (list_elem_of_here _ _)) as [_ H1]. destruct (H1 t Ht) as [r1 E1].
  destruct (H s' (list_elem_of_further _ _ _ Hs')) as [_ H2]. destruct (H2 t' Ht') as [r2 E2].
  rewrite Hk, E2 in E1. apply app_inv_head in E1. injection E1 as E1 _. apply Hs. rewrite <- E1. by apply list_elem_of_fmap_2.
Qed.

Section Keys.
Context (parsedProvider : string -> option string) (combos : list ComboLike).

Notation top c path := (getTopLevelRuntimeSteps parsedProvider c (comboArray combos) path).

(** The ids of a combo's steps are distinct and can be told apart in a path. *)
Definition distinctIds (c : ComboLike) : Prop :=
  NoDup (ids (top c [])) /\ Forall (fun id => occurs ">" id = false) (ids (top c [])).

Lemma runtime_key entry n i all path s :
  normalizeRuntimeStep parsedProvider entry n i all path = Some s -> runtimeKey s = buildExecutionKey path (runtimeStepId s).
Proof.
  unfold normalizeRuntimeStep. destruct (normalizeComboStep entry _) as [[m|m|m]|]; try done; [|by intros [= <-]].
  destruct (getComboModelString _); [|done]. by intros [= <-].
Qed.

Lemma runtime_id entry n i all path :
  runtimeStepId <$> normalizeRuntimeStep parsedProvider entry n i all path =
  runtimeStepId <$> normalizeRuntimeStep parsedProvider entry n i all [].
Proof.
  unfold normalizeRuntimeStep. destruct (normalizeComboStep entry _) as [[m|m|m]|]; try done. by destruct (getComboModelString _).
Qed.

Lemma fmap_omap_imap {A B C} (g : B -> C) (f1 f2 : nat -> A -> option B) l :
  (forall i x, g <$> f1 i x = g <$> f2 i x) -> g <$> omap id (imap f1 l) = g <$> omap id (imap f2 l).
Proof.
  revert f1 f2. induction l as [|x l IH]; intros f1 f2 H; [done|]. rewrite !imap_cons. cbn.
  specialize (IH (f1 ∘ S) (f2 ∘ S) (fun i x => H (S i) x)). specialize (H 0%nat x).
  destruct (f1 0%nat x), (f2 0%nat x); cbn in *; try done. injection H as ->. by rewrite IH.
Qed.

Lemma top_ids c path : ids (top c path) = ids (top c []).
Proof. apply fmap_omap_imap. intros i x. apply runtime_id. Qed.

Lemma steps_keys c path s :
  distinctIds c -> s ∈ getOrderedTopLevelRuntimeSteps parsedProvider c (comboArray combos) path ->
  runtimeKey s = buildExecutionKey path (runtimeStepId s) /\ occurs ">" (runtimeStepId s) = false.
Proof.
  intros [_ Hgt] Hs%ordered_steps_in. split.
  - unfold getTopLevelRuntimeSteps in Hs. apply list_elem_of_omap in Hs as (x & Hx & Hid). cbn in Hid. subst x.
    apply list_elem_of_lookup_1 in Hx as [i Hx]. apply list_lookup_imap_Some in Hx as (e & He & Hr). symmetry in Hr. by eapply runtime_key.
  - rewrite <- (top_ids c path) in Hgt. rewrite Forall_forall in Hgt. apply Hgt. by apply list_elem_of_fmap_2.
Qed.

Lemma expanded_keys fuel c path :
  Forall distinctIds combos -> distinctIds c -> Forall (fun id => occurs ">" id = false) path ->
  NoDup (keys (expandTargets parsedProvider combos fuel c path)) /\
  forall t, t ∈ expandTargets parsedProvider combos fuel c path ->
    exists id rest, split ">" (t_executionKey t) = path ++ id :: rest.
Proof.
  intros Hall. revert c path. induction fuel as [|fuel IH]; intros c path Hc Hpath.
  { split; [constructor|]. intros t Ht. by apply elem_of_nil in Ht. }
  cbn [expandTargets]. set (f := fun step => _).
  assert (forall s, s ∈ getOrderedTopLevelRuntimeSteps parsedProvider c (comboArray combos) path ->
    NoDup (keys (f s)) /\ forall t, t ∈ f s -> exists rest, split ">" (t_executionKey t) = path ++ runtimeStepId s :: rest) as Hstep.
  { intros s Hs. destruct (steps_keys c path s Hc Hs) as [Hkey Hgt]. subst f. destruct s as [t|r]; cbn in *.
    - split; [apply NoDup_singleton|]. intros t' ->%list_elem_of_singleton. exists []. rewrite Hkey. apply split_join; [by destruct path|].
      apply Forall_app. split; [done|]. by repeat constructor.
    - destruct (findCombo (u_comboName r) combos) as [nested|] eqn:Hn; [|split; [constructor|intros t Ht; by apply elem_of_nil in Ht]].
      destruct (IH nested (path ++ [u_stepId r])) as [H1 H2].
      + apply find_some in Hn as [Hn _]. rewrite Forall_forall in Hall. by apply Hall, list_elem_of_In.
      + apply Forall_app. split; [done|]. by repeat constructor.
      + split; [done|]. intros t Ht. destruct (H2 t Ht) as (id & rest & E). exists (id :: rest). by rewrite E, <- app_assoc. }
  split.
  - assert (NoDup (ids (top c path))) as Hnd by (rewrite top_ids; apply Hc).
    apply flat_map_keys with (path := path); [|done]. unfold getOrderedTopLevelRuntimeSteps. by rewrite ordered_steps_perm.
  - intros t Ht. apply list_elem_of_In, in_flat_map in Ht as (s & Hs & Ht). apply list_elem_of_In in Hs, Ht.
    destruct (Hstep s Hs) as [_ H]. destruct (H t Ht) as [rest E]. by exists (runtimeStepId s), rest.
Qed.

Lemma dedupe_nodup ts done_ :
  NoDup (keys (done_ ++ ts)) ->
  foldl (fun kept t => if decide (t_executionKey t ∈ keys kept) then kept else kept ++ [t]) done_ ts = done_ ++ ts.
Proof.
  revert done_. induction ts as [|t ts IH]; intros done_ H; cbn [foldl]; [by rewrite app_nil_r|].
  rewrite decide_False.
  - rewrite IH; [by rewrite <- app_assoc|by rewrite <- app_assoc].
  - rewrite fmap_app in H. apply NoDup_app in H as (_ & H & _). intros Hin. apply (H _ Hin). by left.
Qed.

(** Execution keys tell the targets apart.  When every combo's steps have
    distinct ids without the path separator, the targets of a valid combo have
    distinct execution keys, however often the same model is reached, so
    deduplication by key drops none of them. *)
Theorem execution_keys_distinct maxDepth c :
  Forall distinctIds combos -> findCombo (name c) combos = Some c ->
  validateComboDAG (levelsOf maxDepth) maxDepth combos [] (name c) = Ret tt ->
  let targets := resolveNestedComboTargets parsedProvider (levelsOf maxDepth) combos c [] [] in
  NoDup (keys targets) /\ dedupeTargetsByExecutionKey targets = targets.
Proof.
  intros Hall Hc Hok. cbv zeta.
  rewrite (targets_expanded parsedProvider combos _ _ _ _ _ (levelsOf maxDepth) Hok Hc) by lia.
  assert (distinctIds c) as Hd by (apply find_some in Hc as [Hc _]; rewrite Forall_forall in Hall; by apply Hall, list_elem_of_In).
  destruct (expanded_keys (levelsOf maxDepth) c [] Hall Hd ltac:(constructor)) as [Hnd _]. split; [done|].
  by apply (dedupe_nodup _ []).
Qed.
End Keys.

(** ** Weighted selection *)

Section Proportional.
Context {T : Type} (weight : T -> Q).
#[local] Open Scope Q_scope.

Lemma pickWeighted_spec random targets :
  0 < random -> random <= sumQ (weight <$> targets) ->
  exists i t, targets !! i = Some t /\ pickWeighted weight random targets = Some t /\
    sumQ (weight <$> take i targets) < random /\ random <= sumQ (weight <$> take (S i) targets).
Proof.
  revert random. induction targets as [|t targets IH]; intros random H0 Hle.
  { cbn in Hle. lra. }
  cbn [pickWeighted]. destruct (Qle_bool (random - weight t) 0) eqn:E.
  - apply Qle_bool_iff in E. exists 0%nat, t. split_and!; [done|done|exact H0|]. cbn. destruct targets; cbn; lra.
  - assert (0 < random - weight t) as Hpos by (apply Qnot_le_lt; intros H; apply Qle_bool_iff in H; congruence).
    destruct (IH (random - weight t) Hpos) as (i & x & Hi & Hp & Hlo & Hhi).
    + cbn in Hle. unfold sumQ in *. lra.
    + exists (S i), x. split_and!; [done|done| |].
      * change (weight t + sumQ (weight <$> take i targets) < random). lra.
      * change (random <= weight t + sumQ (weight <$> take (S i) targets)). lra.
Qed.

(** Weighted choice is proportional.  When the weights have a positive sum, a
    random number [u] of the unit interval selects the target in whose share of
    the summed weights [u] times the sum falls; so a target is chosen for a set of
    numbers whose length is its weight over the sum, and never with weight zero. *)
Theorem weighted_proportional uniform randomInt targets :
  let total := sumQ (weight <$> targets) in
  0 < total -> 0 < uniform -> uniform <= 1 ->
  exists i t, targets !! i = Some t /\ selectWeightedTarget weight uniform randomInt targets = Some t /\
    sumQ (weight <$> take i targets) < uniform * total /\ uniform * total <= sumQ (weight <$> take i targets) + weight t.
Proof.
  intros total Ht H0 H1. assert (0 < uniform * total) as Hr by (apply Qmult_lt_0_compat; done).
  assert (uniform * total <= total) as Hr' by (rewrite <- (Qmult_1_l total) at 2; apply Qmult_le_compat_r; lra).
  destruct (pickWeighted_spec _ targets Hr Hr') as (i & t & Hi & Hp & Hlo & Hhi). exists i, t. split; [done|].
  split; [|split; [done|]].
  - unfold selectWeightedTarget. destruct targets as [|x targets]; [done|]. fold total. rewrite Hp.
    destruct (Qle_bool total 0) eqn:E; [|done]. apply Qle_bool_iff in E. lra.
  - rewrite (take_S_r _ _ _ Hi) in Hhi. rewrite fmap_app in Hhi. revert Hhi. generalize (weight <$> take i targets) as l. cbn [fmap list_fmap].
    intros l. assert (sumQ (l ++ [weight t]) == sumQ l + weight t) as ->; [|done].
    induction l as [|q l IH]; cbn; [lra|]. unfold sumQ in IH. rewrite IH. lra.
Qed.
End Proportional.

(** ** Witnesses *)

(** A combo of a model and a reference, with tiers that put the reference first. *)
Definition exCheap : ComboLike := mkCombo "cheap" [VStr "openai/gpt-4o-mini"; VStr "google/flash"] None.
Definition exFast : ComboLike :=
  mkCombo "fast" [VObj [("id", VStr "main"); ("kind", VStr "model"); ("model", VStr "openai/gpt-4o"); ("weight", VNum (Fin (inject_Z 3)))];
                  VObj [("id", VStr "spare"); ("kind", VStr "combo-ref"); ("comboName", VStr "cheap")]]
    (Some (VObj [("compositeTiers", VObj [("defaultTier", VStr "low");
      ("tiers", VObj [("high", VObj [("stepId", VStr "main")]);
                      ("low", VObj [("stepId", VStr "spare"); ("fallbackTier", VStr "high")])])])])).
Definition exCombos : list ComboLike := [exCheap; exFast].
Definition exProvider (m : string) : option string := fst <$> splitFirst "/" m.

Example exFast_targets :
  t_executionKey <$> resolveNestedComboTargets exProvider (levelsOf MAX_COMBO_DEPTH) exCombos exFast [] [] =
  ["spare>cheap-model-1-openai-gpt-4o-mini"; "spare>cheap-model-2-google-flash"; "main"].
Proof. vm_compute. reflexivity. Qed.

Definition exSteps : list ComboRuntimeStep := getTopLevelRuntimeSteps exProvider exFast (comboArray exCombos) [].

Lemma composite_order_witness :
  runtimeStepId <$> head (orderRuntimeStepsByCompositeTiers exSteps exFast) = Some "spare".
Proof.
  refine (eq_trans (f_equal (fmap runtimeStepId) (proj2 (composite_order exFast exSteps "low"
    [("high", mkTier "main" None); ("low", mkTier "spare" (Some "high"))] (mkTier "spare" (Some "high"))
    (nth 1 exSteps (RRef (mkRef "" "" "" 0 None false))) _ _ _ _ _))) _);
    [apply (bool_decide_unpack _); vm_compute; exact I|vm_compute; reflexivity|vm_compute; reflexivity
    |apply list_elem_of_In; vm_compute; right; by left|vm_compute; reflexivity|vm_compute; reflexivity].
Defined.

Lemma expansion_complete_witness :
  length (resolveNestedComboModels (levelsOf 3) exCombos exFast []) = 3%nat /\
  resolveNestedComboModels (levelsOf 3) exCombos exFast [] = expandModels exCombos 20 exFast.
Proof.
  split; [vm_compute; reflexivity|].
  exact (proj2 (expansion_complete exProvider exCombos 3 exFast 20 eq_refl eq_refl ltac:(cbn; lia))).
Defined.

Lemma exCombos_distinct : Forall (distinctIds exProvider exCombos) exCombos.
Proof.
  repeat constructor; unfold distinctIds; try (apply (bool_decide_unpack _); vm_compute; exact I).
Qed.

Lemma execution_keys_distinct_witness :
  NoDup (t_executionKey <$> resolveNestedComboTargets exProvider (levelsOf 3) exCombos exFast [] []).
Proof. exact (proj1 (execution_keys_distinct exProvider exCombos 3 exFast exCombos_distinct eq_refl eq_refl)). Defined.

Lemma weighted_proportional_witness :
  exists i t, [3%Q; 1%Q] !! i = Some t /\ selectWeightedTarget (fun w => w) (4 # 5)%Q (fun _ => 0%nat) [3%Q; 1%Q] = Some t.
Proof.
  destruct (weighted_proportional (fun w : Q => w) (4 # 5)%Q (fun _ => 0%nat) [3%Q; 1%Q]) as (i & t & Hi & Hs & _);
    [reflexivity|reflexivity|discriminate|]. by exists i, t.
Defined.

(** ** Findings *)

(** A step that is explicitly a model, with the name of a combo, runs as a model
    but counts as a reference for the validation: a combo that has a model of its
    own name is refused as circular, although its expansion is that model. *)
Definition selfNamed : ComboLike := mkCombo "gpt-4o" [VObj [("kind", VStr "model"); ("model", VStr "gpt-4o")]] None.

Lemma explicit_model_counted_as_reference :
  t_modelStr <$> resolveNestedComboTargets exProvider (levelsOf 3) [selfNamed] selfNamed [] [] = ["gpt-4o"] /\
  validateComboDAG (levelsOf 3) 3 [selfNamed] [] "gpt-4o" = Throw "Error" "Circular combo reference detected: gpt-4o".
Proof. by vm_compute. Qed.
