(* ===== verification/ThinkTags.v ===== *)
(** * Think tags: [open-sse/utils/thinkTagParser.ts]

    Some models write their reasoning between think tags inside the ordinary
    content.  The parser separates the two, on a whole text and on a stream whose
    chunks may cut a tag anywhere.  Text is a list of characters; a delta of text
    that the code gives as a null is the empty list. *)
From Stdlib Require Import String Ascii.
From S2P Require Import Prelude.
#[local] Open Scope nat_scope.

Notation text := (list ascii).

Definition THINK_OPEN : text := list_ascii_of_string "<think>".
Definition THINK_CLOSE : text := list_ascii_of_string "</think>".

(** ** Text *)

Fixpoint startsWith (s p : text) : bool :=
  match p, s with
  | [], _ => true
  | c :: p, d :: s => Ascii.eqb c d && startsWith s p
  | _, [] => false
  end.

Fixpoint indexOf (tag s : text) : option nat :=
  if startsWith s tag then Some 0
  else match s with [] => None | _ :: s => S <$> indexOf tag s end.

Definition contains (s tag : text) : bool := bool_decide (is_Some (indexOf tag s)).

Definition endsWith (s p : text) : bool :=
  bool_decide (length p <= length s) && bool_decide (drop (length s - length p) s = p).

(** ** The whole text *)

Definition THINK_OPEN_PARTIALS : list text :=
  (fun i => take (S i) THINK_OPEN) <$> seq 0 (length THINK_OPEN - 1).

Definition containsOrMayEndWithThinkOpenTag (value : text) : bool :=
  contains value THINK_OPEN || existsb (endsWith value) THINK_OPEN_PARTIALS.

Definition hasThinkTags (s : text) : bool := contains s THINK_OPEN.

Definition isSpaceChar (c : ascii) : bool :=
  let n := N_of_ascii c in ((9 <=? n)%N && (n <=? 13)%N) || (n =? 32)%N.

Fixpoint dropSpaces (s : text) : text :=
  match s with c :: s' => if isSpaceChar c then dropSpaces s' else s | [] => [] end.

Definition trimText (s : text) : text := reverse (dropSpaces (reverse (dropSpaces s))).

(** One turn per block, at most [iterations] of them. *)
Fixpoint extractLoop (iterations : nat) (reasoning content : text) : text * text :=
  match iterations with
  | O => (reasoning, content)
  | S iterations =>
      match indexOf THINK_OPEN content with
      | None => (reasoning, content)
      | Some openIdx =>
          match indexOf THINK_CLOSE (drop openIdx content) with
          | None => (reasoning ++ drop (openIdx + length THINK_OPEN) content, take openIdx content)
          | Some d =>
              let closeIdx := openIdx + d in
              let thinkContent := drop (openIdx + length THINK_OPEN) (take closeIdx content) in
              extractLoop iterations
                (reasoning ++ (if bool_decide (reasoning = []) then [] else list_ascii_of_string (String (ascii_of_N 10) "")) ++ thinkContent)
                (take openIdx content ++ drop (closeIdx + length THINK_CLOSE) content)
          end
      end
  end.

(** The reasoning, [[]] for null, and the content. *)
Definition extractThinkTags (s : text) : text * text :=
  if negb (contains s THINK_OPEN) then ([], s)
  else let '(reasoning, content) := extractLoop 10 [] s in (trimText reasoning, trimText content).

(** ** The stream *)

Record ThinkState := mkThink {
  enabled : bool;
  insideThink : bool;
  buffer : text;
  active : bool;
}.

#[export] Instance ThinkState_eta : Eta ThinkState := fun x =>
  mkThink (enabled x) (insideThink x) (buffer x) (active x).

(** [parses] is [shouldParseTextualReasoningTags(provider, model)]. *)
Definition initThinkState (isPassthroughMode parses : bool) : ThinkState :=
  mkThink (isPassthroughMode && parses) false [] false.

Record Loop := mkLoop { l_inside : bool; l_buffer : text; l_reasoning : text; l_content : text }.

(** The tag the loop looks for. *)
Definition tagOf (inside : bool) : text := if inside then THINK_CLOSE else THINK_OPEN.

Definition emit (inside : bool) (safe : text) (l : Loop) : Loop :=
  if inside then mkLoop (l_inside l) (l_buffer l) (l_reasoning l ++ safe) (l_content l)
  else mkLoop (l_inside l) (l_buffer l) (l_reasoning l) (l_content l ++ safe).

Definition withBuffer (inside : bool) (b : text) (l : Loop) : Loop := mkLoop inside b (l_reasoning l) (l_content l).

Fixpoint thinkLoop (fuel : nat) (l : Loop) : Loop :=
  match fuel with
  | O => l
  | S fuel =>
      let b := l_buffer l in
      let inside := l_inside l in
      if bool_decide (b = []) then l
      else
        let tag := tagOf inside in
        match indexOf tag b with
        | None =>
            if bool_decide (length tag < length b) then
              let n := length b - (length tag - 1) in
              withBuffer inside (drop n b) (emit inside (take n b) l)
            else l
        | Some idx => thinkLoop fuel (withBuffer (negb inside) (drop (idx + length tag) b) (emit inside (take idx b) l))
        end
  end.

(** The state, the reasoning and the content of the chunk. *)
Definition processStreamingThinkDelta (delta : text) (ctx : ThinkState) : ThinkState * (text * text) :=
  let b := buffer ctx ++ delta in
  let l := thinkLoop (S (length b)) (mkLoop (insideThink ctx) b [] []) in
  (ctx <| insideThink := l_inside l |> <| buffer := l_buffer l |>, (l_reasoning l, l_content l)).

Record Delta := mkDelta { content : option text; reasoning_content : option text }.

(** The content is [None] when it is not a string. *)
Definition applyThinkTag (ctx : ThinkState) (delta : Delta) : ThinkState * Delta * bool :=
  match content delta with
  | Some c =>
      if negb (enabled ctx) then (ctx, delta, false)
      else if negb (active ctx) && negb (containsOrMayEndWithThinkOpenTag c) then (ctx, delta, false)
      else
        let '(ctx, (reasoningDelta, contentDelta)) := processStreamingThinkDelta c (ctx <| active := true |>) in
        (ctx, mkDelta (Some contentDelta)
                (if bool_decide (reasoningDelta = []) then reasoning_content delta else Some reasoningDelta), true)
  | None => (ctx, delta, false)
  end.

Definition flushThinkBuffer (ctx : ThinkState) : ThinkState * (text * text) :=
  (ctx <| buffer := [] |>, if insideThink ctx then (buffer ctx, []) else ([], buffer ctx)).

Definition STREAM_SUMMARY_TEXT_LIMIT : nat := 64 * 1024.

(** [s.slice(-n)] for a positive [n]. *)
Definition lastN (n : nat) (s : text) : text := drop (length s - n) s.

Definition appendBoundedText (limit : nat) (current next : text) : text :=
  if bool_decide (next = []) then current
  else if bool_decide (limit <= length current) then
    if bool_decide (limit <= length next) then lastN limit next else lastN (limit - length next) current ++ next
  else
    let combined := current ++ next in
    if bool_decide (length combined <= limit) then combined else lastN limit combined.

(** The flushed delta with the accumulators and the added length; the synthetic
    chunk around the delta is not part of the model. *)
Definition flushThink (ctx : ThinkState) (accReasoning accContent : text) : ThinkState * option ((text * text) * text * text * nat) :=
  if negb (enabled ctx) || negb (active ctx) then (ctx, None)
  else
    let '(ctx, (r, c)) := flushThinkBuffer ctx in
    if bool_decide (r = []) && bool_decide (c = []) then (ctx, None)
    else (ctx, Some ((r, c), appendBoundedText STREAM_SUMMARY_TEXT_LIMIT accReasoning r,
                     appendBoundedText STREAM_SUMMARY_TEXT_LIMIT accContent c, length r + length c)).

(** ** The text a stream stands for *)

(** A piece of text read inside a block or not, and two outputs in a row. *)
Definition out (inside : bool) (x : text) : text * text := if inside then (x, []) else ([], x).
Definition both (a b : text * text) : text * text := (a.1 ++ b.1, a.2 ++ b.2).

(** Reasoning and content of a text: cut at the first tag, which switches. *)
Fixpoint parseFuel (fuel : nat) (inside : bool) (s : text) : text * text :=
  match fuel with
  | O => ([], [])
  | S fuel =>
      match indexOf (tagOf inside) s with
      | None => out inside s
      | Some i => both (out inside (take i s)) (parseFuel fuel (negb inside) (drop (i + length (tagOf inside)) s))
      end
  end.

Definition parseText (inside : bool) (s : text) : text * text := parseFuel (S (length s)) inside s.

(** ** Finding a tag *)

Lemma tagOf_len inside : 7 <= length (tagOf inside) <= 8.
Proof. destruct inside; vm_compute; lia. Qed.

Lemma startsWith_length s p : startsWith s p = true -> length p <= length s.
Proof.
  revert s. induction p as [|c p IH]; intros s; [cbn; lia|]. destruct s as [|d s]; [done|]. cbn.
  intros [_ H]%andb_true_iff. apply IH in H. lia.
Qed.

Lemma startsWith_take s p : startsWith s p = true -> take (length p) s = p.
Proof.
  revert s. induction p as [|c p IH]; intros s; [done|]. destruct s as [|d s]; [done|]. cbn.
  intros [->%Ascii.eqb_eq H]%andb_true_iff. by rewrite IH.
Qed.

Lemma startsWith_app_long s p rest : length p <= length s -> startsWith (s ++ rest) p = startsWith s p.
Proof.
  revert s. induction p as [|c p IH]; intros s; [by destruct s, rest|]. destruct s as [|d s]; cbn; [lia|].
  intros H. rewrite IH; [done|lia].
Qed.

Lemma indexOf_length tag s i : indexOf tag s = Some i -> i + length tag <= length s.
Proof.
  revert i. induction s as [|c s IH]; intros i; cbn [indexOf].
  - destruct (startsWith [] tag) eqn:E; [|done]. intros [= <-]. by apply startsWith_length in E.
  - destruct (startsWith (c :: s) tag) eqn:E; [intros [= <-]; by apply startsWith_length in E|].
    destruct (indexOf tag s) as [j|]; [|done]. intros [= <-]. specialize (IH j eq_refl). cbn. lia.
Qed.

Lemma indexOf_app_Some tag s rest i : indexOf tag s = Some i -> indexOf tag (s ++ rest) = Some i.
Proof.
  revert i. induction s as [|c s IH]; intros i H.
  - pose proof (indexOf_length _ _ _ H). destruct tag; [|cbn in *; lia]. cbn in H. injection H as <-. by destruct rest.
  - pose proof (indexOf_length _ _ _ H) as Hlen. revert H. change ((c :: s) ++ rest) with (c :: (s ++ rest)). cbn [indexOf].
    change (c :: s ++ rest) with ((c :: s) ++ rest). rewrite startsWith_app_long by lia.
    destruct (startsWith (c :: s) tag); [done|]. destruct (indexOf tag s) as [j|]; [|done]. intros [= <-]. by rewrite (IH j eq_refl).
Qed.

(** A prefix in which no tag can start, whatever follows. *)
Definition tagFree (tag x : text) : Prop := forall i rest, i < length x -> startsWith (drop i x ++ rest) tag = false.

Lemma indexOf_tagFree tag x y : tagFree tag x -> indexOf tag (x ++ y) = (fun i => length x + i) <$> indexOf tag y.
Proof.
  induction x as [|c x IH]; intros Hf; [cbn [app length]; by destruct (indexOf tag y)|].
  change ((c :: x) ++ y) with (c :: (x ++ y)). cbn [indexOf].
  pose proof (Hf 0 y ltac:(cbn; lia)) as H0. change (startsWith (c :: x ++ y) tag = false) in H0. rewrite H0.
  rewrite IH; [by destruct (indexOf tag y)|]. intros i rest Hi. apply (Hf (S i)). cbn. lia.
Qed.

Lemma indexOf_eq tag s :
  indexOf tag s = if startsWith s tag then Some 0 else match s with [] => None | _ :: s => S <$> indexOf tag s end.
Proof. by destruct s. Qed.

Lemma indexOf_None_start tag s : indexOf tag s = None -> startsWith s tag = false.
Proof. rewrite indexOf_eq. by destruct (startsWith s tag). Qed.

Lemma indexOf_None_tail tag c s : indexOf tag (c :: s) = None -> indexOf tag s = None.
Proof. rewrite indexOf_eq. destruct (startsWith (c :: s) tag); [done|]. by destruct (indexOf tag s). Qed.

(** Where no tag is, none starts so early that it would end within. *)
Lemma indexOf_shift tag s n rest :
  indexOf tag s = None -> n + length tag <= length s + 1 ->
  indexOf tag (s ++ rest) = (fun i => n + i) <$> indexOf tag (drop n s ++ rest).
Proof.
  revert s. induction n as [|n IH]; intros s H Hn; [rewrite drop_0; cbn; by destruct (indexOf tag (s ++ rest))|].
  destruct s as [|c s]; [apply indexOf_None_start in H; destruct tag; [done|cbn in *; lia]|].
  rewrite (indexOf_eq tag ((c :: s) ++ rest)), startsWith_app_long by (cbn in *; lia).
  rewrite (indexOf_None_start _ _ H). cbn [app drop].
  rewrite IH; [by destruct (indexOf tag (drop n s ++ rest))|by eapply indexOf_None_tail|cbn in *; lia].
Qed.

(** ** The parser and the text *)

Lemma both_assoc a b c : both (both a b) c = both a (both b c).
Proof. unfold both. cbn. by rewrite <- !app_assoc. Qed.

Lemma both_nil a : both a ([], []) = a.
Proof. destruct a. unfold both. cbn. by rewrite !app_nil_r. Qed.

Lemma both_nil_l a : both ([], []) a = a.
Proof. by destruct a. Qed.

Lemma out_app inside x y : out inside (x ++ y) = both (out inside x) (out inside y).
Proof. by destruct inside. Qed.

Lemma parseFuel_enough f1 f2 inside s :
  length s < f1 -> length s < f2 -> parseFuel f1 inside s = parseFuel f2 inside s.
Proof.
  revert f2 inside s. induction f1 as [|f1 IH]; intros [|f2] inside s H1 H2; try lia. cbn [parseFuel].
  destruct (indexOf (tagOf inside) s) as [i|] eqn:E; [|done]. f_equal. pose proof (indexOf_length _ _ _ E). pose proof (tagOf_len inside).
  apply IH; rewrite length_drop; lia.
Qed.

Lemma parseText_eq inside s :
  parseText inside s =
  match indexOf (tagOf inside) s with
  | None => out inside s
  | Some i => both (out inside (take i s)) (parseText (negb inside) (drop (i + length (tagOf inside)) s))
  end.
Proof.
  unfold parseText at 1. cbn [parseFuel]. destruct (indexOf (tagOf inside) s) as [i|] eqn:E; [|done]. f_equal.
  pose proof (indexOf_length _ _ _ E). pose proof (tagOf_len inside). apply parseFuel_enough; rewrite length_drop; lia.
Qed.

Lemma parseText_shift inside x y :
  indexOf (tagOf inside) (x ++ y) = (fun i => length x + i) <$> indexOf (tagOf inside) y ->
  parseText inside (x ++ y) = both (out inside x) (parseText inside y).
Proof.
  intros H. rewrite (parseText_eq inside (x ++ y)), (parseText_eq inside y), H. destruct (indexOf (tagOf inside) y) as [i|]; cbn [fmap option_fmap option_map].
  - rewrite take_app_add, out_app, both_assoc. do 3 f_equal. rewrite <- Nat.add_assoc. by rewrite drop_app_add.
  - apply out_app.
Qed.

Lemma emit_out inside x l :
  (l_reasoning (emit inside x l), l_content (emit inside x l)) = both (l_reasoning l, l_content l) (out inside x).
Proof. destruct inside; unfold both; cbn; by rewrite app_nil_r. Qed.

(** What the loop emits, with what it keeps, is the text; no tag is left. *)
Lemma thinkLoop_spec fuel l :
  length (l_buffer l) < fuel ->
  let l' := thinkLoop fuel l in
  indexOf (tagOf (l_inside l')) (l_buffer l') = None /\
  exists o, (l_reasoning l', l_content l') = both (l_reasoning l, l_content l) o /\
    forall rest, parseText (l_inside l) (l_buffer l ++ rest) = both o (parseText (l_inside l') (l_buffer l' ++ rest)).
Proof.
  revert l. induction fuel as [|fuel IH]; intros l Hf; [lia|]. cbn [thinkLoop].
  pose proof (tagOf_len (l_inside l)) as Ht. case_bool_decide as Hb.
  { cbv zeta. rewrite Hb. split; [by destruct (l_inside l)|]. exists ([], []). split; [by rewrite both_nil|]. intros rest. by rewrite both_nil_l. }
  destruct (indexOf (tagOf (l_inside l)) (l_buffer l)) as [i|] eqn:E.
  - pose proof (indexOf_length _ _ _ E).
    destruct (IH (withBuffer (negb (l_inside l)) (drop (i + length (tagOf (l_inside l))) (l_buffer l)) (emit (l_inside l) (take i (l_buffer l)) l)))
      as (Hnone & o & Ho & Hp); [cbn; rewrite length_drop; lia|]. split; [done|].
    exists (both (out (l_inside l) (take i (l_buffer l))) o). cbn [withBuffer l_reasoning l_content] in Ho. split.
    + rewrite Ho, emit_out, both_assoc. done.
    + intros rest. rewrite both_assoc, <- Hp. cbn [withBuffer l_inside l_buffer].
      rewrite parseText_eq, (indexOf_app_Some _ _ rest _ E). f_equal; [by rewrite take_app_le by lia|]. f_equal. by rewrite drop_app_le by lia.
  - case_bool_decide as Hlen; cbv zeta.
    + set (n := length (l_buffer l) - (length (tagOf (l_inside l)) - 1)). cbn [withBuffer l_inside l_buffer l_reasoning l_content]. split.
      * destruct (indexOf _ (drop n (l_buffer l))) as [j|] eqn:E2; [|done]. apply indexOf_length in E2. rewrite length_drop in E2. subst n. lia.
      * exists (out (l_inside l) (take n (l_buffer l))). split; [apply emit_out|]. intros rest.
        rewrite <- (take_drop n (l_buffer l)) at 1. rewrite <- app_assoc. apply parseText_shift.
        rewrite app_assoc, take_drop, length_take, Nat.min_l by (subst n; lia). apply indexOf_shift; [done|subst n; lia].
    + split; [done|]. exists ([], []). split; [by rewrite both_nil|]. intros rest. by rewrite both_nil_l.
Qed.

(** ** Chunks before the first tag *)

Lemma indexOf_None_drop tag s i : indexOf tag s = None -> i <= length s -> startsWith (drop i s) tag = false.
Proof.
  revert s. induction i as [|i IH]; intros s H Hi; [rewrite drop_0; by apply indexOf_None_start|].
  destruct s as [|c s]; cbn in Hi; [lia|]. cbn [drop]. apply IH; [by eapply indexOf_None_tail|lia].
Qed.

Lemma no_tag_begins c : containsOrMayEndWithThinkOpenTag c = false -> tagFree THINK_OPEN c.
Proof.
  intros [Hc He]%orb_false_iff i rest Hi. apply not_true_iff_false. intros Hs.
  set (d := drop i c) in *. assert (length d = length c - i) as Hd by apply length_drop.
  destruct (Nat.le_gt_cases (length THINK_OPEN) (length d)) as [Hlong|Hshort].
  - rewrite startsWith_app_long in Hs by done. unfold contains in Hc. apply bool_decide_eq_false in Hc.
    destruct (indexOf THINK_OPEN c) eqn:E; [by apply Hc|]. unfold d in Hs. by rewrite (indexOf_None_drop _ _ i E) in Hs by lia.
  - assert (take (length d) THINK_OPEN = d) as Hpre.
    { apply startsWith_take in Hs. rewrite <- Hs, take_take, Nat.min_l by lia. by rewrite take_app_length. }
    apply not_true_iff_false in He. apply He. apply existsb_exists. exists d. split.
    + rewrite <- Hpre. apply list_elem_of_In. unfold THINK_OPEN_PARTIALS. apply list_elem_of_fmap. exists (length d - 1). split.
      * f_equal. lia.
      * apply elem_of_seq. lia.
    + unfold endsWith. apply andb_true_iff. split; apply bool_decide_eq_true; [lia|]. unfold d at 2. f_equal. lia.
Qed.

(** ** The stream *)

(** A chunk's delta appended to what was sent before. *)
Definition feed (acc : ThinkState * (text * text)) (chunk : text) : ThinkState * (text * text) :=
  let '(ctx, sent) := acc in
  let '(ctx, d, _) := applyThinkTag ctx (mkDelta (Some chunk) None) in
  (ctx, both sent (orElse (reasoning_content d) [], orElse (content d) [])).

(** All that a stream of chunks sends, its flush included. *)
Definition streamed (ctx : ThinkState) (chunks : list text) : text * text :=
  let '(ctx, sent) := foldl feed (ctx, ([], [])) chunks in
  if active ctx then both sent (flushThinkBuffer ctx).2 else sent.

(** No complete tag is kept back. *)
Definition clean (ctx : ThinkState) : Prop :=
  enabled ctx = true /\ indexOf (tagOf (insideThink ctx)) (buffer ctx) = None /\
  (active ctx = false -> insideThink ctx = false /\ buffer ctx = []).

Lemma feed_spec ctx sent chunk rest :
  clean ctx -> let r := feed (ctx, sent) chunk in
  clean r.1 /\ both r.2 (parseText (insideThink r.1) (buffer r.1 ++ rest)) =
               both sent (parseText (insideThink ctx) (buffer ctx ++ chunk ++ rest)).
Proof.
  intros (He & Hn & Ha). unfold feed, applyThinkTag. cbn [content reasoning_content]. rewrite He. cbn [negb].
  destruct (active ctx) eqn:Hact; cbn [negb andb].
  2: destruct (containsOrMayEndWithThinkOpenTag chunk) eqn:Hc; cbn [negb].
  3: { destruct (Ha eq_refl) as [Hi Hb]. cbn [fst snd orElse content reasoning_content]. split; [by split_and!|].
       rewrite both_assoc. f_equal. rewrite Hi, Hb. cbn [app]. rewrite (parseText_shift false chunk rest); [done|].
       apply indexOf_tagFree. by apply no_tag_begins. }
  all: unfold processStreamingThinkDelta; cbn [buffer insideThink]; cbn zeta;
    pose proof (thinkLoop_spec (S (length (buffer ctx ++ chunk))) (mkLoop (insideThink ctx) (buffer ctx ++ chunk) [] []) ltac:(cbn; lia)) as Hl;
    change (buffer (ctx <| active := true |>)) with (buffer ctx); change (insideThink (ctx <| active := true |>)) with (insideThink ctx);
    set (l := thinkLoop _ _) in *; destruct Hl as (Hnone & o & Ho & Hp); cbn [l_reasoning l_content l_inside l_buffer] in Ho, Hp;
    rewrite both_nil_l in Ho; subst o; cbn [fst snd orElse content reasoning_content].
  all: split; [split; [exact He|]; split; [exact Hnone|done]|].
  all: rewrite app_assoc, Hp, <- both_assoc; f_equal; f_equal; unfold orElse.
  all: by destruct (l_reasoning l).
Qed.

Lemma feeds_spec chunks ctx sent :
  clean ctx -> let r := foldl feed (ctx, sent) chunks in
  clean r.1 /\ both r.2 (parseText (insideThink r.1) (buffer r.1)) =
               both sent (parseText (insideThink ctx) (buffer ctx ++ concat chunks)).
Proof.
  revert ctx sent. induction chunks as [|chunk chunks IH]; intros ctx sent Hc; cbn [foldl concat].
  - rewrite app_nil_r. done.
  - destruct (feed_spec ctx sent chunk (concat chunks) Hc) as [Hc' Hf]. destruct (feed (ctx, sent) chunk) as [ctx' sent'].
    cbn [fst snd] in *. destruct (IH ctx' sent' Hc') as [Hc'' Hr]. split; [done|]. by rewrite Hr.
Qed.

(** Chunks do not matter.  However a text is cut into chunks, between tags or
    through them, the reasoning and the content that the stream sends are those of
    the whole text. *)
Theorem think_stream_invariant chunks :
  streamed (initThinkState true true) chunks = parseText false (concat chunks).
Proof.
  unfold streamed. set (ctx := initThinkState true true).
  assert (clean ctx) as Hc by done. destruct (feeds_spec chunks ctx ([], []) Hc) as [Hc' Hf].
  destruct (foldl feed (ctx, ([], [])) chunks) as [ctx' sent]. cbn [fst snd] in *. rewrite both_nil_l in Hf. cbn [app] in Hf.
  change (insideThink ctx) with false in Hf. change (buffer ctx ++ concat chunks) with (concat chunks) in Hf.
  rewrite <- Hf. destruct Hc' as (_ & Hn & Ha). rewrite (parseText_eq (insideThink ctx')), Hn.
  destruct (active ctx'); [done|]. destruct (Ha eq_refl) as [-> ->]. by rewrite both_nil.
Qed.

(** ** Bounded summaries *)

Lemma lastN_all n s : length s <= n -> lastN n s = s.
Proof. intros H. unfold lastN. by replace (length s - n) with 0 by lia. Qed.

Lemma lastN_app n s next : length next <= n -> lastN n (s ++ next) = lastN (n - length next) s ++ next.
Proof.
  intros H. unfold lastN. rewrite length_app, drop_app.
  by replace (length s + length next - n - length s) with 0 by lia; replace (length s + length next - n) with (length s - (n - length next)) by lia.
Qed.

Lemma lastN_app_long n s next : n <= length next -> lastN n (s ++ next) = lastN n next.
Proof.
  intros H. unfold lastN. rewrite length_app, drop_app. rewrite drop_ge by lia. cbn. f_equal. lia.
Qed.

Lemma appendBounded_last limit current next :
  length current <= limit -> appendBoundedText limit current next = lastN limit (current ++ next).
Proof.
  intros Hl. unfold appendBoundedText. case_bool_decide as Hn; [subst; rewrite app_nil_r; by rewrite lastN_all|].
  case_bool_decide; [case_bool_decide; [by rewrite lastN_app_long|by rewrite lastN_app by lia]|].
  case_bool_decide; [by rewrite lastN_all|done].
Qed.

Lemma lastN_lastN n s next : lastN n (lastN n s ++ next) = lastN n (s ++ next).
Proof.
  unfold lastN. rewrite !length_app, length_drop, !drop_app, drop_drop, length_drop. f_equal; f_equal; lia.
Qed.

Lemma length_lastN n s : length (lastN n s) <= n.
Proof. unfold lastN. rewrite length_drop. lia. Qed.

(** The accumulator of a stream is the tail of all it was given, of bounded size. *)
Lemma bounded_summary limit deltas :
  foldl (appendBoundedText limit) [] deltas = lastN limit (concat deltas).
Proof.
  induction deltas as [|d deltas IH] using rev_ind; [done|]. rewrite foldl_app, IH. cbn [foldl].
  rewrite concat_app. cbn [concat]. rewrite app_nil_r, appendBounded_last by apply length_lastN. apply lastN_lastN.
Qed.

(** ** Examples *)

Definition str (s : string) : text := list_ascii_of_string s.

Example stream_example :
  streamed (initThinkState true true) [str "Hi <th"; str "ink>a"; str "b</thin"; str "k> there <thing"] =
  (str "ab", str "Hi  there <thing").
Proof. vm_compute. reflexivity. Qed.

(** The whole-text parser reads at most ten blocks; the stream reads them all. *)
Example extract_stops_after_ten :
  let block := str "<think>x</think>" in
  (extractThinkTags (concat (replicate 11 block))).2 = block /\
  (parseText false (concat (replicate 11 block))).2 = [].
Proof. vm_compute. done. Qed.
