(* ===== verification/RegExp.v ===== *)
(** * Regular expressions

    The patterns the code tests whole strings with, on ASCII text: literals,
    character classes, sequences, alternatives and repetitions, no captures and
    no look-around.  A pattern anchored at both ends tests membership in its
    language; one anchored only at the start is followed by [anything].  The flag
    i is a test of the lower-case text against a lower-case pattern. *)
From Stdlib Require Import String Ascii.
From S2P Require Import Prelude JsString.
#[local] Open Scope list_scope.

(** A character class: ranges, possibly negated. *)
Record charset := mkSet { neg : bool; ranges : list (ascii * ascii) }.

Definition inRange (c : ascii) (r : ascii * ascii) : bool :=
  (N_of_ascii (fst r) <=? N_of_ascii c)%N && (N_of_ascii c <=? N_of_ascii (snd r))%N.

Definition inSet (s : charset) (c : ascii) : bool := xorb (neg s) (existsb (inRange c) (ranges s)).

Inductive re :=
| Void
| Eps
| Chr (s : charset)
| Seq (a b : re)
| Alt (a b : re)
| Star (a : re).

#[export] Instance charset_eq_dec : EqDecision charset.
Proof. solve_decision. Defined.
#[export] Instance re_eq_dec : EqDecision re.
Proof. solve_decision. Defined.

(** The language of a pattern. *)
Inductive matches : re -> string -> Prop :=
| m_eps : matches Eps EmptyString
| m_chr s c : inSet s c = true -> matches (Chr s) (String c EmptyString)
| m_seq a b s t : matches a s -> matches b t -> matches (Seq a b) (s +:+ t)
| m_alt_l a b s : matches a s -> matches (Alt a b) s
| m_alt_r a b s : matches b s -> matches (Alt a b) s
| m_star_nil a : matches (Star a) EmptyString
| m_star_cons a s t : matches a s -> matches (Star a) t -> matches (Star a) (s +:+ t).

(** ** The matcher *)

Definition seq (a b : re) : re :=
  match a, b with Void, _ | _, Void => Void | Eps, b => b | a, Eps => a | a, b => Seq a b end.

Definition alt (a b : re) : re := match a, b with Void, b => b | a, Void => a | a, b => Alt a b end.

Fixpoint nullable (r : re) : bool :=
  match r with
  | Void | Chr _ => false
  | Eps | Star _ => true
  | Seq a b => nullable a && nullable b
  | Alt a b => nullable a || nullable b
  end.

Fixpoint deriv (c : ascii) (r : re) : re :=
  match r with
  | Void | Eps => Void
  | Chr s => if inSet s c then Eps else Void
  | Seq a b => if nullable a then alt (seq (deriv c a) b) (deriv c b) else seq (deriv c a) b
  | Alt a b => alt (deriv c a) (deriv c b)
  | Star a => seq (deriv c a) (Star a)
  end.

Fixpoint derivs (s : string) (r : re) : re := match s with EmptyString => r | String c s => derivs s (deriv c r) end.

Definition reTest (r : re) (s : string) : bool := nullable (derivs s r).

(** With the flag i, for a pattern in lower case. *)
Definition reTestI (r : re) (s : string) : bool := reTest r (toLowerCase s).

(** ** Notation of patterns *)

Definition one (c : ascii) : re := Chr (mkSet false [(c, c)]).
Fixpoint lit (s : string) : re := match s with EmptyString => Eps | String c s => seq (one c) (lit s) end.
Definition opt (r : re) : re := Alt r Eps.
Definition plus (r : re) : re := Seq r (Star r).
Fixpoint rep (n : nat) (r : re) : re := match n with O => Eps | S n => seq r (rep n r) end.

Definition digit : re := Chr (mkSet false [("0"%char, "9"%char)]).
Definition slash : ascii := "/"%char.
(** The class of everything but the slash. *)
Definition notSlash : re := Chr (mkSet true [(slash, slash)]).
(** The dot: anything but a line terminator. *)
Definition dot : re := Chr (mkSet true [(ascii_of_nat 10, ascii_of_nat 10); (ascii_of_nat 13, ascii_of_nat 13)]).
(** What follows a pattern that is not anchored at its end. *)
Definition anything : re := Star (Chr (mkSet true [])).

(** ** The matcher decides the language *)

Lemma seq_eps_r a s : matches (Seq a Eps) s <-> matches a s.
Proof.
  split; [|intros H; rewrite <- (append_nil_r s); by constructor; [|constructor]].
  intros H. inversion H as [| |? ? s1 s2 H1 H2| | | |]; subst. inversion H2; subst. by rewrite append_nil_r.
Qed.

Lemma seq_eps_l b s : matches (Seq Eps b) s <-> matches b s.
Proof.
  split; [|exact (m_seq Eps b EmptyString s m_eps)].
  intros H. inversion H as [| |? ? s1 s2 H1 H2| | | |]; subst. by inversion H1; subst.
Qed.

Lemma seq_void_l b s : ~ matches (Seq Void b) s.
Proof. intros H. inversion H as [| |? ? s1 s2 H1 H2| | | |]; subst. inversion H1. Qed.

Lemma seq_void_r a s : ~ matches (Seq a Void) s.
Proof. intros H. inversion H as [| |? ? s1 s2 H1 H2| | | |]; subst. inversion H2. Qed.

Lemma matches_seq a b s : matches (seq a b) s <-> matches (Seq a b) s.
Proof.
  pose proof (seq_void_l b s). pose proof (seq_void_r a s). pose proof (seq_eps_r a s). pose proof (seq_eps_l b s).
  assert (~ matches Void s) by (by inversion 1). destruct a, b; cbn; tauto.
Qed.

Lemma matches_alt a b s : matches (alt a b) s <-> matches a s \/ matches b s.
Proof.
  split.
  - destruct a, b; cbn; intros H; auto; inversion H; subst; auto.
  - intros [H|H]; destruct a, b; cbn; try (by inversion H); try exact H; (by constructor) || (by apply m_alt_r).
Qed.

Lemma nullable_spec r : nullable r = true <-> matches r EmptyString.
Proof.
  split.
  - induction r; cbn; intros H; try done.
    + constructor.
    + apply andb_true_iff in H as [H1 H2]. exact (m_seq _ _ EmptyString EmptyString (IHr1 H1) (IHr2 H2)).
    + apply orb_true_iff in H as [H|H]; [apply m_alt_l|apply m_alt_r]; auto.
    + constructor.
  - remember EmptyString as e eqn:E. induction 1; cbn; try done.
    + destruct s; [|done]. cbn in E. by rewrite IHmatches1, IHmatches2.
    + by rewrite IHmatches.
    + rewrite IHmatches by done. apply orb_true_r.
Qed.

Lemma star_cons_inv a c s : matches (Star a) (String c s) ->
  exists s1 s2, s = s1 +:+ s2 /\ matches a (String c s1) /\ matches (Star a) s2.
Proof.
  intros H. remember (Star a) as r eqn:Er. remember (String c s) as w eqn:Ew. revert c s Ew.
  induction H; intros c' w' Ew; try done. injection Er as ->. destruct s as [|d s].
  - apply IHmatches2; [done|exact Ew].
  - injection Ew as -> <-. exists s, t. by split_and!.
Qed.

Lemma deriv_spec c r s : matches (deriv c r) s <-> matches r (String c s).
Proof.
  revert s. induction r as [| |k|a IHa b IHb|a IHa b IHb|a IHa]; intros s; cbn.
  1,2: split; intros H; inversion H.
  - destruct (inSet k c) eqn:E; split; intros H; inversion H; subst; solve [by constructor | congruence].
  - transitivity ((exists s1 s2, s = s1 +:+ s2 /\ matches a (String c s1) /\ matches b s2) \/
                  (matches a EmptyString /\ matches b (String c s))).
    + assert (matches (seq (deriv c a) b) s <-> exists s1 s2, s = s1 +:+ s2 /\ matches a (String c s1) /\ matches b s2) as Hs.
      { rewrite matches_seq. split.
        - intros H. inversion H; subst. eexists _, _. split; [done|]. split; [by apply IHa|done].
        - intros (s1 & s2 & -> & H1 & H2). constructor; [by apply IHa|done]. }
      destruct (nullable a) eqn:E.
      * rewrite matches_alt, Hs, IHb. apply nullable_spec in E. tauto.
      * rewrite Hs. assert (~ matches a EmptyString) by (rewrite <- nullable_spec; congruence). tauto.
    + split.
      * intros [(s1 & s2 & -> & H1 & H2)|[H1 H2]]; [exact (m_seq _ _ _ _ H1 H2)|exact (m_seq _ _ _ _ H1 H2)].
      * intros H. inversion H as [| |? ? s1 s2 H1 H2 E1 E2| | | |]; subst. destruct s1 as [|d s1].
        -- cbn in E2. subst. by right.
        -- injection E2 as -> <-. left. by exists s1, s2.
  - rewrite matches_alt, IHa, IHb. split; [intros [H|H]; by constructor|intros H; inversion H; auto].
  - rewrite matches_seq. split.
    + intros H. inversion H; subst. match goal with H1 : matches (deriv c a) ?s1 |- _ => apply IHa in H1; exact (m_star_cons _ _ _ H1 ltac:(eassumption)) end.
    + intros (s1 & s2 & -> & H1 & H2)%star_cons_inv. constructor; [by apply IHa|done].
Qed.

Lemma derivs_spec s t r : matches (derivs s r) t <-> matches r (s +:+ t).
Proof. revert r. induction s as [|c s IH]; intros r; [done|]. cbn. rewrite IH. apply deriv_spec. Qed.

Lemma reTest_spec r s : reTest r s = true <-> matches r s.
Proof. unfold reTest. by rewrite nullable_spec, derivs_spec, append_nil_r. Qed.

(** Testing a text in two parts. *)
Lemma derivs_app s t r : derivs (s +:+ t) r = derivs t (derivs s r).
Proof. revert r. induction s as [|c s IH]; intros r; [done|]. apply IH. Qed.

Lemma derivs_void s : derivs s Void = Void.
Proof. by induction s. Qed.

Lemma reTest_app s t r : reTest r (s +:+ t) = reTest (derivs s r) t.
Proof. unfold reTest. by rewrite derivs_app. Qed.

Lemma matches_lit p s : matches (lit p) s <-> s = p.
Proof.
  revert s. induction p as [|c p IH]; intros s; cbn [lit].
  - split; [by inversion 1|intros ->; constructor].
  - rewrite matches_seq. split.
    + intros H. inversion H as [| |? ? s1 s2 H1 H2| | | |]; subst. apply IH in H2 as ->. inversion H1 as [|k d Hd| | | | |]; subst.
      cbn in Hd. rewrite orb_false_r in Hd. apply andb_true_iff in Hd as [A B]. cbn in A, B.
      apply N.leb_le in A, B. assert (d = c) as -> by (rewrite <- (ascii_N_embedding d), <- (ascii_N_embedding c); f_equal; lia). done.
    + intros ->. change (String c p) with (String c EmptyString +:+ p). constructor; [|by apply IH].
      constructor. unfold inSet. cbn [existsb ranges neg one]. unfold inRange. cbn [fst snd]. by rewrite !N.leb_refl.
Qed.

(** A literal followed by anything is a prefix. *)
Lemma matches_anything s : matches anything s.
Proof.
  induction s as [|c s IH]; [constructor|]. exact (m_star_cons _ (String c EmptyString) s (m_chr (mkSet true []) c eq_refl) IH).
Qed.

Lemma reTest_prefix p s : reTest (seq (lit p) anything) s = true <-> exists t, s = p +:+ t.
Proof.
  rewrite reTest_spec, matches_seq. split.
  - intros H. inversion H as [| |? ? s1 s2 H1 H2| | | |]; subst. apply matches_lit in H1 as ->. by exists s2.
  - intros [t ->]. constructor; [by apply matches_lit|apply matches_anything].
Qed.

Lemma seq_spec a b s : matches (seq a b) s <-> exists s1 s2, s = s1 +:+ s2 /\ matches a s1 /\ matches b s2.
Proof.
  rewrite matches_seq. split.
  - intros H. inversion H as [| |? ? s1 s2 H1 H2| | | |]; subst. by exists s1, s2.
  - intros (s1 & s2 & -> & H1 & H2). by constructor.
Qed.
