(* ===== verification/RouteGuard.v ===== *)
(** * The route guard: [src/server/authz/routeGuard.ts]

    Three tiers of routes.  Local-only routes start processes and are served to
    the machine itself and its private network; a list of prefixes, kept in the
    database, lets management credentials reach some of them from elsewhere, and
    a deny-list compiled into the program ([spawnCapablePrefixes.ts]) bounds that
    list.  Always-protected routes ask for a login whatever the settings say.

    A path is the normalised path of a request; regular expressions are those of
    [RegExp]. *)
From Stdlib Require Import String Ascii.
From S2P Require Import Prelude JsString RegExp.
#[local] Open Scope list_scope.
#[local] Open Scope string_scope.

(** ** The tables *)

Definition VNC_ROUTE_PREFIX : string := "/api/vnc-session".

(** A sequence of patterns. *)
Fixpoint seqs (rs : list re) : re := match rs with [] => Eps | r :: rs => seq r (seqs rs) end%list.
Fixpoint alts (rs : list re) : re := match rs with [] => Void | r :: rs => alt r (alts rs) end%list.

Definition SPAWN_CAPABLE_PREFIXES : list string :=
  (["/api/cli-tools/runtime/";
   "/api/cli-tools/qwen-settings";
   "/api/cli-tools/all-statuses";
   "/api/cli-tools/claude-settings";
   "/api/cli-tools/cline-settings";
   "/api/cli-tools/codewhale-settings";
   "/api/cli-tools/codex-settings";
   "/api/cli-tools/crush-settings";
   "/api/cli-tools/deepseek-tui-settings";
   "/api/cli-tools/detect";
   "/api/cli-tools/droid-settings";
   "/api/cli-tools/kilo-settings";
   "/api/cli-tools/openclaw-settings";
   "/api/cli-tools/pi-settings";
   "/api/cli-tools/smelt-settings";
   "/api/cli-tools/status";
   "/api/services/";
   "/api/version-manager/";
   "/api/tunnels/cloudflared";
   "/api/tunnels/tailscale/disable";
   "/api/tunnels/tailscale/enable";
   "/api/tunnels/tailscale/install";
   "/api/tunnels/tailscale/login";
   "/api/tunnels/tailscale/start-daemon";
   "/api/tunnels/cloudflared-named";
   "/api/tunnels/tailscale-serve";
   "/api/tunnels/wireguard";
   "/api/settings/network";
   "/api/settings/wireguard-egress";
   "/api/tools/agent-bridge/";
   "/api/settings/mitm";
   "/api/cli-tools/antigravity-mitm";
   "/api/tools/traffic-inspector/";
   "/api/plugins/";
   "/api/local/";
   "/api/skills/collect/";
   "/api/skills/install";
   "/api/skills/executions";
   "/api/headroom/start";
   "/api/headroom/stop";
   "/api/vnc-session";
   "/api/modality-bridge/video/"])%string.

Definition SPAWN_CAPABLE_PATTERNS : list re :=
  [seq (lit "/api/v1/mcp") (opt (one slash));
   seqs [lit "/api/providers/"; plus notSlash; lit "/login"; opt (one slash)];
   seqs [lit "/api/providers/volcengine-plan/connect"; opt (Seq (one slash) (Star dot))];
   seqs [lit "/api/providers/"; plus notSlash; lit "/refresh-cursor"; opt (one slash)];
   seq (lit "/api/providers/cursor/agent-availability") (opt (one slash));
   seqs [lit "/api/providers/"; plus notSlash; lit "/chatgpt-web-codex-doctor"; opt (one slash)]]%list.

Definition LOCAL_ONLY_API_PREFIXES : list string :=
  (["/api/mcp/";
   "/api/cli-tools/runtime/";
   "/api/cli-tools/omp-settings";
   "/api/cli-tools/letta-settings";
   "/api/cli-tools/grok-build-settings";
   "/api/cli-tools/forge-settings";
   "/api/cli-tools/jcode-settings";
   "/api/cli-tools/qwen-settings";
   "/api/cli-tools/all-statuses";
   "/api/cli-tools/claude-settings";
   "/api/cli-tools/cline-settings";
   "/api/cli-tools/codewhale-settings";
   "/api/cli-tools/codex-settings";
   "/api/cli-tools/crush-settings";
   "/api/cli-tools/deepseek-tui-settings";
   "/api/cli-tools/detect";
   "/api/cli-tools/droid-settings";
   "/api/cli-tools/kilo-settings";
   "/api/cli-tools/openclaw-settings";
   "/api/cli-tools/pi-settings";
   "/api/cli-tools/smelt-settings";
   "/api/cli-tools/status";
   "/api/services/";
   "/api/version-manager/";
   "/api/tunnels/cloudflared";
   "/api/tunnels/tailscale/disable";
   "/api/tunnels/tailscale/enable";
   "/api/tunnels/tailscale/install";
   "/api/tunnels/tailscale/login";
   "/api/tunnels/tailscale/start-daemon";
   "/api/tunnels/cloudflared-named";
   "/api/tunnels/tailscale-serve";
   "/api/settings/network";
   "/api/settings/wireguard-egress";
   "/api/tunnels/wireguard";
   "/dashboard/providers/services/";
   "/api/copilot/";
   "/api/tools/agent-bridge/";
   "/api/settings/mitm";
   "/api/cli-tools/antigravity-mitm";
   "/api/tools/traffic-inspector/";
   "/api/issue-agent/";
   "/api/plugins/";
   "/api/plugins";
   "/api/middleware/";
   "/api/system/version";
   "/api/db-backups/exportAll";
   "/api/db/health";
   "/api/local/";
   "/api/headroom/start";
   "/api/headroom/stop";
   "/api/jobs";
   "/api/jobs/";
   "/api/oauth/cursor/auto-import";
   "/api/oauth/kiro/auto-import";
   "/api/skills/collect/";
   "/api/skills/install";
   "/api/skills/executions";
   "/api/discovery/";
   VNC_ROUTE_PREFIX;
   "/api/acp/agents";
   "/api/resilience/connections";
   "/api/providers/cursor/agent-availability";
   "/api/modality-bridge/video/"])%string.

Definition LOCAL_ONLY_API_PATTERNS : list re :=
  [seq (lit "/api/v1/mcp") (opt (one slash));
   seqs [lit "/api/providers/"; plus notSlash; lit "/login"; opt (one slash)];
   seqs [lit "/api/providers/volcengine-plan/connect"; opt (Seq (one slash) (Star dot))];
   seqs [lit "/api/providers/"; plus notSlash; lit "/refresh-cursor"; opt (one slash)];
   seqs [lit "/api/providers/"; plus notSlash; lit "/chatgpt-web-codex-doctor"; opt (one slash)]]%list.

Definition ALWAYS_PROTECTED_API_PATHS : list string :=
  (["/api/shutdown";
   "/api/providers/health-autopilot/actions";
   "/api/settings/database";
   "/api/db-backups";
   "/api/settings/export-json";
   "/api/settings/import-json";
   "/api/logs/export";
   "/api/cli-tools/codex-profiles";
   "/api/providers/agy-auth/apply-local";
   "/api/settings/obsidian"])%string.

Definition ALWAYS_PROTECTED_API_PATTERNS : list re :=
  [seqs [lit "/api/providers/"; plus notSlash; one slash; Alt (lit "claude") (lit "codex"); lit "-auth/";
         Alt (lit "export") (lit "apply-local"); opt (one slash)]]%list.

Definition LOCAL_ONLY_API_GET_EXEMPTIONS : list string :=
  (["/api/system/version";
   "/api/settings/network";
   "/api/version-manager/status";
   "/api/version-manager/check-update";
   "/api/tunnels/cloudflared";
   "/api/mcp/audit";
   "/api/mcp/audit/stats"])%string.

(** Safe HTTP methods. *)
Definition SAFE_METHODS : list string := ["GET"; "HEAD"; "OPTIONS"]%list.

Definition LOOPBACK_HOSTS : list string := ["localhost"; "127.0.0.1"; "::1"]%list.

(** ** Paths *)

Definition mem (x : string) (l : list string) : bool := existsb (String.eqb x) l.
Definition startsWith (s p : string) : bool := String.prefix p s.

(** [path === p || path.startsWith(p)]. *)
Definition under (path p : string) : bool := String.eqb path p || startsWith path p.

Definition isLocalOnlyPath (path : string) (method : option string) : bool :=
  if match method with
     | Some m => negb (isEmpty m) && mem (toUpperCase m) SAFE_METHODS && mem path LOCAL_ONLY_API_GET_EXEMPTIONS
     | None => false
     end
  then false
  else existsb (under path) LOCAL_ONLY_API_PREFIXES || existsb (fun r => reTest r path) LOCAL_ONLY_API_PATTERNS.

(** The live bypass list. *)
Record Snapshot := mkSnapshot { s_enabled : bool; s_prefixes : list string }.

(** The prefix is, contains or is contained in a spawn-capable prefix. *)
Definition spawnRelated (p spawn : string) : bool := String.eqb p spawn || startsWith p spawn || startsWith spawn p.

Definition isLocalOnlyBypassableByManageScope (snapshot : Snapshot) (path : string) : bool :=
  if existsb (fun r => reTest r path) SPAWN_CAPABLE_PATTERNS then false
  else if negb (s_enabled snapshot) then false
  else existsb (fun p => if existsb (spawnRelated p) SPAWN_CAPABLE_PREFIXES then false else under path p) (s_prefixes snapshot).

Definition isAlwaysProtectedPath (path : string) : bool :=
  existsb (under path) ALWAYS_PROTECTED_API_PATHS || existsb (fun r => reTest r path) ALWAYS_PROTECTED_API_PATTERNS.

(** ** Hosts *)

Fixpoint countChar (c : ascii) (s : string) : nat :=
  match s with
  | EmptyString => O
  | String d s => if Ascii.eqb c d then S (countChar c s) else countChar c s
  end.

(** The text of a bracketed literal; without a closing bracket, all of it. *)
Definition insideBrackets (s : string) : string := match splitFirst "]"%char s with Some (a, _) => a | None => s end.

(** The host without the port, when the text has exactly one colon. *)
Definition stripPort (s : string) : string :=
  if Nat.eqb (countChar ":"%char s) 1 then match splitFirst ":"%char s with Some (a, _) => a | None => s end else s.

(** [replace(/^::ffff:/i, "")]. *)
Definition stripMapped (s : string) : string :=
  if String.eqb (toLowerCase (String.substring 0 7 s)) "::ffff:" then String.substring 7 (String.length s - 7) s else s.

Definition isLoopbackHost (hostHeader : option string) : bool :=
  match hostHeader with
  | None => false
  | Some h =>
      if isEmpty h then false
      else
        let host := trim h in
        let host := match host with
                    | String c rest => if Ascii.eqb c "["%char then insideBrackets rest else stripPort host
                    | EmptyString => stripPort host
                    end in
        mem (toLowerCase (stripMapped host)) LOOPBACK_HOSTS
  end.

Definition range (a b : ascii) : re := Chr (mkSet false [(a, b)]).
Definition d13 : re := seq digit (seq (opt digit) (opt digit)).
Definition dotted : re := one "."%char.

Definition PRIVATE_LAN_PATTERNS : list re :=
  [seqs [lit "10."; d13; dotted; d13; dotted; d13];
   seqs [lit "100."; alts [Seq (one "6"%char) (range "4"%char "9"%char); Seq (range "7"%char "8"%char) digit; Seq (one "9"%char) digit;
                           Seq (one "1"%char) (Seq (range "0"%char "1"%char) digit); Seq (lit "12") (range "0"%char "7"%char)];
         dotted; d13; dotted; d13];
   seqs [lit "192.168."; d13; dotted; d13];
   seqs [lit "172."; alts [Seq (one "1"%char) (range "6"%char "9"%char); Seq (one "2"%char) digit; Seq (one "3"%char) (range "0"%char "1"%char)];
         dotted; d13; dotted; d13];
   seqs [one "f"%char; range "c"%char "d"%char; rep 2 (Chr (mkSet false [("0"%char, "9"%char); ("a"%char, "f"%char)])); one ":"%char; anything];
   seqs [lit "fe80:"; anything]]%list.

Definition isPrivateLanHost (hostHeader : option string) : bool :=
  match hostHeader with
  | None => false
  | Some h =>
      if isEmpty h then false
      else
        let host := trim h in
        let host := match host with
                    | String c rest => if Ascii.eqb c "["%char then insideBrackets rest else host
                    | EmptyString => host
                    end in
        let host := toLowerCase (stripPort (stripMapped host)) in
        existsb (fun r => reTest r host) PRIVATE_LAN_PATTERNS
  end.

Inductive locality := Loopback | Lan | Remote.

#[export] Instance locality_eq_dec : EqDecision locality.
Proof. solve_decision. Defined.

Definition classifyHostLocality (ip : option string) : locality :=
  match ip with
  | None => Remote
  | Some i => if isEmpty i then Remote else if isLoopbackHost ip then Loopback else if isPrivateLanHost ip then Lan else Remote
  end.

(** ** Prefixes *)

Lemma startsWith_spec s p : startsWith s p = true <-> exists t, s = p +:+ t.
Proof.
  unfold startsWith. split.
  - revert s. induction p as [|c p IH]; intros s H; [by exists s|]. destruct s as [|d s]; [done|]. cbn in H.
    destruct (ascii_dec c d) as [->|]; [|done]. destruct (IH s H) as [t ->]. by exists t.
  - intros [t ->]. apply prefix_append.
Qed.

Lemma startsWith_trans a b c : startsWith a b = true -> startsWith b c = true -> startsWith a c = true.
Proof. rewrite !startsWith_spec. intros [t ->] [u ->]. exists (u +:+ t). apply append_assoc. Qed.

(** Two prefixes of one text are comparable. *)
Lemma prefixes_comparable s p q :
  startsWith s p = true -> startsWith s q = true -> startsWith p q = true \/ startsWith q p = true.
Proof.
  rewrite !startsWith_spec. intros [t ->] [u H]. revert q u H. induction p as [|c p IH]; intros q u H.
  - right. by exists q.
  - destruct q as [|d q]; [left; by exists (String c p)|]. injection H as -> H.
    destruct (IH q u H) as [[v ->]|[v ->]]; [left|right]; by exists v.
Qed.

Lemma under_spec path p : under path p = startsWith path p.
Proof.
  unfold under. destruct (String.eqb_spec path p) as [->|]; [|done]. symmetry. apply startsWith_spec. exists EmptyString. by rewrite append_nil_r.
Qed.

Lemma under_existsb path l l' :
  forallb (fun p => existsb (under p) l') l = true -> existsb (under path) l = true -> existsb (under path) l' = true.
Proof.
  rewrite forallb_forall. intros H (p & Hp & Hu)%existsb_exists. destruct (proj1 (existsb_exists _ _) (H p Hp)) as (q & Hq & Hpq).
  apply existsb_exists. exists q. split; [done|]. rewrite under_spec in *. by eapply startsWith_trans.
Qed.

(** ** The spawn-capable surface *)

Definition spawnCapable (path : string) : bool :=
  existsb (under path) SPAWN_CAPABLE_PREFIXES || existsb (fun r => reTest r path) SPAWN_CAPABLE_PATTERNS.

(** No bypass list, whatever the database holds, opens a spawn-capable path. *)
Lemma spawn_never_bypassable snapshot path :
  spawnCapable path = true -> isLocalOnlyBypassableByManageScope snapshot path = false.
Proof.
  unfold spawnCapable, isLocalOnlyBypassableByManageScope. intros H. case_if; [done|]. rewrite orb_false_r in H.
  case_if; [done|]. apply existsb_exists in H as (spawn & Hin & Hs). rewrite under_spec in Hs.
  destruct (existsb _ (s_prefixes snapshot)) eqn:E; [|done]. exfalso. apply existsb_exists in E as (p & _ & Hp).
  destruct (existsb (spawnRelated p) SPAWN_CAPABLE_PREFIXES) eqn:Er; [done|]. rewrite under_spec in Hp.
  assert (existsb (spawnRelated p) SPAWN_CAPABLE_PREFIXES = true) as Hr; [|congruence].
  apply existsb_exists. exists spawn. split; [done|]. unfold spawnRelated.
  destruct (prefixes_comparable path p spawn Hp Hs) as [-> | ->]; by rewrite ?orb_true_r.
Qed.

(** Every spawn-capable path is local-only. *)
Lemma spawn_local_only path : spawnCapable path = true -> isLocalOnlyPath path None = true.
Proof.
  unfold spawnCapable, isLocalOnlyPath. intros [H|H]%orb_true_iff; apply orb_true_iff.
  - left. revert H. apply under_existsb. vm_compute. reflexivity.
  - apply existsb_exists in H as (r & Hr & Ht).
    destruct (decide (r ∈ LOCAL_ONLY_API_PATTERNS)) as [Hl|Hl].
    + right. apply existsb_exists. exists r. split; [by apply list_elem_of_In|done].
    + left. assert (r = seq (lit "/api/providers/cursor/agent-availability") (opt (one slash))) as ->.
      { clear Ht. apply list_elem_of_In in Hr. revert Hr Hl. unfold SPAWN_CAPABLE_PATTERNS.
        rewrite !elem_of_cons, elem_of_nil. intros [->|[->|[->|[->|[->|[->|[]]]]]]] Hl; try reflexivity; exfalso; apply Hl;
          apply (bool_decide_unpack _); vm_compute; exact I. }
      apply reTest_spec, seq_spec in Ht as (s & t & -> & ->%matches_lit & _).
      apply existsb_exists. exists "/api/providers/cursor/agent-availability". split.
      * apply list_elem_of_In, (bool_decide_unpack _). vm_compute. exact I.
      * rewrite under_spec. apply startsWith_spec. by exists t.
Qed.

Lemma isLocalOnlyPath_method path m :
  isLocalOnlyPath path None = true -> isLocalOnlyPath path m = false ->
  exists meth, m = Some meth /\ mem (toUpperCase meth) SAFE_METHODS = true /\ mem path LOCAL_ONLY_API_GET_EXEMPTIONS = true.
Proof.
  unfold isLocalOnlyPath. intros H1 H2. destruct m as [meth|]; [|congruence]. exists meth. split; [done|].
  destruct (_ && _ && _) eqn:E in H2; [|congruence]. apply andb_true_iff in E as [[_ ?]%andb_true_iff ?]. done.
Qed.

(** ** Private networks *)

Definition dec (n : nat) : string := pretty n.
(** An address in dotted decimal. *)
Definition dottedQuad (a b c d : nat) : string :=
  (dec a +:+ ".") +:+ ((dec b +:+ ".") +:+ ((dec c +:+ ".") +:+ dec d)).

Fixpoint allChars (p : ascii -> bool) (s : string) : bool :=
  match s with EmptyString => true | String c s => p c && allChars p s end.

Definition digitOrDot (c : ascii) : bool := inSet (mkSet false [("0"%char, "9"%char); ("."%char, "."%char)]) c.

Lemma allChars_app p a b : allChars p (a +:+ b) = allChars p a && allChars p b.
Proof. induction a as [|c a IH]; [done|]. change (p c && allChars p (a +:+ b) = p c && allChars p a && allChars p b). by rewrite IH, andb_assoc. Qed.

Lemma octets_forall (P : nat -> bool) : forallb P (List.seq 0 256) = true -> forall n, (n < 256)%nat -> P n = true.
Proof. intros H n Hn. rewrite forallb_forall in H. apply H, in_seq. lia. Qed.

#[local] Notation octet := (fun n : nat => (n < 256)%nat).

Definition T1 : re := d13.
Definition T2 : re := seqs [d13; dotted; d13]%list.
Definition T3 : re := seqs [d13; dotted; d13; dotted; d13]%list.
(** What follows the first octet of the second and of the fourth pattern. *)
Definition after100 : re := Eval vm_compute in derivs "100." (nth 1 PRIVATE_LAN_PATTERNS Void).
Definition after172 : re := Eval vm_compute in derivs "172." (nth 3 PRIVATE_LAN_PATTERNS Void).
Definition after192 : re := Eval vm_compute in derivs "192." (nth 2 PRIVATE_LAN_PATTERNS Void).

(** The pattern that an octet leaves of another. *)
Definition leaves (r : re) (f : nat -> re) : bool := forallb (fun n => bool_decide (derivs (dec n +:+ ".") r = f n)) (List.seq 0 256).

Lemma leaves_spec r f n s : leaves r f = true -> (n < 256)%nat -> reTest r ((dec n +:+ ".") +:+ s) = reTest (f n) s.
Proof.
  intros H Hn. rewrite reTest_app. f_equal. apply (bool_decide_unpack _), Is_true_true.
  exact (octets_forall (fun n => bool_decide (derivs (dec n +:+ ".") r = f n)) H n Hn).
Qed.

Lemma lan_patterns :
  forall i, (i < 6)%nat -> leaves (nth i PRIVATE_LAN_PATTERNS Void)
    (fun n => match i with
              | 0 => if Nat.eqb n 10 then T3 else Void
              | 1 => if Nat.eqb n 100 then after100 else Void
              | 2 => if Nat.eqb n 192 then after192 else Void
              | 3 => if Nat.eqb n 172 then after172 else Void
              | _ => Void
              end%nat) = true.
Proof. intros i Hi. do 6 (destruct i as [|i]; [vm_compute; reflexivity|]). lia. Qed.

Lemma lan_second :
  leaves T3 (fun _ => T2) = true /\
  leaves after100 (fun n => if Nat.leb 64 n && Nat.leb n 127 then T2 else Void) = true /\
  leaves after192 (fun n => if Nat.eqb n 168 then T2 else Void) = true /\
  leaves after172 (fun n => if Nat.leb 16 n && Nat.leb n 31 then T2 else Void) = true /\
  leaves T2 (fun _ => T1) = true /\ leaves Void (fun _ => Void) = true.
Proof. split_and!; vm_compute; reflexivity. Qed.

Lemma last_octet n : octet n -> reTest T1 (dec n) = true.
Proof. intros H. exact (octets_forall (fun n => reTest T1 (dec n)) ltac:(vm_compute; reflexivity) n H). Qed.

Lemma reTest_void s : reTest Void s = false.
Proof. unfold reTest. by rewrite derivs_void. Qed.

Lemma dec_chars n : octet n -> allChars digitOrDot (dec n) = true.
Proof. exact (octets_forall (fun n => allChars digitOrDot (dec n)) ltac:(vm_compute; reflexivity) n). Qed.

Lemma dottedQuad_chars a b c d : octet a -> octet b -> octet c -> octet d -> allChars digitOrDot (dottedQuad a b c d) = true.
Proof. intros Ha Hb Hc Hd. unfold dottedQuad. rewrite !allChars_app, !dec_chars by done. reflexivity. Qed.

(** ** Text of digits and dots is its own host *)

Lemma digitOrDot_range c : digitOrDot c = true -> (46 <= N_of_ascii c <= 57)%N.
Proof.
  unfold digitOrDot, inSet. cbn [existsb ranges neg]. unfold inRange. cbn [fst snd].
  change (N_of_ascii "0") with 48%N. change (N_of_ascii "9") with 57%N. change (N_of_ascii ".") with 46%N.
  rewrite orb_false_r. intros [[?%N.leb_le ?%N.leb_le]%andb_true_iff|[?%N.leb_le ?%N.leb_le]%andb_true_iff]%orb_true_iff; lia.
Qed.

Lemma digitOrDot_ne c d : digitOrDot c = true -> (N_of_ascii d < 46 \/ 57 < N_of_ascii d)%N -> Ascii.eqb c d = false.
Proof. intros Hc%digitOrDot_range Hd. destruct (Ascii.eqb_spec c d) as [->|]; [lia|done]. Qed.

Lemma digits_noSpace s : allChars digitOrDot s = true -> noSpace s = true.
Proof.
  induction s as [|c s IH]; [done|]. cbn [allChars noSpace toLowerCase countChar]. intros [Hc Hs]%andb_true_iff. rewrite IH, andb_true_r by done.
  apply digitOrDot_range in Hc. unfold isSpace. rewrite negb_true_iff, orb_false_iff, andb_false_iff, !N.leb_gt, N.eqb_neq. lia.
Qed.

Lemma digits_lower s : allChars digitOrDot s = true -> toLowerCase s = s.
Proof.
  induction s as [|c s IH]; [done|]. cbn [allChars noSpace toLowerCase countChar]. intros [Hc Hs]%andb_true_iff. rewrite IH by done. f_equal.
  apply digitOrDot_range in Hc. unfold lowerAscii. replace (65 <=? N_of_ascii c)%N with false; [done|]. symmetry. apply N.leb_gt. lia.
Qed.

Lemma digits_noColon s : allChars digitOrDot s = true -> countChar ":" s = O.
Proof.
  induction s as [|c s IH]; [done|]. cbn [allChars noSpace toLowerCase countChar]. intros [Hc Hs]%andb_true_iff.
  rewrite (Ascii.eqb_sym ":" c), (digitOrDot_ne c ":" Hc) by (vm_compute; auto). auto.
Qed.

Lemma digits_unmapped s : allChars digitOrDot s = true -> stripMapped s = s.
Proof.
  destruct s as [|c s]; [done|]. cbn [allChars]. intros [Hc _]%andb_true_iff. unfold stripMapped.
  cbn [String.substring toLowerCase]. replace (lowerAscii c) with c; [|].
  - cbn [String.eqb]. by rewrite (digitOrDot_ne c ":" Hc) by (vm_compute; auto).
  - apply digitOrDot_range in Hc. unfold lowerAscii. replace (65 <=? N_of_ascii c)%N with false; [done|]. symmetry. apply N.leb_gt. lia.
Qed.

Lemma privateLan_digits s : allChars digitOrDot s = true -> s <> EmptyString ->
  isPrivateLanHost (Some s) = existsb (fun r => reTest r s) PRIVATE_LAN_PATTERNS.
Proof.
  intros Hs Hne. unfold isPrivateLanHost. destruct s as [|c s]; [done|]. cbn [isEmpty].
  destruct (noSpace_trimmed (String c s) (digits_noSpace _ Hs) ltac:(done)) as [-> _].
  pose proof Hs as [Hc _]%andb_true_iff. rewrite (digitOrDot_ne c "[" Hc) by (vm_compute; auto).
  rewrite digits_unmapped by done. unfold stripPort. rewrite digits_noColon by done. cbn [Nat.eqb]. by rewrite digits_lower.
Qed.

(** An IPv4 peer counts as private exactly when it lies in 10.0.0.0/8,
    172.16.0.0/12, 192.168.0.0/16 or 100.64.0.0/10: the patterns over the text of
    an address agree with the ranges of its octets. *)
Theorem private_lan_spec a b c d :
  (a < 256)%nat -> (b < 256)%nat -> (c < 256)%nat -> (d < 256)%nat ->
  isPrivateLanHost (Some (dottedQuad a b c d)) =
    (Nat.eqb a 10 || (Nat.eqb a 172 && (Nat.leb 16 b && Nat.leb b 31)) || (Nat.eqb a 192 && Nat.eqb b 168) ||
     (Nat.eqb a 100 && (Nat.leb 64 b && Nat.leb b 127))).
Proof.
  intros Ha Hb Hc Hd. destruct lan_second as (L3 & L100 & L192 & L172 & L2 & LV).
  rewrite privateLan_digits; [|by apply dottedQuad_chars|].
  2: { unfold dottedQuad. intros E%(f_equal String.length). rewrite !append_length in E. cbn in E. lia. }
  change (existsb (fun r => reTest r (dottedQuad a b c d)) PRIVATE_LAN_PATTERNS)
    with (reTest (nth 0 PRIVATE_LAN_PATTERNS Void) (dottedQuad a b c d) || (reTest (nth 1 PRIVATE_LAN_PATTERNS Void) (dottedQuad a b c d) ||
      (reTest (nth 2 PRIVATE_LAN_PATTERNS Void) (dottedQuad a b c d) || (reTest (nth 3 PRIVATE_LAN_PATTERNS Void) (dottedQuad a b c d) ||
      (reTest (nth 4 PRIVATE_LAN_PATTERNS Void) (dottedQuad a b c d) || (reTest (nth 5 PRIVATE_LAN_PATTERNS Void) (dottedQuad a b c d) || false)))))).
  unfold dottedQuad. rewrite (leaves_spec _ _ a _ (lan_patterns 0 ltac:(lia)) Ha), (leaves_spec _ _ a _ (lan_patterns 1 ltac:(lia)) Ha),
    (leaves_spec _ _ a _ (lan_patterns 2 ltac:(lia)) Ha), (leaves_spec _ _ a _ (lan_patterns 3 ltac:(lia)) Ha),
    (leaves_spec _ _ a _ (lan_patterns 4 ltac:(lia)) Ha), (leaves_spec _ _ a _ (lan_patterns 5 ltac:(lia)) Ha).
  assert (forall r, reTest (if r : bool then T3 else Void) ((dec b +:+ ".") +:+ ((dec c +:+ ".") +:+ dec d)) = r) as HT3.
  { intros []; [|apply reTest_void]. by rewrite (leaves_spec _ _ b _ L3 Hb), (leaves_spec _ _ c _ L2 Hc), last_octet. }
  assert (forall (r : bool) (s : string), reTest (if r then T2 else Void) ((dec c +:+ ".") +:+ dec d) = r) as HT2.
  { intros [] _; [|apply reTest_void]. by rewrite (leaves_spec _ _ c _ L2 Hc), last_octet. }
  assert (forall q (r : bool) f, leaves q f = true -> reTest (f b) ((dec c +:+ ".") +:+ dec d) = r -> forall e : bool,
    reTest (if e then q else Void) ((dec b +:+ ".") +:+ ((dec c +:+ ".") +:+ dec d)) = e && r) as Hq.
  { intros q r f Hl Hr []; [|apply reTest_void]. by rewrite (leaves_spec _ _ b _ Hl Hb), Hr. }
  rewrite HT3, (Hq _ _ _ L100 (HT2 _ EmptyString)), (Hq _ _ _ L192 (HT2 _ EmptyString)), (Hq _ _ _ L172 (HT2 _ EmptyString)), !reTest_void, !orb_false_r.
  destruct (Nat.eqb a 10), (Nat.eqb a 100 && _), (Nat.eqb a 192 && _), (Nat.eqb a 172 && _); reflexivity.
Qed.

Lemma private_lan_spec_witness : isPrivateLanHost (Some "100.64.7.1") = true.
Proof. exact (private_lan_spec 100 64 7 1 ltac:(lia) ltac:(lia) ltac:(lia) ltac:(lia)). Defined.
