(* ===== verification/DashboardUrls.v ===== *)
(** * Dashboard addresses: [src/shared/constants/dashboardUrls.ts]

    The visible address of a dashboard page is made of its menu area and its
    label; the page itself lives under [/dashboard].  The table of rewrites is
    derived from the menu ([sidebarNav.ts]) and a list of overrides, and one
    function translates a visible address to the page it is served from, before
    anything is authorised.

    Text is the UTF-8 of the address; changing case concerns ASCII letters. *)
From Stdlib Require Import String Ascii.
From S2P Require Import Prelude JsMap JsString RegExp RouteGuard.
#[local] Open Scope string_scope.
#[local] Open Scope list_scope.

(** ** The menu *)

Record NavTab := mkTab { href : string; children : list string }.
Record NavSection := mkSection { nav_id : string; entries : list (list NavTab) }.

Definition nav_home : NavSection :=
  (mkSection "home"
   [[mkTab "/dashboard/analytics" [];
    mkTab "/home" [];
    mkTab "/dashboard/analytics/combo-health" [];
    mkTab "/dashboard/analytics/utilization" [];
    mkTab "/dashboard/analytics/search" [];
    mkTab "/dashboard/analytics/evals" [];
    mkTab "/dashboard/analytics/cache-health" [];
    mkTab "/dashboard/analytics/route-trace" [];
    mkTab "/dashboard/provider-stats" []];
    [mkTab "/dashboard/setup" []]])%string.

Definition nav_proxy : NavSection :=
  (mkSection "proxy"
   [[mkTab "/dashboard/endpoint" ["/dashboard/mcp";
        "/dashboard/a2a"];
    mkTab "/dashboard/api-manager" [];
    mkTab "/dashboard/api-manager/routing" []];
    [mkTab "/dashboard/providers" [];
    mkTab "/dashboard/free-tiers" [];
    mkTab "/dashboard/free-provider-rankings" [];
    mkTab "/dashboard/radar" [];
    mkTab "/dashboard/providers/services" [];
    mkTab "/dashboard/media-providers" [];
    mkTab "/dashboard/relay" []];
    [mkTab "/dashboard/models" []];
    [mkTab "/dashboard/combos" [];
    mkTab "/dashboard/combos/live" [];
    mkTab "/dashboard/combos/playground" []]])%string.

Definition nav_optimize : NavSection :=
  (mkSection "optimize"
   [[mkTab "/dashboard/context/settings" [];
    mkTab "/dashboard/context/engines" ["/dashboard/context/caveman";
        "/dashboard/context/rtk";
        "/dashboard/context/headroom";
        "/dashboard/context/session-dedup";
        "/dashboard/context/ccr";
        "/dashboard/context/llmlingua";
        "/dashboard/context/lite";
        "/dashboard/context/aggressive";
        "/dashboard/context/ultra";
        "/dashboard/context/omniglyph"];
    mkTab "/dashboard/context/combos" [];
    mkTab "/dashboard/compression/studio" [];
    mkTab "/dashboard/compression/exclusions" [];
    mkTab "/dashboard/compression/live" [];
    mkTab "/dashboard/analytics/compression" []];
    [mkTab "/dashboard/cache" [];
    mkTab "/dashboard/cache/media" []];
    [mkTab "/dashboard/skills" [];
    mkTab "/dashboard/agent-skills" [];
    mkTab "/dashboard/skills/styles" []];
    [mkTab "/dashboard/memory" []]])%string.

Definition nav_agents : NavSection :=
  (mkSection "agents"
   [[mkTab "/dashboard/cli-code" [];
    mkTab "/dashboard/cli-agents" [];
    mkTab "/dashboard/acp-agents" [];
    mkTab "/dashboard/cloud-agents" []];
    [mkTab "/dashboard/conductor" [];
    mkTab "/dashboard/orchestration" []];
    [mkTab "/dashboard/tools/agent-bridge" []];
    [mkTab "/dashboard/plugins" []]])%string.

Definition nav_observe : NavSection :=
  (mkSection "observe"
   [[mkTab "/dashboard/costs" [];
    mkTab "/dashboard/costs/pricing" [];
    mkTab "/dashboard/costs/budget" [];
    mkTab "/dashboard/quota" [];
    mkTab "/dashboard/costs/quota-share" []];
    [mkTab "/dashboard/logs" [];
    mkTab "/dashboard/logs/proxy" [];
    mkTab "/dashboard/logs/console" [];
    mkTab "/dashboard/logs/timeline" [];
    mkTab "/dashboard/conversations" [];
    mkTab "/dashboard/activity" []];
    [mkTab "/dashboard/audit" [];
    mkTab "/dashboard/audit/mcp" [];
    mkTab "/dashboard/audit/a2a" []];
    [mkTab "/dashboard/health" [];
    mkTab "/dashboard/runtime" [];
    mkTab "/dashboard/resilience/connections" []];
    [mkTab "/dashboard/webhooks" [];
    mkTab "/dashboard/log-export" [];
    mkTab "/dashboard/usage-sinks" [];
    mkTab "/dashboard/api-endpoints" []]])%string.

Definition nav_tools : NavSection :=
  (mkSection "tools"
   [[mkTab "/dashboard/playground" []];
    [mkTab "/dashboard/translator" []];
    [mkTab "/dashboard/search-tools" []];
    [mkTab "/dashboard/tools/traffic-inspector" []];
    [mkTab "/dashboard/discovery" []]])%string.

Definition nav_access : NavSection :=
  (mkSection "access"
   [[mkTab "/dashboard/tenants" []];
    [mkTab "/dashboard/users" []];
    [mkTab "/dashboard/roles" []]])%string.

Definition nav_system : NavSection :=
  (mkSection "system"
   [[mkTab "/dashboard/settings/network" []];
    [mkTab "/dashboard/settings/general" [];
    mkTab "/dashboard/settings/appearance" [];
    mkTab "/dashboard/settings/prompts" [];
    mkTab "/dashboard/settings/ai" [];
    mkTab "/dashboard/settings/routing" [];
    mkTab "/dashboard/settings/resilience" [];
    mkTab "/dashboard/settings/security" [];
    mkTab "/dashboard/settings/advanced" [];
    mkTab "/dashboard/settings/modality-bridge" [];
    mkTab "/dashboard/settings/access-tokens" [];
    mkTab "/dashboard/settings/feature-flags" [];
    mkTab "/dashboard/settings/cache" [];
    mkTab "/dashboard/settings/sidebar" [];
    mkTab "/dashboard/system/proxy" []];
    [mkTab "/docs" []];
    [mkTab "https://github.com/reddb-io/red-router/issues" []];
    [mkTab "/dashboard/chaos" []];
    [mkTab "/dashboard/batch" [];
    mkTab "/dashboard/batch/files" []]])%string.

Definition SIDEBAR_NAV_SECTIONS : list NavSection :=
  [nav_home; nav_proxy; nav_optimize; nav_agents; nav_observe; nav_tools; nav_access; nav_system].

Definition DASHBOARD_URL_OVERRIDES : list (string * string) :=
  ([("/proxy/keys", "/dashboard/api-manager");
   ("/proxy/providers/free-tiers", "/dashboard/free-tiers");
   ("/proxy/providers/rankings", "/dashboard/free-provider-rankings");
   ("/proxy/providers/radar", "/dashboard/radar");
   ("/proxy/combos/test", "/dashboard/combos/playground");
   ("/optimize/token-saver", "/dashboard/context/settings");
   ("/optimize/token-saver/engines", "/dashboard/context/engines");
   ("/optimize/token-saver/engines/caveman", "/dashboard/context/caveman");
   ("/optimize/token-saver/engines/rtk", "/dashboard/context/rtk");
   ("/optimize/token-saver/engines/headroom", "/dashboard/context/headroom");
   ("/optimize/token-saver/engines/session-dedup", "/dashboard/context/session-dedup");
   ("/optimize/token-saver/engines/ccr", "/dashboard/context/ccr");
   ("/optimize/token-saver/engines/llmlingua", "/dashboard/context/llmlingua");
   ("/optimize/token-saver/engines/lite", "/dashboard/context/lite");
   ("/optimize/token-saver/engines/aggressive", "/dashboard/context/aggressive");
   ("/optimize/token-saver/engines/ultra", "/dashboard/context/ultra");
   ("/optimize/token-saver/engines/omniglyph", "/dashboard/context/omniglyph");
   ("/optimize/token-saver/combos", "/dashboard/context/combos");
   ("/optimize/token-saver/studio", "/dashboard/compression/studio");
   ("/optimize/token-saver/exclusions", "/dashboard/compression/exclusions");
   ("/optimize/token-saver/live", "/dashboard/compression/live");
   ("/optimize/token-saver/analytics", "/dashboard/analytics/compression");
   ("/optimize/token-saver/context", "/dashboard/context");
   ("/optimize/token-saver/compression", "/dashboard/compression");
   ("/observe/costs/quota", "/dashboard/quota");
   ("/observe/health/runtime", "/dashboard/runtime");
   ("/observe/health/connections", "/dashboard/resilience/connections");
   ("/observe/logs/conversations", "/dashboard/conversations");
   ("/observe/logs/activity", "/dashboard/activity");
   ("/agents/bridge", "/dashboard/tools/agent-bridge");
   ("/tools/inspector", "/dashboard/tools/traffic-inspector");
   ("/system/settings/storage", "/dashboard/settings/general");
   ("/system/network", "/dashboard/settings/network");
   ("/system/outbound-proxies", "/dashboard/system/proxy")])%string.

Definition NAMESPACE_SEGMENTS : list string := ["tools"; "system"]%string.
Definition DASHBOARD_ROOT : string := "/dashboard".

(** ** The table *)

Record DashboardUrlRule := mkRule { area : string; oldPrefix : string; newPrefix : string }.

Definition splitSegments (path : string) : list string := List.filter (fun w => negb (isEmpty w)) (split slash path).

Definition strcat (ws : list string) : string := join "/" ws.

(** The text before the first [?] or [#]. *)
Fixpoint beforeQuery (s : string) : string :=
  match s with
  | EmptyString => EmptyString
  | String c s => if Ascii.eqb c "?"%char || Ascii.eqb c "#"%char then EmptyString else String c (beforeQuery s)
  end.

(** [slice(n)]. *)
Definition sliceFrom (n : nat) (s : string) : string := String.substring n (String.length s - n) s.

Record Page := mkPage { p_area : string; segs : list string }.

Definition pagesOf (sections : list NavSection) : list Page :=
  flat_map (fun section =>
    flat_map (fun entry =>
      flat_map (fun tab =>
        flat_map (fun h =>
          if startsWith h (DASHBOARD_ROOT +:+ "/") then
            match splitSegments (beforeQuery (sliceFrom (String.length DASHBOARD_ROOT) h)) with
            | [] => []
            | segs => [mkPage (nav_id section) segs]
            end
          else []) (href tab :: children tab)) entry) (entries section)) sections.

(** Pages by their first segment, in the order of first appearance. *)
Definition groupPages (pages : list Page) : jsmap string (list Page) :=
  foldl (fun m p => match segs p with
                    | first :: _ => mset first (orElse (mget first m) [] ++ [p]) m
                    | [] => m
                    end) [] pages.

Record DraftRule := mkDraft { d_area : string; d_old : list string; d_next : list string }.

Definition addDraft (d : DraftRule) (rules : jsmap string DraftRule) : jsmap string DraftRule :=
  match mget (strcat (d_old d)) rules with Some _ => rules | None => mset (strcat (d_old d)) d rules end.

(** All the pages of a group belong to one area. *)
Definition oneArea (group : list Page) : option string :=
  match group with
  | [] => None
  | p :: rest => if forallb (fun q => String.eqb (p_area q) (p_area p)) rest then Some (p_area p) else None
  end.

Definition draftsOfGroup (first : string) (group : list Page) : list DraftRule :=
  let namespace := mem first NAMESPACE_SEGMENTS in
  match (if namespace then None else oneArea group) with
  | Some a => [mkDraft a [first] [first]]
  | None => map (fun p => mkDraft (p_area p) (segs p) (if namespace && Nat.ltb 1 (length (segs p)) then tail (segs p) else segs p)) group
  end.

Definition draftRules (pages : list Page) : list DraftRule :=
  map snd (foldl (fun m '(first, group) => foldl (fun m d => addDraft d m) m (draftsOfGroup first group)) [] (groupPages pages)).

Fixpoint isPrefixOf (p s : list string) : bool :=
  match p, s with
  | [], _ => true
  | x :: p, y :: s => String.eqb x y && isPrefixOf p s
  | _ :: _, [] => false
  end.

(** The parent implies the rule; a parent is a shorter rule, hence another one. *)
Definition impliedBy (rule parent : DraftRule) : bool :=
  String.eqb (d_area parent) (d_area rule) && Nat.ltb (length (d_old parent)) (length (d_old rule)) &&
  isPrefixOf (d_old parent) (d_old rule) &&
  String.eqb (strcat (d_next parent ++ drop (length (d_old parent)) (d_old rule))) (strcat (d_next rule)).

Definition keptRules (all : list DraftRule) : list DraftRule :=
  List.filter (fun rule => negb (existsb (impliedBy rule) all)) all.

(** More segments first; then by the text, whose characters are small letters,
    digits, hyphens and slashes. *)
Definition ruleBefore (a b : DashboardUrlRule) : bool :=
  let na := length (splitSegments (oldPrefix a)) in
  let nb := length (splitSegments (oldPrefix b)) in
  Nat.ltb nb na || (Nat.eqb na nb && match String.compare (oldPrefix a) (oldPrefix b) with Gt => false | _ => true end).

Fixpoint insertRule {A} (before : A -> A -> bool) (x : A) (l : list A) : list A :=
  match l with
  | [] => [x]
  | y :: l => if before x y then x :: y :: l else y :: insertRule before x l
  end.

(** A stable sort. *)
Definition sortRules {A} (before : A -> A -> bool) (l : list A) : list A := foldr (insertRule before) [] l.

Definition deriveDashboardUrlRules (sections : list NavSection) (overrides : list (string * string)) : list DashboardUrlRule :=
  let kept := keptRules (draftRules (pagesOf sections)) in
  let overridden := map snd overrides in
  let explicit := map (fun '(shown, page) => mkRule (orElse (head (splitSegments shown)) EmptyString) page shown) overrides in
  let derived := map (fun r => mkRule (d_area r) (DASHBOARD_ROOT +:+ "/" +:+ strcat (d_old r)) ("/" +:+ d_area r +:+ "/" +:+ strcat (d_next r))) kept in
  sortRules ruleBefore (List.filter (fun r => negb (mem (oldPrefix r) overridden)) derived ++ explicit).

Record CompiledRule := mkCompiled { rule : DashboardUrlRule; oldSegs : list string; newSegs : list string }.

Record Compiled := mkTable { rules : list DashboardUrlRule; byOld : list CompiledRule; byNew : list CompiledRule; areas : list string }.

(** [None] is the error of a bad rule. *)
Definition table (sections : list NavSection) (overrides : list (string * string)) : option Compiled :=
  let rules := deriveDashboardUrlRules sections overrides in
  let areaIds := map nav_id sections in
  if forallb (fun r => mem (area r) areaIds && startsWith (oldPrefix r) (DASHBOARD_ROOT +:+ "/")) rules then
    let withSegs := map (fun r => mkCompiled r (splitSegments (oldPrefix r)) (splitSegments (newPrefix r))) rules in
    Some (mkTable rules withSegs
      (sortRules (fun a b => Nat.leb (length (newSegs b)) (length (newSegs a))) withSegs) areaIds)
  else None.

(** The table of the menu. *)
Definition theTable : Compiled :=
  Eval vm_compute in match table SIDEBAR_NAV_SECTIONS DASHBOARD_URL_OVERRIDES with Some t => t | None => mkTable [] [] [] [] end.

(** ** Percent decoding *)

Definition hexValue (c : ascii) : option N :=
  let n := N_of_ascii c in
  if (48 <=? n)%N && (n <=? 57)%N then Some (n - 48)%N
  else if (65 <=? n)%N && (n <=? 70)%N then Some (n - 55)%N
  else if (97 <=? n)%N && (n <=? 102)%N then Some (n - 87)%N
  else None.

(** The byte of an escape at the start of the text. *)
Definition escapedByte (s : string) : option (N * string) :=
  match s with
  | String p (String a (String b rest)) =>
      if Ascii.eqb p "%"%char then
        match hexValue a, hexValue b with Some x, Some y => Some ((16 * x + y)%N, rest) | _, _ => None end
      else None
  | _ => None
  end.

(** The number of bytes of a code point, from its first byte. *)
Definition utf8Length (b : N) : option nat :=
  if (b <? 128)%N then Some 1%nat
  else if (194 <=? b)%N && (b <=? 223)%N then Some 2%nat
  else if (224 <=? b)%N && (b <=? 239)%N then Some 3%nat
  else if (240 <=? b)%N && (b <=? 244)%N then Some 4%nat
  else None.

(** The range of the second byte: no overlong form, no surrogate, nothing past
    U+10FFFF. *)
Definition secondByteOk (b1 b2 : N) : bool :=
  (128 <=? b2)%N && (b2 <=? 191)%N &&
  (if N.eqb b1 224 then 160 <=? b2 else if N.eqb b1 237 then b2 <=? 159
   else if N.eqb b1 240 then 144 <=? b2 else if N.eqb b1 244 then b2 <=? 143 else true)%N.

Fixpoint continuation (n : nat) (s : string) : option (string * string) :=
  match n with
  | O => Some (EmptyString, s)
  | S n => match escapedByte s with
           | Some (b, rest) =>
               if (128 <=? b)%N && (b <=? 191)%N then
                 match continuation n rest with Some (t, rest) => Some (String (ascii_of_N b) t, rest) | None => None end
               else None
           | None => None
           end
  end.

(** One escaped code point. *)
Definition escapedPoint (s : string) : option (string * string) :=
  match escapedByte s with
  | None => None
  | Some (b, rest) =>
      match utf8Length b with
      | None => None
      | Some 1%nat => Some (String (ascii_of_N b) EmptyString, rest)
      | Some n =>
          match escapedByte rest with
          | Some (b2, rest2) =>
              if secondByteOk b b2 then
                match continuation (n - 2) rest2 with
                | Some (t, rest3) => Some (String (ascii_of_N b) (String (ascii_of_N b2) t), rest3)
                | None => None
                end
              else None
          | None => None
          end
      end
  end.

Fixpoint decodeFuel (fuel : nat) (s : string) : option string :=
  match fuel, s with
  | _, EmptyString => Some EmptyString
  | O, _ => None
  | S fuel, String c rest =>
      if Ascii.eqb c "%"%char then
        match escapedPoint s with
        | Some (t, rest) => option_map (fun u => t +:+ u) (decodeFuel fuel rest)
        | None => None
        end
      else option_map (String c) (decodeFuel fuel rest)
  end.

(** [decodeURIComponent], with [None] for its error. *)
Definition safeDecode (segment : string) : option string := decodeFuel (String.length segment) segment.

(** ** Addresses *)

Definition backslash : ascii := ascii_of_nat 92.

Fixpoint skipSlashes (s : string) : string :=
  match s with
  | String c rest => if Ascii.eqb c slash then skipSlashes rest else s
  | EmptyString => EmptyString
  end.

Definition firstSegment (s : string) : string := match splitFirst slash s with Some (a, _) => a | None => s end.

Section Table.
Context (T : Compiled).

Definition areaOf (pathname : string) : option string :=
  match pathname with
  | String c rest =>
      if Ascii.eqb c slash then
        match safeDecode (firstSegment (skipSlashes rest)) with
        | None => None
        | Some first => if mem (toLowerCase first) (areas T) then Some (toLowerCase first) else None
        end
      else None
  | EmptyString => None
  end.

Definition isAreaUrl (pathname : string) : bool := match areaOf pathname with Some _ => true | None => false end.

Definition controlChar (c : ascii) : bool := (N_of_ascii c <? 32)%N || (N_of_ascii c =? 127)%N.

Fixpoint anyChar (p : ascii -> bool) (s : string) : bool :=
  match s with EmptyString => false | String c s => p c || anyChar p s end.

Definition malformedSegment (raw : string) : bool :=
  match safeDecode raw with
  | None => true
  | Some d => String.eqb d "." || String.eqb d ".." || occurs slash d || occurs backslash d || anyChar controlChar d
  end.

Definition isMalformedAreaUrl (pathname : string) : bool :=
  match areaOf pathname with
  | None => false
  | Some _ => if occurs backslash pathname then true else existsb malformedSegment (split slash pathname)
  end.

(** The first rule of a list whose prefix starts the segments. *)
Definition firstRule (prefix : CompiledRule -> list string) (rs : list CompiledRule) (ws : list string) : option CompiledRule :=
  List.find (fun r => isPrefixOf (prefix r) ws) rs.

Definition canonicalDashboardPath (pathname : string) : string :=
  match areaOf pathname with
  | None => pathname
  | Some a =>
      if isMalformedAreaUrl pathname then pathname
      else
        let raw := splitSegments pathname in
        if String.eqb a "home" && Nat.eqb (length raw) 1 then "/home"
        else
          let decoded := map (fun segment => toLowerCase (orElse (safeDecode segment) segment)) raw in
          match firstRule newSegs (byNew T) decoded with
          | None => pathname
          | Some r =>
              match drop (length (newSegs r)) raw with
              | [] => oldPrefix (rule r)
              | tail => oldPrefix (rule r) +:+ "/" +:+ strcat tail
              end
          end
  end.

(** The position of a query or fragment splits the address. *)
Fixpoint fromQuery (s : string) : string :=
  match s with
  | EmptyString => EmptyString
  | String c rest => if Ascii.eqb c "?"%char || Ascii.eqb c "#"%char then s else fromQuery rest
  end.

Definition areaUrl (h : string) : string :=
  if negb (startsWith h (DASHBOARD_ROOT +:+ "/")) then h
  else
    let segs := splitSegments (beforeQuery h) in
    match firstRule oldSegs (byOld T) segs with
    | None => h
    | Some r =>
        newPrefix (rule r) +:+
        match drop (length (oldSegs r)) segs with [] => EmptyString | tail => "/" +:+ strcat tail end +:+ fromQuery h
    end.
End Table.

(** ** Reading back *)

Lemma safeDecode_plain s : occurs "%" s = false -> safeDecode s = Some s.
Proof.
  unfold safeDecode. induction s as [|c s IH]; [done|]. cbn [occurs String.length decodeFuel]. intros [Hc Hs]%orb_false_iff.
  rewrite Hc, IH by done. done.
Qed.

(** A text is empty or goes on with a slash. *)
Definition boundary (s : string) : Prop := s = EmptyString \/ exists t, s = String slash t.

Lemma firstSegment_app a s : occurs slash a = false -> boundary s -> firstSegment (a +:+ s) = a.
Proof.
  intros Ha [->|[t ->]]; unfold firstSegment.
  - rewrite append_nil_r. destruct (splitFirst slash a) as [[x y]|] eqn:E; [|done].
    apply splitFirst_Some in E as [-> _]. exfalso. clear -Ha. induction x as [|c x IH]; [done|].
    cbn [String.append occurs] in Ha. apply orb_false_iff in Ha as [_ Ha]. auto.
  - by rewrite splitFirst_app.
Qed.

Definition plainChar (c : ascii) : bool :=
  negb (Ascii.eqb c slash || Ascii.eqb c "%"%char || Ascii.eqb c backslash || Ascii.eqb c "?"%char || Ascii.eqb c "#"%char || controlChar c).

(** A segment that needs no escape and is not a dot segment. *)
Definition plainSeg (w : string) : bool :=
  negb (isEmpty w) && allChars plainChar w && negb (String.eqb w ".") && negb (String.eqb w "..").

Definition pathOf (ws : list string) : string := String slash (strcat ws).

Lemma plain_occurs k w : plainChar k = false -> allChars plainChar w = true -> occurs k w = false.
Proof.
  intros Hk. induction w as [|c w IH]; [done|]. cbn [allChars occurs]. intros [Hc Hw]%andb_true_iff. rewrite IH, orb_false_r by done.
  destruct (Ascii.eqb_spec c k) as [->|]; [congruence|done].
Qed.

Lemma plainSeg_spec w : plainSeg w = true -> isEmpty w = false /\ (forall k, plainChar k = false -> occurs k w = false) /\ malformedSegment w = false.
Proof.
  unfold plainSeg. intros H. to_prop. assert (forall k, plainChar k = false -> occurs k w = false) as Ho by (intros k Hk; by apply plain_occurs).
  split_and!; [done|done|]. unfold malformedSegment. rewrite safeDecode_plain by (by apply Ho).
  repeat match goal with H : String.eqb w _ = false |- _ => rewrite H; clear H end. rewrite !Ho by done. cbn [orb].
  match goal with H : allChars plainChar w = true |- _ => rename H into Ha end. clear -Ha. induction w as [|c w IH]; [done|].
  cbn [allChars] in Ha. apply andb_true_iff in Ha as [Hc Hw]. cbn [anyChar]. rewrite IH by done. unfold plainChar in Hc. to_prop. by rewrite orb_false_r.
Qed.

Lemma strcat_cons w ws : strcat (w :: ws) = match ws with [] => w | _ => w +:+ String slash (strcat ws) end.
Proof. by destruct ws. Qed.

Lemma strcat_app a b : a <> [] -> b <> [] -> strcat (a ++ b) = strcat a +:+ String slash (strcat b).
Proof.
  intros Ha Hb. induction a as [|x a IH]; [done|]. destruct a as [|y a].
  - cbn [app]. rewrite strcat_cons. by destruct b.
  - change ((x :: y :: a) ++ b) with (x :: (y :: a) ++ b). rewrite !strcat_cons, IH by done.
    change ((y :: a) ++ b) with (y :: (a ++ b)). cbv iota. by rewrite append_assoc.
Qed.

Lemma strcat_first w ws : exists t, strcat (w :: ws) = w +:+ t /\ boundary t.
Proof.
  rewrite strcat_cons. destruct ws as [|x ws].
  - exists EmptyString. rewrite append_nil_r. split; [done|by left].
  - eexists. split; [reflexivity|right; by eexists].
Qed.

Lemma occurs_strcat k ws : Ascii.eqb slash k = false -> (forall w, In w ws -> occurs k w = false) -> occurs k (strcat ws) = false.
Proof.
  intros Hk H. induction ws as [|w ws IH]; [done|]. rewrite strcat_cons. pose proof (H w (or_introl eq_refl)) as Hw.
  destruct ws as [|x ws]; [done|]. rewrite occurs_append, Hw. cbn [orb occurs]. rewrite Hk. apply IH. intros v Hv. apply H. by right.
Qed.

Lemma split_strcat ws : ws <> [] -> (forall w, In w ws -> occurs slash w = false) -> split slash (strcat ws) = ws.
Proof.
  intros Hne H. induction ws as [|w ws IH]; [done|]. rewrite strcat_cons. pose proof (H w (or_introl eq_refl)) as Hw. destruct ws as [|x ws].
  - clear -Hw. induction w as [|c w IH]; [done|]. cbn [occurs] in Hw. apply orb_false_iff in Hw as [Hc Hw]. cbn [split]. rewrite Hc, IH by done. done.
  - rewrite split_app by done. f_equal. apply IH; [done|]. intros v Hv. apply H. by right.
Qed.

Section Plain.
Context (ws : list string) (Hne : ws <> []) (Hplain : forallb plainSeg ws = true).

Lemma plain_in w : In w ws -> plainSeg w = true.
Proof. rewrite forallb_forall in Hplain. apply Hplain. Qed.

Lemma split_pathOf : split slash (pathOf ws) = EmptyString :: ws.
Proof.
  unfold pathOf. cbn [split]. rewrite Ascii.eqb_refl. f_equal. apply split_strcat; [done|].
  intros w Hw. by apply plainSeg_spec; [apply plain_in|].
Qed.

Lemma splitSegments_pathOf : splitSegments (pathOf ws) = ws.
Proof.
  unfold splitSegments. rewrite split_pathOf. cbn [List.filter isEmpty negb]. clear Hne. induction ws as [|w l IH]; [done|].
  cbn [forallb List.filter] in *. apply andb_true_iff in Hplain as [Hw Hl]. destruct (plainSeg_spec w Hw) as [-> _]. cbn [negb]. by rewrite IH.
Qed.

Lemma occurs_pathOf k : plainChar k = false -> Ascii.eqb slash k = false -> occurs k (pathOf ws) = false.
Proof.
  intros Hk Hs. unfold pathOf. cbn [occurs]. rewrite Hs. apply occurs_strcat; [done|]. intros w Hw. by apply plainSeg_spec; [apply plain_in|].
Qed.
End Plain.

Lemma isPrefixOf_spec p s : isPrefixOf p s = true <-> s = p ++ drop (length p) s.
Proof.
  split.
  - revert s. induction p as [|x p IH]; intros s H; [done|]. destruct s as [|y s]; [done|]. cbn in H |- *.
    apply andb_true_iff in H as [->%String.eqb_eq H]. f_equal. by apply IH.
  - intros ->. generalize (drop (length p) s). intros t. induction p as [|x p IH]; [done|]. cbn. by rewrite String.eqb_refl.
Qed.

Lemma beforeQuery_plain s : occurs "?" s = false -> occurs "#" s = false -> beforeQuery s = s /\ fromQuery s = EmptyString.
Proof.
  induction s as [|c s IH]; [done|]. cbn [occurs beforeQuery fromQuery]. intros [-> H1]%orb_false_iff [-> H2]%orb_false_iff. cbn [orb].
  destruct (IH H1 H2) as [-> ->]. done.
Qed.

(** What the table's rules are made of. *)
Definition goodRule (T : Compiled) (r : CompiledRule) : bool :=
  String.eqb (newPrefix (rule r)) (pathOf (newSegs r)) && String.eqb (oldPrefix (rule r)) (pathOf (oldSegs r)) &&
  forallb plainSeg (newSegs r) && Nat.leb 2 (length (newSegs r)) && Nat.leb 2 (length (oldSegs r)) &&
  match newSegs r with a :: _ => mem a (areas T) && String.eqb (toLowerCase a) a | [] => false end.

Lemma areaOf_pathOf T a ws : plainSeg a = true -> mem (toLowerCase a) (areas T) = true -> areaOf T (pathOf (a :: ws)) = Some (toLowerCase a).
Proof.
  intros Ha Hm. destruct (plainSeg_spec a Ha) as (Hne & Ho & _). destruct (strcat_first a ws) as (t & Ht & Hb).
  unfold pathOf, areaOf. rewrite Ascii.eqb_refl, Ht.
  assert (skipSlashes (a +:+ t) = a +:+ t) as ->.
  { destruct a as [|c a]; [done|]. pose proof (Ho slash eq_refl) as Hc. cbn [occurs] in Hc. apply orb_false_iff in Hc as [Hc _].
    change (skipSlashes (String c (a +:+ t)) = String c (a +:+ t)). cbn [skipSlashes]. by rewrite Hc. }
  rewrite firstSegment_app, safeDecode_plain, Hm by (try done; by apply Ho). done.
Qed.

Lemma pathOf_not_malformed T ws : ws <> [] -> forallb plainSeg ws = true -> isMalformedAreaUrl T (pathOf ws) = false.
Proof.
  intros Hne Hp. unfold isMalformedAreaUrl. destruct (areaOf T (pathOf ws)); [|done].
  rewrite (occurs_pathOf ws Hp) by done. rewrite (split_pathOf ws Hne Hp). cbn [existsb]. rewrite forallb_forall in Hp.
  change (malformedSegment EmptyString) with false. cbn [orb]. destruct (existsb _ ws) eqn:E; [|done].
  apply existsb_exists in E as (w & Hw & Hm). destruct (plainSeg_spec w (Hp w Hw)) as (_ & _ & H). congruence.
Qed.

(** The page a rule and a tail make. *)
Lemma canonical_pathOf T r tail :
  goodRule T r = true -> forallb plainSeg tail = true ->
  firstRule newSegs (byNew T) (map toLowerCase (newSegs r ++ tail)) = Some r ->
  canonicalDashboardPath T (pathOf (newSegs r ++ tail)) = pathOf (oldSegs r ++ tail).
Proof.
  unfold goodRule. intros H Ht Hf. to_prop. destruct (newSegs r) as [|a ns] eqn:En; [done|]. to_prop.
  repeat match goal with H : String.eqb _ _ = true |- _ => apply String.eqb_eq in H | H : Nat.leb _ _ = true |- _ => apply Nat.leb_le in H end.
  set (vs := (a :: ns) ++ tail) in *. assert (forallb plainSeg vs = true) as Hvs by (unfold vs; rewrite forallb_app; apply andb_true_iff; done).
  assert (vs <> []) as Hne by done. unfold canonicalDashboardPath. change vs with (a :: (ns ++ tail)) at 1.
  rewrite areaOf_pathOf by (try congruence; unfold vs in Hvs; cbn in Hvs; by apply andb_true_iff in Hvs as [? _]).
  rewrite pathOf_not_malformed, splitSegments_pathOf by done.
  assert (Nat.eqb (length vs) 1 = false) as -> by (apply Nat.eqb_neq; unfold vs; rewrite length_app; lia). rewrite andb_false_r.
  assert (map (fun segment => toLowerCase (orElse (safeDecode segment) segment)) vs = map toLowerCase vs) as ->.
  { apply map_ext_in. intros w Hw. rewrite forallb_forall in Hvs. destruct (plainSeg_spec w (Hvs w Hw)) as (_ & Ho & _). by rewrite safeDecode_plain by (by apply Ho). }
  rewrite Hf, En. unfold vs. rewrite drop_app_length.
  match goal with H : oldPrefix (rule r) = _ |- _ => rewrite H end. destruct tail as [|w ws]; [by rewrite app_nil_r|].
  unfold pathOf. rewrite strcat_app; [done| |done]. intros E0. rewrite E0 in *. cbn in *. lia.
Qed.

(** Addresses read back.  The visible address of a dashboard page, made of
    segments that need no escape, is served from that page, provided the rule
    that reads the address is the one that wrote it: the tail of the page does
    not spell the visible name of another page. *)
Theorem dashboard_url_roundtrip ws r :
  let p := pathOf ("dashboard" :: ws) in
  let tail := drop (length (oldSegs r)) ("dashboard" :: ws) in
  ws <> [] -> forallb plainSeg ws = true ->
  firstRule oldSegs (byOld theTable) ("dashboard" :: ws) = Some r ->
  firstRule newSegs (byNew theTable) (map toLowerCase (newSegs r ++ tail)) = Some r ->
  canonicalDashboardPath theTable (areaUrl theTable p) = p.
Proof.
  intros p tail Hne Hp Hr Hback. assert (forallb (goodRule theTable) (byOld theTable) = true) as Hall by (vm_compute; reflexivity).
  pose proof (List.find_some _ _ Hr) as [Hin Hpre]. apply isPrefixOf_spec in Hpre. fold tail in Hpre.
  rewrite forallb_forall in Hall. specialize (Hall r Hin).
  assert (forallb plainSeg ("dashboard" :: ws) = true) as Hd by (cbn [forallb]; rewrite Hp; reflexivity).
  assert (forallb plainSeg tail = true) as Ht.
  { apply forallb_forall. intros w Hw. rewrite forallb_forall in Hd. apply Hd. rewrite Hpre. apply in_or_app. by right. }
  assert (areaUrl theTable p = pathOf (newSegs r ++ tail)) as ->.
  - unfold areaUrl. assert (startsWith p (DASHBOARD_ROOT +:+ "/") = true) as ->.
    { apply startsWith_spec. exists (strcat ws). unfold p, pathOf. rewrite strcat_cons. by destruct ws. }
    cbn [negb]. destruct (beforeQuery_plain p) as [-> ->]; [by apply occurs_pathOf..|].
    assert (splitSegments p = "dashboard" :: ws) as -> by (exact (splitSegments_pathOf ("dashboard" :: ws) ltac:(done) Hd)). rewrite Hr. fold tail. unfold goodRule in Hall. to_prop.
    repeat match goal with H : String.eqb _ _ = true |- _ => apply String.eqb_eq in H end.
    match goal with H : newPrefix (rule r) = _ |- _ => rewrite H end. destruct tail as [|w l].
    + by rewrite app_nil_r, !append_nil_r.
    + rewrite append_nil_r. unfold pathOf. rewrite strcat_app; [done| |done]. intros E0. rewrite E0 in *. done.
  - rewrite (canonical_pathOf theTable r tail Hall Ht Hback). unfold p. by rewrite <- Hpre.
Qed.

Definition exRule : CompiledRule :=
  match firstRule oldSegs (byOld theTable) ["dashboard"; "context"; "rtk"; "History"] with Some r => r | None => mkCompiled (mkRule "" "" "") [] [] end.

Lemma dashboard_url_roundtrip_witness :
  canonicalDashboardPath theTable (areaUrl theTable "/dashboard/context/rtk/History") = "/dashboard/context/rtk/History" /\
  areaUrl theTable "/dashboard/context/rtk/History" = "/optimize/token-saver/engines/rtk/History".
Proof.
  split; [|vm_compute; reflexivity].
  exact (dashboard_url_roundtrip ["context"; "rtk"; "History"] exRule ltac:(done) ltac:(vm_compute; reflexivity) ltac:(vm_compute; reflexivity) ltac:(vm_compute; reflexivity)).
Defined.

(** Every page of the menu reads back. *)
Lemma menu_pages_read_back :
  forallb (fun r => String.eqb (canonicalDashboardPath theTable (areaUrl theTable (oldPrefix r))) (oldPrefix r)) (rules theTable) = true.
Proof. vm_compute. reflexivity. Qed.
