(* ===== verification/Classify.v ===== *)
(** * Classification of routes: [src/server/authz/classify.ts]

    Every request is put into one of four classes before any credential is
    looked at: public, client API, tenant, or management, which is the default.
    The path is first normalised: a visible dashboard address becomes the page
    it is served from ([DashboardUrls]), an alias of the client API its internal
    path.  With the tables of public routes ([publicApiRoutes.ts]) and of the
    routes a tenant session may call ([tenantRoutes.ts]). *)
From Stdlib Require Import String Ascii.
From S2P Require Import Prelude JsMap JsString RegExp RouteGuard DashboardUrls.
#[local] Open Scope string_scope.
#[local] Open Scope list_scope.

(** ** Public routes *)

Definition PUBLIC_API_ROUTE_PREFIXES : list string :=
  (["/api/auth/oidc/";
   "/api/v1/";
   "/api/oauth/";
   "/api/codex/connect/";
   "/api/telegram/";
   "/api/cursor-cli/";
   "/api/branding/asset/"])%string.

Definition PUBLIC_API_ROUTES_EXACT : list string :=
  (["/api/auth/login";
   "/api/auth/logout";
   "/api/auth/mfa/verify";
   "/api/auth/tenant/login";
   "/api/auth/tenant/logout";
   "/api/auth/tenant/accept-invite";
   "/api/auth/status";
   "/api/auth/saml/start";
   "/api/auth/saml/acs";
   "/api/auth/saml/metadata";
   "/api/metrics";
   "/api/init";
   "/api/sync/bundle";
   "/api/cli/connect";
   "/api/usage/om-usage";
   "/api/skills/collect/chaos"])%string.

Definition PUBLIC_READONLY_CORS_API_ROUTES : list string :=
  (["/api/health/ping";
   "/api/monitoring/health";
   "/api/settings/require-login"])%string.

Definition LOCAL_ONLY_OAUTH_IMPORT_ROUTES : list string :=
  (["/api/oauth/cursor/auto-import";
   "/api/oauth/kiro/auto-import"])%string.

Definition PUBLIC_READONLY_API_ROUTES_EXACT : list string := ["/api/health"]%string.
Definition PUBLIC_READONLY_METHODS : list string := ["GET"; "HEAD"; "OPTIONS"]%string.

Definition PUBLIC_CLOUD_API_ROUTES : list (string * list string) :=
  ([("/api/cloud/auth", ["POST"; "OPTIONS"]);
    ("/api/cloud/model/resolve", ["POST"; "OPTIONS"]);
    ("/api/cloud/models/alias", ["GET"; "HEAD"; "OPTIONS"])])%string.

Definition pathMatchesExactRoute (pathname routePath : string) : bool :=
  String.eqb pathname routePath || String.eqb pathname (routePath +:+ "/").

Definition matchesAnyExactRoute (pathname : string) (routes : list string) : bool := existsb (pathMatchesExactRoute pathname) routes.

Definition isPublicCloudApiRoute (pathname method : string) : bool :=
  existsb (fun '(path, methods) => pathMatchesExactRoute pathname path && mem (toUpperCase method) methods) PUBLIC_CLOUD_API_ROUTES.

Definition isPublicReadonlyCorsRoute (pathname method : string) : bool :=
  if negb (mem (toUpperCase method) PUBLIC_READONLY_METHODS) then false
  else matchesAnyExactRoute pathname PUBLIC_READONLY_CORS_API_ROUTES.

Definition isPublicApiRoute (pathname method : string) : bool :=
  if existsb (fun route => String.eqb pathname route || startsWith pathname (route +:+ "/")) LOCAL_ONLY_OAUTH_IMPORT_ROUTES then false
  else if isPublicCloudApiRoute pathname method then true
  else if matchesAnyExactRoute pathname PUBLIC_API_ROUTES_EXACT then true
  else if existsb (startsWith pathname) PUBLIC_API_ROUTE_PREFIXES then true
  else if negb (mem (toUpperCase method) PUBLIC_READONLY_METHODS) then false
  else if matchesAnyExactRoute pathname PUBLIC_READONLY_API_ROUTES_EXACT then true
  else isPublicReadonlyCorsRoute pathname method.

(** ** Classes *)

Inductive RouteClass := PUBLIC | CLIENT_API | MANAGEMENT | TENANT.

Inductive ClassificationReason :=
| public_prefix | public_readonly_prefix | dashboard_prefix | setup_wizard | public_connect_page | client_api_v1 | client_api_mcp
| client_api_alias | client_api_codex_alias | client_api_double_prefix | management_api | tenant_api | root_redirect | fallback_management.

Record RouteClassification := mkClass { routeClass : RouteClass; reason : ClassificationReason; normalizedPath : string }.

#[export] Instance RouteClass_eq_dec : EqDecision RouteClass.
Proof. solve_decision. Defined.

Definition CLIENT_API_ALIAS_PREFIXES : list (string * string) :=
  ([("/chat/completions", "/api/v1/chat/completions"); ("/responses", "/api/v1/responses"); ("/models", "/api/v1/models")])%string.

Definition endsWithSlash (s : string) : bool :=
  match String.get (String.length s - 1) s with Some c => Ascii.eqb c slash | None => false end.

(** The path with a slash in front and without one behind. *)
Definition slashed (rawPath : string) : string :=
  let path := if isEmpty rawPath then "/" else rawPath in
  let path := if startsWith path "/" then path else "/" +:+ path in
  if Nat.ltb 1 (String.length path) && endsWithSlash path then String.substring 0 (String.length path - 1) path else path.

(** The path is the alias, or lies under it. *)
Definition aliasOf (lower alias : string) : bool := String.eqb lower alias || startsWith lower (alias +:+ "/").

Fixpoint aliasPath (aliases : list (string * string)) (lower path : string) : option string :=
  match aliases with
  | [] => None
  | (alias, canonical) :: rest =>
      if String.eqb lower alias then Some canonical
      else if startsWith lower (alias +:+ "/") then Some (canonical +:+ sliceFrom (String.length alias) path)
      else aliasPath rest lower path
  end.

(** The aliases of the client API, whatever the case of their first segment. *)
Definition resolveAlias (path : string) : string * option ClassificationReason :=
  let lower := toLowerCase path in
  if aliasOf lower "/codex" then ("/api/v1/responses", Some client_api_codex_alias)
  else if aliasOf lower "/v1/v1" then ("/api/v1" +:+ sliceFrom 6 path, Some client_api_double_prefix)
  else if aliasOf lower "/v1beta" then ("/api/v1beta" +:+ sliceFrom 7 path, Some client_api_alias)
  else if aliasOf lower "/v1" then ("/api/v1" +:+ sliceFrom 3 path, Some client_api_alias)
  else match aliasPath CLIENT_API_ALIAS_PREFIXES lower path with
       | Some p => (p, Some client_api_alias)
       | None => (path, None)
       end.

Definition normalizePathname (rawPath : string) : string * option ClassificationReason :=
  let path := slashed rawPath in
  let served := canonicalDashboardPath theTable path in
  if negb (String.eqb served path) then (served, None) else resolveAlias path.

Definition matchesReadonlyPublic (path method : string) : bool := isPublicReadonlyCorsRoute path method.
Definition isClassifiedAsPublic (path method : string) : bool := isPublicApiRoute path method.

(** The class of a normalised path. *)
Definition classifyPath (path : string) (aliasReason : option ClassificationReason) (method : string) : RouteClassification :=
  if String.eqb path "/" || isEmpty path then mkClass MANAGEMENT root_redirect "/"
  else if String.eqb path "/dashboard/onboarding" then mkClass PUBLIC setup_wizard path
  else if String.eqb path "/connect" || startsWith path "/connect/" then mkClass PUBLIC public_connect_page path
  else if startsWith path "/dashboard" then mkClass MANAGEMENT dashboard_prefix path
  else if String.eqb path "/api/v1" || startsWith path "/api/v1/" then mkClass CLIENT_API (orElse aliasReason client_api_v1) path
  else if String.eqb path "/api/v1beta" || startsWith path "/api/v1beta/" then mkClass CLIENT_API (orElse aliasReason client_api_v1) path
  else if String.eqb path "/api/tenant" || startsWith path "/api/tenant/" then mkClass TENANT tenant_api path
  else if startsWith path "/api/" then
    if isClassifiedAsPublic path method then
      mkClass PUBLIC (if matchesReadonlyPublic path method then public_readonly_prefix else public_prefix) path
    else mkClass MANAGEMENT management_api path
  else mkClass MANAGEMENT fallback_management path.

Definition classifyRoute (rawPath method : string) : RouteClassification :=
  let '(path, aliasReason) := normalizePathname rawPath in classifyPath path aliasReason method.

(** ** Tenant routes *)

Inductive TenantRouteRole := user | admin.

Record TenantRouteRule := mkTenantRoute { t_method : string; t_pattern : string; minRole : TenantRouteRole }.

Definition TENANT_ROUTES : list TenantRouteRule :=
  ([mkTenantRoute "GET" "/api/tenant/me" user;
    mkTenantRoute "GET" "/api/tenant/users" admin;
    mkTenantRoute "GET" "/api/tenant/usage" admin;
    mkTenantRoute "GET" "/api/tenant/keys" admin;
    mkTenantRoute "GET" "/api/tenant/routing" admin;
    mkTenantRoute "PUT" "/api/tenant/routing" admin])%string.

Definition ROLE_RANK (r : TenantRouteRole) : Z := match r with user => 1 | admin => 2 end.

Definition roleAtLeast (role needed : TenantRouteRole) : bool := ROLE_RANK role >=? ROLE_RANK needed.

Definition segmentsOf (path : string) : list string :=
  match split slash path with
  | [] => []
  | first :: rest => first :: List.filter (fun w => negb (isEmpty w)) rest
  end.

Fixpoint segmentsMatch (want have : list string) : bool :=
  match want, have with
  | [], [] => true
  | part :: want, h :: have => (if startsWith part ":" then negb (isEmpty h) else String.eqb part h) && segmentsMatch want have
  | _, _ => false
  end.

(** The pattern of a tenant route matches a path. *)
Definition matchesPattern (pattern path : string) : bool := segmentsMatch (segmentsOf pattern) (segmentsOf path).

Definition matchTenantRoute (method pathname : string) : option TenantRouteRule :=
  List.find (fun rule => String.eqb (t_method rule) (toUpperCase method) && matchesPattern (t_pattern rule) pathname) TENANT_ROUTES.

Definition capabilitiesFor (role : TenantRouteRole) : list TenantRouteRule :=
  List.filter (fun rule => roleAtLeast role (minRole rule)) TENANT_ROUTES.

(** ** First segments *)

Lemma lower_append a b : toLowerCase (a +:+ b) = toLowerCase a +:+ toLowerCase b.
Proof. induction a as [|c a IH]; [done|]. exact (f_equal (String (lowerAscii c)) IH). Qed.

Lemma lower_append_inv s a b : toLowerCase s = a +:+ b -> exists s1 s2, s = s1 +:+ s2 /\ toLowerCase s1 = a /\ toLowerCase s2 = b.
Proof.
  revert s. induction a as [|c a IH]; intros s H; [by exists EmptyString, s|].
  destruct s as [|d s]; [done|]. injection H as Hc H. destruct (IH s H) as (s1 & s2 & -> & <- & <-).
  exists (String d s1), s2. split_and!; [done| |done]. exact (f_equal (fun x => String x (toLowerCase s1)) Hc).
Qed.

Lemma all_ascii (P : ascii -> bool) :
  forallb (fun n => P (ascii_of_nat n)) (List.seq 0 256) = true -> forall c, P c = true.
Proof.
  intros H c. rewrite <- (ascii_nat_embedding c). refine (octets_forall (fun n => P (ascii_of_nat n)) H _ (nat_ascii_bounded c)).
Qed.

Lemma lower_slash c : lowerAscii c = slash -> c = slash.
Proof.
  intros H. pose proof (all_ascii (fun c => negb (Ascii.eqb (lowerAscii c) slash) || Ascii.eqb c slash) ltac:(vm_compute; reflexivity) c) as Hc.
  cbv beta in Hc. rewrite H, Ascii.eqb_refl in Hc. by apply Ascii.eqb_eq in Hc.
Qed.

Lemma lower_percent c : lowerAscii c = "%"%char -> c = "%"%char.
Proof.
  intros H. pose proof (all_ascii (fun c => negb (Ascii.eqb (lowerAscii c) "%") || Ascii.eqb c "%") ltac:(vm_compute; reflexivity) c) as Hc.
  cbv beta in Hc. rewrite H, Ascii.eqb_refl in Hc. by apply Ascii.eqb_eq in Hc.
Qed.

Lemma occurs_lower k s : (forall c, lowerAscii k = k /\ (lowerAscii c = k -> c = k)) -> occurs k (toLowerCase s) = occurs k s.
Proof.
  intros Hk. induction s as [|c s IH]; [done|]. cbn [toLowerCase occurs]. rewrite IH. f_equal.
  destruct (Hk c) as [Hkk Hc]. destruct (Ascii.eqb_spec (lowerAscii c) k) as [E|E], (Ascii.eqb_spec c k) as [F|F]; try done; [by destruct F; apply Hc|].
  destruct E. by rewrite F.
Qed.

Lemma boundary_lower s : boundary (toLowerCase s) -> boundary s.
Proof.
  intros [H|[t H]]; destruct s as [|c s]; [by left|discriminate H|discriminate H|]. right. injection H as Hc _. exists s. by rewrite (lower_slash c Hc).
Qed.

Lemma aliasOf_split s p : aliasOf s p = true -> exists t, s = p +:+ t /\ boundary t.
Proof.
  unfold aliasOf. intros [->%String.eqb_eq|[t ->]%startsWith_spec]%orb_true_iff.
  - exists EmptyString. rewrite append_nil_r. split; [done|by left].
  - exists (String slash t). split; [by rewrite append_assoc|right; by exists t].
Qed.

(** A path whose first segment, whatever its case, is none of the areas is no
    address of an area. *)
Lemma not_area T seg s :
  isEmpty seg = false -> occurs slash seg = false -> occurs "%" seg = false -> mem seg (areas T) = false ->
  aliasOf (toLowerCase s) ("/" +:+ seg) = true -> areaOf T s = None.
Proof.
  intros Hne Hsl Hpc Hmem (t & Ht & Hb)%aliasOf_split. change ("/" +:+ seg) with (String slash seg) in Ht.
  change (String slash seg +:+ t) with (String slash EmptyString +:+ (seg +:+ t)) in Ht.
  apply lower_append_inv in Ht as (s0 & s1 & -> & H0 & (s2 & s3 & -> & H2 & <-)%lower_append_inv).
  destruct s0 as [|c [|]]; try done. injection H0 as ->%lower_slash. subst seg.
  assert (occurs slash s2 = false) as Hsl2.
  { rewrite <- (occurs_lower slash); [exact Hsl|]. intros c. split; [done|apply lower_slash]. }
  assert (occurs "%" s2 = false) as Hpc2.
  { rewrite <- (occurs_lower "%"); [exact Hpc|]. intros c. split; [done|apply lower_percent]. }
  change (areaOf T (String slash (s2 +:+ s3)) = None). unfold areaOf. rewrite Ascii.eqb_refl.
  assert (skipSlashes (s2 +:+ s3) = s2 +:+ s3) as ->.
  { destruct s2 as [|c s2]; [done|]. cbn [occurs] in Hsl2. apply orb_false_iff in Hsl2 as [Hc _].
    change (skipSlashes (String c (s2 +:+ s3)) = String c (s2 +:+ s3)). cbn [skipSlashes]. by rewrite Hc. }
  rewrite firstSegment_app, safeDecode_plain, Hmem by (try done; by apply boundary_lower). done.
Qed.

(** ** Addresses of the menu *)

(** A page a rule serves: under [/dashboard/], and not the public onboarding page. *)
Definition privatePage (p : string) : Prop := startsWith p "/dashboard/" = true /\ p <> "/dashboard/onboarding".

Definition privateRule (r : CompiledRule) : bool :=
  startsWith (oldPrefix (rule r)) "/dashboard/" && negb (String.eqb (oldPrefix (rule r)) "/dashboard/onboarding").

Lemma privateRule_page r tail : privateRule r = true ->
  privatePage (oldPrefix (rule r)) /\ privatePage (oldPrefix (rule r) +:+ "/" +:+ tail).
Proof.
  unfold privateRule, privatePage. intros [[q Hq]%startsWith_spec Hne]%andb_true_iff. rewrite Hq in *.
  rewrite negb_true_iff in Hne. apply String.eqb_neq in Hne. split_and!.
  - apply prefix_append.
  - exact Hne.
  - rewrite append_assoc. apply prefix_append.
  - rewrite append_assoc. intros H. apply (append_inj_l "/dashboard/" _ "onboarding") in H. apply (f_equal (occurs slash)) in H.
    rewrite !occurs_append in H. change (occurs slash "/") with true in H. rewrite orb_true_r in H. discriminate H.
Qed.

Lemma canonical_cases p : canonicalDashboardPath theTable p = p \/ canonicalDashboardPath theTable p = "/home" \/
  privatePage (canonicalDashboardPath theTable p).
Proof.
  assert (forallb privateRule (byNew theTable) = true) as Hall by (vm_compute; reflexivity).
  unfold canonicalDashboardPath. destruct (areaOf theTable p) as [a|]; [|by left]. case_if; [by left|]. case_if; [by right; left|].
  destruct (firstRule _ _ _) as [r|] eqn:E; [|by left]. right. right.
  apply List.find_some in E as [Hin _]. rewrite forallb_forall in Hall. specialize (Hall r Hin).
  destruct (drop _ _) as [|w ws]; [exact (proj1 (privateRule_page r EmptyString Hall))|exact (proj2 (privateRule_page r _ Hall))].
Qed.

Lemma privatePage_class p : privatePage p -> forall r m, routeClass (classifyPath p r m) = MANAGEMENT.
Proof.
  intros [[q ->]%startsWith_spec Hne] r m. unfold classifyPath. apply String.eqb_neq in Hne. rewrite Hne. reflexivity.
Qed.

(** The segments that start the routes of other classes and their aliases. *)
Definition routeSegments : list string := (["connect"; "api"; "codex"; "v1"; "v1beta"; "chat"; "responses"; "models"])%string.

Lemma routeSegments_not_areas s seg : In seg routeSegments -> aliasOf (toLowerCase s) ("/" +:+ seg) = true -> areaOf theTable s = None.
Proof.
  intros H. assert (forallb (fun seg => negb (isEmpty seg) && negb (occurs slash seg) && negb (occurs "%" seg) && negb (mem seg (areas theTable))) routeSegments = true) as Hall
    by (vm_compute; reflexivity).
  rewrite forallb_forall in Hall. specialize (Hall seg H). to_prop. by apply not_area.
Qed.

Lemma aliasOf_lower_plain s p : toLowerCase p = p -> aliasOf s p = true -> aliasOf (toLowerCase s) p = true.
Proof.
  intros Hp (t & -> & Hb)%aliasOf_split. rewrite lower_append, Hp. unfold aliasOf. apply orb_true_iff. destruct Hb as [->|[u ->]].
  - left. rewrite append_nil_r. apply String.eqb_refl.
  - right. apply startsWith_spec. exists (toLowerCase u). by rewrite append_assoc.
Qed.

Lemma routeSegments_lower seg : In seg routeSegments -> toLowerCase ("/" +:+ seg) = "/" +:+ seg.
Proof.
  assert (forallb (fun seg => String.eqb (toLowerCase ("/" +:+ seg)) ("/" +:+ seg)) routeSegments = true) as H by (vm_compute; reflexivity).
  rewrite forallb_forall in H. intros Hin. by apply String.eqb_eq, H.
Qed.

Lemma aliasOf_under s p q : aliasOf s (p +:+ "/" +:+ q) = true -> aliasOf s p = true.
Proof.
  intros (t & -> & _)%aliasOf_split. unfold aliasOf. apply orb_true_iff. right. apply startsWith_spec. exists (q +:+ t). by rewrite !append_assoc.
Qed.

Lemma area_no_alias s a : areaOf theTable s = Some a -> resolveAlias s = (s, None).
Proof.
  intros H. assert (forall seg, In seg routeSegments -> aliasOf (toLowerCase s) ("/" +:+ seg) = false) as Hno.
  { intros seg Hin. destruct (aliasOf _ _) eqn:E; [|done]. by rewrite (routeSegments_not_areas s seg Hin E) in H. }
  assert (forall seg q, In seg routeSegments -> aliasOf (toLowerCase s) ("/" +:+ seg +:+ "/" +:+ q) = false) as Hno2.
  { intros seg q Hin. destruct (aliasOf _ _) eqn:E; [|done]. rewrite <- append_assoc in E. apply aliasOf_under in E. by rewrite Hno in E. }
  unfold resolveAlias.
  assert (aliasOf (toLowerCase s) "/codex" = false) as -> by (apply (Hno "codex"); cbn; auto 10).
  assert (aliasOf (toLowerCase s) "/v1/v1" = false) as -> by (apply (Hno2 "v1" "v1"); cbn; auto 10).
  assert (aliasOf (toLowerCase s) "/v1beta" = false) as -> by (apply (Hno "v1beta"); cbn; auto 10).
  assert (aliasOf (toLowerCase s) "/v1" = false) as -> by (apply (Hno "v1"); cbn; auto 10).
  pose proof (Hno2 "chat" "completions" ltac:(cbn; auto 10)) as H1. pose proof (Hno "responses" ltac:(cbn; auto 10)) as H2.
  pose proof (Hno "models" ltac:(cbn; auto 10)) as H3. unfold aliasOf in H1, H2, H3. apply orb_false_iff in H1 as [A1 B1], H2 as [A2 B2], H3 as [A3 B3].
  cbn [aliasPath CLIENT_API_ALIAS_PREFIXES]. change ("/" +:+ "chat" +:+ "/" +:+ "completions") with "/chat/completions" in *.
  change ("/" +:+ "responses") with "/responses" in *. change ("/" +:+ "models") with "/models" in *.
  by rewrite A1, B1, A2, B2, A3, B3.
Qed.

(** No address of a menu area is ever public or open to client keys: whatever
    its case, its escapes and its slashes, and whether or not a page is served
    there, it is classified as management. *)
Theorem area_never_public rawPath method a :
  areaOf theTable (slashed rawPath) = Some a -> routeClass (classifyRoute rawPath method) = MANAGEMENT.
Proof.
  intros Ha. unfold classifyRoute, normalizePathname. set (p := slashed rawPath) in *. clearbody p.
  destruct (String.eqb_spec (canonicalDashboardPath theTable p) p) as [E|E].
  - rewrite (area_no_alias p a Ha). cbn [negb]. unfold classifyPath.
    assert (forall seg, In seg routeSegments -> aliasOf p ("/" +:+ seg) = false) as Hno.
    { intros seg Hin. destruct (aliasOf p _) eqn:Es; [|done]. rewrite (routeSegments_not_areas p seg Hin) in Ha; [done|].
      apply aliasOf_lower_plain; [|exact Es]. by apply routeSegments_lower. }
    assert (forall q, startsWith p ("/api/" +:+ q) = false) as Hapi.
    { intros q. destruct (startsWith p _) eqn:Es; [|done]. apply startsWith_spec in Es as [t ->].
      specialize (Hno "api" ltac:(cbn; auto)). unfold aliasOf in Hno. apply orb_false_iff in Hno as [_ Hno].
      rewrite <- Hno. symmetry. apply startsWith_spec. exists (q +:+ t). by rewrite append_assoc. }
    assert (forall q, String.eqb p ("/api/" +:+ q) = false) as Heq.
    { intros q. destruct (String.eqb_spec p ("/api/" +:+ q)) as [Ep|]; [|done]. specialize (Hapi q). rewrite Ep, <- (append_nil_r ("/api/" +:+ q)) in Hapi at 1.
      unfold startsWith in Hapi. by rewrite prefix_append in Hapi. }
    destruct (String.eqb_spec p "/dashboard/onboarding") as [->|_]; [vm_compute in Ha; discriminate Ha|].
    pose proof (Hno "connect" ltac:(cbn; auto)) as Hc. unfold aliasOf in Hc.
    change ("/" +:+ "connect") with "/connect" in Hc. change ("/connect" +:+ "/") with "/connect/" in Hc. rewrite Hc.
    pose proof (Hapi "" : startsWith p "/api/" = false) as P0. pose proof (Hapi "v1/" : startsWith p "/api/v1/" = false) as P1.
    pose proof (Hapi "v1beta/" : startsWith p "/api/v1beta/" = false) as P2. pose proof (Hapi "tenant/" : startsWith p "/api/tenant/" = false) as P3.
    pose proof (Heq "v1" : String.eqb p "/api/v1" = false) as Q1. pose proof (Heq "v1beta" : String.eqb p "/api/v1beta" = false) as Q2.
    pose proof (Heq "tenant" : String.eqb p "/api/tenant" = false) as Q3.
    rewrite P0, P1, P2, P3, Q1, Q2, Q3. by repeat case_if.
  - cbn [negb]. destruct (canonical_cases p) as [|[->|Hp]]; [done|reflexivity|by apply privatePage_class].
Qed.

Lemma area_never_public_witness : routeClass (classifyRoute "//%50ROXY/unknown/" "GET") = MANAGEMENT.
Proof. apply (area_never_public _ _ "proxy"). vm_compute. reflexivity. Defined.

(** ** Aliases *)

Definition clientAliases : list string := (["/codex"; "/v1/v1"; "/v1beta"; "/v1"; "/chat/completions"; "/responses"; "/models"])%string.

Lemma lower_idem s : toLowerCase (toLowerCase s) = toLowerCase s.
Proof.
  induction s as [|c s IH]; [done|]. cbn [toLowerCase]. rewrite IH. f_equal.
  apply Ascii.eqb_eq, (all_ascii (fun c => Ascii.eqb (lowerAscii (lowerAscii c)) (lowerAscii c))). vm_compute. reflexivity.
Qed.

Lemma lower_length s : String.length (toLowerCase s) = String.length s.
Proof. induction s as [|c s IH]; [done|]. exact (f_equal S IH). Qed.

Lemma get_lower n s : String.get n (toLowerCase s) = option_map lowerAscii (String.get n s).
Proof. revert n. induction s as [|c s IH]; intros [|n]; try done. apply IH. Qed.

Lemma get_append a b n : String.get (String.length a + n) (a +:+ b) = String.get n b.
Proof. induction a as [|c a IH]; [done|]. exact IH. Qed.

Lemma endsWithSlash_append a b : b <> EmptyString -> endsWithSlash (a +:+ b) = endsWithSlash b.
Proof.
  intros Hb. unfold endsWithSlash. rewrite append_length. destruct b as [|c b]; [done|].
  replace (String.length a + String.length (String c b) - 1)%nat with (String.length a + (String.length (String c b) - 1))%nat by (cbn; lia).
  by rewrite get_append.
Qed.

Lemma substring_append a b k : String.substring 0 (String.length a + k) (a +:+ b) = a +:+ String.substring 0 k b.
Proof. induction a as [|c a IH]; [done|]. exact (f_equal (String c) IH). Qed.

(** The tail of a path without its last slash. *)
Definition unslash (t : string) : string := if endsWithSlash t then String.substring 0 (String.length t - 1) t else t.

Lemma boundary_unslash t : boundary t -> boundary (unslash t).
Proof.
  intros [->|[u ->]]; [by left|]. unfold unslash. case_if; [|by right; exists u]. destruct u as [|c u]; [by left|].
  right. exists (String.substring 0 (String.length u) (String c u)). reflexivity.
Qed.

Lemma slashed_append pre t :
  startsWith pre "/" = true -> (1 < String.length pre)%nat -> endsWithSlash pre = false -> slashed (pre +:+ t) = pre +:+ unslash t.
Proof.
  intros Hs Hl He. apply startsWith_spec in Hs as [p' Hp]. destruct pre as [|c pre]; [cbn in Hl; lia|].
  assert (startsWith (String c pre +:+ t) "/" = true) as Hs'. { apply startsWith_spec. exists (p' +:+ t). by rewrite Hp, append_assoc. }
  unfold slashed. change (isEmpty (String c pre +:+ t)) with false. cbv iota. rewrite Hs'.
  rewrite append_length. assert (Nat.ltb 1 (String.length (String c pre) + String.length t) = true) as -> by (apply Nat.ltb_lt; lia). cbn [andb].
  destruct (decide (t = EmptyString)) as [->|Hne].
  - by rewrite append_nil_r, He, append_nil_r.
  - rewrite endsWithSlash_append by done. unfold unslash. destruct (endsWithSlash t); [|done].
    replace (String.length (String c pre) + String.length t - 1)%nat with (String.length (String c pre) + (String.length t - 1))%nat by (destruct t; [done|cbn; lia]).
    apply substring_append.
Qed.

Lemma sliceFrom_append a b t n : String.length a = String.length b -> (String.length a <= n)%nat -> sliceFrom n (a +:+ t) = sliceFrom n (b +:+ t).
Proof.
  intros Hl Hn. unfold sliceFrom. rewrite !append_length, Hl. generalize (String.length b + String.length t - n)%nat. intros m.
  revert b n Hl Hn. induction a as [|c a IH]; intros [|d b] n Hl Hn; try done. destruct n as [|n]; [cbn in Hn; lia|].
  exact (IH b n ltac:(cbn in Hl; lia) ltac:(cbn in Hn; lia)).
Qed.

(** A hypothesis about a test that computes to the other answer. *)
Ltac wrong_test :=
  match goal with
  | H : ?b = false |- _ => exfalso; enough (b = true) by congruence; reflexivity
  | H : ?b = true |- _ => exfalso; enough (b = false) by congruence; reflexivity
  end.

Lemma resolveAlias_lower pre t : In (toLowerCase pre) clientAliases -> boundary t ->
  resolveAlias (pre +:+ t) = resolveAlias (toLowerCase pre +:+ t).
Proof.
  intros Hin Hb. pose proof (eq_sym (lower_length pre)) as Hl. unfold resolveAlias. rewrite !lower_append, lower_idem. set (a := toLowerCase pre) in *. clearbody a.
  assert (forall n, (String.length a <= n)%nat -> sliceFrom n (pre +:+ t) = sliceFrom n (a +:+ t)) as Hs by (intros n Hn; apply sliceFrom_append; lia).
  assert (boundary (toLowerCase t)) as Hb' by (destruct Hb as [->|[u ->]]; [by left|right; by eexists]). clear Hb.
  cbn in Hin. destruct Hb' as [->|[u ->]]; repeat (destruct Hin as [<-|Hin]); try done;
    repeat match goal with |- (if ?b then _ else _) = _ => destruct b eqn:?; [solve [wrong_test | destruct u; wrong_test | rewrite ?Hs by (cbn; lia); reflexivity]|] end; try wrong_test;
    cbn [aliasPath CLIENT_API_ALIAS_PREFIXES]; repeat match goal with |- context [if ?b then _ else _] => destruct b eqn:? end;
    solve [wrong_test | destruct u; wrong_test | rewrite ?Hs by (cbn; lia); reflexivity].
Qed.

Lemma alias_no_area pre t : In (toLowerCase pre) clientAliases -> boundary t -> areaOf theTable (pre +:+ t) = None.
Proof.
  intros Hin Hb. assert (boundary (toLowerCase t)) as Hb' by (destruct Hb as [->|[u ->]]; [by left|right; by eexists]).
  assert (aliasOf (toLowerCase (pre +:+ t)) (toLowerCase pre) = true) as Ha.
  { rewrite lower_append. unfold aliasOf. apply orb_true_iff. destruct Hb' as [->|[u ->]].
    - left. rewrite append_nil_r. apply String.eqb_refl.
    - right. apply startsWith_spec. exists u. by rewrite append_assoc. }
  assert (exists seg q, In seg routeSegments /\ (toLowerCase pre = "/" +:+ seg \/ toLowerCase pre = ("/" +:+ seg) +:+ "/" +:+ q)) as (seg & q & Hseg & Hq).
  { cbn in Hin. destruct Hin as [<-|[<-|[<-|[<-|[<-|[<-|[<-|[]]]]]]]].
    - exists "codex", "". split; [cbn; auto 10|by left].
    - exists "v1", "v1". split; [cbn; auto 10|by right].
    - exists "v1beta", "". split; [cbn; auto 10|by left].
    - exists "v1", "". split; [cbn; auto 10|by left].
    - exists "chat", "completions". split; [cbn; auto 10|by right].
    - exists "responses", "". split; [cbn; auto 10|by left].
    - exists "models", "". split; [cbn; auto 10|by left]. }
  apply (routeSegments_not_areas _ seg Hseg). destruct Hq as [Hq|Hq]; rewrite Hq in Ha; [exact Ha|by apply aliasOf_under in Ha].
Qed.

(** The case of an alias does not matter: a path that begins with an alias of
    the client API in any mixture of cases is classified, and rewritten, as the
    same path with the alias in lower case. *)
Theorem alias_case_insensitive pre tail method :
  In (toLowerCase pre) clientAliases -> boundary tail ->
  classifyRoute (pre +:+ tail) method = classifyRoute (toLowerCase pre +:+ tail) method.
Proof.
  intros Hin Hb. assert (forall q, In (toLowerCase q) clientAliases ->
      startsWith q "/" = true /\ (1 < String.length q)%nat /\ endsWithSlash q = false) as Hshape.
  { intros q Hq. rewrite <- (lower_length q).
    assert (forallb (fun a => startsWith a "/" && Nat.ltb 1 (String.length a) && negb (endsWithSlash a)) clientAliases = true) as Hall by (vm_compute; reflexivity).
    rewrite forallb_forall in Hall. specialize (Hall _ Hq). apply andb_true_iff in Hall as [[H1 H2%Nat.ltb_lt]%andb_true_iff H3%negb_true_iff].
    split_and!; [|done|].
    - destruct q as [|c q]; [done|]. apply startsWith_spec in H1 as [x Hx]. injection Hx as Hc _. rewrite (lower_slash c Hc). by destruct q.
    - unfold endsWithSlash in *. rewrite lower_length, get_lower in H3. destruct (String.get (String.length q - 1) q) as [c|]; [|done].
      destruct (Ascii.eqb_spec c slash) as [->|]; [vm_compute in H3; discriminate H3|done]. }
  destruct (Hshape pre Hin) as (A1 & A2 & A3). assert (In (toLowerCase (toLowerCase pre)) clientAliases) as Hin' by (by rewrite lower_idem).
  destruct (Hshape _ Hin') as (B1 & B2 & B3). pose proof (boundary_unslash tail Hb) as Hb'.
  unfold classifyRoute, normalizePathname. rewrite (slashed_append pre), (slashed_append (toLowerCase pre)) by done.
  unfold canonicalDashboardPath. rewrite (alias_no_area pre _ Hin Hb'), (alias_no_area _ _ Hin' Hb'). rewrite !String.eqb_refl. cbn [negb].
  by rewrite (resolveAlias_lower pre _ Hin Hb').
Qed.

Lemma alias_case_insensitive_witness : routeClass (classifyRoute "/V1/Chat" "POST") = CLIENT_API.
Proof.
  change "/V1/Chat" with ("/V1" +:+ "/Chat"). rewrite (alias_case_insensitive "/V1" "/Chat" "POST"); [reflexivity|cbn; auto 10|right; by exists "Chat"].
Defined.
