(* ===== verification/Authz.v ===== *)
(** * Authorisation: [src/server/authz/]

    The stamps of the server in front of the router ([peerStamp.ts],
    [peerContext.ts]), the policy of each class of routes ([policies/]), the
    scopes of command-line tokens ([accessScopes.ts], [accessTokenAuth.ts]) and
    the pipeline every request passes through ([pipeline.ts]).

    What the policies ask the rest of the system (sessions, keys, settings) is a
    record of verdicts; a backend that throws answers [None].  The response keeps
    what decides: the status, the code of an error, and the headers forwarded to
    the route. *)
From Stdlib Require Import String Ascii.
From S2P Require Import Prelude JsMap JsString RegExp RouteGuard DashboardUrls Classify.
#[local] Open Scope string_scope.
#[local] Open Scope list_scope.
#[local] Open Scope Z_scope.

(** ** Requests *)

(** Header names are in lower case. *)
Record Request := mkRequest {
  method : string;
  header : string -> option string;
  ip : option string;
  remoteAddress : option string;
  urlPathname : string;      (* the path of the address, before normalisation *)
  wsHandshake : bool         (* its query has handshake=1 *)
}.

Definition AUTHZ_HEADER_REQUEST_ID : string := "x-request-id".
Definition AUTHZ_HEADER_ROUTE_CLASS : string := "x-omniroute-route-class".
Definition AUTHZ_HEADER_AUTH_KIND : string := "x-omniroute-auth-kind".
Definition AUTHZ_HEADER_AUTH_ID : string := "x-omniroute-auth-id".
Definition AUTHZ_HEADER_AUTH_LABEL : string := "x-omniroute-auth-label".
Definition AUTHZ_HEADER_AUTH_SCOPES : string := "x-omniroute-auth-scopes".
Definition CLI_TOKEN_HEADER : string := "x-omniroute-cli-token".
Definition PEER_IP_HEADER : string := "x-omniroute-peer-ip".
Definition VIA_PROXY_HEADER : string := "x-omniroute-via-proxy".
Definition CLIENT_IP_HEADER : string := "x-omniroute-client-ip".
Definition AUTHZ_HEADER_PEER_LOCALITY : string := "x-omniroute-peer-locality".
Definition AUTHZ_HEADER_TRUSTED_PEER_IP : string := "x-omniroute-trusted-peer-ip".

Definition AUTHZ_TRUSTED_HEADERS : list string :=
  [AUTHZ_HEADER_ROUTE_CLASS; AUTHZ_HEADER_AUTH_KIND; AUTHZ_HEADER_AUTH_ID; AUTHZ_HEADER_AUTH_LABEL; AUTHZ_HEADER_AUTH_SCOPES;
   AUTHZ_HEADER_PEER_LOCALITY; AUTHZ_HEADER_TRUSTED_PEER_IP].

(** ** Stamps: [peerStamp.ts] *)

(** The payload of a stamp [token|payload] that carries the token. *)
Definition stampPayload (headerValue token : option string) : option string :=
  match headerValue, token with
  | Some h, Some t =>
      if isEmpty h || isEmpty t then None
      else match splitFirst "|"%char h with
           | None => None
           | Some (provided, payload) =>
               if isEmpty provided then None
               else if negb (Nat.eqb (String.length provided) (String.length t)) then None
               else if String.eqb provided t then Some payload else None
           end
  | _, _ => None
  end.

Definition resolveStampedPeer (headerValue token : option string) : option string :=
  match stampPayload headerValue token with
  | Some payload => if isEmpty payload then None else Some payload
  | None => None
  end.

Definition resolveStampedViaProxy (headerValue token : option string) : bool :=
  match stampPayload headerValue token with Some payload => String.eqb payload "1" | None => false end.

Definition classifyStampedPeerLocality (peerHeader viaProxyHeader token : option string) : locality :=
  let viaProxy := resolveStampedViaProxy viaProxyHeader token in
  let l := classifyHostLocality (resolveStampedPeer peerHeader token) in
  if viaProxy && negb (bool_decide (l = Remote)) then Remote else l.

(** ** Verdicts of the rest of the system *)

Inductive SubjectKind := client_api_key | dashboard_session | management_key | tenant_session | anonymous.

Record AuthSubject := mkSubject { kind : SubjectKind; subject_id : string; label : option string; scopes : list string }.

Inductive AuthOutcome :=
| Allow (subject : AuthSubject)
| Reject (status : Z) (code message : string)
| Throws.

Record ApiKeyMeta := mkMeta { meta_id : string; meta_scopes : list string }.

Inductive AccessScope := read_scope | write_scope | admin_scope.

Record AccessToken := mkToken { token_scope : AccessScope; token_id : string; token_name : string }.

Record TenantSession := mkTenant { userId : string; tenantId : string; role : TenantRouteRole }.

Record Env := mkEnv {
  OMNIROUTE_PEER_STAMP_TOKEN : option string;
  OMNIROUTE_WS_BRIDGE_SECRET : string;
  cliTokenDisabled : bool;
  machineTokens : list string;
  sha256 : string -> string;
  snapshot : Snapshot;
  isModelSyncInternalRequest : Request -> bool;
  isInternalServiceRequest : Request -> bool;
  isVideoBridgeBrokerTokenRequest : Request -> string -> bool;
  extractApiKey : Request -> bool -> option string;              (* allowUrl *)
  isValidApiKey : string -> option bool;
  getApiKeyMetadata : string -> option (option ApiKeyMeta);
  isDashboardSessionAuthenticated : Request -> option bool;
  isAuthRequired : Request -> bool -> bool;                      (* loopback *)
  verifyAccessToken : string -> option (option AccessToken);
  isRequireApiKeyEnabled : bool;
  validateApiKey : string -> option bool;
  authenticateTenantToken : option string -> option (option TenantSession);
  tenantCookie : Request -> option string
}.

(** ** The peer: [peerContext.ts] *)

Section Policies.
Context (E : Env).

Definition requestPeerAddress (r : Request) : option string :=
  match resolveStampedPeer (header r PEER_IP_HEADER) (OMNIROUTE_PEER_STAMP_TOKEN E) with
  | Some stamped => Some stamped
  | None => match ip r with Some i => Some i | None => remoteAddress r end
  end.

Definition isViaProxyRequest (r : Request) : bool :=
  resolveStampedViaProxy (header r VIA_PROXY_HEADER) (OMNIROUTE_PEER_STAMP_TOKEN E).

Definition isLoopbackRequest (r : Request) : bool :=
  if isViaProxyRequest r then false else isLoopbackHost (requestPeerAddress r).

Definition isPrivateLanRequest (r : Request) : bool :=
  if isViaProxyRequest r then false else isPrivateLanHost (requestPeerAddress r).

Definition hasValidLoopbackCliToken (r : Request) : bool :=
  if cliTokenDisabled E then false
  else if negb (isLoopbackRequest r) then false
  else match header r CLI_TOKEN_HEADER with
       | None => false
       | Some provided =>
           if isEmpty provided then false
           else existsb (fun expected => negb (isEmpty expected) && String.eqb provided expected) (machineTokens E)
       end.

Definition LOCAL_CLI_SUBJECT : AuthSubject := mkSubject management_key "cli" (Some "local-cli-token") [].

(** ** Scopes *)

Definition MANAGEMENT_API_KEY_SCOPES : list string := ["manage"; "admin"].
Definition MCP_CONNECT_SCOPE : string := "mcp:connect".

Definition hasManageScope (scopes : list string) : bool := existsb (fun s => mem s MANAGEMENT_API_KEY_SCOPES) scopes.
Definition hasMcpConnectOrManageScope (scopes : list string) : bool :=
  if hasManageScope scopes then true else mem MCP_CONNECT_SCOPE scopes.

Definition SCOPE_RANK (s : AccessScope) : Z := match s with read_scope => 1 | write_scope => 2 | admin_scope => 3 end.
Definition scopeSatisfies (have need : AccessScope) : bool := SCOPE_RANK have >=? SCOPE_RANK need.

Definition ADMIN_SCOPE_PREFIXES : list string := ["/api/cli/tokens"; "/api/oauth"; "/api/auth"; "/api/policy"; "/api/services"; "/api/mcp"].
Definition ADMIN_MUTATION_PREFIXES : list string := ["/api/providers"; "/api/cli-tools/apply"].

Definition matchesPrefix (path : string) (prefixes : list string) : bool := existsb (aliasOf path) prefixes.

Definition inferRequiredScope (method path : string) : AccessScope :=
  let m := toUpperCase (if isEmpty method then "GET" else method) in
  let p := if isEmpty path then "/" else path in
  if matchesPrefix p ADMIN_SCOPE_PREFIXES then admin_scope
  else
    let isMutation := negb (mem m SAFE_METHODS) in
    if isMutation && matchesPrefix p ADMIN_MUTATION_PREFIXES then admin_scope
    else if isMutation then write_scope else read_scope.

Inductive AccessTokenVerdict :=
| absent | error | invalid
| insufficient (have need : AccessScope)
| ok (scope : AccessScope) (id name : string).

Definition ACCESS_TOKEN_PREFIX : string := "oma_".

Definition lineTerminator (c : ascii) : bool := (N_of_ascii c =? 10)%N || (N_of_ascii c =? 13)%N.

(** [/^Bearer\s+(.+)$/i] on the trimmed header: its group, trimmed. *)
Definition bearerToken (r : Request) : option string :=
  let h := trim (orElse (header r "authorization") EmptyString) in
  if String.eqb (toLowerCase (String.substring 0 6 h)) "bearer" then
    match sliceFrom 6 h with
    | String c rest =>
        if isSpace c then
          let token := trimStart rest in
          if isEmpty token || anyChar lineTerminator token then None else Some (trim token)
        else None
    | EmptyString => None
    end
  else None.

Definition evaluateAccessTokenAuth (r : Request) : AccessTokenVerdict :=
  match bearerToken r with
  | None => absent
  | Some bearer =>
      if negb (startsWith bearer ACCESS_TOKEN_PREFIX) then absent
      else match verifyAccessToken E bearer with
           | None => error
           | Some None => invalid
           | Some (Some verified) =>
               let need := inferRequiredScope (method r) (urlPathname r) in
               if negb (scopeSatisfies (token_scope verified) need) then insufficient (token_scope verified) need
               else ok (token_scope verified) (token_id verified) (token_name verified)
           end
  end.

(** ** Policies *)

Definition publicPolicy (r : Request) : AuthOutcome :=
  if hasValidLoopbackCliToken r then Allow LOCAL_CLI_SUBJECT else Allow (mkSubject anonymous "anonymous" None []).

Definition tenantPolicy (r : Request) (path : string) : AuthOutcome :=
  match authenticateTenantToken E (tenantCookie E r) with
  | None => Throws
  | Some None => Reject 401 "TENANT_AUTH_REQUIRED" "Sign in to continue"
  | Some (Some tenant) =>
      match matchTenantRoute (method r) path with
      | None => Reject 403 "TENANT_ROUTE_NOT_ALLOWED" "This endpoint is not available to tenants"
      | Some rule =>
          if negb (roleAtLeast (role tenant) (minRole rule)) then Reject 403 "TENANT_ROLE_INSUFFICIENT" "Your role cannot use this endpoint"
          else Allow (mkSubject tenant_session (userId tenant) (Some (tenantId tenant))
                 [match role tenant with user => "user" | admin => "admin" end])
      end
  end.

(** A text that is there and not empty. *)
Definition nonEmpty (o : option string) : option string := match o with Some s => if isEmpty s then None else Some s | None => None end.

(** The credential of a client call, from its headers or its path. *)
Definition extractBearer (r : Request) : option string :=
  let other :=
    match nonEmpty (header r "x-api-key") with
    | Some k => nonEmpty (Some (trim k))
    | None => match nonEmpty (option_map trim (header r "x-goog-api-key")) with
              | Some k => Some k
              | None => extractApiKey E r true
              end
    end in
  match header r "authorization" with
  | Some raw =>
      let trimmed := trim raw in
      if startsWith (toLowerCase trimmed) "bearer " then
        let token := trim (sliceFrom 7 trimmed) in if isEmpty token then other else Some token
      else other
  | None => other
  end.

Definition maskKeyId (apiKey : string) : string := "key_" +:+ sliceFrom (String.length apiKey - 4) apiKey.

Definition isWsHandshake (r : Request) (path : string) : bool :=
  if negb (String.eqb path "/api/v1/ws") then false
  else if negb (mem (toUpperCase (method r)) SAFE_METHODS) then false
  else wsHandshake r.

Definition clientApiPolicy (r : Request) (path : string) : AuthOutcome :=
  if isLocalOnlyPath path (Some (method r)) && negb (isLoopbackRequest r) then
    Reject 403 "LOCAL_ONLY" "This endpoint is only available from loopback"
  else
    match nonEmpty (extractBearer r) with
    | None =>
        if isWsHandshake r path then Allow (mkSubject anonymous "ws-handshake" None [])
        else match isDashboardSessionAuthenticated E r with
             | None => Throws
             | Some true => Allow (mkSubject dashboard_session "dashboard" None [])
             | Some false =>
                 if negb (isRequireApiKeyEnabled E) then Allow (mkSubject anonymous "local" None [])
                 else Reject 401 "AUTH_002" "Authentication required"
             end
    | Some bearer =>
        match validateApiKey E bearer with
        | None => Throws
        | Some false =>
            if negb (isRequireApiKeyEnabled E) then Allow (mkSubject anonymous "local" None [])
            else Reject 401 "AUTH_002" "Invalid API key"
        | Some true => Allow (mkSubject client_api_key (maskKeyId bearer) None [])
        end
    end.

Definition WS_BRIDGE_INTERNAL_PATH : string := "/api/internal/codex-responses-ws".
Definition WS_BRIDGE_SECRET_HEADER : string := "x-omniroute-ws-bridge-secret".
Definition INSPECTOR_INGEST_PATH : string := "/api/tools/traffic-inspector/internal/ingest".
Definition VIDEO_BRIDGE_BROKER_PATH : string := "/api/modality-bridge/video/extract".
Definition VIDEO_BRIDGE_DRILLDOWN_PATH : string := "/api/modality-bridge/video/drilldown".

Definition MODEL_SYNC_MANAGEMENT_PATH : re :=
  seqs [lit "/api/providers/"; plus notSlash; one slash; Alt (lit "sync-models") (lit "models")].

Definition hasBearerToken (r : Request) : bool :=
  match header r "authorization" with Some h => startsWith (toLowerCase (trim h)) "bearer " | None => false end.

Definition isInternalModelSyncRequest (r : Request) (path : string) : bool :=
  if negb (reTest MODEL_SYNC_MANAGEMENT_PATH path) then false else isModelSyncInternalRequest E r.

Definition isValidWsBridgeRequest (r : Request) (path : string) : bool :=
  if negb (String.eqb path WS_BRIDGE_INTERNAL_PATH) then false
  else if isEmpty (OMNIROUTE_WS_BRIDGE_SECRET E) then false
  else match nonEmpty (header r WS_BRIDGE_SECRET_HEADER) with
       | None => false
       | Some provided => String.eqb (sha256 E (OMNIROUTE_WS_BRIDGE_SECRET E)) (sha256 E provided)
       end.

(** The metadata of a valid key; [None] when the backend throws. *)
Definition keyMetadata (apiKey : string) : option (option ApiKeyMeta) :=
  match isValidApiKey E apiKey with
  | None => None
  | Some false => Some None
  | Some true => getApiKeyMetadata E apiKey
  end.

Definition backendUnavailable : AuthOutcome := Reject 503 "AUTH_BACKEND_UNAVAILABLE" "Service temporarily unavailable".

Definition grantedBy (scopes : list string) (last : string) : string :=
  if mem "admin" scopes then "admin" else if mem "manage" scopes then "manage" else last.

(** The outcome a key with enough scope decides; [None] when it decides nothing. *)
Definition keyOutcome (apiKey : option string) (enough : ApiKeyMeta -> bool) (keyLabel : ApiKeyMeta -> string) : option AuthOutcome :=
  match nonEmpty apiKey with
  | None => None
  | Some k =>
      match keyMetadata k with
      | None => Some backendUnavailable
      | Some None => None
      | Some (Some meta) => if enough meta then Some (Allow (mkSubject management_key (meta_id meta) (Some (keyLabel meta)) [])) else None
      end
  end.

(** Tier 1: a local-only path from elsewhere. *)
Definition localOnlyFromElsewhere (r : Request) (path : string) : AuthOutcome :=
  let denied := Reject 403 "LOCAL_ONLY" "This endpoint requires localhost access" in
  if negb (isLocalOnlyBypassableByManageScope (snapshot E) path) then denied
  else
    let enough meta := if startsWith path "/api/mcp/" then hasMcpConnectOrManageScope (meta_scopes meta) else hasManageScope (meta_scopes meta) in
    let keyLabel meta := "api-key-" +:+ grantedBy (meta_scopes meta) (if mem MCP_CONNECT_SCOPE (meta_scopes meta) then "mcp-connect" else "manage")
                         +:+ "-scope-local-only-bypass" in
    match keyOutcome (extractApiKey E r false) enough keyLabel with
    | Some outcome => outcome
    | None => match isDashboardSessionAuthenticated E r with
              | None => backendUnavailable
              | Some true => Allow (mkSubject dashboard_session "dashboard" (Some "dashboard-session-local-only-bypass") [])
              | Some false => denied
              end
    end.

(** The subjects that prove themselves within the machine. *)
Definition internalSubject (r : Request) (path : string) : option AuthSubject :=
  if String.eqb path INSPECTOR_INGEST_PATH && isLoopbackRequest r then
    Some (mkSubject management_key "inspector-ingest" (Some "inspector-ingest-token") [])
  else if isInternalModelSyncRequest r path then Some (mkSubject management_key "model-sync" (Some "internal-model-sync") [])
  else if (String.eqb path VIDEO_BRIDGE_BROKER_PATH || String.eqb path VIDEO_BRIDGE_DRILLDOWN_PATH) && isLoopbackRequest r &&
          isVideoBridgeBrokerTokenRequest E r path then
    let drilldown := String.eqb path VIDEO_BRIDGE_DRILLDOWN_PATH in
    Some (mkSubject management_key (if drilldown then "video-bridge-drilldown" else "video-bridge-broker")
            (Some (if drilldown then "internal-video-bridge-drilldown" else "internal-video-bridge-broker")) [])
  else if isLoopbackRequest r && isInternalServiceRequest E r then
    Some (mkSubject management_key "internal-service" (Some "internal-service-token") [])
  else if hasValidLoopbackCliToken r then Some LOCAL_CLI_SUBJECT
  else None.

Definition scopeName (s : AccessScope) : string := match s with read_scope => "read" | write_scope => "write" | admin_scope => "admin" end.

(** Tiers 2 and 3: sessions, tokens and keys. *)
Definition credentials (r : Request) (path : string) : AuthOutcome :=
  if negb (isAlwaysProtectedPath path) && negb (isAuthRequired E r (isLoopbackRequest r)) then
    Allow (mkSubject anonymous "anonymous" (Some "auth-disabled") [])
  else match isDashboardSessionAuthenticated E r with
  | None => Throws
  | Some true => Allow (mkSubject dashboard_session "dashboard" None [])
  | Some false =>
      match evaluateAccessTokenAuth r with
      | ok scope id _ =>
          Allow (mkSubject management_key id
            (Some ("access-token:" +:+ scopeName scope)) [])
      | error => backendUnavailable
      | invalid => Reject 401 "AUTH_001" "Invalid or expired access token"
      | insufficient have need =>
          Reject 403 "AUTH_SCOPE" ("Access token scope '" +:+ scopeName have +:+ "' is insufficient; '" +:+ scopeName need +:+ "' required.")
      | absent =>
          match keyOutcome (extractApiKey E r false) (fun meta => hasManageScope (meta_scopes meta)) (fun _ => "api-key-manage-scope") with
          | Some outcome => outcome
          | None =>
              let bearerPresent := hasBearerToken r in
              Reject (if bearerPresent then 403 else 401) "AUTH_001"
                (if bearerPresent then "Invalid management token" else "Authentication required")
          end
      end
  end.

Definition managementPolicy (r : Request) (path : string) : AuthOutcome :=
  if isValidWsBridgeRequest r path then Allow (mkSubject management_key "ws-bridge" (Some "codex-ws-bridge-secret") [])
  else if isLocalOnlyPath path (Some (method r)) && negb (isLoopbackRequest r) && negb (isPrivateLanRequest r) then
    localOnlyFromElsewhere r path
  else match internalSubject r path with
  | Some subject => Allow subject
  | None =>
      match (if startsWith path "/api/mcp/" then
               keyOutcome (extractApiKey E r false) (fun meta => hasMcpConnectOrManageScope (meta_scopes meta))
                 (fun meta => "api-key-" +:+ grantedBy (meta_scopes meta) "mcp-connect" +:+ "-scope-mcp-carve-out")
             else None) with
      | Some outcome => outcome
      | None => credentials r path
      end
  end.

Definition evaluate (class : RouteClass) (r : Request) (path : string) : AuthOutcome :=
  match class with
  | PUBLIC => publicPolicy r
  | TENANT => tenantPolicy r path
  | CLIENT_API => clientApiPolicy r path
  | MANAGEMENT => managementPolicy r path
  end.
End Policies.

(** ** The pipeline: [pipeline.ts] *)

Inductive OriginVerdict := origin_ok | cross_site | invalid_origin.

Record PipelineEnv := mkPipelineEnv {
  requestId : string;
  isDraining : bool;
  isManualDrainActive : bool;
  bodySizeRejection : Request -> string -> option (Z * string);   (* status and error *)
  checkRequestIP : Request -> option string -> option string;      (* the reason of a refusal *)
  validateBrowserMutationOrigin : Request -> OriginVerdict;
  validateDashboardCsrfToken : Request -> bool;
  nativeCallback : bool;      (* the query carries user_id and access_token *)
  search : string
}.

Definition Headers := string -> option string.
Definition setHeader (k v : string) (h : Headers) : Headers := fun n => if String.eqb n k then Some v else h n.
Definition deleteHeader (k : string) (h : Headers) : Headers := fun n => if String.eqb n k then None else h n.

Inductive Response :=
| RedirectTo (target : string)
| LoginRedirect
| Failed (status : Z) (code : string)
| Crashed
| Preflight
| Next (headers : Headers).

Definition kindName (k : SubjectKind) : string :=
  match k with
  | client_api_key => "client_api_key" | dashboard_session => "dashboard_session" | management_key => "management_key"
  | tenant_session => "tenant_session" | anonymous => "anonymous"
  end.

Definition className (c : RouteClass) : string :=
  match c with PUBLIC => "PUBLIC" | CLIENT_API => "CLIENT_API" | MANAGEMENT => "MANAGEMENT" | TENANT => "TENANT" end.

Definition localityName (l : locality) : string := match l with Loopback => "loopback" | Lan => "lan" | Remote => "remote" end.

Definition stampSubject (s : AuthSubject) (h : Headers) : Headers :=
  let h := setHeader AUTHZ_HEADER_AUTH_ID (subject_id s) (setHeader AUTHZ_HEADER_AUTH_KIND (kindName (kind s)) h) in
  let h := match nonEmpty (label s) with Some l => setHeader AUTHZ_HEADER_AUTH_LABEL l h | None => h end in
  match scopes s with [] => h | ws => setHeader AUTHZ_HEADER_AUTH_SCOPES (join "," ws) h end.

Definition isDashboardPath (pathname : string) : bool :=
  aliasOf pathname "/dashboard" || aliasOf pathname "/home" || isAreaUrl theTable pathname.

Definition isManagementDashboardRoute (c : RouteClassification) (pathname : string) : bool :=
  bool_decide (routeClass c = MANAGEMENT) && isDashboardPath pathname.

Definition isUnsafeMutationMethod (m : string) : bool := negb (mem (toUpperCase m) SAFE_METHODS).

(** A mutating client call during a manual drain. *)
Definition shouldRejectForManualDrain (active : bool) (class : RouteClass) (m : string) : bool :=
  active && bool_decide (class = CLIENT_API) && negb (mem m SAFE_METHODS).

Section Pipeline.
Context (E : Env) (P : PipelineEnv).

Definition peerLocality (r : Request) : locality :=
  classifyStampedPeerLocality (header r PEER_IP_HEADER) (header r VIA_PROXY_HEADER) (OMNIROUTE_PEER_STAMP_TOKEN E).

(** The headers of the request without what only the server may say, and with
    what it says. *)
Definition requestHeaders (r : Request) (class : RouteClass) : Headers :=
  let h := foldl (fun h k => deleteHeader k h) (header r) AUTHZ_TRUSTED_HEADERS in
  let h := deleteHeader CLIENT_IP_HEADER (deleteHeader VIA_PROXY_HEADER (deleteHeader PEER_IP_HEADER h)) in
  let h := setHeader AUTHZ_HEADER_REQUEST_ID (requestId P) (setHeader AUTHZ_HEADER_ROUTE_CLASS (className class) h) in
  let h := setHeader AUTHZ_HEADER_PEER_LOCALITY (localityName (peerLocality r)) h in
  let h := match resolveStampedPeer (header r PEER_IP_HEADER) (OMNIROUTE_PEER_STAMP_TOKEN E) with
           | Some trustedPeerIp => setHeader AUTHZ_HEADER_TRUSTED_PEER_IP trustedPeerIp h
           | None => h
           end in
  deleteHeader CLI_TOKEN_HEADER h.

(** The address the filter judges. *)
Definition filteredAddress (r : Request) : option string :=
  let token := OMNIROUTE_PEER_STAMP_TOKEN E in
  match resolveStampedPeer (header r CLIENT_IP_HEADER) token with
  | Some stampedClientIp => Some stampedClientIp
  | None => if resolveStampedViaProxy (header r VIA_PROXY_HEADER) token then None else resolveStampedPeer (header r PEER_IP_HEADER) token
  end.

(** A cookie session that changes state from a page that is not ours. *)
Definition foreignMutation (r : Request) (class : RouteClass) (subject : AuthSubject) : bool :=
  match class, kind subject with
  | MANAGEMENT, dashboard_session | TENANT, tenant_session =>
      isUnsafeMutationMethod (method r) &&
      match validateBrowserMutationOrigin P r with
      | origin_ok => false
      | cross_site => true
      | invalid_origin => negb (validateDashboardCsrfToken P r)
      end
  | _, _ => false
  end.

Definition authorize (r : Request) (c : RouteClassification) : Response :=
  let class := routeClass c in
  match (if bool_decide (peerLocality r = Loopback) then None else checkRequestIP P r (filteredAddress r)) with
  | Some reason => Failed 403 (if isEmpty reason then "Access denied" else reason)
  | None =>
  match evaluate E class r (normalizedPath c) with
  | Throws => Crashed
  | Reject status code _ =>
      if isManagementDashboardRoute c (normalizedPath c) then LoginRedirect else Failed status code
  | Allow subject =>
      if foreignMutation r class subject then Failed 403 "INVALID_ORIGIN"
      else Next (stampSubject subject (requestHeaders r class))
  end end.

Definition runAuthzPipeline (enforce : bool) (pathname : string) (r : Request) : Response :=
  if String.eqb pathname "/" then RedirectTo (if nativeCallback P then "/callback" +:+ search P else "/dashboard")
  else if isMalformedAreaUrl theTable pathname then Failed 400 "INVALID_PATH"
  else
    let c := classifyRoute pathname (method r) in
    let guarded := normalizedPath c in
    let shuttingDown := startsWith guarded "/api/" && isDraining P in
    if shuttingDown || shouldRejectForManualDrain (isManualDrainActive P) (routeClass c) (method r) then Failed 503 "SERVICE_UNAVAILABLE"
    else match (if startsWith guarded "/api/" && negb (mem (method r) ["GET"; "OPTIONS"]) then bodySizeRejection P r guarded else None) with
    | Some (status, code) => Failed status code
    | None =>
        if String.eqb (method r) "OPTIONS" then Preflight
        else if negb enforce then Next (requestHeaders r (routeClass c))
        else authorize r c
    end.
End Pipeline.

(** ** Stamps *)

(** A stamp speaks for the server alone: a peer is read from a header exactly
    when the header is the process's token, a bar and the peer, so whoever does
    not know the token cannot make one up. *)
Theorem stamp_spec h token ip :
  resolveStampedPeer (Some h) (Some token) = Some ip <->
    h = token +:+ String "|" ip /\ token <> EmptyString /\ ip <> EmptyString /\ occurs "|" token = false.
Proof.
  unfold resolveStampedPeer, stampPayload. split.
  - intros H. destruct (isEmpty h || isEmpty token) eqn:Ee; [done|]. apply orb_false_iff in Ee as [_ Et].
    destruct (splitFirst "|" h) as [[provided payload]|] eqn:Es; [|done]. apply splitFirst_Some in Es as [-> Ho].
    repeat case_if_in H; try done. injection H as ->. match goal with H : String.eqb provided token = true |- _ => apply String.eqb_eq in H as -> end.
    split_and!; [done|by destruct token|by destruct ip|done].
  - intros (-> & Ht & Hi & Ho). destruct token as [|c token]; [done|]. cbn [isEmpty orb]. rewrite orb_false_r.
    change (isEmpty (String c token +:+ String "|" ip)) with false. cbv iota. rewrite splitFirst_app by done. cbn [isEmpty].
    rewrite Nat.eqb_refl, String.eqb_refl. cbn [negb]. by destruct ip.
Qed.

(** ** The spawn-capable surface *)

Definition unrelated (q : string) : bool :=
  forallb (fun s => negb (spawnRelated q s)) SPAWN_CAPABLE_PREFIXES && forallb (fun r => bool_decide (derivs q r = Void)) SPAWN_CAPABLE_PATTERNS.

(** A path under a prefix that no spawn-capable prefix is comparable to. *)
Lemma unrelated_spec q path : unrelated q = true -> startsWith path q = true -> spawnCapable path = false.
Proof.
  unfold unrelated, spawnCapable. intros [H1 H2]%andb_true_iff Hq. rewrite forallb_forall in H1, H2. apply orb_false_iff. split.
  - destruct (existsb _ _) eqn:E; [|done]. apply existsb_exists in E as (s & Hs & Hu). rewrite under_spec in Hu.
    specialize (H1 s Hs). apply negb_true_iff in H1. unfold spawnRelated in H1. rewrite !orb_false_iff in H1. destruct H1 as [[_ H1] H1'].
    destruct (prefixes_comparable path q s Hq Hu); congruence.
  - destruct (existsb _ _) eqn:E; [|done]. apply existsb_exists in E as (r & Hr & Ht). specialize (H2 r Hr). apply bool_decide_eq_true in H2.
    apply startsWith_spec in Hq as [t ->]. by rewrite reTest_app, H2, reTest_void in Ht.
Qed.

(** The one public route on the spawn-capable surface checks its own key. *)
Definition chaosRoute (path : string) : bool := pathMatchesExactRoute path "/api/skills/collect/chaos".

Lemma exact_not_spawn path routes :
  forallb (fun e => negb (spawnCapable e) && negb (spawnCapable (e +:+ "/"))) routes = true ->
  matchesAnyExactRoute path routes = true -> spawnCapable path = false.
Proof.
  intros H (e & He & Hm)%existsb_exists. rewrite forallb_forall in H. specialize (H e He). to_prop.
  unfold pathMatchesExactRoute in Hm. by apply orb_true_iff in Hm as [->%String.eqb_eq| ->%String.eqb_eq].
Qed.

Lemma prefixes_not_spawn path qs : forallb unrelated qs = true -> existsb (startsWith path) qs = true -> spawnCapable path = false.
Proof. intros H (q & Hq & Hs)%existsb_exists. rewrite forallb_forall in H. eapply unrelated_spec; [by apply H|exact Hs]. Qed.

Lemma public_api_spawn path m :
  startsWith path "/api/v1/" = false -> isPublicApiRoute path m = true -> spawnCapable path = true -> chaosRoute path = true.
Proof.
  intros Hv1 H Hs. unfold isPublicApiRoute in H. case_if_in H; [done|].
  destruct (isPublicCloudApiRoute path m) eqn:Ec.
  { exfalso. assert (matchesAnyExactRoute path (map fst PUBLIC_CLOUD_API_ROUTES) = true) as Hm.
    { unfold isPublicCloudApiRoute in Ec. apply existsb_exists in Ec as ([p ms] & Hin & [Hp _]%andb_true_iff). apply existsb_exists.
      exists p. split; [by apply (in_map fst _ (p, ms))|done]. }
    apply exact_not_spawn in Hm; [congruence|]. vm_compute. reflexivity. }
  destruct (matchesAnyExactRoute path PUBLIC_API_ROUTES_EXACT) eqn:Ee.
  { apply existsb_exists in Ee as (e & He & Hm). destruct (decide (e = "/api/skills/collect/chaos")) as [->|Hne]; [exact Hm|]. exfalso.
    assert (spawnCapable path = false); [|congruence].
    apply (exact_not_spawn path (List.filter (fun e => negb (String.eqb e "/api/skills/collect/chaos")) PUBLIC_API_ROUTES_EXACT)); [vm_compute; reflexivity|].
    apply existsb_exists. exists e. split; [|exact Hm]. apply filter_In. split; [exact He|]. apply negb_true_iff, String.eqb_neq, Hne. }
  exfalso. assert (spawnCapable path = false); [|congruence].
  destruct (existsb (startsWith path) PUBLIC_API_ROUTE_PREFIXES) eqn:Ep.
  { apply existsb_exists in Ep as (q & Hq & Hst). destruct (decide (q = "/api/v1/")) as [->|Hne]; [congruence|].
    apply (prefixes_not_spawn path (List.filter (fun e => negb (String.eqb e "/api/v1/")) PUBLIC_API_ROUTE_PREFIXES)); [vm_compute; reflexivity|].
    apply existsb_exists. exists q. split; [|exact Hst]. apply filter_In. split; [exact Hq|]. apply negb_true_iff, String.eqb_neq, Hne. }
  case_if_in H; [done|]. destruct (matchesAnyExactRoute path PUBLIC_READONLY_API_ROUTES_EXACT) eqn:Er.
  { revert Er. apply exact_not_spawn. vm_compute. reflexivity. }
  unfold isPublicReadonlyCorsRoute in H. case_if_in H; [done|]. revert H. apply exact_not_spawn. vm_compute. reflexivity.
Qed.

Lemma exactOr_not_spawn path p :
  spawnCapable p = false -> unrelated (p +:+ "/") = true -> aliasOf path p = true -> spawnCapable path = false.
Proof.
  intros Hp Hu. unfold aliasOf. intros [->%String.eqb_eq|H]%orb_true_iff; [exact Hp|exact (unrelated_spec _ _ Hu H)].
Qed.

(** Where a spawn-capable path can be classified. *)
Lemma spawn_class path ar m : spawnCapable path = true ->
  let c := classifyPath path ar m in
  normalizedPath c = path /\ (routeClass c = CLIENT_API \/ routeClass c = MANAGEMENT \/ chaosRoute path = true).
Proof.
  intros Hs c. unfold classifyPath in c.
  destruct (String.eqb path "/" || isEmpty path) eqn:E0.
  { exfalso. apply orb_true_iff in E0 as [->%String.eqb_eq|E0]; [vm_compute in Hs; discriminate Hs|]. destruct path; [vm_compute in Hs|]; discriminate. }
  destruct (String.eqb_spec path "/dashboard/onboarding") as [->|_]; [vm_compute in Hs; discriminate Hs|].
  destruct (String.eqb path "/connect" || startsWith path "/connect/") eqn:E1.
  { pose proof (exactOr_not_spawn path "/connect" eq_refl ltac:(vm_compute; reflexivity) E1). congruence. }
  destruct (startsWith path "/dashboard"); [by repeat split; auto|].
  destruct (String.eqb path "/api/v1" || startsWith path "/api/v1/") eqn:E2; [by repeat split; auto|].
  destruct (String.eqb path "/api/v1beta" || startsWith path "/api/v1beta/"); [by repeat split; auto|].
  destruct (String.eqb path "/api/tenant" || startsWith path "/api/tenant/") eqn:E3.
  { pose proof (exactOr_not_spawn path "/api/tenant" eq_refl ltac:(vm_compute; reflexivity) E3). congruence. }
  destruct (startsWith path "/api/"); [|by repeat split; auto]. apply orb_false_iff in E2 as [_ E2].
  destruct (isClassifiedAsPublic path m) eqn:Ep; [|by repeat split; auto].
  split; [done|]. right. right. exact (public_api_spawn path m E2 Ep Hs).
Qed.

(** A request from elsewhere: neither this machine nor its private network. *)
Definition fromElsewhere (E : Env) (r : Request) : Prop := isLoopbackRequest E r = false /\ isPrivateLanRequest E r = false.

(** The exact paths whose safe methods only read. *)
Definition readExempt (r : Request) (path : string) : bool :=
  mem (toUpperCase (method r)) SAFE_METHODS && mem path LOCAL_ONLY_API_GET_EXEMPTIONS.

Lemma spawn_guarded r path : spawnCapable path = true -> readExempt r path = false -> isLocalOnlyPath path (Some (method r)) = true.
Proof.
  intros Hs Hr. destruct (isLocalOnlyPath path (Some (method r))) eqn:E; [done|].
  destruct (isLocalOnlyPath_method path _ (spawn_local_only path Hs) E) as (m & [= <-] & H1 & H2). unfold readExempt in Hr. by rewrite H1, H2 in Hr.
Qed.

Lemma spawn_rejected E r path class :
  spawnCapable path = true -> readExempt r path = false -> fromElsewhere E r -> class = CLIENT_API \/ class = MANAGEMENT ->
  exists m, evaluate E class r path = Reject 403 "LOCAL_ONLY" m.
Proof.
  intros Hs Hr [Hl Hp] [->| ->]; pose proof (spawn_guarded r path Hs Hr) as Hg; unfold evaluate.
  - unfold clientApiPolicy. rewrite Hg, Hl. by eexists.
  - unfold managementPolicy, isValidWsBridgeRequest. rewrite Hg, Hl, Hp.
    destruct (String.eqb_spec path WS_BRIDGE_INTERNAL_PATH) as [->|_]; [vm_compute in Hs; discriminate Hs|]. cbn [negb andb].
    unfold localOnlyFromElsewhere. rewrite (spawn_never_bypassable _ _ Hs). by eexists.
Qed.

Lemma authorize_next E P r c h : authorize E P r c = Next h ->
  exists subject, evaluate E (routeClass c) r (normalizedPath c) = Allow subject /\ foreignMutation P r (routeClass c) subject = false /\
    h = stampSubject subject (requestHeaders E P r (routeClass c)).
Proof.
  unfold authorize. intros H. destruct (if bool_decide _ then _ else _); [done|]. destruct (evaluate _ _ _ _) as [s|st code m|]; [|by case_if_in H|done].
  destruct (foreignMutation _ _ _ _) eqn:Ef; [done|]. injection H as <-. by exists s.
Qed.

Lemma pipeline_next E P enforce pathname r h : runAuthzPipeline E P enforce pathname r = Next h ->
  let c := classifyRoute pathname (method r) in
  isMalformedAreaUrl theTable pathname = false /\
  ((enforce = false /\ h = requestHeaders E P r (routeClass c)) \/ (enforce = true /\ authorize E P r c = Next h)).
Proof.
  intros H c. unfold runAuthzPipeline in H. fold c in H. case_if_in H; [done|]. destruct (isMalformedAreaUrl theTable pathname) eqn:Em; [done|]. split; [done|].
  cbv zeta in H. case_if_in H; [done|]. destruct (if _ && _ then _ else _) as [[]|]; [done|].
  case_if_in H; [done|]. destruct enforce; cbn [negb] in H; [by right|left]. by injection H as <-.
Qed.

(** C9. No request from elsewhere starts a process.  Whatever the database, the
    sessions, the keys and the bypass list say, a request that comes neither from
    this machine nor from its private network never reaches a spawn-capable
    route, except for the exact paths whose safe methods only read and the one
    public route that checks its own key. *)
Theorem spawn_surface_closed E P pathname r h :
  let path := normalizedPath (classifyRoute pathname (method r)) in
  spawnCapable path = true -> fromElsewhere E r ->
  runAuthzPipeline E P true pathname r = Next h ->
  readExempt r path = true \/ chaosRoute path = true.
Proof.
  cbv zeta. intros Hs He H. apply pipeline_next in H as [_ [[Hf _]|[_ H]]]; [done|].
  apply authorize_next in H as (s & Ha & _ & _). revert Hs Ha. unfold classifyRoute. destruct (normalizePathname pathname) as [p ar].
  intros Hs Ha. assert (spawnCapable p = true) as Hp.
  { unfold classifyPath in Hs. destruct (String.eqb p "/" || isEmpty p); [vm_compute in Hs; discriminate Hs|]. by repeat case_if_in Hs. }
  destruct (spawn_class p ar (method r) Hp) as [Hn Hc]. rewrite Hn in *.
  destruct (readExempt r p) eqn:Er; [by left|]. destruct Hc as [Hc|[Hc|Hc]]; [| |by right];
    destruct (spawn_rejected E r p (routeClass (classifyPath p ar (method r))) Hp Er He) as [m Hm]; auto; congruence.
Qed.

(** ** Management credentials *)

(** The request's header names a key the backend knows, whose scopes have a
    property. *)
Definition hasKey (E : Env) (r : Request) (enough : list string -> bool) : Prop :=
  exists k meta, extractApiKey E r false = Some k /\ isValidApiKey E k = Some true /\ getApiKeyMetadata E k = Some (Some meta) /\
    enough (meta_scopes meta) = true.

(** A key that reaches the path: one with a management scope or, under the tool
    protocol's prefix and nowhere else, one with the scope to connect. *)
Definition hasKeyFor (E : Env) (r : Request) (path : string) : Prop :=
  hasKey E r hasManageScope \/ startsWith path "/api/mcp/" = true /\ hasKey E r (mem MCP_CONNECT_SCOPE).

(** A command-line token whose scope covers the method and the address. *)
Definition hasToken (E : Env) (r : Request) : Prop :=
  exists t v, bearerToken r = Some t /\ startsWith t ACCESS_TOKEN_PREFIX = true /\ verifyAccessToken E t = Some (Some v) /\
    scopeSatisfies (token_scope v) (inferRequiredScope (method r) (urlPathname r)) = true.

(** The proofs of another process of the router. *)
Definition internalCaller (E : Env) (r : Request) (path : string) : Prop :=
  isValidWsBridgeRequest E r path = true \/ isInternalModelSyncRequest E r path = true.

Lemma keyOutcome_allow E k enough l s : keyOutcome E k enough l = Some (Allow s) ->
  exists key meta, k = Some key /\ isValidApiKey E key = Some true /\ getApiKeyMetadata E key = Some (Some meta) /\ enough meta = true.
Proof.
  unfold keyOutcome, keyMetadata, nonEmpty. destruct k as [key|]; [|done]. destruct (isEmpty key); [done|].
  destruct (isValidApiKey E key) as [[]|] eqn:Ev; [|done|done].
  destruct (getApiKeyMetadata E key) as [[meta|]|] eqn:Em; [|done|done].
  destruct (enough meta) eqn:Ee; [|done]. intros _. by exists key, meta.
Qed.

Lemma keyFor_manage E r path k meta :
  extractApiKey E r false = Some k -> isValidApiKey E k = Some true -> getApiKeyMetadata E k = Some (Some meta) ->
  hasManageScope (meta_scopes meta) = true -> hasKeyFor E r path.
Proof. intros H1 H2 H3 H4. left. by exists k, meta. Qed.

Lemma keyFor_connect E r path k meta : startsWith path "/api/mcp/" = true ->
  extractApiKey E r false = Some k -> isValidApiKey E k = Some true -> getApiKeyMetadata E k = Some (Some meta) ->
  hasMcpConnectOrManageScope (meta_scopes meta) = true -> hasKeyFor E r path.
Proof.
  intros Hp H1 H2 H3 H4. unfold hasMcpConnectOrManageScope in H4.
  destruct (hasManageScope (meta_scopes meta)) eqn:Em; [by eapply keyFor_manage|]. right. split; [done|]. by exists k, meta.
Qed.

Lemma evaluateAccessToken_ok E r sc i n : evaluateAccessTokenAuth E r = ok sc i n -> hasToken E r.
Proof.
  unfold evaluateAccessTokenAuth, hasToken. destruct (bearerToken r) as [t|]; [|done].
  destruct (startsWith t ACCESS_TOKEN_PREFIX) eqn:Ep; [|done]. cbn [negb].
  destruct (verifyAccessToken E t) as [[v|]|] eqn:Ev; [|done|done].
  destruct (scopeSatisfies _ _) eqn:Es; [|done]. intros _. by exists t, v.
Qed.

Lemma credentials_allow E r path s : credentials E r path = Allow s ->
  (isAlwaysProtectedPath path = false /\ isAuthRequired E r (isLoopbackRequest E r) = false) \/
  isDashboardSessionAuthenticated E r = Some true \/ hasToken E r \/ hasKeyFor E r path.
Proof.
  unfold credentials. destruct (negb (isAlwaysProtectedPath path) && negb (isAuthRequired E r (isLoopbackRequest E r))) eqn:E0.
  { intros _. left. to_prop. auto. }
  destruct (isDashboardSessionAuthenticated E r) as [[]|]; [by auto| |done].
  destruct (evaluateAccessTokenAuth E r) eqn:Et; try done.
  - destruct (keyOutcome _ _ _ _) as [o|] eqn:Ek; [|by destruct (hasBearerToken r)]. intros ->.
    apply keyOutcome_allow in Ek as (k & meta & H1 & H2 & H3 & H4). right. right. right. by eapply keyFor_manage.
  - intros _. right. right. left. exact (evaluateAccessToken_ok _ _ _ _ _ Et).
Qed.

Lemma management_allow E r path s : isLoopbackRequest E r = false -> managementPolicy E r path = Allow s ->
  internalCaller E r path \/ isDashboardSessionAuthenticated E r = Some true \/ hasToken E r \/ hasKeyFor E r path \/
  (isAlwaysProtectedPath path = false /\ isAuthRequired E r false = false).
Proof.
  intros Hl. unfold managementPolicy. destruct (isValidWsBridgeRequest E r path) eqn:Ew; [by left; left|]. rewrite Hl. cbn [negb]. rewrite andb_true_r.
  case_if.
  - unfold localOnlyFromElsewhere. case_if; [done|].
    destruct (keyOutcome _ _ _ _) as [o|] eqn:Ek.
    + intros ->. apply keyOutcome_allow in Ek as (k & meta & H1 & H2 & H3 & H4). right. right. right. left.
      destruct (startsWith path "/api/mcp/") eqn:Emcp; [by eapply keyFor_connect|by eapply keyFor_manage].
    + destruct (isDashboardSessionAuthenticated E r) as [[]|]; [|done|done]. auto.
  - unfold internalSubject. rewrite Hl, !andb_false_r. cbn [andb]. destruct (isInternalModelSyncRequest E r path) eqn:Em; [by left; right|].
    assert (hasValidLoopbackCliToken E r = false) as ->. { unfold hasValidLoopbackCliToken. rewrite Hl. by destruct (cliTokenDisabled E). }
    destruct (startsWith path "/api/mcp/") eqn:Emcp.
    + destruct (keyOutcome _ _ _ _) as [o|] eqn:Ek.
      * intros ->. apply keyOutcome_allow in Ek as (k & meta & H1 & H2 & H3 & H4). right. right. right. left. by eapply keyFor_connect.
      * intros H%credentials_allow. rewrite Hl in H. tauto.
    + intros H%credentials_allow. rewrite Hl in H. tauto.
Qed.

(** C10. Management needs a credential.  A management request that does not come
    from this machine reaches its route only with the proof of another process of
    the router, a dashboard session, a command-line token whose scope covers the
    method and address, a valid key with a management scope, or, on a path under
    /api/mcp/ and on no other, a valid key whose scopes name mcp:connect (which
    is no management scope); or else the settings ask for no login, and even then
    never on an always-protected route. *)
Theorem management_needs_credential E P pathname r h :
  let c := classifyRoute pathname (method r) in
  routeClass c = MANAGEMENT -> isLoopbackRequest E r = false ->
  runAuthzPipeline E P true pathname r = Next h ->
  internalCaller E r (normalizedPath c) \/ isDashboardSessionAuthenticated E r = Some true \/ hasToken E r \/
  hasKeyFor E r (normalizedPath c) \/ (isAlwaysProtectedPath (normalizedPath c) = false /\ isAuthRequired E r false = false).
Proof.
  cbv zeta. intros Hc Hl H. apply pipeline_next in H as [_ [[Hf _]|[_ H]]]; [done|].
  apply authorize_next in H as (s & Ha & _ & _). rewrite Hc in Ha. by apply (management_allow E r _ s).
Qed.

(** ** Forwarded headers *)

Lemma requestHeaders_spec E P r class :
  let h := requestHeaders E P r class in
  let token := OMNIROUTE_PEER_STAMP_TOKEN E in
  h AUTHZ_HEADER_ROUTE_CLASS = Some (className class) /\ h AUTHZ_HEADER_REQUEST_ID = Some (requestId P) /\
  h AUTHZ_HEADER_PEER_LOCALITY = Some (localityName (peerLocality E r)) /\
  h AUTHZ_HEADER_TRUSTED_PEER_IP = resolveStampedPeer (header r PEER_IP_HEADER) token /\
  Forall (fun n => h n = None) [AUTHZ_HEADER_AUTH_KIND; AUTHZ_HEADER_AUTH_ID; AUTHZ_HEADER_AUTH_LABEL; AUTHZ_HEADER_AUTH_SCOPES;
                                PEER_IP_HEADER; VIA_PROXY_HEADER; CLIENT_IP_HEADER; CLI_TOKEN_HEADER].
Proof.
  unfold requestHeaders. cbv zeta. destruct (resolveStampedPeer _ _) as [i|]; (split_and!; [reflexivity..|repeat constructor]).
Qed.

(** The headers the server writes or removes. *)
Definition serverHeaders : list string :=
  [AUTHZ_HEADER_REQUEST_ID; PEER_IP_HEADER; VIA_PROXY_HEADER; CLIENT_IP_HEADER; CLI_TOKEN_HEADER] ++ AUTHZ_TRUSTED_HEADERS.

Lemma requestHeaders_other E P r class n : mem n serverHeaders = false -> requestHeaders E P r class n = header r n.
Proof.
  unfold mem, serverHeaders. cbn [existsb app AUTHZ_TRUSTED_HEADERS]. rewrite !orb_false_iff. intros H. destruct_and! H.
  unfold requestHeaders. cbv zeta. destruct (resolveStampedPeer _ _) as [i|]; unfold setHeader, deleteHeader; cbn [foldl AUTHZ_TRUSTED_HEADERS];
    repeat match goal with H : String.eqb n _ = false |- _ => rewrite H; clear H end; reflexivity.
Qed.

Lemma stampSubject_spec s h n :
  stampSubject s h n =
    if String.eqb n AUTHZ_HEADER_AUTH_KIND then Some (kindName (kind s))
    else if String.eqb n AUTHZ_HEADER_AUTH_ID then Some (subject_id s)
    else if String.eqb n AUTHZ_HEADER_AUTH_LABEL then match nonEmpty (label s) with Some l => Some l | None => h n end
    else if String.eqb n AUTHZ_HEADER_AUTH_SCOPES then match scopes s with [] => h n | ws => Some (join "," ws) end
    else h n.
Proof.
  unfold stampSubject, setHeader. destruct (nonEmpty (label s)) as [l|], (scopes s) as [|w ws];
    destruct (String.eqb_spec n AUTHZ_HEADER_AUTH_KIND) as [->|]; try reflexivity;
    destruct (String.eqb_spec n AUTHZ_HEADER_AUTH_ID) as [->|]; try reflexivity;
    destruct (String.eqb_spec n AUTHZ_HEADER_AUTH_LABEL) as [->|]; try reflexivity;
    destruct (String.eqb_spec n AUTHZ_HEADER_AUTH_SCOPES) as [->|]; reflexivity.
Qed.

(** A route hears the server, not the client.  In the headers a request is
    forwarded with, the class, the locality and the address of the peer are those
    the pipeline worked out, the identity is that of the subject the policy
    accepted, the secrets of the stamps and of the command line are gone, and
    every other header is the client's. *)
Theorem forwarded_headers_trusted E P pathname r h :
  runAuthzPipeline E P true pathname r = Next h ->
  let class := routeClass (classifyRoute pathname (method r)) in
  exists subject,
    evaluate E class r (normalizedPath (classifyRoute pathname (method r))) = Allow subject /\
    h AUTHZ_HEADER_AUTH_KIND = Some (kindName (kind subject)) /\ h AUTHZ_HEADER_AUTH_ID = Some (subject_id subject) /\
    h AUTHZ_HEADER_AUTH_LABEL = nonEmpty (label subject) /\
    h AUTHZ_HEADER_AUTH_SCOPES = match scopes subject with [] => None | ws => Some (join "," ws) end /\
    h AUTHZ_HEADER_ROUTE_CLASS = Some (className class) /\ h AUTHZ_HEADER_PEER_LOCALITY = Some (localityName (peerLocality E r)) /\
    h AUTHZ_HEADER_TRUSTED_PEER_IP = resolveStampedPeer (header r PEER_IP_HEADER) (OMNIROUTE_PEER_STAMP_TOKEN E) /\
    Forall (fun n => h n = None) [PEER_IP_HEADER; VIA_PROXY_HEADER; CLIENT_IP_HEADER; CLI_TOKEN_HEADER] /\
    (forall n, mem n serverHeaders = false -> h n = header r n).
Proof.
  intros H class. apply pipeline_next in H as [_ [[Hf _]|[_ H]]]; [done|]. apply authorize_next in H as (s & Ha & _ & ->).
  exists s. fold class in Ha |- *. split; [exact Ha|].
  destruct (requestHeaders_spec E P r class) as (H1 & _ & H2 & H3 & H4). rewrite !Forall_cons in H4. destruct H4 as (K1 & K2 & K3 & K4 & K5 & K6 & K7 & K8 & _).
  rewrite !stampSubject_spec. split_and!; try reflexivity.
  - change (match nonEmpty (label s) with Some l => Some l | None => requestHeaders E P r class AUTHZ_HEADER_AUTH_LABEL end = nonEmpty (label s)).
    rewrite K3. by destruct (nonEmpty (label s)).
  - change (match scopes s with [] => requestHeaders E P r class AUTHZ_HEADER_AUTH_SCOPES | ws => Some (join "," ws) end
            = match scopes s with [] => None | ws => Some (join "," ws) end). by rewrite K4.
  - exact H1.
  - exact H2.
  - exact H3.
  - rewrite !Forall_cons, !stampSubject_spec. split_and!; [exact K5|exact K6|exact K7|exact K8|constructor].
  - intros n Hn. rewrite stampSubject_spec, <- (requestHeaders_other E P r class n Hn). unfold mem, serverHeaders in Hn. cbn [existsb app AUTHZ_TRUSTED_HEADERS] in Hn.
    rewrite !orb_false_iff in Hn. destruct_and! Hn. repeat match goal with H : String.eqb n _ = false |- _ => rewrite H; clear H end. reflexivity.
Qed.

(** ** Witnesses *)

Definition exToken : string := "s3cret".
Definition exRequest (m : string) (peer : string) : Request :=
  mkRequest m (fun n => if String.eqb n PEER_IP_HEADER then Some (exToken +:+ "|" +:+ peer)
                        else if String.eqb n AUTHZ_HEADER_AUTH_KIND then Some "management_key" else None) None None "/api/system/version" false.

(** A deployment in which every session, key and token is accepted and every
    management prefix is on the bypass list. *)
Definition exEnv : Env :=
  mkEnv (Some exToken) "" false [] (fun s => s) (mkSnapshot true ["/api/"; "/api/mcp/"; "/api/services/"]) (fun _ => true) (fun _ => true) (fun _ _ => true)
    (fun _ _ => Some "key") (fun _ => Some true) (fun _ => Some (Some (mkMeta "k1" ["manage"]))) (fun _ => Some true) (fun _ _ => false)
    (fun _ => Some None) false (fun _ => Some true) (fun _ => Some None) (fun _ => None).

Definition exPipeline : PipelineEnv :=
  mkPipelineEnv "req-1" false false (fun _ _ => None) (fun _ _ => None) (fun _ => origin_ok) (fun _ => true) false "".

Definition nextOf (x : Response) : option Headers := match x with Next h => Some h | _ => None end.

(** The safe read of an exempted path passes from the public Internet. *)
Definition exRead : Response := runAuthzPipeline exEnv exPipeline true "/api/system/version" (exRequest "GET" "8.8.8.8").
Definition exReadHeaders : Headers := match exRead with Next h => h | _ => fun _ => None end.

Lemma stamp_spec_witness : resolveStampedPeer (Some "s3cret|10.0.0.7") (Some exToken) = Some "10.0.0.7".
Proof. apply (stamp_spec _ exToken "10.0.0.7"). split_and!; [reflexivity|done|done|reflexivity]. Defined.

Lemma spawn_surface_closed_witness :
  readExempt (exRequest "GET" "8.8.8.8") "/api/version-manager/status" = true \/ chaosRoute "/api/version-manager/status" = true.
Proof.
  refine (spawn_surface_closed exEnv exPipeline "/api/version-manager/status" (exRequest "GET" "8.8.8.8")
    (match runAuthzPipeline exEnv exPipeline true "/api/version-manager/status" (exRequest "GET" "8.8.8.8") with Next h => h | _ => fun _ => None end) _ _ _).
  - vm_compute. reflexivity.
  - split; vm_compute; reflexivity.
  - reflexivity.
Defined.

Lemma management_needs_credential_witness :
  internalCaller exEnv (exRequest "GET" "8.8.8.8") "/api/system/version" \/ isDashboardSessionAuthenticated exEnv (exRequest "GET" "8.8.8.8") = Some true \/
  hasToken exEnv (exRequest "GET" "8.8.8.8") \/ hasKeyFor exEnv (exRequest "GET" "8.8.8.8") "/api/system/version" \/
  (isAlwaysProtectedPath "/api/system/version" = false /\ isAuthRequired exEnv (exRequest "GET" "8.8.8.8") false = false).
Proof.
  refine (management_needs_credential exEnv exPipeline "/api/system/version" (exRequest "GET" "8.8.8.8") exReadHeaders _ _ _);
    [vm_compute; reflexivity|vm_compute; reflexivity|reflexivity].
Defined.

Lemma forwarded_headers_trusted_witness : exReadHeaders AUTHZ_HEADER_AUTH_KIND = Some "anonymous".
Proof.
  destruct (forwarded_headers_trusted exEnv exPipeline "/api/system/version" (exRequest "GET" "8.8.8.8") exReadHeaders eq_refl) as (s & Hs & Hk & _).
  rewrite Hk. revert Hs. vm_compute. intros [= <-]. reflexivity.
Defined.

(** ** Findings *)

(** The automatic update, which the local-only list calls a way to run code
    through a tunnel, is not on the deny-list: a bypass list that names it opens
    it to any key with a management scope. *)
Lemma update_route_bypassable :
  isLocalOnlyPath "/api/system/version" (Some "POST") = true /\ spawnCapable "/api/system/version" = false /\
  isLocalOnlyBypassableByManageScope (mkSnapshot true ["/api/system/version"]) "/api/system/version" = true.
Proof. split_and!; vm_compute; reflexivity. Qed.

(** The always-protected match has no path boundary. *)
Lemma always_protected_no_boundary : isAlwaysProtectedPath "/api/db-backups-report" = true.
Proof. vm_compute. reflexivity. Qed.

(** The shared address space of carriers counts as a private network. *)
Lemma carrier_space_is_lan : classifyHostLocality (Some "100.64.0.1") = Lan.
Proof. vm_compute. reflexivity. Qed.
