(* ===== verification/ShuffleDeck.v ===== *)
(** * Shuffle decks: [src/shared/utils/shuffleDeck.ts]

    A namespace deals its items from a shuffled deck: every item once per cycle,
    and a new cycle does not start with the item that ended the last one.  The
    body of a deal runs without interruption, and the mutex of the asynchronous
    form only orders the deals, so a deal is one step of the model. *)
From S2P Require Import Prelude JsMap JsString.
#[local] Open Scope nat_scope.

Record ShuffleDeck := mkDeck { order : list string; index : nat; idsKey : string }.

Definition Decks : Type := jsmap string ShuffleDeck.

Definition noDecks : Decks := [].

(** Exchange the elements at two indexes. *)
Definition swap {A} (i j : nat) (l : list A) : list A :=
  match l !! i, l !! j with
  | Some a, Some b => <[j := a]> (<[i := b]> l)
  | _, _ => l
  end.

Section Deal.
(** The draws of one deal: [rand d n] is the result of [secureRandomInt(n)] at its
    draw [d]. *)
Context (rand : nat -> nat -> nat).

Fixpoint shuffleLoop {A} (i : nat) (result : list A) : list A :=
  match i with
  | O => result
  | S i' => shuffleLoop i' (swap i (rand i (i + 1)) result)
  end.

Definition fisherYatesShuffle {A} (arr : list A) : list A := shuffleLoop (length arr - 1) arr.

Definition keyOf (itemIds : list string) : string := join "," (sortStrings itemIds).

Definition lastUsed (existing : option ShuffleDeck) (key : string) : option string :=
  match existing with
  | Some d => if String.eqb (idsKey d) key then last (order d) else None
  | None => None
  end.

(** The order of a new cycle. *)
Definition reshuffle (lastUsedId : option string) (itemIds : list string) : list string :=
  let newOrder := fisherYatesShuffle itemIds in
  match lastUsedId with
  | Some id =>
      if bool_decide (head newOrder = Some id) && (1 <? length newOrder)%nat then
        swap 0 (1 + rand 0 (length newOrder - 1)) newOrder
      else newOrder
  | None => newOrder
  end.

(** A deal of at least two items: the selected id and the next deck. *)
Definition dealNext (existing : option ShuffleDeck) (itemIds : list string) : string * ShuffleDeck :=
  let key := keyOf itemIds in
  let deal :=
    match existing with
    | Some d =>
        if String.eqb (idsKey d) key then
          match order d !! index d with
          | Some id => Some (id, mkDeck (order d) (index d + 1) (idsKey d))
          | None => None
          end
        else None
    | None => None
    end in
  match deal with
  | Some r => r
  | None =>
      let newOrder := reshuffle (lastUsed existing key) itemIds in
      (orElse (head newOrder) ""%string, mkDeck newOrder 1 key)
  end.

(** The selected id and the deck that the commit stores, if any. *)
Definition planNextFromDeckSync (namespace : string) (itemIds : list string) (decks : Decks) : string * option ShuffleDeck :=
  match itemIds with
  | [] => (""%string, None)
  | [id] => (id, None)
  | _ => let '(id, d) := dealNext (mget namespace decks) itemIds in (id, Some d)
  end.

Definition commit (namespace : string) (d : option ShuffleDeck) (decks : Decks) : Decks :=
  match d with Some d => mset namespace d decks | None => decks end.

Definition getNextFromDeckSync (namespace : string) (itemIds : list string) (decks : Decks) : Decks * string :=
  let '(id, d) := planNextFromDeckSync namespace itemIds decks in (commit namespace d decks, id).
End Deal.

(** What [secureRandomInt] promises: a number below its bound. *)
Definition fair (rand : nat -> nat -> nat) : Prop := forall d n, 0 < n -> rand d n < n.

(** ** Lemmas *)

Lemma swap_perm {A} i j (l : list A) : swap i j l ≡ₚ l.
Proof.
  unfold swap. destruct (l !! i) as [a|] eqn:Hi; [|done]. destruct (l !! j) as [b|] eqn:Hj; [|done].
  destruct (decide (i = j)) as [->|Hij]; [rewrite list_insert_insert; simplify_eq; by rewrite decide_True, list_insert_id|].
  symmetry. apply Permutation_inj. split; [by rewrite !length_insert|].
  exists (fun k => if decide (k = i) then j else if decide (k = j) then i else k). split.
  - intros x y. repeat case_decide; congruence.
  - intros k. pose proof (lookup_lt_Some _ _ _ Hi). pose proof (lookup_lt_Some _ _ _ Hj).
    repeat case_decide; subst.
    + by rewrite list_lookup_insert_eq by (by rewrite length_insert).
    + rewrite list_lookup_insert_ne by done. by rewrite list_lookup_insert_eq.
    + by rewrite !list_lookup_insert_ne.
Qed.

Lemma shuffle_perm rand {A} (l : list A) : fisherYatesShuffle rand l ≡ₚ l.
Proof.
  unfold fisherYatesShuffle. generalize (length l - 1) as n. intros n. revert l.
  induction n as [|n IH]; intros l; [done|]. cbn [shuffleLoop]. by rewrite IH, swap_perm.
Qed.

Lemma reshuffle_perm rand lastId l : reshuffle rand lastId l ≡ₚ l.
Proof.
  unfold reshuffle. destruct lastId as [id|]; [case_if|]; rewrite ?swap_perm; apply shuffle_perm.
Qed.

Lemma head_swap {A} j (l : list A) b : l !! j = Some b -> head (swap 0 j l) = Some b.
Proof.
  unfold swap. destruct l as [|x l]; [done|]. cbn [lookup list_lookup]. intros Hb. destruct j as [|j].
  - cbn in *. by simplify_eq.
  - cbn in *. by rewrite Hb.
Qed.

(** A new cycle does not start where the last one ended. *)
Lemma reshuffle_head rand id l :
  fair rand -> NoDup l -> 1 < length l -> head (reshuffle rand (Some id) l) <> Some id.
Proof.
  intros Hf Hnd Hlen. unfold reshuffle. set (l' := fisherYatesShuffle rand l).
  assert (l' ≡ₚ l) as Hp by apply shuffle_perm. clearbody l'. assert (NoDup l') as Hnd' by (by rewrite Hp).
  assert (length l' = length l) as Hl by (by rewrite Hp). case_bool_decide as Hh; cbn [andb]; [|done].
  rewrite (proj2 (Nat.ltb_lt _ _)) by lia.
  pose proof (Hf 0 (length l' - 1) ltac:(lia)) as Hr. set (j := 1 + rand 0 (length l' - 1)) in *.
  destruct (lookup_lt_is_Some_2 l' j ltac:(subst j; lia)) as [b Hb]. rewrite (head_swap j l' b Hb). intros [= ->].
  rewrite head_lookup in Hh. pose proof (NoDup_lookup _ _ _ _ Hnd' Hh Hb). subst j. lia.
Qed.

(** ** Cycles *)

(** No item twice in a row. *)
Definition noRepeat (l : list string) : Prop :=
  forall i x y, l !! i = Some x -> l !! S i = Some y -> x <> y.

Lemma noRepeat_snoc l x : noRepeat l -> last l <> Some x -> noRepeat (l ++ [x]).
Proof.
  intros Hl Hx i a b Ha Hb. pose proof (lookup_lt_Some _ _ _ Hb) as Hlt. rewrite length_app in Hlt. cbn in Hlt.
  rewrite lookup_app_l in Ha by lia. destruct (decide (S i < length l)).
  - rewrite lookup_app_l in Hb by lia. by apply (Hl i).
  - rewrite lookup_app_r in Hb by lia. replace (S i - length l) with 0 in Hb by lia. injection Hb as <-.
    intros ->. apply Hx. rewrite last_lookup. by replace (Nat.pred (length l)) with i by lia.
Qed.

Section Cycles.
Context (namespace : string) (itemIds : list string).
Context (Hnd : NoDup itemIds) (Hlen : 1 < length itemIds).

(** The items dealt since a state in which the namespace had no deck. *)
Inductive dealt (s0 : Decks) : list string -> Decks -> Prop :=
| dealt_none : dealt s0 [] s0
| dealt_more rs s rand :
    dealt s0 rs s -> fair rand ->
    dealt s0 (rs ++ [(getNextFromDeckSync rand namespace itemIds s).2]) (getNextFromDeckSync rand namespace itemIds s).1.

Notation key := (keyOf itemIds).

Lemma getNext_long rand s :
  getNextFromDeckSync rand namespace itemIds s =
  (mset namespace (dealNext rand (mget namespace s) itemIds).2 s, (dealNext rand (mget namespace s) itemIds).1).
Proof.
  unfold getNextFromDeckSync, planNextFromDeckSync. generalize (dealNext rand (mget namespace s) itemIds). intros [id d].
  destruct itemIds as [|a [|b l]]; [cbn in Hlen; lia|cbn in Hlen; lia|done].
Qed.

Lemma deal_advance rand s o i x :
  mget namespace s = Some (mkDeck o i key) -> o !! i = Some x ->
  getNextFromDeckSync rand namespace itemIds s = (mset namespace (mkDeck o (i + 1) key) s, x).
Proof. intros Hs Hx. rewrite getNext_long, Hs. unfold dealNext. cbn [idsKey order index]. by rewrite String.eqb_refl, Hx. Qed.

Lemma deal_new rand s :
  match mget namespace s with None => True | Some d => idsKey d = key /\ order d !! index d = None end ->
  let o := reshuffle rand (lastUsed (mget namespace s) key) itemIds in
  exists x, head o = Some x /\ getNextFromDeckSync rand namespace itemIds s = (mset namespace (mkDeck o 1 key) s, x).
Proof.
  intros Hs o. assert (o ≡ₚ itemIds) as Hp by apply reshuffle_perm.
  destruct (head o) as [x|] eqn:Hh; [|destruct o; [apply Permutation_length in Hp; cbn in Hp; lia|done]].
  exists x. split; [done|]. rewrite getNext_long. unfold dealNext. fold o. rewrite Hh.
  destruct (mget namespace s) as [d|]; [|done]. destruct Hs as [-> ->]. by rewrite String.eqb_refl.
Qed.

(** The deck after some deals. *)
Definition deckFits (rs : list string) (s : Decks) : Prop :=
  exists blocks o i, rs = concat blocks ++ take i o /\ Forall (fun b => b ≡ₚ itemIds) blocks /\ o ≡ₚ itemIds /\
    1 <= i <= length o /\ mget namespace s = Some (mkDeck o i key).

Lemma last_prefix (blocks : list (list string)) o i :
  1 <= i <= length o -> last (concat blocks ++ take i o) = o !! (i - 1).
Proof.
  intros Hi. rewrite last_app. destruct (last (take i o)) eqn:E.
  - rewrite last_lookup, length_take, Nat.min_l in E by lia. rewrite lookup_take_lt in E by lia. by replace (i - 1) with (Nat.pred i) by lia.
  - apply last_None in E. apply (f_equal length) in E. rewrite length_take in E. cbn in E. lia.
Qed.

Lemma deal_fits rand rs s :
  fair rand -> noRepeat rs -> deckFits rs s ->
  let r := getNextFromDeckSync rand namespace itemIds s in
  deckFits (rs ++ [r.2]) r.1 /\ noRepeat (rs ++ [r.2]).
Proof.
  intros Hf Hr (blocks & o & i & -> & Hb & Ho & Hi & Hs). assert (NoDup o) as Hndo by (by rewrite Ho).
  destruct (o !! i) as [x|] eqn:Hx.
  - rewrite (deal_advance rand s o i x Hs Hx). cbn [fst snd]. pose proof (lookup_lt_Some _ _ _ Hx). split.
    + exists blocks, o, (i + 1). split_and!; [|done|done|lia|lia|apply mget_mset_eq].
      rewrite <- app_assoc. f_equal. replace (i + 1) with (S i) by lia. symmetry. by apply take_S_r.
    + apply noRepeat_snoc; [done|]. rewrite last_prefix by done. intros Hl.
      pose proof (NoDup_lookup _ _ _ _ Hndo Hl Hx). lia.
  - destruct (deal_new rand s) as (x & Hh & E); [rewrite Hs; by split|]. rewrite Hs in Hh, E. rewrite E. cbn [fst snd].
    set (o' := reshuffle _ _ _) in *. assert (o' ≡ₚ itemIds) as Ho' by apply reshuffle_perm.
    apply lookup_ge_None in Hx. assert (i = length o) as -> by lia. rewrite firstn_all in *. split.
    + exists (blocks ++ [o]), o', 1. split_and!; [|by apply Forall_app; split; [|by constructor]|done|lia| |apply mget_mset_eq].
      * rewrite concat_app. cbn [concat]. rewrite app_nil_r. f_equal. destruct o'; [done|]. cbn in *. by simplify_eq.
      * apply Permutation_length in Ho'. lia.
    + apply noRepeat_snoc; [done|]. rewrite last_app. destruct (last o) as [y|] eqn:Hlast.
      * intros [= ->]. subst o'. unfold lastUsed in Hh. cbn [idsKey order] in Hh. rewrite String.eqb_refl, Hlast in Hh.
        by apply (reshuffle_head rand x itemIds Hf Hnd Hlen).
      * apply last_None in Hlast. subst o. cbn in Hi. lia.
Qed.

(** A deck deals in cycles.  From a namespace without a deck, whatever the
    shuffles draw, the items dealt are whole cycles, in each of which every item
    comes exactly once, then a part of a cycle without repetition; and no item
    comes twice in a row, across the ends of cycles too. *)
Theorem deck_cycles s0 rs s :
  mget namespace s0 = None -> dealt s0 rs s ->
  noRepeat rs /\
  exists blocks tail, rs = concat blocks ++ tail /\ Forall (fun b => b ≡ₚ itemIds) blocks /\
    NoDup tail /\ tail ⊆ itemIds /\ length tail <= length itemIds.
Proof.
  intros H0 Hd. assert (noRepeat rs /\ (rs = [] /\ s = s0 \/ deckFits rs s)) as [Hr Hfit].
  { induction Hd as [|rs s rand Hd [IHr IH] Hf]; [split; [by intros ? ? ?|by left]|].
    destruct IH as [[-> ->]|IH]; [|destruct (deal_fits rand rs s Hf IHr IH); split; [done|by right]].
    destruct (deal_new rand s0) as (x & Hh & E); [by rewrite H0|]. rewrite E. cbn [fst snd app]. split; [by intros [|?] ? ?|right].
    set (o := reshuffle _ _ _) in *. assert (o ≡ₚ itemIds) as Ho by apply reshuffle_perm.
    exists [], o, 1. split_and!; [destruct o; cbn in *; by simplify_eq|constructor|done|lia|apply Permutation_length in Ho; lia|apply mget_mset_eq]. }
  split; [done|]. destruct Hfit as [[-> _]|(blocks & o & i & -> & Hb & Ho & Hi & _)].
  - exists [], []. split_and!; [done|constructor|constructor|set_solver|cbn; lia].
  - exists blocks, (take i o). split_and!; [done|done| | |].
    + apply (sublist_NoDup _ o); [by rewrite Ho|apply sublist_take].
    + intros y Hy. rewrite <- Ho. by eapply elem_of_sublist; [|apply sublist_take].
    + rewrite length_take. apply Permutation_length in Ho. lia.
Qed.
End Cycles.

(** A planned deal that is not committed leaves the deck as it is, and the next
    plan with the same draws selects the same item. *)
Lemma plan_commit rand namespace itemIds s :
  getNextFromDeckSync rand namespace itemIds s =
  (commit namespace (planNextFromDeckSync rand namespace itemIds s).2 s, (planNextFromDeckSync rand namespace itemIds s).1).
Proof. unfold getNextFromDeckSync. by destruct (planNextFromDeckSync rand namespace itemIds s). Qed.

(** ** Witnesses *)

Definition firstDraw : nat -> nat -> nat := fun _ _ => 0.

Lemma firstDraw_fair : fair firstDraw.
Proof. intros d n H. exact H. Qed.

Definition exIds : list string := ["a"; "b"; "c"]%string.

(** Four deals of three items. *)
Definition exDeal (s : Decks) : Decks * string := getNextFromDeckSync firstDraw "combo:x" exIds s.
Definition exDealt : list string :=
  [(exDeal noDecks).2; (exDeal (exDeal noDecks).1).2; (exDeal (exDeal (exDeal noDecks).1).1).2;
   (exDeal (exDeal (exDeal (exDeal noDecks).1).1).1).2].

Lemma deck_cycles_witness : exDealt = ["b"; "c"; "a"; "b"]%string /\ noRepeat exDealt.
Proof.
  split; [vm_compute; reflexivity|].
  refine (proj1 (deck_cycles "combo:x" exIds _ _ noDecks exDealt (exDeal (exDeal (exDeal (exDeal noDecks).1).1).1).1 _ _));
    [apply (bool_decide_unpack _); vm_compute; exact I|cbn; lia|reflexivity|].
  refine (dealt_more _ _ _ [_; _; _] _ firstDraw _ firstDraw_fair).
  refine (dealt_more _ _ _ [_; _] _ firstDraw _ firstDraw_fair).
  refine (dealt_more _ _ _ [_] _ firstDraw _ firstDraw_fair).
  refine (dealt_more _ _ _ [] _ firstDraw _ firstDraw_fair). constructor.
Defined.

(** ** Findings *)

(** The key of an item set joins the sorted ids with commas, so two sets whose ids
    have commas can share it; then a deal returns an item of the other set. *)
Lemma comma_key_collision :
  let s := (getNextFromDeckSync firstDraw "n" ["a,b"; "c"]%string noDecks).1 in
  (getNextFromDeckSync firstDraw "n" ["a"; "b,c"]%string s).2 = "a,b"%string.
Proof. vm_compute. reflexivity. Qed.
