(* ===== verification/IpFilter.v ===== *)
(** * IP filter: [open-sse/services/ipFilter.ts]

    Access control by address: a blacklist, a whitelist or both, with CIDR ranges
    and wildcards, and temporary bans.  The lists are stored in a row of the
    database and read again before every use; the bans live in memory only.  The
    bit operations are those of the language, on 32-bit words. *)
From Stdlib Require Import String Ascii.
From S2P Require Import Prelude JsMap JsString.
#[local] Open Scope Z_scope.

(** ** 32-bit words *)

(** [ToInt32] and [>>> 0]. *)
Definition toInt32 (z : Z) : Z :=
  let m := z mod 2 ^ 32 in if m <? 2 ^ 31 then m else m - 2 ^ 32.

Definition toUint32 (z : Z) : Z := z mod 2 ^ 32.

(** [a << b], the count taken modulo 32, and [a | b], [a & b]. *)
Definition shl32 (a b : Z) : Z := toInt32 (Z.shiftl (toInt32 a) (b mod 32)).
Definition or32 (a b : Z) : Z := toInt32 (Z.lor (toInt32 a) (toInt32 b)).
Definition and32 (a b : Z) : Z := toInt32 (Z.land (toInt32 a) (toInt32 b)).

(** ** Addresses *)

(** [parseInt(s, 10)]: a sign and the leading digits, [None] for [NaN]. *)
Definition parseInt10 (s : string) : option Z :=
  let '(negative, s) := readSign (trimStart s) in
  let '(v, n, _) := readDigits 10 0 0 s in
  if n =? 0 then None else Some (if negative then - v else v).

Fixpoint octets (num : Z) (parts : list string) : option Z :=
  match parts with
  | [] => Some num
  | p :: parts =>
      match parseInt10 p with
      | Some n => if (n <? 0) || (n >? 255) then None else octets (or32 (shl32 num 8) n) parts
      | None => None
      end
  end.

Definition ipToNum (ip : string) : option Z :=
  let parts := split "." ip in
  if negb (Z.of_nat (length parts) =? 4) then None else toUint32 <$> octets 0 parts.

Definition matchesCIDR (ip cidr : string) : bool :=
  match split "/" cidr with
  | range :: bits :: _ =>
      match parseInt10 bits with
      | None => false
      | Some mask =>
          if (mask <? 0) || (mask >? 32) then false
          else
            match ipToNum ip, ipToNum range with
            | Some ipNum, Some rangeNum =>
                let maskBits := toUint32 (shl32 (-1) (32 - mask)) in
                and32 ipNum maskBits =? and32 rangeNum maskBits
            | _, _ => false
            end
      end
  | _ => false
  end.

Definition matchesWildcard (ip pattern : string) : bool :=
  let ipParts := split "." ip in
  let patParts := split "." pattern in
  if negb (Z.of_nat (length ipParts) =? 4) || negb (Z.of_nat (length patParts) =? 4) then false
  else forallb (fun '(part, pat) => String.eqb pat "*" || String.eqb part pat) (combine ipParts patParts).

Definition matchesAny (ip : string) (ipSet : list string) : bool :=
  bool_decide (ip ∈ ipSet) ||
  existsb (fun entry => (includes entry "/" && matchesCIDR ip entry) || (includes entry "*" && matchesWildcard ip entry)) ipSet.

Definition normalizeIP (ip : string) : string :=
  let prefix := "::ffff:"%string in
  trim (if String.prefix prefix ip then String.substring (String.length prefix) (String.length ip) ip else ip).

(** ** State *)

Record Ban := mkBan { until : Z; reason : string }.

(** What the database row holds. *)
Record Stored := mkStored { st_enabled : bool; st_mode : string; st_blacklist : list string; st_whitelist : list string }.

Record IpFilter := mkFilter {
  enabled : bool;
  mode : string;
  blacklist : list string;
  whitelist : list string;
  tempBans : jsmap string Ban;
  row : option Stored;
}.

#[export] Instance IpFilter_eta : Eta IpFilter := fun x =>
  mkFilter (enabled x) (mode x) (blacklist x) (whitelist x) (tempBans x) (row x).

Definition resetIPFilter (row : option Stored) : IpFilter := mkFilter false "blacklist" [] [] [] row.

Definition addTo (x : string) (l : list string) : list string := if decide (x ∈ l) then l else l ++ [x].
Definition removeFrom (x : string) (l : list string) : list string := List.filter (fun y => negb (String.eqb y x)) l.

Definition ensureLoaded (s : IpFilter) : IpFilter :=
  match row s with
  | Some r => s <| enabled := st_enabled r |> <| mode := st_mode r |> <| blacklist := st_blacklist r |> <| whitelist := st_whitelist r |>
  | None => s
  end.

(** [dbOk] is false when the database write fails; the failure is swallowed. *)
Definition persist (dbOk : bool) (s : IpFilter) : IpFilter :=
  if dbOk then s <| row := Some (mkStored (enabled s) (mode s) (blacklist s) (whitelist s)) |> else s.

(** The sweep of the interval timer. *)
Definition sweep (now : Z) (s : IpFilter) : IpFilter :=
  s <| tempBans := mprune (fun _ b => now >=? until b) (tempBans s) |>.

(** The settings that are present; an empty mode is absent. *)
Definition configureIPFilter (dbOk : bool) (e : option bool) (m : option string) (black white : option (list string)) (s : IpFilter) : IpFilter :=
  let s := ensureLoaded s in
  let s := match e with Some b => s <| enabled := b |> | None => s end in
  let s := match m with Some m => if isEmpty m then s else s <| mode := m |> | None => s end in
  let s := match black with Some l => s <| blacklist := foldl (fun acc x => addTo x acc) [] l |> | None => s end in
  let s := match white with Some l => s <| whitelist := foldl (fun acc x => addTo x acc) [] l |> | None => s end in
  persist dbOk s.

Definition addToBlacklist (dbOk : bool) (ip : string) (s : IpFilter) : IpFilter :=
  let s := ensureLoaded s in persist dbOk (s <| blacklist := addTo (normalizeIP ip) (blacklist s) |>).

Definition removeFromBlacklist (dbOk : bool) (ip : string) (s : IpFilter) : IpFilter :=
  let s := ensureLoaded s in persist dbOk (s <| blacklist := removeFrom (normalizeIP ip) (blacklist s) |>).

Definition addToWhitelist (dbOk : bool) (ip : string) (s : IpFilter) : IpFilter :=
  let s := ensureLoaded s in persist dbOk (s <| whitelist := addTo (normalizeIP ip) (whitelist s) |>).

Definition removeFromWhitelist (dbOk : bool) (ip : string) (s : IpFilter) : IpFilter :=
  let s := ensureLoaded s in persist dbOk (s <| whitelist := removeFrom (normalizeIP ip) (whitelist s) |>).

Definition tempBanIP (ip : string) (durationMs : Z) (why : string) (now : Z) (s : IpFilter) : IpFilter :=
  s <| tempBans := mset (normalizeIP ip) (mkBan (now + durationMs) why) (tempBans s) |>.

Definition removeTempBan (ip : string) (s : IpFilter) : IpFilter :=
  s <| tempBans := mdel (normalizeIP ip) (tempBans s) |>.

(** [None] is allowed; [Some reason] is refused. *)
Definition decideIP (ip : string) (s : IpFilter) : option string :=
  let refused (b : bool) := if b then Some "IP blacklisted"%string else None in
  if String.eqb (mode s) "whitelist" then
    match whitelist s with
    | [] => None
    | l => if matchesAny ip l then None else Some "IP not in whitelist"%string
    end
  else if String.eqb (mode s) "whitelist-priority" then
    if matchesAny ip (whitelist s) then None else refused (matchesAny ip (blacklist s))
  else refused (matchesAny ip (blacklist s)).

Definition checkIP (ip : string) (now : Z) (s : IpFilter) : IpFilter * option string :=
  let s := ensureLoaded s in
  if negb (enabled s) || isEmpty ip then (s, None)
  else
    let normalizedIP := normalizeIP ip in
    match mget normalizedIP (tempBans s) with
    | Some ban =>
        if now <? until ban then (s, Some ("Temporarily banned: " +:+ reason ban)%string)
        else
          let s := s <| tempBans := mdel normalizedIP (tempBans s) |> in
          (s, decideIP normalizedIP s)
    | None => (s, decideIP normalizedIP s)
    end.

Section Request.
(** [isIP a] is true for the addresses that [net.isIP] accepts. *)
Context (isIP : string -> bool).

Fixpoint firstValid (candidates : list string) : option string :=
  match candidates with
  | [] => None
  | c :: candidates =>
      let normalized := normalizeIP c in
      if negb (isEmpty normalized) && isIP normalized then Some normalized else firstValid candidates
  end.

(** [None] is a value that is not a string. *)
Definition pickFirstValidIp (rawValue : option string) : option string :=
  match rawValue with
  | Some v => if isEmpty (trim v) then None else firstValid (split "," v)
  | None => None
  end.

Definition firstOf (l : list (option string)) (d : string) : string :=
  foldr (fun o d => match o with Some x => x | None => d end) d l.

Definition extractClientIP (cfConnectingIp xForwardedFor xRealIp remoteAddress ip : option string) : string :=
  firstOf (pickFirstValidIp <$> [cfConnectingIp; xForwardedFor; xRealIp; remoteAddress; ip]) "unknown".

Definition checkRequestIP (trustedPeerIp cfConnectingIp xForwardedFor xRealIp : option string) (requestIp : string) (now : Z) (s : IpFilter)
    : IpFilter * option string :=
  let direct := normalizeIP requestIp in
  checkIP (firstOf (pickFirstValidIp <$> [trustedPeerIp; cfConnectingIp; xForwardedFor; xRealIp])
             (if isEmpty direct then "unknown"%string else direct)) now s.
End Request.

(** ** Words *)

Lemma toInt32_id z : - 2 ^ 31 <= z < 2 ^ 31 -> toInt32 z = z.
Proof.
  intros Hz. unfold toInt32. destruct (Z.ltb_spec (z mod 2 ^ 32) (2 ^ 31)) as [H|H].
  - destruct (Z.lt_ge_cases z 0); [|by rewrite Z.mod_small by lia].
    assert (z mod 2 ^ 32 = z + 2 ^ 32) as E by (symmetry; apply (Z.mod_unique_pos _ _ (-1)); lia). rewrite E in H. lia.
  - destruct (Z.lt_ge_cases z 0); [|rewrite Z.mod_small in H by lia; lia].
    assert (z mod 2 ^ 32 = z + 2 ^ 32) as -> by (symmetry; apply (Z.mod_unique_pos _ _ (-1)); lia). lia.
Qed.

Lemma toInt32_range z : - 2 ^ 31 <= toInt32 z < 2 ^ 31.
Proof. unfold toInt32. pose proof (Z.mod_pos_bound z (2 ^ 32) ltac:(lia)). case_if; to_prop; lia. Qed.

Lemma toInt32_mod z : toInt32 z mod 2 ^ 32 = z mod 2 ^ 32.
Proof.
  unfold toInt32. pose proof (Z.mod_pos_bound z (2 ^ 32) ltac:(lia)). case_if; [by rewrite Z.mod_small|].
  symmetry. apply (Z.mod_unique_pos _ _ (-1)); lia.
Qed.

Lemma toInt32_eq a b : a mod 2 ^ 32 = b mod 2 ^ 32 -> toInt32 a = toInt32 b.
Proof. unfold toInt32. by intros ->. Qed.

Lemma toUint32_toInt32 z : toUint32 (toInt32 z) = toUint32 z.
Proof. apply toInt32_mod. Qed.

(** A bit mask of the high bits rounds down. *)
Lemma land_high x k : 0 <= k -> Z.land x (- 2 ^ k) = 2 ^ k * (x / 2 ^ k).
Proof.
  intros Hk. replace (- 2 ^ k) with (Z.lnot (Z.ones k)) by (rewrite Z.ones_equiv; unfold Z.lnot; lia).
  rewrite <- Z.ldiff_land, Z.ldiff_ones_r by done. rewrite Z.shiftl_mul_pow2, Z.shiftr_div_pow2 by done. lia.
Qed.

(** Appending an octet. *)
Lemma push_octet v n : 0 <= n <= 255 -> or32 (shl32 (toInt32 v) 8) n = toInt32 (v * 256 + n).
Proof.
  intros Hn. unfold or32, shl32. change (8 mod 32) with 8. rewrite (toInt32_id (toInt32 v)) by apply toInt32_range.
  set (w := toInt32 (Z.shiftl (toInt32 v) 8)).
  assert (toInt32 w = w) as -> by apply toInt32_id, toInt32_range. rewrite (toInt32_id n) by lia.
  assert (w mod 2 ^ 32 = (v * 256) mod 2 ^ 32) as Hw.
  { subst w. rewrite toInt32_mod, Z.shiftl_mul_pow2 by lia. change (2 ^ 8) with 256.
    by rewrite Z.mul_mod, toInt32_mod, <- Z.mul_mod by lia. }
  assert (w mod 2 ^ 8 = 0) as H8.
  { rewrite <- (Z.mod_mod_divide w (2 ^ 32) (2 ^ 8)) by (by exists (2 ^ 24)).
    rewrite Hw, Z.mod_mod_divide by (by exists (2 ^ 24)). change (2 ^ 8) with 256. apply Z.mod_mul. lia. }
  assert (Z.land w n = 0) as Hland.
  { assert (Z.land n (Z.ones 8) = n) as <- by (rewrite Z.land_ones, Z.mod_small by lia; done).
    rewrite (Z.land_comm n), Z.land_assoc, Z.land_ones, H8 by lia. apply Z.land_0_l. }
  pose proof (Z.add_lor_land w n) as Hadd. rewrite Hland in Hadd.
  apply toInt32_eq. rewrite <- (Z.add_0_r (Z.lor w n)), Hadd, Z.add_mod, Hw, <- Z.add_mod by lia. done.
Qed.

Definition octetOf (p : string) (n : Z) : Prop := parseInt10 p = Some n /\ 0 <= n <= 255.

Lemma octets_spec parts ns v :
  Forall2 octetOf parts ns -> octets (toInt32 v) parts = Some (toInt32 (foldl (fun v n => v * 256 + n) v ns)).
Proof.
  intros H. revert v. induction H as [|p n parts ns [Hp Hn] _ IH]; intros v; [done|]. cbn [octets foldl]. rewrite Hp.
  assert ((n <? 0) || (n >? 255) = false) as -> by (rewrite orb_false_iff, Z.ltb_ge, Z.gtb_ltb, Z.ltb_ge; lia).
  by rewrite push_octet, IH.
Qed.

(** The number of four octets. *)
Definition quad (a b c d : Z) : Z := ((a * 256 + b) * 256 + c) * 256 + d.

Lemma ipToNum_quad ip pa pb pc pd a b c d :
  split "." ip = [pa; pb; pc; pd] -> octetOf pa a -> octetOf pb b -> octetOf pc c -> octetOf pd d ->
  ipToNum ip = Some (quad a b c d) /\ 0 <= quad a b c d < 2 ^ 32.
Proof.
  intros Hs Ha Hb Hc Hd. assert (0 <= quad a b c d < 2 ^ 32) as Hq.
  { unfold octetOf, quad in *. lia. }
  split; [|done]. unfold ipToNum. rewrite Hs. cbn [length]. cbn [Z.of_nat Z.eqb negb Pos.of_succ_nat Pos.eqb Pos.succ].
  change 0 with (toInt32 0) at 1. rewrite (octets_spec _ [a; b; c; d]) by (repeat (apply Forall2_cons_2; [done|]); apply Forall2_nil_2).
  cbn [fmap option_fmap option_map foldl]. f_equal. rewrite toUint32_toInt32. unfold toUint32. rewrite Z.mod_small; [unfold quad; lia|unfold quad in *; lia].
Qed.

Lemma div_pow_shift x k c : 0 <= k <= 32 -> (x - c * 2 ^ 32) / 2 ^ k = x / 2 ^ k - c * 2 ^ (32 - k).
Proof.
  intros Hk. assert (2 ^ 32 = 2 ^ (32 - k) * 2 ^ k) as -> by (rewrite <- Z.pow_add_r by lia; f_equal; lia).
  replace (x - c * (2 ^ (32 - k) * 2 ^ k)) with (x + (- c * 2 ^ (32 - k)) * 2 ^ k) by ring.
  rewrite Z.div_add by lia. ring.
Qed.

(** Comparing the masked words compares the high bits. *)
Lemma masked_eq a b mask :
  0 <= a < 2 ^ 32 -> 0 <= b < 2 ^ 32 -> 1 <= mask <= 32 ->
  let maskBits := toUint32 (shl32 (-1) (32 - mask)) in
  (and32 a maskBits =? and32 b maskBits) = (a / 2 ^ (32 - mask) =? b / 2 ^ (32 - mask)).
Proof.
  intros Ha Hb Hm. cbv zeta. set (k := 32 - mask). assert (0 <= k <= 31) as Hk by (subst k; lia). assert (0 < 2 ^ k) as Hp by lia.
  assert (2 ^ k <= 2 ^ 31) as Hp31 by (apply Z.pow_le_mono_r; lia).
  assert (toInt32 (toUint32 (shl32 (-1) k)) = - 2 ^ k) as Hmask.
  { unfold shl32. rewrite Z.mod_small, Z.shiftl_mul_pow2 by lia. change (toInt32 (-1)) with (-1).
    replace (-1 * 2 ^ k) with (- 2 ^ k) by ring. rewrite (toInt32_id (- 2 ^ k)) by lia.
    rewrite <- (toInt32_id (- 2 ^ k)) at 2 by lia. apply toInt32_eq. unfold toUint32. by rewrite Z.mod_mod by lia. }
  assert (forall x, 0 <= x < 2 ^ 32 -> exists c, (c = 0 /\ x < 2 ^ 31 \/ c = 1 /\ 2 ^ 31 <= x) /\
    and32 x (toUint32 (shl32 (-1) k)) = 2 ^ k * (x / 2 ^ k - c * 2 ^ (32 - k))) as Hand.
  { intros x Hx. unfold and32. rewrite Hmask, land_high by lia.
    assert (exists c, (c = 0 /\ x < 2 ^ 31 \/ c = 1 /\ 2 ^ 31 <= x) /\ toInt32 x = x - c * 2 ^ 32) as (c & Hc & E).
    { unfold toInt32. rewrite Z.mod_small by lia. destruct (Z.ltb_spec x (2 ^ 31)); [exists 0|exists 1]; lia. }
    exists c. split; [done|]. pose proof (toInt32_range x) as Hr. rewrite E in *. rewrite div_pow_shift by lia.
    apply toInt32_id. rewrite <- div_pow_shift by lia.
    pose proof (Z.mul_div_le (x - c * 2 ^ 32) (2 ^ k) ltac:(lia)). split; [|lia].
    assert (- 2 ^ 31 = 2 ^ k * (- 2 ^ (31 - k))) as -> by (rewrite Z.mul_opp_r, <- Z.pow_add_r by lia; do 2 f_equal; lia).
    apply Z.mul_le_mono_nonneg_l; [lia|]. apply Z.div_le_lower_bound; [lia|].
    rewrite Z.mul_opp_r, <- Z.pow_add_r by lia. replace (k + (31 - k)) with 31 by lia. lia. }
  destruct (Hand a Ha) as (ca & Hca & ->), (Hand b Hb) as (cb & Hcb & ->).
  apply eq_true_iff_eq. rewrite !Z.eqb_eq.
  assert (2 ^ 32 = 2 ^ k * 2 ^ (32 - k)) as H32 by (rewrite <- Z.pow_add_r by lia; f_equal; lia).
  assert (2 ^ 31 = 2 ^ k * 2 ^ (31 - k)) as H31 by (rewrite <- Z.pow_add_r by lia; f_equal; lia).
  assert (forall x, 0 <= x < 2 ^ 32 -> (x < 2 ^ 31 <-> x / 2 ^ k < 2 ^ (31 - k)) /\ 0 <= x / 2 ^ k < 2 ^ (32 - k)) as Hdiv.
  { intros x Hx. split; [split; intros H|split; [apply Z.div_pos; lia|apply Z.div_lt_upper_bound; lia]].
    - apply Z.div_lt_upper_bound; lia.
    - apply Z.nle_gt. intros Hge. assert (2 ^ (31 - k) <= x / 2 ^ k) by (apply Z.div_le_lower_bound; lia). lia. }
  destruct (Hdiv a Ha) as [Hda Hra], (Hdiv b Hb) as [Hdb Hrb]. split.
  - intros H. apply Z.mul_cancel_l in H; [|lia]. destruct Hca as [[-> ?]|[-> ?]], Hcb as [[-> ?]|[-> ?]]; lia.
  - intros H. f_equal. rewrite H. f_equal. f_equal. destruct Hca as [[-> ?]|[-> ?]], Hcb as [[-> ?]|[-> ?]]; lia.
Qed.

(** C39. A CIDR entry matches its network.  For a prefix of 1 to 32 bits the entry
    [range/mask] matches an address of four octets exactly when the two agree in
    the first [mask] bits, although the words are computed with signed 32-bit
    operations. *)
Theorem cidr_spec ip range bits pa pb pc pd qa qb qc qd a b c d a' b' c' d' mask :
  split "." ip = [pa; pb; pc; pd] -> octetOf pa a -> octetOf pb b -> octetOf pc c -> octetOf pd d ->
  split "." range = [qa; qb; qc; qd] -> octetOf qa a' -> octetOf qb b' -> octetOf qc c' -> octetOf qd d' ->
  occurs "/" range = false -> occurs "/" bits = false -> parseInt10 bits = Some mask -> 1 <= mask <= 32 ->
  matchesCIDR ip (range +:+ String "/" bits) = (quad a b c d / 2 ^ (32 - mask) =? quad a' b' c' d' / 2 ^ (32 - mask)).
Proof.
  intros Hip Ha Hb Hc Hd Hr Ha' Hb' Hc' Hd' Hor Hob Hm Hmask.
  destruct (ipToNum_quad _ _ _ _ _ _ _ _ _ Hip Ha Hb Hc Hd) as [E1 H1].
  destruct (ipToNum_quad _ _ _ _ _ _ _ _ _ Hr Ha' Hb' Hc' Hd') as [E2 H2].
  unfold matchesCIDR. rewrite split_app by done. destruct (split "/" bits) as [|w ws] eqn:Hw; [by apply split_ne in Hw|].
  assert (w = bits) as ->.
  { clear -Hob Hw. revert w ws Hw. induction bits as [|x bits IH]; intros w ws; cbn; [by intros [= <- _]|].
    cbn in Hob. apply orb_false_iff in Hob as [Hx Hob]. rewrite Hx. destruct (split "/" bits) as [|w' ws'] eqn:E; [by apply split_ne in E|].
    intros [= <- _]. f_equal. by eapply IH. }
  rewrite Hm. assert ((mask <? 0) || (mask >? 32) = false) as -> by (rewrite orb_false_iff, Z.ltb_ge, Z.gtb_ltb, Z.ltb_ge; lia).
  rewrite E1, E2. by apply masked_eq.
Qed.

(** ** Bans *)

(** The operations of the filter; a time is that of the operation. *)
Inductive ipOp :=
| OpConfigure (dbOk : bool) (e : option bool) (m : option string) (black white : option (list string))
| OpAddBlack (dbOk : bool) (ip : string)
| OpRemoveBlack (dbOk : bool) (ip : string)
| OpAddWhite (dbOk : bool) (ip : string)
| OpRemoveWhite (dbOk : bool) (ip : string)
| OpBan (ip : string) (durationMs : Z) (why : string) (now : Z)
| OpUnban (ip : string)
| OpCheck (ip : string) (now : Z)
| OpSweep (now : Z).

Definition apply (o : ipOp) (s : IpFilter) : IpFilter :=
  match o with
  | OpConfigure ok e m b w => configureIPFilter ok e m b w s
  | OpAddBlack ok ip => addToBlacklist ok ip s
  | OpRemoveBlack ok ip => removeFromBlacklist ok ip s
  | OpAddWhite ok ip => addToWhitelist ok ip s
  | OpRemoveWhite ok ip => removeFromWhitelist ok ip s
  | OpBan ip d why now => tempBanIP ip d why now s
  | OpUnban ip => removeTempBan ip s
  | OpCheck ip now => (checkIP ip now s).1
  | OpSweep now => sweep now s
  end.

(** An operation before [u] that does not touch the ban of [ip]. *)
Definition keepsBan (ip : string) (u : Z) (o : ipOp) : Prop :=
  match o with
  | OpBan ip' _ _ _ | OpUnban ip' => normalizeIP ip' <> normalizeIP ip
  | OpCheck _ now | OpSweep now => now < u
  | _ => True
  end.

Definition banned (ip : string) (u : Z) (s : IpFilter) : Prop :=
  mwf (tempBans s) /\ exists b, mget (normalizeIP ip) (tempBans s) = Some b /\ until b = u.

Lemma ensureLoaded_bans s : tempBans (ensureLoaded s) = tempBans s.
Proof. unfold ensureLoaded. by destruct (row s). Qed.

Lemma persist_bans ok s : tempBans (persist ok s) = tempBans s.
Proof. by destruct ok. Qed.

Lemma configure_bans ok e m b w s : tempBans (configureIPFilter ok e m b w s) = tempBans s.
Proof.
  unfold configureIPFilter. rewrite persist_bans.
  destruct w, b, m as [m|], e; cbn; rewrite ?ensureLoaded_bans; try done; by destruct (isEmpty m); cbn; rewrite ?ensureLoaded_bans.
Qed.

Lemma lists_bans o s :
  match o with OpBan _ _ _ _ | OpUnban _ | OpCheck _ _ | OpSweep _ => True | _ => tempBans (apply o s) = tempBans s end.
Proof.
  destruct o; try done; cbn [apply]; [apply configure_bans|..];
    unfold addToBlacklist, removeFromBlacklist, addToWhitelist, removeFromWhitelist; cbv zeta; rewrite persist_bans; apply ensureLoaded_bans.
Qed.

Lemma keepsBan_ok ip u o s : keepsBan ip u o -> banned ip u s -> banned ip u (apply o s).
Proof.
  intros Hk (W & b & Hb & Hu). pose proof (lists_bans o s) as Hl. destruct o as [| | | | |ip' d why now|ip'|ip' now|now]; cbn [keepsBan] in Hk;
    try (unfold banned; rewrite Hl; split; [done|by exists b]); cbn [apply]; unfold banned.
  - split; [by apply mwf_mset|]. exists b. split; [|done]. cbn. by rewrite mget_mset_ne.
  - split; [by apply mwf_mdel|]. exists b. split; [|done]. cbn. by rewrite mget_mdel_ne.
  - unfold checkIP. cbv zeta. case_if; [cbn [fst]; rewrite ensureLoaded_bans; split; [done|by exists b]|]. rewrite ensureLoaded_bans.
    destruct (mget (normalizeIP ip') (tempBans s)) as [b'|] eqn:E; [|cbn [fst]; rewrite ensureLoaded_bans; split; [done|by exists b]].
    destruct (Z.ltb_spec now (until b')); cbn [fst]; [rewrite ensureLoaded_bans; split; [done|by exists b]|].
    change (mwf (mdel (normalizeIP ip') (tempBans s)) /\
            exists b, mget (normalizeIP ip) (mdel (normalizeIP ip') (tempBans s)) = Some b /\ until b = u).
    split; [by apply mwf_mdel|]. exists b. split; [|done]. rewrite mget_mdel_ne; [done|].
    intros Heq. rewrite Heq, E in Hb. simplify_eq. lia.
  - split; [by apply mwf_mprune|]. exists b. split; [|done]. cbn. rewrite mget_mprune, Hb by done.
    by rewrite Z.geb_leb, (proj2 (Z.leb_gt _ _)) by lia.
Qed.

(** A ban holds.  After an address is banned, until the ban ends, every check
    of it is refused while the filter is on, whatever is done to the lists, the
    mode, the bans of other addresses and the database in between. *)
Theorem ban_holds ip d why now ops t s :
  mwf (tempBans s) -> Forall (keepsBan ip (now + d)) ops -> t < now + d -> ip <> EmptyString ->
  let s' := foldl (fun s o => apply o s) (tempBanIP ip d why now s) ops in
  enabled (ensureLoaded s') = true ->
  exists r, (checkIP ip t s').2 = Some ("Temporarily banned: " +:+ r).
Proof.
  intros W Hops Ht Hip s' He.
  assert (banned ip (now + d) s') as (_ & b & Hb & Hu).
  { subst s'. assert (banned ip (now + d) (tempBanIP ip d why now s)) as H0.
    { split; [by apply mwf_mset|]. eexists. split; [apply mget_mset_eq|done]. }
    revert H0. generalize (tempBanIP ip d why now s). clear He. induction Hops as [|o ops Ho _ IH]; intros s0 H0; [done|].
    cbn [foldl]. apply IH. by apply keepsBan_ok. }
  unfold checkIP. cbv zeta. rewrite He. assert (isEmpty ip = false) as -> by (by destruct ip). cbn [negb orb].
  rewrite ensureLoaded_bans, Hb. rewrite (proj2 (Z.ltb_lt _ _)) by lia. by exists (reason b).
Qed.

(** What was stored is what a new process reads. *)
Lemma restart_keeps_lists ip now s :
  row s = Some (mkStored (enabled s) (mode s) (blacklist s) (whitelist s)) -> mget (normalizeIP ip) (tempBans s) = None ->
  (checkIP ip now (resetIPFilter (row s))).2 = (checkIP ip now s).2.
Proof.
  intros Hr Hb. unfold checkIP. cbv zeta. unfold ensureLoaded. rewrite Hr. cbn. rewrite Hb.
  destruct (negb (enabled s) || isEmpty ip); [done|]. done.
Qed.

(** ** Witnesses *)

Lemma cidr_spec_witness :
  matchesCIDR "192.168.7.9" ("192.168.0.0" +:+ String "/" "21") = true.
Proof.
  refine (eq_trans (cidr_spec "192.168.7.9" "192.168.0.0" "21" "192" "168" "7" "9" "192" "168" "0" "0" 192 168 7 9 192 168 0 0 21
    _ _ _ _ _ _ _ _ _ _ _ _ _ _) _); try (vm_compute; reflexivity); try (split; [vm_compute; reflexivity|lia]). lia.
Defined.

Definition exFilter : IpFilter :=
  addToBlacklist true "10.0.0.0/8" (configureIPFilter true (Some true) None None None (resetIPFilter None)).

Lemma ban_holds_witness :
  exists r, (checkIP "9.9.9.9" 1500 (apply (OpAddWhite true "9.9.9.9") (tempBanIP "9.9.9.9" 1000 "abuse" 1000 exFilter))).2 =
  Some ("Temporarily banned: " +:+ r).
Proof.
  apply (ban_holds "9.9.9.9" 1000 "abuse" 1000 [OpAddWhite true "9.9.9.9"] 1500 exFilter);
    [apply mwf_nil|repeat constructor|lia|discriminate|reflexivity].
Defined.

(** ** Findings *)

(** A shift count of 32 is a count of zero, so the entry of all addresses, with a
    prefix of no bits, matches one address only. *)
Lemma zero_prefix_matches_nothing :
  matchesCIDR "9.9.9.9" "0.0.0.0/0" = false /\ matchesCIDR "0.0.0.0" "0.0.0.0/0" = true.
Proof. by vm_compute. Qed.

(** A mapped IPv4 address given to the configuration is stored as it is, and then
    it neither matches nor can be removed, since both look for the plain address. *)
Lemma unnormalized_entry_stuck :
  let s := configureIPFilter true (Some true) None (Some ["::ffff:9.9.9.9"%string]) None (resetIPFilter None) in
  (checkIP "9.9.9.9" 0 s).2 = None /\ blacklist (removeFromBlacklist true "::ffff:9.9.9.9" s) = ["::ffff:9.9.9.9"%string].
Proof. by vm_compute. Qed.
