(* ===== verification/RequestDedup.v ===== *)
(** * Request deduplication: [open-sse/services/requestDedup.ts]

    Identical requests that are in flight at the same time share one upstream
    call.  The hash of a request names its tenant and the fields that shape its
    answer; a map from hashes to promises holds the calls in flight.

    Calls and promises are numbered in the order they are made.  A step is an
    entry into [deduplicate], the settling of the function of a call, or the
    firing of a timer; what runs between two awaits is one step. *)
From Stdlib Require Import String Ascii QArith_base.
From S2P Require Import Prelude JsMap JsString ComboSteps.
#[local] Open Scope list_scope.
#[local] Open Scope Z_scope.

Definition MAX_INFLIGHT : Z := 1000.

Record DedupConfig := mkConfig { c_enabled : bool; maxTemperatureForDedup : Q; timeoutMs : Z }.

Definition DEFAULT_DEDUP_CONFIG : DedupConfig := mkConfig true (Qmake 1 10) 60000.

(** ** The hash *)

Definition asRecord (v : option json) : option json := match v with Some (VObj f) => Some (VObj f) | _ => None end.

(** [v ?? null]. *)
Definition orNull (v : option json) : json := orElse v VNull.

(** The first of some fields that is present. *)
Fixpoint firstField (ks : list string) (body : json) : option json :=
  match ks with
  | [] => None
  | k :: ks => match field k body with Some v => Some v | None => firstField ks body end
  end.

Definition extractPromptContent (body : json) : json :=
  match firstField ["messages"; "contents"; "input"]%string body with
  | Some v => v
  | None =>
      match asRecord (field "request" body) ≫= field "contents" with
      | Some v => v
      | None =>
          match asRecord (field "conversationState" body) with
          | Some conversationState =>
              let currentMessage := asRecord (field "currentMessage" conversationState) in
              let userInputMessage := asRecord (currentMessage ≫= field "userInputMessage") in
              match userInputMessage, field "history" conversationState with
              | None, None => VNull
              | u, history => VObj [("content"%string, orNull (u ≫= field "content")); ("history"%string, orNull history)]
              end
          | None => VNull
          end
      end
  end.

Definition extractSystemContent (body : json) : json :=
  match firstField ["system"; "instructions"; "systemInstruction"]%string body with
  | Some v => v
  | None => orNull (asRecord (field "request" body) ≫= field "systemInstruction")
  end.

(** A number, or 1.0. *)
Definition temperatureOf (body : json) : jsnum :=
  match field "temperature" body with Some (VNum n) => n | _ => Fin (inject_Z 1) end.

Record TrustedContext := mkContext {
  originModel : option string;
  resolvedThinkingEffort : option string;
  defaultThinkingEffort : option string;
}.

Definition strOrNull (o : option string) : json := match o with Some s => VStr s | None => VNull end.

(** The object whose text is hashed; absent fields of the intent are omitted. *)
Definition canonical (body : json) (trusted : option TrustedContext) : json :=
  VObj ([("model", orNull (field "model" body)); ("messages", extractPromptContent body); ("system", extractSystemContent body);
         ("temperature", VNum (temperatureOf body)); ("tools", orNull (field "tools" body));
         ("tool_choice", orNull (field "tool_choice" body)); ("max_tokens", orNull (field "max_tokens" body));
         ("response_format", orNull (field "response_format" body)); ("top_p", orNull (field "top_p" body));
         ("frequency_penalty", orNull (field "frequency_penalty" body)); ("presence_penalty", orNull (field "presence_penalty" body))]%string ++
        match trusted with
        | None => []
        | Some t =>
            [("requestIntent"%string, VObj (flat_map (fun k => optField k (field k body))
                ["reasoning_effort"; "reasoning"; "thinking"; "output_config"]%string));
             ("trustedContext"%string, VObj [("originModel", strOrNull (originModel t));
                ("resolvedThinkingEffort", strOrNull (resolvedThinkingEffort t));
                ("defaultThinkingEffort", strOrNull (defaultThinkingEffort t))]%string)]
        end).

Section Hash.
(** The hexadecimal SHA-256 of [JSON.stringify] of a value. *)
Context (sha256 : json -> string).

Definition computeRequestHash (body : json) (tenantId : option string) (trusted : option TrustedContext) : string :=
  let digest := String.substring 0 16 (sha256 (canonical body trusted)) in
  match tenantId with
  | Some t => if isEmpty t then digest else t +:+ String "." digest
  | None => digest
  end.
End Hash.

(** JSON text has no [NaN]; an infinite temperature is above the limit. *)
Definition shouldDeduplicate (body : json) (config : DedupConfig) : bool :=
  if negb (c_enabled config) then false
  else match field "stream" body with
       | Some (VBool true) => false
       | _ => match temperatureOf body with
              | Fin q => Qle_bool q (maxTemperatureForDedup config)
              | NonFinite => false
              end
       end.

(** ** Calls in flight *)

Section Dedup.
Context {V : Type}.

(** The settling of a function: a value, or an error. *)
Inductive outcome := Fulfilled (v : V) | Rejected (e : V).

Record Shared := mkShared { p_hash : string; p_settled : option outcome; p_waiters : list nat }.

Record Dedup := mkDedup {
  calls : list string;                       (* the hash of each call *)
  inflight : jsmap string nat;               (* promises by hash *)
  promises : list Shared;
  timers : list nat;                         (* promises with an armed timer *)
  running : jsmap nat nat;                   (* the promise of a call whose function runs *)
  solo : list nat;                           (* calls that run without sharing *)
  answers : list (nat * (outcome * bool));   (* result and wasDeduplicated *)
  unhandled : list nat;                      (* promises rejected while nobody waits *)
}.

#[export] Instance Dedup_eta : Eta Dedup := fun x =>
  mkDedup (calls x) (inflight x) (promises x) (timers x) (running x) (solo x) (answers x) (unhandled x).

Definition idle : Dedup := mkDedup [] [] [] [] [] [] [] [].

Definition without (x : nat) (l : list nat) : list nat := List.filter (fun y => negb (Nat.eqb x y)) l.

Definition evictOldest (m : jsmap string nat) : jsmap string nat :=
  if msize m >=? MAX_INFLIGHT then match mfirst m with Some k => mdel k m | None => m end else m.

(** Drop the entry of [hash] if it is still the promise [p]. *)
Definition dropEntry (hash : string) (p : nat) (m : jsmap string nat) : jsmap string nat :=
  match mget hash m with Some q => if Nat.eqb q p then mdel hash m else m | None => m end.

(** The call [c] awaits the promise. *)
Definition addWaiter (c : nat) (sh : Shared) : Shared := mkShared (p_hash sh) (p_settled sh) (p_waiters sh ++ [c]).

Definition enter (hash : string) (config : DedupConfig) (s : Dedup) : Dedup :=
  let c := length (calls s) in
  let s := s <| calls := calls s ++ [hash] |> in
  if negb (c_enabled config) then s <| solo := solo s ++ [c] |>
  else
    match mget hash (inflight s) with
    | Some p =>
        s <| promises := alter (addWaiter c) p (promises s) |>
    | None =>
        let p := length (promises s) in
        s <| inflight := mset hash p (evictOldest (inflight s)) |>
          <| promises := promises s ++ [mkShared hash None []] |>
          <| timers := timers s ++ [p] |>
          <| running := mset c p (running s) |>
    end.

Definition settle (c : nat) (o : outcome) (s : Dedup) : Dedup :=
  if decide (c ∈ solo s) then s <| solo := without c (solo s) |> <| answers := answers s ++ [(c, (o, false))] |>
  else
    match mget c (running s) with
    | None => s
    | Some p =>
        match promises s !! p with
        | None => s
        | Some sh =>
            s <| promises := <[p := mkShared (p_hash sh) (Some o) (p_waiters sh)]> (promises s) |>
              <| answers := answers s ++ (c, (o, false)) :: ((fun w => (w, (o, true))) <$> p_waiters sh) |>
              <| unhandled := match o, p_waiters sh with Rejected _, [] => unhandled s ++ [p] | _, _ => unhandled s end |>
              <| timers := without p (timers s) |>
              <| inflight := dropEntry (p_hash sh) p (inflight s) |>
              <| running := mdel c (running s) |>
        end
    end.

Definition timerFires (p : nat) (s : Dedup) : Dedup :=
  if decide (p ∈ timers s) then
    match promises s !! p with
    | Some sh => s <| timers := without p (timers s) |> <| inflight := dropEntry (p_hash sh) p (inflight s) |>
    | None => s
    end
  else s.

Definition getInflightCount (s : Dedup) : Z := msize (inflight s).
Definition getInflightHashes (s : Dedup) : list string := mkeys (inflight s).

Inductive event :=
| Enter (hash : string) (config : DedupConfig)
| Settle (c : nat) (o : outcome)
| TimerFires (p : nat).

Definition dedupStep (e : event) (s : Dedup) : Dedup :=
  match e with
  | Enter hash config => enter hash config s
  | Settle c o => settle c o s
  | TimerFires p => timerFires p s
  end.

Definition run (es : list event) : Dedup := foldl (fun s e => dedupStep e s) idle es.

(** ** Invariant *)

(** Where a call stands. *)
Definition pending (s : Dedup) (c : nat) : Prop :=
  c ∈ solo s \/ (exists p, mget c (running s) = Some p) \/
  (exists p sh, promises s !! p = Some sh /\ p_settled sh = None /\ c ∈ p_waiters sh).

Record inv (s : Dedup) : Prop := {
  i_wf : mwf (inflight s);
  i_wfr : mwf (running s);
  i_size : msize (inflight s) <= MAX_INFLIGHT;
  i_entry : forall h p, mget h (inflight s) = Some p ->
    exists sh, promises s !! p = Some sh /\ p_hash sh = h /\ p_settled sh = None;
  i_run : forall c p, mget c (running s) = Some p ->
    exists sh, promises s !! p = Some sh /\ p_settled sh = None /\ calls s !! c = Some (p_hash sh);
  i_one : forall c c' p, mget c (running s) = Some p -> mget c' (running s) = Some p -> c = c';
  i_led : forall p sh, promises s !! p = Some sh -> p_settled sh = None -> exists c, mget c (running s) = Some p;
  i_solo : forall c, c ∈ solo s -> (c < length (calls s))%nat /\ mget c (running s) = None;
  i_wait : forall p sh w, promises s !! p = Some sh -> w ∈ p_waiters sh -> calls s !! w = Some (p_hash sh);
  i_all : forall c, (c < length (calls s))%nat -> pending s c \/ exists o d, (c, (o, d)) ∈ answers s;
  i_shared : forall c o, (c, (o, true)) ∈ answers s ->
    exists l h, (l, (o, false)) ∈ answers s /\ calls s !! l = Some h /\ calls s !! c = Some h;
}.

Lemma inv_idle : inv idle.
Proof.
  split; cbn; try done; try apply mwf_nil.
  - intros c H. by apply elem_of_nil in H.
  - intros c Hc. lia.
  - intros c o H. by apply elem_of_nil in H.
Qed.

Lemma mfirst_evict m : mwf m -> msize m <= MAX_INFLIGHT -> mwf (evictOldest m) /\ msize (evictOldest m) < MAX_INFLIGHT /\
  forall h p, mget h (evictOldest m) = Some p -> mget h m = Some p.
Proof.
  intros W Hs. unfold evictOldest. destruct (Z.geb_spec (msize m) MAX_INFLIGHT) as [H|H]; [|by split_and!].
  destruct m as [|[k v] m]; [by vm_compute in H|]. cbn [mfirst head fmap option_fmap option_map fst]. split_and!.
  - by apply mwf_mdel.
  - unfold msize in *. rewrite (length_mdel_has k v) in Hs; [lia|]. cbn. by rewrite decide_True.
  - intros h p. rewrite mget_mdel by done. by case_decide.
Qed.

Lemma dropEntry_spec h p m : mwf m -> mwf (dropEntry h p m) /\ msize (dropEntry h p m) <= msize m /\
  (forall h' q, mget h' (dropEntry h p m) = Some q -> mget h' m = Some q /\ (h' = h -> q <> p)).
Proof.
  intros W. unfold dropEntry. destruct (mget h m) as [q|] eqn:E.
  - destruct (Nat.eqb_spec q p) as [->|Hne].
    + split_and!; [by apply mwf_mdel|unfold msize; pose proof (length_mdel_le h m); lia|].
      intros h' q. rewrite mget_mdel by done. case_decide; [done|]. intros ?. split; [done|congruence].
    + split_and!; [done|lia|]. intros h' q' Hq. split; [done|]. intros ->. congruence.
  - split_and!; [done|lia|]. intros h' q' Hq. split; [done|]. intros ->. congruence.
Qed.

Lemma lookup_snoc_old {A} (l : list A) x i y : l !! i = Some y -> (l ++ [x]) !! i = Some y.
Proof. intros H. by apply lookup_app_l_Some. Qed.

Lemma lookup_snoc_inv {A} (l : list A) x i y : (l ++ [x]) !! i = Some y -> l !! i = Some y \/ i = length l /\ y = x.
Proof.
  intros H. apply lookup_app_Some in H as [H|[Hi H]]; [by left|right]. apply list_lookup_singleton_Some in H as [Hz ->]. split; [lia|done].
Qed.

Lemma inv_solo hash s :
  inv s -> inv (s <| calls := calls s ++ [hash] |> <| solo := solo s ++ [length (calls s)] |>).
Proof.
  intros I. split; cbn; try apply I.
  - intros c p Hc. destruct (i_run _ I c p Hc) as (sh & ? & ? & ?). exists sh. split_and!; [done|done|by apply lookup_snoc_old].
  - intros c [Hc| ->%list_elem_of_singleton]%elem_of_app; rewrite length_app; cbn.
    + destruct (i_solo _ I c Hc). split; [lia|done].
    + split; [lia|]. destruct (mget (length (calls s)) (running s)) eqn:E; [|done].
      destruct (i_run _ I _ _ E) as (sh & _ & _ & H%lookup_lt_Some). lia.
  - intros p sh w Hp Hw. apply lookup_snoc_old. by eapply i_wait.
  - intros c Hc. rewrite length_app in Hc. cbn in Hc. destruct (decide (c = length (calls s))) as [->|Hne].
    + left. left. cbn. apply elem_of_app. right. by left.
    + destruct (i_all _ I c ltac:(lia)) as [[Hs|Hp]|Ha]; [left; left; cbn; apply elem_of_app; by left|left; right; exact Hp|by right].
  - intros c o Hc. destruct (i_shared _ I c o Hc) as (l & h & Hl & H1 & H2). exists l, h.
    split_and!; [done|by apply lookup_snoc_old|by apply lookup_snoc_old].
Qed.

Lemma alter_lookup (f : Shared -> Shared) p (l : list Shared) q sh :
  alter f p l !! q = Some sh -> (q <> p /\ l !! q = Some sh) \/ (q = p /\ exists sh0, l !! p = Some sh0 /\ sh = f sh0).
Proof.
  destruct (decide (q = p)) as [->|Hne].
  - rewrite list_lookup_alter_eq. destruct (l !! p) as [sh0|]; [|done]. intros [= <-]. right. split; [done|by exists sh0].
  - rewrite list_lookup_alter_ne by done. intros H. by left.
Qed.

Lemma inv_join hash p s :
  inv s -> mget hash (inflight s) = Some p ->
  inv (s <| calls := calls s ++ [hash] |>
         <| promises := alter (addWaiter (length (calls s))) p (promises s) |>).
Proof.
  intros I Hp. set (f := addWaiter (length (calls s))). destruct (i_entry _ I hash p Hp) as (sh0 & H0 & Hh & Hs0).
  assert (forall q sh, promises s !! q = Some sh -> exists sh', alter f p (promises s) !! q = Some sh' /\ p_hash sh' = p_hash sh /\
    p_settled sh' = p_settled sh /\ p_waiters sh ⊆ p_waiters sh') as Hold.
  { intros q sh Hq. destruct (decide (q = p)) as [->|Hne].
    - exists (f sh). rewrite list_lookup_alter_eq, Hq. split_and!; [done..|]. cbn. set_solver.
    - exists sh. rewrite list_lookup_alter_ne by done. by split_and!. }
  split; cbn; try apply I.
  - intros h q Hq. destruct (i_entry _ I h q Hq) as (sh & H1 & H2 & H3). destruct (Hold q sh H1) as (sh' & ? & ? & ? & _). exists sh'. split_and!; congruence.
  - intros c q Hc. destruct (i_run _ I c q Hc) as (sh & H1 & H2 & H3). destruct (Hold q sh H1) as (sh' & ? & ? & ? & _). exists sh'.
    split_and!; [done|congruence|]. apply lookup_snoc_old. congruence.
  - intros q sh Hq Hs. apply alter_lookup in Hq as [[_ Hq]|[-> (sh1 & Hq & ->)]]; by eapply i_led.
  - intros c Hc. destruct (i_solo _ I c Hc). rewrite length_app. split; [lia|done].
  - intros q sh w Hq Hw. apply alter_lookup in Hq as [[_ Hq]|[-> (sh1 & Hq & ->)]]; [apply lookup_snoc_old; by eapply i_wait|]. cbn in Hw |- *.
    apply elem_of_app in Hw as [Hw|Hw]; [apply lookup_snoc_old; by eapply i_wait|]. apply list_elem_of_singleton in Hw as ->.
    replace (p_hash sh1) with hash by congruence. rewrite lookup_app_r, Nat.sub_diag by lia. done.
  - intros c Hc. rewrite length_app in Hc. cbn in Hc. destruct (decide (c = length (calls s))) as [->|Hne].
    + left. right. right. exists p, (f sh0). cbn. rewrite list_lookup_alter_eq, H0. split_and!; [done|done|]. apply elem_of_app. right. by left.
    + destruct (i_all _ I c ltac:(lia)) as [[Hs|[Hr|(q & sh & H1 & H2 & H3)]]|Ha]; [left; by left|left; right; by left|left; right; right|by right].
      destruct (Hold q sh H1) as (sh' & ? & ? & ? & Hsub). exists q, sh'. split_and!; [done|congruence|by apply Hsub].
  - intros c o Hc. destruct (i_shared _ I c o Hc) as (l & h & Hl & H1 & H2). exists l, h.
    split_and!; [done|by apply lookup_snoc_old|by apply lookup_snoc_old].
Qed.

Lemma inv_lead hash s :
  inv s -> mget hash (inflight s) = None ->
  inv (s <| calls := calls s ++ [hash] |>
         <| inflight := mset hash (length (promises s)) (evictOldest (inflight s)) |>
         <| promises := promises s ++ [mkShared hash None []] |>
         <| timers := timers s ++ [length (promises s)] |>
         <| running := mset (length (calls s)) (length (promises s)) (running s) |>).
Proof.
  intros I Hn. destruct (mfirst_evict _ (i_wf _ I) (i_size _ I)) as (We & He & Hsub).
  set (p := length (promises s)). set (c0 := length (calls s)).
  assert (forall c q, mget c (running s) = Some q -> c <> c0 /\ q <> p) as Hfresh.
  { intros c q Hc. destruct (i_run _ I c q Hc) as (sh & H1 & _ & H3). apply lookup_lt_Some in H1, H3. subst p c0. lia. }
  assert ((promises s ++ [mkShared hash None []]) !! p = Some (mkShared hash None [])) as Hp by (subst p; by rewrite lookup_app_r, Nat.sub_diag by lia).
  split; cbn.
  - by apply mwf_mset.
  - apply mwf_mset, I.
  - unfold msize in *. rewrite length_mset. unfold MAX_INFLIGHT in *. case_if; lia.
  - intros h q. rewrite mget_mset. case_decide as Hh.
    + intros [= <-]. eexists. split_and!; [exact Hp|done|done].
    + intros Hq%Hsub. destruct (i_entry _ I h q Hq) as (sh & ? & ? & ?). exists sh. split_and!; [by apply lookup_snoc_old|done|done].
  - intros c q. rewrite mget_mset. case_decide as Hc.
    + intros [= <-]. eexists. split_and!; [exact Hp|done|]. subst c c0. by rewrite lookup_app_r, Nat.sub_diag by lia.
    + intros Hq. destruct (i_run _ I c q Hq) as (sh & ? & ? & ?). exists sh. split_and!; [by apply lookup_snoc_old|done|by apply lookup_snoc_old].
  - intros c c' q. rewrite !mget_mset. repeat case_decide; intros Hc Hc'; simplify_eq; [done|by destruct (Hfresh _ _ Hc')|by destruct (Hfresh _ _ Hc)|by eapply i_one].
  - intros q sh Hq Hs. apply lookup_snoc_inv in Hq as [Hq|[-> ->]].
    + destruct (i_led _ I q sh Hq Hs) as [c Hc]. exists c. rewrite mget_mset_ne; [done|]. by destruct (Hfresh _ _ Hc).
    + exists c0. apply mget_mset_eq.
  - intros c Hc. destruct (i_solo _ I c Hc). rewrite length_app. split; [lia|]. rewrite mget_mset_ne; [done|]. subst c0. lia.
  - intros q sh w Hq Hw. apply lookup_snoc_inv in Hq as [Hq|[-> ->]]; [apply lookup_snoc_old; by eapply i_wait|]. by apply elem_of_nil in Hw.
  - intros c Hc. rewrite length_app in Hc. cbn in Hc. destruct (decide (c = c0)) as [->|Hne].
    + left. right. left. exists p. cbn. apply mget_mset_eq.
    + destruct (i_all _ I c ltac:(subst c0; lia)) as [[Hs|[[q Hr]|(q & sh & H1 & H2 & H3)]]|Ha]; [left; by left|left; right; left|left; right; right|by right].
      * exists q. cbn. by rewrite mget_mset_ne.
      * exists q, sh. cbn. split_and!; [by apply lookup_snoc_old|done|done].
  - intros c o Hc. destruct (i_shared _ I c o Hc) as (l & h & Hl & H1 & H2). exists l, h.
    split_and!; [done|by apply lookup_snoc_old|by apply lookup_snoc_old].
Qed.

Lemma without_spec x y l : y ∈ without x l <-> y ∈ l /\ y <> x.
Proof.
  unfold without. rewrite !list_elem_of_In, filter_In. destruct (Nat.eqb_spec x y); cbn; split; intros [? ?]; split; congruence.
Qed.

Lemma inv_settle_solo c o s :
  inv s -> c ∈ solo s -> inv (s <| solo := without c (solo s) |> <| answers := answers s ++ [(c, (o, false))] |>).
Proof.
  intros I Hc. split; cbn; try apply I.
  - intros c' [Hc' _]%without_spec. by apply I.
  - intros c' Hc'. destruct (i_all _ I c' Hc') as [[Hs|Hp]|(o' & d & Ha)].
    + destruct (decide (c' = c)) as [->|Hne]; [right; exists o, false; apply elem_of_app; right; by left|].
      left. left. cbn. by apply without_spec.
    + left. right. exact Hp.
    + right. exists o', d. apply elem_of_app. by left.
  - intros c' o' [H|H]%elem_of_app; [|by apply list_elem_of_singleton in H].
    destruct (i_shared _ I c' o' H) as (l & h & Hl & ? & ?). exists l, h. split_and!; [apply elem_of_app; by left|done|done].
Qed.

Lemma insert_lookup p (sh' : Shared) (l : list Shared) q sh :
  <[p := sh']> l !! q = Some sh -> (q <> p /\ l !! q = Some sh) \/ (q = p /\ sh = sh').
Proof. intros [(-> & <- & _)|[Hne H]]%list_lookup_insert_Some; [by right|left; by split]. Qed.

Lemma inv_settle c p sh o s un :
  inv s -> mget c (running s) = Some p -> promises s !! p = Some sh ->
  inv (s <| promises := <[p := mkShared (p_hash sh) (Some o) (p_waiters sh)]> (promises s) |>
         <| answers := answers s ++ (c, (o, false)) :: ((fun w => (w, (o, true))) <$> p_waiters sh) |>
         <| unhandled := un |>
         <| timers := without p (timers s) |>
         <| inflight := dropEntry (p_hash sh) p (inflight s) |>
         <| running := mdel c (running s) |>).
Proof.
  intros I Hc Hp. destruct (dropEntry_spec (p_hash sh) p _ (i_wf _ I)) as (Wd & Hd & Hsub).
  destruct (i_run _ I c p Hc) as (sh1 & Hp1 & Hs & Hcall). rewrite Hp in Hp1. injection Hp1 as <-.
  set (sh' := mkShared (p_hash sh) (Some o) (p_waiters sh)).
  assert (forall q x, promises s !! q = Some x -> q <> p -> <[p := sh']> (promises s) !! q = Some x) as Hold.
  { intros q x Hq Hne. by rewrite list_lookup_insert_ne. }
  assert ((c, (o, false)) ∈ answers s ++ (c, (o, false)) :: ((fun w => (w, (o, true))) <$> p_waiters sh)) as Hlead.
  { apply elem_of_app. right. by left. }
  split; cbn.
  - done.
  - apply mwf_mdel, I.
  - pose proof (i_size _ I). lia.
  - intros h q Hq. destruct (Hsub h q Hq) as [Hq' Hne]. destruct (i_entry _ I h q Hq') as (x & Hx & Hh & Hsx).
    assert (q <> p) as Hqp by (intros ->; apply Hne; [congruence|done]). exists x. split_and!; [by apply Hold|done|done].
  - intros c' q. rewrite mget_mdel by apply I. case_decide as Hcc; [done|]. intros Hq. destruct (i_run _ I c' q Hq) as (x & Hx & ? & ?).
    exists x. split_and!; [apply Hold; [done|]; intros ->; apply Hcc; by eapply i_one|done|done].
  - intros c1 c2 q. rewrite !mget_mdel by apply I. repeat case_decide; try done. by apply I.
  - intros q x Hq Hsx. apply insert_lookup in Hq as [[Hne Hq]|[-> ->]]; [|done]. destruct (i_led _ I q x Hq Hsx) as [c' Hc'].
    exists c'. rewrite mget_mdel_ne; [done|]. intros ->. congruence.
  - intros c' Hc'. destruct (i_solo _ I c' Hc') as [? Hn]. split; [done|]. rewrite mget_mdel by apply I. by case_decide.
  - intros q x w Hq Hw. apply insert_lookup in Hq as [[_ Hq]|[-> ->]]; [by eapply i_wait|]. by eapply (i_wait _ I p sh).
  - intros c' Hc'. destruct (i_all _ I c' Hc') as [[Hso|[[q Hr]|(q & x & Hq & Hsx & Hw)]]|(o' & d & Ha)].
    + left. by left.
    + destruct (decide (c' = c)) as [->|Hne]; [right; by exists o, false|]. left. right. left. exists q. cbn. by rewrite mget_mdel_ne.
    + destruct (decide (q = p)) as [->|Hne].
      * right. exists o, true. apply elem_of_app. right. right. apply list_elem_of_fmap. exists c'. split; [done|]. congruence.
      * left. right. right. exists q, x. cbn. split_and!; [by apply Hold|done|done].
    + right. exists o', d. apply elem_of_app. by left.
  - intros c' o' [H|H]%elem_of_app.
    + destruct (i_shared _ I c' o' H) as (l & h & Hl & ? & ?). exists l, h. split_and!; [apply elem_of_app; by left|done|done].
    + apply elem_of_cons in H as [H|H]; [done|]. apply list_elem_of_fmap in H as (w & [= -> ->] & Hw).
      exists c, (p_hash sh). split_and!; [done|done|by eapply i_wait].
Qed.

Lemma inv_timer p sh s :
  inv s -> promises s !! p = Some sh ->
  inv (s <| timers := without p (timers s) |> <| inflight := dropEntry (p_hash sh) p (inflight s) |>).
Proof.
  intros I Hp. destruct (dropEntry_spec (p_hash sh) p _ (i_wf _ I)) as (Wd & Hd & Hsub).
  split; cbn; try apply I; [done|pose proof (i_size _ I); lia|]. intros h q Hq. apply I. by apply Hsub.
Qed.

Lemma inv_step e s : inv s -> inv (dedupStep e s).
Proof.
  intros I. destruct e as [hash config|c o|p]; cbn [dedupStep].
  - unfold enter. cbv zeta. destruct (negb (c_enabled config)); [exact (inv_solo hash s I)|].
    change (inflight (s <| calls := calls s ++ [hash] |>)) with (inflight s).
    destruct (mget hash (inflight s)) as [p|] eqn:E; [exact (inv_join hash p s I E)|exact (inv_lead hash s I E)].
  - unfold settle. case_decide; [by apply inv_settle_solo|]. destruct (mget c (running s)) as [p|] eqn:E; [|done].
    destruct (promises s !! p) as [sh|] eqn:Ep; [|done]. by apply (inv_settle c p sh o s _ I).
  - unfold timerFires. case_decide; [|done]. destruct (promises s !! p) as [sh|] eqn:Ep; [|done]. by apply inv_timer.
Qed.

Lemma inv_run es : inv (run es).
Proof.
  unfold run. induction es as [|e es IH] using rev_ind; [apply inv_idle|]. rewrite foldl_app. by apply inv_step.
Qed.

(** No call is forgotten.  In every order of entries, settlings and timeouts,
    every call has its answer or waits for a function that runs, its own or that
    of the call that leads its promise; and when that function settles, the call
    has its answer.  The map never holds more than its limit. *)
Theorem dedup_answers_all es c :
  let s := run es in
  getInflightCount s <= MAX_INFLIGHT /\
  ((c < length (calls s))%nat ->
   (exists o d, (c, (o, d)) ∈ answers s) \/
   exists l, (l ∈ solo s \/ is_Some (mget l (running s))) /\
     forall o, exists d, (c, (o, d)) ∈ answers (settle l o s)).
Proof.
  intros s. pose proof (inv_run es) as I. fold s in I. clearbody s. split; [apply I|]. intros Hc.
  destruct (i_all _ I c Hc) as [[Hso|[[p Hr]|(p & sh & Hp & Hs & Hw)]]|Ha]; [right|right|right|by left].
  - exists c. split; [by left|]. intros o. exists false. unfold settle. rewrite decide_True by done. cbn. apply elem_of_app. right. by left.
  - exists c. split; [right; by eexists|]. intros o. exists false. unfold settle. case_decide; [cbn; apply elem_of_app; right; by left|].
    rewrite Hr. destruct (i_run _ I c p Hr) as (sh & -> & _). cbn. apply elem_of_app. right. by left.
  - destruct (i_led _ I p sh Hp Hs) as [l Hl]. destruct (decide (l ∈ solo s)) as [Hsolo|Hns].
    + destruct (i_solo _ I l Hsolo). congruence.
    + exists l. split; [right; by eexists|]. intros o. exists true. unfold settle. rewrite decide_False, Hl, Hp by done. cbn.
      apply elem_of_app. right. right. apply list_elem_of_fmap. by exists c.
Qed.

(** ** Tenants *)

(** The tenant as the hash sees it: an empty id is none. *)
Definition tenantOf (t : option string) : option string :=
  match t with Some t => if isEmpty t then None else Some t | None => None end.

Lemma hash_tenant sha256 b1 t1 k1 b2 t2 k2 :
  (forall v, String.length (sha256 v) = 64%nat) ->
  computeRequestHash sha256 b1 t1 k1 = computeRequestHash sha256 b2 t2 k2 ->
  tenantOf t1 = tenantOf t2 /\
  String.substring 0 16 (sha256 (canonical b1 k1)) = String.substring 0 16 (sha256 (canonical b2 k2)).
Proof.
  intros Hlen. assert (forall n s, (n <= String.length s)%nat -> String.length (String.substring 0 n s) = n) as Hsub.
  { intros n. induction n as [|n IH]; intros [|c s] H; cbn in *; try done; [lia|]. rewrite IH; [done|lia]. }
  unfold computeRequestHash, tenantOf. set (d1 := String.substring 0 16 _). set (d2 := String.substring 0 16 _).
  assert (String.length d1 = 16%nat) as H1 by (apply Hsub; rewrite Hlen; lia).
  assert (String.length d2 = 16%nat) as H2 by (apply Hsub; rewrite Hlen; lia).
  assert (forall t d, String.length d = 16%nat -> String.length (t +:+ String "." d) <> 16%nat) as Hne.
  { intros t d Hd. rewrite append_length. cbn. lia. }
  destruct t1 as [t1|], t2 as [t2|]; repeat case_if; intros H; try (by split);
    try (exfalso; eapply Hne; [|first [by rewrite <- H|by rewrite H]]; done).
  destruct (append_inj_r t1 t2 (String "." d1) (String "." d2)) as [-> [= Hd]]; [cbn; congruence|exact H|by split].
Qed.

(** A request as [computeRequestHash] reads it. *)
Record Asked := mkAsked { body : json; tenantId : option string; trustedContext : option TrustedContext }.

(** What happens to the service: a request comes, the function of a call settles, a
    timer fires. *)
Inductive happening :=
| Asks (r : Asked) (config : DedupConfig)
| Settles (c : nat) (o : outcome)
| TimesOut (p : nat).

Definition hashOf (sha256 : json -> string) (r : Asked) : string := computeRequestHash sha256 (body r) (tenantId r) (trustedContext r).

Definition digestOf (sha256 : json -> string) (r : Asked) : string := String.substring 0 16 (sha256 (canonical (body r) (trustedContext r))).

Definition eventOf (sha256 : json -> string) (h : happening) : event :=
  match h with
  | Asks r config => Enter (hashOf sha256 r) config
  | Settles c o => Settle c o
  | TimesOut p => TimerFires p
  end.

(** The requests in the order they came: the [i]-th call is that of the [i]-th request. *)
Definition asked (hs : list happening) : list Asked := omap (fun h => match h with Asks r _ => Some r | _ => None end) hs.

Lemma calls_step e s : calls (dedupStep e s) = calls s ++ match e with Enter h _ => [h] | _ => [] end.
Proof.
  destruct e as [hash config|c o|p]; cbn [dedupStep]; rewrite ?app_nil_r.
  - unfold enter. cbv zeta. case_if; [done|]. by destruct (mget _ _).
  - unfold settle. case_decide; [done|]. destruct (mget c (running s)) as [p|]; [|done]. by destruct (promises s !! p).
  - unfold timerFires. case_decide; [|done]. by destruct (promises s !! p).
Qed.

Lemma calls_asked sha256 hs : calls (run (eventOf sha256 <$> hs)) = hashOf sha256 <$> asked hs.
Proof.
  unfold run. induction hs as [|h hs IH] using rev_ind; [done|]. rewrite fmap_app, foldl_app. cbn [foldl fmap list_fmap].
  rewrite calls_step, IH. unfold asked. rewrite omap_app, fmap_app. by destruct h.
Qed.

(** C37. Answers stay within a tenant.  Whatever requests come, in whatever order calls
    settle and timers fire, a request that is given a shared answer is given the answer
    of the call of a request that ran its function itself, and that request is of the
    same tenant and has the same digest. *)
Theorem dedup_tenant_isolation sha256 hs c o :
  (forall v, String.length (sha256 v) = 64%nat) ->
  let s := run (eventOf sha256 <$> hs) in
  (c, (o, true)) ∈ answers s ->
  exists l r r', asked hs !! c = Some r /\ asked hs !! l = Some r' /\ (l, (o, false)) ∈ answers s /\
    tenantOf (tenantId r') = tenantOf (tenantId r) /\ digestOf sha256 r' = digestOf sha256 r.
Proof.
  intros Hlen s Hc. destruct (i_shared _ (inv_run (eventOf sha256 <$> hs)) c o Hc) as (l & h & Hl & Hlh & Hch).
  rewrite calls_asked, !list_lookup_fmap in Hlh, Hch.
  destruct (asked hs !! l) as [r'|] eqn:Er'; [|done]. destruct (asked hs !! c) as [r|] eqn:Er; [|done].
  exists l, r, r'. split; [done|]. split; [done|]. split; [done|]. unfold digestOf. apply hash_tenant; [done|].
  cbn in *. unfold hashOf in *. congruence.
Qed.
End Dedup.

(** ** Witnesses *)

Definition exSha (v : json) : string := "0123456789abcdef0123456789abcdef0123456789abcdef0123456789abcdef".
Definition exBody : json := VObj [("model", VStr "gpt-4o"); ("temperature", VNum (Fin (inject_Z 0)))]%string.
Definition exHash : string := computeRequestHash exSha exBody (Some "key1"%string) None.

(** Two equal requests of one tenant; the first one's function settles. *)
Definition exEvents : list (event (V := string)) :=
  [Enter exHash DEFAULT_DEDUP_CONFIG; Enter exHash DEFAULT_DEDUP_CONFIG; Settle 0 (Fulfilled "ok"%string)].

Example exEvents_answers : answers (run exEvents) = [(0%nat, (Fulfilled "ok"%string, false)); (1%nat, (Fulfilled "ok"%string, true))].
Proof. vm_compute. reflexivity. Qed.

Lemma dedup_answers_all_witness :
  exists l, (l ∈ solo (run (take 2 exEvents)) \/ is_Some (mget l (running (run (take 2 exEvents))))) /\
    forall o, exists d, (1%nat, (o, d)) ∈ answers (settle l o (run (take 2 exEvents))).
Proof.
  destruct (proj2 (dedup_answers_all (take 2 exEvents) 1) ltac:(vm_compute; lia)) as [(o & d & H)|H]; [|exact H].
  exfalso. vm_compute in H. by apply elem_of_nil in H.
Defined.

Definition exAsked : Asked := mkAsked exBody (Some "key1"%string) None.
Definition exHappenings : list (happening (V := string)) :=
  [Asks exAsked DEFAULT_DEDUP_CONFIG; Asks exAsked DEFAULT_DEDUP_CONFIG; Settles 0 (Fulfilled "ok"%string)].

Lemma dedup_tenant_isolation_witness :
  exists l r r', asked exHappenings !! 1%nat = Some r /\ asked exHappenings !! l = Some r' /\
    (l, (Fulfilled "ok"%string, false)) ∈ answers (run (eventOf exSha <$> exHappenings)) /\
    tenantOf (tenantId r') = tenantOf (tenantId r) /\ digestOf exSha r' = digestOf exSha r.
Proof.
  apply (dedup_tenant_isolation exSha exHappenings 1 (Fulfilled "ok"%string)); [reflexivity|].
  apply list_elem_of_In. right. by left.
Defined.

(** ** Findings *)

(** When the function of a call fails and nobody shares its promise, the shared
    promise is rejected without a handler. *)
Lemma lone_failure_unhandled :
  unhandled (run [Enter "h"%string DEFAULT_DEDUP_CONFIG; Settle 0 (Rejected "boom"%string)]) = [0%nat].
Proof. vm_compute. reflexivity. Qed.
