(* ===== verification/Json.v ===== *)
(** * Induction and measures over JSON values

    The values of [ComboSteps] nest through the lists of arrays and objects; the
    scheme Rocq derives says nothing about the elements.  This is the scheme the
    proofs on whole values use. *)
From Stdlib Require Import String.
From S2P Require Import Prelude JsMap ComboSteps.

Section Induction.
Context (P : json -> Prop)
  (Hnull : P VNull) (Hbool : forall b, P (VBool b)) (Hnum : forall n, P (VNum n)) (Hstr : forall s, P (VStr s))
  (Harr : forall l, Forall P l -> P (VArr l))
  (Hobj : forall fs, Forall (fun kv => P kv.2) fs -> P (VObj fs)).

Fixpoint json_nested_ind (v : json) : P v :=
  match v with
  | VNull => Hnull
  | VBool b => Hbool b
  | VNum n => Hnum n
  | VStr s => Hstr s
  | VArr l => Harr l ((fix go l : Forall P l :=
      match l with [] => Forall_nil_2 P | x :: l => Forall_cons_2 P x l (json_nested_ind x) (go l) end) l)
  | VObj fs => Hobj fs ((fix go fs : Forall (fun kv : string * json => P kv.2) fs :=
      match fs with
      | [] => Forall_nil_2 _
      | kv :: fs => Forall_cons_2 (fun kv : string * json => P kv.2) kv fs (json_nested_ind kv.2) (go fs)
      end) fs)
  end.
End Induction.
