(* ===== verification/LruCache.v ===== *)
(** * The byte-bounded LRU cache: [src/lib/cacheLayer.ts], [src/lib/retainedSize.ts]

    The cache of prompts and answers keeps its entries in a Map in the order of
    their last use, under a limit on the number of entries and one on the bytes
    they are estimated to retain.  The estimate walks a value and stops as soon as
    the budget is spent; values here are JSON values, which share no parts and
    hold nothing the estimate does not support.  Times are milliseconds read from
    the clock, [now].  The process-wide instance of [getPromptCache] is one value
    of the state. *)
From Stdlib Require Import String QArith_base Qround.
From S2P Require Import Prelude JsMap JsString ComboSteps Json.
#[local] Open Scope Z_scope.
#[local] Open Scope list_scope.

(** ** The estimate *)

(** Adds to the count; [None] when the budget is spent. *)
Definition charge (maxBytes amount bytes : Z) : option Z :=
  if bytes + amount <=? maxBytes then Some (bytes + amount) else None.

Definition chars (s : string) : Z := Z.of_nat (String.length s).

Fixpoint visit (maxBytes : Z) (item : json) (depth : nat) (bytes : Z) : option Z :=
  match item with
  | VStr s => charge maxBytes (24 + chars s * 2) bytes
  | VNull | VNum _ | VBool _ => charge maxBytes 8 bytes
  | VArr l =>
      if (64 <? depth)%nat then None
      else match charge maxBytes 64 bytes with
           | None => None
           | Some bytes =>
               (fix go l bytes :=
                  match l with
                  | [] => Some bytes
                  | x :: l =>
                      match charge maxBytes 8 bytes with
                      | None => None
                      | Some bytes => match visit maxBytes x (S depth) bytes with None => None | Some bytes => go l bytes end
                      end
                  end) l bytes
           end
  | VObj fs =>
      if (64 <? depth)%nat then None
      else match charge maxBytes 64 bytes with
           | None => None
           | Some bytes =>
               (fix go fs bytes :=
                  match fs with
                  | [] => Some bytes
                  | kv :: fs =>
                      match charge maxBytes (32 + chars kv.1 * 2) bytes with
                      | None => None
                      | Some bytes => match visit maxBytes kv.2 (S depth) bytes with None => None | Some bytes => go fs bytes end
                      end
                  end) fs bytes
           end
  end.

(** [None] is Infinity. *)
Definition estimateRetainedBytes (value : json) (maxBytes : Z) : option Z :=
  if maxBytes >=? 0 then visit maxBytes value 0 0 else None.

(** ** The cache *)

Record CacheEntry := mkEntry { e_value : json; createdAt : Z; ttl : Z; e_size : Z; e_hits : Z }.

Record Stats := mkStats { hits : Z; misses : Z; evictions : Z }.

Record LRUCache := mkLRU {
  cache : jsmap string CacheEntry;
  maxSize : Z;
  maxBytes : Z;
  defaultTTL : Z;
  currentSize : Z;
  currentBytes : Z;
  stats : Stats
}.

#[export] Instance LRUCache_eta : Eta LRUCache := fun x =>
  mkLRU (cache x) (maxSize x) (maxBytes x) (defaultTTL x) (currentSize x) (currentBytes x) (stats x).
#[export] Instance Stats_eta : Eta Stats := fun x => mkStats (hits x) (misses x) (evictions x).

Definition DEFAULT_MAX_ENTRIES : Z := 50.
Definition DEFAULT_MAX_BYTES : Z := 2 * 1024 * 1024.
Definition DEFAULT_TTL : Z := 300000.

(** [None] is undefined. *)
Definition validLimit (value : option jsnum) (fallback : Z) : Z :=
  match value with
  | Some (Fin q) => if Qle_bool 0 q then Qfloor q else fallback
  | _ => fallback
  end.

Definition newLRU (size bytes ttl : option jsnum) : LRUCache :=
  mkLRU [] (validLimit size DEFAULT_MAX_ENTRIES) (validLimit bytes DEFAULT_MAX_BYTES) (validLimit ttl DEFAULT_TTL)
    0 0 (mkStats 0 0 0).

Definition deleteEntry (key : string) (e : CacheEntry) (s : LRUCache) : LRUCache :=
  let b := currentBytes s - e_size e in
  s <| cache := mdel key (cache s) |> <| currentSize := currentSize s - 1 |>
    <| currentBytes := if b <? 0 then 0 else b |>.

Definition miss (s : LRUCache) : LRUCache := s <| stats := (stats s) <| misses := misses (stats s) + 1 |> |>.

Definition expired (now : Z) (e : CacheEntry) : bool := now - createdAt e >? ttl e.

Definition get (key : string) (now : Z) (s : LRUCache) : LRUCache * option json :=
  match mget key (cache s) with
  | None => (miss s, None)
  | Some e =>
      if expired now e then (miss (deleteEntry key e s), None)
      else
        let e' := mkEntry (e_value e) (createdAt e) (ttl e) (e_size e) (e_hits e + 1) in
        (s <| cache := mset key e' (mdel key (cache s)) |>
           <| stats := (stats s) <| hits := hits (stats s) + 1 |> |>, Some (e_value e))
  end.

(** The eviction loop; each turn removes the first entry of the Map. *)
Fixpoint evictLoop (fuel : nat) (entrySize : Z) (s : LRUCache) : LRUCache :=
  match fuel with
  | O => s
  | S fuel =>
      if ((currentSize s >=? maxSize s) || (currentBytes s + entrySize >? maxBytes s)) && (msize (cache s) >? 0) then
        let s := match mfirst (cache s) with
                 | Some oldestKey =>
                     match mget oldestKey (cache s) with
                     | Some oldestEntry => deleteEntry oldestKey oldestEntry s
                     | None => s
                     end
                 | None => s
                 end in
        evictLoop fuel entrySize (s <| stats := (stats s) <| evictions := evictions (stats s) + 1 |> |>)
      else s
  end.

(** The object [{ key, value }] whose retained size is charged. *)
Definition retained (key : string) (value : json) : json := VObj [("key", VStr key); ("value", value)]%string.

Definition forget (key : string) (s : LRUCache) : LRUCache :=
  match mget key (cache s) with
  | Some old =>
      s <| currentBytes := currentBytes s - e_size old |> <| currentSize := currentSize s - 1 |>
        <| cache := mdel key (cache s) |>
  | None => s
  end.

Definition set (key : string) (value : json) (ttlMs : option jsnum) (now : Z) (s : LRUCache) : LRUCache :=
  match estimateRetainedBytes (retained key value) (maxBytes s) with
  | None => s
  | Some entrySize =>
      if maxSize s =? 0 then s
      else
        let s := forget key s in
        let s := evictLoop (length (cache s)) entrySize s in
        let e := mkEntry value now (validLimit ttlMs (defaultTTL s)) entrySize 0 in
        s <| cache := mset key e (cache s) |> <| currentSize := currentSize s + 1 |>
          <| currentBytes := currentBytes s + entrySize |>
  end.

Definition has (key : string) (now : Z) (s : LRUCache) : LRUCache * bool :=
  match mget key (cache s) with
  | None => (s, false)
  | Some e => if expired now e then (deleteEntry key e s, false) else (s, true)
  end.

Definition delete (key : string) (s : LRUCache) : LRUCache * bool :=
  match mget key (cache s) with
  | Some e => (deleteEntry key e s, true)
  | None => (s, false)
  end.

Definition clear (s : LRUCache) : LRUCache := s <| cache := [] |> <| currentSize := 0 |> <| currentBytes := 0 |>.

(** The hit rate in per cent; [size], [bytes] and the counters are fields. *)
Definition hitRate (s : LRUCache) : Q :=
  let total := hits (stats s) + misses (stats s) in
  if total >? 0 then (inject_Z (hits (stats s)) / inject_Z total * inject_Z 100)%Q else inject_Z 0.

(** ** The key: [JSON.stringify] with the list of the top-level names

    A list as second argument keeps, at every level of the value, only the
    properties it names, in its order. *)
Fixpoint onlyNames (names : list string) (v : json) : json :=
  match v with
  | VArr l => VArr (map (onlyNames names) l)
  | VObj fs =>
      let kept := map (fun kv => (kv.1, onlyNames names kv.2)) fs in
      VObj (flat_map (fun k => match mget k kept with Some x => [(k, x)] | None => [] end) names)
  | _ => v
  end.

Section Key.
(** The hexadecimal SHA-256 of the text of a value. *)
Context (sha256 : json -> string).

Definition generateKey (params : jsmap string json) : string :=
  String.substring 0 16 (sha256 (onlyNames (sortStrings (mkeys params)) (VObj params))).
End Key.

(** ** What the estimate computes *)

Fixpoint cost (v : json) : Z :=
  match v with
  | VStr s => 24 + chars s * 2
  | VNull | VNum _ | VBool _ => 8
  | VArr l => 64 + sumZ (map (fun x => 8 + cost x) l)
  | VObj fs => 64 + sumZ (map (fun kv => 32 + chars kv.1 * 2 + cost kv.2) fs)
  end.

(** The levels of arrays and objects in a value. *)
Fixpoint levels (v : json) : nat :=
  match v with
  | VArr l => S (foldr Nat.max 0%nat (map levels l))
  | VObj fs => S (foldr Nat.max 0%nat (map (fun kv => levels kv.2) fs))
  | _ => 0%nat
  end.

Lemma charge_spec m a b b' : charge m a b = Some b' <-> b' = b + a /\ b + a <= m.
Proof. unfold charge. case_if; to_prop; (split; [intros [= <-]|intros [-> ?]]); [lia|done|]. exfalso; lia. Qed.

Lemma cost_pos v : 0 < cost v.
Proof.
  induction v as [| | |s|l IH|fs IH] using json_nested_ind; cbn [cost]; unfold chars; try lia.
  - enough (0 <= sumZ (map (fun x => 8 + cost x) l)) by lia. apply sumZ_nonneg, Forall_map.
    eapply Forall_impl; [exact IH|]. cbn. intros; lia.
  - enough (0 <= sumZ (map (fun kv => 32 + chars kv.1 * 2 + cost kv.2) fs)) by (unfold chars in *; lia).
    apply sumZ_nonneg, Forall_map. eapply Forall_impl; [exact IH|]. unfold chars. cbn. intros; lia.
Qed.

(** A walk over parts, each charged [fixed] and then visited. *)
Definition walk {A} (maxBytes : Z) (fixed : A -> Z) (part : A -> json) (depth : nat) : list A -> Z -> option Z :=
  fix go l bytes :=
    match l with
    | [] => Some bytes
    | x :: l =>
        match charge maxBytes (fixed x) bytes with
        | None => None
        | Some bytes => match visit maxBytes (part x) depth bytes with None => None | Some bytes => go l bytes end
        end
    end.

Definition visitOk (m : Z) (v : json) : Prop := forall d b b', (d <= 65)%nat ->
  visit m v d b = Some b' <-> (d + levels v <= 65)%nat /\ b + cost v <= m /\ b' = b + cost v.

Lemma walk_spec {A} m (fixed : A -> Z) (part : A -> json) d l : (d <= 65)%nat ->
  Forall (fun x => 0 <= fixed x /\ visitOk m (part x)) l -> forall b b', b <= m ->
  walk m fixed part d l b = Some b' <->
    (d + foldr Nat.max 0%nat (map (fun x => levels (part x)) l) <= 65)%nat /\
    b + sumZ (map (fun x => fixed x + cost (part x)) l) <= m /\ b' = b + sumZ (map (fun x => fixed x + cost (part x)) l).
Proof.
  intros Hd. induction 1 as [|x l [Hx Hv] Hl IH]; intros b b' Hb; cbn [walk map foldr].
  { change (sumZ []) with 0. split; [intros [= <-]|intros (_ & _ & ->)]; [|f_equal]; lia. }
  rewrite sumZ_cons. pose proof (cost_pos (part x)).
  assert (0 <= sumZ (map (fun x => fixed x + cost (part x)) l)).
  { apply sumZ_nonneg, Forall_map. eapply Forall_impl; [exact Hl|]. cbn. intros y [? _]. pose proof (cost_pos (part y)). lia. }
  destruct (charge m (fixed x) b) as [b1|] eqn:E1.
  - apply charge_spec in E1 as [-> ?]. destruct (visit m (part x) d _) as [b2|] eqn:E2.
    + apply Hv in E2 as (? & ? & ->); [|done]. rewrite IH by lia. split; intros; destruct_and?; split_and?; lia.
    + split; [done|]. intros (? & ? & _). exfalso.
      assert (visit m (part x) d (b + fixed x) = Some (b + fixed x + cost (part x))) by (apply Hv; [done|lia]). congruence.
  - split; [done|]. intros (? & ? & _). exfalso.
    assert (charge m (fixed x) b = Some (b + fixed x)) by (apply charge_spec; lia). congruence.
Qed.

Lemma visit_spec m v : visitOk m v.
Proof.
  induction v as [|b0|n0|s|l IH|fs IH] using json_nested_ind; intros d b b' Hd; cbn [visit cost levels].
  1-4: rewrite charge_spec; split; intros; destruct_and?; split_and?; lia.
  - destruct (Nat.ltb_spec 64 d); [split; [done|lia]|]. destruct (charge m 64 b) as [b1|] eqn:E1.
    + apply charge_spec in E1 as [-> ?]. change (walk m (fun _ => 8) (fun x => x) (S d) l (b + 64) = Some b' <-> 
        (d + S (foldr Nat.max 0%nat (map (fun x => levels x) l)) <= 65)%nat /\ b + (64 + sumZ (map (fun x => 8 + cost x) l)) <= m /\
        b' = b + (64 + sumZ (map (fun x => 8 + cost x) l))).
      rewrite (walk_spec m (fun _ => 8) (fun x => x)); [cbv beta; split; intros; destruct_and?; split_and?; lia|lia| |done].
      eapply Forall_impl; [exact IH|]. done.
    + split; [done|]. intros (_ & ? & _). unfold charge in E1. case_if_in E1; [done|]. to_prop.
      enough (0 <= sumZ (map (fun x => 8 + cost x) l)) by lia. apply sumZ_nonneg, Forall_map, Forall_true.
      intros x. pose proof (cost_pos x). lia.
  - destruct (Nat.ltb_spec 64 d); [split; [done|lia]|]. destruct (charge m 64 b) as [b1|] eqn:E1.
    + apply charge_spec in E1 as [-> ?].
      change (walk m (fun kv => 32 + chars kv.1 * 2) snd (S d) fs (b + 64) = Some b' <-> 
        (d + S (foldr Nat.max 0%nat (map (fun kv => levels kv.2) fs)) <= 65)%nat /\
        b + (64 + sumZ (map (fun kv => 32 + chars kv.1 * 2 + cost kv.2) fs)) <= m /\
        b' = b + (64 + sumZ (map (fun kv => 32 + chars kv.1 * 2 + cost kv.2) fs))).
      rewrite (walk_spec m (fun kv => 32 + chars kv.1 * 2) snd); [cbv beta; split; intros; destruct_and?; split_and?; lia|lia| |done].
      eapply Forall_impl; [exact IH|]. unfold chars. intros kv ?. split; [lia|done].
    + split; [done|]. intros (_ & ? & _). unfold charge in E1. case_if_in E1; [done|]. to_prop.
      enough (0 <= sumZ (map (fun kv => 32 + chars kv.1 * 2 + cost kv.2) fs)) by lia.
      apply sumZ_nonneg, Forall_map, Forall_true. intros kv. pose proof (cost_pos kv.2). unfold chars. lia.
Qed.

(** The estimate that stops at the budget is the retained size of the whole
    value whenever that is within the budget and the value nests at most 65
    levels deep, and infinite otherwise. *)
Theorem estimate_exact v m n :
  estimateRetainedBytes v m = Some n <-> 0 <= m /\ (levels v <= 65)%nat /\ cost v = n /\ n <= m.
Proof.
  unfold estimateRetainedBytes. case_if; to_prop; [|split; [done|lia]].
  rewrite (visit_spec m v 0%nat 0 n) by lia. rewrite Z.add_0_l, Nat.add_0_l. split; intros; destruct_and?; split_and?; lia.
Qed.

(** ** The invariant *)

Definition sizes (m : jsmap string CacheEntry) : Z := sumZ (map (fun kv => e_size kv.2) m).

#[local] Arguments sizes : simpl never.
#[local] Arguments msize : simpl never.
#[local] Arguments mkeys : simpl never.

Record Inv (s : LRUCache) : Prop := mkInv {
  i_wf : mwf (cache s);
  i_size : currentSize s = msize (cache s);
  i_bytes : currentBytes s = sizes (cache s);
  i_pos : Forall (fun kv => 0 < e_size kv.2) (cache s);
  i_count : currentSize s <= maxSize s;
  i_fit : currentBytes s <= maxBytes s;
  i_max : 0 <= maxSize s /\ 0 <= maxBytes s
}.

Lemma sizes_perm m m' : m ≡ₚ m' -> sizes m = sizes m'.
Proof. intros H. apply sumZ_Permutation. by apply Permutation_map. Qed.

Lemma sizes_nonneg m : Forall (fun kv => 0 < e_size kv.2) m -> 0 <= sizes m.
Proof. intros H. apply sumZ_nonneg, Forall_map. eapply Forall_impl; [exact H|]. cbn. intros; lia. Qed.

Lemma sizes_mdel k e m : mget k m = Some e -> sizes m = e_size e + sizes (mdel k m).
Proof. intros H. by rewrite (sizes_perm _ _ (mdel_perm _ _ _ H)). Qed.

Lemma msize_mdel k e (m : jsmap string CacheEntry) : mget k m = Some e -> msize m = msize (mdel k m) + 1.
Proof. intros H. unfold msize. rewrite (length_mdel_has _ _ _ H). lia. Qed.

(** The state without the entry of a key. *)
Definition removed (key : string) (e : CacheEntry) (s : LRUCache) : LRUCache :=
  s <| cache := mdel key (cache s) |> <| currentSize := currentSize s - 1 |>
    <| currentBytes := currentBytes s - e_size e |>.

Lemma deleteEntry_eq key e s : Inv s -> mget key (cache s) = Some e -> deleteEntry key e s = removed key e s.
Proof.
  intros I He. unfold deleteEntry, removed. cbv zeta. rewrite (proj2 (Z.ltb_ge _ _)); [done|].
  rewrite (i_bytes _ I), (sizes_mdel _ _ _ He).
  pose proof (sizes_nonneg (mdel key (cache s)) (Forall_mdel _ _ _ (i_pos _ I))). lia.
Qed.

Lemma removed_Inv key e s : Inv s -> mget key (cache s) = Some e -> Inv (removed key e s).
Proof.
  intros I He. destruct I. constructor; cbn.
  - by apply mwf_mdel.
  - rewrite i_size0, (msize_mdel _ _ _ He). lia.
  - rewrite i_bytes0, (sizes_mdel _ _ _ He). lia.
  - by apply Forall_mdel.
  - lia.
  - pose proof (mget_Some_elem _ _ _ He) as Hin. rewrite Forall_forall in i_pos0. specialize (i_pos0 _ Hin). cbn in i_pos0. lia.
  - done.
Qed.

Lemma Inv_stats s st : Inv s -> Inv (s <| stats := st |>).
Proof. by intros []. Qed.

Lemma deleteEntry_Inv key e s : Inv s -> mget key (cache s) = Some e -> Inv (deleteEntry key e s).
Proof. intros I He. rewrite deleteEntry_eq by done. by apply removed_Inv. Qed.

Lemma forget_Inv key s : Inv s -> Inv (forget key s).
Proof.
  intros I. unfold forget. destruct (mget key (cache s)) as [e|] eqn:He; [|done].
  exact (removed_Inv key e s I He).
Qed.

(** Whether an entry of [n] bytes fits beside the entries of a map. *)
Definition fits (s : LRUCache) (n : Z) (m : jsmap string CacheEntry) : Prop := msize m < maxSize s /\ sizes m + n <= maxBytes s.

Lemma mwf_suffix (m1 m2 : jsmap string CacheEntry) : mwf (m1 ++ m2) -> mwf m2.
Proof. apply mwf_sublist. apply sublist_inserts_l. done. Qed.

Lemma fits_nil s n : cache s = [] -> n <= maxBytes s -> 0 < maxSize s -> fits s n (cache s).
Proof. intros -> ? ?. split; unfold msize, sizes; cbn; lia. Qed.

Lemma drop_none s n : exists dropped : jsmap string CacheEntry, cache s = dropped ++ cache s /\
  evictions (stats s) = evictions (stats s) + Z.of_nat (length dropped) /\
  forall d1 x d2, dropped = d1 ++ x :: d2 -> ~ fits s n ((x :: d2) ++ cache s).
Proof. exists []. split_and!; [done|cbn; lia|]. by intros [] ? ? [=]. Qed.

(** The loop drops entries from the front, no more than needed. *)
Lemma evictLoop_spec n fuel s :
  Inv s -> (length (cache s) <= fuel)%nat -> n <= maxBytes s -> 0 < maxSize s ->
  let s' := evictLoop fuel n s in
  Inv s' /\ maxSize s' = maxSize s /\ maxBytes s' = maxBytes s /\ defaultTTL s' = defaultTTL s /\
  fits s n (cache s') /\
  exists dropped, cache s = dropped ++ cache s' /\
    evictions (stats s') = evictions (stats s) + Z.of_nat (length dropped) /\
    forall d1 x d2, dropped = d1 ++ x :: d2 -> ~ fits s n ((x :: d2) ++ cache s').
Proof.
  revert s. induction fuel as [|fuel IH]; intros s I Hf Hn Hm s'; subst s'; cbn [evictLoop].
  - assert (cache s = []) as E by (destruct (cache s); [done|cbn in Hf; lia]).
    split_and!; [done..|by apply fits_nil|apply drop_none].
  - case_if; cycle 1.
    + apply andb_false_iff in Heqb as [Hb|Hb]; [apply orb_false_iff in Hb as [H1 H2]|]; to_prop.
      * split_and!; [done..| |apply drop_none]. split; [rewrite <- (i_size _ I)|rewrite <- (i_bytes _ I)]; lia.
      * assert (cache s = []) as E by (destruct (cache s); [done|unfold msize in Hb; cbn in Hb; lia]).
        split_and!; [done..|by apply fits_nil|apply drop_none].
    + apply andb_true_iff in Heqb as [Hc _]. destruct (cache s) as [|[k e] rest] eqn:E.
      { exfalso. apply orb_true_iff in Hc. rewrite (i_size _ I), (i_bytes _ I), E in Hc. unfold msize, sizes in Hc; cbn in Hc. destruct Hc; to_prop; lia. }
      assert (mget k (cache s) = Some e) as He by (rewrite E; cbn; by rewrite decide_True).
      cbn [mfirst head fmap option_fmap option_map fst]. rewrite <- E, He.
      rewrite deleteEntry_eq by done.
      match goal with |- context [evictLoop fuel n ?x] => set (s1 := x) end.
      assert (Inv s1) as I1 by (apply Inv_stats; by apply removed_Inv).
      assert (cache s1 = rest) as E1 by (cbn; rewrite E; cbn; by rewrite decide_True).
      destruct (IH s1) as (I' & M1 & M2 & M3 & Hfit & dropped & Hd & Hev & Hmin); [done|rewrite E1; cbn in Hf; lia|done|done|].
      split_and!; [done..|exact Hfit|].
      exists ((k, e) :: dropped). split_and!; [by rewrite E, <- E1, Hd|cbn [length]; rewrite Hev; cbn; lia|].
      intros [|y d1] x d2 [= <- Hdr] Hx.
      * rewrite <- Hdr in Hx. change (fits s n ((k, e) :: dropped ++ cache (evictLoop fuel n s1))) in Hx.
        rewrite <- Hd, E1, <- E in Hx. destruct Hx as [Hx1 Hx2].
        rewrite <- (i_size _ I) in Hx1. rewrite <- (i_bytes _ I) in Hx2. apply orb_true_iff in Hc as [|]; to_prop; lia.
      * by apply (Hmin d1 x d2).
Qed.

Lemma set_cases key value t now s : Inv s ->
  match estimateRetainedBytes (retained key value) (maxBytes s) with
  | None => set key value t now s = s
  | Some n =>
      maxSize s = 0 /\ set key value t now s = s \/
      exists dropped kept, mdel key (cache s) = dropped ++ kept /\
        cache (set key value t now s) = kept ++ [(key, mkEntry value now (validLimit t (defaultTTL s)) n 0)] /\
        fits s n kept /\ (forall d1 x d2, dropped = d1 ++ x :: d2 -> ~ fits s n ((x :: d2) ++ kept)) /\
        evictions (stats (set key value t now s)) = evictions (stats s) + Z.of_nat (length dropped) /\
        Inv (set key value t now s)
  end.
Proof.
  intros I. unfold set. destruct (estimateRetainedBytes _ _) as [n|] eqn:En; [|done].
  apply estimate_exact in En as (_ & _ & Hn & Hmax). pose proof (cost_pos (retained key value)).
  case_if; to_prop; [by left|right].
  pose proof (forget_Inv key _ I) as I0. pose proof (i_max _ I) as [? ?].
  assert (cache (forget key s) = mdel key (cache s) /\ maxSize (forget key s) = maxSize s /\ maxBytes (forget key s) = maxBytes s /\
    defaultTTL (forget key s) = defaultTTL s /\ stats (forget key s) = stats s) as (F1 & F2 & F3 & F4 & F5).
  { unfold forget. destruct (mget key (cache s)) eqn:E; [done|]. by rewrite mdel_absent. }
  destruct (evictLoop_spec n (length (cache (forget key s))) (forget key s) I0) as
    (I1 & M1 & M2 & M3 & Hfit & dropped & Hd & Hev & Hmin); [done|rewrite F3; lia|lia|].
  cbv zeta. set (s1 := evictLoop _ _ _) in *.
  assert (mget key (cache s1) = None) as Hnone.
  { apply mget_None. intros Hin. pose proof (mget_mdel_eq key (cache s) (i_wf _ I)) as Hx. rewrite <- F1, Hd in Hx.
    apply mget_None in Hx. apply Hx. unfold mkeys in *. rewrite fmap_app. set_solver. }
  assert (mset key (mkEntry value now (validLimit t (defaultTTL s1)) n 0) (cache s1) =
    cache s1 ++ [(key, mkEntry value now (validLimit t (defaultTTL s)) n 0)]) as Hset.
  { rewrite mset_new by (unfold mhas; by rewrite Hnone). by rewrite M3, F4. }
  exists dropped, (cache s1). split_and!; cbn [cache stats evictions set_field].
  - by rewrite <- F1.
  - exact Hset.
  - unfold fits. by rewrite <- F2, <- F3.
  - intros d1 x d2 Hx [Hy1 Hy2]. apply (Hmin _ _ _ Hx). split; [by rewrite F2|by rewrite F3].
  - change (evictions (stats s1) = evictions (stats s) + Z.of_nat (length dropped)). by rewrite Hev, F5.
  - destruct Hfit as [Hf1 Hf2]. constructor; cbn; rewrite ?Hset.
    + rewrite <- Hset. apply mwf_mset, I1.
    + unfold msize. rewrite length_app, (i_size _ I1). unfold msize. cbn. lia.
    + unfold sizes. rewrite map_app, sumZ_app, (i_bytes _ I1). unfold sizes. cbn. lia.
    + apply Forall_app. split; [apply I1|]. repeat constructor. cbn. lia.
    + rewrite (i_size _ I1), M1. lia.
    + rewrite (i_bytes _ I1), M2. lia.
    + rewrite M1, M2, F2, F3. lia.
Qed.

(** ** Histories *)

Inductive cacheOp :=
| op_get (key : string) (now : Z)
| op_set (key : string) (value : json) (ttlMs : option jsnum) (now : Z)
| op_has (key : string) (now : Z)
| op_delete (key : string)
| op_clear.

Definition apply (s : LRUCache) (o : cacheOp) : LRUCache :=
  match o with
  | op_get k now => (get k now s).1
  | op_set k v t now => set k v t now s
  | op_has k now => (has k now s).1
  | op_delete k => (delete k s).1
  | op_clear => clear s
  end.

Definition run (s : LRUCache) (ops : list cacheOp) : LRUCache := foldl apply s ops.

Lemma validLimit_nonneg o d : 0 <= d -> 0 <= validLimit o d.
Proof.
  intros Hd. destruct o as [[q|]|]; cbn; [|done|done]. case_if; [|done].
  apply Qle_bool_iff in Heqb. change 0 with (Qfloor (inject_Z 0)). by apply Qfloor_resp_le.
Qed.

Lemma newLRU_Inv a b c : Inv (newLRU a b c).
Proof.
  pose proof (validLimit_nonneg a DEFAULT_MAX_ENTRIES ltac:(done)). pose proof (validLimit_nonneg b DEFAULT_MAX_BYTES ltac:(done)).
  constructor; cbn -[validLimit]; try done. apply NoDup_nil_2.
Qed.

(** The entries of a promoted hit. *)
Lemma get_hit_Inv key e s st : Inv s -> mget key (cache s) = Some e ->
  Inv (s <| cache := mset key (mkEntry (e_value e) (createdAt e) (ttl e) (e_size e) (e_hits e + 1)) (mdel key (cache s)) |> <| stats := st |>).
Proof.
  intros I He. set (e' := mkEntry _ _ _ _ _).
  assert (mset key e' (mdel key (cache s)) = mdel key (cache s) ++ [(key, e')]) as E.
  { apply mset_new. unfold mhas. by rewrite mget_mdel_eq by apply I. }
  pose proof (removed_Inv _ _ _ I He) as R. destruct R, I. cbn in i_size0, i_bytes0, i_pos0, i_wf0.
  constructor; cbn; rewrite ?E; try done.
  - rewrite <- E. by apply mwf_mset.
  - unfold msize in *. rewrite length_app. cbn. lia.
  - unfold sizes in *. rewrite map_app, sumZ_app. cbn. lia.
  - apply Forall_app. split; [done|]. repeat constructor. cbn.
    pose proof (mget_Some_elem _ _ _ He) as Hin. rewrite Forall_forall in i_pos1. exact (i_pos1 _ Hin).
Qed.

Lemma apply_Inv s o : Inv s -> Inv (apply s o).
Proof.
  intros I. destruct o as [k now|k v t now|k now|k|]; cbn [apply].
  - unfold get. destruct (mget k (cache s)) as [e|] eqn:He; [|by apply Inv_stats]. case_if.
    + by apply Inv_stats, deleteEntry_Inv.
    + by apply get_hit_Inv.
  - pose proof (set_cases k v t now s I) as H. destruct (estimateRetainedBytes _ _) as [n|]; [|by rewrite H].
    destruct H as [[_ ->]|(? & ? & _ & _ & _ & _ & _ & ?)]; done.
  - unfold has. destruct (mget k (cache s)) as [e|] eqn:He; [|done]. case_if; [by apply deleteEntry_Inv|done].
  - unfold delete. destruct (mget k (cache s)) as [e|] eqn:He; [by apply deleteEntry_Inv|done].
  - destruct I as [? ? ? ? ? ? [? ?]]. constructor; cbn; try done. apply NoDup_nil_2.
Qed.

Lemma run_Inv s ops : Inv s -> Inv (run s ops).
Proof. revert s. induction ops as [|o ops IH]; intros s I; [done|]. by apply IH, apply_Inv. Qed.

(** Whatever is stored, read and deleted, under any limits, the counters are
    the number of entries and the sum of their sizes, and both stay within the
    limits. *)
Theorem lru_bounds a b c ops :
  let s := run (newLRU a b c) ops in
  currentSize s = msize (cache s) /\ currentBytes s = sumZ (map (fun kv => e_size kv.2) (cache s)) /\
  currentSize s <= maxSize s /\ currentBytes s <= maxBytes s /\ NoDup (mkeys (cache s)).
Proof. intros s. destruct (run_Inv _ ops (newLRU_Inv a b c)). done. Qed.

(** ** Order of last use *)

(** The keys a history used with success, the last use last. *)
Definition touch (key : string) (l : list string) : list string := base.filter (fun k => k <> key) l ++ [key].

Definition used (s : LRUCache) (o : cacheOp) (l : list string) : list string :=
  match o with
  | op_get k now => match (get k now s).2 with Some _ => touch k l | None => l end
  | op_set k v _ _ =>
      match estimateRetainedBytes (retained k v) (maxBytes s) with
      | Some _ => if maxSize s =? 0 then l else touch k l
      | None => l
      end
  | _ => l
  end.

Fixpoint uses (s : LRUCache) (ops : list cacheOp) (l : list string) : list string :=
  match ops with
  | [] => l
  | o :: ops => uses (apply s o) ops (used s o l)
  end.

Lemma filter_absent (k : string) (l : list string) : k ∉ l -> base.filter (fun x => x <> k) l = l.
Proof.
  induction l as [|x l IH]; intros H; [done|]. rewrite filter_cons, decide_True by set_solver. f_equal. apply IH. set_solver.
Qed.

Lemma mkeys_mdel (k : string) (m : jsmap string CacheEntry) : mwf m -> mkeys (mdel k m) = base.filter (fun x => x <> k) (mkeys m).
Proof.
  induction m as [|[k' v] m IH]; intros W; [done|]. cbn [mdel].
  unfold mwf in W. rewrite mkeys_cons in W. apply NoDup_cons in W as [Hni W]. rewrite mkeys_cons, filter_cons. case_decide.
  - subst. rewrite decide_False by auto. symmetry. by apply filter_absent.
  - rewrite decide_True by auto. rewrite mkeys_cons. f_equal. by apply IH.
Qed.

Lemma filter_sublist (k : string) (l l' : list string) : sublist l l' -> sublist (base.filter (fun x => x <> k) l) (base.filter (fun x => x <> k) l').
Proof.
  induction 1 as [|x l l' H IH|x l l' H IH]; [done| |]; rewrite ?filter_cons.
  - case_decide; [by constructor|done].
  - case_decide; [by constructor|done].
Qed.

Lemma mkeys_snoc (m : jsmap string CacheEntry) k e : mkeys (m ++ [(k, e)]) = mkeys m ++ [k].
Proof. unfold mkeys. by rewrite fmap_app. Qed.

Lemma touch_sublist k (m : jsmap string CacheEntry) l : mwf m -> sublist (mkeys m) l -> sublist (mkeys (mdel k m) ++ [k]) (touch k l).
Proof. intros W H. unfold touch. apply sublist_app; [|done]. rewrite mkeys_mdel by done. by apply filter_sublist. Qed.

Lemma mdel_used (k : string) (m : jsmap string CacheEntry) l : sublist (mkeys m) l -> sublist (mkeys (mdel k m)) l.
Proof. intros H. etrans; [apply mkeys_sublist, mdel_sublist|done]. Qed.

Lemma used_sublist s o l : Inv s -> sublist (mkeys (cache s)) l -> sublist (mkeys (cache (apply s o))) (used s o l).
Proof.
  intros I H. destruct o as [k now|k v t now|k now|k|]; cbn [apply used].
  - unfold get. destruct (mget k (cache s)) as [e|] eqn:He; [|done]. case_if; [by apply mdel_used|].
    cbn. rewrite mset_new by (unfold mhas; by rewrite mget_mdel_eq by apply I).
    rewrite mkeys_snoc. apply touch_sublist; [apply I|done].
  - pose proof (set_cases k v t now s I) as Hs. destruct (estimateRetainedBytes _ _) as [n|]; [|by rewrite Hs].
    destruct Hs as [[E ->]|(dropped & kept & Hd & Hc & [Hf _] & _)]; [by rewrite E|].
    rewrite (proj2 (Z.eqb_neq _ _)) by (unfold msize in Hf; lia).
    rewrite Hc, mkeys_snoc. etrans; [|by apply (touch_sublist k (cache s)); [apply I|]].
    apply sublist_app; [|done]. apply mkeys_sublist. rewrite Hd. by apply sublist_inserts_l.
  - unfold has. destruct (mget k (cache s)) as [e|] eqn:He; [|done]. case_if; [by apply mdel_used|done].
  - unfold delete. destruct (mget k (cache s)) as [e|] eqn:He; [by apply mdel_used|done].
  - apply sublist_nil_l.
Qed.

Lemma uses_sublist s ops l : Inv s -> sublist (mkeys (cache s)) l -> sublist (mkeys (cache (run s ops))) (uses s ops l).
Proof.
  revert s l. induction ops as [|o ops IH]; intros s l I H; [done|]. cbn [run foldl uses].
  apply IH; [by apply apply_Inv|by apply used_sublist].
Qed.

(** After any history, a value that the limits allow is stored by evicting
    the entries used longest ago, each of which had to go: with any of the
    evicted entries back, the new one no longer fits. *)
Theorem lru_evicts_least_recent a b c ops key value t now n :
  let s0 := newLRU a b c in
  let s := run s0 ops in
  estimateRetainedBytes (retained key value) (maxBytes s) = Some n -> maxSize s <> 0 ->
  exists dropped kept,
    mdel key (cache s) = dropped ++ kept /\ sublist (mkeys (dropped ++ kept)) (uses s0 ops []) /\
    cache (set key value t now s) = kept ++ [(key, mkEntry value now (validLimit t (defaultTTL s)) n 0)] /\
    fits s n kept /\ forall d1 x d2, dropped = d1 ++ x :: d2 -> ~ fits s n ((x :: d2) ++ kept).
Proof.
  intros s0 s Hn Hm. pose proof (run_Inv _ ops (newLRU_Inv a b c)) as I. fold s0 s in I.
  pose proof (set_cases key value t now s I) as H. rewrite Hn in H.
  destruct H as [[E _]|(dropped & kept & Hd & Hc & Hf & Hmin & _)]; [done|].
  exists dropped, kept. split_and!; [done| |done..|exact Hf|exact Hmin].
  rewrite <- Hd. apply mdel_used, uses_sublist; [apply newLRU_Inv|apply sublist_nil_l].
Qed.

(** ** Witnesses and findings *)

Definition exCache : LRUCache := newLRU (Some (Fin 2)) None None.
Definition exOps : list cacheOp :=
  [op_set "a" (VStr "1") None 0; op_set "b" (VStr "2") None 10; op_get "a" 20]%string.

Lemma estimate_exact_witness : estimateRetainedBytes (VArr [VNull; VStr "ab"]) 196 = Some 116.
Proof. apply (proj2 (estimate_exact (VArr [VNull; VStr "ab"]) 196 116)). cbn. unfold chars. split_and!; [lia|lia|reflexivity|cbn; lia]. Defined.

(** The third entry evicts [b], which was written after [a] but not used since. *)
Lemma lru_evicts_least_recent_witness :
  exists dropped kept,
    mdel "c"%string (cache (run exCache exOps)) = dropped ++ kept /\ sublist (mkeys (dropped ++ kept)) (uses exCache exOps []) /\
    cache (set "c" (VStr "3") None 30 (run exCache exOps)) = kept ++ [("c"%string, mkEntry (VStr "3") 30 300000 196 0)] /\
    fits (run exCache exOps) 196 kept /\
    forall d1 x d2, dropped = d1 ++ x :: d2 -> ~ fits (run exCache exOps) 196 ((x :: d2) ++ kept).
Proof.
  refine (lru_evicts_least_recent (Some (Fin 2)) None None exOps "c" (VStr "3") None 30 196 _ _); [vm_compute; reflexivity|].
  vm_compute. intros H; discriminate H.
Defined.

Example lru_example : mkeys (cache (set "c" (VStr "3") None 30 (run exCache exOps))) = ["a"; "c"]%string.
Proof. vm_compute. reflexivity. Qed.

(** [JSON.stringify] with a list of names drops every nested property that is not
    also a name of the top level: two conversations of one model share a key. *)
Lemma generateKey_collision sha256 :
  let params m := [("model", VStr "gpt-4o"); ("messages", VArr [VObj [("role", VStr "user"); ("content", VStr m)]])]%string in
  generateKey sha256 (params "What is the capital of France?"%string) = generateKey sha256 (params "Delete everything."%string).
Proof. reflexivity. Qed.
