(* ===== verification/JsonSize.v ===== *)
(** * The length of JSON text: [open-sse/utils/jsonSize.ts]

    Thresholds of the router compare the length of [JSON.stringify(body)]; the code
    counts it without building the text.  Strings are lists of UTF-16 code units, as the
    language has them.  A value is a tree of everything the code distinguishes: JSON
    values, what JSON.stringify omits (undefined, functions, symbols), a BigInt, on which
    both throw, and an object handed to [JSON.stringify] itself (a Date, an instance, one
    with toJSON), which carries the text that call gives.  [stringify] is the text that
    ECMAScript's [JSON.stringify] writes, and the count is proved to be its length, with
    control characters, quotes and paired or lone surrogates.  The decimal text of a
    finite number, [String(n)], is an argument of both.  On trees the check for cycles
    never fires.  [ofJson] reads the values of the other files, whose texts are UTF-8. *)
From Stdlib Require Import String Ascii QArith_base.
From S2P Require Import Prelude JsMap ComboSteps Json.
#[local] Open Scope Z_scope.
#[local] Open Scope list_scope.

Definition units := list Z.

Inductive value :=
| JNull
| JBool (b : bool)
| JNumber (n : jsnum)
| JString (s : units)
| JBigInt
| JOmitted
| JArray (l : list value)
| JObject (fs : list (units * value))
| JExotic (encoded : option units).

(** The scheme for values that nest through lists. *)
Section Induction.
Context (P : value -> Prop)
  (Hnull : P JNull) (Hbool : forall b, P (JBool b)) (Hnum : forall n, P (JNumber n)) (Hstr : forall s, P (JString s))
  (Hbig : P JBigInt) (Hom : P JOmitted)
  (Harr : forall l, Forall P l -> P (JArray l))
  (Hobj : forall fs, Forall (fun kv => P kv.2) fs -> P (JObject fs))
  (Hex : forall e, P (JExotic e)).

Fixpoint value_nested_ind (v : value) : P v :=
  match v with
  | JNull => Hnull
  | JBool b => Hbool b
  | JNumber n => Hnum n
  | JString s => Hstr s
  | JBigInt => Hbig
  | JOmitted => Hom
  | JArray l => Harr l ((fix go l : Forall P l :=
      match l with [] => Forall_nil_2 P | x :: l => Forall_cons_2 P x l (value_nested_ind x) (go l) end) l)
  | JObject fs => Hobj fs ((fix go fs : Forall (fun kv : units * value => P kv.2) fs :=
      match fs with
      | [] => Forall_nil_2 _
      | kv :: fs => Forall_cons_2 (fun kv : units * value => P kv.2) kv fs (value_nested_ind kv.2) (go fs)
      end) fs)
  | JExotic e => Hex e
  end.
End Induction.

(** The units of an ASCII literal. *)
Fixpoint unitsOf (s : string) : units :=
  match s with
  | EmptyString => []
  | String c s => Z.of_N (N_of_ascii c) :: unitsOf s
  end.

(** One or two units of a code point. *)
Definition unitsOfPoint (p : Z) : units :=
  if p <? 0x10000 then [p] else [0xd800 + (p - 0x10000) / 1024; 0xdc00 + (p - 0x10000) mod 1024].

Definition continues (b : Z) : bool := (0x80 <=? b) && (b <=? 0xbf).

(** UTF-8 to UTF-16; a byte that begins nothing is the replacement character.  A
    surrogate on its own, written in three bytes, is kept. *)
Fixpoint decode (bytes : list Z) : units :=
  match bytes with
  | [] => []
  | a :: r1 =>
      if a <? 0x80 then a :: decode r1
      else
        match r1 with
        | b :: r2 =>
            if (0xc2 <=? a) && (a <=? 0xdf) && continues b then ((a - 0xc0) * 64 + (b - 0x80)) :: decode r2
            else
              match r2 with
              | c :: r3 =>
                  if (0xe0 <=? a) && (a <=? 0xef) && continues b && continues c
                  then ((a - 0xe0) * 4096 + (b - 0x80) * 64 + (c - 0x80)) :: decode r3
                  else
                    match r3 with
                    | d :: r4 =>
                        if (0xf0 <=? a) && (a <=? 0xf4) && continues b && continues c && continues d
                        then unitsOfPoint ((a - 0xf0) * 262144 + (b - 0x80) * 4096 + (c - 0x80) * 64 + (d - 0x80)) ++ decode r4
                        else 0xfffd :: decode r1
                    | [] => 0xfffd :: decode r1
                    end
              | [] => 0xfffd :: decode r1
              end
        | [] => [0xfffd]
        end
  end.

Definition utf16 (s : string) : units := decode (unitsOf s).

Fixpoint ofJson (v : json) : value :=
  match v with
  | VNull => JNull
  | VBool b => JBool b
  | VNum n => JNumber n
  | VStr s => JString (utf16 s)
  | VArr l => JArray (map ofJson l)
  | VObj fs => JObject (map (fun kv => (utf16 kv.1, ofJson kv.2)) fs)
  end.

(** ** The reference: the text [JSON.stringify] writes *)

Definition hexDigit (n : Z) : Z := if n <? 10 then 48 + n else 87 + n.

(** [\u] and four hexadecimal digits. *)
Definition unicodeEscape (c : Z) : units :=
  [92; 117; hexDigit (c / 4096 mod 16); hexDigit (c / 256 mod 16); hexDigit (c / 16 mod 16); hexDigit (c mod 16)].

Definition isHigh (c : Z) : bool := (0xd800 <=? c) && (c <=? 0xdbff).
Definition isLow (c : Z) : bool := (0xdc00 <=? c) && (c <=? 0xdfff).

(** The escapes with a letter of their own. *)
Definition shortEscape (c : Z) : option Z :=
  if c =? 8 then Some 98 else if c =? 9 then Some 116 else if c =? 10 then Some 110
  else if c =? 12 then Some 102 else if c =? 13 then Some 114
  else if c =? 34 then Some 34 else if c =? 92 then Some 92 else None.

Fixpoint escaped (s : units) : units :=
  match s with
  | [] => []
  | c :: rest =>
      match shortEscape c with
      | Some l => 92 :: l :: escaped rest
      | None =>
          if c <? 32 then unicodeEscape c ++ escaped rest
          else if isHigh c then
            match rest with
            | d :: rest' => if isLow d then c :: d :: escaped rest' else unicodeEscape c ++ escaped rest
            | [] => unicodeEscape c
            end
          else if isLow c then unicodeEscape c ++ escaped rest
          else c :: escaped rest
      end
  end.

Definition quote (s : units) : units := 34 :: escaped s ++ [34].

Definition nullText : units := unitsOf "null".

(** Parts with commas between them. *)
Fixpoint commas (l : list units) : units :=
  match l with
  | [] => []
  | [x] => x
  | x :: l => x ++ 44 :: commas l
  end.

(** The texts of the members of a container: [Some None] is a member left out, [None] a
    TypeError. *)
Section Members.
Context {A : Type} (textOf : A -> option (option units)) (sizeOf : A -> option (option Z)).

Fixpoint collect (l : list A) : option (list units) :=
  match l with
  | [] => Some []
  | x :: l => t ← textOf x; ts ← collect l; Some (match t with Some t => t :: ts | None => ts end)
  end.

(** Their lengths, one more for the comma before each but the first. *)
Fixpoint addUp (first : bool) (l : list A) : option Z :=
  match l with
  | [] => Some 0
  | x :: l =>
      n ← sizeOf x;
      match n with
      | Some n => m ← addUp false l; Some ((if first then 0 else 1) + n + m)
      | None => addUp first l
      end
  end.
End Members.

Section Numbers.
(** [String(n)] for a finite number. *)
Context (numText : Q -> units).

(** [None] is a TypeError, [Some None] the result undefined. *)
Fixpoint stringify (v : value) : option (option units) :=
  match v with
  | JNull => Some (Some nullText)
  | JBool true => Some (Some (unitsOf "true"))
  | JBool false => Some (Some (unitsOf "false"))
  | JNumber (Fin q) => Some (Some (numText q))
  | JNumber NonFinite => Some (Some nullText)
  | JString s => Some (Some (quote s))
  | JBigInt => None
  | JOmitted => Some None
  | JArray l =>
      ts ← collect (fun x => (fun t => Some (orElse t nullText)) <$> stringify x) l; Some (Some (91 :: commas ts ++ [93]))
  | JObject fs =>
      ts ← collect (fun kv => option_map (fun t => quote kv.1 ++ 58 :: t) <$> stringify kv.2) fs;
      Some (Some (123 :: commas ts ++ [125]))
  | JExotic encoded => Some encoded
  end.
End Numbers.

(** ** Data URIs: the expression [BASE64_DATA_URI_RE], with the flags [g] and [i] *)

Definition lowerUnit (c : Z) : Z := if (65 <=? c) && (c <=? 90) then c + 32 else c.
Definition isLetter (c : Z) : bool := (97 <=? lowerUnit c) && (lowerUnit c <=? 122).
Definition isDigit (c : Z) : bool := (48 <=? c) && (c <=? 57).
Definition isSubtypeChar (c : Z) : bool := isLetter c || isDigit c || (c =? 46) || (c =? 43) || (c =? 45).
Definition isBase64Char (c : Z) : bool := isLetter c || isDigit c || (c =? 43) || (c =? 47) || (c =? 61).

(** What follows a literal, letters of either case. *)
Fixpoint afterLiteral (p s : units) : option units :=
  match p, s with
  | [], _ => Some s
  | x :: p, c :: s => if lowerUnit c =? x then afterLiteral p s else None
  | _ :: _, [] => None
  end.

Fixpoint dropWhileU (f : Z -> bool) (s : units) : units :=
  match s with c :: s' => if f c then dropWhileU f s' else s | [] => [] end.

(** One or more characters of a class, as many as there are. *)
Definition afterMany (f : Z -> bool) (s : units) : option units :=
  match s with c :: s' => if f c then Some (dropWhileU f s') else None | [] => None end.

(** What follows a data URI at the start of the text. *)
Definition matchDataUri (s : units) : option units :=
  s ← afterLiteral (unitsOf "data:image/") s;
  s ← afterMany isSubtypeChar s;
  s ← afterLiteral (unitsOf ";base64,") s;
  afterMany isBase64Char s.

(** [value.replace(BASE64_DATA_URI_RE, "")]. *)
Fixpoint stripFuel (fuel : nat) (s : units) : units :=
  match fuel, s with
  | S fuel, c :: s' =>
      match matchDataUri s with
      | Some rest => stripFuel fuel rest
      | None => c :: stripFuel fuel s'
      end
  | _, _ => []
  end.

Definition stripDataUris (s : units) : units := stripFuel (length s) s.

(** ** The count *)

(** The loop over the units; the second unit of a pair is consumed with the first. *)
Fixpoint countUnits (s : units) : Z :=
  match s with
  | [] => 0
  | code :: rest =>
      if (code =? 0x22) || (code =? 0x5c) then 2 + countUnits rest
      else if (code =? 0x08) || (code =? 0x09) || (code =? 0x0a) || (code =? 0x0c) || (code =? 0x0d) then 2 + countUnits rest
      else if code <? 0x20 then 6 + countUnits rest
      else if (0xd800 <=? code) && (code <=? 0xdfff) then
        match rest with
        | next :: rest' =>
            if (code <=? 0xdbff) && (0xdc00 <=? next) && (next <=? 0xdfff) then 2 + countUnits rest'
            else 6 + countUnits rest
        | [] => 6
        end
      else 1 + countUnits rest
  end.

Definition encodedStringLength (value : units) (stripBase64 : bool) : Z :=
  let target := if stripBase64 then stripDataUris value else value in
  2 + countUnits target.

Section Count.
Context (numText : Q -> units).

(** What JSON.stringify drops, or renders as null in an array. *)
Definition isOmitted (v : value) : bool := match v with JOmitted => true | _ => false end.

(** [None] is a TypeError. *)
Fixpoint lengthOf (v : value) (stripBase64 : bool) : option Z :=
  match v with
  | JNull => Some 4
  | JString s => Some (encodedStringLength s stripBase64)
  | JBool b => Some (if b then 4 else 5)
  | JNumber (Fin q) => Some (Z.of_nat (length (numText q)))
  | JNumber NonFinite => Some 4
  | JBigInt => None
  | JOmitted => Some 0
  | JExotic None => Some 0
  | JExotic (Some encoded) => Some (Z.of_nat (length (if stripBase64 then stripDataUris encoded else encoded)))
  | JArray l =>
      n ← addUp (fun x => Some <$> (if isOmitted x then Some 4 else lengthOf x stripBase64)) true l; Some (n + 2)
  | JObject fs =>
      n ← addUp (fun kv => if isOmitted kv.2 then Some None
                           else (fun n => Some (encodedStringLength kv.1 false + 1 + n)) <$> lengthOf kv.2 stripBase64) true fs;
      Some (n + 2)
  end.

Definition jsonLength (v : value) : option Z := lengthOf v false.
Definition jsonLengthStrippingBase64DataUris (v : value) : option Z := lengthOf v true.
End Count.

Definition rawLengthStrippingBase64DataUris (value : units) : Z := Z.of_nat (length (stripDataUris value)).

(** ** The count is the length of the text *)

#[local] Notation len x := (Z.of_nat (length x)).

Lemma countUnits_len s : countUnits s = len (escaped s).
Proof.
  induction s as [s IH] using (well_founded_induction (Wf_nat.well_founded_ltof _ (@length Z))).
  unfold Wf_nat.ltof in IH.
  destruct s as [|c rest]; [done|]. pose proof (IH rest ltac:(cbn; lia)) as IHr.
  cbn [countUnits escaped]. unfold shortEscape.
  repeat (match goal with |- context [c =? ?n] => destruct (Z.eqb_spec c n) as [->|] end; [simpl; lia|]).
  cbn [orb]. destruct (Z.ltb_spec c 32).
  { rewrite length_app. change (length (unicodeEscape c)) with 6%nat. lia. }
  unfold isHigh, isLow. destruct (Z.leb_spec 0xd800 c) as [H1|H1]; cbn [andb].
  2: { destruct (Z.leb_spec 0xdc00 c); [lia|]. cbn [andb length]. lia. }
  destruct (Z.leb_spec c 0xdbff) as [H2|H2].
  - rewrite (proj2 (Z.leb_le c 0xdfff)) by lia. cbn [andb]. destruct rest as [|d rest']; [done|].
    change (isLow d) with ((0xdc00 <=? d) && (d <=? 0xdfff)). destruct ((0xdc00 <=? d) && (d <=? 0xdfff)).
    + pose proof (IH rest' ltac:(cbn; lia)). cbn [length]. lia.
    + rewrite length_app. change (length (unicodeEscape c)) with 6%nat. lia.
  - destruct (Z.leb_spec c 0xdfff) as [H3|H3]; cbn [andb].
    + rewrite (proj2 (Z.leb_le 0xdc00 c)) by lia. cbn [andb]. rewrite length_app. change (length (unicodeEscape c)) with 6%nat.
      destruct rest; [cbn [length escaped]; lia|]. lia.
    + rewrite andb_false_r. cbn [length]. lia.
Qed.

Lemma encodedStringLength_quote s : encodedStringLength s false = len (quote s).
Proof.
  unfold encodedStringLength, quote. rewrite countUnits_len. cbn [length]. rewrite length_app. cbn [length]. lia.
Qed.

(** The length of parts with commas between them. *)
Fixpoint partsLength (first : bool) (ts : list units) : Z :=
  match ts with [] => 0 | t :: ts => (if first then 0 else 1) + len t + partsLength false ts end.

Lemma commas_len ts : len (commas ts) = partsLength true ts.
Proof.
  assert (H : forall ts, partsLength false ts = match ts with [] => 0 | _ => 1 + len (commas ts) end).
  { clear ts. induction ts as [|t [|u ts] IH]; [done|cbn; lia|]. change (commas (t :: u :: ts)) with (t ++ 44 :: commas (u :: ts)).
    rewrite length_app. cbn [partsLength length] in *. lia. }
  destruct ts as [|t [|u ts]]; [done|cbn; lia|]. change (commas (t :: u :: ts)) with (t ++ 44 :: commas (u :: ts)).
  rewrite length_app. cbn [partsLength length]. specialize (H (u :: ts)). cbn [partsLength] in H. lia.
Qed.

(** Members whose sizes are the lengths of their texts add up to the text with commas. *)
Lemma addUp_collect {A} (f : A -> option (option units)) (g : A -> option (option Z)) l :
  Forall (fun x => g x = option_map (fun t => len t) <$> f x) l ->
  forall first, addUp g first l = partsLength first <$> collect f l.
Proof.
  induction 1 as [|x l Hx _ IH]; intros first; [done|]. cbn [addUp collect]. rewrite Hx.
  destruct (f x) as [[t|]|]; cbn; [|rewrite IH; by destruct (collect f l)|done].
  rewrite IH. by destruct (collect f l).
Qed.

(** The objects handed to [JSON.stringify] have a text. *)
Fixpoint exoticsWritten (v : value) : bool :=
  match v with
  | JExotic None => false
  | JArray l => forallb exoticsWritten l
  | JObject fs => forallb (fun kv => exoticsWritten kv.2) fs
  | _ => true
  end.

(** Only what is omitted has no text. *)
Lemma stringify_omitted numText v : exoticsWritten v = true -> stringify numText v = Some None -> isOmitted v = true.
Proof.
  destruct v as [|[]|[q|]|s| | |l|fs|[e|]]; try done; cbn [stringify]; intros _ H; by apply bind_Some in H as (ts & _ & H).
Qed.

Definition textLength (t : option units) : Z := match t with Some t => len t | None => 0 end.

(** C38. The count is exact.  For every value whose exotic objects have a text, the count
    is the length of the text [JSON.stringify] writes, zero where it writes none, and a
    TypeError where it throws one, whatever the code units of the strings are and whatever
    the texts of numbers. *)
Theorem jsonLength_exact numText v :
  exoticsWritten v = true -> jsonLength numText v = textLength <$> stringify numText v.
Proof.
  unfold jsonLength. induction v as [|b|n|s| | |l IH|fs IH|e] using value_nested_ind; cbn [exoticsWritten lengthOf stringify]; intros Hv.
  - done.
  - by destruct b.
  - by destruct n.
  - cbn. by rewrite encodedStringLength_quote.
  - done.
  - done.
  - erewrite (addUp_collect (fun x => (fun t => Some (orElse t nullText)) <$> stringify numText x)).
    + destruct (collect _ l) as [ts|]; [|done]. cbn. rewrite length_app, <- commas_len. cbn [length]. f_equal. lia.
    + apply Forall_forall. intros x Hx. rewrite Forall_forall in IH. specialize (IH x Hx).
      assert (Hx0 : exoticsWritten x = true) by (by apply (proj1 (forallb_forall _ _) Hv), list_elem_of_In).
      destruct (isOmitted x) eqn:Eo; [by destruct x|]. rewrite (IH Hx0).
      destruct (stringify numText x) as [[t|]|] eqn:Et; [done| |done]. by rewrite (stringify_omitted _ _ Hx0 Et) in Eo.
  - erewrite (addUp_collect (fun kv => option_map (fun t => quote kv.1 ++ 58 :: t) <$> stringify numText kv.2)).
    + destruct (collect _ fs) as [ts|]; [|done]. cbn. rewrite length_app, <- commas_len. cbn [length]. f_equal. lia.
    + apply Forall_forall. intros [k x] Hx. rewrite Forall_forall in IH. specialize (IH (k, x) Hx). cbn [fst snd] in *.
      assert (Hx0 : exoticsWritten x = true) by (by apply (proj1 (forallb_forall (fun kv => exoticsWritten kv.2) _) Hv (k, x)), list_elem_of_In).
      destruct (isOmitted x) eqn:Eo; [by destruct x|]. rewrite (IH Hx0).
      destruct (stringify numText x) as [[t|]|] eqn:Et; [| |done]; [|by rewrite (stringify_omitted _ _ Hx0 Et) in Eo].
      cbn. do 2 f_equal. rewrite encodedStringLength_quote. unfold quote. cbn [length]. rewrite !length_app. cbn [length]. lia.
  - by destruct e.
Qed.

(** A pair, a lone surrogate, a control character, a quote, an omitted member. *)
Definition exValue : value :=
  JObject [(unitsOf "a", JString [0xd83d; 0xde00; 0xd83d; 0x41; 0x0a; 0x01; 0x22]); (unitsOf "b", JOmitted); (unitsOf "c", JArray [JOmitted; JBool true])].

Example jsonLength_exact_witness :
  jsonLength (fun _ => []) exValue = textLength <$> stringify (fun _ => []) exValue /\ jsonLength (fun _ => []) exValue = Some 43.
Proof. split; [by apply jsonLength_exact|reflexivity]. Defined.

(** What the other files write never throws. *)
Lemma ofJson_written v : exoticsWritten (ofJson v) = true.
Proof.
  induction v as [|b|n|s|l IH|fs IH] using json_nested_ind; try done; cbn [ofJson exoticsWritten].
  - induction IH as [|x l Hx _ IHl]; cbn; [done|]. by rewrite Hx.
  - induction IH as [|kv fs Hx _ IHl]; cbn; [done|]. by rewrite Hx.
Qed.

(** The text keeps pairs and escapes lone surrogates, so it is well formed. *)
Example jsonLength_surrogates : encodedStringLength [0xd83d; 0xde00; 0xd83d; 0x41] false = 11.
Proof. reflexivity. Qed.

(** ** Data URIs *)

Lemma dropWhileU_shorter f s : (length (dropWhileU f s) <= length s)%nat.
Proof. induction s as [|c s IH]; cbn; [done|]. case_if; cbn; lia. Qed.

Lemma afterLiteral_shorter p s r : afterLiteral p s = Some r -> (length r + length p = length s)%nat.
Proof.
  revert s. induction p as [|x p IH]; intros [|c s]; cbn [afterLiteral]; intros H; simplify_eq; cbn; [lia|lia|].
  case_if_in H; [|done]. apply IH in H. lia.
Qed.

Lemma afterMany_shorter f s r : afterMany f s = Some r -> (length r < length s)%nat.
Proof. destruct s as [|c s]; cbn; [done|]. case_if; [|done]. intros [= <-]. pose proof (dropWhileU_shorter f s). lia. Qed.

Lemma matchDataUri_shorter s r : matchDataUri s = Some r -> (length r + 20 < length s)%nat.
Proof.
  unfold matchDataUri. intros H. apply bind_Some in H as (s1 & H1 & H). apply bind_Some in H as (s2 & H2 & H).
  apply bind_Some in H as (s3 & H3 & H4). apply afterLiteral_shorter in H1, H3. apply afterMany_shorter in H2, H4.
  cbn in H1, H3. lia.
Qed.

(** Fuel as long as the text is enough: with more the result is the same. *)
Lemma stripFuel_enough n m s : (length s <= n)%nat -> (length s <= m)%nat -> stripFuel n s = stripFuel m s.
Proof.
  revert m s. induction n as [|n IH]; intros [|m] [|c s] Hn Hm; cbn [length] in *; try done; try lia.
  cbn [stripFuel]. destruct (matchDataUri (c :: s)) as [r|] eqn:E.
  - apply matchDataUri_shorter in E. cbn in E. apply IH; lia.
  - f_equal. apply IH; lia.
Qed.

Lemma stripDataUris_cons c s : stripDataUris (c :: s) =
  match matchDataUri (c :: s) with Some rest => stripDataUris rest | None => c :: stripDataUris s end.
Proof.
  unfold stripDataUris at 1. cbn [length stripFuel]. destruct (matchDataUri (c :: s)) as [r|] eqn:E; [|done].
  apply matchDataUri_shorter in E. cbn in E. apply stripFuel_enough; lia.
Qed.

(** Stripping only ever shortens. *)
Lemma stripDataUris_shorter s : (length (stripDataUris s) <= length s)%nat.
Proof.
  induction s as [s IH] using (well_founded_induction (Wf_nat.well_founded_ltof _ (@length Z))).
  destruct s as [|c s]; [done|]. rewrite stripDataUris_cons. destruct (matchDataUri (c :: s)) as [r|] eqn:E.
  - apply matchDataUri_shorter in E. etrans; [apply IH; unfold Wf_nat.ltof; lia|]. lia.
  - cbn. specialize (IH s). unfold Wf_nat.ltof in IH. cbn in IH. lia.
Qed.

(** A URI at the start of a text, with what follows it kept, whatever its size. *)
Definition exUri : units := unitsOf "data:image/png;base64,iVBORw0KGgo=".

Example strip_example : stripDataUris (exUri ++ unitsOf " ok") = unitsOf " ok".
Proof. reflexivity. Qed.

(** ** Findings *)

(** The stripping count looks at string values only; a URI that is the name of a
    property keeps its length, although the text as a whole, stripped, loses it. *)
Lemma stripping_skips_names numText :
  let v := JObject [(unitsOf "data:image/png;base64,AAAA", JNull)] in
  jsonLengthStrippingBase64DataUris numText v = Some 35 /\
  (fun t => textLength (stripDataUris <$> t)) <$> stringify numText v = Some 9.
Proof. split; reflexivity. Qed.

(** A control character is written with hexadecimal digits, and the last of them
    can begin a URI that the string itself does not hold. *)
Lemma stripping_escape numText :
  let v := JString (29 :: unitsOf "ata:image/png;base64,AAAA") in
  jsonLengthStrippingBase64DataUris numText v = Some 33 /\
  (fun t => textLength (stripDataUris <$> t)) <$> stringify numText v = Some 7.
Proof. split; reflexivity. Qed.

(** An object whose toJSON gives undefined is null in an array and absent from an
    object; the count gives it no length in the one and keeps its name in the other. *)
Lemma exotic_undefined_counted numText :
  let a := JArray [JExotic None] in let o := JObject [(unitsOf "a", JExotic None)] in
  jsonLength numText a = Some 2 /\ textLength <$> stringify numText a = Some 6 /\
  jsonLength numText o = Some 6 /\ textLength <$> stringify numText o = Some 2.
Proof. by split_and!. Qed.
