(* ===== verification/ToolPairs.v ===== *)
(** * Tool calls and their results: the guards of [open-sse/services/contextManager.ts]

    A conversation may be cut anywhere, and a vendor refuses one in which a tool
    call has no result or a result no call.  [fixToolPairs] drops what has no
    counterpart anywhere, [fixToolAdjacency] the calls that the very next message
    does not answer, [stripTrailingAssistantOrphanToolUse] the calls of a trailing
    assistant message.  Messages are JSON objects, read with the code's own tests;
    an element of a content array is never [null] (the code would throw).  An id
    may be any JSON value: two objects read from JSON are never the same one. *)
From Stdlib Require Import String Ascii QArith_base.
From S2P Require Import Prelude JsMap JsString ComboSteps.
#[local] Open Scope string_scope.
#[local] Open Scope Z_scope.
#[local] Open Scope list_scope.

Definition Message := jsmap string json.

(** ** JavaScript on JSON values *)

Definition truthy (v : option json) : bool :=
  match v with
  | None | Some VNull => false
  | Some (VBool b) => b
  | Some (VNum (Fin q)) => negb (Qeq_bool q 0)
  | Some (VStr s) => negb (isEmpty s)
  | _ => true
  end.

(** Membership in a Set. *)
Definition sameValue (a b : json) : bool :=
  match a, b with
  | VNull, VNull => true
  | VBool x, VBool y => Bool.eqb x y
  | VNum (Fin p), VNum (Fin q) => Qeq_bool p q
  | VNum NonFinite, VNum NonFinite => true
  | VStr s, VStr t => String.eqb s t
  | _, _ => false
  end.

Definition hasId (ids : list json) (id : json) : bool := existsb (sameValue id) ids.

Definition arr (k : string) (m : Message) : option (list json) := match mget k m with Some (VArr l) => Some l | _ => None end.

Definition isString (k s : string) (m : Message) : bool := match mget k m with Some (VStr t) => String.eqb t s | _ => false end.
Definition roleIs (r : string) (m : Message) : bool := isString "role" r m.

Definition typeIs (t : string) (block : json) : bool := match field "type" block with Some (VStr s) => String.eqb s t | _ => false end.

(** A truthy id. *)
Definition idOf (v : option json) : option json := if truthy v then v else None.

(** ** Ids of calls and results *)

Definition callId (tc : json) : option json := idOf (field "id" tc).
Definition useBlockId (block : json) : option json := if typeIs "tool_use" block then idOf (field "id" block) else None.
Definition resultBlockId (block : json) : option json := if typeIs "tool_result" block then idOf (field "tool_use_id" block) else None.

Definition fromArray (f : json -> option json) (k : string) (m : Message) : list json :=
  match arr k m with Some l => omap f l | None => [] end.

(** The ids a user or tool message answers, and those an assistant message calls. *)
Definition resultIds (m : Message) : list json :=
  (if roleIs "tool" m then match idOf (mget "tool_call_id" m) with Some id => [id] | None => [] end else []) ++
  (if roleIs "user" m then fromArray resultBlockId "content" m else []).

Definition callIds (m : Message) : list json :=
  if roleIs "assistant" m then fromArray callId "tool_calls" m ++ fromArray useBlockId "content" m else [].

(** ** [fixToolPairs] *)

(** Filters an array of a message; the flag says whether anything went. *)
Definition filterField (k : string) (test : json -> bool) (mm : Message * bool) : Message * bool :=
  match arr k (fst mm) with
  | Some l =>
      let l' := List.filter test l in
      if (length l' =? length l)%nat then mm else (mset k (VArr l') (fst mm), true)
  | None => mm
  end.

(** An element is kept unless its id is one that [keepId] refuses. *)
Definition passes (keepId : json -> bool) (id : option json) : bool := match id with Some id => keepId id | None => true end.

(** Pass 2, for an assistant message that is not the last. *)
Definition dropUnanswered (toolResultIds : list json) (msg : Message) : Message :=
  let '(newMsg, modified) :=
    filterField "content" (fun block => passes (hasId toolResultIds) (useBlockId block))
      (filterField "tool_calls" (fun tc => passes (hasId toolResultIds) (callId tc)) (msg, false)) in
  if modified then newMsg else msg.

Fixpoint pass2 (toolResultIds : list json) (messages : list Message) : list Message :=
  match messages with
  | [] => []
  | [msg] => [msg]
  | msg :: rest => (if roleIs "assistant" msg then dropUnanswered toolResultIds msg else msg) :: pass2 toolResultIds rest
  end.

Definition hasContent (msg : Message) : bool :=
  match mget "content" msg with
  | Some (VStr s) => negb (isEmpty (trim s))
  | Some (VArr l) => negb (bool_decide (l = []))
  | _ => false
  end.

Definition hasToolCalls (msg : Message) : bool := match arr "tool_calls" msg with Some l => negb (bool_decide (l = [])) | None => false end.

(** Pass 4 on a message; [None] drops it. *)
Definition pass4 (toolCallIds : list json) (msg : Message) : option Message :=
  if roleIs "tool" msg && negb (passes (hasId toolCallIds) (idOf (mget "tool_call_id" msg))) then None
  else
    match (if roleIs "user" msg then arr "content" msg else None) with
    | Some l =>
        let filteredContent := List.filter (fun block => passes (hasId toolCallIds) (resultBlockId block)) l in
        if (length filteredContent =? length l)%nat then Some msg
        else if bool_decide (filteredContent = []) then None
        else Some (mset "content" (VArr filteredContent) msg)
    | None =>
        if roleIs "assistant" msg && negb (hasContent msg) && negb (hasToolCalls msg) then None else Some msg
    end.

Definition fixToolPairs (messages : list Message) : list Message :=
  let toolResultIds := flat_map resultIds messages in
  let filteredMessages := pass2 toolResultIds messages in
  let toolCallIds := flat_map callIds filteredMessages in
  omap (pass4 toolCallIds) filteredMessages.

(** ** [fixToolAdjacency] *)

Section Text.
(** [String(n)] for a finite number. *)
Context (numText : Q -> string).

(** [String(id)]. *)
Fixpoint idText (v : json) : string :=
  match v with
  | VNull => "null"
  | VBool true => "true"
  | VBool false => "false"
  | VNum (Fin q) => numText q
  | VNum NonFinite => "Infinity"
  | VStr s => s
  | VArr l => join "," (map (fun x => match x with VNull => "" | _ => idText x end) l)
  | VObj _ => "[object Object]"
  end.

Definition hasText (ids : list string) (id : json) : bool := existsb (String.eqb (idText id)) ids.

Definition adjacent (msg nextMsg : Message) : option Message :=
  let nextToolResultIds := map idText (resultIds nextMsg) in
  let '(newMsg, modified) :=
    filterField "tool_calls" (fun tc => passes (hasText nextToolResultIds) (callId tc))
      (filterField "content" (fun block => passes (hasText nextToolResultIds) (useBlockId block)) (msg, false)) in
  if modified then
    if negb (hasContent newMsg) && negb (hasToolCalls newMsg) then None else Some newMsg
  else Some msg.

Fixpoint adjacencyLoop (messages : list Message) : list Message :=
  match messages with
  | [] => []
  | msg :: rest =>
      match rest with
      | [] => [msg]
      | nextMsg :: _ =>
          if roleIs "assistant" msg then
            match adjacent msg nextMsg with
            | Some m => m :: adjacencyLoop rest
            | None => adjacencyLoop rest
            end
          else msg :: adjacencyLoop rest
      end
  end.

Definition fixToolAdjacency (messages : list Message) : list Message :=
  if (length messages <=? 1)%nat then messages else adjacencyLoop messages.
End Text.

(** ** The guards of the last message *)

Definition stripTrailingAssistantOrphanToolUse (messages : list Message) : list Message :=
  match last messages with
  | None => messages
  | Some last =>
      if negb (roleIs "assistant" last) then messages
      else
        let '(newLast, modified) :=
          filterField "content" (fun block => negb (typeIs "tool_use" block))
            (filterField "tool_calls" (fun _ => false) (last, false)) in
        if negb modified then messages
        else take (length messages - 1) messages ++ (if hasContent newLast || hasToolCalls newLast then [newLast] else [])
  end.

Definition PROVIDERS_REQUIRING_USER_LAST_MESSAGE : list string := ["mistral"].

Definition stripTrailingAssistantForProvider (messages : list Message) (provider : string) : list Message :=
  if negb (existsb (String.eqb provider) PROVIDERS_REQUIRING_USER_LAST_MESSAGE) then messages
  else
    match last messages with
    | None => messages
    | Some last =>
        if negb (roleIs "assistant" last) then messages
        else
          let hasToolUse := match arr "content" last with Some l => existsb (typeIs "tool_use") l | None => false end in
          if hasToolUse || hasToolCalls last then messages else take (length messages - 1) messages
    end.

(** The repair a cut conversation goes through before it is sent. *)
Definition repairChatMessages (numText : Q -> string) (messages : list Message) : list Message :=
  stripTrailingAssistantOrphanToolUse (fixToolPairs (fixToolAdjacency numText (fixToolPairs messages))).

(** ** Filtering the arrays of a message *)

Lemma filter_same_length {A} (f : A -> bool) l : length (List.filter f l) = length l -> List.filter f l = l.
Proof.
  induction l as [|x l IH]; [done|]. cbn. pose proof (List.filter_length_le f l). destruct (f x); cbn; intros; [|lia].
  f_equal. apply IH. lia.
Qed.

Definition setArr (k : string) (test : json -> bool) (m : Message) : Message :=
  match arr k m with Some l => mset k (VArr (List.filter test l)) m | None => m end.

Lemma arr_mget k m l : arr k m = Some l -> mget k m = Some (VArr l).
Proof. unfold arr. destruct (mget k m) as [[]|]; congruence. Qed.

Lemma setArr_same k test m l : arr k m = Some l -> List.filter test l = l -> setArr k test m = m.
Proof. intros H E. unfold setArr. rewrite H, E. by apply mset_id, arr_mget. Qed.

Lemma filterField_spec k test m b : filterField k test (m, b) = (setArr k test m, snd (filterField k test (m, b))).
Proof.
  unfold filterField, setArr. cbn [fst]. destruct (arr k m) as [l|] eqn:E; [|done].
  destruct (Nat.eqb_spec (length (List.filter test l)) (length l)) as [Hl|]; [|done].
  apply filter_same_length in Hl. rewrite Hl, mset_id by (by apply arr_mget). done.
Qed.

(** An unmodified message is the filtered one. *)
Lemma filterField_unmodified k test m b : snd (filterField k test (m, b)) = false -> b = false /\ setArr k test m = m.
Proof.
  unfold filterField, setArr. cbn [fst]. destruct (arr k m) as [l|] eqn:E; [|done].
  destruct (Nat.eqb_spec (length (List.filter test l)) (length l)) as [Hl|]; [|done]. cbn [snd]. intros ->. split; [done|].
  apply filter_same_length in Hl. rewrite Hl. by apply mset_id, arr_mget.
Qed.

Lemma filterField_modified k test m b : snd (filterField k test (m, b)) = true ->
  b = true \/ exists l, arr k m = Some l /\ List.filter test l <> l.
Proof.
  unfold filterField. cbn [fst]. destruct (arr k m) as [l|] eqn:E; [|by left].
  destruct (Nat.eqb_spec (length (List.filter test l)) (length l)) as [Hl|Hl]; [by left|]. right. exists l. split; [done|].
  intros E2. by rewrite E2 in Hl.
Qed.

Lemma arr_setArr k k' test m : arr k' (setArr k test m) = if decide (k' = k) then List.filter test <$> arr k m else arr k' m.
Proof.
  unfold setArr. destruct (arr k m) as [l|] eqn:E.
  - unfold arr at 1. rewrite mget_mset. case_decide; [done|]. done.
  - case_decide; [by subst; rewrite E|done].
Qed.

Lemma mget_setArr k k' test m : k' <> k -> mget k' (setArr k test m) = mget k' m.
Proof. intros H. unfold setArr. destruct (arr k m); [|done]. by apply mget_mset_ne. Qed.

Lemma role_setArr r k test m : k <> "role" -> roleIs r (setArr k test m) = roleIs r m.
Proof. intros H. unfold roleIs, isString. by rewrite mget_setArr by congruence. Qed.

(** Filtering by id keeps the ids that pass. *)
Lemma omap_filter (f : json -> option json) keep l :
  omap f (List.filter (fun x => passes keep (f x)) l) = List.filter keep (omap f l).
Proof.
  induction l as [|x l IH]; [done|]. cbn [List.filter]. destruct (f x) as [y|] eqn:E; cbn [passes].
  - destruct (keep y) eqn:Ek; cbn; rewrite E; cbn; rewrite ?Ek; [by f_equal|done].
  - cbn. by rewrite E.
Qed.

Lemma fromArray_setArr f keep k m :
  fromArray f k (setArr k (fun x => passes keep (f x)) m) = List.filter keep (fromArray f k m).
Proof. unfold fromArray. rewrite arr_setArr, decide_True by done. destruct (arr k m); [apply omap_filter|done]. Qed.

Lemma fromArray_setArr_ne f k k' test m : k' <> k -> fromArray f k' (setArr k test m) = fromArray f k' m.
Proof. intros H. unfold fromArray. by rewrite arr_setArr, decide_False. Qed.

(** An assistant message without the calls that [keep] refuses. *)
Definition keepCalls (keep : json -> bool) (m : Message) : Message :=
  setArr "content" (fun b => passes keep (useBlockId b)) (setArr "tool_calls" (fun tc => passes keep (callId tc)) m).
Definition keepCalls' (keep : json -> bool) (m : Message) : Message :=
  setArr "tool_calls" (fun tc => passes keep (callId tc)) (setArr "content" (fun b => passes keep (useBlockId b)) m).

Lemma dropUnanswered_eq rs m : dropUnanswered rs m = keepCalls (hasId rs) m.
Proof.
  unfold dropUnanswered, keepCalls. rewrite (filterField_spec "tool_calls"). rewrite filterField_spec.
  destruct (snd _) eqn:E; [done|]. apply filterField_unmodified in E as [E ->]. by apply filterField_unmodified in E as [_ ->].
Qed.

Lemma callIds_keepCalls keep m : callIds (keepCalls keep m) = List.filter keep (callIds m).
Proof.
  unfold callIds, keepCalls. rewrite !role_setArr by done. destruct (roleIs "assistant" m); [|done].
  rewrite List.filter_app. f_equal.
  - rewrite fromArray_setArr_ne by done. apply fromArray_setArr.
  - rewrite fromArray_setArr. by rewrite fromArray_setArr_ne.
Qed.

Lemma callIds_keepCalls' keep m : callIds (keepCalls' keep m) = List.filter keep (callIds m).
Proof.
  unfold callIds, keepCalls'. rewrite !role_setArr by done. destruct (roleIs "assistant" m); [|done].
  rewrite List.filter_app. f_equal.
  - rewrite fromArray_setArr. by rewrite fromArray_setArr_ne.
  - rewrite fromArray_setArr_ne by done. apply fromArray_setArr.
Qed.

Lemma role_unique r r' m : roleIs r m = true -> r <> r' -> roleIs r' m = false.
Proof.
  unfold roleIs, isString. destruct (mget "role" m) as [[]|]; try done. intros ->%String.eqb_eq ?. by apply String.eqb_neq.
Qed.

Lemma assistant_results m : roleIs "assistant" m = true -> resultIds m = [].
Proof. intros H. unfold resultIds. by rewrite !(role_unique _ _ _ H). Qed.

Lemma calls_assistant m : callIds m <> [] -> roleIs "assistant" m = true.
Proof. unfold callIds. by destruct (roleIs "assistant" m). Qed.

Lemma assistant_keepCalls keep m : roleIs "assistant" (keepCalls keep m) = roleIs "assistant" m.
Proof. unfold keepCalls. by rewrite !role_setArr. Qed.

(** Filtering is the identity when every call passes. *)
Lemma lfilter_id (f : json -> bool) l : Forall (fun x => f x = true) l -> List.filter f l = l.
Proof. induction 1 as [|x l H _ IH]; cbn; [done|]. by rewrite H, IH. Qed.

Lemma passes_all (f : json -> option json) keep l : List.filter keep (omap f l) = omap f l -> List.filter (fun x => passes keep (f x)) l = l.
Proof.
  intros H. apply lfilter_id, Forall_forall. intros x Hx. destruct (f x) as [y|] eqn:E; cbn; [|done].
  assert (y ∈ omap f l) as Hy by (apply list_elem_of_omap; eauto). rewrite <- H in Hy.
  apply list_elem_of_In, List.filter_In in Hy. tauto.
Qed.

Lemma setArr_id f keep k m : List.filter keep (fromArray f k m) = fromArray f k m -> setArr k (fun x => passes keep (f x)) m = m.
Proof.
  unfold fromArray. intros H. destruct (arr k m) as [l|] eqn:E; [|unfold setArr; by rewrite E].
  apply (setArr_same k _ m l E). by apply passes_all.
Qed.

Lemma keepCalls_id keep m : roleIs "assistant" m = true -> Forall (fun c => keep c = true) (callIds m) -> keepCalls keep m = m.
Proof.
  intros Hr H. unfold callIds in H. rewrite Hr in H. apply Forall_app in H as [H1 H2].
  unfold keepCalls. rewrite (setArr_id callId) by (by apply lfilter_id). by rewrite (setArr_id useBlockId) by (by apply lfilter_id).
Qed.

(** ** The passes and the ids *)

Lemma pass2_cons rs m ms : ms <> [] ->
  pass2 rs (m :: ms) = (if roleIs "assistant" m then dropUnanswered rs m else m) :: pass2 rs ms.
Proof. by destruct ms. Qed.

Lemma pass2_results rs ms : flat_map resultIds (pass2 rs ms) = flat_map resultIds ms.
Proof.
  induction ms as [|m ms IH]; [done|]. destruct (decide (ms = [])) as [->|Hne]; [done|].
  rewrite pass2_cons by done. cbn [flat_map]. rewrite IH. f_equal. destruct (roleIs "assistant" m) eqn:E; [|done].
  rewrite dropUnanswered_eq, !assistant_results; [done|done|by rewrite assistant_keepCalls].
Qed.

Lemma fromArray_empty f k m : hasToolCalls m = false -> k = "tool_calls" -> fromArray f k m = [].
Proof.
  intros H ->. unfold hasToolCalls in H. unfold fromArray. destruct (arr "tool_calls" m) as [[|]|]; done.
Qed.

Lemma no_content f m : hasContent m = false -> fromArray f "content" m = [].
Proof.
  unfold hasContent, fromArray, arr. destruct (mget "content" m) as [[| | | |[|]|]|]; done.
Qed.

Lemma empty_calls m : hasContent m = false -> hasToolCalls m = false -> callIds m = [].
Proof. intros H1 H2. unfold callIds. rewrite (fromArray_empty _ _ _ H2), (no_content _ _ H1) by done. by destruct (roleIs _ _). Qed.

(** What pass 4 leaves of a message: its calls, and the results with a call. *)
Definition pass4Ok (cs : list json) (m : Message) : Prop :=
  match pass4 cs m with
  | Some m' => resultIds m' = List.filter (hasId cs) (resultIds m) /\ callIds m' = callIds m /\ forall r, roleIs r m' = roleIs r m
  | None => List.filter (hasId cs) (resultIds m) = [] /\ callIds m = []
  end.

Lemma pass4_spec cs m : pass4Ok cs m.
Proof.
  unfold pass4Ok, pass4. destruct (roleIs "tool" m) eqn:Ht; cbn [andb].
  - assert (roleIs "user" m = false /\ roleIs "assistant" m = false) as [Hu Ha] by (split; by eapply role_unique).
    assert (callIds m = []) as Hc by (unfold callIds; by rewrite Ha).
    assert (resultIds m = match idOf (mget "tool_call_id" m) with Some id => [id] | None => [] end) as Hres
      by (unfold resultIds; by rewrite Ht, Hu, app_nil_r).
    rewrite Hu, Ha. cbn [andb]. destruct (idOf (mget "tool_call_id" m)) as [id|]; cbn [passes negb]; [|by rewrite Hres].
    destruct (hasId cs id) eqn:E; cbn [negb]; rewrite Hres; cbn; by rewrite E.
  - destruct (roleIs "user" m) eqn:Hu.
    + assert (roleIs "assistant" m = false) as Ha by (by eapply role_unique).
      assert (resultIds m = fromArray resultBlockId "content" m) as Hres by (unfold resultIds; by rewrite Ht, Hu).
      assert (callIds m = []) as Hc by (unfold callIds; by rewrite Ha).
      destruct (arr "content" m) as [l|] eqn:El.
      * pose proof (omap_filter resultBlockId (hasId cs) l) as Hf. assert (fromArray resultBlockId "content" m = omap resultBlockId l) as Hl
          by (unfold fromArray; by rewrite El). rewrite Hres, Hl, <- Hf.
        destruct (Nat.eqb_spec (length (List.filter (fun b => passes (hasId cs) (resultBlockId b)) l)) (length l)) as [Hn|Hn].
        { apply filter_same_length in Hn. by rewrite Hn, Hres, Hl. }
        case_bool_decide as He; [by rewrite He|].
        assert (forall r, roleIs r (mset "content" (VArr (List.filter (fun b => passes (hasId cs) (resultBlockId b)) l)) m) = roleIs r m) as Hr.
        { intros r. unfold roleIs, isString. by rewrite mget_mset_ne. }
        split_and!; [|unfold callIds; by rewrite Hr, Ha|done].
        unfold resultIds. rewrite !Hr, Ht, Hu. unfold fromArray, arr. by rewrite mget_mset_eq.
      * rewrite Ha. cbn [andb]. rewrite Hres, Hc. split_and!; [|done|done]. unfold fromArray. by rewrite El.
    + assert (resultIds m = []) as Hres by (unfold resultIds; by rewrite Ht, Hu).
      destruct (roleIs "assistant" m && negb (hasContent m) && negb (hasToolCalls m)) eqn:E; rewrite Hres; [|done].
      split; [done|]. apply andb_true_iff in E as [E E2]. apply andb_true_iff in E as [_ E1].
      apply empty_calls; by apply negb_true_iff.
Qed.

Lemma omap_pass4 cs ms :
  flat_map resultIds (omap (pass4 cs) ms) = List.filter (hasId cs) (flat_map resultIds ms) /\
  flat_map callIds (omap (pass4 cs) ms) = flat_map callIds ms.
Proof.
  induction ms as [|m ms [IH1 IH2]]; [done|]. cbn [flat_map]. rewrite List.filter_app.
  pose proof (pass4_spec cs m) as H. unfold pass4Ok in H. cbn [omap list_omap].
  destruct (pass4 cs m) as [m'|]; [destruct H as (H1 & H2 & _)|destruct H as [H1 H2]]; cbn [flat_map]; rewrite IH1, IH2, ?H1, ?H2; done.
Qed.

(** The calls that [fixToolPairs] leaves. *)
Definition leftCalls (ms : list Message) : list json := flat_map callIds (pass2 (flat_map resultIds ms) ms).

Lemma pairs_ids ms :
  flat_map resultIds (fixToolPairs ms) = List.filter (hasId (leftCalls ms)) (flat_map resultIds ms) /\
  flat_map callIds (fixToolPairs ms) = leftCalls ms.
Proof.
  unfold fixToolPairs. fold (leftCalls ms). destruct (omap_pass4 (leftCalls ms) (pass2 (flat_map resultIds ms) ms)) as [-> ->].
  by rewrite pass2_results.
Qed.

Lemma hasId_spec ids id : hasId ids id = true <-> exists x, x ∈ ids /\ sameValue id x = true.
Proof. unfold hasId. rewrite existsb_exists. split; intros (x & Hx & E); exists x; by rewrite list_elem_of_In in *. Qed.

Lemma sameValue_sym a b : sameValue a b = sameValue b a.
Proof.
  destruct a as [|x|[p|]|s| |], b as [|y|[q|]|t| |]; cbn; try done.
  - by destruct x, y.
  - destruct (Qeq_bool p q) eqn:E1, (Qeq_bool q p) eqn:E2; try done; [apply Qeq_bool_iff in E1|apply Qeq_bool_iff in E2].
    + symmetry in E1. apply Qeq_bool_iff in E1. congruence.
    + symmetry in E2. apply Qeq_bool_iff in E2. congruence.
  - apply String.eqb_sym.
Qed.

Lemma in_flat {B} (f : Message -> list B) ms i m x : ms !! i = Some m -> x ∈ f m -> x ∈ flat_map f ms.
Proof.
  intros Hm Hx. apply list_elem_of_In, in_flat_map. exists m. rewrite <- !list_elem_of_In. split; [by eapply list_elem_of_lookup_2|done].
Qed.

(** All but the last. *)
Definition init {A} (l : list A) : list A := take (length l - 1) l.

Lemma init_snoc {A} (l : list A) x : init (l ++ [x]) = l.
Proof. unfold init. rewrite length_app. cbn. rewrite Nat.add_sub. by apply take_app_length. Qed.

Lemma snoc_cases {A} (l : list A) : l = [] \/ exists l' x, l = l' ++ [x].
Proof. destruct l as [|a l]; [by left|right]. destruct (exists_last (l := a :: l)) as (l' & x & E); [done|]. eauto. Qed.

Lemma init_sublist {A} (l : list A) : sublist (init l) l.
Proof. apply sublist_take. Qed.

Lemma init_cons {A} (x : A) l : l <> [] -> init (x :: l) = x :: init l.
Proof. intros H. destruct (snoc_cases l) as [->|(l' & y & ->)]; [done|]. by rewrite app_comm_cons, !init_snoc. Qed.

Lemma init_omap {A B} (P : A -> Prop) (Q : B -> Prop) (f : A -> option B) l :
  (forall x y, f x = Some y -> P x -> Q y) -> Forall P (init l) -> Forall Q (init (omap f l)).
Proof.
  intros Hf. destruct (snoc_cases l) as [->|(l' & x & ->)]; [constructor|]. rewrite init_snoc, omap_app. intros H.
  assert (Forall Q (omap f l')) as HQ by 
    (apply Forall_forall; intros y (a & Ha & E)%list_elem_of_omap; rewrite Forall_forall in H; eauto).
  cbn. destruct (f x); [by rewrite init_snoc|rewrite app_nil_r]. by apply Forall_take.
Qed.

Definition answered (rs : list json) (m : Message) : Prop := Forall (fun c => hasId rs c = true) (callIds m).

Lemma pass2_init rs ms : Forall (answered rs) (init (pass2 rs ms)).
Proof.
  induction ms as [|m ms IH]; [constructor|]. destruct (decide (ms = [])) as [->|Hne]; [constructor|].
  assert (pass2 rs ms <> []) as Hp by (destruct ms as [|? [|]]; done).
  rewrite pass2_cons, init_cons by done. constructor; [|done]. unfold answered. destruct (roleIs "assistant" m) eqn:E.
  - rewrite dropUnanswered_eq, callIds_keepCalls. apply Forall_forall. intros x Hx.
    apply list_elem_of_In, List.filter_In in Hx. tauto.
  - unfold callIds. rewrite E. constructor.
Qed.

Lemma pairs_init ms : Forall (answered (flat_map resultIds ms)) (init (fixToolPairs ms)).
Proof.
  unfold fixToolPairs. eapply init_omap; [|apply pass2_init]. intros m m' E H.
  pose proof (pass4_spec (flat_map callIds (pass2 (flat_map resultIds ms) ms)) m) as Hs. unfold pass4Ok in Hs. rewrite E in Hs.
  destruct Hs as (_ & Hc & _). unfold answered. by rewrite Hc.
Qed.

Lemma lookup_init {A} (l : list A) i x : l !! i = Some x -> (i < length l - 1)%nat -> x ∈ init l.
Proof. intros H Hi. apply (list_elem_of_lookup_2 _ i). unfold init. by rewrite lookup_take_lt. Qed.

(** In the output of [fixToolPairs] every result has the id of a call, and every
    call of an assistant message that is not the last has the id of a result. *)
Theorem pairs_matched ms i m id :
  let out := fixToolPairs ms in
  out !! i = Some m ->
  (id ∈ resultIds m -> hasId (flat_map callIds out) id = true) /\
  (id ∈ callIds m -> (i < length out - 1)%nat -> hasId (flat_map resultIds out) id = true).
Proof.
  intros out Hm. destruct (pairs_ids ms) as [Hr Hc]. fold out in Hr, Hc. split.
  - intros Hid. rewrite Hc. pose proof (in_flat resultIds out i m id Hm Hid) as H.
    rewrite Hr in H. apply list_elem_of_In, List.filter_In in H. tauto.
  - intros Hid Hi. pose proof (pairs_init ms) as Hin. rewrite Forall_forall in Hin.
    specialize (Hin m (lookup_init _ _ _ Hm Hi)). unfold answered in Hin. rewrite Forall_forall in Hin. specialize (Hin id Hid).
    apply hasId_spec in Hin as (r & Hr' & Hs). apply hasId_spec. exists r. split; [|done]. rewrite Hr.
    apply list_elem_of_In, List.filter_In. rewrite <- list_elem_of_In. split; [done|]. apply hasId_spec. exists id.
    rewrite sameValue_sym. split; [|done]. rewrite <- Hc. by eapply in_flat.
Qed.

Lemma pass4_idem cs m m' : pass4 cs m = Some m' -> pass4 cs m' = Some m'.
Proof.
  intros H. pose proof H as H0. unfold pass4 in H.
  destruct (roleIs "tool" m && negb (passes (hasId cs) (idOf (mget "tool_call_id" m)))) eqn:Et; [done|].
  destruct (roleIs "user" m) eqn:Hu.
  - destruct (arr "content" m) as [l|] eqn:El; [|case_if_in H; [done|]; injection H as <-; exact H0]. cbv zeta in H.
    set (g := fun b => passes (hasId cs) (resultBlockId b)) in *. case_if_in H; [injection H as <-; exact H0|]. case_bool_decide as Hn; [done|].
    injection H as <-. assert (forall r, roleIs r (mset "content" (VArr (List.filter g l)) m) = roleIs r m) as Hr
      by (intros r; unfold roleIs, isString; by rewrite mget_mset_ne).
    unfold pass4. rewrite !Hr, Hu, (role_unique _ _ _ Hu) by done. cbn [andb].
    assert (arr "content" (mset "content" (VArr (List.filter g l)) m) = Some (List.filter g l)) as -> by (unfold arr; by rewrite mget_mset_eq).
    fold g. cbv zeta. rewrite lfilter_id by (apply Forall_forall; intros x Hx; apply list_elem_of_In, List.filter_In in Hx; tauto).
    by rewrite Nat.eqb_refl.
  - case_if_in H; [done|]. injection H as <-. exact H0.
Qed.

Lemma pass2_id rs ms : Forall (answered rs) (init ms) -> pass2 rs ms = ms.
Proof.
  induction ms as [|m ms IH]; [done|]. destruct (decide (ms = [])) as [->|Hne]; [done|].
  rewrite init_cons, pass2_cons by done. intros [Hm H]%Forall_cons. rewrite IH by done. f_equal.
  destruct (roleIs "assistant" m) eqn:E; [|done]. rewrite dropUnanswered_eq. by apply keepCalls_id.
Qed.

Lemma pairs_answered ms : Forall (answered (flat_map resultIds (fixToolPairs ms))) (init (fixToolPairs ms)).
Proof.
  apply Forall_forall. intros m Hm. apply list_elem_of_lookup in Hm as (i & Hi). unfold init in Hi.
  apply lookup_take_Some in Hi as [Hi Hlt]. apply Forall_forall. intros c Hc. pose proof (pairs_init ms) as Hin.
  rewrite Forall_forall in Hin. specialize (Hin m (lookup_init _ _ _ Hi Hlt)). unfold answered in Hin. rewrite Forall_forall in Hin.
  specialize (Hin c Hc). apply hasId_spec in Hin as (r & Hr' & Hs). apply hasId_spec. exists r. split; [|done].
  destruct (pairs_ids ms) as [Hr Hcs]. rewrite Hr. apply list_elem_of_In, List.filter_In. rewrite <- list_elem_of_In. split; [done|].
  apply hasId_spec. exists c. rewrite sameValue_sym. split; [|done]. rewrite <- Hcs. by eapply in_flat.
Qed.

(** [fixToolPairs] leaves its own output as it is. *)
Theorem fixToolPairs_idempotent ms : fixToolPairs (fixToolPairs ms) = fixToolPairs ms.
Proof.
  unfold fixToolPairs at 1. cbv zeta. rewrite (pass2_id _ _ (pairs_answered ms)). rewrite (proj2 (pairs_ids ms)).
  unfold fixToolPairs. cbv zeta. fold (leftCalls ms). generalize (pass2 (flat_map resultIds ms) ms). intros l.
  induction l as [|m l IH]; [done|]. cbn [omap list_omap]. destruct (pass4 (leftCalls ms) m) as [m'|] eqn:E; [|done].
  cbn [omap list_omap]. rewrite (pass4_idem _ _ _ E). by f_equal.
Qed.

(** ** Adjacency *)

(** Every call of a message is answered by the next one. *)
Fixpoint adjOk (ms : list Message) : Prop :=
  match ms with
  | m :: rest => match rest with m' :: _ => Forall (fun c => c ∈ resultIds m') (callIds m) /\ adjOk rest | [] => True end
  | [] => True
  end.

Definition textual (v : json) : Prop := exists s, v = VStr s.

(** All ids are strings, as every vendor writes them. *)
Definition stringIds (ms : list Message) : Prop := Forall (fun m => Forall textual (callIds m) /\ Forall textual (resultIds m)) ms.

Section Repair.
Context (numText : Q -> string).

Lemma hasText_spec ids c : textual c -> Forall textual ids -> hasText numText (map (idText numText) ids) c = true -> c ∈ ids.
Proof.
  intros (s & ->) Hids H. unfold hasText in H. apply existsb_exists in H as (t & Ht & E).
  apply in_map_iff in Ht as (v & <- & Hv). apply list_elem_of_In in Hv. rewrite Forall_forall in Hids.
  destruct (Hids v Hv) as (u & ->). cbn in E. apply String.eqb_eq in E. by subst.
Qed.

(** What [adjacent] makes of an assistant message. *)
Lemma adjacent_spec m next :
  let keep := hasText numText (map (idText numText) (resultIds next)) in
  match adjacent numText m next with
  | Some m' => m' = keepCalls' keep m
  | None => callIds (keepCalls' keep m) = []
  end.
Proof.
  intros keep. unfold adjacent. fold keep. rewrite (filterField_spec "content"). rewrite filterField_spec. fold (keepCalls' keep m).
  destruct (snd _) eqn:E.
  - destruct (negb (hasContent (keepCalls' keep m)) && negb (hasToolCalls (keepCalls' keep m))) eqn:E2; [|done].
    apply andb_true_iff in E2 as [E1 E2]. apply empty_calls; by apply negb_true_iff.
  - unfold keepCalls'. apply filterField_unmodified in E as [E ->]. by apply filterField_unmodified in E as [_ ->].
Qed.

Lemma adjacencyLoop_cons m next rest : adjacencyLoop numText (m :: next :: rest) =
  (if roleIs "assistant" m then option_list (adjacent numText m next) else [m]) ++ adjacencyLoop numText (next :: rest).
Proof. cbn [adjacencyLoop]. destruct (roleIs "assistant" m); [|done]. by destruct (adjacent numText m next). Qed.

(** A message that answers something is not an assistant's and stays in front. *)
Lemma adjacencyLoop_head m rest c : c ∈ resultIds m -> exists l, adjacencyLoop numText (m :: rest) = m :: l.
Proof.
  intros H. assert (roleIs "assistant" m = false) as Ha.
  { destruct (roleIs "assistant" m) eqn:E; [|done]. rewrite (assistant_results _ E) in H. by apply not_elem_of_nil in H. }
  destruct rest as [|next rest]; [by exists []|]. rewrite adjacencyLoop_cons, Ha. cbn. eauto.
Qed.

Lemma adjOk_cons m ms : adjOk ms -> (forall c, c ∈ callIds m -> exists m' l, ms = m' :: l /\ c ∈ resultIds m') -> adjOk (m :: ms) \/ ms = [].
Proof.
  intros H Hc. destruct ms as [|m' l]; [by right|left]. cbn. split; [|done]. apply Forall_forall. intros c Hin.
  destruct (Hc c Hin) as (? & ? & [= <- <-] & ?). done.
Qed.

Lemma adjacencyLoop_ok ms : stringIds ms -> adjOk (adjacencyLoop numText ms).
Proof.
  induction ms as [|m ms IH]; intros Hs; [done|]. destruct ms as [|next rest]; [done|].
  apply Forall_cons in Hs as [[Hm _] Hs]. pose proof (proj1 (Forall_cons _ _ _) Hs) as [[_ Hn] _]. specialize (IH Hs).
  rewrite adjacencyLoop_cons.
  enough (forall m1, (forall c, c ∈ callIds m1 -> c ∈ resultIds next) -> adjOk (m1 :: adjacencyLoop numText (next :: rest))) as Hok.
  { destruct (roleIs "assistant" m) eqn:E; [|apply Hok; unfold callIds; rewrite E; intros c H; by apply not_elem_of_nil in H].
    pose proof (adjacent_spec m next) as Ha. cbv zeta in Ha. destruct (adjacent numText m next) as [m1|]; [|done]. cbn [option_list app].
    apply Hok. subst m1. rewrite callIds_keepCalls'. intros c Hc. apply list_elem_of_In, List.filter_In in Hc as [Hc1 Hc2].
    apply list_elem_of_In in Hc1. rewrite Forall_forall in Hm. apply hasText_spec; auto. }
  intros m1 H1. destruct (callIds m1) as [|c cs] eqn:Ec.
  - cbn [adjOk]. destruct (adjacencyLoop numText (next :: rest)); [done|]. rewrite Ec. by split.
  - destruct (adjacencyLoop_head next rest c) as (l & El); [apply H1; by left|]. rewrite El in *.
    split; [|done]. apply Forall_forall. rewrite Ec. auto.
Qed.

Lemma adjacency_ok ms : stringIds ms -> adjOk (fixToolAdjacency numText ms).
Proof.
  intros Hs. unfold fixToolAdjacency. destruct (Nat.leb_spec (length ms) 1); [|by apply adjacencyLoop_ok].
  by destruct ms as [|? [|? ?]]; cbn in *; try lia.
Qed.
End Repair.

(** ** Calls and results in the order of the conversation *)

Definition events (m : Message) : list (json + json) := map inl (callIds m) ++ map inr (resultIds m).

Lemma sublist_filter {A} (f : A -> bool) l : sublist (List.filter f l) l.
Proof. induction l as [|x l IH]; cbn; [done|]. case_if; by constructor. Qed.

Lemma events_sublist m m' cs rs : callIds m' = List.filter cs (callIds m) -> resultIds m' = List.filter rs (resultIds m) ->
  sublist (events m') (events m).
Proof.
  intros H1 H2. unfold events. rewrite H1, H2. apply sublist_app; apply fmap_sublist, sublist_filter.
Qed.

Lemma filter_true {A} (l : list A) : l = List.filter (fun _ => true) l.
Proof. induction l as [|x l IH]; cbn; congruence. Qed.

Lemma pass2_events rs ms : sublist (flat_map events (pass2 rs ms)) (flat_map events ms).
Proof.
  induction ms as [|m ms IH]; [done|]. destruct (decide (ms = [])) as [->|Hne]; [done|].
  rewrite pass2_cons by done. cbn [flat_map]. apply sublist_app; [|done]. destruct (roleIs "assistant" m) eqn:E; [|done].
  rewrite dropUnanswered_eq. apply (events_sublist _ _ (hasId rs) (fun _ => true)); [apply callIds_keepCalls|].
  rewrite !assistant_results; [done|done|by rewrite assistant_keepCalls].
Qed.

Lemma pass4_events cs ms : sublist (flat_map events (omap (pass4 cs) ms)) (flat_map events ms).
Proof.
  induction ms as [|m ms IH]; [done|]. cbn [omap list_omap flat_map]. pose proof (pass4_spec cs m) as H. unfold pass4Ok in H.
  destruct (pass4 cs m) as [m'|]; [|by apply sublist_inserts_l]. cbn [flat_map]. apply sublist_app; [|done].
  destruct H as (Hr & Hc & _). apply (events_sublist _ _ (fun _ => true) (hasId cs)); [by rewrite Hc, <- filter_true|done].
Qed.

Lemma pairs_events ms : sublist (flat_map events (fixToolPairs ms)) (flat_map events ms).
Proof. unfold fixToolPairs. etrans; [apply pass4_events|apply pass2_events]. Qed.

Lemma adjacencyLoop_events numText ms : sublist (flat_map events (adjacencyLoop numText ms)) (flat_map events ms).
Proof.
  induction ms as [|m ms IH]; [done|]. destruct ms as [|next rest]; [done|]. rewrite adjacencyLoop_cons, flat_map_app.
  cbn [flat_map] in IH |- *. apply sublist_app; [|done]. destruct (roleIs "assistant" m) eqn:E; [|cbn [flat_map]; by rewrite app_nil_r].
  pose proof (adjacent_spec numText m next) as Ha. cbv zeta in Ha. destruct (adjacent numText m next) as [m'|]; [|apply sublist_nil_l].
  change (flat_map events (option_list (Some m'))) with (events m' ++ []). rewrite app_nil_r. subst m'.
  apply (events_sublist _ _ (hasText numText (map (idText numText) (resultIds next))) (fun _ => true)); [apply callIds_keepCalls'|].
  rewrite !assistant_results; [done|done|]. unfold keepCalls'. by rewrite !role_setArr.
Qed.

Lemma adjacency_events numText ms : sublist (flat_map events (fixToolAdjacency numText ms)) (flat_map events ms).
Proof. unfold fixToolAdjacency. case_if; [done|apply adjacencyLoop_events]. Qed.

Definition textualEvent (e : json + json) : Prop := match e with inl v | inr v => textual v end.

Lemma stringIds_events ms : stringIds ms <-> Forall textualEvent (flat_map events ms).
Proof.
  induction ms as [|m ms IH]; cbn [flat_map]; [split; constructor|]. unfold stringIds in *. rewrite Forall_cons, IH, Forall_app.
  unfold events at 2. rewrite Forall_app. setoid_rewrite Forall_map. done.
Qed.

Lemma stringIds_sublist ms ms' : sublist (flat_map events ms') (flat_map events ms) -> stringIds ms -> stringIds ms'.
Proof. rewrite !stringIds_events. intros H. rewrite !Forall_forall. intros H1 e He. apply H1. by eapply elem_of_sublist. Qed.

(** ** [fixToolPairs] keeps adjacency *)

Lemma pass2_adjOk rs ms : adjOk ms -> adjOk (pass2 rs ms).
Proof.
  induction ms as [|m ms IH]; [done|]. destruct ms as [|m' rest]; [done|]. intros [Hm H]. specialize (IH H).
  rewrite pass2_cons by done.
  assert (exists x l, pass2 rs (m' :: rest) = x :: l /\ resultIds x = resultIds m') as (x & l & El & Hx).
  { destruct rest as [|m2 rest]; [by exists m', []|]. rewrite pass2_cons by done. do 2 eexists. split; [done|].
    destruct (roleIs "assistant" m') eqn:E; [|done]. rewrite dropUnanswered_eq, !assistant_results; [done|done|by rewrite assistant_keepCalls]. }
  rewrite El in *. split; [|done]. rewrite Hx. destruct (roleIs "assistant" m); [|done].
  rewrite dropUnanswered_eq, callIds_keepCalls. rewrite Forall_forall in Hm |- *. intros c Hc. apply Hm.
  apply list_elem_of_In, List.filter_In in Hc as [Hc _]. by apply list_elem_of_In.
Qed.

Lemma hasId_refl cs c : textual c -> c ∈ cs -> hasId cs c = true.
Proof. intros (s & ->) H. apply hasId_spec. exists (VStr s). split; [done|]. apply String.eqb_refl. Qed.

Lemma pass4_adjOk cs ms : Forall (fun m => Forall (fun c => textual c /\ c ∈ cs) (callIds m)) ms ->
  adjOk ms -> adjOk (omap (pass4 cs) ms).
Proof.
  induction ms as [|m ms IH]; [done|]. intros [Hm Hcs]%Forall_cons H.
  assert (adjOk ms) as Hms by (destruct ms; [done|apply H]). specialize (IH Hcs Hms). cbn [omap list_omap].
  pose proof (pass4_spec cs m) as Hs. unfold pass4Ok in Hs. destruct (pass4 cs m) as [m1|]; [|done]. destruct Hs as (_ & Hc & _).
  destruct (callIds m) as [|c0 cl] eqn:Ec.
  { revert IH. destruct (omap (pass4 cs) ms) as [|x l]; intros IH; [done|]. split; [by rewrite Hc|done]. }
  destruct ms as [|m' rest]; [done|]. destruct H as [Hadj _]. cbn [omap list_omap] in *.
  pose proof (pass4_spec cs m') as Hs'. unfold pass4Ok in Hs'.
  assert (forall c, c ∈ c0 :: cl -> c ∈ List.filter (hasId cs) (resultIds m')) as Hkept.
  { intros c Hin. rewrite Ec in Hadj. rewrite Forall_forall in Hadj, Hm. apply list_elem_of_In, List.filter_In.
    rewrite <- list_elem_of_In. split; [by apply Hadj|]. destruct (Hm c Hin). by apply hasId_refl. }
  destruct (pass4 cs m') as [m2|].
  - destruct Hs' as (Hr & _). split; [|done]. rewrite Hc. apply Forall_forall. intros c Hin. rewrite Hr. auto.
  - destruct Hs' as [Hr _]. rewrite Hr in Hkept. exfalso. apply (not_elem_of_nil c0). apply Hkept. by left.
Qed.

Lemma pairs_adjOk ms : stringIds ms -> adjOk ms -> adjOk (fixToolPairs ms).
Proof.
  intros Hs H. unfold fixToolPairs. cbv zeta. apply pass4_adjOk; [|by apply pass2_adjOk].
  pose proof (stringIds_sublist _ _ (pass2_events (flat_map resultIds ms) ms) Hs) as Hs2.
  apply Forall_forall. intros m Hm. apply Forall_forall. intros c Hc. unfold stringIds in Hs2. rewrite Forall_forall in Hs2.
  destruct (Hs2 m Hm) as [Ht _]. rewrite Forall_forall in Ht. split; [by apply Ht|].
  apply list_elem_of_lookup in Hm as (i & Hi). by eapply in_flat.
Qed.

(** ** The last message *)

(** The last message without its calls, or nothing; a message that is not an
    assistant's stays. *)
Lemma strip_spec ms : ms = [] /\ stripTrailingAssistantOrphanToolUse ms = [] \/
  exists l m o, ms = l ++ [m] /\ stripTrailingAssistantOrphanToolUse ms = l ++ option_list o /\
    (roleIs "assistant" m = false -> o = Some m) /\
    (roleIs "assistant" m = true -> match o with Some m' => callIds m' = [] /\ roleIs "assistant" m' = true | None => True end).
Proof.
  destruct (snoc_cases ms) as [->|(l & m & ->)]; [by left|right]. unfold stripTrailingAssistantOrphanToolUse.
  rewrite last_snoc. destruct (roleIs "assistant" m) eqn:E; cbn [negb]; [|exists l, m, (Some m); split_and!; [done|done|done|]; intros E2; congruence].
  rewrite (filterField_spec "tool_calls"). rewrite filterField_spec.
  set (m' := setArr "content" (fun block => negb (typeIs "tool_use" block)) (setArr "tool_calls" (fun _ => false) m)).
  assert (callIds m' = [] /\ roleIs "assistant" m' = true) as [Hc Ha].
  { subst m'. split; [|by rewrite !role_setArr]. unfold callIds. rewrite !role_setArr, E by done.
    rewrite fromArray_setArr_ne by done. unfold fromArray. rewrite !arr_setArr, !decide_True by done.
    rewrite decide_False by done.
    assert (forall l : list json, omap callId (List.filter (fun _ => false) l) = []) as H1 by (intros l0; by induction l0).
    assert (forall l : list json, omap useBlockId (List.filter (fun b => negb (typeIs "tool_use" b)) l) = []) as H2.
    { intros l0. induction l0 as [|x l0 IH]; [done|]. cbn. destruct (typeIs "tool_use" x) eqn:Et; cbn; [done|].
      unfold useBlockId at 1. by rewrite Et. }
    destruct (arr "tool_calls" m), (arr "content" m); cbn [fmap option_fmap option_map]; by rewrite ?H1, ?H2. }
  destruct (snd _) eqn:Em; cbn [negb].
  - rewrite length_app. cbn [length]. rewrite Nat.add_sub, take_app_length.
    exists l, m, (if hasContent m' || hasToolCalls m' then Some m' else None).
    destruct (hasContent m' || hasToolCalls m'); split_and!; try done; by intros E2; congruence.
  - exists l, m, (Some m). split_and!; [done|done|done|]. intros _. apply filterField_unmodified in Em as [Em E2].
    apply filterField_unmodified in Em as [_ E1]. subst m'. rewrite E2, E1 in Hc. done.
Qed.

Lemma adjOk_lookup ms i m m' c : adjOk ms -> ms !! i = Some m -> ms !! S i = Some m' -> c ∈ callIds m -> c ∈ resultIds m'.
Proof.
  revert i. induction ms as [|x ms IH]; intros i H Hi Hs Hc; [done|]. destruct ms as [|y rest]; [done|].
  destruct i as [|i]; [|by apply (IH i (proj2 H))]. cbn in Hi, Hs. simplify_eq. destruct H as [H _].
  rewrite Forall_forall in H. by apply H.
Qed.

Lemma no_calls_result m c : c ∈ resultIds m -> roleIs "assistant" m = false.
Proof.
  intros H. destruct (roleIs "assistant" m) eqn:E; [|done]. rewrite (assistant_results _ E) in H. by apply not_elem_of_nil in H.
Qed.

(** The calls of a stripped conversation are answered by the next message. *)
Lemma strip_answers ms i m c : adjOk ms -> stripTrailingAssistantOrphanToolUse ms !! i = Some m -> c ∈ callIds m ->
  exists m', stripTrailingAssistantOrphanToolUse ms !! S i = Some m' /\ c ∈ resultIds m' /\ ms !! i = Some m /\ ms !! S i = Some m'.
Proof.
  intros H Hi Hc. destruct (strip_spec ms) as [[_ E]|(l & x & o & -> & E & Ho & Ha)]; rewrite E in *; [done|].
  destruct (decide (i < length l)%nat) as [Hlt|Hge].
  - rewrite lookup_app_l in Hi by done. destruct ((l ++ [x]) !! S i) as [m'|] eqn:Hs.
    2: { apply lookup_ge_None in Hs. rewrite length_app in Hs. cbn in Hs. lia. }
    assert ((l ++ [x]) !! i = Some m) as Hi' by (by rewrite lookup_app_l).
    pose proof (adjOk_lookup _ _ _ _ _ H Hi' Hs Hc) as Hr. exists m'. split_and!; [|done..].
    destruct (decide (S i < length l)%nat) as [Hlt'|Hge']; [rewrite lookup_app_l in Hs |- * by done; done|].
    rewrite lookup_app_r in Hs |- * by lia. apply list_lookup_singleton_Some in Hs as [Hz <-].
    rewrite (Ho (no_calls_result _ _ Hr)), Hz. done.
  - exfalso. rewrite lookup_app_r in Hi by lia. destruct (roleIs "assistant" x) eqn:Er.
    + destruct o as [y|]; [|done]. apply list_lookup_singleton_Some in Hi as [_ <-]. destruct (Ha eq_refl) as [Hn _]. rewrite Hn in Hc.
      by apply not_elem_of_nil in Hc.
    + rewrite (Ho eq_refl) in Hi. apply list_lookup_singleton_Some in Hi as [_ <-]. unfold callIds in Hc. rewrite Er in Hc.
      by apply not_elem_of_nil in Hc.
Qed.

(** Only the last assistant message changes, so what is answered stays in place. *)
Lemma strip_results ms i m r : stripTrailingAssistantOrphanToolUse ms !! i = Some m -> r ∈ resultIds m -> ms !! i = Some m.
Proof.
  intros Hi Hr. pose proof (no_calls_result _ _ Hr) as Hn.
  destruct (strip_spec ms) as [[_ E]|(l & x & o & -> & E & Ho & Ha)]; rewrite E in Hi; [done|].
  destruct (decide (i < length l)%nat) as [Hlt|Hge]; [by rewrite lookup_app_l in Hi |- * by done|].
  rewrite lookup_app_r in Hi |- * by lia. destruct (roleIs "assistant" x) eqn:Er.
  - destruct o as [y|]; [|done]. apply list_lookup_singleton_Some in Hi as [_ <-]. destruct (Ha eq_refl). congruence.
  - by rewrite (Ho eq_refl) in Hi.
Qed.

Lemma strip_init ms i m : ms !! i = Some m -> (S i < length ms)%nat -> stripTrailingAssistantOrphanToolUse ms !! i = Some m.
Proof.
  intros Hi Hlt. destruct (strip_spec ms) as [[-> _]|(l & x & o & -> & E & _)]; [done|]. rewrite E.
  rewrite length_app in Hlt. cbn in Hlt. rewrite lookup_app_l in Hi |- * by lia. done.
Qed.

(** ** Results in order *)

Definition getResult (e : json + json) : option json := match e with inr v => Some v | inl _ => None end.

Lemma results_events ms : flat_map resultIds ms = omap getResult (flat_map events ms).
Proof.
  induction ms as [|m ms IH]; [done|]. cbn [flat_map]. rewrite omap_app, <- IH. f_equal. unfold events. rewrite omap_app.
  assert (forall l, omap getResult (map inl l) = []) as -> by (intros l; by induction l).
  cbn. induction (resultIds m) as [|x l IHl]; [done|]. cbn. by f_equal.
Qed.

Lemma sublist_omap {A B} (f : A -> option B) l l' : sublist l l' -> sublist (omap f l) (omap f l').
Proof. induction 1 as [|x l l' H IH|x l l' H IH]; cbn; [done| |]; destruct (f x); by try constructor. Qed.

Lemma NoDup_flat {B} (f : Message -> list B) ms i j a b x :
  NoDup (flat_map f ms) -> ms !! i = Some a -> ms !! j = Some b -> x ∈ f a -> x ∈ f b -> i = j.
Proof.
  revert i j. induction ms as [|m ms IH]; intros i j Hnd Hi Hj Ha Hb; [done|].
  cbn [flat_map] in Hnd. apply NoDup_app in Hnd as (_ & Hdis & Hnd).
  destruct i as [|i], j as [|j]; cbn in Hi, Hj; simplify_eq; [done| | |f_equal; by eapply IH];
    (exfalso; eapply (Hdis x); [done|]; by eapply in_flat).
Qed.

Lemma sublist_two {B} (f : Message -> list B) ms i j a b x y :
  (i < j)%nat -> ms !! i = Some a -> ms !! j = Some b -> x ∈ f a -> y ∈ f b -> sublist [x; y] (flat_map f ms).
Proof.
  revert i j. induction ms as [|m ms IH]; intros i j Hlt Hi Hj Ha Hb; [done|]. cbn [flat_map].
  destruct j as [|j]; [lia|]. destruct i as [|i]; cbn in Hi, Hj; simplify_eq.
  - apply (sublist_app [x] _ [y]); apply singleton_sublist_l; [done|by eapply in_flat].
  - apply sublist_inserts_l. apply (IH i j); [lia|done..].
Qed.

Section Main.
Context (numText : Q -> string).

Lemma repair_adjOk ms : stringIds ms -> adjOk (fixToolPairs (fixToolAdjacency numText (fixToolPairs ms))).
Proof.
  intros Hs. pose proof (stringIds_sublist _ _ (pairs_events ms) Hs) as H1.
  apply pairs_adjOk; [|by apply adjacency_ok]. by apply (stringIds_sublist _ _ (adjacency_events numText _)).
Qed.

Lemma repair_events ms :
  sublist (flat_map events (fixToolPairs (fixToolAdjacency numText (fixToolPairs ms)))) (flat_map events ms).
Proof. etrans; [apply pairs_events|]. etrans; [apply adjacency_events|]. apply pairs_events. Qed.

(** In a repaired conversation every tool call, whatever was cut away and
    however it was garbled, is answered by the very next message; the last message
    calls nothing. *)
Theorem repaired_calls_answered ms i m c :
  stringIds ms ->
  let out := repairChatMessages numText ms in
  out !! i = Some m -> c ∈ callIds m -> exists m', out !! S i = Some m' /\ c ∈ resultIds m'.
Proof.
  intros Hs out Hi Hc. destruct (strip_answers _ i m c (repair_adjOk ms Hs) Hi Hc) as (m' & H & Hr & _). eauto.
Qed.

(** When no two results of a conversation have the same id and none comes
    before its call, every result of the repaired conversation answers a call of
    the message just before it. *)
Theorem repaired_results_called ms j m r :
  stringIds ms -> NoDup (flat_map resultIds ms) -> (forall id, ~ sublist [inr id; inl id] (flat_map events ms)) ->
  let out := repairChatMessages numText ms in
  out !! j = Some m -> r ∈ resultIds m -> exists i m', j = S i /\ out !! i = Some m' /\ r ∈ callIds m'.
Proof.
  intros Hs Hnd Hord out Hj Hr. unfold out, repairChatMessages in *. clear out. pose proof (repair_events ms) as Hsub.
  pose proof (repair_adjOk ms Hs) as Hadj. set (a2 := fixToolAdjacency numText (fixToolPairs ms)) in *.
  pose proof (pairs_matched a2) as Hmatch. cbv zeta in Hmatch. set (a3 := fixToolPairs a2) in *.
  pose proof (strip_results _ _ _ _ Hj Hr) as Hj3. destruct (Hmatch j m r Hj3) as [Hid _]. specialize (Hid Hr).
  assert (stringIds a3) as Hs3 by (by apply (stringIds_sublist _ _ Hsub)). unfold stringIds in Hs3. rewrite Forall_forall in Hs3.
  assert (textual r) as (t & ->).
  { destruct (Hs3 m (list_elem_of_lookup_2 _ _ _ Hj3)) as [_ Ht]. rewrite Forall_forall in Ht. auto. }
  apply hasId_spec in Hid as (c & Hc & Hsame). destruct c as [| | |t'| |]; try done. cbn in Hsame. apply String.eqb_eq in Hsame as <-.
  apply list_elem_of_In, in_flat_map in Hc as (m' & Hm' & Hc). apply list_elem_of_In in Hc, Hm'.
  apply list_elem_of_lookup in Hm' as (i & Hi).
  destruct (a3 !! S i) as [m''|] eqn:Hsi.
  - assert (j = S i) as ->.
    { apply (NoDup_flat resultIds a3 j (S i) m m'' (VStr t)); [|done|done|done|exact (adjOk_lookup a3 i m' m'' _ Hadj Hi Hsi Hc)].
      rewrite results_events. eapply sublist_NoDup; [|by apply sublist_omap]. by rewrite <- results_events. }
    exists i, m'. split_and!; [done| |done]. apply strip_init; [done|]. by apply lookup_lt_Some in Hsi.
  - exfalso. apply lookup_ge_None in Hsi. pose proof (lookup_lt_Some _ _ _ Hj3). pose proof (lookup_lt_Some _ _ _ Hi).
    destruct (decide (j = i)) as [->|Hne].
    + simplify_eq. pose proof (no_calls_result _ _ Hr) as Hn. unfold callIds in Hc. rewrite Hn in Hc. by apply not_elem_of_nil in Hc.
    + apply (Hord (VStr t)). etrans; [|exact Hsub]. apply (sublist_two events a3 j i m m'); [lia|done|done| |].
      * unfold events. apply elem_of_app. right. by apply list_elem_of_fmap_2.
      * unfold events. apply elem_of_app. left. by apply list_elem_of_fmap_2.
Qed.
End Main.

(** ** Witnesses and findings *)

#[local] Open Scope string_scope.
Definition say (r text : string) : Message := [("role", VStr r); ("content", VStr text)].
Definition uses (ids : list string) : Message :=
  [("role", VStr "assistant"); ("content", VArr (map (fun id => VObj [("type", VStr "tool_use"); ("id", VStr id)]) ids))].
Definition answers (ids : list string) : Message :=
  [("role", VStr "user"); ("content", VArr (map (fun id => VObj [("type", VStr "tool_result"); ("tool_use_id", VStr id)]) ids))].
Definition calls (ids : list string) : Message :=
  [("role", VStr "assistant"); ("content", VNull); ("tool_calls", VArr (map (fun id => VObj [("id", VStr id)]) ids))].
Definition toolMessage (id text : string) : Message :=
  [("role", VStr "tool"); ("tool_call_id", VStr id); ("content", VStr text)].
Definition noNumber (_ : Q) : string := "0".

(** A history cut in the middle of an exchange. *)
Definition exCut : list Message :=
  [answers ["t0"]; uses ["t1"; "t2"]; answers ["t1"]; say "user" "go on"; uses ["t3"]].

Lemma pairs_matched_witness :
  hasId (flat_map callIds (fixToolPairs exCut)) (VStr "t1") = true.
Proof.
  refine (proj1 (pairs_matched exCut 1 (answers ["t1"]) (VStr "t1") _) _); [reflexivity|].
  change (VStr "t1" ∈ [VStr "t1"]). by left.
Defined.

Lemma exCut_strings : stringIds exCut.
Proof. repeat constructor; try (by eexists). Defined.

Lemma repaired_calls_answered_witness :
  exists m', repairChatMessages noNumber exCut !! 1%nat = Some m' /\ VStr "t1" ∈ resultIds m'.
Proof.
  refine (repaired_calls_answered noNumber exCut 0 (uses ["t1"]) (VStr "t1") exCut_strings _ _); [reflexivity|].
  change (VStr "t1" ∈ [VStr "t1"]). by left.
Defined.

Example repaired_example : repairChatMessages noNumber exCut = [uses ["t1"]; answers ["t1"]; say "user" "go on"].
Proof. reflexivity. Qed.

Lemma repaired_results_called_witness :
  exists i m', 1%nat = S i /\ repairChatMessages noNumber exCut !! i = Some m' /\ VStr "t1" ∈ callIds m'.
Proof.
  refine (repaired_results_called noNumber exCut 1 (answers ["t1"]) (VStr "t1") exCut_strings _ _ _ _); [| |reflexivity|].
  - change (NoDup [VStr "t0"; VStr "t1"]). apply NoDup_cons. split; [|apply NoDup_singleton].
    intros H. apply list_elem_of_singleton in H. discriminate H.
  - intros id H. change (sublist [inr id; inl id] [inr (VStr "t0"); inl (VStr "t1"); inl (VStr "t2"); inr (VStr "t1"); inl (VStr "t3")]) in H.
    repeat match goal with
    | H : sublist (_ :: _) [] |- _ => inversion H
    | H : sublist (_ :: _) (_ :: _) |- _ => inversion H; clear H; simplify_eq
    end.
  - change (VStr "t1" ∈ [VStr "t1"]). by left.
Defined.

(** The rule of adjacency looks at one message only.  In the format of OpenAI the
    results of parallel calls are messages of their own: all but the first are
    dropped, with their calls, from a history that was in order. *)
Lemma parallel_calls_lost :
  let history := [say "user" "weather in Rome and Oslo?"; calls ["rome"; "oslo"]; toolMessage "rome" "sunny";
                  toolMessage "oslo" "snow"; say "user" "thanks"] in
  repairChatMessages noNumber history =
    [say "user" "weather in Rome and Oslo?"; calls ["rome"]; toolMessage "rome" "sunny"; say "user" "thanks"].
Proof. reflexivity. Qed.

(** A second result for one id, or a result before its call, passes every guard
    although the vendor asks for the call just before it. *)
Lemma duplicate_result_kept :
  let history := [uses ["t1"]; answers ["t1"]; say "user" "again"; answers ["t1"]] in
  repairChatMessages noNumber history = history.
Proof. reflexivity. Qed.

Lemma early_result_orphaned :
  repairChatMessages noNumber [answers ["t1"]; uses ["t1"]] = [answers ["t1"]].
Proof. reflexivity. Qed.
