(* ===== verification/ContextManager.v ===== *)
(** * Fitting a conversation into the window: [open-sse/services/contextManager.ts]

    A body whose estimated size is over the window of the model is compressed in
    layers: long tool results are cut, old inline images replaced, thinking blocks
    of earlier turns removed, and finally old messages dropped, with the repairs of
    [ToolPairs] after every cut.  The estimate counts JSON text ([JsonSize]) except
    for inline images and documents, which have a flat price.  The place where a
    conversation was cut is remembered, so that the next request is cut there again.

    Arguments: the text of a number, the digest of a message, the limits that the
    environment and the registry of models give. *)
From Stdlib Require Import String Ascii QArith_base.
From S2P Require Import Prelude JsMap JsNumber JsString ComboSteps RegExp JsonSize ToolPairs.
#[local] Open Scope string_scope.
#[local] Open Scope Z_scope.
#[local] Open Scope list_scope.

Definition DEFAULT_KEEP_LATEST_IMAGES : Z := 2.
Definition IMAGE_REMOVED_PLACEHOLDER : string := "[Earlier image removed to fit context window]".
Definition CHARS_PER_TOKEN : Z := 4.
Definition IMAGE_TOKEN_ESTIMATE : Z := 1200.
Definition DOCUMENT_TOKEN_ESTIMATE : Z := IMAGE_TOKEN_ESTIMATE.

(** ** Inline images and documents *)

Definition subtypeChar : re :=
  Chr (mkSet false [("a", "z"); ("A", "Z"); ("0", "9"); (".", "."); ("+", "+"); ("-", "-")]%char).
Definition INLINE_BASE64_IMAGE_RE : re := Seq (lit "data:image/") (Seq (plus subtypeChar) (Seq (lit ";base64,") anything)).
Definition INLINE_BASE64_DATA_RE : re :=
  Seq (lit "data:") (Seq (plus (Chr (mkSet true [(";", ";"); (",", ",")]%char))) (Seq (lit ";base64,") anything)).

Definition testString (r : re) (v : option json) : bool := match v with Some (VStr s) => reTest r s | _ => false end.
Definition isInlineBase64ImageUrl (v : option json) : bool := testString INLINE_BASE64_IMAGE_RE v.
Definition isInlineBase64DataUrl (v : option json) : bool := testString INLINE_BASE64_DATA_RE v.

Definition isText (v : option json) : bool := match v with Some (VStr _) => true | _ => false end.
Definition textIs (s : string) (v : option json) : bool := match v with Some (VStr t) => String.eqb t s | _ => false end.

(** [a ?? b]. *)
Definition coalesce (a b : option json) : option json := match a with None | Some VNull => b | _ => a end.

(** A property of a value that is an object and not null. *)
Definition inner (k : string) (v : option json) : option json := match v with Some w => field k w | None => None end.

Definition matchesOpenAIImageUrlShape (node : json) : bool :=
  let imageUrl := field "image_url" node in
  isInlineBase64ImageUrl imageUrl || isInlineBase64ImageUrl (inner "url" imageUrl).

Definition matchesAiSdkImageShape (node : json) : bool :=
  typeIs "image" node && isInlineBase64ImageUrl (field "image" node).

(** A [source] of type base64 with data. *)
Definition base64Source (node : json) : bool :=
  let source := field "source" node in textIs "base64" (inner "type" source) && isText (inner "data" source).

Definition matchesClaudeSourceShape (node : json) : bool := typeIs "image" node && base64Source node.

Definition matchesGeminiInlineDataShape (node : json) : bool :=
  isText (inner "data" (coalesce (field "inlineData" node) (field "inline_data" node))).

Definition matchesOpenAIFileShape (node : json) : bool :=
  if typeIs "input_file" node then isInlineBase64DataUrl (field "file_data" node)
  else if negb (typeIs "file" node) then false
  else isInlineBase64DataUrl (inner "file_data" (field "file" node)) || isInlineBase64DataUrl (inner "data" (field "file" node)).

Definition matchesClaudeDocumentShape (node : json) : bool := typeIs "document" node && base64Source node.

Definition isInlineBase64DocumentBlock (node : json) : bool := matchesOpenAIFileShape node || matchesClaudeDocumentShape node.

Definition isInlineBase64ImageBlock (node : json) : bool :=
  matchesOpenAIImageUrlShape node || matchesAiSdkImageShape node || matchesClaudeSourceShape node || matchesGeminiInlineDataShape node.

Definition replaceImageBlockWithPlaceholder (block : json) : json :=
  if typeIs "input_image" block then VObj [("type", VStr "input_text"); ("text", VStr IMAGE_REMOVED_PLACEHOLDER)]
  else if truthy (field "inlineData" block) || truthy (field "inline_data" block) then VObj [("text", VStr IMAGE_REMOVED_PLACEHOLDER)]
  else VObj [("type", VStr "text"); ("text", VStr IMAGE_REMOVED_PLACEHOLDER)].

(** ** The estimate *)

Definition imageNode : json := VObj [("__image_token_estimate__", VNum (Fin (inject_Z IMAGE_TOKEN_ESTIMATE)))].
Definition documentNode : json := VObj [("__document_token_estimate__", VNum (Fin (inject_Z DOCUMENT_TOKEN_ESTIMATE)))].

Section Manager.
Context (numText : Q -> string).

(** The node without its images and documents, and their price. *)
Fixpoint extractImageTokens (node : json) : json * Z :=
  match node with
  | VArr l =>
      let parts := map (fun item =>
        if isRecord item && isInlineBase64ImageBlock item then (imageNode, IMAGE_TOKEN_ESTIMATE)
        else if isRecord item && isInlineBase64DocumentBlock item then (documentNode, DOCUMENT_TOKEN_ESTIMATE)
        else extractImageTokens item) l in
      (VArr parts.*1, sumZ parts.*2)
  | VObj fs =>
      if isInlineBase64ImageBlock node then (imageNode, IMAGE_TOKEN_ESTIMATE)
      else if isInlineBase64DocumentBlock node then (documentNode, DOCUMENT_TOKEN_ESTIMATE)
      else
        let parts := map (fun kv => (kv.1, extractImageTokens kv.2)) fs in
        (VObj (map (fun kp => (kp.1, kp.2.1)) parts), sumZ (map (fun kp => kp.2.2) parts))
  | _ => (node, 0)
  end.

Definition estimateTokens (text : json) : Z :=
  if negb (truthy (Some text)) then 0
  else match text with
       | VStr s => ceilDiv (Z.of_nat (length (utf16 s))) CHARS_PER_TOKEN
       | _ =>
           let '(node, imageTokens) := extractImageTokens text in
           ceilDiv (orElse (jsonLength (fun q => unitsOf (numText q)) (ofJson node)) 0) CHARS_PER_TOKEN + imageTokens
       end.

Definition estimateMessages (messages : list Message) : Z := estimateTokens (VArr (map VObj messages)).

(** ** Layer 1.5: old images *)

(** The places of the inline images, in order. *)
Definition locations (messages : list Message) : list (nat * nat) :=
  concat (imap (fun messageIndex message =>
    match arr "content" message with
    | Some content =>
        concat (imap (fun contentIndex part =>
          if isRecord part && isInlineBase64ImageBlock part then [(messageIndex, contentIndex)] else []) content)
    | None => []
    end) messages).

Definition replaceAt (loc : nat * nat) (messages : list Message) : list Message :=
  alter (fun message =>
    match arr "content" message with
    | Some content => mset "content" (VArr (alter replaceImageBlockWithPlaceholder loc.2 content)) message
    | None => message
    end) loc.1 messages.

Fixpoint pruneLoop (targetTokens : option Z) (prunable : list (nat * nat)) (next : list Message) (pruned : Z) : list Message * Z :=
  match prunable with
  | [] => (next, pruned)
  | location :: prunable =>
      if (match targetTokens with Some t => estimateMessages next <=? t | None => false end) then (next, pruned)
      else pruneLoop targetTokens prunable (replaceAt location next) (pruned + 1)
  end.

(** [keepOverride] is the setting of the environment. *)
Definition pruneOlderInlineImages (messages : list Message) (keepLatest targetTokens keepOverride : option Z) : list Message * Z :=
  let keepLatest := orElse keepLatest (orElse keepOverride DEFAULT_KEEP_LATEST_IMAGES) in
  let locs := locations messages in
  let n := Z.of_nat (length locs) in
  if n <=? keepLatest then (messages, 0)
  else pruneLoop targetTokens (take (Z.to_nat (Z.max 0 (n - keepLatest))) locs) messages 0.

(** ** Layers 1 and 2 *)

Definition cutText (maxChars : nat) (s : string) : string :=
  String.substring 0 maxChars s +:+ String "010" "... [truncated]".

(** A text longer than the limit, cut; [None] when it is short or not a text. *)
Definition cut (maxChars : nat) (v : option json) : option json :=
  match v with
  | Some (VStr s) => if (maxChars <? String.length s)%nat then Some (VStr (cutText maxChars s)) else None
  | _ => None
  end.

Definition trimBlock (maxChars : nat) (block : json) : json :=
  match block with
  | VObj fs =>
      if typeIs "tool_result" block then
        match cut maxChars (field "content" block) with Some c => VObj (mset "content" c fs) | None => block end
      else block
  | _ => block
  end.

Definition trimToolMessages (messages : list Message) (maxChars : nat) : list Message :=
  map (fun msg =>
    match (if roleIs "tool" msg then cut maxChars (mget "content" msg) else None) with
    | Some c => mset "content" c msg
    | None =>
        match (if roleIs "user" msg then arr "content" msg else None) with
        | Some content => mset "content" (VArr (map (trimBlock maxChars) content)) msg
        | None => msg
        end
    end) messages.

Definition compressThinking (messages : list Message) : list Message :=
  let lastAssistantIdx := last (concat (imap (fun i m => if roleIs "assistant" m then [i] else []) messages)) in
  imap (fun i msg =>
    if negb (roleIs "assistant" msg) then msg
    else if bool_decide (lastAssistantIdx = Some i) then msg
    else match arr "content" msg with
         | Some content =>
             let filtered := List.filter (fun block => negb (typeIs "thinking" block)) content in
             if bool_decide (filtered = []) then mset "content" (VStr "[thinking compressed]") msg
             else mset "content" (VArr filtered) msg
         | None => msg
         end) messages.

(** ** Layer 3: dropping messages *)

Definition PURIFY_ANCHOR_TTL_MS : Z := 30 * 60 * 1000.
Definition PURIFY_ANCHOR_MAX : Z := 2000.
Definition PURIFY_REFIT_RATIO : double := dec 7 10.

Record Anchor := mkAnchor { a_digest : string; expiresAt : Z }.
Definition Anchors := jsmap string Anchor.

Definition readPurifyAnchor (key : string) (now : Z) (s : Anchors) : Anchors * option string :=
  match mget key s with
  | None => (s, None)
  | Some entry => if expiresAt entry <=? now then (mdel key s, None) else (s, Some (a_digest entry))
  end.

Definition writePurifyAnchor (key : string) (digest : option string) (now : Z) (s : Anchors) : Anchors :=
  let s := mdel key s in
  match digest with
  | None => s
  | Some d =>
      let s := if msize s >=? PURIFY_ANCHOR_MAX then match mfirst s with Some oldest => mdel oldest s | None => s end else s in
      mset key (mkAnchor d (now + PURIFY_ANCHOR_TTL_MS)) s
  end.

Definition isSystem (m : Message) : bool := roleIs "system" m || roleIs "developer" m.

(** [list.slice(-keep)]. *)
Definition lastOf {A} (keep : Z) (l : list A) : list A := if keep =? 0 then l else drop (length l - Z.to_nat keep) l.

Definition droppedNotice : string := "[Context compressed: earlier messages removed to fit context window]".

(** The notice in front of a leading system message, or in one of its own. *)
Definition addNotice (result : list Message) : list Message :=
  match result with
  | first :: rest =>
      if isSystem first then
        match mget "content" first with
        | Some (VStr s) => mset "content" (VStr (if isEmpty s then droppedNotice else droppedNotice +:+ String "010" s)) first :: rest
        | Some (VArr l) => mset "content" (VArr (VObj [("type", VStr "text"); ("text", VStr droppedNotice)] :: l)) first :: rest
        | _ => mset "content" (VStr droppedNotice) first :: rest
        end
      else [("role", VStr "system"); ("content", VStr droppedNotice)] :: result
  | [] => [[("role", VStr "system"); ("content", VStr droppedNotice)]]
  end.

Definition count {A} (l : list A) : Z := Z.of_nat (length l).

Definition buildPurified (system nonSystem : list Message) (keep : Z) : list Message :=
  let result := repairChatMessages numText (system ++ lastOf keep nonSystem) in
  if keep <? count nonSystem then addNotice result else result.

(** [Math.max(2, Math.floor(keep * 0.7))], in doubles. *)
Definition shrink (keep : Z) : Z := Z.max 2 (orElse (dFloor (dMul (dOfZ keep) (dec 7 10))) 0).

(** How many messages are kept; [fuel] is their number. *)
Fixpoint searchKeep (fuel : nat) (system nonSystem : list Message) (searchTarget keep : Z) : Z :=
  match fuel with
  | O => keep
  | S fuel =>
      if keep <=? 2 then keep
      else if estimateMessages (repairChatMessages numText (system ++ lastOf keep nonSystem)) <=? searchTarget then keep
      else searchKeep fuel system nonSystem searchTarget (shrink keep)
  end.

(** [Math.floor(targetTokens * PURIFY_REFIT_RATIO)]. *)
Definition refitTarget (targetTokens : Z) : Z := orElse (dFloor (dMul (dOfZ targetTokens) PURIFY_REFIT_RATIO)) 0.

Section Digest.
(** The digest of a message, or "unhashable". *)
Context (messageDigest : Message -> string).

Definition purifyHistory (messages : list Message) (targetTokens : Z) (anchorKey : option string) (now : Z) (s : Anchors)
    : Anchors * list Message :=
  let anchorKey := match anchorKey with Some k => if isEmpty k then None else Some k | None => None end in
  let system := List.filter isSystem messages in
  let nonSystem := List.filter (fun m => negb (isSystem m)) messages in
  let '(s, anchored) := match anchorKey with Some k => readPurifyAnchor k now s | None => (s, None) end in
  let reused :=
    match anchored with
    | Some d =>
        match findIndex (fun m => String.eqb (messageDigest m) d) nonSystem with
        | Some index =>
            let reused := buildPurified system nonSystem (count nonSystem - Z.of_nat index) in
            if estimateMessages reused <=? targetTokens then Some reused else None
        | None => None
        end
    | None => None
    end in
  match reused with
  | Some r => (s, r)
  | None =>
      let searchTarget := match anchorKey with Some _ => refitTarget targetTokens | None => targetTokens end in
      let keep := searchKeep (length nonSystem) system nonSystem searchTarget (count nonSystem) in
      let s := match anchorKey with
               | Some k => writePurifyAnchor k
                   (if keep <? count nonSystem then messageDigest <$> nonSystem !! Z.to_nat (count nonSystem - keep) else None) now s
               | None => s
               end in
      (s, buildPurified system nonSystem keep)
  end.

(** ** All layers *)

Record Options := mkOptions {
  maxTokens : Z;               (* of the options, or of the registry *)
  o_reserveTokens : option Z;  (* of the options, or of the environment *)
  keepLatestImages : option Z;
  keepOverride : option Z;
  anchorKey : option string
}.

Inductive Layer := trim_tools | prune_images | compress_thinking | purify_history.

Record Outcome := mkOutcome { o_messages : list Message; compressed : bool; layers : list (Layer * Z); final : Z }.

(** [Math.min(16000, Math.max(256, Math.floor(maxTokens * 0.15)))]. *)
Definition defaultReserveTokens (max : Z) : Z := Z.min 16000 (Z.max 256 (orElse (dFloor (dMul (dOfZ max) (dec 15 100))) 0)).

Definition targetOf (o : Options) : Z :=
  let reserveTokens := Z.min (orElse (o_reserveTokens o) (defaultReserveTokens (maxTokens o))) (Z.max 0 (maxTokens o - 1)) in
  Z.max 0 (maxTokens o - reserveTokens).

(** The messages of the body; the other fields stay as they are. *)
Definition compressContext (messages : list Message) (o : Options) (now : Z) (s : Anchors) : Anchors * Outcome :=
  let targetTokens := targetOf o in
  let original := estimateMessages messages in
  if original <=? targetTokens then (s, mkOutcome messages false [] original)
  else
    let m1 := trimToolMessages messages 2000 in
    let t1 := estimateMessages m1 in
    let l1 := [(trim_tools, t1)] in
    if t1 <=? targetTokens then (s, mkOutcome m1 true l1 t1)
    else
      let '(m2, pruned) := pruneOlderInlineImages m1 (keepLatestImages o) (Some targetTokens) (keepOverride o) in
      let t2 := estimateMessages m2 in
      let l2 := if pruned >? 0 then l1 ++ [(prune_images, t2)] else l1 in
      if (pruned >? 0) && (t2 <=? targetTokens) then (s, mkOutcome m2 true l2 t2)
      else
        let m3 := compressThinking (if pruned >? 0 then m2 else m1) in
        let t3 := estimateMessages m3 in
        let l3 := l2 ++ [(compress_thinking, t3)] in
        if t3 <=? targetTokens then (s, mkOutcome m3 true l3 t3)
        else
          let '(s, m4) := purifyHistory m3 targetTokens (anchorKey o) now s in
          let t4 := estimateMessages m4 in
          (s, mkOutcome m4 true (l3 ++ [(purify_history, t4)]) t4).
End Digest.
End Manager.

(** ** Old images first *)

Lemma placeholder_not_image block : isRecord (replaceImageBlockWithPlaceholder block) && isInlineBase64ImageBlock (replaceImageBlockWithPlaceholder block) = false.
Proof. unfold replaceImageBlockWithPlaceholder. by repeat case_if. Qed.

Definition isImage (part : json) : bool := isRecord part && isInlineBase64ImageBlock part.

(** The images of one content array, numbered from [k]. *)
Definition places (mi k : nat) (content : list json) : list (nat * nat) :=
  concat (imap (fun ci part => if isImage part then [(mi, k + ci)%nat] else []) content).

Lemma places_cons mi k part content : places mi k (part :: content) = (if isImage part then [(mi, k)] else []) ++ places mi (S k) content.
Proof.
  unfold places. cbn [imap concat]. rewrite Nat.add_0_r. f_equal. f_equal. apply imap_ext. intros i x _. cbn.
  by rewrite Nat.add_succ_r.
Qed.

Lemma places_head mi k content mi' ci rest : places mi k content = (mi', ci) :: rest ->
  mi' = mi /\ (k <= ci)%nat /\ places mi k (alter replaceImageBlockWithPlaceholder (ci - k)%nat content) = rest.
Proof.
  revert k. induction content as [|part content IH]; intros k H; [done|]. rewrite places_cons in H.
  destruct (isImage part) eqn:E; cbn [app] in H.
  - injection H as <- <- <-. rewrite Nat.sub_diag. split_and!; [done|done|]. change (alter ?f 0%nat (?x :: ?l)) with (f x :: l).
    rewrite places_cons. unfold isImage at 1. by rewrite placeholder_not_image.
  - destruct (IH _ H) as (-> & Hle & Hr). split_and!; [done|lia|]. replace (ci - k)%nat with (S (ci - S k)) by lia.
    change (alter ?f (S ?i) (?x :: ?l)) with (x :: alter f i l). by rewrite places_cons, E.
Qed.

Definition contentOf (m : Message) : list json := orElse (arr "content" m) [].

(** The images of messages, numbered from [k]. *)
Definition placesFrom (k : nat) (messages : list Message) : list (nat * nat) :=
  concat (imap (fun mi m => places (k + mi) 0 (contentOf m)) messages).

Lemma placesFrom_cons k m messages : placesFrom k (m :: messages) = places k 0 (contentOf m) ++ placesFrom (S k) messages.
Proof.
  unfold placesFrom. cbn [imap concat]. rewrite Nat.add_0_r. f_equal. f_equal. apply imap_ext. intros i x _. cbn.
  by rewrite Nat.add_succ_r.
Qed.

Lemma locations_eq messages : locations messages = placesFrom 0 messages.
Proof. unfold locations, placesFrom. f_equal. apply imap_ext. intros i m _. unfold contentOf. by destruct (arr "content" m). Qed.

Lemma places_ge mi k content p : p ∈ places mi k content -> p.1 = mi.
Proof.
  revert k. induction content as [|part content IH]; intros k H; [by apply not_elem_of_nil in H|]. rewrite places_cons in H.
  apply elem_of_app in H as [H|H]; [|by eapply IH]. destruct (isImage part); [|by apply not_elem_of_nil in H].
  by apply list_elem_of_singleton in H as ->.
Qed.

Lemma placesFrom_ge k messages p : p ∈ placesFrom k messages -> (k <= p.1)%nat.
Proof.
  revert k. induction messages as [|m messages IH]; intros k H; [by apply not_elem_of_nil in H|]. rewrite placesFrom_cons in H.
  apply elem_of_app in H as [H|H]; [apply places_ge in H; lia|]. apply IH in H. lia.
Qed.

Lemma placesFrom_head k messages loc rest : placesFrom k messages = loc :: rest ->
  placesFrom k (replaceAt ((loc.1 - k)%nat, loc.2) messages) = rest.
Proof.
  destruct loc as [mi ci]. cbn [fst snd]. revert k. induction messages as [|m messages IH]; intros k H; [done|].
  pose proof H as H0. rewrite placesFrom_cons in H. destruct (places k 0 (contentOf m)) as [|[a b] tl] eqn:E; cbn [app] in H.
  - pose proof (placesFrom_ge (S k) messages (mi, ci)) as Hge. rewrite H in Hge. specialize (Hge ltac:(by left)). cbn in Hge.
    replace (mi - k)%nat with (S (mi - S k)) by lia. unfold replaceAt. cbn [fst snd].
    change (alter ?f (S ?i) (?x :: ?l)) with (x :: alter f i l). rewrite placesFrom_cons, E. cbn [app]. by apply IH.
  - injection H as -> -> <-. destruct (places_head _ _ _ _ _ _ E) as (-> & _ & Hr). rewrite Nat.sub_diag. unfold replaceAt. cbn [fst snd].
    change (alter ?f 0%nat (?x :: ?l)) with (f x :: l). rewrite placesFrom_cons. f_equal. rewrite <- Hr, Nat.sub_0_r. f_equal.
    unfold contentOf in *. destruct (arr "content" m) as [l|] eqn:El; [|done]. cbn [orElse]. unfold arr. by rewrite mget_mset_eq.
Qed.

Lemma replaceAt_locations messages loc rest : locations messages = loc :: rest -> locations (replaceAt loc messages) = rest.
Proof.
  rewrite !locations_eq. intros H. pose proof (placesFrom_head 0 messages loc rest H) as Hr. rewrite Nat.sub_0_r in Hr.
  by destruct loc.
Qed.

Section Prune.
Context (numText : Q -> string).

Lemma pruneLoop_spec target prunable messages rest pruned out p :
  locations messages = prunable ++ rest -> pruneLoop numText target prunable messages pruned = (out, p) ->
  pruned <= p <= pruned + count prunable /\ locations out = drop (Z.to_nat (p - pruned)) (locations messages) /\
  (p < pruned + count prunable -> exists t, target = Some t /\ estimateMessages numText out <= t).
Proof.
  revert messages pruned. induction prunable as [|loc prunable IH]; intros messages pruned Hl H; cbn [pruneLoop] in H.
  - injection H as <- <-. unfold count. cbn. rewrite Z.sub_diag. split_and!; [lia|lia|done|lia].
  - destruct target as [t|]; [destruct (Z.leb_spec (estimateMessages numText messages) t)|].
    1: { injection H as <- <-. unfold count. rewrite Z.sub_diag. split_and!; [lia|lia|done|eauto]. }
    all: cbn [app] in Hl; pose proof (replaceAt_locations _ _ _ Hl) as Hl'; destruct (IH _ _ Hl' H) as (Hp & Hd & Ht);
      unfold count in *; cbn [length]; split_and!; [lia|lia| |intros; apply Ht; lia];
      rewrite Hd, Hl', Hl; replace (Z.to_nat (p - pruned)) with (S (Z.to_nat (p - (pruned + 1)))) by lia; done.
Qed.

(** The images replaced are the oldest ones: those that stay are the last of
    the conversation, at least the number asked for, and either exactly that
    number or the target is met. *)
Theorem prune_keeps_newest messages keep target env out p :
  0 <= keep -> keep <= count (locations messages) ->
  pruneOlderInlineImages numText messages (Some keep) target env = (out, p) ->
  locations out = drop (Z.to_nat p) (locations messages) /\ keep <= count (locations out) /\
  (count (locations out) = keep \/ exists t, target = Some t /\ estimateMessages numText out <= t).
Proof.
  intros Hk Hn H. unfold pruneOlderInlineImages in H. cbn [orElse] in H. unfold count in *.
  destruct (Z.leb_spec (Z.of_nat (length (locations messages))) keep).
  - injection H as <- <-. split_and!; [done|lia|left; lia].
  - set (n := Z.to_nat (Z.max 0 (Z.of_nat (length (locations messages)) - keep))) in H.
    destruct (pruneLoop_spec _ _ _ (drop n (locations messages)) _ _ _ (eq_sym (take_drop _ _)) H) as (Hp & Hd & Ht).
    unfold count in Hp, Ht. rewrite length_take_le in Hp, Ht by lia. rewrite Z.sub_0_r in Hd. rewrite Hd, length_drop.
    split_and!; [done|lia|]. destruct (decide (p < 0 + Z.of_nat n)); [right; by apply Ht|left; lia].
Qed.
End Prune.

(** ** The search *)

(** Every step drops messages, for any number up to a bound. *)
Fixpoint shrinks (n : nat) (keep : Z) : bool :=
  match n with
  | O => true
  | S n => (shrink keep <? keep) && shrinks n (keep + 1)
  end.

Definition MAX_CHECKED : Z := 4000.

Lemma shrinks_checked : shrinks (Z.to_nat MAX_CHECKED) 3 = true.
Proof. vm_compute. reflexivity. Qed.

Lemma shrinks_lt n k : shrinks n k = true -> forall i, k <= i < k + Z.of_nat n -> shrink i < i.
Proof.
  revert k. induction n as [|n IH]; intros k H i Hi; [lia|]. cbn in H. apply andb_true_iff in H as [H1 H2]. to_prop.
  destruct (decide (i = k)) as [->|]; [done|]. apply (IH _ H2). lia.
Qed.

Lemma shrink_lt keep : 2 < keep <= MAX_CHECKED -> 2 <= shrink keep < keep.
Proof.
  intros H. split; [unfold shrink; lia|]. apply (shrinks_lt _ _ shrinks_checked). unfold MAX_CHECKED in *. lia.
Qed.

Section Search.
Context (numText : Q -> string).

(** The conversation with its last [keep] messages, repaired. *)
Definition candidate (system nonSystem : list Message) (keep : Z) : list Message :=
  repairChatMessages numText (system ++ lastOf keep nonSystem).

Lemma searchKeep_spec fuel system nonSystem target keep :
  keep <= Z.of_nat fuel + 2 -> keep <= MAX_CHECKED ->
  let k := searchKeep numText fuel system nonSystem target keep in
  k <= Z.max 2 keep /\ (k <= 2 \/ estimateMessages numText (candidate system nonSystem k) <= target).
Proof.
  revert keep. induction fuel as [|fuel IH]; intros keep Hf Hm; cbn [searchKeep]; [split; [lia|left; lia]|].
  destruct (Z.leb_spec keep 2); [split; [lia|by left]|]. fold (candidate system nonSystem keep).
  destruct (Z.leb_spec (estimateMessages numText (candidate system nonSystem keep)) target); [split; [lia|by right]|].
  destruct (shrink_lt keep); [lia|]. destruct (IH (shrink keep)) as [Hk1 Hk2]; [lia|lia|]. split; [lia|done].
Qed.

(** For conversations of up to four thousand messages the search for how many
    messages to keep ends by its own test: the last of them, repaired, fit the
    target, or only two are left. *)
Theorem purify_search_ends system nonSystem target :
  count nonSystem <= MAX_CHECKED ->
  let k := searchKeep numText (length nonSystem) system nonSystem target (count nonSystem) in
  k <= 2 \/ estimateMessages numText (candidate system nonSystem k) <= target.
Proof. intros H. apply searchKeep_spec; [unfold count; lia|done]. Qed.

(** ** Dropping keeps calls answered *)

Lemma stringIds_sub ms ms' : sublist ms' ms -> stringIds ms -> stringIds ms'.
Proof. unfold stringIds. rewrite !Forall_forall. intros Hsub Hall m Hm. apply Hall. by eapply elem_of_sublist. Qed.

Lemma stringIds_app a b : stringIds a -> stringIds b -> stringIds (a ++ b).
Proof. intros. by apply Forall_app. Qed.

Lemma lastOf_sublist {A} k (l : list A) : sublist (lastOf k l) l.
Proof. unfold lastOf. case_if; [done|apply sublist_drop]. Qed.

(** The system messages come first and a part of the rest follows. *)
Lemma split_stringIds messages k : stringIds messages ->
  stringIds (List.filter isSystem messages ++ lastOf k (List.filter (fun m => negb (isSystem m)) messages)).
Proof.
  intros H. apply stringIds_app; (eapply stringIds_sub; [|exact H]); [apply sublist_filter|].
  etrans; [apply lastOf_sublist|apply sublist_filter].
Qed.

Lemma noticed_results first v : isSystem first = true -> callIds (mset "content" v first) = [] /\ callIds first = [] /\
  resultIds first = [].
Proof.
  intros H. assert (roleIs "assistant" first = false /\ roleIs "user" first = false /\ roleIs "tool" first = false) as (Ha & Hu & Ht).
  { unfold isSystem in H. apply orb_true_iff in H as [H|H]; split_and!; by eapply role_unique. }
  unfold callIds, resultIds. rewrite Ha, Hu, Ht. split_and!; [|done|done].
  assert (roleIs "assistant" (mset "content" v first) = false) as ->; [|done].
  unfold roleIs, isString. by rewrite mget_mset_ne.
Qed.

(** Every call is answered by the next message. *)
Definition allAnswered (out : list Message) : Prop :=
  forall i m c, out !! i = Some m -> c ∈ callIds m -> exists m', out !! S i = Some m' /\ c ∈ resultIds m'.

Lemma addNotice_answered result : allAnswered result -> allAnswered (addNotice result).
Proof.
  intros H i m c Hi Hc.
  assert (forall first first' rest, callIds first' = [] -> result = first :: rest -> (first' :: rest) !! i = Some m ->
    exists m', (first' :: rest) !! S i = Some m' /\ c ∈ resultIds m') as Hhead.
  { intros first first' rest Hn E Hl. destruct i as [|i]; cbn in Hl.
    - simplify_eq. rewrite Hn in Hc. by apply not_elem_of_nil in Hc.
    - subst result. apply (H (S i) m c Hl Hc). }
  unfold addNotice in *. destruct result as [|first rest].
  - destruct i; [|done]. cbn in Hi. simplify_eq. by apply not_elem_of_nil in Hc.
  - destruct (isSystem first) eqn:Es.
    + destruct (mget "content" first) as [[| | | | |]|]; (eapply Hhead; [|done|done]); exact (proj1 (noticed_results first _ Es)).
    + destruct i as [|i]; cbn in Hi; [simplify_eq; by apply not_elem_of_nil in Hc|]. exact (H i m c Hi Hc).
Qed.

Lemma buildPurified_answered system nonSystem keep :
  stringIds (system ++ lastOf keep nonSystem) -> allAnswered (buildPurified numText system nonSystem keep).
Proof.
  intros Hs. assert (allAnswered (repairChatMessages numText (system ++ lastOf keep nonSystem))) as H.
  { intros i m c Hi Hc. destruct (strip_answers _ i m c (repair_adjOk numText _ Hs) Hi Hc) as (m' & ? & ? & _). eauto. }
  unfold buildPurified. case_if; [by apply addNotice_answered|done].
Qed.

(** C27. However many messages are dropped, afresh or at the remembered place, every
    tool call left in the conversation is answered by the very next message. *)
Theorem purified_calls_answered digest messages target key now s i m c :
  stringIds messages ->
  let out := (purifyHistory numText digest messages target key now s).2 in
  out !! i = Some m -> c ∈ callIds m -> exists m', out !! S i = Some m' /\ c ∈ resultIds m'.
Proof.
  intros Hs out. subst out. unfold purifyHistory. cbv zeta.
  destruct (match (match key with Some k => if isEmpty k then None else Some k | None => None end) with
            | Some k => readPurifyAnchor k now s | None => (s, None) end) as [s1 anchored].
  match goal with |- context [match ?q with Some r => (s1, r) | None => _ end] => destruct q as [r|] eqn:E end; cbn [snd].
  - destruct anchored as [d|]; [|done]. destruct (findIndex _ _) as [index|]; [|done]. case_if_in E; [|done]. injection E as <-.
    apply buildPurified_answered. by apply split_stringIds.
  - apply buildPurified_answered. by apply split_stringIds.
Qed.
End Search.

(** ** Witnesses *)

Definition exImage (data : string) : json := VObj [("type", VStr "image_url"); ("image_url", VObj [("url", VStr ("data:image/png;base64," +:+ data))])].
Definition exShots : list Message :=
  [[("role", VStr "user"); ("content", VArr [exImage "AAAA"; VObj [("type", VStr "text"); ("text", VStr "first")]])];
   [("role", VStr "user"); ("content", VArr [exImage "BBBB"; exImage "CCCC"])]].

Lemma prune_keeps_newest_witness :
  let r := pruneOlderInlineImages noNumber exShots (Some 1) None None in
  locations r.1 = drop (Z.to_nat r.2) (locations exShots) /\ 1 <= count (locations r.1) /\
  (count (locations r.1) = 1 \/ exists t, None = Some t /\ estimateMessages noNumber r.1 <= t).
Proof.
  refine (prune_keeps_newest noNumber exShots 1 None None _ _ _ _ eq_refl); [lia|].
  apply Z.leb_le. vm_compute. reflexivity.
Defined.

Lemma purify_search_ends_witness :
  let k := searchKeep noNumber 5 [] exCut 100 5 in
  k <= 2 \/ estimateMessages noNumber (candidate noNumber [] exCut k) <= 100.
Proof. refine (purify_search_ends noNumber [] exCut 100 _). apply Z.leb_le. vm_compute. reflexivity. Defined.

(** Two system lines and a cut exchange, with room for very little. *)
Definition exLong : list Message := say "system" "be brief" :: exCut.

Lemma purified_calls_answered_witness :
  exists m', (purifyHistory noNumber (fun _ => "d") exLong 60 None 0 []).2 !! 2%nat = Some m' /\ VStr "t1" ∈ resultIds m'.
Proof.
  refine (purified_calls_answered noNumber (fun _ => "d") exLong 60 None 0 [] 1 (uses ["t1"]) (VStr "t1") _ _ _).
  - repeat constructor; try (by eexists).
  - vm_compute. reflexivity.
  - change (VStr "t1" ∈ [VStr "t1"]). by left.
Defined.
