(* ===== verification/XaiCap.v ===== *)
(** * The cap on a chat history: [open-sse/services/xaiMessageCap.ts]

    One vendor refuses histories of more than 800 items.  The newest items are
    kept and what the cut orphaned is repaired, with [ToolPairs] for chat messages
    and with a rule of its own for the flat items of the Responses format.  Items
    are JSON objects; the model returns a new list where the code may return the
    same array. *)
From Stdlib Require Import String QArith_base.
From S2P Require Import Prelude JsMap ComboSteps ToolPairs ContextManager.
#[local] Open Scope string_scope.
#[local] Open Scope Z_scope.
#[local] Open Scope list_scope.

Definition XAI_CHAT_HISTORY_LIMIT : Z := 800.

Definition isSystemRole (item : Message) : bool := roleIs "system" item || roleIs "developer" item.

Section Cap.
Context (numText : Q -> string).

Definition capXaiChatMessages (messages : list Message) (limit : Z) : list Message :=
  if count messages <=? limit then messages
  else
    let system := List.filter isSystemRole messages in
    let nonSystem := List.filter (fun item => negb (isSystemRole item)) messages in
    let budget := Z.max 2 (limit - count system) in
    let result := repairChatMessages numText (system ++ lastOf budget nonSystem) in
    if count result >? limit then repairChatMessages numText (lastOf limit result) else result.

(** The index of the last user item, or minus one. *)
Definition lastUserIndex (items : list Message) : Z :=
  match last (concat (imap (fun i m => if roleIs "user" m then [Z.of_nat i] else []) items)) with Some i => i | None => -1 end.

Definition callIdOf (type : string) (item : Message) : option string :=
  match mget "call_id" item with
  | Some (VStr id) => if isString "type" type item then Some id else None
  | _ => None
  end.

Definition hasCallId (ids : list string) (item : Message) : bool :=
  match mget "call_id" item with Some (VStr id) => existsb (String.eqb id) ids | _ => false end.

Definition repairXaiResponsesInput (items : list Message) : list Message :=
  let calls := omap (callIdOf "function_call") items in
  let outputs := omap (callIdOf "function_call_output") items in
  let lastUser := lastUserIndex items in
  concat (imap (fun idx item =>
    if (if isString "type" "function_call_output" item then hasCallId calls item
        else if isString "type" "function_call" item then
          if hasCallId outputs item then true else (lastUser <? 0) || (Z.of_nat idx >? lastUser)
        else true)
    then [item] else []) items).

Definition capXaiResponsesInput (input : list Message) (limit : Z) : list Message :=
  if count input <=? limit then input
  else
    let result := repairXaiResponsesInput (lastOf limit input) in
    if count result >? limit then repairXaiResponsesInput (lastOf limit result) else result.

Definition messagesOf (v : json) : option (list Message) :=
  match v with
  | VArr l => mapM (fun x => match x with VObj fs => Some fs | _ => None end) l
  | _ => None
  end.

(** The body, an object whose arrays hold objects. *)
Definition capXaiRequestHistory (body : Message) : Message :=
  let next := match mget "messages" body ≫= messagesOf with
              | Some ms => mset "messages" (VArr (map VObj (capXaiChatMessages ms XAI_CHAT_HISTORY_LIMIT))) body
              | None => body
              end in
  match mget "input" body ≫= messagesOf with
  | Some items => mset "input" (VArr (map VObj (capXaiResponsesInput items XAI_CHAT_HISTORY_LIMIT))) next
  | None => next
  end.

(** ** No longer than the limit *)

Lemma omap_length {A B} (f : A -> option B) l : (length (omap f l) <= length l)%nat.
Proof. induction l as [|x l IH]; cbn; [done|]. destruct (f x); cbn; lia. Qed.

Lemma pass2_length rs ms : length (pass2 rs ms) = length ms.
Proof.
  induction ms as [|m ms IH]; [done|]. destruct (decide (ms = [])) as [->|H]; [done|]. rewrite pass2_cons by done. cbn. by rewrite IH.
Qed.

Lemma pairs_length ms : (length (fixToolPairs ms) <= length ms)%nat.
Proof. unfold fixToolPairs. etrans; [apply omap_length|]. by rewrite pass2_length. Qed.

Lemma adjacency_length ms : (length (fixToolAdjacency numText ms) <= length ms)%nat.
Proof.
  unfold fixToolAdjacency. case_if; [done|]. clear. induction ms as [|m ms IH]; [done|]. destruct ms as [|next rest]; [done|].
  rewrite adjacencyLoop_cons, length_app. set (L := adjacencyLoop numText (next :: rest)) in *. change (length (m :: next :: rest)) with (S (length (next :: rest))).
  enough (length (if roleIs "assistant" m then option_list (adjacent numText m next) else [m]) <= 1)%nat by lia.
  destruct (roleIs "assistant" m); [|done]. destruct (adjacent numText m next); simpl; lia.
Qed.

Lemma strip_length ms : (length (stripTrailingAssistantOrphanToolUse ms) <= length ms)%nat.
Proof.
  destruct (strip_spec ms) as [[-> ->]|(l & m & o & -> & -> & _)]; [done|]. rewrite !length_app. destruct o; cbn; lia.
Qed.

Lemma repair_length ms : (length (repairChatMessages numText ms) <= length ms)%nat.
Proof. unfold repairChatMessages. etrans; [apply strip_length|]. etrans; [apply pairs_length|]. etrans; [apply adjacency_length|apply pairs_length]. Qed.

Lemma lastOf_length {A} k (l : list A) : 0 < k -> count (lastOf k l) <= k.
Proof. intros H. unfold lastOf, count. rewrite (proj2 (Z.eqb_neq _ _)) by lia. rewrite length_drop. lia. Qed.

Lemma imap_filter_length {A} (f : nat -> A -> bool) l : (length (concat (imap (fun i x => if f i x then [x] else []) l)) <= length l)%nat.
Proof.
  revert f. induction l as [|x l IH]; intros f; cbn [imap concat]; [done|]. rewrite length_app. cbn [length].
  specialize (IH (fun i => f (S i))). unfold compose in *. destruct (f 0%nat x); cbn [length]; lia.
Qed.

Lemma repairResponses_length items : (length (repairXaiResponsesInput items) <= length items)%nat.
Proof. unfold repairXaiResponsesInput. apply (imap_filter_length (fun idx item => _)). Qed.

(** A capped history, of messages or of Responses items, is never longer than
    the limit. *)
Theorem xai_cap_bound messages items limit : 0 < limit ->
  count (capXaiChatMessages messages limit) <= limit /\ count (capXaiResponsesInput items limit) <= limit.
Proof.
  intros Hl. split.
  - unfold capXaiChatMessages. case_if; to_prop; [done|]. cbv zeta. case_if; to_prop; [|done].
    match goal with |- count (repairChatMessages _ ?x) <= _ => pose proof (repair_length x); pose proof (lastOf_length limit (repairChatMessages numText
      (List.filter isSystemRole messages ++ lastOf (Z.max 2 (limit - count (List.filter isSystemRole messages)))
        (List.filter (fun item => negb (isSystemRole item)) messages))) Hl) end. unfold count in *. lia.
  - unfold capXaiResponsesInput. case_if; to_prop; [done|]. cbv zeta. case_if; to_prop; [|done].
    match goal with |- count (repairXaiResponsesInput ?x) <= _ => pose proof (repairResponses_length x) end.
    pose proof (lastOf_length limit (repairXaiResponsesInput (lastOf limit items)) Hl). unfold count in *. lia.
Qed.

Lemma stringIds_cap messages limit : stringIds messages ->
  stringIds (List.filter isSystemRole messages ++ lastOf limit (List.filter (fun item => negb (isSystemRole item)) messages)).
Proof. exact (split_stringIds messages limit). Qed.
End Cap.

Lemma xai_cap_bound_witness :
  count (capXaiChatMessages noNumber exCut 3) <= 3 /\ count (capXaiResponsesInput exCut 3) <= 3.
Proof. refine (xai_cap_bound noNumber exCut exCut 3 _). lia. Defined.

(** Parallel calls of a chat history over the limit lose all results but the first. *)
Lemma xai_parallel_calls_lost :
  capXaiChatMessages noNumber [say "user" "hi"; say "user" "weather?"; calls ["rome"; "oslo"]; toolMessage "rome" "sunny"; toolMessage "oslo" "snow";
                               say "user" "thanks"] 5
  = [say "user" "weather?"; calls ["rome"]; toolMessage "rome" "sunny"; say "user" "thanks"].
Proof. reflexivity. Qed.
