(* ===== verification/ResourcePressure.v ===== *)
(** * Resource pressure: [open-sse/utils/resourcePressurePolicy.ts]

    Samples of heap, cgroup memory and pressure-stall figures are classified as
    normal, high or critical, and a tracker with hysteresis turns the samples into
    the state that load shedding reads: it rises after enough equal samples in a
    row, at once on an out-of-memory event, and falls after enough recovered ones.
    Byte counts are integers, ratios and averages doubles.  [psiDisabled] is the
    operator's setting, read from the environment at each use. *)
From Stdlib Require Import String.
From S2P Require Import Prelude JsNumber JsString.
#[local] Open Scope string_scope.
#[local] Open Scope Z_scope.
#[local] Open Scope list_scope.

Definition MB : Z := 1024 * 1024.
Definition MAX_SUSTAINED_SAMPLES : Z := 10000.

Inductive PressureSeverity := normal | high | critical.
Inductive PressureReason := none | v8_heap_ratio | v8_heap_absolute | cgroup_ratio | cgroup_high | psi_some | psi_full | oom_event.

#[export] Instance PressureSeverity_eq_dec : EqDecision PressureSeverity.
Proof. solve_decision. Defined.
#[export] Instance PressureReason_eq_dec : EqDecision PressureReason.
Proof. solve_decision. Defined.

(** ** Signals and thresholds *)

Record Events := mkEvents { ev_high : option Z; ev_max : option Z; ev_oom : option Z; ev_oom_kill : option Z }.

Record Psi := mkPsi { someAvg10 : option double; fullAvg10 : option double; psiCgroup : bool }.

Record ResourceSignals := mkSignals {
  observedAt : Z;
  heapUsedBytes : Z;
  heapLimitBytes : Z;
  currentBytes : option Z;
  maxBytes : option Z;
  highBytes : option Z;
  fileBytes : option Z;
  events : option Events;
  psi : option Psi
}.

Record ResourcePressureState := mkState {
  severity : PressureSeverity;
  reason : PressureReason;
  elevatedStreak : Z;
  recoveryStreak : Z;
  lastTransitionAtMs : Z;
  observedAtMs : Z
}.

Record ResourcePressureThresholds := mkThresholds {
  highRatio : double;
  criticalRatio : double;
  recoveryRatio : double;
  highPsiAvg10 : double;
  criticalPsiAvg10 : double;
  recoveryPsiAvg10 : double;
  sustainedSamplesHigh : double;
  sustainedSamplesCritical : double;
  sustainedSamplesRecovery : double;
  heapAbsoluteThresholdMb : option double
}.

Definition DEFAULT_RESOURCE_PRESSURE_THRESHOLDS : ResourcePressureThresholds :=
  mkThresholds (dec 85 100) (dec 92 100) (dec 75 100) (dOfZ 30) (dOfZ 60) (dOfZ 15) (dOfZ 2) (dOfZ 2) (dOfZ 1) None.

(** The setting, from the text of the environment variable. *)
Definition psiPressureDisabled (env : option string) : bool :=
  match env with
  | Some raw => existsb (String.eqb (toLowerCase (trim raw))) ["1"; "true"; "yes"; "on"]
  | None => false
  end.

(** ** Checks of the thresholds *)

Definition requireFiniteRange (name : string) (value minimum maximum : double) : throws unit :=
  if negb (dFinite value) || dLt value minimum || dLt maximum value then RangeError (name +:+ " must be finite and within its range")
  else Ret tt.

Definition requirePositiveInteger (name : string) (value : double) : throws unit :=
  match dInteger value with
  | Some z => if (z <? 1) || (z >? MAX_SUSTAINED_SAMPLES) then RangeError (name +:+ " must be an integer between 1 and 10000") else Ret tt
  | None => RangeError (name +:+ " must be an integer between 1 and 10000")
  end.

(** The defaults with the options of the caller already written over them. *)
Definition resolveResourcePressureThresholds (resolved : ResourcePressureThresholds) : throws ResourcePressureThresholds :=
  _ ← requireFiniteRange "recoveryRatio" (recoveryRatio resolved) dZero dOne;
  _ ← requireFiniteRange "highRatio" (highRatio resolved) dZero dOne;
  _ ← requireFiniteRange "criticalRatio" (criticalRatio resolved) dZero dOne;
  _ ← (if dLt (recoveryRatio resolved) (highRatio resolved) && dLt (highRatio resolved) (criticalRatio resolved) then Ret tt
       else RangeError "ratio thresholds must satisfy recovery < high < critical");
  _ ← requireFiniteRange "recoveryPsiAvg10" (recoveryPsiAvg10 resolved) dZero (dOfZ 100);
  _ ← requireFiniteRange "highPsiAvg10" (highPsiAvg10 resolved) dZero (dOfZ 100);
  _ ← requireFiniteRange "criticalPsiAvg10" (criticalPsiAvg10 resolved) dZero (dOfZ 100);
  _ ← (if dLt (recoveryPsiAvg10 resolved) (highPsiAvg10 resolved) && dLt (highPsiAvg10 resolved) (criticalPsiAvg10 resolved) then Ret tt
       else RangeError "PSI thresholds must satisfy recovery < high < critical");
  _ ← requirePositiveInteger "sustainedSamplesHigh" (sustainedSamplesHigh resolved);
  _ ← requirePositiveInteger "sustainedSamplesCritical" (sustainedSamplesCritical resolved);
  _ ← requirePositiveInteger "sustainedSamplesRecovery" (sustainedSamplesRecovery resolved);
  match heapAbsoluteThresholdMb resolved with
  | Some m => if negb (dFinite m) || dLe m dZero then RangeError "heapAbsoluteThresholdMb must be positive and finite or null" else Ret resolved
  | None => Ret resolved
  end.

(** ** Classification of one sample *)

Record RawLevel := mkLevel { l_severity : PressureSeverity; l_reason : PressureReason }.

#[export] Instance RawLevel_eq_dec : EqDecision RawLevel.
Proof. solve_decision. Defined.

Definition severityRank (s : PressureSeverity) : Z := match s with critical => 2 | high => 1 | normal => 0 end.

Definition maxLevel (current : RawLevel) (candidate : option RawLevel) : RawLevel :=
  match candidate with
  | Some c => if severityRank (l_severity c) <=? severityRank (l_severity current) then current else c
  | None => current
  end.

Definition ratio (used limit : Z) : double := dDiv (dOfZ used) (dOfZ limit).

Definition ratioLevel (used limit : option Z) (t : ResourcePressureThresholds) (why : PressureReason) : option RawLevel :=
  match used, limit with
  | Some u, Some l =>
      if (u <? 0) || (l <=? 0) then None
      else if dLe (criticalRatio t) (ratio u l) then Some (mkLevel critical why)
      else if dLe (highRatio t) (ratio u l) then Some (mkLevel high why)
      else None
  | _, _ => None
  end.

Definition psiLevel (value : option double) (t : ResourcePressureThresholds) (why : PressureReason) : option RawLevel :=
  match value with
  | Some v =>
      if negb (dFinite v) then None
      else if dLe (criticalPsiAvg10 t) v then Some (mkLevel critical why)
      else if dLe (highPsiAvg10 t) v then Some (mkLevel high why)
      else None
  | None => None
  end.

(** Two counters read at two times. *)
Definition increased (previous current : option Z) : bool :=
  match previous, current with Some p, Some c => c >? p | _, _ => false end.

Record ThrottleCounters := mkThrottle { t_high : option Z; t_max : option Z }.
Record OomCounters := mkOom { c_oom : option Z; c_oomKill : option Z }.

Definition hasCounterIncreaseGeneric (p c : ThrottleCounters) : bool := increased (t_high p) (t_high c) || increased (t_max p) (t_max c).
Definition throttleCountersReset (p c : ThrottleCounters) : bool := increased (t_high c) (t_high p) || increased (t_max c) (t_max p).
Definition hasCounterIncrease (p c : OomCounters) : bool := increased (c_oom p) (c_oom c) || increased (c_oomKill p) (c_oomKill c).
Definition countersReset (p c : OomCounters) : bool := increased (c_oom c) (c_oom p) || increased (c_oomKill c) (c_oomKill p).

Definition above (d : double) (v : option double) : bool := match v with Some x => dLt d x | None => false end.

Section Policy.
Context (psiDisabled : bool) (t : ResourcePressureThresholds).

(** [None] when there is nothing to tell by. *)
Definition hasKernelThrottleProof (s : ResourceSignals) (previousEvents : option ThrottleCounters) : option bool :=
  let psiAboveZero := match psi s with Some p => above dZero (someAvg10 p) || above dZero (fullAvg10 p) | None => false end in
  let cgroupPsi := match psi s with Some p => psiCgroup p | None => false end in
  match events s with
  | None =>
      match psi s with
      | None => None
      | Some _ => if psiDisabled then None else Some psiAboveZero
      end
  | Some e =>
      let current := mkThrottle (ev_high e) (ev_max e) in
      match previousEvents with
      | Some p =>
          if throttleCountersReset p current then Some false
          else if hasCounterIncreaseGeneric p current then Some true
          else match psi s with
               | None => Some false
               | Some _ => if psiDisabled then Some false else Some (cgroupPsi && psiAboveZero)
               end
      | None =>
          match psi s with
          | None => match ev_high e, ev_max e with None, None => None | _, _ => Some false end
          | Some _ => if psiDisabled then Some false else Some (psiAboveZero && cgroupPsi)
          end
      end
  end.

(** The charge of the cgroup without its file cache. *)
Definition workingSetBytes (s : ResourceSignals) : option Z :=
  match currentBytes s with
  | None => None
  | Some c =>
      match fileBytes s with
      | Some f => if f <=? 0 then Some c else if f >? c then Some c else Some (c - f)
      | None => Some c
      end
  end.

Definition cgroupHighLevel (s : ResourceSignals) : option RawLevel :=
  match ratioLevel (currentBytes s) (highBytes s) t cgroup_high with
  | Some (mkLevel critical _) => Some (mkLevel high cgroup_high)
  | l => l
  end.

Definition psiOf (f : Psi -> option double) (s : ResourceSignals) : option double := match psi s with Some p => f p | None => None end.

Definition withPsi (s : ResourceSignals) (best : RawLevel) : RawLevel :=
  if psiDisabled then best
  else maxLevel (maxLevel best (psiLevel (psiOf someAvg10 s) t psi_some)) (psiLevel (psiOf fullAvg10 s) t psi_full).

Definition classifyAdaptiveResourcePressure (s : ResourceSignals) : RawLevel :=
  let best := mkLevel normal none in
  let best := maxLevel best (ratioLevel (Some (heapUsedBytes s)) (Some (heapLimitBytes s)) t v8_heap_ratio) in
  let best := maxLevel best (ratioLevel (workingSetBytes s) (maxBytes s) t cgroup_ratio) in
  let best := maxLevel best (cgroupHighLevel s) in
  withPsi s best.

Definition classifyAdaptiveResourcePressureWithHistory (s : ResourceSignals) (previousEvents : option ThrottleCounters) : RawLevel :=
  let best := mkLevel normal none in
  let best := maxLevel best (ratioLevel (Some (heapUsedBytes s)) (Some (heapLimitBytes s)) t v8_heap_ratio) in
  let best := maxLevel best (ratioLevel (workingSetBytes s) (maxBytes s) t cgroup_ratio) in
  let highRatio := ratioLevel (currentBytes s) (highBytes s) t cgroup_high in
  let best :=
    match highRatio with
    | Some (mkLevel critical _) =>
        maxLevel best (if bool_decide (hasKernelThrottleProof s previousEvents = Some false) then Some (mkLevel high cgroup_high) else highRatio)
    | _ => maxLevel best highRatio
    end in
  withPsi s best.

Definition overRecovery (used limit : option Z) : bool :=
  match used, limit with
  | Some u, Some l => (l >? 0) && dLt (recoveryRatio t) (ratio u l)
  | _, _ => false
  end.

Definition isRecovered (s : ResourceSignals) : bool :=
  if overRecovery (Some (heapUsedBytes s)) (Some (heapLimitBytes s)) || overRecovery (workingSetBytes s) (maxBytes s)
     || overRecovery (currentBytes s) (highBytes s) then false
  else if (match heapAbsoluteThresholdMb t with
           | Some m => dLt (dMul m (recoveryRatio t)) (dDiv (dOfZ (heapUsedBytes s)) (dOfZ MB))
           | None => false
           end) then false
  else if psiDisabled then true
  else negb (above (recoveryPsiAvg10 t) (psiOf someAvg10 s) || above (recoveryPsiAvg10 t) (psiOf fullAvg10 s)).

(** ** The tracker *)

Record Tracker := mkTracker {
  st : ResourcePressureState;
  pending : option RawLevel;
  previousOom : option OomCounters;
  previousEvents : option ThrottleCounters
}.

Definition initialState : ResourcePressureState := mkState normal none 0 0 0 0.

Definition createResourcePressureTracker : Tracker := mkTracker initialState None None None.

(** [a >= b] for a count and a threshold. *)
Definition reaches (streak : Z) (needed : double) : bool := dLe needed (dOfZ streak).

Definition oomCounters (s : ResourceSignals) : option OomCounters := (fun e => mkOom (ev_oom e) (ev_oom_kill e)) <$> events s.
Definition throttleCounters (s : ResourceSignals) : option ThrottleCounters := (fun e => mkThrottle (ev_high e) (ev_max e)) <$> events s.

Definition oomHappened (k : Tracker) (s : ResourceSignals) : bool :=
  match oomCounters s, previousOom k with
  | Some c, Some p => negb (countersReset p c) && hasCounterIncrease p c
  | _, _ => false
  end.

(** The events the classification compares with; a reset starts afresh. *)
Definition comparedEvents (k : Tracker) (s : ResourceSignals) : option ThrottleCounters :=
  match previousEvents k, throttleCounters s with
  | Some p, Some c => if throttleCountersReset p c then Some c else Some p
  | p, _ => p
  end.

Definition rawOf (k : Tracker) (s : ResourceSignals) : RawLevel :=
  if oomHappened k s then mkLevel critical oom_event
  else classifyAdaptiveResourcePressureWithHistory s (comparedEvents k s).

(** The new severity, reason, streaks and pending level. *)
Definition transition (k : Tracker) (s : ResourceSignals)
    : PressureSeverity * PressureReason * Z * Z * option RawLevel :=
  let raw := rawOf k s in
  let sev := severity (st k) in
  let why := reason (st k) in
  if oomHappened k s then (critical, oom_event, 0, 0, None)
  else if bool_decide (sev = normal) then
    if bool_decide (l_severity raw = normal) then (normal, none, 0, 0, None)
    else
      let streak := if bool_decide (pending k = Some raw) then elevatedStreak (st k) + 1 else 1 in
      let needed := if bool_decide (l_severity raw = critical) then sustainedSamplesCritical t else sustainedSamplesHigh t in
      if reaches streak needed then (l_severity raw, l_reason raw, 0, 0, None)
      else (normal, why, streak, 0, Some raw)
  else if bool_decide (sev = high) && bool_decide (l_severity raw = critical) then
    let streak := if bool_decide (pending k = Some raw) then elevatedStreak (st k) + 1 else 1 in
    if reaches streak (sustainedSamplesCritical t) then (critical, l_reason raw, 0, 0, None)
    else (high, why, streak, 0, Some raw)
  else if bool_decide (l_severity raw = sev) then (sev, l_reason raw, 0, 0, None)
  else if isRecovered s then
    let streak := recoveryStreak (st k) + 1 in
    if reaches streak (sustainedSamplesRecovery t) then (normal, none, 0, 0, None)
    else (sev, why, 0, streak, None)
  else (sev, why, 0, 0, None).

Definition observe (k : Tracker) (s : ResourceSignals) : Tracker :=
  let '(sev, why, elevated, recovery, pend) := transition k s in
  let transitioned := negb (bool_decide (sev = severity (st k))) || negb (bool_decide (why = reason (st k))) in
  mkTracker
    (mkState sev why elevated recovery (if transitioned then observedAt s else lastTransitionAtMs (st k)) (observedAt s))
    pend (oomCounters s) (throttleCounters s).

Definition getState (k : Tracker) : ResourcePressureState := st k.
End Policy.

(** ** Hysteresis *)

Section Hysteresis.
Context (psiDisabled : bool) (t : ResourcePressureThresholds).
Notation obs := (observe psiDisabled t).
Notation raw := (rawOf psiDisabled t).
Notation recovered := (isRecovered psiDisabled t).

(** What each sample was classified as, and whether it had recovered. *)
Fixpoint seen (k : Tracker) (l : list ResourceSignals) : list (RawLevel * bool) :=
  match l with
  | [] => []
  | s :: l => (raw k s, recovered s) :: seen (obs k s) l
  end.

Definition track (l : list ResourceSignals) : Tracker := foldl obs createResourcePressureTracker l.
Definition history (l : list ResourceSignals) : list (RawLevel * bool) := seen createResourcePressureTracker l.

Lemma seen_snoc k l s : seen k (l ++ [s]) = seen k l ++ [(raw (foldl obs k l) s, recovered s)].
Proof. revert k. induction l as [|x l IH]; intros k; cbn; [done|]. by rewrite IH. Qed.

Lemma history_snoc l s : history (l ++ [s]) = history l ++ [(raw (track l) s, recovered s)].
Proof. apply seen_snoc. Qed.

Lemma track_snoc l s : track (l ++ [s]) = obs (track l) s.
Proof. unfold track. by rewrite foldl_app. Qed.

(** The last [n] samples satisfy [P]. *)
Definition lately {A} (n : Z) (P : A -> Prop) (l : list A) : Prop :=
  exists pre post, l = pre ++ post /\ Z.of_nat (length post) = n /\ Forall P post.

Lemma lately_0 {A} (P : A -> Prop) l : lately 0 P l.
Proof. exists l, []. by rewrite app_nil_r. Qed.

Lemma lately_snoc {A} n (P : A -> Prop) l x : lately n P l -> P x -> lately (n + 1) P (l ++ [x]).
Proof.
  intros (pre & post & -> & Hn & Hp) Hx. exists pre, (post ++ [x]). rewrite app_assoc, length_app. cbn.
  split_and!; [done|lia|]. apply Forall_app. split; [done|by repeat constructor].
Qed.

Lemma lately_1 {A} (P : A -> Prop) l x : P x -> lately 1 P (l ++ [x]).
Proof. intros H. apply (lately_snoc 0); [apply lately_0|done]. Qed.

Definition isLevel (l : RawLevel) (x : RawLevel * bool) : Prop := x.1 = l.
Definition isClear (x : RawLevel * bool) : Prop := x.2 = true.

(** The streaks count what they say. *)
Record StreaksOk (k : Tracker) (h : list (RawLevel * bool)) : Prop := mkStreaks {
  so_pending : forall l, pending k = Some l -> lately (elevatedStreak (st k)) (isLevel l) h;
  so_recovery : lately (recoveryStreak (st k)) isClear h
}.

(** How a sample may move the severity. *)
Definition moveOk (k : Tracker) (s : ResourceSignals) (h : list (RawLevel * bool)) : Prop :=
  let st' := st (obs k s) in
  let sev := severity (st k) in
  (severityRank sev < severityRank (severity st') -> ~ oomHappened k s ->
     exists n, reaches n (if bool_decide (severity st' = critical) then sustainedSamplesCritical t else sustainedSamplesHigh t) = true /\
       lately n (isLevel (mkLevel (severity st') (reason st'))) h) /\
  (severityRank (severity st') < severityRank sev ->
     severity st' = normal /\ exists n, reaches n (sustainedSamplesRecovery t) = true /\ lately n isClear h).

Lemma streak_lately k s h : StreaksOk k h ->
  lately (if bool_decide (pending k = Some (raw k s)) then elevatedStreak (st k) + 1 else 1)
    (isLevel (raw k s)) (h ++ [(raw k s, recovered s)]).
Proof.
  intros H. case_bool_decide as E; [|by apply lately_1]. apply lately_snoc; [|done]. by apply H.
Qed.

Lemma observe_ok k s h : StreaksOk k h -> let h' := h ++ [(raw k s, recovered s)] in
  StreaksOk (obs k s) h' /\ moveOk k s h'.
Proof.
  intros H h'. pose proof (streak_lately k s h H) as Hl. fold h' in Hl.
  unfold moveOk, observe. destruct (transition psiDisabled t k s) as [[[[sev why] elevated] recovery] pend] eqn:E.
  assert (forall l (n : Z), None = Some l -> lately n (isLevel l) h') as Hnone by done.
  cbn [st severity reason]. unfold transition in E. cbv zeta in E. destruct (oomHappened k s) eqn:Eo.
  { simplify_eq. split; [constructor; [done|apply lately_0]|]. split; [intros _ Hno; by destruct Hno|]. destruct (severity (st k)); cbn; lia. }
  case_bool_decide as E1.
  { rewrite E1. case_bool_decide as E2.
    - simplify_eq. split; [constructor; [done|apply lately_0]|]. split; cbn; lia.
    - match type of E with (if ?b then _ else _) = _ => destruct b eqn:Er end; simplify_eq.
      + split; [constructor; [done|apply lately_0]|]. split; [|destruct (l_severity (raw k s)); cbn; lia]. intros _ _.
        eexists. split; [exact Er|]. by destruct (raw k s).
      + split; [constructor; [by intros l [= <-]|apply lately_0]|]. split; cbn; lia. }
  destruct (bool_decide (severity (st k) = high) && bool_decide (l_severity (raw k s) = critical)) eqn:E3.
  { apply andb_true_iff in E3 as [E3 E4]. apply bool_decide_eq_true in E3, E4. rewrite E3.
    match type of E with (if ?b then _ else _) = _ => destruct b eqn:Er end; simplify_eq.
    - split; [constructor; [done|apply lately_0]|]. split; [|cbn; lia]. intros _ _. eexists. split; [exact Er|].
      rewrite <- E4. by destruct (raw k s).
    - split; [constructor; [by intros l [= <-]|apply lately_0]|]. split; cbn; lia. }
  case_bool_decide as E5.
  { simplify_eq. split; [constructor; [done|apply lately_0]|]. split; lia. }
  destruct (recovered s) eqn:Erec.
  - assert (lately (recoveryStreak (st k) + 1) isClear h') as Hrec by (apply lately_snoc; [apply H|done]).
    match type of E with (if ?b then _ else _) = _ => destruct b eqn:Er end; simplify_eq.
    + split; [constructor; [done|apply lately_0]|]. split; [destruct (severity (st k)); cbn; lia|]. intros _. split; [done|]. eauto.
    + split; [constructor; [done|done]|]. split; lia.
  - simplify_eq. split; [constructor; [done|apply lately_0]|]. split; lia.
Qed.

Lemma track_ok l : StreaksOk (track l) (history l).
Proof.
  induction l as [|s l IH] using rev_ind; [constructor; [done|apply lately_0]|].
  rewrite track_snoc, history_snoc. by apply observe_ok.
Qed.

(** C35. In every history of samples the severity rises only on an out-of-memory
    event or when as many samples in a row as the threshold asks were classified
    exactly as the new state says, and it falls only to normal, when as many
    samples in a row had recovered. *)
Theorem pressure_hysteresis l s : moveOk (track l) s (history (l ++ [s])).
Proof. rewrite history_snoc. apply (observe_ok _ s _ (track_ok l)). Qed.

(** A growing out-of-memory counter makes the state critical at once, and a raw
    total above memory.high never does so by itself: a critical level for that
    reason has the proof of the kernel, or nothing to disprove it. *)
Theorem critical_grounds k s :
  (oomHappened k s = true -> severity (st (obs k s)) = critical /\ reason (st (obs k s)) = oom_event) /\
  forall p, classifyAdaptiveResourcePressureWithHistory psiDisabled t s p = mkLevel critical cgroup_high ->
    hasKernelThrottleProof psiDisabled s p <> Some false.
Proof.
  split.
  - intros E. unfold observe, transition. rewrite E. done.
  - intros p H Hp. unfold classifyAdaptiveResourcePressureWithHistory in H. rewrite Hp in H. rewrite bool_decide_eq_true_2 in H by done.
    assert (forall b v why, why = psi_some \/ why = psi_full -> b <> mkLevel critical cgroup_high -> maxLevel b (psiLevel v t why) <> mkLevel critical cgroup_high) as Hpsi.
    { intros b v why Hw Hb. unfold maxLevel, psiLevel. destruct v as [v|]; [|done]. repeat case_if; destruct Hw; subst; done. }
    assert (forall b u l why, why <> cgroup_high -> b <> mkLevel critical cgroup_high -> maxLevel b (ratioLevel u l t why) <> mkLevel critical cgroup_high) as Hratio.
    { intros b u l why Hw Hb. unfold maxLevel, ratioLevel. destruct u as [u|], l as [l|]; try done. repeat case_if; congruence. }
    unfold withPsi in H. set (b1 := maxLevel (maxLevel (mkLevel normal none) (ratioLevel (Some (heapUsedBytes s)) (Some (heapLimitBytes s)) t v8_heap_ratio))
                   (ratioLevel (workingSetBytes s) (maxBytes s) t cgroup_ratio)) in H.
    assert (b1 <> mkLevel critical cgroup_high) as Hb1 by (apply Hratio; [done|]; by apply Hratio).
    assert (forall b, b <> mkLevel critical cgroup_high ->
      match ratioLevel (currentBytes s) (highBytes s) t cgroup_high with
      | Some (mkLevel critical _) => maxLevel b (Some (mkLevel high cgroup_high))
      | _ => maxLevel b (ratioLevel (currentBytes s) (highBytes s) t cgroup_high)
      end <> mkLevel critical cgroup_high) as Hh.
    { intros b Hb. destruct (ratioLevel (currentBytes s) (highBytes s) t cgroup_high) as [[[] w]|]; unfold maxLevel; try case_if; congruence. }
    specialize (Hh b1 Hb1). destruct psiDisabled; [done|]. revert H. apply Hpsi; [by right|]. apply Hpsi; [by left|done].
Qed.
End Hysteresis.

(** ** Thresholds *)

Definition within (lo hi v : double) : bool := dFinite v && negb (dLt v lo) && negb (dLt hi v).
Definition samplesOk (v : double) : bool := match dInteger v with Some z => (1 <=? z) && (z <=? MAX_SUSTAINED_SAMPLES) | None => false end.

Definition thresholdsOk (r : ResourcePressureThresholds) : bool :=
  within dZero dOne (recoveryRatio r) && within dZero dOne (highRatio r) && within dZero dOne (criticalRatio r) &&
  (dLt (recoveryRatio r) (highRatio r) && dLt (highRatio r) (criticalRatio r)) &&
  within dZero (dOfZ 100) (recoveryPsiAvg10 r) && within dZero (dOfZ 100) (highPsiAvg10 r) && within dZero (dOfZ 100) (criticalPsiAvg10 r) &&
  (dLt (recoveryPsiAvg10 r) (highPsiAvg10 r) && dLt (highPsiAvg10 r) (criticalPsiAvg10 r)) &&
  samplesOk (sustainedSamplesHigh r) && samplesOk (sustainedSamplesCritical r) && samplesOk (sustainedSamplesRecovery r) &&
  match heapAbsoluteThresholdMb r with Some m => dFinite m && negb (dLe m dZero) | None => true end.

(** A check passes silently or throws a RangeError. *)
Definition checks (c : throws unit) (b : bool) : Prop := if b then c = Ret tt else exists m, c = RangeError m.

Lemma range_checks name v lo hi : checks (requireFiniteRange name v lo hi) (within lo hi v).
Proof. unfold checks, requireFiniteRange, within. destruct (dFinite v), (dLt v lo), (dLt hi v); cbn; eauto. Qed.

Lemma integer_checks name v : checks (requirePositiveInteger name v) (samplesOk v).
Proof.
  unfold checks, requirePositiveInteger, samplesOk. destruct (dInteger v) as [z|]; [|eauto].
  destruct (Z.ltb_spec z 1), (Z.gtb_spec z MAX_SUSTAINED_SAMPLES), (Z.leb_spec 1 z), (Z.leb_spec z MAX_SUSTAINED_SAMPLES); try lia; cbn; eauto.
Qed.

Lemma test_checks (b : bool) m : checks (if b then Ret tt else RangeError m) b.
Proof. destruct b; cbn; eauto. Qed.

Lemma checks_bind {A} c b (k : throws A) (P : bool -> throws A -> Prop) b' :
  checks c b -> (forall m, P false (RangeError m)) -> P b' k -> P (b && b') (c ≫= fun _ => k).
Proof. destruct b; cbn; [intros ->; auto|]. intros (m & ->) H _. apply H. Qed.

(** Thresholds are accepted as they are exactly when every ratio and average is
    finite and in its range, recovery is below high and high below critical, the
    sample counts are integers between 1 and 10000 and the absolute limit is
    positive; any others throw a RangeError. *)
Theorem thresholds_checked r :
  if thresholdsOk r then resolveResourcePressureThresholds r = Ret r
  else exists m, resolveResourcePressureThresholds r = RangeError m.
Proof.
  unfold thresholdsOk, resolveResourcePressureThresholds. rewrite <- !andb_assoc.
  set (P := fun (b : bool) (c : throws ResourcePressureThresholds) => if b then c = Ret r else exists m, c = RangeError m).
  assert (forall m, P false (RangeError m)) as HP by (intros m; by exists m).
  match goal with |- if ?b then ?c = _ else _ => change (P b c) end.
  repeat (apply (checks_bind _ _ _ P); [apply range_checks|done|]).
  rewrite andb_assoc. apply (checks_bind _ _ _ P); [apply test_checks|done|].
  repeat (apply (checks_bind _ _ _ P); [apply range_checks|done|]).
  rewrite andb_assoc. apply (checks_bind _ _ _ P); [apply test_checks|done|].
  repeat (apply (checks_bind _ _ _ P); [apply integer_checks|done|]).
  unfold P. destruct (heapAbsoluteThresholdMb r) as [m|]; [|done]. destruct (dFinite m), (dLe m dZero); cbn; eauto.
Qed.

Example default_thresholds : thresholdsOk DEFAULT_RESOURCE_PRESSURE_THRESHOLDS = true.
Proof. vm_compute. reflexivity. Qed.

(** ** Runs and findings *)

Definition exSignals (used current : Z) : ResourceSignals :=
  mkSignals 1000 used 1000 (Some current) (Some 1000) None None None None.

(** Two critical samples in a row, then one that recovered. *)
Example pressure_run :
  map (fun n => severity (st (track false DEFAULT_RESOURCE_PRESSURE_THRESHOLDS (take n [exSignals 950 100; exSignals 960 100; exSignals 400 100]))))
    [0; 1; 2; 3]%nat = [normal; normal; critical; normal].
Proof. vm_compute. reflexivity. Qed.

(** Samples that are critical every time, now for the heap and now for the cgroup,
    never raise the state: a change of reason starts the count again. *)
Lemma alternating_reasons_missed :
  Forall (fun n => severity (st (track false DEFAULT_RESOURCE_PRESSURE_THRESHOLDS
      (take n (concat (repeat [exSignals 950 100; exSignals 100 950] 10))))) = normal) (List.seq 0 21).
Proof. apply (bool_decide_unpack _). vm_compute. exact I. Qed.
