(* ===== verification/ComboErrors.v ===== *)
(** * Failures of a combo's targets: [open-sse/services/combo/comboErrorAggregation.ts]

    One entry per failed target, the class of each, the status the combo answers
    with when every target failed, and the text it answers with, in which
    identifiers of connections are cut; with the tests on entries of
    [comboPredicates.ts] and [unavailableRetryGate.ts]. *)
From Stdlib Require Import String Ascii.
From S2P Require Import Prelude JsString RegExp.
#[local] Open Scope string_scope.
#[local] Open Scope Z_scope.
#[local] Open Scope list_scope.

Inductive ComboOutcomeKind := quality | auth | rate_limit | model | provider | timeout | skipped | upstream.

#[export] Instance ComboOutcomeKind_eq_dec : EqDecision ComboOutcomeKind.
Proof. solve_decision. Defined.

Record ComboErrorEntry := mkEntry { e_model : string; e_status : Z; e_error : string; e_kind : ComboOutcomeKind }.

Definition KIND_LABELS (k : ComboOutcomeKind) : string :=
  match k with
  | quality => "quality validation"
  | auth => "auth"
  | rate_limit => "rate limit"
  | model => "model"
  | provider => "provider"
  | timeout => "timeout"
  | skipped => "skipped"
  | upstream => "upstream"
  end.

(** ** The class of a failure *)

Definition anyOf (l : list re) : re := foldr Alt Void l.
Definition contains (r : re) : re := Seq anything (Seq r anything).

Definition authText : re :=
  contains (anyOf
    [ Seq (lit "invalid") (Seq (opt dot) (Seq (lit "api") (Seq (opt dot) (lit "key"))));
      lit "unauthorized";
      Seq (lit "not") (Seq (opt dot) (lit "authorized"));
      Seq (lit "auth") (opt (Alt (lit "entication") (lit "orization"))) ]).

Definition classifyComboOutcome (status : Z) (errorText : string) : ComboOutcomeKind :=
  if (status =? 401) || (status =? 403) || reTestI authText errorText then auth
  else if status =? 429 then rate_limit
  else if (status =? 408) || (status =? 499) then timeout
  else if status >=? 500 then provider
  else model.

(** ** The text *)

Definition isWordChar (c : ascii) : bool :=
  let n := N_of_ascii c in
  ((48 <=? n)%N && (n <=? 57)%N) || ((65 <=? n)%N && (n <=? 90)%N) || ((97 <=? n)%N && (n <=? 122)%N) || (n =? 95)%N.

Definition isHexChar (c : ascii) : bool :=
  let n := N_of_ascii c in
  ((48 <=? n)%N && (n <=? 57)%N) || ((65 <=? n)%N && (n <=? 70)%N) || ((97 <=? n)%N && (n <=? 102)%N).

#[local] Arguments isWordChar : simpl never.
#[local] Arguments isHexChar : simpl never.

Fixpoint allChars (f : ascii -> bool) (s : string) : bool :=
  match s with EmptyString => true | String c s => f c && allChars f s end.

(** The text as words and the characters between them: both patterns begin and end
    at a word boundary and hold no word character but hexadecimal digits, so each
    matches whole words. *)
Inductive token := Word (w : string) | Other (c : ascii).

Fixpoint tokens (s : string) : list token :=
  match s with
  | EmptyString => []
  | String c s =>
      if isWordChar c then
        match tokens s with
        | Word w :: ts => Word (String c w) :: ts
        | ts => Word (String c EmptyString) :: ts
        end
      else Other c :: tokens s
  end.

Definition tokenText (t : token) : string := match t with Word w => w | Other c => String c EmptyString end.
Definition textOf (ts : list token) : string := String.concat "" (map tokenText ts).

Definition isHex (w : string) : bool := allChars isHexChar w.
Definition hexOf (n : nat) (w : string) : bool := Nat.eqb (String.length w) n && isHex w.

Definition shortLabel (m : string) : list token :=
  [Word "conn"; Other ":"; Word (String.substring 0 8 m)].

(** The first replacement: the five words of a UUID. *)
Fixpoint cutUuids (ts : list token) : list token :=
  match ts with
  | (Word a :: Other "-" :: Word b :: Other "-" :: Word c :: Other "-" :: Word d :: Other "-" :: Word e :: rest) as all =>
      if hexOf 8 a && hexOf 4 b && hexOf 4 c && hexOf 4 d && hexOf 12 e then (shortLabel a ++ cutUuids rest)%list
      else match all with t :: ts => t :: cutUuids ts | [] => [] end
  | t :: ts => t :: cutUuids ts
  | [] => []
  end.

(** The second: words of sixteen hexadecimal digits or more. *)
Definition cutHashes (ts : list token) : list token :=
  List.concat (map (fun t => match t with
                             | Word w => if (16 <=? String.length w)%nat && isHex w then shortLabel w else [t]
                             | Other _ => [t]
                             end) ts).

Definition redactConnectionLabel (modelStr : option string) : string :=
  let label := match modelStr with Some s => if isEmpty s then "unknown" else s | None => "unknown" end in
  let first := textOf (cutUuids (tokens label)) in
  textOf (cutHashes (tokens first)).

Section Text.
(** The text of an integer. *)
Context (numText : Z -> string).

Definition more {A} (l : list A) (word : string) : string :=
  if (5 <? length l)%nat then "... (+" +:+ numText (Z.of_nat (length l) - 5) +:+ word +:+ ")" else "".

Definition buildRedactedSummary (entries : list ComboErrorEntry) : string :=
  join ", " (map (fun e => redactConnectionLabel (Some (e_model e)) +:+ " (" +:+ numText (e_status e) +:+ ")") (take 5 entries))
  +:+ more entries "".

Definition describe (redact : bool) (e : ComboErrorEntry) : string :=
  let cut s := if redact then redactConnectionLabel (Some s) else s in
  let rawReason := if isEmpty (e_error e) then "HTTP " +:+ numText (e_status e) else e_error e in
  cut (e_model e) +:+ ": " +:+ KIND_LABELS (e_kind e) +:+ " — " +:+ cut rawReason +:+ " (HTTP " +:+ numText (e_status e) +:+ ")".

Definition formatComboOutcomes (entries : list ComboErrorEntry) (redact : bool) : string :=
  match entries with
  | [] => ""
  | _ => join "; " (map (describe redact) (take 5 entries)) +:+ more entries " more"
  end.
End Text.

(** ** The status *)

Definition isKind (k : ComboOutcomeKind) (e : ComboErrorEntry) : bool := bool_decide (e_kind e = k).
Definition invalidRequest (e : ComboErrorEntry) : bool := isKind model e && (400 <=? e_status e) && (e_status e <? 500).

Definition distinctKinds (entries : list ComboErrorEntry) : list ComboOutcomeKind := remove_dups (map e_kind entries).

Definition resolveComboTerminalStatus (entries : list ComboErrorEntry) (fallbackStatus : Z) : Z :=
  match last entries with
  | None => fallbackStatus
  | Some e =>
      if forallb invalidRequest entries then e_status e
      else if Nat.eqb (length (distinctKinds entries)) 1 then e_status e
      else if existsb (isKind timeout) entries then 504 else 502
  end.

Definition IDENTICAL_MODEL_ERROR_STREAK : nat := 3.

Definition sameError (a b : ComboErrorEntry) : bool :=
  isKind (e_kind a) b && (e_status a =? e_status b) && String.eqb (e_error a) (e_error b).

Definition hasIdenticalModelErrorStreak (comboErrors : list ComboErrorEntry) (streak : nat) : bool :=
  if (length comboErrors <? streak)%nat then false
  else
    match drop (length comboErrors - streak) comboErrors with
    | first :: rest => isKind model first && forallb (sameError first) rest
    | [] => false
    end.

Definition isRetryAfterEligibleStatus (status : option Z) : bool :=
  match status with Some s => bool_decide (s ∈ [429; 503]) | None => false end.

Section ReplayKey.
(** The provider, its alias and the model that [parseModel] reads off. *)
Context (parseModel : string -> option string * option string * option string).

Definition nonEmpty (o : option string) : option string := match o with Some s => if isEmpty s then None else o | None => None end.

Definition requestScopedReplayKey (modelStr : string) : string :=
  let '(prov, providerAlias, parsed) := parseModel modelStr in
  let name := toLowerCase (orElse (nonEmpty parsed) modelStr) in
  let prov := toLowerCase (orElse (nonEmpty prov) (orElse (nonEmpty providerAlias) "")) in
  if negb (isEmpty prov) && negb (String.eqb prov "unknown") then prov +:+ "/" +:+ name else name.
End ReplayKey.

(** ** The status policy *)

Lemma last_in {A} (l : list A) x : last l = Some x -> x ∈ l.
Proof. rewrite last_lookup. apply list_elem_of_lookup_2. Qed.

Lemma distinctKinds_one entries e :
  e ∈ entries -> length (distinctKinds entries) = 1%nat <-> (forall a, a ∈ entries -> e_kind a = e_kind e).
Proof.
  intros He. unfold distinctKinds. assert (Hin : forall a, a ∈ entries -> e_kind a ∈ remove_dups (map e_kind entries)).
  { intros a Ha. apply elem_of_remove_dups. apply list_elem_of_fmap. eauto. }
  split.
  - intros H a Ha. destruct (remove_dups (map e_kind entries)) as [|k [|]]; try done.
    pose proof (Hin a Ha) as H1. pose proof (Hin e He) as H2. apply list_elem_of_singleton in H1, H2. congruence.
  - intros H. pose proof (NoDup_remove_dups (map e_kind entries)) as Hnd.
    assert (Hall : forall k, k ∈ remove_dups (map e_kind entries) -> k = e_kind e).
    { intros k Hk. apply elem_of_remove_dups, list_elem_of_fmap in Hk as (a & -> & Ha). by apply H. }
    pose proof (Hin e He) as Hne. destruct (remove_dups (map e_kind entries)) as [|k1 [|k2 l]]; [by apply not_elem_of_nil in Hne|done|].
    exfalso. apply NoDup_cons in Hnd as [Hnd _]. apply Hnd.
    rewrite (Hall k1) by (by left). rewrite (Hall k2) by (right; by left). by left.
Qed.

(** Of one class of failure, the status of the last entry; of several, 504 with a
    timeout among them, else 502. *)
Lemma terminal_status entries fallback e :
  last entries = Some e ->
  resolveComboTerminalStatus entries fallback =
    if decide (Forall (fun a => e_kind a = e_kind e) entries) then e_status e
    else if existsb (isKind timeout) entries then 504 else 502.
Proof.
  intros E. unfold resolveComboTerminalStatus. rewrite E.
  pose proof (distinctKinds_one entries e (last_in _ _ E)) as Hd. rewrite <- Forall_forall in Hd.
  destruct (forallb invalidRequest entries) eqn:Hi.
  - rewrite decide_True; [done|]. apply Forall_forall. intros a Ha. rewrite forallb_forall in Hi.
    pose proof (Hi a (proj1 (list_elem_of_In _ _) Ha)) as H1.
    pose proof (Hi e (proj1 (list_elem_of_In _ _) (last_in _ _ E))) as H2.
    unfold invalidRequest, isKind in H1, H2. apply andb_true_iff in H1 as [H1 _], H2 as [H2 _].
    apply andb_true_iff in H1 as [H1 _], H2 as [H2 _]. apply bool_decide_eq_true in H1, H2. congruence.
  - destruct (Nat.eqb_spec (length (distinctKinds entries)) 1).
    + by rewrite decide_True by tauto.
    + by rewrite decide_False by tauto.
Qed.

(** A combo blames the client, with a status between 400 and 499, only when
    every target failed for the same class of reason and the last of them with that
    very status; targets that failed for different reasons make a 502, or a 504 when
    a timeout is among them; the order of the targets decides nothing else. *)
Theorem client_blamed_uniformly entries fallback :
  entries <> [] ->
  exists e, last entries = Some e /\
  let status := resolveComboTerminalStatus entries fallback in
  (400 <= status < 500 -> status = e_status e /\ forall a, a ∈ entries -> e_kind a = e_kind e) /\
  ((exists a b, a ∈ entries /\ b ∈ entries /\ e_kind a <> e_kind b) ->
   status = if bool_decide (Exists (fun a => e_kind a = timeout) entries) then 504 else 502).
Proof.
  intros Hne. destruct (last entries) as [e|] eqn:E; [|by apply last_None in E].
  exists e. split; [done|]. cbv zeta. rewrite (terminal_status _ _ _ E).
  case_decide as H; split.
  - intros _. split; [done|]. by apply Forall_forall.
  - intros (a & b & Ha & Hb & Hab). rewrite Forall_forall in H. by rewrite (H a Ha), (H b Hb) in Hab.
  - destruct (existsb _ _); lia.
  - intros _. assert (Hx : existsb (isKind timeout) entries = bool_decide (Exists (fun a => e_kind a = timeout) entries));
      [|by rewrite Hx]. apply eq_true_iff_eq. rewrite existsb_exists, bool_decide_eq_true, Exists_exists.
    unfold isKind. setoid_rewrite bool_decide_eq_true. by setoid_rewrite list_elem_of_In.
Qed.

(** ** Redaction *)

Definition short (t : token) : bool :=
  match t with Word w => negb ((16 <=? String.length w)%nat && isHex w) | Other _ => true end.

(** Tokens that [tokens] can produce: words are not empty, made of word characters,
    and not next to each other; the others are no word characters. *)
Inductive tokenised : list token -> Prop :=
| tok_nil : tokenised []
| tok_other c ts : isWordChar c = false -> tokenised ts -> tokenised (Other c :: ts)
| tok_word w ts : w <> "" -> allChars isWordChar w = true -> match ts with Word _ :: _ => False | _ => True end ->
    tokenised ts -> tokenised (Word w :: ts).

Lemma tokens_tokenised s : tokenised (tokens s).
Proof.
  induction s as [|c s IH]; cbn [tokens]; [constructor|]. destruct (isWordChar c) eqn:E; [|by constructor].
  assert (H1 : allChars isWordChar (String c "") = true) by (cbn; by rewrite E).
  destruct (tokens s) as [|[w|d] ts]; [by constructor| |by constructor].
  inversion IH; subst. constructor; try done. cbn. by rewrite E.
Qed.

Lemma textOf_cons t ts : textOf (t :: ts) = tokenText t +:+ textOf ts.
Proof. unfold textOf. cbn. destruct (map tokenText ts); [by rewrite append_nil_r|done]. Qed.

Lemma tokens_word w s : allChars isWordChar w = true -> w <> "" ->
  match tokens s with Word _ :: _ => False | _ => True end -> tokens (w +:+ s) = Word w :: tokens s.
Proof.
  induction w as [|c w IH]; cbn; [done|]. intros [Hc Hw]%andb_true_iff _ Hs.
  change (String c w +:+ s) with (String c (w +:+ s)). cbn [tokens]. rewrite Hc.
  destruct w as [|d w]; [change ("" +:+ s)%string with s; by destruct (tokens s) as [|[]]|]. by rewrite IH.
Qed.

Lemma tokens_textOf ts : tokenised ts -> tokens (textOf ts) = ts.
Proof.
  induction 1 as [|c ts Hc Ht IH|w ts Hw Ha Hs Ht IH]; [done| |]; rewrite textOf_cons; cbn [tokenText].
  - change (String c "" +:+ textOf ts) with (String c (textOf ts)). cbn [tokens]. by rewrite Hc, IH.
  - rewrite tokens_word; [by rewrite IH|done|done|]. by rewrite IH.
Qed.

Lemma hex_word c : isHexChar c = true -> isWordChar c = true.
Proof. unfold isHexChar, isWordChar. rewrite !orb_true_iff, !andb_true_iff, !N.leb_le. lia. Qed.

Lemma substring_chars f n w : allChars f w = true -> allChars f (String.substring 0 n w) = true.
Proof. revert n. induction w as [|c w IH]; intros [|n]; cbn; try done. intros [-> H]%andb_true_iff. cbn. by apply IH. Qed.

Lemma substring_short n w : (n <= String.length w)%nat -> String.length (String.substring 0 n w) = n.
Proof. revert n. induction w as [|c w IH]; intros [|n] H; cbn in *; try done; try lia. rewrite IH; lia. Qed.

Lemma allChars_mono (f g : ascii -> bool) w : (forall c, f c = true -> g c = true) -> allChars f w = true -> allChars g w = true.
Proof. intros H. induction w; cbn; [done|]. intros [H1 H2]%andb_true_iff. by rewrite H, IHw. Qed.

Lemma cutHashes_cons t ts :
  cutHashes (t :: ts) = (if short t then [t] else match t with Word w => shortLabel w | Other _ => [t] end) ++ cutHashes ts.
Proof. unfold cutHashes. cbn. destruct t as [w|c]; cbn; [|done]. by destruct (_ && _). Qed.

Lemma cutHashes_tokenised ts : tokenised ts ->
  tokenised (cutHashes ts) /\ Forall (fun t => short t = true) (cutHashes ts) /\
  match ts with Word _ :: _ => True | _ => match cutHashes ts with Word _ :: _ => False | _ => True end end.
Proof.
  induction 1 as [|c ts Hc Ht (IH1 & IH2 & IH3)|w ts Hw Ha Hs Ht (IH1 & IH2 & IH3)]; [by repeat constructor| |].
  - rewrite cutHashes_cons. cbn. repeat split; by constructor.
  - assert (Hnext : match cutHashes ts with Word _ :: _ => False | _ => True end) by (destruct ts as [|[]]; done).
    rewrite cutHashes_cons. destruct (short (Word w)) eqn:Hsh.
    + cbn. repeat split; by constructor.
    + unfold short in Hsh. apply negb_false_iff, andb_true_iff in Hsh as [Hl Hx]. apply Nat.leb_le in Hl.
      pose proof (substring_short 8 w ltac:(lia)) as H8.
      assert (Hhex : allChars isWordChar (String.substring 0 8 w) = true)
        by exact (substring_chars _ _ _ (allChars_mono _ _ _ hex_word Hx)).
      cbn [app shortLabel]. split; [|split; [|done]].
      * constructor; [done|done|done|]. constructor; [done|]. constructor; [|done|done|done].
        intros E. by rewrite E in H8.
      * constructor; [done|]. constructor; [done|]. constructor; [|done].
        unfold short. by rewrite H8.
Qed.

(** No whole word of sixteen hexadecimal digits or more is left. *)
Lemma redaction_cuts_hashes m :
  Forall (fun t => short t = true) (tokens (redactConnectionLabel m)).
Proof.
  unfold redactConnectionLabel.
  match goal with |- context [cutHashes ?ts] => pose proof (cutHashes_tokenised ts (tokens_tokenised _)) as (H1 & H2 & _) end.
  by rewrite tokens_textOf.
Qed.

(** ** Evaluation *)

Example redact_uuid :
  redactConnectionLabel (Some "proxy/1b4e28ba-2fa1-11d2-883f-0016d3cca427 key 0123456789abcdef0") =
  "proxy/conn:1b4e28ba key conn:01234567"%string.
Proof. reflexivity. Qed.

Example classify_500 : classifyComboOutcome 500 "bad" = provider /\ classifyComboOutcome 400 "Invalid API key" = auth.
Proof. by vm_compute. Qed.

Lemma client_blamed_uniformly_witness :
  exists e, last [mkEntry "a" 400 "x" model; mkEntry "b" 401 "y" auth] = Some e /\
  resolveComboTerminalStatus [mkEntry "a" 400 "x" model; mkEntry "b" 401 "y" auth] 400 = 502.
Proof.
  destruct (client_blamed_uniformly [mkEntry "a" 400 "x" model; mkEntry "b" 401 "y" auth] 400 ltac:(done)) as (e & He & _ & H).
  exists e. split; [exact He|].
  rewrite H; [reflexivity|]. exists (mkEntry "a" 400 "x" model), (mkEntry "b" 401 "y" auth).
  split; [by left|]. split; [right; by left|done].
Defined.

(** A refusal of the request that mentions an author counts as one of credentials,
    so three of them are not seen as the same malformed request. *)
Example author_is_auth :
  classifyComboOutcome 400 "author is not a permitted field" = auth /\
  hasIdenticalModelErrorStreak
    (repeat (mkEntry "m" 400 "author is not a permitted field" (classifyComboOutcome 400 "author is not a permitted field")) 3)
    IDENTICAL_MODEL_ERROR_STREAK = false.
Proof. by vm_compute. Qed.
