(* ===== verification/ComboLoop.v ===== *)
(** * The attempt loop of a combo: [open-sse/services/combo/comboAttemptLoop.ts]

    [dispatchWithCooldownRetry] tries the targets of a combo in order, one task
    each, and answers with the first task that has an answer.  Each task runs
    concurrently with the loop; what it does between two awaits is a step of its
    own ([Work], [Settle]), as are timers, the client's abort and the changes other
    requests make to the locks.  [Go] resumes the loop where it waits, once what it
    waits for has happened; everything between two awaits of the loop is one step.

    [executeTarget], which the loop receives as a parameter, may write the shared
    state in any way that keeps the entries already pushed; it settles with
    nothing, with a response that succeeded, with one that ends the combo, or by
    throwing.  The last four fields of the state record the past and are read by no
    operation.  Log lines, latencies and the texts of answers other than the timeouts
    are left out. *)
From Stdlib Require Import String Sorting.Sorted.
From S2P Require Import Prelude JsMap JsString ModelLockout ComboCooldown ComboErrors.
#[local] Open Scope string_scope.
#[local] Open Scope Z_scope.
#[local] Open Scope list_scope.

Definition COMBO_LOOP_SAFETY_TIMEOUT_MS : Z := 10 * 60 * 1000.
Definition COMBO_SAFETY_DRAIN_MS : Z := 2000.

(** [None] is a value that is not a finite number. *)
Definition resolveDelayMs (value : option Z) (fallback : Z) : Z :=
  match value with Some n => if n <? 0 then fallback else n | None => fallback end.

Record Target := mkTarget {
  modelStr : string;
  providerOf : option string;
  connectionId : option string;
  fallbackOnlyOnQuotaExhaustion : bool;
}.

Record Config := mkConfig {
  strategy : string;
  orderedTargets : list Target;
  zeroLatencyOptimizationsEnabled : bool;
  hedging : bool;
  hedgeDelayMs : option Z;
  maxSetRetries : Z;
  setRetryDelayMs : Z;
  comboTimeoutMs : Z;
  comboStartTime : Z;
  comboCooldownWaitEnabled : bool;
  comboCooldownWait : ComboCooldownWaitSettings;
}.

(** The part of AttemptLoopState that the tasks write too.  A retry hint that is
    present is the instant it denotes, if it denotes one. *)
Record Shared := mkShared {
  comboErrors : list ComboErrorEntry;
  lastError : option string;
  lastStatus : option Z;
  earliestRetryAfter : option (option Z);
  recordedAttempts : Z;
  fallbackCount : Z;
  globalAttempts : Z;
  exhaustedProviders : list string;
  exhaustedConnections : list string;
  transientRateLimitedProviders : list string;
  dispatchedTargets : list string;
  skippedForCircuitOpen : bool;
  earliestCircuitOpenRetryMs : Z;
  observedFailure : bool;
  allObservedFailuresQuota : bool;
  requestScopedFailureSeen : bool;
  requestScopedRejectedModelKeys : list string;
}.

#[export] Instance entry_eq_dec : EqDecision ComboErrorEntry.
Proof. solve_decision. Defined.

#[export] Instance eta_Shared : Eta Shared := fun s =>
  mkShared (comboErrors s) (lastError s) (lastStatus s) (earliestRetryAfter s) (recordedAttempts s) (fallbackCount s)
    (globalAttempts s) (exhaustedProviders s) (exhaustedConnections s) (transientRateLimitedProviders s)
    (dispatchedTargets s) (skippedForCircuitOpen s) (earliestCircuitOpenRetryMs s) (observedFailure s)
    (allObservedFailuresQuota s) (requestScopedFailureSeen s) (requestScopedRejectedModelKeys s).

Inductive Effect :=
| FinalizedTrace
| FinishedTrace (status : Z)
| RecordedRequest
| RecordedComboFailure
| Webhook (reason : string).

Definition isNil {A} (l : list A) : bool := match l with [] => true | _ => false end.

(** ** Answers *)

Section Loop.
Context {R : Type}.

Inductive Outcome := Nothing | Won (r : R) | Fatal (r : R) | Threw.

Inductive Answer :=
| Succeeded (i : nat) (r : R)
| Stopped (i : nat) (r : R)
| UnexpectedError (i : nat)
| ClientDisconnected
| RequestAborted
| SafetyTimeout
| ComboTimeout
| CircuitsOpen
| AllTargetsSkipped (limited : bool)
| AllAccountsInactive (limited : bool)
| Unavailable (status : Z)
| AllFailed (status : Z) (quotaExhausted : bool)
| NoUpstreamResponse.

(** Where the loop waits. *)
Inductive Phase :=
| SetDelay (due : Z) (settled : bool)
| Racing (i : nat) (hedge : option Z) (hedged : bool)
| PostRace
| Draining (due : Z) (elapsed : bool)
| Returning
| CooldownWait (due : Z) (waitMs : Z) (completed : option bool)
| Answered (a : Answer).

Record Loop := mkLoop {
  now : Z;
  clientAborted : bool;
  locks : Lockouts;
  sh : Shared;
  setTry : Z;
  comboExpired : bool;
  abortControllers : jsmap nat bool;
  runningTasks : list nat;
  anySuccess : bool;
  globalPromise : option Answer;
  loopSafetyFired : bool;
  loopSafetyTimer : option Z;
  leftTimers : list Z;
  comboRequestMalformed : bool;
  waits : WaitState;
  phase : Phase;
  effects : list Effect;
  launchedNow : list nat;
  launches : Z;
  tries : Z;
  early : list Answer;
}.

#[export] Instance eta_Loop : Eta Loop := fun s =>
  mkLoop (now s) (clientAborted s) (locks s) (sh s) (setTry s) (comboExpired s) (abortControllers s) (runningTasks s)
    (anySuccess s) (globalPromise s) (loopSafetyFired s) (loopSafetyTimer s) (leftTimers s) (comboRequestMalformed s)
    (waits s) (phase s) (effects s) (launchedNow s) (launches s) (tries s) (early s).

(** What the loop reads from the rest of the program when it gives up: whether some
    account has a rate limit with a known end, and whether every target is behind
    an open circuit. *)
Record Reads := mkReads { limited : bool; everyCircuitOpen : bool }.

Inductive Label :=
| Tick (d : Z)
| Abort
| Others (l : Lockouts)
| Work (i : nat) (w : Shared)
| Settle (i : nat) (o : Outcome)
| SafetyTimer
| PhaseTimer
| LeftTimer (due : Z)
| Go (r : Reads).

Context (resolveProviderId : string -> string).
Context (parseModel : string -> option string * option string * option string).
Context (c : Config).

Definition log (l : list Effect) (s : Loop) : Loop := s <| effects := effects s ++ l |>.

Definition abortWhere (f : nat -> bool) (m : jsmap nat bool) : jsmap nat bool :=
  map (fun '(i, b) => (i, b || f i)) m.

(** Every return runs the [finally]. *)
Definition answer (a : Answer) (s : Loop) : Loop := s <| loopSafetyTimer := None |> <| phase := Answered a |>.

Definition hedgingActive : bool :=
  zeroLatencyOptimizationsEnabled c && hedging c &&
  negb (String.eqb (strategy c) "priority" && existsb fallbackOnlyOnQuotaExhaustion (orderedTargets c)).

Definition loopSafetyMs : Z := if comboTimeoutMs c >? 0 then comboTimeoutMs c else COMBO_LOOP_SAFETY_TIMEOUT_MS.

Definition markLoopExpiredIfSafetyFired (s : Loop) : Loop :=
  if loopSafetyFired s
  then s <| comboExpired := true |> <| abortControllers := abortWhere (fun _ => true) (abortControllers s) |>
  else s.

(** ** The texts of the timeouts *)

Section Texts.
Context (numText : Z -> string).

Definition rawSummary (entries : list ComboErrorEntry) : string :=
  join ", " (map (fun e => e_model e +:+ " (" +:+ numText (e_status e) +:+ ")") (take 5 entries)).

Definition timeoutHead (ms : Z) (s : Loop) : string :=
  "Combo global timeout (" +:+ numText ms +:+ "ms) after " +:+ numText (recordedAttempts (sh s)) +:+ "/" +:+
  numText (Z.of_nat (length (orderedTargets c))) +:+ " targets".

Definition safetyText (s : Loop) : string :=
  let errors := comboErrors (sh s) in
  timeoutHead loopSafetyMs s +:+
  (if isNil errors then "" else " | tried: " +:+ rawSummary errors +:+ more numText errors "") +:+
  " without a terminal response".

Definition timeoutText (s : Loop) : string :=
  let errors := comboErrors (sh s) in
  timeoutHead (comboTimeoutMs c) s +:+
  (if isNil errors then "" else " | tried: " +:+ buildRedactedSummary numText errors).
End Texts.

(** ** Giving up *)

Definition cooldownTarget (t : Target) : ComboCooldownTarget :=
  ComboCooldown.mkTarget (providerOf t) (connectionId t) (Some (modelStr t)).

Definition rawModel (s : string) : string := orElse (snd (parseModel s)) "".

Definition closestWaitMs (nowMs : Z) (hint : option Z) : option Z := (fun t => Z.max (t - nowMs) 0) <$> hint.

(** [waitForCooldownAwareRetry]; a wait is only decided with a positive time. *)
Definition startWait (waitMs : Z) (s : Loop) : Loop :=
  s <| phase := CooldownWait (now s + waitMs) waitMs
                  (if clientAborted s then Some false else if waitMs <=? 0 then Some true else None) |>.

Definition noStatus (s : Loop) : bool := negb (truthyNum (lastStatus (sh s))).
Definition nothingTried (s : Loop) : bool := recordedAttempts (sh s) =? 0.

Definition finishTrace (status : Z) (s : Loop) : Loop := log [FinalizedTrace; FinishedTrace status] s.

(** Without a status: nothing was sent, or no account was active. *)
Definition giveUpUntried (r : Reads) (s : Loop) : Loop :=
  if nothingTried s then
    let s := log [Webhook "ALL_TARGETS_SKIPPED"] s in
    if skippedForCircuitOpen (sh s) && everyCircuitOpen r then answer CircuitsOpen s
    else answer (AllTargetsSkipped (limited r)) s
  else answer (AllAccountsInactive (limited r)) (log [Webhook "ALL_ACCOUNTS_INACTIVE"; RecordedComboFailure] s).

Definition giveUpFailed (status : Z) (s : Loop) : Loop :=
  let s := finishTrace status s in
  if bool_decide (is_Some (earliestRetryAfter (sh s))) && isRetryAfterEligibleStatus (Some status)
  then answer (Unavailable status) s
  else answer (AllFailed status (observedFailure (sh s) && allObservedFailuresQuota (sh s))) (log [RecordedComboFailure] s).

Definition circuitWait (s : Loop) : CooldownDecision :=
  if noStatus s && nothingTried s && comboCooldownWaitEnabled c
  then resolveCircuitOpenWaitDecision (skippedForCircuitOpen (sh s)) (Some (earliestCircuitOpenRetryMs (sh s)))
         (attemptNo (waits s)) (budgetLeft (waits s)) (comboCooldownWait c)
  else noWait.

Definition lockWait (s : Loop) : Loop * CooldownDecision :=
  match earliestRetryAfter (sh s) with
  | Some hint =>
      if comboCooldownWaitEnabled c then
        let '(l, d) := decideWait resolveProviderId rawModel (now s) (map cooldownTarget (orderedTargets c))
                         (closestWaitMs (now s) hint) (waits s) (comboCooldownWait c) (locks s) in
        (s <| locks := l |>, d)
      else (s, noWait)
  | None => (s, noWait)
  end.

Definition giveUp (r : Reads) (s : Loop) : Loop :=
  let d := circuitWait s in
  if d_wait d then startWait (d_waitMs d) s
  else
    let s := finishTrace 503 s in
    if noStatus s then giveUpUntried r s
    else
      let status := resolveComboTerminalStatus (comboErrors (sh s)) (orElse (lastStatus (sh s)) 0) in
      let '(s, d) := lockWait s in
      if d_wait d then startWait (d_waitMs d) s else giveUpFailed status s.

(** ** A pass over the targets *)

(** The head of the loop over set retries. *)
Definition resetSets (w : Shared) : Shared :=
  w <| exhaustedProviders := [] |> <| exhaustedConnections := [] |> <| transientRateLimitedProviders := [] |>
    <| skippedForCircuitOpen := false |> <| earliestCircuitOpenRetryMs := 0 |>.

(** The retry of the whole set, up to its delay. *)
Definition retrySet (s : Loop) : Loop :=
  s <| setTry := setTry s + 1 |> <| sh := resetSets (sh s) |> <| phase := SetDelay (now s + setRetryDelayMs c) false |>.

Definition recordIfUntried (s : Loop) : Loop := if nothingTried s then log [RecordedRequest] s else s.

(** After the target loop and its waits: answer, retry or give up. *)
Definition settleTry (r : Reads) (s : Loop) : Loop :=
  let s := finishTrace 200 s in
  if anySuccess s then s <| loopSafetyTimer := None |> <| phase := Returning |>
  else
    let s := recordIfUntried (finishTrace 504 s) in
    if comboExpired s then answer ComboTimeout (log [Webhook "COMBO_TIMEOUT"] s)
    else if (setTry s <? maxSetRetries c) && negb (comboRequestMalformed s) && negb (requestScopedFailureSeen (sh s))
    then retrySet s
    else giveUp r s.

Definition afterRace (r : Reads) (s : Loop) : Loop :=
  if loopSafetyFired s && negb (anySuccess s) then
    if isNil (runningTasks s) then answer SafetyTimeout s
    else s <| phase := Draining (now s + COMBO_SAFETY_DRAIN_MS) false |>
  else settleTry r s.

Definition afterTargets (r : Reads) (s : Loop) : Loop :=
  if negb (anySuccess s) && negb (isNil (runningTasks s)) then s <| phase := PostRace |> else afterRace r s.

Definition replayKey (t : Target) : string := requestScopedReplayKey parseModel (modelStr t).

Definition refused (t : Target) (s : Loop) : bool := existsb (String.eqb (replayKey t)) (requestScopedRejectedModelKeys (sh s)).

Definition launch (i : nat) (s : Loop) : Loop :=
  s <| abortControllers := mset i false (abortControllers s) |> <| runningTasks := runningTasks s ++ [i] |>
    <| phase := Racing i (if hedgingActive && (S i <? length (orderedTargets c))%nat
                          then Some (now s + resolveDelayMs (hedgeDelayMs c) 500) else None) false |>
    <| launchedNow := launchedNow s ++ [i] |> <| launches := launches s + 1 |>.

Definition halted (s : Loop) : bool := anySuccess s || comboExpired s || comboRequestMalformed s.

(** The target loop from index [i] to its next wait. *)
Fixpoint walk (r : Reads) (rest : list Target) (i : nat) (s : Loop) : Loop :=
  match rest with
  | [] => afterTargets r s
  | t :: rest =>
      if halted s then afterTargets r s
      else if refused t s then walk r rest (S i) s
      else launch i s
  end.

(** The variables of a pass and its safety timer; a timer of an earlier pass stays armed. *)
Definition freshTry (s : Loop) : Loop :=
  s <| sh := (sh s) <| fallbackCount := 0 |> <| recordedAttempts := 0 |> <| comboErrors := [] |> <| dispatchedTargets := [] |> |>
    <| globalPromise := None |> <| loopSafetyFired := false |>
    <| leftTimers := match loopSafetyTimer s with Some d => d :: leftTimers s | None => leftTimers s end |>
    <| loopSafetyTimer := Some (now s + loopSafetyMs) |>
    <| runningTasks := [] |> <| anySuccess := false |> <| comboRequestMalformed := false |>
    <| abortControllers := [] |> <| launchedNow := [] |> <| tries := tries s + 1 |>.

Definition startTry (r : Reads) (s : Loop) : Loop := walk r (orderedTargets c) 0 (freshTry s).

(** A dispatch, fresh or after a cooldown. *)
Definition dispatch (r : Reads) (s : Loop) : Loop :=
  let s := s <| sh := (sh s) <| lastError := None |> <| earliestRetryAfter := None |> <| lastStatus := None |>
                             <| skippedForCircuitOpen := false |> <| earliestCircuitOpenRetryMs := 0 |> |>
             <| setTry := 0 |> in
  if 0 <=? maxSetRetries c then startTry r (s <| sh := resetSets (sh s) |>)
  else answer NoUpstreamResponse (log [RecordedComboFailure] s).

(** The checks once the race over target [i] is over. *)
Definition checkTimeout (s : Loop) : Loop :=
  if negb (anySuccess s) && (comboTimeoutMs c >? 0) && (now s - comboStartTime c >=? comboTimeoutMs c)
  then s <| comboExpired := true |> else s.

Definition checkMalformed (s : Loop) : Loop :=
  if negb (anySuccess s) && negb (comboExpired s) && hasIdenticalModelErrorStreak (comboErrors (sh s)) IDENTICAL_MODEL_ERROR_STREAK
  then s <| comboRequestMalformed := true |> else s.

Definition afterTarget (r : Reads) (i : nat) (s : Loop) : Loop :=
  walk r (drop (S i) (orderedTargets c)) (S i) (checkMalformed (checkTimeout (markLoopExpiredIfSafetyFired s))).

(** ** Steps *)

Definition isRunning (i : nat) (s : Loop) : bool := bool_decide (i ∈ runningTasks s).

(** Whether what the loop waits for has happened. *)
Definition ready (s : Loop) : bool :=
  match phase s with
  | SetDelay _ settled => settled
  | Racing i _ hedged => negb (isRunning i s) || bool_decide (is_Some (globalPromise s)) || hedged || loopSafetyFired s
  | PostRace => isNil (runningTasks s) || bool_decide (is_Some (globalPromise s)) || loopSafetyFired s
  | Draining _ elapsed => isNil (runningTasks s) || elapsed
  | Returning => bool_decide (is_Some (globalPromise s))
  | CooldownWait _ _ completed => bool_decide (is_Some completed)
  | Answered _ => false
  end.

Definition resume (r : Reads) (s : Loop) : Loop :=
  match phase s with
  | SetDelay _ _ => if clientAborted s then answer ClientDisconnected s else startTry r s
  | Racing i _ _ => afterTarget r i s
  | PostRace => afterRace r (markLoopExpiredIfSafetyFired s)
  | Draining _ _ => answer SafetyTimeout s
  | Returning => match globalPromise s with Some a => answer a s | None => s end
  | CooldownWait _ waitMs completed =>
      if orElse completed false then
        let w := afterDecision (mkDecision true waitMs None) (waits s) in
        dispatch r (s <| waits := w |> <| loopSafetyTimer := None |>)
      else answer RequestAborted s
  | Answered _ => s
  end.

Definition open (s : Loop) : bool := match phase s with Racing _ _ _ | PostRace => true | _ => false end.

(** The resolution of [globalPromise] by a task. *)
Definition resolveWith (a : Answer) (s : Loop) : Loop :=
  let s := s <| early := if open s then early s ++ [a] else early s |> in
  if anySuccess s then s else s <| anySuccess := true |> <| globalPromise := Some a |>.

Definition ended (i : nat) (s : Loop) : Loop := s <| runningTasks := List.filter (fun j => negb (j =? i)%nat) (runningTasks s) |>.

Definition abortOthers (i : nat) (s : Loop) : Loop :=
  s <| abortControllers := abortWhere (fun j => negb (j =? i)%nat) (abortControllers s) |>.

(** The end of task [i]; a success tells the others to stop. *)
Definition settle (i : nat) (o : Outcome) (s : Loop) : Loop :=
  let s := ended i s in
  match o with
  | Nothing => s
  | Won r => if anySuccess s then resolveWith (Succeeded i r) s else abortOthers i (resolveWith (Succeeded i r) s)
  | Fatal r => resolveWith (Stopped i r) s
  | Threw => resolveWith (UnexpectedError i) s
  end.

(** The client's abort reaches the tasks that run and the timers that wait. *)
Definition abort (s : Loop) : Loop :=
  if clientAborted s then s
  else
    let s := s <| clientAborted := true |>
               <| abortControllers := abortWhere (fun i => isRunning i s) (abortControllers s) |> in
    match phase s with
    | SetDelay due _ => s <| phase := SetDelay due true |>
    | CooldownWait due w None => s <| phase := CooldownWait due w (Some false) |>
    | _ => s
    end.

(** The timer of the current wait, when it is due. *)
Definition phaseTimer (s : Loop) : option Loop :=
  match phase s with
  | SetDelay due false => if due <=? now s then Some (s <| phase := SetDelay due true |>) else None
  | Racing i (Some due) false => if due <=? now s then Some (s <| phase := Racing i (Some due) true |>) else None
  | Draining due false => if due <=? now s then Some (s <| phase := Draining due true |>) else None
  | CooldownWait due w None => if due <=? now s then Some (s <| phase := CooldownWait due w (Some true) |>) else None
  | _ => None
  end.

(** What a task may write: entries are added, refused models stay refused. *)
Definition writes (w w' : Shared) : bool :=
  bool_decide (take (length (comboErrors w)) (comboErrors w') = comboErrors w) &&
  forallb (fun k => existsb (String.eqb k) (requestScopedRejectedModelKeys w')) (requestScopedRejectedModelKeys w).

Fixpoint removeOne (x : Z) (l : list Z) : list Z :=
  match l with [] => [] | y :: l => if x =? y then l else y :: removeOne x l end.

Definition step (s : Loop) (l : Label) : option Loop :=
  match l with
  | Tick d => if 0 <=? d then Some (s <| now := now s + d |>) else None
  | Abort => Some (abort s)
  | Others l => Some (s <| locks := l |>)
  | Work i w => if isRunning i s && writes (sh s) w then Some (s <| sh := w |>) else None
  | Settle i o => if isRunning i s then Some (settle i o s) else None
  | SafetyTimer =>
      match loopSafetyTimer s with
      | Some due => if due <=? now s then Some (s <| loopSafetyFired := true |> <| loopSafetyTimer := None |>) else None
      | None => None
      end
  | PhaseTimer => phaseTimer s
  | LeftTimer due =>
      if bool_decide (due ∈ leftTimers s) && (due <=? now s)
      then Some (s <| leftTimers := removeOne due (leftTimers s) |>) else None
  | Go r => if ready s then Some (resume r s) else None
  end.

Fixpoint run (s : Loop) (ls : list Label) : option Loop :=
  match ls with [] => Some s | l :: ls => match step s l with Some s' => run s' ls | None => None end end.

Definition emptyShared : Shared := mkShared [] None None None 0 0 0 [] [] [] [] false 0 false true false [].

Definition start (r : Reads) (l : Lockouts) : Loop :=
  dispatch r (mkLoop (comboStartTime c) false l emptyShared 0 false [] [] false None false None [] false
                (startWaits (comboCooldownWait c)) (SetDelay 0 false) [] [] 0 0 []).
End Loop.

#[global] Arguments abortWhere : simpl never.
