(* ===== verification/ComboLoopFacts.v ===== *)
(** * What the attempt loop guarantees

    One invariant of all reachable states of [ComboLoop]; from it, which answer is
    returned, what is launched and how often, what still runs after the answer, and
    that timers alone always bring the loop to an answer. *)
From Stdlib Require Import String Sorting.Sorted.
From S2P Require Import Prelude JsMap JsString ModelLockout ComboCooldown ComboErrors ComboLoop.
#[local] Open Scope string_scope.
#[local] Open Scope Z_scope.
#[local] Open Scope list_scope.

Section Facts.
Context {R : Type}.
Context (resolveProviderId : string -> string).
Context (parseModel : string -> option string * option string * option string).
Context (c : Config).

Notation Loop := (Loop (R:=R)).
Notation Label := (Label (R:=R)).
Notation stepTo s l s' := (step resolveProviderId parseModel c s l = Some s').
Notation refused := (refused parseModel).
Notation N := (length (orderedTargets c)).
Implicit Types s : Loop.

Definition reachable (ls : list Label) (s : Loop) : Prop :=
  exists r l, reach (fun s l s' => stepTo s l s') (start resolveProviderId parseModel c r l) ls s.

(** ** The invariant *)

Definition stopped (s : Loop) (j : nat) : Prop := mget j (abortControllers s) = Some true.
Definition allStopped (s : Loop) : Prop := Forall (stopped s) (runningTasks s).

(** Every target below [k] was launched in this pass or its model was refused. *)
Definition tried (k : nat) (s : Loop) : Prop :=
  forall j t, (j < k)%nat -> orderedTargets c !! j = Some t -> j ∈ launchedNow s \/ refused t s = true.

Definition gaveUp (s : Loop) : Prop := comboRequestMalformed s = true \/ tried N s.

Definition fromTask (a : Answer (R:=R)) : bool :=
  match a with Succeeded _ _ | Stopped _ _ | UnexpectedError _ => true | _ => false end.

Definition tryBound (s : Loop) : Z := attemptNo (waits s) * (Z.max 0 (maxSetRetries c) + 1) + setTry s + 1.

Record Core (s : Loop) : Prop := mkCore {
  k_answer : anySuccess s = bool_decide (is_Some (globalPromise s));
  k_task : match globalPromise s with Some a => fromTask a = true | None => True end;
  k_sorted : StronglySorted lt (launchedNow s);
  k_range : Forall (fun j => (j < N)%nat) (launchedNow s);
  k_running : sublist (runningTasks s) (launchedNow s);
  k_controlled : Forall (fun j => is_Some (mget j (abortControllers s))) (runningTasks s);
  k_losers : match globalPromise s with
             | Some (Succeeded i _) => Forall (fun j => j <> i -> stopped s j) (runningTasks s)
             | _ => True
             end;
  k_sequential : hedgingActive c = false -> Forall (fun j => last (launchedNow s) = Some j) (runningTasks s);
  k_launches : launches s <= Z.of_nat N * (tries s - 1) + Z.of_nat (length (launchedNow s)) \/ launches s = 0 /\ tries s = 0;
  k_started : 0 <= tries s /\ (launchedNow s <> [] -> 1 <= tries s);
  k_setTry : 0 <= setTry s <= Z.max 0 (maxSetRetries c);
  k_attempts : 0 <= attemptNo (waits s) <= Z.max 0 (maxAttempts (comboCooldownWait c));
}.

(** A task's answer that came in time is the one in the promise. *)
Definition firstIn (s : Loop) : Prop :=
  match early s with a :: _ => globalPromise s = Some a | [] => anySuccess s = false end.

Definition armed (s : Loop) : Prop := loopSafetyFired s = true \/ is_Some (loopSafetyTimer s).

Definition quiet (s : Loop) : Prop := runningTasks s = [] /\ anySuccess s = false /\ early s = [].

Definition answerOk (a : Answer) (s : Loop) : Prop :=
  match early s with b :: _ => a = b | [] => fromTask a = false end /\
  match a with
  | Succeeded i _ => globalPromise s = Some a
  | Stopped _ _ | UnexpectedError _ => True
  | SafetyTimeout => allStopped s
  | ComboTimeout | ClientDisconnected | NoUpstreamResponse => runningTasks s = []
  | _ => runningTasks s = [] /\ gaveUp s
  end.

Definition phaseOk (s : Loop) : Prop :=
  match phase s with
  | SetDelay _ _ => quiet s /\ tries s <= tryBound s - 1
  | Racing i hedge hedged =>
      last (launchedNow s) = Some i /\ tried (S i) s /\ firstIn s /\ armed s /\ tries s <= tryBound s /\
      (hedgingActive c = false -> hedged = false /\ hedge = None)
  | PostRace => (halted s = true \/ tried N s) /\ firstIn s /\ armed s /\ tries s <= tryBound s
  | Draining _ _ => early s = [] /\ allStopped s /\ tries s <= tryBound s
  | Returning => early s <> [] /\ firstIn s /\ tries s <= tryBound s
  | CooldownWait _ _ _ => quiet s /\ gaveUp s /\ tries s <= tryBound s /\
                          attemptNo (waits s) < maxAttempts (comboCooldownWait c)
  | Answered a => answerOk a s /\ tries s <= tryBound s
  end.

Definition Inv (s : Loop) : Prop := Core s /\ phaseOk s.

Ltac same_core := match goal with H : Core _ |- Core _ => destruct H; constructor; assumption end.

Lemma early_nil s : Core s -> firstIn s -> anySuccess s = false -> early s = [].
Proof.
  intros [Ha _ _ _ _ _ _ _ _ _ _ _] Hf E. unfold firstIn in Hf. destruct (early s); [done|].
  rewrite Hf in Ha. by rewrite bool_decide_true in Ha by eauto; congruence.
Qed.

Lemma firstIn_empty s : early s = [] -> anySuccess s = false -> firstIn s.
Proof. unfold firstIn. by intros ->. Qed.

Lemma early_some s : firstIn s -> anySuccess s = true -> early s <> [].
Proof. unfold firstIn. destruct (early s); [congruence|done]. Qed.

(** *** Giving up *)

Lemma startWait_Inv s ms :
  Core s -> quiet s -> gaveUp s -> tries s <= tryBound s -> attemptNo (waits s) < maxAttempts (comboCooldownWait c) ->
  Inv (startWait ms s).
Proof. intros HC HQ HG HT HA. split; [same_core|]. exact (conj HQ (conj HG (conj HT HA))). Qed.

Lemma answer_Inv a s : Core s -> answerOk a s -> tries s <= tryBound s -> Inv (answer a s).
Proof. intros HC HA HT. split; [same_core|]. exact (conj HA HT). Qed.

Lemma quiet_answerOk a s : quiet s -> gaveUp s -> fromTask a = false -> answerOk a s.
Proof.
  intros (Hr & Ha & He) Hg Ht. unfold answerOk. rewrite He. split; [done|].
  destruct a; try done; unfold allStopped; rewrite Hr; done.
Qed.

Lemma idle_answerOk a s :
  early s = [] -> runningTasks s = [] -> a ∈ [ComboTimeout; ClientDisconnected; NoUpstreamResponse] -> answerOk a s.
Proof. intros He Hr Ha. unfold answerOk. rewrite He. repeat (apply elem_of_cons in Ha as [->|Ha]; [done|]). by apply not_elem_of_nil in Ha. Qed.

Lemma shouldWait_attempts r w a b (st : ComboCooldownWaitSettings) ms :
  shouldWaitForComboCooldown r w a b st = (true, ms) -> a < maxAttempts st.
Proof. unfold shouldWaitForComboCooldown. intros [= H _]. to_prop. lia. Qed.

Lemma circuitWait_attempts s : d_wait (circuitWait c s) = true -> attemptNo (waits s) < maxAttempts (comboCooldownWait c).
Proof.
  unfold circuitWait, resolveCircuitOpenWaitDecision. repeat case_if; try done.
  destruct (shouldWaitForComboCooldown _ _ _ _ _) as [w ms] eqn:E. cbn. intros ->. by eapply shouldWait_attempts.
Qed.

Lemma lockWait_spec s s' d : lockWait resolveProviderId parseModel c s = (s', d) ->
  (exists l, s' = s <| locks := l |>) /\ (d_wait d = true -> attemptNo (waits s) < maxAttempts (comboCooldownWait c)).
Proof.
  assert (Hid : exists l, s = s <| locks := l |>) by (exists (locks s); by destruct s).
  unfold lockWait. destruct (earliestRetryAfter (sh s)) as [hint|]; [|intros [= <- <-]; by split].
  destruct (comboCooldownWaitEnabled c); [|intros [= <- <-]; by split].
  unfold decideWait, resolveComboCooldownWaitDecision.
  destruct (negb _); [intros [= <- <-]; by split; [eauto|]|].
  match goal with |- context [foldl ?f ?x ?l] => destruct (foldl f x l) as [l' best] end.
  destruct best as [b|]; [|intros [= <- <-]; by split; [eauto|]].
  destruct (shouldWaitForComboCooldown _ _ _ _ _) as [w ms] eqn:E. intros [= <- <-]. split; [eauto|].
  cbn. intros ->. by eapply shouldWait_attempts.
Qed.

Lemma giveUp_Inv r s : Core s -> quiet s -> gaveUp s -> tries s <= tryBound s -> Inv (giveUp resolveProviderId parseModel c r s).
Proof.
  intros HC HQ HG HT. unfold giveUp. destruct (d_wait (circuitWait c s)) eqn:Ew.
  { apply startWait_Inv; try done. by apply circuitWait_attempts. }
  cbv zeta. set (s1 := finishTrace 503 s).
  assert (HC1 : Core s1) by same_core. assert (HQ1 : quiet s1) by exact HQ. assert (HG1 : gaveUp s1) by exact HG.
  assert (HT1 : tries s1 <= tryBound s1) by exact HT. clearbody s1. destruct (noStatus s1).
  - unfold giveUpUntried. repeat case_if; apply answer_Inv; try done; try same_core; by apply quiet_answerOk.
  - destruct (lockWait resolveProviderId parseModel c s1) as [s2 d] eqn:El.
    apply lockWait_spec in El as ((l & ->) & Hd). destruct (d_wait d) eqn:Ed.
    + apply startWait_Inv; try done; [same_core|by apply Hd].
    + unfold giveUpFailed. case_if; apply answer_Inv; try done; try same_core; by apply quiet_answerOk.
Qed.

(** *** The end of a pass *)

Lemma settleTry_Inv r s :
  Core s -> (halted s = true \/ tried N s) -> firstIn s -> tries s <= tryBound s ->
  (anySuccess s = false -> runningTasks s = []) -> Inv (settleTry resolveProviderId parseModel c r s).
Proof.
  intros HC HH HF HT HR. unfold settleTry. cbv zeta. change (anySuccess (finishTrace 200 s)) with (anySuccess s).
  destruct (anySuccess s) eqn:Ha.
  { split; [same_core|]. split; [exact (early_some s HF Ha)|]. exact (conj HF HT). }
  specialize (HR eq_refl). pose proof (early_nil s HC HF Ha) as He.
  assert (Hs : exists es, recordIfUntried (finishTrace 504 (finishTrace 200 s)) = s <| effects := es |>)
    by (unfold recordIfUntried, finishTrace, log; case_if; cbn; eauto).
  destruct Hs as [es Hs]. rewrite Hs. clear Hs. set (s1 := s <| effects := es |>).
  assert (HC1 : Core s1) by same_core. change (comboExpired s1) with (comboExpired s).
  destruct (comboExpired s) eqn:Hx.
  { apply answer_Inv; [same_core| |exact HT]. apply idle_answerOk; [done|exact HR|by left]. }
  assert (HG : gaveUp s1).
  { destruct HH as [HH|HH]; [|by right]. left. unfold halted in HH. by rewrite Ha, Hx in HH. }
  case_if.
  - to_prop. split; [|split; [exact (conj HR (conj Ha He))|]].
    + destruct HC1. constructor; try assumption. unfold s1, retrySet in *. cbn in *. lia.
    + unfold s1, retrySet, tryBound in *. cbn in *. lia.
  - by apply giveUp_Inv.
Qed.

Lemma afterRace_Inv r s :
  Core s -> (halted s = true \/ tried N s) -> firstIn s -> tries s <= tryBound s ->
  (loopSafetyFired s = true -> allStopped s) ->
  (anySuccess s = false -> runningTasks s = [] \/ loopSafetyFired s = true) ->
  Inv (afterRace resolveProviderId parseModel c r s).
Proof.
  intros HC HH HF HT HS HR. unfold afterRace. case_if.
  - to_prop. pose proof (early_nil s HC HF ltac:(done)) as He. case_if.
    + apply answer_Inv; try done. unfold answerOk. rewrite He. split; [done|by apply HS].
    + split; [same_core|]. cbn. split; [done|]. split; [by apply HS|done].
  - apply settleTry_Inv; try done. intros Ha. rewrite Ha in *. destruct (HR eq_refl) as [?|Hf]; [done|]. by rewrite Hf in *.
Qed.

Lemma afterTargets_Inv r s :
  Core s -> (halted s = true \/ tried N s) -> firstIn s -> armed s -> tries s <= tryBound s ->
  (loopSafetyFired s = true -> allStopped s) -> Inv (afterTargets resolveProviderId parseModel c r s).
Proof.
  intros HC HH HF HA HT HS. unfold afterTargets. case_if.
  - to_prop. split; [same_core|]. exact (conj HH (conj HF (conj HA HT))).
  - apply afterRace_Inv; try done. intros Ha. rewrite Ha in *. cbn in Heqb. destruct (runningTasks s); [by left|done].
Qed.

(** *** The pass *)

Record Mid (k : nat) (s : Loop) : Prop := mkMid {
  m_core : Core s;
  m_below : Forall (fun j => (j < k)%nat) (launchedNow s);
  m_tried : tried k s;
  m_first : firstIn s;
  m_armed : armed s;
  m_tries : tries s <= tryBound s;
  m_started : 1 <= tries s;
  m_fired : loopSafetyFired s = true -> allStopped s;
  m_alone : hedgingActive c = false -> halted s = false -> runningTasks s = [];
}.

Lemma refused_spec t s : refused t s = true <-> replayKey parseModel t ∈ requestScopedRejectedModelKeys (sh s).
Proof.
  unfold refused, ComboLoop.refused. rewrite existsb_exists. setoid_rewrite String.eqb_eq. setoid_rewrite <- list_elem_of_In.
  split; [by intros (x & H & ->)|eauto].
Qed.

Lemma sorted_snoc (l : list nat) k : StronglySorted lt l -> Forall (fun j => (j < k)%nat) l -> StronglySorted lt (l ++ [k]).
Proof.
  induction 1 as [|x l Hs IH Hx]; cbn; intros H; [by repeat constructor|].
  apply Forall_cons in H as [H1 H2]. constructor; [by apply IH|]. apply Forall_app. split; [done|by constructor].
Qed.

Lemma launch_Core k s : Mid k s -> (k < N)%nat -> halted s = false -> Core (launch c k s).
Proof.
  intros [HC HB HT HF HA Ht Hst HS Hal] Hk Hh. destruct HC as [Ka Kt Ks Kr Kru Kc Kl Kseq Kn Ksd Kst Kat].
  pose proof Hh as Hsucc. unfold halted in Hsucc. apply orb_false_iff in Hsucc as [Hsucc _].
  apply orb_false_iff in Hsucc as [Hsucc _].
  assert (Hg : globalPromise s = None).
  { rewrite Hsucc in Ka. destruct (globalPromise s); [by rewrite bool_decide_true in Ka by eauto|done]. }
  unfold launch. constructor; cbn; try assumption.
  - by apply sorted_snoc.
  - apply Forall_app. split; [done|by constructor].
  - by apply sublist_app.
  - apply Forall_app. split; [|constructor; [rewrite mget_mset_eq; eauto|constructor]].
    rewrite Forall_forall in Kc |- *. intros j Hj. destruct (decide (j = k)) as [->|Hn]; [rewrite mget_mset_eq; eauto|].
    rewrite mget_mset_ne by done. by apply Kc.
  - by rewrite Hg.
  - intros Hn. rewrite last_snoc, (Hal Hn Hh). by constructor.
  - rewrite length_app. cbn. lia.
  - split; [lia|done].
Qed.

Lemma tried_launch k s : tried k s -> (k < N)%nat -> tried (S k) (launch c k s).
Proof.
  intros H _ j t Hj Ht. destruct (decide (j = k)) as [->|]; [left; cbn; apply elem_of_app; right; by left|].
  destruct (H j t ltac:(lia) Ht) as [H1|H1]; [left; cbn; apply elem_of_app; by left|by right].
Qed.

Lemma walk_Inv r rest k s :
  Mid k s -> drop k (orderedTargets c) = rest -> Inv (walk resolveProviderId parseModel c r rest k s).
Proof.
  revert k. induction rest as [|t rest IH]; intros k HM Hd; cbn [walk].
  - destruct HM. apply afterTargets_Inv; try done. right. intros j t Hj Ht. apply m_tried0; [|done].
    apply (f_equal length) in Hd. rewrite length_drop in Hd. cbn in Hd. lia.
  - assert (Hk : orderedTargets c !! k = Some t) by (rewrite <- (Nat.add_0_r k), <- lookup_drop, Hd; done).
    pose proof (lookup_lt_Some _ _ _ Hk) as Hlt.
    destruct (halted s) eqn:Hh; [destruct HM; apply afterTargets_Inv; auto|].
    destruct (refused t s) eqn:Hr.
    + apply IH; [|by rewrite <- (drop_drop _ k 1), Nat.add_comm in Hd || (rewrite <- Nat.add_1_r, <- drop_drop, Hd; done)].
      destruct HM. constructor; try done.
      * eapply Forall_impl; [exact m_below0|]. cbn. lia.
      * intros j t' Hj Ht. destruct (decide (j = k)) as [->|]; [right; congruence|]. apply m_tried0; [lia|done].
    + split; [by apply launch_Core|]. pose proof (launch_Core k s HM Hlt Hh) as HC'. destruct HM. unfold phaseOk. cbn [phase launch].
      change (last (launchedNow s ++ [k]) = Some k /\ tried (S k) (launch c k s) /\ firstIn s /\ armed s /\ tries s <= tryBound s /\
        (hedgingActive c = false -> false = false /\
           (if hedgingActive c && (S k <? N)%nat then Some (now s + resolveDelayMs (hedgeDelayMs c) 500) else None) = None)).
      rewrite last_snoc. repeat split; try done; [by apply tried_launch|by rewrite H].
Qed.

Lemma sorted_bounded (l : list nat) k : StronglySorted lt l -> Forall (fun j => (j < k)%nat) l -> (length l <= k)%nat.
Proof.
  intros Hs Hf. assert (Hle : (length l <= length (List.seq 0 k))%nat); [|by rewrite List.length_seq in Hle].
  apply NoDup_incl_length.
  - apply NoDup_ListNoDup. clear Hf. induction Hs as [|x l _ IH Hx]; constructor; [|done].
    intros Hin. rewrite Forall_forall in Hx. specialize (Hx x Hin). lia.
  - intros j Hj. apply list_elem_of_In in Hj. rewrite Forall_forall in Hf. specialize (Hf j Hj). apply in_seq. lia.
Qed.

Lemma freshTry_Core s : Core s -> Core (freshTry c s).
Proof.
  intros []. pose proof (sorted_bounded _ _ k_sorted0 k_range0).
  assert (launches s <= Z.of_nat N * (tries s + 1 - 1) + 0 \/ launches s = 0 /\ tries s + 1 = 0) by (left; destruct k_launches0; nia).
  constructor; try assumption; try (by constructor). split; [|done]. cbn. lia.
Qed.

Lemma freshTry_Mid s : Core s -> early s = [] -> tries s <= tryBound s - 1 -> Mid 0 (freshTry c s).
Proof.
  intros HC He HT. constructor.
  - by apply freshTry_Core.
  - constructor.
  - unfold tried. intros j t Hj. lia.
  - by apply firstIn_empty.
  - right. cbn. eauto.
  - change (tries s + 1 <= tryBound s). lia.
  - destruct HC. cbn. lia.
  - done.
  - done.
Qed.

Lemma startTry_Inv r s :
  Core s -> early s = [] -> tries s <= tryBound s - 1 -> Inv (startTry resolveProviderId parseModel c r s).
Proof.
  intros HC He HT. exact (walk_Inv r (orderedTargets c) 0 (freshTry c s) (freshTry_Mid s HC He HT) (drop_0 _)).
Qed.

Lemma dispatch_Inv r s :
  Core s -> runningTasks s = [] -> early s = [] ->
  tries s <= attemptNo (waits s) * (Z.max 0 (maxSetRetries c) + 1) ->
  Inv (dispatch resolveProviderId parseModel c r s).
Proof.
  intros HC Hr He HT. unfold dispatch. cbv zeta. destruct (Z.leb_spec 0 (maxSetRetries c)).
  - apply startTry_Inv; try done; [|unfold tryBound; cbn; lia]. destruct HC. constructor; try assumption. cbn. lia.
  - apply answer_Inv; [destruct HC; constructor; try assumption; cbn; lia| |unfold tryBound; cbn; lia].
    apply idle_answerOk; [done|done|]. right. right. by left.
Qed.

(** *** The tasks *)

Lemma mget_abortWhere f (m : jsmap nat bool) j : mget j (abortWhere f m) = (fun b => b || f j) <$> mget j m.
Proof. unfold abortWhere. induction m as [|[k b] m IH]; cbn; [done|]. case_decide as E; [by subst|exact IH]. Qed.

Lemma sublist_boolFilter {A} (f : A -> bool) l : sublist (List.filter f l) l.
Proof. induction l as [|x l IH]; cbn; [constructor|]. destruct (f x); by constructor. Qed.

Lemma ended_sublist i s : sublist (runningTasks (ended i s)) (runningTasks s).
Proof. apply sublist_boolFilter. Qed.

Lemma Forall_sublist' {A} (P : A -> Prop) l l' : sublist l l' -> Forall P l' -> Forall P l.
Proof. intros Hs. rewrite !Forall_forall. intros H x Hx. apply H. by eapply elem_of_sublist. Qed.

Lemma ended_Core i s : Core s -> Core (ended i s).
Proof.
  intros []. pose proof (ended_sublist i s) as Hs. constructor; try assumption.
  - by etransitivity.
  - by eapply Forall_sublist'.
  - change (globalPromise (ended i s)) with (globalPromise s). destruct (globalPromise s) as [[]|]; try done.
    by eapply Forall_sublist'.
  - intros H. by eapply Forall_sublist'; [exact Hs|apply k_sequential0].
Qed.

Lemma resolve_Core a s : Core s -> anySuccess s = false -> fromTask a = true -> match a with Succeeded _ _ => False | _ => True end ->
  Core (resolveWith a s).
Proof.
  intros [] Hs Ha Hm. unfold resolveWith. change (anySuccess (s <| early := _ |>)) with (anySuccess s). rewrite Hs.
  constructor; try assumption; [done|]. cbn. by destruct a.
Qed.

Lemma success_Core i r s : Core s -> anySuccess s = false -> Core (abortOthers i (resolveWith (Succeeded i r) s)).
Proof.
  intros [] Hs. unfold resolveWith. change (anySuccess (s <| early := _ |>)) with (anySuccess s). rewrite Hs.
  constructor; try assumption; try done; cbn; rewrite Forall_forall in *; intros j Hj; destruct (k_controlled0 j Hj) as [b Hb].
  - rewrite mget_abortWhere, Hb. cbn. eauto.
  - intros Hn. unfold stopped. cbn. rewrite mget_abortWhere, Hb. cbn. rewrite (proj2 (Nat.eqb_neq j i)) by done. by destruct b.
Qed.

Lemma late_Core a s : Core s -> anySuccess s = true -> Core (resolveWith a s).
Proof.
  intros HC Hs. unfold resolveWith. change (anySuccess (s <| early := _ |>)) with (anySuccess s). rewrite Hs. same_core.
Qed.

Lemma settle_phase i a s s' :
  Inv s -> i ∈ runningTasks s -> fromTask a = true ->
  phase s' = phase s -> launchedNow s' = launchedNow s -> sh s' = sh s -> comboRequestMalformed s' = comboRequestMalformed s ->
  comboExpired s' = comboExpired s -> loopSafetyFired s' = loopSafetyFired s -> loopSafetyTimer s' = loopSafetyTimer s ->
  tries s' = tries s -> waits s' = waits s -> setTry s' = setTry s ->
  early s' = (if open s then early s ++ [a] else early s) ->
  anySuccess s' = true -> globalPromise s' = (if anySuccess s then globalPromise s else Some a) ->
  (allStopped s -> allStopped s') -> phaseOk s'.
Proof.
  intros [HC HP] Hi Ha E1 E2 E3 E4 E5 E6 E7 E8 E9 E10 E11 E12 E13 HS.
  assert (HT : tryBound s' = tryBound s) by (unfold tryBound; congruence).
  assert (Htr : forall k, tried k s -> tried k s').
  { intros k H j t Hj Ht. unfold refused, ComboLoop.refused. rewrite E2, E3. exact (H j t Hj Ht). }
  assert (HF : open s = true -> firstIn s -> firstIn s').
  { intros Ho. unfold firstIn. rewrite E11, Ho, E13. destruct (early s); cbn; [by intros ->|].
    destruct HC as [Kk _ _ _ _ _ _ _ _ _ _ _]. intros Hg. by rewrite Kk, Hg, bool_decide_true by eauto. }
  unfold phaseOk in *. rewrite E1, HT, E8. unfold open in *. destruct (phase s) as [| | | | | |b] eqn:Eph.
  - destruct HP as [[Hr _] _]. rewrite Hr in Hi. by apply not_elem_of_nil in Hi.
  - destruct HP as (H1 & H2 & H3 & H4 & H5 & H6). unfold armed. rewrite E2, E6, E7. eauto 10.
  - destruct HP as (H1 & H2 & H3 & H4). unfold armed. rewrite E6, E7. split; [|eauto]. left. unfold halted. by rewrite E12.
  - destruct HP as (H1 & H2 & H3). rewrite E11. eauto.
  - destruct HP as (H1 & H2 & H3). rewrite E11. split; [done|]. split; [|done]. unfold firstIn in *. rewrite E11, E13.
    destruct (early s); [done|]. destruct HC as [Kk _ _ _ _ _ _ _ _ _ _ _]. by rewrite Kk, H2, bool_decide_true by eauto.
  - destruct HP as ((Hr & _) & _). rewrite Hr in Hi. by apply not_elem_of_nil in Hi.
  - destruct HP as ((H1 & H2) & H3). split; [|done]. split; [by rewrite E11|].
    assert (Hne : runningTasks s <> []) by (intros Hr; rewrite Hr in Hi; by apply not_elem_of_nil in Hi).
    destruct b; try done; try tauto.
    destruct HC as [Kk _ _ _ _ _ _ _ _ _ _ _]. by rewrite E13, Kk, H2, bool_decide_true by eauto.
Qed.

Lemma allStopped_ended i s : allStopped s -> allStopped (ended i s).
Proof. apply Forall_sublist', ended_sublist. Qed.

Lemma ended_nil i s : runningTasks s = [] -> runningTasks (ended i s) = [].
Proof. intros H. cbn. by rewrite H. Qed.

Lemma ended_Inv i s : Inv s -> Inv (ended i s).
Proof.
  intros [HC HP]. split; [by apply ended_Core|]. pose proof (allStopped_ended i s) as Ha. pose proof (ended_nil i s) as Hn.
  unfold phaseOk in *. change (phase (ended i s)) with (phase s). destruct (phase s) as [| | | | | |b]; try exact HP.
  - destruct HP as [(H1 & H2) H3]. exact (conj (conj (Hn H1) H2) H3).
  - destruct HP as (H1 & H2 & H3). exact (conj H1 (conj (Ha H2) H3)).
  - destruct HP as ((H1 & H2) & H3). exact (conj (conj (Hn H1) H2) H3).
  - destruct HP as ((H1 & H2) & H3). split; [|exact H3]. split; [exact H1|]. destruct b; try exact H2; try exact (Hn H2);
      try exact (conj (Hn (proj1 H2)) (proj2 H2)). exact (Ha H2).
Qed.

Lemma allStopped_abortWhere f s s' : runningTasks s' = runningTasks s -> abortControllers s' = abortWhere f (abortControllers s) ->
  allStopped s -> allStopped s'.
Proof.
  intros E1 E2. unfold allStopped, stopped. rewrite E1, E2. intros H. eapply Forall_impl; [exact H|].
  intros j Hj. cbn in Hj |- *. by rewrite mget_abortWhere, Hj.
Qed.

Lemma resolve_Inv i a s : Inv s -> i ∈ runningTasks s -> fromTask a = true ->
  (match a with Succeeded _ _ => anySuccess s = true | _ => True end) -> Inv (resolveWith a (ended i s)).
Proof.
  intros HI Hi Ha Hm. pose proof (ended_Core i s (proj1 HI)) as HC.
  destruct (anySuccess s) eqn:Hs.
  - split; [by apply late_Core|]. eapply settle_phase; eauto; unfold resolveWith; cbn; rewrite Hs; try done.
    apply allStopped_ended.
  - split; [apply resolve_Core; try done; by destruct a|]. eapply settle_phase; eauto; unfold resolveWith; cbn; rewrite Hs; try done.
    apply allStopped_ended.
Qed.

Lemma settle_Inv i o s : Inv s -> i ∈ runningTasks s -> Inv (settle i o s).
Proof.
  intros HI Hi. unfold settle. cbv zeta. destruct o as [|r|r|]; [by apply ended_Inv| | |]; try by apply resolve_Inv.
  change (anySuccess (ended i s)) with (anySuccess s). destruct (anySuccess s) eqn:Hs; [by apply resolve_Inv|].
  split; [apply success_Core; [by apply ended_Core, HI|done]|].
  eapply (settle_phase i (Succeeded i r) s); eauto; unfold abortOthers, resolveWith; cbn; rewrite Hs; try done.
  intros H. by eapply allStopped_abortWhere; [..|apply (allStopped_ended i), H].
Qed.

(** *** The other steps *)

Lemma abortWhere_Core f s s' :
  Core s -> s' = s <| clientAborted := true |> <| abortControllers := abortWhere f (abortControllers s) |> -> Core s'.
Proof.
  intros [] ->. constructor; try assumption.
  - cbn. eapply Forall_impl; [exact k_controlled0|]. intros j [b Hb]. rewrite mget_abortWhere, Hb. cbn. eauto.
  - cbn. destruct (globalPromise s) as [[]|]; try done. eapply Forall_impl; [exact k_losers0|].
    intros j Hj Hn. unfold stopped. cbn. by rewrite mget_abortWhere, (Hj Hn).
Qed.

Lemma phaseOk_same s s' :
  phaseOk s -> phase s' = phase s -> early s' = early s -> runningTasks s' = runningTasks s -> anySuccess s' = anySuccess s ->
  globalPromise s' = globalPromise s -> comboRequestMalformed s' = comboRequestMalformed s -> comboExpired s' = comboExpired s ->
  launchedNow s' = launchedNow s -> tries s' = tries s -> waits s' = waits s -> setTry s' = setTry s ->
  (forall t, refused t s = true -> refused t s' = true) -> (allStopped s -> allStopped s') -> (armed s -> armed s') -> phaseOk s'.
Proof.
  intros HP E1 E2 E3 E4 E5 E6 E7 E8 E9 E10 E11 Hr HS HA.
  assert (HT : tryBound s' = tryBound s) by (unfold tryBound; congruence).
  assert (Htr : forall k, tried k s -> tried k s').
  { intros k H j t Hj Ht. rewrite E8. destruct (H j t Hj Ht); auto. }
  assert (HG : gaveUp s -> gaveUp s') by (unfold gaveUp; rewrite E6; intuition).
  assert (HF : firstIn s -> firstIn s') by (unfold firstIn; by rewrite E2, E4, E5).
  unfold phaseOk, quiet, answerOk, halted in *. rewrite E1, E2, E3, E4, E5, E6, E7, E8, E9, E10, HT.
  destruct (phase s) as [| | | | | |[]]; intuition.
Qed.

Lemma same_Inv s s' :
  Inv s -> Core s' -> phase s' = phase s -> early s' = early s -> runningTasks s' = runningTasks s -> anySuccess s' = anySuccess s ->
  globalPromise s' = globalPromise s -> comboRequestMalformed s' = comboRequestMalformed s -> comboExpired s' = comboExpired s ->
  launchedNow s' = launchedNow s -> tries s' = tries s -> waits s' = waits s -> setTry s' = setTry s ->
  (forall t, refused t s = true -> refused t s' = true) -> (allStopped s -> allStopped s') -> (armed s -> armed s') -> Inv s'.
Proof. intros [_ HP] HC **. split; [done|]. by eapply phaseOk_same. Qed.

Lemma writes_refused w s t : writes (sh s) w = true -> refused t s = true -> refused t (s <| sh := w |>) = true.
Proof.
  intros [_ Hw]%andb_true_iff. rewrite !refused_spec. cbn. rewrite forallb_forall in Hw. intros Ht.
  apply list_elem_of_In in Ht. apply Hw, existsb_exists in Ht as (k & Hk & Ek%String.eqb_eq).
  rewrite Ek. by apply list_elem_of_In.
Qed.

Lemma abort_Inv s : Inv s -> Inv (abort s).
Proof.
  intros HI. unfold abort. destruct (clientAborted s); [done|]. cbv zeta.
  match goal with |- context [abortWhere ?f _] => set (fl := f) end.
  set (s1 := s <| clientAborted := true |> <| abortControllers := abortWhere fl (abortControllers s) |>).
  assert (HC : Core s1) by (by eapply (abortWhere_Core fl); [exact (proj1 HI)|]).
  assert (H1 : Inv s1).
  { apply (same_Inv s s1); try done. by apply (allStopped_abortWhere fl). }
  clearbody s1. clear HI HC s fl. destruct H1 as [HC HP]. unfold phaseOk in HP. destruct (phase s1) as [| | | | |? ? []|] eqn:E;
    try (split; [done|unfold phaseOk; by rewrite E]); split; try same_core; exact HP.
Qed.

Lemma phaseTimer_Inv s s' : Inv s -> phaseTimer s = Some s' -> Inv s'.
Proof.
  intros [HC HP]. unfold phaseTimer. unfold phaseOk in HP.
  destruct (phase s) as [due []|i [due|] []| |due []| |due w []|]; try done; case_if; try done; intros [= <-];
    (split; [same_core|]); try exact HP.
  destruct HP as (H1 & H2 & H3 & H4 & H5 & H6). unfold phaseOk. cbn. split_and!; try done; intros H; by apply H6 in H as [_ H].
Qed.

Lemma mark_Core s : Core s -> Core (markLoopExpiredIfSafetyFired s).
Proof.
  intros HC. unfold markLoopExpiredIfSafetyFired. case_if; [|done]. destruct HC. constructor; try assumption.
  - cbn. eapply Forall_impl; [exact k_controlled0|]. intros j [b Hb]. rewrite mget_abortWhere, Hb. cbn. eauto.
  - cbn. destruct (globalPromise s) as [[]|]; try done. eapply Forall_impl; [exact k_losers0|].
    intros j Hj Hn. unfold stopped. cbn. by rewrite mget_abortWhere, (Hj Hn).
Qed.

Lemma mark_fired s : Core s -> loopSafetyFired (markLoopExpiredIfSafetyFired s) = true ->
  comboExpired (markLoopExpiredIfSafetyFired s) = true /\ allStopped (markLoopExpiredIfSafetyFired s).
Proof.
  intros []. unfold markLoopExpiredIfSafetyFired. destruct (loopSafetyFired s) eqn:E; [|congruence]. intros _. split; [done|].
  unfold allStopped. cbn. eapply Forall_impl; [exact k_controlled0|]. intros j [b Hb]. unfold stopped. cbn.
  rewrite mget_abortWhere, Hb. cbn. by rewrite orb_true_r.
Qed.

Lemma sorted_last (l : list nat) i : StronglySorted lt l -> last l = Some i -> Forall (fun j => (j < S i)%nat) l.
Proof.
  induction 1 as [|x l Hs IH Hx]; [done|]. intros Hl. destruct l as [|y l]; [injection Hl as ->; by repeat constructor; lia|].
  assert (Hi : i ∈ y :: l) by (eapply list_elem_of_lookup_2; rewrite <- last_lookup; exact Hl).
  rewrite Forall_forall in Hx. pose proof (Hx i Hi). constructor; [lia|by apply IH].
Qed.

Definition checked (s : Loop) : Loop := checkMalformed (checkTimeout c (markLoopExpiredIfSafetyFired s)).

(** The checks after a target only halt the pass. *)
Lemma checked_spec s : exists x m, checked s = (markLoopExpiredIfSafetyFired s) <| comboExpired := x |> <| comboRequestMalformed := m |> /\
  (comboExpired (markLoopExpiredIfSafetyFired s) = true -> x = true).
Proof.
  unfold checked. set (s1 := markLoopExpiredIfSafetyFired s).
  assert (H : exists x, checkTimeout c s1 = s1 <| comboExpired := x |> /\ (comboExpired s1 = true -> x = true)).
  { unfold checkTimeout. case_if; [exists true; by split|]. exists (comboExpired s1). split; [by destruct s1|done]. }
  destruct H as (x & -> & Hx). unfold checkMalformed. case_if; [exists x, true; by split|].
  exists x, (comboRequestMalformed s1). split; [by destruct s1|exact Hx].
Qed.

Lemma mark_same s : let s' := markLoopExpiredIfSafetyFired s in
  launchedNow s' = launchedNow s /\ sh s' = sh s /\ early s' = early s /\ anySuccess s' = anySuccess s /\
  globalPromise s' = globalPromise s /\ loopSafetyFired s' = loopSafetyFired s /\ loopSafetyTimer s' = loopSafetyTimer s /\
  tries s' = tries s /\ waits s' = waits s /\ setTry s' = setTry s /\ runningTasks s' = runningTasks s /\
  comboRequestMalformed s' = comboRequestMalformed s.
Proof. unfold markLoopExpiredIfSafetyFired. by case_if. Qed.

Lemma afterTarget_Inv r i s hedge hedged :
  Inv s -> phase s = Racing i hedge hedged -> ready s = true ->
  Inv (afterTarget resolveProviderId parseModel c r i s).
Proof.
  intros [HC HP] Eph Hr. unfold phaseOk in HP. rewrite Eph in HP. destruct HP as (Hl & Ht & Hf & Ha & Hn & Hh).
  unfold ready in Hr. rewrite Eph in Hr. unfold afterTarget. fold (checked s). apply walk_Inv; [|done].
  pose proof (mark_Core s HC) as HCm. pose proof (mark_fired s HC) as HFm.
  destruct (mark_same s) as (E1 & E2 & E3 & E4 & E5 & E6 & E7 & E8 & E9 & E10 & E11 & E12).
  destruct (checked_spec s) as (x & m & -> & Hx). set (sm := markLoopExpiredIfSafetyFired s) in *. clearbody sm.
  assert (HA : anySuccess s = bool_decide (is_Some (globalPromise s))) by (by destruct HC).
  constructor; try same_core.
  - cbn. rewrite E1. apply sorted_last; [by destruct HC|done].
  - intros j t Hj Hlk. cbn. rewrite E1. destruct (Ht j t Hj Hlk) as [?|H]; [by left|right].
    unfold refused, ComboLoop.refused in *. cbn. by rewrite E2.
  - unfold firstIn in *. cbn. by rewrite E3, E4, E5.
  - unfold armed in *. cbn. by rewrite E6, E7.
  - unfold tryBound in *. cbn. by rewrite E8, E9, E10.
  - cbn. rewrite E8. destruct HC as []. destruct k_started0 as [_ Hst]. apply Hst. intros Hnil. by rewrite Hnil in Hl.
  - intros Hfd. by apply HFm.
  - intros Hns Hhl. cbn. rewrite E11. unfold halted in Hhl. cbn in Hhl. rewrite E4 in Hhl.
    destruct (Hh Hns) as [-> _]. apply orb_false_iff in Hhl as [Hhl _]. apply orb_false_iff in Hhl as [Hs0 Hx0].
    rewrite HA in Hs0. rewrite Hs0 in Hr. destruct (loopSafetyFired s) eqn:Efd.
    { rewrite (Hx (proj1 (HFm E6))) in Hx0. done. }
    cbn in Hr. rewrite !orb_false_r in Hr. apply negb_true_iff, bool_decide_eq_false in Hr.
    assert (Hall : Forall (fun j => last (launchedNow s) = Some j) (runningTasks s)) by (destruct HC; by apply k_sequential0).
    destruct (runningTasks s) as [|j l]; [done|]. apply Forall_cons in Hall as [Hj _]. rewrite Hl in Hj. injection Hj as ->.
    exfalso. apply Hr. by left.
Qed.

Lemma afterPost_Inv r s : Inv s -> phase s = PostRace -> ready s = true ->
  Inv (afterRace resolveProviderId parseModel c r (markLoopExpiredIfSafetyFired s)).
Proof.
  intros [HC HP] Eph Hr. unfold phaseOk in HP. rewrite Eph in HP. destruct HP as (HH & Hf & Ha & Hn).
  unfold ready in Hr. rewrite Eph in Hr. assert (HA : anySuccess s = bool_decide (is_Some (globalPromise s))) by (by destruct HC).
  pose proof (mark_Core s HC) as HCm. pose proof (mark_fired s HC) as HFm.
  assert (HX : comboExpired s = true -> comboExpired (markLoopExpiredIfSafetyFired s) = true)
    by (unfold markLoopExpiredIfSafetyFired; by case_if).
  destruct (mark_same s) as (E1 & E2 & E3 & E4 & E5 & E6 & E7 & E8 & E9 & E10 & E11 & E12).
  set (sm := markLoopExpiredIfSafetyFired s) in *. clearbody sm. apply afterRace_Inv; try done.
  - destruct HH as [HH|HH]; [left|right].
    + unfold halted in *. rewrite E4, E12. destruct (comboExpired s); [by rewrite HX, orb_true_r|].
      rewrite orb_false_r in HH. apply orb_true_iff in HH as [Hb | Hb]; rewrite Hb; [done|apply orb_true_r].
    + intros j t Hj Hlk. rewrite E1. destruct (HH j t Hj Hlk) as [?|H]; [by left|right].
      unfold refused, ComboLoop.refused in *. by rewrite E2.
  - unfold firstIn in *. by rewrite E3, E4, E5.
  - unfold tryBound in *. by rewrite E8, E9, E10.
  - intros H. by apply HFm.
  - rewrite E4, E6, E11, HA. intros Hs. rewrite Hs in Hr. rewrite orb_false_r in Hr.
    destruct (runningTasks s); [by left|by right].
Qed.

Lemma resume_Inv r s : Inv s -> ready s = true -> Inv (resume resolveProviderId parseModel c r s).
Proof.
  intros HI Hr. pose proof HI as [HC HP]. unfold resume. unfold phaseOk in HP.
  destruct (phase s) as [due st|i hedge hedged| | | |due w done_|a] eqn:Eph.
  - destruct HP as [HQ HT]. case_if; [|apply startTry_Inv; [done|apply HQ|done]].
    apply answer_Inv; [done| |lia]. destruct HQ as (H1 & H2 & H3). apply idle_answerOk; [done|done|]. right. by left.
  - by eapply afterTarget_Inv.
  - by apply afterPost_Inv.
  - destruct HP as (H1 & H2 & H3). apply answer_Inv; [done| |done]. unfold answerOk. by rewrite H1.
  - destruct HP as (H1 & H2 & H3). unfold ready in Hr. rewrite Eph in Hr. apply bool_decide_eq_true in Hr as [a Ea]. rewrite Ea.
    apply answer_Inv; [done| |done]. unfold firstIn in H2. destruct HC as [_ Kt _ _ _ _ _ _ _ _ _ _]. rewrite Ea in Kt, H2.
    unfold answerOk. destruct (early s) as [|b l]; [done|]. split; [congruence|]. by destruct a.
  - destruct HP as (HQ & HG & HT & HA). case_if.
    + pose proof HC as []. apply dispatch_Inv; [|apply HQ|apply HQ|].
      * constructor; try assumption. cbn. lia.
      * cbn. unfold tryBound in HT. lia.
    + apply answer_Inv; [done|by apply quiet_answerOk|done].
  - unfold ready in Hr. by rewrite Eph in Hr.
Qed.

Lemma step_Inv s l s' : Inv s -> stepTo s l s' -> Inv s'.
Proof.
  intros HI. pose proof HI as [HC HP]. destruct l as [d| |l|i w|i o| | |due|r]; cbn [step].
  - case_if; [|done]. intros [= <-]. by apply (same_Inv s); try done; same_core.
  - intros [= <-]. by apply abort_Inv.
  - intros [= <-]. by apply (same_Inv s); try done; same_core.
  - case_if; [|done]. intros [= <-]. apply andb_true_iff in Heqb as [_ Hw]. apply (same_Inv s); try done; [same_core|].
    intros t. by apply writes_refused.
  - case_if; [|done]. intros [= <-]. apply bool_decide_eq_true in Heqb. by apply settle_Inv.
  - destruct (loopSafetyTimer s) as [due|]; [|done]. case_if; [|done]. intros [= <-].
    apply (same_Inv s); try done; [same_core|]. by left.
  - by apply phaseTimer_Inv.
  - case_if; [|done]. intros [= <-]. by apply (same_Inv s); try done; same_core.
  - case_if; [|done]. intros [= <-]. by apply resume_Inv.
Qed.

Lemma reachable_Inv ls s : reachable ls s -> Inv s.
Proof.
  intros (r & l & H). eapply (reach_invariant _ Inv); [|exact step_Inv|exact H].
  apply dispatch_Inv; [|done|done|done]. constructor; try done; cbn; try lia; by constructor.
Qed.

(** ** What is answered, launched and left running *)

Lemma answered_final s l s' a : phase s = Answered a -> stepTo s l s' -> phase s' = Answered a.
Proof.
  intros Ha. destruct l as [d| |l|i w|i o| | |due|r]; cbn [step]; repeat case_if; try done; try (by intros [= <-]).
  - intros [= <-]. unfold abort. destruct (clientAborted s); [done|]. cbn. by rewrite Ha.
  - intros [= <-]. unfold settle, resolveWith, abortOthers. destruct o; cbn; repeat case_if; done.
  - destruct (loopSafetyTimer s); [|done]. case_if; [|done]. by intros [= <-].
  - unfold phaseTimer. by rewrite Ha.
  - unfold ready in Heqb. by rewrite Ha in Heqb.
Qed.

Lemma not_running s : runningTasks s = [] -> forall j, j ∈ runningTasks s -> False.
Proof. intros -> j. apply not_elem_of_nil. Qed.

(** C21. The combo answers once, with the first answer that a task gave while the loop
    was racing, and with an answer of its own only when there was none.  After a success
    every other task still running has been told to stop, after the safety timeout every
    one has, and after any other answer of the loop's own no task runs at all.  (After a
    task's answer that ends the combo without success its siblings may run on.) *)
Theorem first_answer_returned ls s a :
  reachable ls s -> phase s = Answered a ->
  match early s with b :: _ => a = b | [] => fromTask a = false end /\
  (forall j, j ∈ runningTasks s ->
     match a with
     | Succeeded i _ => j <> i -> stopped s j
     | SafetyTimeout => stopped s j
     | Stopped _ _ | UnexpectedError _ => True
     | _ => False
     end) /\
  (forall l s', stepTo s l s' -> phase s' = Answered a).
Proof.
  intros [HC HP]%reachable_Inv Ha. unfold phaseOk in HP. rewrite Ha in HP. destruct HP as ((H1 & H2) & _).
  split; [exact H1|]. split; [|by intros l s'; apply answered_final].
  intros j Hj. destruct HC as [_ _ _ _ _ _ Kl _ _ _ _ _].
  destruct a; try exact I; try exact (not_running s H2 j Hj); try exact (not_running s (proj1 H2) j Hj).
  - rewrite H2 in Kl. rewrite Forall_forall in Kl. by apply Kl.
  - unfold allStopped in H2. rewrite Forall_forall in H2. by apply H2.
Qed.

(** C22. The combo gives up on its targets only when no task runs any more and each
    target was tried in the last pass or has a model that refused this very request,
    unless three targets in a row had rejected the request itself. *)
Theorem gives_up_last ls s a :
  reachable ls s -> phase s = Answered a ->
  match a with CircuitsOpen | AllTargetsSkipped _ | AllAccountsInactive _ | Unavailable _ | AllFailed _ _ => True | _ => False end ->
  runningTasks s = [] /\
  (comboRequestMalformed s = true \/
   forall j t, orderedTargets c !! j = Some t -> j ∈ launchedNow s \/ refused t s = true).
Proof.
  intros [_ HP]%reachable_Inv Ha Hk. unfold phaseOk in HP. rewrite Ha in HP. destruct HP as ((_ & H2) & _).
  assert (H : runningTasks s = [] /\ gaveUp s) by (by destruct a).
  destruct H as [H [H3|H3]]; (split; [done|]); [by left|right].
  intros j t Hj. apply (H3 j t); [by eapply lookup_lt_Some|done].
Qed.

(** C33. Targets are tried in order and each at most once in a pass, one at a time
    unless requests are hedged; the calls of a whole request are at most the number
    of targets, times the passes of a dispatch, times the dispatches that the
    cooldown settings allow. *)
Theorem targets_in_order ls s :
  reachable ls s ->
  StronglySorted lt (launchedNow s) /\
  (hedgingActive c = false -> (length (runningTasks s) <= 1)%nat /\ forall j, j ∈ runningTasks s -> last (launchedNow s) = Some j) /\
  launches s <= Z.of_nat N * (Z.max 0 (maxSetRetries c) + 1) * (Z.max 0 (maxAttempts (comboCooldownWait c)) + 1).
Proof.
  intros [HC HP]%reachable_Inv. destruct HC as [_ _ Ks Kr Kru _ _ Kq Kn [Ksd _] Kst Kat]. split; [done|]. split.
  - intros Hh. specialize (Kq Hh). rewrite Forall_forall in Kq. split; [|done].
    assert (Hnd : NoDup (runningTasks s)).
    { eapply sublist_NoDup; [|exact Kru]. clear -Ks. induction Ks as [|x l _ IH Hx]; constructor; [|done].
      rewrite Forall_forall in Hx. intros Hin. specialize (Hx x Hin). lia. }
    destruct (runningTasks s) as [|i [|j l]]; [cbn; lia..|]. apply NoDup_cons in Hnd as [Hn _].
    pose proof (Kq i ltac:(by left)) as Hi. pose proof (Kq j ltac:(right; by left)) as Hj.
    exfalso. apply Hn. assert (i = j) as -> by congruence. by left.
  - assert (HT : tries s <= tryBound s) by (unfold phaseOk in HP; destruct (phase s); intuition lia).
    unfold tryBound in HT. pose proof (sorted_bounded _ _ Ks Kr).
    assert (tries s <= (Z.max 0 (maxSetRetries c) + 1) * (Z.max 0 (maxAttempts (comboCooldownWait c)) + 1)) by nia.
    destruct Kn as [Kn|Kn]; nia.
Qed.

(** ** The loop comes to an answer by itself *)

Definition byItself (l : Label) : bool := match l with Tick _ | SafetyTimer | PhaseTimer | Go _ => true | _ => false end.

Definition comes (s : Loop) : Prop :=
  exists ls s' a, Forall (fun l => byItself l = true) ls /\ run resolveProviderId parseModel c s ls = Some s' /\ phase s' = Answered a.

Lemma comes_step l s s' : byItself l = true -> stepTo s l s' -> comes s' -> comes s.
Proof.
  intros Hl Hs (ls & s'' & a & H1 & H2 & H3). exists (l :: ls), s'', a. split; [by constructor|]. split; [|done]. cbn. by rewrite Hs.
Qed.

Lemma comes_answered s a : phase s = Answered a -> comes s.
Proof. intros H. exists [], s, a. split; [constructor|]. by split. Qed.

(** Time may pass until [due]. *)
Lemma comes_later s due : comes (s <| now := now s + Z.max 0 (due - now s) |>) -> comes s.
Proof. apply (comes_step (Tick (Z.max 0 (due - now s)))); [done|]. cbn. by rewrite (proj2 (Z.leb_le 0 _)) by lia. Qed.

Lemma due_later s due : (due <=? now (s <| now := now s + Z.max 0 (due - now s) |>)) = true.
Proof. cbn. apply Z.leb_le. lia. Qed.

Definition anyReads : Reads := mkReads false false.
Notation resumed s := (resume resolveProviderId parseModel c anyReads s).

Lemma comes_go s : ready s = true -> comes (resumed s) -> comes s.
Proof. intros Hr. apply (comes_step (Go anyReads)); [done|]. cbn. by rewrite Hr. Qed.

Lemma comes_draining s due e : phase s = Draining due e -> comes s.
Proof.
  intros Hp. apply (comes_later s due). set (s1 := s <| now := _ |>).
  assert (Hgo : forall s2, phase s2 = Draining due true -> comes s2).
  { intros s2 H2. apply comes_go; [unfold ready; rewrite H2; apply orb_true_r|]. unfold resume. rewrite H2. by eapply comes_answered. }
  destruct e; [by apply Hgo|]. apply (comes_step PhaseTimer _ (s1 <| phase := Draining due true |>)); [done| |by apply Hgo].
  pose proof (due_later s due) as Hd. fold s1 in Hd. cbn [step]. unfold phaseTimer. change (phase s1) with (phase s).
  by rewrite Hp, Hd.
Qed.

(** The safety timer fires at the latest when it is due. *)
Lemma comes_safety s : Inv s -> armed s ->
  (forall s', Inv s' -> phase s' = phase s -> loopSafetyFired s' = true -> comes s') -> comes s.
Proof.
  intros HI [Hf|[due Hd]] Hgo; [by apply Hgo|]. apply (comes_later s due). set (s1 := s <| now := _ |>).
  assert (H1 : stepTo s (Tick (Z.max 0 (due - now s))) s1) by (cbn [step]; by rewrite (proj2 (Z.leb_le 0 _)) by lia).
  assert (H2 : stepTo s1 SafetyTimer (s1 <| loopSafetyFired := true |> <| loopSafetyTimer := None |>)).
  { pose proof (due_later s due) as Hdl. fold s1 in Hdl. cbn [step]. change (loopSafetyTimer s1) with (loopSafetyTimer s).
    by rewrite Hd, Hdl. }
  apply (comes_step SafetyTimer _ _ eq_refl H2). apply Hgo; [|done|done]. by eapply step_Inv, H2; eapply step_Inv, H1.
Qed.

Lemma comes_returning s : Inv s -> phase s = Returning -> comes s.
Proof.
  intros [HC HP] Ep. unfold phaseOk in HP. rewrite Ep in HP. destruct HP as (H1 & H2 & _). unfold firstIn in H2.
  destruct (early s) as [|a l]; [done|]. apply comes_go; [unfold ready; by rewrite Ep, H2, bool_decide_true by eauto|].
  unfold resume. rewrite Ep, H2. by eapply comes_answered.
Qed.

(** A pass that has expired ends without new calls. *)
Lemma walk_halted r rest k s : halted s = true -> walk resolveProviderId parseModel c r rest k s = afterTargets resolveProviderId parseModel c r s.
Proof. intros H. destruct rest; cbn [walk]; [done|]. by rewrite H. Qed.

Lemma comes_afterRace s : Inv (afterRace resolveProviderId parseModel c anyReads s) -> loopSafetyFired s = true ->
  comes (afterRace resolveProviderId parseModel c anyReads s).
Proof.
  intros HI Hf. unfold afterRace in *. rewrite Hf in *. destruct (anySuccess s) eqn:Ha; cbn [negb andb] in *.
  - unfold settleTry in *. cbv zeta in *. change (anySuccess (finishTrace 200 s)) with (anySuccess s) in *. rewrite Ha in *.
    by apply comes_returning.
  - destruct (isNil (runningTasks s)); [by eapply comes_answered|by eapply comes_draining].
Qed.

Lemma comes_postRace s : Inv s -> phase s = PostRace -> comes s.
Proof.
  intros HI Ep. pose proof HI as [_ HP]. unfold phaseOk in HP. rewrite Ep in HP. apply comes_safety; [done|apply HP|].
  intros s1 H1 E1 Hf. rewrite Ep in E1. assert (Hr : ready s1 = true) by (unfold ready; rewrite E1, Hf; by rewrite !orb_true_r).
  apply comes_go; [done|]. pose proof (resume_Inv anyReads s1 H1 Hr) as H2. unfold resume in *. rewrite E1 in *.
  apply comes_afterRace; [done|]. by destruct (mark_same s1) as (_ & _ & _ & _ & _ & -> & _).
Qed.

Lemma comes_afterTargets s : Inv (afterTargets resolveProviderId parseModel c anyReads s) -> loopSafetyFired s = true ->
  comes (afterTargets resolveProviderId parseModel c anyReads s).
Proof. intros HI Hf. unfold afterTargets in *. case_if; [by apply comes_postRace|by apply comes_afterRace]. Qed.

Lemma comes_racing s i h hd : Inv s -> phase s = Racing i h hd -> comes s.
Proof.
  intros HI Ep. pose proof HI as [_ HP]. unfold phaseOk in HP. rewrite Ep in HP. apply comes_safety; [done|apply HP|].
  intros s1 H1 E1 Hf. rewrite Ep in E1. assert (Hr : ready s1 = true) by (unfold ready; rewrite E1, Hf; by rewrite !orb_true_r).
  apply comes_go; [done|]. pose proof (resume_Inv anyReads s1 H1 Hr) as H2. unfold resume, afterTarget in *. rewrite E1 in *.
  fold (checked s1) in *. destruct (mark_same s1) as (_ & _ & _ & _ & _ & Em & _).
  pose proof (mark_fired s1 (proj1 H1)) as [Hx _]; [by rewrite Em|].
  destruct (checked_spec s1) as (x & m & Ec & Hxx). rewrite (Hxx Hx) in Ec.
  rewrite walk_halted in * by (rewrite Ec; unfold halted; cbn; by rewrite orb_true_r).
  apply comes_afterTargets; [done|]. rewrite Ec. cbn. by rewrite Em.
Qed.

(** Where a stretch of the loop may end: a retry of the set, a wait, or somewhere
    that leads to an answer. *)
Definition endsIn (s s' : Loop) : Prop :=
  match phase s' with
  | SetDelay _ _ => setTry s' = setTry s + 1 /\ waits s' = waits s
  | CooldownWait _ _ _ => setTry s' = setTry s /\ waits s' = waits s
  | _ => True
  end.

Lemma giveUp_endsIn r s : endsIn s (giveUp resolveProviderId parseModel c r s).
Proof.
  unfold giveUp. destruct (d_wait _); [done|]. cbv zeta.
  destruct (noStatus _); [unfold giveUpUntried; by repeat case_if|].
  destruct (lockWait _ _ _ _) as [s2 d] eqn:El. apply lockWait_spec in El as ((l & ->) & _).
  destruct (d_wait d); [done|]. unfold giveUpFailed. by case_if.
Qed.

Lemma settleTry_endsIn r s : endsIn s (settleTry resolveProviderId parseModel c r s).
Proof.
  unfold settleTry. cbv zeta. case_if; [done|].
  assert (Hs : exists es, recordIfUntried (finishTrace 504 (finishTrace 200 s)) = s <| effects := es |>)
    by (unfold recordIfUntried, finishTrace, log; case_if; cbn; eauto).
  destruct Hs as [es Hs]. rewrite Hs. repeat case_if; [done|done|].
  pose proof (giveUp_endsIn r (s <| effects := es |>)) as H. unfold endsIn in *. destruct (phase _); exact H.
Qed.

Lemma walk_endsIn r rest k s : endsIn s (walk resolveProviderId parseModel c r rest k s).
Proof.
  assert (Ht : endsIn s (afterTargets resolveProviderId parseModel c r s)).
  { unfold afterTargets, afterRace. repeat case_if; try done. apply settleTry_endsIn. }
  revert k. induction rest as [|t rest IH]; intros k; cbn [walk]; [done|]. repeat case_if; [done|apply IH|done].
Qed.

Definition attemptsLeft (s : Loop) : Z := Z.max 0 (maxAttempts (comboCooldownWait c)) - attemptNo (waits s).
Definition triesLeft (s : Loop) : Z := match phase s with SetDelay _ _ => Z.max 0 (maxSetRetries c) - setTry s + 1 | _ => 0 end.
Definition left_ (s : Loop) : Z := attemptsLeft s * (Z.max 0 (maxSetRetries c) + 2) + triesLeft s.

Section Descent.
Context (n : nat) (IH : forall s, Inv s -> left_ s < Z.of_nat n -> comes s).

(** A new pass from a state with more left. *)
Lemma comes_startTry s : Inv (startTry resolveProviderId parseModel c anyReads s) ->
  attemptsLeft s * (Z.max 0 (maxSetRetries c) + 2) + (Z.max 0 (maxSetRetries c) - setTry s) < Z.of_nat n ->
  0 <= setTry s <= Z.max 0 (maxSetRetries c) ->
  comes (startTry resolveProviderId parseModel c anyReads s).
Proof.
  intros HI Hn Hs. pose proof (walk_endsIn anyReads (orderedTargets c) 0 (freshTry c s)) as He.
  fold (startTry resolveProviderId parseModel c anyReads s) in He. set (s' := startTry _ _ _ _ _) in *. clearbody s'.
  unfold endsIn in He. change (setTry (freshTry c s)) with (setTry s) in He. change (waits (freshTry c s)) with (waits s) in He.
  destruct (phase s') eqn:Ep.
  - apply IH; [done|]. destruct He as [E1 E2]. unfold left_, triesLeft, attemptsLeft in *. rewrite Ep, E1, E2. lia.
  - by eapply comes_racing.
  - by eapply comes_postRace.
  - by eapply comes_draining.
  - by eapply comes_returning.
  - apply IH; [done|]. destruct He as [E1 E2]. unfold left_, triesLeft, attemptsLeft in *. rewrite Ep, E2. lia.
  - by eapply comes_answered.
Qed.

Lemma comes_setDelay s due b : Inv s -> phase s = SetDelay due b -> left_ s <= Z.of_nat n -> comes s.
Proof.
  intros HI Ep Hn.
  assert (Hgo : forall s, Inv s -> phase s = SetDelay due true -> left_ s <= Z.of_nat n -> comes s).
  { intros s1 H1 E1 Hl. assert (Hr : ready s1 = true) by (unfold ready; by rewrite E1).
    apply comes_go; [done|]. pose proof (resume_Inv anyReads s1 H1 Hr) as H2. unfold resume in *. rewrite E1 in *.
    destruct (clientAborted s1); [by eapply comes_answered|]. destruct H1 as [[] _]. apply comes_startTry; [done| |done].
    unfold left_, triesLeft in Hl. rewrite E1 in Hl. lia. }
  destruct b; [by apply Hgo|]. apply (comes_later s due). set (s1 := s <| now := _ |>).
  assert (H1 : stepTo s (Tick (Z.max 0 (due - now s))) s1) by (cbn [step]; by rewrite (proj2 (Z.leb_le 0 _)) by lia).
  assert (H2 : stepTo s1 PhaseTimer (s1 <| phase := SetDelay due true |>)).
  { pose proof (due_later s due) as Hdl. fold s1 in Hdl. cbn [step]. unfold phaseTimer. change (phase s1) with (phase s). by rewrite Ep, Hdl. }
  apply (comes_step PhaseTimer _ _ eq_refl H2). apply Hgo; [by eapply step_Inv, H2; eapply step_Inv, H1|done|].
  unfold left_, triesLeft in *. by rewrite Ep in Hn.
Qed.

Lemma comes_wait s due w o : Inv s -> phase s = CooldownWait due w o -> left_ s <= Z.of_nat n -> comes s.
Proof.
  intros HI Ep Hn.
  assert (Hgo : forall s b, Inv s -> phase s = CooldownWait due w (Some b) -> left_ s <= Z.of_nat n -> comes s).
  { intros s1 b H1 E1 Hl. assert (Hr : ready s1 = true) by (unfold ready; by rewrite E1).
    apply comes_go; [done|]. pose proof (resume_Inv anyReads s1 H1 Hr) as H2. unfold resume in *. rewrite E1 in *.
    destruct b; [|by eapply comes_answered]. destruct H1 as [[] HP]. unfold phaseOk in HP. rewrite E1 in HP.
    destruct HP as (_ & _ & _ & Ha). cbn [orElse] in *. unfold dispatch in *. cbv zeta in *.
    destruct (0 <=? maxSetRetries c); [|by eapply comes_answered].
    apply comes_startTry; [done| |cbn; lia]. unfold left_, triesLeft, attemptsLeft in *. rewrite E1 in Hl. cbn. nia. }
  destruct o as [b|]; [by eapply Hgo|]. apply (comes_later s due). set (s1 := s <| now := _ |>).
  assert (H1 : stepTo s (Tick (Z.max 0 (due - now s))) s1) by (cbn [step]; by rewrite (proj2 (Z.leb_le 0 _)) by lia).
  assert (H2 : stepTo s1 PhaseTimer (s1 <| phase := CooldownWait due w (Some true) |>)).
  { pose proof (due_later s due) as Hdl. fold s1 in Hdl. cbn [step]. unfold phaseTimer. change (phase s1) with (phase s). by rewrite Ep, Hdl. }
  apply (comes_step PhaseTimer _ _ eq_refl H2). eapply Hgo; [by eapply step_Inv, H2; eapply step_Inv, H1|done|].
  unfold left_, triesLeft in *. by rewrite Ep in Hn.
Qed.
End Descent.

Lemma comes_Inv n s : Inv s -> left_ s < Z.of_nat n -> comes s.
Proof.
  revert s. induction n as [|n IH]; intros s HI Hn.
  - exfalso. destruct HI as [[] _]. unfold left_, triesLeft, attemptsLeft in Hn. destruct (phase s); nia.
  - destruct (phase s) eqn:Ep.
    + eapply comes_setDelay; [exact IH|done|done|lia].
    + by eapply comes_racing.
    + by eapply comes_postRace.
    + by eapply comes_draining.
    + by eapply comes_returning.
    + eapply comes_wait; [exact IH|done|done|lia].
    + by eapply comes_answered.
Qed.

(** C20. The combo always answers: from every state it can reach, whatever the tasks do
    and even if none of them ever settles, the timers and the loop alone bring it to
    an answer. *)
Theorem loop_never_hangs ls s : reachable ls s ->
  exists ls' s' a, Forall (fun l => byItself l = true) ls' /\ run resolveProviderId parseModel c s ls' = Some s' /\ phase s' = Answered a.
Proof.
  intros H%reachable_Inv. apply (comes_Inv (S (Z.to_nat (left_ s)))); [done|]. lia.
Qed.
End Facts.

(** ** Concrete runs *)

Definition exParse (s : string) : option string * option string * option string := (Some "p", None, Some s).
Definition exTarget (m : string) : Target := mkTarget m (Some "p") None false.
Definition exConfig (hedged : bool) (retries timeoutMs : Z) : Config :=
  mkConfig "priority" [exTarget "a"; exTarget "b"; exTarget "c"] hedged hedged None retries 100 timeoutMs 0 false
    (ComboCooldown.mkSettings true 10000 2 12000).
Definition exLocks : Lockouts := mkLockouts [] [] false.
Definition exStart (cf : Config) : ComboLoop.Loop (R:=Z) := start id exParse cf (mkReads false false) exLocks.
Definition exRun (cf : Config) (ls : list (Label (R:=Z))) : option (ComboLoop.Loop (R:=Z)) := run id exParse cf (exStart cf) ls.
Definition go : Label (R:=Z) := Go (mkReads false false).

Definition failedWith (status : Z) (w : Shared) : Shared :=
  w <| comboErrors := comboErrors w ++ [ComboErrors.mkEntry "m" status "e" (classifyComboOutcome status "e")] |>
    <| lastStatus := Some status |> <| recordedAttempts := recordedAttempts w + 1 |>.
Definition w1 : Shared := failedWith 500 emptyShared.
Definition w2 : Shared := failedWith 429 w1.
Definition w3 : Shared := failedWith 500 w2.

(** Every target fails in turn; the answers of its own are 502 for the mix. *)
Definition allFail : list (Label (R:=Z)) :=
  [Work 0 w1; Settle 0 Nothing; go; Work 1 w2; Settle 1 Nothing; go; Work 2 w3; Settle 2 Nothing; go].
(** The second target answers after the hedge delay of the first. *)
Definition hedgedWin : list (Label (R:=Z)) := [Tick 500; PhaseTimer; go; Settle 1 (Won 7); go; go].

Lemma run_reachable {R} rp pm cf s (ls : list (Label (R:=R))) s' pre s0 :
  reach (fun s l s' => step rp pm cf s l = Some s') s0 pre s -> run rp pm cf s ls = Some s' ->
  reach (fun s l s' => step rp pm cf s l = Some s') s0 (pre ++ ls) s'.
Proof.
  revert s pre. induction ls as [|l ls IH]; intros s pre Hr; cbn [run]; [intros [= <-]; by rewrite app_nil_r|].
  destruct (step rp pm cf s l) as [s1|] eqn:E; [|done]. intros H.
  change (l :: ls) with ([l] ++ ls). rewrite app_assoc. eapply IH; [|exact H]. econstructor; [exact Hr|exact E].
Qed.

Lemma exRun_reachable cf ls s : exRun cf ls = Some s -> reachable id exParse cf ls s.
Proof. intros H. exists (mkReads false false), exLocks. exact (run_reachable id exParse cf _ ls s [] _ (reach_refl _ _) H). Qed.

Definition exEnd (cf : Config) (ls : list (Label (R:=Z))) : ComboLoop.Loop (R:=Z) := orElse (exRun cf ls) (exStart cf).

Lemma exEnd_reachable cf ls : bool_decide (is_Some (exRun cf ls)) = true -> reachable id exParse cf ls (exEnd cf ls).
Proof. intros [s Hs]%bool_decide_eq_true. apply exRun_reachable. unfold exEnd. by rewrite Hs. Qed.

Lemma first_answer_returned_witness :
  phase (exEnd (exConfig true 0 0) hedgedWin) = Answered (Succeeded 1 7) /\
  (0 ∈ runningTasks (exEnd (exConfig true 0 0) hedgedWin))%nat /\ stopped (exEnd (exConfig true 0 0) hedgedWin) 0.
Proof.
  split; [vm_compute; reflexivity|]. split; [apply list_elem_of_In; vm_compute; auto|].
  destruct (first_answer_returned id exParse (exConfig true 0 0) hedgedWin (exEnd (exConfig true 0 0) hedgedWin) (Succeeded 1 7)
    ltac:(apply exEnd_reachable; vm_compute; reflexivity) ltac:(vm_compute; reflexivity)) as (_ & H & _).
  apply (H 0%nat); [apply list_elem_of_In; vm_compute; auto|lia].
Defined.

Lemma gives_up_last_witness :
  phase (exEnd (exConfig false 0 0) allFail) = Answered (AllFailed 502 false) /\ runningTasks (exEnd (exConfig false 0 0) allFail) = [].
Proof.
  split; [vm_compute; reflexivity|].
  apply (gives_up_last id exParse (exConfig false 0 0) allFail (exEnd (exConfig false 0 0) allFail) (AllFailed 502 false));
    [apply exEnd_reachable; vm_compute; reflexivity|vm_compute; reflexivity|exact I].
Defined.

Lemma targets_in_order_witness : launches (exEnd (exConfig false 0 0) allFail) <= 3 * (0 + 1) * (2 + 1).
Proof.
  apply (targets_in_order id exParse (exConfig false 0 0) allFail (exEnd (exConfig false 0 0) allFail)).
  apply exEnd_reachable; vm_compute; reflexivity.
Defined.

Lemma loop_never_hangs_witness :
  exists ls' s' a, Forall (fun l => byItself l = true) ls' /\ run id exParse (exConfig false 0 0) (exEnd (exConfig false 0 0) []) ls' = Some s' /\
    phase s' = Answered a.
Proof. apply (loop_never_hangs id exParse (exConfig false 0 0) []). apply exEnd_reachable. vm_compute. reflexivity. Defined.

(** ** Findings *)

(** A pass whose retry begins leaves its safety timer armed: when the second pass
    answers, that timer still runs. *)
Example safety_timer_left :
  let s := exEnd (exConfig false 1 0) (allFail ++ [Tick 100; PhaseTimer; go; Settle 0 (Won 7); go; go]) in
  phase s = Answered (Succeeded 0 7) /\ leftTimers s = [COMBO_LOOP_SAFETY_TIMEOUT_MS].
Proof. by vm_compute. Qed.

(** A timeout of the whole combo is counted anew in each pass: with a budget of one
    second a hung target of the second pass is answered after four. *)
Example budget_per_pass :
  let s := exEnd (exConfig false 1 1000)
    ([Tick 900] ++ allFail ++ [Tick 100; PhaseTimer; go; Tick 1000; SafetyTimer; go; go; Tick 2000; PhaseTimer; go]) in
  phase s = Answered SafetyTimeout /\ now s = 4000.
Proof. by vm_compute. Qed.

(** The answer after the safety timer closes no trace. *)
Example safety_leaves_trace_open :
  let s := exEnd (exConfig false 0 0) [Tick 600000; SafetyTimer; go; go; Tick 2000; PhaseTimer; go] in
  phase s = Answered SafetyTimeout /\ effects s = [].
Proof. by vm_compute. Qed.

(** A success that arrives while the loop drains is thrown away. *)
Example success_discarded :
  let s := exEnd (exConfig false 0 0) [Tick 600000; SafetyTimer; go; go; Settle 0 (Won 7); go] in
  phase s = Answered SafetyTimeout /\ globalPromise s = Some (Succeeded 0 7).
Proof. by vm_compute. Qed.

(** An answer that ends the combo does not stop the hedged calls. *)
Example fatal_leaves_sibling :
  let s := exEnd (exConfig true 0 0) [Tick 500; PhaseTimer; go; Settle 1 (Fatal 9); go; go] in
  phase s = Answered (Stopped 1 9) /\ runningTasks s = [0%nat] /\ mget 0%nat (abortControllers s) = Some false.
Proof. by vm_compute. Qed.

(** The text of the safety timeout names targets with the identifiers of their
    connections, which the other timeout cuts. *)
Example safety_text_leaks :
  let key := "proxy/0123456789abcdef01" in
  let s := (exStart (exConfig false 0 1000)) <| sh := set_field (proj := comboErrors) (fun _ => [ComboErrors.mkEntry key 500 "e" provider]) emptyShared |> in
  includes (safetyText (exConfig false 0 1000) (fun _ => "n") s) key = true /\
  includes (timeoutText (exConfig false 0 1000) (fun _ => "n") s) key = false.
Proof. by vm_compute. Qed.
