(* ===== verification/StreamHelpers.v ===== *)
(** * Helpers of the stream translators

    The placeholder of hidden reasoning ([open-sse/utils/reasoningPlaceholder.ts]),
    finish reasons ([finishReason.ts]), fragments of tool arguments
    ([toolCallArguments.ts]), tool ids ([translator/helpers/schemaCoercion.ts]) and the
    stripper of an echoed directive ([directivePreambleStripper.ts]).  Text is ASCII. *)
From Stdlib Require Import String Ascii.
From S2P Require Import Prelude JsMap JsString ComboSteps ThinkTags.
#[local] Open Scope string_scope.
#[local] Open Scope list_scope.

(** ** The placeholder *)

Definition NON_ANTHROPIC_THINKING_PLACEHOLDER : text := str "(prior reasoning summary unavailable)".

Definition isInternalReasoningPlaceholder (value : text) : bool :=
  bool_decide (trimText value = NON_ANTHROPIC_THINKING_PLACEHOLDER).

(** [s.replaceAll(pat, "")] for a pattern that is not empty; [skip] characters of a
    match are still to be passed over. *)
Fixpoint removeFrom (pat : text) (skip : nat) (s : text) : text :=
  match s with
  | [] => []
  | c :: s' =>
      match skip with
      | S k => removeFrom pat k s'
      | O => if startsWith s pat then removeFrom pat (length pat - 1) s' else c :: removeFrom pat 0 s'
      end
  end.

Definition removeAll (pat s : text) : text := removeFrom pat 0 s.

Definition stripInternalReasoningPlaceholder (value : text) : text :=
  if contains value NON_ANTHROPIC_THINKING_PLACEHOLDER then
    let stripped := removeAll NON_ANTHROPIC_THINKING_PLACEHOLDER value in
    if bool_decide (trimText stripped = []) then [] else stripped
  else value.

(** The pattern /(^|\/)mimo/i. *)
Definition namesMimo (model : string) : bool :=
  existsb (fun part => String.prefix "mimo" part) (split "/" (toLowerCase model)).

Definition requiresReasoningContentPresence (provider model : string) : bool :=
  let normalizedProvider := toLowerCase (trim provider) in
  let normalizedModel := toLowerCase (trim model) in
  String.eqb normalizedProvider "xiaomi-mimo" || namesMimo normalizedModel ||
  existsb (String.eqb normalizedProvider) ["opencode"; "opencode-go"; "opencode-zen"].

(** ** Finish reasons *)

Definition OPENAI_FINISH_REASONS : list string := ["stop"; "length"; "tool_calls"; "content_filter"; "function_call"].
Definition SAFETY_FINISH_REASONS : list string :=
  ["safety"; "recitation"; "blocklist"; "prohibited_content"; "content_filtered"; "policy_violation"; "malformed_response"].
Definition CLAUDE_TO_OPENAI_FINISH_REASONS : jsmap string string :=
  [("end_turn", "stop"); ("stop_sequence", "stop"); ("pause_turn", "stop"); ("refusal", "content_filter");
   ("tool_use", "tool_calls"); ("model_context_window_exceeded", "length")].
Definition ABORT_FINISH_REASONS : list string :=
  ["malformed_function_call"; "unexpected_tool_call"; "finish_reason_unspecified"; "other"; "language"; "no_image"].
Definition MALFORMED_TOOL_CALL_FINISH_REASONS : list string := ["malformed_function_call"; "unexpected_tool_call"].

Definition oneOf (s : string) (l : list string) : bool := existsb (String.eqb s) l.

(** Values that are no strings are [None]. *)
Definition isAbortFinishReason (value : option string) : bool :=
  match value with Some s => oneOf (toLowerCase s) ABORT_FINISH_REASONS | None => false end.

Definition isMalformedToolCallFinishReason (value : option string) : bool :=
  match value with Some s => oneOf (toLowerCase s) MALFORMED_TOOL_CALL_FINISH_REASONS | None => false end.

Definition normalizeOpenAICompatibleFinishReason (value : string) : string :=
  let normalized := toLowerCase value in
  if oneOf normalized OPENAI_FINISH_REASONS then normalized
  else if String.eqb normalized "max_tokens" then "length"
  else if oneOf normalized SAFETY_FINISH_REASONS then "content_filter"
  else orElse (mget normalized CLAUDE_TO_OPENAI_FINISH_REASONS) normalized.

Definition normalizeOpenAICompatibleFinishReasonString (value : option string) (fallback : string) : string :=
  match value with
  | Some v => let normalized := normalizeOpenAICompatibleFinishReason v in if isEmpty normalized then fallback else normalized
  | None => fallback
  end.

(** ** Fragments of tool arguments *)

Section Arguments.
(** The text of a JSON value. *)
Context (stringify : json -> text).

Definition normalizeIncomingFragment (incoming : option json) : text :=
  match incoming with
  | Some (VStr s) => str s
  | Some (VObj _ as v) | Some (VArr _ as v) => stringify v
  | _ => []
  end.

Definition appendToolCallArgumentDelta (existing : text) (incoming : option json) : text :=
  let next := normalizeIncomingFragment incoming in
  match existing, next with
  | [], _ => next
  | _, [] => existing
  | _, _ => if bool_decide (next = existing) then existing else if startsWith next existing then next else existing ++ next
  end.
End Arguments.

Definition idChar (c : ascii) : bool :=
  let n := N_of_ascii c in
  ((48 <=? n)%N && (n <=? 57)%N) || ((65 <=? n)%N && (n <=? 90)%N) || ((97 <=? n)%N && (n <=? 122)%N) || (n =? 95)%N || (n =? 45)%N.

(** For an id that is not empty; an empty one is replaced by a random one. *)
Fixpoint sanitizeToolId (id : string) : string :=
  match id with
  | EmptyString => EmptyString
  | String c s => String (if idChar c then c else "_"%char) (sanitizeToolId s)
  end.

(** ** The stripper of a directive *)

Record Stripper := mkStripper { done_ : bool; position : nat }.

Definition newStripper : Stripper := mkStripper false 0.

(** The common prefix of the directive from [position] and the text: how much of the
    directive matched, and the text that is left. *)
Fixpoint matchDirective (directive : text) (t : text) : nat * text :=
  match directive, t with
  | d :: directive, c :: t' => if Ascii.eqb c d then let '(n, r) := matchDirective directive t' in (S n, r) else (O, t)
  | _, _ => (O, t)
  end.

Definition pushStripper (directive : text) (t : text) (s : Stripper) : Stripper * text :=
  if done_ s then (s, t)
  else
    match directive, t with
    | [], _ | _, [] => (s, t)
    | _, _ =>
        let '(n, rest) := matchDirective (drop (position s) directive) t in
        let position := (position s + n)%nat in
        if bool_decide (position = length directive) then (mkStripper true position, rest)
        else match rest with
             | _ :: _ => (mkStripper true position, take position directive ++ t)
             | [] => (mkStripper false position, [])
             end
    end.

Definition flushStripper (directive : text) (s : Stripper) : Stripper * text :=
  if done_ s then (s, []) else (mkStripper true 0, take (position s) directive).

(** *** What the stripper lets through *)

Definition feedStripper (directive : text) (acc : Stripper * text) (chunk : text) : Stripper * text :=
  let '(s, out) := acc in let '(s, t) := pushStripper directive chunk s in (s, out ++ t).

(** The output of a stream of chunks, flushed at its end. *)
Definition stripStream (directive : text) (chunks : list text) : text :=
  let '(s, out) := foldl (feedStripper directive) (newStripper, []) chunks in out ++ (flushStripper directive s).2.

Lemma matchDirective_spec directive t n rest : matchDirective directive t = (n, rest) ->
  t = take n directive ++ rest /\ (n <= length directive)%nat /\
  (rest = [] \/ n = length directive \/ exists d c, directive !! n = Some d /\ head rest = Some c /\ c <> d).
Proof.
  revert t n rest. induction directive as [|d directive IH]; intros t n rest; cbn [matchDirective].
  - intros [= <- <-]. split; [done|]. cbn. split; [lia|auto].
  - destruct t as [|c t]; [intros [= <- <-]; cbn; split; [done|]; split; [lia|auto]|].
    destruct (Ascii.eqb_spec c d) as [->|Hn].
    + destruct (matchDirective directive t) as [m r] eqn:E. intros [= <- <-]. destruct (IH _ _ _ E) as (-> & Hm & Hr).
      cbn. split; [done|]. split; [lia|]. destruct Hr as [Hr|[Hr|Hr]]; [by left|right; left; lia|by right; right].
    + intros [= <- <-]. cbn. split; [done|]. split; [lia|]. right. right. exists d, c. done.
Qed.

Lemma push_done directive t s : done_ s = true -> pushStripper directive t s = (s, t).
Proof. unfold pushStripper. by intros ->. Qed.

(** While the stream is a part of the directive nothing leaves; from its end on
    everything does. *)
Definition Stripping (directive before : text) (acc : Stripper * text) : Prop :=
  let '(s, out) := acc in
  if done_ s then startsWith before directive = true /\ out = drop (length directive) before
  else (position s < length directive)%nat /\ before = take (position s) directive /\ out = [].

Lemma startsWith_app directive rest : startsWith (directive ++ rest) directive = true.
Proof. induction directive as [|d l IH]; cbn; [by destruct rest|]. by rewrite (proj2 (Ascii.eqb_eq d d) eq_refl), IH. Qed.

Lemma startsWith_app_long' s p rest : startsWith s p = true -> startsWith (s ++ rest) p = true.
Proof. intros H. by rewrite startsWith_app_long by (by apply startsWith_length). Qed.

Lemma startsWith_split s p : startsWith s p = true -> s = p ++ drop (length p) s.
Proof. intros H. rewrite <- (take_drop (length p) s) at 1. by rewrite startsWith_take. Qed.

Lemma feed_Stripping directive before acc chunk after :
  directive <> [] -> startsWith (before ++ chunk ++ after) directive = true ->
  Stripping directive before acc -> Stripping directive (before ++ chunk) (feedStripper directive acc chunk).
Proof.
  destruct acc as [s out]. unfold feedStripper, Stripping. intros Hd Hs. destruct (done_ s) eqn:Ed.
  - intros (H1 & ->). rewrite (push_done _ _ _ Ed), Ed. split; [by apply startsWith_app_long'|].
    rewrite drop_app_le; [done|by apply startsWith_length].
  - intros (Hp & -> & ->). unfold pushStripper. rewrite Ed. destruct directive as [|d0 D]; [done|]. remember (d0 :: D) as D' eqn:HD'. clear HD' d0 D.
    destruct chunk as [|c0 C]; [by rewrite Ed, app_nil_r|]. remember (c0 :: C) as C' eqn:HC'. clear HC' c0 C.
    destruct (matchDirective (drop (position s) D') C') as [n rest] eqn:E.
    destruct (matchDirective_spec _ _ _ _ E) as (Ht & Hn & Hr). rewrite length_drop in Hn, Hr.
    assert (Hpre : take (position s) D' ++ take n (drop (position s) D') = take (position s + n) D').
    { rewrite <- (take_drop (position s) (take (position s + n) D')), take_take, Nat.min_l by lia. f_equal.
      by rewrite skipn_firstn_comm, Nat.add_comm, Nat.add_sub. }
    assert (Hcat : take (position s) D' ++ C' = take (position s + n) D' ++ rest) by (by rewrite Ht, app_assoc, Hpre).
    rewrite Hcat. case_bool_decide as Hl.
    + cbn. rewrite Hl, firstn_all. split; [apply startsWith_app|by rewrite drop_app_length].
    + destruct rest as [|c rest]; [cbn; rewrite app_nil_r; split; [lia|done]|]. exfalso.
      destruct Hr as [?|[?|(d & c' & Hd1 & Hc & Hne)]]; [done|lia|]. injection Hc as <-.
      rewrite lookup_drop in Hd1. apply Hne.
      rewrite app_assoc, Hcat in Hs. pose proof (lookup_lt_Some _ _ _ Hd1) as Hlt. apply startsWith_split in Hs.
      apply (f_equal (lookup (position s + n)%nat)) in Hs. rewrite lookup_app_l in Hs by (rewrite length_app, length_take; cbn; lia).
      rewrite lookup_app_r in Hs by (rewrite length_take; lia). rewrite length_take, Nat.min_l, Nat.sub_diag in Hs by lia.
      rewrite lookup_app_l, Hd1 in Hs by lia. cbn in Hs. congruence.
Qed.

(** An answer that begins with the directive loses exactly the directive, however it
    is cut into chunks. *)
Lemma directive_stripped directive chunks :
  directive <> [] -> startsWith (concat chunks) directive = true ->
  stripStream directive chunks = drop (length directive) (concat chunks).
Proof.
  intros Hd Hs. unfold stripStream.
  assert (H : forall before acc, Stripping directive before acc -> startsWith (before ++ concat chunks) directive = true ->
    Stripping directive (before ++ concat chunks) (foldl (feedStripper directive) acc chunks)).
  { clear Hs. induction chunks as [|c l IH]; intros before acc HS Hp; cbn [foldl concat] in *; [by rewrite app_nil_r|].
    rewrite app_assoc. apply IH; [by eapply feed_Stripping|by rewrite <- app_assoc]. }
  specialize (H [] (newStripper, [])). destruct (foldl _ _ _) as [s out]. cbn [app] in H.
  assert (H0 : Stripping directive [] (newStripper, [])) by (cbn; destruct directive; [done|]; cbn; split; [lia|done]).
  specialize (H H0 Hs). unfold Stripping in H. unfold flushStripper. destruct (done_ s); cbn [snd].
  - rewrite app_nil_r. by destruct H as [_ ->].
  - destruct H as (H1 & H2 & ->). exfalso. apply startsWith_length in Hs. rewrite H2, length_take in Hs. lia.
Qed.

(** ** Findings *)

(** An answer that only begins like the directive is sent with the common beginning
    twice, when both are in one chunk. *)
Example stripper_duplicates :
  stripStream (str "You must answer in Korean.") [str "You are right."] = str "You You are right.".
Proof. vm_compute. reflexivity. Qed.

(** A fragment that repeats all the arguments so far is taken for a snapshot, though
    it may be the next part: the name of this field is an open brace. *)
Example fragment_taken_for_snapshot :
  let first := "{" +:+ String "034" EmptyString in
  appendToolCallArgumentDelta (fun _ => []) (str first) (Some (VStr (first +:+ ": 1}"))) = str (first +:+ ": 1}").
Proof. vm_compute. reflexivity. Qed.
