(* ===== verification/MarkdownBoundary.v ===== *)
(** * Markdown tokens at the end of a chunk: [translator/helpers/markdownBoundary.ts]

    A streamed text may be cut inside a fence or an emphasis.  The splitter holds a
    short suffix back for the next chunk; a scan of the backticks seen so far tells
    it whether a run opens or closes.  Text is ASCII. *)
From Stdlib Require Import String Ascii.
From S2P Require Import Prelude ThinkTags StreamHelpers.
#[local] Open Scope Z_scope.

Definition MAX_HOLD_CHARS : Z := 32.

Definition tick : ascii := "`"%char.
Definition star : ascii := "*"%char.
Definition space : ascii := " "%char.
Definition backslash : ascii := "\"%char.
Definition isTick (c : ascii) : bool := Ascii.eqb c tick.
Definition isStar (c : ascii) : bool := Ascii.eqb c star.
Definition isBreak (c : ascii) : bool := Ascii.eqb c "010"%char || Ascii.eqb c "013"%char.
Definition isBlank (c : ascii) : bool := Ascii.eqb c space || Ascii.eqb c "009"%char.

Definition isAlnum (c : ascii) : bool :=
  let n := N_of_ascii c in
  ((48 <=? n)%N && (n <=? 57)%N) || ((65 <=? n)%N && (n <=? 90)%N) || ((97 <=? n)%N && (n <=? 122)%N) || (n =? 95)%N.

(** The characters of an inline run that may still go on: letters, digits and _+#-. *)
Definition isInline (c : ascii) : bool := isAlnum c || existsb (Ascii.eqb c) ["+"; "#"; "-"]%char.

(** The character before the suffix, if any. *)
Definition isOpenerContext (prev : option ascii) : bool := match prev with Some c => negb (isAlnum c) | None => true end.

(** How many characters at the start satisfy [f]. *)
Fixpoint run (f : ascii -> bool) (s : text) : nat := match s with c :: s => if f c then S (run f s) else O | [] => O end.

Definition all (f : ascii -> bool) (s : text) : bool := forallb f s.

(** ** The scan of backticks *)

Record Scan := mkScan {
  openRun : Z;
  fenceRun : Z;
  fenceOpening : bool;
  fenceClosingRun : Z;
  lineIndent : Z;
  backslashes : Z;
}.

#[export] Instance eta_Scan : Eta Scan := fun s =>
  mkScan (openRun s) (fenceRun s) (fenceOpening s) (fenceClosingRun s) (lineIndent s) (backslashes s).

Definition lengthOf (n : nat) : Z := Z.of_nat n.

(** After a line break, a blank or another character behind the closing run. *)
Definition closingTurn (c : ascii) (rest : text) (s : Scan) : Scan * nat :=
  if isBreak c then (s <| fenceRun := 0 |> <| fenceClosingRun := 0 |> <| lineIndent := 0 |>, 1%nat)
  else if isTick c && (lineIndent s =? -1) then
    let n := run isTick (c :: rest) in (s <| fenceClosingRun := fenceClosingRun s + lengthOf n |>, n)
  else if isBlank c then (s <| lineIndent := 4 |>, 1%nat)
  else (s <| fenceClosingRun := 0 |> <| lineIndent := 4 |>, 1%nat).

(** Inside a fence. *)
Definition fenceTurn (c : ascii) (rest : text) (s : Scan) : Scan * nat :=
  if isBreak c then (s <| lineIndent := 0 |>, 1%nat)
  else if Ascii.eqb c space && (lineIndent s <? 4) then (s <| lineIndent := lineIndent s + 1 |>, 1%nat)
  else if isTick c && (lineIndent s <=? 3) then
    let n := run isTick (c :: rest) in
    (if lengthOf n >=? fenceRun s then s <| fenceClosingRun := lengthOf n |> <| lineIndent := -1 |>
     else s <| lineIndent := 4 |>, n)
  else (s <| lineIndent := 4 |>, 1%nat).

(** Outside. *)
Definition plainTurn (c : ascii) (rest : text) (s : Scan) : Scan * nat :=
  if negb (isTick c) then
    let s := if isBreak c then s <| lineIndent := 0 |>
             else if Ascii.eqb c space && (lineIndent s <? 4) then s <| lineIndent := lineIndent s + 1 |>
             else s <| lineIndent := 4 |> in
    (if openRun s =? 0 then s <| backslashes := if Ascii.eqb c backslash then backslashes s + 1 else 0 |> else s, 1%nat)
  else if (openRun s =? 0) && (Z.rem (backslashes s) 2 =? 1) then (s <| backslashes := 0 |> <| lineIndent := 4 |>, 1%nat)
  else
    let n := run isTick (c :: rest) in
    let s := if (openRun s =? 0) && (lengthOf n >=? 3) && (lineIndent s <=? 3)
             then s <| fenceRun := lengthOf n |> <| fenceOpening := true |> <| lineIndent := -1 |>
             else if openRun s =? 0 then s <| openRun := lengthOf n |>
             else if openRun s =? lengthOf n then s <| openRun := 0 |> else s in
    let s := if fenceOpening s then s else s <| lineIndent := 4 |> in
    (s <| backslashes := 0 |>, n).

Definition settledTurn (c : ascii) (rest : text) (s : Scan) : Scan * nat :=
  if negb (fenceClosingRun s =? 0) then closingTurn c rest s
  else if negb (fenceRun s =? 0) then fenceTurn c rest s
  else plainTurn c rest s.

(** One turn of the loop; the turn that gives up an opening without advancing is
    taken together with the next. *)
Definition turn (c : ascii) (rest : text) (s : Scan) : Scan * nat :=
  if fenceOpening s then
    if isBreak c then (s <| fenceOpening := false |> <| lineIndent := 0 |>, 1%nat)
    else if isTick c then
      if lineIndent s =? -1 then
        let n := run isTick (c :: rest) in (s <| fenceRun := fenceRun s + lengthOf n |>, n)
      else settledTurn c rest (s <| openRun := fenceRun s |> <| fenceRun := 0 |> <| fenceOpening := false |>)
    else (s <| lineIndent := 4 |>, 1%nat)
  else settledTurn c rest s.

Fixpoint scan (skip : nat) (t : text) (s : Scan) : Scan :=
  match t with
  | [] => s
  | c :: rest =>
      match skip with
      | S k => scan k rest s
      | O => let '(s, n) := turn c rest s in scan (n - 1) rest s
      end
  end.

(** What one chunk leaves for the next. *)
Record MdState := mkMd {
  codeSpanRun : Z;
  trailingBackslash : bool;
  mdFenceRun : Z;
  mdFenceOpening : bool;
  mdFenceClosingRun : Z;
  mdLineIndent : Z;
}.

Definition noMd : MdState := mkMd 0 false 0 false 0 0.

Definition scanBacktickState (t : text) (m : MdState) : MdState :=
  let s := scan 0 t (mkScan (codeSpanRun m) (mdFenceRun m) (mdFenceOpening m) (mdFenceClosingRun m) (mdLineIndent m)
                       (if (codeSpanRun m =? 0) && (mdFenceRun m =? 0) && trailingBackslash m then 1 else 0)) in
  mkMd (openRun s) ((openRun s =? 0) && (fenceRun s =? 0) && (Z.rem (backslashes s) 2 =? 1))
    (fenceRun s) (fenceOpening s) (fenceClosingRun s) (lineIndent s).

(** ** The split *)

(** The first position whose suffix matches [ok] and that does not follow a
    character of [f]: the text before, and the suffix. *)
Fixpoint suffixWhere (f : ascii -> bool) (ok : text -> bool) (prev : option ascii) (s : text) : option (option ascii * text) :=
  match s with
  | [] => None
  | c :: s' =>
      if negb (match prev with Some p => f p | None => false end) && ok s then Some (prev, s)
      else suffixWhere f ok (Some c) s'
  end.

(** /(`{1,2}[A-Za-z0-9_+#-]*|`{3,}[^`\r\n]+)$/ from here on. *)
Definition fenceSuffix (s : text) : bool :=
  let n := run isTick s in
  let rest := drop n s in
  ((1 <=? n)%nat && (n <=? 2)%nat && all isInline rest) ||
  ((3 <=? n)%nat && negb (bool_decide (rest = [])) && all (fun c => negb (isTick c) && negb (isBreak c)) rest).

(** /\*{1,3}$/ from here on. *)
Definition emphSuffix (s : text) : bool :=
  (1 <=? length s)%nat && (length s <=? 3)%nat && all isStar s.

Record Split := mkSplit { emitted : text; held : text; after : MdState }.

Definition splitMarkdownBoundary (t : text) (m : MdState) : Split :=
  match t with
  | [] => mkSplit [] [] noMd
  | _ =>
      let emph :=
        match suffixWhere isStar emphSuffix None t with
        | Some (prev, suffix) =>
            if isOpenerContext prev then
              let e := take (length t - length suffix) t in mkSplit e suffix (scanBacktickState e m)
            else mkSplit t [] (scanBacktickState t m)
        | None => mkSplit t [] (scanBacktickState t m)
        end in
      match suffixWhere isTick fenceSuffix None t with
      | Some (prev, suffix) =>
          let e := take (length t - length suffix) t in
          let before := scanBacktickState e m in
          let n := lengthOf (run isTick suffix) in
          if (lengthOf (length suffix) <=? MAX_HOLD_CHARS) && (mdFenceRun before =? 0) && negb (codeSpanRun before =? n) &&
             ((codeSpanRun before >? n) || isOpenerContext prev)
          then mkSplit e suffix before
          else emph
      | None => emph
      end
  end.

(** ** Nothing is lost *)

Lemma suffixWhere_spec f ok prev s p suffix : suffixWhere f ok prev s = Some (p, suffix) ->
  ok suffix = true /\ s = take (length s - length suffix) s ++ suffix.
Proof.
  revert prev. induction s as [|c s IH]; intros prev; cbn [suffixWhere]; [done|].
  destruct (_ && ok (c :: s)) eqn:E.
  - intros [= <- <-]. apply andb_true_iff in E as [_ E]. split; [done|]. by rewrite Nat.sub_diag.
  - intros H. destruct (IH _ H) as (Hok & Hs). split; [done|].
    assert (Hl : (length suffix <= length s)%nat) by (rewrite Hs, length_app; lia).
    cbn [length]. rewrite Nat.sub_succ_l by done. cbn. by rewrite <- Hs.
Qed.

(** What is sent and what is held are the text; what is held has at most 32
    characters. *)
Lemma split_lossless t m :
  emitted (splitMarkdownBoundary t m) ++ held (splitMarkdownBoundary t m) = t /\
  Z.of_nat (length (held (splitMarkdownBoundary t m))) <= MAX_HOLD_CHARS.
Proof.
  unfold splitMarkdownBoundary. destruct t as [|c0 t0]; [done|]. remember (c0 :: t0) as t eqn:Ht. clear Ht c0 t0.
  assert (He : let x := match suffixWhere isStar emphSuffix None t with
                        | Some (prev, suffix) =>
                            if isOpenerContext prev then
                              let e := take (length t - length suffix) t in mkSplit e suffix (scanBacktickState e m)
                            else mkSplit t [] (scanBacktickState t m)
                        | None => mkSplit t [] (scanBacktickState t m)
                        end in emitted x ++ held x = t /\ Z.of_nat (length (held x)) <= MAX_HOLD_CHARS).
  { destruct (suffixWhere isStar emphSuffix None t) as [[prev suffix]|] eqn:E; cbn; [|by rewrite app_nil_r].
    apply suffixWhere_spec in E as (Hok & Hs). case_if; cbn; [|by rewrite app_nil_r]. rewrite <- Hs. split; [done|].
    unfold emphSuffix in Hok. apply andb_true_iff in Hok as [Hok _]. apply andb_true_iff in Hok as [_ Hok].
    apply Nat.leb_le in Hok. unfold MAX_HOLD_CHARS. lia. }
  destruct (suffixWhere isTick fenceSuffix None t) as [[prev suffix]|] eqn:E; [|exact He].
  cbv zeta. case_if; [|exact He]. apply suffixWhere_spec in E as (_ & Hs). cbn. rewrite <- Hs. split; [done|].
  unfold lengthOf in *. to_prop. lia.
Qed.

(** ** Examples *)

Example holds_fence : let x := splitMarkdownBoundary (str "see: ```py") noMd in (emitted x, held x) = (str "see: ", str "```py").
Proof. vm_compute. reflexivity. Qed.

Example closes_span : let x := splitMarkdownBoundary (str "a `b") noMd in
  (held x, held (splitMarkdownBoundary (str "`b c` d") (after x))) = (str "`b", []).
Proof. vm_compute. reflexivity. Qed.
