(* ===== verification/InvokeBlocks.v ===== *)
(** * Tool calls written as text: [translator/response/openai-to-claude.ts]

    [extractXmlInvokeBlocks]: some models write a tool call into the answer's text, in
    one of three notations.  The extractor takes complete calls out and keeps an
    incomplete one for the next chunk.  JSON parsing is a
    parameter; text is ASCII. *)
From Stdlib Require Import String Ascii.
From S2P Require Import Prelude JsMap JsString ComboSteps ToolPairs ThinkTags StreamHelpers.
#[local] Open Scope nat_scope.

Definition quote : ascii := "034"%char.

(** ** The patterns *)

(** The rest after the literal [p]. *)
Definition literal (p s : text) : option text := if startsWith s p then Some (drop (length p) s) else None.

(** \s* and \s+ . *)
Definition blanks (s : text) : text := dropSpaces s.
Definition blanks1 (s : text) : option text := match s with c :: s => if isSpaceChar c then Some (dropSpaces s) else None | [] => None end.

(** The characters before the first [stop], and the rest from it on. *)
Fixpoint until (stop : ascii) (s : text) : text * text :=
  match s with
  | c :: s' => if Ascii.eqb c stop then ([], s) else let '(a, b) := until stop s' in (c :: a, b)
  | [] => ([], [])
  end.

(** A tag with the attribute name: what it names, and the rest. *)
Definition nameAttribute (tag : string) (s : text) : option (text * text) :=
  r ← literal (str tag) s; r ← blanks1 r; r ← literal (str "name=" ++ [quote]) r;
  let '(name, r) := until quote r in r ← literal [quote] r; Some (name, r).

Definition matchInvoke (s : text) : option (text * text) :=
  '(name, r) ← nameAttribute "<invoke" s; r ← literal [">"%char] (blanks r); Some (name, r).

Definition matchToolCallTag (s : text) : option (text * text) := r ← literal (str "<tool_call>") s; Some ([], r).

Definition isWord (c : ascii) : bool :=
  let n := N_of_ascii c in
  ((48 <=? n)%N && (n <=? 57)%N) || ((65 <=? n)%N && (n <=? 90)%N) || ((97 <=? n)%N && (n <=? 122)%N) || (n =? 95)%N.

Fixpoint spanChars (f : ascii -> bool) (s : text) : text * text :=
  match s with
  | c :: s' => if f c then let '(a, b) := spanChars f s' in (c :: a, b) else ([], s)
  | [] => ([], [])
  end.

Definition matchToolCallText (s : text) : option (text * text) :=
  r ← literal (str "TOOL_CALL") s; r ← blanks1 r;
  let '(name, r) := spanChars isWord r in
  match name with [] => None | _ => r ← literal [":"%char] r; Some (name, blanks r) end.

Inductive kind := invoke | tool_call_tag | tool_call_text.

(** The first match of any of the three: how far away, which, the name, and the text
    after the match. *)
Fixpoint findOpener (s : text) : option (nat * kind * text * text) :=
  match matchInvoke s with
  | Some (name, r) => Some (0, invoke, name, r)
  | None =>
      match matchToolCallTag s with
      | Some (name, r) => Some (0, tool_call_tag, name, r)
      | None =>
          match matchToolCallText s with
          | Some (name, r) => Some (0, tool_call_text, name, r)
          | None =>
              match s with
              | [] => None
              | _ :: s => '(i, k, name, r) ← findOpener s; Some (S i, k, name, r)
              end
          end
      end
  end.

(** The parameters inside a block, in order; a later one replaces an earlier of the
    same name. *)
Definition matchParameter (s : text) : option (text * text * text) :=
  '(name, r) ← nameAttribute "<parameter" s;
  let '(_, r) := until ">"%char r in
  r ← literal [">"%char] r;
  i ← indexOf (str "</parameter>") r;
  Some (name, take i r, drop (i + 12) r).

Fixpoint parameters (fuel : nat) (s : text) (args : jsmap string json) : jsmap string json :=
  match fuel with
  | O => args
  | S fuel =>
      match matchParameter s with
      | Some (name, value, rest) =>
          parameters fuel rest (mset (string_of_list_ascii name) (VStr (string_of_list_ascii (trimText value))) args)
      | None => match s with [] => args | _ :: s => parameters fuel s args end
      end
  end.

(** The end of the JSON object that follows a TOOL_CALL: brackets are counted outside
    strings. *)
Fixpoint jsonEnd (s : text) (depth : Z) (inString escape : bool) : option nat :=
  match s with
  | [] => None
  | c :: s =>
      if escape then S <$> jsonEnd s depth inString false
      else if Ascii.eqb c "\"%char && inString then S <$> jsonEnd s depth inString true
      else if Ascii.eqb c quote then S <$> jsonEnd s depth (negb inString) false
      else if inString then S <$> jsonEnd s depth inString false
      else if Ascii.eqb c "{"%char then S <$> jsonEnd s (depth + 1)%Z inString false
      else if Ascii.eqb c "}"%char then
        if (depth - 1 =? 0)%Z then Some 1 else S <$> jsonEnd s (depth - 1)%Z inString false
      else S <$> jsonEnd s depth inString false
  end.

(** ** The extractor *)

Record XmlToolCall := mkCall { x_id : string; x_name : json; x_args : json }.

Section Extract.
(** [None] when JSON.parse throws; the text of the clock. *)
Context (parseJson : text -> option json) (stamp : string).

Definition orJson (a b : option json) : option json := if truthy a then a else b.

Definition propOf (k : string) (v : json) : option json := match v with VObj fs => mget k fs | _ => None end.

(** The call of a tool_call tag: [None] when the code throws. *)
Definition taggedCall (inner : text) : option (option (json * json)) :=
  parsed ← parseJson inner;
  match parsed with
  | VNull => None
  | _ =>
      let name := orElse (orJson (propOf "name" parsed) (orJson (propOf "tool_name" parsed) (Some (VStr "")))) (VStr "") in
      let rawArgs := orElse (orJson (propOf "arguments" parsed) (orJson (propOf "args" parsed)
                                      (orJson (propOf "parameters" parsed) (Some (VObj []))))) (VObj []) in
      args ← (match rawArgs with VStr s => parseJson (str s) | v => Some v end);
      Some (if truthy (Some name) then Some (name, args) else None)
  end.

Definition callId (prefix : string) (calls : list XmlToolCall) : string :=
  (prefix +:+ stamp +:+ "_" +:+ pretty (length calls))%string.

(** What is left for the next chunk, the text, and the calls. *)
Record Extracted := mkExtracted { buffer : text; cleaned : text; toolCalls : list XmlToolCall }.

Fixpoint extractFuel (fuel : nat) (remaining clean : text) (calls : list XmlToolCall) : Extracted :=
  match fuel, remaining with
  | S fuel, _ :: _ =>
      match findOpener remaining with
      | None => mkExtracted [] (clean ++ remaining) calls
      | Some (i, k, name, r) =>
          let clean := clean ++ take i remaining in
          let rest := drop i remaining in
          match k with
          | invoke =>
              match indexOf (str "</invoke>") rest with
              | None => mkExtracted rest clean calls
              | Some e =>
                  let start := length rest - length r in
                  let inner := take (e - start) r in
                  let args := parameters (S (length inner)) inner [] in
                  extractFuel fuel (drop (e + 9) rest) clean
                    (calls ++ [mkCall (callId "toolu_xml_" calls) (VStr (string_of_list_ascii name)) (VObj args)])
              end
          | tool_call_tag =>
              match indexOf (str "</tool_call>") rest with
              | None => mkExtracted rest clean calls
              | Some e =>
                  let inner := trimText (take (e - 11) r) in
                  match taggedCall inner with
                  | Some (Some (name, args)) =>
                      extractFuel fuel (drop (e + 12) rest) clean (calls ++ [mkCall (callId "toolu_txt_" calls) name args])
                  | Some None => extractFuel fuel (drop (e + 12) rest) clean calls
                  | None => extractFuel fuel (drop (e + 12) rest) (clean ++ take (e + 12) rest) calls
                  end
              end
          | tool_call_text =>
              match jsonEnd r 0 false false with
              | None => mkExtracted rest clean calls
              | Some n =>
                  let full := length rest - length r + n in
                  match parseJson (take n r) with
                  | Some args =>
                      extractFuel fuel (drop full rest) clean
                        (calls ++ [mkCall (callId "toolu_txt_" calls) (VStr (string_of_list_ascii name)) args])
                  | None => extractFuel fuel (drop full rest) (clean ++ take full rest) calls
                  end
              end
          end
      end
  | _, _ => mkExtracted [] clean calls
  end.

Definition extractXmlInvokeBlocks (t buffered : text) : Extracted :=
  let combined := buffered ++ t in extractFuel (length combined) combined [] [].
End Extract.

(** ** Lemmas *)

Section Lemmas.
Context (parseJson : text -> option json) (stamp : string).
Notation extractFuel := (extractFuel parseJson stamp).
Notation extract := (extractXmlInvokeBlocks parseJson stamp).

Lemma findOpener_lt s i k name r : findOpener s = Some (i, k, name, r) -> i < length s.
Proof.
  revert i. induction s as [|c s IH]; intros i; cbn [findOpener].
  - by vm_compute.
  - destruct (matchInvoke _) as [[n1 r1]|]; [intros [= <- <- <- <-]; cbn; lia|].
    destruct (matchToolCallTag _) as [[n1 r1]|]; [intros [= <- <- <- <-]; cbn; lia|].
    destruct (matchToolCallText _) as [[n1 r1]|]; [intros [= <- <- <- <-]; cbn; lia|].
    destruct (findOpener s) as [[[[j k'] n'] r']|]; [|done]. intros [= <- -> -> ->]. specialize (IH j eq_refl). cbn. lia.
Qed.

(** Each turn takes at least one character: the length of the text is enough fuel. *)
Lemma extract_fuel f1 f2 s clean calls : length s <= f1 -> length s <= f2 -> extractFuel f1 s clean calls = extractFuel f2 s clean calls.
Proof.
  revert f2 s clean calls. induction f1 as [|f1 IH]; intros f2 s clean calls H1 H2.
  - destruct s; [by destruct f2|cbn in H1; lia].
  - destruct s as [|c s]; [by destruct f2|]. destruct f2 as [|f2]; [cbn in H2; lia|]. cbn [InvokeBlocks.extractFuel].
    destruct (findOpener (c :: s)) as [[[[i k] name] r]|] eqn:E; [|done]. apply findOpener_lt in E. cbv zeta.
    assert (Hd : forall n, 0 < n -> length (drop n (drop i (c :: s))) <= f1 /\ length (drop n (drop i (c :: s))) <= f2)
      by (intros n Hn; rewrite !length_drop; cbn in *; lia).
    destruct k.
    + destruct (indexOf _ _) as [e|]; [|done]. destruct (Hd (e + 9)) as [? ?]; [lia|]. by apply IH.
    + destruct (indexOf _ _) as [e|]; [|done]. destruct (Hd (e + 12)) as [? ?]; [lia|].
      destruct (taggedCall _ _) as [[[nm args]|]|]; by apply IH.
    + destruct (jsonEnd r 0 false false) as [n|] eqn:Ej; [|done].
      assert (Hn : 0 < n) by (destruct r; cbn in Ej; [done|]; repeat case_if_in Ej;
        try (destruct (jsonEnd _ _ _ _); [|done]); injection Ej as <-; lia).
      destruct (Hd (length (drop i (c :: s)) - length r + n)) as [? ?]; [lia|]. destruct (parseJson _); by apply IH.
Qed.

(** Text without an opener passes unchanged. *)
Lemma extract_plain t : findOpener t = None -> extract t [] = mkExtracted [] t [].
Proof. intros H. unfold extractXmlInvokeBlocks. cbn [app]. destruct t as [|c t]; [done|]. cbn [length InvokeBlocks.extractFuel]. by rewrite H. Qed.

Lemma startsWith_drop_contains tag s i : startsWith (drop i s) tag = true -> contains s tag = true.
Proof.
  intros H. unfold contains. apply bool_decide_eq_true. revert s H. induction i as [|i IH]; intros s H.
  - rewrite drop_0 in H. rewrite indexOf_eq, H. eauto.
  - destruct s as [|c s]; [change (startsWith [] tag = true) in H; rewrite indexOf_eq, H; eauto|].
    change (startsWith (drop i s) tag = true) in H. rewrite indexOf_eq.
    destruct (startsWith (c :: s) tag); [eauto|]. destruct (IH s H) as [j ->]. cbn. eauto.
Qed.

Definition noMarker (t : text) : Prop :=
  contains t (str "<invoke") = false /\ contains t (str "<tool_call>") = false /\ contains t (str "TOOL_CALL") = false.

Lemma contains_sub tag a b c : contains b tag = true -> contains (a ++ b ++ c) tag = true.
Proof.
  unfold contains. rewrite !bool_decide_eq_true. intros [i Hi]. apply indexOf_app_Some with (rest := c) in Hi.
  induction a as [|x a IH]; cbn [app]; [eauto|]. rewrite indexOf_eq. destruct (startsWith _ _); [eauto|].
  destruct IH as [j ->]. cbn. eauto.
Qed.

Lemma noMarker_sub a b c : noMarker (a ++ b ++ c) -> noMarker b.
Proof.
  unfold noMarker. intros (H1 & H2 & H3).
  split_and!; (destruct (contains b _) eqn:E; [|done]; apply (contains_sub _ a b c) in E; congruence).
Qed.

Lemma noMarker_findOpener t : noMarker t -> findOpener t = None.
Proof.
  induction t as [|c t IH]; [by vm_compute|]. intros H. pose proof H as (H1 & H2 & H3). cbn [findOpener].
  assert (Hs : forall tag, contains (c :: t) tag = false -> literal tag (c :: t) = None).
  { intros tag Ht. unfold literal. destruct (startsWith (c :: t) tag) eqn:E; [|done].
    by rewrite (startsWith_drop_contains tag (c :: t) 0) in Ht by exact E. }
  unfold matchInvoke, nameAttribute, matchToolCallTag, matchToolCallText. rewrite !Hs by done. cbn.
  rewrite IH; [done|]. apply (noMarker_sub [c] t []). by rewrite app_nil_r.
Qed.
End Lemmas.
