(* ===== verification/DsmlToolCalls.v ===== *)
(** * Tool calls between pipes: [open-sse/utils/dsmlToolCalls.ts]

    One model family writes tool calls into the answer's text between markers made of
    pipes.  Complete blocks become calls, stray closing markers go, a partial opener at
    the end is held for the next chunk.  Text is ASCII: of the two pipes the code
    accepts, the ASCII one.  The random part of an id is a parameter, by the number of
    the call. *)
From Stdlib Require Import String Ascii.
From S2P Require Import Prelude JsMap JsString ComboSteps ThinkTags StreamHelpers InvokeBlocks.
#[local] Open Scope nat_scope.

(** ** The patterns *)

Definition sameLetter (a b : ascii) : bool := Ascii.eqb (lowerAscii a) (lowerAscii b).

(** The literal [p] whatever the case of its letters: the rest. *)
Fixpoint literalI (p s : text) : option text :=
  match p, s with
  | [], _ => Some s
  | a :: p, b :: s => if sameLetter a b then literalI p s else None
  | _, [] => None
  end.

(** The first suffix that [m] accepts: how far away, and what it gives. *)
Fixpoint firstMatch {A} (m : text -> option A) (s : text) : option (nat * A) :=
  match m s with
  | Some a => Some (0, a)
  | None => match s with [] => None | _ :: s => '(i, a) ← firstMatch m s; Some (S i, a) end
  end.

Definition newline : ascii := "010"%char.

(** \n* . *)
Fixpoint newlines (s : text) : text := match s with c :: s' => if Ascii.eqb c newline then newlines s' else s | [] => [] end.

(** DSML_OPEN_RE: the tool's name, and the rest. *)
Definition matchOpen (s : text) : option (text * text) :=
  r ← literalI (str "<|DSML|:") s;
  let '(name, r) := spanChars isWord r in
  match name with [] => None | _ => r ← literal [">"%char] (until ">"%char r).2; Some (name, r) end.

(** dsmlCloseRe: the rest. *)
Definition matchClose (name s : text) : option text :=
  r ← literalI (str "</|DSML|:" ++ name) s; literal [">"%char] (blanks r).

Definition oneOfI (words : list string) (s : text) : option text := head (omap (fun w => literalI (str w) s) words).

(** DSML_STRAY_CLOSE_RE: the rest. *)
Definition matchStray (s : text) : option text :=
  match (r ← literalI (str "</|DSML|") s; r ← oneOfI ["tool_calls"; "invoke"; "parameter"]%string r; literal [">"%char] (blanks r)) with
  | Some r => Some (newlines r)
  | None => r ← literalI (str "</") s; r ← oneOfI ["parameter"; "invoke"]%string r; r ← literal [">"%char] r; Some (newlines r)
  end.

(** [s.replace(DSML_STRAY_CLOSE_RE, "")]; [skip] characters of a match are still to be
    passed over. *)
Fixpoint removeStray (skip : nat) (s : text) : text :=
  match s with
  | [] => []
  | c :: s' =>
      match skip with
      | S k => removeStray k s'
      | O => match matchStray s with Some r => removeStray (length s' - length r) s' | None => c :: removeStray 0 s' end
      end
  end.

(** DSML_PARTIAL_OPEN_RE. *)
Definition matchPartial (s : text) : option text :=
  r ← literalI (str "<|DSML|") s; if existsb (Ascii.eqb "<"%char) r then None else Some s.

(** DSML_CHILD_NAMED_RE: the name, the value, the match and the rest. *)
Definition matchNamed (s : text) : option (text * text * text * text) :=
  r ← literalI (str "<parameter") s; r ← blanks1 r; r ← literalI (str "name=" ++ [quote]) r;
  let '(name, r) := until quote r in
  r ← literal [quote] r; r ← literal [">"%char] (until ">"%char r).2;
  '(i, rest) ← firstMatch (literalI (str "</parameter>")) r;
  Some (name, take i r, take (length s - length rest) s, rest).

(** DSML_CHILD_NAME_ONLY_RE. *)
Definition matchBare (s : text) : option (text * text * text * text) :=
  r ← literal (str "<") s;
  let '(name, r) := spanChars isWord r in
  match name with
  | [] => None
  | _ =>
      r ← literal [">"%char] r;
      '(i, rest) ← firstMatch (literal (str "</" ++ name ++ [">"%char])) r;
      Some (name, take i r, take (length s - length rest) s, rest)
  end.

(** All matches, from left to right. *)
Fixpoint allMatches {A} (m : text -> option (A * text)) (fuel : nat) (s : text) : list A :=
  match fuel with
  | O => []
  | S fuel => match firstMatch m s with Some (_, (a, rest)) => a :: allMatches m fuel rest | None => [] end
  end.

(** ** The arguments of a block *)

Definition setArg (name value : text) (args : jsmap string json) : jsmap string json :=
  mset (string_of_list_ascii name) (VStr (string_of_list_ascii (trimText value))) args.

(** The bare children not inside a child already taken. *)
Definition bareStep (acc : jsmap string json * list text) (m : text * text * text) : jsmap string json * list text :=
  let '(args, consumed) := acc in
  let '(name, value, whole) := m in
  if bool_decide (whole ∈ consumed) then acc
  else if existsb (fun c => contains c whole && negb (bool_decide (c = whole))) consumed then acc
  else (setArg name value args, consumed ++ [whole]).

Definition parseDsmlArgs (inner : text) : jsmap string json :=
  let fuel := S (length inner) in
  let named := allMatches matchNamed fuel inner in
  let args := foldl (fun args '(name, value, _) => setArg name value args) [] named in
  (foldl bareStep (args, snd <$> named) (allMatches matchBare fuel inner)).1.

(** ** The parser *)

Record ParseDsmlResult := mkDsml { d_content : text; d_toolCalls : list XmlToolCall; d_holdback : text }.

Section Parse.
(** [crypto.randomUUID().replace(/-/g, "").slice(0, 10)], by the number of the call. *)
Context (uuid : nat -> string).

Fixpoint dsmlLoop (fuel : nat) (remaining cleaned : text) (calls : list XmlToolCall) : ParseDsmlResult :=
  match fuel, remaining with
  | S fuel, _ :: _ =>
      match firstMatch matchOpen remaining with
      | None =>
          let tail := removeStray 0 remaining in
          match firstMatch matchPartial tail with
          | Some (i, partial) => mkDsml (cleaned ++ take i tail) calls partial
          | None => mkDsml (cleaned ++ tail) calls []
          end
      | Some (i, (name, afterOpen)) =>
          let cleaned := cleaned ++ removeStray 0 (take i remaining) in
          match firstMatch (matchClose name) afterOpen with
          | None => mkDsml cleaned calls (drop i remaining)
          | Some (e, rest) =>
              let call := mkCall ("call_dsml_" +:+ uuid (length calls))%string (VStr (string_of_list_ascii name))
                            (VObj (parseDsmlArgs (take e afterOpen))) in
              dsmlLoop fuel rest cleaned (calls ++ [call])
          end
      end
  | _, _ => mkDsml cleaned calls []
  end.

Definition parseDsmlToolCalls (t : text) : ParseDsmlResult := dsmlLoop (length t) t [] [].

Definition hasDsmlToolCalls (t : text) : bool := contains t (str "|DSML|").
End Parse.

(** ** Lemmas *)

Lemma literalI_length p s r : literalI p s = Some r -> length s = length p + length r.
Proof.
  revert s. induction p as [|a p IH]; intros s; cbn [literalI]; [by intros [= ->]|].
  destruct s as [|b s]; [done|]. destruct (sameLetter a b); [|done]. intros H. apply IH in H. cbn. lia.
Qed.

Lemma literal_length p s r : literal p s = Some r -> length s = length p + length r.
Proof.
  unfold literal. destruct (startsWith s p) eqn:E; [|done]. intros [= <-]. apply startsWith_length in E.
  rewrite length_drop. lia.
Qed.

Lemma spanChars_length f s : length s = length (spanChars f s).1 + length (spanChars f s).2.
Proof. induction s as [|c s IH]; [done|]. cbn [spanChars]. destruct (f c); [|done]. destruct (spanChars f s). cbn in *. lia. Qed.

Lemma until_length c s : length (until c s).2 <= length s.
Proof. induction s as [|d s IH]; [done|]. cbn [until]. destruct (Ascii.eqb d c); [done|]. destruct (until c s). cbn in *. lia. Qed.

Lemma dropSpaces_length s : length (dropSpaces s) <= length s.
Proof. induction s as [|d s IH]; [done|]. cbn [dropSpaces]. destruct (isSpaceChar d); cbn; lia. Qed.

Lemma firstMatch_spec {A} (m : text -> option A) s i a : firstMatch m s = Some (i, a) -> i <= length s /\ m (drop i s) = Some a.
Proof.
  revert i. induction s as [|c s IH]; intros i; cbn [firstMatch].
  - destruct (m []) eqn:E; [|done]. intros [= <- <-]. split; [done|]. by rewrite drop_0.
  - destruct (m (c :: s)) eqn:E; [intros [= <- <-]; split; [lia|by rewrite drop_0]|].
    destruct (firstMatch m s) as [[j b]|]; [|done]. intros [= <- ->]. destruct (IH j eq_refl). cbn. split; [lia|done].
Qed.

Lemma matchOpen_length s name r : matchOpen s = Some (name, r) -> length r < length s.
Proof.
  unfold matchOpen. destruct (literalI _ s) as [r1|] eqn:E1; [|done]. cbn. apply literalI_length in E1.
  pose proof (spanChars_length isWord r1) as E2. destruct (spanChars isWord r1) as [nm r2]. destruct nm as [|c nm]; [done|].
  destruct (literal _ _) as [r3|] eqn:E3; [|done]. apply literal_length in E3. pose proof (until_length ">"%char r2).
  cbn in *. intros [= <- <-]. lia.
Qed.

Lemma matchClose_length name s r : matchClose name s = Some r -> length r <= length s.
Proof.
  unfold matchClose. destruct (literalI _ s) as [r1|] eqn:E1; [|done]. cbn. intros E2.
  apply literalI_length in E1. apply literal_length in E2. pose proof (dropSpaces_length r1). unfold blanks in E2. lia.
Qed.

(** Each block takes at least one character: the length of the text is enough fuel. *)
Lemma dsmlLoop_fuel uuid f1 f2 s cleaned calls : length s <= f1 -> length s <= f2 ->
  dsmlLoop uuid f1 s cleaned calls = dsmlLoop uuid f2 s cleaned calls.
Proof.
  revert f2 s cleaned calls. induction f1 as [|f1 IH]; intros f2 s cleaned calls H1 H2.
  - destruct s; [by destruct f2|cbn in H1; lia].
  - destruct s as [|c s]; [by destruct f2|]. destruct f2 as [|f2]; [cbn in H2; lia|]. cbn [dsmlLoop].
    destruct (firstMatch matchOpen (c :: s)) as [[i [name r]]|] eqn:E; [|done]. cbv zeta.
    destruct (firstMatch (matchClose name) r) as [[e rest]|] eqn:Ec; [|done].
    apply firstMatch_spec in E as [_ E]. apply firstMatch_spec in Ec as [_ Ec].
    apply matchOpen_length in E. apply matchClose_length in Ec. rewrite !length_drop in *. cbn in *.
    apply IH; lia.
Qed.

(** ** Examples *)

Example dsml_block :
  let nl := [newline] in
  let p := parseDsmlToolCalls (fun _ => "0123456789"%string)
             (str "ok" ++ nl ++ str "<|DSML|:Read>" ++ nl ++ str "<path>a.png</path>" ++ nl ++ str "</|DSML|:Read> done </|DSML|invoke>" ++ nl ++ str "<|DSML|:Wr") in
  p = mkDsml (str "ok" ++ nl ++ str " done ")
        [mkCall "call_dsml_0123456789" (VStr "Read") (VObj [("path"%string, VStr "a.png")])] (str "<|DSML|:Wr").
Proof. vm_compute. reflexivity. Qed.

(** ** Findings *)

(** Removing a stray closer can put a marker together. *)
Example dsml_marker_left :
  d_content (parseDsmlToolCalls (fun _ => EmptyString) (str "</|DSML</invoke>|invoke> and </|DSML|parameter>")) = str "</|DSML|invoke> and ".
Proof. vm_compute. reflexivity. Qed.
