(* ===== verification/SystemPreamble.v ===== *)
(** * The stripper of an echoed system prompt: [open-sse/utils/directivePreambleStripper.ts]

    [createSystemPreambleStripper]: when the operator asks for it, known pieces of the
    system prompt that a model repeats at the start of its answer are removed while
    they stream.  Text is ASCII. *)
From Stdlib Require Import String Ascii.
From S2P Require Import Prelude JsString ThinkTags StreamHelpers InvokeBlocks.
#[local] Open Scope nat_scope.

Definition SYSTEM_ECHO_THRESHOLD : nat := 1000.
Definition tagNames : list text := str <$> ["analysis"; "system-reminder"; "summary"]%string.
Definition proseHeads : list text :=
  str <$> ["# Verification Process"; "# Skill usage"; "Skill usage (when superpowers skills are installed)";
           "Required skills for implementation work"]%string.

Inductive Phase := leading | head_ | block.
(** An entry of the stack: the name of a tag, or a section of prose. *)
Inductive Construct := Tag (name : text) | Prose.

Record Preamble := mkPreamble {
  p_done : bool;
  p_phase : Phase;
  p_stack : list Construct;
  p_buf : text;
  pendingDrop : text;
}.

#[export] Instance eta_Preamble : Eta Preamble := fun s => mkPreamble (p_done s) (p_phase s) (p_stack s) (p_buf s) (pendingDrop s).

Definition newPreamble : Preamble := mkPreamble false leading [] [] [].

Definition isAllWs (s : text) : bool := bool_decide (dropSpaces s = []).

(** [ \t]* . *)
Definition blankTab (s : text) : text := (spanChars (fun c => Ascii.eqb c " "%char || Ascii.eqb c "009"%char) s).2.

(** Without the leading blanks, tabs and line breaks. *)
Definition dropLines (s : text) : text :=
  (spanChars (fun c => existsb (Ascii.eqb c) [" "; "009"; "013"; "010"]%char) s).2.

(** The lookahead of the boundary. *)
Definition structural (s : text) : bool :=
  match s with
  | "<"%char :: _ => true
  | _ =>
      let '(hashes, r) := spanChars (Ascii.eqb "#"%char) s in
      let '(rule, _) := spanChars (fun c => Ascii.eqb c "-"%char || Ascii.eqb c "="%char) s in
      ((1 <=? length hashes) && (length hashes <=? 6) && match r with " "%char :: _ => true | _ => false end) || (3 <=? length rule)
  end.

Fixpoint proseBoundary (s : text) : option nat :=
  match s with
  | [] => None
  | c :: s' =>
      if Ascii.eqb c "010"%char && match blankTab s' with d :: r => Ascii.eqb d "010"%char && structural (blankTab r) | [] => false end
      then Some 0 else S <$> proseBoundary s'
  end.

Definition openTag (name : text) : text := "<"%char :: name ++ [">"%char].
Definition closeTag (name : text) : text := "<"%char :: "/"%char :: name ++ [">"%char].

(** [;:.,-] or white space. *)
Definition endsHead (rest : text) : bool :=
  match rest with [] => true | c :: _ => isSpaceChar c || existsb (Ascii.eqb c) [";"; ":"; "."; ","; "-"]%char end.

Definition tryOpeners (s : text) : option Construct :=
  let t := dropSpaces s in
  match find (fun name => startsWith t (openTag name)) tagNames with
  | Some name => Some (Tag name)
  | None => if existsb (fun h => startsWith t h && endsHead (drop (length h) t)) proseHeads then Some Prose else None
  end.

Definition anyOpenerPrefix (s : text) : bool :=
  let t := dropSpaces s in
  existsb (fun name => startsWith (openTag name) t) tagNames || existsb (fun h => startsWith h t) proseHeads.

(** One turn of the loop: the new state, and what is returned if the loop ends. *)
Definition preambleTurn (s : Preamble) : Preamble * option text :=
  let headTurn (s : Preamble) :=
    if isAllWs (p_buf s) then (s, Some [])
    else
      match tryOpeners (p_buf s) with
      | Some (Tag name) =>
          let '(before, r) := until "<"%char (p_buf s) in
          let afterOpen := length before + S (length (until ">"%char r).1) in
          (s <| pendingDrop := pendingDrop s ++ take afterOpen (p_buf s) |> <| p_buf := drop afterOpen (p_buf s) |>
             <| p_stack := Tag name :: p_stack s |> <| p_phase := block |>, None)
      | Some Prose => (s <| p_stack := Prose :: p_stack s |> <| p_phase := block |>, None)
      | None =>
          if anyOpenerPrefix (p_buf s) then (s, Some [])
          else (s <| p_done := true |> <| pendingDrop := [] |> <| p_buf := [] |>, Some (pendingDrop s ++ p_buf s))
      end in
  match p_phase s with
  | leading => if isAllWs (p_buf s) then (s, Some []) else headTurn (s <| p_phase := head_ |>)
  | head_ => headTurn s
  | block =>
      match p_stack s with
      | Prose :: stack =>
          match proseBoundary (p_buf s) with
          | None => (s, Some [])
          | Some b => (s <| p_buf := drop b (p_buf s) |> <| pendingDrop := [] |> <| p_stack := stack |> <| p_phase := head_ |>, None)
          end
      | Tag top :: stack =>
          match indexOf (closeTag top) (p_buf s) with
          | None => (s, Some [])
          | Some ci =>
              let afterClose := drop (ci + length (closeTag top)) (p_buf s) in
              let trailing := dropLines afterClose in
              if (SYSTEM_ECHO_THRESHOLD <=? ci) || bool_decide (trailing = []) then
                (s <| p_done := true |> <| pendingDrop := [] |> <| p_buf := [] |>,
                 Some (openTag top ++ take ci (p_buf s) ++ closeTag top ++ afterClose))
              else
                (s <| p_buf := trailing |> <| pendingDrop := [] |> <| p_stack := stack |>
                   <| p_phase := match stack with [] => leading | _ => block end |>, None)
          end
      | [] => (s, Some [])
      end
  end.

(** [None] when the loop does not end. *)
Fixpoint preambleLoop (fuel : nat) (s : Preamble) : option (Preamble * text) :=
  match fuel with
  | O => None
  | S fuel => match preambleTurn s with (s, Some out) => Some (s, out) | (s, None) => preambleLoop fuel s end
  end.

Definition preambleFuel (s : Preamble) : nat := match p_phase s with block => 2 | _ => 3 end + 2 * length (p_buf s).

Definition pushPreamble (t : text) (s : Preamble) : option (Preamble * text) :=
  if p_done s || bool_decide (t = []) then Some (s, t)
  else let s := s <| p_buf := p_buf s ++ t |> in preambleLoop (preambleFuel s) s.

Definition flushPreamble (s : Preamble) : Preamble * text :=
  if p_done s then (s, [])
  else (s <| p_done := true |> <| pendingDrop := [] |> <| p_buf := [] |> <| p_stack := [] |>, pendingDrop s ++ p_buf s).

(** ** How much fuel the loop needs *)

Lemma spanChars_le f s : length (spanChars f s).2 <= length s.
Proof. induction s as [|c s IH]; [done|]. cbn [spanChars]. destruct (f c); [|done]. destruct (spanChars f s). cbn in *. lia. Qed.

Lemma dropLines_le s : length (dropLines s) <= length s.
Proof. apply spanChars_le. Qed.

Lemma proseBoundary_lt s b : proseBoundary s = Some b -> b < length s.
Proof.
  revert b. induction s as [|c s IH]; intros b; cbn [proseBoundary]; [done|]. case_if; [intros [= <-]; cbn; lia|].
  destruct (proseBoundary s) as [j|]; [|done]. intros [= <-]. specialize (IH j eq_refl). cbn. lia.
Qed.

Lemma tryOpeners_nonempty s c : tryOpeners s = Some c -> 0 < length s.
Proof. destruct s; [by vm_compute|cbn; lia]. Qed.

(** A section of prose whose boundary is its own beginning is opened and closed for
    ever. *)
Lemma preamble_cycle s st fuel :
  p_phase s = block -> p_stack s = Prose :: st -> proseBoundary (p_buf s) = Some 0 -> tryOpeners (p_buf s) = Some Prose ->
  isAllWs (p_buf s) = false -> preambleLoop fuel s = None.
Proof.
  intros Hp Hs Hb Ho Hw. revert s Hp Hs Hb Ho Hw. induction (lt_wf fuel) as [fuel _ IH]. intros [d ph st' buf pd]. cbn. intros -> -> Hb Ho Hw.
  destruct fuel as [|[|fuel]]; [done|cbn; by rewrite Hb|]. cbn [preambleLoop]. unfold preambleTurn. cbn. rewrite Hb. cbn. rewrite drop_0, Hw, Ho. cbn.
  apply IH; [lia|done..].
Qed.

(** What a turn that goes on leads to. *)
Lemma preambleTurn_next s s' : preambleTurn s = (s', None) ->
  preambleFuel s' < preambleFuel s \/
  (p_phase s = block /\ (exists st, p_stack s = Prose :: st /\ p_stack s' = st) /\ proseBoundary (p_buf s) = Some 0 /\
   p_phase s' = head_ /\ p_buf s' = p_buf s).
Proof.
  destruct s as [d ph st buf pd]. unfold preambleTurn, preambleFuel. cbn. destruct ph.
  1,2: destruct (isAllWs buf) eqn:Ew; [done|]; cbn; try rewrite Ew; destruct (tryOpeners buf) as [[name|]|] eqn:Eo;
    [destruct (until "<"%char buf) as [before r] eqn:Eu; intros [= <-]; left; cbn; apply tryOpeners_nonempty in Eo; rewrite length_drop; lia
    |intros [= <-]; left; cbn; lia
    |destruct (anyOpenerPrefix buf); done].
  destruct st as [|[top|] st]; [done| |].
  - destruct (indexOf (closeTag top) buf) as [ci|] eqn:Ei; [|done]. destruct (_ || _); [done|]. intros [= <-]. left. cbn.
    apply indexOf_length in Ei. pose proof (dropLines_le (drop (ci + length (closeTag top)) buf)) as Hl. rewrite length_drop in Hl.
    change (S (S (length (top ++ [">"%char])))) with (length (closeTag top)).
    assert (2 <= length (closeTag top)) by (cbn; lia). remember (length (closeTag top)) as m. destruct st; cbn; lia.
  - destruct (proseBoundary buf) as [b|] eqn:Eb; [|done]. intros [= <-]. pose proof (proseBoundary_lt _ _ Eb) as Hl. cbn.
    destruct b as [|b]; [right; rewrite drop_0; split_and!; eauto|left; rewrite length_drop; lia].
Qed.

(** [preambleFuel] is enough: a loop it does not end never ends. *)
Lemma preamble_fuel s f1 f2 : preambleFuel s <= f1 -> preambleFuel s <= f2 -> preambleLoop f1 s = preambleLoop f2 s.
Proof.
  remember (preambleFuel s) as n eqn:En. revert s f1 f2 En. induction (lt_wf n) as [n _ IH]. intros s f1 f2 -> H1 H2.
  assert (H0 : 2 <= preambleFuel s) by (unfold preambleFuel; destruct (p_phase s); lia).
  destruct f1 as [|f1], f2 as [|f2]; [lia..|]. cbn [preambleLoop]. destruct (preambleTurn s) as [s' [o|]] eqn:Et; [done|].
  destruct (preambleTurn_next _ _ Et) as [Hlt|(Hp & (st & Hs & Hs') & Hb & Hp' & Hbuf)].
  - eapply (IH (preambleFuel s')); [done|reflexivity|lia|lia].
  - destruct f1 as [|f1], f2 as [|f2]; [lia..|]. cbn [preambleLoop]. destruct (preambleTurn s') as [s2 [o|]] eqn:Et2; [done|].
    pose proof (preambleTurn_next _ _ Et2) as Hn. unfold preambleTurn in Et2. rewrite Hp', Hbuf in Et2. cbn in Et2.
    destruct (isAllWs (p_buf s)) eqn:Ew; [done|]. destruct (tryOpeners (p_buf s)) as [[name|]|] eqn:Eo.
    + destruct (until "<"%char (p_buf s)) as [before r]. injection Et2 as <-. apply tryOpeners_nonempty in Eo.
      assert (Hm : preambleFuel (s' <| pendingDrop := pendingDrop s' ++ take (length before + S (length (until ">"%char r).1)) (p_buf s) |>
        <| p_buf := drop (length before + S (length (until ">"%char r).1)) (p_buf s) |>
        <| p_stack := Tag name :: p_stack s' |> <| p_phase := block |>) + 2 <= preambleFuel s).
      { unfold preambleFuel. rewrite Hp. cbn. rewrite length_drop. lia. }
      eapply IH; [|reflexivity|..]; lia.
    + injection Et2 as <-. erewrite !preamble_cycle; try done.
      all: cbn; by rewrite ?Hbuf.
    + destruct (anyOpenerPrefix (p_buf s)); done.
Qed.

(** ** Answers that are no echo *)

Definition feedPreamble (acc : option (Preamble * text)) (c : text) : option (Preamble * text) :=
  '(s, out) ← acc; '(s, t) ← pushPreamble c s; Some (s, out ++ t).

(** The output of a stream of chunks, flushed at its end; [None] when it hangs. *)
Definition stripPreamble (chunks : list text) : option text :=
  '(s, out) ← foldl feedPreamble (Some (newPreamble, [])) chunks; Some (out ++ (flushPreamble s).2).

(** While no opener is seen all that was not sent is held; after that everything
    passes. *)
Definition Plain (before : text) (acc : option (Preamble * text)) : Prop :=
  match acc with
  | Some (s, out) =>
      if p_done s then out = before
      else p_phase s <> block /\ pendingDrop s = [] /\ p_buf s = before /\ out = []
  | None => False
  end.

Lemma push_Plain before acc c : Plain before acc -> tryOpeners (before ++ c) = None -> Plain (before ++ c) (feedPreamble acc c).
Proof.
  destruct acc as [[[d ph st buf pd] out]|]; [|done]. unfold Plain, feedPreamble, pushPreamble. cbn [p_done p_phase pendingDrop p_buf mbind option_bind].
  destruct d; [by cbn; intros -> _|]. intros (Hp & -> & -> & ->) Ho. cbn [orb]. case_bool_decide as Hc.
  { subst c. cbn. by rewrite app_nil_r. }
  unfold preambleFuel. destruct ph; [| |done]; cbn [p_phase p_buf preambleLoop Nat.add]; unfold preambleTurn; cbn.
  all: destruct (isAllWs (before ++ c)) eqn:Ew; cbn; [by split_and!|]; rewrite ?Ew, Ho; destruct (anyOpenerPrefix (before ++ c)); cbn; [by split_and!|done].
Qed.

(** An answer none of whose beginnings is an opener passes unchanged, however it is
    cut into chunks. *)
Lemma preamble_passes chunks :
  (forall n, tryOpeners (concat (take n chunks)) = None) -> stripPreamble chunks = Some (concat chunks).
Proof.
  intros Ho. unfold stripPreamble.
  assert (H : forall n, n <= length chunks -> Plain (concat (take n chunks)) (foldl feedPreamble (Some (newPreamble, [])) (take n chunks))).
  { induction n as [|n IH]; intros Hn; [by cbn|]. specialize (IH ltac:(lia)).
    destruct (lookup_lt_is_Some_2 chunks n ltac:(lia)) as [c Hc]. specialize (Ho (S n)).
    rewrite (take_S_r _ _ _ Hc), concat_app in Ho |- *. rewrite foldl_app. cbn [foldl concat] in *. rewrite app_nil_r in *.
    by apply push_Plain. }
  specialize (H (length chunks) (le_n _)). rewrite firstn_all in H. destruct (foldl _ _ _) as [[s out]|]; [|done].
  unfold Plain, flushPreamble in *. cbn. destruct (p_done s); cbn; [by rewrite H, app_nil_r|]. by destruct H as (_ & -> & -> & ->).
Qed.

(** ** Examples *)

Example echo_removed : stripPreamble [str "<analy"; str "sis>the rules</analysis> Hello"] = Some (str "Hello").
Proof. vm_compute. reflexivity. Qed.

(** ** Findings *)

(** An answer that begins with an empty line and a known heading never gets through:
    the boundary that ends the section is the empty line before it. *)
Lemma preamble_hangs fuel : let t := ["010"; "010"]%char ++ str "# Skill usage" in
  preambleLoop fuel (newPreamble <| p_buf := t |>) = None.
Proof.
  intros t. destruct fuel as [|fuel]; [done|]. cbn [preambleLoop].
  assert (E : preambleTurn (newPreamble <| p_buf := t |>) = (mkPreamble false block [Prose] t [], None)) by by vm_compute.
  rewrite E. eapply preamble_cycle; by vm_compute.
Qed.

(** Whether a block is an echo depends on where the chunk ends: the same answer as
    above, cut after the closing tag. *)
Example echo_kept_at_chunk_end :
  stripPreamble [str "<analysis>the rules</analysis>"; str " Hello"] = Some (str "<analysis>the rules</analysis> Hello").
Proof. vm_compute. reflexivity. Qed.

(** A heading of the answer that continues the name of a known one is held, when a
    chunk ends inside it. *)
Example heading_taken_for_echo :
  (stripPreamble [str "# Skill usages"; str " by team"],
   snd <$> foldl feedPreamble (Some (newPreamble, [])) [str "# Skill usage"; str "s by team"]) =
  (Some (str "# Skill usages by team"), Some []).
Proof. vm_compute. reflexivity. Qed.
