(* ===== verification/ToolShim.v ===== *)
(** * Corrections of tool arguments: [translator/helpers/toolCallShim.ts]

    Some upstream models send arguments that a strict client refuses.  The tools
    concerned buffer their arguments, and one corrected object is sent at the end.
    Parsing and printing JSON are parameters; numbers are finite. *)
From Stdlib Require Import String Ascii QArith Lqa.
From S2P Require Import Prelude JsMap JsString ComboSteps ToolPairs ThinkTags StreamHelpers.
#[local] Open Scope string_scope.
#[local] Open Scope list_scope.

Definition isDigit (c : ascii) : bool := let n := N_of_ascii c in ((48 <=? n)%N && (n <=? 57)%N).

(** The pattern \d+ on a whole text. *)
Definition digits (t : text) : bool := match t with [] => false | _ => forallb isDigit t end.

(** The pattern \d+(-\d+)? on a whole text. *)
Fixpoint digitsRange (t : text) : bool :=
  match t with
  | [] => false
  | c :: t => isDigit c && (match t with [] => true | d :: t' => if Ascii.eqb d "-"%char then digits t' else digitsRange t end)
  end.

Definition READ_MAX_LIMIT : Q := 2000.

Definition isValidPdfPagesArg (filePath pages : option json) : bool :=
  match filePath, pages with
  | Some (VStr f), Some (VStr p) => endsWith (str (toLowerCase f)) (str ".pdf") && digitsRange (str p)
  | _, _ => false
  end.

(** A text that matches [pattern] becomes the number it spells. *)
Definition coerceNumber (key : string) (pattern : text -> bool) (args : jsmap string json) : jsmap string json :=
  match mget key args with
  | Some (VStr s) => if pattern (str s) then mset key (VNum (numberOfString s)) args else args
  | _ => args
  end.

Definition signedDigits (t : text) : bool := match t with "-"%char :: t => digits t | _ => digits t end.

Definition sanitizeReadArgs (args : jsmap string json) : jsmap string json :=
  let args := coerceNumber "limit" digits args in
  let args := coerceNumber "offset" signedDigits args in
  let args := match mget "limit" args with
              | Some (VNum (Fin limit)) =>
                  let args := if Qlt_le_dec READ_MAX_LIMIT limit then mset "limit" (VNum (Fin READ_MAX_LIMIT)) args else args in
                  if Qlt_le_dec limit 1 then mdel "limit" args else args
              | _ => args
              end in
  let args := match mget "offset" args with
              | Some (VNum (Fin offset)) => if Qlt_le_dec offset 0 then mset "offset" (VNum (Fin 0)) args else args
              | _ => args
              end in
  if mhas "pages" args && negb (isValidPdfPagesArg (mget "file_path" args) (mget "pages" args)) then mdel "pages" args else args.

Inductive Shim := ReadShim | ReviewShim.

Definition TOOL_SHIMS : list (string * Shim) := [("Read", ReadShim); ("submit_pr_review", ReviewShim)].

Definition resolveToolCallShim (name : string) : option Shim :=
  if isEmpty name then None
  else match mget name TOOL_SHIMS with
       | Some f => Some f
       | None => snd <$> find (fun kv => String.eqb (toLowerCase kv.1) (toLowerCase name)) TOOL_SHIMS
       end.

Definition hasToolCallShim (name : string) : bool := match resolveToolCallShim name with Some _ => true | None => false end.

Section Shims.
(** [None] when JSON.parse throws. *)
Context (parseJson : text -> option json) (stringify : json -> text).

Definition coerceToArray (v : option json) : list json :=
  match v with
  | Some (VArr l) => l
  | Some (VStr s) =>
      if isEmpty s then [] else match parseJson (str s) with Some (VArr l) => l | _ => [] end
  | _ => []
  end.

Definition patchReview (key : string) (fields : jsmap string json) : jsmap string json :=
  mset key (VArr (coerceToArray (mget key fields))) fields.

Definition applyShim (f : Shim) (input : json) : json :=
  match f, input with
  | ReadShim, VObj args => VObj (sanitizeReadArgs args)
  | ReviewShim, VObj fields => VObj (patchReview "findings" (patchReview "functionalChanges" fields))
  | _, _ => input
  end.

Definition applyToolCallShimToBuffer (name : string) (raw : text) : text :=
  match resolveToolCallShim name with
  | None => raw
  | Some f =>
      let parsed := match raw with [] => VObj [] | _ => orElse (parseJson raw) (VObj []) end in
      stringify (applyShim f parsed)
  end.

(** ** What is sent *)

(** The arguments of Read that a strict client accepts. *)
Definition readArgsOk (args : jsmap string json) : Prop :=
  (forall q, mget "limit" args = Some (VNum (Fin q)) -> (1 <= q <= READ_MAX_LIMIT)%Q) /\
  (forall q, mget "offset" args = Some (VNum (Fin q)) -> (0 <= q)%Q) /\
  (forall v, mget "pages" args = Some v ->
     exists f p, mget "file_path" args = Some (VStr f) /\ v = VStr p /\ endsWith (str (toLowerCase f)) (str ".pdf") = true /\ digitsRange (str p) = true).

Lemma mwf_coerceNumber key pattern args : mwf args -> mwf (coerceNumber key pattern args).
Proof. intros H. unfold coerceNumber. repeat case_match; auto using mwf_mset. Qed.

Lemma sanitizeReadArgs_ok args : mwf args -> readArgsOk (sanitizeReadArgs args).
Proof.
  intros Hw. unfold sanitizeReadArgs.
  assert (Hw1 : mwf (coerceNumber "offset" signedDigits (coerceNumber "limit" digits args))) by auto using mwf_coerceNumber.
  remember (coerceNumber "offset" signedDigits _) as a1 eqn:E. clear E Hw.
  set (a2 := match mget "limit" a1 with Some (VNum (Fin limit)) => _ | _ => a1 end).
  assert (H2 : mwf a2 /\ forall q, mget "limit" a2 = Some (VNum (Fin q)) -> (1 <= q <= READ_MAX_LIMIT)%Q).
  { subst a2. destruct (mget "limit" a1) as [[]|] eqn:El; try (split; [done|intros ?; congruence]).
    destruct n as [q|]; [|split; [done|intros ?; congruence]].
    destruct (Qlt_le_dec READ_MAX_LIMIT q) as [Hq|Hq].
    - destruct (Qlt_le_dec q 1) as [Hq1|Hq1]; [exfalso; unfold READ_MAX_LIMIT in Hq; lra|].
      split; [by apply mwf_mset|]. intros r. rewrite mget_mset_eq. intros [= <-]. unfold READ_MAX_LIMIT. lra.
    - destruct (Qlt_le_dec q 1) as [Hq1|Hq1].
      + split; [by apply mwf_mdel|]. intros r. by rewrite mget_mdel_eq.
      + split; [done|]. intros r. rewrite El. intros [= <-]. done. }
  clearbody a2. destruct H2 as [Hw2 Hl2].
  set (a3 := match mget "offset" a2 with Some (VNum (Fin offset)) => _ | _ => a2 end).
  assert (H3 : mwf a3 /\ (forall q, mget "limit" a3 = Some (VNum (Fin q)) -> (1 <= q <= READ_MAX_LIMIT)%Q) /\
                 forall q, mget "offset" a3 = Some (VNum (Fin q)) -> (0 <= q)%Q).
  { subst a3. destruct (mget "offset" a2) as [[]|] eqn:El; try (split; [done|split; [done|intros ?; congruence]]).
    destruct n as [q|]; [|split; [done|split; [done|intros ?; congruence]]]. destruct (Qlt_le_dec q 0) as [Hq|Hq].
    - split; [by apply mwf_mset|]. split; intros r; [by rewrite mget_mset_ne; [apply Hl2|]|].
      rewrite mget_mset_eq. intros [= <-]. lra.
    - split; [done|]. split; [done|]. intros r. rewrite El. by intros [= <-]. }
  clearbody a3. destruct H3 as (Hw3 & Hl3 & Ho3).
  destruct (mhas "pages" a3 && _) eqn:Ep.
  - split_and!; intros r.
    + rewrite mget_mdel_ne by done. apply Hl3.
    + rewrite mget_mdel_ne by done. apply Ho3.
    + by rewrite mget_mdel_eq.
  - split_and!; [done..|]. intros v Hv. unfold mhas in Ep. rewrite Hv in Ep. cbn [andb] in Ep. apply negb_false_iff in Ep.
    unfold isValidPdfPagesArg in Ep. destruct (mget "file_path" a3) as [[]|]; try done. destruct v; try done.
    apply andb_true_iff in Ep as [H1 H2]. eauto 10.
Qed.

(** A call of Read whose buffered arguments are an object or cannot be parsed is sent with
    arguments the client accepts: a numeric limit between 1 and 2000, a numeric offset
    that is not negative, pages only of a PDF and only as a page or a range. *)
Theorem read_arguments_accepted (raw : text) (name : string) :
  resolveToolCallShim name = Some ReadShim ->
  (forall v, parseJson raw = Some v -> exists fields, v = VObj fields /\ mwf fields) ->
  exists args, applyToolCallShimToBuffer name raw = stringify (VObj args) /\ readArgsOk args.
Proof.
  intros Hn Hp. unfold applyToolCallShimToBuffer. rewrite Hn.
  assert (H : exists fields, match raw with [] => VObj [] | _ => orElse (parseJson raw) (VObj []) end = VObj fields /\ mwf fields).
  { destruct raw as [|c raw]; [exists []; split; [done|apply mwf_nil]|].
    destruct (parseJson (c :: raw)) as [v|] eqn:E; [|exists []; split; [done|apply mwf_nil]]. by destruct (Hp v eq_refl) as (f & -> & Hw); eauto. }
  destruct H as (fields & -> & Hw). cbn [applyShim]. eauto using sanitizeReadArgs_ok.
Qed.
End Shims.

Lemma read_arguments_accepted_witness :
  let parse t := if bool_decide (t = str "x") then Some (VObj [("limit", VStr "25999999999999999"); ("offset", VNum (Fin (-3))); ("pages", VStr "1")]) else None in
  let keys v := match v with VObj fs => str (join "," (mkeys fs)) | _ => [] end in
  applyToolCallShimToBuffer parse keys "read" (str "x") = str "limit,offset" /\
  exists args, applyToolCallShimToBuffer parse keys "read" (str "x") = keys (VObj args) /\ readArgsOk args.
Proof.
  intros parse keys. split; [vm_compute; reflexivity|]. apply (read_arguments_accepted parse keys (str "x") "read").
  - reflexivity.
  - intros v. vm_compute. intros [= <-]. eexists. split; [reflexivity|]. unfold mwf. cbn. repeat constructor; set_solver.
Defined.

(** A float that is not an integer passes as a limit. *)
Example read_limit_fraction :
  sanitizeReadArgs [("limit", VNum (Fin (3#2))); ("offset", VStr "-5"); ("pages", VStr "1-2"); ("file_path", VStr "a.PDF")] =
  [("limit", VNum (Fin (3#2))); ("offset", VNum (Fin 0)); ("pages", VStr "1-2"); ("file_path", VStr "a.PDF")].
Proof. vm_compute. reflexivity. Qed.
