(* ===== verification/ToolNames.v ===== *)
(** * Names of tools: [services/claudeCodeToolRemapper.ts], [claudeCodeExtraRemap.ts]

    One upstream service recognises other programs by the names of their tools.  Names
    that do not look like its own client's are replaced by aliases in the request, and
    restored in the answer.  Names are ASCII, and no name of a property that every
    object inherits; objects are not shared between places of the request. *)
From Stdlib Require Import String Ascii.
From stdpp Require Import gmap strings pretty.
From S2P Require Import Prelude JsMap JsString.
#[local] Open Scope string_scope.
#[local] Open Scope list_scope.

Definition EXTRA_TOOL_RENAME_MAP : jsmap string string := [("subagents", "SubDispatch"); ("session_status", "CheckStatus")].

Definition TOOL_RENAME_MAP : jsmap string string :=
  EXTRA_TOOL_RENAME_MAP ++
  [("bash", "Bash"); ("read", "Read"); ("write", "Write"); ("edit", "Edit"); ("glob", "Glob"); ("grep", "Grep");
   ("task", "Task"); ("agent", "Agent"); ("webfetch", "WebFetch"); ("websearch", "WebSearch"); ("todowrite", "TodoWrite");
   ("todoread", "TodoRead"); ("question", "Question"); ("askuserquestion", "AskUserQuestion"); ("skill", "Skill");
   ("slashcommand", "SlashCommand"); ("multiedit", "MultiEdit"); ("notebook", "Notebook"); ("notebookedit", "NotebookEdit");
   ("notebookread", "NotebookRead"); ("lsp", "Lsp"); ("apply_patch", "ApplyPatch"); ("applypatch", "ApplyPatch");
   ("bashoutput", "BashOutput"); ("killshell", "KillShell"); ("killbash", "KillBash"); ("enterplanmode", "EnterPlanMode");
   ("exitplanmode", "ExitPlanMode"); ("enterworktree", "EnterWorktree"); ("exitworktree", "ExitWorktree");
   ("artifact", "Artifact"); ("designsync", "DesignSync"); ("monitor", "Monitor"); ("sendmessage", "SendMessage");
   ("listagents", "ListAgents"); ("pushnotification", "PushNotification"); ("reportfindings", "ReportFindings");
   ("schedulewakeup", "ScheduleWakeup"); ("croncreate", "CronCreate"); ("crondelete", "CronDelete"); ("cronlist", "CronList");
   ("taskoutput", "TaskOutput"); ("taskstop", "TaskStop"); ("taskcreate", "TaskCreate"); ("taskupdate", "TaskUpdate");
   ("tasklist", "TaskList"); ("taskget", "TaskGet"); ("workflow", "Workflow")].

(** The last of several keys with one value stays. *)
Definition REVERSE_MAP : jsmap string string := foldl (fun m '(k, v) => mset v k m) [] TOOL_RENAME_MAP.

Definition CLAUDE_BUILTIN_TOOL_NAMES : list string := TOOL_RENAME_MAP.*2.

Definition HARNESS_CANONICAL_MAP : jsmap string string :=
  [("read_file", "Read"); ("write_file", "Write"); ("search_files", "Grep"); ("grep_search", "Grep");
   ("list_directory", "Glob"); ("run_command", "Bash"); ("terminal", "Bash"); ("todo", "TodoWrite");
   ("todo_write", "TodoWrite"); ("todo_read", "TodoRead"); ("patch", "Edit"); ("multi_edit", "MultiEdit")].

(** ** The answer's side *)

(** The walk over the map: the value to return at once, or the last identical one. *)
Fixpoint caseMatch (rawName lower : string) (m : jsmap string string) (identityMatch : option string) : string + option string :=
  match m with
  | [] => inr identityMatch
  | (sanitized, original) :: m =>
      if negb (String.eqb (toLowerCase sanitized) lower) && negb (String.eqb (toLowerCase original) lower)
      then caseMatch rawName lower m identityMatch
      else if negb (String.eqb original rawName) then inl original
      else caseMatch rawName lower m (Some original)
  end.

(** An absent map is an empty one. *)
Definition restoreClaudeToolName (toolNameMap : jsmap string string) (rawName : string) : string :=
  if isEmpty rawName then rawName
  else
    let lower := toLowerCase rawName in
    let canonicalRaw := mget lower TOOL_RENAME_MAP in
    let canonical := match canonicalRaw with Some c => if String.eqb c rawName then None else Some c | None => None end in
    let noCanonical := match canonical with None => true | Some _ => false end in
    let walk := match caseMatch rawName lower toolNameMap None with
                | inl original => original
                | inr identityMatch =>
                    match identityMatch with
                    | Some i => if noCanonical then i else orElse canonical rawName
                    | None => orElse canonical rawName
                    end
                end in
    match mget rawName toolNameMap with
    | Some exact => if negb (String.eqb exact rawName) || noCanonical then exact else walk
    | None => walk
    end.

(** ** The request *)

Definition isLowerLetter (c : ascii) : bool := let n := N_of_ascii c in ((97 <=? n)%N && (n <=? 122)%N).
Definition isDigitChar (c : ascii) : bool := let n := N_of_ascii c in ((48 <=? n)%N && (n <=? 57)%N).

(** [_\s-] . *)
Definition isSeparator (c : ascii) : bool := Ascii.eqb c "_"%char || Ascii.eqb c "-"%char || isSpace c.

(** The words between separators, the empty ones left out; [word] is the one being
    read, backwards. *)
Fixpoint words (word : list ascii) (s : string) : list (list ascii) :=
  match s with
  | EmptyString => match word with [] => [] | _ => [reverse word] end
  | String c s => if isSeparator c then match word with [] => words [] s | _ => reverse word :: words [] s end else words (c :: word) s
  end.

Definition capital (w : list ascii) : list ascii := match w with c :: w => upperAscii c :: w | [] => [] end.

Definition toPascalCaseToolName (name : string) : string :=
  match concat (capital <$> words [] name) with [] => name | pascal => string_of_list_ascii pascal end.

Definition firstChar (f : ascii -> bool) (s : string) : bool := match s with String c _ => f c | EmptyString => false end.

Definition needsThirdPartyCloak (name : string) : bool :=
  if isEmpty name then false
  else if existsb (String.eqb name) CLAUDE_BUILTIN_TOOL_NAMES then false
  else if String.prefix "mcp__" name then false
  else firstChar isLowerLetter name || occurs "_"%char name || occurs "-"%char name.

(** /^[a-z][a-z0-9_]*_\d{8}$/ *)
Definition versionedServerToolType (t : string) : bool :=
  let l := list_ascii_of_string t in
  let r := reverse l in
  firstChar isLowerLetter t && (10 <=? length l)%nat && forallb isDigitChar (take 8 r) &&
  match drop 8 r with
  | c :: r => Ascii.eqb c "_"%char && forallb (fun c => isLowerLetter c || isDigitChar c || Ascii.eqb c "_"%char) r
  | [] => false
  end.

(** [None]: no string. *)
Definition isAnthropicServerToolType (type : option string) : bool :=
  match type with
  | Some t => versionedServerToolType t || existsb (String.eqb t) ["web_search"; "web_search_preview"]
  | None => false
  end.

(** A tool, a block of a message or a tool_choice: its [type] and [name] where they are
    strings, and the rest. *)
Section Bodies.
Context {Rest : Type}.

Record Named := mkNamed { n_type : option string; n_name : option string; n_rest : Rest }.

(** The entries of [tools] may be null; [content] is [None] when it is no list. *)
Record Body := mkBody {
  tools : option (list (option Named));
  messages : option (list (Rest * option (list (option Named))));
  tool_choice : option Named;
  toolNameMap : option (jsmap string string);
}.

Definition withName (n : string) (x : Named) : Named := mkNamed (n_type x) (Some n) (n_rest x).

Definition isServerTool (x : Named) : bool := isAnthropicServerToolType (n_type x).

Definition collectServerToolNames (ts : option (list (option Named))) : list string :=
  omap (fun t => x ← t; if isServerTool x then n_name x else None) (orElse ts []).

Definition hasName (n : string) (l : list string) : bool := existsb (String.eqb n) l.

(** *** The fixed names *)

Record Remap := mkRemap { r_map : option (jsmap string string); hasLowercase : bool; hasTitleCase : bool }.

(** [trackToolName]. *)
Definition trackToolName (titleCaseName originalName : string) (m : option (jsmap string string)) : option (jsmap string string) :=
  Some (mset titleCaseName originalName (orElse m [])).

Definition remapName (name : string) (s : Remap) : Remap * string :=
  match mget name TOOL_RENAME_MAP with
  | Some mapped => (mkRemap (trackToolName mapped name (r_map s)) true (hasTitleCase s), mapped)
  | None => (mkRemap (r_map s) (hasLowercase s) (hasTitleCase s || mhas name REVERSE_MAP), name)
  end.

(** Left to right over a list. *)
Fixpoint mapState {S A B} (f : A -> S -> S * B) (l : list A) (s : S) : S * list B :=
  match l with
  | [] => (s, [])
  | a :: l => let '(s, b) := f a s in let '(s, bs) := mapState f l s in (s, b :: bs)
  end.

Definition remapTool (t : option Named) (s : Remap) : Remap * option Named :=
  match t with
  | Some x =>
      if isServerTool x then (s, t)
      else match n_name x with
           | Some n => let '(s', n') := remapName n s in (s', Some (if mhas n TOOL_RENAME_MAP then withName n' x else x))
           | None => (s, t)
           end
  | None => (s, t)
  end.

(** A reference to a tool: a block of type tool_use, or a tool_choice of type tool.  (A
    null block, on which the first of the two rewrites throws, does not occur.) *)
Definition isReference (type : string) (server : list string) (x : Named) : option string :=
  if bool_decide (n_type x = Some type) then n ← n_name x; if hasName n server then None else Some n else None.

Definition remapReference (type : string) (server : list string) (t : option Named) (s : Remap) : Remap * option Named :=
  match t with
  | Some x =>
      match isReference type server x with
      | Some n => let '(s', n') := remapName n s in (s', Some (withName n' x))
      | None => (s, t)
      end
  | None => (s, t)
  end.

Definition remapMessage (server : list string) (m : Rest * option (list (option Named))) (s : Remap)
    : Remap * (Rest * option (list (option Named))) :=
  match m with
  | (r, Some content) => let '(s, content) := mapState (remapReference "tool_use" server) content s in (s, (r, Some content))
  | _ => (s, m)
  end.

Definition remapToolNamesInRequest (b : Body) : Body * bool :=
  let server := collectServerToolNames (tools b) in
  let s := mkRemap (toolNameMap b) false false in
  let '(s, tools) := match tools b with Some l => let '(s, l) := mapState remapTool l s in (s, Some l) | None => (s, None) end in
  let '(s, messages) := match messages b with Some l => let '(s, l) := mapState (remapMessage server) l s in (s, Some l) | None => (s, None) end in
  let '(s, choice) := remapReference "tool" server (tool_choice b) s in
  (mkBody tools messages choice (r_map s), hasLowercase s && negb (hasTitleCase s)).

(** *** Aliases for all other names *)

Record Cloak := mkCloak { usedNames : gset string; assigned : jsmap string string; nameMap : option (jsmap string string) }.

(** The first of [base], [base2], [base3] and so on that is the name itself or not in
    use. *)
Fixpoint pickAlias (fuel : nat) (original base : string) (used : gset string) (suffix : nat) (alias : string) : string :=
  match fuel with
  | O => alias
  | S fuel =>
      if negb (String.eqb alias original) && bool_decide (alias ∈ used)
      then pickAlias fuel original base used (S suffix) (base +:+ pretty suffix)
      else alias
  end.

Definition baseOf (original : string) : string :=
  match mget original TOOL_RENAME_MAP with
  | Some b => b
  | None => orElse (mget original HARNESS_CANONICAL_MAP) (toPascalCaseToolName original)
  end.

Definition aliasFor (original : string) (s : Cloak) : Cloak * string :=
  match mget original (assigned s) with
  | Some a => (s, a)
  | None =>
      let base := baseOf original in
      let alias := pickAlias (S (size (usedNames s))) original base (usedNames s) 2 base in
      (mkCloak ({[alias]} ∪ (usedNames s ∖ {[original]})) (mset original alias (assigned s))
         (Some (mset alias original (orElse (nameMap s) []))), alias)
  end.

(** The caller's exceptions. *)
Context (skip : string -> bool).

Definition shouldCloak (name : string) : bool := needsThirdPartyCloak name && negb (skip name).

Definition cloakTool (t : option Named) (s : Cloak) : Cloak * option Named :=
  match t with
  | Some x =>
      if isServerTool x then (s, t)
      else match n_name x with
           | Some n => if shouldCloak n then let '(s, a) := aliasFor n s in (s, Some (withName a x)) else (s, t)
           | None => (s, t)
           end
  | None => (s, t)
  end.

Definition cloakReference (type : string) (server : list string) (t : option Named) (s : Cloak) : Cloak * option Named :=
  match t with
  | Some x =>
      match isReference type server x with
      | Some n => if shouldCloak n then let '(s, a) := aliasFor n s in (s, Some (withName a x)) else (s, t)
      | None => (s, t)
      end
  | None => (s, t)
  end.

Definition cloakMessage (server : list string) (m : Rest * option (list (option Named))) (s : Cloak)
    : Cloak * (Rest * option (list (option Named))) :=
  match m with
  | (r, Some content) => let '(s, content) := mapState (cloakReference "tool_use" server) content s in (s, (r, Some content))
  | _ => (s, m)
  end.

Definition toolNames (l : list (option Named)) : list string := omap (fun t => x ← t; n_name x) l.

Definition cloak0 (b : Body) : Cloak :=
  mkCloak (list_to_set (toolNames (orElse (tools b) []) ++ mkeys (orElse (toolNameMap b) []))) [] (toolNameMap b).

(** [disabled]: CLAUDE_DISABLE_TOOL_NAME_CLOAK is true.  The request, and the map. *)
Definition cloakThirdPartyToolNames (disabled : bool) (b : Body) : Body * jsmap string string :=
  if disabled then (b, [])
  else
    let server := collectServerToolNames (tools b) in
    let s := cloak0 b in
    let '(s, tools) := match tools b with Some l => let '(s, l) := mapState cloakTool l s in (s, Some l) | None => (s, None) end in
    let '(s, messages) := match messages b with Some l => let '(s, l) := mapState (cloakMessage server) l s in (s, Some l) | None => (s, None) end in
    let '(s, choice) := cloakReference "tool" server (tool_choice b) s in
    (mkBody tools messages choice (nameMap s), orElse (nameMap s) []).
End Bodies.

Arguments Named : clear implicits.
Arguments Body : clear implicits.

(** ** Aliases *)

Definition isClean (c : ascii) : bool := negb (isSeparator c).

Lemma occurs_list sep l : occurs sep (string_of_list_ascii l) = existsb (Ascii.eqb sep) l.
Proof. induction l as [|c l IH]; [done|]. cbn. rewrite IH. by destruct (Ascii.eqb_spec c sep), (Ascii.eqb_spec sep c); subst. Qed.

Lemma clean_not_sep sep l : isSeparator sep = true -> forallb isClean l = true -> existsb (Ascii.eqb sep) l = false.
Proof.
  intros Hs. induction l as [|c l IH]; [done|]. cbn. intros H. apply andb_true_iff in H as [Hc H]. rewrite IH by done.
  destruct (Ascii.eqb_spec sep c) as [->|]; [|done]. unfold isClean in Hc. by rewrite Hs in Hc.
Qed.

Lemma forallb_reverse {A} (f : A -> bool) l : forallb f (reverse l) = forallb f l.
Proof. induction l as [|x l IH]; [done|]. rewrite reverse_cons, forallb_app, IH. cbn. by rewrite andb_true_r, andb_comm. Qed.

Lemma reverse_cons_ne {A} (x : A) l : reverse (x :: l) <> [].
Proof. rewrite reverse_cons. intros H. by apply app_eq_nil in H as [_ H]. Qed.

Lemma words_clean s word : forallb isClean word = true -> Forall (fun w => forallb isClean w = true /\ w <> []) (words word s).
Proof.
  revert word. induction s as [|c s IH]; intros word Hw; cbn [words].
  - destruct word as [|d word]; [done|]. constructor; [|done]. rewrite forallb_reverse. split; [done|apply reverse_cons_ne].
  - destruct (isSeparator c) eqn:Ec.
    + destruct word as [|d word]; [by apply IH|]. constructor; [|by apply IH]. rewrite forallb_reverse. split; [done|apply reverse_cons_ne].
    + apply IH. cbn. unfold isClean at 1. by rewrite Ec.
Qed.

Lemma upperAscii_clean c : isClean c = true -> isClean (upperAscii c) = true /\ isLowerLetter (upperAscii c) = false.
Proof. destruct c as [[] [] [] [] [] [] [] []]; by vm_compute. Qed.

Lemma not_cloaked s : firstChar isLowerLetter s = false -> occurs "_"%char s = false -> occurs "-"%char s = false -> needsThirdPartyCloak s = false.
Proof. intros H1 H2 H3. unfold needsThirdPartyCloak. rewrite H1, H2, H3. by repeat case_if. Qed.

(** The shape of a base that is not the name itself. *)
Definition pascal (s : string) : Prop :=
  s <> EmptyString /\ firstChar isLowerLetter s = false /\ occurs "_"%char s = false /\ occurs "-"%char s = false.

Definition pascalb (s : string) : bool :=
  negb (isEmpty s) && negb (firstChar isLowerLetter s) && negb (occurs "_"%char s) && negb (occurs "-"%char s).

Lemma pascalb_spec s : pascalb s = true -> pascal s.
Proof. unfold pascalb, pascal. destruct s; [done|]. rewrite !andb_true_iff, !negb_true_iff. intros [[[_ ?] ?] ?]. done. Qed.

Lemma tables_pascal : forallb (fun kv => pascalb kv.2) (TOOL_RENAME_MAP ++ HARNESS_CANONICAL_MAP) = true.
Proof. vm_compute. reflexivity. Qed.

Lemma baseOf_pascal o : baseOf o = o \/ pascal (baseOf o).
Proof.
  assert (Ht : forall k v (m : jsmap string string), mget k m = Some v -> (forall kv, kv ∈ m -> kv ∈ TOOL_RENAME_MAP ++ HARNESS_CANONICAL_MAP) -> pascal v).
  { intros k v m H Hm. apply pascalb_spec. pose proof tables_pascal as Hf. rewrite forallb_forall in Hf.
    apply (Hf (k, v)). apply list_elem_of_In, Hm. by apply mget_Some_elem. }
  unfold baseOf. destruct (mget o TOOL_RENAME_MAP) as [v|] eqn:E; [right; eapply Ht; [done|]; intros; by apply elem_of_app; left|].
  destruct (mget o HARNESS_CANONICAL_MAP) as [v|] eqn:E2; cbn; [right; eapply Ht; [done|]; intros; by apply elem_of_app; right|].
  unfold toPascalCaseToolName. pose proof (words_clean o [] eq_refl) as Hw. destruct (words [] o) as [|w ws]; [by left|].
  right. inversion Hw as [|? ? [Hw1 Hn] Hws]; subst. destruct w as [|c w]; [done|]. cbn in Hw1. apply andb_true_iff in Hw1 as [Hc Hw1].
  destruct (upperAscii_clean c Hc) as [Hc' Hl]. cbn [fmap list_fmap concat capital app].
  assert (Hall : forallb isClean (upperAscii c :: w ++ concat (capital <$> ws)) = true).
  { cbn. rewrite Hc', forallb_app, Hw1. cbn. clear -Hws. induction Hws as [|v vs [Hv Hne] _ IH]; [done|]. cbn. rewrite forallb_app, IH, andb_true_r.
    destruct v as [|d v]; [done|]. cbn in *. apply andb_true_iff in Hv as [Hd Hv]. rewrite Hv, andb_true_r. by apply upperAscii_clean. }
  split_and!; [done|done|by rewrite occurs_list, clean_not_sep|by rewrite occurs_list, clean_not_sep].
Qed.

Lemma pretty_digits (n : nat) sep : isDigitChar sep = false -> occurs sep (pretty n) = false.
Proof.
  intros Hs. assert (H : forall x s, occurs sep s = false -> occurs sep (pretty_N_go x s) = false).
  { intros x. induction (N.lt_wf_0 x) as [x _ IH]. intros s Hn. destruct (decide (x = 0)%N) as [->|Hx]; [by rewrite pretty_N_go_0|].
    rewrite pretty_N_go_step by lia. apply IH; [apply N.div_lt; lia|]. cbn [occurs]. rewrite Hn, orb_false_r.
    pose proof (N.mod_lt x 10 ltac:(lia)) as Hlt. revert Hlt. generalize (x mod 10)%N. intros d Hlt. apply Ascii.eqb_neq. intros E. rewrite <- E in Hs. clear E. revert Hs.
    destruct d as [|[[[|[]|]|[|[]|]|]|[[|[]|]|[|[]|]|]|]]; try (intros ?; done); lia. }
  unfold pretty, pretty_nat, pretty, pretty_N. case_decide; [|by apply H]. cbn [occurs]. rewrite orb_false_r. apply Ascii.eqb_neq. by intros <-.
Qed.

Lemma firstChar_app f a b : a <> EmptyString -> firstChar f (a +:+ b) = firstChar f a.
Proof. by destruct a. Qed.

Lemma pascal_suffix s (n : nat) : pascal s -> pascal (s +:+ pretty n).
Proof.
  intros (H1 & H2 & H3 & H4). split_and!; [by destruct s|by rewrite firstChar_app|by rewrite occurs_append, H3, pretty_digits|by rewrite occurs_append, H4, pretty_digits].
Qed.

(** Whatever alias is picked: the name itself, or one that no rewrite touches. *)
Lemma pickAlias_shape fuel o base used k alias :
  pascal base -> (alias = o \/ pascal alias) -> pickAlias fuel o base used k alias = o \/ pascal (pickAlias fuel o base used k alias).
Proof.
  intros Hb. revert k alias. induction fuel as [|fuel IH]; intros k alias Ha; cbn [pickAlias]; [done|].
  case_if; [|done]. apply IH. right. by apply pascal_suffix.
Qed.

Definition candidate (base : string) (i : nat) : string := match i with O => base | S i => base +:+ pretty (i + 2)%nat end.

Lemma pretty_N_go_length x s : (String.length s <= String.length (pretty_N_go x s))%nat.
Proof.
  revert s. induction (N.lt_wf_0 x) as [x _ IH]. intros s. destruct (decide (x = 0)%N) as [->|Hx]; [by rewrite pretty_N_go_0|].
  rewrite pretty_N_go_step by lia. etransitivity; [|apply IH; apply N.div_lt; lia]. cbn. lia.
Qed.

Lemma pretty_nat_length (n : nat) : (0 < String.length (pretty n))%nat.
Proof.
  unfold pretty, pretty_nat, pretty, pretty_N. case_decide; [cbn; lia|]. rewrite pretty_N_go_step by lia.
  eapply Nat.lt_le_trans; [|apply pretty_N_go_length]. cbn. lia.
Qed.

Lemma candidate_inj base i j : candidate base i = candidate base j -> i = j.
Proof.
  assert (Hne : forall n : nat, base <> base +:+ pretty n).
  { intros n H. apply (f_equal String.length) in H. rewrite append_length in H. pose proof (pretty_nat_length n). lia. }
  destruct i as [|i], j as [|j]; cbn [candidate]; intros H; [done|by apply Hne in H|symmetry in H; by apply Hne in H|].
  apply append_inj_l, (inj pretty) in H. lia.
Qed.

(** With one more unit of fuel than there are names in use, a free alias is found. *)
Lemma pickAlias_free o base used :
  let a := pickAlias (S (size used)) o base used 2 base in a = o \/ a ∉ used.
Proof.
  assert (Hrun : forall fuel i, (exists j, (i <= j < i + fuel)%nat /\ candidate base j ∉ used) ->
    let a := pickAlias fuel o base used (i + 2) (candidate base i) in a = o \/ a ∉ used).
  { induction fuel as [|fuel IH]; intros i (j & Hj & Hf); [lia|]. cbn [pickAlias].
    destruct (String.eqb_spec (candidate base i) o) as [|Ho]; cbn; [by left|]. case_bool_decide as Hu; cbn; [|by right].
    apply (IH (S i)). exists j. split; [|done]. destruct (decide (i = j)) as [->|]; [done|lia]. }
  apply (Hrun _ 0%nat). destruct (decide (Exists (fun j => candidate base j ∉ used) (seq 0 (S (size used))))) as [H|H].
  - apply Exists_exists in H as (j & Hj & Hf). apply elem_of_seq in Hj. exists j. split; [lia|done].
  - exfalso. assert (Hnd : NoDup (candidate base <$> seq 0 (S (size used)))).
    { apply NoDup_fmap_2_strong; [|apply NoDup_seq]. intros ????. apply candidate_inj. }
    assert (Hsub : list_to_set (candidate base <$> seq 0 (S (size used))) ⊆ used).
    { intros x Hx. apply elem_of_list_to_set, list_elem_of_fmap in Hx as (j & -> & Hj). destruct (decide (candidate base j ∈ used)) as [|Hn]; [done|].
      exfalso. apply H, Exists_exists. eauto. }
    apply subseteq_size in Hsub. rewrite size_list_to_set in Hsub by done. rewrite length_fmap, length_seq in Hsub. lia.
Qed.

(** ** What the rewrite keeps *)

Record Inv (s : Cloak) : Prop := {
  inv_map : forall o a, mget o (assigned s) = Some a -> mget a (orElse (nameMap s) []) = Some o;
  inv_used : forall o a, mget o (assigned s) = Some a -> a ∈ usedNames s;
  inv_shape : forall o a, mget o (assigned s) = Some a -> (a = o \/ needsThirdPartyCloak a = false) /\ a <> EmptyString;
}.

(** Names assigned stay; names that are not rewritten stay in use. *)
Definition Extends (s s' : Cloak) : Prop :=
  (forall o a, mget o (assigned s) = Some a -> mget o (assigned s') = Some a) /\
  (forall n, n ∈ usedNames s -> needsThirdPartyCloak n = false -> n ∈ usedNames s').

Lemma Extends_refl s : Extends s s.
Proof. by split. Qed.

Lemma Extends_trans s1 s2 s3 : Extends s1 s2 -> Extends s2 s3 -> Extends s1 s3.
Proof. intros [H1 H2] [H3 H4]. split; eauto. Qed.

Lemma aliasFor_spec o s s' a : needsThirdPartyCloak o = true -> Inv s -> aliasFor o s = (s', a) ->
  Inv s' /\ Extends s s' /\ mget o (assigned s') = Some a /\ (a = o \/ mget o (assigned s) = Some a \/ a ∉ usedNames s) /\
  (forall n, n <> o -> (n ∈ usedNames s -> n ∈ usedNames s') /\ mget n (assigned s') = mget n (assigned s)).
Proof.
  intros Ho [I1 I2 I3]. unfold aliasFor. destruct (mget o (assigned s)) as [a0|] eqn:E.
  { intros [= <- <-]. split_and!; [by constructor|apply Extends_refl|done|auto|auto]. }
  set (al := pickAlias _ _ _ _ _ _). assert (Hf : al = o \/ al ∉ usedNames s) by apply pickAlias_free.
  assert (Hone : o <> EmptyString) by (by intros ->).
  assert (Hs : (al = o \/ needsThirdPartyCloak al = false) /\ al <> EmptyString).
  { destruct (baseOf_pascal o) as [Hb|Hb].
    - subst al. rewrite Hb. cbn [pickAlias]. rewrite String.eqb_refl. cbn. auto.
    - pose proof (pickAlias_shape (S (size (usedNames s))) o (baseOf o) (usedNames s) 2 (baseOf o) Hb (or_intror Hb)) as Hx.
      fold al in Hx. destruct Hx as [Hx|(? & ? & ? & ?)]; [by rewrite Hx; auto|split; [right; by apply not_cloaked|done]]. }
  clearbody al. intros [= <- <-]. cbn.
  assert (Hkeep : forall o' a', mget o' (assigned s) = Some a' -> a' <> al).
  { intros o' a' H ->. destruct Hf as [->|Hf]; [|by eauto]. destruct (I3 _ _ H) as [[->|Hn] _]; congruence. }
  split_and!.
  - constructor; cbn [assigned nameMap usedNames orElse]; intros o' a'; rewrite mget_mset; case_decide as Hd.
    + intros [= <-]. subst. by rewrite mget_mset_eq.
    + intros H. rewrite mget_mset_ne by (by eapply Hkeep). eauto.
    + intros [= <-]. set_solver.
    + intros H. assert (a' <> o) by (intros ->; destruct (I3 _ _ H) as [[->|] _]; congruence). specialize (I2 _ _ H). set_solver.
    + intros [= <-]. by subst.
    + eauto.
  - split; cbn; [intros o' a' H; rewrite mget_mset_ne; [done|congruence]|]. intros n Hn Hc. assert (n <> o) by congruence. set_solver.
  - apply mget_mset_eq.
  - destruct Hf; auto.
  - intros n Hn. split; [set_solver|by rewrite mget_mset_ne].
Qed.

Section Lists.
Context {S A B : Type} (I : S -> Prop) (E : S -> S -> Prop) (R : S -> A -> B -> Prop) (f : A -> S -> S * B).
Context (E_refl : forall s, E s s) (E_trans : forall s1 s2 s3, E s1 s2 -> E s2 s3 -> E s1 s3).
Context (R_mono : forall s s' a b, E s s' -> R s a b -> R s' a b).
Context (f_ok : forall a s s' b, I s -> f a s = (s', b) -> I s' /\ E s s' /\ R s' a b).

Lemma mapState_ok l s s' l' : I s -> mapState f l s = (s', l') -> I s' /\ E s s' /\ Forall2 (R s') l l'.
Proof using All.
  revert s l'. induction l as [|a l IH]; intros s l' Hs; cbn [mapState]; [by intros [= <- <-]|].
  destruct (f a s) as [s1 b] eqn:Ef. destruct (mapState f l s1) as [s2 bs] eqn:Em. intros [= <- <-].
  destruct (f_ok _ _ _ _ Hs Ef) as (H1 & H2 & H3). destruct (IH _ _ H1 Em) as (H4 & H5 & H6). split_and!; [done|by eapply E_trans|].
  constructor; [by eapply R_mono|done].
Qed.
End Lists.

Section Bodies_ok.
Context {Rest : Type} (skip : string -> bool).
Implicit Types (t : option (Named Rest)) (s : Cloak).

(** A place is unchanged, or has an alias that the answer's side takes back. *)
Definition Renamed (s : Cloak) (t t' : option (Named Rest)) : Prop :=
  t' = t \/ exists x a n, t = Some x /\ n_name x = Some n /\ t' = Some (withName a x) /\ mget n (assigned s) = Some a.

Definition RenamedMessage (s : Cloak) (m m' : Rest * option (list (option (Named Rest)))) : Prop :=
  m'.1 = m.1 /\ option_Forall2 (Forall2 (Renamed s)) m.2 m'.2.

Lemma Renamed_mono s s' t t' : Extends s s' -> Renamed s t t' -> Renamed s' t t'.
Proof. intros [H _] [->|(x & a & n & H1 & H2 & H3 & H4)]; [by left|right; eauto 10]. Qed.

Lemma RenamedMessage_mono s s' m m' : Extends s s' -> RenamedMessage s m m' -> RenamedMessage s' m m'.
Proof.
  intros He [H1 H2]. split; [done|]. destruct H2; constructor. eapply Forall2_impl; [done|]. intros. by eapply Renamed_mono.
Qed.

Lemma renamed_by n t x s s' a : t = Some x -> n_name x = Some n -> shouldCloak skip n = true -> Inv s -> aliasFor n s = (s', a) ->
  Inv s' /\ Extends s s' /\ Renamed s' t (Some (withName a x)).
Proof.
  intros -> Hn Hc Hs Ha. unfold shouldCloak in Hc. apply andb_true_iff in Hc as [Hc _].
  destruct (aliasFor_spec _ _ _ _ Hc Hs Ha) as (H1 & H2 & H3 & _). split_and!; [done..|]. right. eauto 10.
Qed.

Lemma unchanged s t : Inv s -> Inv s /\ Extends s s /\ Renamed s t t.
Proof. intros H. split_and!; [done|apply Extends_refl|by left]. Qed.

Lemma cloakTool_ok t s s' t' : Inv s -> cloakTool skip t s = (s', t') -> Inv s' /\ Extends s s' /\ Renamed s' t t'.
Proof.
  intros Hs. unfold cloakTool. destruct t as [x|]; [|intros [= <- <-]; by apply unchanged].
  destruct (isServerTool x); [intros [= <- <-]; by apply unchanged|].
  destruct (n_name x) as [n|] eqn:En; [|intros [= <- <-]; by apply unchanged].
  destruct (shouldCloak skip n) eqn:Ec; [|intros [= <- <-]; by apply unchanged].
  destruct (aliasFor n s) as [s1 a] eqn:Ea. intros [= <- <-]. by eapply renamed_by.
Qed.

Lemma cloakReference_ok type server t s s' t' :
  Inv s -> cloakReference skip type server t s = (s', t') -> Inv s' /\ Extends s s' /\ Renamed s' t t'.
Proof.
  intros Hs. unfold cloakReference. destruct t as [x|]; [|intros [= <- <-]; by apply unchanged].
  destruct (isReference type server x) as [n|] eqn:En; [|intros [= <- <-]; by apply unchanged].
  destruct (shouldCloak skip n) eqn:Ec; [|intros [= <- <-]; by apply unchanged].
  destruct (aliasFor n s) as [s1 a] eqn:Ea. intros [= <- <-]. eapply renamed_by; try done.
  unfold isReference in En. case_bool_decide; [|done]. destruct (n_name x) as [n'|]; [|done]. cbn in En. case_if_in En; [done|]. by injection En as ->.
Qed.

Lemma cloakMessage_ok server m s s' m' :
  Inv s -> cloakMessage skip server m s = (s', m') -> Inv s' /\ Extends s s' /\ RenamedMessage s' m m'.
Proof.
  intros Hs. unfold cloakMessage. destruct m as [r [content|]].
  - destruct (mapState _ content s) as [s1 c1] eqn:E. intros [= <- <-].
    destruct (mapState_ok Inv Extends Renamed _ Extends_refl Extends_trans Renamed_mono (cloakReference_ok _ _) _ _ _ _ Hs E) as (H1 & H2 & H3).
    split_and!; [done..|]. split; [done|by constructor].
  - intros [= <- <-]. split_and!; [done|apply Extends_refl|]. split; [done|constructor].
Qed.

(** What the answer's side makes of a place. *)
Definition Restores (m : jsmap string string) (t t' : option (Named Rest)) : Prop :=
  t' = t \/ exists x a n, t = Some x /\ n_name x = Some n /\ t' = Some (withName a x) /\ (a <> n -> restoreClaudeToolName m a = n).

Lemma restore_exact m a n : mget a m = Some n -> a <> EmptyString -> a <> n -> restoreClaudeToolName m a = n.
Proof.
  intros Hm Hne Hn. unfold restoreClaudeToolName. destruct a as [|c a]; [done|]. cbn [isEmpty]. cbv zeta. rewrite Hm.
  destruct (String.eqb_spec n (String c a)); [congruence|done].
Qed.

Lemma Renamed_Restores s t t' : Inv s -> Renamed s t t' -> Restores (orElse (nameMap s) []) t t'.
Proof.
  intros [I1 _ I3] [->|(x & a & n & H1 & H2 & H3 & H4)]; [by left|]. right. exists x, a, n. split_and!; [done..|].
  intros Hne. apply restore_exact; [eauto|by apply (I3 _ _ H4)|done].
Qed.

Lemma optional_ok {A B} (R : Cloak -> A -> B -> Prop) (f : A -> Cloak -> Cloak * B) (o : option (list A)) s s' o' :
  (forall s s' a b, Extends s s' -> R s a b -> R s' a b) ->
  (forall a s s' b, Inv s -> f a s = (s', b) -> Inv s' /\ Extends s s' /\ R s' a b) ->
  Inv s -> match o with Some l => let '(s, l) := mapState f l s in (s, Some l) | None => (s, None) end = (s', o') ->
  Inv s' /\ Extends s s' /\ option_Forall2 (Forall2 (R s')) o o'.
Proof.
  intros Hm Hf Hs. destruct o as [l|]; [|intros [= <- <-]; split_and!; [done|apply Extends_refl|constructor]].
  destruct (mapState f l s) as [s1 l1] eqn:E. intros [= <- <-].
  destruct (mapState_ok Inv Extends R f Extends_refl Extends_trans Hm Hf _ _ _ _ Hs E) as (H1 & H2 & H3). split_and!; [done..|by constructor].
Qed.

Lemma Inv_cloak0 (b : Body Rest) : Inv (cloak0 b).
Proof. by constructor. Qed.
End Bodies_ok.

(** Names stay apart: an output is a name of the list or was not in use before. *)
Lemma cloakTools_apart {Rest} (skip : string -> bool) (l l' : list (option (Named Rest))) s s' :
  mapState (cloakTool skip) l s = (s', l') -> Inv s -> NoDup (toolNames l) ->
  (forall n, n ∈ toolNames l -> n ∈ usedNames s /\ mget n (assigned s) = None) ->
  NoDup (toolNames l') /\ (forall a, a ∈ toolNames l' -> a ∈ toolNames l \/ a ∉ usedNames s).
Proof.
  revert s l'. induction l as [|t l IH]; intros s l'; cbn [mapState].
  { intros [= <- <-] _ _ _. cbn. split; [constructor|]. by intros a Ha%not_elem_of_nil. }
  destruct (cloakTool skip t s) as [s1 t'] eqn:Et. destruct (mapState _ l s1) as [s2 l1] eqn:El. intros [= <- <-] Hs Hnd Hu.
  assert (Hsame : t' = t /\ s1 = s -> NoDup (toolNames (t' :: l1)) /\ (forall a, a ∈ toolNames (t' :: l1) -> a ∈ toolNames (t :: l) \/ a ∉ usedNames s)).
  { intros [-> ->]. unfold toolNames in *. cbn [omap list_omap] in *. destruct (t ≫= _) as [n|]; [|by eapply IH].
    apply NoDup_cons in Hnd as [Hn Hnd]. destruct (IH _ _ El Hs Hnd) as [H1 H2]; [intros; apply Hu; by right|]. split.
    - constructor; [|done]. intros Hin. destruct (H2 _ Hin) as [|Hf]; [done|]. apply Hf, (Hu n). by left.
    - intros a [->|Ha]%elem_of_cons; [left; by left|]. destruct (H2 _ Ha); [left; by right|by right]. }
  unfold cloakTool in Et. destruct t as [x|]; [|injection Et as <- <-; by apply Hsame].
  destruct (isServerTool x); [injection Et as <- <-; by apply Hsame|].
  destruct (n_name x) as [n|] eqn:En; [|injection Et as <- <-; by apply Hsame].
  destruct (shouldCloak skip n) eqn:Ec; [|injection Et as <- <-; by apply Hsame]. clear Hsame.
  destruct (aliasFor n s) as [s1' a] eqn:Ea. injection Et as -> <-.
  unfold shouldCloak in Ec. apply andb_true_iff in Ec as [Ec _].
  destruct (aliasFor_spec _ _ _ _ Ec Hs Ea) as (I1 & _ & Ha & Hfresh & Hkeep).
  unfold toolNames in *. cbn [omap list_omap mbind option_bind withName n_name] in *. rewrite En in *.
  apply NoDup_cons in Hnd as [Hn Hnd].
  destruct (Hu n) as [Hun Hna]; [by left|].
  destruct (IH _ _ El I1 Hnd) as [H1 H2].
  { intros m Hm. assert (m <> n) by congruence. destruct (Hu m) as [Hm1 Hm2]; [by right|]. destruct (Hkeep m) as [K1 K2]; [done|]. by rewrite K2; auto. }
  pose proof (inv_used _ I1 _ _ Ha) as Hau. split.
  - constructor; [|done]. intros Hin. destruct (H2 _ Hin) as [Hm|Hf]; [|done].
    destruct Hfresh as [->|[Hx|Hf]]; [done|congruence|]. apply Hf, Hu. by right.
  - intros m [->|Hm]%elem_of_cons; [destruct Hfresh as [->|[Hx|Hf]]; [left; by left|congruence|by right]|].
    destruct (H2 _ Hm) as [Hin|Hf]; [left; by right|]. destruct (decide (m = n)) as [->|Hne]; [left; by left|].
    right. intros Hin. apply Hf. by apply Hkeep.
Qed.

(** C26. A rewritten request comes back: every tool, every call in the history and the
    chosen tool either keep the name they had, or get an alias that the answer's side
    turns back into it. *)
Theorem cloak_roundtrip {Rest} (skip : string -> bool) (b : Body Rest) :
  let '(b', m) := cloakThirdPartyToolNames skip false b in
  option_Forall2 (Forall2 (Restores m)) (tools b) (tools b') /\
  option_Forall2 (Forall2 (fun x y => y.1 = x.1 /\ option_Forall2 (Forall2 (Restores m)) x.2 y.2)) (messages b) (messages b') /\
  Restores m (tool_choice b) (tool_choice b').
Proof.
  unfold cloakThirdPartyToolNames. set (server := collectServerToolNames _).
  destruct (match tools b with Some l => _ | None => _ end) as [s1 ts] eqn:E1.
  destruct (match messages b with Some l => _ | None => _ end) as [s2 ms] eqn:E2.
  destruct (cloakReference skip "tool" server (tool_choice b) s2) as [s3 c] eqn:E3.
  destruct (optional_ok Renamed _ _ _ _ _ Renamed_mono (cloakTool_ok skip) (Inv_cloak0 b) E1) as (I1 & X1 & F1).
  destruct (optional_ok RenamedMessage _ _ _ _ _ RenamedMessage_mono (cloakMessage_ok skip server) I1 E2) as (I2 & X2 & F2).
  destruct (cloakReference_ok skip _ _ _ _ _ _ I2 E3) as (I3 & X3 & F3). cbn [tools messages tool_choice].
  assert (HR : forall s (t t' : option (Named Rest)), Extends s s3 -> Renamed s t t' -> Restores (orElse (nameMap s3) []) t t').
  { intros s t t' He Hr. eapply Renamed_Restores; [done|]. by eapply Renamed_mono. }
  split_and!.
  - destruct F1; constructor. eapply Forall2_impl; [done|]. intros. eapply HR; [|done]. by eapply Extends_trans.
  - destruct F2; constructor. eapply Forall2_impl; [done|]. intros m m' [Hm HF]. split; [done|]. destruct HF; constructor.
    eapply Forall2_impl; [done|]. intros. by eapply HR.
  - eapply HR; [apply Extends_refl|done].
Qed.

(** The name that the fixed table gives a tool; those of the server keep theirs. *)
Definition fixedName {Rest} (t : option (Named Rest)) : option string :=
  x ← t; n ← n_name x; Some (if isServerTool x then n else orElse (mget n TOOL_RENAME_MAP) n).

Lemma remapTools_names {Rest} (l : list (option (Named Rest))) s :
  toolNames (mapState remapTool l s).2 = omap fixedName l /\ length (mapState remapTool l s).2 = length l.
Proof.
  revert s. induction l as [|t l IH]; intros s; [done|]. cbn [mapState]. destruct (remapTool t s) as [s1 t'] eqn:E.
  destruct (IH s1) as [I1 I2]. destruct (mapState remapTool l s1) as [s2 l']. cbn [snd] in *. split; [|by cbn; rewrite I2].
  assert (H : (x ← t'; n_name x) = fixedName t).
  { revert E. unfold remapTool, fixedName, remapName, mhas. destruct t as [x|]; [|by intros [= _ <-]]. cbn [mbind option_bind].
    destruct (isServerTool x); [intros [= _ <-]; cbn; by destruct (n_name x)|].
    destruct (n_name x) as [n|] eqn:En; [|intros [= _ <-]; cbn; by rewrite En].
    cbn [mbind option_bind]. destruct (mget n TOOL_RENAME_MAP); intros [= _ <-]; cbn; [done|by rewrite En]. }
  unfold toolNames in *. cbn [omap list_omap]. by rewrite H, I1.
Qed.

Lemma cloak_apart {Rest} (skip : string -> bool) (b : Body Rest) (l : list (option (Named Rest))) :
  tools b = Some l -> NoDup (toolNames l) ->
  exists l', tools (cloakThirdPartyToolNames skip false b).1 = Some l' /\ NoDup (toolNames l') /\ length l' = length l.
Proof.
  intros Hb Hnd. unfold cloakThirdPartyToolNames. rewrite Hb. destruct (mapState _ l _) as [s1 l1] eqn:E.
  destruct (match messages b with Some l => _ | None => _ end) as [s2 ms]. destruct (cloakReference _ _ _ _ _) as [s3 c]. cbn [fst tools].
  exists l1. split; [done|]. split.
  - eapply (cloakTools_apart _ _ _ _ _ E); [apply Inv_cloak0|done|]. intros n Hn. cbn. split; [|done].
    rewrite Hb. cbn. apply elem_of_list_to_set, elem_of_app. by left.
  - eapply (mapState_ok Inv Extends Renamed _ Extends_refl Extends_trans Renamed_mono (cloakTool_ok skip)) in E as (_ & _ & F); [|apply Inv_cloak0].
    symmetry. by eapply Forall2_length.
Qed.

(** C25. Both rewrites of a request together, the fixed names and then the aliases: when the
    fixed table gives no two of its tools one name, no two tools have one name when they are
    sent, whatever the names, the reserved ones and the aliases of an earlier
    rewrite are; none is lost.  (The table itself may merge two tools.) *)
Theorem cloak_distinct {Rest} (skip : string -> bool) (b : Body Rest) (l : list (option (Named Rest))) :
  tools b = Some l -> NoDup (omap fixedName l) ->
  exists l', tools (cloakThirdPartyToolNames skip false (remapToolNamesInRequest b).1).1 = Some l' /\ NoDup (toolNames l') /\ length l' = length l.
Proof.
  intros Hb Hnd. unfold remapToolNamesInRequest. rewrite Hb. destruct (remapTools_names l (mkRemap (toolNameMap b) false false)) as [H1 H2].
  destruct (mapState remapTool l _) as [s1 l1]. cbn [snd] in *. destruct (match messages b with Some l => _ | None => _ end) as [s2 ms].
  destruct (remapReference _ _ _ _) as [s3 c]. cbn [fst]. rewrite <- H2. apply cloak_apart; [done|]. by rewrite H1.
Qed.

Lemma cloak_distinct_witness :
  let tool t n := Some (mkNamed t (Some n) tt) in
  let b := mkBody (Some [tool None "bash"; tool None "run_command"; tool None "Run-Command"; tool (Some "web_search_20250305") "web_search"; None; tool None "web-search"])
             None None None in
  let sent := (cloakThirdPartyToolNames (fun _ => false) false (remapToolNamesInRequest b).1).1 in
  (exists l', tools sent = Some l' /\ NoDup (toolNames l') /\ length l' = 6%nat) /\
  toolNames (orElse (tools sent) []) = ["Bash"; "Bash2"; "RunCommand"; "web_search"; "WebSearch"].
Proof.
  intros tool b sent. split; [|vm_compute; reflexivity].
  apply (cloak_distinct (fun _ => false) b [tool None "bash"; tool None "run_command"; tool None "Run-Command"; tool (Some "web_search_20250305") "web_search"; None; tool None "web-search"]); [reflexivity|].
  refine (bool_decide_unpack _ _). vm_compute. exact I.
Defined.

(** ** Findings *)

(** Two tools whose names differ only in case: a call of the one that was not rewritten
    reaches the client as a call of the other. *)
Example restore_confuses_case :
  let tool n := Some (mkNamed None (Some n) tt) in
  let '(b', m) := cloakThirdPartyToolNames (fun _ => false) false (mkBody (Some [tool "bash"; tool "Bash"]) None None None) in
  (toolNames (orElse (tools b') []), restoreClaudeToolName m "Bash2", restoreClaudeToolName m "Bash") = (["Bash2"; "Bash"], "bash", "bash").
Proof. vm_compute. reflexivity. Qed.

(** A tool the rewrite leaves alone is renamed on the way back. *)
Example restore_renames_untouched :
  needsThirdPartyCloak "BASH" = false /\ restoreClaudeToolName [] "BASH" = "Bash".
Proof. by vm_compute. Qed.

(** The earlier rewrite gives two tools one name. *)
Example remap_merges :
  let tool n := Some (mkNamed None (Some n) tt) in
  let '(b', _) := remapToolNamesInRequest (mkBody (Some [tool "applypatch"; tool "apply_patch"]) None None None) in
  (toolNames (orElse (tools b') []), toolNameMap b') = (["ApplyPatch"; "ApplyPatch"], Some [("ApplyPatch", "apply_patch")]).
Proof. vm_compute. reflexivity. Qed.
