(* ===== verification/ClaudeProtocol.v ===== *)
(** * The Claude event stream

    The events a Claude client receives, as [translator/response/openai-to-claude.ts]
    builds them, and the grammar a client relies on: one message_start first; a block is
    started once under an index of its own, receives only deltas of its kind while it
    is open, and is stopped once; the message_delta comes when no block is open, the
    message_stop after it, and nothing after that.  Blocks may overlap: the translator
    keeps the blocks of parallel tool calls open together. *)
From Stdlib Require Import String.
From stdpp Require Import gmap.
From S2P Require Import Prelude JsMap ComboSteps ThinkTags.
#[local] Open Scope Z_scope.

Record Usage := mkUsage {
  input_tokens : Z;
  output_tokens : Z;
  cache_read_input_tokens : option Z;
  cache_creation_input_tokens : option Z;
}.

(** The block of a content_block_start. *)
Inductive Block :=
| thinking_block
| text_block
| tool_use (id name : string) (input : json).

Inductive BlockDelta :=
| thinking_delta (thinking : text)
| text_delta (t : text)
| input_json_delta (partial_json : text).

Inductive Event :=
| message_start (id model : string)
| content_block_start (index : Z) (content_block : Block)
| content_block_delta (index : Z) (delta : BlockDelta)
| content_block_stop (index : Z)
| message_delta (stop_reason : string) (usage : Usage)
| message_stop.

(** ** The grammar *)

Inductive BlockKind := thinking_kind | text_kind | tool_kind.
#[export] Instance BlockKind_eq_dec : EqDecision BlockKind.
Proof. solve_decision. Defined.

Definition blockKind (b : Block) : BlockKind :=
  match b with thinking_block => thinking_kind | text_block => text_kind | tool_use _ _ _ => tool_kind end.

Definition deltaKind (d : BlockDelta) : BlockKind :=
  match d with thinking_delta _ => thinking_kind | text_delta _ => text_kind | input_json_delta _ => tool_kind end.

Inductive Stage := Before | Body | Ending | Over.
#[export] Instance Stage_eq_dec : EqDecision Stage.
Proof. solve_decision. Defined.

Record Proto := mkProto { stage : Stage; opened : gmap Z BlockKind; used : gset Z }.

Definition proto0 : Proto := mkProto Before ∅ ∅.

(** What a client that has read up to [p] does with an event: [None] refuses it. *)
Definition accept (p : Proto) (e : Event) : option Proto :=
  match stage p, e with
  | Before, message_start _ _ => Some (mkProto Body ∅ ∅)
  | Body, content_block_start i b =>
      if decide (i ∈ used p) then None else Some (mkProto Body (<[i := blockKind b]> (opened p)) ({[i]} ∪ used p))
  | Body, content_block_delta i d => if decide (opened p !! i = Some (deltaKind d)) then Some p else None
  | Body, content_block_stop i =>
      match opened p !! i with Some _ => Some (mkProto Body (delete i (opened p)) (used p)) | None => None end
  | Body, message_delta _ _ => if decide (opened p = ∅) then Some (mkProto Ending ∅ (used p)) else None
  | Ending, message_stop => Some (mkProto Over ∅ (used p))
  | _, _ => None
  end.

Fixpoint acceptAll (p : Proto) (es : list Event) : option Proto :=
  match es with [] => Some p | e :: es => p ← accept p e; acceptAll p es end.

Lemma acceptAll_app p es1 es2 : acceptAll p (es1 ++ es2) = (p ← acceptAll p es1; acceptAll p es2).
Proof. revert p. induction es1 as [|e es1 IH]; intros p; [done|]. cbn [app acceptAll]. destruct (accept p e); [apply IH|done]. Qed.

(** ** What a client reads *)

(** All the text of the message. *)
Definition textOf (es : list Event) : text :=
  concat (map (fun e => match e with content_block_delta _ (text_delta t) => t | _ => [] end) es).

(** All the reasoning. *)
Definition thinkingOf (es : list Event) : text :=
  concat (map (fun e => match e with content_block_delta _ (thinking_delta t) => t | _ => [] end) es).

(** The arguments of the tool call at an index. *)
Definition argumentsOf (i : Z) (es : list Event) : text :=
  concat (map (fun e => match e with content_block_delta j (input_json_delta t) => if decide (j = i) then t else [] | _ => [] end) es).

Lemma textOf_app es1 es2 : textOf (es1 ++ es2) = textOf es1 ++ textOf es2.
Proof. unfold textOf. by rewrite map_app, concat_app. Qed.

Lemma thinkingOf_app es1 es2 : thinkingOf (es1 ++ es2) = thinkingOf es1 ++ thinkingOf es2.
Proof. unfold thinkingOf. by rewrite map_app, concat_app. Qed.

Lemma argumentsOf_app i es1 es2 : argumentsOf i (es1 ++ es2) = argumentsOf i es1 ++ argumentsOf i es2.
Proof. unfold argumentsOf. by rewrite map_app, concat_app. Qed.
