(* ===== verification/OpenaiToClaude.v ===== *)
(** * OpenAI chunks to Claude events: [translator/response/openai-to-claude.ts]

    [openaiToClaudeResponse] with all it calls in the file.  The state object is a
    record; the events a call returns are collected in it.  A call throws or hangs as
    [None].  The clock, random ids, JSON parsing and printing are parameters; text is
    ASCII; of a chunk the fields the code reads are kept, with the types the
    upstream protocol gives them. *)
From Stdlib Require Import String Ascii.
From S2P Require Import Prelude JsMap JsString ComboSteps ToolPairs ThinkTags StreamHelpers MarkdownBoundary InvokeBlocks.
From S2P Require Import DsmlToolCalls SystemPreamble ToolShim ToolNames ClaudeProtocol.
#[local] Open Scope Z_scope.

(** ** What comes in *)

(** A field that may be absent or null, hold something else, or a number. *)
Inductive NumField := noField | otherField | numField (n : Z).

Record UsageDetails := mkDetails { cached_tokens : NumField; cache_creation_tokens : NumField }.

Record UsageIn := mkUsageIn {
  prompt_tokens : NumField;
  in_input_tokens : NumField;
  completion_tokens : NumField;
  in_output_tokens : NumField;
  prompt_tokens_details : option UsageDetails;
  input_tokens_details : option UsageDetails;
}.

(** An element of [delta.tool_calls]; an absent id or name is empty. *)
Record ToolDelta := mkToolDelta { td_index : option Z; td_id : string; td_name : string; td_arguments : option json }.

Record Delta := mkDelta {
  reasoning_content : option json;
  reasoning : option json;
  reasoning_details : option (list json);
  content : text;
  tool_calls : list ToolDelta;
}.

(** An absent finish_reason is empty. *)
Record Choice := mkChoice { delta : Delta; finish_reason : string }.

Record Chunk := mkChunk {
  c_id : option string;
  c_model : string;
  requestId : string;
  traceId : string;
  choice0 : option Choice;
  c_usage : option UsageIn;
}.

(** ** The state *)

Record ToolInfo := mkToolInfo {
  t_id : string;
  t_name : string;
  blockIndex : Z;
  shimmed : bool;
  argBuffer : text;
  startEmitted : bool;
}.

#[export] Instance eta_ToolInfo : Eta ToolInfo := fun t =>
  mkToolInfo (t_id t) (t_name t) (blockIndex t) (shimmed t) (argBuffer t) (startEmitted t).

Record State := mkState {
  messageStartSent : bool;
  messageId : string;
  model : string;
  nextBlockIndex : Z;
  pendingXmlToolCalls : list XmlToolCall;
  dsmlHoldback : text;
  xmlInvokeBuffer : text;
  markdownBuffer : text;
  markdown : MdState;
  thinkingBlockStarted : bool;
  thinkingBlockIndex : Z;
  textBlockStarted : bool;
  textBlockClosed : bool;
  textBlockIndex : Z;
  requestedThinking : option bool;
  reasoningAccum : text;
  directiveStripper : option Stripper;
  systemPreambleStripper : option Preamble;
  toolInfos : jsmap Z ToolInfo;
  toolNameMap : jsmap string string;
  claudeFinishEmitted : bool;
  finishReason : string;
  pendingClaudeFinishChoice : option Choice;
  usage : option Usage;
  results : list Event;
}.

#[export] Instance eta_State : Eta State := fun s =>
  mkState (messageStartSent s) (messageId s) (model s) (nextBlockIndex s) (pendingXmlToolCalls s) (dsmlHoldback s)
    (xmlInvokeBuffer s) (markdownBuffer s) (markdown s) (thinkingBlockStarted s) (thinkingBlockIndex s)
    (textBlockStarted s) (textBlockClosed s) (textBlockIndex s) (requestedThinking s) (reasoningAccum s)
    (directiveStripper s) (systemPreambleStripper s) (toolInfos s) (toolNameMap s) (claudeFinishEmitted s)
    (finishReason s) (pendingClaudeFinishChoice s) (usage s) (results s).

(** [initState] of translator/index.ts, with what the request decided. *)
Definition initState (thinking : option bool) (names : jsmap string string) : State :=
  mkState false "" "" 0 [] [] [] [] noMd false 0 false false 0 thinking [] None None [] names false "" None None [].

Definition push (e : Event) (s : State) : State := s <| results := results s ++ [e] |>.

(** ** Blocks *)

Definition stopThinkingBlock (s : State) : State :=
  if thinkingBlockStarted s then push (content_block_stop (thinkingBlockIndex s)) s <| thinkingBlockStarted := false |> else s.

Definition startThinking (s : State) : State :=
  let i := nextBlockIndex s in
  push (content_block_start i thinking_block) s <| thinkingBlockIndex := i |> <| thinkingBlockStarted := true |> <| nextBlockIndex := i + 1 |>.

Definition startText (s : State) : State :=
  let i := nextBlockIndex s in
  push (content_block_start i text_block) s <| textBlockIndex := i |> <| textBlockStarted := true |> <| textBlockClosed := false |>
    <| nextBlockIndex := i + 1 |>.

Definition pushText (t : text) (s : State) : State := push (content_block_delta (textBlockIndex s) (text_delta t)) s.

Definition flushMarkdownBuffer (s : State) : State :=
  let buffered := markdownBuffer s in
  let s := s <| markdown := noMd |> in
  match buffered with
  | [] => s
  | _ =>
      let s := s <| markdownBuffer := [] |> in
      let s := if textBlockStarted s then s else startText s in
      if textBlockClosed s then s else pushText buffered s
  end.

Definition stopTextBlock (s : State) : State :=
  let s := flushMarkdownBuffer s in
  if negb (textBlockStarted s) || textBlockClosed s then s
  else push (content_block_stop (textBlockIndex s)) s <| textBlockClosed := true |> <| textBlockStarted := false |>.

(** ** Usage *)

Definition firstNumber (candidates : list NumField) : Z :=
  orElse (head (omap (fun f => match f with numField n => Some n | _ => None end) candidates)) 0.

(** [a ?? b]. *)
Definition orField (a b : NumField) : NumField := match a with noField => b | _ => a end.

Definition detail (f : UsageDetails -> NumField) (d : option UsageDetails) : NumField := match d with Some d => f d | None => noField end.

Record Counters := mkCounters { promptTokens : Z; outputTokens : Z; cacheReadTokens : Z; cacheCreateTokens : Z }.

Definition readUsageCounters (u : UsageIn) : Counters :=
  mkCounters (firstNumber [prompt_tokens u; in_input_tokens u]) (firstNumber [completion_tokens u; in_output_tokens u])
    (firstNumber [orField (detail cached_tokens (prompt_tokens_details u)) (detail cached_tokens (input_tokens_details u))])
    (firstNumber [orField (detail cache_creation_tokens (prompt_tokens_details u)) (detail cache_creation_tokens (input_tokens_details u))]).

Definition usageOf (u : UsageIn) : Usage :=
  let c := readUsageCounters u in
  mkUsage (promptTokens c - cacheReadTokens c - cacheCreateTokens c) (outputTokens c)
    (if cacheReadTokens c >? 0 then Some (cacheReadTokens c) else None)
    (if cacheCreateTokens c >? 0 then Some (cacheCreateTokens c) else None).

Definition trackUsageFromChunk (c : Chunk) (s : State) : State :=
  match c_usage c with Some u => s <| usage := Some (usageOf u) |> | None => s end.

(** ** The first chunk *)

(** [s.replace(p, "")]. *)
Definition removeFirst (p s : string) : string :=
  match indexOf (str p) (str s) with
  | Some i => string_of_list_ascii (take i (str s) ++ drop (i + String.length p) (str s))
  | None => s
  end.

Definition orString (a b : string) : string := if isEmpty a then b else a.

Definition messageIdOf (now : string) (c : Chunk) : string :=
  let fresh := ("msg_" +:+ now)%string in
  let id := orString (match c_id c with Some i => removeFirst "chatcmpl-" i | None => EmptyString end) fresh in
  if isEmpty id || String.eqb id "chat" || (String.length id <? 8)%nat
  then orString (requestId c) (orString (traceId c) fresh) else id.

Definition startMessage (now : string) (c : Chunk) (s : State) : State :=
  let s := s <| messageStartSent := true |> <| messageId := messageIdOf now c |> <| model := orString (c_model c) "unknown" |>
             <| nextBlockIndex := 0 |> <| pendingXmlToolCalls := [] |> <| dsmlHoldback := [] |> <| xmlInvokeBuffer := [] |>
             <| markdownBuffer := [] |> <| markdown := noMd |> in
  push (message_start (messageId s) (model s)) s.

(** ** Reasoning *)

(** The texts of reasoning_details. *)
Definition detailTexts (ds : list json) : list text :=
  omap (fun d => match d with
                 | VObj _ => match orJson (propOf "text" d) (propOf "content" d) with
                             | Some (VStr t) => if isEmpty t then None else Some (str t)
                             | _ => None
                             end
                 | _ => None
                 end) ds.

(** [[]] when there is none that may be shown. *)
Definition reasoningOf (d : Delta) : text :=
  let v := orJson (reasoning_content d) (reasoning d) in
  let t := if truthy v then match v with Some (VStr t) => str t | _ => [] end
           else match reasoning_details d with Some ds => concat (detailTexts ds) | None => [] end in
  if isInternalReasoningPlaceholder t then [] else t.

Definition reasoningStep (d : Delta) (s : State) : State :=
  match reasoningOf d with
  | [] => s
  | t =>
      let s := if bool_decide (requestedThinking s = Some false) then s
               else
                 let s := stopTextBlock s in
                 let s := if thinkingBlockStarted s then s else startThinking s in
                 push (content_block_delta (thinkingBlockIndex s) (thinking_delta t)) s in
      s <| reasoningAccum := reasoningAccum s ++ t |>
  end.

Section Translator.
(** JSON.parse ([None] when it throws), JSON.stringify; the trimmed environment variable
    OMNIROUTE_SYSTEM_INSTRUCTION_APPEND, and whether OMNIROUTE_STRIP_SYSTEM_PREAMBLE is 1. *)
Context (parseJson : text -> option json) (stringify : json -> text) (directive : text) (stripSystem : bool).
(** Of one call: the text of Date.now(), and the random ids. *)
Context (now : string) (uuid : nat -> string).

(** ** Content *)

(** The strippers; [None] when one hangs. *)
Definition scrub (t : text) (s : State) : option (State * text) :=
  let s := match directive with [] => s | _ => s <| directiveStripper := Some (orElse (directiveStripper s) newStripper) |> end in
  let s := if stripSystem then s <| systemPreambleStripper := Some (orElse (systemPreambleStripper s) newPreamble) |> else s in
  let '(s, t) := match directiveStripper s with
                 | Some d => let '(d, t) := pushStripper directive t d in (s <| directiveStripper := Some d |>, t)
                 | None => (s, t)
                 end in
  match systemPreambleStripper s with
  | Some p => '(p, t) ← pushPreamble t p; Some (s <| systemPreambleStripper := Some p |>, t)
  | None => Some (s, t)
  end.

(** DSML blocks: the text left and the calls. *)
Definition takeDsml (t : text) (s : State) : State * text * list XmlToolCall :=
  let t := dsmlHoldback s ++ t in
  let s := s <| dsmlHoldback := [] |> in
  if hasDsmlToolCalls t then
    let r := parseDsmlToolCalls uuid t in
    (s <| dsmlHoldback := d_holdback r |>, d_content r, d_toolCalls r)
  else (s, t, []).

Definition emitText (t : text) (s : State) : State :=
  match t with [] => s | _ => pushText t (if textBlockStarted s then s else startText s) end.

Definition contentStep (d : Delta) (s : State) : option State :=
  match stripInternalReasoningPlaceholder (content d) with
  | [] => Some s
  | stripped =>
      '(s, scrubbed) ← scrub stripped s;
      let s := match scrubbed with [] => s | _ => stopThinkingBlock s end in
      let bufferedPrefix := markdownBuffer s in
      let s := s <| markdownBuffer := [] |> in
      let '(s, t, dsmlToolCalls) := takeDsml scrubbed s in
      let r := extractXmlInvokeBlocks parseJson now (bufferedPrefix ++ t) (xmlInvokeBuffer s) in
      let s := s <| xmlInvokeBuffer := buffer r |> in
      let calls := toolCalls r ++ dsmlToolCalls in
      let s := match calls with
               | [] => s
               | _ => let s := stopTextBlock s in s <| pendingXmlToolCalls := pendingXmlToolCalls s ++ calls |>
               end in
      let m := splitMarkdownBoundary (cleaned r) (markdown s) in
      Some (emitText (emitted m) (s <| markdownBuffer := held m |> <| markdown := after m |>))
  end.

(** ** Tool calls *)

Definition CLAUDE_OAUTH_TOOL_PREFIX : string := "proxy_".

Definition incomingName (tc : ToolDelta) (s : State) : string :=
  let n := td_name tc in
  let n := if String.prefix CLAUDE_OAUTH_TOOL_PREFIX n then String.substring 6 (String.length n - 6) n else n in
  restoreClaudeToolName (toolNameMap s) n.

Definition setTool (idx : Z) (t : ToolInfo) (s : State) : State := s <| toolInfos := mset idx t (toolInfos s) |>.

Definition registerTool (idx : Z) (tc : ToolDelta) (s : State) : State :=
  if negb (isEmpty (td_id tc)) && negb (mhas idx (toolInfos s)) then
    let name := incomingName tc s in
    let s := stopTextBlock (stopThinkingBlock s) in
    setTool idx (mkToolInfo (sanitizeToolId (td_id tc)) name (nextBlockIndex s) (if isEmpty name then false else hasToolCallShim name) [] false) s
      <| nextBlockIndex := nextBlockIndex s + 1 |>
  else s.

(** The late id or name. *)
Definition lateFields (tc : ToolDelta) (name : string) (t : ToolInfo) : ToolInfo :=
  let t := if negb (isEmpty (td_id tc)) && isEmpty (t_id t) then t <| t_id := sanitizeToolId (td_id tc) |> else t in
  if negb (isEmpty name) && negb (startEmitted t) && isEmpty (t_name t)
  then t <| t_name := name |> <| shimmed := hasToolCallShim name |> else t.

Definition startBlock (t : ToolInfo) : Event := content_block_start (blockIndex t) (tool_use (t_id t) (t_name t) (VObj [])).

Definition hasArguments (tc : ToolDelta) : bool := match td_arguments tc with None | Some VNull => false | _ => true end.

Definition announceTool (idx : Z) (tc : ToolDelta) (s : State) : State :=
  match mget idx (toolInfos s) with
  | None => s
  | Some t =>
      let t := lateFields tc (incomingName tc s) t in
      if negb (startEmitted t) && (negb (isEmpty (t_name t)) || hasArguments tc)
      then push (startBlock t) (setTool idx (t <| startEmitted := true |>) s)
      else setTool idx t s
  end.

Definition argumentsStep (idx : Z) (tc : ToolDelta) (s : State) : State :=
  if truthy (td_arguments tc) then
    match mget idx (toolInfos s) with
    | None => s
    | Some t =>
        let nextArgs := appendToolCallArgumentDelta stringify (argBuffer t) (td_arguments tc) in
        let deltaStr := drop (length (argBuffer t)) nextArgs in
        let s := setTool idx (t <| argBuffer := nextArgs |>) s in
        if shimmed t || bool_decide (deltaStr = []) then s
        else push (content_block_delta (blockIndex t) (input_json_delta deltaStr)) s
    end
  else s.

Definition toolStep (s : State) (tc : ToolDelta) : State :=
  let idx := orElse (td_index tc) 0 in
  argumentsStep idx tc (announceTool idx tc (registerTool idx tc s)).

(** ** The finish *)

Definition convertFinishReason (reason : string) : string :=
  if String.eqb reason "stop" then "end_turn"
  else if String.eqb reason "length" then "max_tokens"
  else if String.eqb reason "tool_calls" then "tool_use"
  else if String.eqb reason "content_filter" then "refusal"
  else if isAbortFinishReason (Some reason) then "tool_use" else "end_turn".

(** The text the strippers still hold. *)
Definition flushStrippers (s : State) : State * text :=
  let '(s, t1) := match directiveStripper s with
                  | Some d => let '(d, t) := flushStripper directive d in (s <| directiveStripper := Some d |>, t)
                  | None => (s, [])
                  end in
  let '(s, t2) := match systemPreambleStripper s with
                  | Some p => let '(p, t) := flushPreamble p in (s <| systemPreambleStripper := Some p |>, t)
                  | None => (s, [])
                  end in
  (s, t1 ++ t2).

Definition emitPreamble (s : State) : State :=
  let '(s, t) := flushStrippers s in
  match t with
  | [] => s
  | _ => pushText t (if negb (textBlockStarted s) || textBlockClosed s then startText s else s)
  end.

(** The reasoning as text, when there is nothing else. *)
Definition emitReasoning (s : State) : State :=
  match reasoningAccum s with
  | [] => s
  | t => if negb (textBlockStarted s) && bool_decide (requestedThinking s = Some false) then pushText t (startText s) else s
  end.

Definition closeTool (t : ToolInfo) : list Event :=
  (if startEmitted t then [] else [startBlock t]) ++
  (if shimmed t
   then [content_block_delta (blockIndex t) (input_json_delta (applyToolCallShimToBuffer parseJson stringify (t_name t) (argBuffer t)))] else []) ++
  [content_block_stop (blockIndex t)].

Definition closeTools (s : State) : State :=
  s <| toolInfos := prod_map id (fun t => t <| startEmitted := true |>) <$> toolInfos s |>
    <| results := results s ++ concat (map (fun kv => closeTool kv.2) (toolInfos s)) |>.

(** The calls found in the text; [None] when restoreClaudeToolName throws. *)
Fixpoint emitXmlCalls (calls : list XmlToolCall) (s : State) : option State :=
  match calls with
  | [] => Some s
  | tc :: calls =>
      match x_name tc with
      | VStr n =>
          let i := nextBlockIndex s in
          let s := s <| nextBlockIndex := i + 1 |> in
          let s := push (content_block_start i (tool_use (x_id tc) (restoreClaudeToolName (toolNameMap s) n) (x_args tc))) s in
          emitXmlCalls calls (push (content_block_stop i) s)
      | _ => None
      end
  end.

Definition finishBlocks (s : State) : State :=
  closeTools (stopTextBlock (emitReasoning (emitPreamble (stopThinkingBlock (s <| claudeFinishEmitted := true |>))))).

Definition finishStep (reason : string) (s : State) : option State :=
  let s := finishBlocks s in
  s ← emitXmlCalls (pendingXmlToolCalls s) s;
  let reason := match pendingXmlToolCalls s with [] => reason | _ => "tool_calls"%string end in
  let s := s <| finishReason := reason |> in
  let s := push (message_delta (convertFinishReason reason) (orElse (usage s) (mkUsage 0 0 None None))) s in
  Some (push message_stop s).

(** ** One call *)

(** The part from the first chunk on, for the choice taken. *)
Definition choiceStep (chunk : option Chunk) (flushing : bool) (c : Choice) (s : State) : option State :=
  s ← (if messageStartSent s then Some s else chunk ← chunk; Some (startMessage now chunk s));
  let d := delta c in
  let s := reasoningStep d s in
  s ← contentStep d s;
  let s := foldl toolStep s (tool_calls d) in
  if negb (isEmpty (finish_reason c)) && negb (claudeFinishEmitted s) then
    if negb (match chunk ≫= c_usage with Some _ => true | None => false end) && negb flushing
    then Some (s <| pendingClaudeFinishChoice := Some c |>)
    else finishStep (finish_reason c) s
  else Some s.

(** [chunk] is [None] for a flush.  The events are the [results] of the new state. *)
Definition openaiToClaudeResponse (chunk : option Chunk) (s : State) : option State :=
  let s := s <| results := [] |> in
  let s := match chunk with Some c => trackUsageFromChunk c s | None => s end in
  match chunk ≫= choice0 with
  | Some c => choiceStep chunk false c s
  | None =>
      match pendingClaudeFinishChoice s with
      | Some c => choiceStep chunk true c (s <| pendingClaudeFinishChoice := None |>)
      | None => Some s
      end
  end.
End Translator.

(** ** A whole answer *)

(** One call with its clock and random ids. *)
Record Tick := mkTick { k_now : string; k_uuid : nat -> string; k_chunk : option Chunk }.

Section Answer.
Context (parseJson : text -> option json) (stringify : json -> text) (directive : text) (stripSystem : bool).

Definition step (k : Tick) (s : State) : option State :=
  openaiToClaudeResponse parseJson stringify directive stripSystem (k_now k) (k_uuid k) (k_chunk k) s.

(** The calls of a stream up to the one that sends the finish: the state after them and
    all the events. *)
Fixpoint answer (ks : list Tick) (s : State) (sent : list Event) : option (State * list Event) :=
  match ks with
  | [] => Some (s, sent)
  | k :: ks => if claudeFinishEmitted s then Some (s, sent) else s ← step k s; answer ks s (sent ++ results s)
  end.
End Answer.
