(* ===== verification/OpenaiToClaudeFacts.v ===== *)
(** * The translated stream is one a Claude client accepts

    Invariants and theorems of [OpenaiToClaude]: whatever the chunks, the events up to
    the finish follow the grammar of [ClaudeProtocol]; the text of the answer is
    neither lost nor changed; the arguments of a tool call arrive complete. *)
From Stdlib Require Import String Ascii.
From stdpp Require Import gmap.
From S2P Require Import Prelude JsMap JsString ComboSteps ToolPairs ThinkTags StreamHelpers MarkdownBoundary InvokeBlocks.
From S2P Require Import DsmlToolCalls SystemPreamble ToolShim ToolNames ClaudeProtocol OpenaiToClaude.
#[local] Open Scope Z_scope.

(** ** The blocks that are open *)

Section Blocks.
Implicit Types (s : State) (p : Proto).

Definition Live s (i : Z) (k : BlockKind) : Prop :=
  match k with
  | thinking_kind => thinkingBlockStarted s = true /\ thinkingBlockIndex s = i
  | text_kind => textBlockStarted s = true /\ textBlockIndex s = i
  | tool_kind => exists idx t, mget idx (toolInfos s) = Some t /\ startEmitted t = true /\ blockIndex t = i
  end.

(** What a client knows after the events, and the state that sent them. *)
Record Good p s : Prop := {
  g_stage : stage p = Body;
  g_open : forall i k, opened p !! i = Some k <-> Live s i k;
  g_used : forall i, i ∈ used p -> i < nextBlockIndex s;
  g_dom : forall i k, opened p !! i = Some k -> i ∈ used p;
  g_closed : textBlockStarted s = true -> textBlockClosed s = false;
  g_tools : forall idx t, mget idx (toolInfos s) = Some t ->
    blockIndex t < nextBlockIndex s /\ (startEmitted t = false -> blockIndex t ∉ used p);
  g_inj : forall idx idx' t t', mget idx (toolInfos s) = Some t -> mget idx' (toolInfos s) = Some t' ->
    blockIndex t = blockIndex t' -> idx = idx';
  g_wf : mwf (toolInfos s);
}.

Definition core s :=
  (thinkingBlockStarted s, thinkingBlockIndex s, textBlockStarted s, textBlockClosed s, textBlockIndex s, nextBlockIndex s, toolInfos s).

Lemma Good_core p s s' : core s' = core s -> Good p s -> Good p s'.
Proof.
  intros [= E1 E2 E3 E4 E5 E6 E7] []. constructor; unfold Live; rewrite ?E1, ?E2, ?E3, ?E4, ?E5, ?E6, ?E7; done.
Qed.

(** The events collected so far are accepted from [p0], and lead to a good state. *)
Definition Conf (p0 : Proto) s : Prop := exists p, acceptAll p0 (results s) = Some p /\ Good p s.

Lemma Conf_core p0 s s' : core s' = core s -> results s' = results s -> Conf p0 s -> Conf p0 s'.
Proof. intros Hc Hr (p & Ha & Hg). exists p. rewrite Hr. split; [done|]. by eapply Good_core. Qed.

Lemma Conf_push p0 s s' e :
  results s' = results s ++ [e] -> (forall p, Good p s -> exists p', accept p e = Some p' /\ Good p' s') -> Conf p0 s -> Conf p0 s'.
Proof.
  intros Hr Hp (p & Ha & Hg). destruct (Hp p Hg) as (p' & H1 & H2). exists p'. split; [|done].
  rewrite Hr, acceptAll_app, Ha. cbn. by rewrite H1.
Qed.

Lemma accept_delta p s i d : Good p s -> Live s i (deltaKind d) -> accept p (content_block_delta i d) = Some p.
Proof. intros Hg Hl. unfold accept. rewrite (g_stage _ _ Hg). rewrite decide_True; [done|]. by apply Hg. Qed.

Lemma delta_conf p0 s i d : Live s i (deltaKind d) -> Conf p0 s -> Conf p0 (push (content_block_delta i d) s).
Proof.
  intros Hl. apply (Conf_push _ _ _ (content_block_delta i d)); [done|]. intros p Hg. exists p. split; [by eapply accept_delta|].
  by eapply Good_core; [|exact Hg].
Qed.

(** A block that is started under the next index. *)
Lemma start_conf p0 s s' b :
  results s' = results s ++ [content_block_start (nextBlockIndex s) b] ->
  nextBlockIndex s' = nextBlockIndex s + 1 -> toolInfos s' = toolInfos s ->
  (forall i k, Live s' i k <-> Live s i k \/ (i = nextBlockIndex s /\ k = blockKind b)) ->
  (textBlockStarted s' = true -> textBlockClosed s' = false) ->
  Conf p0 s -> Conf p0 s'.
Proof.
  intros Hr Hn Ht Hl Hc. apply (Conf_push _ _ _ _ Hr). intros p Hg. pose proof Hg as [G1 G2 G3 G4 G5 G6 G7 G8].
  assert (Hf : nextBlockIndex s ∉ used p) by (intros H%G3; lia).
  unfold accept. rewrite G1. rewrite decide_False by done. eexists. split; [done|]. constructor; cbn [stage opened used]; rewrite ?Hn, ?Ht; try done.
  - intros i k. rewrite Hl, <- G2, lookup_insert_Some. split.
    + intros [[<- <-]|[? ?]]; auto.
    + intros [H|[-> ->]]; [|by left]. right. split; [|done]. intros <-. apply Hf. by eapply G4.
  - intros i [->%elem_of_singleton|Hi%G3]%elem_of_union; lia.
  - intros i k [[<- _]|[_ H]]%lookup_insert_Some; [set_solver|]. apply elem_of_union. right. by eapply G4.
  - intros idx t H. destruct (G6 _ _ H) as [H1 H2]. split; [lia|]. intros Hs [E%elem_of_singleton|Hi]%elem_of_union; [lia|]. by apply H2.
Qed.

(** A block that is stopped. *)
Lemma stop_conf p0 s s' i k :
  results s' = results s ++ [content_block_stop i] -> Live s i k ->
  nextBlockIndex s' = nextBlockIndex s -> toolInfos s' = toolInfos s ->
  (forall j k', Live s' j k' <-> Live s j k' /\ k' <> k) -> (forall j, Live s j k -> j = i) ->
  (textBlockStarted s' = true -> textBlockClosed s' = false) ->
  Conf p0 s -> Conf p0 s'.
Proof.
  intros Hr Hi Hn Ht Hl Hu Hc. apply (Conf_push _ _ _ _ Hr). intros p Hg. pose proof Hg as [G1 G2 G3 G4 G5 G6 G7 G8].
  unfold accept. rewrite G1. rewrite (proj2 (G2 i k) Hi). eexists. split; [done|]. constructor; cbn [stage opened used]; rewrite ?Hn, ?Ht; try done.
  - intros j k'. rewrite Hl, lookup_delete_Some, <- G2. split.
    + intros [Hne H]. split; [done|]. intros ->. apply Hne. symmetry. apply Hu. by apply G2.
    + intros [H Hne]. split; [|done]. intros <-. apply G2 in Hi. congruence.
  - intros j k' [_ H]%lookup_delete_Some. by eapply G4.
Qed.

Lemma stopThinkingBlock_conf p0 s : Conf p0 s -> Conf p0 (stopThinkingBlock s).
Proof.
  unfold stopThinkingBlock. destruct (thinkingBlockStarted s) eqn:E; [|done]. intros HC.
  eapply (stop_conf _ s _ (thinkingBlockIndex s) thinking_kind); try done.
  - intros j [| |]; cbn; rewrite ?E; naive_solver.
  - cbn. by intros j [_ <-].
  - cbn. destruct HC as (p & _ & Hg). apply Hg.
Qed.

Lemma startThinking_conf p0 s : thinkingBlockStarted s = false -> Conf p0 s -> Conf p0 (startThinking s).
Proof.
  intros E HC. eapply (start_conf _ s _ thinking_block); try done.
  - intros j [| |]; cbn; rewrite ?E; naive_solver.
  - destruct HC as (p & _ & Hg). apply Hg.
Qed.

Lemma startText_conf p0 s : textBlockStarted s = false -> Conf p0 s -> Conf p0 (startText s).
Proof. intros E HC. eapply (start_conf _ s _ text_block); try done. intros j [| |]; cbn; rewrite ?E; naive_solver. Qed.

Lemma pushText_conf p0 t s : textBlockStarted s = true -> Conf p0 s -> Conf p0 (pushText t s).
Proof. intros E. by apply delta_conf. Qed.

Lemma openText_conf p0 s : Conf p0 s -> Conf p0 (if textBlockStarted s then s else startText s).
Proof. destruct (textBlockStarted s) eqn:E; [done|by apply startText_conf]. Qed.

Lemma openText_started s : textBlockStarted (if textBlockStarted s then s else startText s) = true.
Proof. by destruct (textBlockStarted s) eqn:E. Qed.

Lemma Conf_closed p0 s : Conf p0 s -> textBlockStarted s = true -> textBlockClosed s = false.
Proof. intros (p & _ & Hg). apply Hg. Qed.

Lemma flushMarkdownBuffer_conf p0 s : Conf p0 s -> Conf p0 (flushMarkdownBuffer s).
Proof.
  intros HC. unfold flushMarkdownBuffer. assert (H1 : Conf p0 (s <| markdown := noMd |>)) by by eapply Conf_core; [..|exact HC].
  destruct (markdownBuffer s) as [|c b]; [done|]. remember (c :: b) as b' eqn:Hb. clear Hb c b.
  assert (H2 : Conf p0 (s <| markdown := noMd |> <| markdownBuffer := [] |>)) by by eapply Conf_core; [..|exact H1].
  remember (s <| markdown := noMd |> <| markdownBuffer := [] |>) as s1. clear Heqs1 H1 HC.
  pose proof (openText_conf _ _ H2) as H3. pose proof (openText_started s1) as H4.
  rewrite (Conf_closed _ _ H3 H4). by apply pushText_conf.
Qed.

Lemma stopTextBlock_conf p0 s : Conf p0 s -> Conf p0 (stopTextBlock s) /\ textBlockStarted (stopTextBlock s) = false.
Proof.
  intros HC. unfold stopTextBlock. apply flushMarkdownBuffer_conf in HC. remember (flushMarkdownBuffer s) as s1. clear Heqs1 s.
  destruct (textBlockStarted s1) eqn:E; cbn [negb orb]; [|done]. rewrite (Conf_closed _ _ HC E). split; [|done].
  eapply (stop_conf _ s1 _ (textBlockIndex s1) text_kind); try done.
  - intros j [| |]; cbn; rewrite ?E; naive_solver.
  - cbn. by intros j [_ <-].
Qed.

Lemma emitText_conf p0 t s : Conf p0 s -> Conf p0 (emitText t s).
Proof.
  intros HC. unfold emitText. destruct t; [done|]. apply pushText_conf; [apply openText_started|by apply openText_conf].
Qed.

Lemma reasoningStep_conf p0 d s : Conf p0 s -> Conf p0 (reasoningStep d s).
Proof.
  intros HC. unfold reasoningStep. destruct (reasoningOf d) as [|c t]; [done|]. case_bool_decide.
  { by eapply Conf_core; [..|exact HC]. }
  destruct (stopTextBlock_conf _ _ HC) as [H1 _]. remember (stopTextBlock s) as s1. clear Heqs1.
  assert (H2 : Conf p0 (if thinkingBlockStarted s1 then s1 else startThinking s1)).
  { destruct (thinkingBlockStarted s1) eqn:E; [done|by apply startThinking_conf]. }
  assert (H3 : thinkingBlockStarted (if thinkingBlockStarted s1 then s1 else startThinking s1) = true) by by destruct (thinkingBlockStarted s1) eqn:E.
  remember (if thinkingBlockStarted s1 then s1 else startThinking s1) as s2. clear Heqs2.
  apply (Conf_core _ (push (content_block_delta (thinkingBlockIndex s2) (thinking_delta (c :: t))) s2)); [done|done|]. by apply delta_conf.
Qed.

(** ** Tool calls *)

Lemma flushMarkdownBuffer_tools s : toolInfos (flushMarkdownBuffer s) = toolInfos s.
Proof. unfold flushMarkdownBuffer. destruct (markdownBuffer s); [done|]. cbn. destruct (textBlockStarted s); cbn; [by destruct (textBlockClosed s)|done]. Qed.

Lemma stopTextBlock_tools s : toolInfos (stopTextBlock s) = toolInfos s.
Proof. unfold stopTextBlock. rewrite <- (flushMarkdownBuffer_tools s). remember (flushMarkdownBuffer s) as s1. cbv zeta. by case_if. Qed.

Lemma stopThinkingBlock_tools s : toolInfos (stopThinkingBlock s) = toolInfos s.
Proof. unfold stopThinkingBlock. by destruct (thinkingBlockStarted s). Qed.

(** A tool is reserved. *)
Lemma reserve_conf p0 s idx t : mget idx (toolInfos s) = None -> blockIndex t = nextBlockIndex s -> startEmitted t = false ->
  Conf p0 s -> Conf p0 (setTool idx t s <| nextBlockIndex := nextBlockIndex s + 1 |>).
Proof.
  intros Hn Hi He (p & Ha & Hg). exists p. split; [done|]. destruct Hg as [G1 G2 G3 G4 G5 G6 G7 G8].
  assert (Hlive : forall i k, Live (setTool idx t s <| nextBlockIndex := nextBlockIndex s + 1 |>) i k <-> Live s i k).
  { intros i [| |]; cbn; try done. split; intros (idx' & t' & H1 & H2 & H3); exists idx', t'; split_and!; try done; revert H1; rewrite mget_mset; case_decide; congruence. }
  constructor; cbn [nextBlockIndex setTool toolInfos]; try done.
  - intros i k. by rewrite Hlive.
  - intros i H%G3. cbn. lia.
  - cbn. intros idx' t'. rewrite mget_mset. case_decide as Hd; [intros [= <-]; split; [lia|]; intros _ H%G3; lia|].
    intros H. destruct (G6 _ _ H). split; [lia|done].
  - cbn. intros i1 i2 t1 t2. rewrite !mget_mset. case_decide; case_decide; intros; simplify_eq; try done.
    + destruct (G6 _ _ H2). lia.
    + destruct (G6 _ _ H1). lia.
    + by eapply G7.
  - by apply mwf_mset.
Qed.

(** Other fields of a tool change. *)
Lemma setTool_conf p0 s idx t t' : mget idx (toolInfos s) = Some t -> blockIndex t' = blockIndex t -> startEmitted t' = startEmitted t ->
  Conf p0 s -> Conf p0 (setTool idx t' s).
Proof.
  intros Ht Hi He (p & Ha & Hg). exists p. split; [done|]. destruct Hg as [G1 G2 G3 G4 G5 G6 G7 G8].
  assert (Hback : forall i u, mget i (mset idx t' (toolInfos s)) = Some u ->
    exists v, mget i (toolInfos s) = Some v /\ blockIndex v = blockIndex u /\ startEmitted v = startEmitted u).
  { intros i u. rewrite mget_mset. case_decide; [intros [= <-]; subst; eauto|eauto]. }
  constructor; cbn; try done.
  - intros i [| |]; cbn; rewrite G2; try done. cbn. split.
    + intros (i' & u & H1 & H2 & H3). destruct (decide (i' = idx)) as [->|Hne].
      * exists idx, t'. rewrite mget_mset_eq. assert (u = t) by congruence. subst. split_and!; [done|by rewrite He|done].
      * exists i', u. by rewrite mget_mset_ne.
    + intros (i' & u & (v & H1 & H2 & H3)%Hback & H4 & H5). exists i', v. split_and!; [done|by rewrite H3|by rewrite H2].
  - intros i u (v & H1 & H2 & H3)%Hback. rewrite <- H2, <- H3. eauto.
  - intros i1 i2 u1 u2 (v1 & H1 & H2 & _)%Hback (v2 & H3 & H4 & _)%Hback. rewrite <- H2, <- H4. eauto.
  - by apply mwf_mset.
Qed.

(** A reserved tool is announced. *)
Lemma announce_conf p0 s idx t : mget idx (toolInfos s) = Some t -> startEmitted t = false ->
  Conf p0 s -> Conf p0 (push (startBlock t) (setTool idx (t <| startEmitted := true |>) s)).
Proof.
  intros Ht He. apply (Conf_push _ _ _ (startBlock t)); [done|]. intros p [G1 G2 G3 G4 G5 G6 G7 G8].
  destruct (G6 _ _ Ht) as [Hlt Hfree]. specialize (Hfree He). unfold accept. rewrite G1. cbn. rewrite decide_False by done.
  eexists. split; [done|].
  assert (Hother : forall i u, mget i (toolInfos s) = Some u -> i <> idx -> blockIndex u <> blockIndex t) by (intros i u H1 H2 H3; apply H2; eauto).
  constructor; cbn [stage opened used push setTool toolInfos nextBlockIndex textBlockStarted textBlockClosed]; try done.
  - intros i k. assert (Hk : Live s i k -> blockIndex t <> i) by (intros H E; apply Hfree; rewrite E; eapply G4, G2, H).
    rewrite lookup_insert_Some, G2. destruct k; cbn in *.
    1,2: split; [intros [[_ ?]|[_ H]]; [done|exact H]|intros H; right; split; [by apply Hk|exact H]].
    split.
    + intros [[<- _]|[Hne (i' & u & H1 & H2 & H3)]].
      * exists idx, (t <| startEmitted := true |>). by rewrite mget_mset_eq.
      * exists i', u. rewrite mget_mset_ne; [done|]. intros ->. congruence.
    + intros (i' & u & H1 & H2 & H3). rewrite mget_mset in H1. case_decide; [injection H1 as <-; cbn in *; by left|].
      right. split; [|eauto 10]. rewrite <- H3. intros E. by eapply Hother.
  - intros i [->%elem_of_singleton|Hi]%elem_of_union; [exact Hlt|by apply G3].
  - intros i k [[<- _]|[_ H]]%lookup_insert_Some; [set_solver|]. apply elem_of_union. right. by eapply G4.
  - intros i u. cbn. rewrite mget_mset. case_decide; [intros [= <-]; split; [exact Hlt|done]|]. intros H1. destruct (G6 _ _ H1) as [H2 H3].
    split; [exact H2|]. intros H4 [H5%elem_of_singleton|H5]%elem_of_union; [by eapply Hother|by apply H3].
  - intros i1 i2 u1 u2. cbn. rewrite !mget_mset. case_decide; case_decide; intros; simplify_eq; try done; cbn in *.
    + exfalso. by eapply Hother; [exact H2|..].
    + exfalso. by eapply Hother; [exact H1|..].
    + by eapply G7.
  - cbn. by apply mwf_mset.
Qed.

Lemma registerTool_conf p0 idx tc s : Conf p0 s -> Conf p0 (registerTool idx tc s).
Proof.
  intros HC. unfold registerTool. destruct (negb _ && negb _) eqn:E; [|done]. apply andb_true_iff in E as [_ E].
  cbv zeta. apply stopThinkingBlock_conf, stopTextBlock_conf in HC as [HC _].
  assert (Ht : mget idx (toolInfos (stopTextBlock (stopThinkingBlock s))) = None).
  { rewrite stopTextBlock_tools, stopThinkingBlock_tools. unfold mhas in E. by destruct (mget idx (toolInfos s)). }
  remember (stopTextBlock (stopThinkingBlock s)) as s1. clear Heqs1. by apply reserve_conf.
Qed.

Lemma lateFields_same tc name t : blockIndex (lateFields tc name t) = blockIndex t /\ startEmitted (lateFields tc name t) = startEmitted t.
Proof. unfold lateFields. destruct (negb (isEmpty (td_id tc)) && _), (negb (isEmpty name) && _ && _); try done; case_if; done. Qed.

Lemma announceTool_conf p0 idx tc s : Conf p0 s ->
  Conf p0 (announceTool idx tc s) /\
  (hasArguments tc = true -> forall t, mget idx (toolInfos (announceTool idx tc s)) = Some t -> startEmitted t = true).
Proof.
  intros HC. unfold announceTool. destruct (mget idx (toolInfos s)) as [t|] eqn:Et; [|split; [done|intros _ t; congruence]].
  destruct (lateFields_same tc (incomingName tc s) t) as [L1 L2]. remember (lateFields tc (incomingName tc s) t) as t' eqn:Hd. clear Hd.
  assert (H1 : Conf p0 (setTool idx t' s)) by by eapply setTool_conf.
  destruct (startEmitted t') eqn:Es; cbn [negb andb].
  - split; [done|]. intros _ u. cbn. rewrite mget_mset_eq. by intros [= <-].
  - destruct (negb (isEmpty (t_name t')) || hasArguments tc) eqn:Ea.
    + split; [|intros _ u; cbn; rewrite mget_mset_eq; by intros [= <-]].
      apply (announce_conf _ _ idx t') in H1; [|cbn; by rewrite mget_mset_eq|done].
      eapply Conf_core; [| |exact H1]; [|done]. unfold core. cbn. by rewrite mset_mset.
    + apply orb_false_iff in Ea as [_ Ea]. split; [done|congruence].
Qed.

Lemma truthy_hasArguments tc : truthy (td_arguments tc) = true -> hasArguments tc = true.
Proof. unfold hasArguments. by destruct (td_arguments tc) as [[]|]. Qed.

Lemma toolStep_conf stringify p0 s tc : Conf p0 s -> Conf p0 (toolStep stringify s tc).
Proof.
  intros HC. unfold toolStep. set (idx := orElse (td_index tc) 0). apply (registerTool_conf _ idx tc) in HC.
  remember (registerTool idx tc s) as s1 eqn:Hd. clear Hd. destruct (announceTool_conf _ idx tc _ HC) as [H1 H2].
  remember (announceTool idx tc s1) as s2 eqn:Hd. clear Hd HC. unfold argumentsStep. destruct (truthy (td_arguments tc)) eqn:Ea; [|done].
  specialize (H2 (truthy_hasArguments _ Ea)). destruct (mget idx (toolInfos s2)) as [t|] eqn:Et; [|done]. specialize (H2 _ eq_refl). cbv zeta.
  set (next := appendToolCallArgumentDelta _ _ _).
  assert (H3 : Conf p0 (setTool idx (t <| argBuffer := next |>) s2)) by by eapply setTool_conf.
  destruct (shimmed t || _); [done|]. apply delta_conf; [|done]. cbn. exists idx, (t <| argBuffer := next |>). rewrite mget_mset_eq. done.
Qed.

Lemma toolSteps_conf stringify p0 tcs s : Conf p0 s -> Conf p0 (foldl (toolStep stringify) s tcs).
Proof. revert s. induction tcs as [|tc tcs IH]; intros s HC; cbn; [done|]. apply IH. by apply toolStep_conf. Qed.

(** ** The finish *)

(** Nothing is open. *)
Definition Closed p s : Prop := stage p = Body /\ opened p = ∅ /\ forall i, i ∈ used p -> i < nextBlockIndex s.

(** One block from its start, if it is still to come, to its stop. *)
Lemma closeTool_accept parseJson stringify p t :
  stage p = Body -> (startEmitted t = false -> blockIndex t ∉ used p) ->
  (startEmitted t = true -> opened p !! blockIndex t = Some tool_kind) ->
  (startEmitted t = false -> opened p !! blockIndex t = None) ->
  exists u, acceptAll p (closeTool parseJson stringify t) = Some (mkProto Body (delete (blockIndex t) (opened p)) u) /\
    (u = used p \/ u = {[blockIndex t]} ∪ used p).
Proof.
  intros Hs Hf Ho Hn. unfold closeTool. set (arg := applyToolCallShimToBuffer _ _ _ _).
  assert (Hrest : forall q, stage q = Body -> opened q !! blockIndex t = Some tool_kind ->
    acceptAll q ((if shimmed t then [content_block_delta (blockIndex t) (input_json_delta arg)] else []) ++ [content_block_stop (blockIndex t)]) =
    Some (mkProto Body (delete (blockIndex t) (opened q)) (used q))).
  { intros q Hq Hqo. destruct (shimmed t); cbn; unfold accept; rewrite Hq; [rewrite decide_True by done; cbn; rewrite Hq|]; by rewrite Hqo. }
  destruct (startEmitted t).
  - exists (used p). split; [by apply Hrest; [|apply Ho]|by left].
  - exists ({[blockIndex t]} ∪ used p). split; [|by right]. rewrite acceptAll_app. cbn [acceptAll]. unfold startBlock, accept. rewrite Hs.
    rewrite decide_False by by apply Hf. cbn [mbind option_bind blockKind]. rewrite Hrest; [|done|cbn; by rewrite lookup_insert_eq].
    cbn. by rewrite delete_insert_eq.
Qed.

Lemma closeTools_accept parseJson stringify n (l : list (Z * ToolInfo)) p :
  stage p = Body -> NoDup (map (fun kv => blockIndex kv.2) l) ->
  (forall i k, opened p !! i = Some k <-> k = tool_kind /\ exists kv, kv ∈ l /\ startEmitted kv.2 = true /\ blockIndex kv.2 = i) ->
  (forall kv, kv ∈ l -> blockIndex kv.2 < n /\ (startEmitted kv.2 = false -> blockIndex kv.2 ∉ used p)) ->
  (forall i, i ∈ used p -> i < n) ->
  exists p', acceptAll p (concat (map (fun kv => closeTool parseJson stringify kv.2) l)) = Some p' /\ stage p' = Body /\ opened p' = ∅ /\
    (forall i, i ∈ used p' -> i < n).
Proof.
  revert p. induction l as [|[idx t] l IH]; intros p Hs Hnd Ho Hl Hu.
  - exists p. split_and!; try done. apply map_eq. intros i. rewrite lookup_empty. destruct (opened p !! i) as [k|] eqn:E; [|done].
    apply Ho in E as (_ & kv & H & _). by apply not_elem_of_nil in H.
  - cbn [map concat] in *. apply NoDup_cons in Hnd as [Hn Hnd]. cbn [snd] in *.
    assert (Hone : forall kv, kv ∈ l -> blockIndex kv.2 <> blockIndex t).
    { intros kv Hkv E. apply Hn, list_elem_of_In, in_map_iff. exists kv. split; [done|by apply list_elem_of_In]. }
    destruct (Hl (idx, t)) as [Hlt Hfree]; [by left|]. cbn [snd] in *.
    destruct (closeTool_accept parseJson stringify p t Hs Hfree) as (u & Ha & Hu').
    { intros He. apply Ho. split; [done|]. exists (idx, t). split; [by left|done]. }
    { intros He. destruct (opened p !! blockIndex t) as [k|] eqn:E; [|done]. apply Ho in E as (_ & kv & [->|Hkv]%elem_of_cons & H1 & H2); cbn in *; [congruence|].
      by apply Hone in Hkv. }
    destruct (IH (mkProto Body (delete (blockIndex t) (opened p)) u)) as (p' & H1 & H2 & H3 & H4); cbn [stage opened used].
    + done.
    + done.
    + intros i k. rewrite lookup_delete_Some, Ho. split.
      * intros (Hne & -> & kv & [->|Hkv]%elem_of_cons & H3 & H4); [by cbn in *|]. split; [done|]. eauto.
      * intros (-> & kv & Hkv & H3 & H4). split; [rewrite <- H4; intros E; by eapply Hone|]. split; [done|]. exists kv. split; [by right|done].
    + intros kv Hkv. destruct (Hl kv) as [H1 H2]; [by right|]. split; [done|]. intros He Hin.
      destruct Hu' as [->| ->]; [by apply H2|]. apply elem_of_union in Hin as [H3%elem_of_singleton|Hin]; [by eapply Hone|by apply H2].
    + intros i Hi. destruct Hu' as [->| ->]; [by apply Hu|]. apply elem_of_union in Hi as [->%elem_of_singleton|Hi]; [done|by apply Hu].
    + exists p'. split_and!; try done. by rewrite acceptAll_app, Ha.
Qed.

Lemma closeTools_conf parseJson stringify p0 s :
  thinkingBlockStarted s = false -> textBlockStarted s = false -> Conf p0 s ->
  exists p, acceptAll p0 (results (closeTools parseJson stringify s)) = Some p /\ Closed p (closeTools parseJson stringify s).
Proof.
  intros Ht Hx (p & Ha & [G1 G2 G3 G4 G5 G6 G7 G8]).
  destruct (closeTools_accept parseJson stringify (nextBlockIndex s) (toolInfos s) p) as (p' & H1 & H2 & H3 & H4); try done.
  - apply NoDup_fmap_2_strong; [|by eapply NoDup_fmap_1].
    intros [k1 t1] [k2 t2] E1 E2 Hb. apply (mget_elem _ _ _ G8) in E1. apply (mget_elem _ _ _ G8) in E2. cbn in Hb.
    assert (k1 = k2) by by eapply G7. congruence.
  - intros i k. rewrite G2. destruct k; cbn; [rewrite Ht|rewrite Hx|]; split; try (intros [? ?]; congruence).
    + intros (idx & t & H1 & H2 & H3). split; [done|]. exists (idx, t). split; [by apply mget_Some_elem|done].
    + intros (_ & [idx t] & H1 & H2 & H3). exists idx, t. split; [by apply mget_elem|done].
  - intros [idx t] H1. apply (mget_elem _ _ _ G8) in H1. by eapply G6.
  - exists p'. cbn. rewrite acceptAll_app, Ha. split; [exact H1|]. by split_and!.
Qed.

Lemma whole_block p i b : stage p = Body -> i ∉ used p -> opened p = ∅ ->
  acceptAll p [content_block_start i b; content_block_stop i] = Some (mkProto Body ∅ ({[i]} ∪ used p)).
Proof.
  intros H1 H2 H3. cbn [acceptAll].
  assert (E : accept p (content_block_start i b) = Some (mkProto Body {[i := blockKind b]} ({[i]} ∪ used p))) by (unfold accept; by rewrite H1, decide_False, H3).
  rewrite E. cbn. unfold accept. cbn. by rewrite lookup_singleton_eq; cbn; rewrite delete_singleton_eq.
Qed.

Lemma emitXmlCalls_conf p0 calls s s' p :
  acceptAll p0 (results s) = Some p -> Closed p s -> emitXmlCalls calls s = Some s' ->
  exists p', acceptAll p0 (results s') = Some p' /\ Closed p' s'.
Proof.
  revert s p. induction calls as [|tc calls IH]; intros s p Ha Hc; cbn [emitXmlCalls]; [by intros [= <-]; eauto|].
  destruct (x_name tc); try done. apply (IH _ (mkProto Body ∅ ({[nextBlockIndex s]} ∪ used p))).
  - cbn. rewrite <- app_assoc, acceptAll_app, Ha. destruct Hc as (H1 & H2 & H3). apply whole_block; [done| |done]. intros H%H3. lia.
  - destruct Hc as (H1 & H2 & H3). split_and!; [done..|]. cbn. intros i [->%elem_of_singleton|Hi%H3]%elem_of_union; lia.
Qed.

Lemma emitPreamble_conf directive p0 s : Conf p0 s -> Conf p0 (emitPreamble directive s).
Proof.
  intros HC. unfold emitPreamble. destruct (flushStrippers directive s) as [s1 t] eqn:E.
  assert (H1 : Conf p0 s1).
  { revert E. unfold flushStrippers. destruct (directiveStripper s) as [d|]; [destruct (flushStripper directive d)|]; cbn;
      (destruct (systemPreambleStripper s) as [q|]; [destruct (flushPreamble q)|]; cbn; intros [= <- <-]; by eapply Conf_core; [..|exact HC]). }
  clear E HC. destruct t as [|c t]; [done|]. destruct (textBlockStarted s1) eqn:Es; cbn [negb orb].
  - rewrite (Conf_closed _ _ H1 Es). by apply pushText_conf.
  - apply pushText_conf; [done|by apply startText_conf].
Qed.

Lemma emitReasoning_conf p0 s : Conf p0 s -> Conf p0 (emitReasoning s).
Proof.
  intros HC. unfold emitReasoning. destruct (reasoningAccum s) as [|c t]; [done|]. destruct (textBlockStarted s) eqn:Es; cbn [negb andb]; [done|].
  case_bool_decide; [|done]. apply pushText_conf; [done|by apply startText_conf].
Qed.

(** The thinking block stays closed while text is sent. *)
Lemma stopTextBlock_thinking s : thinkingBlockStarted (stopTextBlock s) = thinkingBlockStarted s.
Proof.
  assert (H : thinkingBlockStarted (flushMarkdownBuffer s) = thinkingBlockStarted s).
  { unfold flushMarkdownBuffer. destruct (markdownBuffer s); [done|]. cbn. destruct (textBlockStarted s); cbn; [by destruct (textBlockClosed s)|done]. }
  unfold stopTextBlock. rewrite <- H. remember (flushMarkdownBuffer s) as s1. cbv zeta. by case_if.
Qed.

Lemma emitPreamble_thinking directive s : thinkingBlockStarted (emitPreamble directive s) = thinkingBlockStarted s.
Proof.
  unfold emitPreamble, flushStrippers. destruct (directiveStripper s) as [d|]; [destruct (flushStripper directive d) as [d1 [|c1 t1]]|]; cbn;
    (destruct (systemPreambleStripper s) as [q|]; [destruct (flushPreamble q) as [q1 [|c2 t2]]|]; cbn; try done; by destruct (negb _ || _)).
Qed.

Lemma emitReasoning_thinking s : thinkingBlockStarted (emitReasoning s) = thinkingBlockStarted s.
Proof. unfold emitReasoning. destruct (reasoningAccum s); [done|]. by destruct (negb _ && _). Qed.

Lemma finishBlocks_conf parseJson stringify directive p0 s : Conf p0 s ->
  exists p, acceptAll p0 (results (finishBlocks parseJson stringify directive s)) = Some p /\ Closed p (finishBlocks parseJson stringify directive s).
Proof.
  intros HC. unfold finishBlocks. assert (H1 : Conf p0 (s <| claudeFinishEmitted := true |>)) by by eapply Conf_core; [..|exact HC].
  remember (s <| claudeFinishEmitted := true |>) as s1 eqn:Hd. clear Hd HC s.
  assert (Ht : thinkingBlockStarted (stopThinkingBlock s1) = false) by (unfold stopThinkingBlock; by destruct (thinkingBlockStarted s1) eqn:E).
  apply stopThinkingBlock_conf, (emitPreamble_conf directive), emitReasoning_conf, stopTextBlock_conf in H1 as [H1 Hx].
  apply closeTools_conf; [|done|done]. by rewrite stopTextBlock_thinking, emitReasoning_thinking, emitPreamble_thinking.
Qed.

Lemma finishStep_conf parseJson stringify directive p0 reason s s' : Conf p0 s ->
  finishStep parseJson stringify directive reason s = Some s' ->
  exists p, acceptAll p0 (results s') = Some p /\ stage p = Over.
Proof.
  intros HC. unfold finishStep. destruct (finishBlocks_conf parseJson stringify directive _ _ HC) as (p & Ha & Hc).
  remember (finishBlocks parseJson stringify directive s) as s1 eqn:Hd. clear Hd.
  destruct (emitXmlCalls _ s1) as [s2|] eqn:E; [|done]. cbn. destruct (emitXmlCalls_conf _ _ _ _ _ Ha Hc E) as (p2 & Ha2 & H1 & H2 & H3).
  intros [= <-]. exists (mkProto Over ∅ (used p2)). split; [|done]. cbn. rewrite <- app_assoc, acceptAll_app, Ha2. cbn [acceptAll app mbind option_bind].
  set (e := message_delta _ _). assert (E2 : accept p2 e = Some (mkProto Ending ∅ (used p2))) by (unfold accept; rewrite H1; subst e; by rewrite decide_True).
  by rewrite E2.
Qed.

(** ** Content *)

Lemma scrub_same directive strip t s s' t' : scrub directive strip t s = Some (s', t') -> core s' = core s /\ results s' = results s.
Proof.
  unfold scrub. set (s1 := match directive with [] => s | _ => _ end).
  set (s2 := if strip then s1 <| systemPreambleStripper := _ |> else s1).
  assert (H : core s2 = core s /\ results s2 = results s) by (subst s2 s1; by destruct strip, directive). clearbody s2. clear s1.
  destruct (match directiveStripper s2 with Some d => _ | None => _ end) as [s3 t3] eqn:E.
  assert (H3 : core s3 = core s /\ results s3 = results s).
  { destruct (directiveStripper s2); [destruct (pushStripper _ _ _)|]; by injection E as <- <-. }
  destruct (systemPreambleStripper s3); [|by intros [= <- <-]]. destruct (pushPreamble t3 _) as [[q t4]|]; [|done]. by intros [= <- <-].
Qed.

Lemma contentStep_conf parseJson directive strip now uuid p0 d s s' :
  Conf p0 s -> contentStep parseJson directive strip now uuid d s = Some s' -> Conf p0 s'.
Proof.
  intros HC. unfold contentStep. destruct (stripInternalReasoningPlaceholder (content d)) as [|c0 t0]; [by intros [= <-]|].
  destruct (scrub directive strip (c0 :: t0) s) as [[s1 scrubbed]|] eqn:E; [|done]. cbn [mbind option_bind].
  apply scrub_same in E as [E1 E2]. assert (H1 : Conf p0 s1) by by eapply Conf_core. clear HC E1 E2.
  assert (H2 : Conf p0 (match scrubbed with [] => s1 | _ => stopThinkingBlock s1 end)) by (destruct scrubbed; [done|by apply stopThinkingBlock_conf]).
  remember (match scrubbed with [] => s1 | _ => stopThinkingBlock s1 end) as s2 eqn:Hd. clear Hd H1. cbv zeta.
  destruct (takeDsml uuid scrubbed (s2 <| markdownBuffer := [] |>)) as [[s3 t] dcalls] eqn:E.
  assert (H3 : Conf p0 s3).
  { revert E. unfold takeDsml. cbv zeta. destruct (hasDsmlToolCalls _); intros [= <- _ _]; by eapply Conf_core; [..|exact H2]. }
  clear E. set (r := extractXmlInvokeBlocks _ _ _ _). clearbody r.
  assert (H4 : Conf p0 (s3 <| xmlInvokeBuffer := buffer r |>)) by by eapply Conf_core; [..|exact H3].
  remember (s3 <| xmlInvokeBuffer := buffer r |>) as s4 eqn:Hd. clear Hd H3.
  assert (H5 : Conf p0 (match toolCalls r ++ dcalls with
                        | [] => s4
                        | _ => (stopTextBlock s4) <| pendingXmlToolCalls := pendingXmlToolCalls (stopTextBlock s4) ++ toolCalls r ++ dcalls |>
                        end)).
  { destruct (toolCalls r ++ dcalls); [done|]. apply stopTextBlock_conf in H4 as [H4 _]. by eapply Conf_core; [..|exact H4]. }
  revert H5. generalize (match toolCalls r ++ dcalls with
                        | [] => s4
                        | _ => (stopTextBlock s4) <| pendingXmlToolCalls := pendingXmlToolCalls (stopTextBlock s4) ++ toolCalls r ++ dcalls |>
                        end).
  intros s5 H5 [= <-]. apply emitText_conf. by eapply Conf_core; [..|exact H5].
Qed.
(** ** What the parts of a call leave alone *)

Definition frame s := (messageStartSent s, claudeFinishEmitted s, pendingClaudeFinishChoice s, requestedThinking s, toolNameMap s, usage s).

Lemma stopThinkingBlock_frame s : frame (stopThinkingBlock s) = frame s.
Proof. unfold stopThinkingBlock. by destruct (thinkingBlockStarted s). Qed.

Lemma stopTextBlock_frame s : frame (stopTextBlock s) = frame s.
Proof.
  assert (H : frame (flushMarkdownBuffer s) = frame s).
  { unfold flushMarkdownBuffer. destruct (markdownBuffer s); [done|]. cbn. destruct (textBlockStarted s); cbn; [by destruct (textBlockClosed s)|done]. }
  unfold stopTextBlock. rewrite <- H. remember (flushMarkdownBuffer s) as s1. cbv zeta. by case_if.
Qed.

Lemma emitText_frame t s : frame (emitText t s) = frame s.
Proof. unfold emitText. destruct t; [done|]. by destruct (textBlockStarted s). Qed.

Lemma reasoningStep_frame d s : frame (reasoningStep d s) = frame s.
Proof.
  unfold reasoningStep. destruct (reasoningOf d); [done|]. case_bool_decide; [done|]. rewrite <- (stopTextBlock_frame s).
  remember (stopTextBlock s) as s1. cbv zeta. by destruct (thinkingBlockStarted s1).
Qed.

Lemma scrub_frame directive strip t s s' t' : scrub directive strip t s = Some (s', t') -> frame s' = frame s.
Proof.
  unfold scrub. set (s1 := match directive with [] => s | _ => _ end).
  set (s2 := if strip then s1 <| systemPreambleStripper := _ |> else s1).
  assert (H : frame s2 = frame s) by (subst s2 s1; by destruct strip, directive). clearbody s2. clear s1.
  destruct (match directiveStripper s2 with Some d => _ | None => _ end) as [s3 t3] eqn:E.
  assert (H3 : frame s3 = frame s) by (destruct (directiveStripper s2); [destruct (pushStripper _ _ _)|]; by injection E as <- <-).
  destruct (systemPreambleStripper s3); [|by intros [= <- <-]]. destruct (pushPreamble t3 _) as [[q t4]|]; [|done]. by intros [= <- <-].
Qed.

Lemma takeDsml_frame uuid t s : frame (takeDsml uuid t s).1.1 = frame s.
Proof. unfold takeDsml. cbv zeta. by destruct (hasDsmlToolCalls _). Qed.

Lemma contentStep_frame parseJson directive strip now uuid d s s' :
  contentStep parseJson directive strip now uuid d s = Some s' -> frame s' = frame s.
Proof.
  unfold contentStep. destruct (stripInternalReasoningPlaceholder (content d)) as [|c0 t0]; [by intros [= <-]|].
  destruct (scrub directive strip (c0 :: t0) s) as [[s1 scrubbed]|] eqn:E; [|done]. cbn [mbind option_bind]. apply scrub_frame in E as <-.
  assert (E : frame (match scrubbed with [] => s1 | _ => stopThinkingBlock s1 end) = frame s1) by (destruct scrubbed; [done|apply stopThinkingBlock_frame]).
  rewrite <- E. clear E. generalize (match scrubbed with [] => s1 | _ => stopThinkingBlock s1 end). clear s1. intros s2. cbv zeta.
  pose proof (takeDsml_frame uuid scrubbed (s2 <| markdownBuffer := [] |>)) as E. destruct (takeDsml _ _ _) as [[s3 t] dcalls]. cbn [fst] in E.
  change (frame (s2 <| markdownBuffer := [] |>)) with (frame s2) in E. rewrite <- E. clear E.
  set (r := extractXmlInvokeBlocks _ _ _ _). clearbody r. intros [= <-]. rewrite emitText_frame.
  destruct (toolCalls r ++ dcalls); [done|]. change (frame (stopTextBlock (s3 <| xmlInvokeBuffer := buffer r |>)) = frame s3). by rewrite stopTextBlock_frame.
Qed.

Lemma toolStep_frame stringify s tc : frame (toolStep stringify s tc) = frame s.
Proof.
  unfold toolStep. set (idx := orElse (td_index tc) 0).
  assert (H1 : frame (registerTool idx tc s) = frame s).
  { unfold registerTool. case_if; [|done]. cbv zeta. rewrite <- (stopThinkingBlock_frame s), <- (stopTextBlock_frame (stopThinkingBlock s)). by remember (stopTextBlock _) as s1. }
  rewrite <- H1. generalize (registerTool idx tc s). clear s H1. intros s.
  assert (H2 : frame (announceTool idx tc s) = frame s) by (unfold announceTool; destruct (mget idx _); [|done]; cbv zeta; by case_if).
  rewrite <- H2. generalize (announceTool idx tc s). clear s H2. intros s. unfold argumentsStep. case_if; [|done].
  destruct (mget idx _); [|done]. cbv zeta. by case_if.
Qed.

Lemma toolSteps_frame stringify tcs s : frame (foldl (toolStep stringify) s tcs) = frame s.
Proof. revert s. induction tcs as [|tc tcs IH]; intros s; [done|]. cbn. by rewrite IH, toolStep_frame. Qed.
Lemma emitPreamble_frame directive s : frame (emitPreamble directive s) = frame s.
Proof.
  unfold emitPreamble, flushStrippers. destruct (directiveStripper s) as [d|]; [destruct (flushStripper directive d) as [d1 [|c1 t1]]|]; cbn;
    (destruct (systemPreambleStripper s) as [q|]; [destruct (flushPreamble q) as [q1 [|c2 t2]]|]; cbn; try done; by destruct (textBlockStarted s), (textBlockClosed s)).
Qed.

Lemma emitReasoning_frame s : frame (emitReasoning s) = frame s.
Proof. unfold emitReasoning. destruct (reasoningAccum s); [done|]. by destruct (negb _ && _). Qed.

Lemma finishBlocks_frame parseJson stringify directive s :
  frame (finishBlocks parseJson stringify directive s) = frame (s <| claudeFinishEmitted := true |>).
Proof.
  unfold finishBlocks. generalize (s <| claudeFinishEmitted := true |>). clear s. intros s.
  change (frame (stopTextBlock (emitReasoning (emitPreamble directive (stopThinkingBlock s)))) = frame s).
  by rewrite stopTextBlock_frame, emitReasoning_frame, emitPreamble_frame, stopThinkingBlock_frame.
Qed.

Lemma emitXmlCalls_frame calls s s' : emitXmlCalls calls s = Some s' -> frame s' = frame s.
Proof.
  revert s. induction calls as [|tc calls IH]; intros s; cbn [emitXmlCalls]; [by intros [= <-]|]. destruct (x_name tc); try done. intros H. by rewrite (IH _ H).
Qed.

Lemma finishStep_frame parseJson stringify directive reason s s' :
  finishStep parseJson stringify directive reason s = Some s' -> frame s' = frame (s <| claudeFinishEmitted := true |>).
Proof.
  unfold finishStep. rewrite <- (finishBlocks_frame parseJson stringify directive). generalize (finishBlocks parseJson stringify directive s). clear s. intros s.
  destruct (emitXmlCalls _ s) as [s1|] eqn:E; [|done]. apply emitXmlCalls_frame in E. cbn [mbind option_bind]. intros [= <-]. by rewrite <- E.
Qed.

(** ** The text that was sent or is held *)

Definition sentText s : text := textOf (results s) ++ markdownBuffer s.

Lemma push_text t s : textOf (results (pushText t s)) = textOf (results s) ++ t.
Proof. etransitivity; [exact (textOf_app (results s) _)|]. f_equal. apply app_nil_r. Qed.

Lemma push_other e s : textOf [e] = [] -> textOf (results (push e s)) = textOf (results s).
Proof. intros H. etransitivity; [exact (textOf_app (results s) [e])|]. by rewrite H, app_nil_r. Qed.

Lemma openText_text s : textOf (results (if textBlockStarted s then s else startText s)) = textOf (results s).
Proof. destruct (textBlockStarted s); [done|]. exact (push_other (content_block_start (nextBlockIndex s) text_block) s eq_refl). Qed.

Lemma openText_buffer s : markdownBuffer (if textBlockStarted s then s else startText s) = markdownBuffer s.
Proof. by destruct (textBlockStarted s). Qed.

Lemma stopThinkingBlock_text s : textOf (results (stopThinkingBlock s)) = textOf (results s) /\ markdownBuffer (stopThinkingBlock s) = markdownBuffer s.
Proof. unfold stopThinkingBlock. destruct (thinkingBlockStarted s); [|done]. split; [|done]. exact (push_other (content_block_stop (thinkingBlockIndex s)) s eq_refl). Qed.

Lemma flushMarkdownBuffer_text p0 s : Conf p0 s ->
  textOf (results (flushMarkdownBuffer s)) = sentText s /\ markdownBuffer (flushMarkdownBuffer s) = [].
Proof.
  intros HC. unfold flushMarkdownBuffer, sentText. destruct (markdownBuffer s) as [|c b] eqn:Eb; [by rewrite app_nil_r|]. rewrite <- Eb. clear Eb c b.
  assert (H1 : Conf p0 (s <| markdown := noMd |> <| markdownBuffer := [] |>)) by by eapply Conf_core; [..|exact HC].
  change (textOf (results s)) with (textOf (results (s <| markdown := noMd |> <| markdownBuffer := [] |>))).
  assert (Hb : markdownBuffer (s <| markdown := noMd |> <| markdownBuffer := [] |>) = []) by done.
  generalize (markdownBuffer s). intros b. cbv zeta. remember (s <| markdown := noMd |> <| markdownBuffer := [] |>) as s1 eqn:Hd. clear Hd HC s.
  pose proof (openText_conf _ _ H1) as H2. rewrite (Conf_closed _ _ H2 (openText_started s1)), push_text, openText_text.
  split; [done|]. transitivity (markdownBuffer (if textBlockStarted s1 then s1 else startText s1)); [done|]. by rewrite openText_buffer.
Qed.

Lemma stopTextBlock_text p0 s : Conf p0 s -> textOf (results (stopTextBlock s)) = sentText s /\ markdownBuffer (stopTextBlock s) = [].
Proof.
  intros HC. unfold stopTextBlock. destruct (flushMarkdownBuffer_text _ _ HC) as [<- H2]. remember (flushMarkdownBuffer s) as s1 eqn:Hd. clear Hd.
  cbv zeta. destruct (negb (textBlockStarted s1) || textBlockClosed s1); [done|]. split; [exact (push_other (content_block_stop (textBlockIndex s1)) s1 eq_refl)|exact H2].
Qed.

Lemma stopTextBlock_sent p0 s : Conf p0 s -> sentText (stopTextBlock s) = sentText s.
Proof. intros HC. destruct (stopTextBlock_text _ _ HC) as [H1 H2]. unfold sentText at 1. by rewrite H1, H2, app_nil_r. Qed.

Lemma reasoningStep_text p0 d s : Conf p0 s -> sentText (reasoningStep d s) = sentText s.
Proof.
  intros HC. unfold reasoningStep. destruct (reasoningOf d) as [|c t]; [done|]. case_bool_decide; [done|].
  rewrite <- (stopTextBlock_sent _ _ HC). remember (stopTextBlock s) as s1 eqn:Hd. clear Hd. cbv zeta.
  set (s2 := if thinkingBlockStarted s1 then s1 else startThinking s1).
  assert (E : sentText s2 = sentText s1).
  { subst s2. destruct (thinkingBlockStarted s1); [done|]. unfold sentText. f_equal. exact (push_other (content_block_start (nextBlockIndex s1) thinking_block) s1 eq_refl). }
  rewrite <- E. clearbody s2. unfold sentText. f_equal. exact (push_other (content_block_delta (thinkingBlockIndex s2) (thinking_delta (c :: t))) s2 eq_refl).
Qed.

Lemma emitText_text t s : sentText (emitText t s) = textOf (results s) ++ t ++ markdownBuffer s.
Proof.
  unfold emitText. destruct t as [|c t]; [done|]. unfold sentText. rewrite push_text, openText_text, <- app_assoc. do 2 f_equal.
  by destruct (textBlockStarted s).
Qed.

(** Nothing but text is under way. *)
Definition PlainText s : Prop :=
  xmlInvokeBuffer s = [] /\ dsmlHoldback s = [] /\ pendingXmlToolCalls s = [] /\ directiveStripper s = None /\ systemPreambleStripper s = None.

Definition plain s := (xmlInvokeBuffer s, dsmlHoldback s, pendingXmlToolCalls s, directiveStripper s, systemPreambleStripper s).

Lemma PlainText_eq s s' : plain s' = plain s -> PlainText s -> PlainText s'.
Proof. unfold PlainText. intros [= -> -> -> -> ->]. done. Qed.

Lemma emitText_plain t s : plain (emitText t s) = plain s.
Proof. unfold emitText. destruct t; [done|]. by destruct (textBlockStarted s). Qed.

Lemma contentStep_text parseJson now uuid d s s' :
  PlainText s -> contains (content d) NON_ANTHROPIC_THINKING_PLACEHOLDER = false ->
  contains (markdownBuffer s ++ content d) (str "|DSML|") = false -> noMarker (markdownBuffer s ++ content d) ->
  contentStep parseJson [] false now uuid d s = Some s' ->
  sentText s' = sentText s ++ content d /\ PlainText s'.
Proof.
  intros HP Hph Hd Hm. unfold contentStep, stripInternalReasoningPlaceholder. rewrite Hph.
  destruct (content d) as [|c t] eqn:Ec; [intros [= <-]; by rewrite app_nil_r|]. rewrite <- Ec in *. clear Ec c t. revert Hd Hm. generalize (content d). intros t Hd Hm.
  pose proof HP as (Hx & Hh & Hp & Hs1 & Hs2). unfold scrub. rewrite Hs1. cbn [mbind option_bind]. rewrite Hs2. cbn [mbind option_bind].
  set (s1 := match t with [] => s | _ => stopThinkingBlock s end).
  assert (E1 : plain s1 = plain s /\ textOf (results s1) = textOf (results s) /\ markdownBuffer s1 = markdownBuffer s).
  { subst s1. destruct t; [done|]. split; [|apply stopThinkingBlock_text]. unfold stopThinkingBlock. by destruct (thinkingBlockStarted s). }
  destruct E1 as (E1 & E2 & E3). apply (PlainText_eq _ _ E1) in HP. clearbody s1. cbv zeta. clear Hx Hh Hp Hs1 Hs2.
  destruct HP as (Hx & Hh & Hp & Hs1 & Hs2).
  unfold takeDsml. cbn [dsmlHoldback]. change (dsmlHoldback (s1 <| markdownBuffer := [] |>)) with (dsmlHoldback s1). rewrite Hh. cbn [app].
  assert (Hnd : hasDsmlToolCalls t = false).
  { unfold hasDsmlToolCalls. destruct (contains t (str "|DSML|")) eqn:E; [|done]. apply (contains_sub _ (markdownBuffer s) t []) in E. rewrite app_nil_r in E. congruence. }
  rewrite Hnd. cbv beta iota zeta.
  change (xmlInvokeBuffer (s1 <| markdownBuffer := [] |> <| dsmlHoldback := [] |>)) with (xmlInvokeBuffer s1). rewrite Hx, E3.
  rewrite extract_plain by by apply noMarker_findOpener. cbn [toolCalls buffer cleaned app].
  set (s2 := s1 <| markdownBuffer := [] |> <| dsmlHoldback := [] |> <| xmlInvokeBuffer := [] |>).
  destruct (split_lossless (markdownBuffer s ++ t) (markdown s2)) as [Hl _]. set (m := splitMarkdownBoundary _ _) in *. clearbody m.
  intros [= <-]. split.
  - rewrite emitText_text. unfold sentText. rewrite <- app_assoc, <- Hl, <- E2. done.
  - eapply PlainText_eq; [apply emitText_plain|]. by split_and!.
Qed.

Lemma stopThinkingBlock_plain s : plain (stopThinkingBlock s) = plain s.
Proof. unfold stopThinkingBlock. by destruct (thinkingBlockStarted s). Qed.

Lemma stopTextBlock_plain s : plain (stopTextBlock s) = plain s.
Proof.
  assert (H : plain (flushMarkdownBuffer s) = plain s).
  { unfold flushMarkdownBuffer. destruct (markdownBuffer s); [done|]. cbn. destruct (textBlockStarted s); cbn; [by destruct (textBlockClosed s)|done]. }
  unfold stopTextBlock. rewrite <- H. remember (flushMarkdownBuffer s) as s1. cbv zeta. by case_if.
Qed.

Lemma reasoningStep_plain d s : plain (reasoningStep d s) = plain s.
Proof.
  unfold reasoningStep. destruct (reasoningOf d); [done|]. case_bool_decide; [done|]. rewrite <- (stopTextBlock_plain s).
  remember (stopTextBlock s) as s1. cbv zeta. by destruct (thinkingBlockStarted s1).
Qed.

(** A pushed event that is no text. *)
Lemma sent_other e s : textOf [e] = [] -> sentText (push e s) = sentText s.
Proof. intros H. unfold sentText. f_equal. by apply push_other. Qed.

Lemma toolStep_text stringify p0 s tc : Conf p0 s -> sentText (toolStep stringify s tc) = sentText s /\ plain (toolStep stringify s tc) = plain s.
Proof.
  intros HC. unfold toolStep. set (idx := orElse (td_index tc) 0).
  assert (H1 : sentText (registerTool idx tc s) = sentText s /\ plain (registerTool idx tc s) = plain s).
  { unfold registerTool. case_if; [|done]. cbv zeta. rewrite <- (stopThinkingBlock_plain s), <- (stopTextBlock_plain (stopThinkingBlock s)).
    assert (E : sentText (stopTextBlock (stopThinkingBlock s)) = sentText s).
    { rewrite (stopTextBlock_sent p0) by by apply stopThinkingBlock_conf. unfold sentText. by destruct (stopThinkingBlock_text s) as [-> ->]. }
    rewrite <- E. by remember (stopTextBlock _) as s1. }
  destruct H1 as [<- <-]. generalize (registerTool idx tc s). clear HC s. intros s.
  assert (H2 : sentText (announceTool idx tc s) = sentText s /\ plain (announceTool idx tc s) = plain s).
  { unfold announceTool. destruct (mget idx _); [|done]. cbv zeta. case_if; [|done]. split; [by rewrite sent_other|done]. }
  destruct H2 as [<- <-]. generalize (announceTool idx tc s). clear s. intros s. unfold argumentsStep. case_if; [|done].
  destruct (mget idx _); [|done]. cbv zeta. case_if; [done|]. split; [by rewrite sent_other|done].
Qed.

Lemma toolSteps_text stringify p0 tcs s : Conf p0 s ->
  sentText (foldl (toolStep stringify) s tcs) = sentText s /\ plain (foldl (toolStep stringify) s tcs) = plain s.
Proof.
  revert s. induction tcs as [|tc tcs IH]; intros s HC; [done|]. cbn [foldl].
  destruct (toolStep_text stringify _ _ tc HC) as [<- <-]. apply IH. by apply toolStep_conf.
Qed.

Lemma closeTools_text parseJson stringify s : textOf (results (closeTools parseJson stringify s)) = textOf (results s).
Proof.
  etransitivity; [exact (textOf_app (results s) _)|]. rewrite <- (app_nil_r (textOf (results s))) at 2. f_equal.
  induction (toolInfos s) as [|[k t] l IH]; [done|]. cbn [map concat]. rewrite textOf_app. rewrite IH, app_nil_r.
  unfold closeTool. by destruct (startEmitted _), (shimmed _).
Qed.

Lemma finishStep_text parseJson stringify p0 reason s s' :
  Conf p0 s -> PlainText s -> requestedThinking s <> Some false ->
  finishStep parseJson stringify [] reason s = Some s' -> textOf (results s') = sentText s.
Proof.
  intros HC HP Hr. unfold finishStep. assert (E : finishBlocks parseJson stringify [] s = closeTools parseJson stringify (stopTextBlock (stopThinkingBlock (s <| claudeFinishEmitted := true |>)))).
  { unfold finishBlocks. do 2 f_equal. set (s1 := stopThinkingBlock _).
    assert (HP1 : PlainText s1) by (eapply PlainText_eq; [apply stopThinkingBlock_plain|exact HP]). destruct HP1 as (_ & _ & _ & Hs1 & Hs2).
    assert (Hr1 : requestedThinking s1 = requestedThinking s).
    { pose proof (stopThinkingBlock_frame (s <| claudeFinishEmitted := true |>)) as F. by injection F as _ _ _ F _ _. }
    clearbody s1. unfold emitPreamble, flushStrippers. rewrite Hs1. cbv beta iota zeta. rewrite Hs2. cbn [app]. unfold emitReasoning.
    destruct (reasoningAccum s1); [done|]. rewrite bool_decide_false by congruence. by rewrite andb_false_r. }
  rewrite E. clear E. assert (HC1 : Conf p0 (s <| claudeFinishEmitted := true |>)) by by eapply Conf_core; [..|exact HC].
  assert (ET : textOf (results (closeTools parseJson stringify (stopTextBlock (stopThinkingBlock (s <| claudeFinishEmitted := true |>))))) = sentText s).
  { rewrite closeTools_text. rewrite (proj1 (stopTextBlock_text p0 _ (stopThinkingBlock_conf _ _ HC1))). unfold sentText.
    by destruct (stopThinkingBlock_text (s <| claudeFinishEmitted := true |>)) as [-> ->]. }
  assert (EP : pendingXmlToolCalls (closeTools parseJson stringify (stopTextBlock (stopThinkingBlock (s <| claudeFinishEmitted := true |>)))) = []).
  { change (pendingXmlToolCalls (stopTextBlock (stopThinkingBlock (s <| claudeFinishEmitted := true |>))) = []).
    eapply (PlainText_eq _ (stopTextBlock (stopThinkingBlock (s <| claudeFinishEmitted := true |>)))) in HP; [by destruct HP as (_ & _ & ? & _)|].
    by rewrite stopTextBlock_plain, stopThinkingBlock_plain. }
  rewrite <- ET. remember (closeTools parseJson stringify _) as s1 eqn:Hd. clear Hd ET HC1. rewrite EP. cbn [emitXmlCalls mbind option_bind].
  intros [= <-]. rewrite !push_other; done.
Qed.

(** ** Where a stream stands *)

(** Before the first chunk. *)
Definition Fresh s : Prop :=
  thinkingBlockStarted s = false /\ textBlockStarted s = false /\ toolInfos s = [] /\ pendingClaudeFinishChoice s = None.

Lemma startMessage_conf now c s : Fresh s -> results s = [] -> Conf proto0 (startMessage now c s).
Proof.
  intros (H1 & H2 & H3 & _) Hr. exists (mkProto Body ∅ ∅). split; [cbn; by rewrite Hr|]. constructor; cbn; rewrite ?H1, ?H2, ?H3; try done; [|apply mwf_nil].
  intros i k. rewrite lookup_empty. destruct k; cbn; rewrite ?H1, ?H2, ?H3; naive_solver.
Qed.

(** Where a stream stands: what was sent, and the state. *)
Definition Track p s : Prop :=
  if messageStartSent s then if claudeFinishEmitted s then stage p = Over else Good p s
  else p = proto0 /\ Fresh s /\ claudeFinishEmitted s = false.

(** The state and the events of one call. *)
Definition Answered (p : Proto) s : Prop := exists p', acceptAll p (results s) = Some p' /\ Track p' s.

Lemma Track_usage p s u : Track p s -> Track p (s <| results := [] |> <| usage := u |>).
Proof.
  unfold Track. cbn. destruct (messageStartSent s); [|done]. destruct (claudeFinishEmitted s); [done|]. intros H. by eapply Good_core; [|exact H].
Qed.

Lemma Track_init thinking names : Track proto0 (initState thinking names).
Proof. by split_and!. Qed.
End Blocks.


(** ** Whole answers *)

Section Answers.
Context (parseJson : text -> option json) (stringify : json -> text) (directive : text) (strip : bool).
Implicit Types (s : State) (p : Proto).
Notation step := (step parseJson stringify directive strip).
Notation answer := (answer parseJson stringify directive strip).
Notation choiceStep := (choiceStep parseJson stringify directive strip).

Lemma body_step now uuid chunk fl c p s s' :
  messageStartSent s = true -> claudeFinishEmitted s = false -> Conf p s ->
  choiceStep now uuid chunk fl c s = Some s' -> messageStartSent s' = true /\ Answered p s'.
Proof.
  intros Hm Hf HC. unfold OpenaiToClaude.choiceStep. rewrite Hm. cbn [mbind option_bind].
  apply (reasoningStep_conf _ (delta c)) in HC. pose proof (reasoningStep_frame (delta c) s) as F1.
  remember (reasoningStep (delta c) s) as s1 eqn:Hd. clear Hd.
  destruct (contentStep _ _ _ _ _ (delta c) s1) as [s2|] eqn:E; [|done]. cbn [mbind option_bind].
  pose proof (contentStep_frame _ _ _ _ _ _ _ _ E) as F2. apply (contentStep_conf _ _ _ _ _ _ _ _ _ HC) in E. clear HC.
  apply (toolSteps_conf stringify _ (tool_calls (delta c))) in E. pose proof (toolSteps_frame stringify (tool_calls (delta c)) s2) as F3.
  remember (foldl (toolStep stringify) s2 (tool_calls (delta c))) as s3 eqn:Hd. clear Hd.
  assert (F : frame s3 = frame s) by congruence. clear F1 F2 F3. injection F as F1 F2 F3 _ _ _. rewrite Hm in F1. rewrite Hf in F2. rewrite F2. cbn [negb].
  assert (Hstay : forall s4, s4 = s3 <| pendingClaudeFinishChoice := pendingClaudeFinishChoice s4 |> -> messageStartSent s4 = true /\ Answered p s4).
  { intros s4 ->. split; [exact F1|]. destruct E as (p' & Ha & Hg). exists p'. split; [exact Ha|]. unfold Track. cbn. rewrite F1, F2. by eapply Good_core; [|exact Hg]. }
  destruct (negb (isEmpty (finish_reason c)) && true).
  - destruct (negb _ && negb fl); [intros [= <-]; by apply Hstay|]. intros Hfin. pose proof Hfin as Hfin'.
    apply (finishStep_conf _ _ _ _ _ _ _ E) in Hfin as (p' & Ha & Ho).
    apply finishStep_frame in Hfin'. injection Hfin' as G1 G2 _ _ _ _. rewrite F1 in G1. split; [exact G1|].
    exists p'. split; [exact Ha|]. unfold Track. by rewrite G1, G2.
  - intros [= <-]. apply Hstay. by destruct s3.
Qed.

Lemma choiceStep_track now uuid chunk fl c p s s' :
  Track p s -> results s = [] -> claudeFinishEmitted s = false ->
  choiceStep now uuid chunk fl c s = Some s' -> messageStartSent s' = true /\ Answered p s'.
Proof.
  intros HT Hr Hf. destruct (messageStartSent s) eqn:Hm; unfold Track in HT; rewrite Hm in HT.
  - rewrite Hf in HT. apply body_step; [done..|]. exists p. by rewrite Hr.
  - destruct HT as (-> & HF & _). intros H. destruct chunk as [ch|]; [|unfold OpenaiToClaude.choiceStep in H; by rewrite Hm in H].
    assert (Hs : messageStartSent (startMessage now ch s) = true /\ claudeFinishEmitted (startMessage now ch s) = false) by (split; [done|exact Hf]).
    destruct Hs as [Hs1 Hs2]. pose proof (startMessage_conf now ch s HF Hr) as HC.
    apply (body_step now uuid (Some ch) fl c proto0 (startMessage now ch s)); [exact Hs1|exact Hs2|exact HC|].
    unfold OpenaiToClaude.choiceStep in *. rewrite Hm in H. cbn [mbind option_bind] in H. clear HC HF Hr Hf Hm Hs2.
    remember (startMessage now ch s) as s1 eqn:Hd. clear Hd. rewrite Hs1. exact H.
Qed.

(** Each call of a stream not yet finished sends events a client accepts. *)
Lemma step_track p k s s' : Track p s -> claudeFinishEmitted s = false -> step k s = Some s' -> Answered p s'.
Proof.
  intros HT Hf. unfold OpenaiToClaude.step, openaiToClaudeResponse. cbv zeta.
  assert (H : exists u, match k_chunk k with Some c => trackUsageFromChunk c (s <| results := [] |>) | None => s <| results := [] |> end = s <| results := [] |> <| usage := u |>).
  { destruct (k_chunk k) as [c|]; [unfold trackUsageFromChunk; destruct (c_usage c); eauto|]; exists (usage s); by destruct s. }
  destruct H as [u ->]. apply (Track_usage _ _ u) in HT. remember (s <| results := [] |> <| usage := u |>) as s1 eqn:Hd.
  assert (Hr : results s1 = []) by by rewrite Hd. assert (Hf1 : claudeFinishEmitted s1 = false) by by rewrite Hd. clear Hd Hf s u.
  destruct (k_chunk k ≫= choice0) as [c|].
  - intros H. by eapply choiceStep_track in H as [_ ?].
  - destruct (pendingClaudeFinishChoice s1) as [c|] eqn:Ep.
    + intros H. eapply choiceStep_track in H as [_ ?]; [done|..|exact Hr|exact Hf1].
      revert HT. unfold Track. cbn. destruct (messageStartSent s1); [rewrite Hf1; intros HT; by eapply Good_core; [|exact HT]|].
      intros (_ & (_ & _ & _ & HF) & _). congruence.
    + intros [= <-]. exists p. by rewrite Hr.
Qed.

Lemma answer_track ks p s sent s' es :
  acceptAll proto0 sent = Some p -> Track p s -> answer ks s sent = Some (s', es) ->
  exists p', acceptAll proto0 es = Some p' /\ Track p' s'.
Proof.
  revert p s sent. induction ks as [|k ks IH]; intros p s sent Ha HT; cbn [OpenaiToClaude.answer]; [by intros [= <- <-]; eauto|].
  destruct (claudeFinishEmitted s) eqn:Hf; [by intros [= <- <-]; eauto|]. destruct (step k s) as [s1|] eqn:E; [|done]. cbn [mbind option_bind].
  destruct (step_track _ _ _ _ HT Hf E) as (p1 & Ha1 & HT1). apply (IH p1); [|done]. by rewrite acceptAll_app, Ha.
Qed.

Lemma answer_app ks1 ks2 s sent : answer (ks1 ++ ks2) s sent = ('(s', es) ← answer ks1 s sent; answer ks2 s' es).
Proof.
  revert s sent. induction ks1 as [|k ks1 IH]; intros s sent; [done|]. cbn [app OpenaiToClaude.answer]. destruct (claudeFinishEmitted s) eqn:Ef.
  - cbn. destruct ks2; cbn [OpenaiToClaude.answer]; [done|by rewrite Ef].
  - destruct (step k s); [apply IH|done].
Qed.
End Answers.

(** *** Chunks for the examples *)

Definition tick (c : option Chunk) : Tick := mkTick "1" (fun _ => "0123456789"%string) c.
Definition chunkOf (d : Delta) (fin : string) (u : option UsageIn) : Tick :=
  tick (Some (mkChunk (Some "chatcmpl-12345678"%string) "m" "" "" (Some (mkChoice d fin)) u)).
Definition said (t : string) : Delta := mkDelta None None None (str t) [].
Definition thought (t : string) : Delta := mkDelta (Some (VStr t)) None None [] [].
Definition called (i : Z) (id name : string) (args : option json) : Delta := mkDelta None None None [] [mkToolDelta (Some i) id name args].
Definition noDelta : Delta := mkDelta None None None [] [].
Definition someUsage : UsageIn := mkUsageIn (numField 12) noField (numField 5) noField (Some (mkDetails (numField 2) noField)) None.
Definition noJson (t : text) : option json := None.
Definition noText (v : json) : text := [].

(** Reasoning, text, and two calls, one of them announced late. *)
Definition sampleStream : list Tick :=
  [chunkOf (thought "Hm.") "" None; chunkOf (said "See `") "" None; chunkOf (said "x` **") "" None; chunkOf (called 0 "a:1" "" None) "" None;
   chunkOf (said "bold**") "" None; chunkOf (called 1 "b" "proxy_bash" (Some (VStr "{}"))) "" None; chunkOf (called 0 "" "bash" (Some (VStr "[1"))) "" None;
   chunkOf (called 0 "" "" (Some (VStr ",2]"))) "" None; chunkOf noDelta "tool_calls" None; tick None].

(** C3. Whatever the chunks an upstream sends, in whatever order, the events sent up to
    the finish are accepted by the grammar of a Claude client: the message is started once, every
    block is started under an index of its own, gets deltas of its kind while it is open
    and is stopped once, and the message ends exactly when the finish was sent, with no
    block left open. *)
Theorem protocol_conformant (parseJson : text -> option json) (stringify : json -> text) (directive : text) (strip : bool)
    (thinking : option bool) (names : jsmap string string) (ks : list Tick) (s : State) (es : list Event) :
  answer parseJson stringify directive strip ks (initState thinking names) [] = Some (s, es) ->
  exists p, acceptAll proto0 es = Some p /\ (claudeFinishEmitted s = true <-> stage p = Over).
Proof.
  intros H. apply (answer_track _ _ _ _ _ proto0) in H as (p & Ha & HT); [|done|apply Track_init]. exists p. split; [done|].
  unfold Track in HT. destruct (messageStartSent s); [destruct (claudeFinishEmitted s); [by split|rewrite (g_stage _ _ HT); by split]|].
  destruct HT as (-> & _ & ->). by split.
Qed.

Lemma protocol_conformant_witness :
  exists s es p, answer noJson noText [] false sampleStream (initState None []) [] = Some (s, es) /\
    acceptAll proto0 es = Some p /\ (claudeFinishEmitted s = true <-> stage p = Over) /\ claudeFinishEmitted s = true /\ length es = 21%nat.
Proof.
  destruct (answer noJson noText [] false sampleStream (initState None []) []) as [[s es]|] eqn:E; [|vm_compute in E; discriminate].
  destruct (protocol_conformant noJson noText [] false None [] sampleStream s es E) as (p & Ha & Hf).
  exists s, es, p. split; [reflexivity|]. split; [exact Ha|]. split; [exact Hf|]. revert E. vm_compute. intros [= <- <-]. by split.
Defined.

(** ** The text of an answer *)

Section Text.
Context (parseJson : text -> option json) (stringify : json -> text).
Implicit Types (s : State) (p : Proto).
Notation step := (step parseJson stringify [] false).
Notation answer := (answer parseJson stringify [] false).
Notation choiceStep := (choiceStep parseJson stringify [] false).

(** What an upstream sends as content. *)
Definition contentOf (k : Tick) : text := match k_chunk k ≫= choice0 with Some c => content (delta c) | None => [] end.

(** No tool call written as text begins in it. *)
Definition unmarked (t : text) : Prop := contains t (str "|DSML|") = false /\ noMarker t.

Lemma unmarked_sub a b c : unmarked (a ++ b ++ c) -> unmarked b.
Proof.
  intros [H1 H2]. split; [|by eapply noMarker_sub]. destruct (contains b _) eqn:E; [|done]. apply (contains_sub _ a b c) in E. congruence.
Qed.

(** A finish that is deferred comes with no content. *)
Definition finishApart (k : Tick) : Prop :=
  match k_chunk k with
  | Some ch => match choice0 ch with
               | Some c => finish_reason c = EmptyString \/ c_usage ch <> None \/ content (delta c) = []
               | None => True
               end
  | None => True
  end.

Definition noPlaceholder (k : Tick) : Prop := contains (contentOf k) NON_ANTHROPIC_THINKING_PLACEHOLDER = false.

(** Between two calls. *)
Record Ready s : Prop := {
  ready_plain : PlainText s;
  ready_new : messageStartSent s = false -> markdownBuffer s = [];
  ready_pending : forall c, pendingClaudeFinishChoice s = Some c -> content (delta c) = [];
  ready_thinking : requestedThinking s <> Some false;
}.

(** After a call in which [t] came in. *)
Definition Relayed (t : text) (s s' : State) : Prop :=
  if claudeFinishEmitted s' then textOf (results s') = markdownBuffer s ++ t
  else textOf (results s') ++ markdownBuffer s' = markdownBuffer s ++ t /\ Ready s'.

Lemma body_text now uuid ch fl c p s s' :
  messageStartSent s = true -> claudeFinishEmitted s = false -> Conf p s -> Ready s -> textOf (results s) = [] ->
  contains (content (delta c)) NON_ANTHROPIC_THINKING_PLACEHOLDER = false -> unmarked (markdownBuffer s ++ content (delta c)) ->
  (fl = false -> finish_reason c = EmptyString \/ (exists u, ch ≫= c_usage = Some u) \/ content (delta c) = []) ->
  choiceStep now uuid ch fl c s = Some s' -> Relayed (content (delta c)) s s'.
Proof.
  intros Hm Hf HC [R1 R2 R3 R4] Hr Hph Hun Hfl. unfold OpenaiToClaude.choiceStep. rewrite Hm. cbn [mbind option_bind].
  assert (Hs0 : sentText s = markdownBuffer s) by (unfold sentText; by rewrite Hr).
  pose proof (reasoningStep_text _ (delta c) _ HC) as T1. pose proof (reasoningStep_plain (delta c) s) as P1. pose proof (reasoningStep_frame (delta c) s) as F1.
  apply (reasoningStep_conf _ (delta c)) in HC. remember (reasoningStep (delta c) s) as s1 eqn:Hd. clear Hd.
  apply (PlainText_eq _ _ P1) in R1. rewrite Hs0 in T1.
  destruct (contentStep _ _ _ _ _ (delta c) s1) as [s2|] eqn:E; [|done]. cbn [mbind option_bind].
  assert (Hun1 : unmarked (markdownBuffer s1 ++ content (delta c))).
  { apply (unmarked_sub (textOf (results s1)) _ []). rewrite app_nil_r, app_assoc. unfold sentText in T1. by rewrite T1. }
  pose proof (contentStep_frame _ _ _ _ _ _ _ _ E) as F2. pose proof (contentStep_conf _ _ _ _ _ _ _ _ _ HC E) as HC2.
  destruct (contentStep_text _ _ _ _ _ _ R1 Hph (proj1 Hun1) (proj2 Hun1) E) as [T2 P2]. rewrite T1 in T2. clear E HC Hun1.
  destruct (toolSteps_text stringify _ (tool_calls (delta c)) _ HC2) as [T3 P3]. apply (toolSteps_conf stringify _ (tool_calls (delta c))) in HC2.
  pose proof (toolSteps_frame stringify (tool_calls (delta c)) s2) as F3. apply (PlainText_eq _ _ P3) in P2. rewrite T2 in T3.
  remember (foldl (toolStep stringify) s2 (tool_calls (delta c))) as s3 eqn:Hd. clear Hd T1 T2 P1 P3 R1.
  assert (F : frame s3 = frame s) by congruence. clear F1 F2 F3 s1 s2. injection F as F1 F2 F3 F4 _ _. rewrite Hm in F1. rewrite Hf in F2. rewrite F2. cbn [negb].
  assert (Hstay : forall o, (forall c', o = Some c' -> content (delta c') = []) -> Relayed (content (delta c)) s (s3 <| pendingClaudeFinishChoice := o |>)).
  { intros o Ho. unfold Relayed. cbn. rewrite F2. split; [exact T3|]. constructor; [by eapply PlainText_eq; [|exact P2]|by cbn; rewrite F1|exact Ho|cbn; by rewrite F4]. }
  destruct (finish_reason c) as [|b r] eqn:Efr.
  { cbn. intros [= <-]. assert (Hid : s3 = s3 <| pendingClaudeFinishChoice := pendingClaudeFinishChoice s3 |>) by by destruct s3.
    rewrite Hid. apply Hstay. rewrite F3. exact R3. }
  cbn [isEmpty negb andb].
  destruct (negb _ && negb fl) eqn:Ed.
  - intros [= <-]. apply Hstay. intros c' [= <-]. apply andb_true_iff in Ed as [Eu Efl]. apply negb_true_iff in Efl.
    destruct (Hfl Efl) as [?|[[u Hu]|?]]; [done|by rewrite Hu in Eu|done].
  - intros Hfin. pose proof (finishStep_frame _ _ _ _ _ _ Hfin) as G. injection G as _ G2 _ _ _ _. unfold Relayed. rewrite G2.
    rewrite <- T3. eapply finishStep_text; [exact HC2|exact P2|by rewrite F4|exact Hfin].
Qed.

Lemma choice_text now uuid ch fl c p s s' :
  Track p s -> results s = [] -> claudeFinishEmitted s = false -> Ready s ->
  contains (content (delta c)) NON_ANTHROPIC_THINKING_PLACEHOLDER = false -> unmarked (markdownBuffer s ++ content (delta c)) ->
  (fl = false -> finish_reason c = EmptyString \/ (exists u, ch ≫= c_usage = Some u) \/ content (delta c) = []) ->
  choiceStep now uuid ch fl c s = Some s' -> Relayed (content (delta c)) s s'.
Proof.
  intros HT Hr Hf HR Hph Hun Hfl. destruct (messageStartSent s) eqn:Hm; unfold Track in HT; rewrite Hm in HT.
  - rewrite Hf in HT. apply (body_text now uuid ch fl c p); try done; [by exists p; rewrite Hr|by rewrite Hr].
  - destruct HT as (-> & HF & _). intros H. destruct ch as [ch|]; [|unfold OpenaiToClaude.choiceStep in H; by rewrite Hm in H].
    pose proof HR as [R1 R2 R3 R4]. specialize (R2 Hm).
    assert (HR1 : Ready (startMessage now ch s)).
    { constructor; [by destruct R1 as (_ & _ & _ & ? & ?); split_and!|done|exact R3|exact R4]. }
    assert (Hs1 : messageStartSent (startMessage now ch s) = true) by done.
    assert (Hs2 : claudeFinishEmitted (startMessage now ch s) = false) by exact Hf.
    assert (Hs3 : textOf (results (startMessage now ch s)) = []) by (cbn; by rewrite Hr).
    assert (Hs4 : markdownBuffer (startMessage now ch s) = []) by done.
    pose proof (startMessage_conf now ch s HF Hr) as HC.
    unfold OpenaiToClaude.choiceStep in H. rewrite Hm in H. cbn [mbind option_bind] in H. unfold Relayed. rewrite R2 in *.
    remember (startMessage now ch s) as s1 eqn:Hd. clear Hd. rewrite <- Hs4.
    apply (body_text now uuid (Some ch) fl c proto0 s1); try done; [by rewrite Hs4|]. unfold OpenaiToClaude.choiceStep. rewrite Hs1. exact H.
Qed.

Lemma step_text p k s s' :
  Track p s -> claudeFinishEmitted s = false -> Ready s -> finishApart k -> noPlaceholder k -> unmarked (markdownBuffer s ++ contentOf k) ->
  step k s = Some s' -> Relayed (contentOf k) s s'.
Proof.
  intros HT Hf HR Ha Hp Hun. unfold OpenaiToClaude.step, openaiToClaudeResponse. cbv zeta.
  assert (H : exists u, match k_chunk k with Some c => trackUsageFromChunk c (s <| results := [] |>) | None => s <| results := [] |> end = s <| results := [] |> <| usage := u |>).
  { destruct (k_chunk k) as [c|]; [unfold trackUsageFromChunk; destruct (c_usage c); eauto|]; exists (usage s); by destruct s. }
  destruct H as [u ->]. apply (Track_usage _ _ u) in HT.
  assert (HR1 : Ready (s <| results := [] |> <| usage := u |>)) by (destruct HR; by constructor).
  change (markdownBuffer s) with (markdownBuffer (s <| results := [] |> <| usage := u |>)) in Hun.
  assert (Hw : forall s1, Relayed (contentOf k) (s <| results := [] |> <| usage := u |>) s1 -> Relayed (contentOf k) s s1) by done.
  intros H. apply Hw. clear Hw HR. revert H.
  assert (Hr : results (s <| results := [] |> <| usage := u |>) = []) by done.
  assert (Hf1 : claudeFinishEmitted (s <| results := [] |> <| usage := u |>) = false) by exact Hf.
  remember (s <| results := [] |> <| usage := u |>) as s1 eqn:Hd. clear Hd Hf s u.
  unfold contentOf, noPlaceholder, finishApart in *. unfold contentOf in Hp. destruct (k_chunk k ≫= choice0) as [c|] eqn:Ec.
  - destruct (k_chunk k) as [ch|] eqn:Ech; [|done]. cbn in Ec. rewrite Ec in Ha. apply (choice_text _ _ _ _ _ p); try done.
    intros _. destruct Ha as [?|[Hu|?]]; [by left| |by right; right]. right. left. cbn. destruct (c_usage ch); [by eauto|done].
  - rewrite app_nil_r in Hun. destruct (pendingClaudeFinishChoice s1) as [c|] eqn:Ep.
    + pose proof (ready_pending _ HR1 _ Ep) as Hc. intros H. rewrite <- Hc.
      change (Relayed (content (delta c)) (s1 <| pendingClaudeFinishChoice := None |>) s').
      eapply (choice_text _ _ _ _ _ p); [..|exact H]; try done.
      * revert HT. unfold Track. cbn. destruct (messageStartSent s1); [|intros (? & (? & ? & ? & ?) & ?); congruence].
        rewrite Hf1. intros HT. by eapply Good_core; [|exact HT].
      * destruct HR1. by constructor.
      * by rewrite Hc.
      * by rewrite Hc, app_nil_r.
    + intros [= <-]. unfold Relayed. rewrite Hf1. split; [by rewrite Hr, app_nil_r|done].
Qed.

Lemma answer_text ks s sent s' es p before :
  acceptAll proto0 sent = Some p -> Track p s -> claudeFinishEmitted s = false -> Ready s -> textOf sent ++ markdownBuffer s = before ->
  Forall finishApart ks -> Forall noPlaceholder ks -> unmarked (before ++ concat (map contentOf ks)) ->
  answer ks s sent = Some (s', es) -> claudeFinishEmitted s' = false ->
  (exists p', acceptAll proto0 es = Some p' /\ Track p' s') /\ Ready s' /\ textOf es ++ markdownBuffer s' = before ++ concat (map contentOf ks).
Proof.
  revert s sent p before. induction ks as [|k ks IH]; intros s sent p before Ha HT Hf HR Hb Hfa Hph Hun; cbn [OpenaiToClaude.answer map concat].
  { intros [= <- <-] _. rewrite app_nil_r. eauto. }
  rewrite Hf. destruct (step k s) as [s1|] eqn:E; [|done]. cbn [mbind option_bind]. intros H Hf'.
  destruct (step_track _ _ _ _ _ _ _ _ HT Hf E) as (p1 & Ha1 & HT1). apply Forall_cons in Hfa as [Hfa1 Hfa]. apply Forall_cons in Hph as [Hph1 Hph].
  cbn [map concat] in Hun.
  assert (HRel : Relayed (contentOf k) s s1).
  { eapply step_text; try done. apply (unmarked_sub (textOf sent) _ (concat (map contentOf ks))). subst before. by rewrite <- !app_assoc in *. }
  unfold Relayed in HRel. destruct (claudeFinishEmitted s1) eqn:Ef1.
  { destruct ks as [|k' ks']; cbn [OpenaiToClaude.answer] in H; [|rewrite Ef1 in H]; injection H as <- _; congruence. }
  destruct HRel as [Ht HR1]. rewrite app_assoc in *. eapply (IH s1 (sent ++ results s1) p1); try done; [by rewrite acceptAll_app, Ha|].
  rewrite textOf_app, <- app_assoc, Ht, <- Hb. by rewrite app_assoc.
Qed.

End Text.

Lemma answer_preserves_text (parseJson : text -> option json) (stringify : json -> text) (thinking : option bool) (names : jsmap string string)
    (ks : list Tick) (k : Tick) (s0 s : State) (es0 es : list Event) :
  thinking <> Some false ->
  Forall finishApart (ks ++ [k]) -> Forall noPlaceholder (ks ++ [k]) -> unmarked (concat (map contentOf (ks ++ [k]))) ->
  answer parseJson stringify [] false ks (initState thinking names) [] = Some (s0, es0) -> claudeFinishEmitted s0 = false ->
  answer parseJson stringify [] false (ks ++ [k]) (initState thinking names) [] = Some (s, es) -> claudeFinishEmitted s = true ->
  textOf es = concat (map contentOf (ks ++ [k])).
Proof.
  intros Hth Hfa Hph Hun H0 Hf0. rewrite answer_app, H0. cbn [mbind option_bind OpenaiToClaude.answer]. rewrite Hf0.
  apply Forall_app in Hfa as [Hfa Hfk]. apply Forall_app in Hph as [Hph Hpk]. apply Forall_cons in Hfk as [Hfk _]. apply Forall_cons in Hpk as [Hpk _].
  rewrite map_app, concat_app in Hun |- *. cbn [map concat] in *. rewrite app_nil_r in *.
  destruct (answer_text parseJson stringify ks (initState thinking names) [] s0 es0 proto0 []) as ((p & Ha & HT) & HR & Ht);
    [done|apply Track_init|done|by constructor|done|exact Hfa|exact Hph|by apply (unmarked_sub [] _ (contentOf k))|exact H0|exact Hf0|].
  destruct (OpenaiToClaude.step _ _ _ _ k s0) as [s1|] eqn:E; [|done]. cbn [mbind option_bind]. intros [= <- <-] Hf.
  assert (HRel : Relayed (contentOf k) s0 s1).
  { eapply step_text; try done. apply (unmarked_sub (textOf es0) _ []). rewrite app_nil_r, app_assoc. by rewrite Ht. }
  unfold Relayed in HRel. rewrite Hf in HRel. rewrite textOf_app, HRel, app_assoc. by rewrite Ht.
Qed.

(** C4. No text is lost or changed, however it is cut into chunks and whatever
    reasoning and tool calls come between: when the finish has been sent, all the text
    the client got is all the content the upstream sent.  (The strippers are off, the
    client did not decline reasoning, and the content holds neither the placeholder nor
    the beginning of a tool call written as text; a deferred finish brings no content
    of its own.) *)
Theorem text_preserved (parseJson : text -> option json) (stringify : json -> text) (thinking : option bool) (names : jsmap string string)
    (ks : list Tick) (k : Tick) (s0 s : State) (es0 es : list Event) :
  thinking <> Some false ->
  Forall finishApart (ks ++ [k]) -> Forall noPlaceholder (ks ++ [k]) -> unmarked (concat (map contentOf (ks ++ [k]))) ->
  answer parseJson stringify [] false ks (initState thinking names) [] = Some (s0, es0) -> claudeFinishEmitted s0 = false ->
  answer parseJson stringify [] false (ks ++ [k]) (initState thinking names) [] = Some (s, es) -> claudeFinishEmitted s = true ->
  textOf es = concat (map contentOf (ks ++ [k])).
Proof. apply answer_preserves_text. Qed.

Lemma text_preserved_witness :
  exists s0 es0 s es, answer noJson noText [] false (take 8 sampleStream) (initState None []) [] = Some (s0, es0) /\
    answer noJson noText [] false (take 8 sampleStream ++ [chunkOf (said "!") "stop" (Some someUsage)]) (initState None []) [] = Some (s, es) /\
    textOf es = str "See `x` **bold**!".
Proof.
  destruct (answer noJson noText [] false (take 8 sampleStream) (initState None []) []) as [[s0 es0]|] eqn:E0; [|vm_compute in E0; discriminate].
  destruct (answer noJson noText [] false (take 8 sampleStream ++ [chunkOf (said "!") "stop" (Some someUsage)]) (initState None []) []) as [[s es]|] eqn:E;
    [|vm_compute in E; discriminate].
  exists s0, es0, s, es. split; [reflexivity|]. split; [reflexivity|].
  change (str "See `x` **bold**!") with (concat (map contentOf (take 8 sampleStream ++ [chunkOf (said "!") "stop" (Some someUsage)]))).
  apply (text_preserved noJson noText None [] (take 8 sampleStream) (chunkOf (said "!") "stop" (Some someUsage)) s0 s es0 es).
  - discriminate.
  - repeat first [apply Forall_nil; exact I | apply Forall_cons; split; [first [left; reflexivity | right; left; discriminate]|]].
  - repeat first [apply Forall_nil; exact I | apply Forall_cons; split; [vm_compute; reflexivity|]].
  - vm_compute. by split_and!.
  - exact E0.
  - revert E0. vm_compute. by intros [= <- _].
  - exact E.
  - revert E. vm_compute. by intros [= <- _].
Defined.

(** ** The reasoning of an answer *)

Section Reasoning.
Context (parseJson : text -> option json) (stringify : json -> text) (directive : text) (strip : bool).
Implicit Types s : State.
Notation step := (step parseJson stringify directive strip).
Notation answer := (answer parseJson stringify directive strip).
Notation choiceStep := (choiceStep parseJson stringify directive strip).

(** A field that a provider uses for reasoning: a text, or nothing. *)
Definition saidText (v : option json) : text := match v with Some (VStr t) => str t | _ => [] end.
Definition textual (v : option json) : Prop := match v with None | Some VNull | Some (VStr _) => True | _ => False end.

Definition firstSaid (t u : text) : text := match t with [] => u | _ => t end.

(** The reasoning a delta brings: the first of the two fields that says something, else the
    texts of the details. *)
Definition detailSaid (j : json) : text := firstSaid (saidText (propOf "text" j)) (saidText (propOf "content" j)).
Definition reasoningSaid (d : Delta) : text :=
  firstSaid (saidText (reasoning_content d)) (firstSaid (saidText (reasoning d)) (concat (map detailSaid (orElse (reasoning_details d) [])))).

(** The fields are texts, the details objects of texts, and the whole is no placeholder. *)
Definition plainReasoning (d : Delta) : Prop :=
  textual (reasoning_content d) /\ textual (reasoning d) /\
  Forall (fun j => (exists fs, j = VObj fs) /\ textual (propOf "text" j) /\ textual (propOf "content" j)) (orElse (reasoning_details d) []) /\
  trimText (reasoningSaid d) <> NON_ANTHROPIC_THINKING_PLACEHOLDER.

Lemma textual_or a b : textual a -> textual b ->
  textual (orJson a b) /\ saidText (orJson a b) = firstSaid (saidText a) (saidText b).
Proof.
  intros Ha Hb. unfold orJson. destruct a as [[]|]; try done. unfold truthy. destruct (isEmpty s) eqn:E; [|by destruct s].
  destruct s; [|done]. by split.
Qed.

Lemma saidText_truthy v : textual v -> (truthy v = true /\ exists t, v = Some (VStr t) /\ str t <> []) \/ (truthy v = false /\ saidText v = []).
Proof. intros H. destruct v as [[]|]; try done; try by right. destruct s; [by right|left]. split; [done|by eexists]. Qed.

Lemma detailTexts_said ds :
  Forall (fun j => (exists fs, j = VObj fs) /\ textual (propOf "text" j) /\ textual (propOf "content" j)) ds ->
  concat (detailTexts ds) = concat (map detailSaid ds).
Proof.
  induction 1 as [|j ds ([fs ->] & Ht & Hc) _ IH]; [done|]. cbn [map concat]. rewrite <- IH. unfold detailSaid, detailTexts. cbn [omap list_omap].
  destruct (textual_or _ _ Ht Hc) as [Ho <-]. destruct (orJson _ _) as [[]|]; try done. by destruct s.
Qed.

Lemma reasoningOf_said d : plainReasoning d -> reasoningOf d = reasoningSaid d.
Proof.
  intros (H1 & H2 & H3 & H4). unfold reasoningOf. set (t := if truthy _ then _ else _). assert (Ht : t = reasoningSaid d).
  { subst t. unfold reasoningSaid. destruct (textual_or _ _ H1 H2) as [Ho Hs].
    assert (Hf : forall x y z, firstSaid x (firstSaid y z) = firstSaid (firstSaid x y) z) by by intros [].
    rewrite Hf, <- Hs. destruct (saidText_truthy _ Ho) as [(-> & t & -> & Ht)|[-> ->]]; [cbn; by destruct (str t)|].
    cbn [firstSaid]. rewrite <- detailTexts_said by done. by destruct (reasoning_details d). }
  rewrite Ht. unfold isInternalReasoningPlaceholder. by rewrite bool_decide_false.
Qed.

Definition thinks s : text := thinkingOf (results s).

Lemma push_thinks e s : thinkingOf [e] = [] -> thinks (push e s) = thinks s.
Proof. intros H. unfold thinks. etransitivity; [exact (thinkingOf_app (results s) [e])|]. by rewrite H, app_nil_r. Qed.

Lemma thinks_stopThinking s : thinks (stopThinkingBlock s) = thinks s.
Proof. unfold stopThinkingBlock. destruct (thinkingBlockStarted s); [|done]. exact (push_thinks (content_block_stop (thinkingBlockIndex s)) s eq_refl). Qed.

Lemma thinks_openText s : thinks (if textBlockStarted s then s else startText s) = thinks s.
Proof. destruct (textBlockStarted s); [done|]. exact (push_thinks (content_block_start (nextBlockIndex s) text_block) s eq_refl). Qed.

Lemma thinks_pushText t s : thinks (pushText t s) = thinks s.
Proof. by apply push_thinks. Qed.

Lemma thinks_stopText s : thinks (stopTextBlock s) = thinks s.
Proof.
  unfold stopTextBlock. assert (H : thinks (flushMarkdownBuffer s) = thinks s).
  { unfold flushMarkdownBuffer. destruct (markdownBuffer s) as [|c b]; [done|]. cbv zeta. set (s1 := s <| markdown := noMd |> <| markdownBuffer := [] |>).
    change (thinks s) with (thinks s1). clearbody s1. rewrite <- (thinks_openText s1). generalize (if textBlockStarted s1 then s1 else startText s1).
    intros s2. destruct (textBlockClosed s2); [done|]. apply thinks_pushText. }
  rewrite <- H. generalize (flushMarkdownBuffer s). intros s1. cbv zeta. case_if; [done|].
  exact (push_thinks (content_block_stop (textBlockIndex s1)) s1 eq_refl).
Qed.

Lemma thinks_emitText t s : thinks (emitText t s) = thinks s.
Proof. unfold emitText. destruct t; [done|]. by rewrite thinks_pushText, thinks_openText. Qed.

Lemma thinks_reasoning d s : requestedThinking s <> Some false -> thinks (reasoningStep d s) = thinks s ++ reasoningOf d.
Proof.
  intros Hr. unfold reasoningStep. destruct (reasoningOf d) as [|c t]; [by rewrite app_nil_r|]. rewrite bool_decide_false by done. cbv zeta.
  rewrite <- (thinks_stopText s). generalize (stopTextBlock s). clear Hr s. intros s.
  assert (H : thinks (if thinkingBlockStarted s then s else startThinking s) = thinks s).
  { destruct (thinkingBlockStarted s); [done|]. exact (push_thinks (content_block_start (nextBlockIndex s) thinking_block) s eq_refl). }
  rewrite <- H. generalize (if thinkingBlockStarted s then s else startThinking s). clear H s. intros s.
  etransitivity; [exact (thinkingOf_app (results s) [content_block_delta (thinkingBlockIndex s) (thinking_delta (c :: t))])|]. cbn. by rewrite app_nil_r.
Qed.

Lemma thinks_content now uuid d s s' : contentStep parseJson directive strip now uuid d s = Some s' -> thinks s' = thinks s.
Proof.
  unfold contentStep. destruct (stripInternalReasoningPlaceholder (content d)) as [|c0 t0]; [by intros [= <-]|].
  destruct (scrub directive strip (c0 :: t0) s) as [[s1 scrubbed]|] eqn:E; [|done]. cbn [mbind option_bind]. apply scrub_same in E as [_ E].
  assert (H : thinks (match scrubbed with [] => s1 | _ => stopThinkingBlock s1 end) = thinks s).
  { assert (H : thinks s1 = thinks s) by (unfold thinks; by rewrite E). destruct scrubbed; [done|]. by rewrite thinks_stopThinking. }
  revert H. generalize (match scrubbed with [] => s1 | _ => stopThinkingBlock s1 end). clear E s1. intros s2 H2. cbv zeta.
  destruct (takeDsml uuid scrubbed (s2 <| markdownBuffer := [] |>)) as [[s3 t] dcalls] eqn:E.
  assert (H3 : thinks s3 = thinks s) by (rewrite <- H2; revert E; unfold takeDsml; cbv zeta; by destruct (hasDsmlToolCalls _); intros [= <- _ _]).
  intros [= <-]. rewrite thinks_emitText. rewrite <- H3. cbn. destruct (toolCalls _ ++ dcalls); [done|].
  exact (thinks_stopText (s3 <| xmlInvokeBuffer := _ |>)).
Qed.

Lemma thinks_tool s tc : thinks (toolStep stringify s tc) = thinks s.
Proof.
  unfold toolStep. set (i := orElse (td_index tc) 0).
  assert (H1 : thinks (registerTool i tc s) = thinks s).
  { unfold registerTool. case_if; [|done]. cbv zeta. rewrite <- (thinks_stopThinking s), <- (thinks_stopText (stopThinkingBlock s)). by remember (stopTextBlock _) as y. }
  rewrite <- H1. generalize (registerTool i tc s). clear H1 s. intros s.
  assert (H2 : thinks (announceTool i tc s) = thinks s).
  { unfold announceTool. destruct (mget i (toolInfos s)) as [t|]; [|done]. cbv zeta. case_if; [|done]. exact (push_thinks (startBlock _) (setTool i _ s) eq_refl). }
  rewrite <- H2. generalize (announceTool i tc s). clear H2 s. intros s. unfold argumentsStep. case_if; [|done].
  destruct (mget i (toolInfos s)) as [t|]; [|done]. cbv zeta. case_if; [done|]. exact (push_thinks (content_block_delta _ (input_json_delta _)) (setTool i _ s) eq_refl).
Qed.

Lemma thinks_tools tcs s : thinks (foldl (toolStep stringify) s tcs) = thinks s.
Proof. revert s. induction tcs as [|tc tcs IH]; intros s; [done|]. cbn. by rewrite IH, thinks_tool. Qed.

Lemma thinks_closeTools s : thinks (closeTools parseJson stringify s) = thinks s.
Proof.
  etransitivity; [exact (thinkingOf_app (results s) _)|]. rewrite <- (app_nil_r (thinks s)). unfold thinks. f_equal.
  induction (toolInfos s) as [|[k t] l IH]; [done|]. cbn [map concat]. rewrite thinkingOf_app. rewrite IH, app_nil_r.
  unfold closeTool. by destruct (startEmitted _), (shimmed _).
Qed.

Lemma thinks_finish reason s s' : finishStep parseJson stringify directive reason s = Some s' -> thinks s' = thinks s.
Proof.
  unfold finishStep. assert (H : thinks (finishBlocks parseJson stringify directive s) = thinks s).
  { unfold finishBlocks. rewrite thinks_closeTools, thinks_stopText.
    assert (H : thinks (stopThinkingBlock (s <| claudeFinishEmitted := true |>)) = thinks s) by exact (thinks_stopThinking (s <| claudeFinishEmitted := true |>)).
    rewrite <- H. generalize (stopThinkingBlock (s <| claudeFinishEmitted := true |>)). clear H s. intros s.
    assert (H : thinks (emitPreamble directive s) = thinks s).
    { unfold emitPreamble. destruct (flushStrippers directive s) as [s1 t] eqn:E. assert (H : thinks s1 = thinks s).
      { revert E. unfold flushStrippers. destruct (directiveStripper s) as [d|]; [destruct (flushStripper directive d)|]; cbn;
          (destruct (systemPreambleStripper s) as [q|]; [destruct (flushPreamble q)|]; cbn; by intros [= <- <-]). }
      destruct t as [|c t]; [done|]. rewrite thinks_pushText. case_if; [|done]. rewrite <- H.
      exact (push_thinks (content_block_start (nextBlockIndex s1) text_block) s1 eq_refl). }
    rewrite <- H. generalize (emitPreamble directive s). clear H s. intros s. unfold emitReasoning. destruct (reasoningAccum s) as [|c t]; [done|]. case_if; [|done].
    rewrite thinks_pushText. exact (push_thinks (content_block_start (nextBlockIndex s) text_block) s eq_refl). }
  rewrite <- H. generalize (finishBlocks parseJson stringify directive s). clear H s. intros s.
  destruct (emitXmlCalls _ s) as [s1|] eqn:E; [|done]. cbn [mbind option_bind]. intros [= <-].
  assert (H : thinks s1 = thinks s).
  { revert E. generalize (pendingXmlToolCalls s). intros calls. revert s. induction calls as [|tc calls IH]; intros s; cbn [emitXmlCalls]; [by intros [= <-]|].
    destruct (x_name tc); try done. intros E. rewrite (IH _ E), push_thinks by done. exact (push_thinks (content_block_start (nextBlockIndex s) (tool_use _ _ _)) s eq_refl). }
  by rewrite !push_thinks.
Qed.

Lemma thinks_startMessage now ch s : thinks (startMessage now ch s) = thinks s.
Proof. unfold startMessage. cbv zeta. by rewrite push_thinks. Qed.

Lemma choice_thinks now uuid ch fl c s s' : requestedThinking s <> Some false ->
  (fl = false -> finish_reason c = EmptyString \/ (exists u, ch ≫= c_usage = Some u) \/ reasoningOf (delta c) = []) ->
  (forall c', pendingClaudeFinishChoice s = Some c' -> reasoningOf (delta c') = []) ->
  choiceStep now uuid ch fl c s = Some s' ->
  thinks s' = thinks s ++ reasoningOf (delta c) /\ requestedThinking s' = requestedThinking s /\
  (forall c', pendingClaudeFinishChoice s' = Some c' -> reasoningOf (delta c') = []).
Proof.
  intros Hr Hfl Hp. unfold OpenaiToClaude.choiceStep. destruct (if messageStartSent s then Some s else _) as [s0|] eqn:E0; [|done]. cbn [mbind option_bind].
  assert (H0 : thinks s0 = thinks s /\ requestedThinking s0 = requestedThinking s /\ pendingClaudeFinishChoice s0 = pendingClaudeFinishChoice s).
  { destruct (messageStartSent s); [by injection E0 as <-|]. destruct ch as [ch|]; [|done]. injection E0 as <-. split_and!; [apply thinks_startMessage|reflexivity|reflexivity]. }
  destruct H0 as (<- & H1 & H0). rewrite <- H1 in *. rewrite <- H0 in Hp. clear E0 H0 H1 s.
  rewrite <- thinks_reasoning by done. pose proof (reasoningStep_frame (delta c) s0) as F1.
  generalize dependent (reasoningStep (delta c) s0). intros s1 F1.
  destruct (contentStep _ _ _ _ _ (delta c) s1) as [s2|] eqn:E; [|done]. cbn [mbind option_bind].
  pose proof (contentStep_frame _ _ _ _ _ _ _ _ E) as F2. apply thinks_content in E as <-.
  rewrite <- (thinks_tools (tool_calls (delta c)) s2). pose proof (toolSteps_frame stringify (tool_calls (delta c)) s2) as F3.
  generalize dependent (foldl (toolStep stringify) s2 (tool_calls (delta c))). intros s3 F3.
  assert (F : frame s3 = frame s0) by congruence. injection F as _ F F4 F5 _ _. rewrite <- F5. rewrite <- F4 in Hp. clear F F1 F2 F3 F4 F5 s0 s1 s2 Hr.
  destruct (finish_reason c) as [|b r] eqn:Efr; [by intros [= <-]|]. cbn [isEmpty negb andb].
  destruct (negb (claudeFinishEmitted s3)); [|by intros [= <-]].
  destruct (negb _ && negb fl) eqn:Ed.
  - intros [= <-]. split_and!; [done|done|]. intros c' [= <-]. apply andb_true_iff in Ed as [Eu Efl]. apply negb_true_iff in Efl.
    destruct (Hfl Efl) as [?|[[u Hu]|?]]; [done|by rewrite Hu in Eu|done].
  - intros Hfin. pose proof (finishStep_frame _ _ _ _ _ _ Hfin) as G. injection G as _ _ G1 G2 _ _. apply thinks_finish in Hfin. by rewrite G1, G2.
Qed.

(** What a chunk brings as reasoning. *)
Definition reasonedIn (k : Tick) : text := match k_chunk k ≫= choice0 with Some c => reasoningSaid (delta c) | None => [] end.
Definition reasonsPlainly (k : Tick) : Prop := match k_chunk k ≫= choice0 with Some c => plainReasoning (delta c) | None => True end.

(** A chunk that brings the finish reason without the usage brings nothing else. *)
Definition finishAlone (k : Tick) : Prop :=
  match k_chunk k with
  | Some ch => match choice0 ch with
               | Some c => finish_reason c = EmptyString \/ c_usage ch <> None \/
                   (content (delta c) = [] /\ reasoningSaid (delta c) = [] /\ tool_calls (delta c) = [])
               | None => True
               end
  | None => True
  end.

(** Between two calls. *)
Definition Thinking s : Prop :=
  requestedThinking s <> Some false /\ forall c, pendingClaudeFinishChoice s = Some c -> reasoningOf (delta c) = [].

Lemma step_thinks k s s' : Thinking s -> finishAlone k -> reasonsPlainly k -> step k s = Some s' ->
  Thinking s' /\ thinkingOf (results s') = reasonedIn k.
Proof.
  intros [Hr Hp] Ha Hk. unfold OpenaiToClaude.step, openaiToClaudeResponse. cbv zeta.
  assert (H : exists u, match k_chunk k with Some c => trackUsageFromChunk c (s <| results := [] |>) | None => s <| results := [] |> end = s <| results := [] |> <| usage := u |>).
  { destruct (k_chunk k) as [c|]; [unfold trackUsageFromChunk; destruct (c_usage c); eauto|]; exists (usage s); by destruct s. }
  destruct H as [u ->]. set (s1 := s <| results := [] |> <| usage := u |>).
  change (requestedThinking s) with (requestedThinking s1) in Hr. change (pendingClaudeFinishChoice s) with (pendingClaudeFinishChoice s1) in Hp.
  assert (Ht : thinks s1 = []) by done. clearbody s1. clear s. unfold reasonedIn, reasonsPlainly, finishAlone in *.
  destruct (k_chunk k ≫= choice0) as [c|] eqn:Ec.
  - destruct (k_chunk k) as [ch|] eqn:Ech; [|done]. cbn in Ec. rewrite Ec in Ha. rewrite <- (reasoningOf_said _ Hk) in *. intros H.
    assert (Hd : false = false -> finish_reason c = EmptyString \/ (exists u, Some ch ≫= c_usage = Some u) \/ reasoningOf (delta c) = []).
    { intros _. cbn. destruct Ha as [?|[?|(_ & ? & _)]]; [by left|right; left; destruct (c_usage ch); [by eexists|done]|by right; right]. }
    destruct (choice_thinks _ _ _ _ _ _ _ Hr Hd Hp H) as (H1 & H2 & H3). rewrite Ht in H1. split; [split; [by rewrite H2|done]|done].
  - destruct (pendingClaudeFinishChoice s1) as [c|] eqn:Ep.
    + set (sp := s1 <| pendingClaudeFinishChoice := None |>). change (thinks s1) with (thinks sp) in Ht. intros H.
      destruct (choice_thinks (k_now k) (k_uuid k) (k_chunk k) true c sp s') as (H1 & H2 & H3); [exact Hr|done|done|exact H|].
      rewrite (Hp _ eq_refl), app_nil_r in H1. split; [split; [by rewrite H2|done]|]. etransitivity; [exact H1|exact Ht].
    + intros [= <-]. split; [split; [done|by rewrite Ep]|done].
Qed.

Lemma answer_thinks ks s sent s' es : Thinking s -> Forall finishAlone ks -> Forall reasonsPlainly ks ->
  answer ks s sent = Some (s', es) -> claudeFinishEmitted s' = false -> Thinking s' /\ thinkingOf es = thinkingOf sent ++ concat (map reasonedIn ks).
Proof.
  revert s sent. induction ks as [|k ks IH]; intros s sent HT Hk Hp; cbn [OpenaiToClaude.answer map concat].
  { intros [= <- <-]. by rewrite app_nil_r. }
  destruct (claudeFinishEmitted s) eqn:Ef; [intros [= <- <-]; congruence|].
  apply Forall_cons in Hk as [Hk1 Hk], Hp as [Hp1 Hp]. destruct (step k s) as [s1|] eqn:E; [|done]. cbn [mbind option_bind].
  destruct (step_thinks _ _ _ HT Hk1 Hp1 E) as [HT1 H1]. intros H Hf. destruct (IH _ _ HT1 Hk Hp H Hf) as [H2 H3]. split; [done|].
  by rewrite H3, thinkingOf_app, H1, app_assoc.
Qed.

(** All the reasoning that the client gets is all that the upstream sent. *)
Lemma answer_preserves_reasoning (thinking : option bool) (names : jsmap string string) (ks : list Tick) (k : Tick) (s0 s : State) (es0 es : list Event) :
  thinking <> Some false -> Forall finishAlone (ks ++ [k]) -> Forall reasonsPlainly (ks ++ [k]) ->
  answer ks (initState thinking names) [] = Some (s0, es0) -> claudeFinishEmitted s0 = false ->
  answer (ks ++ [k]) (initState thinking names) [] = Some (s, es) ->
  thinkingOf es = concat (map reasonedIn (ks ++ [k])).
Proof.
  intros Hth Hk Hp H0 Hf0. rewrite answer_app, H0. cbn [mbind option_bind OpenaiToClaude.answer]. rewrite Hf0.
  apply Forall_app in Hk as [Hk Hk1], Hp as [Hp Hp1]. apply Forall_cons in Hk1 as [Hk1 _], Hp1 as [Hp1 _].
  assert (Hi : Thinking (initState thinking names)) by by split.
  destruct (answer_thinks ks _ [] _ _ Hi Hk Hp H0 Hf0) as [HT Ht].
  destruct (step k s0) as [s1|] eqn:E; [|done]. cbn [mbind option_bind]. intros [= <- <-].
  destruct (step_thinks _ _ _ HT Hk1 Hp1 E) as [_ H1]. rewrite thinkingOf_app, Ht, H1, map_app, concat_app. cbn. by rewrite app_nil_r.
Qed.
End Reasoning.

(** ** Every answer is finished *)

Section Finishing.
Context (parseJson : text -> option json) (stringify : json -> text) (directive : text).
Implicit Types (s : State) (p : Proto).
Notation step := (step parseJson stringify directive false).
Notation answer := (answer parseJson stringify directive false).
Notation choiceStep := (choiceStep parseJson stringify directive false).
Notation contentStep := (contentStep parseJson directive false).

(** The choice that a call takes up: the chunk's, or the one whose finish was deferred. *)
Definition taken (k : Tick) s : option Choice :=
  match k_chunk k ≫= choice0 with Some c => Some c | None => pendingClaudeFinishChoice s end.

(** The state in which it does. *)
Definition entered (k : Tick) s : State :=
  let s := s <| results := [] |> in
  let s := match k_chunk k with Some ch => trackUsageFromChunk ch s | None => s end in
  let s := match k_chunk k ≫= choice0 with Some _ => s | None => s <| pendingClaudeFinishChoice := None |> end in
  match k_chunk k with Some ch => if messageStartSent s then s else startMessage (k_now k) ch s | None => s end.

(** The calls written in the text that have been found when the call comes to the finish. *)
Definition found (k : Tick) s : list XmlToolCall :=
  match taken k s with
  | Some c => match contentStep (k_now k) (k_uuid k) (delta c) (reasoningStep (delta c) (entered k s)) with
              | Some s2 => pendingXmlToolCalls s2
              | None => []
              end
  | None => []
  end.

Definition unnamed (tc : XmlToolCall) : Prop := forall n, x_name tc <> VStr n.

(** Restoring the name of a call that was found in the text throws: it is no text. *)
Definition nameThrows (k : Tick) s : Prop :=
  step k s = None /\ exists c tc, taken k s = Some c /\ finish_reason c <> EmptyString /\ tc ∈ found k s /\ unnamed tc.

(** Some call of the stream throws so. *)
Definition streamThrows (thinking : option bool) (names : jsmap string string) (ks : list Tick) : Prop :=
  exists ks1 k ks2 s1 es1, ks = ks1 ++ k :: ks2 /\ answer ks1 (initState thinking names) [] = Some (s1, es1) /\ nameThrows k s1.

Record Calm s : Prop := {
  calm_system : systemPreambleStripper s = None;
  calm_pending : forall c, pendingClaudeFinishChoice s = Some c -> finish_reason c <> EmptyString;
}.

(** The part of it that is about the calls found in the text. *)
Definition calls s := (pendingXmlToolCalls s, systemPreambleStripper s).

Lemma plain_calls s s' : plain s' = plain s -> calls s' = calls s.
Proof. unfold plain, calls. by intros [= _ _ -> _ ->]. Qed.

Lemma scrub_total t s : systemPreambleStripper s = None -> exists s' t', scrub directive false t s = Some (s', t') /\ calls s' = calls s.
Proof.
  intros Hs. unfold scrub. set (s1 := match directive with [] => s | _ => _ end).
  assert (H1 : calls s1 = calls s) by (subst s1; by destruct directive). clearbody s1.
  destruct (match directiveStripper s1 with Some d => _ | None => _ end) as [s2 t2] eqn:E.
  assert (H2 : calls s2 = calls s) by (destruct (directiveStripper s1); [destruct (pushStripper _ _ _)|]; by injection E as <- <-).
  assert (H3 : systemPreambleStripper s2 = None) by (injection H2 as _ ->; exact Hs). rewrite H3. eauto.
Qed.

Lemma contentStep_total now uuid d s : systemPreambleStripper s = None ->
  exists s', contentStep now uuid d s = Some s' /\ systemPreambleStripper s' = None.
Proof.
  intros Hs. unfold OpenaiToClaude.contentStep. destruct (stripInternalReasoningPlaceholder (content d)) as [|c0 t0]; [by eauto|].
  destruct (scrub_total (c0 :: t0) s Hs) as (s1 & scrubbed & -> & E1). cbn [mbind option_bind].
  assert (E2 : calls (match scrubbed with [] => s1 | _ => stopThinkingBlock s1 end) = calls s).
  { rewrite <- E1. destruct scrubbed; [done|]. apply plain_calls, stopThinkingBlock_plain. }
  revert E2. generalize (match scrubbed with [] => s1 | _ => stopThinkingBlock s1 end). clear E1 s1. intros s2 E2. cbv zeta.
  destruct (takeDsml uuid scrubbed (s2 <| markdownBuffer := [] |>)) as [[s3 t] dcalls] eqn:E.
  assert (E3 : systemPreambleStripper s3 = None).
  { injection E2 as _ E2. rewrite Hs in E2. revert E. unfold takeDsml. cbv zeta. by destruct (hasDsmlToolCalls _); intros [= <- _ _]. }
  clear E E2. set (r := extractXmlInvokeBlocks _ _ _ _) in *. clearbody r. eexists. split; [reflexivity|].
  set (s4 := match toolCalls r ++ dcalls with [] => _ | _ => _ end).
  assert (H4 : systemPreambleStripper s4 = None).
  { subst s4. destruct (toolCalls r ++ dcalls) as [|tc l]; [done|].
    pose proof (plain_calls _ _ (stopTextBlock_plain (s3 <| xmlInvokeBuffer := buffer r |>))) as [= _ P2]. cbn. by rewrite P2. }
  clearbody s4. set (m := splitMarkdownBoundary _ _). clearbody m.
  pose proof (plain_calls _ _ (emitText_plain (emitted m) (s4 <| markdownBuffer := held m |> <| markdown := after m |>))) as [= _ P2]. by rewrite P2.
Qed.

Lemma emitXmlCalls_fails tcs s : emitXmlCalls tcs s = None -> exists tc, tc ∈ tcs /\ unnamed tc.
Proof.
  revert s. induction tcs as [|tc tcs IH]; intros s; cbn [emitXmlCalls]; [done|]. destruct (x_name tc) eqn:E.
  4: { intros H. destruct (IH _ H) as (t & Ht & Hu). exists t. split; [by right|done]. }
  all: intros _; exists tc; split; [by left|]; intros ?; by rewrite E.
Qed.

Lemma finishStep_fails reason s : finishStep parseJson stringify directive reason s = None -> exists tc, tc ∈ pendingXmlToolCalls s /\ unnamed tc.
Proof.
  unfold finishStep. set (s1 := finishBlocks _ _ _ _).
  assert (E : pendingXmlToolCalls s1 = pendingXmlToolCalls s).
  { subst s1. unfold finishBlocks. set (s2 := stopThinkingBlock _). assert (E : pendingXmlToolCalls s2 = pendingXmlToolCalls s).
    { pose proof (plain_calls _ _ (stopThinkingBlock_plain (s <| claudeFinishEmitted := true |>))) as [= P1 _]. exact P1. }
    rewrite <- E. clearbody s2.
    assert (E1 : pendingXmlToolCalls (emitPreamble directive s2) = pendingXmlToolCalls s2).
    { unfold emitPreamble, flushStrippers. destruct (directiveStripper s2) as [d|]; [destruct (flushStripper directive d) as [d1 [|c1 t1]]|]; cbn;
        (destruct (systemPreambleStripper s2) as [q|]; [destruct (flushPreamble q) as [q1 [|c2 t2]]|]; cbn; try done; by destruct (textBlockStarted s2), (textBlockClosed s2)). }
    rewrite <- E1. generalize (emitPreamble directive s2). intros s3.
    assert (E2 : pendingXmlToolCalls (emitReasoning s3) = pendingXmlToolCalls s3) by (unfold emitReasoning; destruct (reasoningAccum s3); [done|]; by destruct (negb _ && _)).
    rewrite <- E2. pose proof (plain_calls _ _ (stopTextBlock_plain (emitReasoning s3))) as [= P1 _]. exact P1. }
  rewrite <- E. clearbody s1. destruct (emitXmlCalls (pendingXmlToolCalls s1) s1) as [s2|] eqn:Ex; [done|]. intros _. by eapply emitXmlCalls_fails.
Qed.

(** The finish was sent or is on its way. *)
Definition Ended s : Prop := claudeFinishEmitted s = true \/ is_Some (pendingClaudeFinishChoice s).

Lemma toolSteps_calls tcs x : calls (foldl (toolStep stringify) x tcs) = calls x.
Proof.
  assert (E3 : forall tc x, calls (toolStep stringify x tc) = calls x).
  { clear x. intros tc x. unfold toolStep. set (idx := orElse (td_index tc) 0).
    assert (A1 : calls (registerTool idx tc x) = calls x).
    { unfold registerTool. case_if; [|done]. cbv zeta.
      rewrite <- (plain_calls _ _ (stopThinkingBlock_plain x)), <- (plain_calls _ _ (stopTextBlock_plain (stopThinkingBlock x))). by remember (stopTextBlock _) as y. }
    rewrite <- A1. generalize (registerTool idx tc x). clear x A1. intros x.
    assert (A2 : calls (announceTool idx tc x) = calls x) by (unfold announceTool; destruct (mget idx _); [|done]; cbv zeta; by case_if).
    rewrite <- A2. generalize (announceTool idx tc x). clear x A2. intros x. unfold argumentsStep. case_if; [|done]. destruct (mget idx _); [|done]. cbv zeta. by case_if. }
  revert x. induction tcs as [|tc tcs IH]; intros x; [done|]. cbn. by rewrite IH.
Qed.

Lemma choiceStep_total now uuid ch fl c s s0 :
  (if messageStartSent s then Some s else chunk ← ch; Some (startMessage now chunk s)) = Some s0 ->
  claudeFinishEmitted s = false -> Calm s -> (fl = true -> finish_reason c <> EmptyString) ->
  (exists s', choiceStep now uuid ch fl c s = Some s' /\ (claudeFinishEmitted s' = false -> Calm s') /\
     (finish_reason c <> EmptyString -> Ended s' /\ (fl = true -> claudeFinishEmitted s' = true)) /\ (Ended s -> Ended s')) \/
  (choiceStep now uuid ch fl c s = None /\ finish_reason c <> EmptyString /\
     exists s2 tc, contentStep now uuid (delta c) (reasoningStep (delta c) s0) = Some s2 /\ tc ∈ pendingXmlToolCalls s2 /\ unnamed tc).
Proof.
  intros H0 Hf [C2 C3] Hfl. unfold OpenaiToClaude.choiceStep. rewrite H0. cbn [mbind option_bind].
  assert (H : systemPreambleStripper s0 = None /\ claudeFinishEmitted s0 = false /\ pendingClaudeFinishChoice s0 = pendingClaudeFinishChoice s).
  { destruct (messageStartSent s); [by injection H0 as <-|]. destruct ch; [|done]. by injection H0 as <-. }
  destruct H as (S0 & F0 & P0). clear H0.
  pose proof (plain_calls _ _ (reasoningStep_plain (delta c) s0)) as [= N1 S1]. pose proof (reasoningStep_frame (delta c) s0) as G1.
  rewrite <- S1 in S0. remember (reasoningStep (delta c) s0) as s1 eqn:Hd. clear Hd N1 S1.
  destruct (contentStep_total now uuid (delta c) s1 S0) as (s2 & E & S2). rewrite E. cbn [mbind option_bind].
  apply contentStep_frame in E as E'.
  pose proof (toolSteps_calls (tool_calls (delta c)) s2) as [= N3 S3]. pose proof (toolSteps_frame stringify (tool_calls (delta c)) s2) as G3.
  rewrite <- S3 in S2. remember (foldl (toolStep stringify) s2 (tool_calls (delta c))) as s3 eqn:Hd. clear Hd S3.
  assert (G : frame s3 = frame s0) by congruence. injection G as _ G2 G4 _ _ _. rewrite F0 in G2. rewrite P0 in G4. rewrite G2. cbn [negb].
  clear E' G1 G3 F0 P0 S0.
  destruct (String.eqb_spec (finish_reason c) EmptyString) as [Efr|Efr].
  { rewrite Efr. cbn. left. exists s3. split_and!; [done|intros _; constructor; [done|by rewrite G4]|done|]. unfold Ended. rewrite G4, Hf, G2. done. }
  assert (Hne : negb (isEmpty (finish_reason c)) = true) by (by destruct (finish_reason c)). rewrite Hne. cbn [andb].
  destruct (negb _ && negb fl) eqn:Ed.
  - left. eexists. split; [done|]. assert (HE : Ended (s3 <| pendingClaudeFinishChoice := Some c |>)) by (right; cbn; by eexists).
    split_and!; [intros _; constructor; [done|by intros c' [= <-]]| |done]. intros _. split; [done|]. intros ->. by rewrite andb_false_r in Ed.
  - destruct (finishStep parseJson stringify directive (finish_reason c) s3) as [s4|] eqn:E4.
    + left. pose proof E4 as E5. apply finishStep_frame in E5 as [= _ H2 H3 _ _ _].
      exists s4. assert (HE : Ended s4) by by left. split_and!; try done. rewrite H2. done.
    + right. split_and!; [done|done|]. apply finishStep_fails in E4 as (tc & Ht & Hu). exists s2, tc. by rewrite <- N3.
Qed.

Lemma step_total p k s : Track p s -> claudeFinishEmitted s = false -> Calm s ->
  (exists s', step k s = Some s' /\ (claudeFinishEmitted s' = false -> Calm s') /\ (Ended s -> Ended s') /\
    (forall c, k_chunk k ≫= choice0 = Some c -> finish_reason c <> EmptyString -> Ended s') /\
    (k_chunk k ≫= choice0 = None -> Ended s -> claudeFinishEmitted s' = true)) \/ nameThrows k s.
Proof.
  intros HT Hf HC. unfold nameThrows, found, taken, entered, OpenaiToClaude.step, openaiToClaudeResponse. cbv zeta.
  assert (H : exists u, match k_chunk k with Some c => trackUsageFromChunk c (s <| results := [] |>) | None => s <| results := [] |> end = s <| results := [] |> <| usage := u |>).
  { destruct (k_chunk k) as [c|]; [unfold trackUsageFromChunk; destruct (c_usage c); eauto|]; exists (usage s); by destruct s. }
  destruct H as [u ->]. apply (Track_usage _ _ u) in HT. assert (HC1 : Calm (s <| results := [] |> <| usage := u |>)) by (by destruct HC).
  assert (HE : Ended s -> Ended (s <| results := [] |> <| usage := u |>)) by done.
  assert (Hf1 : claudeFinishEmitted (s <| results := [] |> <| usage := u |>) = false) by exact Hf.
  change (pendingClaudeFinishChoice s) with (pendingClaudeFinishChoice (s <| results := [] |> <| usage := u |>)).
  remember (s <| results := [] |> <| usage := u |>) as s1 eqn:Hd. clear Hd HC Hf.
  destruct (k_chunk k ≫= choice0) as [c|] eqn:Ec.
  - destruct (k_chunk k) as [ch|] eqn:Ech; [|done].
    destruct (choiceStep_total (k_now k) (k_uuid k) (Some ch) false c s1 (if messageStartSent s1 then s1 else startMessage (k_now k) ch s1))
      as [(s' & E & H1 & H2 & H3)|(E & Hne & s2 & tc & E2 & Ht & Hu)]; [by destruct (messageStartSent s1)|done|done|done|left|right].
    + exists s'. split_and!; [exact E|exact H1|by intros ?%HE%H3| |done]. intros c' [= <-] Hne. by apply H2.
    + split; [exact E|]. exists c, tc. rewrite E2. by split_and!.
  - destruct (pendingClaudeFinishChoice s1) as [c|] eqn:Ep.
    + pose proof (calm_pending _ HC1 _ Ep) as Hne. set (sp := s1 <| pendingClaudeFinishChoice := None |>).
      assert (Hm : messageStartSent sp = true) by (revert HT; unfold Track; cbn; destruct (messageStartSent s1); [done|]; intros (_ & (_ & _ & _ & ?) & _); congruence).
      assert (Hin : match k_chunk k with Some ch => if messageStartSent sp then sp else startMessage (k_now k) ch sp | None => sp end = sp) by (rewrite Hm; by destruct (k_chunk k)).
      destruct (choiceStep_total (k_now k) (k_uuid k) (k_chunk k) true c sp sp) as [(s' & E & H1 & H2 & H3)|(E & _ & s2 & tc & E2 & Ht & Hu)];
        [by rewrite Hm|exact Hf1|by destruct HC1; constructor|done|left|right].
      * destruct (H2 Hne) as [H4 H5]. exists s'. split_and!; [exact E|exact H1|done|done|]. intros _ _. by apply H5.
      * split; [exact E|]. exists c, tc. rewrite Hin, E2. by split_and!.
    + left. exists s1. split_and!; [done|done|done|done|]. intros _ [Hx|Hx]%HE; [congruence|]. rewrite Ep in Hx. by destruct Hx.
Qed.

(** From any point of an answer: it goes on to its end, or a call throws. *)
Lemma answer_total ks s sent p : acceptAll proto0 sent = Some p -> Track p s -> (claudeFinishEmitted s = false -> Calm s) ->
  (exists s' es p', answer ks s sent = Some (s', es) /\ acceptAll proto0 es = Some p' /\ Track p' s' /\ (claudeFinishEmitted s' = false -> Calm s') /\
    (Ended s \/ (exists k c, k ∈ ks /\ k_chunk k ≫= choice0 = Some c /\ finish_reason c <> EmptyString) -> Ended s')) \/
  (answer ks s sent = None /\ exists ks1 k ks2 s1 es1, ks = ks1 ++ k :: ks2 /\ answer ks1 s sent = Some (s1, es1) /\ nameThrows k s1).
Proof.
  revert s sent p. induction ks as [|k ks IH]; intros s sent p Ha HT HC; cbn [OpenaiToClaude.answer].
  { left. exists s, sent, p. split_and!; try done. intros [?|(k & c & Hk & _)]; [done|]. by apply not_elem_of_nil in Hk. }
  destruct (claudeFinishEmitted s) eqn:Ef; [left; exists s, sent, p; split_and!; try done; [congruence|by left]|].
  destruct (step_total p k s HT Ef (HC eq_refl)) as [(s1 & E & HC1 & H1 & H2 & _)|HX].
  - rewrite E. cbn [mbind option_bind]. destruct (step_track _ _ _ _ _ _ _ _ HT Ef E) as (p1 & Ha1 & HT1).
    destruct (IH s1 (sent ++ results s1) p1) as [(s' & es & p' & G1 & G2 & G3 & G4 & G5)|(G1 & ks1 & k' & ks2 & s2 & es2 & -> & G2 & G3)];
      [by rewrite acceptAll_app, Ha|done|done|left|right].
    + exists s', es, p'. split_and!; try done.
      intros [HE|(k' & c & [->|Hk]%elem_of_cons & Hc & Hr)]; apply G5; [by left; apply H1|left; by eapply H2|right; eauto].
    + split; [done|]. exists (k :: ks1), k', ks2, s2, es2. split_and!; [done| |done]. cbn [OpenaiToClaude.answer]. by rewrite Ef, E.
  - right. rewrite (proj1 HX). split; [done|]. exists [], k, ks, s, sent. by split_and!.
Qed.
End Finishing.

(** C23. An answer whose upstream gives a finish reason in some chunk and then ends, or sends a chunk
    without a choice, is finished: either every call returns and what the client got is a
    complete message, or a call throws, and then because it brings the finish of an answer
    whose text holds a tool call the name of which is no text; nothing else throws and no call
    hangs.  (The system preamble stripper is off: it may hang.) *)
Theorem stream_completed (parseJson : text -> option json) (stringify : json -> text) (directive : text)
    (thinking : option bool) (names : jsmap string string) (ks : list Tick) (flush : Tick) :
  (exists k c, k ∈ ks /\ k_chunk k ≫= choice0 = Some c /\ finish_reason c <> EmptyString) ->
  k_chunk flush ≫= choice0 = None ->
  match answer parseJson stringify directive false (ks ++ [flush]) (initState thinking names) [] with
  | Some (s, es) => exists p, acceptAll proto0 es = Some p /\ stage p = Over
  | None => streamThrows parseJson stringify directive thinking names (ks ++ [flush])
  end.
Proof.
  intros Hk Hfl.
  destruct (answer_total parseJson stringify directive ks (initState thinking names) [] proto0)
    as [(s & es & p & H1 & H2 & H3 & H4 & H5)|(H1 & ks1 & k & ks2 & s1 & es1 & -> & H2 & H3)]; [done|apply Track_init|by constructor|..].
  2: { rewrite answer_app, H1. cbn [mbind option_bind]. exists ks1, k, (ks2 ++ [flush]), s1, es1. rewrite <- app_assoc. by split_and!. }
  specialize (H5 (or_intror Hk)). rewrite answer_app, H1. cbn [mbind option_bind OpenaiToClaude.answer]. destruct (claudeFinishEmitted s) eqn:Ef.
  - exists p. split; [done|]. revert H3. unfold Track. rewrite Ef. destruct (messageStartSent s); [done|]. intros (_ & _ & ?). done.
  - destruct (step_total parseJson stringify directive p flush s H3 Ef (H4 eq_refl)) as [(s1 & E & _ & _ & _ & Hdone)|HX].
    + rewrite E. cbn [mbind option_bind]. specialize (Hdone Hfl H5). destruct (step_track _ _ _ _ _ _ _ _ H3 Ef E) as (p1 & Ha1 & HT1). exists p1.
      split; [by rewrite acceptAll_app, H2|]. revert HT1. unfold Track. rewrite Hdone. destruct (messageStartSent s1); [done|]. by intros (_ & _ & ?).
    + rewrite (proj1 HX). cbn [mbind option_bind]. by exists ks, flush, [], s, es.
Qed.

(** A parser of one text: what a model wrote in a tag. *)
Definition callJson (t : text) : option json :=
  if bool_decide (t = str "CALL") then Some (VObj [("name"%string, VStr "bash"); ("arguments"%string, VObj [])]) else None.

Definition taggedStream : list Tick :=
  [chunkOf (said "Now: <tool_call>CA") "" None; chunkOf (said "LL</tool_call>") "" None; chunkOf noDelta "stop" None].

Lemma stream_completed_witness :
  match answer callJson noText [] false (taggedStream ++ [tick None]) (initState None []) [] with
  | Some (s, es) => exists p, acceptAll proto0 es = Some p /\ stage p = Over
  | None => streamThrows callJson noText [] None [] (taggedStream ++ [tick None])
  end /\
  omap (fun e => match e with content_block_start _ (tool_use _ n _) => Some n | _ => None end)
    (match answer callJson noText [] false (taggedStream ++ [tick None]) (initState None []) [] with Some (_, es) => es | None => [] end) = ["Bash"%string].
Proof.
  split; [|vm_compute; reflexivity]. apply (stream_completed callJson noText [] None [] taggedStream (tick None)).
  - exists (chunkOf noDelta "stop" None), (mkChoice noDelta "stop"). split; [vm_compute; do 2 right; left|]. split; [reflexivity|discriminate].
  - reflexivity.
Defined.

(** ** Findings *)

Definition textAnswer (thinking : option bool) (ks : list Tick) : option text :=
  '(_, es) ← answer noJson noText [] false ks (initState thinking []) []; Some (textOf es).

Definition eventsOf (ks : list Tick) : list Event :=
  match answer noJson noText [] false ks (initState None []) [] with Some (_, es) => es | None => [] end.

(** A last chunk that brings content together with its finish reason, followed by the
    usage: its content is sent twice. *)
Example deferred_content_twice :
  textAnswer None [chunkOf (said "Hello ") "" None; chunkOf (said "world") "stop" None; tick None] = Some (str "Hello worldworld").
Proof. vm_compute. reflexivity. Qed.

(** The same for the last fragment of a call's arguments. *)
Example deferred_arguments_twice :
  argumentsOf 0 (eventsOf [chunkOf (called 0 "a" "bash" (Some (VStr "[1"))) "" None; chunkOf (called 0 "" "" (Some (VStr "]"))) "tool_calls" None; tick None]) =
  str "[1]]".
Proof. vm_compute. reflexivity. Qed.

(** An opening tag in the text that is never closed takes the rest of the answer with
    it. *)
Example unclosed_tag_lost :
  textAnswer None [chunkOf (said "Write <tool_call> and then") "" None; chunkOf (said " the JSON.") "stop" (Some someUsage)] = Some (str "Write ").
Proof. vm_compute. reflexivity. Qed.

(** An opening tag cut by the chunk's end is not recognised. *)
Example cut_tag_leaks :
  textAnswer None [chunkOf (said "<tool_") "" None; chunkOf (said "call>{}</tool_call>") "stop" (Some someUsage)] = Some (str "<tool_call>{}</tool_call>").
Proof. vm_compute. reflexivity. Qed.

(** Reasoning of a client that declined it is sent as text, although the answer has
    text: a tool call has closed that block. *)
Example declined_reasoning_shown :
  textAnswer (Some false) [chunkOf (said "Done. ") "" None; chunkOf (called 0 "a" "bash" None) "" None; chunkOf (thought "secret") "" None;
                           chunkOf noDelta "tool_calls" (Some someUsage)] = Some (str "Done. secret").
Proof. vm_compute. reflexivity. Qed.

(** Blocks may start out of the order of their indices. *)
Example blocks_out_of_order :
  omap (fun e => match e with content_block_start i _ => Some i | _ => None end)
    (eventsOf [chunkOf (called 0 "a" "" None) "" None; chunkOf (said "x") "" None; chunkOf (called 0 "" "bash" None) "" None]) = [1; 0].
Proof. vm_compute. reflexivity. Qed.

(** Calls found in the text of two chunks of one millisecond have one id. *)
Example xml_ids_collide :
  let call := said ("<invoke name=" +:+ String quote ("bash" +:+ String quote "></invoke>"))%string in
  omap (fun e => match e with content_block_start _ (tool_use id _ _) => Some id | _ => None end)
    (eventsOf [chunkOf call "" None; chunkOf call "stop" (Some someUsage)]) = ["toolu_xml_1_0"; "toolu_xml_1_0"]%string.
Proof. vm_compute. reflexivity. Qed.

(** A name that is no string (here true), in a call the model writes as JSON, makes the finish
    throw: the answer is never completed. *)
Example other_name_throws :
  let parse (t : text) := Some (VObj [("name"%string, VBool true)]) in
  answer parse noText [] false [chunkOf (said "<tool_call>{}</tool_call>") "stop" (Some someUsage)] (initState None []) [] = None.
Proof. vm_compute. reflexivity. Qed.

(** Content that comes after the finish is sent after the end of the message. *)
Example content_after_stop :
  match answer noJson noText [] false [chunkOf (said "x") "stop" (Some someUsage)] (initState None []) [] with
  | Some (s, es) => (last es, results <$> step noJson noText [] false (chunkOf (said "y") "" None) s)
  | None => (None, None)
  end = (Some message_stop, Some [content_block_start 1 text_block; content_block_delta 1 (text_delta (str "y"))]).
Proof. vm_compute. reflexivity. Qed.
