(* ===== verification/OpenaiToClaudeTools.v ===== *)
(** * The arguments of tool calls in the translated stream

    What the deltas of a tool's block add up to, against what the upstream sent for that
    tool: [OpenaiToClaude], over the invariants of [OpenaiToClaudeFacts]. *)
From Stdlib Require Import String Ascii.
From stdpp Require Import gmap.
From S2P Require Import Prelude JsMap JsString ComboSteps ToolPairs ThinkTags StreamHelpers MarkdownBoundary InvokeBlocks.
From S2P Require Import DsmlToolCalls SystemPreamble ToolShim ToolNames ClaudeProtocol OpenaiToClaude OpenaiToClaudeFacts.
#[local] Open Scope Z_scope.

Section Assembly.
Context (stringify : json -> text).
Implicit Types s : State.

(** ** What the upstream sent *)

Definition deltaIndex (d : ToolDelta) : Z := orElse (td_index d) 0.

(** A call as far as it has come: its id and its arguments. *)
Definition openCall (acc : option (string * text)) (d : ToolDelta) : option (string * text) :=
  match acc with None => if isEmpty (td_id d) then None else Some (sanitizeToolId (td_id d), []) | _ => acc end.

Definition extendCall (d : ToolDelta) (c : string * text) : string * text :=
  (c.1, if truthy (td_arguments d) then appendToolCallArgumentDelta stringify c.2 (td_arguments d) else c.2).

(** One delta, for the tool at [idx]: [None] until its id has come. *)
Definition assembleStep (idx : Z) (acc : option (string * text)) (d : ToolDelta) : option (string * text) :=
  if decide (deltaIndex d = idx) then extendCall d <$> openCall acc d else acc.

Definition assembled (idx : Z) (ds : list ToolDelta) : option (string * text) := foldl (assembleStep idx) None ds.

Definition callOf (t : ToolInfo) : string * text := (t_id t, argBuffer t).

Definition buffered (idx : Z) s : option (string * text) := callOf <$> mget idx (toolInfos s).

(** Every tool has an id. *)
Definition Identified s : Prop := forall idx t, mget idx (toolInfos s) = Some t -> t_id t <> EmptyString.

Lemma sanitizeToolId_some id : isEmpty id = false -> sanitizeToolId id <> EmptyString.
Proof. by destruct id. Qed.

Lemma lateFields_buffer tc name (t : ToolInfo) : argBuffer (lateFields tc name t) = argBuffer t.
Proof. unfold lateFields. destruct (negb (isEmpty (td_id tc)) && _), (negb (isEmpty name) && _ && _); try done; case_if; done. Qed.

Lemma lateFields_id tc name (t : ToolInfo) : t_id t <> EmptyString -> t_id (lateFields tc name t) = t_id t.
Proof. intros H. unfold lateFields. assert (isEmpty (t_id t) = false) as -> by by destruct (t_id t). rewrite andb_false_r. by case_if. Qed.

Lemma lateFields_started tc name (t : ToolInfo) : t_id t <> EmptyString -> startEmitted t = true -> lateFields tc name t = t.
Proof.
  intros H Hs. unfold lateFields. assert (isEmpty (t_id t) = false) as -> by by destruct (t_id t). rewrite andb_false_r.
  rewrite Hs. cbn. by rewrite andb_false_r.
Qed.

Lemma setTool_tools i t s : toolInfos (setTool i t s) = mset i t (toolInfos s).
Proof. done. Qed.

Lemma setTool_next i t s n : toolInfos (setTool i t s <| nextBlockIndex := n |>) = mset i t (toolInfos s).
Proof. done. Qed.

Lemma push_tools e s : toolInfos (push e s) = toolInfos s.
Proof. done. Qed.

(** The buffer of a tool is what was assembled for it. *)
Lemma registerTool_call idx i d s :
  callOf <$> mget idx (toolInfos (registerTool i d s)) = if decide (i = idx) then openCall (buffered idx s) d else buffered idx s.
Proof.
  unfold registerTool, mhas, openCall, buffered. destruct (isEmpty (td_id d)) eqn:Ei; cbn [negb andb].
  { case_decide; [|done]. by destruct (callOf <$> mget idx (toolInfos s)). }
  destruct (mget i (toolInfos s)) as [t|] eqn:Et; cbn [negb].
  { case_decide; [|done]. subst. by rewrite Et. }
  cbv zeta. rewrite setTool_next, mget_mset, stopTextBlock_tools, stopThinkingBlock_tools.
  case_decide as Hd; [subst idx; rewrite decide_True by done; by rewrite Et|by rewrite decide_False by congruence].
Qed.

Lemma registerTool_ids i d s : Identified s -> Identified (registerTool i d s).
Proof.
  intros HI. unfold registerTool. destruct (isEmpty (td_id d)) eqn:Ei; cbn [negb andb]; [done|]. destruct (negb (mhas i (toolInfos s))); [|done].
  cbv zeta. intros j t. rewrite setTool_next, stopTextBlock_tools, stopThinkingBlock_tools, mget_mset. case_decide; [|apply HI].
  intros [= <-]. by apply sanitizeToolId_some.
Qed.

Lemma announceTool_call idx i d s : Identified s -> callOf <$> mget idx (toolInfos (announceTool i d s)) = buffered idx s.
Proof.
  intros HI. unfold announceTool, buffered. destruct (mget i (toolInfos s)) as [t|] eqn:Et; [|done]. cbv zeta.
  assert (Hc : callOf (lateFields d (incomingName d s) t) = callOf t) by (unfold callOf; by rewrite lateFields_buffer, lateFields_id by by eapply HI).
  case_if; rewrite ?push_tools, setTool_tools, mget_mset; (destruct (decide (idx = i)) as [E|E]; [rewrite E, Et; cbn; f_equal; exact Hc|done]).
Qed.

Lemma announceTool_ids i d s : Identified s -> Identified (announceTool i d s).
Proof.
  intros HI j t Hj. pose proof (announceTool_call j i d s HI) as H. unfold buffered in H. rewrite Hj in H. cbn in H.
  destruct (mget j (toolInfos s)) as [u|] eqn:Eu; [|done]. injection H as H _. rewrite H. by eapply HI.
Qed.

Lemma argumentsStep_call idx i d s :
  callOf <$> mget idx (toolInfos (argumentsStep stringify i d s)) = if decide (i = idx) then extendCall d <$> buffered idx s else buffered idx s.
Proof.
  unfold argumentsStep, buffered, extendCall. destruct (truthy (td_arguments d)).
  2: { case_decide; [|done]. destruct (mget idx (toolInfos s)) as [t|]; [|done]. cbn. by destruct t. }
  destruct (mget i (toolInfos s)) as [t|] eqn:Et.
  - cbv zeta. destruct (shimmed t || _); rewrite ?push_tools, setTool_tools, mget_mset;
      (destruct (decide (i = idx)) as [->|Hne]; [by rewrite decide_True, Et by done|by rewrite decide_False by congruence]).
  - case_decide; [|done]. subst. by rewrite Et.
Qed.

Lemma argumentsStep_ids i d s : Identified s -> Identified (argumentsStep stringify i d s).
Proof.
  intros HI j t Hj. pose proof (argumentsStep_call j i d s) as H. unfold buffered in H. rewrite Hj in H. cbn in H.
  destruct (mget j (toolInfos s)) as [u|] eqn:Eu; [|by case_decide]. cbn in H. assert (t_id t = t_id u) as -> by (case_decide; by injection H). by eapply HI.
Qed.

Lemma toolStep_buffered idx s d : Identified s ->
  buffered idx (toolStep stringify s d) = assembleStep idx (buffered idx s) d /\ Identified (toolStep stringify s d).
Proof.
  intros HI. unfold toolStep, assembleStep. fold (deltaIndex d). set (i := deltaIndex d). pose proof (registerTool_ids i d s HI) as HI1.
  pose proof (announceTool_ids i d _ HI1) as HI2. split; [|by apply argumentsStep_ids]. unfold buffered at 1.
  rewrite argumentsStep_call. unfold buffered at 1 2. rewrite announceTool_call by done. unfold buffered at 1 2. rewrite registerTool_call. by case_decide.
Qed.

Lemma toolSteps_buffered idx ds s : Identified s ->
  buffered idx (foldl (toolStep stringify) s ds) = foldl (assembleStep idx) (buffered idx s) ds.
Proof. revert s. induction ds as [|d ds IH]; intros s HI; [done|]. cbn [foldl]. destruct (toolStep_buffered idx s d HI) as [<- HI1]. by apply IH. Qed.

(** ** What was sent on *)

(** The deltas sent for each tool add up to its buffer; those of a shimmed tool are
    still to come; indices not in use have none. *)
Record Relays (sent : list Event) s : Prop := {
  rl_tools : forall idx t, mget idx (toolInfos s) = Some t ->
    argumentsOf (blockIndex t) (sent ++ results s) = if shimmed t then [] else argBuffer t;
  rl_silent : forall idx t, mget idx (toolInfos s) = Some t -> startEmitted t = false -> argBuffer t = [];
  rl_free : forall i, nextBlockIndex s <= i -> argumentsOf i (sent ++ results s) = [];
  rl_ids : Identified s;
  rl_started : forall idx t, mget idx (toolInfos s) = Some t -> startEmitted t = true -> startBlock t ∈ sent ++ results s;
  rl_shim : forall idx t, mget idx (toolInfos s) = Some t -> shimmed t = hasToolCallShim (t_name t);
}.

(** Steps that send no arguments. *)
Definition Adds s s' : Prop := exists es, results s' = results s ++ es /\ forall i, argumentsOf i es = [].

Definition Mute s s' : Prop := toolInfos s' = toolInfos s /\ nextBlockIndex s <= nextBlockIndex s' /\ Adds s s'.

Lemma Adds_arguments sent s s' i : Adds s s' -> argumentsOf i (sent ++ results s') = argumentsOf i (sent ++ results s).
Proof. intros (es & -> & H). by rewrite !argumentsOf_app, H, app_nil_r. Qed.

Lemma Adds_elem sent s s' e : Adds s s' -> e ∈ sent ++ results s -> e ∈ sent ++ results s'.
Proof. intros (es & -> & _). rewrite app_assoc. intros H. apply elem_of_app. by left. Qed.

Lemma Adds_same s s' : results s' = results s -> Adds s s'.
Proof. intros H. exists []. by rewrite H, app_nil_r. Qed.

Lemma Adds_one s s' e : results s' = results s ++ [e] -> (forall i, argumentsOf i [e] = []) -> Adds s s'.
Proof. intros. by exists [e]. Qed.

Lemma Adds_trans s1 s2 s3 : Adds s1 s2 -> Adds s2 s3 -> Adds s1 s3.
Proof. intros (e1 & H1 & K1) (e2 & H2 & K2). exists (e1 ++ e2). rewrite H2, H1, app_assoc. split; [done|]. intros i. by rewrite argumentsOf_app, K1, K2. Qed.

Lemma Mute_refl s : Mute s s.
Proof. split_and!; [done|lia|by apply Adds_same]. Qed.

Lemma Mute_trans s1 s2 s3 : Mute s1 s2 -> Mute s2 s3 -> Mute s1 s3.
Proof. intros (H1 & H2 & H3) (H4 & H5 & H6). split_and!; [congruence|lia|by eapply Adds_trans]. Qed.

Lemma Mute_Relays sent s s' : Mute s s' -> Relays sent s -> Relays sent s'.
Proof.
  intros (H1 & H2 & H3) [R1 R2 R3 R4 R5 R6]. constructor; unfold Identified in *; rewrite ?H1; try done; intros *; rewrite ?(Adds_arguments _ _ _ _ H3); [apply R1| |].
  - intros. apply R3. lia.
  - intros. eapply Adds_elem; [exact H3|]. by eapply R5.
Qed.

Lemma Mute_same s s' : toolInfos s' = toolInfos s -> nextBlockIndex s' = nextBlockIndex s -> results s' = results s -> Mute s s'.
Proof. intros H1 H2 H. split_and!; [done|lia|by apply Adds_same]. Qed.

Lemma Mute_push s s' e : toolInfos s' = toolInfos s -> nextBlockIndex s <= nextBlockIndex s' -> results s' = results s ++ [e] ->
  (forall i, argumentsOf i [e] = []) -> Mute s s'.
Proof. intros Ht H Hr He. split_and!; [done|done|by eapply Adds_one]. Qed.

Lemma Mute_stopThinking s : Mute s (stopThinkingBlock s).
Proof.
  unfold stopThinkingBlock. destruct (thinkingBlockStarted s); [|apply Mute_refl].
  by eapply (Mute_push _ _ (content_block_stop (thinkingBlockIndex s))).
Qed.

Lemma Mute_openText s : Mute s (if textBlockStarted s then s else startText s).
Proof.
  destruct (textBlockStarted s); [apply Mute_refl|]. eapply (Mute_push _ _ (content_block_start (nextBlockIndex s) text_block)); try done. cbn. lia.
Qed.

Lemma Mute_pushText t s : Mute s (pushText t s).
Proof. by eapply (Mute_push _ _ (content_block_delta (textBlockIndex s) (text_delta t))). Qed.

Lemma Mute_flushMarkdown s : Mute s (flushMarkdownBuffer s).
Proof.
  unfold flushMarkdownBuffer. destruct (markdownBuffer s) as [|c b]; [by apply Mute_same|].
  assert (H : Mute s (s <| markdown := noMd |> <| markdownBuffer := [] |>)) by by apply Mute_same.
  revert H. generalize (s <| markdown := noMd |> <| markdownBuffer := [] |>). intros s1 H. cbv zeta.
  pose proof (Mute_trans _ _ _ H (Mute_openText s1)) as H1. revert H1. generalize (if textBlockStarted s1 then s1 else startText s1). intros s2 H2.
  destruct (textBlockClosed s2); [done|]. eapply Mute_trans; [done|apply Mute_pushText].
Qed.

Lemma Mute_stopText s : Mute s (stopTextBlock s).
Proof.
  unfold stopTextBlock. pose proof (Mute_flushMarkdown s) as H. revert H. generalize (flushMarkdownBuffer s). intros s1 H. cbv zeta. case_if; [done|].
  eapply Mute_trans; [done|]. by eapply (Mute_push _ _ (content_block_stop (textBlockIndex s1))).
Qed.

Lemma Mute_reasoning d s : Mute s (reasoningStep d s).
Proof.
  unfold reasoningStep. destruct (reasoningOf d) as [|c t]; [apply Mute_refl|]. case_bool_decide; [by apply Mute_same|].
  pose proof (Mute_stopText s) as H1. revert H1. generalize (stopTextBlock s). intros s1 H1. cbv zeta.
  assert (H2 : Mute s1 (if thinkingBlockStarted s1 then s1 else startThinking s1)).
  { destruct (thinkingBlockStarted s1); [apply Mute_refl|]. eapply (Mute_push _ _ (content_block_start (nextBlockIndex s1) thinking_block)); try done. cbn. lia. }
  pose proof (Mute_trans _ _ _ H1 H2) as H3. revert H3. generalize (if thinkingBlockStarted s1 then s1 else startThinking s1). intros s2 H3.
  eapply Mute_trans; [exact H3|]. by eapply (Mute_push _ _ (content_block_delta (thinkingBlockIndex s2) (thinking_delta (c :: t)))).
Qed.

Lemma Mute_emitText t s : Mute s (emitText t s).
Proof. unfold emitText. destruct t; [apply Mute_refl|]. eapply Mute_trans; [apply Mute_openText|apply Mute_pushText]. Qed.

Lemma Mute_scrub directive strip t s s' t' : scrub directive strip t s = Some (s', t') -> Mute s s'.
Proof.
  intros H. pose proof (scrub_same _ _ _ _ _ _ H) as [Hc Hr]. injection Hc as _ _ _ _ _ Hn Ht. by apply Mute_same.
Qed.

Lemma Mute_content parseJson directive strip now uuid d s s' : contentStep parseJson directive strip now uuid d s = Some s' -> Mute s s'.
Proof.
  unfold contentStep. destruct (stripInternalReasoningPlaceholder (content d)) as [|c0 t0]; [intros [= <-]; apply Mute_refl|].
  destruct (scrub directive strip (c0 :: t0) s) as [[s1 scrubbed]|] eqn:E; [|done]. cbn [mbind option_bind]. apply Mute_scrub in E.
  assert (H : Mute s (match scrubbed with [] => s1 | _ => stopThinkingBlock s1 end)) by (destruct scrubbed; [done|eapply Mute_trans; [done|apply Mute_stopThinking]]).
  revert H. generalize (match scrubbed with [] => s1 | _ => stopThinkingBlock s1 end). clear E s1. intros s2 H2. cbv zeta.
  destruct (takeDsml uuid scrubbed (s2 <| markdownBuffer := [] |>)) as [[s3 t] dcalls] eqn:E.
  assert (H3 : Mute s s3) by (eapply Mute_trans; [exact H2|]; revert E; unfold takeDsml; cbv zeta; destruct (hasDsmlToolCalls _); intros [= <- _ _]; by apply Mute_same).
  clear E. set (r := extractXmlInvokeBlocks _ _ _ _). clearbody r. set (m := splitMarkdownBoundary _ _). clearbody m.
  assert (H4 : Mute s (match toolCalls r ++ dcalls with
                       | [] => s3 <| xmlInvokeBuffer := buffer r |>
                       | _ => (stopTextBlock (s3 <| xmlInvokeBuffer := buffer r |>)) <| pendingXmlToolCalls :=
                                pendingXmlToolCalls (stopTextBlock (s3 <| xmlInvokeBuffer := buffer r |>)) ++ toolCalls r ++ dcalls |>
                       end)).
  { assert (H4 : Mute s (s3 <| xmlInvokeBuffer := buffer r |>)) by (eapply Mute_trans; [exact H3|by apply Mute_same]).
    destruct (toolCalls r ++ dcalls); [done|]. eapply Mute_trans; [eapply Mute_trans; [exact H4|apply Mute_stopText]|by apply Mute_same]. }
  revert H4. generalize (match toolCalls r ++ dcalls with
                       | [] => s3 <| xmlInvokeBuffer := buffer r |>
                       | _ => (stopTextBlock (s3 <| xmlInvokeBuffer := buffer r |>)) <| pendingXmlToolCalls :=
                                pendingXmlToolCalls (stopTextBlock (s3 <| xmlInvokeBuffer := buffer r |>)) ++ toolCalls r ++ dcalls |>
                       end). intros s4 H4 [= <-]. eapply Mute_trans; [eapply Mute_trans; [exact H4|]|apply Mute_emitText]. by apply Mute_same.
Qed.

Lemma append_prefix e v : e ++ drop (length e) (appendToolCallArgumentDelta stringify e v) = appendToolCallArgumentDelta stringify e v.
Proof.
  unfold appendToolCallArgumentDelta. destruct e as [|c e]; [by rewrite drop_0|]. destruct (normalizeIncomingFragment stringify v) as [|c' n]; [by rewrite drop_all, app_nil_r|].
  case_bool_decide; [by rewrite drop_all, app_nil_r|]. destruct (startsWith (c' :: n) (c :: e)) eqn:E; [by rewrite <- startsWith_split|].
  by rewrite drop_app_length.
Qed.

Lemma argumentsOf_one i j t : argumentsOf i [content_block_delta j (input_json_delta t)] = if decide (j = i) then t else [].
Proof. unfold argumentsOf. cbn. apply app_nil_r. Qed.

(** A new tool has neither buffer nor deltas. *)
Lemma reserve_relays sent idx (t : ToolInfo) s : blockIndex t = nextBlockIndex s -> argBuffer t = [] -> t_id t <> EmptyString -> startEmitted t = false ->
  shimmed t = hasToolCallShim (t_name t) -> Relays sent s -> Relays sent (setTool idx t s <| nextBlockIndex := nextBlockIndex s + 1 |>).
Proof.
  intros Hb Ha Hi Hs Hsh [R1 R2 R3 R4 R5 R6]. constructor; unfold Identified; rewrite ?setTool_next.
  - intros i u. rewrite mget_mset. case_decide; [|apply R1]. intros [= <-]. rewrite Hb, Ha, R3 by lia. by case_if.
  - intros i u. rewrite mget_mset. case_decide; [by intros [= <-]|apply R2].
  - intros i Hn. apply R3. cbn in Hn. lia.
  - intros i u. rewrite mget_mset. case_decide; [by intros [= <-]|apply R4].
  - intros i u. rewrite mget_mset. case_decide; [intros [= <-]; congruence|apply R5].
  - intros i u. rewrite mget_mset. case_decide; [by intros [= <-]|apply R6].
Qed.

Lemma registerTool_relays sent idx d s : Relays sent s -> Relays sent (registerTool idx d s).
Proof.
  intros HR. unfold registerTool. destruct (isEmpty (td_id d)) eqn:Ei; cbn [negb andb]; [done|]. destruct (negb _); [|done].
  cbv zeta. apply reserve_relays; [done|done|by apply sanitizeToolId_some|done|by cbn; destruct (incomingName d s)|].
  eapply Mute_Relays; [|exact HR]. eapply Mute_trans; [apply Mute_stopThinking|apply Mute_stopText].
Qed.

(** Fields of a tool other than its buffer change. *)
Lemma setTool_relays sent idx (t t' : ToolInfo) s s' : mget idx (toolInfos s) = Some t ->
  toolInfos s' = mset idx t' (toolInfos s) -> nextBlockIndex s' = nextBlockIndex s -> Adds s s' ->
  blockIndex t' = blockIndex t -> argBuffer t' = argBuffer t -> t_id t' = t_id t -> (shimmed t' = shimmed t \/ argBuffer t = []) ->
  shimmed t' = hasToolCallShim (t_name t') -> (startEmitted t' = false -> startEmitted t = false) -> (startEmitted t' = true -> startBlock t' ∈ sent ++ results s') -> Relays sent s -> Relays sent s'.
Proof.
  intros Ht Hm Hn HA Hb Ha Hid Hs Hsh He Hst [R1 R2 R3 R4 R5 R6]. constructor; unfold Identified; rewrite ?Hm, ?Hn.
  - intros i u. rewrite mget_mset, (Adds_arguments _ _ _ _ HA). case_decide; [|apply R1]. intros [= <-]. rewrite Hb, Ha. etransitivity; [by eapply R1|].
    destruct Hs as [->|Hs]; [done|]. rewrite Hs. by destruct (shimmed t), (shimmed t').
  - intros i u. rewrite mget_mset. case_decide; [|apply R2]. intros [= <-] Hx. rewrite Ha. eapply R2; [done|by apply He].
  - intros i. rewrite (Adds_arguments _ _ _ _ HA). apply R3.
  - intros i u. rewrite mget_mset. case_decide; [|apply R4]. intros [= <-]. rewrite Hid. by eapply R4.
  - intros i u. rewrite mget_mset. case_decide; [by intros [= <-]|]. intros Hu Hx. eapply Adds_elem; [exact HA|]. by eapply R5.
  - intros i u. rewrite mget_mset. case_decide; [by intros [= <-]|apply R6].
Qed.

Lemma lateFields_shim tc name (t : ToolInfo) : shimmed (lateFields tc name t) = shimmed t \/ startEmitted t = false.
Proof.
  unfold lateFields. destruct (startEmitted t) eqn:E; [left|by right].
  destruct (negb (isEmpty (td_id tc)) && _); cbn; rewrite ?E, ?andb_false_r; cbn; by rewrite ?andb_false_r.
Qed.

Lemma lateFields_shimmed tc name (t : ToolInfo) : shimmed t = hasToolCallShim (t_name t) ->
  shimmed (lateFields tc name t) = hasToolCallShim (t_name (lateFields tc name t)).
Proof. intros H. unfold lateFields. destruct (negb (isEmpty (td_id tc)) && _); case_if; done. Qed.

Lemma announceTool_relays sent idx d s : Relays sent s -> Relays sent (announceTool idx d s).
Proof.
  intros HR. unfold announceTool. destruct (mget idx (toolInfos s)) as [t|] eqn:Et; [|done]. cbv zeta.
  pose proof (rl_ids _ _ HR _ _ Et) as Hid. pose proof (lateFields_started d (incomingName d s) t Hid) as L0. pose proof (lateFields_id d (incomingName d s) t Hid) as Lid.
  destruct (lateFields_same d (incomingName d s) t) as [L1 L2]. pose proof (lateFields_buffer d (incomingName d s) t) as L3.
  pose proof (lateFields_shim d (incomingName d s) t) as L4. pose proof (lateFields_shimmed d (incomingName d s) t (rl_shim _ _ HR _ _ Et)) as L6. remember (lateFields d (incomingName d s) t) as t' eqn:Hd. clear Hd.
  assert (L5 : shimmed t' = shimmed t \/ argBuffer t = []) by (destruct L4; [by left|right; by eapply rl_silent]).
  destruct (negb (startEmitted t') && _).
  - eapply (setTool_relays sent idx t (t' <| startEmitted := true |>) s); [exact Et|done|done|by apply (Adds_one _ _ (startBlock t'))|exact L1|exact L3|exact Lid|exact L5|exact L6|done| |done].
    intros _. apply elem_of_app. right. apply elem_of_app. right. by left.
  - eapply (setTool_relays sent idx t t' s); [exact Et|done|done|by apply Adds_same|exact L1|exact L3|exact Lid|exact L5|exact L6|by rewrite L2| |done].
    intros Hs. rewrite L2 in Hs. rewrite (L0 Hs). by eapply (rl_started _ _ HR).
Qed.

Lemma argumentsStep_relays sent p0 idx d s : Conf p0 s ->
  (hasArguments d = true -> forall t, mget idx (toolInfos s) = Some t -> startEmitted t = true) ->
  Relays sent s -> Relays sent (argumentsStep stringify idx d s).
Proof.
  intros (p & _ & Hg) He [R1 R2 R3 R4 R5 R6]. pose proof (argumentsStep_ids idx d s R4) as R4'. revert R4'.
  unfold argumentsStep. destruct (truthy (td_arguments d)) eqn:Ea; [|done].
  specialize (He (truthy_hasArguments _ Ea)). destruct (mget idx (toolInfos s)) as [t|] eqn:Et; [|done]. specialize (He _ eq_refl). cbv zeta. intros R4'.
  pose proof (append_prefix (argBuffer t) (td_arguments d)) as Hp. set (next := appendToolCallArgumentDelta _ _ _) in *.
  set (dl := drop (length (argBuffer t)) next) in *. clearbody dl. pose proof (R1 _ _ Et) as Ht.
  assert (Hother : forall i u, mget i (toolInfos s) = Some u -> i <> idx -> blockIndex t <> blockIndex u).
  { intros i u Hu Hne E. apply Hne. symmetry. by eapply (g_inj _ _ Hg). }
  assert (Hlt : blockIndex t < nextBlockIndex s) by (by apply (g_tools _ _ Hg) in Et as [? _]).
  destruct (shimmed t || bool_decide (dl = [])) eqn:Es.
  - constructor; [..|exact R4'| |]; rewrite ?setTool_tools.
    + intros i u. rewrite mget_mset. case_decide; [|apply R1]. intros [= <-]. etransitivity; [exact Ht|]. cbn.
      destruct (shimmed t); [done|]. cbn in Es. apply bool_decide_eq_true in Es. by rewrite Es, app_nil_r in Hp.
    + intros i u. rewrite mget_mset. case_decide; [|apply R2]. intros [= <-]. cbn. congruence.
    + apply R3.
    + intros i u. rewrite mget_mset. case_decide; [|apply R5]. intros [= <-] _. exact (R5 _ _ Et He).
    + intros i u. rewrite mget_mset. case_decide; [|apply R6]. intros [= <-]. exact (R6 _ _ Et).
  - apply orb_false_iff in Es as [Es _]. rewrite Es in Ht.
    assert (Hr : forall i, argumentsOf i (sent ++ results (push (content_block_delta (blockIndex t) (input_json_delta dl)) (setTool idx (t <| argBuffer := next |>) s))) =
                           argumentsOf i (sent ++ results s) ++ if decide (blockIndex t = i) then dl else []).
    { intros i. rewrite <- argumentsOf_one, <- argumentsOf_app, <- app_assoc. done. }
    constructor; [..|exact R4'| |]; rewrite ?push_tools, ?setTool_tools.
    + intros i u. rewrite mget_mset, Hr. case_decide as Hi.
      * intros [= <-]. cbn. rewrite decide_True by done. rewrite Ht, Es. exact Hp.
      * intros Hu. rewrite decide_False by by eapply Hother. rewrite app_nil_r. by eapply R1.
    + intros i u. rewrite mget_mset. case_decide; [|apply R2]. intros [= <-]. cbn. congruence.
    + intros i Hi. rewrite Hr, R3 by exact Hi. rewrite decide_False; [done|]. intros E. change (nextBlockIndex s <= i) in Hi. lia.
    + intros i u Hu Hx. change (startBlock u ∈ sent ++ results s ++ [content_block_delta (blockIndex t) (input_json_delta dl)]). rewrite app_assoc.
      apply elem_of_app. left. revert Hu Hx. rewrite mget_mset. case_decide; [|apply R5]. intros [= <-] _. exact (R5 _ _ Et He).
    + intros i u. rewrite mget_mset. case_decide; [|apply R6]. intros [= <-]. exact (R6 _ _ Et).
Qed.

Lemma toolSteps_relays sent p0 ds s : Conf p0 s -> Relays sent s -> Relays sent (foldl (toolStep stringify) s ds).
Proof.
  revert s. induction ds as [|d ds IH]; intros s HC HR; [done|]. cbn [foldl]. apply IH; [by apply toolStep_conf|]. unfold toolStep.
  set (i := orElse (td_index d) 0). apply (registerTool_conf _ i d) in HC. apply (registerTool_relays _ i d) in HR.
  destruct (announceTool_conf _ i d _ HC) as [H1 H2]. eapply argumentsStep_relays; [exact H1|exact H2|by apply announceTool_relays].
Qed.

(** ** The finish *)

Context (parseJson : text -> option json) (directive : text) (strip : bool).

Definition delivered (t : ToolInfo) : text :=
  if hasToolCallShim (t_name t) then applyToolCallShimToBuffer parseJson stringify (t_name t) (argBuffer t) else argBuffer t.

Lemma closeTool_arguments (t : ToolInfo) i : argumentsOf i (closeTool parseJson stringify t) =
  if decide (blockIndex t = i) then if shimmed t then applyToolCallShimToBuffer parseJson stringify (t_name t) (argBuffer t) else [] else [].
Proof.
  unfold closeTool. rewrite !argumentsOf_app.
  assert (H1 : argumentsOf i (if startEmitted t then [] else [startBlock t]) = []) by by destruct (startEmitted t).
  assert (H2 : argumentsOf i [content_block_stop (blockIndex t)] = []) by done. rewrite H1, H2, app_nil_r. cbn [app].
  destruct (shimmed t); [apply argumentsOf_one|]. by case_decide.
Qed.

Lemma closeTools_arguments (l : list (Z * ToolInfo)) i :
  NoDup (map (fun kv => blockIndex kv.2) l) ->
  (forall kv, kv ∈ l -> blockIndex kv.2 = i ->
     argumentsOf i (concat (map (fun kv => closeTool parseJson stringify kv.2) l)) =
     if shimmed kv.2 then applyToolCallShimToBuffer parseJson stringify (t_name kv.2) (argBuffer kv.2) else []) /\
  ((forall kv, kv ∈ l -> blockIndex kv.2 <> i) -> argumentsOf i (concat (map (fun kv => closeTool parseJson stringify kv.2) l)) = []).
Proof.
  induction l as [|[k t] l IH]; intros Hnd.
  { split; [by intros kv H%not_elem_of_nil|done]. }
  cbn [map concat]. rewrite argumentsOf_app, closeTool_arguments. apply NoDup_cons in Hnd as [Hn Hnd]. destruct (IH Hnd) as [I1 I2]. cbn [snd] in *.
  assert (Hout : blockIndex t = i -> forall kv, kv ∈ l -> blockIndex kv.2 <> i).
  { intros <- kv Hkv E. apply Hn, list_elem_of_In, in_map_iff. exists kv. split; [done|by apply list_elem_of_In]. }
  split.
  - intros kv [->|Hkv]%elem_of_cons Hi; cbn [snd] in *.
    + rewrite decide_True by done. by rewrite I2, app_nil_r by by apply Hout.
    + rewrite decide_False by (intros E; by eapply Hout). cbn. by apply I1.
  - intros Hno. rewrite decide_False by (apply (Hno (k, t)); by left). cbn. apply I2. intros kv Hkv. apply Hno. by right.
Qed.

Lemma mget_map (f : ToolInfo -> ToolInfo) idx (m : jsmap Z ToolInfo) : mget idx (prod_map id f <$> m) = f <$> mget idx m.
Proof. induction m as [|[k t] m IH]; [done|]. cbn. by case_decide. Qed.

Lemma Mute_preamble s : Mute s (emitPreamble directive s).
Proof.
  unfold emitPreamble. destruct (flushStrippers directive s) as [s1 t] eqn:E.
  assert (H : Mute s s1).
  { revert E. unfold flushStrippers. destruct (directiveStripper s) as [d|]; [destruct (flushStripper directive d)|]; cbn;
      (destruct (systemPreambleStripper s) as [q|]; [destruct (flushPreamble q)|]; cbn; intros [= <- <-]; by apply Mute_same). }
  clear E. destruct t as [|c t]; [done|]. eapply Mute_trans; [exact H|]. eapply Mute_trans; [|apply Mute_pushText].
  destruct (negb _ || _); [|apply Mute_refl]. eapply (Mute_push _ _ (content_block_start (nextBlockIndex s1) text_block)); try done. cbn. lia.
Qed.

Lemma Mute_emitReasoning s : Mute s (emitReasoning s).
Proof.
  unfold emitReasoning. destruct (reasoningAccum s) as [|c t]; [apply Mute_refl|]. destruct (negb _ && _); [|apply Mute_refl].
  eapply Mute_trans; [|apply Mute_pushText]. eapply (Mute_push _ _ (content_block_start (nextBlockIndex s) text_block)); try done. cbn. lia.
Qed.

Lemma push_arguments e s i : argumentsOf i [e] = [] -> argumentsOf i (results (push e s)) = argumentsOf i (results s).
Proof. intros H. etransitivity; [exact (argumentsOf_app i (results s) [e])|]. by rewrite H, app_nil_r. Qed.

Lemma Mute_xmlCalls calls s s' : emitXmlCalls calls s = Some s' -> Mute s s'.
Proof.
  revert s. induction calls as [|tc calls IH]; intros s; cbn [emitXmlCalls]; [intros [= <-]; apply Mute_refl|]. destruct (x_name tc); try done.
  intros H. eapply Mute_trans; [|by apply IH]. split_and!; [done|cbn; lia|].
  set (i := nextBlockIndex s). exists [content_block_start i (tool_use (x_id tc) (restoreClaudeToolName (toolNameMap s) s0) (x_args tc)); content_block_stop i].
  split; [|done]. cbn. by rewrite <- app_assoc.
Qed.

Definition Delivered (es : list Event) s : Prop :=
  forall idx t, mget idx (toolInfos s) = Some t -> startBlock t ∈ es /\ argumentsOf (blockIndex t) es = delivered t.

Lemma finishStep_delivered sent p0 reason s s' : Conf p0 s -> Relays sent s -> finishStep parseJson stringify directive reason s = Some s' ->
  Delivered (sent ++ results s') s' /\ forall idx, buffered idx s' = buffered idx s.
Proof.
  intros HC HR. unfold finishStep, finishBlocks.
  assert (HM : Mute s (stopTextBlock (emitReasoning (emitPreamble directive (stopThinkingBlock (s <| claudeFinishEmitted := true |>)))))).
  { eapply Mute_trans; [by apply (Mute_same s (s <| claudeFinishEmitted := true |>))|]. eapply Mute_trans; [apply Mute_stopThinking|].
    eapply Mute_trans; [apply Mute_preamble|]. eapply Mute_trans; [apply Mute_emitReasoning|]. apply Mute_stopText. }
  revert HM. generalize (stopTextBlock (emitReasoning (emitPreamble directive (stopThinkingBlock (s <| claudeFinishEmitted := true |>))))). intros s1 HM.
  pose proof (Mute_Relays _ _ _ HM HR) as [R1 _ _ _ R5 R6]. destruct HM as (HT & _ & _).
  assert (Hnd : NoDup (map (fun kv => blockIndex kv.2) (toolInfos s1)) /\ mwf (toolInfos s1)).
  { destruct HC as (p & _ & Hg). rewrite HT. pose proof (g_wf _ _ Hg) as Hw. split; [|done]. apply NoDup_fmap_2_strong; [|by eapply NoDup_fmap_1].
    intros [k1 t1] [k2 t2] E1 E2 Hb. apply (mget_elem _ _ _ Hw) in E1. apply (mget_elem _ _ _ Hw) in E2. cbn in Hb.
    assert (k1 = k2) by by eapply (g_inj _ _ Hg). congruence. }
  destruct Hnd as [Hnd Hw]. set (s2 := closeTools parseJson stringify s1).
  assert (H2 : Delivered (sent ++ results s2) s2 /\ forall idx, buffered idx s2 = buffered idx s).
  { assert (Hm : toolInfos s2 = prod_map id (fun t => t <| startEmitted := true |>) <$> toolInfos s1) by done.
    assert (Hr : results s2 = results s1 ++ concat (map (fun kv => closeTool parseJson stringify kv.2) (toolInfos s1))) by done.
    split.
    - intros idx t. rewrite Hm, mget_map, Hr. destruct (mget idx (toolInfos s1)) as [u|] eqn:Eu; [|done]. intros [= <-].
      split.
      { change (startBlock (u <| startEmitted := true |>)) with (startBlock u). rewrite app_assoc. destruct (startEmitted u) eqn:Es; apply elem_of_app; [left; by eapply R5|right].
        apply list_elem_of_In, in_concat. exists (closeTool parseJson stringify u). split; [|unfold closeTool; rewrite Es; by left].
        apply in_map_iff. exists (idx, u). split; [done|]. by apply list_elem_of_In, mget_Some_elem. }
      rewrite app_assoc, argumentsOf_app. change (blockIndex (u <| startEmitted := true |>)) with (blockIndex u). rewrite (R1 _ _ Eu).
      destruct (closeTools_arguments (toolInfos s1) (blockIndex u) Hnd) as [Hc _].
      rewrite (Hc (idx, u)); [|by apply mget_Some_elem|done]. unfold delivered. cbn. rewrite <- (R6 _ _ Eu). destruct (shimmed u); [done|]. apply app_nil_r.
    - intros idx. unfold buffered. rewrite Hm, mget_map, HT. by destruct (mget idx (toolInfos s)). }
  clearbody s2. destruct H2 as [HD HB]. destruct (emitXmlCalls _ s2) as [s3|] eqn:Ex; [|done]. cbn [mbind option_bind]. apply Mute_xmlCalls in Ex as (X1 & X2 & X3).
  intros [= <-]. set (s4 := push _ _). assert (Hr4 : toolInfos s4 = toolInfos s2 /\ Adds s2 s4).
  { split; [exact X1|]. eapply Adds_trans; [exact X3|]. subst s4.
    set (s5 := push (message_delta _ _) _). apply (Adds_trans _ s5); [|by apply (Adds_one _ _ message_stop)].
    subst s5. eexists [_]. by split. }
  clearbody s4. destruct Hr4 as [H4 H5]. split.
  - intros idx t. rewrite H4. intros Ht. destruct (HD _ _ Ht) as [D1 D2]. split; [by eapply Adds_elem|]. by rewrite (Adds_arguments _ _ _ _ H5).
  - intros idx. rewrite <- HB. unfold buffered. by rewrite H4.
Qed.

(** ** Whole answers *)

Notation step := (step parseJson stringify directive strip).
Notation answer := (answer parseJson stringify directive strip).
Notation choiceStep := (choiceStep parseJson stringify directive strip).

Definition deltasOf (k : Tick) : list ToolDelta := match k_chunk k ≫= choice0 with Some c => tool_calls (delta c) | None => [] end.

(** A finish that is deferred comes with no tool call. *)
Definition callsApart (k : Tick) : Prop :=
  match k_chunk k with
  | Some ch => match choice0 ch with
               | Some c => finish_reason c = EmptyString \/ c_usage ch <> None \/ tool_calls (delta c) = []
               | None => True
               end
  | None => True
  end.

(** After the deltas [ds] and the events [sent] of earlier calls. *)
Record Handling (sent : list Event) (ds : list ToolDelta) s : Prop := {
  h_relays : Relays sent s;
  h_buffers : forall idx, buffered idx s = assembled idx ds;
  h_pending : forall c, pendingClaudeFinishChoice s = Some c -> tool_calls (delta c) = [];
}.

Definition Handled (sent : list Event) (ds : list ToolDelta) s : Prop :=
  if claudeFinishEmitted s then Delivered (sent ++ results s) s /\ forall idx, buffered idx s = assembled idx ds
  else Handling sent ds s.

Lemma body_tools now uuid ch fl c p sent ds s s' :
  messageStartSent s = true -> claudeFinishEmitted s = false -> Conf p s -> Handling sent ds s ->
  (fl = false -> finish_reason c = EmptyString \/ (exists u, ch ≫= c_usage = Some u) \/ tool_calls (delta c) = []) ->
  choiceStep now uuid ch fl c s = Some s' -> Handled sent (ds ++ tool_calls (delta c)) s'.
Proof.
  intros Hm Hf HC [R1 R2 R3] Hfl. unfold OpenaiToClaude.choiceStep. rewrite Hm. cbn [mbind option_bind].
  pose proof (Mute_reasoning (delta c) s) as M1. pose proof (reasoningStep_frame (delta c) s) as F1.
  apply (reasoningStep_conf _ (delta c)) in HC. remember (reasoningStep (delta c) s) as s1 eqn:Hd. clear Hd.
  destruct (contentStep _ _ _ _ _ (delta c) s1) as [s2|] eqn:E; [|done]. cbn [mbind option_bind].
  pose proof (contentStep_frame _ _ _ _ _ _ _ _ E) as F2. pose proof (Mute_content _ _ _ _ _ _ _ _ E) as M2. apply (contentStep_conf _ _ _ _ _ _ _ _ _ HC) in E.
  pose proof (Mute_trans _ _ _ M1 M2) as M. pose proof (Mute_Relays _ _ _ M R1) as R4. clear M1 M2 HC.
  assert (HB : forall idx, buffered idx s2 = assembled idx ds) by (intros idx; rewrite <- R2; unfold buffered; by rewrite (proj1 M)).
  pose proof (toolSteps_relays _ _ (tool_calls (delta c)) _ E R4) as R5. apply (toolSteps_conf stringify _ (tool_calls (delta c))) in E.
  pose proof (toolSteps_frame stringify (tool_calls (delta c)) s2) as F3.
  assert (HB3 : forall idx, buffered idx (foldl (toolStep stringify) s2 (tool_calls (delta c))) = assembled idx (ds ++ tool_calls (delta c))).
  { intros idx. unfold assembled. by rewrite toolSteps_buffered, HB, foldl_app by exact (rl_ids _ _ R4). }
  remember (foldl (toolStep stringify) s2 (tool_calls (delta c))) as s3 eqn:Hd. clear Hd HB R4 M.
  assert (F : frame s3 = frame s) by congruence. clear F1 F2 F3 s1 s2. injection F as F1 F2 F3 F4 _ _. rewrite Hf in F2. rewrite F2. cbn [negb].
  assert (Hstay : forall o, (forall c', o = Some c' -> tool_calls (delta c') = []) -> Handled sent (ds ++ tool_calls (delta c)) (s3 <| pendingClaudeFinishChoice := o |>)).
  { intros o Ho. unfold Handled. cbn. rewrite F2. constructor; [eapply Mute_Relays; [|exact R5]; by apply Mute_same|exact HB3|exact Ho]. }
  destruct (finish_reason c) as [|b r] eqn:Efr.
  { cbn. intros [= <-]. assert (Hid : s3 = s3 <| pendingClaudeFinishChoice := pendingClaudeFinishChoice s3 |>) by by destruct s3.
    rewrite Hid. apply Hstay. rewrite F3. exact R3. }
  cbn [isEmpty negb andb].
  destruct (negb _ && negb fl) eqn:Ed.
  - intros [= <-]. apply Hstay. intros c' [= <-]. apply andb_true_iff in Ed as [Eu Efl]. apply negb_true_iff in Efl.
    destruct (Hfl Efl) as [?|[[u Hu]|?]]; [done|by rewrite Hu in Eu|done].
  - intros Hfin. pose proof (finishStep_frame _ _ _ _ _ _ Hfin) as G. injection G as _ G2 _ _ _ _. unfold Handled. rewrite G2.
    destruct (finishStep_delivered _ _ _ _ _ E R5 Hfin) as [H1 H2]. split; [exact H1|]. intros idx. by rewrite H2.
Qed.

Lemma Relays_first now ch s : Fresh s -> results s = [] -> Relays [] (startMessage now ch s).
Proof.
  intros (_ & _ & Ht & _) Hr. constructor; unfold Identified; cbn; rewrite ?Ht; try done. intros i _. by rewrite Hr.
Qed.

Lemma choice_tools now uuid ch fl c p sent ds s s' :
  acceptAll proto0 sent = Some p -> Track p s -> results s = [] -> claudeFinishEmitted s = false -> Handling sent ds s ->
  (messageStartSent s = false -> sent = []) ->
  (fl = false -> finish_reason c = EmptyString \/ (exists u, ch ≫= c_usage = Some u) \/ tool_calls (delta c) = []) ->
  choiceStep now uuid ch fl c s = Some s' -> Handled sent (ds ++ tool_calls (delta c)) s'.
Proof.
  intros Ha HT Hr Hf HR Hs Hfl. destruct (messageStartSent s) eqn:Hm; unfold Track in HT; rewrite Hm in HT.
  - rewrite Hf in HT. apply (body_tools now uuid ch fl c p); try done. by exists p; rewrite Hr.
  - destruct HT as (-> & HF & _). intros H. destruct ch as [ch|]; [|unfold OpenaiToClaude.choiceStep in H; by rewrite Hm in H].
    rewrite (Hs eq_refl) in *. destruct HR as [R1 R2 R3].
    assert (HR1 : Handling [] ds (startMessage now ch s)) by (constructor; [by apply Relays_first|exact R2|exact R3]).
    assert (Hs1 : messageStartSent (startMessage now ch s) = true) by done.
    assert (Hs2 : claudeFinishEmitted (startMessage now ch s) = false) by exact Hf.
    pose proof (startMessage_conf now ch s HF Hr) as HC.
    unfold OpenaiToClaude.choiceStep in H. rewrite Hm in H. cbn [mbind option_bind] in H.
    remember (startMessage now ch s) as s1 eqn:Hd. clear Hd.
    apply (body_tools now uuid (Some ch) fl c proto0 [] ds s1); try done. unfold OpenaiToClaude.choiceStep. rewrite Hs1. exact H.
Qed.

Lemma step_tools p k sent ds s s' :
  acceptAll proto0 sent = Some p -> Track p s -> claudeFinishEmitted s = false -> Handling sent ds (s <| results := [] |>) ->
  (messageStartSent s = false -> sent = []) -> callsApart k ->
  step k s = Some s' -> Handled sent (ds ++ deltasOf k) s'.
Proof.
  intros Hacc HT Hf HR Hs Ha. unfold OpenaiToClaude.step, openaiToClaudeResponse. cbv zeta.
  assert (H : exists u, match k_chunk k with Some c => trackUsageFromChunk c (s <| results := [] |>) | None => s <| results := [] |> end = s <| results := [] |> <| usage := u |>).
  { destruct (k_chunk k) as [c|]; [unfold trackUsageFromChunk; destruct (c_usage c); eauto|]; exists (usage s); by destruct s. }
  destruct H as [u ->]. apply (Track_usage _ _ u) in HT.
  assert (HR1 : Handling sent ds (s <| results := [] |> <| usage := u |>)).
  { destruct HR as [R1 R2 R3]. constructor; [eapply Mute_Relays; [|exact R1]; by apply Mute_same|exact R2|exact R3]. }
  assert (Hr : results (s <| results := [] |> <| usage := u |>) = []) by done.
  assert (Hf1 : claudeFinishEmitted (s <| results := [] |> <| usage := u |>) = false) by exact Hf.
  assert (Hs1 : messageStartSent (s <| results := [] |> <| usage := u |>) = false -> sent = []) by exact Hs.
  remember (s <| results := [] |> <| usage := u |>) as s1 eqn:Hd. clear Hd Hf s u HR Hs.
  unfold deltasOf, callsApart in *. destruct (k_chunk k ≫= choice0) as [c|] eqn:Ec.
  - destruct (k_chunk k) as [ch|] eqn:Ech; [|done]. cbn in Ec. rewrite Ec in Ha. apply (choice_tools _ _ _ _ _ p); try done.
    intros _. destruct Ha as [?|[Hu|?]]; [by left| |by right; right]. right. left. cbn. destruct (c_usage ch); [by eauto|done].
  - destruct (pendingClaudeFinishChoice s1) as [c|] eqn:Ep.
    + pose proof (h_pending _ _ _ HR1 _ Ep) as Hc. intros H. rewrite <- Hc.
      eapply (choice_tools _ _ _ _ _ p); [exact Hacc|..|exact H]; try done.
      * revert HT. unfold Track. cbn. destruct (messageStartSent s1); [|intros (? & (? & ? & ? & ?) & ?); congruence].
        rewrite Hf1. intros HT. by eapply Good_core; [|exact HT].
      * destruct HR1 as [R1 R2 R3]. constructor; [eapply Mute_Relays; [|exact R1]; by apply Mute_same|exact R2|done].
    + intros [= <-]. unfold Handled. rewrite Hf1, app_nil_r. done.
Qed.

(** Between two calls the events of the last one belong to what was sent. *)
Lemma Handling_next sent ds s : Handling sent ds s -> Handling (sent ++ results s) ds (s <| results := [] |>).
Proof.
  intros [[R1 R2 R3 R4 R5 R6] HB HP]. constructor; [|exact HB|exact HP]. constructor; cbn [results]; [|exact R2| |exact R4| |exact R6];
    intros *; change (results (s <| results := [] |>)) with (@nil Event); rewrite app_nil_r; [apply R1|apply R3|apply R5].
Qed.

Lemma answer_tools ks s sent ds s' es p :
  acceptAll proto0 sent = Some p -> Track p s -> claudeFinishEmitted s = false -> Handling sent ds (s <| results := [] |>) ->
  (messageStartSent s = false -> sent = []) -> Forall callsApart ks -> answer ks s sent = Some (s', es) -> 
  if claudeFinishEmitted s' then True
  else Handling es (ds ++ concat (map deltasOf ks)) (s' <| results := [] |>) /\ (messageStartSent s' = false -> es = []) /\
       exists p', acceptAll proto0 es = Some p' /\ Track p' s'.
Proof.
  revert s sent ds p. induction ks as [|k ks IH]; intros s sent ds p Ha HT Hf HR Hs Hk; cbn [OpenaiToClaude.answer map concat].
  { intros [= <- <-]. rewrite Hf, app_nil_r. split_and!; eauto. }
  rewrite Hf. destruct (step k s) as [s1|] eqn:E; [|done]. cbn [mbind option_bind]. intros H. apply Forall_cons in Hk as [Hk1 Hk].
  destruct (step_track _ _ _ _ _ _ _ _ HT Hf E) as (p1 & Ha1 & HT1). pose proof (step_tools _ _ _ _ _ _ Ha HT Hf HR Hs Hk1 E) as HH.
  unfold Handled in HH. destruct (claudeFinishEmitted s1) eqn:Ef1.
  { destruct ks as [|k' ks']; cbn [OpenaiToClaude.answer] in H; [|rewrite Ef1 in H]; injection H as <- _; by rewrite Ef1. }
  rewrite app_assoc. eapply (IH s1 (sent ++ results s1)); try done; [by rewrite acceptAll_app, Ha|by apply Handling_next|].
  intros Hm. revert HT1. unfold Track. rewrite Hm. intros (-> & _ & _).
  assert (Hfull : acceptAll proto0 (sent ++ results s1) = Some proto0) by by rewrite acceptAll_app, Ha.
  destruct (sent ++ results s1) as [|e es1]; [done|]. exfalso. cbn [acceptAll] in Hfull. destruct (accept proto0 e) as [q|] eqn:Eq; [|done]. cbn in Hfull.
  assert (Hst : forall es q q', acceptAll q es = Some q' -> stage q <> Before -> stage q' <> Before).
  { clear. induction es as [|e es IH]; intros q q'; cbn [acceptAll]; [by intros [= <-]|]. destruct (accept q e) as [q1|] eqn:E; [|done]. cbn. intros H Hq. eapply IH; [exact H|].
    unfold accept in E. destruct (stage q) eqn:Es; [done|..]; destruct e; try done; repeat case_match; simplify_eq; try done; cbn; congruence. }
  eapply Hst; [exact Hfull| |done]. unfold accept in Eq. cbn in Eq. destruct e; try done. by injection Eq as <-.
Qed.
End Assembly.

(** ** What the fragments of a call say

    Told without the code's own buffer, from the deltas as the upstream sent them. *)

Definition fragmentOf (stringify : json -> text) (v : option json) : text :=
  match v with Some (VStr t) => str t | Some (VObj f) => stringify (VObj f) | Some (VArr l) => stringify (VArr l) | _ => [] end.

(** From the first delta with an id on. *)
Fixpoint sinceId (ds : list ToolDelta) : list ToolDelta :=
  match ds with [] => [] | d :: rest => if isEmpty (td_id d) then sinceId rest else ds end.

Definition callDeltas (idx : Z) (ds : list ToolDelta) : list ToolDelta := sinceId (filter (fun d => deltaIndex d = idx) ds).

(** The id that came first. *)
Definition callId (idx : Z) (ds : list ToolDelta) : option string := sanitizeToolId ∘ td_id <$> head (callDeltas idx ds).

Definition callFragments (stringify : json -> text) (idx : Z) (ds : list ToolDelta) : list text :=
  map (fragmentOf stringify ∘ td_arguments) (callDeltas idx ds).

(** A fragment that begins with all there is replaces it; any other is added to it. *)
Inductive Told : list text -> text -> Prop :=
  | told_none : Told [] []
  | told_again fs a r : Told fs a -> Told (fs ++ [a ++ r]) (a ++ r)
  | told_more fs a f : Told fs a -> (forall r, f <> a ++ r) -> Told (fs ++ [f]) (a ++ f).

(** The two ways to send arguments: piece by piece, no piece beginning with all that came
    before; or all there is each time. *)
Fixpoint piecewise (before : text) (fs : list text) : bool :=
  match fs with [] => true | f :: fs => (bool_decide (before = []) || negb (startsWith f before)) && piecewise (before ++ f) fs end.

Fixpoint cumulative (before : text) (fs : list text) : bool :=
  match fs with [] => true | f :: fs => startsWith f before && cumulative f fs end.

Lemma piecewise_snoc before fs f : piecewise before (fs ++ [f]) =
  piecewise before fs && (bool_decide (before ++ concat fs = []) || negb (startsWith f (before ++ concat fs))).
Proof.
  revert before. induction fs as [|g fs IH]; intros before; cbn [app piecewise concat]; [by rewrite app_nil_r, andb_true_r|].
  by rewrite IH, <- app_assoc, andb_assoc.
Qed.

Lemma cumulative_snoc before fs f : cumulative before (fs ++ [f]) = cumulative before fs && startsWith f (default before (last fs)).
Proof.
  revert before. induction fs as [|g fs IH]; intros before; [apply andb_true_r|].
  cbn [app cumulative]. rewrite IH, last_cons, andb_assoc. by destruct (last fs).
Qed.

Lemma told_piecewise fs a : Told fs a -> piecewise [] fs = true -> a = concat fs.
Proof.
  induction 1 as [|fs a r H IH|fs a f H IH Hne]; [done|..]; rewrite piecewise_snoc, concat_app; cbn [app concat]; rewrite app_nil_r;
    intros [Hp Hs]%andb_true_iff; specialize (IH Hp); rewrite <- IH in *; [|done].
  case_bool_decide as E; [by rewrite E|]. by rewrite startsWith_app in Hs.
Qed.

Lemma told_cumulative fs a : Told fs a -> cumulative [] fs = true -> a = default [] (last fs).
Proof.
  induction 1 as [|fs a r H IH|fs a f H IH Hne]; [done|by rewrite last_snoc|]. rewrite cumulative_snoc, last_snoc.
  intros [Hp Hs]%andb_true_iff. rewrite <- (IH Hp) in Hs. apply startsWith_split in Hs. by apply Hne in Hs.
Qed.

Lemma sinceId_app ds d : sinceId (ds ++ [d]) = match sinceId ds with [] => sinceId [d] | l => l ++ [d] end.
Proof. induction ds as [|e ds IH]; [done|]. cbn [app sinceId]. by case_if. Qed.

Lemma callDeltas_snoc idx ds d : callDeltas idx (ds ++ [d]) =
  if decide (deltaIndex d = idx) then match callDeltas idx ds with [] => sinceId [d] | l => l ++ [d] end else callDeltas idx ds.
Proof.
  unfold callDeltas. rewrite filter_app, filter_cons. cbn [filter list_filter]. case_decide; [apply sinceId_app|by rewrite app_nil_r].
Qed.

Lemma told_append (stringify : json -> text) fs a v : Told fs a ->
  Told (fs ++ [fragmentOf stringify v]) (if truthy v then appendToolCallArgumentDelta stringify a v else a).
Proof.
  intros H.
  assert (Hn : fragmentOf stringify v = if truthy v then normalizeIncomingFragment stringify v else []).
  { destruct v as [[|b|n|t|l|m]|]; try done; cbn; [by destruct b|by destruct n; [case_if|]|by destruct t]. }
  assert (Hnil : fragmentOf stringify v = [] -> Told (fs ++ [fragmentOf stringify v]) a).
  { intros ->. destruct a as [|c a]; [exact (told_again _ _ [] H)|]. rewrite <- (app_nil_r (c :: a)). by apply told_more. }
  destruct (truthy v); [|by apply Hnil]. unfold appendToolCallArgumentDelta. rewrite <- Hn in *. revert Hnil. generalize (fragmentOf stringify v). clear Hn.
  intros f Hnil. destruct a as [|c a]; [exact (told_again _ _ f H)|]. destruct f as [|c' f]; [by apply Hnil|].
  case_bool_decide as Heq; [rewrite Heq; rewrite <- (app_nil_r (c :: a)); by apply told_again|]. destruct (startsWith (c' :: f) (c :: a)) eqn:E.
  - apply startsWith_split in E. rewrite E. by apply told_again.
  - apply told_more; [done|]. intros r Hr. rewrite Hr, startsWith_app in E. done.
Qed.

(** The code's buffer holds what the fragments say. *)
Lemma assembled_told stringify idx ds :
  match assembled stringify idx ds with
  | None => callDeltas idx ds = []
  | Some (id, a) => callId idx ds = Some id /\ Told (callFragments stringify idx ds) a
  end.
Proof.
  induction ds as [|d ds IH] using rev_ind; [done|]. unfold assembled in *. rewrite foldl_app. cbn [foldl].
  unfold assembleStep at 1, callId, callFragments. rewrite callDeltas_snoc. unfold callId, callFragments in IH. case_decide; [|done].
  destruct (foldl _ None ds) as [[id a]|]; cbn [openCall fmap option_fmap option_map].
  - destruct IH as [IH1 IH2]. destruct (callDeltas idx ds) as [|e l]; [done|]. split; [done|].
    rewrite map_app. by apply told_append.
  - rewrite IH. unfold sinceId, openCall. destruct (isEmpty (td_id d)); [done|]. split; [done|]. exact (told_append stringify [] [] _ told_none).
Qed.

(** What the client gets of the call at [idx], against what the upstream sent of it. *)
Definition deliveredCall (parseJson : text -> option json) (stringify : json -> text) (ds : list ToolDelta) (s : State) (es : list Event) (idx : Z) : Prop :=
  match callId idx ds with
  | Some id =>
      exists t a, mget idx (toolInfos s) = Some t /\ Told (callFragments stringify idx ds) a /\
        content_block_start (blockIndex t) (tool_use id (t_name t) (VObj [])) ∈ es /\
        argumentsOf (blockIndex t) es = if hasToolCallShim (t_name t) then applyToolCallShimToBuffer parseJson stringify (t_name t) a else a
  | None => mget idx (toolInfos s) = None
  end.

Lemma answer_delivers (parseJson : text -> option json) (stringify : json -> text) (directive : text) (strip : bool)
    (thinking : option bool) (names : jsmap string string) (ks : list Tick) (k : Tick) (s0 s : State) (es0 es : list Event) :
  Forall callsApart (ks ++ [k]) ->
  answer parseJson stringify directive strip ks (initState thinking names) [] = Some (s0, es0) -> claudeFinishEmitted s0 = false ->
  answer parseJson stringify directive strip (ks ++ [k]) (initState thinking names) [] = Some (s, es) -> claudeFinishEmitted s = true ->
  forall idx, deliveredCall parseJson stringify (concat (map deltasOf (ks ++ [k]))) s es idx.
Proof.
  intros Hk H0 Hf0. rewrite answer_app, H0. cbn [mbind option_bind OpenaiToClaude.answer]. rewrite Hf0. apply Forall_app in Hk as [Hk Hk1].
  apply Forall_cons in Hk1 as [Hk1 _].
  assert (HH : Handling stringify [] [] ((initState thinking names) <| results := [] |>)) by by constructor.
  pose proof (answer_tools stringify parseJson directive strip ks _ [] [] s0 es0 proto0 eq_refl (Track_init thinking names) eq_refl HH (fun _ => eq_refl) Hk H0) as HA.
  rewrite Hf0 in HA. destruct HA as (HR & Hs & p & Ha & HT). cbn [app] in HR.
  destruct (OpenaiToClaude.step _ _ _ _ k s0) as [s1|] eqn:E; [|done]. cbn [mbind option_bind]. intros [= <- <-] Hf idx.
  pose proof (step_tools stringify parseJson directive strip _ _ _ _ _ _ Ha HT Hf0 HR Hs Hk1 E) as HD. unfold Handled in HD. rewrite Hf in HD. destruct HD as [HD HB].
  rewrite map_app, concat_app. cbn [map concat]. rewrite app_nil_r. specialize (HB idx).
  pose proof (assembled_told stringify idx (concat (map deltasOf ks) ++ deltasOf k)) as HA. rewrite <- HB in HA.
  unfold deliveredCall. unfold buffered in HA. destruct (mget idx (toolInfos s1)) as [t|] eqn:Et; cbn in HA.
  - destruct HA as [-> HA]. destruct (HD _ _ Et) as [D1 D2]. exists t, (argBuffer t). by split_and!.
  - unfold callId. by rewrite HA.
Qed.

(** C24. A tool call arrives as the upstream sent it, however it is
    cut into fragments and whatever comes between.  Where some delta of the index brought an
    id, one block is announced under the id that came first, and its deltas add up to
    the fragments sent since then: all of them in a row when they were
    sent piece by piece, the last one when each repeats what came before, and otherwise
    what replacing at each repetition leaves; for a tool whose arguments are corrected
    they are the one corrected object.  Where none brought an id no tool is kept.  (The
    condition: a chunk that brings the finish reason without the usage brings no tool
    call.) *)
Theorem tool_arguments_delivered (parseJson : text -> option json) (stringify : json -> text) (directive : text) (strip : bool)
    (thinking : option bool) (names : jsmap string string) (ks : list Tick) (k : Tick) (s0 s : State) (es0 es : list Event) :
  Forall callsApart (ks ++ [k]) ->
  answer parseJson stringify directive strip ks (initState thinking names) [] = Some (s0, es0) -> claudeFinishEmitted s0 = false ->
  answer parseJson stringify directive strip (ks ++ [k]) (initState thinking names) [] = Some (s, es) -> claudeFinishEmitted s = true ->
  forall idx,
  let ds := concat (map deltasOf (ks ++ [k])) in
  let fs := callFragments stringify idx ds in
  match callId idx ds with
  | Some id => exists t a, mget idx (toolInfos s) = Some t /\
      content_block_start (blockIndex t) (tool_use id (t_name t) (VObj [])) ∈ es /\
      Told fs a /\ (piecewise [] fs = true -> a = concat fs) /\ (cumulative [] fs = true -> a = default [] (last fs)) /\
      argumentsOf (blockIndex t) es = if hasToolCallShim (t_name t) then applyToolCallShimToBuffer parseJson stringify (t_name t) a else a
  | None => mget idx (toolInfos s) = None
  end.
Proof.
  intros Hk H0 Hf0 H Hf idx ds fs. pose proof (answer_delivers _ _ _ _ _ _ _ _ _ _ _ _ Hk H0 Hf0 H Hf idx) as HD. unfold deliveredCall in HD.
  fold ds in HD. destruct (callId idx ds) as [id|]; [|done]. destruct HD as (t & a & H1 & H2 & H3 & H4). exists t, a.
  split_and!; try done; [by apply told_piecewise|by apply told_cumulative].
Qed.

Lemma tool_arguments_delivered_witness :
  exists s0 es0 s es, answer noJson noText [] false (take 9 sampleStream) (initState None []) [] = Some (s0, es0) /\
    answer noJson noText [] false (take 9 sampleStream ++ [tick None]) (initState None []) [] = Some (s, es) /\
    exists t, mget 0 (toolInfos s) = Some t /\
      content_block_start (blockIndex t) (tool_use "a_1" (t_name t) (VObj [])) ∈ es /\
      argumentsOf (blockIndex t) es = (if hasToolCallShim (t_name t) then applyToolCallShimToBuffer noJson noText (t_name t) (str "[1,2]") else str "[1,2]").
Proof.
  destruct (answer noJson noText [] false (take 9 sampleStream) (initState None []) []) as [[s0 es0]|] eqn:E0; [|vm_compute in E0; discriminate].
  destruct (answer noJson noText [] false (take 9 sampleStream ++ [tick None]) (initState None []) []) as [[s es]|] eqn:E; [|vm_compute in E; discriminate].
  exists s0, es0, s, es. split; [reflexivity|]. split; [reflexivity|].
  destruct (tool_arguments_delivered noJson noText [] false None [] (take 9 sampleStream) (tick None) s0 s es0 es) with (idx := 0)
    as (t & a & H1 & H2 & H3 & H4 & _ & H5).
  - repeat first [apply Forall_nil; exact I | apply Forall_cons; split; [first [exact I | left; reflexivity | right; right; reflexivity]|]].
  - exact E0.
  - revert E0. vm_compute. by intros [= <- _].
  - exact E.
  - revert E. vm_compute. by intros [= <- _].
  - exists t. split; [exact H1|]. split; [exact H2|]. rewrite H5, H4; [reflexivity|vm_compute; reflexivity].
Defined.
