(* ===== verification/ClaudeToOpenai.v ===== *)
(** * Claude events to OpenAI chunks: [translator/response/claude-to-openai.ts]

    [claudeToOpenAIResponse], whole, with [convertStopReason].  The state object is a
    record; the chunks a call returns are collected in it.  [created] is left out of a
    chunk.  A field of an event is kept with the type the protocol gives it: a number
    that is not one is [None], an absent id or reason is empty.  Of the usage in
    the state, prompt_tokens and completion_tokens are copies of the two counts
    kept. *)
From Stdlib Require Import String Ascii.
From S2P Require Import Prelude JsMap JsString ComboSteps ThinkTags ClaudeProtocol.
#[local] Open Scope Z_scope.

(** ** What comes in *)

Record StartUsage := mkStartUsage {
  su_input_tokens : option Z;
  su_prompt_tokens : option Z;
  su_output_tokens : option Z;
  su_completion_tokens : option Z;
  su_cache_read : option Z;
  su_cache_creation : option Z;
}.

Record DeltaUsage := mkDeltaUsage {
  du_input_tokens : option Z;
  du_output_tokens : option Z;
  du_thinking_tokens : option Z;
  du_cache_read : option Z;
  du_cache_creation : option Z;
}.

Inductive UpBlock :=
| up_text
| up_thinking
| up_tool_use (id name : string)
| up_other_block.

Inductive UpDelta :=
| up_text_delta (t : text)
| up_thinking_delta (t : text)
| up_input_json_delta (t : text)
| up_other_delta.

Inductive UpEvent :=
| up_message_start (id : string) (model : option string) (u : option StartUsage)
| up_block_start (index : Z) (b : UpBlock)
| up_block_delta (index : Z) (d : UpDelta)
| up_block_stop (index : Z)
| up_message_delta (u : option DeltaUsage) (stop_reason : string) (explanation : option text)
| up_message_stop
| up_other.

(** ** What goes out *)

Inductive OutDelta :=
| role_delta
| reasoning_delta (t : text)
| content_delta (t : text)
| tool_start (index : option Z) (id name : string)
| tool_arguments (index : option Z) (t : text)
| empty_delta.

Record OpenAIUsage := mkOUsage {
  o_prompt_tokens : Z;
  o_completion_tokens : Z;
  o_total_tokens : Z;
  o_reasoning_tokens : option Z;
  o_cached_tokens : option Z;
  o_cache_creation_tokens : option Z;
}.

Record OutChunk := mkOutChunk {
  o_id : string;
  o_model : option string;
  o_delta : OutDelta;
  o_finish : option string;
  o_usage : option OpenAIUsage;
}.

(** ** The state *)

Record StateUsage := mkStateUsage {
  st_input_tokens : Z;
  st_output_tokens : Z;
  st_reasoning_tokens : option Z;
  st_cache_read : option Z;
  st_cache_creation : option Z;
}.

(** An entry of [toolCalls]; the index is [None] for NaN. *)
Record ToolCall := mkToolCall { tc_index : option Z; tc_id : string; tc_name : string; tc_arguments : text }.

Record Conv := mkConv {
  cv_messageId : string;
  cv_model : option string;
  toolCallIndex : option Z;
  thinkState : option ThinkState;
  cv_usage : option StateUsage;
  inThinkingBlock : bool;
  currentBlockIndex : option Z;
  pendingThinkClose : bool;
  suppressThinkClose : bool;
  cv_toolCalls : jsmap Z ToolCall;
  cv_toolNameMap : jsmap string string;
  hasResponseId : bool;
  cv_finishReason : string;
  finishReasonSent : bool;
  cv_results : list OutChunk;
}.

#[export] Instance eta_Conv : Eta Conv := fun s =>
  mkConv (cv_messageId s) (cv_model s) (toolCallIndex s) (thinkState s) (cv_usage s) (inThinkingBlock s) (currentBlockIndex s)
    (pendingThinkClose s) (suppressThinkClose s) (cv_toolCalls s) (cv_toolNameMap s) (hasResponseId s) (cv_finishReason s)
    (finishReasonSent s) (cv_results s).

(** [initState] of translator/index.ts with what stream.ts adds; an unset messageId
    is printed as null. *)
Definition initConv (suppress : bool) (names : jsmap string string) (responses : bool) : Conv :=
  mkConv "null" None None None None false None false suppress [] names responses "" false [].

Definition createChunk (s : Conv) (d : OutDelta) (finish : option string) (u : option OpenAIUsage) : OutChunk :=
  mkOutChunk ("chatcmpl-" +:+ cv_messageId s) (cv_model s) d finish u.

Definition emitChunk (d : OutDelta) (s : Conv) : Conv := s <| cv_results := cv_results s ++ [createChunk s d None None] |>.

(** ** Usage *)

(** [typeof a === number ? a : b]. *)
Definition numberOr (a : option Z) (b : Z) : Z := orElse a b.

Definition positive (n : Z) : option Z := if n >? 0 then Some n else None.

(** [None] leaves the state's usage. *)
Definition startUsageOf (u : StartUsage) : option StateUsage :=
  let inputTokens := numberOr (su_input_tokens u) (numberOr (su_prompt_tokens u) 0) in
  let outputTokens := numberOr (su_output_tokens u) (numberOr (su_completion_tokens u) 0) in
  let cacheRead := numberOr (su_cache_read u) 0 in
  let cacheCreation := numberOr (su_cache_creation u) 0 in
  if (inputTokens >? 0) || (outputTokens >? 0) || (cacheRead >? 0) || (cacheCreation >? 0)
  then Some (mkStateUsage (inputTokens + cacheRead) outputTokens None (positive cacheRead) (positive cacheCreation))
  else None.

(** [a || b] on numbers. *)
Definition orNumber (a b : Z) : Z := if a =? 0 then b else a.

Definition deltaUsageOf (u : DeltaUsage) (previous : option StateUsage) : StateUsage :=
  let previousInputTokens := match previous with Some p => st_input_tokens p | None => 0 end in
  let previousCacheReadTokens := numberOr (previous ≫= st_cache_read) 0 in
  let previousCacheCreationTokens := numberOr (previous ≫= st_cache_creation) 0 in
  let inputTokens := numberOr (du_input_tokens u) 0 in
  let cacheReadTokens := numberOr (du_cache_read u) 0 in
  let cacheCreationTokens := numberOr (du_cache_creation u) 0 in
  let billableInputTokens :=
    if (inputTokens >? 0) || (cacheReadTokens >? 0) || (cacheCreationTokens >? 0) then inputTokens + cacheReadTokens else previousInputTokens in
  mkStateUsage billableInputTokens (numberOr (du_output_tokens u) 0) (du_thinking_tokens u)
    (positive (orNumber cacheReadTokens previousCacheReadTokens)) (positive (orNumber cacheCreationTokens previousCacheCreationTokens)).

(** The usage of the final chunk. *)
Definition finalUsage (u : StateUsage) : OpenAIUsage :=
  mkOUsage (st_input_tokens u) (st_output_tokens u) (st_input_tokens u + st_output_tokens u) (st_reasoning_tokens u)
    (positive (numberOr (st_cache_read u) 0)) (positive (numberOr (st_cache_creation u) 0)).

Definition finalChunk (reason : string) (s : Conv) : Conv :=
  s <| cv_results := cv_results s ++ [createChunk s empty_delta (Some reason) (finalUsage <$> cv_usage s)] |> <| finishReasonSent := true |>.

Definition convertStopReason (reason : string) : string :=
  if String.eqb reason "end_turn" then "stop"
  else if String.eqb reason "max_tokens" then "length"
  else if String.eqb reason "tool_use" then "tool_calls"
  else if String.eqb reason "stop_sequence" then "stop"
  else if String.eqb reason "refusal" then "content_filter" else "stop".

Definition THINK_CLOSE_MARK : text := str "</think>".

(** The deferred marker: sent unless suppressed, and forgotten. *)
Definition flushThinkClose (s : Conv) : Conv :=
  (if suppressThinkClose s then s else emitChunk (content_delta THINK_CLOSE_MARK) s) <| pendingThinkClose := false |>.

Definition emitUnlessEmpty (f : text -> OutDelta) (t : text) (s : Conv) : Conv := match t with [] => s | _ => emitChunk (f t) s end.

(** ** One handler per event *)

Section Convert.
(** [shouldParseTextualReasoningTags(provider, model)] of the state's provider, and the
    text of Date.now(). *)
Context (parses : option string -> bool) (now : string).

Definition onMessageStart (id : string) (model : option string) (u : option StartUsage) (s : Conv) : Conv :=
  let s := s <| cv_messageId := if isEmpty id then "msg_" +:+ now else id |> <| cv_model := model |> <| toolCallIndex := Some 0 |>
             <| thinkState := Some (initThinkState true (parses model)) |> in
  let s := match u ≫= startUsageOf with Some v => s <| cv_usage := Some v |> | None => s end in
  emitChunk role_delta s.

Definition onBlockStart (index : Z) (b : UpBlock) (s : Conv) : Conv :=
  match b with
  | up_text | up_other_block => s
  | up_thinking => emitChunk (reasoning_delta []) (s <| inThinkingBlock := true |> <| currentBlockIndex := Some index |>)
  | up_tool_use id name =>
      let i := toolCallIndex s in
      let toolName := match mget name (cv_toolNameMap s) with Some n => if isEmpty n then name else n | None => name end in
      emitChunk (tool_start i id toolName)
        (s <| toolCallIndex := Z.succ <$> i |> <| cv_toolCalls := mset index (mkToolCall i id toolName []) (cv_toolCalls s) |>)
  end.

Definition onText (t : text) (s : Conv) : Conv :=
  match t with
  | [] => s
  | _ =>
      let s := if pendingThinkClose s then flushThinkClose s else s in
      let '(s, d) := match thinkState s with
                     | Some k => let '(k, d, _) := applyThinkTag k (mkDelta (Some t) None) in (s <| thinkState := Some k |>, d)
                     | None => (s, mkDelta (Some t) None)
                     end in
      emitUnlessEmpty content_delta (orElse (content d) []) (emitUnlessEmpty reasoning_delta (orElse (reasoning_content d) []) s)
  end.

Definition onInputJson (index : Z) (t : text) (s : Conv) : Conv :=
  match t with
  | [] => s
  | _ =>
      match mget index (cv_toolCalls s) with
      | Some c =>
          emitChunk (tool_arguments (tc_index c) t)
            (s <| cv_toolCalls := mset index (mkToolCall (tc_index c) (tc_id c) (tc_name c) (tc_arguments c ++ t)) (cv_toolCalls s) |>)
      | None => s
      end
  end.

Definition onBlockDelta (index : Z) (d : UpDelta) (s : Conv) : Conv :=
  match d with
  | up_text_delta t => onText t s
  | up_thinking_delta t => emitUnlessEmpty reasoning_delta t s
  | up_input_json_delta t => onInputJson index t s
  | up_other_delta => s
  end.

Definition flushTags (s : Conv) : Conv :=
  match thinkState s with
  | Some k =>
      if active k then
        let '(k, (r, c)) := flushThinkBuffer k in
        emitUnlessEmpty content_delta c (emitUnlessEmpty reasoning_delta r (s <| thinkState := Some k |>))
      else s
  | None => s
  end.

Definition onBlockStop (index : Z) (s : Conv) : Conv :=
  let s := flushTags s in
  if inThinkingBlock s && bool_decide (Some index = currentBlockIndex s)
  then s <| pendingThinkClose := true |> <| inThinkingBlock := false |> else s.

Definition refusalText (stop_reason : string) (explanation : option text) : text :=
  if String.eqb stop_reason "refusal" then
    match explanation with Some t => if bool_decide (trimText t = []) then [] else t | None => [] end
  else [].

Definition onMessageDelta (u : option DeltaUsage) (stop_reason : string) (explanation : option text) (s : Conv) : Conv :=
  let s := match u with Some v => s <| cv_usage := Some (deltaUsageOf v (cv_usage s)) |> | None => s end in
  if isEmpty stop_reason then s
  else
    let s := if pendingThinkClose s && bool_decide (cv_toolCalls s = []) then flushThinkClose s else s in
    let s := emitUnlessEmpty content_delta (refusalText stop_reason explanation) s in
    let reason := if String.eqb stop_reason "pause_turn" && hasResponseId s then "pause_turn"%string else convertStopReason stop_reason in
    finalChunk reason (s <| cv_finishReason := reason |>).

Definition onMessageStop (s : Conv) : Conv :=
  if finishReasonSent s then s
  else finalChunk (if isEmpty (cv_finishReason s) then (if bool_decide (cv_toolCalls s = []) then "stop" else "tool_calls") else cv_finishReason s)%string s.

(** The chunks are the [cv_results] of the new state. *)
Definition claudeToOpenAIResponse (e : UpEvent) (s : Conv) : Conv :=
  let s := s <| cv_results := [] |> in
  match e with
  | up_message_start id model u => onMessageStart id model u s
  | up_block_start index b => onBlockStart index b s
  | up_block_delta index d => onBlockDelta index d s
  | up_block_stop index => onBlockStop index s
  | up_message_delta u reason explanation => onMessageDelta u reason explanation s
  | up_message_stop => onMessageStop s
  | up_other => s
  end.

(** A stream of events: the last state and all the chunks. *)
Fixpoint convert (es : list UpEvent) (s : Conv) : Conv * list OutChunk :=
  match es with
  | [] => (s, [])
  | e :: es => let s := claudeToOpenAIResponse e s in let '(s', cs) := convert es s in (s', cv_results s ++ cs)
  end.
End Convert.
