(* ===== verification/ClaudeToOpenaiFacts.v ===== *)
(** * What an OpenAI client gets from a Claude stream

    Theorems about [ClaudeToOpenai]: the chunks of a message obey what a client of
    the chat completions stream relies on; text, reasoning and the arguments of tool
    calls are relayed whole; tags in the text are split off as the parser of whole
    texts would. *)
From Stdlib Require Import String Ascii.
From S2P Require Import Prelude JsMap JsString ComboSteps ThinkTags ClaudeProtocol ClaudeToOpenai.
#[local] Open Scope Z_scope.

(** ** The client *)

(** What a client has read: the role, so many tool calls, the finish reason. *)
Record Reader := mkReader { r_started : bool; r_calls : nat; r_ended : bool }.

Definition reader0 : Reader := mkReader false 0 false.

(** [None] refuses the chunk: nothing follows the finish reason, the role comes first and
    once, tool calls are numbered from zero, arguments belong to a call announced. *)
Definition acceptChunk (r : Reader) (c : OutChunk) : option Reader :=
  if r_ended r then None
  else match o_finish c with
  | Some _ => if r_started r && (match o_delta c with empty_delta => true | _ => false end) then Some (mkReader true (r_calls r) true) else None
  | None =>
      match o_delta c with
      | role_delta => if r_started r then None else Some (mkReader true 0 false)
      | reasoning_delta _ | content_delta _ => if r_started r then Some r else None
      | tool_start (Some i) _ _ => if r_started r && (i =? Z.of_nat (r_calls r)) then Some (mkReader true (S (r_calls r)) false) else None
      | tool_arguments (Some i) _ => if r_started r && (0 <=? i) && (i <? Z.of_nat (r_calls r)) then Some r else None
      | _ => None
      end
  end.

Fixpoint acceptChunks (r : Reader) (cs : list OutChunk) : option Reader :=
  match cs with [] => Some r | c :: cs => r ← acceptChunk r c; acceptChunks r cs end.

Lemma acceptChunks_app r cs1 cs2 : acceptChunks r (cs1 ++ cs2) = (r ← acceptChunks r cs1; acceptChunks r cs2).
Proof. revert r. induction cs1 as [|c cs1 IH]; intros r; [done|]. cbn [app acceptChunks]. destruct (acceptChunk r c); [apply IH|done]. Qed.

(** The content, the reasoning, and the arguments of the call numbered [k]. *)
Definition contentIn (c : OutChunk) : text := match o_delta c with content_delta t => t | _ => [] end.
Definition reasoningIn (c : OutChunk) : text := match o_delta c with reasoning_delta t => t | _ => [] end.
Definition argumentsIn (k : nat) (c : OutChunk) : text :=
  match o_delta c with tool_arguments (Some i) t => if i =? Z.of_nat k then t else [] | _ => [] end.

Definition contentsOf (cs : list OutChunk) : text := concat (map contentIn cs).
Definition reasoningsOf (cs : list OutChunk) : text := concat (map reasoningIn cs).
Definition callArguments (k : nat) (cs : list OutChunk) : text := concat (map (argumentsIn k) cs).

Lemma contentsOf_app a b : contentsOf (a ++ b) = contentsOf a ++ contentsOf b.
Proof. unfold contentsOf. by rewrite map_app, concat_app. Qed.
Lemma reasoningsOf_app a b : reasoningsOf (a ++ b) = reasoningsOf a ++ reasoningsOf b.
Proof. unfold reasoningsOf. by rewrite map_app, concat_app. Qed.
Lemma callArguments_app k a b : callArguments k (a ++ b) = callArguments k a ++ callArguments k b.
Proof. unfold callArguments. by rewrite map_app, concat_app. Qed.

(** ** The upstream message *)

(** An event between the start and the finish. *)
Definition isBody (e : UpEvent) : Prop :=
  match e with up_message_start _ _ _ | up_message_stop => False | up_message_delta _ reason _ => reason = EmptyString | _ => True end.

Definition upText (es : list UpEvent) : text := concat (map (fun e => match e with up_block_delta _ (up_text_delta t) => t | _ => [] end) es).
Definition upThinking (es : list UpEvent) : text := concat (map (fun e => match e with up_block_delta _ (up_thinking_delta t) => t | _ => [] end) es).

(** The tool calls in order, with the index of the block. *)
Definition upCalls (es : list UpEvent) : list (Z * string * string) :=
  omap (fun e => match e with up_block_start i (up_tool_use id name) => Some (i, id, name) | _ => None end) es.

(** The fragments for a block, and those since it was started. *)
Definition fragments (i : Z) (es : list UpEvent) : text :=
  concat (map (fun e => match e with up_block_delta j (up_input_json_delta t) => if j =? i then t else [] | _ => [] end) es).

Fixpoint fragmentsSince (i : Z) (es : list UpEvent) : text :=
  match es with
  | [] => []
  | up_block_start j (up_tool_use _ _) :: es => if j =? i then fragments i es else fragmentsSince i es
  | _ :: es => fragmentsSince i es
  end.

Definition message (id : string) (model : option string) (u : option StartUsage) (body : list UpEvent)
    (du : option DeltaUsage) (reason : string) (explanation : option text) : list UpEvent :=
  up_message_start id model u :: body ++ [up_message_delta du reason explanation; up_message_stop].

Section Facts.
Context (parses : option string -> bool) (now : string).

Notation respond := (claudeToOpenAIResponse parses now).
Notation convert := (convert parses now).

Lemma convert_app es1 es2 s :
  convert (es1 ++ es2) s = (let '(s1, c1) := convert es1 s in let '(s2, c2) := convert es2 s1 in (s2, c1 ++ c2)).
Proof.
  revert s. induction es1 as [|e es1 IH]; intros s; cbn [app ClaudeToOpenai.convert]; [by destruct (convert es2 s)|].
  rewrite IH. destruct (convert es1 (respond e s)) as [s1 c1]. destruct (convert es2 s1) as [s2 c2]. by rewrite app_assoc.
Qed.

(** ** The shape of the stream *)

(** Between events of the body: the role was sent and the finish was not, the next call
    has the number of those announced, and every call kept was announced. *)
Record Midway (r : Reader) (s : Conv) : Prop := mkMidway {
  b_started : r_started r = true;
  b_open : r_ended r = false;
  b_next : toolCallIndex s = Some (Z.of_nat (r_calls r));
  b_calls : forall i c, mget i (cv_toolCalls s) = Some c -> exists k, tc_index c = Some (Z.of_nat k) /\ (k < r_calls r)%nat;
  b_unsent : finishReasonSent s = false;
}.

Lemma acceptChunk_plain r s d :
  r_ended r = false -> r_started r = true ->
  match d with reasoning_delta _ | content_delta _ => True | tool_arguments (Some i) _ => 0 <= i < Z.of_nat (r_calls r) | _ => False end ->
  acceptChunk r (createChunk s d None None) = Some r.
Proof.
  intros He Hs. unfold acceptChunk. rewrite He. cbn [o_finish o_delta createChunk]. rewrite Hs.
  destruct d as [| | |[i|] ? ?|[i|] t|]; try done. intros [H1 H2]. by rewrite (proj2 (Z.leb_le _ _) H1), (proj2 (Z.ltb_lt _ _) H2).
Qed.

(** A handler that sends a text does not change what the invariant is about. *)
Lemma Midway_text r s1 s2 :
  toolCallIndex s2 = toolCallIndex s1 -> cv_toolCalls s2 = cv_toolCalls s1 -> finishReasonSent s2 = finishReasonSent s1 -> Midway r s1 -> Midway r s2.
Proof. intros E1 E2 E3 [? ? ? ? ?]. split; try done; [by rewrite E1|by rewrite E2|by rewrite E3]. Qed.

(** What a run of handlers appends is accepted. *)
Definition Appends (r : Reader) (s1 s2 : Conv) : Prop :=
  exists cs, cv_results s2 = cv_results s1 ++ cs /\ acceptChunks r cs = Some r /\ (forall k, callArguments k cs = []) /\
    toolCallIndex s2 = toolCallIndex s1 /\ cv_toolCalls s2 = cv_toolCalls s1 /\ finishReasonSent s2 = finishReasonSent s1.

Lemma Appends_trans r s1 s2 s3 : Appends r s1 s2 -> Appends r s2 s3 -> Appends r s1 s3.
Proof.
  intros (c1 & E1 & A1 & K1 & F1 & G1 & H1) (c2 & E2 & A2 & K2 & F2 & G2 & H2). exists (c1 ++ c2).
  rewrite E2, E1, app_assoc, acceptChunks_app, A1. split_and!; [done|exact A2| |congruence..]. intros k. by rewrite callArguments_app, K1, K2.
Qed.

Lemma Appends_same r s1 s2 :
  cv_results s2 = cv_results s1 -> toolCallIndex s2 = toolCallIndex s1 -> cv_toolCalls s2 = cv_toolCalls s1 ->
  finishReasonSent s2 = finishReasonSent s1 -> Appends r s1 s2.
Proof. intros E ? ? ?. exists []. by rewrite E, app_nil_r. Qed.

Lemma Appends_emit r f t s :
  r_ended r = false -> r_started r = true -> (f = content_delta \/ f = reasoning_delta) -> Appends r s (emitChunk (f t) s).
Proof.
  intros He Hs Hf. exists [createChunk s (f t) None None]. split_and!; try done; [|by destruct Hf as [-> | ->]]. cbn [acceptChunks].
  rewrite acceptChunk_plain; [done..|]. by destruct Hf as [-> | ->].
Qed.

Lemma Appends_unless r f t s :
  r_ended r = false -> r_started r = true -> (f = content_delta \/ f = reasoning_delta) -> Appends r s (emitUnlessEmpty f t s).
Proof. intros. destruct t; [by apply Appends_same|by apply Appends_emit]. Qed.

Lemma Appends_flushThinkClose r s : r_ended r = false -> r_started r = true -> Appends r s (flushThinkClose s).
Proof.
  intros He Hs. unfold flushThinkClose. destruct (suppressThinkClose s); [by apply Appends_same|].
  eapply Appends_trans; [by apply (Appends_emit r content_delta THINK_CLOSE_MARK); auto|by apply Appends_same].
Qed.

Lemma Appends_onText r t s : r_ended r = false -> r_started r = true -> Appends r s (onText t s).
Proof.
  intros He Hs. destruct t as [|c t]; [by apply Appends_same|]. unfold onText. set (s1 := if pendingThinkClose s then _ else s).
  assert (H1 : Appends r s s1) by (subst s1; destruct (pendingThinkClose s); [by apply Appends_flushThinkClose|by apply Appends_same]).
  clearbody s1. eapply Appends_trans; [exact H1|]. destruct (thinkState s1) as [k|].
  - destruct (applyThinkTag k _) as [[k' d] ?]. eapply Appends_trans; [|apply Appends_unless; auto].
    eapply Appends_trans; [|apply Appends_unless; auto]. by apply Appends_same.
  - eapply Appends_trans; [|apply Appends_unless; auto]. by apply Appends_same.
Qed.

Lemma Appends_flushTags r s : r_ended r = false -> r_started r = true -> Appends r s (flushTags s).
Proof.
  intros He Hs. unfold flushTags. destruct (thinkState s) as [k|]; [|by apply Appends_same].
  destruct (active k); [|by apply Appends_same]. destruct (flushThinkBuffer k) as [k' [rr c]].
  eapply Appends_trans; [|apply Appends_unless; auto]. eapply Appends_trans; [|apply Appends_unless; auto]. by apply Appends_same.
Qed.

Lemma Appends_onBlockStop r i s : r_ended r = false -> r_started r = true -> Appends r s (onBlockStop i s).
Proof.
  intros He Hs. unfold onBlockStop. eapply Appends_trans; [by apply Appends_flushTags|]. case_match; by apply Appends_same.
Qed.

Lemma Midway_Appends r s1 s2 :
  Midway r s1 -> Appends r (s1 <| cv_results := [] |>) s2 -> Midway r s2 /\ acceptChunks r (cv_results s2) = Some r.
Proof.
  intros HB (cs & E & A & _ & H1 & H2 & H3). split; [by apply (Midway_text r s1 s2)|]. cbn in E. by rewrite E.
Qed.

Lemma Midway_step r s e :
  isBody e -> Midway r s ->
  exists r', acceptChunks r (cv_results (respond e s)) = Some r' /\ Midway r' (respond e s) /\
    r_calls r' = (r_calls r + length (upCalls [e]))%nat.
Proof.
  intros He HB. pose proof (b_started _ _ HB) as Hs. pose proof (b_open _ _ HB) as Ho. unfold claudeToOpenAIResponse.
  assert (Keep : forall s2, Appends r (s <| cv_results := [] |>) s2 -> upCalls [e] = [] ->
    exists r', acceptChunks r (cv_results s2) = Some r' /\ Midway r' s2 /\ r_calls r' = (r_calls r + length (upCalls [e]))%nat).
  { intros s2 HA Hc. destruct (Midway_Appends _ _ _ HB HA) as [HB2 Hacc]. exists r. rewrite Hc. split_and!; [done..|cbn; lia]. }
  destruct e as [|i b|i d|i|u reason ex| |]; try done.
  - destruct b as [| |id name|]; cbn [onBlockStart]; try (apply Keep; [by apply Appends_same|done]).
    + apply Keep; [|done]. eapply Appends_trans; [|by apply (Appends_emit r reasoning_delta); auto]. by apply Appends_same.
    + clear Keep. cbv zeta. match goal with |- context [tool_start _ id ?n] => generalize n end. intros nm.
      exists (mkReader true (S (r_calls r)) false). split_and!.
      * cbn. unfold acceptChunk. cbn. rewrite Ho, (b_next _ _ HB), Hs, Z.eqb_refl. done.
      * split; cbn; [done..|rewrite (b_next _ _ HB); cbn; f_equal; lia| |apply (b_unsent _ _ HB)].
        intros j c. rewrite (b_next _ _ HB), mget_mset. case_decide; [intros [= <-]; exists (r_calls r); cbn; split; [done|lia]|].
        intros H1. destruct (b_calls _ _ HB _ _ H1) as (k & ? & ?). exists k. split; [done|lia].
      * cbn. lia.
  - destruct d as [t|t|t|]; cbn [onBlockDelta].
    + apply Keep; [by apply Appends_onText|done].
    + apply Keep; [by apply Appends_unless; auto|done].
    + clear Keep. exists r. unfold onInputJson. destruct t as [|c t]; [split_and!; [done|by apply (Midway_text r s)|cbn; lia]|].
      destruct (mget i (cv_toolCalls (s <| cv_results := [] |>))) as [tc|] eqn:E; [|split_and!; [done|by apply (Midway_text r s)|cbn; lia]].
      destruct (b_calls _ _ HB _ _ E) as (k & Hk & Hlt). split_and!.
      * cbn. rewrite Hk. unfold acceptChunk. cbn. rewrite Ho, Hs. cbn [andb].
        by rewrite (proj2 (Z.leb_le 0 (Z.of_nat k)) ltac:(lia)), (proj2 (Z.ltb_lt (Z.of_nat k) (Z.of_nat (r_calls r))) ltac:(lia)).
      * split; cbn; [done|done|apply (b_next _ _ HB)| |apply (b_unsent _ _ HB)].
        intros j c'. rewrite mget_mset. case_decide; [intros [= <-]; by exists k|apply (b_calls _ _ HB)].
      * cbn. lia.
    + apply Keep; [by apply Appends_same|done].
  - apply Keep; [by apply Appends_onBlockStop|done].
  - cbn in He. subst reason. unfold onMessageDelta. cbn [isEmpty]. apply Keep; [|done]. destruct u; by apply Appends_same.
  - apply Keep; [by apply Appends_same|done].
Qed.

Lemma Midway_run es r s :
  Forall isBody es -> Midway r s ->
  exists r', acceptChunks r (convert es s).2 = Some r' /\ Midway r' (convert es s).1 /\ r_calls r' = (r_calls r + length (upCalls es))%nat.
Proof.
  revert r s. induction es as [|e es IH]; intros r s Hes HB; [exists r; split_and!; [done..|cbn; lia]|].
  apply Forall_cons in Hes as [He Hes]. destruct (Midway_step r s e He HB) as (r1 & A1 & B1 & C1).
  destruct (IH r1 _ Hes B1) as (r2 & A2 & B2 & C2). exists r2. cbn [ClaudeToOpenai.convert].
  destruct (convert es (respond e s)) as [s2 cs2]. cbn [fst snd] in *. rewrite acceptChunks_app, A1. split_and!; [exact A2|done|].
  rewrite C2, C1. unfold upCalls. cbn [omap list_omap]. destruct (match e with up_block_start _ _ => _ | _ => _ end); cbn [length]; lia.
Qed.

(** The finish: one chunk with a reason, and nothing after it. *)
Lemma delta_out r s du reason ex :
  Midway r s -> let s' := respond (up_message_delta du reason ex) s in
  (forall k, callArguments k (cv_results s') = []) /\
  ((cv_results s' = [] /\ finishReasonSent s' = false) \/
  (acceptChunks r (cv_results s') = Some (mkReader true (r_calls r) true) /\ finishReasonSent s' = true)).
Proof.
  intros [Hs Ho _ _ Hu]. cbv zeta. unfold claudeToOpenAIResponse, onMessageDelta.
  set (s1 := match du with Some v => _ | None => _ end).
  assert (E1 : cv_results s1 = [] /\ finishReasonSent s1 = false) by (subst s1; destruct du; done).
  destruct E1 as [E1 E2]. clearbody s1. destruct (isEmpty reason); [split; [by rewrite E1|by left]|]. cbv zeta.
  set (s2 := if pendingThinkClose s1 && _ then _ else s1). set (s3 := emitUnlessEmpty _ _ s2).
  assert (HA : Appends r s1 s3).
  { subst s3. eapply Appends_trans; [|apply Appends_unless; auto]. subst s2. case_match; [by apply Appends_flushThinkClose|by apply Appends_same]. }
  clearbody s3. destruct HA as (cs & Ec & Ac & Kc & _). rewrite E1 in Ec. cbn [app] in Ec.
  generalize (if (reason =? "pause_turn")%string && hasResponseId s3 then "pause_turn"%string else convertStopReason reason). intros rs.
  split; [intros k; cbn [finalChunk cv_results set_field]; by rewrite Ec, callArguments_app, Kc|right]. split; [|done]. cbn. rewrite Ec, acceptChunks_app, Ac. cbn. unfold acceptChunk. cbn. by rewrite Ho, Hs.
Qed.



Lemma start_Midway id model u s :
  finishReasonSent s = false -> cv_toolCalls s = [] -> Midway (mkReader true 0 false) (respond (up_message_start id model u) s) /\
    acceptChunks reader0 (cv_results (respond (up_message_start id model u) s)) = Some (mkReader true 0 false).
Proof.
  intros Hf Hc. unfold claudeToOpenAIResponse, onMessageStart. destruct (u ≫= startUsageOf); (split; [split; cbn; try done; by rewrite Hc|done]).
Qed.
(** ** Text and reasoning

    No marker is sent into the content: it is suppressed, or there is no reasoning. *)
Definition Silent (s : Conv) : Prop := suppressThinkClose s = true \/ (pendingThinkClose s = false /\ inThinkingBlock s = false).

Definition unmarkedBy (suppress : bool) (e : UpEvent) : Prop :=
  suppress = true \/ match e with up_block_start _ up_thinking => False | _ => True end.

(** [Sends s1 s2 x]: what was appended reads as [x], reasoning and content. *)
Definition Sends (s1 s2 : Conv) (x : text * text) : Prop :=
  exists cs, cv_results s2 = cv_results s1 ++ cs /\ (reasoningsOf cs, contentsOf cs) = x.

Lemma Sends_nil s1 s2 : cv_results s2 = cv_results s1 -> Sends s1 s2 ([], []).
Proof. intros E. exists []. by rewrite E, app_nil_r. Qed.

Lemma Sends_out s s' x : Sends (s <| cv_results := [] |>) s' x -> (reasoningsOf (cv_results s'), contentsOf (cv_results s')) = x.
Proof. intros (cs & E & <-). cbn in E. by rewrite E. Qed.

Lemma Sends_trans s1 s2 s3 x y : Sends s1 s2 x -> Sends s2 s3 y -> Sends s1 s3 (both x y).
Proof.
  intros (c1 & E1 & <-) (c2 & E2 & <-). exists (c1 ++ c2). rewrite E2, E1, app_assoc. split; [done|].
  by rewrite reasoningsOf_app, contentsOf_app.
Qed.

Lemma Sends_content t s : Sends s (emitUnlessEmpty content_delta t s) ([], t).
Proof. destruct t; [by apply Sends_nil|]. eexists [_]. split; [done|]. unfold reasoningsOf, contentsOf. cbn. by rewrite app_nil_r. Qed.

Lemma Sends_reasoning t s : Sends s (emitUnlessEmpty reasoning_delta t s) (t, []).
Proof. destruct t; [by apply Sends_nil|]. eexists [_]. split; [done|]. unfold reasoningsOf, contentsOf. cbn. by rewrite app_nil_r. Qed.

Lemma both_out r c : both (r, []) ([], c) = (r, c).
Proof. unfold both. cbn. by rewrite app_nil_r. Qed.

(** Fields a text handler leaves. *)
Definition SameRest (s1 s2 : Conv) : Prop :=
  suppressThinkClose s2 = suppressThinkClose s1 /\ inThinkingBlock s2 = inThinkingBlock s1 /\ (pendingThinkClose s1 = false -> pendingThinkClose s2 = false).

Lemma emitUnless_think f t s : thinkState (emitUnlessEmpty f t s) = thinkState s.
Proof. by destruct t. Qed.

Lemma SameRest_emitUnless f t s : SameRest s (emitUnlessEmpty f t s).
Proof. by destruct t. Qed.

Lemma SameRest_trans s1 s2 s3 : SameRest s1 s2 -> SameRest s2 s3 -> SameRest s1 s3.
Proof. intros (? & ? & ?) (? & ? & ?). split_and!; [congruence..|auto]. Qed.

Lemma Silent_rest s1 s2 : SameRest s1 s2 -> Silent s1 -> Silent s2.
Proof. intros (E1 & E2 & E3) [H|[H1 H2]]; [left; congruence|right; split; [auto|congruence]]. Qed.

Lemma text_sends t ctx s :
  Silent s -> thinkState s = Some ctx -> t <> [] ->
  let r := feed (ctx, ([], [])) t in
  Sends s (onText t s) r.2 /\ thinkState (onText t s) = Some r.1 /\ SameRest s (onText t s).
Proof.
  intros HS Hk Ht. destruct t as [|c t]; [done|]. cbv zeta. unfold onText. set (s1 := if pendingThinkClose s then _ else s).
  assert (H1 : Sends s s1 ([], []) /\ thinkState s1 = Some ctx /\ SameRest s s1).
  { subst s1. destruct (pendingThinkClose s) eqn:Ep; [|by split_and!; [apply Sends_nil| |]].
    destruct HS as [Hs|[Hs _]]; [|congruence]. unfold flushThinkClose. rewrite Hs. by split_and!; [apply Sends_nil| |]. }
  clearbody s1. destruct H1 as (H1 & H2 & H3). rewrite H2. unfold feed. destruct (applyThinkTag ctx _) as [[k d] ?]. cbn [fst snd].
  rewrite both_nil_l. rewrite !emitUnless_think. split_and!; [|done|].
  - rewrite <- (both_nil_l (_, _)). eapply Sends_trans; [exact H1|]. rewrite <- both_out. eapply Sends_trans; [|apply Sends_content].
    apply (Sends_trans s1 (s1 <| thinkState := Some k |>) _ ([], []) (_, [])); [by apply Sends_nil|apply Sends_reasoning].
  - eapply SameRest_trans; [exact H3|]. eapply SameRest_trans; [|apply SameRest_emitUnless]. eapply SameRest_trans; [|apply SameRest_emitUnless]. done.
Qed.

(** The flush at the end of a block. *)
Lemma stop_sends i ctx s :
  thinkState s = Some ctx ->
  let s' := onBlockStop i s in
  Sends s s' (if active ctx then (flushThinkBuffer ctx).2 else ([], [])) /\
  thinkState s' = Some (if active ctx then (flushThinkBuffer ctx).1 else ctx) /\ suppressThinkClose s' = suppressThinkClose s /\
  (inThinkingBlock s = false -> inThinkingBlock s' = false /\ pendingThinkClose s' = pendingThinkClose s).
Proof.
  intros Hk. cbv zeta. unfold onBlockStop. set (s1 := flushTags s).
  assert (H : Sends s s1 (if active ctx then (flushThinkBuffer ctx).2 else ([], [])) /\
    thinkState s1 = Some (if active ctx then (flushThinkBuffer ctx).1 else ctx) /\ suppressThinkClose s1 = suppressThinkClose s /\
    inThinkingBlock s1 = inThinkingBlock s /\ pendingThinkClose s1 = pendingThinkClose s).
  { subst s1. unfold flushTags. rewrite Hk. destruct (active ctx); [|by split_and!; [apply Sends_nil|..]].
    destruct (flushThinkBuffer ctx) as [k [r c]]. cbn [fst snd]. split_and!; try (by destruct r, c).
    - rewrite <- both_out. eapply Sends_trans; [|apply Sends_content].
      apply (Sends_trans s (s <| thinkState := Some k |>) _ ([], []) (_, [])); [by apply Sends_nil|apply Sends_reasoning]. }
  clearbody s1. destruct H as (H1 & H2 & H3 & H4 & H5). destruct (inThinkingBlock s1) eqn:Ei; cbn [andb].
  - case_bool_decide; (split_and!; [exact H1|exact H2|exact H3|intros; congruence]).
  - split_and!; try done.
Qed.

Lemma stop_Silent i ctx s : thinkState s = Some ctx -> Silent s -> Silent (onBlockStop i s).
Proof.
  intros Hk HS. destruct (stop_sends i ctx s Hk) as (_ & _ & E1 & E2). destruct HS as [H|[H1 H2]]; [left; congruence|].
  destruct (E2 H2) as [F1 F2]. right. split; congruence.
Qed.

Definition textFree (e : UpEvent) : Prop := match e with up_block_delta _ (up_text_delta _) | up_block_stop _ => False | _ => True end.

(** Any other event of the body. *)
Lemma other_sends e ctx s :
  isBody e -> textFree e -> Silent s -> unmarkedBy (suppressThinkClose s) e -> thinkState s = Some ctx ->
  Sends (s <| cv_results := [] |>) (respond e s) (upThinking [e], []) /\ thinkState (respond e s) = Some ctx /\ Silent (respond e s) /\
  suppressThinkClose (respond e s) = suppressThinkClose s.
Proof.
  intros Hb Hf HS Hu Hk. unfold claudeToOpenAIResponse.
  assert (Keep : forall s2, cv_results s2 = [] -> thinkState s2 = thinkState s -> Silent s2 -> suppressThinkClose s2 = suppressThinkClose s -> upThinking [e] = [] ->
    Sends (s <| cv_results := [] |>) s2 (upThinking [e], []) /\ thinkState s2 = Some ctx /\ Silent s2 /\ suppressThinkClose s2 = suppressThinkClose s).
  { intros s2 E1 E2 E3 E4 ->. split_and!; [by apply Sends_nil|congruence|done|done]. }
  destruct e as [|i b|i d|i|u reason ex| |]; try done.
  - destruct b as [| |id name|]; cbn [onBlockStart]; try (by apply Keep).
    + destruct Hu as [Hu|[]]. split_and!; [|done|by left|done]. eexists [_]. by split.
    + cbv zeta. match goal with |- context [tool_start _ id ?n] => generalize n end. intros nm.
      split_and!; [|done|done|done]. eexists [_]. by split.
  - destruct d as [t|t|t|]; [done| | |by apply Keep].
    + cbn [onBlockDelta]. split_and!; [|by rewrite emitUnless_think|by eapply Silent_rest; [apply SameRest_emitUnless|]|by destruct t].
      replace (upThinking [up_block_delta i (up_thinking_delta t)]) with t by (unfold upThinking; cbn; by rewrite app_nil_r). apply Sends_reasoning.
    + cbn [onBlockDelta]. unfold onInputJson. destruct t as [|c t]; [by apply Keep|]. destruct (mget i _) as [tc|]; [|by apply Keep].
      split_and!; [|done|done|done]. eexists [_]. by split.
  - cbn in Hb. subst reason. unfold onMessageDelta. cbn [isEmpty]. destruct u; by apply Keep.
  - by apply Keep.
Qed.

Lemma stop_event_sends i ctx s :
  thinkState s = Some ctx -> Silent s ->
  let s' := respond (up_block_stop i) s in
  Sends (s <| cv_results := [] |>) s' (if active ctx then (flushThinkBuffer ctx).2 else ([], [])) /\
  thinkState s' = Some (if active ctx then (flushThinkBuffer ctx).1 else ctx) /\ Silent s' /\ suppressThinkClose s' = suppressThinkClose s.
Proof.
  intros Hk HS. cbv zeta. unfold claudeToOpenAIResponse. match goal with |- context [onBlockStop i ?z] => destruct (stop_sends i ctx z Hk) as (H1 & H2 & H3 & _) end.
  split_and!; [exact H1|exact H2|by apply (stop_Silent i ctx)|exact H3].
Qed.

(** ** Without tags *)

(** A parser that is off sends a text as it is. *)
Lemma feed_off k t : enabled k = false -> feed (k, ([], [])) t = (k, ([], t)).
Proof. intros He. unfold feed, applyThinkTag. cbn. by rewrite He. Qed.

Lemma off_step e k s :
  enabled k = false -> active k = false -> isBody e -> Silent s -> unmarkedBy (suppressThinkClose s) e -> thinkState s = Some k ->
  (reasoningsOf (cv_results (respond e s)), contentsOf (cv_results (respond e s))) = (upThinking [e], upText [e]) /\
  thinkState (respond e s) = Some k /\ Silent (respond e s) /\ suppressThinkClose (respond e s) = suppressThinkClose s.
Proof.
  intros He Ha Hb HS Hu Hk.
  pose proof (Sends_out s (respond e s)) as HX.
  assert (HO : textFree e -> upText [e] = []) by by destruct e as [| |? []|?| | |].
  assert (textFree e \/ (exists i t, e = up_block_delta i (up_text_delta t)) \/ (exists i, e = up_block_stop i)) as [Hf|[(i & t & ->)|(i & ->)]]
    by (destruct e as [| |? []|?| | |]; try (by left); right; [left|right]; eauto).
  - destruct (other_sends e k s Hb Hf HS Hu Hk) as (H1 & H2 & H3 & H4). rewrite (HX _ H1), (HO Hf). done.
  - clear HO. unfold upText, upThinking. cbn [map concat]. rewrite !app_nil_r. destruct t as [|c t]; [by split_and!|].
    unfold claudeToOpenAIResponse in HX |- *. cbn [onBlockDelta] in HX |- *.
    match goal with |- context [onText _ ?z] => destruct (text_sends (c :: t) k z HS Hk ltac:(done)) as (H1 & H2 & H3) end. rewrite feed_off in H1, H2 by done.
    split_and!; [exact (HX _ H1)|exact H2|exact (Silent_rest _ _ H3 HS)|exact (proj1 H3)].
  - destruct (stop_event_sends i k s Hk HS) as (H1 & H2 & H3 & H4). rewrite Ha in H1, H2. rewrite (HX _ H1). done.
Qed.

Lemma off_run es k s :
  enabled k = false -> active k = false -> Forall isBody es -> Silent s -> Forall (unmarkedBy (suppressThinkClose s)) es -> thinkState s = Some k ->
  reasoningsOf (convert es s).2 = upThinking es /\ contentsOf (convert es s).2 = upText es /\ Silent (convert es s).1.
Proof.
  intros He Ha. revert s. induction es as [|e es IH]; intros s Hb HS Hu Hk; [done|].
  apply Forall_cons in Hb as [Hb1 Hb]. pose proof Hu as Hu0. apply Forall_cons in Hu0 as [Hu1 Hu2].
  destruct (off_step e k s He Ha Hb1 HS Hu1 Hk) as ([= R1 R2] & H2 & H3 & H4). cbn [ClaudeToOpenai.convert].
  destruct (IH (respond e s) Hb H3 ltac:(by rewrite H4) H2) as (I1 & I2 & I3). destruct (convert es (respond e s)) as [s' cs]. cbn [fst snd] in *.
  rewrite reasoningsOf_app, contentsOf_app, R1, R2, I1, I2. split_and!; [..|done]; unfold upThinking, upText; cbn [map concat]; by rewrite ?app_nil_r.
Qed.

(** The finish adds nothing but the reason of a refusal. *)
Lemma finish_sends s du reason ex :
  Silent s -> finishReasonSent s = false ->
  let cs := (convert [up_message_delta du reason ex; up_message_stop] s).2 in
  reasoningsOf cs = [] /\ contentsOf cs = refusalText reason ex.
Proof.
  intros HS Hu. cbv zeta. cbn [ClaudeToOpenai.convert snd]. rewrite app_nil_r, reasoningsOf_app, contentsOf_app.
  assert (Hstop : forall s, reasoningsOf (cv_results (respond up_message_stop s)) = [] /\ contentsOf (cv_results (respond up_message_stop s)) = []).
  { intros z. unfold claudeToOpenAIResponse, onMessageStop. case_match; done. }
  destruct (Hstop (respond (up_message_delta du reason ex) s)) as [-> ->]. rewrite !app_nil_r. clear Hstop.
  unfold claudeToOpenAIResponse, onMessageDelta. set (s1 := match du with Some v => _ | None => _ end).
  assert (E1 : cv_results s1 = [] /\ Silent s1) by (subst s1; destruct du; done). destruct E1 as [E1 HS1]. clearbody s1.
  destruct (isEmpty reason) eqn:Er; [by rewrite E1; destruct reason|]. cbv zeta. set (s2 := if pendingThinkClose s1 && _ then _ else s1).
  assert (E2 : cv_results s2 = []).
  { subst s2. destruct (pendingThinkClose s1) eqn:Ep; [|done]. destruct HS1 as [HS1|[HS1 _]]; [|congruence].
    cbn [andb]. case_bool_decide; [|done]. unfold flushThinkClose. by rewrite HS1. }
  clearbody s2. destruct (Sends_content (refusalText reason ex) s2) as (cs & Ec & [= Hr Hc]). rewrite E2 in Ec. cbn [app] in Ec.
  set (s3 := emitUnlessEmpty _ _ s2) in *. clearbody s3. unfold finalChunk. cbn [cv_results set_field]. rewrite Ec, reasoningsOf_app, contentsOf_app, Hr, Hc.
  cbn [reasoningsOf contentsOf map concat reasoningIn contentIn o_delta createChunk app]. split; [done|apply app_nil_r].
Qed.

Lemma start_sends id model u s :
  finishReasonSent s = false -> let s' := respond (up_message_start id model u) s in
  reasoningsOf (cv_results s') = [] /\ contentsOf (cv_results s') = [] /\ thinkState s' = Some (initThinkState true (parses model)) /\
  suppressThinkClose s' = suppressThinkClose s /\ pendingThinkClose s' = pendingThinkClose s /\ inThinkingBlock s' = inThinkingBlock s.
Proof. intros Hf. cbv zeta. unfold claudeToOpenAIResponse, onMessageStart. by destruct (u ≫= startUsageOf). Qed.

(** ** With tags

    [Parsed s rest x]: what is still to be sent, when the text [rest] follows and the
    block ends, is [x]. *)
Definition Parsed (s : Conv) (rest : text) (x : text * text) : Prop :=
  exists ctx, thinkState s = Some ctx /\ clean ctx /\ parseText (insideThink ctx) (buffer ctx ++ rest) = x.

(** A text of the block. *)
Definition speaking (e : UpEvent) : Prop :=
  match e with up_block_stop _ | up_block_delta _ (up_thinking_delta _) => False | _ => True end.

Lemma tags_step e rest x s :
  isBody e -> speaking e -> Silent s -> unmarkedBy (suppressThinkClose s) e -> Parsed s (upText [e] ++ rest) x ->
  let s' := respond e s in
  exists y z, reasoningsOf (cv_results s') = y.1 /\ contentsOf (cv_results s') = y.2 /\ Parsed s' rest z /\ x = both y z /\
    Silent s' /\ suppressThinkClose s' = suppressThinkClose s.
Proof.
  intros Hb Hsp HS Hu (ctx & Hk & Hc & <-). cbv zeta.
  assert (textFree e \/ (exists i t, e = up_block_delta i (up_text_delta t) /\ t <> []) \/ (exists i, e = up_block_delta i (up_text_delta [])))
    as [Hf|[(i & t & -> & Ht)|(i & ->)]].
  { destruct e as [| |? [[|c t]| | |]| | | |]; try (by left); try done; right; [right|left]; eauto. }
  - destruct (other_sends e ctx s Hb Hf HS Hu Hk) as ([= E1 E2]%Sends_out & H2 & H3 & H4).
    replace (upText [e]) with (@nil ascii) by by destruct e as [| |? []|?| | |]. cbn [app].
    exists ([], []), (parseText (insideThink ctx) (buffer ctx ++ rest)). rewrite both_nil_l. split_and!; try done; [|by exists ctx].
    rewrite E1. by destruct e as [| |? []|?| | |].
  - unfold claudeToOpenAIResponse. cbn [onBlockDelta].
    match goal with |- context [onText _ ?z] => destruct (text_sends t ctx z HS Hk Ht) as (Ey%Sends_out & H2 & H3) end.
    replace (upText [up_block_delta i (up_text_delta t)]) with t by (unfold upText; cbn; by rewrite app_nil_r).
    destruct (feed_spec ctx ([], []) t rest Hc) as [Hc' Hf]. exists (feed (ctx, ([], [])) t).2. eexists.
    rewrite <- Ey. split_and!; [done|done| | |exact (Silent_rest _ _ H3 HS)|exact (proj1 H3)].
    + exists (feed (ctx, ([], [])) t).1. by split_and!.
    + rewrite both_nil_l in Hf. rewrite Ey. by symmetry.
  - exists ([], []), (parseText (insideThink ctx) (buffer ctx ++ rest)). rewrite both_nil_l. split_and!; try done. by exists ctx.
Qed.

Lemma tags_run es rest x s :
  Forall isBody es -> Forall speaking es -> Silent s -> Forall (unmarkedBy (suppressThinkClose s)) es -> Parsed s (upText es ++ rest) x ->
  exists y z, (reasoningsOf (convert es s).2, contentsOf (convert es s).2) = y /\ Parsed (convert es s).1 rest z /\ x = both y z /\
    Silent (convert es s).1 /\ suppressThinkClose (convert es s).1 = suppressThinkClose s.
Proof.
  revert x s. induction es as [|e es IH]; intros x s Hb Hsp HS Hu HP.
  { exists ([], []), x. rewrite both_nil_l. by split_and!. }
  apply Forall_cons in Hb as [Hb1 Hb], Hsp as [Hs1 Hsp]. pose proof Hu as Hu0. apply Forall_cons in Hu0 as [Hu1 Hu2].
  destruct (tags_step e (upText es ++ rest) x s Hb1 Hs1 HS Hu1) as (y1 & z1 & R1 & C1 & P1 & -> & HS1 & E1).
  { rewrite app_assoc. unfold upText in HP |- *. cbn [map concat] in HP |- *. by rewrite app_nil_r. }
  destruct (IH z1 (respond e s) Hb Hsp HS1 ltac:(by rewrite E1) P1) as (y2 & z2 & <- & P2 & -> & HS2 & E2).
  cbn [ClaudeToOpenai.convert]. destruct (convert es (respond e s)) as [s' cs]. cbn [fst snd] in *.
  eexists _, z2. split_and!; [reflexivity|done| |done|congruence]. rewrite <- both_assoc, reasoningsOf_app, contentsOf_app. f_equal. unfold both. cbn.
  by rewrite R1, C1.
Qed.

(** The end of the block sends what was held back. *)
Lemma tags_stop i s x :
  Silent s -> Parsed s [] x -> let s' := respond (up_block_stop i) s in
  (reasoningsOf (cv_results s'), contentsOf (cv_results s')) = x /\ Silent s' /\ suppressThinkClose s' = suppressThinkClose s /\
  exists ctx, thinkState s' = Some ctx /\ buffer ctx = [].
Proof.
  intros HS (ctx & Hk & (He & Hn & Ha) & <-). cbv zeta. destruct (stop_event_sends i ctx s Hk HS) as (Ex%Sends_out & H2 & H3 & H4).
  rewrite Ex, app_nil_r, parseText_eq, Hn. split_and!; [|done|done|].
  - destruct (active ctx) eqn:Eact; [done|]. by destruct (Ha eq_refl) as [-> ->].
  - eexists. split; [exact H2|]. destruct (active ctx) eqn:Eact; [done|]. by destruct (Ha eq_refl).
Qed.

(** After it, without more text, nothing is held back and nothing is sent. *)
Definition textless (e : UpEvent) : Prop :=
  match e with up_block_delta _ (up_text_delta t) => t = [] | up_block_delta _ (up_thinking_delta _) => False | _ => True end.

Lemma idle_run es s ctx :
  Forall isBody es -> Forall textless es -> Silent s -> Forall (unmarkedBy (suppressThinkClose s)) es -> thinkState s = Some ctx -> buffer ctx = [] ->
  reasoningsOf (convert es s).2 = [] /\ contentsOf (convert es s).2 = [] /\ Silent (convert es s).1.
Proof.
  revert s ctx. induction es as [|e es IH]; intros s ctx Hb Ht HS Hu Hk Hbuf; [done|].
  apply Forall_cons in Hb as [Hb1 Hb], Ht as [Ht1 Ht]. pose proof Hu as Hu0. apply Forall_cons in Hu0 as [Hu1 Hu2].
  assert (H : (reasoningsOf (cv_results (respond e s)), contentsOf (cv_results (respond e s))) = ([], []) /\ Silent (respond e s) /\
    suppressThinkClose (respond e s) = suppressThinkClose s /\ exists ctx, thinkState (respond e s) = Some ctx /\ buffer ctx = []).
  { assert (textFree e \/ (exists i, e = up_block_delta i (up_text_delta [])) \/ (exists i, e = up_block_stop i)) as [Hf|[(i & ->)|(i & ->)]].
    { destruct e as [| |? []|?| | |]; try (by left); right; [left|right]; eauto. cbn in Ht1. subst. eauto. }
    - destruct (other_sends e ctx s Hb1 Hf HS Hu1 Hk) as (Ex%Sends_out & H2 & H3 & H4). rewrite Ex.
      split_and!; [by destruct e as [| |? []|?| | |]|done|done|eauto].
    - split_and!; try done. eauto.
    - destruct (stop_event_sends i ctx s Hk HS) as (Ex%Sends_out & H2 & H3 & H4). rewrite Ex.
      split_and!; [|done|done|eexists; split; [exact H2|by destruct (active ctx)]]. destruct (active ctx); [|done].
      unfold flushThinkBuffer. rewrite Hbuf. by destruct (insideThink ctx). }
  destruct H as ([= R1 C1] & HS1 & E1 & ctx1 & K1 & B1). cbn [ClaudeToOpenai.convert].
  destruct (IH (respond e s) ctx1 Hb Ht HS1 ltac:(by rewrite E1) K1 B1) as (R2 & C2 & HS2). destruct (convert es (respond e s)) as [s' cs]. cbn [fst snd] in *.
  by rewrite reasoningsOf_app, contentsOf_app, R1, C1, R2, C2.
Qed.

(** ** Arguments *)

Lemma accepted_arguments cs r r' k :
  r_started r = true -> acceptChunks r cs = Some r' -> (r_calls r' <= k)%nat -> (r_calls r <= r_calls r')%nat /\ callArguments k cs = [].
Proof.
  revert r. induction cs as [|c cs IH]; intros r; cbn [acceptChunks]; [intros _ [= ->]; by split|]. intros Hs H Hk.
  destruct (acceptChunk r c) as [r1|] eqn:E; [|done]. assert (Hs1 : r_started r1 = true).
  { unfold acceptChunk in E. rewrite Hs in E. repeat case_match; by simplify_eq. }
  destruct (IH r1 Hs1 H Hk) as [Hle Hc]. clear IH H. unfold acceptChunk in E.
  unfold callArguments in *. cbn [map concat]. rewrite Hc, app_nil_r. unfold argumentsIn. rewrite Hs in E.
  destruct (r_ended r); [done|]. destruct (o_finish c).
  { destruct (true && match o_delta c with empty_delta => true | _ => false end) eqn:Eb; [|done]. injection E as <-. cbn in Hle. split; [done|].
    apply andb_true_iff in Eb as [_ Eb]. by destruct (o_delta c). }
  destruct (o_delta c) as [|t|t|[i|] ? ?|[i|] t|]; cbn [andb] in E; repeat case_match; simplify_eq; cbn [r_calls] in *; (split; [lia|]); try done; lia.
Qed.

(** Different blocks have different numbers, and all numbers were given. *)
Record Numbered (s : Conv) (n : nat) : Prop := mkNumbered {
  n_next : toolCallIndex s = Some (Z.of_nat n);
  n_given : forall i c, mget i (cv_toolCalls s) = Some c -> exists k, tc_index c = Some (Z.of_nat k) /\ (k < n)%nat;
  n_distinct : forall i j c d, mget i (cv_toolCalls s) = Some c -> mget j (cv_toolCalls s) = Some d -> tc_index c = tc_index d -> i = j;
}.

(** The block [i] keeps its number [k]. *)
Definition Keeps (i : Z) (k : nat) (s : Conv) : Prop := exists c, mget i (cv_toolCalls s) = Some c /\ tc_index c = Some (Z.of_nat k).

Lemma Appends_arguments s1 s2 n :
  Appends (mkReader true 0 false) (s1 <| cv_results := [] |>) s2 -> Numbered s1 n ->
  (forall k, callArguments k (cv_results s2) = []) /\ Numbered s2 n /\ (forall i k, Keeps i k s1 -> Keeps i k s2).
Proof.
  intros (cs & E & _ & K & F & G & _) [H1 H2 H3]. cbn in E. subst cs. split_and!; [done| |].
  - split; [by rewrite F|intros ? ?; rewrite G; apply H2|intros ? ? ? ?; rewrite !G; apply H3].
  - intros i k (c & Hc & Hk). exists c. by rewrite G.
Qed.

Definition startsTool (i : Z) (e : UpEvent) : bool :=
  match e with up_block_start j (up_tool_use _ _) => j =? i | _ => false end.

Lemma arguments_step e s n :
  isBody e -> Numbered s n -> Numbered (respond e s) (n + length (upCalls [e])) /\
  (forall i k, Keeps i k s -> startsTool i e = false -> callArguments k (cv_results (respond e s)) = fragments i [e] /\ Keeps i k (respond e s)) /\
  (forall i id name, e = up_block_start i (up_tool_use id name) -> Keeps i n (respond e s)).
Proof.
  intros Hb HN. set (r0 := mkReader true 0 false).
  assert (Keep : forall s2, respond e s = s2 -> Appends r0 (s <| cv_results := [] |>) s2 -> upCalls [e] = [] -> (forall i, fragments i [e] = []) ->
    Numbered (respond e s) (n + length (upCalls [e])) /\
    (forall i k, Keeps i k s -> startsTool i e = false -> callArguments k (cv_results (respond e s)) = fragments i [e] /\ Keeps i k (respond e s)) /\
    (forall i id name, e = up_block_start i (up_tool_use id name) -> Keeps i n (respond e s))).
  { intros s2 -> HA Hc Hf. destruct (Appends_arguments _ _ _ HA HN) as (K & HN2 & HK). rewrite Hc, Nat.add_0_r. split_and!; [done| |].
    - intros i k Hi _. by rewrite K, Hf; auto.
    - intros i id name ->. done. }
  destruct e as [|i b|i d|i|u reason ex| |]; try done.
  - destruct b as [| |id name|]; try (eapply Keep; [reflexivity|by apply Appends_same|done|done]).
    + eapply Keep; [reflexivity| |done|done]. cbn. eapply Appends_trans; [|by apply (Appends_emit r0 reasoning_delta); auto]. by apply Appends_same.
    + clear Keep. destruct HN as [H1 H2 H3]. unfold claudeToOpenAIResponse. cbn [onBlockStart]. cbv zeta.
      match goal with |- context [tool_start _ id ?n] => generalize n end. intros nm. split_and!.
      * split; cbn.
        -- rewrite H1. cbn. f_equal. lia.
        -- intros j c. rewrite H1, mget_mset. case_decide; [intros [= <-]; exists n; cbn; split; [done|lia]|].
           intros Hj. destruct (H2 _ _ Hj) as (k & ? & ?). exists k. split; [done|lia].
        -- intros j1 j2 c d. rewrite !mget_mset. assert (Hno : forall j c, mget j (cv_toolCalls s) = Some c -> tc_index c <> toolCallIndex s).
           { intros j c' Hj. destruct (H2 _ _ Hj) as (k & -> & ?). rewrite H1. intros [= ?]. lia. }
           repeat case_decide; try congruence; [intros [= <-] Hd E; by apply Hno in Hd|intros Hc [= <-] E; by apply Hno in Hc|eauto].
      * intros j k (c & Hc & Hk) Hst. cbn in Hst. split; [done|]. exists c. cbn. by rewrite mget_mset_ne by lia.
      * intros i' id' name' [= <- <- <-]. eexists. cbn. rewrite mget_mset_eq. split; [done|]. cbn. done.
  - destruct d as [t|t|t|].
    + eapply Keep; [reflexivity|by apply Appends_onText|done|done].
    + eapply Keep; [reflexivity|by apply Appends_unless; auto|done|done].
    + unfold claudeToOpenAIResponse. cbn [onBlockDelta]. unfold onInputJson. destruct t as [|c t].
      { destruct HN. split_and!; [by split; rewrite ?Nat.add_0_r|intros j k Hj _; by destruct (i =? j) eqn:Ej; unfold fragments; cbn; rewrite Ej|done]. }
      change (cv_toolCalls (s <| cv_results := [] |>)) with (cv_toolCalls s).
      destruct HN as [H1 H2 H3]. destruct (mget i (cv_toolCalls s)) as [tc|] eqn:E.
      * split_and!; [|intros j k (c' & Hc & Hk) _|done].
        -- split; cbn; rewrite ?Nat.add_0_r; [done| |].
           ++ intros j d. rewrite mget_mset. case_decide; [intros [= <-]; cbn; by eapply H2|apply H2].
           ++ intros j1 j2 d1 d2. rewrite !mget_mset. repeat case_decide; subst; [done|intros [= <-]|intros ? [= <-]|]; cbn; eauto.
        -- split; [|by unfold Keeps; cbn; rewrite mget_mset; case_decide; [subst; eexists; split; [reflexivity|]; cbn; congruence|by exists c']].
           unfold callArguments, fragments. cbn. rewrite !app_nil_r. unfold argumentsIn. cbn. destruct (H2 _ _ E) as (k' & Hk' & _). rewrite Hk'.
           destruct (decide (i = j)) as [->|Hij]; [rewrite Z.eqb_refl; assert (tc = c') as -> by congruence; rewrite Hk in Hk'; injection Hk' as Hk'; by rewrite Hk', Z.eqb_refl|].
           rewrite (proj2 (Z.eqb_neq i j) Hij). case_match; [|done]. exfalso. apply Hij. eapply H3; [done..|]. rewrite Hk', Hk. f_equal. lia.
      * split_and!; [by split; rewrite ?Nat.add_0_r| |done]. intros j k Hj _. split; [|done]. unfold fragments. cbn. destruct Hj as (c' & Hc & _).
        destruct (Z.eqb_spec i j); [congruence|done].
    + eapply Keep; [reflexivity|by apply Appends_same|done|done].
  - eapply Keep; [reflexivity|by apply Appends_onBlockStop|done|done].
  - cbn in Hb. subst reason. eapply Keep; [reflexivity|destruct u; by apply Appends_same|done|done].
  - eapply Keep; [reflexivity|by apply Appends_same|done|done].
Qed.

Lemma arguments_run es s n :
  Forall isBody es -> Numbered s n -> Numbered (convert es s).1 (n + length (upCalls es)) /\
  (forall i k, Keeps i k s -> Forall (fun e => startsTool i e = false) es -> callArguments k (convert es s).2 = fragments i es).
Proof.
  revert s n. induction es as [|e es IH]; intros s n Hb HN; [cbn; by rewrite Nat.add_0_r|].
  apply Forall_cons in Hb as [Hb1 Hb]. destruct (arguments_step e s n Hb1 HN) as (HN1 & HK1 & _). destruct (IH _ _ Hb HN1) as [HN2 HK2].
  cbn [ClaudeToOpenai.convert]. destruct (convert es (respond e s)) as [s' cs]. cbn [fst snd] in *. split.
  - assert (upCalls (e :: es) = upCalls [e] ++ upCalls es) as ->; [|by rewrite length_app, Nat.add_assoc].
    unfold upCalls. cbn [omap list_omap]. by destruct (match e with up_block_start _ _ => _ | _ => _ end).
  - intros i k Hi Hs. apply Forall_cons in Hs as [Hs1 Hs]. destruct (HK1 i k Hi Hs1) as [E1 K1]. rewrite callArguments_app, E1, (HK2 i k K1 Hs).
    unfold fragments. cbn [map concat]. by rewrite app_nil_r.
Qed.

(** The event that starts a call: it gets the next number. *)
Lemma start_numbered i id name s n :
  Numbered s n -> let s' := respond (up_block_start i (up_tool_use id name)) s in
  Keeps i n s' /\ (exists nm, map o_delta (cv_results s') = [tool_start (Some (Z.of_nat n)) id nm]).
Proof.
  intros HN. cbv zeta. split; [by apply (proj2 (proj2 (arguments_step (up_block_start i (up_tool_use id name)) s n I HN)) i id name)|]. unfold claudeToOpenAIResponse. cbn [onBlockStart]. cbv zeta.
  match goal with |- context [tool_start _ id ?n] => exists n end. cbn. by rewrite (n_next _ _ HN).
Qed.

Lemma finish_arguments r s du reason ex k :
  Midway r s -> callArguments k (convert [up_message_delta du reason ex; up_message_stop] s).2 = [].
Proof.
  intros HB. destruct (delta_out r s du reason ex HB) as [Hk _]. cbn [ClaudeToOpenai.convert snd]. rewrite app_nil_r, callArguments_app, Hk.
  unfold claudeToOpenAIResponse, onMessageStop. by case_match.
Qed.

Lemma start_Numbered id model u s :
  cv_toolCalls s = [] -> Numbered (respond (up_message_start id model u) s) 0 /\ (forall k, callArguments k (cv_results (respond (up_message_start id model u) s)) = []).
Proof.
  intros Hc. unfold claudeToOpenAIResponse, onMessageStart. destruct (u ≫= startUsageOf); (split; [split; cbn; rewrite ?Hc; done|done]).
Qed.
End Facts.



(** ** Calls *)

Lemma upCalls_app a b : upCalls (a ++ b) = upCalls a ++ upCalls b.
Proof. apply omap_app. Qed.

Lemma upCalls_cons e es : upCalls (e :: es) = upCalls [e] ++ upCalls es.
Proof. apply (upCalls_app [e] es). Qed.

(** The call number [k] is where it starts. *)
Lemma upCalls_split body k c :
  upCalls body !! k = Some c -> exists pre post, body = pre ++ up_block_start c.1.1 (up_tool_use c.1.2 c.2) :: post /\ length (upCalls pre) = k.
Proof.
  revert k. induction body as [|e body IH]; intros k; [done|]. rewrite upCalls_cons. intros H.
  destruct (decide (length (upCalls [e]) <= k)%nat) as [Hle|Hlt].
  - rewrite lookup_app_r in H by done. destruct (IH _ H) as (pre & post & -> & Hk). exists (e :: pre), post. split; [done|].
    rewrite upCalls_cons, length_app. lia.
  - rewrite lookup_app_l in H by lia. destruct e as [|i [| |id name|]| | | | |]; cbn in Hlt; try lia. destruct k as [|k]; [|lia].
    injection H as <-. by exists [], body.
Qed.

(** The indices of distinct calls: no other event starts the block. *)
Definition callIndex (c : Z * string * string) : Z := c.1.1.

Lemma not_started i es : i ∉ map callIndex (upCalls es) -> Forall (fun e => startsTool i e = false) es.
Proof.
  induction es as [|e es IH]; [done|]. rewrite upCalls_cons, map_app. intros H. apply not_elem_of_app in H as [H1 H2]. constructor; [|by apply IH].
  destruct e as [|j [| |id name|]| | | | |]; try done. cbn in *. apply Z.eqb_neq. intros ->. apply H1. by left.
Qed.

Lemma fragmentsSince_split i id name pre post :
  Forall (fun e => startsTool i e = false) pre -> fragmentsSince i (pre ++ up_block_start i (up_tool_use id name) :: post) = fragments i post.
Proof.
  induction pre as [|e pre IH]; intros H; [cbn; by rewrite Z.eqb_refl|]. apply Forall_cons in H as [H1 H]. cbn [app fragmentsSince].
  destruct e as [|j [| |id' name'|]| | | | |]; try by apply IH. cbn in H1. rewrite H1. by apply IH.
Qed.

(** The arguments of a tool call arrive whole: the call numbered [k] is announced with
    its id, and the fragments the client gets for it are those the upstream sent for
    its block, put together. *)
Lemma message_calls (parses : option string -> bool) (now : string) (suppress responses : bool) (names : jsmap string string)
    (id : string) (model : option string) (u : option StartUsage) (body : list UpEvent)
    (du : option DeltaUsage) (reason : string) (explanation : option text) :
  Forall isBody body -> NoDup (map callIndex (upCalls body)) ->
  let cs := (convert parses now (message id model u body du reason explanation) (initConv suppress names responses)).2 in
  forall k i cid name, upCalls body !! k = Some (i, cid, name) ->
  (exists nm, tool_start (Some (Z.of_nat k)) cid nm ∈ map o_delta cs) /\ callArguments k cs = fragmentsSince i body.
Proof.
  intros Hb Hnd. cbv zeta. intros k i cid name Hk. destruct (upCalls_split _ _ _ Hk) as (pre & post & -> & Hlen). cbn [fst snd] in *.
  rewrite upCalls_app, upCalls_cons, map_app in Hnd. cbn [upCalls omap list_omap app map] in Hnd. apply NoDup_app in Hnd as (_ & Hpre & Hpost).
  apply NoDup_cons in Hpost as [Hpost _].
  assert (Hnpre : Forall (fun e => startsTool i e = false) pre) by (apply not_started; intros Hi; eapply Hpre; [exact Hi|by left]).
  assert (Hnpost : Forall (fun e => startsTool i e = false) post) by by apply not_started. clear Hpre Hpost Hk.
  rewrite fragmentsSince_split by done. apply Forall_app in Hb as [Hb1 Hb2]. apply Forall_cons in Hb2 as [Hbe Hb2].
  unfold message. cbn [convert]. set (s0 := initConv _ _ _).
  destruct (start_Midway parses now id model u s0 eq_refl eq_refl) as [HB0 _]. destruct (start_Numbered parses now id model u s0 eq_refl) as [HN0 HK0].
  set (s1 := claudeToOpenAIResponse _ _ _ s0) in *. clearbody s1. clear s0.
  rewrite <- app_assoc, convert_app.
  destruct (Midway_run parses now pre _ s1 Hb1 HB0) as (r2 & A2 & B2 & C2). destruct (arguments_run parses now pre s1 0 Hb1 HN0) as [HN2 _].
  destruct (convert parses now pre s1) as [s2 c2]. cbn [fst snd] in *. rewrite Hlen in *. cbn [Nat.add] in *.
  change ((?a :: post) ++ ?b) with (a :: post ++ b). cbn [convert].
  set (e0 := up_block_start i (up_tool_use cid name)) in *.
  destruct (start_numbered parses now i cid name s2 k HN2) as (HKi & nm & Enm). fold e0 in HKi, Enm.
  destruct (Midway_step parses now r2 s2 e0 Hbe B2) as (r3 & _ & B3 & _).
  destruct (arguments_step parses now e0 s2 k Hbe HN2) as (HN3 & _ & _).
  set (s3 := claudeToOpenAIResponse parses now e0 s2) in *. clearbody s3. rewrite convert_app.
  destruct (Midway_run parses now post r3 s3 Hb2 B3) as (r4 & _ & B4 & _). destruct (arguments_run parses now post s3 _ Hb2 HN3) as [_ HK4].
  specialize (HK4 i k HKi Hnpost). destruct (convert parses now post s3) as [s4 c4]. cbn [fst snd] in *.
  pose proof (finish_arguments parses now r4 s4 du reason explanation k B4) as HK5. destruct (convert _ _ _ s4) as [s5 c5]. cbn [fst snd] in *.
  split.
  - exists nm. rewrite !map_app, Enm. set_solver.
  - rewrite !callArguments_app, HK0, HK4, HK5.
    destruct (accepted_arguments c2 (mkReader true 0 false) r2 k eq_refl A2) as [_ ->]; [cbn in C2; lia|]. rewrite app_nil_r. cbn [app].
    assert (forall cs, map o_delta cs = [tool_start (Some (Z.of_nat k)) cid nm] -> callArguments k cs = []) as ->; [|done|done].
    intros [|c [|]]; try done. cbn. intros [= Hc]. unfold callArguments. cbn. unfold argumentsIn. by rewrite Hc.
Qed.

(** ** Text *)

Lemma initConv_Silent suppress names responses : Silent (initConv suppress names responses).
Proof. right. done. Qed.

(** When the text holds no tags to be read, content and reasoning are what the upstream
    sent, and the reason of a refusal. *)
Lemma text_relayed (parses : option string -> bool) (now : string) (suppress responses : bool) (names : jsmap string string)
    (id : string) (model : option string) (u : option StartUsage) (body : list UpEvent)
    (du : option DeltaUsage) (reason : string) (explanation : option text) :
  parses model = false -> Forall isBody body -> Forall (unmarkedBy suppress) body ->
  let cs := (convert parses now (message id model u body du reason explanation) (initConv suppress names responses)).2 in
  reasoningsOf cs = upThinking body /\ contentsOf cs = upText body ++ refusalText reason explanation.
Proof.
  intros Hp Hb Hu. cbv zeta. unfold message. cbn [convert]. set (s0 := initConv _ _ _).
  destruct (start_sends parses now id model u s0 eq_refl) as (R1 & C1 & K1 & E1 & E2 & E3).
  destruct (start_Midway parses now id model u s0 eq_refl eq_refl) as [HB1 _].
  set (s1 := claudeToOpenAIResponse _ _ _ s0) in *. clearbody s1. change (suppressThinkClose s0) with suppress in E1.
  assert (HS1 : Silent s1) by (right; by rewrite E2, E3). rewrite convert_app. rewrite Hp in K1.
  destruct (off_run parses now body (initThinkState true false) s1 eq_refl eq_refl Hb HS1 ltac:(by rewrite E1) K1) as (R2 & C2 & HS2).
  destruct (Midway_run parses now body _ s1 Hb HB1) as (r2 & _ & B2 & _).
  destruct (convert parses now body s1) as [s2 c2]. cbn [fst snd] in *.
  destruct (finish_sends parses now s2 du reason explanation HS2 (b_unsent _ _ B2)) as [R3 C3]. destruct (convert _ _ _ s2) as [s3 c3]. cbn [fst snd] in *.
  rewrite !reasoningsOf_app, !contentsOf_app, R1, C1, R2, C2, R3, C3, app_nil_r. done.
Qed.

(** A model that writes its reasoning between tags inside its text: however the text is cut
    into deltas, through the tags too, the reasoning and the content the client gets
    are those of the whole text.  (The text is one block, which [stop] ends, and there is no
    reasoning apart from it.) *)
Theorem tags_split (parses : option string -> bool) (now : string) (suppress responses : bool) (names : jsmap string string)
    (id : string) (model : option string) (u : option StartUsage) (block : list UpEvent) (stop : Z) (rest : list UpEvent)
    (du : option DeltaUsage) (reason : string) (explanation : option text) :
  parses model = true ->
  Forall isBody (block ++ rest) -> Forall (unmarkedBy suppress) (block ++ rest) -> Forall speaking block -> Forall textless rest ->
  let cs := (convert parses now (message id model u (block ++ up_block_stop stop :: rest) du reason explanation) (initConv suppress names responses)).2 in
  (reasoningsOf cs, contentsOf cs) = both (parseText false (upText block)) ([], refusalText reason explanation).
Proof.
  intros Hp Hb Hu Hsp Ht. cbv zeta. unfold message. cbn [convert]. set (s0 := initConv _ _ _).
  destruct (start_sends parses now id model u s0 eq_refl) as (R1 & C1 & K1 & E1 & E2 & E3).
  destruct (start_Midway parses now id model u s0 eq_refl eq_refl) as [HB1 _].
  set (s1 := claudeToOpenAIResponse _ _ _ s0) in *. clearbody s1. change (suppressThinkClose s0) with suppress in E1.
  assert (HS1 : Silent s1) by (right; by rewrite E2, E3). rewrite Hp in K1.
  apply Forall_app in Hb as [Hb1 Hb2], Hu as [Hu1 Hu2]. rewrite <- app_assoc, convert_app.
  destruct (tags_run parses now block [] (parseText false (upText block)) s1 Hb1 Hsp HS1 ltac:(by rewrite E1)) as (y & z & Ey & P2 & Ez & HS2 & Es2).
  { exists (initThinkState true true). split_and!; [done|done|]. by rewrite app_nil_r. }
  destruct (Midway_run parses now block _ s1 Hb1 HB1) as (r2 & _ & B2 & _).
  destruct (convert parses now block s1) as [s2 c2]. cbn [fst snd] in *. change ((?a :: rest) ++ ?b) with (a :: rest ++ b). cbn [convert].
  destruct (tags_stop parses now stop s2 z HS2 P2) as (Ez2 & HS3 & Es3 & ctx & K3 & Hbuf).
  destruct (Midway_step parses now r2 s2 (up_block_stop stop) I B2) as (r3 & _ & B3 & _).
  set (s3 := claudeToOpenAIResponse _ _ _ s2) in *. clearbody s3. rewrite convert_app.
  destruct (idle_run parses now rest s3 ctx Hb2 Ht HS3 ltac:(by rewrite Es3, Es2, E1) K3 Hbuf) as (R4 & C4 & HS4).
  destruct (Midway_run parses now rest r3 s3 Hb2 B3) as (r4 & _ & B4 & _).
  destruct (convert parses now rest s3) as [s4 c4]. cbn [fst snd] in *.
  destruct (finish_sends parses now s4 du reason explanation HS4 (b_unsent _ _ B4)) as [R5 C5]. destruct (convert _ _ _ s4) as [s5 c5]. cbn [fst snd] in *.
  rewrite !reasoningsOf_app, !contentsOf_app, R1, C1, R4, C4, R5, C5, Ez, <- Ey, <- Ez2. unfold both. cbn. by rewrite !app_nil_r, !app_assoc.
Qed.

(** ** Witnesses *)

Definition sampleBody : list UpEvent :=
  [up_block_start 0 up_thinking; up_block_delta 0 (up_thinking_delta (str "Hm.")); up_block_stop 0; up_other;
   up_block_start 1 up_text; up_block_delta 1 (up_text_delta (str "Hi <th")); up_block_delta 1 (up_text_delta (str "ink>so</think>!")); up_block_stop 1;
   up_block_start 2 (up_tool_use "t1" "Bash"); up_block_start 3 (up_tool_use "t2" "Read"); up_block_delta 2 (up_input_json_delta (str "{"));
   up_block_delta 3 (up_input_json_delta (str "[1")); up_block_delta 2 (up_input_json_delta (str "}")); up_block_delta 3 (up_input_json_delta (str "]"));
   up_block_stop 2; up_block_stop 3].

Definition sampleUsage : DeltaUsage := mkDeltaUsage (Some 10) (Some 5) (Some 2) (Some 4) None.

Definition sampleChunks (parses : bool) (body : list UpEvent) : list OutChunk :=
  (convert (fun _ => parses) "1" (message "m" (Some "claude"%string) None body (Some sampleUsage) "end_turn" None) (initConv true [] false)).2.

Lemma sampleBody_ok : Forall isBody sampleBody.
Proof. by repeat constructor. Qed.


Lemma message_calls_example :
  (exists nm, tool_start (Some 1) "t2" nm ∈ map o_delta (sampleChunks false sampleBody)) /\ callArguments 1 (sampleChunks false sampleBody) = str "[1]".
Proof.
  apply (message_calls (fun _ => false) "1" true false [] "m" (Some "claude"%string) None sampleBody (Some sampleUsage) "end_turn" None) with (k := 1%nat) (i := 3) (name := "Read"%string).
  - repeat constructor.
  - cbn. repeat constructor; set_solver.
  - reflexivity.
Defined.

Definition textBlock : list UpEvent := take 3 (drop 4 sampleBody).

Lemma tags_split_witness :
  (reasoningsOf (sampleChunks true (textBlock ++ up_block_stop 1 :: drop 8 sampleBody)), contentsOf (sampleChunks true (textBlock ++ up_block_stop 1 :: drop 8 sampleBody))) =
  (str "so", str "Hi !").
Proof.
  apply (tags_split (fun _ => true) "1" true false [] "m" (Some "claude"%string) None textBlock 1 (drop 8 sampleBody) (Some sampleUsage) "end_turn" None).
  - reflexivity.
  - repeat constructor.
  - repeat (constructor; [by left|]). constructor.
  - repeat constructor.
  - repeat constructor.
Defined.

(** ** Usage *)

(** The totals of the final chunk. *)
Lemma finalUsage_total u : o_total_tokens (finalUsage u) = o_prompt_tokens (finalUsage u) + o_completion_tokens (finalUsage u).
Proof. done. Qed.

(** What the message cost: input and cached input of the last report, or of the first when the last
    has none; tokens written to the cache are not part of it. *)
Lemma deltaUsage_input v previous :
  (forall n, du_input_tokens v = Some n -> 0 <= n) -> (forall n, du_cache_read v = Some n -> 0 <= n) ->
  du_cache_creation v = None ->
  st_input_tokens (deltaUsageOf v previous) =
    let reported := orElse (du_input_tokens v) 0 + orElse (du_cache_read v) 0 in
    if decide (reported = 0) then match previous with Some p => st_input_tokens p | None => 0 end else reported.
Proof.
  intros Hi Hr Hc. unfold deltaUsageOf, numberOr. cbn [st_input_tokens]. rewrite Hc. cbn [orElse].
  assert (0 <= orElse (du_input_tokens v) 0 /\ 0 <= orElse (du_cache_read v) 0) as [H1 H2].
  { destruct (du_input_tokens v), (du_cache_read v); cbn; split; auto; lia. }
  destruct (decide _); repeat case_match; lia.
Qed.

(** ** Findings *)

(** An upstream may send several message_delta events.  Each one with a stop reason
    sends a final chunk; only message_stop looks whether one was sent. *)
Example finish_sent_twice :
  let es := [up_message_start "m" None None; up_message_delta None "end_turn" None; up_message_delta (Some sampleUsage) "end_turn" None; up_message_stop] in
  map o_finish (convert (fun _ => false) "1" es (initConv true [] false)).2 = [None; Some "stop"%string; Some "stop"%string].
Proof. vm_compute. reflexivity. Qed.

(** The input reported at the start is kept when the last report has none, unless that report
    counts tokens written to the cache. *)
Example cache_creation_resets_input :
  let previous := startUsageOf (mkStartUsage (Some 100) None (Some 1) None None None) in
  st_input_tokens (deltaUsageOf (mkDeltaUsage None (Some 5) None None None) previous) = 100 /\
  st_input_tokens (deltaUsageOf (mkDeltaUsage None (Some 5) None None (Some 7)) previous) = 0.
Proof. vm_compute. done. Qed.
