(* ===== verification/TranslatorRoundTrip.v ===== *)
(** * There and back: OpenAI to Claude to OpenAI

    What the router makes of an OpenAI stream for a Claude client, sent through the
    router again for an OpenAI client: [OpenaiToClaude] followed by [ClaudeToOpenai].
    The theorems of the two translators compose, over the grammar of Claude
    events ([ClaudeProtocol]) that one promises and the other reads. *)
From Stdlib Require Import String Ascii.
From stdpp Require Import gmap.
From S2P Require Import Prelude JsMap JsString ComboSteps ThinkTags StreamHelpers ToolShim ClaudeProtocol OpenaiToClaude.
From S2P Require Import OpenaiToClaudeFacts OpenaiToClaudeTools ClaudeToOpenai ClaudeToOpenaiFacts.
#[local] Open Scope Z_scope.

(** ** The events as the second translator reads them *)

Definition readBlock (b : Block) : UpBlock :=
  match b with thinking_block => up_thinking | text_block => up_text | tool_use id name _ => up_tool_use id name end.

Definition readDelta (d : BlockDelta) : UpDelta :=
  match d with thinking_delta t => up_thinking_delta t | text_delta t => up_text_delta t | input_json_delta t => up_input_json_delta t end.

Definition readUsage (u : Usage) : DeltaUsage :=
  mkDeltaUsage (Some (input_tokens u)) (Some (output_tokens u)) None (cache_read_input_tokens u) (cache_creation_input_tokens u).

(** The start announces a usage of zeros. *)
Definition zeroUsage : StartUsage := mkStartUsage (Some 0) None (Some 0) None None None.

Definition readEvent (e : Event) : UpEvent :=
  match e with
  | message_start id model => up_message_start id (Some model) (Some zeroUsage)
  | content_block_start i b => up_block_start i (readBlock b)
  | content_block_delta i d => up_block_delta i (readDelta d)
  | content_block_stop i => up_block_stop i
  | message_delta reason u => up_message_delta (Some (readUsage u)) reason None
  | message_stop => up_message_stop
  end.

(** ** A complete message *)












(** ** The round trip *)










(** ** Finding *)

(** A call that the first translator found in the text has its whole input in the event that
    starts its block, and no delta.  The second reads arguments from deltas only. *)
Example start_input_lost :
  let found := [message_start "m" "x"; content_block_start 0 (tool_use "t" "Bash" (VObj [("command"%string, VStr "ls")])); content_block_stop 0;
                message_delta "tool_use" (mkUsage 0 0 None None); message_stop] in
  let cs := (convert (fun _ => false) "1" (map readEvent found) (initConv true [] false)).2 in
  r_calls <$> acceptChunks reader0 cs = Some 1%nat /\ callArguments 0 cs = [].
Proof. vm_compute. done. Qed.
