(* ===== verification/Patterns.v ===== *)
(** * Patterns searched in a text

    Regular expressions as the source writes them, read from their source text, with
    word boundaries: literals, escapes, classes, groups, alternatives and
    quantifiers, greedy or lazy (which does not matter to a test).  [search] says
    whether a text holds a match, the flag i ignored or not; it is proved to decide the
    language of the pattern.  Text is ASCII. *)
From Stdlib Require Import String Ascii.
From S2P Require Import Prelude JsString RegExp ThinkTags.

Inductive pat :=
| PVoid
| PEps
| PChr (s : charset)
| PSeq (a b : pat)
| PAlt (a b : pat)
| PStar (a : pat)
| PBoundary.

#[export] Instance pat_eq_dec : EqDecision pat.
Proof. solve_decision. Defined.

(** ** What a pattern means

    A text with, before every character, whether a word begins or ends there. *)
Notation marked := (list (bool * ascii)).

(** The mark at the start of a text that ends at a mark [e]. *)
Definition markAt (w : marked) (e : bool) : bool := match w with [] => e | (b, _) :: _ => b end.

Inductive means : pat -> marked -> bool -> Prop :=
| mn_eps e : means PEps [] e
| mn_boundary : means PBoundary [] true
| mn_chr s b c e : inSet s c = true -> means (PChr s) [(b, c)] e
| mn_seq a p u v e : means a u (markAt v e) -> means p v e -> means (PSeq a p) (u ++ v) e
| mn_alt_l a p u e : means a u e -> means (PAlt a p) u e
| mn_alt_r a p u e : means p u e -> means (PAlt a p) u e
| mn_star_nil a e : means (PStar a) [] e
| mn_star_cons a u v e : means a u (markAt v e) -> means (PStar a) v e -> means (PStar a) (u ++ v) e.

(** ** The matcher *)

Definition pseq (a b : pat) : pat :=
  match a, b with PVoid, _ | _, PVoid => PVoid | PEps, b => b | a, PEps => a | a, b => PSeq a b end.

Definition palt (a b : pat) : pat :=
  match a, b with PVoid, b => b | a, PVoid => a | a, b => if bool_decide (a = b) then a else PAlt a b end.

Fixpoint empties (e : bool) (r : pat) : bool :=
  match r with
  | PVoid | PChr _ => false
  | PEps | PStar _ => true
  | PSeq a b => empties e a && empties e b
  | PAlt a b => empties e a || empties e b
  | PBoundary => e
  end.

Fixpoint after (b : bool) (c : ascii) (r : pat) : pat :=
  match r with
  | PVoid | PEps | PBoundary => PVoid
  | PChr s => if inSet s c then PEps else PVoid
  | PSeq x y => if empties b x then palt (pseq (after b c x) y) (after b c y) else pseq (after b c x) y
  | PAlt x y => palt (after b c x) (after b c y)
  | PStar x => pseq (after b c x) (PStar x)
  end.

Fixpoint matchAll (r : pat) (w : marked) (e : bool) : bool :=
  match w with [] => empties e r | (b, c) :: w => matchAll (after b c r) w e end.

Lemma means_pseq a b w e : means (pseq a b) w e <-> means (PSeq a b) w e.
Proof.
  assert (V1 : forall p w e, ~ means (PSeq PVoid p) w e) by (intros p u f H; inversion H; subst; match goal with H : means PVoid _ _ |- _ => inversion H end).
  assert (V2 : forall p w e, ~ means (PSeq p PVoid) w e) by (intros p u f H; inversion H; subst; match goal with H : means PVoid _ _ |- _ => inversion H end).
  assert (E1 : forall p w e, means (PSeq PEps p) w e <-> means p w e).
  { intros p u f. split; [|intros H; exact (mn_seq PEps p [] u f (mn_eps _) H)]. intros H. inversion H as [| | |? ? x y ? H1 H2| | | |]; subst. by inversion H1; subst. }
  assert (E2 : forall p w e, means (PSeq p PEps) w e <-> means p w e).
  { intros p u f. split; [|intros H; rewrite <- (app_nil_r u); exact (mn_seq p PEps u [] f H (mn_eps _))].
    intros H. inversion H as [| | |? ? x y ? H1 H2| | | |]; subst. inversion H2; subst. by rewrite app_nil_r. }
  specialize (V1 b w e). specialize (V2 a w e). specialize (E1 b w e). specialize (E2 a w e).
  assert (~ means PVoid w e) by (by inversion 1). destruct a, b; cbn; tauto.
Qed.

Lemma means_palt a b w e : means (palt a b) w e <-> means a w e \/ means b w e.
Proof.
  assert (V : ~ means PVoid w e) by (by inversion 1).
  assert (A : means (PAlt a b) w e <-> means a w e \/ means b w e) by (split; [inversion 1; subst; auto|intros [H|H]; [by apply mn_alt_l|by apply mn_alt_r]]).
  assert (D : means (if bool_decide (a = b) then a else PAlt a b) w e <-> means a w e \/ means b w e) by (case_bool_decide; [subst; tauto|exact A]).
  destruct a, b; cbn [palt]; first [exact D | tauto].
Qed.

Lemma empties_spec e r : empties e r = true <-> means r [] e.
Proof.
  split.
  - induction r; cbn; intros H; try done.
    + constructor.
    + apply andb_true_iff in H as [H1 H2]. exact (mn_seq _ _ [] [] e (IHr1 H1) (IHr2 H2)).
    + apply orb_true_iff in H as [H|H]; [apply mn_alt_l|apply mn_alt_r]; auto.
    + constructor.
    + destruct e; [constructor|done].
  - remember [] as w eqn:Ew. induction 1; cbn; try done.
    + apply app_eq_nil in Ew as [-> ->]. cbn in IHmeans1. by rewrite IHmeans1, IHmeans2.
    + by rewrite IHmeans.
    + rewrite IHmeans by done. apply orb_true_r.
Qed.

Lemma star_head a b c w e : means (PStar a) ((b, c) :: w) e ->
  exists u v, w = u ++ v /\ means a ((b, c) :: u) (markAt v e) /\ means (PStar a) v e.
Proof.
  intros H. remember (PStar a) as r eqn:Er. remember ((b, c) :: w) as x eqn:Ex. revert b c w Ex.
  induction H; intros b' c' w' Ex; try done. injection Er as ->. destruct u as [|[b0 c0] u].
  - apply IHmeans2; [done|exact Ex].
  - injection Ex as -> -> <-. by exists u, v.
Qed.

Lemma after_spec b c r w e : means (after b c r) w e <-> means r ((b, c) :: w) e.
Proof.
  revert w e. induction r as [| |k|x IHx y IHy|x IHx y IHy|x IHx|]; intros w e; cbn.
  1,2,7: split; intros H; inversion H.
  - destruct (inSet k c) eqn:E; split; intros H; inversion H; subst; solve [by constructor | congruence].
  - assert (Hs : means (pseq (after b c x) y) w e <-> exists u v, w = u ++ v /\ means x ((b, c) :: u) (markAt v e) /\ means y v e).
    { rewrite means_pseq. split.
      - intros H. inversion H; subst. eexists _, _. split; [done|]. split; [by apply IHx|done].
      - intros (u & v & -> & H1 & H2). constructor; [by apply IHx|done]. }
    assert (Hm : means (PSeq x y) ((b, c) :: w) e <-> (exists u v, w = u ++ v /\ means x ((b, c) :: u) (markAt v e) /\ means y v e) \/ (empties b x = true /\ means y ((b, c) :: w) e)).
    { split.
      - intros H. inversion H as [| | |? ? u v ? H1 H2 E1 E2| | | |]; subst. destruct u as [|[b0 c0] u].
        + cbn in E2. subst. right. by split; [apply empties_spec|].
        + injection E2 as -> -> <-. left. by exists u, v.
      - intros [(u & v & -> & H1 & H2)|[H1 H2]]; [exact (mn_seq _ _ _ _ _ H1 H2)|]. apply empties_spec in H1. exact (mn_seq x y [] ((b, c) :: w) e H1 H2). }
    rewrite Hm. destruct (empties b x); [rewrite means_palt, Hs, IHy; tauto|rewrite Hs; intuition congruence].
  - rewrite means_palt, IHx, IHy. split; [intros [H|H]; [by apply mn_alt_l|by apply mn_alt_r]|intros H; inversion H; auto].
  - rewrite means_pseq. split.
    + intros H. inversion H; subst. match goal with H1 : means (after b c x) ?u _ |- _ => apply IHx in H1; exact (mn_star_cons _ _ _ _ H1 ltac:(eassumption)) end.
    + intros (u & v & -> & H1 & H2)%star_head. constructor; [by apply IHx|done].
Qed.

Lemma matchAll_spec w e r : matchAll r w e = true <-> means r w e.
Proof. revert r. induction w as [|[b c] w IH]; intros r; cbn; [apply empties_spec|]. by rewrite IH, after_spec. Qed.

(** ** Searching *)

Definition isWord (c : ascii) : bool :=
  let n := N_of_ascii c in
  ((48 <=? n)%N && (n <=? 57)%N) || ((65 <=? n)%N && (n <=? 90)%N) || (n =? 95)%N || ((97 <=? n)%N && (n <=? 122)%N).

(** [before] says whether the character before the text is one of a word. *)
Fixpoint mark (before : bool) (t : text) : marked :=
  match t with [] => [] | c :: t => (xorb before (isWord c), c) :: mark (isWord c) t end.

Fixpoint endMark (before : bool) (t : text) : bool := match t with [] => before | c :: t => endMark (isWord c) t end.

Definition anyChar : charset := mkSet true [].

Definition searchIn (r : pat) (t : text) : bool := matchAll (PSeq (PStar (PChr anyChar)) (PSeq r (PStar (PChr anyChar)))) (mark false t) (endMark false t).

Lemma means_any w e : means (PStar (PChr anyChar)) w e.
Proof. induction w as [|[b c] w IH]; [constructor|]. apply (mn_star_cons _ [(b, c)] w); [by constructor|done]. Qed.

Lemma searchIn_spec r t :
  searchIn r t = true <-> exists u v x, mark false t = u ++ v ++ x /\ means r v (markAt x (endMark false t)).
Proof.
  unfold searchIn. rewrite matchAll_spec. split.
  - intros H. inversion H as [| | |? ? u w ? H1 H2 H3 E| | | |]; subst. inversion H2 as [| | |? ? v x ? H4 H5| | | |]; subst. by exists u, v, x.
  - intros (u & v & x & -> & H). constructor; [apply means_any|]. constructor; [exact H|apply means_any].
Qed.

(** ** Reading a pattern *)

Definition spaces : list (ascii * ascii) := [(ascii_of_nat 9, ascii_of_nat 13); (" "%char, " "%char)].
Definition digits09 : list (ascii * ascii) := [("0"%char, "9"%char)].
Definition newlines : list (ascii * ascii) := [(ascii_of_nat 10, ascii_of_nat 10); (ascii_of_nat 13, ascii_of_nat 13)].
Definition wordChars : list (ascii * ascii) := [("0", "9"); ("A", "Z"); ("_", "_"); ("a", "z")]%char.

Section Reading.
(** The flag i: characters of the pattern are put in lower case, as the text is. *)
Context (ignoreCase : bool).

Definition plainChar (c : ascii) : ascii := if ignoreCase then lowerAscii c else c.
Definition theChar (c : ascii) : charset := mkSet false [(plainChar c, plainChar c)].

(** A character after the backslash. *)
Definition escaped (c : ascii) : charset :=
  if Ascii.eqb c "s" then mkSet false spaces
  else if Ascii.eqb c "S" then mkSet true spaces
  else if Ascii.eqb c "d" then mkSet false digits09
  else if Ascii.eqb c "w" then mkSet false wordChars
  else if Ascii.eqb c "n" then mkSet false [(ascii_of_nat 10, ascii_of_nat 10)]
  else theChar c.

(** The members of a class up to its bracket. *)
Fixpoint readClass (s : string) : option (list charset * string) :=
  match s with
  | EmptyString => None
  | String "]" r => Some ([], r)
  | String "\" (String c r) => '(l, r) ← readClass r; Some (escaped c :: l, r)
  | String a (String "-" (String b r)) =>
      if Ascii.eqb b "]" then Some ([theChar a; theChar "-"], r)
      else '(l, r) ← readClass r; Some (mkSet false [(plainChar a, plainChar b)] :: l, r)
  | String a r => '(l, r) ← readClass r; Some (theChar a :: l, r)
  end.

Definition classOf (negated : bool) (l : list charset) : pat :=
  if negated then PChr (mkSet true (concat (map ranges l))) else foldr palt PVoid (map PChr l).

Fixpoint readNumber (acc : nat) (s : string) : nat * string :=
  match s with
  | String c r => let n := N_of_ascii c in if ((48 <=? n)%N && (n <=? 57)%N) then readNumber (10 * acc + N.to_nat (n - 48)) r else (acc, s)
  | EmptyString => (acc, s)
  end.

Definition popt (a : pat) : pat := PAlt PEps a.
Fixpoint upTo (n : nat) (a : pat) : pat := match n with O => PEps | S n => popt (pseq a (upTo n a)) end.
Fixpoint times (n : nat) (a : pat) : pat := match n with O => PEps | S n => pseq a (times n a) end.

Definition skipLazy (s : string) : string := match s with String "?" r => r | _ => s end.

(** The quantifier of [a], if there is one. *)
Definition quantify (a : pat) (s : string) : option (pat * string) :=
  match s with
  | String "*" r => Some (PStar a, skipLazy r)
  | String "+" r => Some (PSeq a (PStar a), skipLazy r)
  | String "?" r => Some (popt a, skipLazy r)
  | String "{" r =>
      let '(m, r) := readNumber 0 r in
      match r with
      | String "," r =>
          let '(n, r) := readNumber 0 r in
          match r with String "}" r => Some (pseq (times m a) (upTo (n - m) a), skipLazy r) | _ => None end
      | String "}" r => Some (times m a, skipLazy r)
      | _ => None
      end
  | _ => Some (a, s)
  end.

Inductive Mode := alternatives | sequence | atom.

Fixpoint read (fuel : nat) (m : Mode) (s : string) : option (pat * string) :=
  match fuel with
  | O => None
  | S fuel =>
      match m with
      | alternatives =>
          '(a, r) ← read fuel sequence s;
          match r with String "|" r => '(b, r) ← read fuel alternatives r; Some (PAlt a b, r) | _ => Some (a, r) end
      | sequence =>
          match s with
          | EmptyString | String ")" _ | String "|" _ => Some (PEps, s)
          | _ => '(a, r) ← read fuel atom s; '(a, r) ← quantify a r; '(b, r) ← read fuel sequence r; Some (pseq a b, r)
          end
      | atom =>
          match s with
          | String "(" (String "?" (String ":" r)) | String "(" r =>
              '(a, r) ← read fuel alternatives r; match r with String ")" r => Some (a, r) | _ => None end
          | String "[" (String "^" r) => '(l, r) ← readClass r; Some (classOf true l, r)
          | String "[" r => '(l, r) ← readClass r; Some (classOf false l, r)
          | String "\" (String "b" r) => Some (PBoundary, r)
          | String "\" (String c r) => Some (PChr (escaped c), r)
          | String "." r => Some (PChr (mkSet true newlines), r)
          | String c r => Some (PChr (theChar c), r)
          | EmptyString => None
          end
      end
  end.
End Reading.

(** The pattern of a source text; [PVoid] when it is none. *)
Definition patternOf (ignoreCase : bool) (source : string) : pat :=
  match read ignoreCase (2 * String.length source + 3) alternatives source with Some (p, EmptyString) => p | _ => PVoid end.

(** It is one. *)
Definition readable (ignoreCase : bool) (source : string) : bool :=
  match read ignoreCase (2 * String.length source + 3) alternatives source with Some (_, EmptyString) => true | _ => false end.

Definition lowerText (t : text) : text := map lowerAscii t.

(** [/source/i.test(t)] and [/source/.test(t)]. *)
Definition testI (source : string) (t : text) : bool := searchIn (patternOf true source) (lowerText t).
Definition test (source : string) (t : text) : bool := searchIn (patternOf false source) t.

Example test_example :
  testI "\bmodel\b[\s\S]{0,80}?\b(?:does\s+not\s+support|unsupported)\b" (str "This Model really does not  support it") = true /\
  testI "\bmodel\b[\s\S]{0,80}?\b(?:does\s+not\s+support|unsupported)\b" (str "models does not support it") = false /\
  testI "(?:throttle|limit)s?:\s*[a-z]+\b" (str "LIMITS:  abc") = true.
Proof. vm_compute. done. Qed.
