(* ===== verification/ErrorRules.v ===== *)
(** * Error rules: [open-sse/config/errorConfig.ts]

    The tables that turn a status and a text into a reason and a cooldown, the backoff
    by level, the degraded function of one vendor, and the failure of an embedded
    service.  Texts are strings of bytes in UTF-8, of which the code's tests look at
    ASCII only; the verdict of every classifier of a failed call is a [Decision], with
    the fields of [checkFallbackError]'s result. *)
From Stdlib Require Import String Ascii.
From S2P Require Import Prelude JsMap JsString ThinkTags Patterns.
#[local] Open Scope Z_scope.

(** [/source/i.test(s)] on a string. *)
Definition matchesI (source s : string) : bool := testI source (str s).
Definition anyMatchI (sources : list string) (s : string) : bool := existsb (fun p => matchesI p s) sources.

(** [signals.some((sig) => s.includes(sig))]. *)
Definition anyIncludes (signals : list string) (s : string) : bool := existsb (includes s) signals.

(** ** Reasons and statuses *)

Definition QUOTA_EXHAUSTED : string := "quota_exhausted".
Definition RATE_LIMIT_EXCEEDED : string := "rate_limit_exceeded".
Definition MODEL_CAPACITY : string := "model_capacity".
Definition SERVER_ERROR : string := "server_error".
Definition AUTH_ERROR : string := "auth_error".
Definition UNKNOWN : string := "unknown".

(** ** The verdict on a failed call *)

Inductive RetryHintProvenance := header | google_rpc_retry_info | body.
Inductive RuleScope := model | provider | connection.

Record Decision := mkDecision {
  shouldFallback : bool;
  cooldownMs : Z;
  baseCooldownMs : option Z;
  newBackoffLevel : option Z;
  usedUpstreamRetryHint : option bool;
  retryHintSource : option RetryHintProvenance;
  reason : string;
  permanent : bool;
  creditsExhausted : bool;
  dailyQuotaExhausted : bool;
  ambiguousAuth : bool;
  skipProviderBreaker : bool;
  quotaResetHintMs : option Z;
  configuredCooldownMs : option Z;
  ruleScope : option RuleScope;
}.

#[export] Instance Decision_eta : Eta Decision := fun x =>
  mkDecision (shouldFallback x) (cooldownMs x) (baseCooldownMs x) (newBackoffLevel x) (usedUpstreamRetryHint x)
    (retryHintSource x) (reason x) (permanent x) (creditsExhausted x) (dailyQuotaExhausted x) (ambiguousAuth x)
    (skipProviderBreaker x) (quotaResetHintMs x) (configuredCooldownMs x) (ruleScope x).

(** [{ shouldFallback, cooldownMs, reason }]: the fields it does not write are
    undefined. *)
Definition decide3 (fallback : bool) (cooldown : Z) (why : string) : Decision :=
  mkDecision fallback cooldown None None None None why false false false false false None None None.

(** ** Tables *)

Record ErrorRule := mkRule {
  ruleId : string;
  ruleText : option string;
  ruleStatus : option Z;
  ruleReason : string;
  ruleCooldownMs : option Z;
  ruleBackoff : bool;
}.

Record ErrorInfo := mkInfo { infoType : string; infoCode : string }.

Definition BASE : Z := 1000.
Definition MAX : Z := 2 * 60 * 1000.
Definition MAX_LEVEL : Z := 15.

Definition COOLDOWN_paymentRequired : Z := 2 * 60 * 1000.
Definition COOLDOWN_notFound : Z := 2 * 60 * 1000.
Definition COOLDOWN_transientInitial : Z := 5 * 1000.
Definition COOLDOWN_transient : Z := 5 * 1000.
Definition COOLDOWN_requestNotAllowed : Z := 5 * 1000.
Definition COOLDOWN_rateLimit : Z := 2 * 60 * 1000.

Definition ERROR_RULES : list ErrorRule := [
  mkRule "no_credentials" (Some "no credentials") None "auth_error" (Some COOLDOWN_notFound) false;
  mkRule "request_not_allowed" (Some "request not allowed") None "rate_limit_exceeded" (Some COOLDOWN_requestNotAllowed) false;
  mkRule "improperly_formed_request" (Some "improperly formed request") None "model_capacity" (Some 0) false;
  mkRule "rate_limit" (Some "rate limit") None "rate_limit_exceeded" None true;
  mkRule "too_many_requests" (Some "too many requests") None "rate_limit_exceeded" None true;
  mkRule "hour_quota_exceeded" (Some "hour quota") None "quota_exhausted" None true;
  mkRule "quota_has_been_exceeded" (Some "quota has been exceeded") None "quota_exhausted" None true;
  mkRule "quota_exceeded" (Some "quota exceeded") None "quota_exhausted" None true;
  mkRule "quota_will_reset" (Some "quota will reset") None "quota_exhausted" None true;
  mkRule "capacity_exhausted" (Some "exhausted your capacity") None "quota_exhausted" None true;
  mkRule "quota_exhausted" (Some "quota exhausted") None "quota_exhausted" None true;
  mkRule "free_tier_exhausted" (Some "free tier of the model has been exhausted") None "quota_exhausted" None true;
  mkRule "out_of_extra_usage" (Some "out of extra usage") None "quota_exhausted" None true;
  mkRule "extra_usage_required" (Some "extra usage required") None "quota_exhausted" None true;
  mkRule "capacity" (Some "capacity") None "model_capacity" None true;
  mkRule "overloaded" (Some "overloaded") None "model_capacity" None true;
  mkRule "high_demand" (Some "high demand") None "model_capacity" None true;
  mkRule "status_401" None (Some 401) "auth_error" (Some 0) false;
  mkRule "status_402" None (Some 402) "quota_exhausted" (Some 0) false;
  mkRule "status_403" None (Some 403) "unknown" (Some 0) false;
  mkRule "status_404" None (Some 404) "unknown" (Some COOLDOWN_notFound) false;
  mkRule "status_406" None (Some 406) "server_error" None true;
  mkRule "status_408" None (Some 408) "server_error" None true;
  mkRule "status_429" None (Some 429) "rate_limit_exceeded" None true;
  mkRule "status_500" None (Some 500) "server_error" None true;
  mkRule "status_502" None (Some 502) "server_error" None true;
  mkRule "status_503" None (Some 503) "server_error" None true;
  mkRule "status_504" None (Some 504) "server_error" None true
]%string.

Definition ERROR_TYPES : list (Z * ErrorInfo) := [
  (400, mkInfo "invalid_request_error" "bad_request");
  (401, mkInfo "authentication_error" "invalid_api_key");
  (402, mkInfo "billing_error" "payment_required");
  (403, mkInfo "permission_error" "permission_denied");
  (404, mkInfo "invalid_request_error" "model_not_found");
  (406, mkInfo "invalid_request_error" "model_not_supported");
  (410, mkInfo "invalid_request_error" "model_shutdown");
  (429, mkInfo "rate_limit_error" "rate_limit_exceeded");
  (499, mkInfo "client_disconnected" "client_disconnected");
  (500, mkInfo "server_error" "internal_server_error");
  (502, mkInfo "server_error" "bad_gateway");
  (503, mkInfo "server_error" "service_unavailable");
  (504, mkInfo "server_error" "gateway_timeout")
]%string.

Definition DEFAULT_ERROR_MESSAGES : list (Z * string) := [
  (400, "Bad request");
  (401, "Invalid API key provided");
  (402, "Payment required");
  (403, "Permission denied");
  (404, "Model not found");
  (406, "Model not supported");
  (410, "Model has been shut down");
  (429, "Rate limit exceeded");
  (499, "Client disconnected");
  (500, "Internal server error");
  (502, "Bad gateway - upstream provider error");
  (503, "Service temporarily unavailable");
  (504, "Gateway timeout")
]%string.

Definition assocZ {A} (k : Z) (l : list (Z * A)) : option A := snd <$> List.find (fun e => fst e =? k) l.

Definition getErrorInfo (statusCode : Z) : ErrorInfo :=
  orElse (assocZ statusCode ERROR_TYPES)
    (if statusCode >=? 500 then mkInfo "server_error" "internal_server_error" else mkInfo "invalid_request_error" "").

Definition getDefaultErrorMessage (statusCode : Z) : string :=
  orElse (assocZ statusCode DEFAULT_ERROR_MESSAGES) "An error occurred".

Definition calculateBackoffCooldown (level : Z) : Z := Z.min (BASE * 2 ^ Z.max 0 level) MAX.

Definition matchErrorRuleByText (message : string) : option ErrorRule :=
  let lower := toLowerCase message in
  if isEmpty lower then None
  else List.find (fun r => match ruleText r with Some t => negb (isEmpty t) && includes lower t | None => false end) ERROR_RULES.

Definition matchErrorRuleByStatus (statusCode : Z) : option ErrorRule :=
  List.find (fun r => bool_decide (ruleStatus r = Some statusCode)) ERROR_RULES.

Definition findMatchingErrorRule (statusCode : Z) (message : string) : option ErrorRule :=
  match matchErrorRuleByText message with Some r => Some r | None => matchErrorRuleByStatus statusCode end.

Definition NIM_FUNCTION_DEGRADED_PATTERNS : list string :=
  ["\bfunction\b[\s\S]{0,80}?\bDEGRADED\b"; "\bDEGRADED\b[\s\S]{0,80}?\bfunction\b"]%string.

Definition isNimFunctionDegraded (errorText : string) : bool := anyMatchI NIM_FUNCTION_DEGRADED_PATTERNS errorText.

(** ** Response headers

    A [Headers] object, its names in lower case, or a plain object with the names
    as they were written. *)
Inductive HeaderBag :=
| Headers (entries : jsmap string string)
| HeaderRecord (entries : jsmap string string).

(** The value of a header the code looks up as [name] of a [Headers], and as [name] or
    [other] of a plain object; an empty one counts as none wherever it is read. *)
Definition headerOf (h : HeaderBag) (name other : string) : option string :=
  match h with
  | Headers l => mget name l
  | HeaderRecord l => match mget name l with Some (String c v) => Some (String c v) | _ => mget other l end
  end.

Definition serviceSupervisorCooldown (status : Z) (headers : option HeaderBag) : option Decision :=
  match headers with
  | Some h =>
      if negb (status =? 503) then None
      else
        match headerOf h "x-omni-fallback-hint" "X-Omni-Fallback-Hint" with
        | Some hint =>
            if String.eqb (toLowerCase hint) "connection_cooldown" then
              Some ((decide3 true 5000 "service_not_running") <| baseCooldownMs := Some 5000 |> <| newBackoffLevel := Some 0 |>
                      <| skipProviderBreaker := true |>)
            else None
        | None => None
        end
  | None => None
  end.
