(* ===== verification/RotationConfig.v ===== *)
(** * Rotation of accounts: [open-sse/services/rotationConfig.ts]

    When the operator's rules let a failing account be left: switches, thresholds and
    windows, read from the environment once and overridden per connection, and the
    count of recent errors of each account and status.  The environment is an argument;
    the parsed configuration and the counters, which the code keeps on [globalThis],
    are a state.  [refines] says the counters, which forget, rotate exactly when the
    full history says so. *)
From Stdlib Require Import String Ascii QArith.Qround.
From S2P Require Import Prelude JsMap JsString IpFilter ComboSteps ErrorRules.
#[local] Open Scope Z_scope.

Record RotationErrorClassConfig := mkClass { enabled : bool; threshold : Z; windowMs : Z }.

Record RotationConfig := mkRotation {
  rotationEnabled : bool;
  rateLimitResetMs : Z;
  disableTagWithoutReset : bool;
  rateLimit429 : RotationErrorClassConfig;
  serverError500 : RotationErrorClassConfig;
  badGateway502 : RotationErrorClassConfig;
  badRequest400 : RotationErrorClassConfig;
}.

Definition DEFAULT_WINDOW_MS : Z := 120000.

(** ** Reading the environment *)

Definition envBoolFromString (v : string) (dflt : bool) : bool :=
  let s := toLowerCase (trim v) in
  if existsb (String.eqb s) ["true"; "1"; "yes"; "on"]%string then true
  else if existsb (String.eqb s) ["false"; "0"; "no"; "off"]%string then false
  else dflt.

Section Environment.
(** [process.env]. *)
Context (env : string -> option string).

Definition envBool (name : string) (dflt : bool) : bool :=
  match env name with Some raw => if isEmpty raw then dflt else envBoolFromString raw dflt | None => dflt end.

Definition envInt (name : string) (dflt least : Z) : Z :=
  match env name with
  | Some raw =>
      if isEmpty raw then dflt
      else match parseInt10 (trim raw) with Some n => Z.max least n | None => dflt end
  | None => dflt
  end.

Definition buildClass (enableEnv thresholdEnv windowEnv : string) (enableDefault : bool) : RotationErrorClassConfig :=
  mkClass (envBool enableEnv enableDefault) (envInt thresholdEnv 1 1) (envInt windowEnv (DEFAULT_WINDOW_MS / 1000) 1 * 1000).

Definition buildFromEnv : RotationConfig :=
  mkRotation (envBool "OMNIROUTE_ROTATION_ENABLED" true)
    (envInt "OMNIROUTE_ROTATION_RATE_LIMIT_RESET_SECONDS" 0 0 * 1000)
    (envBool "OMNIROUTE_ROTATION_DISABLE_TAG_WITHOUT_RESET" true)
    (buildClass "OMNIROUTE_ROTATE_ON_429" "OMNIROUTE_ROTATE_429_THRESHOLD" "OMNIROUTE_ROTATE_429_WINDOW_SECONDS" true)
    (buildClass "OMNIROUTE_ROTATE_ON_500" "OMNIROUTE_ROTATE_500_THRESHOLD" "OMNIROUTE_ROTATE_500_WINDOW_SECONDS" true)
    (buildClass "OMNIROUTE_ROTATE_ON_502" "OMNIROUTE_ROTATE_502_THRESHOLD" "OMNIROUTE_ROTATE_502_WINDOW_SECONDS" true)
    (buildClass "OMNIROUTE_ROTATE_ON_400" "OMNIROUTE_ROTATE_400_THRESHOLD" "OMNIROUTE_ROTATE_400_WINDOW_SECONDS" false).
End Environment.

(** ** Overrides of a connection *)

Definition coerceBool (v : json) (dflt : bool) : bool :=
  match v with VBool b => b | VStr s => envBoolFromString s dflt | _ => dflt end.

Definition coerceInt (v : json) (dflt least : Z) : Z :=
  match v with
  | VNum (Fin q) => Z.max least (Qfloor q)
  | VStr s => match parseInt10 s with Some n => Z.max least n | None => dflt end
  | _ => dflt
  end.

(** [overrides] is [None] when it is missing or no object; the values of a list are
    not found by name. *)
Definition overrideClass (overrides : json) (src : RotationErrorClassConfig) (enableKey thrKey winKey : string) : RotationErrorClassConfig :=
  mkClass (match field enableKey overrides with Some v => coerceBool v (enabled src) | None => enabled src end)
    (match field thrKey overrides with Some v => coerceInt v (threshold src) 1 | None => threshold src end)
    (match field winKey overrides with Some v => coerceInt v (windowMs src / 1000) 1 * 1000 | None => windowMs src end).

Definition overrideConfig (base : RotationConfig) (overrides : option json) : RotationConfig :=
  match overrides with
  | None => base
  | Some o =>
      mkRotation (rotationEnabled base)
        (match field "rateLimitResetSeconds" o with
         | Some v => coerceInt v (rateLimitResetMs base / 1000) 0 * 1000
         | None => rateLimitResetMs base
         end)
        (disableTagWithoutReset base)
        (overrideClass o (rateLimit429 base) "rotateOn429" "error429Threshold" "error429WindowSeconds")
        (overrideClass o (serverError500 base) "rotateOn500" "error500Threshold" "error500WindowSeconds")
        (overrideClass o (badGateway502 base) "rotateOn502" "error502Threshold" "error502WindowSeconds")
        (overrideClass o (badRequest400 base) "rotateOn400" "error400Threshold" "error400WindowSeconds")
  end.

(** ** The gate *)

Inductive ClassName := class429 | class502 | class500 | class400.

Definition classNameForStatus (status : Z) : option ClassName :=
  if status =? 429 then Some class429
  else if status =? 502 then Some class502
  else if (status >=? 500) && (status <? 600) then Some class500
  else if status =? 400 then Some class400
  else None.

Definition classOf (cfg : RotationConfig) (c : ClassName) : RotationErrorClassConfig :=
  match c with
  | class429 => rateLimit429 cfg | class502 => badGateway502 cfg
  | class500 => serverError500 cfg | class400 => badRequest400 cfg
  end.

Definition classForStatus (status : Z) (cfg : RotationConfig) : option RotationErrorClassConfig :=
  classOf cfg <$> classNameForStatus status.

(** The class of 400 is recognised by identity of the object, hence by its name. *)
Definition isFallbackBlockedForStatus (status : Z) (cfg : RotationConfig) : bool :=
  match classNameForStatus status with
  | None | Some class400 => false
  | Some c => if negb (rotationEnabled cfg) then true else negb (enabled (classOf cfg c))
  end.

Definition shouldForceFallbackFor400 (status : Z) (cfg : RotationConfig) : bool :=
  (status =? 400) && rotationEnabled cfg && enabled (badRequest400 cfg).

Definition rateLimitCooldownOverrideMs (cfg : RotationConfig) : option Z :=
  if rateLimitResetMs cfg >? 0 then Some (rateLimitResetMs cfg) else None.

(** ** Counters *)

Record Rotation := mkState { cachedConfig : option RotationConfig; counters : jsmap string (list Z) }.

#[export] Instance Rotation_eta : Eta Rotation := fun x => mkState (cachedConfig x) (counters x).

Definition noRotation : Rotation := mkState None [].

Definition bucketKey (key : string) (status : Z) : string := key +:+ "::" +:+ pretty status.

Definition recordErrorAndCheckThreshold (key : string) (status : Z) (cfg : RotationConfig) (nowMs : Z) (s : Rotation) : Rotation * bool :=
  match classForStatus status cfg with
  | None => (s, true)
  | Some cls =>
      if threshold cls <=? 1 then (s, true)
      else
        let bucket := bucketKey key status in
        let list := orElse (mget bucket (counters s)) [] in
        let windowStart := nowMs - windowMs cls in
        let pruned := base.filter (fun ts => ts >=? windowStart = true) list ++ [nowMs] in
        let s := s <| counters := mset bucket pruned (counters s) |> in
        if Z.of_nat (length pruned) >=? threshold cls then (s <| counters := mdel bucket (counters s) |>, true)
        else (s, false)
  end.

Definition clearRotationErrorCounters (s : Rotation) : Rotation := s <| counters := [] |>.
Definition resetGlobalRotationConfigForTest (s : Rotation) : Rotation := clearRotationErrorCounters (s <| cachedConfig := None |>).

Definition getGlobalRotationConfig (env : string -> option string) (s : Rotation) : Rotation * RotationConfig :=
  match cachedConfig s with
  | Some cfg => (s, cfg)
  | None => let cfg := buildFromEnv env in (s <| cachedConfig := Some cfg |>, cfg)
  end.

Definition resolveRotationConfig (env : string -> option string) (overrides : option json) (s : Rotation) : Rotation * RotationConfig :=
  let '(s, base) := getGlobalRotationConfig env s in (s, overrideConfig base overrides).

Definition gateResult (status : Z) (cfg : RotationConfig) : option Decision :=
  if shouldForceFallbackFor400 status cfg then
    let cooldown := orElse (rateLimitCooldownOverrideMs cfg) COOLDOWN_rateLimit in
    Some ((decide3 true cooldown RATE_LIMIT_EXCEEDED) <| baseCooldownMs := Some cooldown |> <| newBackoffLevel := Some 0 |>)
  else None.

Definition evaluateRotationGate (status : Z) (cfg : RotationConfig) (rotationKey : option string) (nowMs : Z) (s : Rotation)
  : Rotation * option Decision :=
  if isFallbackBlockedForStatus status cfg then (s, Some (decide3 false 0 UNKNOWN))
  else
    match rotationKey, classForStatus status cfg with
    | Some key, Some _ =>
        let '(s, rotate) := recordErrorAndCheckThreshold key status cfg nowMs s in
        if rotate then (s, gateResult status cfg) else (s, Some (decide3 false 0 UNKNOWN))
    | _, _ => (s, gateResult status cfg)
    end.

Definition rotationRateLimitFallback (why : string) (cfg : RotationConfig) : option Decision :=
  if negb (String.eqb why RATE_LIMIT_EXCEEDED) then None
  else
    match rateLimitCooldownOverrideMs cfg with
    | None => None
    | Some ms =>
        Some ((decide3 true ms why) <| baseCooldownMs := Some ms |> <| newBackoffLevel := Some 0 |> <| usedUpstreamRetryHint := Some false |>)
    end.

(** ** The account's part *)

Record RotationContext := mkContext { rotationOverrides : option json; rotationKey : option string }.

Definition isObject (v : json) : bool := match v with VArr _ | VObj _ => true | _ => false end.

(** [account] is undefined, or a value. *)
Definition extractRotationContext (account : option json) : RotationContext :=
  let rec := match account with Some v => if isObject v then Some v else None | None => None end in
  let overrides := (rec ≫= field "providerSpecificData") ≫= field "rotationOverrides" in
  mkContext (match overrides with Some o => if isObject o then Some o else None | None => None end)
    (match rec ≫= field "id" with Some (VStr s) => if isEmpty s then None else Some s | _ => None end).

Definition gateFor (env : string -> option string) (status : Z) (account : option json) (nowMs : Z) (s : Rotation) : Rotation * option Decision :=
  let ctx := extractRotationContext account in
  let '(s, cfg) := resolveRotationConfig env (rotationOverrides ctx) s in
  evaluateRotationGate status cfg (rotationKey ctx) nowMs s.

Definition overrideFor (env : string -> option string) (why : string) (account : option json) (s : Rotation) : Rotation * option Decision :=
  let '(s, cfg) := resolveRotationConfig env (rotationOverrides (extractRotationContext account)) s in
  (s, rotationRateLimitFallback why cfg).

(** ** What the counters mean

    The history of a bucket holds every error since its account was last rotated; an
    account is rotated when the errors of its history that are within the window,
    this one included, reach the threshold.  The window does not change between the
    errors of one account, and the clock does not go back. *)
Record RotationCall := mkCall { callKey : string; callStatus : Z; callAt : Z }.

Definition History := string -> Z -> list Z.

Definition forget (h : History) (key : string) (status : Z) (l : list Z) : History :=
  fun k st => if bool_decide (k = key /\ st = status) then l else h k st.

Definition specStep (cfgOf : string -> RotationConfig) (c : RotationCall) (h : History) : History * bool :=
  match classForStatus (callStatus c) (cfgOf (callKey c)) with
  | None => (h, true)
  | Some cls =>
      if threshold cls <=? 1 then (h, true)
      else
        let all := h (callKey c) (callStatus c) ++ [callAt c] in
        let recent := base.filter (fun ts => callAt c - windowMs cls <= ts) all in
        if threshold cls <=? Z.of_nat (length recent) then (forget h (callKey c) (callStatus c) [], true)
        else (forget h (callKey c) (callStatus c) all, false)
  end.

Fixpoint specRun (cfgOf : string -> RotationConfig) (cs : list RotationCall) (h : History) : list bool :=
  match cs with [] => [] | c :: cs => let '(h, b) := specStep cfgOf c h in b :: specRun cfgOf cs h end.

Fixpoint countRun (cfgOf : string -> RotationConfig) (cs : list RotationCall) (s : Rotation) : list bool :=
  match cs with
  | [] => []
  | c :: cs =>
      let '(s, b) := recordErrorAndCheckThreshold (callKey c) (callStatus c) (cfgOf (callKey c)) (callAt c) s in
      b :: countRun cfgOf cs s
  end.

(** The clock does not go back. *)
Fixpoint inOrder (from : Z) (cs : list RotationCall) : Prop :=
  match cs with [] => True | c :: cs => from <= callAt c /\ inOrder (callAt c) cs end.

Lemma windows_positive env ov status cls :
  classForStatus status (overrideConfig (buildFromEnv env) ov) = Some cls -> 1000 <= windowMs cls.
Proof.
  assert (Hc : forall v d, 1000 <= d * 1000 -> 1000 <= coerceInt v d 1 * 1000) by (intros v d Hd; unfold coerceInt; repeat case_match; lia).
  assert (He : forall name d, 1000 <= d * 1000 -> 1000 <= envInt env name d 1 * 1000) by (intros name d Hd; unfold envInt; destruct (env name); [|done]; case_if; [done|]; destruct (parseInt10 _); lia).
  assert (Hb : forall a b c d, 1000 <= windowMs (buildClass env a b c d)) by (intros; by apply He).
  assert (Ho : forall o src a b c, 1000 <= windowMs src -> windowMs src / 1000 * 1000 = windowMs src -> 1000 <= windowMs (overrideClass o src a b c)).
  { intros o src a b c Hs Hm. cbn. destruct (field c o); [|done]. apply Hc. lia. }
  assert (Hm : forall a b c d, windowMs (buildClass env a b c d) / 1000 * 1000 = windowMs (buildClass env a b c d)) by (intros; cbn; by rewrite Z.div_mul).
  unfold classForStatus. destruct (classNameForStatus status) as [c|]; cbn; [|done]. intros [= <-].
  destruct ov as [o|]; destruct c; cbn [classOf overrideConfig buildFromEnv rateLimit429 badGateway502 serverError500 badRequest400]; auto.
Qed.

Lemma digit_value d : (d < 10)%N -> digitValue 10 (pretty_N_char d) = Some (Z.of_N d).
Proof. intros H. destruct d as [|[[[|[]|]|[|[]|]|]|[[|[]|]|[|[]|]|]|]]; try reflexivity; lia. Qed.

(** A printed number has digits, and perhaps a sign, only. *)
Lemma pretty_occurs sep (z : Z) : digitValue 10 sep = None -> sep <> "-"%char -> occurs sep (pretty z) = false.
Proof.
  intros Hd Hs. assert (Hc : forall d, (d < 10)%N -> Ascii.eqb (pretty_N_char d) sep = false) by (intros d H; apply Ascii.eqb_neq; intros E; rewrite <- E, digit_value in Hd by done; done).
  assert (H : forall x s, occurs sep s = false -> occurs sep (pretty_N_go x s) = false).
  { intros x. induction (N.lt_wf_0 x) as [x _ IH]. intros s Hn. destruct (decide (x = 0)%N) as [->|Hx]; [by rewrite pretty_N_go_0|].
    rewrite pretty_N_go_step by lia. apply IH; [apply N.div_lt; lia|]. cbn [occurs]. rewrite Hn, Hc by (apply N.mod_lt; lia). done. }
  assert (HN : forall n : N, occurs sep (pretty n) = false).
  { intros n. unfold pretty, pretty_N. case_decide; [|by apply H]. cbn [occurs]. rewrite orb_false_r. exact (Hc 0%N ltac:(lia)). }
  destruct z as [|p|p]; [exact (HN 0%N)|apply HN|]. change (pretty (Zneg p)) with (String "-" (pretty (Npos p))). cbn [occurs].
  rewrite HN, orb_false_r. apply Ascii.eqb_neq. congruence.
Qed.

Lemma digits_no_colon z : occurs ":" (pretty (z : Z)) = false.
Proof. by apply pretty_occurs. Qed.

Lemma colon_inj a b p q : occurs ":" p = false -> occurs ":" q = false -> a +:+ String ":" p = b +:+ String ":" q -> a = b /\ p = q.
Proof.
  intros Hp Hq. revert b. induction a as [|c a IH]; intros [|d b] E.
  - by injection E.
  - injection E as <- E. exfalso. revert Hp. rewrite E, occurs_append. cbn. by rewrite orb_true_r.
  - injection E as -> E. exfalso. revert Hq. rewrite <- E, occurs_append. cbn. by rewrite orb_true_r.
  - injection E as -> E. by destruct (IH b E) as [-> ->].
Qed.

Lemma bucketKey_inj k st k' st' : bucketKey k st = bucketKey k' st' -> k = k' /\ st = st'.
Proof.
  intros E. assert (H : forall a x, a +:+ "::" +:+ x = (a +:+ ":") +:+ String ":" x) by (intros; by rewrite append_assoc).
  unfold bucketKey in E. rewrite !H in E. apply colon_inj in E as [E1 E2%(inj pretty)]; [|apply digits_no_colon..]. split; [|done].
  by apply (colon_inj k k' "" "") in E1 as [-> _].
Qed.

(** The counters of every bucket hold, within its window, what the history holds. *)
Record Agrees (cfgOf : string -> RotationConfig) (t : Z) (s : Rotation) (h : History) : Prop := {
  ag_wf : mwf (counters s);
  ag_past k st : Forall (fun ts => ts <= t) (h k st);
  ag_recent k st cls w : classForStatus st (cfgOf k) = Some cls -> t - windowMs cls <= w ->
    base.filter (fun ts => w <= ts) (orElse (mget (bucketKey k st) (counters s)) []) = base.filter (fun ts => w <= ts) (h k st);
}.

Lemma filter_later (w w' : Z) (l : list Z) : w <= w' -> base.filter (fun ts => w' <= ts) (base.filter (fun ts => w <= ts) l) = base.filter (fun ts => w' <= ts) l.
Proof. intros Hw. rewrite list_filter_filter. apply list_filter_iff. lia. Qed.

Lemma agrees_later cfgOf t t' s h : Agrees cfgOf t s h -> t <= t' -> Agrees cfgOf t' s h.
Proof.
  intros [Hw Hp Hr] Ht. split; [done| |].
  - intros k st. eapply Forall_impl; [exact (Hp k st)|]. cbn. lia.
  - intros k st cls w Hc Hle. apply (Hr k st cls); [done|lia].
Qed.

Lemma agrees_step cfgOf t s h c :
  (forall k st cls, classForStatus st (cfgOf k) = Some cls -> 1000 <= windowMs cls) ->
  Agrees cfgOf t s h -> t <= callAt c ->
  let '(s', b) := recordErrorAndCheckThreshold (callKey c) (callStatus c) (cfgOf (callKey c)) (callAt c) s in
  let '(h', b') := specStep cfgOf c h in
  b = b' /\ Agrees cfgOf (callAt c) s' h'.
Proof.
  intros Hpos Hag Ht. destruct c as [key st now]. cbn [callKey callStatus callAt] in *. apply (agrees_later _ _ now) in Hag; [|done].
  unfold recordErrorAndCheckThreshold, specStep. cbn [callKey callStatus callAt].
  destruct (classForStatus st (cfgOf key)) as [cls|] eqn:Ec; [|done]. case_if; [done|]. destruct Hag as [Hw Hp Hr].
  pose proof (Hpos key st cls Ec) as H1.
  assert (E : base.filter (fun ts => now - windowMs cls <= ts) (h key st ++ [now]) =
              base.filter (fun ts => (ts >=? now - windowMs cls) = true) (orElse (mget (bucketKey key st) (counters s)) []) ++ [now]).
  { rewrite filter_app, filter_cons_True, filter_nil by lia. f_equal. rewrite <- (Hr key st cls) by (done || lia). apply list_filter_iff. intros x. rewrite Z.geb_le. lia. }
  rewrite E. rewrite Z.geb_leb. match type of E with _ = ?p => generalize dependent p end. intros pruned E.
  assert (Hne : forall k' st', ~ (k' = key /\ st' = st) -> bucketKey k' st' <> bucketKey key st) by (intros k' st' Hn [-> ->]%bucketKey_inj; by apply Hn).
  destruct (threshold cls <=? Z.of_nat (length pruned)); cbn beta iota; (split; [done|]); (split; cbn [counters set_field]).
  - by apply mwf_mdel, mwf_mset.
  - intros k' st'. unfold forget. case_bool_decide; [constructor|apply Hp].
  - intros k' st' cls' w Hc Hle. unfold forget. case_bool_decide as Hb.
    + destruct Hb as [-> ->]. by rewrite mget_mdel_eq by (by apply mwf_mset).
    + rewrite mget_mdel_ne, mget_mset_ne by (by apply Hne). by apply (Hr k' st' cls').
  - by apply mwf_mset.
  - intros k' st'. unfold forget. case_bool_decide; [|apply Hp]. apply Forall_app. split; [|by constructor]. eapply Forall_impl; [apply Hp|done].
  - intros k' st' cls' w Hc Hle. unfold forget. case_bool_decide as Hb.
    + destruct Hb as [-> ->]. rewrite mget_mset_eq. cbn [orElse]. assert (cls' = cls) as -> by congruence. rewrite <- E. by apply filter_later.
    + rewrite mget_mset_ne by (by apply Hne). by apply (Hr k' st' cls').
Qed.

Lemma agrees_run cfgOf t s h cs :
  (forall k st cls, classForStatus st (cfgOf k) = Some cls -> 1000 <= windowMs cls) ->
  Agrees cfgOf t s h -> inOrder t cs -> countRun cfgOf cs s = specRun cfgOf cs h.
Proof.
  intros Hpos. revert t s h. induction cs as [|c cs IH]; intros t s h Hag Ho; [done|]. destruct Ho as [Ht Ho]. cbn [countRun specRun].
  pose proof (agrees_step cfgOf t s h c Hpos Hag Ht) as H. destruct (recordErrorAndCheckThreshold _ _ _ _ s) as [s' b], (specStep cfgOf c h) as [h' b'].
  destruct H as [-> Hag']. f_equal. by apply (IH (callAt c)).
Qed.

(** C17. Whatever the operator set in the environment and on each connection, the counters,
    which drop errors as they age and restart after a rotation, rotate an account at
    exactly the failures at which its errors of that status since its last rotation,
    counted over the window, reach the threshold; accounts and statuses do not mix. *)
Theorem rotation_threshold env (ov : string -> option json) cs t :
  inOrder t cs ->
  countRun (fun key => overrideConfig (buildFromEnv env) (ov key)) cs noRotation =
  specRun (fun key => overrideConfig (buildFromEnv env) (ov key)) cs (fun _ _ => []).
Proof.
  intros H. apply (agrees_run _ t); [intros k st cls; apply windows_positive| |done]. split; [apply mwf_nil|by constructor|done].
Qed.

Definition sampleEnv (name : string) : option string :=
  if String.eqb name "OMNIROUTE_ROTATE_429_THRESHOLD" then Some "3" else if String.eqb name "OMNIROUTE_ROTATE_429_WINDOW_SECONDS" then Some "10" else None.

Definition sampleCalls : list RotationCall :=
  [mkCall "a" 429 0; mkCall "a" 429 6000; mkCall "b" 429 6000; mkCall "a" 429 11000; mkCall "a" 429 12000; mkCall "a" 429 13000; mkCall "a" 500 13000].

Lemma rotation_threshold_witness :
  inOrder 0 sampleCalls /\
  countRun (fun key => overrideConfig (buildFromEnv sampleEnv) None) sampleCalls noRotation = [false; false; false; false; true; false; true] /\
  countRun (fun key => overrideConfig (buildFromEnv sampleEnv) None) sampleCalls noRotation =
  specRun (fun key => overrideConfig (buildFromEnv sampleEnv) None) sampleCalls (fun _ _ => []).
Proof. split; [cbn; lia|]. split; [by vm_compute|]. apply (rotation_threshold sampleEnv (fun _ => None) sampleCalls 0). cbn. lia. Defined.
