(* ===== verification/ErrorTexts.v ===== *)
(** * Texts of errors

    What the router reads out of the text of an upstream error: the tables of signals
    and patterns of [open-sse/services/accountFallback.ts] and of the files it takes
    them from ([src/shared/utils/classify429.ts, quotaTextCooldowns.ts,
    modelAccessDenied.ts, requestResourceErrors.ts, requestTokenReservation.ts,
    accountFallback/sharedWalletCredits.ts, mistralAmbiguousAuth.ts,
    nonRetryableUpstream.ts, dailyQuotaReset.ts, geminiRateLimitTracker.ts]) and the
    predicates over them.  The patterns are the code's source texts, parsed by
    [Patterns].  A text is a string of bytes in UTF-8: the patterns that are not ASCII
    are literals (a class and an optional character of two of them are written as
    groups), so a byte search finds what the code finds; word boundaries and case are
    those of ASCII, and a bound on the distance between two words counts bytes. *)
From Stdlib Require Import String Ascii QArith.QArith_base.
From S2P Require Import Prelude JsMap JsString ThinkTags Patterns ComboSteps ErrorRules.
#[local] Open Scope Z_scope.

(** The double quote. *)
Definition dq : string := String "034"%char EmptyString.

(** ** Signals and patterns *)

Definition ACCOUNT_DEACTIVATED_SIGNALS : list string := [
  "account_deactivated";
  "account has been deactivated";
  "account has been disabled";
  "your account has been suspended";
  "this account is deactivated";
  "this service has been disabled in this account for violation";
  "this service has been disabled in this account"
]%string.

Definition CREDITS_EXHAUSTED_SIGNALS : list string := [
  "insufficient_quota";
  "billing_hard_limit_reached";
  "exceeded your current quota";
  "exceeded your current usage quota";
  "credit_balance_too_low";
  "your credit balance is too low";
  "credits exhausted";
  "out of credits";
  "payment required";
  "free tier of the model has been exhausted";
  "tier has been exhausted";
  "insufficient balance";
  "insufficient_balance";
  "insufficient account balance";
  "insufficient credit balance";
  "insufficient credits";
  "insufficient credit";
  "exhausted all your credits"
]%string.

Definition OAUTH_INVALID_TOKEN_SIGNALS : list string := [
  "invalid authentication credentials";
  "oauth 2";
  "login cookie";
  "valid authentication credential";
  "invalid credentials";
  "re-authenticate your cline account"
]%string.

Definition MODEL_PERMANENTLY_UNAVAILABLE_PATTERNS : list string := [
  "\bno longer available\b";
  "\bno longer supported\b";
  "\bhas reached (?:its |the )?end.?of.?life\b";
  "\bmodel[\s\S]{0,40}?\b(?:deprecated|retired|discontinued|decommissioned)\b";
  "\b(?:deprecated|retired|discontinued|decommissioned)[\s\S]{0,40}?\bmodel\b"
]%string.

Definition ENDPOINT_PERMANENTLY_MOVED_PATTERNS : list string := [
  "\bendpoint has moved\b";
  "\bno longer works\b";
  "\bupdate your base.?url\b"
]%string.

Definition ACCOUNT_SUSPENDED_BILLING_PATTERNS : list string := [
  "\bsuspended\b[\s\S]{0,120}?\b(?:spending limit|billing|invoice|payment)\b";
  "\b(?:spending limit|billing|invoice|payment)\b[\s\S]{0,120}?\bsuspended\b"
]%string.

Definition CONTEXT_OVERFLOW_PATTERNS : list string := [
  "\binput is too long\b";
  "\binput too long\b";
  "\bcontext.*(too long|exceeded|overflow|limit)";
  "\btoo many tokens\b";
  "\bprompt is too long\b";
  "\bcontext window";
  "\bmaximum context";
  "\bmax.*token";
  "\btoken limit";
  "\brequest too large\b";
  "\btokens per minute\b";
  "\btpm\b"
]%string.

Definition AUTH_CREDENTIAL_ERROR_PATTERNS : list string := [
  "\b(?:invalid|incorrect|expired|missing|revoked)\s+api[\s_-]?key\b";
  "\bapi[\s_-]?key\s+(?:is\s+)?(?:invalid|incorrect|expired|missing|revoked|not\s+valid)\b";
  "\bauthentication\s+(?:failed|error|required)\b";
  "\b(?:invalid|expired|missing|revoked)\s+(?:token|credentials?|bearer)\b";
  "\bunauthorized\b";
  "\bnot\s+authenticated\b"
]%string.

Definition PROVIDER_MODEL_UNSUPPORTED_PATTERNS : list string := [
  "\binvalid model\b";
  "\bmodel.*not.*(?:available|found|supported|accessible)\b";
  "\bmodel.*(?:does not exist|doesn't exist)\b";
  "\bmodel\b[\s\S]{0,80}?\b(?:does\s+not\s+support|doesn't\s+support|unsupported)\b";
  "\b(?:does\s+not\s+support|doesn't\s+support|unsupported)\b[\s\S]{0,80}?\bmodel\b";
  "\bunsupported\s+model\b";
  "\bplease select a different model\b";
  "\bunknown\s+provider\s+for\s+model\b"
]%string.

Definition MALFORMED_REQUEST_PATTERNS : list string := [
  "\bimproperly formed request\b";
  "\binvalid.*message.*format";
  "\bmessages must alternate\b";
  "\bempty (message|content)\b";
  "\bfunction'?s? name (?:can't|can not|is|has) (?:blank|empty|missing)";
  "function.*name.*(?:blank|empty|missing)";
  "tool_call.*name.*(?:blank|empty|missing)"
]%string.

Definition RATE_LIMIT_TEXT_PATTERNS : list string := [
  "high.?frequency";
  "non-compliant";
  "too many requests";
  "rate.?limit";
  "频繁";
  "频率"
]%string.

Definition PARAM_VALIDATION_PATTERNS : list string := [
  "max_tokens.*illegal";
  "max_tokens.*must be";
  "max_tokens.*range";
  "parameter is illegal";
  "is illegal.*range";
  "\b(?:extra|additional)\s+(?:input|inputs|propert(?:y|ies)|field|fields)\b.*(?:not permitted|not allowed)";
  "\b(?:unknown|unrecognized|unexpected)\s+(?:field|fields|property|properties|parameter|parameters|input|inputs)\b";
  "\binvalid\s+(?:field|fields|property|properties|parameter|parameters|input|inputs)\b"
]%string.

Definition MODEL_ACCESS_DENIED_PATTERNS : list string := [
  "\binvalid model\b";
  "\bmodel.*not.*(?:available|found|supported|accessible)\b";
  "\bmodel.*(?:does not exist|doesn't exist)\b";
  "\bmodel\b[\s\S]{0,80}?\b(?:does\s+not\s+support|doesn't\s+support|unsupported)\b";
  "\b(?:does\s+not\s+support|doesn't\s+support|unsupported)\b[\s\S]{0,80}?\bmodel\b";
  "\bunsupported\s+model\b";
  "\baccess.*denied.*model\b";
  "\bmodel.*access.*denied\b";
  "\bplease select a different model\b";
  "\bunknown\s+provider\s+for\s+model\b";
  "\b(?:access|permission)[\s\S]{0,60}?\bmodel\b";
  "\bmodel[\s\S]{0,60}?\b(?:access|permission)\b"
]%string.

Definition RESOURCE_NOT_FOUND_PATTERNS : list string := [
  "\b(?:thread_not_found|previous_message(?:_id)?_not_found)\b";
  "\b(?:thread|previous[_ -]?message[_ -]?id)\b[^\n]{0,160}\b(?:not found|does not exist|unknown|invalid)\b";
  "\b(?:not found|does not exist|unknown|invalid)\b[^\n]{0,160}\b(?:thread|previous[_ -]?message[_ -]?id)\b";
  "\bfiles?\b[^\n]{0,160}\b(?:not found|does not exist)\b";
  "\b(?:not found|does not exist)\b[^\n]{0,160}\bfiles?\b";
  "\b(?:input[_ -]?file|file[_ -]?id|item|response|vector[_ -]?store|upload)\b[^\n]{0,160}\b(?:not found|does not exist)\b";
  "\b(?:not found|does not exist)\b[^\n]{0,160}\b(?:input[_ -]?file|file[_ -]?id|item|response|vector[_ -]?store|upload)\b";
  "\bfile-[a-z0-9_-]+\b[^\n]{0,160}\b(?:not found|does not exist)\b"
]%string.

Definition QUOTA_PATTERNS : list string := [
  "daily.*limit";
  "daily.*quota";
  "per.?day.*limit";
  "monthly.*limit";
  "monthly.*quota";
  "per.?month.*limit";
  "(?:api\s+)?calls?\s*/\s*month";
  "requests?\s*/\s*month";
  "limited\s+to\s+[\d,]+.*(?:calls?|requests?).*per\s+month";
  "quota.*exceed";
  "exceed.*quota";
  "insufficient.*quota";
  "billing.*cap";
  "credit.*exhaust";
  "exhausted.*credits";
  "exhausted all your credits";
  "have exhausted all your credits";
  "out of credits";
  "hard.?limit";
  "plan.*limit";
  "individual quota reached";
  "enable overages";
  "INSUFFICIENT_G1_CREDITS_BALANCE";
  "resource has been exhausted.*reset after";
  "daily free allocation";
  "have exhausted their quota";
  (dq +:+ "error" +:+ dq +:+ "\s*:\s*" +:+ dq +:+ "usage limit reached[.\s]*" +:+ dq);
  "organization TPD rate limit";
  "\bTPD rate limit\b";
  "insufficient balance";
  "all credentials for model .* are cooling down";
  "model_cooldown";
  "auth unavailable: .* in cooldown";
  "used all the included free usage";
  "resets over a rolling 24-hour window";
  "\[1308\]";
  "\[1310\]";
  "usage limit reached for \d+\s*hour";
  "使用上限";
  "限额将在";
  "已(?:达)?到.*上限";
  "额度已用尽";
  "额度已用完";
  "今日调用上限";
  "调用上限";
  "配额(?:已|超)";
  "超出.*配额";
  "クォータに達しました";
  "上限に達しました";
  "利用制限に達しました";
  "할당량을 초과";
  "사용 한도를 초과"
]%string.

Definition MODEL_ACCESS_DENIED_CODES : list string := ["model_not_found"; "deployment_not_found"]%string.
Definition MODEL_ACCESS_DENIED_TYPES : list string := ["not_found_error"]%string.
Definition MODEL_ACCESS_AMBIGUOUS_TYPES : list string := ["permission_error"]%string.

(** Every pattern is one. *)
Lemma patterns_read :
  forallb (readable true)
    (MODEL_PERMANENTLY_UNAVAILABLE_PATTERNS ++ ENDPOINT_PERMANENTLY_MOVED_PATTERNS ++ ACCOUNT_SUSPENDED_BILLING_PATTERNS ++
     CONTEXT_OVERFLOW_PATTERNS ++ AUTH_CREDENTIAL_ERROR_PATTERNS ++ PROVIDER_MODEL_UNSUPPORTED_PATTERNS ++
     MALFORMED_REQUEST_PATTERNS ++ RATE_LIMIT_TEXT_PATTERNS ++ PARAM_VALIDATION_PATTERNS ++ MODEL_ACCESS_DENIED_PATTERNS ++
     RESOURCE_NOT_FOUND_PATTERNS ++ QUOTA_PATTERNS ++ NIM_FUNCTION_DEGRADED_PATTERNS) = true.
Proof. by vm_compute. Qed.

(** ** Accounts *)

(** [custom] holds the signals set from the settings. *)
Definition getMergedBannedSignals (custom : list string) : list string :=
  match custom with [] => ACCOUNT_DEACTIVATED_SIGNALS | _ => ACCOUNT_DEACTIVATED_SIGNALS ++ custom end.

Definition isAccountDeactivated (custom : list string) (errorText : string) : bool :=
  anyIncludes (getMergedBannedSignals custom) (toLowerCase errorText).

Definition GROK_BUILD_USAGE_BALANCE_SIGNAL : string := "usage balance exhausted".

Definition matchesSharedWalletCreditsBody (lowered : string) : bool := includes lowered GROK_BUILD_USAGE_BALANCE_SIGNAL.

Definition SHARED_WALLET_402_PROVIDERS : list string := ["grok-cli"; "grok-web"; "xai-oauth"]%string.

Definition isOneOf (s : string) (l : list string) : bool := existsb (String.eqb s) l.

Definition isSharedWalletCredits402 (provider : option string) (status : Z) (errorText : option string) : bool :=
  match provider with
  | Some p =>
      if negb (status =? 402) || negb (isOneOf p SHARED_WALLET_402_PROVIDERS) then false
      else
        match errorText with
        | None => true
        | Some t => if isEmpty (trim t) then true else matchesSharedWalletCreditsBody (toLowerCase t)
        end
  | None => false
  end.

Definition isCreditsExhaustedWithSharedWallet (errorText : string) (signals : list string) : bool :=
  let lower := toLowerCase errorText in anyIncludes signals lower || matchesSharedWalletCreditsBody lower.

Definition isCreditsExhausted (errorText : string) : bool := isCreditsExhaustedWithSharedWallet errorText CREDITS_EXHAUSTED_SIGNALS.

Definition isModelPermanentlyUnavailable (errorText : string) : bool := anyMatchI MODEL_PERMANENTLY_UNAVAILABLE_PATTERNS errorText.
Definition isEndpointPermanentlyMoved (errorText : string) : bool := anyMatchI ENDPOINT_PERMANENTLY_MOVED_PATTERNS errorText.
Definition isAccountSuspendedForBilling (errorText : string) : bool := anyMatchI ACCOUNT_SUSPENDED_BILLING_PATTERNS errorText.
Definition isOAuthInvalidToken (errorText : string) : bool := anyIncludes OAUTH_INVALID_TOKEN_SIGNALS (toLowerCase errorText).

Definition isMoonshotAccountBalanceExhausted (errorText : string) : bool :=
  let lower := toLowerCase errorText in includes lower "insufficient balance" || includes lower "exceeded_current_quota".

(** ** Models *)

Definition isProviderModelUnsupported400 (status : Z) (errorText : string) : bool :=
  if negb (status =? 400) then false
  else if anyMatchI AUTH_CREDENTIAL_ERROR_PATTERNS errorText then false
  else anyMatchI PROVIDER_MODEL_UNSUPPORTED_PATTERNS errorText.

Definition MODEL_SCOPED_EXTRA : list string := [
  "\bmodel\b[\s\S]{0,80}?\b(?:not\s+supported|unsupported|unknown|unavailable)\b";
  "\b(?:not\s+supported|unsupported|unknown)\b[\s\S]{0,80}?\bmodel\b";
  "\bunsupported_api_for_model\b";
  "\bdoes\s+not\s+support\s+(?:the\s+)?responses\s+api\b"
]%string.

Definition isModelScoped400 (errorText : string) : bool :=
  if isEmpty errorText then false
  else anyMatchI MODEL_ACCESS_DENIED_PATTERNS errorText || anyMatchI MODEL_SCOPED_EXTRA errorText.

(** A model the provider does not serve is a fault of the model for the combo too: the
    first list of patterns is part of the second. *)
Lemma unsupported_is_scoped st errorText : isProviderModelUnsupported400 st errorText = true -> isModelScoped400 errorText = true.
Proof.
  unfold isProviderModelUnsupported400, isModelScoped400. case_if; [done|]. case_if; [done|]. intros H.
  assert (Hs : forallb (fun p => existsb (String.eqb p) MODEL_ACCESS_DENIED_PATTERNS) PROVIDER_MODEL_UNSUPPORTED_PATTERNS = true) by (by vm_compute).
  assert (Hm : anyMatchI MODEL_ACCESS_DENIED_PATTERNS errorText = true).
  { unfold anyMatchI in *. apply existsb_exists in H as (p & Hp & H). apply existsb_exists. exists p. split; [|done].
    rewrite forallb_forall in Hs. apply Hs, existsb_exists in Hp as (q & Hq & ->%String.eqb_eq). done. }
  rewrite Hm. destruct errorText; [|done]. by vm_compute in H.
Qed.

(** ** Quotas *)

(** On a text; the patterns without the flag i have no letters of ASCII. *)
Definition looksLikeQuotaExhausted (text : string) : bool := if isEmpty text then false else anyMatchI QUOTA_PATTERNS text.

Definition isSubscriptionQuotaText (lower : string) (provider : option string) : bool :=
  anyIncludes ["usage limit reached"; "usage limit has been"; "claude pro usage limit"; "you've reached your usage limit";
    "you have reached your usage limit"; "exceeds your plan"; "plan limit"; "plan's set usage limit"; "plan limit exceeded";
    "usage limit exceeded"]%string lower ||
  bool_decide (provider = Some "claude"%string) && includes lower "this request would exceed your account's rate limit".

Definition isWeeklyUsageLimitText (lower : string) : bool :=
  anyIncludes ["weekly usage limit"; "weekly limit reached"; "reached your weekly"; "1-week quota"; "week quota"; "weekly/monthly limit"]%string lower ||
  includes lower "weekly" && includes lower "quota" && includes lower "exhaust".

Definition isSessionUsageLimitText (lower : string) : bool :=
  includes lower "session usage limit" || includes lower "session limit reached" ||
  includes lower "reached your session" && includes lower "usage limit".

Definition isRolling24hUsageLimitText (lower : string) : bool :=
  includes lower "used all the included free usage" ||
  includes lower "rolling 24-hour window" && includes lower "tokens (actual/limit)".

Definition isDailyQuotaExhausted (errorText : string) : bool :=
  if isEmpty errorText then false
  else anyIncludes ["today's quota"; "daily quota"; "try again tomorrow"; "tpd rate limit"]%string (toLowerCase errorText).

Definition isTpdRateLimit (errorText : string) : bool := includes (toLowerCase errorText) "tpd rate limit".

Inductive GeminiMetric := rpd | rpm | tpm.

Definition classifyGeminiQuotaMetricFromText (errorText : string) : option GeminiMetric :=
  if isEmpty errorText then None
  else
    let lower := toLowerCase errorText in
    if negb (includes lower "generativelanguage.googleapis.com") then None
    else if includes lower "_per_day" || includes lower "per day" then Some rpd
    else if includes lower "input_token_count" || includes lower "token_count" then Some tpm
    else if includes lower "_requests" then Some rpm
    else None.

(** ** Requests *)

Section Stringify.
(** [JSON.stringify] of a record. *)
Context (stringify : json -> string).

(** A body is a text, a JSON value, or missing. *)
Definition responseBodyToString (responseBody : option json) : string :=
  match responseBody with
  | Some (VStr s) => s
  | Some (VArr l) => stringify (VArr l)
  | Some (VObj fs) => stringify (VObj fs)
  | _ => ""
  end.

Definition isResourceNotFoundResponse (responseBody : option json) : bool :=
  anyMatchI RESOURCE_NOT_FOUND_PATTERNS (responseBodyToString responseBody).
End Stringify.

(** [s] after a literal, and after one or more white spaces. *)
Fixpoint eat (lit s : string) : option string :=
  match lit, s with
  | EmptyString, _ => Some s
  | String c lit, String d s => if Ascii.eqb c d then eat lit s else None
  | _, _ => None
  end.

Definition eatSpaces (s : string) : option string :=
  match s with String c _ => if isSpace c then Some (trimStart s) else None | EmptyString => None end.

Definition digitOrComma (c : ascii) : bool := let n := N_of_ascii c in ((48 <=? n)%N && (n <=? 57)%N) || Ascii.eqb c ",".

(** The run of digits and commas at the start: its digits, its length, the rest. *)
Fixpoint digitRun (s : string) : string * nat * string :=
  match s with
  | String c s' => if digitOrComma c then let '(d, n, r) := digitRun s' in (if Ascii.eqb c "," then d else String c d, S n, r) else (EmptyString, O, s)
  | EmptyString => (EmptyString, O, s)
  end.

(** [([\d,]{1,20})]: what follows in the pattern is never a digit or a comma, so the
    whole run is taken or none of it. *)
Definition eatNumber (s : string) : option (string * string) :=
  let '(d, n, r) := digitRun s in if (1 <=? n)%nat && (n <=? 20)%nat then Some (d, r) else None.

Definition closesNumber (s : string) : bool :=
  match s with EmptyString => true | String c _ => Ascii.eqb c "." || isSpace c || Ascii.eqb c "034"%char || Ascii.eqb c "}" end.

(** The match of the pattern of reservations at the start of a text in lower case. *)
Definition reservationHere (s : string) : option (string * string) :=
  s ← eat "requested up to" s; s ← eatSpaces s; '(requested, s) ← eatNumber s; s ← eatSpaces s; s ← eat "tokens" s;
  s ← eatSpaces (match s with String "," r => r | _ => s end); s ← eat "but can only afford" s; s ← eatSpaces s;
  '(affordable, s) ← eatNumber s; if closesNumber s then Some (requested, affordable) else None.

Fixpoint reservationIn (s : string) : option (string * string) :=
  match reservationHere s with
  | Some r => Some r
  | None => match s with EmptyString => None | String _ s => reservationIn s end
  end.

(** [Number] of a text of digits. *)
Definition numberOfDigits (d : string) : Z := let '(v, _, _) := readDigits 10 0 0 d in v.

Definition isRequestTokenReservationFailure (provider : option string) (status : Z) (errorText : option string) : bool :=
  if negb (status =? 402) || negb (isOneOf (orElse provider "") ["openrouter"; "red-router"]%string) then false
  else
    let text := toLowerCase (String.substring 0 16384 (orElse errorText "")) in
    if negb (matchesI "requires more credits, or fewer max_tokens" text) then false
    else
      match reservationIn text with
      | None => false
      | Some (a, b) =>
          let requested := numberOfDigits a in
          let affordable := numberOfDigits b in
          (requested <=? MAX_SAFE_INTEGER) && (affordable <=? MAX_SAFE_INTEGER) && (affordable >? 0) && (requested >? affordable)
      end.

(** ** Edges and ambiguous credentials *)

Definition AUTH_SIGNALS : list string := ["invalid api key"; "token invalid"; "revoked"; "access denied"]%string.

Definition isMistralAmbiguous401 (provider : option string) (errorText : string) : bool :=
  if negb (bool_decide (provider = Some "mistral"%string)) then false else negb (anyIncludes AUTH_SIGNALS (toLowerCase errorText)).

Definition matches (source s : string) : bool := test source (str s).

Section Edge.
(** [JSON.parse], [None] when it throws. *)
Context (parseJson : string -> option json).

Definition tryParseJsonObject (text : string) : option json :=
  let trimmed := trim text in
  match trimmed with
  | String "{" _ | String "[" _ => match parseJson trimmed with Some (VObj fs) => Some (VObj fs) | _ => None end
  | _ => None
  end.

Definition numberIs (z : Z) (v : json) : bool := match v with VNum (Fin q) => Qeq_bool q (inject_Z z) | _ => false end.

(** [a ?? b]: null and undefined give way. *)
Definition coalesce (a b : option json) : option json := match a with Some VNull | None => b | _ => a end.

Definition hasCloudflareBanSignal (value : option json) : bool :=
  match value with
  | Some (VNum n) => numberIs 1010 (VNum n)
  | Some (VStr s) =>
      let lower := toLowerCase s in
      includes lower "browser_signature_banned" || includes lower "error 1010" || String.eqb lower "1010" || includes lower "cloudflare"
  | _ => false
  end.

Definition isTrue (v : option json) : bool := match v with Some (VBool true) => true | _ => false end.

Definition bannedObject (o : json) : bool :=
  let retryable := match field "retryable" o with Some (VBool false) => false | _ => true end in
  let errorCode := coalesce (field "error_code" o) (field "errorCode" o) in
  let errorName := match field "error_name" o with Some (VStr s) => s | _ => "" end in
  let cloudflareError := isTrue (field "cloudflare_error" o) || isTrue (field "cloudflareError" o) in
  let ownerActionRequired := isTrue (field "owner_action_required" o) || isTrue (field "ownerActionRequired" o) in
  match errorCode with Some (VStr s) => String.eqb s "1010" | Some v => numberIs 1010 v | None => false end ||
  String.eqb (toLowerCase errorName) "browser_signature_banned" ||
  negb retryable && (cloudflareError || ownerActionRequired) ||
  negb retryable && hasCloudflareBanSignal (coalesce (coalesce (field "title" o) (field "type" o)) (field "detail" o)).

Definition isNonRetryableCloudflareError (errorText : string) : bool :=
  if isEmpty errorText then false
  else if match tryParseJsonObject errorText with Some o => bannedObject o | None => false end then true
  else if matchesI "browser_signature_banned" errorText then true
  else if matches (dq +:+ "error_code" +:+ dq +:+ "\s*:\s*1010\b") errorText then true
  else
    matches (dq +:+ "retryable" +:+ dq +:+ "\s*:\s*false") errorText &&
    (matches (dq +:+ "cloudflare_error" +:+ dq +:+ "\s*:\s*true") errorText ||
     matches (dq +:+ "owner_action_required" +:+ dq +:+ "\s*:\s*true") errorText ||
     matchesI "cloudflare" errorText).
End Edge.

(** ** The class of a text *)

Definition classifyErrorText (custom : list string) (errorText : string) : string :=
  if isEmpty errorText then UNKNOWN
  else
    let lower := toLowerCase errorText in
    if anyIncludes ["quota exceeded"; "quota depleted"; "quota will reset"; "your quota will reset"; "quota has been exceeded";
         "hour quota"; "billing"]%string lower || looksLikeQuotaExhausted lower || isSubscriptionQuotaText lower None
    then QUOTA_EXHAUSTED
    else if isCreditsExhausted lower then QUOTA_EXHAUSTED
    else if isAccountDeactivated custom lower then AUTH_ERROR
    else
      match matchErrorRuleByText errorText with
      | Some r => ruleReason r
      | None =>
          if includes lower "rate_limit" then RATE_LIMIT_EXCEEDED
          else if includes lower "resource exhausted" || includes lower "high demand" then MODEL_CAPACITY
          else if anyIncludes ["unauthorized"; "invalid api key"; "authentication"]%string lower then AUTH_ERROR
          else if includes lower "server error" || includes lower "internal error" then SERVER_ERROR
          else UNKNOWN
      end.
