(* ===== verification/ProviderRules.v ===== *)
(** * Rules of providers: [open-sse/config/providerErrorRules.ts]

    What single providers mean by an error: the rules of the catalogue, read from the
    response's headers and body, and the rules an operator declares, which come first
    and match a substring of the body.  A rule names the reason, what to lock and
    perhaps for how long.  [stringify] is JSON.stringify. *)
From Stdlib Require Import String Ascii.
From S2P Require Import Prelude JsMap JsString ComboSteps Patterns ErrorRules ErrorTexts.
#[local] Open Scope Z_scope.

Record ProviderErrorRuleMatch := mkMatch { matchReason : string; matchScope : RuleScope; matchCooldownMs : option Z }.

Record OperatorProviderErrorRule := mkOperatorRule {
  opStatus : Z;
  opMatch : string;
  opScope : RuleScope;
  opReason : option string;
  opCooldownMs : option Z;
}.

Abbreviation OperatorRules := (jsmap string (list OperatorProviderErrorRule)).

(** [setOperatorProviderErrorRules]; [None] is undefined or null. *)
Definition setOperatorProviderErrorRules (rules : option OperatorRules) : OperatorRules :=
  match rules with
  | None => []
  | Some rs => foldl (fun acc '(p, l) => match l with [] => acc | _ => mset (toLowerCase p) l acc end) [] rs
  end.

(** ** The countdown of a body *)

(** The longest run of word characters at the start.  The code's unit is followed by a
    word boundary, so it is the whole run. *)
Fixpoint wordRun (s : string) : string :=
  match s with String c s => if isWord c then String c (wordRun s) else EmptyString | EmptyString => EmptyString end.

Definition unitMs (unit : string) : option Z :=
  if isOneOf unit ["day"; "days"]%string then Some 86400000
  else if isOneOf unit ["hour"; "hours"]%string then Some 3600000
  else if isOneOf unit ["minute"; "minutes"]%string then Some 60000
  else if isOneOf unit ["second"; "seconds"]%string then Some 1000
  else None.

(** The pattern at the start of a text: the number and the milliseconds of the unit. *)
Definition countdownHere (s : string) : option (Z * Z) :=
  s ← eat "reset" s; s ← eatSpaces (match s with String "s" r => r | _ => s end); s ← eat "in" s; s ← eatSpaces s;
  let '(n, digits, s) := readDigits 10 0 0 s in
  if digits =? 0 then None else s ← eatSpaces s; ms ← unitMs (wordRun s); Some (n, ms).

Fixpoint countdownIn (s : string) : option (Z * Z) :=
  match countdownHere s with
  | Some r => Some r
  | None => match s with EmptyString => None | String _ s => countdownIn s end
  end.

Definition parseResetCountdownMs (text : string) : option Z :=
  match countdownIn text with Some (n, ms) => if n <=? 0 then None else Some (n * ms) | None => None end.

(** ** Who may *)

Definition OPENCODE_RULE_FAMILY : list string := ["opencode"; "opencode-zen"; "opencode-go"; "opencode-cli"]%string.
Definition HONORS_RULE_LOCK_SCOPE_PROVIDERS : list string := "agentrouter"%string :: OPENCODE_RULE_FAMILY.
Definition EGRESS_BUCKETED_LOCK_PROVIDERS : list string := ["opencode"; "opencode-go"; "opencode-cli"]%string.
Definition FULL_TEXT_RULE_PROVIDERS : list string := ["agentrouter"]%string.

(** A provider's name, [None] when it is missing or empty. *)
Definition named (provider : option string) : option string :=
  match provider with Some p => if isEmpty p then None else Some p | None => None end.

Definition hasOperatorRuleForProvider (operator : OperatorRules) (provider : option string) : bool :=
  match named provider with
  | Some p => match mget (toLowerCase p) operator with Some (_ :: _) => true | _ => false end
  | None => false
  end.

Definition honorsRuleLockScope (operator : OperatorRules) (provider : option string) : bool :=
  match named provider with
  | Some p => let key := toLowerCase p in isOneOf key HONORS_RULE_LOCK_SCOPE_PROVIDERS || hasOperatorRuleForProvider operator (Some key)
  | None => false
  end.

Definition isEgressBucketedLockScope (provider : option string) : bool :=
  match named provider with Some p => isOneOf (toLowerCase p) EGRESS_BUCKETED_LOCK_PROVIDERS | None => false end.

(** [errorText] is empty when there is none; the result is never null for a text. *)
Definition resolveRuleMatchBody (operator : OperatorRules) (provider : option string) (structuredError : option json) (errorText : string) : option json :=
  match named provider with
  | Some p =>
      if (isOneOf (toLowerCase p) FULL_TEXT_RULE_PROVIDERS || hasOperatorRuleForProvider operator (Some p)) && negb (isEmpty errorText)
      then Some (VStr errorText) else structuredError
  | None => structuredError
  end.

Section Rules.
Context (stringify : json -> string).

(** [JSON.stringify(body ?? "").toLowerCase()]. *)
Definition bodyText (body : option json) : string :=
  toLowerCase (stringify (match body with Some VNull | None => VStr "" | Some b => b end)).

(** The names of [headers] in lower case, a later one over an earlier. *)
Definition safeHeaders (headers : option HeaderBag) : jsmap string string :=
  match headers with
  | None => []
  | Some (Headers l) => l
  | Some (HeaderRecord l) => foldl (fun acc '(k, v) => mset (toLowerCase k) v acc) [] l
  end.

Abbreviation Rule := (Z -> jsmap string string -> option json -> option ProviderErrorRuleMatch).

Definition opencodeMonthly : Rule := fun status _ body =>
  if negb (status =? 429) then None
  else
    let text := bodyText body in
    if negb (includes text "monthly usage limit reached") then None
    else ms ← parseResetCountdownMs text; Some (mkMatch QUOTA_EXHAUSTED connection (Some ms)).

Definition opencodeHeaders : Rule := fun status headers _ =>
  if negb (status =? 429) then None
  else if bool_decide (mget "x-ratelimit-remaining-requests"%string headers = Some "0"%string) ||
          bool_decide (mget "x-ratelimit-remaining-tokens"%string headers = Some "0"%string)
  then Some (mkMatch QUOTA_EXHAUSTED connection None) else None.

Definition opencodeBody : Rule := fun status _ body =>
  if negb (status =? 429) then None
  else if anyIncludes ["organization_quota_exceeded"; "account_quota_exceeded"; "plan_limit_reached"]%string (bodyText body)
  then Some (mkMatch QUOTA_EXHAUSTED connection None) else None.

Definition opencodeUnavailable : Rule := fun status _ body =>
  if negb (status =? 400) then None
  else if negb (includes (bodyText body) "upstream request failed: model is unavailable.") then None
  else Some (mkMatch MODEL_CAPACITY model (Some 3600000)).

Definition buildOpencodeRules : list Rule := [opencodeMonthly; opencodeHeaders; opencodeBody; opencodeUnavailable].

Definition minimaxQuota : Rule := fun status headers _ =>
  if negb (status =? 429) then None
  else
    match mget "x-model-quota-remaining"%string headers with
    | Some v =>
        if isEmpty v then None
        else if existsb (fun pair => match split "=" pair with _ :: n :: _ => String.eqb (trim n) "0" | _ => false end) (split "," v)
        then Some (mkMatch QUOTA_EXHAUSTED model None) else None
    | None => None
    end.

Definition cloudflareNeurons : Rule := fun status _ body =>
  if negb (status =? 429) then None
  else if negb (includes (bodyText body) "daily free allocation") then None
  else Some (mkMatch QUOTA_EXHAUSTED connection None).

Definition openrouterCredit : Rule := fun status _ _ =>
  if negb (status =? 402) then None else Some (mkMatch QUOTA_EXHAUSTED connection (Some (2 * 60 * 1000))).

Definition agentrouterQuota : Rule := fun status _ body =>
  if negb (existsb (Z.eqb status) [400; 403; 429]) then None
  else if negb (includes (bodyText body) "额度不足") then None
  else Some (mkMatch QUOTA_EXHAUSTED connection None).

Definition agentrouterAccess : Rule := fun status _ body =>
  if negb (status =? 403) then None
  else if negb (includes (bodyText body) "无权访问模型") then None
  else Some (mkMatch AUTH_ERROR model (Some (6 * 60 * 60 * 1000))).

Definition providerRuleRegistry (key : string) : list Rule :=
  if isOneOf key OPENCODE_RULE_FAMILY then buildOpencodeRules
  else if isOneOf key ["minimax"; "minimax-passthrough"]%string then [minimaxQuota]
  else if String.eqb key "cloudflare-ai" then [cloudflareNeurons]
  else if String.eqb key "openrouter" then [openrouterCredit]
  else if String.eqb key "agentrouter" then [agentrouterQuota; agentrouterAccess]
  else [].

Fixpoint firstMatch (rules : list Rule) (status : Z) (headers : jsmap string string) (body : option json) : option ProviderErrorRuleMatch :=
  match rules with
  | [] => None
  | r :: rules => match r status headers body with Some m => Some m | None => firstMatch rules status headers body end
  end.

Definition operatorMatch (rules : list OperatorProviderErrorRule) (status : Z) (body : option json) : option ProviderErrorRuleMatch :=
  let text := match body with Some (VStr s) => s | Some VNull | None => stringify (VStr "") | Some b => stringify b end in
  let lowered := toLowerCase text in
  (fun r => mkMatch (orElse (opReason r) QUOTA_EXHAUSTED) (opScope r) (opCooldownMs r)) <$>
  List.find (fun r => (opStatus r =? status) && includes lowered (toLowerCase (opMatch r))) rules.

Definition getProviderErrorRuleMatch (operator : OperatorRules) (provider : option string) (status : Z) (headers : option HeaderBag) (body : option json)
  : option ProviderErrorRuleMatch :=
  match named provider with
  | None => None
  | Some p =>
      let key := toLowerCase p in
      match operatorMatch (orElse (mget key operator) []) status body with
      | Some m => Some m
      | None => firstMatch (providerRuleRegistry key) status (safeHeaders headers) body
      end
  end.

Definition getOpencodeModelUnavailableMatch (operator : OperatorRules) (provider : option string) (status : Z) (headers : option HeaderBag)
    (errorText : string) : option ProviderErrorRuleMatch :=
  if negb (status =? 400) || negb (match named provider with Some p => isOneOf (toLowerCase p) OPENCODE_RULE_FAMILY | None => false end) then None
  else
    match getProviderErrorRuleMatch operator provider status headers (Some (VStr errorText)) with
    | Some m => match matchScope m with model => if String.eqb (matchReason m) MODEL_CAPACITY then Some m else None | _ => None end
    | None => None
    end.
End Rules.
