(* ===== verification/AccountFallback.v ===== *)
(** * Classification of failures: [open-sse/services/accountFallback.ts]

    [checkFallbackError] turns a failed upstream call into a verdict: whether another
    account may be tried, how long this one rests, why, and what else is known
    (credits, a day's quota, a permanent loss).  Here are the whole function and the
    closures it declares, [classifyError], the durations it reads out of texts, and the
    account state that a verdict is applied to.  One reading of the clock, [now],
    serves a call.  Arguments stand for the provider registry (category, profile,
    passthrough), the parsers of hints that need calendar or decimal arithmetic
    ([retryAfterJson.ts], [quotaResetParsing.ts]), the calendar of
    [dailyQuotaReset.ts], the counters of [geminiRateLimitTracker.ts], JSON.parse,
    JSON.stringify, [Date] and the feature flag of the ambiguous credential.  A missing
    error text is the empty one, which the code treats alike. *)
From Stdlib Require Import String Ascii QArith.QArith_base QArith.Qround.
From S2P Require Import Prelude JsMap JsString RegExp IpFilter ComboSteps Patterns ErrorRules RotationConfig ErrorTexts ProviderRules.
From S2P Require ModelLockout.
#[local] Open Scope Z_scope.

Inductive Category := oauth | apikey.

(** The fields of a provider profile that the classification reads. *)
Record FallbackProfile := mkFallbackProfile {
  profileBaseCooldownMs : Z;
  profileUseUpstreamRetryHints : bool;
  profileMaxCooldownMs : Z;
  profileMaxBackoffSteps : Z;
}.

(** [timezone] when it is a text, [hour] when it is an integer. *)
Record DailyReset := mkDailyReset { timezone : option string; hour : option Z; dailyNowMs : option Z }.

(** The arguments of a call. *)
Record Failure := mkFailure {
  status : Z;
  errorText : string;
  backoffLevel : Z;
  failedModel : option string;
  failedProvider : option string;
  headers : option HeaderBag;
  profileOverride : option FallbackProfile;
  structuredError : option json;
  rotationAccount : option json;
  dailyReset : option DailyReset;
}.

Record RetryHint := mkHint { retryAfterMs : Z; provenance : RetryHintProvenance }.

Definition MAX_PROVIDER_COOLDOWN_MS : Z := 30 * 24 * 60 * 60 * 1000.
Definition SUBSCRIPTION_QUOTA_COOLDOWN_MS : Z := 60 * 60 * 1000.
Definition WEEKLY_QUOTA_COOLDOWN_MS : Z := 24 * 60 * 60 * 1000.
Definition SESSION_QUOTA_COOLDOWN_MS : Z := 5 * 60 * 60 * 1000.
Definition ROLLING_24H_QUOTA_COOLDOWN_MS : Z := 24 * 60 * 60 * 1000.
Definition EXECUTOR_CONTRACT_VIOLATION_CODE : string := "executor_contract_violation".
Definition RETRYABLE_STATUSES : list Z := [408; 429; 413; 500; 502; 503; 504].

Definition retryHintBypassesMaxCooldownMs (p : option RetryHintProvenance) : bool :=
  match p with Some header | Some google_rpc_retry_info => true | _ => false end.

Definition isProviderExhaustedReason (d : Decision) : bool :=
  if creditsExhausted d || dailyQuotaExhausted d then true else String.eqb (reason d) QUOTA_EXHAUSTED.

(** ** Durations in a text *)

(** [(\d+u)?] for a unit [u]. *)
Definition groupOf (unit : ascii) (s : string) : option Z * string :=
  let '(n, digits, r) := readDigits 10 0 0 s in
  match r with
  | String c r' => if negb (digits =? 0) && Ascii.eqb c unit then (Some n, r') else (None, s)
  | EmptyString => (None, s)
  end.

(** The three groups of a match whose fixed words end where [s] begins. *)
Definition durationGroups (s : string) : option Z * option Z * option Z :=
  let '(h, s) := groupOf "h" s in let '(m, s) := groupOf "m" s in let '(sec, _) := groupOf "s" s in (h, m, sec).

(** What follows the first occurrence of one of the phrases. *)
Fixpoint afterPhrase (phrases : list string) (s : string) : option string :=
  match foldr (fun p acc => match eat p s with Some r => Some r | None => acc end) None phrases with
  | Some r => Some r
  | None => match s with EmptyString => None | String _ s => afterPhrase phrases s end
  end.

Definition computeDurationMs (g : option Z * option Z * option Z) : option Z :=
  let '(h, m, s) := g in
  let totalMs := orElse h 0 * 3600 * 1000 + orElse m 0 * 60 * 1000 + orElse s 0 * 1000 in
  if totalMs >? 0 then Some (Z.min totalMs MAX_PROVIDER_COOLDOWN_MS) else None.

(** A match with at least one group. *)
Definition durationAfter (phrases : list string) (lower : string) : option (option Z * option Z * option Z) :=
  match afterPhrase phrases lower with
  | Some s => match durationGroups s with (None, None, None) => None | g => Some g end
  | None => None
  end.

Definition RESETS_AFTER : list string := ["resets after "; "reset after "]%string.
Definition WILL_RESET_AFTER : list string := ["will reset after "]%string.
Definition RESETS_IN : list string := ["resets in "; "reset in "]%string.

(** The parsers of the other files: of the hint of a JSON body, of "please retry in" with
    its cap, of an absolute date, of fractional seconds, of whole days. *)
Record HintParsers := mkParsers {
  jsonHint : string -> Z -> option RetryHint;
  pleaseRetryMs : string -> option Z;
  isoMs : string -> Z -> option string -> option Z;
  secondsMs : string -> option Z;
  dayGranularityMs : string -> Z -> option string -> option Z;
}.

Definition firstSome {A} (a b : option A) : option A := match a with Some _ => a | None => b end.

Definition parseRetryFromErrorText (P : HintParsers) (msg : string) (provider : option string) (nowMs : Z) : option Z :=
  if isEmpty msg then None
  else
    let lower := toLowerCase msg in
    match firstSome (retryAfterMs <$> jsonHint P msg nowMs) (firstSome (pleaseRetryMs P msg) (isoMs P msg nowMs provider)) with
    | Some ms => Some ms
    | None =>
        match durationAfter RESETS_AFTER lower with
        | Some g => computeDurationMs g
        | None =>
            match durationAfter WILL_RESET_AFTER lower with
            | Some g => computeDurationMs g
            | None =>
                match durationAfter RESETS_IN lower with
                | Some g => computeDurationMs g
                | None => firstSome (secondsMs P msg) (dayGranularityMs P msg nowMs provider)
                end
            end
        end
    end.

(** ** The environment of a call *)

Record Surroundings := mkSurroundings {
  environment : string -> option string;
  customBannedSignals : list string;
  operatorRules : OperatorRules;
  getProviderCategory : string -> Category;
  getProviderProfile : string -> FallbackProfile;
  isPassthroughCreditScope : option string -> bool;
  hints : HintParsers;
  isRpdExhausted : string -> bool;
  isRpmExhausted : string -> bool;
  isTpmExhausted : string -> bool;
  isValidIanaTimeZone : string -> bool;
  nextDailyResetAtMs : string -> Z -> Z -> Z;
  nextMidnight : Z -> Z;
  parseDate : string -> option Z;
  toISOString : Z -> option string;
  parseJson : string -> option json;
  stringify : json -> string;
  softMistral401 : bool;
}.

Section Classification.
Context (E : Surroundings).

(** ** Daily quotas: [dailyQuotaReset.ts] *)

Definition isValidResetHour (h : Z) : bool := (0 <=? h) && (h <=? 23).

Definition nodeDailyReset (r : option DailyReset) (nowMs : Z) : option Z :=
  match r ≫= timezone, r ≫= hour with
  | Some tz, Some h =>
      if isValidResetHour h && negb (isEmpty (trim tz)) && isValidIanaTimeZone E tz then Some (nextDailyResetAtMs E tz h nowMs - nowMs) else None
  | _, _ => None
  end.

Definition nextConfiguredResetMs (r : option DailyReset) (nowMs : Z) : option Z :=
  match nodeDailyReset r nowMs with Some ms => if ms >? 0 then Some ms else None | None => None end.

Definition resolveTpdCooldownMs (errorText : string) (r : option DailyReset) (headerResetAtMs : option Z) (clock : Z) : option Z :=
  if negb (isTpdRateLimit errorText) then None
  else
    let now := orElse (r ≫= dailyNowMs) clock in
    match headerResetAtMs with
    | Some at_ => if at_ >? now then Some (at_ - now) else nodeDailyReset r now
    | None => nodeDailyReset r now
    end.

(** ** Quotas named by a text: [quotaTextCooldowns.ts, quotaResetParsing.ts] *)

Definition shouldPreserveQuotaSignals (provider : option string) (errorText : string) : bool :=
  match named provider with
  | None => true
  | Some p => match getProviderCategory E p with oauth => true | apikey => negb (isEmpty errorText) && looksLikeQuotaExhausted errorText end
  end.

Definition quotaVerdict (cooldown : Z) : Decision := decide3 true cooldown QUOTA_EXHAUSTED.

Definition buildSubscriptionQuotaFallback (errorStr : string) (hintMs bodyHint : option Z) (provider : option string) : option Decision :=
  if negb (isSubscriptionQuotaText (toLowerCase errorStr) provider) then None
  else Some ((quotaVerdict (orElse hintMs SUBSCRIPTION_QUOTA_COOLDOWN_MS))
               <| usedUpstreamRetryHint := Some (truthyNum hintMs) |> <| quotaResetHintMs := bodyHint |>).

Definition buildWeeklyQuotaFallback (errorStr : string) (nowMs : Z) (provider : option string) : option Decision :=
  if negb (isWeeklyUsageLimitText (toLowerCase errorStr)) then None
  else
    let parsed := match dayGranularityMs (hints E) errorStr nowMs provider with Some ms => if ms >? 0 then Some ms else None | None => None end in
    Some ((quotaVerdict (orElse parsed WEEKLY_QUOTA_COOLDOWN_MS))
            <| usedUpstreamRetryHint := Some (bool_decide (is_Some parsed)) |> <| quotaResetHintMs := parsed |>).

Definition buildSessionQuotaFallback (errorStr : string) : option Decision :=
  if negb (isSessionUsageLimitText (toLowerCase errorStr)) then None else Some (quotaVerdict SESSION_QUOTA_COOLDOWN_MS).

Definition buildRolling24hQuotaFallback (errorStr : string) : option Decision :=
  if negb (isRolling24hUsageLimitText (toLowerCase errorStr)) then None
  else Some ((quotaVerdict ROLLING_24H_QUOTA_COOLDOWN_MS) <| quotaResetHintMs := Some ROLLING_24H_QUOTA_COOLDOWN_MS |>).

(** ** What a call reads *)

Section Call.
Context (f : Failure) (now : Z).

Definition profile : option FallbackProfile :=
  match profileOverride f with
  | Some p => Some p
  | None => match named (failedProvider f) with Some p => Some (getProviderProfile E p) | None => None end
  end.

Definition maxBackoffSteps : Z := match profile with Some p => profileMaxBackoffSteps p | None => MAX_LEVEL end.

Definition parseResetFromHeaders : option Z :=
  match headers f with
  | None => None
  | Some h =>
      let byRetryAfter :=
        match headerOf h "retry-after" "Retry-After" with
        | Some v =>
            if isEmpty v then None
            else
              match parseInt10 v with
              | Some seconds => if String.eqb (pretty seconds) (trim v) then Some (now + seconds * 1000) else parseDate E v
              | None => parseDate E v
              end
        | None => None
        end in
      match byRetryAfter with
      | Some t => Some t
      | None =>
          match headerOf h "x-ratelimit-reset" "X-RateLimit-Reset" with
          | Some v =>
              if isEmpty v then None
              else match parseInt10 v with Some ts => Some (if ts >? 10000000000 then ts else ts * 1000) | None => None end
          | None => None
          end
      end
  end.

Definition retryFromText : option Z := parseRetryFromErrorText (hints E) (errorText f) (failedProvider f) now.

Definition detectRetryHint : option RetryHint :=
  let waitMs := match parseResetFromHeaders with Some t => if t =? 0 then 0 else Z.max (t - now) 0 | None => 0 end in
  if waitMs >? 0 then Some (mkHint waitMs header)
  else
    match jsonHint (hints E) (errorText f) now with
    | Some h => Some h
    | None => match retryFromText with Some ms => if ms >? 0 then Some (mkHint ms body) else None | None => None end
    end.

Definition getUpstreamRetryHint : option RetryHint :=
  if match profile with Some p => profileUseUpstreamRetryHints p | None => false end then detectRetryHint else None.

Record Scaled := mkScaled { scaledBase : Z; scaledCooldown : Z; scaledLevel : Z }.

Definition getScaledBaseCooldown : Scaled :=
  let level := backoffLevel f in
  let base := match profile with Some p => if profileBaseCooldownMs p >=? 0 then profileBaseCooldownMs p else COOLDOWN_transientInitial
              | None => COOLDOWN_transientInitial end in
  mkScaled base
    (ModelLockout.capScaledCooldownMs (ModelLockout.getScaledCooldown base (level + 1) maxBackoffSteps) (profileMaxCooldownMs <$> profile) MAX)
    (Z.min (level + 1) maxBackoffSteps).

Definition ruleScopedResult (m : ProviderErrorRuleMatch) : Decision :=
  let scaled := getScaledBaseCooldown in
  (decide3 true (orElse (matchCooldownMs m) (scaledCooldown scaled)) (matchReason m))
    <| baseCooldownMs := Some (orElse (matchCooldownMs m) (scaledBase scaled)) |>
    <| configuredCooldownMs := matchCooldownMs m |>
    <| newBackoffLevel := Some (match matchCooldownMs m with Some _ => 0 | None => scaledLevel scaled end) |>
    <| ruleScope := Some (matchScope m) |>.

(** [cfg] is the rotation configuration of the account. *)
Context (cfg : RotationConfig).

Definition scaledVerdict (why : string) : Decision :=
  (decide3 true (scaledCooldown getScaledBaseCooldown) why) <| baseCooldownMs := Some (scaledBase getScaledBaseCooldown) |>
    <| newBackoffLevel := Some (scaledLevel getScaledBaseCooldown) |> <| usedUpstreamRetryHint := Some false |>.

Definition hintVerdict (h : RetryHint) (why : string) : Decision :=
  (decide3 true (retryAfterMs h) why) <| baseCooldownMs := Some (retryAfterMs h) |> <| newBackoffLevel := Some 0 |>
    <| usedUpstreamRetryHint := Some true |> <| retryHintSource := Some (provenance h) |>.

Definition buildRetryableFallback (why : string) : Decision :=
  let ownVerdict := orElse (rotationRateLimitFallback why cfg) (scaledVerdict why) in
  match getUpstreamRetryHint with
  | Some h => if retryAfterMs h >? 0 then hintVerdict h why else ownVerdict
  | None => ownVerdict
  end.

Definition isRateLimitStatus : bool := status f =? 429.
Definition preserveQuota429 : bool := shouldPreserveQuotaSignals (failedProvider f) (errorText f).
Definition shouldUseQuotaSignal : bool := negb isRateLimitStatus || preserveQuota429.

Definition providerRule : option ProviderErrorRuleMatch :=
  getProviderErrorRuleMatch (stringify E) (operatorRules E) (failedProvider f) (status f) (headers f)
    (resolveRuleMatchBody (operatorRules E) (failedProvider f) (structuredError f) (errorText f)).

Definition textField (k : string) : option string := match structuredError f ≫= field k with Some (VStr s) => Some s | _ => None end.

(** ** Phase 1: failures of the request itself *)

Definition sparing (why : string) : Decision := (decide3 false 0 why) <| skipProviderBreaker := true |>.

Definition requestScoped : option Decision :=
  if bool_decide (textField "code" = Some EXECUTOR_CONTRACT_VIOLATION_CODE) then Some (sparing EXECUTOR_CONTRACT_VIOLATION_CODE)
  else if (status f =? 404) &&
     (isResourceNotFoundResponse (stringify E) (Some (VStr (errorText f))) || isResourceNotFoundResponse (stringify E) (structuredError f))
  then Some (sparing "request_resource_not_found")
  else if isRequestTokenReservationFailure (failedProvider f) (status f) (Some (errorText f)) then Some (sparing "request_token_reservation")
  else if bool_decide (textField "code" = Some "invalid_previous_response_binding"%string) ||
     (status f =? 409) && matchesI "previous_response_id does not belong" (errorText f)
  then Some (sparing "invalid_previous_response_binding")
  else None.

(** ** Phase 2: what the text says *)

Definition oneDay : Z := 24 * 60 * 60 * 1000.
Definition oneYear : Z := 365 * 24 * 60 * 60 * 1000.

Definition geminiVerdict : option Decision :=
  match failedModel f with
  | Some m =>
      if bool_decide (failedProvider f = Some "gemini"%string) && (status f =? 429) && negb (isEmpty m) then
        match classifyGeminiQuotaMetricFromText (errorText f) with
        | Some rpd => Some (buildRetryableFallback QUOTA_EXHAUSTED)
        | Some rpm | Some tpm => Some (buildRetryableFallback RATE_LIMIT_EXCEEDED)
        | None =>
            if isRpdExhausted E m then Some (buildRetryableFallback QUOTA_EXHAUSTED)
            else if isRpmExhausted E m then Some (buildRetryableFallback RATE_LIMIT_EXCEEDED)
            else if isTpmExhausted E m then Some (buildRetryableFallback RATE_LIMIT_EXCEEDED)
            else None
        end
      else None
  | None => None
  end.

Definition creditsVerdict : option Decision :=
  if shouldUseQuotaSignal && isCreditsExhausted (errorText f) then
    Some ((quotaVerdict COOLDOWN_paymentRequired)
            <| creditsExhausted := negb (isPassthroughCreditScope E (failedProvider f)) || isMoonshotAccountBalanceExhausted (errorText f) |>)
  else None.

Definition dailyVerdict : option Decision :=
  if shouldUseQuotaSignal && isDailyQuotaExhausted (errorText f) then
    if isTpdRateLimit (errorText f) then
      tpdMs ← resolveTpdCooldownMs (errorText f) (dailyReset f) parseResetFromHeaders now;
      Some ((quotaVerdict tpdMs) <| dailyQuotaExhausted := true |>)
    else
      let tzMs := nextConfiguredResetMs (dailyReset f) (orElse (dailyReset f ≫= dailyNowMs) now) in
      let msUntilTomorrow := orElse tzMs (ModelLockout.getMsUntilTomorrow (nextMidnight E) now) in
      Some ((quotaVerdict (Z.min msUntilTomorrow oneDay)) <| dailyQuotaExhausted := true |>)
  else None.

Definition subscriptionVerdict : option Decision :=
  buildSubscriptionQuotaFallback (errorText f) (retryAfterMs <$> getUpstreamRetryHint) retryFromText (failedProvider f).

(** The reset the text or the headers name, even when the profile ignores hints. *)
Definition resetHint : option Z := match detectRetryHint with Some h => Some (retryAfterMs h) | None => retryFromText end.

Definition resetHintSource : option RetryHintProvenance :=
  match detectRetryHint with Some h => Some (provenance h) | None => if truthyNum resetHint then Some body else None end.

Definition hintedQuotaVerdict : option Decision :=
  if shouldUseQuotaSignal && truthyNum resetHint && String.eqb (classifyErrorText (customBannedSignals E) (errorText f)) QUOTA_EXHAUSTED then
    let d := buildRetryableFallback QUOTA_EXHAUSTED in
    Some (d <| quotaResetHintMs := resetHint |> <| retryHintSource := firstSome (retryHintSource d) resetHintSource |>)
  else None.

Definition forbiddenVerdict : option Decision :=
  let lower := toLowerCase (errorText f) in
  if negb (status f =? 403) then None
  else if includes lower "not authorized for this route" then Some (decide3 false 0 UNKNOWN)
  else
    match (if honorsRuleLockScope (operatorRules E) (failedProvider f) then providerRule else None) with
    | Some m => Some (ruleScopedResult m)
    | None =>
        match named (failedProvider f) with
        | Some p =>
            match getProviderCategory E p with
            | apikey =>
                if anyIncludes ["has not been used in project"; "hour quota"; "quota has been exceeded"]%string lower then None
                else if isNonRetryableCloudflareError (parseJson E) (errorText f) then Some (decide3 true 0 AUTH_ERROR)
                else Some (buildRetryableFallback AUTH_ERROR)
            | oauth => None
            end
        | None => None
        end
    end.

Definition retiredVerdict : Decision := (decide3 true oneDay "not_found") <| quotaResetHintMs := Some oneDay |>.

Definition byText : option Decision :=
  let text := errorText f in
  if isEmpty text then None
  else if isAccountDeactivated (customBannedSignals E) text then Some ((decide3 true oneYear AUTH_ERROR) <| permanent := true |>)
  else if ((status f =? 404) || (status f =? 410)) && isModelPermanentlyUnavailable text then Some retiredVerdict
  else if isEndpointPermanentlyMoved text then Some retiredVerdict
  else if isAccountSuspendedForBilling text then Some ((quotaVerdict COOLDOWN_paymentRequired) <| creditsExhausted := true |>)
  else
    foldr firstSome None
      [geminiVerdict; creditsVerdict; dailyVerdict;
       (if shouldUseQuotaSignal && negb (isCreditsExhausted text) && negb (isDailyQuotaExhausted text) then subscriptionVerdict else None);
       buildWeeklyQuotaFallback text now (failedProvider f); buildSessionQuotaFallback text; buildRolling24hQuotaFallback text;
       hintedQuotaVerdict; forbiddenVerdict].

(** ** Phase 3: the tables *)

Definition configuredRule : option ErrorRule :=
  if isRateLimitStatus && negb preserveQuota429 then matchErrorRuleByStatus (status f) else findMatchingErrorRule (status f) (errorText f).

Definition honoredScope : option RuleScope :=
  match providerRule with
  | Some m => if honorsRuleLockScope (operatorRules E) (failedProvider f) then Some (matchScope m) else None
  | None => None
  end.

Definition backoffRuleVerdict (r : ErrorRule) : Decision :=
  let why := match providerRule with Some m => matchReason m | None => ruleReason r end in
  let ruleMs := match providerRule ≫= matchCooldownMs with Some ms => if ms >? 0 then Some ms else None | None => None end in
  let fallback := buildRetryableFallback why in
  match ruleMs with
  | Some ms => fallback <| cooldownMs := ms |> <| baseCooldownMs := Some ms |> <| configuredCooldownMs := Some ms |> <| ruleScope := honoredScope |>
  | None => fallback <| ruleScope := honoredScope |>
  end.

Definition fixedRuleVerdict (r : ErrorRule) : Decision :=
  if (status f =? 401) && negb (bool_decide (is_Some providerRule)) && isMistralAmbiguous401 (failedProvider f) (errorText f) && softMistral401 E
  then (buildRetryableFallback UNKNOWN) <| ambiguousAuth := true |>
  else
    let ms := orElse (providerRule ≫= matchCooldownMs) (orElse (ruleCooldownMs r) 0) in
    (decide3 true ms (match providerRule with Some m => matchReason m | None => ruleReason r end))
      <| baseCooldownMs := Some ms |> <| configuredCooldownMs := Some ms |> <| ruleScope := honoredScope |>.

Definition byRule : option Decision :=
  r ← configuredRule; Some (if ruleBackoff r then backoffRuleVerdict r else fixedRuleVerdict r).

(** ** Phase 4: what the status says *)

Definition planLimitVerdict : Decision :=
  match subscriptionVerdict with
  | Some d => d
  | None =>
      let ms := orElse (retryAfterMs <$> getUpstreamRetryHint) SUBSCRIPTION_QUOTA_COOLDOWN_MS in
      (quotaVerdict ms) <| baseCooldownMs := Some ms |>
  end.

Definition badRequestVerdict : Decision :=
  let text := errorText f in
  match getOpencodeModelUnavailableMatch (stringify E) (operatorRules E) (failedProvider f) (status f) (headers f) text with
  | Some m => ruleScopedResult m
  | None =>
      let structuredCode := toLowerCase (orElse (textField "code") "") in
      let structuredType := toLowerCase (orElse (textField "type") "") in
      let matchesModelAccessPattern := negb (anyMatchI AUTH_CREDENTIAL_ERROR_PATTERNS text) && anyMatchI MODEL_ACCESS_DENIED_PATTERNS text in
      let structured :=
        isOneOf structuredCode MODEL_ACCESS_DENIED_CODES || isOneOf structuredType MODEL_ACCESS_DENIED_TYPES ||
        isOneOf structuredType MODEL_ACCESS_AMBIGUOUS_TYPES && matchesModelAccessPattern in
      if anyMatchI CONTEXT_OVERFLOW_PATTERNS text || anyMatchI MALFORMED_REQUEST_PATTERNS text || anyMatchI PARAM_VALIDATION_PATTERNS text ||
         (structured || matchesModelAccessPattern) || isNimFunctionDegraded text
      then decide3 true 0 MODEL_CAPACITY
      else if anyMatchI RATE_LIMIT_TEXT_PATTERNS text then buildRetryableFallback RATE_LIMIT_EXCEEDED
      else decide3 false 0 UNKNOWN
  end.

Definition byStatus : Decision :=
  if (status f =? 406) || existsb (Z.eqb (status f)) RETRYABLE_STATUSES then
    buildRetryableFallback (if status f =? 413 then MODEL_CAPACITY else SERVER_ERROR)
  else if status f =? 432 then planLimitVerdict
  else if (status f =? 400) || (status f =? 422) then badRequestVerdict
  else
    let ms := match profile with Some p => profileBaseCooldownMs p | None => COOLDOWN_transient end in
    (decide3 true ms UNKNOWN) <| baseCooldownMs := Some ms |>.

(** After the gates. *)
Definition classified : Decision := orElse byText (orElse byRule byStatus).
End Call.

(** ** The function *)

Definition checkFallbackError (f : Failure) (now : Z) (s : Rotation) : Rotation * Decision :=
  match firstSome (requestScoped f) (serviceSupervisorCooldown (status f) (headers f)) with
  | Some d => (s, d)
  | None =>
      let '(s, gate) := gateFor (environment E) (status f) (rotationAccount f) now s in
      let '(s, cfg) := resolveRotationConfig (environment E) (rotationOverrides (extractRotationContext (rotationAccount f))) s in
      (s, orElse gate (classified f now cfg))
  end.

(** [classifyError], with its context. *)
Definition classifyError (st : Z) (text : string) (provider : option string) (hs : option HeaderBag) (bodyValue : option json) : string :=
  match getProviderErrorRuleMatch (stringify E) (operatorRules E) provider st hs bodyValue with
  | Some m => matchReason m
  | None =>
      let textReason := classifyErrorText (customBannedSignals E) text in
      if negb (String.eqb textReason UNKNOWN) then textReason
      else if (st =? 401) || (st =? 403) then AUTH_ERROR
      else if (st =? 402) || (st =? 432) then QUOTA_EXHAUSTED
      else if st =? 429 then RATE_LIMIT_EXCEEDED
      else if (st =? 503) || (st =? 529) then MODEL_CAPACITY
      else if st >=? 500 then SERVER_ERROR
      else UNKNOWN
  end.
End Classification.

(** ** Accounts *)

(** A stored time: a text, a number, or a Date ([None] when it is invalid). *)
Inductive Until := untilText (s : string) | untilNumber (n : jsnum) | untilDate (t : option Z).

(** What the functions below read and write of an account; [lastError] is null, or the
    status, the message and the reason. *)
Record AccountState := mkAccount {
  accountId : option string;
  rateLimitedUntil : option Until;
  accountBackoff : option Z;
  lastError : option (Z * string * string);
  accountStatus : string;
  providerSpecificData : option json;
}.

#[export] Instance AccountState_eta : Eta AccountState := fun x =>
  mkAccount (accountId x) (rateLimitedUntil x) (accountBackoff x) (lastError x) (accountStatus x) (providerSpecificData x).

(** The account as the rotation rules read it. *)
Definition accountJson (a : AccountState) : json :=
  VObj (match accountId a with Some i => [("id"%string, VStr i)] | None => [] end ++
        match providerSpecificData a with Some d => [("providerSpecificData"%string, d)] | None => [] end).

(** [/^\d+(\.\d+)?$/]. *)
Definition COOLDOWN_NUMERIC_RE : re :=
  let digit := Chr (mkSet false [("0"%char, "9"%char)]) in seq (plus digit) (opt (seq (one ".") (plus digit))).

Section Accounts.
Context (E : Surroundings).

Definition ofTime (t : option Z) : jsnum := match t with Some z => Fin (inject_Z z) | None => NonFinite end.

Definition cooldownUntilMs (value : option Until) : jsnum :=
  match value with
  | None => NonFinite
  | Some (untilDate t) => ofTime t
  | Some (untilNumber n) => n
  | Some (untilText s) =>
      if isEmpty s then NonFinite
      else
        let raw := trim s in
        if reTest COOLDOWN_NUMERIC_RE raw then numberOfString raw else ofTime (parseDate E raw)
  end.

Definition truthyUntil (v : option Until) : bool :=
  match v with
  | Some (untilText s) => negb (isEmpty s)
  | Some (untilNumber (Fin q)) => negb (Qeq_bool q 0)
  | Some (untilNumber NonFinite) => true
  | Some (untilDate _) => true
  | None => false
  end.

(** [Number.isFinite(n) && n > t]. *)
Definition isAfter (n : jsnum) (t : Z) : bool := match n with Fin q => negb (Qle_bool q (inject_Z t)) | NonFinite => false end.

Definition isAccountUnavailable (unavailableUntil : option Until) (now : Z) : bool :=
  truthyUntil unavailableUntil && isAfter (cooldownUntilMs unavailableUntil) now.

(** [None]: the time is past the last one a Date can hold, and the code throws. *)
Definition getUnavailableUntil (cooldown now : Z) : option string := toISOString E (now + cooldown).

Definition earlier (a : option Q) (q : Q) : option Q :=
  match a with Some e => if Qeq_bool e 0 || negb (Qle_bool e q) then Some q else Some e | None => Some q end.

(** [None] when it throws, [Some None] for null. *)
Definition getEarliestRateLimitedUntil (accounts : list AccountState) (now : Z) : option (option string) :=
  let earliest := foldl (fun acc a =>
    if truthyUntil (rateLimitedUntil a) then
      match cooldownUntilMs (rateLimitedUntil a) with
      | Fin q => if isAfter (Fin q) now then earlier acc q else acc
      | NonFinite => acc
      end
    else acc) None accounts in
  match earliest with Some q => if Qeq_bool q 0 then Some None else Some <$> toISOString E (truncQ q) | None => Some None end.

Definition formatRetryAfter (value : option Until) (now : Z) : string :=
  if negb (truthyUntil value) then ""
  else
    match cooldownUntilMs value with
    | NonFinite => ""
    | Fin q =>
        let diffMs := (q - inject_Z now)%Q in
        if Qle_bool diffMs 0 then "reset after 0s"
        else
          let totalSec := Qceiling (diffMs / 1000) in
          let h := totalSec / 3600 in
          let m := totalSec mod 3600 / 60 in
          let s := totalSec mod 60 in
          let parts := (if h >? 0 then [pretty h +:+ "h"] else []) ++ (if m >? 0 then [pretty m +:+ "m"] else []) in
          "reset after " +:+ join " " (parts ++ (if (s >? 0) || bool_decide (parts = []) then [pretty s +:+ "s"] else []))
    end.

(** [excludeId] is [None] when it is null or empty. *)
Definition filterAvailableAccounts (accounts : list AccountState) (excludeId : option string) (now : Z) : list AccountState :=
  List.filter (fun a =>
    negb (match excludeId with Some x => bool_decide (accountId a = Some x) | None => false end) &&
    negb (truthyUntil (rateLimitedUntil a) && isAfter (cooldownUntilMs (rateLimitedUntil a)) now)) accounts.

(** Writes of [setConnectionRateLimitUntil]; one that throws is ignored. *)
Inductive RateLimitWrite := writeUntil (connId : string) (until : option Q).

Definition connIdOf (a : AccountState) : option string := match accountId a with Some i => if isEmpty i then None else Some i | None => None end.

Definition resetAccountState (account : AccountState) : AccountState * list RateLimitWrite :=
  (account <| rateLimitedUntil := None |> <| accountBackoff := Some 0 |> <| lastError := None |> <| accountStatus := "active"%string |>,
   match connIdOf account with Some i => [writeUntil i None] | None => [] end).

Definition accountFailure (account : AccountState) (st : Z) (text : string) (prov : option string) : Failure :=
  mkFailure st text (numOr (accountBackoff account) 0) None prov None None None (Some (accountJson account)) None.

Definition effectiveCooldownMs (d : Decision) : Z :=
  match configuredCooldownMs d with Some ms => if ms >? 0 then ms else cooldownMs d | None => cooldownMs d end.

Definition isAntigravityQuotaProvider (prov : option string) : bool :=
  match prov with Some p => isOneOf p ["antigravity"; "agy"]%string | None => false end.

(** The account after a failure, and the write; [None] when the time cannot be written. *)
Definition coolAccount (account : AccountState) (st : Z) (text : string) (prov : option string) (d : Decision) (now : Z)
  : option (AccountState * list RateLimitWrite) :=
  let ms := effectiveCooldownMs d in
  until ← (if ms >? 0 then Some ∘ untilText <$> getUnavailableUntil ms now else Some None);
  let next := account <| rateLimitedUntil := until |> <| accountBackoff := Some (orElse (newBackoffLevel d) (numOr (accountBackoff account) 0)) |>
                      <| lastError := Some (st, text, reason d) |> <| accountStatus := "error"%string |> in
  Some (next,
    match connIdOf account, cooldownUntilMs until with
    | Some i, Fin q =>
        if (ms >? 0) && truthyUntil until && negb (isAntigravityQuotaProvider prov) && isAfter (Fin q) now then [writeUntil i (Some q)] else []
    | _, _ => []
    end).

Definition applyErrorState (account : AccountState) (st : Z) (text : string) (prov : option string) (now : Z) (s : Rotation)
  : Rotation * option (AccountState * list RateLimitWrite) :=
  let '(s, d) := checkFallbackError E (accountFailure account st text prov) now s in
  (s, coolAccount account st text prov d now).

Definition getAccountHealth (account : option AccountState) (now : Z) : Z :=
  match account with
  | None => 0
  | Some a =>
      let score := 100 - numOr (accountBackoff a) 0 * 10 in
      let score := match lastError a with Some _ => score - 20 | None => score end in
      let score := if truthyUntil (rateLimitedUntil a) && isAccountUnavailable (rateLimitedUntil a) now then score - 30 else score in
      Z.max 0 score
  end.
End Accounts.
