(* ===== verification/AccountFallbackFacts.v ===== *)
(** * Properties of the classification

    [Sound] collects what every verdict of [checkFallbackError] satisfies; it is proved
    of each shape of verdict and, phase by phase, of the whole function ([checked]).  The
    theorems are read off it: a failure that does not let another account be tried costs
    the account nothing; only a deactivated account is lost for good; the flags of
    exhaustion agree with the reason; where the parsers of hints cap what they read, no
    text keeps an account away for longer than thirty days; and an account that rests is skipped until its time has come and not
    longer.  Durations the router prints without spaces are read back. *)
From Stdlib Require Import String Ascii QArith.QArith_base QArith.Qround.
From S2P Require Import Prelude JsMap JsString RegExp IpFilter ComboSteps Patterns ErrorRules RotationConfig ErrorTexts ProviderRules AccountFallback.
From S2P Require ModelLockout.
#[local] Open Scope Z_scope.

(** ** What every verdict satisfies *)

Definition deadVerdict : Decision := (decide3 true oneYear AUTH_ERROR) <| permanent := true |>.

(** The parsers of hints cap what they read, as the code does in each of them. *)
Record Capped (P : HintParsers) : Prop := {
  cp_json msg n h : jsonHint P msg n = Some h -> 0 < retryAfterMs h <= MAX_PROVIDER_COOLDOWN_MS;
  cp_please msg ms : pleaseRetryMs P msg = Some ms -> ms <= MAX_PROVIDER_COOLDOWN_MS;
  cp_iso msg n p ms : isoMs P msg n p = Some ms -> ms <= MAX_PROVIDER_COOLDOWN_MS;
  cp_seconds msg ms : secondsMs P msg = Some ms -> ms <= MAX_PROVIDER_COOLDOWN_MS;
  cp_days msg n p ms : dayGranularityMs P msg n p = Some ms -> ms <= MAX_PROVIDER_COOLDOWN_MS;
}.

Section Verdicts.
Context (E : Surroundings) (f : Failure) (now : Z) (cfg : RotationConfig).

(** How far ahead the response's headers put the reset. *)
Definition headerWait : Z := match parseResetFromHeaders E f now with Some t => t - now | None => 0 end.

(** The operator's settings stay within thirty days, hints are capped, the next daily
    reset is ahead and near. *)
Record Within : Prop := {
  wi_hints : Capped (hints E);
  wi_profile p : profile E f = Some p -> 0 <= profileBaseCooldownMs p <= MAX_PROVIDER_COOLDOWN_MS /\ profileMaxCooldownMs p <= MAX_PROVIDER_COOLDOWN_MS;
  wi_reset : rateLimitResetMs cfg <= MAX_PROVIDER_COOLDOWN_MS;
  wi_clock : dailyReset f ≫= dailyNowMs = None;
  wi_daily tz h : now <= nextDailyResetAtMs E tz h now <= now + MAX_PROVIDER_COOLDOWN_MS;
}.

Definition timely (ms : Z) : Prop := Within -> 0 <= ms <= Z.max MAX_PROVIDER_COOLDOWN_MS headerWait.

Record Sound (d : Decision) : Prop := {
  so_refused : shouldFallback d = false -> cooldownMs d = 0 /\ newBackoffLevel d = None /\ configuredCooldownMs d = None /\ permanent d = false;
  so_flags : creditsExhausted d || dailyQuotaExhausted d = true -> reason d = QUOTA_EXHAUSTED;
  so_level n : newBackoffLevel d = Some n -> n = 0 \/ n = Z.min (backoffLevel f + 1) (maxBackoffSteps E f);
  so_dead : permanent d = true -> d = deadVerdict /\ errorText f <> EmptyString /\ isAccountDeactivated (customBannedSignals E) (errorText f) = true;
  so_time : permanent d = false -> configuredCooldownMs d = None -> timely (cooldownMs d);
}.

(** Two verdicts that agree on what [Sound] reads. *)
Definition alike (d e : Decision) : Prop :=
  shouldFallback d = shouldFallback e /\ cooldownMs d = cooldownMs e /\ newBackoffLevel d = newBackoffLevel e /\ configuredCooldownMs d = configuredCooldownMs e /\
  permanent d = permanent e /\ reason d = reason e /\ creditsExhausted d = creditsExhausted e /\ dailyQuotaExhausted d = dailyQuotaExhausted e.

Lemma sound_alike d e : alike d e -> permanent e = false -> Sound e -> Sound d.
Proof.
  intros (H1 & H2 & H3 & H4 & H5 & H6 & H7 & H8) Hp [S1 S2 S3 S4 S5].
  split; [by rewrite H1, H2, H3, H4, H5|by rewrite H6, H7, H8|by rewrite H3|by rewrite H5, Hp|by rewrite H2, H4, H5].
Qed.

Lemma sound_plain (fallback : bool) ms why : (fallback = false -> ms = 0) -> timely ms -> Sound (decide3 fallback ms why).
Proof. intros H Ht. split; cbn; try done. intros Hf. by rewrite (H Hf). Qed.

Lemma timely_const ms : 0 <= ms <= MAX_PROVIDER_COOLDOWN_MS -> timely ms.
Proof. intros H _. lia. Qed.

Lemma sound_refused why : Sound (decide3 false 0 why).
Proof. apply sound_plain; [done|by apply timely_const]. Qed.

Lemma sound_quota ms b u c d h : timely ms -> Sound (mkDecision true ms b None u None QUOTA_EXHAUSTED false c d false false h None None).
Proof. intros H. by split. Qed.

Lemma scaled_timely : timely (scaledCooldown (getScaledBaseCooldown E f)).
Proof.
  intros W. unfold getScaledBaseCooldown. cbn [scaledCooldown]. unfold ModelLockout.capScaledCooldownMs, ModelLockout.getScaledCooldown.
  set (k := Z.min (Z.max 0 _) _). assert (0 < 2 ^ k) by (apply Z.pow_pos_nonneg; [lia|subst k; lia]). clearbody k.
  match goal with |- context [if ?b >? 0 then ?b else 1000] => set (base := if b >? 0 then b else 1000); assert (0 < base) by (subst base; case_if; blia) end. clearbody base.
  assert (MAX <= MAX_PROVIDER_COOLDOWN_MS) by done. assert (0 < MAX) by done.
  destruct (profile E f) as [p|] eqn:Ep; cbn; [|nia]. pose proof (wi_profile W p Ep). case_if; to_prop; nia.
Qed.
Lemma retryFromText_le P msg pr n ms : Capped P -> parseRetryFromErrorText P msg pr n = Some ms -> ms <= MAX_PROVIDER_COOLDOWN_MS.
Proof.
  intros C. unfold parseRetryFromErrorText. case_if; [done|].
  assert (Hd : forall g ms, computeDurationMs g = Some ms -> ms <= MAX_PROVIDER_COOLDOWN_MS).
  { intros [[h m] x] y. unfold computeDurationMs. case_if; [|done]. intros [= <-]. lia. }
  destruct (jsonHint P msg n) as [h|] eqn:Ej; cbn; [intros [= <-]; by eapply cp_json|].
  destruct (pleaseRetryMs P msg) eqn:Ep; cbn; [intros [= <-]; by eapply cp_please|].
  destruct (isoMs P msg n pr) eqn:Ei; cbn; [intros [= <-]; by eapply cp_iso|].
  repeat (destruct (durationAfter _ _); [by apply Hd|]).
  destruct (secondsMs P msg) eqn:Es; cbn; [intros [= <-]; by eapply cp_seconds|]. apply (cp_days _ C).
Qed.

Lemma hint_timely h : getUpstreamRetryHint E f now = Some h -> Within -> 0 < retryAfterMs h -> retryAfterMs h <= Z.max MAX_PROVIDER_COOLDOWN_MS headerWait.
Proof.
  unfold getUpstreamRetryHint. case_if; [|done]. unfold detectRetryHint, headerWait. intros Hh W Hp. revert Hh.
  case_if.
  - intros [= <-]. cbn in *. destruct (parseResetFromHeaders E f now) as [t|]; [|blia]. case_if_in Heqb0; blia.
  - destruct (jsonHint (hints E) (errorText f) now) as [h'|] eqn:Ej; [intros [= ->]; pose proof (cp_json _ (wi_hints W) _ _ _ Ej); lia|].
    destruct (retryFromText E f now) as [ms|] eqn:Er; [|done]. case_if; [|done]. intros [= <-]. cbn.
    pose proof (retryFromText_le _ _ _ _ _ (wi_hints W) Er). lia.
Qed.

Lemma sound_hint h why : getUpstreamRetryHint E f now = Some h -> 0 < retryAfterMs h -> Sound (hintVerdict h why).
Proof.
  intros Hh Hp. split; cbn; try done.
  - intros n [= <-]. by left.
  - intros _ _ W. pose proof (hint_timely h Hh W Hp). lia.
Qed.

Lemma sound_scaled why : Sound (scaledVerdict E f why).
Proof. split; cbn -[getScaledBaseCooldown]; try done; [intros n [= <-]; by right|intros _ _; apply scaled_timely]. Qed.

Lemma sound_override why d : rotationRateLimitFallback why cfg = Some d -> Sound d /\ permanent d = false /\ shouldFallback d = true.
Proof.
  unfold rotationRateLimitFallback, rateLimitCooldownOverrideMs. intros H. repeat case_match; simplify_eq. split; [|done].
  split; cbn; try done; [intros n [= <-]; by left|]. intros _ _ W. pose proof (wi_reset W). blia.
Qed.

Lemma sound_retry why : Sound (buildRetryableFallback E f now cfg why) /\ permanent (buildRetryableFallback E f now cfg why) = false /\
  shouldFallback (buildRetryableFallback E f now cfg why) = true.
Proof.
  assert (Ho : Sound (orElse (rotationRateLimitFallback why cfg) (scaledVerdict E f why)) /\
               permanent (orElse (rotationRateLimitFallback why cfg) (scaledVerdict E f why)) = false /\
               shouldFallback (orElse (rotationRateLimitFallback why cfg) (scaledVerdict E f why)) = true).
  { destruct (rotationRateLimitFallback why cfg) as [d|] eqn:Er; [by apply (sound_override why)|]. split; [apply sound_scaled|done]. }
  unfold buildRetryableFallback. destruct (getUpstreamRetryHint E f now) as [h|] eqn:Eh; [|done]. case_if; [|done].
  split; [|done]. apply sound_hint; [done|blia].
Qed.

Lemma sound_like_retry d why : alike d (buildRetryableFallback E f now cfg why) -> Sound d.
Proof. intros H. destruct (sound_retry why) as (H1 & H2 & _). by apply (sound_alike _ _ H). Qed.

Lemma sound_just_retry why : Sound (buildRetryableFallback E f now cfg why).
Proof. apply sound_retry. Qed.

Lemma sound_rule m : Sound (ruleScopedResult E f m).
Proof.
  unfold ruleScopedResult. split; cbn -[getScaledBaseCooldown]; try done.
  - intros n. destruct (matchCooldownMs m); intros [= <-]; [by left|by right].
  - intros _ ->. apply scaled_timely.
Qed.

Lemma sound_gate st d s s' key : evaluateRotationGate st cfg key now s = (s', Some d) -> Sound d.
Proof.
  assert (H : forall d, gateResult st cfg = Some d -> Sound d).
  { intros e. unfold gateResult. case_if; [|done]. intros [= <-]. split; cbn; try done; [intros n [= <-]; by left|].
    unfold rateLimitCooldownOverrideMs. intros _ _. case_if; cbn; [intros W; pose proof (wi_reset W); blia|by apply timely_const]. }
  unfold evaluateRotationGate. case_if; [intros [= <- <-]; apply sound_refused|].
  destruct key as [k|]; [|intros [= <- He]; by apply H]. destruct (classForStatus st cfg); [|intros [= <- He]; by apply H].
  destruct (recordErrorAndCheckThreshold _ _ _ _ _) as [s1 []]; intros [= <- He]; [by apply H|]. rewrite <- He. apply sound_refused.
Qed.

Lemma sound_supervisor d : serviceSupervisorCooldown (status f) (headers f) = Some d -> Sound d.
Proof.
  unfold serviceSupervisorCooldown. intros H. repeat case_match; simplify_eq. split; cbn; try done; [intros n [= <-]; by left|].
  intros _ _. by apply timely_const.
Qed.

Lemma sound_request d : requestScoped E f = Some d -> Sound d.
Proof. unfold requestScoped. intros H. assert (exists why, d = sparing why) as [why ->] by (repeat case_if_in H; first [done | injection H as <-; by eexists]). split; cbn; try done. intros _ _. by apply timely_const. Qed.

Lemma sound_firstSome (a b : option Decision) : (forall d, a = Some d -> Sound d) -> (forall d, b = Some d -> Sound d) -> forall d, firstSome a b = Some d -> Sound d.
Proof. intros Ha Hb d. destruct a; cbn; [apply Ha|apply Hb]. Qed.

Lemma sound_gemini d : geminiVerdict E f now cfg = Some d -> Sound d.
Proof. unfold geminiVerdict. intros H. repeat case_match; simplify_eq; apply sound_just_retry. Qed.

Lemma sound_credits d : creditsVerdict E f = Some d -> Sound d.
Proof. unfold creditsVerdict. case_if; [|done]. intros [= <-]. apply sound_quota. by apply timely_const. Qed.

Lemma nodeDaily_timely ms : nodeDailyReset E (dailyReset f) now = Some ms -> timely ms.
Proof.
  unfold nodeDailyReset. intros H W. repeat case_match; simplify_eq.
  match goal with |- context [nextDailyResetAtMs E ?tz ?h now] => pose proof (wi_daily W tz h) end. lia.
Qed.

Lemma sound_daily d : dailyVerdict E f now = Some d -> Sound d.
Proof.
  unfold dailyVerdict. case_if; [|done]. case_if.
  - destruct (resolveTpdCooldownMs E _ _ _ _) as [ms|] eqn:Et; [|done]. intros [= <-]. apply sound_quota. change (timely ms).
    unfold resolveTpdCooldownMs in Et. case_if_in Et; [done|]. intros W. revert Et. rewrite (wi_clock W). cbn [orElse].
    assert (Hn : nodeDailyReset E (dailyReset f) now = Some ms -> 0 <= ms <= Z.max MAX_PROVIDER_COOLDOWN_MS headerWait) by (intros H; by apply (nodeDaily_timely ms)).
    unfold headerWait in *. destruct (parseResetFromHeaders E f now) as [t|]; [|done]. case_if; [|done]. intros [= <-]. blia.
  - intros [= <-]. apply sound_quota. intros W. rewrite (wi_clock W). cbn [orElse]. unfold nextConfiguredResetMs.
    assert (0 < ModelLockout.getMsUntilTomorrow (nextMidnight E) now) by (unfold ModelLockout.getMsUntilTomorrow; case_if; blia).
    assert (oneDay <= MAX_PROVIDER_COOLDOWN_MS) by done. assert (0 < oneDay) by done.
    destruct (nodeDailyReset E _ _) as [ms|]; cbn; [case_if; cbn; blia|lia].
Qed.

Lemma hint_ms_timely (dflt : Z) : 0 <= dflt <= MAX_PROVIDER_COOLDOWN_MS -> timely (orElse (retryAfterMs <$> getUpstreamRetryHint E f now) dflt).
Proof.
  intros Hd. destruct (getUpstreamRetryHint E f now) as [h|] eqn:Eh; [|by apply timely_const]. cbn. intros W.
  assert (Hp : 0 < retryAfterMs h); [|pose proof (hint_timely h Eh W Hp); lia].
  revert Eh. unfold getUpstreamRetryHint, detectRetryHint. case_if; [|done]. case_if; [intros [= <-]; cbn; blia|].
  destruct (jsonHint (hints E) (errorText f) now) as [h'|] eqn:Ej; [intros [= <-]; apply (cp_json _ (wi_hints W) _ _ _ Ej)|].
  destruct (retryFromText E f now); [|done]. case_if; [|done]. intros [= <-]. cbn. blia.
Qed.

Lemma sound_subscription d : subscriptionVerdict E f now = Some d -> Sound d.
Proof.
  unfold subscriptionVerdict, buildSubscriptionQuotaFallback. case_if; [done|]. intros [= <-]. apply sound_quota. by apply hint_ms_timely.
Qed.

Lemma sound_weekly d : buildWeeklyQuotaFallback E (errorText f) now (failedProvider f) = Some d -> Sound d.
Proof.
  unfold buildWeeklyQuotaFallback. case_if; [done|]. intros [= <-]. apply sound_quota.
  destruct (dayGranularityMs _ _ _ _) as [ms|] eqn:Ed; [|by apply timely_const]. case_if; [|by apply timely_const].
  intros W. pose proof (cp_days _ (wi_hints W) _ _ _ _ Ed). change (0 <= ms <= Z.max MAX_PROVIDER_COOLDOWN_MS headerWait). blia.
Qed.

Lemma sound_texts d : firstSome (buildSessionQuotaFallback (errorText f)) (buildRolling24hQuotaFallback (errorText f)) = Some d -> Sound d.
Proof.
  unfold buildSessionQuotaFallback, buildRolling24hQuotaFallback. case_if; cbn; [case_if; [done|]|]; intros [= <-]; apply sound_quota; by apply timely_const.
Qed.

Lemma sound_hinted d : hintedQuotaVerdict E f now cfg = Some d -> Sound d.
Proof. unfold hintedQuotaVerdict. case_if; [|done]. intros [= <-]. by apply (sound_like_retry _ QUOTA_EXHAUSTED). Qed.

Lemma sound_forbidden d : forbiddenVerdict E f now cfg = Some d -> Sound d.
Proof.
  unfold forbiddenVerdict. intros H. repeat case_match; simplify_eq;
    first [apply sound_refused | apply sound_rule | apply sound_just_retry | by apply sound_plain; [|by apply timely_const]].
Qed.

Lemma sound_byText d : byText E f now cfg = Some d -> Sound d.
Proof.
  unfold byText. assert (Hq : timely COOLDOWN_paymentRequired) by (by apply timely_const).
  assert (Hr : Sound retiredVerdict) by (split; cbn; try done; intros _ _; by apply timely_const).
  destruct (isEmpty (errorText f)) eqn:Ee; [done|]. case_if; [|repeat (case_if; [intros [= <-]; first [exact Hr | by apply sound_quota]|])].
  - intros [= <-]. split; cbn; try done. intros _. split; [done|]. split; [by intros E0; rewrite E0 in Ee|done].
  - cbn [foldr]. repeat apply sound_firstSome; try (intros ?; try case_if; done).
    all: first [apply sound_gemini | apply sound_credits | apply sound_daily | apply sound_weekly | apply sound_hinted | apply sound_forbidden | idtac].
    + intros e. case_if; [apply sound_subscription|done].
    + intros e He. apply sound_texts. by rewrite He.
    + intros e He. unfold buildRolling24hQuotaFallback in He. case_if_in He; [done|]. injection He as <-. apply sound_quota. by apply timely_const.
Qed.

Lemma sound_byRule d : byRule E f now cfg = Some d -> Sound d.
Proof.
  unfold byRule. destruct (configuredRule E f) as [r|]; [|done]. cbn. intros [= <-].
  destruct (ruleBackoff r); unfold backoffRuleVerdict, fixedRuleVerdict.
  - destruct (sound_just_retry (match providerRule E f with Some m => matchReason m | None => ruleReason r end)) as [S1 S2 S3 S4 S5].
    destruct (sound_retry (match providerRule E f with Some m => matchReason m | None => ruleReason r end)) as (_ & Hp & Hf).
    match goal with |- context [match ?o with Some ms => _ | None => _ end] => destruct o as [ms|] end.
    + split; cbn -[buildRetryableFallback]; try done; congruence.
    + by eapply sound_like_retry.
  - case_if; [by apply (sound_like_retry _ UNKNOWN)|]. by split.
Qed.

Lemma sound_planLimit : Sound (planLimitVerdict E f now).
Proof.
  unfold planLimitVerdict. destruct (subscriptionVerdict E f now) as [d|] eqn:Es; [by apply sound_subscription|].
  apply sound_quota. by apply hint_ms_timely.
Qed.

Lemma sound_badRequest : Sound (badRequestVerdict E f now cfg).
Proof.
  unfold badRequestVerdict. destruct (getOpencodeModelUnavailableMatch _ _ _ _ _ _) as [m|]; [apply sound_rule|].
  repeat case_if; first [apply sound_refused | apply sound_just_retry | by apply sound_plain; [|by apply timely_const]].
Qed.

Lemma sound_byStatus : Sound (byStatus E f now cfg).
Proof.
  unfold byStatus. case_if; [apply sound_just_retry|]. case_if; [apply sound_planLimit|]. case_if; [apply sound_badRequest|].
  split; cbn; try done. intros _ _ W. destruct (profile E f) as [p|] eqn:Ep; [|by apply timely_const]. pose proof (wi_profile W p Ep). lia.
Qed.

Lemma sound_classified : Sound (classified E f now cfg).
Proof.
  unfold classified. destruct (byText E f now cfg) as [d|] eqn:Et; [by apply sound_byText|].
  cbn. destruct (byRule E f now cfg) as [d|] eqn:Er; [by apply sound_byRule|apply sound_byStatus].
Qed.
End Verdicts.

(** The configuration a call reads. *)
Definition configOf (E : Surroundings) (f : Failure) (s : Rotation) : RotationConfig :=
  snd (resolveRotationConfig (environment E) (rotationOverrides (extractRotationContext (rotationAccount f))) s).

Lemma record_cached key st cfg n s : cachedConfig (fst (recordErrorAndCheckThreshold key st cfg n s)) = cachedConfig s.
Proof. unfold recordErrorAndCheckThreshold. by repeat case_match. Qed.

Lemma gate_cached st cfg key n s : cachedConfig (fst (evaluateRotationGate st cfg key n s)) = cachedConfig s.
Proof.
  unfold evaluateRotationGate. case_if; [done|]. destruct key as [k|]; [|done]. destruct (classForStatus st cfg); [|done].
  pose proof (record_cached k st cfg n s). destruct (recordErrorAndCheckThreshold _ _ _ _ _) as [s' []]; done.
Qed.

Lemma checked E f now s : Sound E f now (configOf E f s) (snd (checkFallbackError E f now s)).
Proof.
  unfold checkFallbackError, configOf.
  destruct (requestScoped E f) as [d|] eqn:Er; [by apply sound_request|]. cbn [firstSome].
  destruct (serviceSupervisorCooldown _ _) as [d|] eqn:Es; [by apply sound_supervisor|].
  unfold gateFor, resolveRotationConfig. destruct (getGlobalRotationConfig (environment E) s) as [s1 base] eqn:Eg.
  assert (Hc : cachedConfig s1 = Some base) by (unfold getGlobalRotationConfig in Eg; destruct (cachedConfig s) eqn:Ec; by simplify_eq).
  set (cfg := overrideConfig base _). pose proof (gate_cached (status f) cfg (rotationKey (extractRotationContext (rotationAccount f))) now s1) as Hg.
  destruct (evaluateRotationGate _ _ _ _ _) as [s2 gate] eqn:Ee. cbn [fst] in Hg. unfold getGlobalRotationConfig. rewrite Hg, Hc. cbn.
  destruct gate as [d|]; [by eapply sound_gate|apply sound_classified].
Qed.

(** C19. A failure that does not let another account be tried (a fault of the request, a
    held or blocked rotation, a refused route, a plain bad request) costs the account
    nothing: no rest, no write, the backoff where it was, and the account stays
    available. *)
Theorem refused_spares_account E account st text prov now s :
  shouldFallback (snd (checkFallbackError E (accountFailure account st text prov) now s)) = false ->
  exists next, snd (applyErrorState E account st text prov now s) = Some (next, []) /\ rateLimitedUntil next = None /\
    accountBackoff next = Some (numOr (accountBackoff account) 0) /\ forall t, filterAvailableAccounts E [next] None t = [next].
Proof.
  intros H. unfold applyErrorState. destruct (checked E (accountFailure account st text prov) now s) as [Hr _ _ _ _].
  destruct (checkFallbackError E (accountFailure account st text prov) now s) as [s' d]. cbn [snd] in *. destruct (Hr H) as (Hc & Hb & Hk & _).
  unfold coolAccount, effectiveCooldownMs. rewrite Hk, Hc, Hb. cbn. by destruct (connIdOf account); eexists.
Qed.

(** Some signal of a lost account, built in or the operator's, stands in the text, in lower
    case. *)
Definition saysDeactivated (E : Surroundings) (text : string) : Prop :=
  exists signal, signal ∈ ACCOUNT_DEACTIVATED_SIGNALS ++ customBannedSignals E /\ includes (toLowerCase text) signal = true.

Lemma isAccountDeactivated_says E text : isAccountDeactivated (customBannedSignals E) text = true <-> saysDeactivated E text.
Proof.
  unfold isAccountDeactivated, saysDeactivated, anyIncludes. rewrite existsb_exists.
  assert (H : getMergedBannedSignals (customBannedSignals E) = ACCOUNT_DEACTIVATED_SIGNALS ++ customBannedSignals E).
  { unfold getMergedBannedSignals. destruct (customBannedSignals E); [by rewrite app_nil_r|done]. }
  rewrite H. by setoid_rewrite list_elem_of_In.
Qed.

(** C34. A verdict is permanent exactly when the failure got past the faults of the
    request, the local supervisor and the rotation gate, and its text, in lower case,
    holds one of the built-in or the operator's signals of a deactivated account.  A
    permanent verdict lets another account be tried and rests this one for a year. *)
Theorem permanent_iff_deactivated E f now s :
  let d := snd (checkFallbackError E f now s) in
  (permanent d = true <->
   requestScoped E f = None /\ serviceSupervisorCooldown (status f) (headers f) = None /\
   snd (gateFor (environment E) (status f) (rotationAccount f) now s) = None /\
   errorText f <> EmptyString /\ saysDeactivated E (errorText f)) /\
  (permanent d = true -> shouldFallback d = true /\ cooldownMs d = 365 * 86400000).
Proof.
  cbv zeta. split; [split|].
  - intros Hp. destruct (so_dead _ _ _ _ _ (checked E f now s) Hp) as (Hd & Ht & Ha%isAccountDeactivated_says).
    revert Hp Hd. unfold checkFallbackError.
    destruct (requestScoped E f) as [d|] eqn:Er; cbn [firstSome snd].
    { intros Hp ->. exfalso. revert Er. unfold requestScoped. by repeat case_if. }
    destruct (serviceSupervisorCooldown _ _) as [d|] eqn:Es; cbn [snd].
    { intros Hp ->. exfalso. revert Es. unfold serviceSupervisorCooldown. by repeat case_match. }
    destruct (gateFor _ _ _ _ _) as [s1 gate] eqn:Eg. destruct (resolveRotationConfig _ _ s1) as [s2 cfg]. cbn [snd].
    destruct gate as [d|]; [|done]. cbn [orElse]. intros Hp ->. exfalso. revert Eg. unfold gateFor, evaluateRotationGate, gateResult.
    destruct (resolveRotationConfig _ _ s). repeat case_match; done.
  - intros (Hr & Hv & Hg & Ht & Ha%isAccountDeactivated_says). unfold checkFallbackError. rewrite Hr, Hv. cbn [firstSome].
    destruct (gateFor _ _ _ _ _) as [s1 gate]. cbn [snd] in Hg. subst gate. destruct (resolveRotationConfig _ _ s1) as [s2 cfg]. cbn [snd orElse].
    unfold classified, byText. rewrite Ha. by destruct (errorText f).
  - intros Hp. destruct (so_dead _ _ _ _ _ (checked E f now s) Hp) as (-> & _ & _). done.
Qed.

(** For every verdict, the provider counts as exhausted exactly when the reason says
    so: the flags of spent credits and of a spent day never stand beside another reason,
    so a combo that skips the provider's other targets and one that reads the reason
    agree. *)
Theorem exhausted_iff_reason E f now s :
  let d := snd (checkFallbackError E f now s) in
  isProviderExhaustedReason d = String.eqb (reason d) QUOTA_EXHAUSTED.
Proof.
  intros d. pose proof (so_flags _ _ _ _ _ (checked E f now s)) as Hf. fold d in Hf. unfold isProviderExhaustedReason.
  case_if; [|done]. by rewrite (Hf eq_refl).
Qed.

(** Unless the account is lost for good or a rule of its provider or of the tables
    sets the time, a failure rests an account for at most thirty days, or until the
    reset its response's headers name; never for a negative time.  The operator's
    settings are assumed within thirty days, and the parsers of hints to cap what they
    read, as each of them does. *)
Theorem cooldown_capped E f now s :
  let d := snd (checkFallbackError E f now s) in
  Within E f now (configOf E f s) -> permanent d = false -> configuredCooldownMs d = None ->
  0 <= cooldownMs d <= Z.max MAX_PROVIDER_COOLDOWN_MS (headerWait E f now).
Proof. intros d W Hp Hc. exact (so_time _ _ _ _ _ (checked E f now s) Hp Hc W). Qed.

(** C12. An account that a failure rests is passed over by the selection until its time
    has come and not longer, and the time written to the database is the same; the time
    is read back from the text it is stored as. *)
Theorem cooled_account_returns E account st text prov now s next ws iso :
  let ms := effectiveCooldownMs (snd (checkFallbackError E (accountFailure account st text prov) now s)) in
  snd (applyErrorState E account st text prov now s) = Some (next, ws) -> 0 < ms ->
  toISOString E (now + ms) = Some iso -> isEmpty iso = false -> reTest COOLDOWN_NUMERIC_RE (trim iso) = false -> parseDate E (trim iso) = Some (now + ms) ->
  (forall t, filterAvailableAccounts E [next] None t = if now + ms <=? t then [next] else []) /\
  (forall i, connIdOf account = Some i -> isAntigravityQuotaProvider prov = false -> ws = [writeUntil i (Some (inject_Z (now + ms)))]).
Proof.
  intros ms. unfold applyErrorState. subst ms. destruct (checkFallbackError E _ now s) as [s' d]. cbn [snd]. unfold coolAccount, getUnavailableUntil.
  generalize (effectiveCooldownMs d). intros ms H Hms Hiso Hne Hnum Hd.
  assert (Hu : cooldownUntilMs E (Some (untilText iso)) = Fin (inject_Z (now + ms))) by (unfold cooldownUntilMs; by rewrite Hne, Hnum, Hd).
  assert (Ht : truthyUntil (Some (untilText iso)) = true) by (unfold truthyUntil; by rewrite Hne).
  assert (Ha : forall t, isAfter (Fin (inject_Z (now + ms))) t = negb (now + ms <=? t)) by (intros t; unfold isAfter, Qle_bool, inject_Z; cbn; by rewrite !Z.mul_1_r).
  assert (E1 : (ms >? 0) = true) by blia. assert (E2 : (now + ms <=? now) = false) by blia.
  revert H. rewrite Hiso, E1. cbn [fmap option_fmap option_map mbind option_bind compose]. rewrite Hu, Ht, Ha, E2. intros [= <- <-]. split.
  - intros t. unfold filterAvailableAccounts. cbn [List.filter rateLimitedUntil set_field]. rewrite Hu, Ht, Ha. by destruct (now + ms <=? t).
  - intros i -> ->. done.
Qed.

(** ** Concrete runs *)

Definition sampleParsers : HintParsers :=
  mkParsers (fun _ _ => None) (fun _ => None) (fun _ _ _ => None) (fun _ => None) (fun _ _ _ => None).

Definition sampleSurroundings : Surroundings :=
  mkSurroundings (fun _ => None) [] [] (fun _ => apikey) (fun _ => mkFallbackProfile 3000 true 1800000 10) (fun _ => false)
    sampleParsers (fun _ => false) (fun _ => false) (fun _ => false) (fun _ => true) (fun _ _ n => n + 3600000) (fun n => n + 3600000)
    (fun t => match t with String "t" r => parseInt10 r | _ => None end) (fun z => Some ("t" +:+ pretty z)) (fun _ => None)
    (fun v => match v with VStr s => dq +:+ s +:+ dq | _ => "{}" end) false.

Definition sampleAccount : AccountState := mkAccount (Some "conn") None (Some 2) None "active" None.

Definition missingFile : string := "file file-abc was not found".
Definition deactivated : string := "Your account has been suspended by the operator".
Definition overloadedText : string := "The server is overloaded".

Example sample_verdicts :
  shouldFallback (snd (checkFallbackError sampleSurroundings (accountFailure sampleAccount 404 missingFile (Some "openai")) 1000 noRotation)) = false /\
  snd (checkFallbackError sampleSurroundings (accountFailure sampleAccount 403 deactivated (Some "openai")) 1000 noRotation) = deadVerdict /\
  cooldownMs (snd (checkFallbackError sampleSurroundings (accountFailure sampleAccount 503 overloadedText (Some "openai")) 1000 noRotation)) = 12000.
Proof. vm_compute. done. Qed.

Lemma permanent_iff_deactivated_witness :
  permanent (snd (checkFallbackError sampleSurroundings (accountFailure sampleAccount 403 deactivated (Some "openai")) 1000 noRotation)) = true /\
  permanent (snd (checkFallbackError sampleSurroundings (accountFailure sampleAccount 503 overloadedText (Some "openai")) 1000 noRotation)) = false.
Proof.
  split; [|by vm_compute].
  apply (proj1 (permanent_iff_deactivated sampleSurroundings (accountFailure sampleAccount 403 deactivated (Some "openai"%string)) 1000 noRotation)).
  split_and!; [by vm_compute..|done|]. exists "your account has been suspended"%string. split; [|by vm_compute].
  apply list_elem_of_In. vm_compute. tauto.
Defined.

Lemma refused_spares_account_witness :
  shouldFallback (snd (checkFallbackError sampleSurroundings (accountFailure sampleAccount 404 missingFile (Some "openai")) 1000 noRotation)) = false /\
  exists next, snd (applyErrorState sampleSurroundings sampleAccount 404 missingFile (Some "openai") 1000 noRotation) = Some (next, []) /\ rateLimitedUntil next = None /\
    accountBackoff next = Some 2 /\ forall t, filterAvailableAccounts sampleSurroundings [next] None t = [next].
Proof. split; [by vm_compute|]. apply (refused_spares_account sampleSurroundings sampleAccount 404 missingFile (Some "openai"%string) 1000 noRotation). by vm_compute. Defined.

Lemma sample_within : Within sampleSurroundings (accountFailure sampleAccount 503 overloadedText (Some "openai")) 1000
  (configOf sampleSurroundings (accountFailure sampleAccount 503 overloadedText (Some "openai")) noRotation).
Proof.
  split; [by split| |by vm_compute|done|unfold MAX_PROVIDER_COOLDOWN_MS; cbn; lia]. cbn. intros p [= <-]. cbn. vm_compute. intuition discriminate.
Qed.

Lemma cooldown_capped_witness :
  cooldownMs (snd (checkFallbackError sampleSurroundings (accountFailure sampleAccount 503 overloadedText (Some "openai")) 1000 noRotation)) = 12000 /\
  0 <= 12000 <= Z.max MAX_PROVIDER_COOLDOWN_MS 0.
Proof.
  split; [by vm_compute|]. apply (cooldown_capped sampleSurroundings (accountFailure sampleAccount 503 overloadedText (Some "openai"%string)) 1000 noRotation sample_within); by vm_compute.
Defined.

Lemma cooled_account_returns_witness :
  let next := mkAccount (Some "conn") (Some (untilText "t13000")) (Some 3) (Some (503, overloadedText, MODEL_CAPACITY)) "error" None in
  snd (applyErrorState sampleSurroundings sampleAccount 503 overloadedText (Some "openai") 1000 noRotation) =
    Some (next, [writeUntil "conn" (Some (inject_Z 13000))]) /\
  filterAvailableAccounts sampleSurroundings [next] None 12999 = [] /\ filterAvailableAccounts sampleSurroundings [next] None 13000 = [next].
Proof.
  cbn zeta.
  assert (H : snd (applyErrorState sampleSurroundings sampleAccount 503 overloadedText (Some "openai"%string) 1000 noRotation) =
    Some (mkAccount (Some "conn") (Some (untilText "t13000")) (Some 3) (Some (503, overloadedText, MODEL_CAPACITY)) "error" None, [writeUntil "conn" (Some (inject_Z 13000))])) by (by vm_compute).
  split; [exact H|].
  assert (Hms : effectiveCooldownMs (snd (checkFallbackError sampleSurroundings (accountFailure sampleAccount 503 overloadedText (Some "openai"%string)) 1000 noRotation)) = 12000) by (by vm_compute).
  pose proof (cooled_account_returns sampleSurroundings sampleAccount 503 overloadedText (Some "openai"%string) 1000 noRotation _ _ "t13000" H) as Hf.
  cbn zeta in Hf. rewrite Hms in Hf. destruct (Hf ltac:(lia) ltac:(by vm_compute) ltac:(by vm_compute) ltac:(by vm_compute) ltac:(by vm_compute)) as [Hf' _].
  split; [apply (Hf' 12999)|apply (Hf' 13000)].
Defined.

(** ** Durations *)

Lemma readDigits_go x s : exists l, 0 <= l /\ ((0 < x)%N -> 0 < l) /\
  forall acc k, readDigits 10 acc k (pretty_N_go x s) = readDigits 10 (acc * 10 ^ l + Z.of_N x) (k + l) s.
Proof.
  revert s. induction (N.lt_wf_0 x) as [x _ IH]. intros s. destruct (decide (x = 0)%N) as [->|Hx].
  - exists 0. split; [done|]. split; [lia|]. intros acc k. rewrite pretty_N_go_0. f_equal; lia.
  - rewrite pretty_N_go_step by lia. destruct (IH (x / 10)%N ltac:(apply N.div_lt; lia) (String (pretty_N_char (x mod 10)) s)) as (l & Hl & _ & H).
    exists (l + 1). split; [lia|]. split; [lia|]. intros acc k. rewrite H. cbn [readDigits]. rewrite digit_value by (apply N.mod_lt; lia).
    f_equal; [|lia]. rewrite Z.pow_add_r by lia. pose proof (N.div_mod x 10 ltac:(lia)). lia.
Qed.

Lemma pretty_go_append x s r : pretty_N_go x s +:+ r = pretty_N_go x (s +:+ r).
Proof.
  revert s. induction (N.lt_wf_0 x) as [x _ IH]. intros s. destruct (decide (x = 0)%N) as [->|Hx]; [by rewrite !pretty_N_go_0|].
  rewrite !(pretty_N_go_step x) by lia. apply IH. apply N.div_lt; lia.
Qed.

(** Reading a printed number and the unit after it. *)
Lemma groupOf_pretty (n : Z) u r : 0 <= n -> digitValue 10 u = None -> groupOf u (pretty n +:+ String u r) = (Some n, r).
Proof.
  intros Hn Hu. assert (H : exists l, 0 < l /\ readDigits 10 0 0 (pretty n +:+ String u r) = (n, l, String u r)).
  { destruct n as [|p|p]; [exists 1; split; [done|]; change (pretty 0 +:+ String u r) with (String "0" (String u r)); cbn [readDigits]; change (digitValue 10 "0") with (Some 0); cbn iota; by rewrite Hu| |lia].
    change (pretty (Zpos p)) with (pretty_N_go (Npos p) ""). rewrite pretty_go_append.
    destruct (readDigits_go (Npos p) ("" +:+ String u r)) as (l & _ & Hl & H). exists l. split; [lia|]. rewrite H. change ("" +:+ String u r) with (String u r). cbn [readDigits]. by rewrite Hu. }
  destruct H as (l & Hl & H). unfold groupOf. rewrite H. rewrite Ascii.eqb_refl. assert (E1 : (l =? 0) = false) by blia. by rewrite E1.
Qed.

Lemma toLowerCase_append a b : toLowerCase (a +:+ b) = toLowerCase a +:+ toLowerCase b.
Proof. induction a as [|c a IH]; [done|]. change (toLowerCase (String c (a +:+ b)) = String (lowerAscii c) (toLowerCase a +:+ toLowerCase b)). by rewrite <- IH. Qed.

Lemma lower_pretty (n : Z) : 0 <= n -> toLowerCase (pretty n) = pretty n.
Proof.
  assert (H : forall x s, toLowerCase s = s -> toLowerCase (pretty_N_go x s) = pretty_N_go x s).
  { intros x. induction (N.lt_wf_0 x) as [x _ IH]. intros s Hs. destruct (decide (x = 0)%N) as [->|Hx]; [by rewrite pretty_N_go_0|].
    rewrite pretty_N_go_step by lia. apply IH; [apply N.div_lt; lia|]. cbn [toLowerCase]. rewrite Hs. f_equal.
    pose proof (N.mod_lt x 10 ltac:(lia)) as Hlt. revert Hlt. generalize (x mod 10)%N. intros d Hlt.
    destruct d as [|[[[|[]|]|[|[]|]|]|[[|[]|]|[|[]|]|]|]]; try reflexivity; lia. }
  intros Hn. destruct n as [|p|p]; [done| |lia]. by apply H.
Qed.

(** The duration a router prints after a phrase of its own. *)
Definition printedDuration (h m s : Z) : string := pretty h +:+ "h" +:+ pretty m +:+ "m" +:+ pretty s +:+ "s".

Lemma durationGroups_printed h m s : 0 <= h -> 0 <= m -> 0 <= s -> durationGroups (printedDuration h m s) = (Some h, Some m, Some s).
Proof.
  intros Hh Hm Hs. unfold durationGroups, printedDuration.
  change ("h" +:+ ?x) with (String "h" x). change ("m" +:+ ?x) with (String "m" x). change (pretty s +:+ "s") with (pretty s +:+ String "s" "").
  rewrite (groupOf_pretty h) by done. rewrite (groupOf_pretty m) by done. by rewrite (groupOf_pretty s).
Qed.

Lemma afterPhrase_absent k phrases s :
  Forall (fun p => match p with String c _ => c = k | EmptyString => False end) phrases -> occurs k s = false -> afterPhrase phrases s = None.
Proof.
  intros Hp. induction s as [|c s IH]; intros Hs; cbn [afterPhrase].
  - assert (E : foldr (fun p acc => match eat p "" with Some r => Some r | None => acc end) None phrases = None); [|by rewrite E].
    clear -Hp. induction Hp as [|[|d p] ps H _ IH]; cbn; [done..|exact IH].
  - cbn [occurs] in Hs. apply orb_false_iff in Hs as [Hc Hs].
    assert (E : foldr (fun p acc => match eat p (String c s) with Some r => Some r | None => acc end) None phrases = None); [|rewrite E; by apply IH].
    clear -Hp Hc. induction Hp as [|[|d p] ps H _ IH]; cbn; [done..|]. subst d. rewrite Ascii.eqb_sym, Hc. exact IH.
Qed.

Lemma printed_absent k h m s : 0 <= h -> 0 <= m -> 0 <= s -> k = "r"%char \/ k = "w"%char -> occurs k (printedDuration h m s) = false.
Proof. intros _ _ _ [-> | ->]; unfold printedDuration; by rewrite !occurs_append, !pretty_occurs. Qed.

(** A reset announced as "Resets in XhYmZs" is read back as that many milliseconds,
    up to thirty days, whatever the hours, minutes and seconds, when no other hint is
    in the text; an announcement of no time at all is no hint. *)
Theorem announced_reset_read P provider now h m s :
  0 <= h -> 0 <= m -> 0 <= s ->
  let msg := "Resets in " +:+ printedDuration h m s in
  jsonHint P msg now = None -> pleaseRetryMs P msg = None -> isoMs P msg now provider = None ->
  let total := (h * 3600 + m * 60 + s) * 1000 in
  parseRetryFromErrorText P msg provider now = if total =? 0 then None else Some (Z.min total MAX_PROVIDER_COOLDOWN_MS).
Proof.
  intros Hh Hm Hs msg H1 H2 H3 total. unfold parseRetryFromErrorText. rewrite H1, H2, H3. cbn [fmap option_fmap option_map firstSome].
  assert (El : toLowerCase msg = "resets in " +:+ printedDuration h m s).
  { unfold msg, printedDuration. rewrite !toLowerCase_append. by rewrite !lower_pretty. }
  rewrite El. assert (Eq : durationAfter RESETS_IN ("resets in " +:+ printedDuration h m s) = Some (Some h, Some m, Some s)).
  { change (durationAfter RESETS_IN ("resets in " +:+ printedDuration h m s)) with
      (match durationGroups (printedDuration h m s) with (None, None, None) => None | g => Some g end). by rewrite durationGroups_printed. }
  assert (Ha : durationAfter RESETS_AFTER ("resets in " +:+ printedDuration h m s) = None).
  { unfold durationAfter. change (afterPhrase RESETS_AFTER ("resets in " +:+ printedDuration h m s)) with (afterPhrase RESETS_AFTER (printedDuration h m s)).
    rewrite (afterPhrase_absent "r"); [done|by repeat constructor|]. apply printed_absent; auto. }
  assert (Hw : durationAfter WILL_RESET_AFTER ("resets in " +:+ printedDuration h m s) = None).
  { unfold durationAfter. change (afterPhrase WILL_RESET_AFTER ("resets in " +:+ printedDuration h m s)) with (afterPhrase WILL_RESET_AFTER (printedDuration h m s)).
    rewrite (afterPhrase_absent "w"); [done|by repeat constructor|]. apply printed_absent; auto. }
  rewrite Ha, Hw, Eq. change (isEmpty msg) with false. cbn iota. unfold computeDurationMs. cbn [orElse].
  replace (h * 3600 * 1000 + m * 60 * 1000 + s * 1000) with total by (unfold total; lia).
  assert (0 <= total) by (unfold total; lia). destruct (Z.eqb_spec total 0) as [->|Hn]; [done|]. case_if; [done|blia].
Qed.

Lemma announced_reset_read_witness :
  parseRetryFromErrorText sampleParsers ("Resets in " +:+ printedDuration 164 27 24) (Some "antigravity"%string) 0 = Some 592044000.
Proof. apply (announced_reset_read sampleParsers (Some "antigravity"%string) 0 164 27 24); done. Defined.

(** ** Consecutive failures *)

Definition TRANSIENT_STATUSES : list Z := [406; 408; 500; 502; 503; 504].
Definition lastDate : Z := 8640000000000000.

(** The default configuration: nothing set in the environment. *)
Definition defaultConfig : RotationConfig := buildFromEnv (fun _ => None).

(** A text in which the tables of signals and patterns find nothing. *)
Definition quietText (E : Surroundings) (p text : string) : bool :=
  let lower := toLowerCase text in
  negb (isAccountDeactivated (customBannedSignals E) text || isEndpointPermanentlyMoved text || isAccountSuspendedForBilling text ||
        isCreditsExhausted text || isDailyQuotaExhausted text || isSubscriptionQuotaText lower (Some p) || isWeeklyUsageLimitText lower ||
        isSessionUsageLimitText lower || isRolling24hUsageLimitText lower || bool_decide (is_Some (matchErrorRuleByText text))).

(** A failure of the provider's servers, of which nothing else is known: the status is
    one the tables back off from, no signal and no rule of the provider or the
    operator matches, and the text names no time to come back at. *)
Record transient (E : Surroundings) (p : string) (st : Z) (text : string) : Prop := {
  tr_status : st ∈ TRANSIENT_STATUSES;
  tr_quiet : quietText E p text = true;
  tr_rule : getProviderErrorRuleMatch (stringify E) (operatorRules E) (Some p) st None (resolveRuleMatchBody (operatorRules E) (Some p) None text) = None;
  tr_json now : jsonHint (hints E) text now = None;
  tr_hint now : parseRetryFromErrorText (hints E) text (Some p) now = None;
}.

(** A failure in time: when, its status, its text. *)
Definition Fault : Type := Z * Z * string.

Section Escalation.
Context (E : Surroundings) (p : string).
Context (Henv : environment E = fun _ => None).
Context (Hp : isEmpty p = false).
Context (Hdate : forall z, 0 <= z <= lastDate -> is_Some (toISOString E z)).

Definition base : Z := profileBaseCooldownMs (getProviderProfile E p).
Definition steps : Z := profileMaxBackoffSteps (getProviderProfile E p).
Definition ceiling : Z := let m := profileMaxCooldownMs (getProviderProfile E p) in if m >? 0 then m else MAX.

(** The rest of the failure after [k] others. *)
Definition restAfter (k : Z) : Z := Z.min (base * 2 ^ Z.min k steps) ceiling.

(** The rests an account is given by failures, one after the other. *)
Fixpoint rests (account : AccountState) (fs : list Fault) (s : Rotation) : list Z :=
  match fs with
  | [] => []
  | (t, st, text) :: fs =>
      effectiveCooldownMs (snd (checkFallbackError E (accountFailure account st text (Some p)) t s)) ::
      match applyErrorState E account st text (Some p) t s with
      | (s, Some (next, _)) => rests next fs s
      | (_, None) => []
      end
  end.

(** The rotation state a run of the default configuration can be in. *)
Definition defaulted (s : Rotation) : Prop := cachedConfig s = None \/ cachedConfig s = Some defaultConfig.

Lemma default_resolved s : defaulted s -> exists s', getGlobalRotationConfig (environment E) s = (s', defaultConfig) /\ cachedConfig s' = Some defaultConfig.
Proof.
  intros [H|H]; unfold getGlobalRotationConfig; rewrite H; [|by exists s]. rewrite Henv. by eexists.
Qed.

Lemma default_gate st key now s : st ∈ TRANSIENT_STATUSES -> evaluateRotationGate st defaultConfig key now s = (s, None).
Proof.
  intros Hst. unfold evaluateRotationGate, recordErrorAndCheckThreshold, gateResult.
  repeat (apply elem_of_cons in Hst as [-> | Hst]; [by destruct key|]). by apply elem_of_nil in Hst.
Qed.

Lemma transient_rule st : st ∈ TRANSIENT_STATUSES -> exists r, matchErrorRuleByStatus st = Some r /\ ruleBackoff r = true /\ ruleReason r = SERVER_ERROR.
Proof. intros Hst. repeat (apply elem_of_cons in Hst as [-> | Hst]; [by eexists|]). by apply elem_of_nil in Hst. Qed.

Lemma transient_other st : st ∈ TRANSIENT_STATUSES ->
  (st =? 429) = false /\ (st =? 404) = false /\ (st =? 410) = false /\ (st =? 403) = false /\ (st =? 409) = false /\ (st =? 402) = false.
Proof. intros Hst. repeat (apply elem_of_cons in Hst as [-> | Hst]; [done|]). by apply elem_of_nil in Hst. Qed.

Section Fault.
Context (account : AccountState) (st : Z) (text : string) (Htr : transient E p st text).
Let f := accountFailure account st text (Some p).

Lemma no_hint now : detectRetryHint E f now = None /\ resetHint E f now = None.
Proof using Htr. unfold resetHint, detectRetryHint, retryFromText. cbn. by rewrite (tr_json _ _ _ _ Htr), (tr_hint _ _ _ _ Htr). Qed.

Lemma quiet_byText now cfg : byText E f now cfg = None.
Proof using Htr.
  destruct (transient_other _ (tr_status _ _ _ _ Htr)) as (H429 & H404 & H410 & H403 & _). destruct (no_hint now) as [_ Hh].
  pose proof (tr_quiet _ _ _ _ Htr) as Hq. unfold quietText in Hq. rewrite negb_true_iff, !orb_false_iff in Hq. destruct Hq as [[[[[[[[[Q1 Q2] Q3] Q4] Q5] Q6] Q7] Q8] Q9] _].
  unfold byText, geminiVerdict, creditsVerdict, dailyVerdict, subscriptionVerdict, buildSubscriptionQuotaFallback, buildWeeklyQuotaFallback,
    buildSessionQuotaFallback, buildRolling24hQuotaFallback, hintedQuotaVerdict, forbiddenVerdict, shouldUseQuotaSignal, isRateLimitStatus.
  rewrite Hh. cbn [errorText status failedProvider failedModel accountFailure f]. rewrite H429, H404, H410, H403, Q1, Q2, Q3, Q4, Q5, Q6, Q7, Q8, Q9.
  by destruct (isEmpty text).
Qed.

Lemma transient_verdict now s : providerSpecificData account = None -> defaulted s ->
  exists s', checkFallbackError E f now s = (s', (scaledVerdict E f SERVER_ERROR) <| ruleScope := None |>) /\ defaulted s'.
Proof using Htr Henv.
  intros Hd Hs. pose proof (tr_status _ _ _ _ Htr) as Hst. destruct (transient_other _ Hst) as (H429 & H404 & _ & _ & H409 & H402). unfold checkFallbackError.
  assert (Hq : requestScoped E f = None).
  { unfold requestScoped, isRequestTokenReservationFailure, f. cbn [status errorText structuredError failedProvider textField mbind option_bind accountFailure]. by rewrite H404, H402, H409. }
  assert (Ho : rotationOverrides (extractRotationContext (Some (accountJson account))) = None).
  { unfold accountJson. rewrite Hd, app_nil_r. by destruct (accountId account). }
  rewrite Hq. change (serviceSupervisorCooldown (status f) (headers f)) with (@None Decision). cbn [firstSome].
  change (rotationAccount f) with (Some (accountJson account)). unfold gateFor, resolveRotationConfig. rewrite Ho.
  destruct (default_resolved s Hs) as (s1 & E1 & Hc1). rewrite E1. cbn [overrideConfig]. change (status f) with st. rewrite default_gate by done.
  destruct (default_resolved s1 (or_intror Hc1)) as (s2 & E2 & Hc2). rewrite E2. exists s2. split; [|by right]. f_equal. cbn [orElse].
  unfold classified. rewrite quiet_byText. cbn [orElse]. unfold byRule, configuredRule, isRateLimitStatus.
  change (status f) with st. change (errorText f) with text. rewrite H429.
  assert (Hm : matchErrorRuleByText text = None).
  { pose proof (tr_quiet _ _ _ _ Htr) as Hn. unfold quietText in Hn. rewrite negb_true_iff, !orb_false_iff in Hn. destruct Hn as [_ Hn].
    apply bool_decide_eq_false in Hn. by destruct (matchErrorRuleByText text) as [r|]; [destruct Hn; eexists|]. }
  destruct (transient_rule st Hst) as (r & Hr & Hb & Hw). unfold findMatchingErrorRule. rewrite Hm, Hr. cbn [andb mbind option_bind orElse]. rewrite Hb.
  assert (Hno : providerRule E f = None) by exact (tr_rule _ _ _ _ Htr).
  unfold backoffRuleVerdict, honoredScope. rewrite Hno, Hw. cbn [mbind option_bind]. f_equal. unfold buildRetryableFallback, getUpstreamRetryHint.
  rewrite (proj1 (no_hint now)). by case_if.
Qed.
End Fault.

Lemma restAfter_sat k i : 0 <= i -> restAfter (Z.min (k + 1) steps + i) = restAfter (k + 1 + i).
Proof. intros Hi. unfold restAfter. do 3 f_equal. lia. Qed.

(** The rest and the level of the failure after [k] others. *)
Lemma scaled_after k account st text : accountBackoff account = Some k -> 0 <= k <= steps -> 0 < base ->
  getScaledBaseCooldown E (accountFailure account st text (Some p)) = mkScaled base (restAfter k) (Z.min (k + 1) steps).
Proof.
  intros Hk Hle Hb. unfold getScaledBaseCooldown, maxBackoffSteps, profile. cbn [profileOverride accountFailure failedProvider named backoffLevel]. rewrite Hp, Hk.
  fold base steps. assert (E1 : (base >=? 0) = true) by blia. cbn [fmap option_fmap option_map numOr]. rewrite E1.
  assert (E2 : (if k =? 0 then 0 else k) = k) by (case_if; blia). rewrite E2.
  unfold ModelLockout.capScaledCooldownMs, ModelLockout.getScaledCooldown. assert (E3 : (base >? 0) = true) by blia. rewrite E3.
  f_equal. unfold restAfter, ceiling. do 3 f_equal. lia.
Qed.

Lemma level_written (d : Decision) (dflt n : Z) : newBackoffLevel d = Some n -> Some (orElse (newBackoffLevel d) dflt) = Some n.
Proof. by intros ->. Qed.

Lemma rests_of k account fs s :
  0 < base -> providerSpecificData account = None -> defaulted s -> accountBackoff account = Some k -> 0 <= k <= steps ->
  Forall (fun '(t, st, text) => transient E p st text /\ 0 <= t /\ t + ceiling <= lastDate) fs ->
  rests account fs s = imap (fun i _ => restAfter (k + Z.of_nat i)) fs.
Proof.
  intros Hb. revert k account s. induction fs as [|[[t st] text] fs IH]; intros k account s Hd Hs Hk Hle Ht; [done|].
  apply Forall_cons in Ht as [(Htr & Ht0 & Ht1) Ht'].
  cbn [rests imap]. destruct (transient_verdict account st text Htr t s Hd Hs) as (s' & Ev & Hs'). unfold applyErrorState. rewrite Ev. cbn [snd].
  pose proof (scaled_after k account st text Hk Hle Hb) as Hsc. set (f := accountFailure account st text (Some p)) in *.
  assert (Hms : effectiveCooldownMs ((scaledVerdict E f SERVER_ERROR) <| ruleScope := None |>) = restAfter k).
  { change (scaledCooldown (getScaledBaseCooldown E f) = restAfter k). by rewrite Hsc. }
  assert (Hlv : newBackoffLevel ((scaledVerdict E f SERVER_ERROR) <| ruleScope := None |>) = Some (Z.min (k + 1) steps)).
  { change (Some (scaledLevel (getScaledBaseCooldown E f)) = Some (Z.min (k + 1) steps)). by rewrite Hsc. }
  assert (Hpos : 0 < restAfter k <= ceiling).
  { unfold restAfter. assert (0 < 2 ^ Z.min k steps) by (apply Z.pow_pos_nonneg; lia). assert (0 < ceiling) by (unfold ceiling; case_if; [blia|done]). nia. }
  rewrite Hms. rewrite Z.add_0_r. f_equal. unfold coolAccount. rewrite Hms. unfold getUnavailableUntil.
  destruct (Hdate (t + restAfter k) ltac:(lia)) as [iso Hiso]. rewrite Hiso. assert (E1 : (restAfter k >? 0) = true) by blia. rewrite E1.
  cbn [fmap option_fmap option_map mbind option_bind]. rewrite (IH (Z.min (k + 1) steps)); [|done|done|exact (level_written _ (numOr (accountBackoff account) 0) _ Hlv)|lia|done].
  apply imap_ext. intros i x _. cbn. rewrite restAfter_sat by lia. f_equal. lia.
Qed.
End Escalation.

(** C18. Backoff.  An account that just succeeded and then fails again and again, each time
    with a transient failure (a status the tables back off from, no signal, rule or time
    to come back at in the text), rests for the profile's base time, then twice that, and so
    on up to the last backoff step and the profile's ceiling, whatever the statuses, texts
    and times of the failures and whatever failed before the success.  Nothing is set in
    the environment, the account has no provider-specific settings, the base time is
    positive and a Date can hold the times. *)
Theorem account_backoff_escalates E p account fs s :
  environment E = (fun _ => None) -> (forall z, 0 <= z <= lastDate -> is_Some (toISOString E z)) ->
  isEmpty p = false -> providerSpecificData account = None -> defaulted s ->
  0 < base E p -> 0 <= steps E p -> Forall (fun '(t, st, text) => transient E p st text /\ 0 <= t /\ t + ceiling E p <= lastDate) fs ->
  rests E p (fst (resetAccountState account)) fs s = imap (fun k _ => restAfter E p (Z.of_nat k)) fs.
Proof. intros. by apply (rests_of E p) with (k := 0). Qed.

Definition outages : list Fault := [(0, 503, ""); (4000, 502, "upstream connect error"); (11000, 500, "internal error"); (24000, 504, "")]%string.

Lemma account_backoff_escalates_witness :
  rests sampleSurroundings "openai" (fst (resetAccountState sampleAccount)) outages noRotation = [3000; 6000; 12000; 24000] /\
  rests sampleSurroundings "openai" (fst (resetAccountState sampleAccount)) outages noRotation =
  imap (fun k _ => restAfter sampleSurroundings "openai" (Z.of_nat k)) outages.
Proof.
  split; [by vm_compute|]. apply account_backoff_escalates; try done.
  - by left.
  - assert (H : forall t st text, st ∈ TRANSIENT_STATUSES -> quietText sampleSurroundings "openai" text = true ->
      (forall now, parseRetryFromErrorText sampleParsers text (Some "openai"%string) now = None) -> 0 <= t <= 24000 ->
      transient sampleSurroundings "openai" st text /\ 0 <= t /\ t + ceiling sampleSurroundings "openai" <= lastDate).
    { intros t st text H1 H2 H3 H4. split; [|cbn; unfold lastDate; lia]. split; [done|done|done|done|done]. }
    repeat (apply Forall_cons; split; [apply H; [apply list_elem_of_In; vm_compute; tauto|vm_compute; reflexivity|done|lia]|]). by apply Forall_nil.
Defined.

(** ** Findings *)

(** The router prints the wait of an account with spaces between its parts, and reads
    such a text (its own, from another instance or from its own account selection) up to
    the first space: a wait of an hour and a half is taken for an hour. *)
Lemma own_hint_cut :
  formatRetryAfter sampleSurroundings (Some (untilNumber (Fin (inject_Z 5400000)))) 0 = "reset after 1h 30m"%string /\
  parseRetryFromErrorText sampleParsers "reset after 1h 30m" None 0 = Some 3600000.
Proof. vm_compute. done. Qed.

(** The comments give an account without credits an hour; it rests two minutes. *)
Lemma credits_rest_two_minutes :
  cooldownMs (snd (checkFallbackError sampleSurroundings (accountFailure sampleAccount 402 "insufficient credits" None) 0 noRotation)) = 120000.
Proof. by vm_compute. Qed.

(** The rule of the opencode family that reads "Resets in N days" is handed the structured
    error, which holds no message, so it does not see the text it is written for. *)
Definition monthly : Failure :=
  mkFailure 429 "Monthly usage limit reached. Resets in 13 days." 0 None (Some "opencode") None None
    (Some (VObj [("code", VStr "rate_limited"); ("type", VStr "error")])) None None.

Lemma monthly_rule_blind (stringify : json -> string) :
  includes (toLowerCase (stringify (VObj [("code", VStr "rate_limited"); ("type", VStr "error")]))) "monthly usage limit reached" = false ->
  opencodeMonthly stringify 429 [] (resolveRuleMatchBody [] (failedProvider monthly) (structuredError monthly) (errorText monthly)) = None /\
  opencodeMonthly (fun v => match v with VStr s => dq +:+ s +:+ dq | _ => "{}" end) 429 [] (Some (VStr (errorText monthly))) =
    Some (mkMatch QUOTA_EXHAUSTED connection (Some (13 * 86400000))).
Proof.
  intros H. split; [|by vm_compute]. change (resolveRuleMatchBody _ _ _ _) with (structuredError monthly). unfold opencodeMonthly, bodyText. cbn [structuredError monthly Z.eqb negb]. by rewrite H.
Qed.

(** The patterns of a moved endpoint are tried at every status: a refused parameter that
    "no longer works" takes the account away for a day. *)
Lemma refused_parameter_moves_endpoint :
  cooldownMs (snd (checkFallbackError sampleSurroundings
    (accountFailure sampleAccount 400 "The temperature parameter no longer works with reasoning" (Some "openai")) 0 noRotation)) = oneDay.
Proof. by vm_compute. Qed.

(** Waits read from a text are capped at thirty days, so that an upstream cannot lock an
    account away; the same wait in a header is taken as it is. *)
Lemma header_wait_uncapped :
  cooldownMs (snd (checkFallbackError sampleSurroundings
    (mkFailure 429 "slow down" 0 None (Some "openai") (Some (HeaderRecord [("Retry-After", "99999999")])) None None None None) 0 noRotation)) = 99999999000 /\
  MAX_PROVIDER_COOLDOWN_MS < 99999999000.
Proof. split; by vm_compute. Qed.
