(* ===== verification/ProviderCooldown.v ===== *)
(** * Cooldowns across requests: [open-sse/services/providerCooldownTracker.ts]

    The map of failed providers and connections that combo requests consult.  A
    connection rests for a time that doubles with each failure in a row; a whole
    provider rests once it failed [providerFailureThreshold] times inside a sliding
    window ([open-sse/config/constants.ts], PROVIDER_PROFILES).  [Date.now()] is the
    argument [now].  Arguments stand for [envInt], whose values are taken to be whole
    numbers, for the provider registry and for the default settings.

    [cooling] is the specification of the window gate over the whole history of a
    provider's failures; the tracker, which prunes its samples, caps their number and
    forgets idle entries, is proved to answer as it does. *)
From Stdlib Require Import String Ascii Sorting.Sorted.
From S2P Require Import Prelude JsMap JsString ProviderRules.
From S2P Require AccountFallback.
#[local] Open Scope Z_scope.

Abbreviation Category := AccountFallback.Category.

(** ** Profiles *)

Record BreakerProfile := mkBreakerProfile {
  transientCooldown : Z;
  rateLimitCooldown : Z;
  maxBackoffLevel : Z;
  circuitBreakerThreshold : Z;
  circuitBreakerReset : Z;
  providerFailureThreshold : Z;
  providerFailureWindowMs : Z;
  providerCooldownMs : Z;
  degradationThreshold : Z;
  maxBackoffMultiplier : Z;
  backoffEscalationCount : Z;
}.

Definition PROVIDER_PROFILES (envInt : string -> Z -> Z) (c : Category) : BreakerProfile :=
  match c with
  | AccountFallback.oauth =>
      mkBreakerProfile 5000 60000 8
        (envInt "OMNIROUTE_CIRCUIT_BREAKER_OAUTH_THRESHOLD" 8)
        (envInt "OMNIROUTE_CIRCUIT_BREAKER_OAUTH_RESET_MS" 60000)
        (envInt "OMNIROUTE_PROVIDER_BREAKER_OAUTH_FAILURE_THRESHOLD" 10)
        (envInt "OMNIROUTE_PROVIDER_BREAKER_OAUTH_FAILURE_WINDOW_MS" 900000)
        (envInt "OMNIROUTE_PROVIDER_BREAKER_OAUTH_COOLDOWN_MS" 300000)
        (envInt "OMNIROUTE_PROVIDER_BREAKER_OAUTH_DEGRADATION_THRESHOLD" 5)
        (envInt "OMNIROUTE_PROVIDER_BREAKER_OAUTH_MAX_BACKOFF_MULTIPLIER" 8)
        (envInt "OMNIROUTE_PROVIDER_BREAKER_OAUTH_BACKOFF_ESCALATION_COUNT" 2)
  | AccountFallback.apikey =>
      mkBreakerProfile 3000 0 5
        (envInt "OMNIROUTE_CIRCUIT_BREAKER_API_KEY_THRESHOLD" 12)
        (envInt "OMNIROUTE_CIRCUIT_BREAKER_API_KEY_RESET_MS" 30000)
        (envInt "OMNIROUTE_PROVIDER_BREAKER_API_KEY_FAILURE_THRESHOLD" 15)
        (envInt "OMNIROUTE_PROVIDER_BREAKER_API_KEY_FAILURE_WINDOW_MS" 1800000)
        (envInt "OMNIROUTE_PROVIDER_BREAKER_API_KEY_COOLDOWN_MS" 600000)
        (envInt "OMNIROUTE_PROVIDER_BREAKER_API_KEY_DEGRADATION_THRESHOLD" 7)
        (envInt "OMNIROUTE_PROVIDER_BREAKER_API_KEY_MAX_BACKOFF_MULTIPLIER" 4)
        (envInt "OMNIROUTE_PROVIDER_BREAKER_API_KEY_BACKOFF_ESCALATION_COUNT" 3)
  end.

(** The [providerCooldown] part of the resilience settings. *)
Record CooldownSettings := mkCooldownSettings { minRetryCooldownMs : Z; maxRetryCooldownMs : Z }.

(** What the module finds when it loads. *)
Record Environment := mkEnvironment {
  envInt : string -> Z -> Z;
  categoryOf : string -> Category;
  defaultSettings : CooldownSettings;
}.

(** ** State *)

Record CooldownEntry := mkEntry {
  lastFailureAt : Z;
  failureCount : Z;
  retentionMs : Z;
  failureTimestamps : option (list Z);
}.

Record Tracker := mkTracker { cooldownMap : jsmap string CooldownEntry; cleanupTimer : bool }.
#[export] Instance Tracker_eta : Eta Tracker := fun s => mkTracker (cooldownMap s) (cleanupTimer s).

Definition noCooldowns : Tracker := mkTracker [] false.

Definition DEFAULT_ENTRY_RETENTION_MS : Z := 30 * 60 * 1000.
Definition CLEANUP_INTERVAL_MS : Z := 60 * 1000.
Definition maxSamples : nat := 200.

Section Operations.
Context (E : Environment).

Definition windowProfile (provider : string) : BreakerProfile :=
  PROVIDER_PROFILES (envInt E) (categoryOf E provider).

(** The last [n] elements: [l.slice(-n)]. *)
Definition lastN {A} (n : nat) (l : list A) : list A := drop (length l - n) l.

Definition within (cutoff : Z) (l : list Z) : list Z := base.filter (fun t => cutoff <= t) l.

Definition pruneWindow (timestamps : list Z) (windowMs now : Z) : list Z :=
  let pruned := within (now - windowMs) timestamps in
  if (maxSamples <? length pruned)%nat then lastN maxSamples pruned else pruned.

Definition providerWindowCooldownMs (provider : string) (entry : CooldownEntry) (now : Z) : Z :=
  let p := windowProfile provider in
  let inWindow := pruneWindow (orElse (failureTimestamps entry) []) (providerFailureWindowMs p) now in
  if Z.of_nat (length inWindow) <? providerFailureThreshold p then 0
  else
    let elapsed := now - lastFailureAt entry in
    let remaining := providerCooldownMs p - elapsed in
    if remaining >? 0 then remaining else 0.

Definition settingsOf (settings : option CooldownSettings) : CooldownSettings := orElse settings (defaultSettings E).

Definition getEntryRetentionMs (settings : option CooldownSettings) : Z :=
  Z.max DEFAULT_ENTRY_RETENTION_MS (maxRetryCooldownMs (settingsOf settings)).

Definition startCleanupIfNeeded (s : Tracker) : Tracker := s <| cleanupTimer := true |>.

Definition cleanupExpiredCooldownEntries (now : Z) (s : Tracker) : Tracker :=
  s <| cooldownMap := mprune (fun _ entry => retentionMs entry <? now - lastFailureAt entry) (cooldownMap s) |>.

(** An empty connection id is like none. *)
Definition cooldownKey (provider : string) (connectionId : option string) : string :=
  match named connectionId with Some c => provider +:+ ":" +:+ c | None => provider end.

Definition skipped (provider : string) : bool := isEmpty provider || String.eqb provider "unknown".

Definition recordProviderCooldown (provider : string) (connectionId : option string) (settings : option CooldownSettings)
    (now : Z) (s : Tracker) : Tracker :=
  if skipped provider then s
  else
    let key := cooldownKey provider connectionId in
    let retention := getEntryRetentionMs settings in
    let entry :=
      match mget key (cooldownMap s) with
      | Some existing =>
          mkEntry now (failureCount existing + 1) (Z.max (retentionMs existing) retention)
            (match named connectionId with
             | None => Some (pruneWindow (orElse (failureTimestamps existing) [] ++ [now])
                               (providerFailureWindowMs (windowProfile provider)) now)
             | Some _ => failureTimestamps existing
             end)
      | None =>
          mkEntry now 1 retention (match named connectionId with None => Some [now] | Some _ => None end)
      end in
    startCleanupIfNeeded (s <| cooldownMap := mset key entry (cooldownMap s) |>).

Definition scaledCooldownMs (settings : option CooldownSettings) (entry : CooldownEntry) : Z :=
  let exponent := Z.min (Z.max 0 (failureCount entry - 1)) 10 in
  Z.min (minRetryCooldownMs (settingsOf settings) * 2 ^ exponent) (maxRetryCooldownMs (settingsOf settings)).

Definition isProviderInCooldown (provider : string) (connectionId : option string) (settings : option CooldownSettings)
    (now : Z) (s : Tracker) : bool :=
  if skipped provider then false
  else
    match mget (cooldownKey provider connectionId) (cooldownMap s) with
    | None => false
    | Some entry =>
        if failureCount entry =? 0 then false
        else
          match named connectionId with
          | None => providerWindowCooldownMs provider entry now >? 0
          | Some _ => now - lastFailureAt entry <? scaledCooldownMs settings entry
          end
    end.

Definition getRemainingCooldownMs (provider : string) (connectionId : option string) (settings : option CooldownSettings)
    (now : Z) (s : Tracker) : Z :=
  if skipped provider then 0
  else
    match mget (cooldownKey provider connectionId) (cooldownMap s) with
    | None => 0
    | Some entry =>
        match named connectionId with
        | None => if failureCount entry =? 0 then 0 else providerWindowCooldownMs provider entry now
        | Some _ =>
            let remaining := scaledCooldownMs settings entry - (now - lastFailureAt entry) in
            if remaining >? 0 then remaining else 0
        end
    end.

Definition recordProviderSuccess (provider : string) (connectionId : option string) (s : Tracker) : Tracker :=
  if skipped provider then s
  else
    let key := cooldownKey provider connectionId in
    match mget key (cooldownMap s) with
    | Some entry =>
        s <| cooldownMap := mset key (mkEntry (lastFailureAt entry) 0 (retentionMs entry) (Some [])) (cooldownMap s) |>
    | None => s
    end.

Definition clearCooldownState (s : Tracker) : Tracker := s <| cooldownMap := [] |>.

Definition getCooldownEntryCount (s : Tracker) : Z := msize (cooldownMap s).

(** ** Histories *)

Inductive Happening :=
| Failed (provider : string) (connectionId : option string) (settings : option CooldownSettings)
| Succeeded (provider : string) (connectionId : option string)
| Cleanup
| Cleared.

Definition happen (s : Tracker) (e : Z * Happening) : Tracker :=
  match e.2 with
  | Failed p c st => recordProviderCooldown p c st e.1 s
  | Succeeded p c => recordProviderSuccess p c s
  | Cleanup => cleanupExpiredCooldownEntries e.1 s
  | Cleared => clearCooldownState s
  end.

Definition run (es : list (Z * Happening)) : Tracker := foldl happen noCooldowns es.

(** The failures of the whole provider [p] since its last success. *)
Definition isWhole (p q : string) (c : option string) : bool :=
  String.eqb p q && match named c with None => true | Some _ => false end.

Definition remember (p : string) (h : list Z) (e : Z * Happening) : list Z :=
  match e.2 with
  | Failed q c _ => if isWhole p q c then h ++ [e.1] else h
  | Succeeded q c => if isWhole p q c then [] else h
  | Cleanup => h
  | Cleared => []
  end.

Definition history (p : string) (es : list (Z * Happening)) : list Z := foldl (remember p) [] es.

(** The specification: enough failures in the window that ends now, and the last of
    them less than the cooldown ago. *)
Definition cooling (p : string) (h : list Z) (now : Z) : bool :=
  let w := windowProfile p in
  (providerFailureThreshold w <=? Z.of_nat (length (within (now - providerFailureWindowMs w) h)))
  && match last h with Some t => now - t <? providerCooldownMs w | None => false end.
End Operations.

(** ** The window gate meets its specification *)

Section Window.
Context (E : Environment) (p : string).
Notation F := (providerFailureThreshold (windowProfile E p)).
Notation W := (providerFailureWindowMs (windowProfile E p)).
Notation C := (providerCooldownMs (windowProfile E p)).

Lemma within_app c l1 l2 : within c (l1 ++ l2) = within c l1 ++ within c l2.
Proof. apply filter_app. Qed.

Lemma within_all c l : Forall (fun t => c <= t) l -> within c l = l.
Proof. intros H. apply filter_id. by apply Forall_forall. Qed.

Lemma within_none c l : Forall (fun t => t < c) l -> within c l = [].
Proof. intros H. apply filter_none. intros x Hx. rewrite Forall_forall in H. specialize (H x Hx). lia. Qed.

Lemma within_within c d l : d <= c -> within c (within d l) = within c l.
Proof.
  intros H. unfold within. rewrite list_filter_filter. apply filter_ext_elem. intros x _. lia.
Qed.

(** In an ordered list the recent samples are the last ones. *)
Lemma within_lastN c n l :
  StronglySorted Z.le l -> length (within c (lastN n l)) = (n `min` length (within c l))%nat.
Proof.
  induction 1 as [|x l Hs IH Hx]; [by destruct n|]. unfold lastN in *. cbn [length].
  destruct (decide (S (length l) <= n)%nat) as [Hle|Hgt].
  - replace (S (length l) - n)%nat with 0%nat by lia. cbn [drop].
    pose proof (length_filter (fun t => c <= t) (x :: l)). unfold within. cbn [length] in *. lia.
  - replace (S (length l) - n)%nat with (S (length l - n)) by lia. cbn [drop]. rewrite IH.
    unfold within. rewrite filter_cons. case_decide as Hc; [|done]. cbn [length].
    assert (within c l = l) as Hall by (apply within_all; eapply Forall_impl; [exact Hx|]; cbn; lia).
    unfold within in Hall. rewrite Hall. lia.
Qed.

Lemma pruneWindow_lastN l w now : pruneWindow l w now = lastN maxSamples (within (now - w) l).
Proof.
  unfold pruneWindow, lastN. destruct (Nat.ltb_spec maxSamples (length (within (now - w) l))); [done|].
  by replace (length (within (now - w) l) - maxSamples)%nat with 0%nat by lia.
Qed.

Lemma within_sorted c l : StronglySorted Z.le l -> StronglySorted Z.le (within c l).
Proof.
  unfold within. induction 1 as [|x l Hs IH Hx]; [constructor|]. rewrite filter_cons. case_decide; [|done].
  constructor; [done|]. apply Forall_forall. intros y Hy. apply list_elem_of_filter in Hy as [_ Hy].
  by eapply Forall_forall.
Qed.

Lemma pruneWindow_count c l now : StronglySorted Z.le l -> now - W <= c ->
  length (within c (pruneWindow l W now)) = (maxSamples `min` length (within c l))%nat.
Proof. intros Hs Hc. rewrite pruneWindow_lastN, within_lastN, within_within by (auto using within_sorted). done. Qed.

Lemma pruneWindow_sorted l now : StronglySorted Z.le l -> StronglySorted Z.le (pruneWindow l W now).
Proof.
  intros Hs. rewrite pruneWindow_lastN. apply within_sorted with (c := now - W) in Hs. unfold lastN.
  generalize (length (within (now - W) l) - maxSamples)%nat as k. intros k. revert k.
  induction Hs as [|x l' Hs IH Hx]; intros [|k]; cbn; try constructor; auto.
Qed.

Lemma pruneWindow_Forall P l now : Forall P l -> Forall P (pruneWindow l W now).
Proof.
  intros H. rewrite pruneWindow_lastN. unfold lastN. apply Forall_drop. rewrite Forall_forall in *.
  intros x Hx. apply list_elem_of_filter in Hx as [_ Hx]. by apply H.
Qed.

(** What the tracker holds about [p] agrees with the history up to the instant [t]. *)
Definition agrees (t : Z) (h stamps : list Z) : Prop :=
  forall c, t - W <= c -> (maxSamples `min` length (within c stamps) = maxSamples `min` length (within c h))%nat.

Definition tracks (t : Z) (h : list Z) (s : Tracker) : Prop :=
  mwf (cooldownMap s) /\ Forall (fun x => x <= t) h /\
  match mget p (cooldownMap s) with
  | None => Forall (fun x => x < t - W) h
  | Some e =>
      let stamps := orElse (failureTimestamps e) [] in
      W <= retentionMs e /\ 0 <= failureCount e /\ (failureCount e = 0 -> h = []) /\
      StronglySorted Z.le stamps /\ Forall (fun x => x <= t) stamps /\ agrees t h stamps /\
      Forall (fun x => x <= lastFailureAt e) h /\ (h = [] \/ last h = Some (lastFailureAt e))
  end.

Lemma stamps_later t t' h stamps : t <= t' -> agrees t h stamps -> agrees t' h stamps.
Proof. intros H Ha c Hc. apply Ha. lia. Qed.

Lemma tracks_later t t' h s : t <= t' -> tracks t h s -> tracks t' h s.
Proof.
  intros Ht (Hw & Hh & Hm). split_and!; [done|eapply Forall_impl; [exact Hh|cbn; lia]|].
  destruct (mget p (cooldownMap s)) as [e|].
  - destruct Hm as (? & ? & ? & ? & Hs & Ha & ? & ?). split_and!; try done.
    + eapply Forall_impl; [exact Hs|cbn; lia].
    + by eapply stamps_later.
  - eapply Forall_impl; [exact Hm|cbn; lia].
Qed.

Lemma tracks_other t h s s' : tracks t h s -> mwf (cooldownMap s') ->
  mget p (cooldownMap s') = mget p (cooldownMap s) -> tracks t h s'.
Proof. intros (_ & Hh & Hm) Hw' He. split_and!; [done|done|]. by rewrite He. Qed.

Context (Hcolon : occurs ":" p = false) (Hskip : skipped p = false) (HW : 0 <= W <= DEFAULT_ENTRY_RETENTION_MS).

(** Only the whole provider's entry has the key [p]. *)
Lemma key_whole q c : cooldownKey q c = p -> isWhole p q c = true.
Proof using Hcolon.
  intros Hk. pose proof Hcolon as Hc. rewrite <- Hk in Hc |- *. unfold cooldownKey, isWhole in *.
  destruct (named c) as [i|]; [|by rewrite String.eqb_refl].
  rewrite !occurs_append in Hc. cbn in Hc. by rewrite orb_true_r in Hc.
Qed.

Lemma whole_key q c : isWhole p q c = true -> q = p /\ named c = None.
Proof.
  unfold isWhole. intros [H1 H2]%andb_true_iff. apply String.eqb_eq in H1. by destruct (named c).
Qed.

Lemma Forall_until t (l : list Z) : Forall (fun x => x <= t) l -> Forall (fun x => x <= t) (l ++ [t]).
Proof. intros H. apply Forall_app. split; [done|]. repeat constructor. lia. Qed.

Lemma tracks_failed t h s : Forall (fun x => x <= t) h -> mwf (cooldownMap s) -> tracks t h s -> forall st,
  tracks t (h ++ [t]) (recordProviderCooldown E p None st t s).
Proof using Hskip HW.
  intros Hh Hw (_ & _ & Hm) st. unfold recordProviderCooldown. rewrite Hskip. cbn [named cooldownKey].
  unfold tracks. cbn. rewrite mget_mset_eq. split; [by apply mwf_mset|]. split; [by apply Forall_until|].
  assert (Hret : W <= getEntryRetentionMs E st) by (unfold getEntryRetentionMs; lia).
  assert (Hlast : Forall (fun x => x <= t) (h ++ [t]) /\ (h ++ [t] = [] \/ last (h ++ [t]) = Some t)).
  { split; [by apply Forall_until|]. right. apply last_snoc. }
  assert (Hadd : forall stamps, agrees t h stamps -> agrees t (h ++ [t]) (stamps ++ [t])).
  { intros stamps Ha c Hc. specialize (Ha c Hc). rewrite !within_app, !length_app. lia. }
  destruct (mget p (cooldownMap s)) as [e|]; cbn.
  - destruct Hm as (Hr & Hfc & _ & Hs & Hle & Ha & _).
    assert (Hs' : StronglySorted Z.le (orElse (failureTimestamps e) [] ++ [t])).
    { clear -Hs Hle. induction Hs as [|x l Hs IH Hx]; cbn; [repeat constructor|].
      apply Forall_cons in Hle as [? ?]. constructor; [auto|]. apply Forall_app. auto. }
    split_and!; try lia; try tauto; [by apply pruneWindow_sorted|by apply pruneWindow_Forall, Forall_until|].
    intros c Hc. specialize (Hadd _ Ha c Hc). rewrite pruneWindow_count by done. lia.
  - split_and!; try lia; try tauto; [repeat constructor|repeat constructor; lia|].
    intros c Hc. rewrite within_app, (within_none c h); [done|]. eapply Forall_impl; [exact Hm|cbn; lia].
Qed.

Lemma tracks_cleanup t h s : Forall (fun x => x <= t) h -> tracks t h s ->
  tracks t h (cleanupExpiredCooldownEntries t s).
Proof using HW.
  intros Hh (Hw & _ & Hm). unfold tracks, cleanupExpiredCooldownEntries. cbn.
  split_and!; [by apply mwf_mprune|done|]. rewrite mget_mprune by done.
  destruct (mget p (cooldownMap s)) as [e|]; [|done]. case_if; [|done].
  destruct Hm as (Hr & _ & _ & _ & _ & _ & Hl & _). to_prop. eapply Forall_impl; [exact Hl|cbn; lia].
Qed.

Lemma tracks_step t h s e : t <= e.1 -> tracks t h s -> tracks e.1 (remember p h e) (happen E s e).
Proof using Hcolon Hskip HW.
  intros Ht Htr. apply (tracks_later _ _ _ _ Ht) in Htr. clear Ht t. destruct e as [t [q c st|q c| |]]; cbn in *.
  - destruct (isWhole p q c) eqn:Ew.
    + apply whole_key in Ew as [-> Hc].
      assert (He : recordProviderCooldown E p c st t s = recordProviderCooldown E p None st t s)
        by (unfold recordProviderCooldown, cooldownKey; by rewrite Hc).
      rewrite He. destruct Htr as (? & ? & ?). by apply tracks_failed.
    + apply (tracks_other _ _ _ _ Htr); unfold recordProviderCooldown; case_if; try done; try apply Htr; cbn.
      * apply mwf_mset, Htr.
      * apply mget_mset_ne. intros Hk. by rewrite (key_whole q c) in Ew.
  - unfold recordProviderSuccess. destruct (isWhole p q c) eqn:Ew.
    + apply whole_key in Ew as [-> Hc]. rewrite Hskip. unfold cooldownKey. rewrite Hc.
      destruct Htr as (Hw & Hh & Hm). destruct (mget p (cooldownMap s)) as [e|] eqn:Eg.
      * unfold tracks. cbn. rewrite mget_mset_eq. destruct Hm as (? & _).
        split_and!; cbn; auto using mwf_mset; try constructor; try done; lia.
      * unfold tracks. rewrite Eg. split_and!; auto; constructor.
    + apply (tracks_other _ _ _ _ Htr); (case_if; [done || apply Htr|]);
        (destruct (mget (cooldownKey q c) (cooldownMap s)) eqn:Eg; [cbn|done || apply Htr]).
      * apply mwf_mset, Htr.
      * apply mget_mset_ne. intros Hk. by rewrite (key_whole q c) in Ew.
  - apply tracks_cleanup; [apply Htr|done].
  - unfold tracks. cbn. split_and!; [apply mwf_nil|constructor|constructor].
Qed.

Lemma tracks_run es now : StronglySorted Z.le (es.*1 ++ [now]) -> tracks now (history p es) (run E es).
Proof using Hcolon Hskip HW.
  unfold run, history.
  assert (Hgen : forall es t h s, StronglySorted Z.le (t :: es.*1 ++ [now]) -> tracks t h s ->
    tracks now (foldl (remember p) h es) (foldl (happen E) s es)).
  { clear es. induction es as [|e es IH]; cbn; intros t h s Hs Htr.
    - apply StronglySorted_inv in Hs as [_ Hs]. apply Forall_cons in Hs as [Hs _]. by eapply tracks_later.
    - apply StronglySorted_inv in Hs as [Hs Hf]. apply Forall_cons in Hf as [Hf _].
      apply (IH e.1); [done|]. by apply (tracks_step t). }
  intros Hs. destruct es as [|e es].
  - cbn. unfold tracks. cbn. split_and!; [apply mwf_nil|constructor|constructor].
  - apply (Hgen (e :: es) e.1); [constructor; [done|]|].
    + inversion Hs; subst. constructor; [lia|done].
    + unfold tracks. cbn. split_and!; [apply mwf_nil|constructor|constructor].
Qed.

Context (HF : 1 <= F <= Z.of_nat maxSamples).

Lemma tracks_cooling now h s st : tracks now h s -> isProviderInCooldown E p None st now s = cooling E p h now.
Proof using Hskip HF.
  intros (_ & _ & Hm). unfold isProviderInCooldown, cooling. rewrite Hskip. cbn [cooldownKey named].
  destruct (mget p (cooldownMap s)) as [e|].
  - destruct Hm as (_ & Hfc & Hz & Hs & _ & Ha & _ & Hl).
    specialize (Ha (now - W) ltac:(lia)).
    assert (Hc := pruneWindow_count (now - W) _ now Hs ltac:(lia)).
    rewrite (within_all _ (pruneWindow _ _ _)) in Hc by (rewrite pruneWindow_lastN; unfold lastN;
      apply Forall_drop, Forall_forall; intros x Hx; by apply list_elem_of_filter in Hx as [? _]).
    unfold providerWindowCooldownMs. cbv zeta. rewrite Hc, Ha.
    destruct (Z.eqb_spec (failureCount e) 0) as [H0|H0]; [rewrite (Hz H0); cbn; by rewrite andb_false_r|].
    destruct Hl as [Hl|Hl].
    + rewrite Hl, andb_false_r. change (within (now - W) []) with (@nil Z). cbn [length]. rewrite Nat.min_0_r.
      by rewrite (proj2 (Z.ltb_lt _ F)) by lia.
    + rewrite Hl. destruct (Z.leb_spec F (Z.of_nat (length (within (now - W) h)))) as [HF1|HF1]; cbn [andb].
      * rewrite (proj2 (Z.ltb_ge _ F)) by lia.
        destruct (Z.ltb_spec (now - lastFailureAt e) C); case_if; to_prop; [apply Z.gtb_lt; lia|lia|lia|done].
      * by rewrite (proj2 (Z.ltb_lt _ F)) by lia.
  - rewrite within_none by done. cbn [length]. by rewrite (proj2 (Z.leb_gt F (Z.of_nat 0))) by lia.
Qed.
End Window.

(** ** Properties *)

(** C13. The window gate, exactly.  Whatever failures, successes and cleanups of
    whatever providers and connections happened, in the order of time, a whole provider
    is in cooldown precisely when the history since its last success holds enough
    failures in the window that ends now and the last of them is less than the cooldown
    ago: pruning, the cap on samples and the forgetting of idle entries are invisible.
    This holds for a tracked provider with no colon in its name, a window of at most
    half an hour and a threshold of 1 to 200; a larger threshold is never reached. *)
Theorem provider_window_exact E p es st now :
  occurs ":" p = false -> skipped p = false ->
  0 <= providerFailureWindowMs (windowProfile E p) <= DEFAULT_ENTRY_RETENTION_MS ->
  1 <= providerFailureThreshold (windowProfile E p) <= Z.of_nat maxSamples ->
  StronglySorted Z.le (es.*1 ++ [now]) ->
  isProviderInCooldown E p None st now (run E es) = cooling E p (history p es) now.
Proof. intros Hc Hs HW HF Ht. apply tracks_cooling; auto. by apply tracks_run. Qed.

(** An environment with no variable set, where every provider takes a key. *)
Definition plainEnvironment : Environment :=
  mkEnvironment (fun _ fallback => fallback) (fun _ => AccountFallback.apikey) (mkCooldownSettings 5000 300000).

(** Failures of the whole provider [p], the first at [t], [step] apart. *)
Definition everySo (p : string) (t step : Z) (n : nat) : list (Z * Happening) :=
  (fun i => (t + step * Z.of_nat i, Failed p None None)) <$> seq 0 n.

Example provider_window_exact_witness :
  let es := [(1000, Failed "groq" (Some "a") None)] ++ everySo "groq" 2000 1000 15 ++ [(20000, Cleanup)] in
  isProviderInCooldown plainEnvironment "groq" None None 30000 (run plainEnvironment es) = cooling plainEnvironment "groq" (history "groq" es) 30000 /\
  cooling plainEnvironment "groq" (history "groq" es) 30000 = true.
Proof.
  split; [|by vm_compute]. apply provider_window_exact; try by vm_compute.
  vm_compute. repeat constructor; discriminate.
Defined.

(** The entry of a connection after failures in a row. *)
Lemma failures_in_a_row E p c i st ts t s :
  skipped p = false -> named c = Some i ->
  from_option failureCount 0 (mget (cooldownKey p c) (cooldownMap s)) = 0 ->
  exists e, mget (cooldownKey p c) (cooldownMap (foldl (happen E) s ((fun t => (t, Failed p c st)) <$> (ts ++ [t])))) = Some e /\
    lastFailureAt e = t /\ failureCount e = Z.of_nat (length ts) + 1.
Proof.
  intros Hs Hc H0. rewrite fmap_app, foldl_app. cbn [foldl fmap list_fmap].
  assert (Hn : from_option failureCount 0 (mget (cooldownKey p c) (cooldownMap (foldl (happen E) s ((fun t => (t, Failed p c st)) <$> ts)))) = Z.of_nat (length ts)).
  { clear t. induction ts as [|t ts IH] using rev_ind; [done|]. rewrite fmap_app, foldl_app. cbn [foldl fmap list_fmap happen snd fst].
    unfold recordProviderCooldown at 1. rewrite Hs. cbn. rewrite mget_mset_eq. cbn. rewrite length_app. cbn.
    revert IH. destruct (mget _ (cooldownMap (foldl _ _ _))); cbn; intros; lia. }
  cbn [happen fst snd]. unfold recordProviderCooldown at 1. rewrite Hs. cbn. rewrite mget_mset_eq. eexists. split; [done|].
  revert Hn. destruct (mget _ (cooldownMap (foldl _ _ _))); cbn; intros; split; lia.
Qed.

(** The rest of a connection doubles.  After [n + 1] failures in a row, the last at
    [t], a connection is in cooldown for the smallest wait doubled [n] times, ten at
    most, and never longer than the largest wait; the remaining time is what is left of
    it. *)
Theorem connection_backoff E p c i st ts t now s :
  skipped p = false -> named c = Some i ->
  from_option failureCount 0 (mget (cooldownKey p c) (cooldownMap s)) = 0 ->
  let S := settingsOf E st in
  let wait := Z.min (minRetryCooldownMs S * 2 ^ Z.min (Z.of_nat (length ts)) 10) (maxRetryCooldownMs S) in
  let s' := foldl (happen E) s ((fun t => (t, Failed p c st)) <$> (ts ++ [t])) in
  isProviderInCooldown E p c st now s' = (now - t <? wait) /\
  getRemainingCooldownMs E p c st now s' = Z.max 0 (wait - (now - t)).
Proof.
  intros Hs Hc H0 S wait s'. destruct (failures_in_a_row E p c i st ts t s Hs Hc H0) as (e & He & Hl & Hf).
  assert (Hw : scaledCooldownMs E st e = wait).
  { unfold scaledCooldownMs, wait. rewrite Hf. do 3 f_equal. lia. }
  unfold isProviderInCooldown, getRemainingCooldownMs. fold s' in He. rewrite Hs, He, Hc, Hw, Hl.
  rewrite (proj2 (Z.eqb_neq _ 0)) by lia. split; [done|]. case_if; blia.
Qed.

(** *** Where the answers and the comments part *)

(** After a success a connection is no longer in cooldown, yet the remaining time
    reported for it is still that of a first failure. *)
Theorem remaining_after_success E p c i st now e s :
  skipped p = false -> named c = Some i -> mget (cooldownKey p c) (cooldownMap s) = Some e ->
  let S := settingsOf E st in
  let wait := Z.min (minRetryCooldownMs S) (maxRetryCooldownMs S) in
  let s' := recordProviderSuccess p c s in
  isProviderInCooldown E p c st now s' = false /\
  getRemainingCooldownMs E p c st now s' = Z.max 0 (wait - (now - lastFailureAt e)).
Proof.
  intros Hs Hc He S wait s'. unfold isProviderInCooldown, getRemainingCooldownMs, s', recordProviderSuccess.
  rewrite Hs, He. cbn. rewrite mget_mset_eq, Hc. split; [done|].
  unfold scaledCooldownMs. cbn. rewrite Z.mul_1_r. fold S. fold wait. case_if; blia.
Qed.

Example remaining_after_success_witness :
  let s := recordProviderSuccess "groq" (Some "a") (run plainEnvironment [(1000, Failed "groq" (Some "a") None)]) in
  isProviderInCooldown plainEnvironment "groq" (Some "a") None 2000 s = false /\
  getRemainingCooldownMs plainEnvironment "groq" (Some "a") None 2000 s = Z.max 0 (5000 - 1000).
Proof. by apply (remaining_after_success plainEnvironment "groq" (Some "a") "a" None 2000 (mkEntry 1000 1 1800000 None)). Defined.

(** Fifteen failures two minutes apart put a provider in cooldown for ten minutes,
    says the gate at the last of them; two minutes later the first has left the window
    and the provider is back. *)
Theorem slow_failures_cut_cooldown :
  let s := run plainEnvironment (everySo "groq" 1000 120000 15) in
  let last := 1000 + 120000 * 14 in
  getRemainingCooldownMs plainEnvironment "groq" None None last s = 600000 /\
  isProviderInCooldown plainEnvironment "groq" None None (last + 120000) s = true /\
  isProviderInCooldown plainEnvironment "groq" None None (last + 120001) s = false.
Proof. by vm_compute. Qed.

(** A threshold above the cap on samples is never reached, however many failures. *)
Theorem large_threshold_never_cools E p st now s :
  Z.of_nat maxSamples < providerFailureThreshold (windowProfile E p) ->
  isProviderInCooldown E p None st now s = false.
Proof.
  intros HF. unfold isProviderInCooldown. case_if; [done|]. cbn [named cooldownKey].
  destruct (mget p (cooldownMap s)) as [e|]; [|done]. case_if; [done|]. unfold providerWindowCooldownMs. cbv zeta.
  rewrite (proj2 (Z.ltb_lt _ _)); [done|]. eapply Z.le_lt_trans; [|exact HF]. apply inj_le.
  rewrite pruneWindow_lastN. unfold lastN. rewrite length_drop. lia.
Qed.
