(* ===== verification/RetryDelays.v ===== *)
(** * Announced waits: [open-sse/services/retryAfterJson.ts] and the delays of
    [src/shared/utils/classify429.ts]

    Upstream services say how long to wait in many shapes: the duration of a
    google.rpc.RetryInfo detail, a reset instant in seconds, milliseconds or as a date,
    a number of milliseconds.  Here are the grammar of durations, which the two files
    share, the hints read out of a JSON body, and the one of a Retry-After header.
    Numbers are doubles, read with the rounding of the language.  JSON.parse and
    Date.parse are arguments. *)
From Stdlib Require Import String Ascii QArith.QArith_base.
From S2P Require Import Prelude JsMap JsNumber JsString ComboSteps.
#[local] Open Scope Z_scope.

(** ** Numbers in texts *)

(** [m / n], correctly rounded. *)
Definition ratio (m : Z) (n : positive) : double :=
  match m with
  | Z0 => dZero
  | Zpos p => dDiv (S754_finite false p 0) (S754_finite false n 0)
  | Zneg p => dDiv (S754_finite true p 0) (S754_finite false n 0)
  end.

Definition dOfQ (q : Q) : double := ratio (Qnum q) (Qden q).

(** [m * 10 ^ e], where [m] has at most [digits] digits; far beyond the range of doubles
    it is not computed. *)
Definition decimal (m e digits : Z) : double :=
  if m =? 0 then dZero
  else if 400 <? e then S754_infinity (m <? 0)
  else if e <? - (400 + digits) then dZero
  else if e <? 0 then ratio m (Z.to_pos (10 ^ (- e))) else ratio (m * 10 ^ e) 1.

(** [Number.parseFloat], [None] when the result is not finite. *)
Definition parseFloat (s : string) : option double :=
  let '(negative, s) := readSign (trimStart s) in
  let '(whole, n1, s) := readDigits 10 0 0 s in
  let '(m, n2, s) := match s with String "." s => readDigits 10 whole 0 s | _ => (whole, 0, s) end in
  if n1 + n2 =? 0 then None
  else
    let m := if negative then - m else m in
    let e :=
      match s with
      | String c s =>
          if Ascii.eqb (lowerAscii c) "e" then
            let '(negative, s) := readSign s in
            let '(e, n3, _) := readDigits 10 0 0 s in if n3 =? 0 then 0 else if negative then - e else e
          else 0
      | EmptyString => 0
      end in
    let f := decimal m (e - n2) (n1 + n2) in
    if dFinite f then Some f else None.

(** [Math.round]. *)
Definition dRound (f : double) : double :=
  match f with
  | S754_finite s m e =>
      let v := dSigned s m in
      if 0 <=? e then f else dOfZ (Z.shiftr (v + 2 ^ (- e - 1)) (- e))
  | f => f
  end.

(** ** The grammar of durations *)

(** [(\d+(?:\.\d+)?)] at the start of a text, with what follows it: neither white space
    nor a unit can be a part of the number, so the longest run is the one. *)
Definition eatDecimal (s : string) : option (double * string) :=
  let '(whole, n1, r) := readDigits 10 0 0 s in
  if n1 =? 0 then None
  else
    match r with
    | String "." r' =>
        let '(m, n2, r'') := readDigits 10 whole 0 r' in
        if n2 =? 0 then Some (decimal whole 0 n1, r) else Some (decimal m (- n2) (n1 + n2), r'')
    | _ => Some (decimal whole 0 n1, r)
    end.

(** [^(\d+(?:\.\d+)?)\s*unit$], case ignored. *)
Definition delayIn (unit s : string) : option double :=
  match eatDecimal s with
  | Some (f, r) => if String.eqb (toLowerCase (trimStart r)) unit then Some f else None
  | None => None
  end.

(** A value of [unknown] where a duration is expected: [String(value)] is searched for a
    unit only when it is a text; a number is its own text, a list is the texts of its
    members with commas, of which [parseFloat] reads the first. *)
Fixpoint bareNumber (v : json) : option double :=
  match v with
  | VStr s => parseFloat s
  | VNum (Fin q) => if dFinite (dOfQ q) then Some (dOfQ q) else None
  | VArr (x :: _) => bareNumber x
  | _ => None
  end.

(** The text of the value, when it can be one with a unit. *)
Fixpoint unitText (v : json) : string :=
  match v with VStr s => trim s | VArr [x] => unitText x | _ => EmptyString end.

(** [!value]. *)
Definition falsy (v : option json) : bool :=
  match v with
  | None | Some VNull | Some (VBool false) => true
  | Some (VNum (Fin q)) => match dOfQ q with S754_zero _ => true | _ => false end
  | Some (VStr s) => isEmpty s
  | _ => false
  end.

Section Grammar.
(** What becomes of the number before each unit, and of a bare number. *)
Context (ofMs ofSeconds ofMinutes ofHours ofBare : double -> double).

Definition parseDelay (value : option json) : option double :=
  match value with
  | Some v =>
      if falsy value then None
      else
        let s := unitText v in
        match delayIn "ms" s, delayIn "s" s, delayIn "m" s, delayIn "h" s with
        | Some f, _, _, _ => Some (ofMs f)
        | None, Some f, _, _ => Some (ofSeconds f)
        | None, None, Some f, _ => Some (ofMinutes f)
        | None, None, None, Some f => Some (ofHours f)
        | None, None, None, None => ofBare <$> bareNumber v
        end
  | None => None
  end.
End Grammar.

(** [classify429.ts]: seconds. *)
Definition parseDelaySeconds : option json -> option double :=
  parseDelay (fun f => dDiv f (dOfZ 1000)) (fun f => f) (fun f => dMul f (dOfZ 60)) (fun f => dMul f (dOfZ 3600)) (fun f => f).

(** [retryAfterJson.ts]: milliseconds. *)
Definition parseDelayString : option json -> option double :=
  parseDelay dRound
    (fun f => dRound (dMul f (dOfZ 1000)))
    (fun f => dRound (dMul (dMul f (dOfZ 60)) (dOfZ 1000)))
    (fun f => dRound (dMul (dMul f (dOfZ 3600)) (dOfZ 1000)))
    (fun f => dRound (dMul f (dOfZ 1000))).

(** ** Hints in a JSON body *)

Inductive Provenance := google_rpc_retry_info | fromBody.
Record DetailedJsonRetryHint := mkJsonHint { hintMs : double; provenance : Provenance }.

Definition MAX_SHORT_RETRY_HINT_MS : Z := 24 * 60 * 60 * 1000.

(** [objectRecord(v)], read only through [field]: a value that is no object has none. *)
Definition nullishJson (a b : option json) : option json := match a with None | Some VNull => b | _ => a end.

(** [String(v).includes(part)], for a part with no comma and a value that is no number. *)
Fixpoint textIncludes (part : string) (v : json) : bool :=
  match v with VStr s => includes s part | VArr l => existsb (textIncludes part) l | _ => false end.

Definition positiveCappedMs (value : option json) (maxMs : double) : option double :=
  match value with
  | Some (VNum (Fin q)) => let f := dOfQ q in if dFinite f && dLt dZero f then Some (dMin f maxMs) else None
  | _ => None
  end.

Definition waitUntil (f maxMs now : double) : option double :=
  let waitMs := dSub f now in if dLt dZero waitMs then Some (dMin waitMs maxMs) else None.

(** [/^\d+(?:\.\d+)?$/.test]. *)
Definition isDecimalText (s : string) : bool := match eatDecimal s with Some (_, EmptyString) => true | _ => false end.

Section Body.
(** [JSON.parse], and [Date.parse] where it gives a time. *)
Context (parseJson : string -> option json) (parseDate : string -> option Z).

Definition futureTimestampMs (value : option json) (maxMs now : double) : option double :=
  match value with
  | Some (VStr s) => match parseDate s with Some ts => waitUntil (dOfZ ts) maxMs now | None => None end
  | _ => None
  end.

Definition resetAtNumber (f maxMs now : double) : option double :=
  if dFinite f && dLt dZero f then waitUntil (if dLt f (dOfZ 1000000000000) then dMul f (dOfZ 1000) else f) maxMs now else None.

Definition futureResetAtMs (value : option json) (maxMs now : double) : option double :=
  match value with
  | Some (VNum (Fin q)) => resetAtNumber (dOfQ q) maxMs now
  | Some (VStr s) =>
      if isDecimalText (trim s)
      then match numberOfString s with Fin q => resetAtNumber (dOfQ q) maxMs now | NonFinite => None end
      else futureTimestampMs value maxMs now
  | _ => None
  end.

Fixpoint retryInfoDetailsMs (details : list json) : option double :=
  match details with
  | [] => None
  | d :: ds =>
      if textIncludes "RetryInfo" (orElse (field "@type" d) VNull) then
        match parseDelayString (field "retryDelay" d) with
        | Some ms => if dLt dZero ms then Some (dMin ms (dOfZ MAX_SHORT_RETRY_HINT_MS)) else retryInfoDetailsMs ds
        | None => retryInfoDetailsMs ds
        end
      else retryInfoDetailsMs ds
  end.

Definition listOf (v : option json) : list json := match v with Some (VArr l) => l | _ => [] end.

Definition parseDetailedRetryHintFromJsonBody (body : string) (maxMs now : double) : option DetailedJsonRetryHint :=
  match parseJson body with
  | Some (VObj (f :: fs)) =>
      let root := VObj (f :: fs) in
      let errorObj := orElse (field "error" root) VNull in
      let either k := nullishJson (field k errorObj) (field k root) in
      match retryInfoDetailsMs (listOf (either "details"%string)) with
      | Some ms => Some (mkJsonHint ms google_rpc_retry_info)
      | None =>
          match futureResetAtMs (nullishJson (either "resets_at"%string) (either "resetsAt"%string)) maxMs now with
          | Some ms => Some (mkJsonHint ms fromBody)
          | None =>
              match futureTimestampMs (either "retryAfter"%string) maxMs now with
              | Some ms => Some (mkJsonHint ms fromBody)
              | None =>
                  (fun ms => mkJsonHint ms fromBody) <$>
                    positiveCappedMs (nullishJson (either "retry_after_ms"%string) (either "retryAfterMs"%string)) maxMs
              end
          end
      end
  | _ => None
  end.

Definition parseRetryHintFromJsonBody (body : string) (maxMs now : double) : option double :=
  hintMs <$> parseDetailedRetryHintFromJsonBody body maxMs now.
End Body.

(** ** Properties *)

Lemma dLt_irrefl f : dLt f f = false.
Proof.
  unfold dLt, SFltb. destruct f as [[]|[]| |[] m e]; try done; cbn; by rewrite Z.compare_refl, Pcompare_refl.
Qed.

(** A wait is positive and at most [cap]. *)
Definition boundedBy (cap f : double) : Prop := dLt dZero f = true /\ dLt cap f = false.

Lemma dMin_bounded f cap : dLt dZero cap = true -> dLt dZero f = true -> boundedBy cap (dMin f cap).
Proof. intros Hc Hf. unfold boundedBy, dMin. destruct (dLt cap f) eqn:E; [by rewrite dLt_irrefl|done]. Qed.

Lemma waitUntil_bounded f cap now ms : dLt dZero cap = true -> waitUntil f cap now = Some ms -> boundedBy cap ms.
Proof. intros Hc. unfold waitUntil. case_if; [|done]. intros [= <-]. by apply dMin_bounded. Qed.

Lemma futureTimestampMs_bounded pd v cap now ms :
  dLt dZero cap = true -> futureTimestampMs pd v cap now = Some ms -> boundedBy cap ms.
Proof. intros Hc. unfold futureTimestampMs. repeat case_match; try done. by apply waitUntil_bounded. Qed.

Lemma resetAtNumber_bounded f cap now ms : dLt dZero cap = true -> resetAtNumber f cap now = Some ms -> boundedBy cap ms.
Proof. intros Hc. unfold resetAtNumber. case_if; [|done]. by apply waitUntil_bounded. Qed.

Lemma futureResetAtMs_bounded pd v cap now ms :
  dLt dZero cap = true -> futureResetAtMs pd v cap now = Some ms -> boundedBy cap ms.
Proof.
  intros Hc. unfold futureResetAtMs. repeat case_match; try done; eauto using resetAtNumber_bounded, futureTimestampMs_bounded.
Qed.

Lemma retryInfo_bounded l ms : retryInfoDetailsMs l = Some ms -> boundedBy (dOfZ MAX_SHORT_RETRY_HINT_MS) ms.
Proof.
  induction l as [|d l IH]; [done|]. cbn [retryInfoDetailsMs]. repeat case_match; try done; auto.
  intros [= <-]. by apply dMin_bounded.
Qed.

Lemma positiveCapped_bounded v cap ms : dLt dZero cap = true -> positiveCappedMs v cap = Some ms -> boundedBy cap ms.
Proof.
  intros Hc. unfold positiveCappedMs. destruct v as [[| |[q|]| | |]|]; try done. cbv zeta. case_if; [|done].
  intros [= <-]. to_prop. by apply dMin_bounded.
Qed.

(** Every wait read out of an error body is positive and capped: one announced by a
    RetryInfo detail by a day, whatever cap the caller allows, any other by the caller's
    cap; a malformed or hostile body cannot make an account rest longer. *)
Theorem retry_hint_bounded parseJson parseDate body maxMs now h :
  dLt dZero maxMs = true -> parseDetailedRetryHintFromJsonBody parseJson parseDate body maxMs now = Some h ->
  boundedBy (match provenance h with google_rpc_retry_info => dOfZ MAX_SHORT_RETRY_HINT_MS | fromBody => maxMs end) (hintMs h).
Proof.
  intros Hm. unfold parseDetailedRetryHintFromJsonBody. destruct (parseJson body) as [v|]; [|done].
  destruct v as [| | | | |[|kv fs]]; try done. cbv zeta.
  destruct (retryInfoDetailsMs _) as [ms|] eqn:E1; [intros [= <-]; by eapply retryInfo_bounded|].
  destruct (futureResetAtMs _ _ _ _) as [ms|] eqn:E2; [intros [= <-]; by eapply futureResetAtMs_bounded|].
  destruct (futureTimestampMs _ _ _ _) as [ms|] eqn:E3; [intros [= <-]; by eapply futureTimestampMs_bounded|].
  destruct (positiveCappedMs _ _) as [ms|] eqn:E4; [|done]. intros [= <-]. by eapply positiveCapped_bounded.
Qed.

Definition retryInfoBody (delay : string) : json :=
  VObj [("error", VObj [("details", VArr [VObj [("@type", VStr "type.googleapis.com/google.rpc.RetryInfo"); ("retryDelay", VStr delay)]])])]%string.

Example retry_hint_bounded_witness :
  boundedBy (dOfZ 86400000) (dOfZ 86400000) /\
  parseDetailedRetryHintFromJsonBody (fun s => Some (retryInfoBody s)) (fun _ => None) "160h" (dOfZ 2592000000) dZero = Some (mkJsonHint (dOfZ 86400000) google_rpc_retry_info).
Proof.
  split; [|by vm_compute].
  by apply (retry_hint_bounded (fun s => Some (retryInfoBody s)) (fun _ => None) "160h" (dOfZ 2592000000) dZero (mkJsonHint (dOfZ 86400000) google_rpc_retry_info)).
Defined.

(** A duration is read by one of the files exactly when it is by the other. *)
Theorem delays_in_step v : parseDelaySeconds v = None <-> parseDelayString v = None.
Proof.
  unfold parseDelaySeconds, parseDelayString, parseDelay. destruct v as [v|]; [|done]. case_if; [done|].
  repeat case_match; try done. by destruct (bareNumber v).
Qed.

(** A duration of several units is read as the number of seconds of its first number. *)
Theorem compound_delay_misread :
  parseDelaySeconds (Some (VStr "2h30m")) = Some (dOfZ 2) /\ parseDelayString (Some (VStr "164h27m24s")) = Some (dOfZ 164000).
Proof. by vm_compute. Qed.
