(* ===== verification/Classify429.v ===== *)
(** * Rate limit or quota: [src/shared/utils/classify429.ts]

    A 429 means a short throttle or a spent quota; the circuit breaker rests a minute for
    one and an hour for the other.  [classify429] tells them apart by the texts of the
    body and the window the upstream declares, [classify429FromError] reads the status
    and the body off whatever an HTTP client threw.  An error is a JSON value; headers
    are collected by the code and not used, so they are left out.  JSON.parse,
    JSON.stringify and Date.parse are arguments. *)
From Stdlib Require Import String Ascii QArith.QArith_base.
From S2P Require Import Prelude JsMap JsNumber JsString Patterns ComboSteps ErrorRules ErrorTexts RetryDelays.
From S2P Require CircuitBreaker.
#[local] Open Scope Z_scope.

Abbreviation FailureKind := CircuitBreaker.FailureKind.
Abbreviation rate_limit := CircuitBreaker.rate_limit.
Abbreviation quota_exhausted := CircuitBreaker.quota_exhausted.
Abbreviation transient := CircuitBreaker.transient.

Definition QUOTA_SCALE_RETRY_DELAY_SECONDS : Z := 3600.

Definition TERMINAL_QUOTA_PATTERNS : list string := [
  "INSUFFICIENT_G1_CREDITS_BALANCE";
  "credit.*exhaust";
  "exhausted.*credits";
  "exhausted all your credits";
  "have exhausted all your credits";
  "out of credits";
  "billing.*cap";
  "insufficient.*quota";
  "individual quota reached";
  "enable overages";
  "daily free allocation";
  "organization TPD rate limit";
  "\bTPD rate limit\b";
  "insufficient balance"
]%string.

(** ** The declared window *)

(** [/please retry in (\d+(?:\.\d+)?)\s*s/i] at the start of a text in lower case. *)
Definition phraseHere (s : string) : option double :=
  r ← eat "please retry in " s; '(f, r) ← eatDecimal r;
  match trimStart r with String "s" _ => Some f | _ => None end.

Fixpoint phraseIn (s : string) : option double :=
  match phraseHere s with
  | Some f => Some f
  | None => match s with EmptyString => None | String _ s => phraseIn s end
  end.

Definition retryPhrase (s : string) : option double := phraseIn (toLowerCase s).

Fixpoint retryInfoSeconds (details : list json) : option double :=
  match details with
  | [] => None
  | d :: ds =>
      if textIncludes "RetryInfo" (orElse (field "@type" d) VNull) then
        match parseDelaySeconds (field "retryDelay" d) with
        | Some f => if dLe dZero f then Some f else retryInfoSeconds ds
        | None => retryInfoSeconds ds
        end
      else retryInfoSeconds ds
  end.

(** Of a body that is no text: a value that is no object has no fields. *)
Definition structuredDelay (root : json) : option double :=
  let errorRecord := orElse (field "error" root) VNull in
  match retryInfoSeconds (listOf (nullishJson (field "details" errorRecord) (field "details" root))) with
  | Some f => Some f
  | None => match field "message" errorRecord with Some (VStr m) => retryPhrase m | _ => None end
  end.

Section Classify.
Context (parseJson : string -> option json) (stringify : json -> string) (parseDate : string -> option Z).

Definition upstreamRetryDelaySeconds (body : option json) : option double :=
  match body with
  | Some (VStr s) =>
      match retryPhrase s with
      | Some f => Some f
      | None => match parseJson s with Some root => structuredDelay root | None => None end
      end
  | Some root => structuredDelay root
  | None => None
  end.

Definition bodyToText (body : option json) : string :=
  match body with
  | Some (VStr s) => s
  | None | Some VNull => EmptyString
  | Some v => stringify v
  end.

Definition looksLikeQuotaExhausted (body : option json) : bool := ErrorTexts.looksLikeQuotaExhausted (bodyToText body).

Definition isTerminalQuota (body : option json) : bool :=
  let text := bodyToText body in negb (isEmpty text) && anyMatchI TERMINAL_QUOTA_PATTERNS text.

(** A number that is not finite is not below 400 and not 429. *)
Definition below400 (status : jsnum) : bool := match status with Fin q => negb (Qle_bool (inject_Z 400) q) | NonFinite => false end.
Definition is429 (status : jsnum) : bool := match status with Fin q => Qeq_bool q (inject_Z 429) | NonFinite => false end.

(** The upstream says the throttle clears within the hour. *)
Definition shortWindow (body : option json) : bool :=
  match upstreamRetryDelaySeconds body with
  | Some declaredDelay => dLt declaredDelay (dOfZ QUOTA_SCALE_RETRY_DELAY_SECONDS)
  | None => false
  end.

Definition classify429 (status : jsnum) (body : option json) : FailureKind :=
  if below400 status then transient
  else if isTerminalQuota body then quota_exhausted
  else if negb (is429 status) then transient
  else if shortWindow body then rate_limit
  else if looksLikeQuotaExhausted body then quota_exhausted
  else rate_limit.

(** ** Errors of HTTP clients *)

Definition numberField (k : string) (v : json) : option jsnum := match field k v with Some (VNum n) => Some n | _ => None end.

(** [e.response] when it is an object. *)
Definition responseOf (e : json) : json := orElse (field "response" e) VNull.

Definition errorStatus (e : json) : option jsnum :=
  orOpt (numberField "status" e) (orOpt (numberField "statusCode" e) (numberField "status" (responseOf e))).

Definition errorBody (e : json) : option json :=
  orOpt (orOpt (field "data" (responseOf e)) (field "body" (responseOf e)))
    (orOpt (field "body" e)
      (orOpt (field "error" e) (match field "message" e with Some (VStr m) => Some (VStr m) | _ => None end))).

Definition classify429FromError (err : json) : option FailureKind :=
  match errorStatus err with
  | Some status => Some (classify429 status (errorBody err))
  | None => None
  end.

(** ** The Retry-After header, in seconds *)

(** [/^\d+$/] and [/^(\d+)([smh])$/i]; a number too large to be finite is none. *)
Definition wholeNumber (s : string) : option (Z * string) :=
  let '(n, digits, r) := readDigits 10 0 0 s in if (digits =? 0) || negb (dFinite (dOfZ n)) then None else Some (n, r).

Definition parseRetryAfter (headerValue : option string) (now : Z) : option Z :=
  match headerValue with
  | Some v =>
      let trimmed := trim v in
      if isEmpty v || isEmpty trimmed then None
      else
        let byDate := match parseDate trimmed with Some ts => Some (Z.max 0 ((ts - now) / 1000)) | None => None end in
        match wholeNumber trimmed with
        | Some (n, EmptyString) => Some n
        | Some (n, String c EmptyString) =>
            match lowerAscii c with
            | "s"%char => Some n
            | "m"%char => Some (n * 60)
            | "h"%char => Some (n * 3600)
            | _ => byDate
            end
        | Some _ => byDate
        | None => let '(_, digits, r) := readDigits 10 0 0 trimmed in if (0 <? digits) && isEmpty r then None else byDate
        end
  | None => None
  end.

(** The first header of that name, whatever its case. *)
Definition getHeader (headers : jsmap string string) (name : string) : option string :=
  snd <$> List.find (fun kv => String.eqb (toLowerCase kv.1) (toLowerCase name)) headers.

Definition retryAfterFromResponse (headers : jsmap string string) (now : Z) : option Z :=
  parseRetryAfter (getHeader headers "retry-after") now.

(** ** Properties *)

(** What a failure is called.  A 429 whose upstream declares a window below the hour
    is a rate limit whatever words of quota the text holds, unless a text of credits or
    billing is there, which makes any error from 400 on a spent quota; without either,
    words of quota decide a 429, and an error of another status is transient. *)
Theorem classify429_decides status body :
  (classify429 status body = quota_exhausted <->
     below400 status = false /\
     (isTerminalQuota body = true \/ is429 status = true /\ shortWindow body = false /\ looksLikeQuotaExhausted body = true)) /\
  (classify429 status body = rate_limit <->
     below400 status = false /\ is429 status = true /\ isTerminalQuota body = false /\
     (shortWindow body = true \/ looksLikeQuotaExhausted body = false)).
Proof.
  unfold classify429.
  destruct (below400 status), (isTerminalQuota body), (is429 status), (shortWindow body), (looksLikeQuotaExhausted body);
    cbn; repeat split; intros; try discriminate; intuition discriminate.
Qed.

End Classify.

(** The comment on the decision order says every status but 429 is transient; a text of
    billing is a spent quota for a 402 too. *)
Theorem other_status_exhausted parseJson stringify :
  classify429 parseJson stringify (Fin 402) (Some (VStr "Insufficient balance")) = quota_exhausted.
Proof. by vm_compute. Qed.

(** The free-tier throttle of Gemini, which speaks of quota, is a rate limit, and the
    same text without its window is not. *)
Example gemini_throttle :
  let classify text := classify429 (fun _ => None) (fun _ => EmptyString) (Fin 429) (Some (VStr text)) in
  classify "You exceeded your current quota. Please retry in 38.922534355s."%string = rate_limit /\
  classify "You exceeded your current quota."%string = quota_exhausted.
Proof. by vm_compute. Qed.
