(* ===== verification/ProviderBreakers.v ===== *)
(** * Breakers of providers and connections: [open-sse/services/accountFallback.ts]

    The wrappers through which requests feed the circuit breakers: a failure of a
    connection goes to the breaker of that connection, a network error to the one of the
    provider, each counted once in a while; a success closes what was on probation and
    resets the cooldown tracker.  They compose [CircuitBreaker] (the registry),
    [ProviderCooldown] (the tracker) and [Classify429] (the classifier the breakers are
    given), with [connectionCircuitBreaker.ts] (names) and
    [src/shared/utils/providerHints.ts] (whose 429 texts are trusted).

    The state is the registry, the two maps that remember recent failures, the tracker
    and the warnings logged.  [Date.now()] is the argument [now], one reading per call. *)
From Stdlib Require Import String Ascii.
From S2P Require Import Prelude JsMap JsString ErrorTexts ProviderRules ComboSteps CircuitBreaker.
From S2P Require ProviderCooldown Classify429.
#[local] Open Scope Z_scope.

(** ** Names: [connectionCircuitBreaker.ts] *)

Definition connectionCircuitBreakerName (provider connectionId : string) : string := provider +:+ "::conn::" +:+ connectionId.

Definition failureCircuitBreakerName (provider : string) (connectionId : option string) (isNetworkError : bool) : string :=
  match named connectionId with
  | Some c => if isNetworkError then provider else connectionCircuitBreakerName provider c
  | None => provider
  end.

(** ** Whose hints are trusted: [providerHints.ts] *)

Definition UPSTREAM_PROXY_PROVIDERS : list string := ["cliproxyapi"; "9router"]%string.
Definition SELF_HOSTED_CHAT_PROVIDER_IDS : list string :=
  ["mlx-gemma"; "mlx-qwen"; "ollama-local"; "lm-studio"; "vllm"; "lemonade"; "llamafile"; "llama-cpp"; "triton";
   "docker-model-runner"; "xinference"; "oobabooga"]%string.
Definition LOCAL_PROVIDERS : list string :=
  ["mlx-gemma"; "mlx-qwen"; "ollama-local"; "lm-studio"; "vllm"; "lemonade"; "llamafile"; "llama-cpp"; "triton";
   "docker-model-runner"; "xinference"; "oobabooga"; "sdwebui"; "comfyui"; "selfhosted-embedding"]%string.
Definition CLAUDE_CODE_COMPATIBLE_PREFIX : string := "anthropic-compatible-cc-".

Definition isLocalProvider (providerId : string) : bool := isOneOf providerId LOCAL_PROVIDERS.
Definition isClaudeCodeCompatibleProvider (providerId : string) : bool := String.prefix CLAUDE_CODE_COMPATIBLE_PREFIX providerId.

Definition defaultUseUpstream429BreakerHints (providerId : string) : bool :=
  if isOneOf providerId UPSTREAM_PROXY_PROVIDERS then false
  else if isLocalProvider providerId then false
  else if isOneOf providerId SELF_HOSTED_CHAT_PROVIDER_IDS then false
  else if isClaudeCodeCompatibleProvider providerId then false
  else true.

Definition resolveUseUpstream429BreakerHints (providerId : string) (userValue : option bool) : bool :=
  match userValue with Some b => b | None => defaultUseUpstream429BreakerHints providerId end.

(** ** Profiles *)

(** The fields of a profile that the breakers read. *)
Record BreakerFields := mkFields {
  pFailureThreshold : option Z;
  pResetTimeoutMs : option Z;
  pCircuitBreakerThreshold : option Z;
  pCircuitBreakerReset : option Z;
  pDegradationThreshold : option Z;
  pMaxBackoffMultiplier : option Z;
  pBackoffEscalationCount : option Z;
  pUseUpstream429BreakerHints : option bool;
}.

(** A profile given by a caller: a field is absent, or present, perhaps as undefined. *)
Record ProviderBreakerProfile := mkGiven {
  gFailureThreshold : option (option Z);
  gResetTimeoutMs : option (option Z);
  gCircuitBreakerThreshold : option (option Z);
  gCircuitBreakerReset : option (option Z);
  gDegradationThreshold : option (option Z);
  gMaxBackoffMultiplier : option (option Z);
  gBackoffEscalationCount : option (option Z);
  gUseUpstream429BreakerHints : option (option bool);
}.

Definition PROVIDER_FAILURE_ERROR_CODES : list Z := [408; 429; 500; 502; 503; 504].
Definition isProviderFailureCode (status : Z) : bool := existsb (Z.eqb status) PROVIDER_FAILURE_ERROR_CODES.

Definition CONNECTION_FAILURE_DEDUP_MS : Z := 5000.
Definition MAX_CONNECTION_FAILURE_DEDUP_ENTRIES : nat := 100 * 100.
Definition NETWORK_ERROR_DEDUP_MS : Z := 10000.
Definition MAX_NETWORK_ERROR_DEDUP_ENTRIES : nat := 1000.

(** [{ ...base, ...profile }]. *)
Definition spread (base : BreakerFields) (profile : option ProviderBreakerProfile) : BreakerFields :=
  match profile with
  | None => base
  | Some g =>
      mkFields (orElse (gFailureThreshold g) (pFailureThreshold base))
        (orElse (gResetTimeoutMs g) (pResetTimeoutMs base))
        (orElse (gCircuitBreakerThreshold g) (pCircuitBreakerThreshold base))
        (orElse (gCircuitBreakerReset g) (pCircuitBreakerReset base))
        (orElse (gDegradationThreshold g) (pDegradationThreshold base))
        (orElse (gMaxBackoffMultiplier g) (pMaxBackoffMultiplier base))
        (orElse (gBackoffEscalationCount g) (pBackoffEscalationCount base))
        (orElse (gUseUpstream429BreakerHints g) (pUseUpstream429BreakerHints base))
  end.

(** ** State *)

Abbreviation Breaker := (CircuitBreaker json).

Record Providers := mkProviders {
  breakers : Registry json;
  lastConnectionFailure : jsmap string Z;
  lastNetworkErrorByProvider : jsmap string Z;
  tracker : ProviderCooldown.Tracker;
  warnings : list string;
}.
#[export] Instance Providers_eta : Eta Providers := fun s =>
  mkProviders (breakers s) (lastConnectionFailure s) (lastNetworkErrorByProvider s) (tracker s) (warnings s).

(** Deleting the oldest entries until at most [n] are left. *)
Fixpoint pruneOldest {V} (n : nat) (m : jsmap string V) : jsmap string V :=
  match m with
  | [] => []
  | _ :: m' => if (length m <=? n)%nat then m else pruneOldest n m'
  end.

(** [delete] and [set]: the entry becomes the newest; then the map is pruned. *)
Definition stamp (n : nat) (key : string) (now : Z) (m : jsmap string Z) : jsmap string Z :=
  pruneOldest n (mset key now (mdel key m)).

(** The key has a stamp that is not older than [ms]. *)
Definition recent (key : string) (now ms : Z) (m : jsmap string Z) : bool :=
  match mget key m with Some t => negb (t =? 0) && (now - t <? ms) | None => false end.

Definition dedupKey (provider connectionId : string) : string := provider +:+ ":" +:+ connectionId.

(** Running an operation on the breaker of a name, which is in the registry, or on an
    object that has left it: [held] is the object as it was got. *)
Definition useBreaker {A} (name : string) (held : Breaker) (f : Cell json -> Cell json * A) (r : Registry json) : Registry json * A :=
  match mget name (reg r) with
  | Some b => let '(c, a) := f (mkCell b (rworld r)) in (mkRegistry (mset name (brk c) (reg r)) (wld c), a)
  | None => let '(c, a) := f (mkCell held (rworld r)) in (mkRegistry (reg r) (wld c), a)
  end.

Definition only (f : Cell json -> Cell json) : Cell json -> Cell json * unit := fun c => (f c, tt).

(** The object that [getCircuitBreaker] returns. *)
Definition got (name : string) (r : Registry json) : Breaker :=
  match mget name (reg r) with Some b => b | None => newCircuitBreaker name noOptions (rworld r) end.

Section Operations.
Context (E : ProviderCooldown.Environment) (parseJson : string -> option json) (stringify : json -> string).

(** [buildProviderProfile] without settings, of the provider's category. *)
Definition getProviderProfile (provider : string) : BreakerFields :=
  let p := ProviderCooldown.PROVIDER_PROFILES (ProviderCooldown.envInt E) (ProviderCooldown.categoryOf E provider) in
  mkFields (Some (ProviderCooldown.circuitBreakerThreshold p)) (Some (ProviderCooldown.circuitBreakerReset p))
    (Some (ProviderCooldown.circuitBreakerThreshold p)) (Some (ProviderCooldown.circuitBreakerReset p))
    (Some (ProviderCooldown.degradationThreshold p)) (Some (ProviderCooldown.maxBackoffMultiplier p))
    (Some (ProviderCooldown.backoffEscalationCount p)) None.

Definition breakerOptions (provider : string) (profile : option ProviderBreakerProfile) : CircuitBreakerOptions json :=
  let p := spread (getProviderProfile provider) profile in
  let useHints := resolveUseUpstream429BreakerHints provider (pUseUpstream429BreakerHints p) in
  mkOptions
    (match pFailureThreshold p with Some n => Some n | None => pCircuitBreakerThreshold p end)
    (match pResetTimeoutMs p with Some n => Some n | None => pCircuitBreakerReset p end)
    None false None
    (if useHints then Some [(rate_limit, 60000); (quota_exhausted, 3600000)] else None)
    (if useHints then Some (fun err => Returned (Classify429.classify429FromError parseJson stringify err)) else None)
    None
    (pDegradationThreshold p) (pMaxBackoffMultiplier p) (pBackoffEscalationCount p).

Definition configureProviderBreaker (now : Z) (provider : string) (profile : option ProviderBreakerProfile) (breakerName : string)
    (r : Registry json) : Registry json :=
  getCircuitBreaker now (if isEmpty breakerName then provider else breakerName) (Some (breakerOptions provider profile)) r.

Definition getProviderBreaker (now : Z) (provider : string) (r : Registry json) : Registry json := getCircuitBreaker now provider None r.

(** [getCircuitBreaker(name)] followed by one operation on what it returns. *)
Definition visit {A} (now : Z) (name : string) (f : Cell json -> Cell json * A) (r : Registry json) : Registry json * A :=
  let r := getProviderBreaker now name r in useBreaker name (got name r) f r.

Definition isProviderInCooldown (now : Z) (provider connectionId : option string) (s : Providers) : Providers * bool :=
  match named provider with
  | None => (s, false)
  | Some p =>
      let '(r, can) := visit now p (canExecute now) (breakers s) in
      if negb can then (s <| breakers := r |>, true)
      else
        match named connectionId with
        | None => (s <| breakers := r |>, false)
        | Some c =>
            let '(r, can) := visit now (connectionCircuitBreakerName p c) (canExecute now) r in
            (s <| breakers := r |>, negb can)
        end
  end.

Definition getProviderCooldownRemainingMs (now : Z) (provider : option string) (s : Providers) : Providers * option Z :=
  match named provider with
  | None => (s, None)
  | Some p =>
      let '(r, can) := visit now p (canExecute now) (breakers s) in
      if can then (s <| breakers := r |>, None)
      else
        let '(r, remaining) := useBreaker p (got p r) (getRetryAfterMs now) r in
        (s <| breakers := r |>, if remaining >? 0 then Some remaining else None)
  end.

Definition getProviderBreakerState (now : Z) (provider : option string) (s : Providers) : Providers * option CircuitBreakerStatus :=
  match named provider with
  | None => (s, None)
  | Some p => let '(r, st) := visit now p (getStatus now) (breakers s) in (s <| breakers := r |>, Some st)
  end.

(** The network part: [None] when the error is one already counted. *)
Definition networkStep (now : Z) (p : string) (isNetworkError : bool) (s : Providers) : option Providers :=
  if isNetworkError then
    if recent p now NETWORK_ERROR_DEDUP_MS (lastNetworkErrorByProvider s) then None
    else Some (s <| lastNetworkErrorByProvider := stamp MAX_NETWORK_ERROR_DEDUP_ENTRIES p now (lastNetworkErrorByProvider s) |>)
  else Some s.

Definition connectionStep (now : Z) (p : string) (connectionId : option string) (s : Providers) : option Providers :=
  match named connectionId with
  | Some c =>
      if recent (dedupKey p c) now CONNECTION_FAILURE_DEDUP_MS (lastConnectionFailure s) then None
      else Some (s <| lastConnectionFailure := stamp MAX_CONNECTION_FAILURE_DEDUP_ENTRIES (dedupKey p c) now (lastConnectionFailure s) |>)
  | None => Some s
  end.

(** What [recordProviderFailure] does to the breaker it found, and whether it warns. *)
Definition failBreaker (now : Z) (c : Cell json) : Cell json * bool :=
  let '(c, can) := canExecute now c in
  if negb can then (c, false)
  else let '(c, can) := canExecute now (onFailure now None c) in (c, negb can).

Definition countStep (now : Z) (p : string) (connectionId : option string) (profile : option ProviderBreakerProfile)
    (isNetworkError : bool) (s : Providers) : Providers :=
  let name := failureCircuitBreakerName p connectionId isNetworkError in
  let r := configureProviderBreaker now p profile name (breakers s) in
  let '(r, warned) := useBreaker name (got name r) (failBreaker now) r in
  let s := s <| breakers := r |> in
  if warned then s <| warnings := p :: warnings s |> else s.

Definition recordProviderFailure (now : Z) (provider connectionId : option string) (profile : option ProviderBreakerProfile)
    (isQueueTimeout isNetworkError : bool) (s : Providers) : Providers :=
  match named provider with
  | None => s
  | Some p =>
      if isQueueTimeout then s
      else
        match networkStep now p isNetworkError s with
        | None => s
        | Some s =>
            match connectionStep now p connectionId s with
            | None => s
            | Some s => countStep now p connectionId profile isNetworkError s
            end
        end
  end.

Definition successName (p : string) (connectionId : option string) : string :=
  match named connectionId with Some c => connectionCircuitBreakerName p c | None => p end.

(** The provider's breaker, when the success was one of a connection. *)
Definition parentSuccess (now : Z) (p : string) (r : Registry json) : Registry json :=
  let '(r, st) := visit now p (getStatus now) r in
  if bool_decide (st_state st = OPEN) then r else (useBreaker p (got p r) (only (onSuccess now)) r).1.

Definition recordProviderSuccess (now : Z) (provider connectionId : option string) (s : Providers) : Providers :=
  match named provider with
  | None => s
  | Some p =>
      if String.eqb p "unknown" then s
      else
        let name := successName p connectionId in
        let '(r, st) := visit now name (getStatus now) (breakers s) in
        let held := got name r in
        let s := s <| breakers := r |> in
        if bool_decide (st_state st = OPEN) then s
        else
          let s := s <| tracker := ProviderCooldown.recordProviderSuccess p connectionId (tracker s) |> in
          let s :=
            match named connectionId with
            | Some c =>
                s <| lastConnectionFailure := mdel (dedupKey p c) (lastConnectionFailure s) |>
                  <| breakers := parentSuccess now p (breakers s) |>
            | None => s
            end in
          s <| breakers := (useBreaker name held (only (onSuccess now)) (breakers s)).1 |>
  end.

Definition clearProviderFailure (now : Z) (provider : option string) (s : Providers) : Providers :=
  match named provider with
  | None => s
  | Some p => s <| breakers := (visit now p (only (reset now)) (breakers s)).1 |>
  end.

Record ProviderInCooldown := mkInCooldown {
  coolingProvider : string;
  coolingFailureCount : Z;
  cooldownRemainingMs : option Z;
  lastFailureAt : option Z;
}.

Fixpoint blocked (now : Z) (sts : list CircuitBreakerStatus) (r : Registry json) : Registry json * list ProviderInCooldown :=
  match sts with
  | [] => (r, [])
  | st :: sts =>
      if isEmpty (st_name st) then blocked now sts r
      else
        let '(r, can) := visit now (st_name st) (canExecute now) r in
        let '(r, l) := blocked now sts r in
        (r, if can then l
            else mkInCooldown (st_name st) (st_failureCount st)
                   (if st_retryAfterMs st =? 0 then None else Some (st_retryAfterMs st)) (st_lastFailureTime st) :: l)
  end.

Definition getProvidersInCooldown (now : Z) (s : Providers) : Providers * list ProviderInCooldown :=
  let '(r, sts) := getAllCircuitBreakerStatuses now (breakers s) in
  let '(r, l) := blocked now sts r in
  (s <| breakers := r |>, l).

(** The sweep of the stamps, every minute. *)
Definition connectionFailureSweep (now : Z) (s : Providers) : Providers :=
  s <| lastConnectionFailure := mprune (fun _ ts => CONNECTION_FAILURE_DEDUP_MS <? now - ts) (lastConnectionFailure s) |>.
End Operations.

(** ** The registry, seen from one name *)

Section Lookup.
Implicit Types (r : Registry json) (b : Breaker) (o : CircuitBreakerOptions json).

Lemma evict_small now r : msize (reg r) < MAX_REGISTRY_SIZE -> evictColdBreakersIfNeeded now r = r.
Proof. intros H. unfold evictColdBreakersIfNeeded. by rewrite (proj2 (Z.ltb_lt _ _) H). Qed.

(** Getting a breaker leaves the others alone, unless a full registry makes room. *)
Lemma getCircuitBreaker_other now name opts r n :
  n <> name -> mhas name (reg r) = true \/ msize (reg r) < MAX_REGISTRY_SIZE ->
  mget n (reg (getCircuitBreaker now name opts r)) = mget n (reg r).
Proof.
  intros Hn Hr. unfold getCircuitBreaker.
  assert (H0 : mget n (reg (if mhas name (reg r) then r
    else let r := evictColdBreakersIfNeeded now r in
         r <| reg := mset name (newCircuitBreaker name (orElse opts noOptions) (rworld r)) (reg r) |>)) = mget n (reg r)).
  { destruct (mhas name (reg r)) eqn:Eh; [done|]. destruct Hr as [Hr|Hr]; [congruence|].
    rewrite evict_small by done. cbn. by apply mget_mset_ne. }
  destruct opts as [o|]; [|done]. destruct (mget name _) as [b|]; [|done]. cbn. by rewrite mget_mset_ne.
Qed.

Lemma useBreaker_other {A} name held (f : Cell json -> Cell json * A) r n :
  n <> name -> mget n (reg (useBreaker name held f r).1) = mget n (reg r).
Proof. intros Hn. unfold useBreaker. destruct (mget name (reg r)) as [b|]; destruct (f _); cbn; [by apply mget_mset_ne|done]. Qed.

Lemma useBreaker_same {A} name held (f : Cell json -> Cell json * A) r b :
  mget name (reg r) = Some b ->
  mget name (reg (useBreaker name held f r).1) = Some (brk (f (mkCell b (rworld r))).1) /\
  (useBreaker name held f r).2 = (f (mkCell b (rworld r))).2.
Proof. intros Hb. unfold useBreaker. rewrite Hb. destruct (f _) as [c a]; cbn. by rewrite mget_mset_eq. Qed.

(** The breaker that [getCircuitBreaker] with options returns: the one there was, or a
    new one, with the options applied. *)
Lemma getCircuitBreaker_options now name o r :
  mhas name (reg r) = true \/ msize (reg r) < MAX_REGISTRY_SIZE ->
  let b := match mget name (reg r) with Some b => b | None => newCircuitBreaker name o (rworld r) end in
  mget name (reg (getCircuitBreaker now name (Some o) r)) = Some (brk (applyOptions o (mkCell b (rworld r)))).
Proof.
  intros Hr b. unfold getCircuitBreaker, b, mhas in *. destruct (mget name (reg r)) as [b0|] eqn:Eb.
  - rewrite Eb. cbn. by rewrite mget_mset_eq.
  - destruct Hr as [Hr|Hr]; [done|]. rewrite evict_small by done. cbn. rewrite mget_mset_eq. cbn. by rewrite mget_mset_eq.
Qed.
End Lookup.

(** What the options leave of a breaker, and what they set. *)
Lemma applyOptions_fields (o : CircuitBreakerOptions json) c :
  o_halfOpenRequests o = None ->
  let b := brk c in let b' := brk (applyOptions o c) in
  state b' = state b /\ failureCount b' = failureCount b /\ halfOpenProbeStartedAt b' = halfOpenProbeStartedAt b /\
  failureThreshold b' = orElse (o_failureThreshold o) (failureThreshold b) /\
  resetTimeout b' = orElse (o_resetTimeout o) (resetTimeout b) /\
  degradationThreshold b' = orElse (o_degradationThreshold o) (degradationThreshold b) /\
  maxBackoffMultiplier b' = orElse (o_maxBackoffMultiplier o) (maxBackoffMultiplier b).
Proof.
  intros Ho b b'. unfold b, b', applyOptions. rewrite persistToDb_brk, Ho. cbn.
  destruct (o_onStateChange o), (o_classifyError o); cbn; done.
Qed.

(** A breaker that is not open and has no probe out lets the call through unchanged. *)
Lemma canExecute_plain {E} now (c : Cell E) :
  state (brk c) = CLOSED \/ state (brk c) = DEGRADED -> halfOpenProbeStartedAt (brk c) = None -> canExecute now c = (c, true).
Proof.
  intros Hs Hp. assert (Hr : refreshOpenState now c = c).
  { apply refresh_inert; [|done]. by destruct Hs as [-> | ->]. }
  unfold canExecute. rewrite Hr. by destruct Hs as [-> | ->].
Qed.

(** An open one refuses it until its cooldown has passed. *)
Lemma canExecute_open {E} now t (c : Cell E) :
  state (brk c) = OPEN -> halfOpenProbeStartedAt (brk c) = None -> lastFailureTime (brk c) = Some t -> t <> 0 ->
  now - t < effectiveCooldown (brk c) -> canExecute now c = (c, false).
Proof.
  intros Hs Hp Ht Ht0 Hlt.
  assert (Hr : refreshOpenState now c = c).
  { unfold refreshOpenState, shouldAttemptReset. rewrite Hs, Ht, Hp.
    rewrite (proj2 (Z.eqb_neq t 0)) by done. rewrite (proj2 (Z.leb_gt _ _)) by lia. done. }
  unfold canExecute. by rewrite Hr, Hs.
Qed.

(** An unclassified failure rests a breaker for its reset timeout at least. *)
Lemma effectiveCooldown_plain {E} (b : CircuitBreaker E) :
  lastFailureKind b = None -> 0 <= resetTimeout b -> 1 <= maxBackoffMultiplier b -> resetTimeout b <= effectiveCooldown b.
Proof.
  intros Hk Hr Hm. assert (Hb : cooldownBase b = resetTimeout b) by (unfold cooldownBase; by rewrite Hk).
  rewrite effectiveCooldown_escalate, Hb. by apply escalate_bounds.
Qed.

(** What the transitions leave of a failure. *)
Definition keeps {E} (b b' : CircuitBreaker E) : Prop :=
  lastFailureTime b' = lastFailureTime b /\ lastFailureKind b' = lastFailureKind b /\ resetTimeout b' = resetTimeout b /\
  maxBackoffMultiplier b' = maxBackoffMultiplier b /\
  (halfOpenProbeStartedAt b = None -> halfOpenProbeStartedAt b' = None).

Lemma keeps_refl {E} (b : CircuitBreaker E) : keeps b b.
Proof. by repeat split. Qed.

Lemma keeps_trans {E} (a b c : CircuitBreaker E) : keeps a b -> keeps b c -> keeps a c.
Proof. intros (? & ? & ? & ? & ?) (? & ? & ? & ? & ?). repeat split; try congruence; auto. Qed.

Lemma keeps_transition {E} now s why (c : Cell E) : keeps (brk c) (brk (transition now s why c)).
Proof. unfold transition. cbn [brk]. destruct (decide (s = HALF_OPEN)); by repeat split. Qed.

Lemma keeps_total {E} now kind (c : Cell E) : keeps (brk c) (brk (totalFailureTransition now kind c)).
Proof.
  unfold totalFailureTransition, openCircuit. destruct (state (brk c)).
  - case_if; [apply keeps_transition|]. case_if; [apply keeps_transition|apply keeps_refl].
  - case_if; [apply keeps_transition|apply keeps_refl].
  - apply keeps_refl.
  - eapply keeps_trans; [|apply keeps_transition]. by repeat split.
Qed.

(** What an unclassified failure writes down. *)
Lemma onFailure_plain {E} now (c : Cell E) :
  let b' := brk (onFailure now None c) in
  lastFailureTime b' = Some now /\ lastFailureKind b' = None /\ resetTimeout b' = resetTimeout (brk c) /\
  maxBackoffMultiplier b' = maxBackoffMultiplier (brk c) /\
  (halfOpenProbeStartedAt (brk c) = None -> halfOpenProbeStartedAt b' = None).
Proof.
  unfold onFailure. cbn iota. rewrite persistToDb_brk.
  exact (keeps_total now None (mkCell (countFailure now None (brk c)) (wld c))).
Qed.

(** ** Failures and the registry *)

Section Failures.
Context (E : ProviderCooldown.Environment) (parseJson : string -> option json) (stringify : json -> string).
Notation fail now p c profile net s := (recordProviderFailure E parseJson stringify now (Some p) (Some c) profile false net s).

Lemma named_some c : isEmpty c = false -> named (Some c) = Some c.
Proof. intros H. unfold named. by rewrite H. Qed.

Lemma connName_inj p c c' : connectionCircuitBreakerName p c = connectionCircuitBreakerName p c' -> c = c'.
Proof. unfold connectionCircuitBreakerName. intros H%append_inj_l. by apply append_inj_l in H. Qed.

Lemma connName_provider p c : connectionCircuitBreakerName p c <> p.
Proof.
  intros H. apply (f_equal String.length) in H. unfold connectionCircuitBreakerName in H. rewrite !append_length in H. cbn in H. lia.
Qed.

(** The one breaker that a failure of a connection can touch. *)
Lemma fail_other now p c profile queue net s n :
  let name := failureCircuitBreakerName p (Some c) net in
  n <> name -> mhas name (reg (breakers s)) = true \/ msize (reg (breakers s)) < MAX_REGISTRY_SIZE ->
  mget n (reg (breakers (recordProviderFailure E parseJson stringify now (Some p) (Some c) profile queue net s))) = mget n (reg (breakers s)).
Proof.
  intros name Hn Hr. unfold recordProviderFailure. destruct (named (Some p)) as [p'|] eqn:Ep; [|done].
  assert (p' = p) as -> by (unfold named in Ep; by destruct (isEmpty p); simplify_eq).
  destruct queue; [done|].
  destruct (networkStep now p net s) as [s1|] eqn:E1; [|done].
  assert (H1 : breakers s1 = breakers s) by (unfold networkStep in E1; repeat case_if_in E1; by simplify_eq).
  destruct (connectionStep now p (Some c) s1) as [s2|] eqn:E2; [|by rewrite H1].
  assert (H2 : breakers s2 = breakers s1) by (unfold connectionStep in E2; destruct (named (Some c)); repeat case_if_in E2; by simplify_eq).
  unfold countStep. fold name. rewrite H2, H1. unfold configureProviderBreaker.
  assert (Hne : isEmpty name = false).
  { unfold name, failureCircuitBreakerName. unfold named in Ep. destruct (isEmpty p) eqn:Hp; [done|].
    unfold named. destruct (isEmpty c), net; try done; destruct p; done. }
  rewrite Hne.
  set (r := getCircuitBreaker now name (Some (breakerOptions E parseJson stringify p profile)) (breakers s)).
  pose proof (useBreaker_other name (got name r) (failBreaker now) r n Hn) as Hu.
  destruct (useBreaker name (got name r) (failBreaker now) r) as [r' w] eqn:Eu.
  assert (Hr' : mget n (reg r') = mget n (reg (breakers s))) by (rewrite <- (getCircuitBreaker_other now name (Some (breakerOptions E parseJson stringify p profile)) (breakers s) n Hn Hr); exact Hu).
  destruct w; exact Hr'.
Qed.

(** Repeating a failure before its five seconds are over changes nothing. *)
Lemma fail_repeated now p c profile s :
  isEmpty p = false -> isEmpty c = false ->
  recent (dedupKey p c) now CONNECTION_FAILURE_DEDUP_MS (lastConnectionFailure s) = true ->
  fail now p c profile false s = s.
Proof.
  intros Hp Hc Hr. unfold recordProviderFailure. rewrite (named_some p Hp). cbn [networkStep].
  unfold connectionStep. by rewrite (named_some c Hc), Hr.
Qed.

(** ** A run of failures *)

Notation options p := (breakerOptions E parseJson stringify p None).
Notation window p := (ProviderCooldown.windowProfile E p).
Notation F p := (ProviderCooldown.circuitBreakerThreshold (window p)).
Notation D p := (ProviderCooldown.degradationThreshold (window p)).
Notation R p := (ProviderCooldown.circuitBreakerReset (window p)).
Notation M p := (ProviderCooldown.maxBackoffMultiplier (window p)).

Definition failures (p c : string) (ts : list Z) (s : Providers) : Providers := foldl (fun s t => fail t p c None false s) s ts.

(** Instants five seconds apart at least, the first such after [last]. *)
Fixpoint spaced (last : Z) (ts : list Z) : Prop :=
  match ts with [] => True | t :: ts => last + CONNECTION_FAILURE_DEDUP_MS <= t /\ spaced t ts end.

(** The state of a breaker of threshold [f], degraded from [d] on, after [k] failures. *)
Definition stateAfter (f d k : Z) : CircuitState := if f <=? k then OPEN else if d <=? k then DEGRADED else CLOSED.

(** Nothing is known of the connection: no breaker, no row, and room for one. *)
Definition unknownBreaker (name : string) (r : Registry json) : Prop :=
  mget name (reg r) = None /\ msize (reg r) < MAX_REGISTRY_SIZE /\ mget name (w_rows (rworld r)) = None.

(** The breaker [b] of a connection of [p] after [k] failures, the last at [t]. *)
Definition counted (p : string) (k : Z) (b : Breaker) : Prop :=
  state b = stateAfter (F p) (D p) k /\ failureCount b = k /\ halfOpenProbeStartedAt b = None.

Definition afterFailures (p c : string) (k last : Z) (s : Providers) : Prop :=
  let name := connectionCircuitBreakerName p c in
  match mget name (reg (breakers s)) with
  | Some b => counted p k b
  | None => k = 0 /\ unknownBreaker name (breakers s)
  end /\
  mwf (lastConnectionFailure s) /\
  (mget (dedupKey p c) (lastConnectionFailure s) = None \/ mget (dedupKey p c) (lastConnectionFailure s) = Some last).

Definition profileOk (p : string) : Prop := 0 < D p <= F p /\ 0 < R p /\ 1 <= M p.

Lemma newBreaker_counted p name o w : profileOk p -> mget name (w_rows w) = None -> counted p 0 (newCircuitBreaker (E := json) name o w).
Proof.
  intros (H & _) Hrow. unfold newCircuitBreaker, restoreFromDb. cbn [cb_name]. rewrite Hrow.
  assert (Hs : stateAfter (F p) (D p) 0 = CLOSED) by (unfold stateAfter; rewrite !(proj2 (Z.leb_gt _ _)) by lia; done).
  unfold counted. rewrite Hs. by destruct (w_up w).
Qed.

(** The options of the profile on a breaker with [k] failures. *)
Lemma options_counted p k b w : counted p k b ->
  let b' := brk (applyOptions (options p) (mkCell b w)) in
  counted p k b' /\ failureThreshold b' = F p /\ degradationThreshold b' = D p /\ resetTimeout b' = R p /\ maxBackoffMultiplier b' = M p.
Proof.
  intros (Hs & Hf & Hp) b'. destruct (applyOptions_fields (options p) (mkCell b w) eq_refl) as (H1 & H2 & H3 & H4 & H5 & H6 & H7).
  fold b' in H1, H2, H3, H4, H5, H6, H7. cbn [brk] in *.
  unfold counted. rewrite H1, H2, H3, H4, H5, H6, H7. by repeat split.
Qed.

(** One failure more. *)
Lemma failBreaker_counted p k now b w :
  profileOk p -> 0 < now -> 0 <= k < F p -> counted p k b ->
  failureThreshold b = F p -> degradationThreshold b = D p -> resetTimeout b = R p -> maxBackoffMultiplier b = M p ->
  let '(c, warned) := failBreaker now (mkCell b w) in
  let b' := brk c in
  counted p (k + 1) b' /\ lastFailureTime b' = Some now /\ R p <= effectiveCooldown b' /\ warned = (F p <=? k + 1).
Proof.
  intros (HD & HR & HM) Hnow Hk (Hs & Hf & Hp) HF Hd Hr Hm. unfold failBreaker.
  assert (Hopen : state b = CLOSED \/ state b = DEGRADED).
  { rewrite Hs. unfold stateAfter. rewrite (proj2 (Z.leb_gt _ _)) by lia. destruct (D p <=? k); auto. }
  rewrite (canExecute_plain now (mkCell b w) Hopen Hp). cbn [negb].
  assert (Hstep := failAt_step now (mkCell b w)). cbn [brk] in Hstep.
  destruct Hstep as (G1 & G2 & G3 & G4 & _); [lia|rewrite Hs, Hf; unfold stateAfter, stateAfterFailures; by rewrite HF, Hd|].
  destruct (onFailure_plain now (mkCell b w)) as (T1 & T2 & T3 & T4 & T5). cbn [brk] in *. specialize (T5 Hp).
  set (c := onFailure now None (mkCell b w)) in *.
  assert (Hcool : R p <= effectiveCooldown (brk c)).
  { rewrite <- Hr, <- T3. apply effectiveCooldown_plain; [done|lia|lia]. }
  assert (Hcnt : counted p (k + 1) (brk c)).
  { unfold counted. rewrite G1, G2, T5, Hf. unfold stateAfter, stateAfterFailures. by rewrite HF, Hd. }
  assert (Hst : state (brk c) = stateAfter (F p) (D p) (k + 1)) by apply Hcnt. unfold stateAfter in Hst.
  destruct (Z.leb_spec (F p) (k + 1)).
  - rewrite (canExecute_open now now c) by (done || lia). by repeat split; try apply Hcnt.
  - rewrite (canExecute_plain now c) by (rewrite ?Hst; destruct (D p <=? k + 1); auto). by repeat split; try apply Hcnt.
Qed.

Lemma pruneOldest_snoc n k t (m : jsmap string Z) : (1 <= n)%nat -> mget k m = None -> mget k (pruneOldest n (m ++ [(k, t)])) = Some t.
Proof.
  intros Hn. induction m as [|[k' v] m IH]; cbn -[Nat.leb].
  - rewrite (proj2 (Nat.leb_le 1 n)) by lia. cbn. by rewrite decide_True.
  - intros Hm. case_decide as Hk; [done|]. case_if; [|by apply IH].
    cbn. rewrite decide_False by done. rewrite mget_app, Hm. cbn. by rewrite decide_True.
Qed.

Lemma stamp_read n key now (m : jsmap string Z) : (1 <= n)%nat -> mwf m -> mget key (stamp n key now m) = Some now.
Proof.
  intros Hn Hm. unfold stamp. pose proof (mget_mdel_eq key m Hm) as Hd. rewrite mset_new by (unfold mhas; by rewrite Hd).
  by apply pruneOldest_snoc.
Qed.
Lemma pruneOldest_sublist {V} n (m : jsmap string V) : sublist (pruneOldest n m) m.
Proof.
  induction m as [|kv m IH]; [constructor|]. cbn -[Nat.leb]. case_if; [done|]. by apply sublist_cons.
Qed.

Lemma stamp_mwf n key now m : mwf m -> mwf (stamp n key now m).
Proof. intros H. eapply mwf_sublist; [apply pruneOldest_sublist|]. by apply mwf_mset, mwf_mdel. Qed.

Lemma fail_step p c k last now s :
  isEmpty p = false -> isEmpty c = false -> profileOk p -> 0 < now -> last + CONNECTION_FAILURE_DEDUP_MS <= now ->
  0 <= k < F p -> afterFailures p c k last s ->
  let s' := fail now p c None false s in
  afterFailures p c (k + 1) now s' /\
  exists b, mget (connectionCircuitBreakerName p c) (reg (breakers s')) = Some b /\ counted p (k + 1) b /\
    lastFailureTime b = Some now /\ R p <= effectiveCooldown b.
Proof.
  intros Hp Hc Hok Hnow Hlast Hk (Hreg & Hwf & Hstamp) s'. unfold s', recordProviderFailure.
  rewrite (named_some p Hp). cbn [networkStep]. unfold connectionStep. rewrite (named_some c Hc).
  assert (Hrecent : recent (dedupKey p c) now CONNECTION_FAILURE_DEDUP_MS (lastConnectionFailure s) = false).
  { unfold recent. destruct Hstamp as [-> | ->]; [done|]. rewrite (proj2 (Z.ltb_ge _ _)) by lia. apply andb_false_r. }
  rewrite Hrecent. set (s1 := s <| lastConnectionFailure := _ |>).
  assert (Hs1 : mwf (lastConnectionFailure s1) /\ mget (dedupKey p c) (lastConnectionFailure s1) = Some now).
  { split; [by apply stamp_mwf|]. apply stamp_read; [unfold MAX_CONNECTION_FAILURE_DEDUP_ENTRIES; lia|done]. }
  unfold countStep, failureCircuitBreakerName, configureProviderBreaker. rewrite (named_some c Hc).
  set (name := connectionCircuitBreakerName p c) in *.
  assert (isEmpty name = false) as -> by (unfold name, connectionCircuitBreakerName; by destruct p).
  change (breakers s1) with (breakers s).
  assert (Hroom : mhas name (reg (breakers s)) = true \/ msize (reg (breakers s)) < MAX_REGISTRY_SIZE).
  { unfold mhas. destruct (mget name (reg (breakers s))); [by left|right]. by destruct Hreg as (_ & _ & ? & _). }
  pose proof (getCircuitBreaker_options now name (options p) (breakers s) Hroom) as Hget. cbv zeta in Hget.
  set (r := getCircuitBreaker now name (Some (options p)) (breakers s)) in *.
  set (b0 := match mget name (reg (breakers s)) with Some b => b | None => newCircuitBreaker name (options p) (rworld (breakers s)) end) in *.
  assert (Hb0 : counted p k b0).
  { unfold b0. destruct (mget name (reg (breakers s))) as [b|]; [done|]. destruct Hreg as (-> & _ & _ & Hrow).
    by apply newBreaker_counted. }
  destruct (options_counted p k b0 (rworld (breakers s)) Hb0) as (Hb1 & H1 & H2 & H3 & H4).
  set (b1 := brk (applyOptions (options p) (mkCell b0 (rworld (breakers s))))) in *.
  destruct (useBreaker_same name (got name r) (failBreaker now) r b1 Hget) as [Hu _].
  pose proof (failBreaker_counted p k now b1 (rworld r) Hok Hnow Hk Hb1 H1 H2 H3 H4) as Hf.
  destruct (useBreaker name (got name r) (failBreaker now) r) as [r' warned]. cbn [fst] in Hu.
  destruct (failBreaker now (mkCell b1 (rworld r))) as [c' w']. cbn [fst] in Hu. destruct Hf as (Hf1 & Hf2 & Hf3 & _).
  assert (Hfin : forall s2, breakers s2 = r' -> lastConnectionFailure s2 = lastConnectionFailure s1 ->
    afterFailures p c (k + 1) now s2 /\
    exists b, mget name (reg (breakers s2)) = Some b /\ counted p (k + 1) b /\ lastFailureTime b = Some now /\ R p <= effectiveCooldown b).
  { intros s2 Hr2 Hl2. unfold afterFailures. fold name. rewrite Hr2, Hl2, Hu. split.
    - split; [done|]. split; [apply Hs1|]. right. apply Hs1.
    - exists (brk c'). by repeat split; try apply Hf1. }
  destruct warned; by apply Hfin.
Qed.
End Failures.

(** ** Success *)

Lemma got_present name r b : mget name (reg r) = Some b -> got name r = b.
Proof. intros H. unfold got. by rewrite H. Qed.

Lemma visit_present {A} now name (f : Cell json -> Cell json * A) r b :
  mget name (reg r) = Some b -> visit now name f r = useBreaker name b f r.
Proof.
  intros H. unfold visit, getProviderBreaker, getCircuitBreaker, mhas. rewrite H. cbn iota. by rewrite (got_present _ _ _ H).
Qed.

(** The state of a breaker at [now]: one whose rest is over is on probation. *)
Definition stateAt {E} (now : Z) (b : CircuitBreaker E) : CircuitState :=
  match state b with OPEN => if shouldAttemptReset now b then HALF_OPEN else OPEN | st => st end.

(** What a success leaves of a state with [n] failures: a probe closes it with none, an open
    breaker stays as it is, and otherwise one failure is forgotten, which ends the
    degradation when few enough are left. *)
Definition afterSuccess (st : CircuitState) (n threshold : Z) : CircuitState * Z :=
  match st with
  | HALF_OPEN => (CLOSED, 0)
  | OPEN => (OPEN, n)
  | DEGRADED => (if Z.max 0 (n - 1) <=? threshold then CLOSED else DEGRADED, Z.max 0 (n - 1))
  | CLOSED => (CLOSED, Z.max 0 (n - 1))
  end.

(** [b'] is [b], looked at in time. *)
Definition seenAt {E} (now : Z) (b b' : CircuitBreaker E) : Prop :=
  state b' = stateAt now b /\ failureCount b' = failureCount b /\ degradationThreshold b' = degradationThreshold b.

Lemma refresh_at {E} now (c : Cell E) : seenAt now (brk c) (brk (refreshOpenState now c)).
Proof.
  unfold seenAt, stateAt, refreshOpenState. destruct (state (brk c)) eqn:Es; cbn [andb]; rewrite ?bool_decide_true, ?bool_decide_false by done; cbn [andb];
    try (destruct (halfOpenProbeStartedAt (brk c)); [by repeat case_if|by rewrite Es]).
  destruct (shouldAttemptReset now (brk c)) eqn:Ea; [by rewrite persistToDb_brk|].
  destruct (halfOpenProbeStartedAt (brk c)); by rewrite Es.
Qed.

Lemma getStatus_at {E} now (c : Cell E) :
  st_state (getStatus now c).2 = stateAt now (brk c) /\ seenAt now (brk c) (brk (getStatus now c).1).
Proof. unfold getStatus, getRetryAfterMs. cbn. rewrite !refresh_idem. pose proof (refresh_at now c) as H. split; [apply H|done]. Qed.

Lemma onSuccess_at {E} now (c : Cell E) : state (brk c) <> OPEN ->
  (state (brk (onSuccess now c)), failureCount (brk (onSuccess now c))) =
  afterSuccess (state (brk c)) (failureCount (brk c)) (degradationThreshold (brk c)).
Proof.
  intros Hs. unfold onSuccess. rewrite persistToDb_brk. destruct (state (brk c)) eqn:Es; try done; cbn [state brk]; cbn; rewrite Es; cbn [andb].
  - by rewrite bool_decide_false by done; cbn; rewrite Es.
  - rewrite bool_decide_true by done. cbn [andb afterSuccess]. case_if; [done|]. by cbn; rewrite Es.
Qed.

(** [getStatus] of the breaker in the registry. *)
Lemma visit_at now name r b : mget name (reg r) = Some b ->
  exists r' b' st, visit now name (getStatus now) r = (r', st) /\ st_state st = stateAt now b /\
    mget name (reg r') = Some b' /\ seenAt now b b' /\ forall n, n <> name -> mget n (reg r') = mget n (reg r).
Proof.
  intros Hb. rewrite (visit_present _ _ _ _ _ Hb).
  destruct (useBreaker_same name b (getStatus now) r b Hb) as [H1 H2].
  pose proof (fun n Hn => useBreaker_other name b (getStatus now) r n Hn) as Ho.
  destruct (getStatus_at now (mkCell b (rworld r))) as [G1 G2].
  destruct (useBreaker name b (getStatus now) r) as [r' st]. cbn [fst snd] in *.
  eexists r', _, st. by rewrite H2.
Qed.

Lemma success_at now name held r b b0 : mget name (reg r) = Some b -> seenAt now b0 b -> stateAt now b0 <> OPEN ->
  exists b', mget name (reg (useBreaker name held (only (onSuccess now)) r).1) = Some b' /\
    (state b', failureCount b') = afterSuccess (stateAt now b0) (failureCount b0) (degradationThreshold b0).
Proof.
  intros Hb (H1 & H2 & H3) Hs. destruct (useBreaker_same name held (only (onSuccess now)) r b Hb) as [-> _].
  eexists. split; [done|]. rewrite <- H1, <- H2, <- H3. apply (onSuccess_at now (mkCell b (rworld r))). cbn. congruence.
Qed.

(** The success of the provider itself. *)
Lemma parentSuccess_at now p r b : mget p (reg r) = Some b ->
  (exists b', mget p (reg (parentSuccess now p r)) = Some b' /\
     (state b', failureCount b') = afterSuccess (stateAt now b) (failureCount b) (degradationThreshold b)) /\
  forall n, n <> p -> mget n (reg (parentSuccess now p r)) = mget n (reg r).
Proof.
  intros Hb. unfold parentSuccess. destruct (visit_at now p r b Hb) as (r1 & b1 & st & -> & Hst & Hb1 & Hs1 & Ho). rewrite Hst. case_bool_decide as Es.
  - split; [|done]. exists b1. split; [done|]. destruct Hs1 as (-> & -> & _). by rewrite Es.
  - split; [by eapply success_at|]. intros n Hn. rewrite useBreaker_other by done. by apply Ho.
Qed.

(** ** Properties *)

Section Properties.
Context (E : ProviderCooldown.Environment) (parseJson : string -> option json) (stringify : json -> string).
Notation record := (recordProviderFailure E parseJson stringify).

(** C15. One connection's failures never open the breaker of another.  While the registry
    has room, recording a failure of the connection [c] that is no network error leaves
    the breaker of the provider and that of each of its other connections as it was. *)
Theorem connection_failure_isolated now p c c' profile queue s :
  isEmpty c = false -> c' <> c ->
  mhas (connectionCircuitBreakerName p c) (reg (breakers s)) = true \/ msize (reg (breakers s)) < MAX_REGISTRY_SIZE ->
  let s' := record now (Some p) (Some c) profile queue false s in
  mget p (reg (breakers s')) = mget p (reg (breakers s)) /\
  mget (connectionCircuitBreakerName p c') (reg (breakers s')) = mget (connectionCircuitBreakerName p c') (reg (breakers s)).
Proof.
  intros Hc Hne Hr s'.
  assert (Hname : failureCircuitBreakerName p (Some c) false = connectionCircuitBreakerName p c)
    by (unfold failureCircuitBreakerName; by rewrite (named_some c Hc)).
  split; apply fail_other; rewrite ?Hname; auto.
  - apply not_eq_sym, connName_provider.
  - intros H. by apply connName_inj in H.
Qed.

(** Failures in the same five seconds count once: a burst of failures of one
    connection leaves everything as its first failure did. *)
Theorem burst_counts_once p c profiles t ts s :
  isEmpty p = false -> isEmpty c = false -> 0 < t -> mwf (lastConnectionFailure s) ->
  recent (dedupKey p c) t CONNECTION_FAILURE_DEDUP_MS (lastConnectionFailure s) = false ->
  Forall (fun u => t <= u < t + CONNECTION_FAILURE_DEDUP_MS) ts ->
  let first := record t (Some p) (Some c) (profiles t) false false s in
  foldl (fun s u => record u (Some p) (Some c) (profiles u) false false s) first ts = first.
Proof.
  intros Hp Hc Ht Hwf Hrec Hts first.
  assert (Hstamp : mget (dedupKey p c) (lastConnectionFailure first) = Some t).
  { unfold first, recordProviderFailure. rewrite (named_some p Hp). cbn [networkStep]. unfold connectionStep.
    rewrite (named_some c Hc), Hrec. unfold countStep. destruct (useBreaker _ _ _ _) as [r w].
    destruct w; apply stamp_read; solve [done | unfold MAX_CONNECTION_FAILURE_DEDUP_ENTRIES; lia]. }
  induction Hts as [|u ts Hu _ IH]; [done|]. cbn [foldl].
  rewrite (fail_repeated E parseJson stringify u p c (profiles u) first Hp Hc); [exact IH|].
  unfold recent. rewrite Hstamp, (proj2 (Z.eqb_neq t 0)) by lia. cbn. apply Z.ltb_lt. lia.
Qed.

Notation window p := (ProviderCooldown.windowProfile E p).
Notation F p := (ProviderCooldown.circuitBreakerThreshold (window p)).
Notation R p := (ProviderCooldown.circuitBreakerReset (window p)).

(** C14. The breaker of a connection opens at the threshold of its provider's profile.
    Nothing known of the connection, [n] failures five seconds apart, [n] at most the
    threshold, leave its breaker with [n] failures, closed, degraded or open as the
    profile says; it refuses calls exactly when [n] is the threshold, for the reset
    timeout of the profile at least. *)
Theorem spaced_failures_open p c t ts s :
  isEmpty p = false -> isEmpty c = false -> profileOk E p ->
  lastConnectionFailure s = [] -> unknownBreaker (connectionCircuitBreakerName p c) (breakers s) ->
  spaced 0 (ts ++ [t]) ->
  let n := Z.of_nat (length ts) + 1 in
  n <= F p ->
  exists b, mget (connectionCircuitBreakerName p c) (reg (breakers (failures E parseJson stringify p c (ts ++ [t]) s))) = Some b /\
    failureCount b = n /\ state b = stateAfter (F p) (ProviderCooldown.degradationThreshold (window p)) n /\
    forall w now, now < t + R p -> (canExecute now (mkCell b w)).2 = (n <? F p).
Proof.
  intros Hp Hc Hok Hl Hun Hsp n Hn.
  assert (Hgen : forall ts k last s, spaced last (ts ++ [t]) -> 0 <= last -> 0 <= k -> k + Z.of_nat (length ts) + 1 <= F p ->
    afterFailures E p c k last s ->
    exists b, mget (connectionCircuitBreakerName p c) (reg (breakers (failures E parseJson stringify p c (ts ++ [t]) s))) = Some b /\
      counted E p (k + Z.of_nat (length ts) + 1) b /\ lastFailureTime b = Some t /\ R p <= effectiveCooldown b).
  { clear ts s Hl Hun Hsp n Hn. unfold CONNECTION_FAILURE_DEDUP_MS in *. induction ts as [|u ts IH]; cbn [app spaced length]; intros k last s [Hu Hsp] Hl Hk Hn Hs.
    - destruct (fail_step E parseJson stringify p c k last t s) as [_ Hb]; try done; try (unfold CONNECTION_FAILURE_DEDUP_MS in *; lia).
      by rewrite Z.add_0_r.
    - unfold failures. cbn [foldl].
      destruct (fail_step E parseJson stringify p c k last u s) as [Ha _]; try done; try (unfold CONNECTION_FAILURE_DEDUP_MS in *; lia).
      destruct (IH (k + 1) u _ Hsp ltac:(unfold CONNECTION_FAILURE_DEDUP_MS in *; lia) ltac:(lia) ltac:(lia) Ha) as (b & H1 & H2 & H3).
      exists b. split; [exact H1|]. split; [|done]. by replace (k + Z.of_nat (S (length ts)) + 1) with (k + 1 + Z.of_nat (length ts) + 1) by lia. }
  destruct (Hgen ts 0 0 s Hsp) as (b & H1 & (H2 & H3 & H4) & H5 & H6); try lia.
  { unfold afterFailures. destruct Hun as (Hu1 & Hu2). rewrite Hu1, Hl. repeat split; try done; try apply Hu2; [apply mwf_nil|by left]. }
  rewrite Z.add_0_l in H2, H3. fold n in H2, H3.
  exists b. split; [done|]. split; [done|]. split; [done|]. intros w now Hnow.
  assert (Ht : t <> 0). { clear -Hsp. assert (Hpos : forall ts last, 0 <= last -> spaced last (ts ++ [t]) -> 0 < t).
    { intros l. induction l as [|u l IH]; cbn [app spaced]; unfold CONNECTION_FAILURE_DEDUP_MS; intros last Hl [Hu H]; [lia|]. apply (IH u); [lia|done]. }
    specialize (Hpos ts 0 ltac:(lia) Hsp). lia. }
  unfold stateAfter in H2.
  destruct (Z.leb_spec (F p) n).
  - rewrite (canExecute_open now t (mkCell b w)) by (done || cbn [brk]; lia). symmetry. apply Z.ltb_ge. lia.
  - rewrite (canExecute_plain now (mkCell b w)); [symmetry; apply Z.ltb_lt; lia| |done].
    cbn [brk]. rewrite H2. destruct (_ <=? n); auto.
Qed.

(** C16. A success of a connection is recorded on every layer, both breakers being
    registered.  When the connection's
    breaker is on probation at [now] (or its rest is just over), it is closed with no
    failures; otherwise it forgets one.  The provider's breaker does the same by its own
    state: on probation it is closed with no failures, open it stays open, else it forgets
    one failure.  The cooldown tracker has forgotten the connection's failures.  A success
    while the connection's breaker is still open changes none of them. *)
Theorem probe_success_closes now p c s b bp st E' :
  isEmpty p = false -> isEmpty c = false -> p <> "unknown"%string ->
  mget (connectionCircuitBreakerName p c) (reg (breakers s)) = Some b -> mget p (reg (breakers s)) = Some bp ->
  let s' := recordProviderSuccess now (Some p) (Some c) s in
  exists b' bp',
  mget (connectionCircuitBreakerName p c) (reg (breakers s')) = Some b' /\ mget p (reg (breakers s')) = Some bp' /\
  (state b', failureCount b') = afterSuccess (stateAt now b) (failureCount b) (degradationThreshold b) /\
  if bool_decide (stateAt now b = OPEN) then bp' = bp /\ tracker s' = tracker s
  else (state bp', failureCount bp') = afterSuccess (stateAt now bp) (failureCount bp) (degradationThreshold bp) /\
       ProviderCooldown.isProviderInCooldown E' p (Some c) st now (tracker s') = false.
Proof.
  intros Hp Hc Hu Hb Hbp s'. unfold s', recordProviderSuccess, successName. rewrite (named_some p Hp), (named_some c Hc).
  rewrite (proj2 (String.eqb_neq _ _) Hu). set (name := connectionCircuitBreakerName p c) in *.
  assert (Hne : p <> name) by (apply not_eq_sym, connName_provider).
  destruct (visit_at now name (breakers s) b Hb) as (r1 & b1 & st1 & -> & Hst1 & Hb1 & Hs1 & Ho1). rewrite Hst1.
  assert (Hbp1 : mget p (reg r1) = Some bp) by (by rewrite Ho1). case_bool_decide as Es.
  { exists b1, bp. split_and!; [done|done| |done|done]. destruct Hs1 as (-> & -> & _). by rewrite Es. }
  cbn [breakers tracker lastConnectionFailure].
  destruct (parentSuccess_at now p r1 bp Hbp1) as [(b3 & Hb3 & Hc3) Ho3].
  assert (Hb1' : mget name (reg (parentSuccess now p r1)) = Some b1) by (rewrite Ho3 by (by apply not_eq_sym); done).
  destruct (success_at now name (got name r1) (parentSuccess now p r1) b1 b Hb1' Hs1 Es) as (b4 & Hb4 & Hc4).
  pose proof (useBreaker_other name (got name r1) (only (onSuccess now)) (parentSuccess now p r1) p Hne) as H5.
  exists b4, b3. split_and!; [exact Hb4|exact (eq_trans H5 Hb3)|exact Hc4|exact Hc3|].
  change (ProviderCooldown.isProviderInCooldown E' p (Some c) st now (ProviderCooldown.recordProviderSuccess p (Some c) (tracker s)) = false).
  unfold ProviderCooldown.isProviderInCooldown, ProviderCooldown.recordProviderSuccess. case_if; [done|].
  destruct (mget (ProviderCooldown.cooldownKey p (Some c)) (ProviderCooldown.cooldownMap (tracker s))) as [e|] eqn:Ee; [|by rewrite Ee].
  cbn. by rewrite mget_mset_eq.
Qed.
End Properties.

(** A profile read from an environment with no variable set. *)
Definition plain : ProviderCooldown.Environment := ProviderCooldown.plainEnvironment.
Definition noJson (s : string) : option json := None.
Definition noText (v : json) : string := EmptyString.
Definition freshProviders : Providers := mkProviders (mkRegistry [] (mkWorld [] true [])) [] [] ProviderCooldown.noCooldowns [].

(** [n] instants five seconds apart, from [t] on. *)
Definition ticks (t : Z) (n : nat) : list Z := (fun i => t + 5000 * Z.of_nat i) <$> seq 0 n.

Example connection_failure_isolated_witness :
  let s' := recordProviderFailure plain noJson noText 5000 (Some "openai") (Some "a") None false false freshProviders in
  mget "openai" (reg (breakers s')) = None /\ mget (connectionCircuitBreakerName "openai" "b") (reg (breakers s')) = None.
Proof. apply (connection_failure_isolated plain noJson noText 5000 "openai" "a" "b" None false freshProviders); [done|done|by right]. Defined.

Example burst_counts_once_witness :
  let record := fun t => recordProviderFailure plain noJson noText t (Some "openai") (Some "a") None false false in
  foldl (fun s u => record u s) (record 5000 freshProviders) [5000; 7000; 9999] = record 5000 freshProviders.
Proof.
  apply (burst_counts_once plain noJson noText "openai" "a" (fun _ => None) 5000 [5000; 7000; 9999] freshProviders); try done.
  - apply mwf_nil.
  - unfold CONNECTION_FAILURE_DEDUP_MS. repeat constructor; lia.
Defined.

Example spaced_failures_open_witness :
  exists b, mget (connectionCircuitBreakerName "openai" "a") (reg (breakers (failures plain noJson noText "openai" "a" (ticks 5000 11 ++ [60000]) freshProviders))) = Some b /\
    failureCount b = 12 /\ state b = OPEN /\ forall w now, now < 90000 -> (canExecute now (mkCell b w)).2 = false.
Proof.
  apply (spaced_failures_open plain noJson noText "openai" "a" 60000 (ticks 5000 11) freshProviders); try done.
Defined.

(** Breakers on probation. *)
Definition probation (name : string) : Breaker := newCircuitBreaker name noOptions (mkWorld [(name, mkSaved "HALF_OPEN" 5 (Some 1000) None (Some 1) None)] true []).

Example probe_success_closes_witness :
  let name := connectionCircuitBreakerName "openai" "a" in
  let s := mkProviders (mkRegistry [(name, probation name); ("openai"%string, probation "openai")] (mkWorld [] true [])) [] [] ProviderCooldown.noCooldowns [] in
  let s' := recordProviderSuccess 5000 (Some "openai") (Some "a") s in
  exists b' bp', mget name (reg (breakers s')) = Some b' /\ mget "openai" (reg (breakers s')) = Some bp' /\
    (state b', failureCount b') = (CLOSED, 0) /\ (state bp', failureCount bp') = (CLOSED, 0) /\
    ProviderCooldown.isProviderInCooldown plain "openai" (Some "a") None 5000 (tracker s') = false.
Proof.
  intros name s. destruct (probe_success_closes 5000 "openai" "a" s (probation name) (probation "openai") None plain) as (b' & bp' & H1 & H2 & H3 & H4); try done.
  exists b', bp'. exact (conj H1 (conj H2 (conj H3 H4))).
Defined.

(** *** Where the code and its comments part *)

(** A network error is stamped for its provider before the connection's own stamp is
    looked at: one that comes just after another failure of its connection is not
    counted, and silences the network errors of the other connections for ten seconds. *)
Theorem network_error_swallowed :
  let record := fun t c net => recordProviderFailure plain noJson noText t (Some "openai") (Some c) None false net in
  let s := record 19000 "c" true (record 12000 "b" true (record 11000 "a" true (record 10000 "a" false freshProviders))) in
  mget "openai" (reg (breakers s)) = None /\ mkeys (lastConnectionFailure s) = ["openai:a"%string].
Proof. by vm_compute. Qed.

(** The rests of a minute and of an hour that the options give a breaker for rate limits
    and spent quotas are not used: a failure recorded here has no kind. *)
Theorem kind_cooldowns_unused :
  let s := failures plain noJson noText "openai" "a" (ticks 5000 12) freshProviders in
  (fun b => (state b, cooldownByKind b, lastFailureKind b, effectiveCooldown b)) <$>
    mget (connectionCircuitBreakerName "openai" "a") (reg (breakers s)) =
  Some (OPEN, [(rate_limit, 60000); (quota_exhausted, 3600000)], None, 30000).
Proof. by vm_compute. Qed.
